(* ===== verification/_CoqProject ===== *)
-Q . S2P
Prelude.v
Externals.v
Utf8.v
Types.v
Stream.v
StreamSpec.v
BlockAccumulator.v
Sse.v
Adapter.v
OaiCompat.v
OaiCompatSpec.v
Anthropic.v
Context.v
Transformers.v
SessionState.v
Policy.v
Transfer.v
Pricing.v
LoopTypes.v
LoopWorld.v
StreamLoop.v
StreamLoopSpec.v
TurnParts.v
Turn.v
ToolGroups.v
ToolDispatch.v
ToolBatch.v
ToolBatchSpec.v
ToolBatchSafety.v
LoopProtocol.v
LoopTermination.v
Queues.v
MessageCodec.v
Agent.v
AgentOps.v
AgentLife.v
AgentPause.v
AgentRun.v
Pipeline.v
Parallel.v
ParallelSpec.v
PipelineAgents.v
ByteFile.v
SessionData.v
Jsonl.v
SessionStore.v
JsonlScan.v
JsonlCrash.v
SessionStoreSpec.v
FileTree.v
Artifact.v
ArtifactFs.v
ArtifactFsSpec.v
ArtifactSpec.v
Compaction.v
LocalThink.v
LocalTool.v
LocalGemma.v
LocalStream.v
LocalStreamSpec.v
Convert.v
ConvertGoogle.v
ConvertBedrock.v
ConvertSpec.v
Mistral.v
LocalRunner.v
LocalPrompt.v
GoogleStream.v
Ollama.v
Responses.v
Transport.v
Proxy.v
Confine.v
EditFile.v
TokenSource.v
Credentials.v
Sandbox.v
Guards.v
Guardrails.v
Web.v
