(* ===== verification/Prelude.v ===== *)
(** * Swink-Agent: a verification library

    Swink-Agent is a Rust library for building LLM agents.  This development
    is a shallow embedding of its core: the conversation data, the streaming
    protocol between providers and the loop, the agent loop with its retries,
    fallbacks, overflow recovery, policies and concurrent tool dispatch, and
    the stateful [Agent] around it.  Source paths in the files' comments
    are relative to the repository; every definition that models code says
    [@src file:first-last [symbol]] in the comment before it.

    ** How the parts interact

    A host calls the [Agent] (Agent.v, AgentOps.v).  A prompt takes its history
    and starts the loop (Turn.v): an outer loop for follow-up messages,
    an inner loop of turns.  A turn polls the steering queue
    (Queues.v), runs the pre-turn policies (Policy.v), prepares the
    context (Context.v, Transformers.v), calls the provider with retries and
    fallbacks (StreamLoop.v), whose events [accumulate_message] (Stream.v)
    makes a message of, and dispatches the tool calls of the message
    (ToolGroups.v, ToolDispatch.v, ToolBatch.v).  The loop reports to its
    host by events; the agent folds them into its history (Agent.v) and gives
    them to the listeners (Queues.v).  Provider adapters
    (BlockAccumulator.v and the files after it) make the provider events
    from the bytes of an HTTP response, and the requests from the history
    (Convert.v and the files after it); Transport.v is the exchange around both,
    Proxy.v the same for a proxy.  A local model (LocalPrompt.v) is asked and
    heard in the process itself.  The tools that touch files resolve their paths in
    Confine.v; what a tool needs to know of a user comes from Credentials.v, which
    refreshes tokens through TokenSource.v.  Between runs the history is kept by the
    session store (SessionStore.v), what the agents make by the artifact stores
    (Artifact.v), and a session that grows is summarised (Compaction.v).

    ** Files

    - Prelude.v: results, machine integers, lists, the [Prog] monad of
      stateful code that may panic, its weakest preconditions and tactics.
    - Externals.v: [Ext], the interface to code that is not in the repository
      (JSON values, floating-point parsing, SHA-256, schemas) with the laws
      the development uses, and [Toy], an instance of it.
    - Types.v, Pricing.v, Transfer.v, SessionState.v, MessageCodec.v: the
      data of src/types, src/pricing.rs, src/transfer.rs, src/state.rs,
      src/types/message_codec.rs, src/checkpoint.rs; Transfer.v also has
      the results of tools.
    - Stream.v, StreamSpec.v: src/stream.rs; the specification of
      [accumulate_message] as a grammar of event lists.
    - BlockAccumulator.v: src/block_accumulator.rs, the producer's side.
    - Utf8.v: decoding and line splitting that can be resumed; Sse.v:
      adapters/src/sse.rs; Adapter.v: its stream driver, the contract of an
      adapter as type classes, programs that emit events while they work on a
      [BlockAccumulator], and adapters/src/classify.rs and base.rs; OaiCompat.v,
      OaiCompatSpec.v: adapters/src/openai_compat.rs; Anthropic.v,
      GoogleStream.v, Ollama.v, Responses.v: the streams of the adapters of these
      names, each with its theorem.
    - Convert.v: src/convert.rs and the requests of
      adapters/src/openai_compat.rs, anthropic.rs, responses.rs and ollama.rs;
      ConvertGoogle.v, ConvertBedrock.v: those of Gemini and Bedrock;
      ConvertSpec.v: what the requests say; Mistral.v: adapters/src/mistral.rs.
    - Transport.v: an adapter's [stream], from its options to the events, with the
      addresses and headers of each provider, the presets over the
      OpenAI-compatible adapter, and the snapshot of rate limits; Proxy.v:
      adapters/src/proxy.rs.
    - LocalThink.v, LocalTool.v, LocalGemma.v, LocalStream.v: the parsers and the
      stream of local-llm/src/stream.rs, LocalStreamSpec.v their theorems;
      LocalRunner.v: the generation loop of local-llm/src/runner.rs;
      LocalPrompt.v: local-llm/src/convert.rs, the cutting of a conversation to
      the model's context, and a request from end to end.
    - Context.v, Transformers.v: compaction, versions and cache hints.
    - Policy.v: the policy slots and the policies of turns, budgets, tool
      names and repetition.
    - ToolGroups.v, ToolDispatch.v, ToolBatch.v: src/loop_/tool_dispatch;
      ToolBatchSpec.v and ToolBatchSafety.v hold the theorems about a batch.
    - LoopTypes.v, LoopWorld.v: the loop's data, its world (the receiver,
      the cancellation token, the host's state) and the classes of its errors;
      StreamLoop.v, TurnParts.v, Turn.v: src/loop_;
      StreamLoopSpec.v, LoopProtocol.v, LoopTermination.v: their theorems.
    - Queues.v, Agent.v, AgentOps.v: src/agent and
      src/agent_subscriptions.rs; AgentLife.v, AgentPause.v, AgentRun.v:
      the theorems about an agent, the last of them composing it with the
      loop.
    - Pipeline.v, Parallel.v: patterns/src/pipeline, the executors of
      pipelines of agents, parallel branches as the steps of a scheduler;
      ParallelSpec.v: what a parallel pipeline promises; PipelineAgents.v:
      the executors over the agents of this development.
    - ByteFile.v: bytes, lines and writes that a crash can cut; SessionData.v,
      Jsonl.v, SessionStore.v: memory/src/jsonl.rs and what it uses;
      JsonlScan.v, JsonlCrash.v, SessionStoreSpec.v: their theorems;
      SessionData.v also has a concrete JSON for their witnesses; Compaction.v:
      memory/src/compaction.rs.
    - FileTree.v: a tree of directories and files; Artifact.v: src/artifact.rs
      and the store in memory; ArtifactFs.v: the store in files;
      ArtifactFsSpec.v, ArtifactSpec.v: the histories of artifacts as their
      common specification.
    - Confine.v: src/tools/path.rs, write_file.rs and read_file.rs over a file
      system with symbolic links; EditFile.v: src/tools/edit_file.rs.
    - TokenSource.v: auth/src/token_source.rs, callers of one token as the threads of a
      scheduler; Credentials.v: src/credential.rs and auth/src, the resolver,
      its store, and OAuth2 refreshes and flows.
    - The other policies of policies/src: Sandbox.v: sandbox.rs, over the file system
      of the tools; Guards.v: content_filter.rs, prompt_guard.rs, pii_redactor.rs,
      memory_nudge.rs, audit_logger.rs; Guardrails.v: checkpoint.rs and
      recommended.rs.
    - Web.v: plugins/web, the filter of hosts, the fetch tool and the policies.

    ** What the theorems show

    - Streams: [accumulate_message] accepts exactly the event lists of its
      grammar and gives the message they denote; what [BlockAccumulator]
      produces is always accepted; incomplete tool calls never reach a provider.
    - Adapters: the SSE parser does not depend on how the bytes arrive; the
      streams of the OpenAI-compatible, the Anthropic, the Ollama and the Responses
      adapter and of the proxy are accepted by [accumulate_message] and keep the
      provider's text, whatever arrives, and so are Gemini's if function calls have
      names; whatever becomes of a request, the loop can make a message of the
      stream; error bodies are read to their limit.
    - Requests: to every provider they say what the history says, in order, and
      a turn of a run goes out with its calls answered; Mistral's ids are exchanged
      one for one.
    - Local models: a request ends, with a stream that is accepted and, when it is
      complete, holds what the tokens said; a conversation is cut to its longest
      end that fits and stands on its own.
    - Loop: the events of a run follow the life-cycle protocol; every turn
      ends with its calls answered; a listener sees one attempt of every provider
      call; retries, fallbacks and capped runs end; errors are classified by their
      structural kind.
    - Tools: a batch returns with one result per call, in order, under every
      interleaving and cancellation; a tool only starts with arguments that
      were cleared; every result was announced; groups partition the calls.
    - Files: the tools change and read nothing outside their execution root,
      whatever the links; an edit replaces what it says, or changes
      nothing.
    - Credentials: callers of one token share one refresh, under every interleaving;
      a tool gets the secret of its own user, fresh, and a rotated refresh token
      is kept; the device flow asks no faster than it may and ends.
    - Policies: a call the sandbox lets through touches nothing outside its root, though
      the tool resolves the path by its own rules; the recommended guardrails hold
      beside any other policies; rolling checkpoints never go back; what becomes
      of a redaction and of a nudge in the loop.
    - Web: every request of the fetch tool goes to an allowed host and a public,
      pinned address, through redirects too; the rate limit holds in every window.
    - Context: compaction keeps tool groups whole and its report exact;
      versions lose no message; the snapshot mirror is invisible.
    - Agent: at most one run goes on; a prompt settles in an idle agent with
      the loop's history; pausing, checkpointing and dropping streams lose
      nothing they should keep; waiters are woken; queues are FIFO;
      listeners are isolated from each other's panics.
    - Pipelines: a sequential one is the chain of its agents, a loop stops at
      its first exit, a parallel one keeps the promise of its merge strategy
      under every interleaving; over agents with caps they return.
    - Sessions: the store implements abstract sessions with an optimistic
      sequence number, what is written is loaded, an append takes effect at one
      byte of its writes, and metadata is found from the end of a file.
    - Artifacts: the store in files and the one in memory answer every
      sequence of operations alike; what a save that died leaves behind.
    - Data: codec and session-log round trips, pricing precedence, transfer
      chains, policy slot contracts.

    ** Conventions and bounds

    - [Ext] and the classes named below are the interfaces to other crates; none is
      instantiated in a theorem, while witnesses of [Ext] use [Toy].
    - [usize] and attempt counters are [nat], [u64] tokens and timestamps [N]
      with the wrap-around written out where the code can wrap; [f64] is
      [spec_float] at binary64.  Strings are byte strings.
    - A clock is a function of the host's state.  Durations, delays and the
      times in metrics are not modelled, except for credentials, whose times are
      [Z] nanoseconds of one clock; a timeout there is a deadline that an await may
      pass.
    - Panics are [None] of [Prog]; code that catches them gets them as values.
    - Streams and the partial updates of a tool are finite lists.  The loop has
      two fuels: turns of a run and attempts of a provider call.  The
      termination theorems give the fuel that is enough, and with it the
      result; nothing is stated only for runs that happen to return.
    - Tool tasks, and callers of a token source, run as the steps of a scheduler:
      a list of choices that says who goes on and when a token is cancelled.
      Theorems hold for all schedules.  A task that outlives the grace after a
      cancellation has no further effect.
    - Listeners are functions of the events they were given so far.  The
      loop's appends to the pause snapshot are agent steps.  A run's generation
      also names its cancellation token; counters do not reach 2^64.
    - Serde's derived serializers of session files are parameters
      ([SessionSerde]) with the keys that their attributes give; so is that of an
      artifact's metadata ([MetaSerde]).
    - The file system of the artifact store has no symbolic links; an operation of
      a store is one step, which its locks make it.  The file tools run without
      another process moving files under them, on a disk whose reads and writes
      do not fail by themselves; paths that end in a slash are left out.
    - The engine of regular expressions is the class [RegexEngine]; URLs and HTML are
      the classes [UrlCrate] and [Scraper].
    - The runtime of a local model, llama.cpp, is the class [Llama]; fresh UUIDs
      are a function of a counter.
    - The build is the one of the default cargo features.

    ** Not modelled

    Sockets and TLS below an adapter's exchange, rpc and mcp, terminal user
    interfaces, key chains, the listener for OAuth2 redirects, running shell
    commands, model inference and macros are I/O around the core.  The crates for
    evaluation and evolution are not modelled, nor are the stream of Bedrock, the
    orchestrator, the search over sessions, and the web plugin's browser and search.  [Debug] output, tracing and telemetry have no effect on
    the state and are left out. *)
From stdpp Require Export base gmap strings list fin_maps.
From Stdlib Require Export NArith Lia.

(** Scope of the development's own notations. *)
Declare Scope agent_scope.
Delimit Scope agent_scope with agent.

(** ** Fallible code: Rust's [Result] *)
Inductive result (T E : Type) :=
| Ok (t : T)
| Err (e : E).
Arguments Ok {_ _} _.
Arguments Err {_ _} _.

#[export] Instance result_eq_dec {T E} `{EqDecision T, EqDecision E} : EqDecision (result T E).
Proof. solve_decision. Defined.

(** Rust's [?] operator. *)
Definition result_bind {T U E} (r : result T E) (k : T -> result U E) : result U E :=
  match r with Ok t => k t | Err e => Err e end.

(** Rust's [Option::ok_or]. *)
Definition ok_or {T E} (o : option T) (e : E) : result T E :=
  match o with Some t => Ok t | None => Err e end.

Notation "x '<-?' r ';;' k" := (result_bind r (fun x => k))
  (at level 100, r at next level, right associativity) : agent_scope.
Notation "r ';;?' k" := (result_bind r (fun _ => k))
  (at level 100, right associativity) : agent_scope.
Open Scope agent_scope.

Lemma result_bind_Ok {T U E} (r : result T E) (k : T -> result U E) u :
  result_bind r k = Ok u <-> exists t, r = Ok t /\ k t = Ok u.
Proof. destruct r; simpl; naive_solver. Qed.

Lemma ok_or_Ok {T E} (o : option T) (e : E) t : ok_or o e = Ok t <-> o = Some t.
Proof. destruct o; simpl; naive_solver. Qed.

(** ** Machine integers *)
Definition u64_modulus : N := 18446744073709551616.
Definition u32_max : N := 4294967295.

(** [u64] addition with the wrap-around of the release profile. *)
Definition u64_add (a b : N) : N := ((a + b) mod u64_modulus)%N.

Lemma u64_add_exact a b : (a + b < u64_modulus)%N -> u64_add a b = (a + b)%N.
Proof. intros H. by apply N.mod_small. Qed.

Lemma u64_add_lt a b : (u64_add a b < u64_modulus)%N.
Proof. apply N.mod_lt. done. Qed.

Lemma u64_add_comm a b : u64_add a b = u64_add b a.
Proof. unfold u64_add. by rewrite N.add_comm. Qed.

Lemma u64_add_assoc a b c : u64_add a (u64_add b c) = u64_add (u64_add a b) c.
Proof.
  unfold u64_add. rewrite N.Div0.add_mod_idemp_l, N.Div0.add_mod_idemp_r.
  by rewrite N.add_assoc.
Qed.

Lemma u64_add_0_idemp a b : u64_add a (u64_add 0 b) = u64_add a b.
Proof. unfold u64_add. by rewrite N.add_0_l, N.Div0.add_mod_idemp_r. Qed.

(** Sum of the sizes of a list, Rust's [iter().map(f).sum()]. *)
Definition sum_by {A} (f : A -> N) (l : list A) : N := foldr (fun a s => f a + s)%N 0%N l.

Lemma sum_by_app {A} (f : A -> N) l k : sum_by f (l ++ k) = (sum_by f l + sum_by f k)%N.
Proof. induction l as [|a l IH]; simpl; [done|]. rewrite IH. lia. Qed.

Lemma sum_by_take_drop {A} (f : A -> N) n l :
  sum_by f l = (sum_by f (take n l) + sum_by f (drop n l))%N.
Proof. by rewrite <- sum_by_app, take_drop. Qed.

(** ** List helpers *)

Definition is_nil {A} (l : list A) : bool := match l with [] => true | _ => false end.

Lemma elem_of_concat {A} (x : A) (ls : list (list A)) : x ∈ concat ls <-> exists l, l ∈ ls /\ x ∈ l.
Proof. induction ls as [|l ls IH]; cbn; set_solver. Qed.

(** Rust's [iter().filter_map(f).collect()]. *)
Fixpoint filtermap {A B} (f : A -> option B) (l : list A) : list B :=
  match l with
  | [] => []
  | a :: l' => match f a with Some b => b :: filtermap f l' | None => filtermap f l' end
  end.

Lemma filtermap_app {A B} (f : A -> option B) l k :
  filtermap f (l ++ k) = filtermap f l ++ filtermap f k.
Proof. induction l as [|a l IH]; simpl; [done|]. destruct (f a); simpl; by rewrite IH. Qed.

Lemma filtermap_Some {A} (l : list A) : filtermap Some l = l.
Proof. induction l; simpl; congruence. Qed.

Lemma elem_of_filtermap {A B} (f : A -> option B) b l :
  b ∈ filtermap f l <-> exists a, a ∈ l /\ f a = Some b.
Proof.
  induction l as [|a l IH]; simpl.
  - set_solver.
  - destruct (f a) eqn:E; set_solver.
Qed.

Lemma filtermap_filtermap {A B C} (g : B -> option C) (f : A -> option B) l :
  filtermap g (filtermap f l) = filtermap (fun a => f a ≫= g) l.
Proof.
  induction l as [|a l IH]; simpl; [done|].
  destruct (f a) as [b|] eqn:E; simpl; [destruct (g b)|]; by rewrite IH.
Qed.

Lemma filtermap_fmap {A B C} (g : B -> C) (f : A -> option B) l :
  g <$> filtermap f l = filtermap (fun a => g <$> f a) l.
Proof. induction l as [|a l IH]; csimpl; [done|]. destruct (f a); csimpl; by rewrite IH. Qed.

Lemma filtermap_length {A B} (f : A -> option B) l : length (filtermap f l) <= length l.
Proof. induction l as [|a l IH]; simpl; [lia|]. destruct (f a); simpl; lia. Qed.

(** Rust's [iter().position(p)]. *)
Fixpoint position {A} (p : A -> bool) (l : list A) : option nat :=
  match l with
  | [] => None
  | a :: l' => if p a then Some 0 else S <$> position p l'
  end.

Lemma position_Some {A} (p : A -> bool) l i :
  position p l = Some i -> exists a, l !! i = Some a /\ p a = true.
Proof.
  revert i. induction l as [|a l IH]; simpl; intros i H; [done|].
  destruct (p a) eqn:E; [naive_solver|].
  destruct (position p l) as [j|] eqn:Ej; simplify_eq/=. eauto.
Qed.

Lemma position_None {A} (p : A -> bool) l :
  position p l = None <-> Forall (fun a => p a = false) l.
Proof.
  induction l as [|a l IH]; simpl; [done|]. rewrite Forall_cons.
  destruct (p a) eqn:E; [naive_solver|].
  destruct (position p l); naive_solver.
Qed.

(** Rust's [iter().find(p)]. *)
Definition find_first {A} (p : A -> bool) (l : list A) : option A :=
  position p l ≫= fun i => l !! i.

(** ** Stateful code: a partial state monad *)

(** A program over a world [W]: the value and the world it leaves, or [None] when it
    panics or its fuel ends. *)
Definition Prog (W A : Type) : Type := W -> option (A * W).

#[export] Instance prog_ret W : MRet (Prog W) := fun A a w => Some (a, w).
#[export] Instance prog_bind W : MBind (Prog W) :=
  fun A B k m w => match m w with Some (a, w') => k a w' | None => None end.

Definition get {W} : Prog W W := fun w => Some (w, w).
Definition gets {W A} (f : W -> A) : Prog W A := fun w => Some (f w, w).
Definition modify {W} (f : W -> W) : Prog W unit := fun w => Some (tt, f w).
Definition stuck {W A} : Prog W A := fun _ => None.

(** Run to completion or not at all: [if] without [else]. *)
Definition when {W} (b : bool) (m : Prog W unit) : Prog W unit := if b then m else mret tt.

Fixpoint for_each {W A} (f : A -> Prog W unit) (l : list A) : Prog W unit :=
  match l with
  | [] => mret tt
  | a :: l' => f a ≫= fun _ => for_each f l'
  end.

(** Partial correctness: if the run ends, it ends well. *)
Definition wlp {W A} (m : Prog W A) (Q : A -> W -> Prop) (w : W) : Prop :=
  match m w with Some (a, w') => Q a w' | None => True end.

(** Total correctness: the run ends, and ends well. *)
Definition twp {W A} (m : Prog W A) (Q : A -> W -> Prop) (w : W) : Prop :=
  match m w with Some (a, w') => Q a w' | None => False end.

Section Rules.
Context {W : Type}.

Lemma wlp_ret {A} (a : A) Q (w : W) : Q a w -> wlp (mret a) Q w.
Proof. done. Qed.

Lemma wlp_bind {A B} (m : Prog W A) (k : A -> Prog W B) Q w :
  wlp m (fun a => wlp (k a) Q) w -> wlp (m ≫= k) Q w.
Proof. unfold wlp, mbind, prog_bind. by destruct (m w) as [[]|]. Qed.

Lemma wlp_mono {A} (m : Prog W A) (P Q : A -> W -> Prop) w :
  wlp m P w -> (forall a w', P a w' -> Q a w') -> wlp m Q w.
Proof. unfold wlp. destruct (m w) as [[]|]; auto. Qed.

Lemma wlp_conj {A} (m : Prog W A) (P Q : A -> W -> Prop) w :
  wlp m P w -> wlp m Q w -> wlp m (fun a w' => P a w' /\ Q a w') w.
Proof. unfold wlp. by destruct (m w) as [[]|]. Qed.

Lemma wlp_gets {A} (f : W -> A) Q w : Q (f w) w -> wlp (gets f) Q w.
Proof. done. Qed.

Lemma wlp_modify (f : W -> W) Q w : Q tt (f w) -> wlp (modify f) Q w.
Proof. done. Qed.

Lemma wlp_stuck {A} (Q : A -> W -> Prop) w : wlp stuck Q w.
Proof. done. Qed.

Lemma wlp_run {A} (m : Prog W A) Q w a w' : wlp m Q w -> m w = Some (a, w') -> Q a w'.
Proof. unfold wlp. intros H E. by rewrite E in H. Qed.

Lemma twp_ret {A} (a : A) Q (w : W) : Q a w -> twp (mret a) Q w.
Proof. done. Qed.

Lemma twp_bind {A B} (m : Prog W A) (k : A -> Prog W B) Q w :
  twp m (fun a => twp (k a) Q) w -> twp (m ≫= k) Q w.
Proof. unfold twp, mbind, prog_bind. by destruct (m w) as [[]|]. Qed.

Lemma twp_mono {A} (m : Prog W A) (P Q : A -> W -> Prop) w :
  twp m P w -> (forall a w', P a w' -> Q a w') -> twp m Q w.
Proof. unfold twp. destruct (m w) as [[]|]; auto. Qed.

(** A run that ends and satisfies its partial specification. *)
Lemma twp_of_wlp {A} (m : Prog W A) (P Q : A -> W -> Prop) w :
  twp m P w -> wlp m Q w -> twp m (fun a w' => P a w' /\ Q a w') w.
Proof. unfold twp, wlp. by destruct (m w) as [[]|]. Qed.

Lemma twp_wlp {A} (m : Prog W A) Q w : twp m Q w -> wlp m Q w.
Proof. unfold twp, wlp. by destruct (m w) as [[]|]. Qed.

Lemma twp_conj {A} (m : Prog W A) (P Q : A -> W -> Prop) w :
  twp m P w -> twp m Q w -> twp m (fun a w' => P a w' /\ Q a w') w.
Proof. intros HP HQ%twp_wlp. by apply twp_of_wlp. Qed.

Lemma twp_run {A} (m : Prog W A) Q w : twp m Q w -> exists a w', m w = Some (a, w') /\ Q a w'.
Proof. unfold twp. destruct (m w) as [[a w']|]; [eauto|done]. Qed.

(** ** Programs that respect a relation between the worlds before and after *)

Definition respects (R : W -> W -> Prop) {A} (m : Prog W A) : Prop :=
  forall w, wlp m (fun _ => R w) w.

Context (R : W -> W -> Prop) `{!PreOrder R}.

Lemma respects_ret {A} (a : A) : respects R (mret a).
Proof. intros w. apply wlp_ret. reflexivity. Qed.

Lemma respects_bind {A B} (m : Prog W A) (k : A -> Prog W B) :
  respects R m -> (forall a, respects R (k a)) -> respects R (m ≫= k).
Proof.
  intros Hm Hk w. apply wlp_bind. eapply wlp_mono; [apply Hm|]. intros a w' HR.
  eapply wlp_mono; [apply Hk|]. intros b w'' HR'. by transitivity w'.
Qed.

Lemma respects_gets {A} (f : W -> A) : respects R (gets f).
Proof. intros w. apply wlp_gets. reflexivity. Qed.

Lemma respects_stuck {A} : respects R (stuck (A := A)).
Proof. intros w. done. Qed.

Lemma respects_when b m : respects R m -> respects R (when b m).
Proof. destruct b; [done|]. intros _. apply respects_ret. Qed.

Lemma respects_for_each {A} (f : A -> Prog W unit) l :
  (forall a, respects R (f a)) -> respects R (for_each f l).
Proof.
  intros Hf. induction l as [|a l IH]; [apply respects_ret|]. by apply respects_bind.
Qed.
End Rules.

(** ** Programs that always return *)

Definition returns {W A} (m : Prog W A) : Prop := forall w, twp m (fun _ _ => True) w.

Lemma returns_ret {W A} (a : A) : returns (W := W) (mret a).
Proof. done. Qed.

Lemma returns_bind {W A B} (m : Prog W A) (k : A -> Prog W B) :
  returns m -> (forall a, returns (k a)) -> returns (m ≫= k).
Proof.
  intros Hm Hk w. apply twp_bind. eapply twp_mono; [apply Hm|]. intros a w' _. apply Hk.
Qed.

Lemma returns_gets {W A} (f : W -> A) : returns (gets f).
Proof. done. Qed.

Lemma returns_modify {W} (f : W -> W) : returns (modify f).
Proof. done. Qed.

Lemma returns_twp {W A} (m : Prog W A) Q w : returns m -> wlp m Q w -> twp m Q w.
Proof. intros Hm. specialize (Hm w). revert Hm. unfold twp, wlp. by destruct (m w) as [[]|]. Qed.

(** ** Programs that return and relate the worlds before and after *)

Definition ensures {W} (R : W -> W -> Prop) {A} (m : Prog W A) : Prop := forall w, twp m (fun _ => R w) w.

Section Ensures.
Context {W : Type} (R : W -> W -> Prop) `{!PreOrder R}.

Lemma ensures_bind {A B} (m : Prog W A) (k : A -> Prog W B) :
  ensures R m -> (forall a, ensures R (k a)) -> ensures R (m ≫= k).
Proof.
  intros Hm Hk w. apply twp_bind. eapply twp_mono; [apply Hm|]. intros a w1 H1.
  eapply twp_mono; [apply Hk|]. intros b w2 H2. by transitivity w1.
Qed.

Lemma ensures_ret {A} (a : A) : ensures R (mret a).
Proof. intros w. apply twp_ret. reflexivity. Qed.

Lemma ensures_gets {A} (f : W -> A) : ensures R (gets f).
Proof. intros w. exact (reflexivity w). Qed.

Lemma ensures_modify f : (forall w, R w (f w)) -> ensures R (modify f).
Proof. intros Hf w. exact (Hf w). Qed.

Lemma ensures_when b (m : Prog W unit) : ensures R m -> ensures R (when b m).
Proof. destruct b; [done|]. intros _. apply ensures_ret. Qed.

Lemma ensures_for_each {A} (f : A -> Prog W unit) l :
  (forall a, a ∈ l -> ensures R (f a)) -> ensures R (for_each f l).
Proof.
  induction l as [|a l IH]; intros Hf; [apply ensures_ret|]. cbn.
  apply ensures_bind; [apply Hf; set_solver|]. intros u. apply IH. set_solver.
Qed.
End Ensures.

Lemma ensures_mono {W} (R R' : W -> W -> Prop) {A} (m : Prog W A) :
  ensures R m -> (forall w w', R w w' -> R' w w') -> ensures R' m.
Proof. intros Hm Hr w. eapply twp_mono; [apply Hm|]. intros a w'. apply Hr. Qed.

Create HintDb swink.
#[export] Hint Resolve returns_ret returns_gets returns_modify : swink.
#[export] Hint Resolve u64_add_lt wlp_ret wlp_gets wlp_modify wlp_stuck : swink.
#[export] Hint Rewrite @filtermap_app @sum_by_app @filtermap_Some : swink.
