(* ===== verification/Externals.v ===== *)
(** * What the crate takes from outside [src/]

    [Ext] collects the third-party and standard-library facts the modelled
    code relies on: [serde_json::Value] and its text format, the application's
    own [CustomMessage] implementations, and the two Unicode-table functions of
    [str].  Everything is an argument of the model; the laws are the
    documented behaviour the code depends on.  [Toy] instantiates all of it
    concretely, so that every theorem about the model can be evaluated.
    Floating point is the standard library's executable IEEE-754 model at
    binary64. *)
From S2P Require Export Prelude.
From stdpp Require Export pretty.
From Stdlib Require Import SpecFloat Ascii.
Open Scope string_scope.

(** ** [f64] *)
Definition f64 : Type := spec_float.
Definition f64_zero : f64 := S754_zero false.
Definition f64_add (a b : f64) : f64 := SFadd 53 1024 a b.
(** IEEE equality: [-0.0 == 0.0], and NaN equals nothing. *)
Definition f64_eqb (a b : f64) : bool := SFeqb a b.
Definition f64_leb (a b : f64) : bool := SFleb a b.
Definition f64_ltb (a b : f64) : bool := SFltb a b.

#[export] Instance f64_eq_dec : EqDecision f64.
Proof. unfold f64. intros a b. unfold Decision. decide equality; solve_decision. Defined.

(** ** ASCII case mapping, [str::to_lowercase] on ASCII text *)
Definition ascii_lower (a : ascii) : ascii :=
  let n := N_of_ascii a in
  if ((65 <=? n) && (n <=? 90))%N then ascii_of_N (n + 32) else a.

Fixpoint string_map (f : ascii -> ascii) (s : string) : string :=
  match s with EmptyString => EmptyString | String a s' => String (f a) (string_map f s') end.

Fixpoint string_all (p : ascii -> bool) (s : string) : bool :=
  match s with EmptyString => true | String a s' => p a && string_all p s' end.

Definition is_ascii_text : string -> bool := string_all (fun a => N_of_ascii a <? 128)%N.

(** ** The interface *)
Class Ext := {
  (** [serde_json::Value] *)
  Value : Type;
  #[global] Value_eq_dec :: EqDecision Value;
  json_null : Value;
  json_empty_object : Value;
  json_is_object : Value -> bool;
  json_from_str : string -> result Value string;
  json_to_string : Value -> string;
  json_string : string -> Value;
  json_as_str : Value -> option string;
  json_bool : bool -> Value;
  json_as_bool : Value -> option bool;
  json_u64 : N -> Value;
  json_as_u64 : Value -> option N;
  json_array : list Value -> Value;
  json_as_array : Value -> option (list Value);
  (** [json!({"type": t, "data": d})] and [Value::get] *)
  json_envelope : string -> Value -> Value;
  json_get : Value -> string -> option Value;
  (** [Value::as_object], its entries in iteration order, and the number of nodes *)
  json_fields : Value -> option (list (string * Value));
  json_size : Value -> nat;
  (** [to_value] and [from_value] at [HashMap<String, Value>] *)
  json_of_map : gmap string Value -> Value;
  json_as_map : Value -> result (gmap string Value) string;
  (** an application's [Box<dyn CustomMessage>] *)
  Foreign : Type;
  foreign_type_name : Foreign -> option string;
  foreign_to_json : Foreign -> option Value;
  foreign_clone_box : Foreign -> option Foreign;
  (** [format!("{:.4}", x)] *)
  f64_fixed4 : f64 -> string;
  (** [format!("{:?}", v)] for a [Vec<String>] *)
  debug_strings : list string -> string;
  (** [jsonschema::validator_for], with the messages of [iter_errors] *)
  validator_for : Value -> result (Value -> list string) string;
  (** Unicode tables of [str] *)
  to_lowercase : string -> string;
  trim_is_empty : string -> bool;
  (** documented behaviour *)
  json_empty_object_is_object : json_is_object json_empty_object = true;
  json_null_not_object : json_is_object json_null = false;
  json_as_str_string t : json_as_str (json_string t) = Some t;
  json_envelope_type t d : json_get (json_envelope t d) "type" = Some (json_string t);
  json_envelope_data t d : json_get (json_envelope t d) "data" = Some d;
  json_as_map_of_map m : json_as_map (json_of_map m) = Ok m;
  json_as_map_envelope t d : json_as_map (json_envelope t d) = Ok (<["type" := json_string t]> {["data" := d]});
  json_as_bool_bool b : json_as_bool (json_bool b) = Some b;
  json_as_u64_u64 n : (n < 2 ^ 64)%N -> json_as_u64 (json_u64 n) = Some n;
  json_as_array_array l : json_as_array (json_array l) = Some l;
  json_size_field v l k x : json_fields v = Some l -> (k, x) ∈ l -> json_size x < json_size v;
  json_size_element v l x : json_as_array v = Some l -> x ∈ l -> json_size x < json_size v;
  json_get_of_map m k : json_get (json_of_map m) k = m !! k;
  json_of_map_is_object m : json_is_object (json_of_map m) = true;
  to_lowercase_ascii s :
    is_ascii_text s = true -> to_lowercase s = string_map ascii_lower s;
}.

#[export] Hint Rewrite @json_empty_object_is_object @json_null_not_object
  @json_as_str_string @json_envelope_type @json_envelope_data @json_as_map_of_map @json_as_map_envelope
  @json_as_bool_bool @json_as_u64_u64 @json_as_array_array @json_get_of_map @json_of_map_is_object : swink.

(** ** A concrete instance *)
Module Toy.
Inductive json :=
| JNull
| JStr (s : string)
| JObj (fields : string)
| JEnv (t : string) (d : json)
| JMap (fields : list (string * json))
| JBool (b : bool)
| JNum (n : N)
| JArr (l : list json).

Fixpoint eqb (a b : json) : bool :=
  match a, b with
  | JNull, JNull => true
  | JStr s, JStr s' => String.eqb s s'
  | JObj f, JObj f' => String.eqb f f'
  | JEnv t d, JEnv t' d' => String.eqb t t' && eqb d d'
  | JMap m, JMap m' =>
    (fix go (m m' : list (string * json)) : bool :=
       match m, m' with
       | [], [] => true
       | (k, v) :: m, (k', v') :: m' => String.eqb k k' && eqb v v' && go m m'
       | _, _ => false
       end) m m'
  | JBool b, JBool b' => Bool.eqb b b'
  | JNum n, JNum n' => N.eqb n n'
  | JArr l, JArr l' =>
    (fix go (l l' : list json) : bool :=
       match l, l' with
       | [], [] => true
       | v :: l, v' :: l' => eqb v v' && go l l'
       | _, _ => false
       end) l l'
  | _, _ => false
  end.

Lemma eqb_spec a : forall b, eqb a b = true <-> a = b.
Proof.
  revert a. fix go 1. intros [|s|f|t d|m|x|n|l] [|s'|f'|t' d'|m'|x'|n'|l']; cbn; try (split; [done|congruence]).
  - rewrite String.eqb_eq. split; congruence.
  - rewrite String.eqb_eq. split; congruence.
  - rewrite andb_true_iff, String.eqb_eq, go. split; [intros [-> ->]|intros [= -> ->]]; done.
  - transitivity (m = m'); [|split; congruence].
    revert m'. induction m as [|[k v] m IH]; intros [|[k' v'] m']; cbn; try (split; done).
    rewrite !andb_true_iff, String.eqb_eq, go, IH. split; [intros [[-> ->] ->]|intros [= -> -> ->]]; done.
  - rewrite Bool.eqb_true_iff. split; congruence.
  - rewrite N.eqb_eq. split; congruence.
  - transitivity (l = l'); [|split; congruence].
    revert l'. induction l as [|v l IH]; intros [|v' l']; cbn; try (split; done).
    rewrite andb_true_iff, go, IH. split; [intros [-> ->]|intros [= -> ->]]; done.
Qed.

#[export] Instance json_eq_dec : EqDecision json.
Proof. intros a b. refine (cast_if (decide (eqb a b = true))); by rewrite <- eqb_spec. Defined.

(** Accepts a text of the form [{ ... }] and the text [null]. *)
Definition from_str (s : string) : result json string :=
  if String.eqb s "null" then Ok JNull
  else match s with
       | String "{" r =>
         if String.eqb (String.substring (String.length r - 1) 1 r) "}"
         then Ok (JObj (String.substring 0 (String.length r - 1) r))
         else Err "EOF while parsing an object"
       | _ => Err "expected value"
       end.

Fixpoint to_string (v : json) : string :=
  match v with
  | JNull => "null"
  | JStr s => s
  | JObj f => "{" ++ f ++ "}"
  | JEnv t d => "{" ++ t ++ to_string d ++ "}"
  | JMap _ => "{..}"
  | JBool b => if b then "true" else "false"
  | JNum n => pretty n
  | JArr _ => "[..]"
  end.

Definition get (v : json) (k : string) : option json :=
  match v with
  | JEnv t d => if String.eqb k "type" then Some (JStr t)
                else if String.eqb k "data" then Some d else None
  | JMap fields => (list_to_map fields : gmap string json) !! k
  | _ => None
  end.

(** A custom message: its type name, payload and whether it can be cloned. *)
Definition foreign : Type := option (string * json) * bool.

Fixpoint all_blank (s : string) : bool :=
  match s with EmptyString => true | String " " s' => all_blank s' | _ => false end.

Definition of_map (m : gmap string json) : json := JMap (map_to_list m).

Definition as_map (v : json) : result (gmap string json) string :=
  match v with
  | JMap fields => Ok (list_to_map fields)
  | JEnv t d => Ok (<["type" := JStr t]> {["data" := d]})
  | _ => Err "invalid type: expected a map"
  end.

Lemma get_of_map m k : get (of_map m) k = m !! k.
Proof. unfold get, of_map. by rewrite list_to_map_to_list. Qed.

Lemma as_map_of_map m : as_map (of_map m) = Ok m.
Proof. unfold as_map, of_map. by rewrite list_to_map_to_list. Qed.

Definition fields (v : json) : option (list (string * json)) :=
  match v with
  | JObj _ => Some []
  | JEnv t d => Some [("type", JStr t); ("data", d)]
  | JMap m => Some m
  | _ => None
  end.

Fixpoint size (v : json) : nat :=
  match v with
  | JEnv _ d => S (S (size d))
  | JMap m => S (sum_list_with (fun kv => size (snd kv)) m)
  | JArr l => S (sum_list_with size l)
  | _ => 1
  end.

Lemma size_in {A} (f : A -> json) x l : x ∈ l -> size (f x) <= sum_list_with (fun y => size (f y)) l.
Proof. induction 1; cbn; lia. Qed.

Lemma size_field v l k x : fields v = Some l -> (k, x) ∈ l -> size x < size v.
Proof.
  destruct v as [| | |t d|m| | |]; cbn; intros [= <-]; intros H; cbn.
  - by apply not_elem_of_nil in H.
  - apply elem_of_cons in H as [H|H%list_elem_of_singleton]; injection H as -> ->; cbn; lia.
  - apply (size_in snd) in H. cbn in H. lia.
Qed.

Definition elements (v : json) : option (list json) := match v with JArr l => Some l | _ => None end.

Lemma size_element v l x : elements v = Some l -> x ∈ l -> size x < size v.
Proof.
  destruct v as [| | | | | | |l0]; cbn; intros [= <-]; intros H; cbn. exact (proj2 (Nat.lt_succ_r _ _) (size_in (fun y => y) x l0 H)).
Qed.

(** [parse] decodes JSON texts, [print] makes them. *)
Definition ext_of (parse : string -> result json string) (print : json -> string) : Ext := {|
  Value := json;
  json_null := JNull;
  json_empty_object := JObj "";
  json_is_object v := match v with JObj _ | JEnv _ _ | JMap _ => true | _ => false end;
  json_from_str := parse;
  json_to_string := print;
  json_string := JStr;
  json_as_str v := match v with JStr s => Some s | _ => None end;
  json_bool := JBool;
  json_as_bool v := match v with JBool b => Some b | _ => None end;
  json_u64 := JNum;
  json_as_u64 v := match v with JNum n => Some n | _ => None end;
  json_array := JArr;
  json_as_array := elements;
  json_fields := fields;
  json_size := size;
  json_envelope := JEnv;
  json_get := get;
  json_of_map := of_map;
  json_as_map := as_map;
  Foreign := foreign;
  foreign_type_name f := fst <$> fst f;
  foreign_to_json f := snd <$> fst f;
  foreign_clone_box f := if snd f then Some f else None;
  f64_fixed4 _ := "0.0000";
  debug_strings l := "[" ++ fold_right (fun x s => x ++ ", " ++ s) "]" l;
  validator_for _ := Ok (fun v => match v with JNull | JStr _ => ["not an object"] | _ => [] end);
  to_lowercase := string_map ascii_lower;
  trim_is_empty := all_blank;
  json_empty_object_is_object := eq_refl;
  json_null_not_object := eq_refl;
  json_as_str_string _ := eq_refl;
  json_envelope_type _ _ := eq_refl;
  json_envelope_data _ _ := eq_refl;
  json_as_map_of_map := as_map_of_map;
  json_as_map_envelope _ _ := eq_refl;
  json_as_bool_bool _ := eq_refl;
  json_as_u64_u64 _ _ := eq_refl;
  json_as_array_array _ := eq_refl;
  json_size_field := size_field;
  json_size_element := size_element;
  json_get_of_map := get_of_map;
  json_of_map_is_object _ := eq_refl;
  to_lowercase_ascii _ _ := eq_refl;
|}.

Definition ext_with (parse : string -> result json string) : Ext := ext_of parse to_string.

#[export] Instance ext : Ext := ext_with from_str.
End Toy.

(** ** [str::contains] *)
Fixpoint starts_with (p s : string) : bool :=
  match p, s with
  | EmptyString, _ => true
  | String a p', String b s' => Ascii.eqb a b && starts_with p' s'
  | String _ _, EmptyString => false
  end.

Fixpoint contains (s p : string) : bool :=
  starts_with p s || match s with EmptyString => false | String _ s' => contains s' p end.

Lemma starts_with_app p s : starts_with p (p ++ s) = true.
Proof. induction p as [|a p IH]; simpl; [done|]. by rewrite Ascii.eqb_refl. Qed.

Lemma contains_app_r a s p : contains s p = true -> contains (a ++ s) p = true.
Proof.
  induction a as [|x a IH]; [done|]. intros H. simpl. by rewrite IH, orb_true_r.
Qed.

Lemma starts_with_app_l p s t : starts_with p s = true -> starts_with p (s ++ t) = true.
Proof.
  revert s. induction p as [|a p IH]; intros [|b s] H; simpl in *; try done.
  apply andb_true_iff in H as [-> H]. by rewrite IH.
Qed.

Lemma contains_app_l s t p : contains s p = true -> contains (s ++ t) p = true.
Proof.
  induction s as [|x s IH]; simpl; intros H.
  - rewrite orb_false_r in H. destruct p; [|done]. by destruct t.
  - apply orb_true_iff in H as [H|H].
    + assert (starts_with p (String x (s ++ t)) = true) as ->; [|done].
      exact (starts_with_app_l p (String x s) t H).
    + by rewrite IH, orb_true_r.
Qed.

Lemma string_app_assoc (x y z : string) : (x ++ y) ++ z = x ++ (y ++ z).
Proof.
  induction x as [|a x IH]; [done|].
  change (String a ((x ++ y) ++ z) = String a (x ++ (y ++ z))). by rewrite IH.
Qed.

Lemma string_app_nil_r (x : string) : x ++ "" = x.
Proof.
  induction x as [|a x IH]; [done|]. change (String a (x ++ "") = String a x). by rewrite IH.
Qed.

(** [Vec<String>::join] and list display used in error texts. *)
Fixpoint join (sep : string) (l : list string) : string :=
  match l with
  | [] => ""
  | [x] => x
  | x :: l' => x ++ sep ++ join sep l'
  end.
