(* ===== verification/Utf8.v ===== *)
(** * UTF-8 and lines: [core::str] as the stream parsers use it

    [from_utf8] with the position and kind of its error, and splitting at line
    feeds.  Both are scanners that can be resumed, which is what makes
    decoding independent of how the bytes arrive in chunks. *)
From S2P Require Export Externals.
From Stdlib Require Import Ascii.
Open Scope string_scope.
Open Scope list_scope.

(** ** [core::str::from_utf8] *)

Definition in_range (r : N * N) (a : ascii) : bool :=
  ((fst r <=? N_of_ascii a) && (N_of_ascii a <=? snd r))%N.

Definition continuation : N * N := (128, 191)%N.

(** The ranges a leading byte asks of the bytes after it; [None]: no leading byte.
    Overlong forms, surrogates and values beyond U+10FFFF are excluded. *)
Definition utf8_lead (a : ascii) : option (list (N * N)) :=
  let b := N_of_ascii a in
  if (b <? 128)%N then Some []
  else if in_range (194, 223)%N a then Some [continuation]
  else if (b =? 224)%N then Some [(160, 191)%N; continuation]
  else if (b =? 237)%N then Some [(128, 159)%N; continuation]
  else if in_range (225, 239)%N a then Some [continuation; continuation]
  else if (b =? 240)%N then Some [(144, 191)%N; continuation; continuation]
  else if in_range (241, 243)%N a then Some [continuation; continuation; continuation]
  else if (b =? 244)%N then Some [(128, 143)%N; continuation; continuation]
  else None.

(** How decoding ended: all bytes decoded; an incomplete sequence at the end
    ([error_len()] is [None]); or a byte that cannot be decoded ([Some]). *)
Inductive Utf8Status :=
| Complete
| Incomplete (carry : string)
| Invalid (rest : string).

#[export] Instance Utf8Status_eq_dec : EqDecision Utf8Status.
Proof. solve_decision. Defined.

(** [pending]: the bytes of the sequence being read; [expect]: what it still needs. *)
Fixpoint utf8_scan (pending : string) (expect : list (N * N)) (bs : string) : string * Utf8Status :=
  match bs with
  | "" => ("", match expect with [] => Complete | _ => Incomplete pending end)
  | String a bs' =>
    match expect with
    | [] =>
      match utf8_lead a with
      | None => ("", Invalid bs)
      | Some [] => let '(v, st) := utf8_scan "" [] bs' in (String a v, st)
      | Some ex => utf8_scan (String a "") ex bs'
      end
    | r :: ex =>
      if in_range r a then
        match ex with
        | [] => let '(v, st) := utf8_scan "" [] bs' in (pending ++ String a v, st)%string
        | _ => utf8_scan (pending ++ String a "")%string ex bs'
        end
      else ("", Invalid (pending ++ bs)%string)
    end
  end.

(** The valid prefix ([bytes[..valid_up_to]]) and what follows it. *)
Definition from_utf8 (bytes : string) : string * Utf8Status := utf8_scan "" [] bytes.

Lemma string_app_cons a x y : (String a x ++ y)%string = String a (x ++ y)%string.
Proof. done. Qed.

Lemma string_app_nil_l y : ("" ++ y)%string = y.
Proof. done. Qed.

(** [pending] is the beginning of a sequence that still needs [expect]. *)
Definition resumes (pending : string) (expect : list (N * N)) : Prop :=
  expect = [] \/ forall b, from_utf8 (pending ++ b) = utf8_scan pending expect b.

Lemma resumes_lead x r ex : utf8_lead x = Some (r :: ex) -> resumes (String x "") (r :: ex).
Proof. intros H. right. intros b. unfold from_utf8. rewrite string_app_cons. cbn [utf8_scan]. by rewrite H. Qed.

Lemma resumes_next pending r ex x :
  resumes pending (r :: ex) -> in_range r x = true -> resumes (pending ++ String x "")%string ex.
Proof.
  intros [?|H] Hx; [done|]. destruct ex as [|r' ex]; [by left|]. right. intros b.
  rewrite string_app_assoc, string_app_cons, string_app_nil_l, H. cbn [utf8_scan]. by rewrite Hx.
Qed.

(** [st] and what it becomes when [b] follows. *)
Definition utf8_continue (st : Utf8Status) (b : string) : string * Utf8Status :=
  match st with
  | Complete => from_utf8 b
  | Incomplete c => from_utf8 (c ++ b)
  | Invalid rest => ("", Invalid (rest ++ b)%string)
  end.

Lemma utf8_scan_app pending expect a b :
  resumes pending expect ->
  utf8_scan pending expect (a ++ b)%string
  = let '(v, st) := utf8_scan pending expect a in
    let '(v', st') := utf8_continue st b in ((v ++ v')%string, st').
Proof.
  revert pending expect. induction a as [|x a IH]; intros pending expect Hr.
  - rewrite string_app_nil_l. destruct expect as [|r ex]; cbn [utf8_scan utf8_continue].
    + assert (utf8_scan pending [] b = from_utf8 b) as -> by (by destruct b).
      by destruct (from_utf8 b).
    + destruct Hr as [?|Hr]; [done|]. rewrite Hr. by destruct (utf8_scan pending (r :: ex) b).
  - rewrite string_app_cons. cbn [utf8_scan]. destruct expect as [|r ex].
    + destruct (utf8_lead x) as [[|r ex]|] eqn:Hl; [|by apply IH, resumes_lead|done].
      rewrite IH by (by left). destruct (utf8_scan "" [] a) as [v st].
      by destruct (utf8_continue st b).
    + destruct (in_range r x) eqn:Hx.
      2:{ cbn. by rewrite string_app_assoc. }
      destruct ex as [|r' ex]; [|by apply IH; eapply resumes_next].
      rewrite IH by (by left). destruct (utf8_scan "" [] a) as [v st].
      destruct (utf8_continue st b). cbn. by rewrite string_app_assoc.
Qed.

(** Decoding resumes where it stopped. *)
Lemma from_utf8_app a b :
  from_utf8 (a ++ b)
  = let '(v, st) := from_utf8 a in
    let '(v', st') := utf8_continue st b in ((v ++ v')%string, st').
Proof. apply utf8_scan_app. by left. Qed.

Lemma utf8_scan_carry pending expect a v c :
  resumes pending expect -> utf8_scan pending expect a = (v, Incomplete c) ->
  from_utf8 c = ("", Incomplete c).
Proof.
  revert pending expect v. induction a as [|x a IH]; intros pending expect v Hr; cbn [utf8_scan].
  - destruct expect as [|r ex]; intros [= <- <-]. destruct Hr as [?|Hr]; [done|].
    specialize (Hr ""). by rewrite string_app_nil_r in Hr.
  - destruct expect as [|r ex].
    + destruct (utf8_lead x) as [[|r ex]|] eqn:Hl; [|by apply IH, resumes_lead|done].
      destruct (utf8_scan "" [] a) as [v0 st] eqn:H. intros [= <- ->]. eapply IH; [by left|exact H].
    + destruct (in_range r x) eqn:Hx; [|done].
      destruct ex as [|r' ex]; [|by apply IH; eapply resumes_next].
      destruct (utf8_scan "" [] a) as [v0 st] eqn:H. intros [= <- ->]. eapply IH; [by left|exact H].
Qed.

Lemma from_utf8_carry a v c : from_utf8 a = (v, Incomplete c) -> from_utf8 c = ("", Incomplete c).
Proof. apply utf8_scan_carry. by left. Qed.

(** ** [String::from_utf8_lossy] *)

(** U+FFFD *)
Definition replacement_character : string := String "239"%char (String "191"%char (String "189"%char "")).

(** As [utf8_scan], but a sequence that breaks off becomes one replacement character
    and decoding goes on at the byte that broke it. *)
Fixpoint utf8_lossy (pending : string) (expect : list (N * N)) (bs : string) : string :=
  match bs with
  | "" => match expect with [] => "" | _ => replacement_character end
  | String a bs' =>
    let fresh :=
      match utf8_lead a with
      | None => (replacement_character ++ utf8_lossy "" [] bs')%string
      | Some [] => String a (utf8_lossy "" [] bs')
      | Some ex => utf8_lossy (String a "") ex bs'
      end in
    match expect with
    | [] => fresh
    | r :: ex =>
      if in_range r a then
        match ex with
        | [] => (pending ++ String a (utf8_lossy "" [] bs'))%string
        | _ => utf8_lossy (pending ++ String a "")%string ex bs'
        end
      else (replacement_character ++ fresh)%string
    end
  end.

Definition from_utf8_lossy (bytes : string) : string := utf8_lossy "" [] bytes.

Lemma utf8_lossy_valid pending expect bs v :
  utf8_scan pending expect bs = (v, Complete) -> utf8_lossy pending expect bs = v.
Proof.
  revert pending expect v. induction bs as [|a bs IH]; intros pending expect v; cbn [utf8_scan utf8_lossy].
  { by destruct expect; intros [= <-]. }
  destruct expect as [|r ex].
  - destruct (utf8_lead a) as [[|r ex]|]; [|by apply IH|done].
    destruct (utf8_scan "" [] bs) as [v' st] eqn:Hs. intros [= <- ->]. by rewrite (IH _ _ _ Hs).
  - destruct (in_range r a); [|done]. destruct ex as [|r' ex]; [|by apply IH].
    destruct (utf8_scan "" [] bs) as [v' st] eqn:Hs. intros [= <- ->]. by rewrite (IH _ _ _ Hs).
Qed.

Lemma utf8_scan_whole pending expect bs v :
  utf8_scan pending expect bs = (v, Complete) ->
  v = match expect with [] => bs | _ => (pending ++ bs)%string end.
Proof.
  revert pending expect v. induction bs as [|a bs IH]; intros pending expect v; cbn [utf8_scan].
  { by destruct expect; intros [= <-]. }
  destruct expect as [|r ex].
  - destruct (utf8_lead a) as [[|r ex]|] eqn:Hl; [|by intros ->%IH|done].
    destruct (utf8_scan "" [] bs) as [v' st] eqn:Hs. intros [= <- ->]. by rewrite (IH _ _ _ Hs).
  - destruct (in_range r a); [|done]. destruct ex as [|r' ex].
    + destruct (utf8_scan "" [] bs) as [v' st] eqn:Hs. intros [= <- ->]. by rewrite (IH _ _ _ Hs).
    + intros ->%IH. by rewrite string_app_assoc.
Qed.

(** Text that is UTF-8 is kept as it is. *)
Lemma from_utf8_lossy_valid bytes v : from_utf8 bytes = (v, Complete) -> from_utf8_lossy bytes = bytes.
Proof.
  intros H. unfold from_utf8_lossy. rewrite (utf8_lossy_valid _ _ _ _ H). exact (utf8_scan_whole _ _ _ _ H).
Qed.

Lemma string_app_length s t : String.length (s ++ t) = String.length s + String.length t.
Proof. induction s as [|a s IH]; [done|]. rewrite string_app_cons. cbn. by rewrite IH. Qed.

(** Lossy decoding at most triples the bytes. *)
Lemma utf8_lossy_length pending expect bs :
  (expect = [] \/ 1 <= String.length pending) ->
  String.length (utf8_lossy pending expect bs)
  <= 3 * (match expect with [] => 0 | _ => String.length pending end + String.length bs).
Proof.
  revert pending expect. induction bs as [|a bs IH]; intros pending expect Hp; cbn [utf8_lossy].
  { destruct expect; cbn; [lia|]. destruct Hp as [?|Hp]; [done|lia]. }
  pose proof (IH "" [] ltac:(by left)) as H0. cbn in H0.
  set (fresh := match utf8_lead a with
      | None => (replacement_character ++ utf8_lossy "" [] bs)%string
      | Some [] => String a (utf8_lossy "" [] bs)
      | Some ex => utf8_lossy (String a "") ex bs
      end).
  assert (Hf : String.length fresh <= 3 * (1 + String.length bs)).
  { unfold fresh. destruct (utf8_lead a) as [[|r ex]|]; rewrite ?string_app_length; cbn [String.length replacement_character]; [lia| |lia].
    specialize (IH (String a "") (r :: ex) ltac:(right; cbn; lia)). cbn [String.length] in IH. lia. }
  clearbody fresh. cbn [String.length]. destruct expect as [|r ex]; [lia|].
  destruct Hp as [?|Hp]; [done|]. destruct (in_range r a).
  - destruct ex as [|r' ex]; [rewrite string_app_length; cbn [String.length]; lia|].
    specialize (IH (pending ++ String a "")%string (r' :: ex)). rewrite string_app_length in IH.
    cbn [String.length] in IH. specialize (IH ltac:(right; lia)). lia.
  - rewrite string_app_length. cbn [String.length replacement_character]. lia.
Qed.

Lemma from_utf8_lossy_length bytes : String.length (from_utf8_lossy bytes) <= 3 * String.length bytes.
Proof. unfold from_utf8_lossy. pose proof (utf8_lossy_length "" [] bytes ltac:(by left)). cbn in *. lia. Qed.

(** ** Lines *)

Definition LF : ascii := "010"%char.
Definition CR : ascii := "013"%char.

(** The complete lines of a text, without their line feeds, and what follows the last. *)
Fixpoint split_newlines (s : string) : list string * string :=
  match s with
  | "" => ([], "")
  | String a s' =>
    let '(lines, rest) := split_newlines s' in
    if Ascii.eqb a LF then ("" :: lines, rest)
    else match lines with
         | [] => ([], String a rest)
         | l :: lines' => (String a l :: lines', rest)
         end
  end.

(** Without a carriage return at the end. *)
Fixpoint strip_cr (s : string) : string :=
  match s with
  | "" => ""
  | String a "" => if Ascii.eqb a CR then "" else s
  | String a s' => String a (strip_cr s')
  end.

(** [str::lines] *)
Definition str_lines (s : string) : list string :=
  let '(lines, rest) := split_newlines s in
  map strip_cr lines ++ match rest with "" => [] | _ => [rest] end.

(** Splitting resumes at the unfinished line. *)
Lemma split_newlines_app a b :
  split_newlines (a ++ b)
  = let '(lines, rest) := split_newlines a in
    let '(lines', rest') := split_newlines (rest ++ b) in (lines ++ lines', rest').
Proof.
  induction a as [|x a IH]; rewrite ?string_app_cons, ?string_app_nil_l; cbn [split_newlines].
  - rewrite ?string_app_nil_l. by destruct (split_newlines b).
  - rewrite IH. destruct (split_newlines a) as [lines rest] eqn:Ha.
    destruct (Ascii.eqb x LF) eqn:Hx.
    + by destruct (split_newlines (rest ++ b)).
    + destruct lines as [|l lines]; rewrite ?string_app_cons; cbn [split_newlines app]; [rewrite Hx|];
        by destruct (split_newlines (rest ++ b)) as [[|? ?] ?].
Qed.

Lemma split_newlines_rest s : let '(_, rest) := split_newlines s in split_newlines rest = ([], rest).
Proof.
  induction s as [|x s IH]; [done|]. cbn. destruct (split_newlines s) as [lines rest].
  destruct (Ascii.eqb x LF) eqn:Hx; [done|]. destruct lines; [|done]. cbn. by rewrite IH, Hx.
Qed.

(** ** [str::strip_prefix] *)
Fixpoint str_strip_prefix (p s : string) : option string :=
  match p, s with
  | "", _ => Some s
  | String a p', String b s' => if Ascii.eqb a b then str_strip_prefix p' s' else None
  | String _ _, "" => None
  end.

Lemma str_strip_prefix_app p s : str_strip_prefix p (p ++ s) = Some s.
Proof. induction p as [|a p IH]; [done|]. rewrite string_app_cons. cbn. by rewrite Ascii.eqb_refl. Qed.
