(* ===== verification/Types.v ===== *)
(** * Foundation types: [src/types/mod.rs], [custom_message.rs], [model.rs], [error.rs]

    Messages and their content blocks, token usage and cost with their
    accumulation, stop reasons, model specifications, the error taxonomy, and
    the two message predicates the loop branches on.  A comment
    [@src path:first-last symbol] gives the Rust code a definition translates. *)
From S2P Require Export Externals.
From Stdlib Require Import SpecFloat.
Open Scope list_scope.

(** [std::time::Duration], in nanoseconds. *)
Definition Duration : Type := N.

(** @src src/types/mod.rs:520-536 [StopReason] *)
Inductive StopReason :=
| Stop | Length | ToolUse | Aborted | Error | Transfer.

#[export] Instance StopReason_eq_dec : EqDecision StopReason.
Proof. solve_decision. Defined.

(** @src src/stream_error_kind.rs:7-30 [StreamErrorKind] *)
Inductive StreamErrorKind :=
| Throttled | ContextWindowExceeded | Auth | Network | ContentFiltered | ModelRetired.

#[export] Instance StreamErrorKind_eq_dec : EqDecision StreamErrorKind.
Proof. solve_decision. Defined.

(** @src src/context_cache.rs:49-60 [CacheHint] *)
Inductive CacheHint :=
| Write (ttl : Duration)
| Read.

#[export] Instance CacheHint_eq_dec : EqDecision CacheHint.
Proof. solve_decision. Defined.

(** @src src/types/mod.rs:83-98 [ImageSource] *)
Inductive ImageSource :=
| Base64 (media_type data : string)
| Url (url media_type : string)
| File (path media_type : string).

#[export] Instance ImageSource_eq_dec : EqDecision ImageSource.
Proof. solve_decision. Defined.

(** ** Usage and cost *)

(** @src src/types/mod.rs:349-361 [Usage] *)
Record Usage := MkUsage {
  u_input : N; u_output : N; u_cache_read : N; u_cache_write : N; u_total : N;
  u_extra : gmap string N;
}.

#[export] Instance Usage_eq_dec : EqDecision Usage.
Proof. solve_decision. Defined.

(** @src src/types/mod.rs:350-350 [Usage::default] *)
Definition usage_default : Usage := MkUsage 0 0 0 0 0 ∅.

(** [for (k, v) in rhs { *lhs.entry(k).or_insert(zero) += v }] *)
Definition entry_add {V} (zero : V) (add : V -> V -> V) (lhs rhs : gmap string V) : gmap string V :=
  merge (fun a b => match b with
                    | Some v => Some (add (default zero a) v)
                    | None => a
                    end) lhs rhs.

(** @src src/types/mod.rs:415-426 [Usage::add_assign] *)
Definition usage_add (a b : Usage) : Usage :=
  MkUsage (u64_add (u_input a) (u_input b))
          (u64_add (u_output a) (u_output b))
          (u64_add (u_cache_read a) (u_cache_read b))
          (u64_add (u_cache_write a) (u_cache_write b))
          (u64_add (u_total a) (u_total b))
          (entry_add 0%N u64_add (u_extra a) (u_extra b)).

(** @src src/types/mod.rs:365-367 [Usage::merge] *)
Definition usage_merge (self other : Usage) : Usage := usage_add self other.

(** @src src/types/mod.rs:428-440 [Cost] *)
Record Cost := MkCost {
  c_input : f64; c_output : f64; c_cache_read : f64; c_cache_write : f64; c_total : f64;
  c_extra : gmap string f64;
}.

(** @src src/types/mod.rs:430-430 [Cost::default] *)
Definition cost_default : Cost :=
  MkCost f64_zero f64_zero f64_zero f64_zero f64_zero ∅.

(** @src src/types/mod.rs:449-456 [Cost::is_zero] *)
Definition cost_is_zero (c : Cost) : bool :=
  f64_eqb (c_input c) f64_zero
  && f64_eqb (c_output c) f64_zero
  && f64_eqb (c_cache_read c) f64_zero
  && f64_eqb (c_cache_write c) f64_zero
  && f64_eqb (c_total c) f64_zero
  && forallb (fun kv => f64_eqb (snd kv) f64_zero) (map_to_list (c_extra c)).

(** @src src/types/mod.rs:504-515 [Cost::add_assign] *)
Definition cost_add (a b : Cost) : Cost :=
  MkCost (f64_add (c_input a) (c_input b))
         (f64_add (c_output a) (c_output b))
         (f64_add (c_cache_read a) (c_cache_read b))
         (f64_add (c_cache_write a) (c_cache_write b))
         (f64_add (c_total a) (c_total b))
         (entry_add f64_zero f64_add (c_extra a) (c_extra b)).

(** ** Models *)

(** @src src/types/model.rs:140-151 [ThinkingLevel] *)
Inductive ThinkingLevel := Off | Minimal | Low | Medium | High | ExtraHigh.

#[export] Instance ThinkingLevel_eq_dec : EqDecision ThinkingLevel.
Proof. solve_decision. Defined.

(** @src src/types/model.rs:182-249 [ThinkingLevelSet], a bit set in a [u8] *)
Definition ThinkingLevelSet : Type := N.

(** @src src/types/model.rs:239-248 [ThinkingLevelSet::bit] *)
Definition tls_bit (level : ThinkingLevel) : N :=
  match level with
  | Off => N.shiftl 1 0 | Minimal => N.shiftl 1 1 | Low => N.shiftl 1 2
  | Medium => N.shiftl 1 3 | High => N.shiftl 1 4 | ExtraHigh => N.shiftl 1 5
  end.

(** @src src/types/model.rs:214-218 [ThinkingLevelSet::insert] *)
Definition tls_insert (s : ThinkingLevelSet) (level : ThinkingLevel) : ThinkingLevelSet :=
  N.lor s (tls_bit level).

(** @src src/types/model.rs:220-224 [ThinkingLevelSet::contains] *)
Definition tls_contains (s : ThinkingLevelSet) (level : ThinkingLevel) : bool :=
  negb (N.land s (tls_bit level) =? 0)%N.

(** @src src/types/model.rs:204-212 [ThinkingLevelSet::from_levels] *)
Definition tls_from_levels (levels : list ThinkingLevel) : ThinkingLevelSet :=
  foldl tls_insert 0%N levels.

(** @src src/types/model.rs:12-39 [ModelCapabilities] *)
Record ModelCapabilities := MkModelCapabilities {
  supports_thinking : bool;
  supports_vision : bool;
  supports_tool_use : bool;
  supports_streaming : bool;
  supports_structured_output : bool;
  max_context_window : option N;
  max_output_tokens : option N;
  reasoning_levels : option ThinkingLevelSet;
}.

(** @src src/types/model.rs:103-118 [ModelCapabilities::accepts_reasoning_level] *)
Definition accepts_reasoning_level (c : ModelCapabilities) (level : ThinkingLevel) : bool :=
  match level with
  | Off => true
  | _ => match reasoning_levels c with
         | Some levels => tls_contains levels level
         | None => supports_thinking c
         end
  end.

Section Messages.
Context `{E : Ext}.

(** @src src/types/model.rs:287-302 [ModelSpec] *)
Record ModelSpec := MkModelSpec {
  ms_provider : string;
  ms_model_id : string;
  ms_thinking_level : ThinkingLevel;
  ms_thinking_budgets : option (list (ThinkingLevel * N));
  ms_provider_config : option Value;
  ms_capabilities : option ModelCapabilities;
}.

(** ** Content *)

(** @src src/types/mod.rs:33-65 [ContentBlock] *)
Inductive ContentBlock :=
| Text (text : string)
| Thinking (thinking : string) (signature : option string)
| ToolCall (id name : string) (arguments : Value) (partial_json : option string)
| Image (source : ImageSource)
| Extension (type_name : string) (data : Value).

#[export] Instance ContentBlock_eq_dec : EqDecision ContentBlock.
Proof. solve_decision. Defined.

(** @src src/types/mod.rs:71-79 [ContentBlock::extract_text] *)
Definition extract_text (blocks : list ContentBlock) : string :=
  foldl (fun result block => match block with
                             | Text text => (result ++ text)%string
                             | _ => result
                             end) ""%string blocks.

(** @src src/types/mod.rs:103-111 [UserMessage] *)
Record UserMessage := MkUserMessage {
  um_content : list ContentBlock;
  um_timestamp : N;
  um_cache_hint : option CacheHint;
}.

(** @src src/types/mod.rs:140-160 [AssistantMessage] *)
Record AssistantMessage := MkAssistantMessage {
  am_content : list ContentBlock;
  am_provider : string;
  am_model_id : string;
  am_usage : Usage;
  am_cost : Cost;
  am_stop_reason : StopReason;
  am_error_message : option string;
  am_error_kind : option StreamErrorKind;
  am_timestamp : N;
  am_cache_hint : option CacheHint;
}.

(** @src src/types/mod.rs:280-293 [ToolResultMessage] *)
Record ToolResultMessage := MkToolResultMessage {
  tr_tool_call_id : string;
  tr_content : list ContentBlock;
  tr_is_error : bool;
  tr_timestamp : N;
  tr_details : Value;
  tr_cache_hint : option CacheHint;
}.

(** @src src/types/mod.rs:338-345 [LlmMessage] *)
Inductive LlmMessage :=
| User (m : UserMessage)
| Assistant (m : AssistantMessage)
| ToolResult (m : ToolResultMessage).

(** A [Box<dyn CustomMessage>]: an application type, or the plain-data
    stand-in of the message codec.
    @src src/types/message_codec.rs:219-224 [SerializedCustomMessage] *)
Inductive CustomMessage :=
| ForeignCustom (f : Foreign)
| SerializedCustom (name : string) (json : Value).

(** @src src/types/message_codec.rs:252-254 [CustomMessage::type_name] *)
Definition type_name (c : CustomMessage) : option string :=
  match c with ForeignCustom f => foreign_type_name f | SerializedCustom n _ => Some n end.

(** @src src/types/message_codec.rs:255-257 [CustomMessage::to_json] *)
Definition to_json (c : CustomMessage) : option Value :=
  match c with ForeignCustom f => foreign_to_json f | SerializedCustom _ j => Some j end.

(** @src src/types/message_codec.rs:258-260 [CustomMessage::clone_box] *)
Definition clone_box (c : CustomMessage) : option CustomMessage :=
  match c with
  | ForeignCustom f => ForeignCustom <$> foreign_clone_box f
  | SerializedCustom n j => Some (SerializedCustom n j)
  end.

(** @src src/types/custom_message.rs:186-194 [AgentMessage] *)
Inductive AgentMessage :=
| Llm (m : LlmMessage)
| Custom (c : CustomMessage).

(** @src src/types/mod.rs:234-248 [AssistantMessage::has_visible_content] *)
Definition has_visible_content (m : AssistantMessage) : bool :=
  existsb (fun block => match block with
                        | Text text => negb (trim_is_empty text)
                        | Thinking _ _ => false
                        | _ => true
                        end) (am_content m).

(** @src src/types/mod.rs:250-264 [AssistantMessage::is_reasoning_only] *)
Definition is_reasoning_only (m : AssistantMessage) : bool :=
  negb (has_visible_content m)
  && existsb (fun block => match block with Thinking _ _ => true | _ => false end)
             (am_content m).

(** @src src/types/custom_message.rs:221-233 [AgentMessage::cache_hint] *)
Definition cache_hint (m : AgentMessage) : option CacheHint :=
  match m with
  | Llm (User m) => um_cache_hint m
  | Llm (Assistant m) => am_cache_hint m
  | Llm (ToolResult m) => tr_cache_hint m
  | Custom _ => None
  end.

(** Field assignment of [cache_hint], shared by the setters below. *)
Definition llm_put_cache_hint (h : option CacheHint) (m : LlmMessage) : LlmMessage :=
  match m with
  | User m => User (MkUserMessage (um_content m) (um_timestamp m) h)
  | Assistant m =>
    Assistant (MkAssistantMessage (am_content m) (am_provider m) (am_model_id m) (am_usage m)
                 (am_cost m) (am_stop_reason m) (am_error_message m) (am_error_kind m)
                 (am_timestamp m) h)
  | ToolResult m =>
    ToolResult (MkToolResultMessage (tr_tool_call_id m) (tr_content m) (tr_is_error m)
                  (tr_timestamp m) (tr_details m) h)
  end.

(** @src src/types/custom_message.rs:235-247 [AgentMessage::set_cache_hint] *)
Definition set_cache_hint (h : CacheHint) (m : AgentMessage) : AgentMessage :=
  match m with Llm m => Llm (llm_put_cache_hint (Some h) m) | Custom c => Custom c end.

(** @src src/types/custom_message.rs:249-259 [AgentMessage::clear_cache_hint] *)
Definition clear_cache_hint (m : AgentMessage) : AgentMessage :=
  match m with Llm m => Llm (llm_put_cache_hint None m) | Custom c => Custom c end.

(** The LLM payload of a message; the [filtermap] the loop uses in many places. *)
Definition as_llm (m : AgentMessage) : option LlmMessage :=
  match m with Llm m => Some m | Custom _ => None end.

(** ** Errors *)

(** @src src/error.rs:42-148 [AgentError]; a boxed [source] is the list of
    messages of its [source()] chain *)
Inductive AgentError :=
| ContextWindowOverflow (model : string)
| ModelThrottled
| NetworkError (source : list string)
| StructuredOutputFailed (attempts : N) (last_error : string)
| AlreadyRunning
| NoMessages
| InvalidContinue
| StreamError (source : list string)
| AbortedError
| PluginError (name : string) (source : list string)
| CacheMiss
| ContentFilteredError
| ModelRetiredError (message : string)
| SyncInAsyncContext
| RuntimeInit (source : list string)
| AuthError (message : string).

(** @src src/error.rs:151-156 [AgentError::is_retryable] *)
Definition is_retryable (e : AgentError) : bool :=
  match e with ModelThrottled | NetworkError _ => true | _ => false end.

(** @src src/error.rs:47-148 [Display for AgentError] *)
Definition error_display (e : AgentError) : string :=
  match e with
  | ContextWindowOverflow model => "context window overflow for model: " ++ model
  | ModelThrottled => "model request throttled (rate limited)"
  | NetworkError _ => "network error"
  | StructuredOutputFailed n last =>
    "structured output failed after " ++ pretty n ++ " attempts: " ++ last
  | AlreadyRunning => "agent is already running"
  | NoMessages => "cannot continue with empty message history"
  | InvalidContinue => "cannot continue when last message is an assistant message"
  | StreamError _ => "stream error"
  | AbortedError => "operation aborted via cancellation token"
  | PluginError name _ => "plugin error (" ++ name ++ ")"
  | CacheMiss => "provider cache miss"
  | ContentFilteredError => "content filtered by provider safety policy"
  | ModelRetiredError message => "model retired by provider: " ++ message
  | SyncInAsyncContext =>
    "sync API called inside an active Tokio runtime — use the async variant instead"
  | RuntimeInit _ => "failed to create Tokio runtime for sync API"
  | AuthError message => "authentication failed: " ++ message
  end%string.

(** The [source()] chain of an error. *)
Definition error_sources (e : AgentError) : list string :=
  match e with
  | NetworkError s | StreamError s | PluginError _ s | RuntimeInit s => s
  | _ => []
  end.

End Messages.

(** ** Laws of the accumulation operators *)

Lemma entry_add_lookup {V} (zero : V) add (a b : gmap string V) k :
  entry_add zero add a b !! k =
  match b !! k with Some v => Some (add (default zero (a !! k)) v) | None => a !! k end.
Proof. unfold entry_add. rewrite lookup_merge. by destruct (a !! k), (b !! k). Qed.

(** Every counter of a well-formed usage is a [u64]. *)
Definition usage_wf (u : Usage) : Prop :=
  (u_input u < u64_modulus /\ u_output u < u64_modulus /\ u_cache_read u < u64_modulus
   /\ u_cache_write u < u64_modulus /\ u_total u < u64_modulus)%N
  /\ map_Forall (fun _ v => v < u64_modulus)%N (u_extra u).

Lemma usage_add_wf a b : usage_wf a -> usage_wf (usage_add a b).
Proof.
  intros [_ Ha]. split; [repeat split; apply u64_add_lt|].
  intros k v. simpl. rewrite entry_add_lookup.
  destruct (u_extra b !! k); [|apply Ha]. intros [= <-]. apply u64_add_lt.
Qed.

Lemma usage_add_default_l a : usage_wf a -> usage_add usage_default a = a.
Proof.
  intros [(?&?&?&?&?) Ha]. destruct a as [i o cr cw t ex]; unfold usage_add; simpl in *.
  rewrite !u64_add_exact, !N.add_0_l by lia. f_equal.
  apply map_eq; intros k. rewrite entry_add_lookup, lookup_empty.
  destruct (ex !! k) as [v|] eqn:Ek; [|done]. simpl. f_equal.
  apply Ha in Ek. rewrite u64_add_exact; lia.
Qed.

Lemma usage_add_assoc a b c : usage_add a (usage_add b c) = usage_add (usage_add a b) c.
Proof.
  unfold usage_add; simpl. rewrite !u64_add_assoc. f_equal.
  apply map_eq; intros k. rewrite !entry_add_lookup.
  destruct (u_extra c !! k), (u_extra b !! k); simpl; try done.
  - by rewrite u64_add_assoc.
  - by rewrite u64_add_0_idemp.
Qed.

(** [tls_contains] after [tls_insert] is set membership. *)
Lemma tls_contains_insert s l l' :
  tls_contains (tls_insert s l) l' = bool_decide (l = l') || tls_contains s l'.
Proof.
  unfold tls_contains, tls_insert. rewrite N.land_lor_distr_l.
  assert (Hz : forall a b, (N.lor a b =? 0)%N = ((a =? 0) && (b =? 0))%N).
  { intros a b. apply eq_true_iff_eq. rewrite andb_true_iff, !N.eqb_eq.
    split; [apply N.lor_eq_0_iff|]. intros [-> ->]. done. }
  rewrite Hz, negb_andb, orb_comm. f_equal. by destruct l, l'.
Qed.

(** A message cannot be reasoning-only and carry a tool call. *)
Lemma reasoning_only_no_visible `{Ext} m :
  is_reasoning_only m = true -> has_visible_content m = false.
Proof. unfold is_reasoning_only. rewrite andb_true_iff, negb_true_iff. tauto. Qed.

Lemma put_cache_hint_twice `{Ext} h h' m :
  llm_put_cache_hint h (llm_put_cache_hint h' m) = llm_put_cache_hint h m.
Proof. by destruct m. Qed.

(** ** Concrete messages, for evaluating the model *)
Module Demo.
#[export] Existing Instance Toy.ext.

Definition call (id name args : string) : ContentBlock := ToolCall id name (Toy.JObj args) None.
Definition text (t : string) : ContentBlock := Text t.
Definition user (t : string) : AgentMessage := Llm (User (MkUserMessage [Text t] 0 None)).
Definition assistant_message (c : list ContentBlock) (sr : StopReason) : AssistantMessage :=
  MkAssistantMessage c "p" "m" usage_default cost_default sr None None 0 None.
Definition assistant (c : list ContentBlock) : AgentMessage :=
  Llm (Assistant (assistant_message c ToolUse)).
Definition result_message (id t : string) : ToolResultMessage :=
  MkToolResultMessage id [Text t] false 0 Toy.JNull None.
Definition result (id t : string) : AgentMessage := Llm (ToolResult (result_message id t)).
End Demo.
