(* ===== verification/Stream.v ===== *)
(** * The streaming protocol: [src/stream.rs]

    [AssistantMessageEvent] and [accumulate_message], the function that
    rebuilds a finished [AssistantMessage] from the events of one provider
    stream, together with [sanitize_incomplete_tool_calls].  The Rust loop over
    the events is a fold of [acc_event] in the error monad; the local variables
    of the loop are the fields of [Acc]. *)
From S2P Require Export Types.
Open Scope list_scope.

Section Events.
Context `{E : Ext}.

(** @src src/stream.rs:693-760 [AssistantMessageEvent] *)
Inductive AssistantMessageEvent :=
| Start
| TextStart (content_index : nat)
| TextDelta (content_index : nat) (delta : string)
| TextEnd (content_index : nat)
| ThinkingStart (content_index : nat)
| ThinkingDelta (content_index : nat) (delta : string)
| ThinkingEnd (content_index : nat) (signature : option string)
| ToolCallStart (content_index : nat) (id name : string)
| ToolCallDelta (content_index : nat) (delta : string)
| ToolCallEnd (content_index : nat)
| Done (stop_reason : StopReason) (usage : Usage) (cost : Cost)
| ErrorEvent (stop_reason : StopReason) (error_message : string) (usage : option Usage)
             (error_kind : option StreamErrorKind) (retry_after : option Duration).

(** @src src/stream.rs:763-776 [AssistantMessageEvent::error] *)
Definition event_error (message : string) : AssistantMessageEvent :=
  ErrorEvent Error message None None None.

(** @src src/stream.rs:778-790 [AssistantMessageEvent::error_throttled] *)
Definition event_error_throttled (message : string) : AssistantMessageEvent :=
  ErrorEvent Error message None (Some Throttled) None.

(** @src src/stream.rs:792-804 [AssistantMessageEvent::error_context_overflow] *)
Definition event_error_context_overflow (message : string) : AssistantMessageEvent :=
  ErrorEvent Error message None (Some ContextWindowExceeded) None.

(** @src src/stream.rs:806-818 [AssistantMessageEvent::error_auth] *)
Definition event_error_auth (message : string) : AssistantMessageEvent :=
  ErrorEvent Error message None (Some Auth) None.

(** @src src/stream.rs:820-832 [AssistantMessageEvent::error_network] *)
Definition event_error_network (message : string) : AssistantMessageEvent :=
  ErrorEvent Error message None (Some Network) None.

(** @src src/stream.rs:834-846 [AssistantMessageEvent::error_content_filtered] *)
Definition event_error_content_filtered (message : string) : AssistantMessageEvent :=
  ErrorEvent Error message None (Some ContentFiltered) None.

(** @src src/stream.rs:848-862 [AssistantMessageEvent::error_model_retired] *)
Definition event_error_model_retired (message : string) : AssistantMessageEvent :=
  ErrorEvent Error message None (Some ModelRetired) None.

(** @src src/stream.rs:864-884 [AssistantMessageEvent::text_response] *)
Definition text_response (text : string) : list AssistantMessageEvent :=
  [Start; TextStart 0; TextDelta 0 text; TextEnd 0; Done Stop usage_default cost_default].

Definition is_terminal (e : AssistantMessageEvent) : bool :=
  match e with Done _ _ _ | ErrorEvent _ _ _ _ _ => true | _ => false end.

(** The block a content event addresses. *)
Definition event_index (e : AssistantMessageEvent) : option nat :=
  match e with
  | TextStart i | TextDelta i _ | TextEnd i
  | ThinkingStart i | ThinkingDelta i _ | ThinkingEnd i _
  | ToolCallStart i _ _ | ToolCallDelta i _ | ToolCallEnd i => Some i
  | _ => None
  end.

(** @src src/stream.rs:1108-1126 [sanitize_incomplete_tool_calls], one block *)
Definition sanitize_block (b : ContentBlock) : ContentBlock * nat :=
  match b with
  | ToolCall id name arguments partial_json =>
    if bool_decide (is_Some partial_json) || negb (json_is_object arguments)
    then (ToolCall id name json_empty_object None, 1)
    else (b, 0)
  | _ => (b, 0)
  end.

(** @src src/stream.rs:1086-1126 [sanitize_incomplete_tool_calls] *)
Definition sanitize_incomplete_tool_calls (m : AssistantMessage) : AssistantMessage * nat :=
  let blocks := map sanitize_block (am_content m) in
  (MkAssistantMessage (map fst blocks) (am_provider m) (am_model_id m) (am_usage m)
     (am_cost m) (am_stop_reason m) (am_error_message m) (am_error_kind m)
     (am_timestamp m) (am_cache_hint m),
   foldr Nat.add 0 (map snd blocks)).

(** ** [accumulate_message] *)

(** The local variables of the loop.
    @src src/stream.rs:1194-1205 [accumulate_message locals] *)
Record Acc := MkAcc {
  acc_content : option (list ContentBlock);
  acc_open : list bool;
  acc_stop_reason : option StopReason;
  acc_usage : option Usage;
  acc_cost : option Cost;
  acc_error_message : option string;
  acc_error_kind : option StreamErrorKind;
  acc_saw_start : bool;
  acc_saw_terminal : bool;
}.

Definition acc_init : Acc := MkAcc None [] None None None None None false false.

(** Assignment to [content] and [open_blocks]. *)
Definition acc_set (a : Acc) (blocks : list ContentBlock) (open : list bool) : Acc :=
  MkAcc (Some blocks) open (acc_stop_reason a) (acc_usage a) (acc_cost a)
        (acc_error_message a) (acc_error_kind a) (acc_saw_start a) (acc_saw_terminal a).

Definition AccResult : Type := result Acc string.

(** @src src/stream.rs:1143-1154 [ensure_block_open] *)
Definition ensure_block_open (open : list bool) (i : nat) (ev : string) : result unit string :=
  match open !! i with
  | Some false => Err (ev ++ ": block at index " ++ pretty i ++ " is already closed")%string
  | Some true | None => Ok tt
  end.

Definition is_tool_call (b : ContentBlock) : bool :=
  match b with ToolCall _ _ _ _ => true | _ => false end.

(** @src src/stream.rs:1156-1167 [all_open_blocks_are_tool_calls] *)
Definition all_open_blocks_are_tool_calls (content : list ContentBlock) (open : list bool) : bool :=
  forallb (fun io => match io with
                     | (i, true) => match content !! i with
                                    | Some b => is_tool_call b | None => false end
                     | (_, false) => true
                     end) (imap pair open).

(** @src src/stream.rs:1169-1192 [validate_terminal_open_blocks] *)
Definition validate_terminal_open_blocks (ev : string) (content : option (list ContentBlock))
    (open : list bool) (tolerate : bool) : result unit string :=
  match position id open with
  | Some idx =>
    content <-? ok_or content (ev ++ " before Start")%string ;;
    if tolerate && all_open_blocks_are_tool_calls content open then Ok tt
    else Err (ev ++ " received with unterminated content block at index " ++ pretty idx)%string
  | None => Ok tt
  end.

(** @src src/stream.rs:1207-1220 [tolerate_truncated_tool_args] *)
Definition tolerate_truncated_tool_args (events : list AssistantMessageEvent) : bool :=
  existsb (fun e => match e with Done Length _ _ => true | _ => false end) events.

(** @src src/stream.rs:1223-1248 [accumulate_message, terminal guard] *)
Definition check_terminal (a : Acc) (e : AssistantMessageEvent) : result unit string :=
  match e with
  | Done _ _ _ | ErrorEvent _ _ _ _ _ =>
    if acc_saw_terminal a then Err "duplicate terminal event"%string else Ok tt
  | Start => if acc_saw_terminal a then Err "Start event after terminal event"%string else Ok tt
  | _ => if acc_saw_terminal a then Err "content event after terminal event"%string else Ok tt
  end.

(** @src src/stream.rs:1251-1257 [accumulate_message, Start] *)
Definition on_start (a : Acc) : AccResult :=
  if acc_saw_start a then Err "duplicate Start event"%string
  else Ok (MkAcc (Some []) (acc_open a) (acc_stop_reason a) (acc_usage a) (acc_cost a)
                 (acc_error_message a) (acc_error_kind a) true (acc_saw_terminal a)).

Definition index_mismatch (ev : string) (i len : nat) : string :=
  (ev ++ " content_index " ++ pretty i ++ " != content length " ++ pretty len)%string.

(** @src src/stream.rs:1259-1271 [accumulate_message, TextStart] *)
Definition on_text_start (a : Acc) (i : nat) : AccResult :=
  blocks <-? ok_or (acc_content a) "TextStart before Start"%string ;;
  if negb (Nat.eqb i (List.length blocks)) then Err (index_mismatch "TextStart" i (List.length blocks))
  else Ok (acc_set a (blocks ++ [Text ""%string]) (acc_open a ++ [true])).

(** @src src/stream.rs:1273-1290 [accumulate_message, TextDelta] *)
Definition on_text_delta (a : Acc) (i : nat) (delta : string) : AccResult :=
  blocks <-? ok_or (acc_content a) "TextDelta before Start"%string ;;
  ensure_block_open (acc_open a) i "TextDelta" ;;?
  block <-? ok_or (blocks !! i) ("TextDelta: invalid content_index " ++ pretty i)%string ;;
  match block with
  | Text text => Ok (acc_set a (<[i := Text (text ++ delta)%string]> blocks) (acc_open a))
  | _ => Err ("TextDelta: block at index " ++ pretty i ++ " is not Text")%string
  end.

(** @src src/stream.rs:1292-1306 [accumulate_message, TextEnd] *)
Definition on_text_end (a : Acc) (i : nat) : AccResult :=
  blocks <-? ok_or (acc_content a) "TextEnd before Start"%string ;;
  block <-? ok_or (blocks !! i) ("TextEnd: invalid content_index " ++ pretty i)%string ;;
  match block with
  | Text _ =>
    ensure_block_open (acc_open a) i "TextEnd" ;;?
    Ok (acc_set a blocks (<[i := false]> (acc_open a)))
  | _ => Err ("TextEnd: block at index " ++ pretty i ++ " is not Text")%string
  end.

(** @src src/stream.rs:1308-1321 [accumulate_message, ThinkingStart] *)
Definition on_thinking_start (a : Acc) (i : nat) : AccResult :=
  blocks <-? ok_or (acc_content a) "ThinkingStart before Start"%string ;;
  if negb (Nat.eqb i (List.length blocks)) then Err (index_mismatch "ThinkingStart" i (List.length blocks))
  else Ok (acc_set a (blocks ++ [Thinking ""%string None]) (acc_open a ++ [true])).

(** @src src/stream.rs:1323-1340 [accumulate_message, ThinkingDelta] *)
Definition on_thinking_delta (a : Acc) (i : nat) (delta : string) : AccResult :=
  blocks <-? ok_or (acc_content a) "ThinkingDelta before Start"%string ;;
  ensure_block_open (acc_open a) i "ThinkingDelta" ;;?
  block <-? ok_or (blocks !! i) ("ThinkingDelta: invalid content_index " ++ pretty i)%string ;;
  match block with
  | Thinking thinking sig =>
    Ok (acc_set a (<[i := Thinking (thinking ++ delta)%string sig]> blocks) (acc_open a))
  | _ => Err ("ThinkingDelta: block at index " ++ pretty i ++ " is not Thinking")%string
  end.

(** @src src/stream.rs:1342-1362 [accumulate_message, ThinkingEnd] *)
Definition on_thinking_end (a : Acc) (i : nat) (signature : option string) : AccResult :=
  blocks <-? ok_or (acc_content a) "ThinkingEnd before Start"%string ;;
  ensure_block_open (acc_open a) i "ThinkingEnd" ;;?
  block <-? ok_or (blocks !! i) ("ThinkingEnd: invalid content_index " ++ pretty i)%string ;;
  match block with
  | Thinking thinking _ =>
    Ok (acc_set a (<[i := Thinking thinking signature]> blocks) (<[i := false]> (acc_open a)))
  | _ => Err ("ThinkingEnd: block at index " ++ pretty i ++ " is not Thinking")%string
  end.

(** @src src/stream.rs:1364-1383 [accumulate_message, ToolCallStart] *)
Definition on_tool_call_start (a : Acc) (i : nat) (id name : string) : AccResult :=
  blocks <-? ok_or (acc_content a) "ToolCallStart before Start"%string ;;
  if negb (Nat.eqb i (List.length blocks)) then Err (index_mismatch "ToolCallStart" i (List.length blocks))
  else Ok (acc_set a (blocks ++ [ToolCall id name json_null (Some ""%string)])
                   (acc_open a ++ [true])).

(** @src src/stream.rs:1385-1407 [accumulate_message, ToolCallDelta] *)
Definition on_tool_call_delta (a : Acc) (i : nat) (delta : string) : AccResult :=
  blocks <-? ok_or (acc_content a) "ToolCallDelta before Start"%string ;;
  ensure_block_open (acc_open a) i "ToolCallDelta" ;;?
  block <-? ok_or (blocks !! i) ("ToolCallDelta: invalid content_index " ++ pretty i)%string ;;
  match block with
  | ToolCall id name arguments partial_json =>
    pj <-? ok_or partial_json "ToolCallDelta: partial_json already consumed"%string ;;
    Ok (acc_set a (<[i := ToolCall id name arguments (Some (pj ++ delta)%string)]> blocks)
                (acc_open a))
  | _ => Err ("ToolCallDelta: block at index " ++ pretty i ++ " is not ToolCall")%string
  end.

(** @src src/stream.rs:1425-1446 [accumulate_message, ToolCallEnd arguments] *)
Definition finish_tool_args (tolerate : bool) (id name : string) (arguments : Value)
    (json_str : string) : result ContentBlock string :=
  if String.eqb json_str "" then Ok (ToolCall id name json_empty_object None)
  else match json_from_str json_str with
       | Ok v => Ok (ToolCall id name v None)
       | Err e =>
         if tolerate then Ok (ToolCall id name arguments (Some json_str))
         else Err ("ToolCallEnd: failed to parse arguments JSON: " ++ e)%string
       end.

(** @src src/stream.rs:1409-1457 [accumulate_message, ToolCallEnd] *)
Definition on_tool_call_end (tolerate : bool) (a : Acc) (i : nat) : AccResult :=
  blocks <-? ok_or (acc_content a) "ToolCallEnd before Start"%string ;;
  block <-? ok_or (blocks !! i) ("ToolCallEnd: invalid content_index " ++ pretty i)%string ;;
  ensure_block_open (acc_open a) i "ToolCallEnd" ;;?
  match block with
  | ToolCall id name arguments partial_json =>
    json_str <-? ok_or partial_json "ToolCallEnd: partial_json already consumed"%string ;;
    b <-? finish_tool_args tolerate id name arguments json_str ;;
    Ok (acc_set a (<[i := b]> blocks) (<[i := false]> (acc_open a)))
  | _ => Err ("ToolCallEnd: block at index " ++ pretty i ++ " is not ToolCall")%string
  end.

(** @src src/stream.rs:1459-1474 [accumulate_message, Done] *)
Definition on_done (tolerate : bool) (a : Acc) (sr : StopReason) (u : Usage) (c : Cost) : AccResult :=
  validate_terminal_open_blocks "Done" (acc_content a) (acc_open a) tolerate ;;?
  Ok (MkAcc (acc_content a) (acc_open a) (Some sr) (Some u) (Some c)
            (acc_error_message a) (acc_error_kind a) (acc_saw_start a) true).

(** @src src/stream.rs:1476-1491 [accumulate_message, Error] *)
Definition on_error (a : Acc) (sr : StopReason) (em : string) (u : option Usage)
    (ek : option StreamErrorKind) : AccResult :=
  validate_terminal_open_blocks "Error" (acc_content a) (acc_open a) false ;;?
  Ok (MkAcc (acc_content a) (acc_open a) (Some sr)
            (match u with Some u => Some u | None => acc_usage a end) (acc_cost a)
            (Some em) ek (acc_saw_start a) true).

(** @src src/stream.rs:1222-1493 [accumulate_message, loop body] *)
Definition acc_event (tolerate : bool) (a : Acc) (e : AssistantMessageEvent) : AccResult :=
  check_terminal a e ;;?
  match e with
  | Start => on_start a
  | TextStart i => on_text_start a i
  | TextDelta i d => on_text_delta a i d
  | TextEnd i => on_text_end a i
  | ThinkingStart i => on_thinking_start a i
  | ThinkingDelta i d => on_thinking_delta a i d
  | ThinkingEnd i s => on_thinking_end a i s
  | ToolCallStart i id name => on_tool_call_start a i id name
  | ToolCallDelta i d => on_tool_call_delta a i d
  | ToolCallEnd i => on_tool_call_end tolerate a i
  | Done sr u c => on_done tolerate a sr u c
  | ErrorEvent sr em u ek _ => on_error a sr em u ek
  end.

(** The [for event in events] loop. *)
Fixpoint acc_events (tolerate : bool) (a : Acc) (events : list AssistantMessageEvent) : AccResult :=
  match events with
  | [] => Ok a
  | e :: events' => a' <-? acc_event tolerate a e ;; acc_events tolerate a' events'
  end.

(** [now] is the reading of [now_timestamp()].
    @src src/stream.rs:1130-1512 [accumulate_message] *)
Definition accumulate_message (now : N) (events : list AssistantMessageEvent)
    (provider model_id : string) : result AssistantMessage string :=
  a <-? acc_events (tolerate_truncated_tool_args events) acc_init events ;;
  content <-? ok_or (acc_content a) "no Start event found"%string ;;
  stop_reason <-? ok_or (acc_stop_reason a)
                    "no terminal event (Done or Error) found"%string ;;
  Ok (MkAssistantMessage content provider model_id
        (default usage_default (acc_usage a)) (default cost_default (acc_cost a))
        stop_reason (acc_error_message a) (acc_error_kind a) now None).

End Events.
