(* ===== verification/StreamSpec.v ===== *)
(** * Specification of the streaming protocol

    What a finished message means, stated without the loop of
    [accumulate_message]: a stream is [Start], content events and one terminal
    event; the blocks are numbered in the order they are started; and block
    [i] of the message is determined by the subsequence of events addressed to
    [i] alone, however the blocks' events interleave.  [accumulate_message]
    accepts exactly these streams and builds exactly this message. *)
From S2P Require Export Stream.
Open Scope list_scope.

Section Spec.
Context `{E : Ext}.

(** ** The declarative specification *)

Definition is_start_of (e : AssistantMessageEvent) : option nat :=
  match e with
  | TextStart i | ThinkingStart i | ToolCallStart i _ _ => Some i
  | _ => None
  end.

(** The events addressed to block [i]. *)
Definition events_of (i : nat) (es : list AssistantMessageEvent) : list AssistantMessageEvent :=
  filter (fun e => event_index e = Some i) es.

Definition concat_text (ds : list string) : string := foldl String.append ""%string ds.

(** The complete life of one block; [tol] is the max-token tolerance. *)
Inductive block_trace (tol : bool) (i : nat) : list AssistantMessageEvent -> ContentBlock -> Prop :=
| bt_text ds :
  block_trace tol i (TextStart i :: map (TextDelta i) ds ++ [TextEnd i]) (Text (concat_text ds))
| bt_thinking ds sig :
  block_trace tol i (ThinkingStart i :: map (ThinkingDelta i) ds ++ [ThinkingEnd i sig])
    (Thinking (concat_text ds) sig)
| bt_tool id name ds b :
  finish_tool_args tol id name json_null (concat_text ds) = Ok b ->
  block_trace tol i (ToolCallStart i id name :: map (ToolCallDelta i) ds ++ [ToolCallEnd i]) b
| bt_tool_cut id name ds :
  tol = true ->
  block_trace tol i (ToolCallStart i id name :: map (ToolCallDelta i) ds)
    (ToolCall id name json_null (Some (concat_text ds))).

(** What the terminal event contributes to the message. *)
Definition terminal_fields (t : AssistantMessageEvent) :
    option (bool * StopReason * Usage * Cost * option string * option StreamErrorKind) :=
  match t with
  | Done sr u c => Some (bool_decide (sr = Length), sr, u, c, None, None)
  | ErrorEvent sr em u ek _ =>
    Some (false, sr, default usage_default u, cost_default, Some em, ek)
  | _ => None
  end.

Definition stream_denotes (now : N) (provider model : string)
    (es : list AssistantMessageEvent) (m : AssistantMessage) : Prop :=
  exists mid t tol sr u c em ek,
    es = Start :: mid ++ [t]
    /\ terminal_fields t = Some (tol, sr, u, c, em, ek)
    /\ Forall (fun e => exists i, event_index e = Some i /\ i < length (am_content m)) mid
    /\ filtermap is_start_of mid = seq 0 (length (am_content m))
    /\ (forall i b, am_content m !! i = Some b -> block_trace tol i (events_of i mid) b)
    /\ m = MkAssistantMessage (am_content m) provider model u c sr em ek now None.

(** ** One block as an automaton *)

Definition bstate : Type := option (ContentBlock * bool).

Definition bstep (tol : bool) (s : bstate) (e : AssistantMessageEvent) : option (ContentBlock * bool) :=
  match s, e with
  | None, TextStart _ => Some (Text ""%string, true)
  | None, ThinkingStart _ => Some (Thinking ""%string None, true)
  | None, ToolCallStart _ id name =>
    Some (ToolCall id name json_null (Some ""%string), true)
  | Some (Text t, true), TextDelta _ d => Some (Text (t ++ d)%string, true)
  | Some (Text t, true), TextEnd _ => Some (Text t, false)
  | Some (Thinking t g, true), ThinkingDelta _ d => Some (Thinking (t ++ d)%string g, true)
  | Some (Thinking t _, true), ThinkingEnd _ g => Some (Thinking t g, false)
  | Some (ToolCall id name a (Some pj), true), ToolCallDelta _ d =>
    Some (ToolCall id name a (Some (pj ++ d)%string), true)
  | Some (ToolCall id name a (Some pj), true), ToolCallEnd _ =>
    match finish_tool_args tol id name a pj with
    | Ok b => Some (b, false)
    | Err _ => None
    end
  | _, _ => None
  end.

Fixpoint brun (tol : bool) (s : bstate) (es : list AssistantMessageEvent) : option bstate :=
  match es with
  | [] => Some s
  | e :: es' => bstep tol s e ≫= fun s' => brun tol (Some s') es'
  end.

Lemma brun_app tol s es es' :
  brun tol s (es ++ es') = brun tol s es ≫= fun s' => brun tol s' es'.
Proof.
  revert s. induction es as [|e es IH]; intros s; simpl; [done|].
  destruct (bstep tol s e); simpl; auto.
Qed.

Lemma brun_closed tol b es s : brun tol (Some (b, false)) es = Some s -> es = [] /\ s = Some (b, false).
Proof. destruct es as [|e es]; simpl; [naive_solver|]. by destruct b as [| |? ? ? []| |], e. Qed.

Lemma brun_text_deltas tol i t ds k :
  brun tol (Some (Text t, true)) (map (TextDelta i) ds ++ k)
  = brun tol (Some (Text (foldl String.append t ds), true)) k.
Proof. revert t. induction ds as [|d ds IH]; intros t; simpl; auto. Qed.

Lemma brun_thinking_deltas tol i t g ds k :
  brun tol (Some (Thinking t g, true)) (map (ThinkingDelta i) ds ++ k)
  = brun tol (Some (Thinking (foldl String.append t ds) g, true)) k.
Proof. revert t. induction ds as [|d ds IH]; intros t; simpl; auto. Qed.

Lemma brun_tool_deltas tol i id name a pj ds k :
  brun tol (Some (ToolCall id name a (Some pj), true)) (map (ToolCallDelta i) ds ++ k)
  = brun tol (Some (ToolCall id name a (Some (foldl String.append pj ds)), true)) k.
Proof. revert pj. induction ds as [|d ds IH]; intros pj; simpl; auto. Qed.

Definition all_index (i : nat) : list AssistantMessageEvent -> Prop :=
  Forall (fun e => event_index e = Some i).

Lemma brun_text_inv tol i t es b o :
  all_index i es -> brun tol (Some (Text t, true)) es = Some (Some (b, o)) ->
  exists ds, b = Text (foldl String.append t ds)
    /\ es = map (TextDelta i) ds ++ (if o then [] else [TextEnd i]).
Proof.
  revert t. induction es as [|e es IH]; intros t Hi; simpl.
  - intros [= <- <-]. by exists [].
  - inversion_clear Hi as [|? ? He Hes]. destruct e; simpl; try done; simplify_eq/=.
    + intros (ds & -> & ->)%IH; [|done]. by exists (delta :: ds).
    + intros [-> [= -> ->]]%brun_closed. by exists [].
Qed.

Lemma brun_thinking_inv tol i t g es b o :
  all_index i es -> brun tol (Some (Thinking t g, true)) es = Some (Some (b, o)) ->
  exists ds, match o with
    | true => b = Thinking (foldl String.append t ds) g /\ es = map (ThinkingDelta i) ds
    | false => exists g', b = Thinking (foldl String.append t ds) g'
                     /\ es = map (ThinkingDelta i) ds ++ [ThinkingEnd i g']
    end.
Proof.
  revert t. induction es as [|e es IH]; intros t Hi; simpl.
  - intros [= <- <-]. by exists [].
  - inversion_clear Hi as [|? ? He Hes]. destruct e; simpl; try done; simplify_eq/=.
    + intros (ds & H)%IH; [|done]. exists (delta :: ds). destruct o; naive_solver.
    + intros [-> [= -> ->]]%brun_closed. exists []. eauto.
Qed.

Lemma brun_tool_inv tol i id name a pj es b o :
  all_index i es -> brun tol (Some (ToolCall id name a (Some pj), true)) es = Some (Some (b, o)) ->
  exists ds, match o with
    | true => b = ToolCall id name a (Some (foldl String.append pj ds))
              /\ es = map (ToolCallDelta i) ds
    | false => finish_tool_args tol id name a (foldl String.append pj ds) = Ok b
               /\ es = map (ToolCallDelta i) ds ++ [ToolCallEnd i]
    end.
Proof.
  revert pj. induction es as [|e es IH]; intros pj Hi; simpl.
  - intros [= <- <-]. by exists [].
  - inversion_clear Hi as [|? ? He Hes]. destruct e; simpl; try done; simplify_eq/=.
    + intros (ds & H)%IH; [|done]. exists (delta :: ds). destruct o; naive_solver.
    + destruct (finish_tool_args tol id name a pj) as [b'|] eqn:F; simpl; [|done].
      intros [-> [= -> ->]]%brun_closed. by exists [].
Qed.

(** The automaton accepts exactly the complete traces. *)
Definition settled (tol : bool) (b : ContentBlock) (open : bool) : Prop :=
  open = true -> tol = true /\ is_tool_call b = true.

Lemma brun_block_trace tol i es b :
  all_index i es ->
  block_trace tol i es b <-> exists o, brun tol None es = Some (Some (b, o)) /\ settled tol b o.
Proof.
  intros Hi. split.
  - intros H. destruct H as [ds|ds sig|id name ds b F|id name ds ->].
    + exists false. simpl. by rewrite brun_text_deltas.
    + exists false. simpl. by rewrite brun_thinking_deltas.
    + exists false. simpl. rewrite brun_tool_deltas. simpl.
      unfold concat_text in F. by rewrite F.
    + exists true. simpl. rewrite <- (app_nil_r (map _ ds)), brun_tool_deltas. done.
  - intros (o & H & Hs). destruct es as [|e es]; [done|].
    inversion_clear Hi as [|? ? He Hes]. destruct e; simplify_eq/=.
    + apply (brun_text_inv _ i) in H as (ds & -> & ->); [|done].
      destruct o; [by destruct (Hs eq_refl)|]. apply bt_text.
    + apply (brun_thinking_inv _ i) in H as (ds & H); [|done].
      destruct o; [destruct H as [-> ->]; by destruct (Hs eq_refl)|].
      destruct H as (g & -> & ->). apply bt_thinking.
    + apply (brun_tool_inv _ i) in H as (ds & H); [|done].
      destruct o; destruct H as [H ->].
      * subst. apply bt_tool_cut. by destruct (Hs eq_refl).
      * by apply bt_tool.
Qed.

(** ** [acc_event] acts on one block *)

Definition block_at (bs : list ContentBlock) (op : list bool) (j : nat) : bstate :=
  match bs !! j, op !! j with Some b, Some o => Some (b, o) | _, _ => None end.

(** The accumulator between [Start] and the terminal event. *)
Definition running (bs : list ContentBlock) (op : list bool) : Acc :=
  MkAcc (Some bs) op None None None None None true false.

Lemma ok_or_None {T U} (e : T) (k : U -> result U T) u : result_bind (ok_or None e) k <> Ok u.
Proof. done. Qed.

Lemma block_at_beyond bs op j : length op = length bs -> ~ j < length bs -> block_at bs op j = None.
Proof. intros _ Hj. unfold block_at. by rewrite lookup_ge_None_2 by lia. Qed.

Lemma block_at_lookup bs op j :
  length op = length bs -> j < length bs ->
  exists b o, bs !! j = Some b /\ op !! j = Some o /\ block_at bs op j = Some (b, o).
Proof.
  intros Hl Hj. destruct (lookup_lt_is_Some_2 bs j) as [b Hb]; [done|].
  destruct (lookup_lt_is_Some_2 op j) as [o Ho]; [by rewrite Hl|].
  exists b, o. unfold block_at. by rewrite Hb, Ho.
Qed.


Lemma result_bind_bool {T} (b : bool) e (k : unit -> result T string) a :
  result_bind (if b then Err e else Ok tt) k = Ok a <-> b = false /\ k tt = Ok a.
Proof. destruct b; naive_solver. Qed.

(** Opens every handler of the loop body. *)
Ltac unfold_handlers :=
  unfold acc_event, on_text_start, on_thinking_start, on_tool_call_start, on_text_delta,
    on_text_end, on_thinking_delta, on_thinking_end, on_tool_call_delta, on_tool_call_end,
    ensure_block_open, acc_set; simpl.

(** On an existing block. *)
Lemma acc_event_existing tol bs op e j b o a' :
  event_index e = Some j -> bs !! j = Some b -> op !! j = Some o ->
  acc_event tol (running bs op) e = Ok a' <->
  exists s', bstep tol (Some (b, o)) e = Some s' /\ is_start_of e = None
    /\ a' = running (<[j := fst s']> bs) (<[j := snd s']> op).
Proof.
  unfold running. intros Hj Hb Ho. pose proof (lookup_lt_Some _ _ _ Hb) as Hlt.
  destruct e; simplify_eq/=; unfold_handlers; rewrite ?Hb, ?Ho; simpl;
    try (destruct (Nat.eqb_spec j (length bs)); [lia|]);
    destruct b as [| |? ? ? []| |], o; simpl; try naive_solver;
    try (destruct (finish_tool_args _ _ _ _ _); simpl); try naive_solver.
  all: split; [intros [= <-]; eexists; split_and!; [done|done|]
              |intros (?&[= <-]&_&->)];
    simpl; by rewrite ?(list_insert_id bs _ _ Hb), ?(list_insert_id op _ _ Ho).
Qed.

(** On a new block. *)
Lemma acc_event_new tol bs op e j a' :
  event_index e = Some j -> length op = length bs -> length bs <= j ->
  acc_event tol (running bs op) e = Ok a' <->
  exists s', bstep tol None e = Some s' /\ j = length bs
    /\ a' = running (bs ++ [fst s']) (op ++ [snd s']).
Proof.
  unfold running, acc_set. intros Hj Hl Hge.
  assert (Hb : bs !! j = None) by (apply lookup_ge_None_2; lia).
  assert (Ho : op !! j = None) by (apply lookup_ge_None_2; lia).
  destruct e; simplify_eq/=; unfold_handlers; rewrite ?Hb, ?Ho; simpl;
    try (destruct (Nat.eqb_spec j (length bs))); simpl; naive_solver.
Qed.

Lemma bstep_start_None tol e j s' : bstep tol None e = Some s' -> event_index e = Some j ->
  is_start_of e = Some j.
Proof. destruct e; naive_solver. Qed.

Lemma bstep_start_Some tol b e s' : bstep tol (Some b) e = Some s' -> is_start_of e = None.
Proof. by destruct b as [[| |? ? ? []| |] []], e. Qed.

Lemma block_at_insert bs op j k b o :
  j < length bs -> length op = length bs ->
  block_at (<[j := b]> bs) (<[j := o]> op) k = if decide (k = j) then Some (b, o) else block_at bs op k.
Proof.
  intros Hj Hl. unfold block_at. case_decide as Hk; subst.
  - by rewrite !list_lookup_insert_eq by lia.
  - by rewrite !list_lookup_insert_ne by done.
Qed.

Lemma block_at_snoc bs op k b o :
  length op = length bs ->
  block_at (bs ++ [b]) (op ++ [o]) k
  = if decide (k = length bs) then Some (b, o) else block_at bs op k.
Proof.
  intros Hl. unfold block_at. case_decide as Hk; subst.
  - rewrite lookup_app_r, Nat.sub_diag, lookup_app_r, Hl, Nat.sub_diag by lia. done.
  - destruct (decide (k < length bs)).
    + by rewrite !lookup_app_l by lia.
    + by rewrite !lookup_ge_None_2 by (rewrite ?length_app; simpl; lia).
Qed.

Lemma events_of_cons j e es :
  events_of j (e :: es) = if decide (event_index e = Some j) then e :: events_of j es else events_of j es.
Proof. unfold events_of. rewrite filter_cons. done. Qed.

(** [start_order n n' es]: the blocks started in [es] are [n], ..., [n' - 1]. *)
Definition start_order (n n' : nat) (es : list AssistantMessageEvent) : Prop :=
  n <= n' /\ filtermap is_start_of es = seq n (n' - n).

Lemma start_order_cons n n' e es :
  start_order n n' (e :: es) <->
  match is_start_of e with
  | Some j => j = n /\ start_order (S n) n' es
  | None => start_order n n' es
  end.
Proof.
  unfold start_order; simpl. destruct (is_start_of e) as [j|]; [|done]. split.
  - intros [Hle H]. destruct (n' - n) as [|k] eqn:Hk; [done|].
    injection H as -> ->. split; [done|]. split; [lia|]. f_equal. lia.
  - intros (-> & Hle & ->). split; [lia|]. by replace (n' - n) with (S (n' - S n)) by lia.
Qed.

Lemma block_at_ext bs op bs' op' :
  length op = length bs -> length op' = length bs' -> length bs' = length bs ->
  (forall k, block_at bs op k = block_at bs' op' k) -> bs = bs' /\ op = op'.
Proof.
  intros Hl Hl' Hlen Hk.
  assert (forall k, bs !! k = bs' !! k /\ op !! k = op' !! k) as Hbo.
  { intros k. specialize (Hk k). destruct (decide (k < length bs)) as [Hlt|Hge].
    - revert Hk. destruct (block_at_lookup bs op k) as (b & o & -> & -> & ->); [done..|].
      destruct (block_at_lookup bs' op' k) as (b' & o' & -> & -> & ->); [lia..|]. naive_solver.
    - by rewrite !lookup_ge_None_2 by lia. }
  split; apply list_eq; intros k; by destruct (Hbo k).
Qed.

Definition next_length (bs : list ContentBlock) (e : AssistantMessageEvent) : nat :=
  match is_start_of e with Some _ => S (length bs) | None => length bs end.

(** One event, in terms of the blocks' automata. *)
Lemma acc_event_running tol bs op e j a' :
  length op = length bs -> event_index e = Some j ->
  acc_event tol (running bs op) e = Ok a' <->
  exists s' bs' op', bstep tol (block_at bs op j) e = Some s'
    /\ (is_start_of e = None \/ is_start_of e = Some (length bs))
    /\ a' = running bs' op' /\ length op' = length bs' /\ length bs' = next_length bs e
    /\ forall k, block_at bs' op' k = if decide (k = j) then Some s' else block_at bs op k.
Proof.
  intros Hl Hj. unfold next_length. destruct (decide (j < length bs)) as [Hlt|Hge].
  - destruct (block_at_lookup bs op j Hl Hlt) as (b & o & Hb & Ho & Hat).
    rewrite (acc_event_existing tol bs op e j b o a' Hj Hb Ho), Hat.
    split.
    + intros ([b1 o1] & Hst & Hns & ->). rewrite Hns.
      exists (b1, o1), (<[j := b1]> bs), (<[j := o1]> op). rewrite !length_insert.
      split_and!; auto; intros k; by apply block_at_insert.
    + intros ([b1 o1] & bs' & op' & Hst & _ & -> & Hl' & Hlen & Hk).
      rewrite (bstep_start_Some _ _ _ _ Hst) in *. exists (b1, o1). split_and!; [done..|].
      destruct (block_at_ext bs' op' (<[j:=b1]> bs) (<[j:=o1]> op)) as [-> ->];
        rewrite ?length_insert; auto.
      intros k. by rewrite Hk, block_at_insert by done.
  - assert (Hnone : block_at bs op j = None) by (apply block_at_beyond; lia).
    rewrite (acc_event_new tol bs op e j a' Hj Hl ltac:(lia)), Hnone. split.
    + intros ([b1 o1] & Hst & -> & ->). rewrite (bstep_start_None _ _ _ _ Hst Hj).
      exists (b1, o1), (bs ++ [b1]), (op ++ [o1]). 
      split_and!; rewrite ?length_app; simpl; try lia; auto; intros k; by apply block_at_snoc.
    + intros ([b1 o1] & bs' & op' & Hst & Hor & -> & Hl' & Hlen & Hk).
      rewrite (bstep_start_None _ _ _ _ Hst Hj) in *. exists (b1, o1).
      destruct Hor as [|[= ->]]; [done|]. split_and!; [done..|].
      destruct (block_at_ext bs' op' (bs ++ [b1]) (op ++ [o1])) as [-> ->];
        rewrite ?length_app; simpl; try lia; auto.
      intros k. by rewrite Hk, block_at_snoc by done.
Qed.

Lemma start_order_step (bs bs' : list ContentBlock) e mid n' :
  length bs' = next_length bs e ->
  (is_start_of e = None \/ is_start_of e = Some (length bs)) /\ start_order (length bs') n' mid
  <-> start_order (length bs) n' (e :: mid).
Proof.
  unfold next_length. rewrite start_order_cons. intros ->. destruct (is_start_of e); naive_solver.
Qed.

Lemma brun_events_step tol bs op bs' op' e j s' mid k :
  event_index e = Some j -> bstep tol (block_at bs op j) e = Some s' ->
  block_at bs' op' k = (if decide (k = j) then Some s' else block_at bs op k) ->
  brun tol (block_at bs' op' k) (events_of k mid) = brun tol (block_at bs op k) (events_of k (e :: mid)).
Proof.
  intros Hj Hst ->. rewrite events_of_cons, Hj. destruct (decide (k = j)) as [->|Hne].
  - rewrite decide_True by done. simpl. by rewrite Hst.
  - by rewrite decide_False by congruence.
Qed.

Lemma bstep_in_order tol bs op e j s' n' mid :
  length op = length bs -> event_index e = Some j ->
  bstep tol (block_at bs op j) e = Some s' -> start_order (length bs) n' (e :: mid) ->
  j < length bs /\ is_start_of e = None \/ j = length bs /\ is_start_of e = Some j.
Proof.
  intros Hl Hj Hst Hso. rewrite start_order_cons in Hso.
  destruct (decide (j < length bs)) as [Hlt|Hge].
  - destruct (block_at_lookup bs op j Hl Hlt) as (b & o & _ & _ & Hat). rewrite Hat in Hst.
    left. by rewrite (bstep_start_Some _ _ _ _ Hst).
  - rewrite block_at_beyond in Hst by done. rewrite (bstep_start_None _ _ _ _ Hst Hj) in *.
    naive_solver.
Qed.

Lemma put_block_spec bs op j e (s' : ContentBlock * bool) :
  length op = length bs -> event_index e = Some j ->
  j < length bs /\ is_start_of e = None \/ j = length bs /\ is_start_of e = Some j ->
  exists bs1 op1, length op1 = length bs1 /\ length bs1 = next_length bs e
    /\ forall k, block_at bs1 op1 k = if decide (k = j) then Some s' else block_at bs op k.
Proof.
  destruct s' as [b o]. unfold next_length. intros Hl Hj [[Hlt ->]|[-> ->]].
  - exists (<[j := b]> bs), (<[j := o]> op).
    split_and!; rewrite ?length_insert; try done; intros k; by apply block_at_insert.
  - exists (bs ++ [b]), (op ++ [o]).
    split_and!; rewrite ?length_app; simpl; try lia; intros k; by apply block_at_snoc.
Qed.

Lemma acc_events_cons tol a e es a' :
  acc_events tol a (e :: es) = Ok a' <->
  exists a1, acc_event tol a e = Ok a1 /\ acc_events tol a1 es = Ok a'.
Proof. apply result_bind_Ok. Qed.

Lemma acc_events_app tol a es es' a' :
  acc_events tol a (es ++ es') = Ok a' <->
  exists a1, acc_events tol a es = Ok a1 /\ acc_events tol a1 es' = Ok a'.
Proof.
  revert a. induction es as [|e es IH]; intros a; [simpl; naive_solver|].
  rewrite <- app_comm_cons, !acc_events_cons. setoid_rewrite IH. setoid_rewrite acc_events_cons.
  naive_solver.
Qed.

(** Each block of the content runs its own automaton on its own events. *)
Lemma acc_events_run tol bs op mid a' :
  length op = length bs -> Forall (fun e => is_Some (event_index e)) mid ->
  acc_events tol (running bs op) mid = Ok a' <->
  exists bs' op', a' = running bs' op' /\ length op' = length bs'
    /\ start_order (length bs) (length bs') mid
    /\ forall k, brun tol (block_at bs op k) (events_of k mid) = Some (block_at bs' op' k).
Proof.
  revert bs op. induction mid as [|e mid IH]; intros bs op Hl Hmid.
  { simpl. split.
    - intros [= <-]. exists bs, op. split_and!; [done..|split; [lia|by rewrite Nat.sub_diag]|done].
    - intros (bs' & op' & -> & Hl' & [Hle Hs] & Hk). simpl in Hs.
      destruct (block_at_ext bs op bs' op') as [-> ->]; [done..| |naive_solver|done].
      destruct (length bs' - length bs) eqn:?; [lia|done]. }
  inversion_clear Hmid as [|? ? [j Hj] Hmid']. rewrite acc_events_cons.
  setoid_rewrite (acc_event_running tol bs op e j _ Hl Hj). split.
  - intros (a1 & (s' & bs1 & op1 & Hst & Hor & -> & Hl1 & Hlen & Hk1) & Hrun).
    apply IH in Hrun as (bs' & op' & -> & Hl' & Hso & Hk); [|done..].
    exists bs', op'. split_and!; [done..|by apply (start_order_step bs bs1)|].
    intros k. by rewrite <- (brun_events_step tol bs op bs1 op1 e j s') by done.
  - intros (bs' & op' & -> & Hl' & Hso & Hk).
    pose proof (Hk j) as Hkj. rewrite events_of_cons, decide_True in Hkj by done.
    simpl in Hkj. destruct (bstep tol (block_at bs op j) e) as [s'|] eqn:Hst; [|done].
    destruct (put_block_spec bs op j e s') as (bs1 & op1 & Hl1 & Hlen & Hk1); [done..| |].
    { by eapply bstep_in_order. }
    apply (start_order_step bs bs1) in Hso as [Hor Hso]; [|done].
    exists (running bs1 op1). split; [by exists s', bs1, op1|].
    apply IH; [done..|]. exists bs', op'. split_and!; [done..|].
    intros k. by rewrite (brun_events_step tol bs op bs1 op1 e j s') by done.
Qed.

(** ** The terminal event and the whole stream *)

Lemma all_open_tool_calls_spec bs op :
  length op = length bs ->
  all_open_blocks_are_tool_calls bs op = true <->
  forall i b, block_at bs op i = Some (b, true) -> is_tool_call b = true.
Proof.
  intros Hl. unfold all_open_blocks_are_tool_calls. rewrite forallb_forall. split.
  - intros H i b Hb. unfold block_at in Hb.
    destruct (bs !! i) eqn:Eb, (op !! i) eqn:Eo; simplify_eq.
    specialize (H (i, true)). simpl in H. rewrite Eb in H. apply H.
    apply list_elem_of_In, elem_of_lookup_imap. eauto.
  - intros H [i o] Hin. destruct o; [|done].
    apply list_elem_of_In, elem_of_lookup_imap in Hin as (i' & o & Hio & Ho).
    injection Hio as <- <-.
    destruct (lookup_lt_is_Some_2 bs i) as [b Hb].
    { rewrite <- Hl. by eapply lookup_lt_Some. }
    rewrite Hb. apply (H i). unfold block_at. by rewrite Hb, Ho.
Qed.

(** The blocks a terminal event leaves behind. *)
Definition all_settled (tol : bool) (bs : list ContentBlock) (op : list bool) : Prop :=
  forall i b o, block_at bs op i = Some (b, o) -> settled tol b o.

Lemma validate_spec ev bs op tol :
  length op = length bs ->
  validate_terminal_open_blocks ev (Some bs) op tol = Ok tt <-> all_settled tol bs op.
Proof.
  intros Hl. unfold validate_terminal_open_blocks, all_settled, settled.
  destruct (position id op) as [i|] eqn:P; simpl.
  - apply position_Some in P as (o & Ho & Hot). unfold id in Hot. subst o.
    pose proof (all_open_tool_calls_spec bs op Hl) as Hall.
    destruct (block_at_lookup bs op i Hl) as (b & o & Hb & Ho' & Hat).
    { rewrite <- Hl. by eapply lookup_lt_Some. }
    destruct tol; simpl.
    + destruct (all_open_blocks_are_tool_calls bs op); naive_solver.
    + split; [done|]. intros H. specialize (H i b true). naive_solver.
  - split; [|done]. intros _ i b o Hat ->. unfold block_at in Hat.
    destruct (bs !! i), (op !! i) eqn:Eo; simplify_eq.
    apply position_None in P. rewrite Forall_lookup in P. by specialize (P _ _ Eo).
Qed.

(** The accumulator after the terminal event [t]. *)
Definition finished (bs : list ContentBlock) (op : list bool) (t : AssistantMessageEvent) : Acc :=
  match t with
  | Done sr u c => MkAcc (Some bs) op (Some sr) (Some u) (Some c) None None true true
  | ErrorEvent sr em u ek _ => MkAcc (Some bs) op (Some sr) u None (Some em) ek true true
  | _ => running bs op
  end.

Definition terminal_tolerance (t : AssistantMessageEvent) : bool :=
  match t with Done sr _ _ => bool_decide (sr = Length) | _ => false end.

#[local] Arguments validate_terminal_open_blocks : simpl never.

Lemma acc_event_terminal tol bs op t a' :
  length op = length bs -> is_terminal t = true ->
  (forall sr u c, t = Done sr u c -> tol = terminal_tolerance t) ->
  acc_event tol (running bs op) t = Ok a' <->
  all_settled (terminal_tolerance t) bs op /\ a' = finished bs op t.
Proof.
  intros Hl Ht Htol.
  destruct t; try done; unfold acc_event, on_done, on_error, result_bind; simpl.
  - rewrite (Htol _ _ _ eq_refl); simpl. rewrite <- (validate_spec "Done") by done.
    destruct (validate_terminal_open_blocks _ _ _ _) as [[]|]; naive_solver.
  - rewrite <- (validate_spec "Error") by done.
    destruct (validate_terminal_open_blocks _ _ _ _) as [[]|], usage; naive_solver.
Qed.

Lemma acc_event_saw_terminal tol a e a' :
  is_terminal e = true -> acc_event tol a e = Ok a' -> acc_saw_terminal a' = true.
Proof.
  destruct e; try done; unfold acc_event, on_done, on_error, result_bind; intros _;
    (destruct (check_terminal _ _); [|done]);
    (destruct (validate_terminal_open_blocks _ _ _ _); naive_solver).
Qed.

Lemma acc_event_after_terminal tol a e a' : acc_saw_terminal a = true -> acc_event tol a e <> Ok a'.
Proof. intros H. unfold acc_event, check_terminal. destruct e; rewrite H; done. Qed.

Lemma acc_events_after_terminal tol a es a' :
  acc_saw_terminal a = true -> acc_events tol a es = Ok a' -> es = [] /\ a' = a.
Proof.
  intros H. destruct es as [|e es]; [simpl; naive_solver|].
  rewrite acc_events_cons. intros (a1 & He & _). by apply acc_event_after_terminal in He.
Qed.

Lemma acc_events_shape tol bs op es a' :
  length op = length bs -> acc_events tol (running bs op) es = Ok a' ->
  is_Some (acc_stop_reason a') ->
  exists mid t, es = mid ++ [t] /\ is_terminal t = true
    /\ Forall (fun e => is_Some (event_index e)) mid.
Proof.
  revert bs op. induction es as [|e es IH]; intros bs op Hl.
  { intros [= <-] [? [=]]. }
  rewrite acc_events_cons. intros (a1 & He & Hes) Hstop.
  destruct (is_terminal e) eqn:Ht.
  - destruct (acc_events_after_terminal tol a1 es a') as [-> ->]; [|done|].
    { by eapply acc_event_saw_terminal. }
    by exists [], e.
  - destruct (event_index e) as [j|] eqn:Hj; [|by destruct e].
    apply (acc_event_running tol bs op e j) in He
      as (s' & bs1 & op1 & _ & _ & -> & Hl1 & _ & _); [|done..].
    destruct (IH bs1 op1) as (mid & t & -> & ? & ?); [done..|].
    exists (e :: mid), t. split_and!; [done..|]. constructor; eauto.
Qed.

Lemma tolerate_of_shape mid t :
  Forall (fun e => is_Some (event_index e)) mid ->
  tolerate_truncated_tool_args (Start :: mid ++ [t]) = terminal_tolerance t.
Proof.
  intros H. unfold tolerate_truncated_tool_args. simpl. induction H as [|e mid [i Hi] H IH]; simpl.
  - destruct t as [| | | | | | | | | |[] ? ?|]; done.
  - by destruct e.
Qed.

(** The indices met by a complete run are those of the content. *)
Lemma brun_is_Some tol s0 e es s : brun tol s0 (e :: es) = Some s -> is_Some s.
Proof.
  revert s0 e. induction es as [|e' es IH]; intros s0 e.
  - cbn [brun]. destruct (bstep tol s0 e); cbn; naive_solver.
  - change (brun tol s0 (e :: e' :: es))
      with (bstep tol s0 e ≫= fun s' => brun tol (Some s') (e' :: es)).
    destruct (bstep tol s0 e); cbn [mbind option_bind]; [apply IH|discriminate].
Qed.

Lemma events_of_lt tol bs op mid :
  length op = length bs -> Forall (fun e => is_Some (event_index e)) mid ->
  (forall k, brun tol None (events_of k mid) = Some (block_at bs op k)) ->
  Forall (fun e => exists i, event_index e = Some i /\ i < length bs) mid.
Proof.
  intros Hl Hi Hk. rewrite Forall_forall in *. intros e He.
  destruct (Hi e He) as [i Hei]. exists i. split; [done|].
  destruct (decide (i < length bs)) as [|Hge]; [done|exfalso].
  specialize (Hk i). rewrite block_at_beyond in Hk by done.
  assert (e ∈ events_of i mid) as Hin by (apply list_elem_of_filter; done).
  destruct (events_of i mid) as [|e' es]; [by apply not_elem_of_nil in Hin|].
  apply brun_is_Some in Hk as [? [=]].
Qed.

Lemma events_of_beyond n k mid :
  Forall (fun e => exists i, event_index e = Some i /\ i < n) mid -> n <= k -> events_of k mid = [].
Proof.
  intros H Hk. induction H as [|e mid (i & Hi & Hlt) H IH]; [done|].
  rewrite events_of_cons, Hi, decide_False; [done|]. intros [= ->]. lia.
Qed.

Lemma events_of_all_index k mid : all_index k (events_of k mid).
Proof. apply Forall_forall. intros e He. by apply list_elem_of_filter in He as [? _]. Qed.

(** ** The two directions *)

Lemma finish_message tol sr u c em ek bs op t :
  terminal_fields t = Some (tol, sr, u, c, em, ek) ->
  exists u' c', finished bs op t = MkAcc (Some bs) op (Some sr) u' c' em ek true true
    /\ default usage_default u' = u /\ default cost_default c' = c.
Proof.
  intros H. destruct t; simplify_eq/=; eexists _, _; split_and!; reflexivity.
Qed.

(** [accumulate_message] on a well-shaped stream. *)
Lemma accumulate_shape now provider model mid t m :
  Forall (fun e => is_Some (event_index e)) mid -> is_terminal t = true ->
  accumulate_message now (Start :: mid ++ [t]) provider model = Ok m <->
  exists bs op tol sr u c em ek,
    terminal_fields t = Some (tol, sr, u, c, em, ek)
    /\ acc_events tol (running [] []) mid = Ok (running bs op)
    /\ length op = length bs /\ all_settled tol bs op
    /\ m = MkAssistantMessage bs provider model u c sr em ek now None.
Proof.
  intros Hmid Ht. unfold accumulate_message. rewrite tolerate_of_shape by done.
  rewrite result_bind_Ok. setoid_rewrite acc_events_cons. setoid_rewrite acc_events_app.
  setoid_rewrite acc_events_cons. split.
  - intros (a & (a0 & Ha0 & a1 & Hmid1 & a2 & Ht2 & [= <-]) & Hm).
    cbn in Ha0. injection Ha0 as <-. fold (running [] []) in Hmid1.
    pose proof Hmid1 as Hrun. apply acc_events_run in Hrun as (bs & op & -> & Hl & _ & _); [|done..].
    apply acc_event_terminal in Ht2 as [Hset ->]; [|naive_solver..].
    destruct (terminal_fields t) as [[[[[[tol sr] u] c] em] ek]|] eqn:Hf; [|by destruct t].
    destruct (finish_message _ _ _ _ _ _ bs op t Hf) as (u' & c' & Hfin & <- & <-).
    rewrite Hfin in Hm. cbn in Hm. injection Hm as <-.
    exists bs, op, tol, sr, (default usage_default u'), (default cost_default c'), em, ek.
    split_and!; [done| |done| |done].
    + rewrite <- Hmid1. f_equal. by destruct t; simplify_eq/=.
    + intros i b o Hb. specialize (Hset i b o Hb). by destruct t; simplify_eq/=.
  - intros (bs & op & tol & sr & u & c & em & ek & Hf & Hrun & Hl & Hset & ->).
    destruct (finish_message _ _ _ _ _ _ bs op t Hf) as (u' & c' & Hfin & <- & <-).
    exists (finished bs op t). split; [|by rewrite Hfin].
    exists (running [] []). split; [done|]. exists (running bs op).
    assert (tol = terminal_tolerance t) as -> by (by destruct t; simplify_eq/=).
    split; [done|]. exists (finished bs op t). split; [|done].
    apply acc_event_terminal; [done|done|naive_solver|done].
Qed.

(** An accepted stream has the shape [Start], content events, terminal event. *)
Lemma accumulate_message_shape now es provider model m :
  accumulate_message now es provider model = Ok m ->
  exists mid t, es = Start :: mid ++ [t] /\ is_terminal t = true
    /\ Forall (fun e => is_Some (event_index e)) mid.
Proof.
  unfold accumulate_message. rewrite result_bind_Ok. intros (a & Ha & Hm).
  destruct (acc_content a) as [bs|] eqn:Hc; [|done].
  destruct (acc_stop_reason a) as [sr|] eqn:Hs; [|done].
  destruct es as [|e es]; [simpl in Ha; naive_solver|].
  rewrite acc_events_cons in Ha. destruct Ha as (a1 & He & Hes).
  destruct e; try done.
  - cbn in He. injection He as <-. fold (running [] []) in Hes.
    destruct (acc_events_shape _ [] [] es a eq_refl Hes) as (mid & t & -> & ? & ?); [by rewrite Hs|].
    by exists mid, t.
  - cbn in He. injection He as <-. by apply acc_events_after_terminal in Hes as [-> ->].
  - cbn in He. injection He as <-. by apply acc_events_after_terminal in Hes as [-> ->].
Qed.

Lemma run_block_traces tol bs op mid :
  length op = length bs -> all_settled tol bs op ->
  (forall k, brun tol None (events_of k mid) = Some (block_at bs op k)) ->
  forall i b, bs !! i = Some b -> block_trace tol i (events_of i mid) b.
Proof.
  intros Hl Hset Hk i b Hb. apply brun_block_trace; [apply events_of_all_index|].
  destruct (block_at_lookup bs op i Hl) as (b' & o & Hb' & _ & Hat); [by eapply lookup_lt_Some|].
  simplify_eq. exists o. rewrite Hk, Hat. split; [done|]. by eapply Hset.
Qed.

(** The open flags of a content whose blocks have complete traces. *)
Lemma block_traces_run tol (bs : list ContentBlock) mid :
  Forall (fun e => exists i, event_index e = Some i /\ i < length bs) mid ->
  (forall i b, bs !! i = Some b -> block_trace tol i (events_of i mid) b) ->
  exists op, length op = length bs /\ all_settled tol bs op
    /\ forall k, brun tol None (events_of k mid) = Some (block_at bs op k).
Proof.
  intros Hi Htr.
  set (flag i := match brun tol None (events_of i mid) with Some (Some (_, o)) => o | _ => false end).
  exists (map flag (seq 0 (length bs))).
  assert (forall i b, bs !! i = Some b ->
            brun tol None (events_of i mid) = Some (Some (b, flag i)) /\ settled tol b (flag i)) as Hr.
  { intros i b Hb. apply Htr in Hb. apply brun_block_trace in Hb as (o & Hrun & Hs);
      [|apply events_of_all_index]. unfold flag. by rewrite Hrun. }
  assert (forall k, block_at bs (map flag (seq 0 (length bs))) k
                    = match bs !! k with Some b => Some (b, flag k) | None => None end) as Hat.
  { intros k. unfold block_at. destruct (bs !! k) as [b|] eqn:Hb; [|done].
    rewrite list_lookup_fmap, lookup_seq_lt by (by eapply lookup_lt_Some). done. }
  split_and!; [by rewrite length_map, length_seq| |].
  - intros i b o. rewrite Hat. destruct (bs !! i) eqn:Hb; [|done].
    intros [= <- <-]. by apply Hr.
  - intros k. rewrite Hat. destruct (bs !! k) as [b|] eqn:Hb; [by apply Hr|].
    apply lookup_ge_None in Hb. by rewrite (events_of_beyond _ _ _ Hi Hb).
Qed.

(** C30: [accumulate_message] accepts an event list and returns a message
    exactly when the list is [Start], content events and one terminal event,
    the blocks are started in index order, and every block of the message is
    the one its own events describe (deltas concatenated, arguments parsed, or
    left partial when the stream was cut by the token limit); usage, cost, stop
    reason and error fields are the terminal event's. *)
Theorem accumulate_message_spec now es provider model m :
  accumulate_message now es provider model = Ok m <-> stream_denotes now provider model es m.
Proof.
  split.
  - intros H. pose proof H as Hs.
    apply accumulate_message_shape in Hs as (mid & t & -> & Ht & Hmid).
    apply accumulate_shape in H as (bs & op & tol & sr & u & c & em & ek & Hf & Hrun & Hl & Hset & ->);
      [|done..].
    apply acc_events_run in Hrun as (bs' & op' & [= <- <-] & _ & [_ Hso] & Hk); [|done..].
    exists mid, t, tol, sr, u, c, em, ek. simpl in *. rewrite Nat.sub_0_r in Hso.
    split_and!; [done|done|by eapply events_of_lt|done|by eapply run_block_traces|done].
  - intros (mid & t & tol & sr & u & c & em & ek & -> & Hf & Hi & Hso & Htr & ->).
    destruct (block_traces_run tol _ mid Hi Htr) as (op & Hl & Hset & Hk).
    assert (Forall (fun e => is_Some (event_index e)) mid) as Hmid.
    { eapply Forall_impl; [exact Hi|]. intros e (i & He & _). by exists i. }
    apply accumulate_shape; [done|by destruct t|]. simpl.
    eexists _, op, tol, sr, u, c, em, ek. split_and!; [done| |done|done|done].
    apply acc_events_run; [done|done|]. eexists _, op. split_and!; [done|done| |done].
    split; simpl; [lia|]. by rewrite Nat.sub_0_r.
Qed.

(** ** Sanitisation *)

(** A block a provider accepts on replay. *)
Definition replayable (b : ContentBlock) : bool :=
  match b with
  | ToolCall _ _ arguments partial_json => bool_decide (partial_json = None) && json_is_object arguments
  | _ => true
  end.

Definition call_key (b : ContentBlock) : option (string * string) :=
  match b with ToolCall id name _ _ => Some (id, name) | _ => None end.

Lemma sanitize_block_spec b :
  replayable (fst (sanitize_block b)) = true
  /\ call_key (fst (sanitize_block b)) = call_key b
  /\ (if replayable b then sanitize_block b = (b, 0)
      else snd (sanitize_block b) = 1 /\ fst (sanitize_block b) <> b).
Proof.
  destruct b as [| |id name args pj| |]; simpl; try done.
  destruct pj as [pj|]; simpl; [rewrite json_empty_object_is_object; naive_solver|].
  destruct (json_is_object args) eqn:Ho; simpl; rewrite ?Ho, ?json_empty_object_is_object; [done|].
  split_and!; [done|done|done|]. intros [= <-]. by rewrite json_empty_object_is_object in Ho.
Qed.

Lemma sanitize_blocks_replayable bs :
  Forall (fun b => replayable b = true) bs ->
  map fst (map sanitize_block bs) = bs /\ foldr Nat.add 0 (map snd (map sanitize_block bs)) = 0.
Proof.
  induction 1 as [|b bs Hb _ [IH1 IH2]]; simpl; [done|].
  destruct (sanitize_block_spec b) as (_ & _ & Hs). rewrite Hb in Hs. rewrite Hs. simpl.
  by rewrite IH1, IH2.
Qed.

Lemma sanitize_blocks_spec bs :
  Forall (fun b => replayable b = true) (map fst (map sanitize_block bs))
  /\ map call_key (map fst (map sanitize_block bs)) = map call_key bs
  /\ foldr Nat.add 0 (map snd (map sanitize_block bs))
     = length (filter (fun b => replayable b = false) bs).
Proof.
  induction bs as [|b bs (IH1 & IH2 & IH3)]; simpl; [done|].
  destruct (sanitize_block_spec b) as (H1 & H2 & H3).
  split_and!; [by constructor|congruence|]. rewrite filter_cons, IH3.
  destruct (replayable b); [by rewrite H3|]. destruct H3 as [-> _]. by rewrite decide_True.
Qed.

(** After [sanitize_incomplete_tool_calls] every tool call of the message has
    object arguments and no partial JSON, with its id and name kept and the
    number of blocks rewritten returned; replayable blocks are untouched, so
    sanitising again changes nothing. *)
Lemma sanitize_incomplete_tool_calls_spec m :
  let '(m', fixed) := sanitize_incomplete_tool_calls m in
  Forall (fun b => replayable b = true) (am_content m')
  /\ map call_key (am_content m') = map call_key (am_content m)
  /\ fixed = length (filter (fun b => replayable b = false) (am_content m))
  /\ sanitize_incomplete_tool_calls m' = (m', 0)
  /\ (fixed = 0 -> m' = m).
Proof.
  unfold sanitize_incomplete_tool_calls.
  destruct (sanitize_blocks_spec (am_content m)) as (H1 & H2 & H3). simpl. split_and!; auto.
  - destruct (sanitize_blocks_replayable _ H1) as [-> ->]. done.
  - intros H0. destruct (sanitize_blocks_replayable (am_content m)) as [-> _]; [|by destruct m].
    rewrite H3 in H0. apply length_zero_iff_nil in H0. apply Forall_forall. intros b Hb.
    destruct (replayable b) eqn:Hr; [done|].
    assert (Hin : b ∈ filter (fun b => replayable b = false) (am_content m)).
    { by apply list_elem_of_filter. }
    rewrite H0 in Hin. by apply not_elem_of_nil in Hin.
Qed.

End Spec.
