(* ===== verification/BlockAccumulator.v ===== *)
(** * Incremental event assembly: [src/block_accumulator.rs]

    [BlockAccumulator], the state machine every provider adapter uses to turn
    provider chunks into [AssistantMessageEvent]s, and [finalize_blocks].  A
    session is a sequence of its operations followed by [finalize_blocks] and
    [Done].  The refinement theorem runs the session's events through
    [accumulate_message]: the two ends of the protocol fit together. *)
From S2P Require Export StreamSpec.
From stdpp Require Import sorting.
Open Scope list_scope.

Module Assembly.

(** @src src/block_accumulator.rs:22-34 [OpenBlock] *)
Inductive OpenBlock :=
| OpenText (content_index : nat)
| OpenThinking (content_index : nat) (signature : option string)
| OpenToolCall (content_index : nat).

(** @src src/block_accumulator.rs:92-105 [BlockAccumulator] *)
Record BlockAccumulator := MkBlockAccumulator {
  next_index : nat;
  text_index : option nat;
  thinking_index : option (nat * option string);
  open_tool_calls : list nat;
}.

Section Operations.
Context `{E : Ext}.

(** @src src/block_accumulator.rs:109-114 [BlockAccumulator::new] *)
Definition new : BlockAccumulator := MkBlockAccumulator 0 None None [].

(** @src src/block_accumulator.rs:119-127 [BlockAccumulator::alloc_index] *)
Definition alloc_index (a : BlockAccumulator) : nat * BlockAccumulator :=
  (next_index a,
   MkBlockAccumulator (S (next_index a)) (text_index a) (thinking_index a) (open_tool_calls a)).

(** @src src/block_accumulator.rs:131-144 [BlockAccumulator::ensure_text_open] *)
Definition ensure_text_open (a : BlockAccumulator) :
    option AssistantMessageEvent * BlockAccumulator :=
  match text_index a with
  | None =>
    let '(idx, a) := alloc_index a in
    (Some (TextStart idx),
     MkBlockAccumulator (next_index a) (Some idx) (thinking_index a) (open_tool_calls a))
  | Some _ => (None, a)
  end.

(** @src src/block_accumulator.rs:161-168 [BlockAccumulator::close_text] *)
Definition close_text (a : BlockAccumulator) : option AssistantMessageEvent * BlockAccumulator :=
  (TextEnd <$> text_index a,
   MkBlockAccumulator (next_index a) None (thinking_index a) (open_tool_calls a)).

(** @src src/block_accumulator.rs:170-178 [BlockAccumulator::text_delta] *)
Definition text_delta (a : BlockAccumulator) (delta : string) : option AssistantMessageEvent :=
  (fun idx => TextDelta idx delta) <$> text_index a.

(** @src src/block_accumulator.rs:182-195 [BlockAccumulator::ensure_thinking_open] *)
Definition ensure_thinking_open (a : BlockAccumulator) :
    option AssistantMessageEvent * BlockAccumulator :=
  match thinking_index a with
  | None =>
    let '(idx, a) := alloc_index a in
    (Some (ThinkingStart idx),
     MkBlockAccumulator (next_index a) (text_index a) (Some (idx, None)) (open_tool_calls a))
  | Some _ => (None, a)
  end.

(** @src src/block_accumulator.rs:212-221 [BlockAccumulator::set_thinking_signature] *)
Definition set_thinking_signature (a : BlockAccumulator) (signature : string) : BlockAccumulator :=
  match thinking_index a with
  | Some (idx, _) =>
    MkBlockAccumulator (next_index a) (text_index a) (Some (idx, Some signature)) (open_tool_calls a)
  | None => a
  end.

(** @src src/block_accumulator.rs:223-237 [BlockAccumulator::close_thinking] *)
Definition close_thinking (a : BlockAccumulator) (signature : option string) :
    option AssistantMessageEvent * BlockAccumulator :=
  ((fun '(idx, accumulated_sig) =>
      ThinkingEnd idx (match signature with Some s => Some s | None => accumulated_sig end))
     <$> thinking_index a,
   MkBlockAccumulator (next_index a) (text_index a) None (open_tool_calls a)).

(** @src src/block_accumulator.rs:239-250 [BlockAccumulator::thinking_delta] *)
Definition thinking_delta (a : BlockAccumulator) (delta : string) : option AssistantMessageEvent :=
  (fun '(idx, _) => ThinkingDelta idx delta) <$> thinking_index a.

(** @src src/block_accumulator.rs:254-268 [BlockAccumulator::open_tool_call] *)
Definition open_tool_call (a : BlockAccumulator) (id name : string) :
    (nat * AssistantMessageEvent) * BlockAccumulator :=
  let '(idx, a) := alloc_index a in
  ((idx, ToolCallStart idx id name),
   MkBlockAccumulator (next_index a) (text_index a) (thinking_index a) (open_tool_calls a ++ [idx])).

(** [Vec::remove] *)
Definition vec_remove {A} (pos : nat) (l : list A) : list A := take pos l ++ drop (S pos) l.

(** @src src/block_accumulator.rs:270-286 [BlockAccumulator::close_tool_call] *)
Definition close_tool_call (a : BlockAccumulator) (content_index : nat) :
    option AssistantMessageEvent * BlockAccumulator :=
  match position (Nat.eqb content_index) (open_tool_calls a) with
  | Some pos =>
    (Some (ToolCallEnd content_index),
     MkBlockAccumulator (next_index a) (text_index a) (thinking_index a)
       (vec_remove pos (open_tool_calls a)))
  | None => (None, a)
  end.

(** @src src/block_accumulator.rs:288-294 [BlockAccumulator::tool_call_delta] *)
Definition tool_call_delta (content_index : nat) (delta : string) : AssistantMessageEvent :=
  ToolCallDelta content_index delta.

Definition key_le (x y : nat * OpenBlock) : Prop := fst x <= fst y.
#[local] Instance key_le_dec : RelDecision key_le := fun x y => decide (fst x <= fst y).

(** The entries have distinct keys, so the order of an unstable sort is determined.
    @src src/block_accumulator.rs:301-321 [BlockAccumulator::drain_open_blocks] *)
Definition drain_entries (a : BlockAccumulator) : list (nat * OpenBlock) :=
  (match thinking_index a with Some (idx, sig) => [(idx, OpenThinking idx sig)] | None => [] end)
  ++ (match text_index a with Some idx => [(idx, OpenText idx)] | None => [] end)
  ++ map (fun idx => (idx, OpenToolCall idx)) (open_tool_calls a).

(** @src src/block_accumulator.rs:300-325 [BlockAccumulator::drain_open_blocks] *)
Definition drain_open_blocks (a : BlockAccumulator) : list OpenBlock * BlockAccumulator :=
  (map snd (merge_sort key_le (drain_entries a)),
   MkBlockAccumulator (next_index a) None None []).

(** @src src/block_accumulator.rs:58-72 [finalize_blocks, the end event of a block] *)
Definition end_event (b : OpenBlock) : AssistantMessageEvent :=
  match b with
  | OpenText i => TextEnd i
  | OpenThinking i sig => ThinkingEnd i sig
  | OpenToolCall i => ToolCallEnd i
  end.

(** @src src/block_accumulator.rs:51-73 [finalize_blocks] *)
Definition finalize_blocks (a : BlockAccumulator) :
    list AssistantMessageEvent * BlockAccumulator :=
  let '(blocks, a) := drain_open_blocks a in (map end_event blocks, a).

(** ** Sessions *)

Inductive Op :=
| OpEnsureText
| OpTextDelta (delta : string)
| OpCloseText
| OpEnsureThinking
| OpThinkingDelta (delta : string)
| OpSetSignature (signature : string)
| OpCloseThinking (signature : option string)
| OpOpenTool (id name : string)
| OpToolDelta (content_index : nat) (delta : string)
| OpCloseTool (content_index : nat).

Definition run_op (a : BlockAccumulator) (o : Op) : list AssistantMessageEvent * BlockAccumulator :=
  let emit (r : option AssistantMessageEvent * BlockAccumulator) := (option_list (fst r), snd r) in
  match o with
  | OpEnsureText => emit (ensure_text_open a)
  | OpTextDelta d => emit (text_delta a d, a)
  | OpCloseText => emit (close_text a)
  | OpEnsureThinking => emit (ensure_thinking_open a)
  | OpThinkingDelta d => emit (thinking_delta a d, a)
  | OpSetSignature s => emit (None, set_thinking_signature a s)
  | OpCloseThinking s => emit (close_thinking a s)
  | OpOpenTool id name => emit (Some (snd (fst (open_tool_call a id name))), snd (open_tool_call a id name))
  | OpToolDelta i d => emit (Some (tool_call_delta i d), a)
  | OpCloseTool i => emit (close_tool_call a i)
  end.

(** The caller's contract: argument chunks go to an open tool call. *)
Definition op_ok (a : BlockAccumulator) (o : Op) : bool :=
  match o with OpToolDelta i _ => bool_decide (i ∈ open_tool_calls a) | _ => true end.

Fixpoint run_ops (a : BlockAccumulator) (ops : list Op) :
    list AssistantMessageEvent * BlockAccumulator :=
  match ops with
  | [] => ([], a)
  | o :: ops' =>
    let '(es, a) := run_op a o in
    let '(es', a) := run_ops a ops' in (es ++ es', a)
  end.

Fixpoint ops_ok (a : BlockAccumulator) (ops : list Op) : bool :=
  match ops with
  | [] => true
  | o :: ops' => op_ok a o && ops_ok (snd (run_op a o)) ops'
  end.

(** The whole stream an adapter yields. *)
Definition session (ops : list Op) (sr : StopReason) (u : Usage) (c : Cost) :
    list AssistantMessageEvent :=
  let '(es, a) := run_ops new ops in
  Start :: (es ++ fst (finalize_blocks a)) ++ [Done sr u c].

(** The text chunks of a stream, in order of emission. *)
Definition text_chunks (es : list AssistantMessageEvent) : list string :=
  filtermap (fun e => match e with TextDelta _ d => Some d | _ => None end) es.

(** ** The text of a content under block updates *)

Definition text_of (b : ContentBlock) : string :=
  match b with Text t => t | _ => ""%string end.

Lemma extract_text_foldl bs r :
  foldl (fun result block => match block with
                             | Text text => (result ++ text)%string
                             | _ => result
                             end) r bs = (r ++ extract_text bs)%string.
Proof.
  unfold extract_text. revert r. induction bs as [|b bs IH]; intros r; simpl.
  { by rewrite string_app_nil_r. }
  rewrite IH, (IH (match b with Text _ => _ | _ => _ end)).
  destruct b; simpl; by rewrite ?string_app_assoc.
Qed.

Lemma extract_text_cons b bs : extract_text (b :: bs) = (text_of b ++ extract_text bs)%string.
Proof. unfold extract_text at 1. simpl. rewrite extract_text_foldl. by destruct b. Qed.

Lemma extract_text_app bs bs' : extract_text (bs ++ bs') = (extract_text bs ++ extract_text bs')%string.
Proof.
  induction bs as [|b bs IH]; [done|]. simpl. by rewrite !extract_text_cons, IH, string_app_assoc.
Qed.

Lemma extract_text_none bs :
  (forall j b, bs !! j = Some b -> text_of b = ""%string) -> extract_text bs = ""%string.
Proof.
  induction bs as [|b bs IH]; intros H; [done|].
  rewrite extract_text_cons, (H 0 b eq_refl), IH; [done|]. intros j b' Hj. by apply (H (S j)).
Qed.

(** Appending to a block with no later text appends to the whole text. *)
Lemma extract_text_insert bs i b b' d :
  bs !! i = Some b -> text_of b' = (text_of b ++ d)%string ->
  d = ""%string \/ (forall j c, i < j -> bs !! j = Some c -> text_of c = ""%string) ->
  extract_text (<[i := b']> bs) = (extract_text bs ++ d)%string.
Proof.
  intros Hb Hb' Hlast. pose proof (lookup_lt_Some _ _ _ Hb) as Hlt.
  rewrite insert_take_drop by done. rewrite <- (take_drop_middle bs i b Hb) at 3.
  rewrite !extract_text_app, !extract_text_cons, Hb', !string_app_assoc. f_equal. f_equal.
  destruct Hlast as [->|Hlast]; [by rewrite string_app_nil_r|].
  rewrite (extract_text_none (drop (S i) bs)); [by rewrite string_app_nil_r|].
  intros j c Hj. rewrite lookup_drop in Hj. apply (Hlast (S i + j)); [lia|done].
Qed.

(** ** Simulation *)

Inductive Kind := KText | KThinking | KTool | KOther.

Definition open_kind (s : bstate) : option Kind :=
  match s with
  | Some (b, true) =>
    Some match b with
         | Text _ => KText | Thinking _ _ => KThinking
         | ToolCall _ _ _ (Some _) => KTool | _ => KOther
         end
  | _ => None
  end.

(** What the assembler believes about block [i]. *)
Definition view (a : BlockAccumulator) (i : nat) : option Kind :=
  if decide (text_index a = Some i) then Some KText
  else if decide (fst <$> thinking_index a = Some i) then Some KThinking
  else if decide (i ∈ open_tool_calls a) then Some KTool
  else None.

Record disjoint_indices (a : BlockAccumulator) : Prop := {
  di_text_thinking i : text_index a = Some i -> fst <$> thinking_index a <> Some i;
  di_text_tools i : text_index a = Some i -> i ∉ open_tool_calls a;
  di_thinking_tools i : fst <$> thinking_index a = Some i -> i ∉ open_tool_calls a;
  di_nodup : NoDup (open_tool_calls a);
}.

Record sim (a : BlockAccumulator) (bs : list ContentBlock) (op : list bool) : Prop := {
  sim_next : next_index a = length bs;
  sim_len : length op = length bs;
  sim_view i : open_kind (block_at bs op i) = view a i;
  sim_disjoint : disjoint_indices a;
  sim_last_text i j c : text_index a = Some i -> i < j -> bs !! j = Some c -> text_of c = ""%string;
}.

Definition parse_error (e : string) : string :=
  ("ToolCallEnd: failed to parse arguments JSON: " ++ e)%string.

(** Running [es] reaches a state in [Q], or meets the one error the protocol
    leaves to the provider's data: arguments that are not JSON. *)
Definition outcome (tol : bool) (bs : list ContentBlock) (op : list bool)
    (es : list AssistantMessageEvent) (Q : list ContentBlock -> list bool -> Prop) : Prop :=
  match acc_events tol (running bs op) es with
  | Ok acc => exists bs' op', acc = running bs' op' /\ Q bs' op'
  | Err e => tol = false /\ exists e', e = parse_error e'
  end.

Lemma outcome_nil tol bs op (Q : list ContentBlock -> list bool -> Prop) :
  Q bs op -> outcome tol bs op [] Q.
Proof. unfold outcome. simpl. eauto. Qed.

Lemma outcome_mono tol bs op es (Q R : list ContentBlock -> list bool -> Prop) :
  outcome tol bs op es Q -> (forall bs' op', Q bs' op' -> R bs' op') -> outcome tol bs op es R.
Proof. unfold outcome. destruct (acc_events _ _ _); naive_solver. Qed.

Lemma acc_events_app_bind tol a es es' :
  acc_events tol a (es ++ es') = result_bind (acc_events tol a es) (fun a => acc_events tol a es').
Proof.
  revert a. induction es as [|e es IH]; intros a; [done|]. cbn [acc_events app].
  destruct (acc_event tol a e); cbn [result_bind]; auto.
Qed.

Lemma foldl_append x ds : foldl String.append x ds = (x ++ concat_text ds)%string.
Proof.
  unfold concat_text. revert x. induction ds as [|d ds IH]; intros x; simpl.
  { by rewrite string_app_nil_r. }
  rewrite IH. change ("" +:+ d) with d. by rewrite (IH d), string_app_assoc.
Qed.

Lemma concat_text_app ds ds' : concat_text (ds ++ ds') = (concat_text ds ++ concat_text ds')%string.
Proof. unfold concat_text at 1. rewrite foldl_app. apply foldl_append. Qed.

Lemma outcome_app tol bs op es es' Q :
  outcome tol bs op es (fun bs' op' => outcome tol bs' op' es' Q) ->
  outcome tol bs op (es ++ es') Q.
Proof.
  unfold outcome at 1 3. rewrite acc_events_app_bind.
  destruct (acc_events tol (running bs op) es) as [acc|e]; cbn [result_bind]; [|done].
  intros (bs' & op' & -> & H). exact H.
Qed.

Lemma block_at_inv bs op j b o :
  block_at bs op j = Some (b, o) -> bs !! j = Some b /\ op !! j = Some o.
Proof. unfold block_at. destruct (bs !! j), (op !! j); naive_solver. Qed.

Lemma outcome_single tol bs op e bs' op' (Q : list ContentBlock -> list bool -> Prop) :
  acc_event tol (running bs op) e = Ok (running bs' op') -> Q bs' op' -> outcome tol bs op [e] Q.
Proof. unfold outcome. cbn [acc_events]. intros ->. cbn [result_bind]. eauto. Qed.

(** An event on an open block. *)
Lemma outcome_existing tol bs op e j b b' o' (Q : list ContentBlock -> list bool -> Prop) :
  event_index e = Some j -> is_start_of e = None -> block_at bs op j = Some (b, true) ->
  bstep tol (Some (b, true)) e = Some (b', o') -> Q (<[j := b']> bs) (<[j := o']> op) ->
  outcome tol bs op [e] Q.
Proof.
  intros Hj Hns [Hb Ho]%block_at_inv Hst HQ. eapply outcome_single; [|exact HQ].
  apply (acc_event_existing tol bs op e j b true); eauto.
Qed.

(** Closing a tool call: parsed, kept partial under [tol], or refused. *)
Lemma outcome_tool_end tol bs op j id name ar pj (Q : list ContentBlock -> list bool -> Prop) :
  block_at bs op j = Some (ToolCall id name ar (Some pj), true) ->
  (forall ar' pj', Q (<[j := ToolCall id name ar' pj']> bs) (<[j := false]> op)) ->
  outcome tol bs op [ToolCallEnd j] Q.
Proof.
  intros Hat HQ. pose proof (block_at_inv _ _ _ _ _ Hat) as [Hb Ho].
  destruct (finish_tool_args tol id name ar pj) as [b'|e] eqn:F.
  - assert (exists ar' pj', b' = ToolCall id name ar' pj') as (ar' & pj' & ->).
    { unfold finish_tool_args in F. repeat case_match; naive_solver. }
    eapply outcome_existing; [done..| |apply HQ]. simpl. by rewrite F.
  - unfold outcome. cbn [acc_events]. unfold acc_event, on_tool_call_end, ensure_block_open. simpl.
    rewrite Hb, Ho. simpl. rewrite F.
    unfold finish_tool_args in F. repeat case_match; simplify_eq/=.
    split; [done|]. eexists. reflexivity.
Qed.

Lemma outcome_new tol bs op e b (Q : list ContentBlock -> list bool -> Prop) :
  event_index e = Some (length bs) -> length op = length bs ->
  bstep tol None e = Some (b, true) -> Q (bs ++ [b]) (op ++ [true]) -> outcome tol bs op [e] Q.
Proof.
  intros Hj Hl Hst HQ. eapply outcome_single; [|exact HQ].
  apply (acc_event_new tol bs op e (length bs)); eauto.
Qed.

(** ** Every operation preserves the simulation *)

Lemma sim_new : sim new [] [].
Proof. split; try done. split; try done. constructor. Qed.

(** No block past the content is open. *)
Lemma sim_fresh a bs op :
  sim a bs op ->
  text_index a <> Some (next_index a) /\ fst <$> thinking_index a <> Some (next_index a)
  /\ next_index a ∉ open_tool_calls a.
Proof.
  intros H. pose proof (sim_view _ _ _ H (length bs)) as Hv.
  rewrite block_at_beyond, <- (sim_next _ _ _ H) in Hv by (rewrite ?(sim_len _ _ _ H); lia).
  unfold view in Hv. simpl in Hv. repeat case_decide; naive_solver.
Qed.

(** A new open block. *)
Lemma sim_open a a' bs op b :
  sim a bs op -> next_index a' = S (next_index a) -> disjoint_indices a' -> text_of b = ""%string ->
  (forall i, view a' i = if decide (i = next_index a) then open_kind (Some (b, true)) else view a i) ->
  (forall i, text_index a' = Some i -> text_index a = Some i \/ i = next_index a) ->
  sim a' (bs ++ [b]) (op ++ [true]).
Proof.
  intros [Hn Hl Hv Hd Ht] Hn' Hd' Hb Hview Htext. split; [..|done|].
  - rewrite length_app, Hn', Hn. simpl. lia.
  - rewrite !length_app, Hl. done.
  - intros i. rewrite block_at_snoc, Hview, Hn by done. by case_decide.
  - intros i j c Hi Hlt Hj. apply lookup_app_Some in Hj as [Hj|[Hge Hj]].
    + apply Htext in Hi as [Hi| ->]; [by eapply Ht|]. apply lookup_lt_Some in Hj. lia.
    + destruct (j - length bs); simplify_eq/=; done.
Qed.

(** An update of block [j]. *)
Lemma sim_update a a' bs op j b b' o' :
  sim a bs op -> block_at bs op j = Some (b, true) -> next_index a' = next_index a ->
  disjoint_indices a' ->
  (forall i, view a' i = if decide (i = j) then open_kind (Some (b', o')) else view a i) ->
  (forall i, text_index a' = Some i -> text_index a = Some i) ->
  (text_of b' = ""%string \/ text_index a' = Some j \/ text_index a' = None) ->
  sim a' (<[j := b']> bs) (<[j := o']> op).
Proof.
  intros [Hn Hl Hv Hd Ht] [Hb Ho]%block_at_inv Hn' Hd' Hview Htext Hlast.
  pose proof (lookup_lt_Some _ _ _ Hb) as Hlt. split; [..|done|].
  - by rewrite length_insert, Hn', Hn.
  - by rewrite !length_insert.
  - intros i. rewrite block_at_insert, Hview by done. by case_decide.
  - intros i k c Hi Hik Hk. destruct (decide (k = j)) as [->|Hne].
    + rewrite list_lookup_insert_eq in Hk by done. simplify_eq.
      destruct Hlast as [?|[H|H]]; [done| |]; rewrite H in Hi; [|done]. simplify_eq. lia.
    + rewrite list_lookup_insert_ne in Hk by done. eapply Ht; eauto.
Qed.

(** The block behind each open index. *)
Lemma sim_text_block a bs op i :
  sim a bs op -> text_index a = Some i -> exists t, block_at bs op i = Some (Text t, true).
Proof.
  intros H Hi. pose proof (sim_view _ _ _ H i) as Hv. unfold view in Hv.
  rewrite decide_True in Hv by done.
  destruct (block_at bs op i) as [[[| |? ? ? []| |] []]|]; naive_solver.
Qed.

Lemma sim_thinking_block a bs op i s :
  sim a bs op -> thinking_index a = Some (i, s) ->
  exists t g, block_at bs op i = Some (Thinking t g, true).
Proof.
  intros H Hi. pose proof (sim_view _ _ _ H i) as Hv. unfold view in Hv.
  rewrite decide_False, decide_True in Hv; [|by rewrite Hi|].
  - destruct (block_at bs op i) as [[[| |? ? ? []| |] []]|]; naive_solver.
  - intros Ht. apply (di_text_thinking _ (sim_disjoint _ _ _ H) i Ht). by rewrite Hi.
Qed.

Lemma sim_tool_block a bs op i :
  sim a bs op -> i ∈ open_tool_calls a ->
  exists id name ar pj, block_at bs op i = Some (ToolCall id name ar (Some pj), true).
Proof.
  intros H Hi. pose proof (sim_view _ _ _ H i) as Hv. unfold view in Hv.
  destruct (sim_disjoint _ _ _ H) as [_ Htt Hkt _].
  rewrite decide_False, decide_False, decide_True in Hv; [|done|by intros ?%Hkt|by intros ?%Htt].
  destruct (block_at bs op i) as [[[| |? ? ? []| |] []]|]; naive_solver.
Qed.

(** What one operation, or a whole session, leaves behind. *)
Definition advanced (bs : list ContentBlock) (es : list AssistantMessageEvent)
    (a' : BlockAccumulator) (bs' : list ContentBlock) (op' : list bool) : Prop :=
  sim a' bs' op' /\ extract_text bs' = (extract_text bs ++ concat_text (text_chunks es))%string.

Definition simulates (tol : bool) (a : BlockAccumulator) (bs : list ContentBlock) (op : list bool)
    (r : list AssistantMessageEvent * BlockAccumulator) : Prop :=
  outcome tol bs op (fst r) (advanced bs (fst r) (snd r)).

Lemma simulates_skip tol a a' bs op :
  sim a' bs op -> simulates tol a bs op ([], a').
Proof. intros H. apply outcome_nil. split; [done|]. symmetry. apply string_app_nil_r. Qed.

(** Opening a block of any kind. *)
Lemma simulates_open tol a a' bs op e b :
  sim a bs op -> event_index e = Some (next_index a) -> bstep tol None e = Some (b, true) ->
  text_chunks [e] = [] ->
  next_index a' = S (next_index a) -> disjoint_indices a' -> text_of b = ""%string ->
  (forall i, view a' i = if decide (i = next_index a) then open_kind (Some (b, true)) else view a i) ->
  (forall i, text_index a' = Some i -> text_index a = Some i \/ i = next_index a) ->
  simulates tol a bs op ([e], a').
Proof.
  intros H Hj Hst Hc Hn Hd Hb Hv Ht. rewrite (sim_next _ _ _ H) in Hj.
  eapply outcome_new; [done|apply H|done|]. split; [by eapply sim_open|].
  cbn [fst]. rewrite Hc, extract_text_app, extract_text_cons, Hb. done.
Qed.

(** The two indices a component of the state may hold, compared. *)
Ltac solve_disjoint :=
  constructor; simpl in *; [intros; simplify_eq; eauto; congruence ..|done].

Ltac solve_view :=
  intros i; unfold view; simpl;
  try match goal with H : thinking_index _ = _ |- _ => rewrite H; simpl end;
  repeat case_decide; simplify_eq/=;
  rewrite ?elem_of_app, ?list_elem_of_singleton in *;
  try done; try congruence; try tauto; try (exfalso; tauto).

Lemma ensure_text_ok tol a bs op :
  sim a bs op -> simulates tol a bs op (run_op a OpEnsureText).
Proof.
  intros H. destruct (sim_fresh a bs op H) as (Hf1 & Hf2 & Hf3).
  destruct (sim_disjoint _ _ _ H) as [D1 D2 D3 D4].
  unfold run_op, ensure_text_open. destruct (text_index a) eqn:Ht; simpl.
  { by apply (simulates_skip tol a). }
  eapply simulates_open; simpl; try done; [solve_disjoint|solve_view|naive_solver].
Qed.

Lemma ensure_thinking_ok tol a bs op :
  sim a bs op -> simulates tol a bs op (run_op a OpEnsureThinking).
Proof.
  intros H. destruct (sim_fresh a bs op H) as (Hf1 & Hf2 & Hf3).
  destruct (sim_disjoint _ _ _ H) as [D1 D2 D3 D4].
  unfold run_op, ensure_thinking_open. destruct (thinking_index a) eqn:Ht; simpl.
  { by apply (simulates_skip tol a). }
  eapply simulates_open; simpl; try done; [solve_disjoint|solve_view|naive_solver].
Qed.

Lemma open_tool_ok tol a bs op id name :
  sim a bs op -> simulates tol a bs op (run_op a (OpOpenTool id name)).
Proof.
  intros H. destruct (sim_fresh a bs op H) as (Hf1 & Hf2 & Hf3).
  destruct (sim_disjoint _ _ _ H) as [D1 D2 D3 D4].
  unfold run_op, open_tool_call; simpl.
  eapply simulates_open; simpl; try done; [|solve_view|naive_solver].
  constructor; simpl; try (by intros; rewrite elem_of_app, list_elem_of_singleton; naive_solver); [done|].
  apply NoDup_app. split_and!; [done| |apply NoDup_singleton]. intros i Hi ->%list_elem_of_singleton. done.
Qed.

Lemma text_delta_ok tol a bs op d :
  sim a bs op -> simulates tol a bs op (run_op a (OpTextDelta d)).
Proof.
  intros H. unfold run_op, text_delta. destruct (text_index a) as [j|] eqn:Ht; simpl.
  2: { by apply (simulates_skip tol a). }
  destruct (sim_text_block a bs op j H Ht) as [t Hat].
  pose proof (block_at_inv _ _ _ _ _ Hat) as [Hb _].
  eapply (outcome_existing _ _ _ _ j); [done..|]. simpl. split.
  - eapply (sim_update a); eauto using sim_disjoint. intros i. case_decide; [|done]. subst.
    rewrite <- (sim_view _ _ _ H), Hat. done.
  - eapply extract_text_insert; [done|done|]. right. intros k c Hk Hc. eapply sim_last_text; eauto.
Qed.

Lemma close_text_ok tol a bs op :
  sim a bs op -> simulates tol a bs op (run_op a OpCloseText).
Proof.
  intros H. destruct (sim_disjoint _ _ _ H) as [D1 D2 D3 D4].
  unfold run_op, close_text. simpl. destruct (text_index a) as [j|] eqn:Ht; simpl.
  - destruct (sim_text_block a bs op j H Ht) as [t Hat].
    pose proof (block_at_inv _ _ _ _ _ Hat) as [Hb _].
    eapply (outcome_existing _ _ _ _ j); [done..|]. simpl. split.
    + eapply (sim_update a); simpl; eauto; [solve_disjoint| |done].
      intros i. unfold view; simpl. rewrite Ht.
      destruct (decide (i = j)) as [->|]; [|by rewrite (decide_False (P := Some j = Some i)) by congruence].
      rewrite decide_False, decide_False by eauto. done.
    + eapply extract_text_insert; [done|by rewrite string_app_nil_r|by left].
  - apply (simulates_skip tol a). by destruct a; simpl in *; subst.
Qed.

Lemma thinking_delta_ok tol a bs op d :
  sim a bs op -> simulates tol a bs op (run_op a (OpThinkingDelta d)).
Proof.
  intros H. unfold run_op, thinking_delta. destruct (thinking_index a) as [[j s]|] eqn:Ht; simpl.
  2: { by apply (simulates_skip tol a). }
  destruct (sim_thinking_block a bs op j s H Ht) as (t & g & Hat).
  pose proof (block_at_inv _ _ _ _ _ Hat) as [Hb _].
  eapply (outcome_existing _ _ _ _ j); [done..|]. simpl. split.
  - eapply (sim_update a); eauto using sim_disjoint. intros i. case_decide; [|done]. subst.
    rewrite <- (sim_view _ _ _ H), Hat. done.
  - eapply extract_text_insert; [done|done|by left].
Qed.

Lemma set_signature_ok tol a bs op s :
  sim a bs op -> simulates tol a bs op (run_op a (OpSetSignature s)).
Proof.
  intros H. unfold run_op, set_thinking_signature. simpl. apply (simulates_skip tol a).
  destruct (thinking_index a) as [[j g]|] eqn:Ht; [|done].
  destruct H as [Hn Hl Hv [D1 D2 D3 D4] Htx]. rewrite Ht in *. split; simpl; try done.
  intros i. rewrite Hv. unfold view; simpl. by rewrite Ht.
Qed.

Lemma close_thinking_ok tol a bs op s :
  sim a bs op -> simulates tol a bs op (run_op a (OpCloseThinking s)).
Proof.
  intros H. destruct (sim_disjoint _ _ _ H) as [D1 D2 D3 D4].
  unfold run_op, close_thinking. simpl. destruct (thinking_index a) as [[j g]|] eqn:Ht; simpl in *.
  - destruct (sim_thinking_block a bs op j g H Ht) as (t & g' & Hat).
    pose proof (block_at_inv _ _ _ _ _ Hat) as [Hb _].
    eapply (outcome_existing _ _ _ _ j); [done..|]. simpl. split.
    + eapply (sim_update a); simpl; eauto; [solve_disjoint|].
      intros i. unfold view; simpl. rewrite Ht; simpl.
      destruct (decide (i = j)) as [->|]; [|by rewrite (decide_False (P := Some j = Some i)) by congruence].
      rewrite decide_False, decide_False by naive_solver. done.
    + eapply extract_text_insert; [done|done|by left].
  - apply (simulates_skip tol a). by destruct a; simpl in *; subst.
Qed.

Lemma tool_delta_ok tol a bs op i d :
  sim a bs op -> op_ok a (OpToolDelta i d) = true ->
  simulates tol a bs op (run_op a (OpToolDelta i d)).
Proof.
  intros H Hi%bool_decide_eq_true. simpl.
  destruct (sim_tool_block a bs op i H Hi) as (id & name & ar & pj & Hat).
  pose proof (block_at_inv _ _ _ _ _ Hat) as [Hb _].
  eapply (outcome_existing _ _ _ _ i); [done..|]. simpl. split.
  - eapply (sim_update a); eauto using sim_disjoint. intros k. case_decide; [|done]. subst.
    rewrite <- (sim_view _ _ _ H), Hat. done.
  - eapply extract_text_insert; [done|done|by left].
Qed.

Lemma elem_of_vec_remove (l : list nat) pos i j :
  NoDup l -> l !! pos = Some j -> i ∈ vec_remove pos l <-> i ∈ l /\ i <> j.
Proof.
  intros Hnd Hj. unfold vec_remove. rewrite <- (take_drop_middle l pos j Hj) in Hnd.
  rewrite <- (take_drop_middle l pos j Hj) at 3.
  apply NoDup_app in Hnd as (_ & H1 & [H2 _]%NoDup_cons).
  rewrite !elem_of_app, elem_of_cons. split; [|tauto].
  intros [Hi|Hi]; (split; [tauto|]); intros ->; [|done]. apply (H1 j Hi). by left.
Qed.

Lemma NoDup_vec_remove (l : list nat) pos j : NoDup l -> l !! pos = Some j -> NoDup (vec_remove pos l).
Proof.
  intros Hnd Hj. unfold vec_remove. rewrite <- (take_drop_middle l pos j Hj) in Hnd.
  apply NoDup_app in Hnd as (? & H1 & [? ?]%NoDup_cons). apply NoDup_app. split_and!; [done| |done].
  intros x Hx Hx'. apply (H1 x Hx). by right.
Qed.

Lemma close_tool_ok tol a bs op j :
  sim a bs op -> simulates tol a bs op (run_op a (OpCloseTool j)).
Proof.
  intros H. destruct (sim_disjoint _ _ _ H) as [D1 D2 D3 D4].
  unfold run_op, close_tool_call.
  destruct (position (Nat.eqb j) (open_tool_calls a)) as [pos|] eqn:P; simpl.
  2: { by apply (simulates_skip tol a). }
  apply position_Some in P as (j' & Hpos & <-%Nat.eqb_eq).
  assert (Hj : j ∈ open_tool_calls a) by (by eapply list_elem_of_lookup_2).
  destruct (sim_tool_block a bs op j H Hj) as (id & name & ar & pj & Hat).
  pose proof (block_at_inv _ _ _ _ _ Hat) as [Hb _].
  eapply outcome_tool_end; [done|]. intros ar' pj'. simpl. split.
  - pose proof (fun i => elem_of_vec_remove _ _ i _ D4 Hpos) as Hrem.
    eapply (sim_update a); simpl; eauto.
    + constructor; simpl; [done| | |by eapply NoDup_vec_remove]; intros i Hi; rewrite Hrem; naive_solver.
    + intros i. unfold view; simpl. destruct (decide (i = j)) as [->|Hne].
      * rewrite decide_False, decide_False, decide_False; [done|rewrite Hrem; tauto| |].
        -- by intros ?%D3. -- by intros ?%D2.
      * repeat case_decide; rewrite ?Hrem in *; try done; tauto.
  - eapply extract_text_insert; [done|done|by left].
Qed.

Lemma run_op_ok tol a bs op o :
  sim a bs op -> op_ok a o = true -> simulates tol a bs op (run_op a o).
Proof.
  intros H Hok. destruct o; auto using ensure_text_ok, text_delta_ok, close_text_ok,
    ensure_thinking_ok, thinking_delta_ok, set_signature_ok, close_thinking_ok, open_tool_ok,
    tool_delta_ok, close_tool_ok.
Qed.

Lemma text_chunks_app es es' : text_chunks (es ++ es') = text_chunks es ++ text_chunks es'.
Proof. apply filtermap_app. Qed.

Lemma simulates_app tol a a1 a2 bs op es es' :
  simulates tol a bs op (es, a1) ->
  (forall bs' op', sim a1 bs' op' -> simulates tol a1 bs' op' (es', a2)) ->
  simulates tol a bs op (es ++ es', a2).
Proof.
  intros H1 H2. apply outcome_app. eapply outcome_mono; [exact H1|].
  intros bs' op' [Hsim Htx]. eapply outcome_mono; [by apply H2|].
  intros bs'' op'' [Hsim' Htx']. split; [done|]. simpl in *.
  by rewrite Htx', Htx, text_chunks_app, concat_text_app, string_app_assoc.
Qed.

Lemma run_ops_ok tol a bs op ops :
  sim a bs op -> ops_ok a ops = true -> simulates tol a bs op (run_ops a ops).
Proof.
  revert a bs op. induction ops as [|o ops IH]; intros a bs op H Hok; simpl.
  { by apply simulates_skip. }
  simpl in Hok. apply andb_true_iff in Hok as [Ho Hok].
  pose proof (run_op_ok tol a bs op o H Ho) as Hstep.
  destruct (run_op a o) as [es a1]. simpl in Hok. pose proof (fun bs' op' H => IH a1 bs' op' H Hok) as IH'.
  destruct (run_ops a1 ops) as [es' a2]. eapply simulates_app; eauto.
Qed.

(** ** [finalize_blocks] closes what is open *)

Definition open_list (a : BlockAccumulator) : list OpenBlock := map snd (drain_entries a).

(** The closing operation with the same effect. *)
Definition close_op (b : OpenBlock) : Op :=
  match b with
  | OpenText _ => OpCloseText
  | OpenThinking _ _ => OpCloseThinking None
  | OpenToolCall i => OpCloseTool i
  end.

Definition drained (a : BlockAccumulator) : BlockAccumulator :=
  MkBlockAccumulator (next_index a) None None [].

Lemma elem_of_open_list a b :
  b ∈ open_list a <->
  match b with
  | OpenText i => text_index a = Some i
  | OpenThinking i s => thinking_index a = Some (i, s)
  | OpenToolCall i => i ∈ open_tool_calls a
  end.
Proof.
  unfold open_list, drain_entries.
  rewrite !map_app, map_map, !elem_of_app. change (map ?f ?l) with (f <$> l).
  rewrite (list_elem_of_fmap (fun x => snd (x, OpenToolCall x))).
  destruct (thinking_index a) as [[j s]|], (text_index a), b; set_solver.
Qed.

Lemma vec_remove_Permutation {A} (l : list A) pos x :
  l !! pos = Some x -> l ≡ₚ x :: vec_remove pos l.
Proof.
  intros Hx. unfold vec_remove. rewrite <- (take_drop_middle l pos x Hx) at 1.
  by rewrite Permutation_middle.
Qed.

Lemma close_op_step a b l :
  b :: l ≡ₚ open_list a ->
  exists a', run_op a (close_op b) = ([end_event b], a') /\ l ≡ₚ open_list a'
    /\ next_index a' = next_index a.
Proof.
  intros Hp. assert (Hb : b ∈ open_list a) by (rewrite <- Hp; by left).
  apply elem_of_open_list in Hb. unfold open_list, drain_entries in *.
  destruct b as [i|i s|i]; cbn [close_op run_op].
  - unfold close_text. rewrite Hb in *. eexists. split_and!; [done| |done].
    apply (Permutation_cons_inv (a := OpenText i)). rewrite Hp. simpl.
    rewrite !map_app. simpl. by rewrite Permutation_middle.
  - unfold close_thinking. rewrite Hb in *. eexists. split_and!; [done| |done].
    apply (Permutation_cons_inv (a := OpenThinking i s)). by rewrite Hp.
  - unfold close_tool_call. destruct (position (Nat.eqb i) (open_tool_calls a)) as [pos|] eqn:P.
    2: { apply position_None in P. rewrite Forall_forall in P. specialize (P i Hb).
         by rewrite Nat.eqb_refl in P. }
    apply position_Some in P as (i' & Hpos & <-%Nat.eqb_eq).
    eexists. split_and!; [done| |done]. simpl.
    apply (Permutation_cons_inv (a := OpenToolCall i)). rewrite Hp.
    rewrite (vec_remove_Permutation _ _ _ Hpos) at 1.
    rewrite !map_app. simpl. by rewrite <- !Permutation_middle.
Qed.

Lemma close_ops_drain a l :
  l ≡ₚ open_list a -> run_ops a (map close_op l) = (map end_event l, drained a).
Proof.
  revert a. induction l as [|b l IH]; intros a Hp; simpl.
  - apply Permutation_nil_l in Hp. unfold open_list, drain_entries, drained in *.
    destruct a as [n [|] [[]|] []]; simpl in *; done.
  - destruct (close_op_step a b l Hp) as (a' & -> & Hl & Hn). rewrite (IH a' Hl).
    simpl. unfold drained. by rewrite Hn.
Qed.

Lemma close_ops_ok a l : ops_ok a (map close_op l) = true.
Proof. revert a. induction l as [|[] l IH]; intros a; simpl; auto. Qed.

Lemma finalize_as_ops a :
  exists l, run_ops a (map close_op l) = finalize_blocks a.
Proof.
  exists (fst (drain_open_blocks a)). unfold finalize_blocks. simpl.
  rewrite close_ops_drain; [done|]. unfold open_list.
  change (map snd ?l) with (snd <$> l). by rewrite merge_sort_Permutation.
Qed.

Lemma finalize_ok tol a bs op :
  sim a bs op -> simulates tol a bs op (finalize_blocks a).
Proof.
  intros H. destruct (finalize_as_ops a) as [l <-]. apply run_ops_ok; [done|apply close_ops_ok].
Qed.

Lemma finalize_drained a : snd (finalize_blocks a) = drained a.
Proof. done. Qed.

Lemma run_op_indexed a o : Forall (fun e => is_Some (event_index e)) (fst (run_op a o)).
Proof.
  destruct a as [n [|] [[]|] tc], o; simpl; repeat constructor; simpl; eauto.
  all: unfold close_tool_call; case_match; simpl; repeat constructor; eauto.
Qed.

Lemma run_ops_indexed a ops : Forall (fun e => is_Some (event_index e)) (fst (run_ops a ops)).
Proof.
  revert a. induction ops as [|o ops IH]; intros a; simpl; [constructor|].
  pose proof (run_op_indexed a o) as Ho. destruct (run_op a o) as [es a1].
  specialize (IH a1). destruct (run_ops a1 ops). simpl in *. by apply Forall_app.
Qed.

Lemma finalize_indexed a : Forall (fun e => is_Some (event_index e)) (fst (finalize_blocks a)).
Proof. destruct (finalize_as_ops a) as [l <-]. apply run_ops_indexed. Qed.

Lemma drained_settled tol a bs op : sim (drained a) bs op -> all_settled tol bs op.
Proof.
  intros H i b o Hat ->. pose proof (sim_view _ _ _ H i) as Hv. rewrite Hat in Hv. simpl in Hv.
  unfold view in Hv. simpl in Hv. repeat case_decide; try done; by eapply not_elem_of_nil.
Qed.

Lemma finalize_no_text a : text_chunks (fst (finalize_blocks a)) = [].
Proof. simpl. induction (map snd _) as [|[] l IH]; simpl; auto. Qed.

Lemma acc_event_start tol : acc_event tol acc_init Start = Ok (running [] []).
Proof. done. Qed.

Lemma session_mid_ok tol ops :
  ops_ok new ops = true ->
  outcome tol [] [] (fst (run_ops new ops) ++ fst (finalize_blocks (snd (run_ops new ops))))
    (fun bs op => sim (drained (snd (run_ops new ops))) bs op
                  /\ extract_text bs = concat_text (text_chunks (fst (run_ops new ops)))).
Proof.
  intros Hok. pose proof (run_ops_ok tol new [] [] ops sim_new Hok) as H.
  apply outcome_app. eapply outcome_mono; [exact H|]. intros bs op [Hsim Htx].
  eapply outcome_mono; [by apply finalize_ok|]. intros bs' op' [Hsim' Htx']. split; [done|].
  rewrite Htx', Htx, finalize_no_text. cbn [concat_text foldl]. rewrite string_app_nil_r. done.
Qed.

(** A session closed by any terminal event. *)
Definition session_with (ops : list Op) (t : AssistantMessageEvent) : list AssistantMessageEvent :=
  let '(es, a) := run_ops new ops in Start :: (es ++ fst (finalize_blocks a)) ++ [t].

Lemma session_with_accumulates now ops t provider model :
  ops_ok new ops = true -> is_terminal t = true ->
  match accumulate_message now (session_with ops t) provider model with
  | Ok m =>
    length (am_content m) = next_index (snd (run_ops new ops))
    /\ extract_text (am_content m) = concat_text (text_chunks (fst (run_ops new ops)))
    /\ terminal_fields t = Some (terminal_tolerance t, am_stop_reason m, am_usage m, am_cost m, am_error_message m, am_error_kind m)
  | Err e => terminal_tolerance t = false /\ exists e', e = parse_error e'
  end.
Proof.
  intros Hok Ht. unfold session_with. destruct (run_ops new ops) as [es a] eqn:Hrun.
  set (mid := es ++ fst (finalize_blocks a)).
  assert (Forall (fun e => is_Some (event_index e)) mid) as Hmid.
  { apply Forall_app. split; [|apply finalize_indexed].
    pose proof (run_ops_indexed new ops) as H. by rewrite Hrun in H. }
  unfold accumulate_message. rewrite tolerate_of_shape by done.
  pose proof (session_mid_ok (terminal_tolerance t) ops Hok) as H.
  rewrite Hrun in H. unfold outcome in H. cbn [fst snd] in H. fold mid in H.
  cbn [acc_events]. rewrite acc_event_start. cbn [result_bind]. rewrite acc_events_app_bind.
  destruct (acc_events _ (running [] []) mid) as [acc|e]; cbn [result_bind]; [|done].
  destruct H as (bs & op & -> & Hsim & Htx).
  rewrite (proj2 (acc_events_cons _ _ t [] (finished bs op t))).
  - destruct t; try done; simpl; by rewrite <- (sim_next _ _ _ Hsim).
  - eexists. split; [|done]. apply acc_event_terminal; [apply Hsim|done|naive_solver|].
    split; [|done]. by eapply drained_settled.
Qed.

(** The assembler implements the streaming contract: whatever operations an
    adapter performs (argument chunks going to open tool calls), the events it
    emits, closed by [finalize_blocks] and a [Done], are accepted by
    [accumulate_message]; the message has one block per allocated index, its
    text is exactly the text chunks in order of emission, and the terminal
    fields are the [Done]'s.  The only refusal possible is tool arguments that
    are not JSON, and never when the stop reason is [Length]. *)
Lemma session_accumulates now ops sr u c provider model :
  ops_ok new ops = true ->
  match accumulate_message now (session ops sr u c) provider model with
  | Ok m =>
    length (am_content m) = next_index (snd (run_ops new ops))
    /\ extract_text (am_content m) = concat_text (text_chunks (fst (run_ops new ops)))
    /\ am_stop_reason m = sr /\ am_usage m = u /\ am_cost m = c
    /\ am_error_message m = None /\ am_error_kind m = None
  | Err e => sr <> Length /\ exists e', e = parse_error e'
  end.
Proof.
  intros Hok. pose proof (session_with_accumulates now ops (Done sr u c) provider model Hok eq_refl) as H.
  change (session_with ops (Done sr u c)) with (session ops sr u c) in H.
  destruct (accumulate_message now (session ops sr u c) provider model) as [m|e].
  - destruct H as (? & ? & [= <- <- <- <- <-]). done.
  - destruct H as [Htol%bool_decide_eq_false He]. done.
Qed.

End Operations.

(** A session with a thinking block, a text block written around a tool call,
    and blocks left for [finalize_blocks]. *)
Definition demo_ops : list Op :=
  [OpEnsureThinking; OpThinkingDelta "plan"; OpCloseThinking (Some "sig"%string);
   OpEnsureText; OpTextDelta "Hel"; OpOpenTool "c1" "ls"; OpToolDelta 2 "{}";
   OpTextDelta "lo"; OpEnsureText].

Lemma session_accumulates_witness :
  ops_ok new demo_ops = true
  /\ match accumulate_message (E := Toy.ext) 7 (session demo_ops ToolUse usage_default cost_default)
             "p" "m" with
    | Ok m => length (am_content m) = 3 /\ extract_text (am_content m) = "Hello"%string
    | Err _ => False
    end.
Proof.
  assert (Hok : ops_ok new demo_ops = true) by reflexivity.
  pose proof (session_accumulates (E := Toy.ext) 7 demo_ops ToolUse usage_default cost_default
                "p" "m" Hok) as H.
  split; [exact Hok|].
  destruct (accumulate_message (E := Toy.ext) 7 _ _ _) as [m|e] eqn:Hm.
  - destruct H as (H1 & H2 & _). split; [exact H1|]. exact H2.
  - assert (Hd : match accumulate_message (E := Toy.ext) 7 (session demo_ops ToolUse usage_default cost_default)
                   "p" "m" with Ok _ => true | Err _ => false end = true) by (vm_cast_no_check (eq_refl true)).
    rewrite Hm in Hd. discriminate Hd.
Defined.

End Assembly.
