(* ===== verification/Sse.v ===== *)
(** * Server-sent events: [adapters/src/sse.rs]

    The byte parser the provider adapters share.  The main theorem says that
    the lines it yields depend on the bytes received and not on how the
    transport cut them into chunks. *)
From S2P Require Export Utf8 BlockAccumulator.
From Stdlib Require Import Ascii.
Open Scope string_scope.
Open Scope list_scope.

Module Sse.

(** @src adapters/src/sse.rs:39-57 [SseLine] *)
Inductive SseLine :=
| Event (event_type : string)
| Data (data : string)
| DoneLine
| Empty
| TransportError (message : string)
| ProtocolError (message : string).

#[export] Instance SseLine_eq_dec : EqDecision SseLine.
Proof. solve_decision. Defined.

(** @src adapters/src/sse.rs:74-84 [SseStreamParser] *)
Record SseStreamParser := MkSseStreamParser {
  buffer : string;
  byte_carry : string;
  pending_data : option string;
  poisoned : bool;
}.

(** @src adapters/src/sse.rs:89-96 [SseStreamParser::new] *)
Definition parser_new : SseStreamParser := MkSseStreamParser "" "" None false.

(** [pending.take()], given out as a [Data] line. *)
Definition take_data (pending : option string) : list SseLine :=
  match pending with Some data => [Data data] | None => [] end.

(** @src adapters/src/sse.rs:272-275 [parse_sse_field_value] *)
Definition parse_sse_field_value (line field_prefix : string) : option string :=
  value ← str_strip_prefix field_prefix line;
  Some (default value (str_strip_prefix " " value)).

(** What a line adds to the output, and the pending data after it.
    @src adapters/src/sse.rs:224-269 [SseStreamParser::process_raw_line] *)
Definition process_raw_line (pending : option string) (line : string) : list SseLine * option string :=
  match line with
  | "" => (take_data pending ++ [Empty], None)
  | String ":"%char _ => ([], pending)
  | _ =>
    match parse_sse_field_value line "event:" with
    | Some event_type => (take_data pending ++ [Event event_type], None)
    | None =>
      match parse_sse_field_value line "data:" with
      | Some data =>
        if String.eqb data "[DONE]" then (take_data pending ++ [DoneLine], None)
        else match data, pending with
             | "", _ => ([], pending)
             | _, Some p => ([], Some (p ++ String LF data)%string)
             | _, None => ([], Some data)
             end
      | None => (take_data pending, None)
      end
    end
  end.

Fixpoint process_raw_lines (pending : option string) (lines : list string) : list SseLine * option string :=
  match lines with
  | [] => ([], pending)
  | line :: lines' =>
    let '(out, pending) := process_raw_line pending line in
    let '(out', pending) := process_raw_lines pending lines' in
    (out ++ out', pending)
  end.

(** The loop takes complete lines off the buffer as long as there are any.
    @src adapters/src/sse.rs:207-220 [SseStreamParser::drain_lines] *)
Definition drain_lines (p : SseStreamParser) : list SseLine * SseStreamParser :=
  let '(lines, rest) := split_newlines (buffer p) in
  let '(out, pending) := process_raw_lines (pending_data p) (map strip_cr lines) in
  (out, MkSseStreamParser rest (byte_carry p) pending (poisoned p)).

(** @src adapters/src/sse.rs:199-205 [SseStreamParser::protocol_error] *)
Definition protocol_error (message : string) (p : SseStreamParser) : list SseLine * SseStreamParser :=
  ([ProtocolError message], MkSseStreamParser "" "" None true).

Definition invalid_utf8 : string := "SSE stream contained invalid UTF-8 bytes".
Definition incomplete_utf8 : string := "SSE stream ended with an incomplete UTF-8 sequence".

(** Every arm of the decoding loop leaves it at once, so it is a case distinction.
    @src adapters/src/sse.rs:103-161 [SseStreamParser::feed] *)
Definition feed (chunk : string) (p : SseStreamParser) : list SseLine * SseStreamParser :=
  if poisoned p then ([], p) else
  let '(v, st) := from_utf8 (byte_carry p ++ chunk) in
  let decoded carry := MkSseStreamParser (buffer p ++ v) carry (pending_data p) (poisoned p) in
  match st with
  | Complete => drain_lines (decoded "")
  | Incomplete carry => drain_lines (decoded carry)
  | Invalid _ =>
    let '(lines, p) := drain_lines (decoded "") in
    let '(error, p') := protocol_error invalid_utf8 p in
    (lines ++ take_data (pending_data p) ++ error, p')
  end.

Section Trim.
Context `{E : Ext}.

(** @src adapters/src/sse.rs:164-197 [SseStreamParser::flush] *)
Definition flush (p : SseStreamParser) : list SseLine * SseStreamParser :=
  if poisoned p then ([], p)
  else if negb (String.eqb (byte_carry p) "") then
    let '(error, p') := protocol_error incomplete_utf8 p in
    (take_data (pending_data p) ++ error, p')
  else
    let '(lines, pending) :=
      if trim_is_empty (buffer p) then ([], pending_data p)
      else process_raw_lines (pending_data p) (str_lines (buffer p)) in
    (lines ++ take_data pending, MkSseStreamParser "" "" None false).

(** An item of the byte stream: a chunk or the transport's error.  At the end of
    the stream the parser is flushed until that gives nothing ([flush_again]).
    @src adapters/src/sse.rs:304-345 [sse_lines] *)
Fixpoint sse_lines (items : list (result string string)) (p : SseStreamParser) : list SseLine :=
  match items with
  | [] => fst (flush p)
  | Ok bytes :: items' => let '(lines, p) := feed bytes p in lines ++ sse_lines items' p
  | Err err :: items' =>
    let '(lines, p) := flush p in
    lines ++ TransportError ("SSE transport error: " ++ err) :: sse_lines items' p
  end.

Lemma flush_again p : fst (flush (snd (flush p))) = [].
Proof.
  unfold flush. destruct (poisoned p) eqn:Hp; cbn; [by rewrite Hp|].
  destruct (negb (String.eqb (byte_carry p) "")); [done|].
  destruct (if trim_is_empty _ then _ else _) as [l q]. cbn. by destruct (trim_is_empty "").
Qed.

Definition is_data_line (l : SseLine) : bool :=
  match l with Data _ | DoneLine | TransportError _ | ProtocolError _ => true | _ => false end.

(** The callback gets the same data and cannot affect the stream.
    @src adapters/src/sse.rs:348-377 [sse_data_lines_with_callback] *)
Definition sse_data_lines (items : list (result string string)) : list SseLine :=
  List.filter is_data_line (sse_lines items parser_new).

(** @src adapters/src/sse.rs:388-393 [SseEvent] *)
Record SseEvent := MkSseEvent { event_type : string; ev_data : string }.

Definition SSE_TRANSPORT_ERROR_EVENT : string := "__swink_transport_error__".
Definition SSE_PROTOCOL_ERROR_EVENT : string := "__swink_protocol_error__".

(** @src adapters/src/sse.rs:421-473 [sse_paired_events_with_callback] *)
Fixpoint pair_events (current_event : option string) (lines : list SseLine) : list SseEvent :=
  match lines with
  | [] => []
  | (Empty | DoneLine) :: lines' => pair_events None lines'
  | TransportError message :: lines' =>
    MkSseEvent SSE_TRANSPORT_ERROR_EVENT message :: pair_events current_event lines'
  | ProtocolError message :: lines' =>
    MkSseEvent SSE_PROTOCOL_ERROR_EVENT message :: pair_events current_event lines'
  | Event event_type :: lines' => pair_events (Some event_type) lines'
  | Data "" :: lines' => pair_events current_event lines'
  | Data data :: lines' =>
    MkSseEvent (default "unknown" current_event) data :: pair_events None lines'
  end.

Definition sse_paired_events (items : list (result string string)) : list SseEvent :=
  pair_events None (sse_lines items parser_new).

End Trim.

(** ** Chunks do not matter *)

Lemma process_raw_lines_app pending l1 l2 :
  process_raw_lines pending (l1 ++ l2)
  = let '(out, pending) := process_raw_lines pending l1 in
    let '(out', pending) := process_raw_lines pending l2 in (out ++ out', pending).
Proof.
  revert pending. induction l1 as [|l l1 IH]; intros pending; cbn.
  - by destruct (process_raw_lines pending l2).
  - destruct (process_raw_line pending l) as [out p]. rewrite IH.
    destruct (process_raw_lines p l1) as [out1 p1]. destruct (process_raw_lines p1 l2) as [out2 p2].
    by rewrite app_assoc.
Qed.

(** Taking lines off the buffer may wait for more text. *)
Lemma drain_lines_app buf v carry carry' pending po :
  drain_lines (MkSseStreamParser (buf ++ v) carry' pending po)
  = let '(out, p) := drain_lines (MkSseStreamParser buf carry pending po) in
    let '(out', p') := drain_lines (MkSseStreamParser (buffer p ++ v) carry' (pending_data p) po) in
    (out ++ out', p').
Proof.
  unfold drain_lines. cbn [buffer pending_data byte_carry poisoned]. rewrite split_newlines_app.
  destruct (split_newlines buf) as [lines rest].
  destruct (process_raw_lines pending (map strip_cr lines)) as [out p] eqn:Hp. cbn [buffer pending_data].
  destruct (split_newlines (rest ++ v)) as [lines' rest'].
  rewrite map_app, process_raw_lines_app, Hp. by destruct (process_raw_lines p (map strip_cr lines')).
Qed.

(** Between feeds the buffer holds no complete line and the carry is the
    beginning of a character. *)
Definition parser_ok (p : SseStreamParser) : Prop :=
  split_newlines (buffer p) = ([], buffer p)
  /\ (byte_carry p = "" \/ from_utf8 (byte_carry p) = ("", Incomplete (byte_carry p))).

Lemma drain_lines_rest buf carry pending po :
  let p := snd (drain_lines (MkSseStreamParser buf carry pending po)) in
  split_newlines (buffer p) = ([], buffer p) /\ byte_carry p = carry /\ poisoned p = po.
Proof.
  unfold drain_lines. cbn [buffer byte_carry pending_data poisoned].
  pose proof (split_newlines_rest buf) as H. destruct (split_newlines buf) as [lines rest].
  by destruct (process_raw_lines _ _).
Qed.

Lemma feed_ok chunk p : parser_ok p -> parser_ok (snd (feed chunk p)).
Proof.
  intros Hp. unfold feed. destruct (poisoned p); [done|].
  destruct (from_utf8 (byte_carry p ++ chunk)) as [v [|carry|rest]] eqn:Hv.
  - pose proof (drain_lines_rest (buffer p ++ v) "" (pending_data p) false) as (? & Hc & _).
    split; [done|by left].
  - pose proof (drain_lines_rest (buffer p ++ v) carry (pending_data p) false) as (? & Hc & _).
    split; [done|]. right. rewrite Hc. by eapply from_utf8_carry.
  - destruct (drain_lines _). split; [done|by left].
Qed.

Lemma feed_nothing p : parser_ok p -> feed "" p = ([], p).
Proof.
  intros [Hb Hc]. unfold feed. destruct (poisoned p) eqn:Hp; [done|]. rewrite string_app_nil_r.
  assert (Hd : forall carry, drain_lines (MkSseStreamParser (buffer p ++ "") carry (pending_data p) false)
               = ([], MkSseStreamParser (buffer p) carry (pending_data p) false)).
  { intros carry. unfold drain_lines. cbn [buffer]. by rewrite string_app_nil_r, Hb. }
  destruct p as [buf carry pending po]. cbn in *. subst po.
  destruct Hc as [->|Hc]; [cbn|rewrite Hc]; by rewrite Hd.
Qed.

(** Two chunks are one. *)
Lemma feed_app a b p :
  feed (a ++ b) p
  = let '(lines, p) := feed a p in let '(lines', p) := feed b p in (lines ++ lines', p).
Proof.
  unfold feed at 1 2. destruct (poisoned p) eqn:Hp; [unfold feed; by rewrite Hp|].
  rewrite <- string_app_assoc, from_utf8_app.
  destruct (from_utf8 (byte_carry p ++ a)) as [v st] eqn:Hv.
  destruct st as [|carry|rest]; cbn [utf8_continue].
  - pose proof (drain_lines_rest (buffer p ++ v) "" (pending_data p) false) as (_ & Hc & Hpo).
    pose proof (fun v' c => drain_lines_app (buffer p ++ v) v' "" c (pending_data p) false) as Hd.
    destruct (drain_lines (MkSseStreamParser (buffer p ++ v) "" _ _)) as [out p1]. cbn [snd] in *.
    unfold feed. rewrite Hpo, Hc, string_app_nil_l.
    destruct (from_utf8 b) as [v' st']. rewrite <- string_app_assoc.
    destruct st' as [|carry'|rest']; rewrite Hd; destruct (drain_lines _) as [out' p2]; cbn; by rewrite ?app_assoc.
  - pose proof (drain_lines_rest (buffer p ++ v) carry (pending_data p) false) as (_ & Hc & Hpo).
    pose proof (fun v' c => drain_lines_app (buffer p ++ v) v' carry c (pending_data p) false) as Hd.
    destruct (drain_lines (MkSseStreamParser (buffer p ++ v) carry _ _)) as [out p1]. cbn [snd] in *.
    unfold feed. rewrite Hpo, Hc.
    destruct (from_utf8 (carry ++ b)) as [v' st']. rewrite <- string_app_assoc.
    destruct st' as [|carry'|rest']; rewrite Hd; destruct (drain_lines _) as [out' p2]; cbn; by rewrite ?app_assoc.
  - rewrite string_app_nil_r. destruct (drain_lines _) as [out p1]. cbn. by rewrite app_nil_r.
Qed.

(** What was received: the bytes up to the first transport error, and each error
    with the bytes after it. *)
Fixpoint received (items : list (result string string)) : string * list (string * string) :=
  match items with
  | [] => ("", [])
  | Ok bytes :: items' => let '(b, segments) := received items' in ((bytes ++ b)%string, segments)
  | Err err :: items' => let '(b, segments) := received items' in ("", (err, b) :: segments)
  end.

Section Reference.
Context `{E : Ext}.

(** ** Reference: the lines of a byte string *)

(** A text's lines, the unfinished last one too unless it is blank, with the
    pending data at the end; bytes that are no UTF-8 end it with an error
    after the complete lines before them. *)
Definition segment_lines (bytes : string) : list SseLine :=
  let '(text, st) := from_utf8 bytes in
  let '(lines, rest) := split_newlines text in
  let lines := map strip_cr lines in
  let rest_lines := if trim_is_empty rest then [] else str_lines rest in
  let '(out, pending) :=
    process_raw_lines None (match st with Complete => lines ++ rest_lines | _ => lines end) in
  out ++ take_data pending
      ++ match st with
         | Complete => []
         | Incomplete _ => [ProtocolError incomplete_utf8]
         | Invalid _ => [ProtocolError invalid_utf8]
         end.

Definition is_utf8 (bytes : string) : bool :=
  match from_utf8 bytes with (_, Complete) => true | _ => false end.

(** [live]: no protocol error so far. *)
Fixpoint stream_lines (live : bool) (bytes : string) (segments : list (string * string)) : list SseLine :=
  (if live then segment_lines bytes else [])
  ++ match segments with
     | [] => []
     | (err, b) :: segments' =>
       TransportError ("SSE transport error: " ++ err) :: stream_lines (live && is_utf8 bytes) b segments'
     end.

(** ** The parser implements it *)

Definition dead : SseStreamParser := MkSseStreamParser "" "" None true.

Definition fresh (live : bool) : SseStreamParser := if live then parser_new else dead.

Lemma fresh_ok live : parser_ok (fresh live).
Proof. by destruct live; split; [|left| |left]. Qed.

Lemma flush_ok p : parser_ok (snd (flush p)) \/ snd (flush p) = p.
Proof.
  unfold flush. destruct (poisoned p); [by right|left].
  destruct (negb _); [|destruct (if trim_is_empty _ then _ else _)]; by split; [|left].
Qed.

Lemma feed_flush b live :
  let '(lines, p) := feed b (fresh live) in
  lines ++ fst (flush p) = (if live then segment_lines b else [])
  /\ snd (flush p) = fresh (live && is_utf8 b).
Proof.
  destruct live; [|done]. unfold feed. cbn [poisoned fresh parser_new byte_carry buffer pending_data andb].
  rewrite !string_app_nil_l. unfold segment_lines, is_utf8.
  destruct (from_utf8 b) as [text st] eqn:Hb. rewrite string_app_nil_l.
  destruct st as [|carry|rest]; unfold drain_lines; cbn [buffer pending_data byte_carry poisoned];
    destruct (split_newlines text) as [lines rest0].
  - rewrite process_raw_lines_app. destruct (process_raw_lines None _) as [out pending].
    unfold flush. cbn [buffer pending_data byte_carry poisoned String.eqb negb].
    destruct (trim_is_empty rest0); [cbn; by rewrite !app_nil_r|].
    destruct (process_raw_lines pending _) as [out' pending']. cbn. by rewrite app_nil_r, app_assoc.
  - destruct (process_raw_lines None _) as [out pending]. unfold flush.
    cbn [buffer pending_data byte_carry poisoned]. apply from_utf8_carry in Hb.
    destruct carry as [|a carry]; [done|]. by split.
  - destruct (process_raw_lines None _) as [out pending]. unfold flush. cbn.
    by rewrite app_nil_r.
Qed.

Lemma sse_lines_received items p : parser_ok p ->
  sse_lines items p
  = let '(b, segments) := received items in
    let '(lines, p) := feed b p in
    lines ++ fst (flush p)
    ++ match segments with
       | [] => []
       | (err, b') :: segments' =>
         TransportError ("SSE transport error: " ++ err)
         :: sse_lines (Ok b' :: concat (map (fun s => [Err (fst s); Ok (snd s)]) segments')) (snd (flush p))
       end.
Proof.
  revert p. induction items as [|[bytes|err] items IH]; intros p Hp; cbn [sse_lines received].
  - by rewrite feed_nothing, app_nil_l, app_nil_r by done.
  - destruct (feed bytes p) as [lines p1] eqn:Hf. rewrite IH.
    + destruct (received items) as [b segments]. rewrite feed_app, Hf.
      destruct (feed b p1) as [lines' p2]. by rewrite app_assoc.
    + pose proof (feed_ok bytes p Hp) as H. by rewrite Hf in H.
  - destruct (received items) as [b segments] eqn:Hr. rewrite feed_nothing, app_nil_l by done.
    destruct (flush p) as [lines p1] eqn:Hf. cbn [fst snd]. do 2 f_equal.
    assert (Hp1 : parser_ok p1).
    { pose proof (flush_ok p) as H. rewrite Hf in H. cbn in H. destruct H as [H| ->]; done. }
    rewrite IH by done. cbn [sse_lines]. destruct (feed b p1) as [lines' p2]. f_equal.
    destruct segments as [|[err' b'] segments]; cbn; [by rewrite app_nil_r|].
    by destruct (flush p2).
Qed.

Lemma sse_lines_segments live b segments :
  sse_lines (Ok b :: concat (map (fun s => [Err (fst s); Ok (snd s)]) segments)) (fresh live)
  = stream_lines live b segments.
Proof.
  revert live b. induction segments as [|[err b'] segments IH]; intros live b; cbn [sse_lines map concat app stream_lines].
  - pose proof (feed_flush b live) as H. destruct (feed b (fresh live)) as [lines p]. by rewrite (proj1 H), app_nil_r.
  - pose proof (feed_flush b live) as H. destruct (feed b (fresh live)) as [lines p]. cbn [fst snd].
    destruct (flush p) as [lines' p'] eqn:Hf. cbn [fst snd] in H. destruct H as [<- ->].
    rewrite <- app_assoc. do 3 f_equal. exact (IH (live && is_utf8 b) b').
Qed.

(** C19: the lines of a response depend on the bytes received and not on how the
    transport cut them into chunks, also when a cut goes through a character
    or a line ending: however the bytes between two transport errors are
    chunked, the parser yields the lines of the whole text - a blank line, an
    event label, joined data lines, [DONE] - with an unfinished last line, and
    after the first byte that is no UTF-8 exactly one protocol error and
    nothing else but the transport's errors. *)
Theorem sse_lines_spec items :
  let '(bytes, segments) := received items in
  sse_lines items parser_new = stream_lines true bytes segments.
Proof.
  rewrite (sse_lines_received items parser_new) by (exact (fresh_ok true)).
  destruct (received items) as [b segments]. pose proof (feed_flush b true) as H. cbn [fresh] in H.
  destruct (feed b parser_new) as [lines p]. destruct H as [H1 H2]. rewrite app_assoc, H1, H2.
  destruct segments as [|[err b'] segments]; [done|]. cbn [stream_lines]. do 2 f_equal.
  apply sse_lines_segments.
Qed.

End Reference.
End Sse.
