(* ===== verification/Adapter.v ===== *)
(** * Provider adapters: [adapters/src/sse.rs], [adapters/src/classify.rs], [adapters/src/base.rs]

    What the adapters share: the stream around an adapter's handler and the
    classification of HTTP errors.  [SoundAdapter] is what a handler promises;
    from it follows that its stream is one session of [BlockAccumulator],
    begun by [Start] and closed by one terminal event.  The last part reads the bodies
    of error responses and makes events of their status. *)
From S2P Require Export Sse.
From stdpp Require Import sorting.
Open Scope string_scope.
Open Scope list_scope.

Section Adapter.
Context `{E : Ext}.

(** @src adapters/src/sse.rs:479-486 [SseAction] *)
Inductive SseAction :=
| Continue (events : list AssistantMessageEvent)
| Finish (events : list AssistantMessageEvent)
| Skip.

(** ** The events of a handler

    Handlers push events and update their state. *)
Definition Emit (S A : Type) : Type := S -> (A * list AssistantMessageEvent) * S.

Definition eret {S A} (x : A) : Emit S A := fun s => ((x, []), s).

Definition ebind {S A B} (m : Emit S A) (k : A -> Emit S B) : Emit S B := fun s =>
  let '((x, es), s) := m s in
  let '((y, es'), s) := k x s in ((y, es ++ es'), s).

Definition push {S} (es : list AssistantMessageEvent) : Emit S unit := fun s => ((tt, es), s).
Definition eget {S} : Emit S S := fun s => ((s, []), s).
Definition eput {S} (s : S) : Emit S unit := fun _ => ((tt, []), s).
Definition emodify {S} (f : S -> S) : Emit S unit := fun s => ((tt, []), f s).

Definition events_of_run {S A} (m : Emit S A) (s : S) : list AssistantMessageEvent := snd (fst (m s)).

(** ** The stream around a handler *)

(** [on_item] gets the lines and at their end [None]. *)
Record Adapter (S L : Type) := MkAdapter {
  on_item : option L -> S -> SseAction * S;
  on_cancel : S -> list AssistantMessageEvent;
}.

(** [cancel]: after how many items the cancelled token is noticed.  A handler that
    does not finish at the end of its lines is asked again forever: [None].
    @src adapters/src/sse.rs:538-609 [sse_adapter_stream_with_cancel_finalizer] *)
Fixpoint adapter_events {S L} (A : Adapter S L) (cancel : option nat) (lines : list L) (s : S) :
    option (list AssistantMessageEvent) :=
  match cancel, lines with
  | Some 0, _ => Some (on_cancel _ _ A s)
  | _, [] => match on_item _ _ A None s with (Finish es, _) => Some es | _ => None end
  | _, l :: lines' =>
    let rest := adapter_events A (pred <$> cancel) lines' in
    match on_item _ _ A (Some l) s with
    | (Continue es, s) => (fun es' => es ++ es') <$> rest s
    | (Finish es, _) => Some es
    | (Skip, s) => rest s
    end
  end.

Definition adapter_stream {S L} (A : Adapter S L) (cancel : option nat) (lines : list L) (s : S) :
    option (list AssistantMessageEvent) := cons Start <$> adapter_events A cancel lines s.

(** @src adapters/src/base.rs:182-190 [cancelled_error] *)
Definition cancelled_error (message : string) : AssistantMessageEvent :=
  ErrorEvent Aborted message None None None.

(** @src adapters/src/sse.rs:503-532 [sse_adapter_stream] *)
Definition sse_adapter {S L} (finalize : S -> list AssistantMessageEvent) (cancel_message : string)
    (on_item : option L -> S -> SseAction * S) : Adapter S L :=
  MkAdapter S L on_item (fun s => finalize s ++ [cancelled_error cancel_message]).

(** ** What a handler promises *)

Import Assembly.

(** [es] leads from [a] to [a'] by operations of [BlockAccumulator]. *)
Definition emits (a : BlockAccumulator) (es : list AssistantMessageEvent) (a' : BlockAccumulator) : Prop :=
  exists ops, ops_ok a ops = true /\ run_ops a ops = (es, a').

(** [es] ends the stream: operations, the open blocks closed, [t]. *)
Definition closes (a : BlockAccumulator) (es : list AssistantMessageEvent) (t : AssistantMessageEvent) : Prop :=
  exists mid a', emits a mid a' /\ es = mid ++ fst (finalize_blocks a') ++ [t] /\ is_terminal t = true.

Class SoundAdapter {S L} (A : Adapter S L) := {
  blocks_of : S -> BlockAccumulator;
  adapter_inv : S -> Prop;
  (** what is asked of the provider, in the state its line arrives in *)
  line_ok : S -> L -> Prop;
  sound_line s l : adapter_inv s -> line_ok s l ->
    match on_item _ _ A (Some l) s with
    | (Continue es, s') => emits (blocks_of s) es (blocks_of s') /\ adapter_inv s'
    | (Finish es, _) => exists t, closes (blocks_of s) es t
    | (Skip, s') => emits (blocks_of s) [] (blocks_of s') /\ adapter_inv s'
    end;
  sound_end s : adapter_inv s ->
    exists es s' t, on_item _ _ A None s = (Finish es, s') /\ closes (blocks_of s) es t;
  sound_cancel s : adapter_inv s -> exists t, closes (blocks_of s) (on_cancel _ _ A s) t;
}.

Lemma emits_nil a : emits a [] a.
Proof. by exists []. Qed.

Lemma emits_op a o : op_ok a o = true -> emits a (fst (run_op a o)) (snd (run_op a o)).
Proof.
  intros H. exists [o]. cbn. rewrite H. split; [done|]. destruct (run_op a o). by rewrite app_nil_r.
Qed.

Lemma ops_ok_app a ops ops' :
  ops_ok a (ops ++ ops') = ops_ok a ops && ops_ok (snd (run_ops a ops)) ops'.
Proof.
  revert a. induction ops as [|o ops IH]; intros a; cbn; [done|]. rewrite IH, <- andb_assoc.
  destruct (run_op a o) as [es a1]. cbn. by destruct (run_ops a1 ops).
Qed.

Lemma run_ops_app a ops ops' :
  run_ops a (ops ++ ops')
  = let '(es, a) := run_ops a ops in let '(es', a) := run_ops a ops' in (es ++ es', a).
Proof.
  revert a. induction ops as [|o ops IH]; intros a; cbn; [by destruct (run_ops a ops')|].
  destruct (run_op a o) as [es a1]. rewrite IH. destruct (run_ops a1 ops) as [es1 a2].
  destruct (run_ops a2 ops') as [es2 a3]. by rewrite app_assoc.
Qed.

Lemma emits_app a es a1 es' a2 : emits a es a1 -> emits a1 es' a2 -> emits a (es ++ es') a2.
Proof.
  intros (ops & Hok & Hr) (ops' & Hok' & Hr'). exists (ops ++ ops').
  by rewrite ops_ok_app, run_ops_app, Hr, Hok, Hr'.
Qed.

Lemma emits_finalize a : emits a (fst (finalize_blocks a)) (snd (finalize_blocks a)).
Proof.
  destruct (finalize_as_ops a) as [l Hl]. exists (map close_op l). split; [apply close_ops_ok|].
  rewrite Hl. by destruct (finalize_blocks a).
Qed.

Lemma finalize_twice a : fst (finalize_blocks (snd (finalize_blocks a))) = [].
Proof. by rewrite finalize_drained. Qed.

Lemma closes_app a es a' es' t : emits a es a' -> closes a' es' t -> closes a (es ++ es') t.
Proof.
  intros He (mid & a2 & Hm & -> & Ht). exists (es ++ mid), a2.
  split; [by eapply emits_app|]. by rewrite app_assoc.
Qed.

Lemma closes_now a t : is_terminal t = true -> closes a (fst (finalize_blocks a) ++ [t]) t.
Proof. exists [], a. split; [apply emits_nil|done]. Qed.

(** The blocks may have been closed already. *)
Lemma closes_finalized a es a' t :
  emits a es a' -> is_terminal t = true -> closes a (es ++ fst (finalize_blocks a') ++ [t]) t.
Proof. intros He Ht. exact (closes_app _ _ _ _ _ He (closes_now a' t Ht)). Qed.

(** Lines are fine in the state they arrive in, as long as the stream goes on. *)
Fixpoint lines_ok {S L} (A : Adapter S L) {sound : SoundAdapter A} (lines : list L) (s : S) : Prop :=
  match lines with
  | [] => True
  | l :: lines' =>
    line_ok s l
    /\ match on_item _ _ A (Some l) s with (Finish _, _) => True | (_, s') => lines_ok A lines' s' end
  end.

Lemma adapter_events_line {S L} (A : Adapter S L) cancel l lines s :
  cancel <> Some 0 ->
  adapter_events A cancel (l :: lines) s
  = let rest := adapter_events A (pred <$> cancel) lines in
    match on_item _ _ A (Some l) s with
    | (Continue es, s) => (fun es' => es ++ es') <$> rest s
    | (Finish es, _) => Some es
    | (Skip, s) => rest s
    end.
Proof. by destruct cancel as [[|n]|]. Qed.

Lemma adapter_events_close {S L} (A : Adapter S L) {sound : SoundAdapter A} cancel lines s :
  adapter_inv s -> lines_ok A lines s ->
  exists es t, adapter_events A cancel lines s = Some es /\ closes (blocks_of s) es t.
Proof.
  revert cancel s. induction lines as [|l lines IH]; intros cancel s Hs Hl;
    (destruct (decide (cancel = Some 0)) as [->|Hc]; [destruct (sound_cancel s Hs) as [t Ht]; by eauto|]).
  - destruct (sound_end s Hs) as (es & s' & t & He & Ht). exists es, t. split; [|done].
    destruct cancel as [[|n]|]; cbn; by rewrite ?He.
  - rewrite adapter_events_line by done. destruct Hl as [Hl Hls]. pose proof (sound_line s l Hs Hl) as H.
    cbn zeta. destruct (on_item _ _ A (Some l) s) as [[es|es|] s'].
    + destruct H as [He Hs']. destruct (IH (pred <$> cancel) s' Hs' Hls) as (es' & t & -> & Ht).
      exists (es ++ es'), t. split; [done|by eapply closes_app].
    + destruct H as [t Ht]. eauto.
    + destruct H as [He Hs']. destruct (IH (pred <$> cancel) s' Hs' Hls) as (es' & t & -> & Ht).
      exists es', t. split; [done|]. exact (closes_app _ [] _ _ _ He Ht).
Qed.

(** The stream of a sound adapter is a session closed by one terminal event. *)
Lemma adapter_session {S L} (A : Adapter S L) {sound : SoundAdapter A} cancel lines s :
  adapter_inv s -> blocks_of s = new -> lines_ok A lines s ->
  exists ops t, ops_ok new ops = true /\ is_terminal t = true
    /\ adapter_stream A cancel lines s = Some (session_with ops t).
Proof.
  intros Hs Hb Hl. destruct (adapter_events_close A cancel lines s Hs Hl) as (es & t & He & Ht).
  rewrite Hb in Ht. destruct Ht as (mid & a & (ops & Hok & Hr) & -> & Ht).
  exists ops, t. split; [done|]. split; [done|]. unfold adapter_stream, session_with.
  by rewrite He, Hr, <- app_assoc.
Qed.

(** ** The text of a stream that completes *)

Definition is_error_event (t : AssistantMessageEvent) : bool :=
  match t with ErrorEvent _ _ _ _ _ => true | _ => false end.

(** [line_texts]: what a line says; [last_line]: it may complete the message. *)
Class TextAdapter {S L} (A : Adapter S L) {sound : SoundAdapter A} := {
  line_texts : L -> list string;
  last_line : L -> bool;
  text_line s l : adapter_inv s -> line_ok s l ->
    match on_item _ _ A (Some l) s with
    | (Continue es, _) => text_chunks es = line_texts l
    | (Finish es, _) =>
      forall mid t, es = mid ++ [t] -> is_error_event t = true \/ last_line l = true /\ text_chunks es = []
    | (Skip, _) => line_texts l = []
    end;
  text_end s es s' mid t : adapter_inv s -> on_item _ _ A None s = (Finish es, s') -> es = mid ++ [t] ->
    is_error_event t = true;
  text_cancel s mid t : adapter_inv s -> on_cancel _ _ A s = mid ++ [t] -> is_error_event t = true;
}.

Lemma closes_last a es t mid t' : closes a es t -> es = mid ++ [t'] -> t' = t.
Proof.
  intros (mid' & a' & _ & -> & _) H. rewrite app_assoc in H. by apply app_inj_tail in H as [_ ->].
Qed.

Lemma closes_nonempty a es t : closes a es t -> exists mid, es = mid ++ [t].
Proof. intros (mid & a' & _ & -> & _). rewrite app_assoc. by eexists. Qed.

(** A stream that ends without an error said what its lines said, up to one that
    may complete the message. *)
Lemma adapter_texts {S L} (A : Adapter S L) {sound : SoundAdapter A} {text : TextAdapter A} cancel lines s es mid t :
  adapter_inv s -> lines_ok A lines s -> adapter_events A cancel lines s = Some es ->
  es = mid ++ [t] -> is_error_event t = false ->
  exists before l after, lines = before ++ l :: after /\ last_line l = true
    /\ text_chunks es = concat (map line_texts before).
Proof.
  revert cancel s es mid. induction lines as [|l lines IH]; intros cancel s es mid Hs Hl;
    (destruct (decide (cancel = Some 0)) as [->|Hc];
     [intros [= <-] H Ht; rewrite (text_cancel s mid t Hs H) in Ht; done|]).
  - intros He Hes Ht. destruct (sound_end s Hs) as (es' & s' & t' & Hi & _).
    assert (Some es' = Some es) as [= ->].
    { rewrite <- He. destruct cancel as [[|n]|]; cbn in *; by rewrite ?Hi. }
    by rewrite (text_end s es s' mid t Hs Hi Hes) in Ht.
  - rewrite adapter_events_line by done. cbn zeta. destruct Hl as [Hl Hls].
    pose proof (text_line s l Hs Hl) as Htx. pose proof (sound_line s l Hs Hl) as H.
    destruct (on_item _ _ A (Some l) s) as [[es1|es1|] s1].
    + destruct H as [_ Hs1].
      destruct (adapter_events_close A (pred <$> cancel) lines s1 Hs1 Hls) as (es2 & t2 & Hev & Hc2).
      rewrite Hev. cbn. intros [= <-] Hes Ht. destruct (closes_nonempty _ _ _ Hc2) as [mid2 ->].
      rewrite app_assoc in Hes. apply app_inj_tail in Hes as [_ ->].
      destruct (IH _ s1 _ mid2 Hs1 Hls Hev eq_refl Ht) as (before & l' & after & -> & Hlast & Htext).
      exists (l :: before), l', after. split; [done|]. split; [done|].
      by rewrite text_chunks_app, Htx, Htext.
    + intros [= ->] Hes Ht. destruct (Htx mid t Hes) as [?|[Hlast Htext]]; [congruence|].
      by exists [], l, lines.
    + destruct H as [_ Hs1]. intros He Hes Ht.
      destruct (IH _ s1 _ mid Hs1 Hls He Hes Ht) as (before & l' & after & -> & Hlast & Htext).
      exists (l :: before), l', after. split; [done|]. split; [done|]. cbn. by rewrite Htx, Htext.
Qed.

(** Sound adapters implement the streaming contract. *)
Lemma adapter_contract {S L} (A : Adapter S L) {sound : SoundAdapter A} {text : TextAdapter A} cancel lines s
    now provider model :
  adapter_inv s -> blocks_of s = new -> lines_ok A lines s ->
  exists es, adapter_stream A cancel lines s = Some es
    /\ match accumulate_message now es provider model with
       | Err e => exists e', e = parse_error e'
       | Ok m =>
         am_error_message m = None ->
         exists before l after, lines = before ++ l :: after /\ last_line l = true
           /\ extract_text (am_content m) = concat_text (concat (map line_texts before))
       end.
Proof.
  intros Hs Hb Hl. destruct (adapter_session A cancel lines s Hs Hb Hl) as (ops & t & Hok & Ht & Hes).
  exists (session_with ops t). split; [done|].
  pose proof (session_with_accumulates now ops t provider model Hok Ht) as H.
  destruct (accumulate_message _ _ _ _) as [m|e]; [|apply H]. destruct H as (_ & Htx & Hf).
  intros Hm. unfold adapter_stream in Hes. destruct (adapter_events _ _ _ _) as [es|] eqn:Hev; [|done].
  cbn in Hes. injection Hes as Hes. unfold session_with in Hes.
  destruct (run_ops new ops) as [ops_es a] eqn:Hr. cbn [fst snd] in *.
  assert (Herr : is_error_event t = false).
  { destruct t; try done. cbn in Hf. congruence. }
  injection Hes as ->.
  destruct (adapter_texts A cancel lines s _ _ t Hs Hl Hev eq_refl Herr) as (before & l & after & -> & Hlast & Htexts).
  exists before, l, after. split; [done|]. split; [done|]. rewrite Htx, <- Htexts, !text_chunks_app.
  assert (text_chunks (map end_event (map snd (merge_sort key_le (drain_entries a)))) = []) as ->
    by exact (finalize_no_text a).
  f_equal. rewrite app_nil_r. destruct t; cbn; by rewrite ?app_nil_r.
Qed.

(** ** What a stream that completes was made of

    [R ls es s]: the lines read so far, the events they gave and the state;
    [Final ls es]: so it may end well. *)
Section Follow.
Context {S L : Type} (A : Adapter S L) {sound : SoundAdapter A}.
Context (R : list L -> list AssistantMessageEvent -> S -> Prop) (Final : list L -> list AssistantMessageEvent -> Prop).

Definition ends_well (es : list AssistantMessageEvent) : Prop := exists mid t, es = mid ++ [t] /\ is_error_event t = false.

Hypothesis follow_line : forall ls es s l, R ls es s -> adapter_inv s -> line_ok s l ->
  match on_item _ _ A (Some l) s with
  | (Continue es', s') => R (ls ++ [l]) (es ++ es') s'
  | (Finish es', _) => ends_well es' -> Final (ls ++ [l]) (es ++ es')
  | (Skip, s') => R (ls ++ [l]) es s'
  end.
Hypothesis follow_end : forall ls es s es' s', R ls es s -> adapter_inv s ->
  on_item _ _ A None s = (Finish es', s') -> ends_well es' -> Final ls (es ++ es').
Hypothesis follow_cancel : forall s, adapter_inv s -> ~ ends_well (on_cancel _ _ A s).

Lemma closes_ends_well a es es' t : closes a es' t -> ends_well (es ++ es') -> ends_well es'.
Proof.
  intros Hc (mid & t' & Hes & Ht). destruct (closes_nonempty _ _ _ Hc) as [mid' ->].
  rewrite app_assoc in Hes. apply app_inj_tail in Hes as [_ ->]. by exists mid', t'.
Qed.

Lemma adapter_follow cancel lines ls0 es0 s es :
  R ls0 es0 s -> adapter_inv s -> lines_ok A lines s -> adapter_events A cancel lines s = Some es -> ends_well es ->
  exists before after, lines = before ++ after /\ Final (ls0 ++ before) (es0 ++ es).
Proof using follow_line follow_end follow_cancel.
  revert cancel ls0 es0 s es. induction lines as [|l lines IH]; intros cancel ls0 es0 s es HR Hs Hl;
    (destruct (decide (cancel = Some 0)) as [->|Hc]; [intros [= <-] H; by destruct (follow_cancel s Hs)|]).
  - intros He Hes. destruct (sound_end s Hs) as (es' & s' & t' & Hi & _).
    assert (Some es' = Some es) as [= ->].
    { rewrite <- He. destruct cancel as [[|n]|]; cbn in *; by rewrite ?Hi. }
    exists [], []. split; [done|]. rewrite app_nil_r. by eapply follow_end.
  - rewrite adapter_events_line by done. cbn zeta. destruct Hl as [Hl Hls].
    pose proof (follow_line ls0 es0 s l HR Hs Hl) as Hf. pose proof (sound_line s l Hs Hl) as H.
    destruct (on_item _ _ A (Some l) s) as [[es1|es1|] s1].
    + destruct H as [_ Hs1].
      destruct (adapter_events_close A (pred <$> cancel) lines s1 Hs1 Hls) as (es2 & t2 & Hev & Hc2).
      rewrite Hev. cbn. intros [= <-] Hes. pose proof (closes_ends_well _ _ _ _ Hc2 Hes) as Hes2.
      destruct (IH _ _ _ s1 es2 Hf Hs1 Hls Hev Hes2) as (before & after & -> & HF).
      exists (l :: before), after. split; [done|]. by rewrite <- !app_assoc in HF.
    + intros [= ->] Hes. exists [l], lines. split; [done|]. by apply Hf.
    + destruct H as [_ Hs1]. intros He Hes. destruct (IH _ _ _ s1 es Hf Hs1 Hls He Hes) as (before & after & -> & HF).
      exists (l :: before), after. split; [done|]. by rewrite <- app_assoc in HF.
Qed.

Lemma adapter_reads cancel lines s now provider model :
  R [] [] s -> adapter_inv s -> blocks_of s = new -> lines_ok A lines s ->
  exists es, adapter_stream A cancel lines s = Some es
    /\ match accumulate_message now es provider model with
       | Err e => exists e', e = parse_error e'
       | Ok m =>
         am_error_message m = None ->
         exists before after events sr c, lines = before ++ after /\ es = Start :: events ++ [Done sr (am_usage m) c]
           /\ Final before (events ++ [Done sr (am_usage m) c]) /\ am_stop_reason m = sr
           /\ extract_text (am_content m) = concat_text (text_chunks events)
       end.
Proof using follow_line follow_end follow_cancel.
  intros HR Hs Hb Hl. destruct (adapter_session A cancel lines s Hs Hb Hl) as (ops & t & Hok & Ht & Hes).
  exists (session_with ops t). split; [done|].
  pose proof (session_with_accumulates now ops t provider model Hok Ht) as H.
  destruct (accumulate_message _ _ _ _) as [m|e]; [|apply H]. destruct H as (_ & Htx & Hf).
  intros Hm. unfold adapter_stream in Hes. destruct (adapter_events _ _ _ _) as [es|] eqn:Hev; [|done].
  cbn in Hes. injection Hes as Hes. unfold session_with in Hes.
  destruct (run_ops new ops) as [ops_es a] eqn:Hr. cbn [fst snd] in *. injection Hes as ->.
  destruct t as [| | | | | | | | | |sr u c|sr em u ek ra]; try done; cbn in Hf; [|congruence].
  destruct (adapter_follow cancel lines [] [] s _ HR Hs Hl Hev) as (before & after & -> & HF); [by do 2 eexists|].
  cbn [app] in HF. injection Hf as Hsr Hu _ _ _. subst. do 5 eexists. split; [done|]. split; [unfold session_with; by rewrite Hr|]. split; [exact HF|]. split; [done|].
  rewrite Htx, text_chunks_app.
  assert (text_chunks (map end_event (map snd (merge_sort key_le (drain_entries a)))) = []) as Hn by exact (finalize_no_text a).
  f_equal. transitivity (text_chunks ops_es ++ []); [by rewrite app_nil_r|]. f_equal. symmetry. exact Hn.
Qed.

End Follow.

End Adapter.

Arguments on_item {_ _} _ _ _.
Arguments on_cancel {_ _} _ _.

(** Sequencing of handlers. *)
Notation "x '<~' m ';;' k" := (ebind m (fun x => k))
  (at level 100, m at next level, right associativity) : agent_scope.
Notation "m ';;~' k" := (ebind m (fun _ => k))
  (at level 100, right associativity) : agent_scope.

(** ** Following a handler

    A program logic for the handlers of the adapters: the events a handler
    pushes are operations of its [BlockAccumulator], and what they say is
    followed through the handler's steps. *)
Open Scope string_scope.
Open Scope list_scope.
Open Scope agent_scope.

Import Assembly.

Section Tracks.
Context `{E : Ext} {S : Type} {blk : S -> BlockAccumulator}.
#[local] Abbreviation M := (Emit S).

(** From a state in [I] the handler's events are block operations, and [Q] holds of
    its result, the text it emitted and the state. *)
Definition tracks {A} (I : S -> Prop) (m : M A) (Q : A -> list string -> S -> Prop) : Prop :=
  forall s, I s ->
  let '((x, es), s') := m s in emits (blk s) es (blk s') /\ Q x (text_chunks es) s'.

Lemma tracks_ret {A} (I : S -> Prop) (x : A) Q :
  (forall s, I s -> Q x [] s) -> tracks I (eret x) Q.
Proof. intros H s Hs. cbn. split; [apply emits_nil|by apply H]. Qed.

Lemma tracks_bind {A B} I (m : M A) Q (k : A -> M B) R :
  tracks I m Q ->
  (forall x t, tracks (Q x t) (k x) (fun y t' s => R y (t ++ t') s)) ->
  tracks I (ebind m k) R.
Proof.
  intros Hm Hk s Hs. unfold ebind. specialize (Hm s Hs). destruct (m s) as [[x es] s1].
  destruct Hm as [He HQ]. specialize (Hk x _ s1 HQ). destruct (k x s1) as [[y es'] s2].
  destruct Hk as [He' HR]. rewrite text_chunks_app. split; [by eapply emits_app|done].
Qed.

Lemma tracks_get I Q : (forall s, I s -> Q s [] s) -> tracks I eget Q.
Proof. intros H s Hs. cbn. split; [apply emits_nil|by apply H]. Qed.

(** Reading the state binds it. *)
Lemma tracks_read {B} I (k : S -> M B) R :
  (forall s, I s -> tracks (eq s) (k s) R) -> tracks I (ebind eget k) R.
Proof.
  intros H s Hs. unfold ebind, eget. specialize (H s Hs s eq_refl).
  destruct (k s s) as [[y es] s']. exact H.
Qed.

Lemma tracks_modify I f Q :
  (forall s, I s -> blk (f s) = blk s /\ Q tt [] (f s)) -> tracks I (emodify f) Q.
Proof. intros H s Hs. cbn. destruct (H s Hs) as [-> HQ]. split; [apply emits_nil|done]. Qed.

Lemma tracks_conseq {A} (I I' : S -> Prop) (m : M A) Q Q' :
  tracks I m Q -> (forall s, I' s -> I s) -> (forall x t s, Q x t s -> Q' x t s) -> tracks I' m Q'.
Proof.
  intros H HI HQ s Hs. specialize (H s (HI s Hs)). destruct (m s) as [[x es] s'].
  destruct H as [? H]. split; [done|by apply HQ].
Qed.

(** In sequence, the text of the first part known. *)
Lemma tracks_seq {A B} I (m : M A) texts Q (k : A -> M B) R :
  tracks I m (fun x t s => t = texts /\ Q x s) ->
  (forall x, tracks (Q x) (k x) (fun y t s => R y (texts ++ t) s)) ->
  tracks I (ebind m k) R.
Proof.
  intros Hm Hk. eapply tracks_bind; [exact Hm|]. intros x t s [-> Hs]. exact (Hk x s Hs).
Qed.

(** A fact about no state. *)
Lemma tracks_pure {A} (P : Prop) I (m : M A) Q : (P -> tracks I m Q) -> tracks (fun s => P /\ I s) m Q.
Proof. intros H s [HP Hs]. by apply H. Qed.

Lemma tracks_put {B} I s' (k : unit -> M B) R :
  (forall s, I s -> blk s' = blk s) -> tracks (eq s') (k tt) R -> tracks I (ebind (eput s') k) R.
Proof.
  intros Hb Hk s Hs. unfold ebind, eput. specialize (Hk s' eq_refl). rewrite (Hb s Hs) in Hk.
  destruct (k tt s') as [[y es'] s2]. exact Hk.
Qed.

End Tracks.

Arguments tracks {S} blk {A} I m Q.

(** ** Operations of the accumulator in a state

    [blk] and [put] are the accumulator's place in the state; [I] is an invariant
    that only asks of the accumulator that its tool calls stay open and its counter
    grows. *)
Section Lens.
Context `{E : Ext} {S : Type} (blk : S -> BlockAccumulator) (put : BlockAccumulator -> S -> S).

(** An operation of the accumulator, its event pushed. *)
Definition block_op (f : BlockAccumulator -> option AssistantMessageEvent * BlockAccumulator) : Emit S unit :=
  fun s => let '(e, b) := f (blk s) in ((tt, option_list e), put b s).

(** The open blocks closed. *)
Definition close_blocks : Emit S unit :=
  fun s => let '(es, b) := finalize_blocks (blk s) in ((tt, es), put b s).

Hypothesis blk_put : forall b s, blk (put b s) = b.
Context (I : S -> Prop).
Hypothesis I_put : forall b s, I s -> open_tool_calls b = open_tool_calls (blk s) ->
  next_index (blk s) <= next_index b -> I (put b s).

Definition tells {A} (texts : list string) (x : A) (t : list string) (s : S) : Prop := t = texts /\ I s.

Lemma run_op_next a o : next_index a <= next_index (snd (run_op a o)).
Proof.
  destruct o, a as [n [tx|] [[th ?]|] tc]; cbn; try lia; unfold close_tool_call; cbn; destruct (position _ _); cbn; lia.
Qed.

Lemma block_op_tells f texts :
  (forall b, exists o, op_ok b o = true /\ run_op b o = (option_list (fst (f b)), snd (f b))) ->
  (forall b, open_tool_calls (snd (f b)) = open_tool_calls b /\ text_chunks (option_list (fst (f b))) = texts) ->
  tracks blk I (block_op f) (tells texts).
Proof using blk_put I_put.
  intros Ho Hf s Hs. unfold block_op. destruct (Ho (blk s)) as (o & Hok & Hr).
  destruct (Hf (blk s)) as [Hopen Htexts]. pose proof (emits_op _ o Hok) as He. rewrite Hr in He.
  pose proof (run_op_next (blk s) o) as Hn. rewrite Hr in Hn.
  destruct (f (blk s)) as [e b]. cbn [fst snd] in *. rewrite blk_put. split; [done|]. split; [done|].
  by apply I_put.
Qed.

Lemma ensure_thinking_tells : tracks blk I (block_op ensure_thinking_open) (tells []).
Proof using blk_put I_put.
  apply block_op_tells; [intros b; by exists OpEnsureThinking|]. intros [n tx [[]|] tc]; done.
Qed.

Lemma thinking_delta_tells d : tracks blk I (block_op (fun b => (thinking_delta b d, b))) (tells []).
Proof using blk_put I_put.
  apply block_op_tells; [intros b; by exists (OpThinkingDelta d)|]. intros [n tx [[]|] tc]; done.
Qed.

Lemma set_signature_tells sg : tracks blk I (block_op (fun b => (None, set_thinking_signature b sg))) (tells []).
Proof using blk_put I_put.
  apply block_op_tells; [intros b; by exists (OpSetSignature sg)|]. intros [n tx [[]|] tc]; done.
Qed.

Lemma close_thinking_tells : tracks blk I (block_op (fun b => close_thinking b None)) (tells []).
Proof using blk_put I_put.
  apply block_op_tells; [intros b; by exists (OpCloseThinking None)|]. intros [n tx [[]|] tc]; done.
Qed.

Lemma close_text_tells : tracks blk I (block_op close_text) (tells []).
Proof using blk_put I_put.
  apply block_op_tells; [intros b; by exists OpCloseText|]. intros [n [|] th tc]; done.
Qed.

Lemma ensure_text_tells : tracks blk I (block_op ensure_text_open) (tells []).
Proof using blk_put I_put.
  apply block_op_tells; [intros b; by exists OpEnsureText|]. intros [n [|] th tc]; done.
Qed.

(** A text delta finds the block open. *)
Lemma text_tells d :
  tracks blk I (block_op ensure_text_open ;;~ block_op (fun b => (text_delta b d, b))) (tells [d]).
Proof using blk_put I_put.
  intros s Hs. unfold ebind, block_op. destruct (blk s) as [n tx th tc] eqn:Hb.
  assert (forall b, open_tool_calls b = tc -> n <= next_index b -> I (put b s)) as HI.
  { intros b Hb' Hn. apply I_put; [done|by rewrite Hb, Hb'|by rewrite Hb]. }
  destruct tx as [i|]; cbn; rewrite !blk_put; cbn; (split; [by exists [OpEnsureText; OpTextDelta d]|]);
    (split; [done|]); apply I_put; rewrite ?blk_put; cbn; auto; apply HI; cbn; auto.
Qed.

End Lens.

Lemma text_chunks_terminal t : is_terminal t = true -> text_chunks [t] = [].
Proof. by destruct t. Qed.

(** Events of a handler, the open blocks closed, one event more. *)
Lemma closes_after `{E : Ext} a es a' t :
  emits a es a' -> is_terminal t = true ->
  closes a (es ++ fst (finalize_blocks a') ++ [t]) t
  /\ text_chunks (es ++ fst (finalize_blocks a') ++ [t]) = text_chunks es.
Proof.
  intros He Ht. split; [by apply closes_finalized|].
  by rewrite !text_chunks_app, finalize_no_text, text_chunks_terminal, app_nil_r.
Qed.

(** ** HTTP errors of providers: [adapters/src/classify.rs], [adapters/src/base.rs]

    From a status code and a body to the terminal event the loop classifies. *)
Open Scope string_scope.
Open Scope list_scope.

Section HttpErrors.
Context `{E : Ext}.

(** @src adapters/src/classify.rs:27-34 [HttpErrorKind] *)
Inductive HttpErrorKind := HttpAuth | HttpThrottled | HttpNetwork.

(** @src adapters/src/classify.rs:42-49 [classify_http_status] *)
Definition classify_http_status (code : N) : option HttpErrorKind :=
  if ((code =? 401) || (code =? 403))%N then Some HttpAuth
  else if (code =? 429)%N then Some HttpThrottled
  else if ((code =? 408) || ((500 <=? code) && (code <=? 599)))%N then Some HttpNetwork
  else None.

(** @src adapters/src/classify.rs:55-65 [classify_with_overrides] *)
Fixpoint classify_with_overrides (code : N) (overrides : list (N * HttpErrorKind)) : option HttpErrorKind :=
  match overrides with
  | [] => classify_http_status code
  | (override_code, kind) :: overrides' =>
    if (code =? override_code)%N then Some kind else classify_with_overrides code overrides'
  end.

Definition overflow_patterns : list string :=
  ["prompt is too long"; "exceed context limit"; "input is too long"; "too many input tokens";
   "maximum context length"; "context_length_exceeded"; "context length exceeded";
   "exceeds the context window"; "exceeds the maximum number of tokens"; "too large for model";
   "maximum prompt length"].

(** @src adapters/src/classify.rs:79-106 [is_context_overflow_message] *)
Definition is_context_overflow_message (message : string) : bool :=
  existsb (contains (to_lowercase message)) overflow_patterns.

(** @src adapters/src/classify.rs:121-137 [is_model_retired_response] *)
Definition is_model_retired_response (status : N) (body : string) : bool :=
  if negb ((status =? 400) || (status =? 404) || (status =? 410))%N then false
  else
    let body := string_map ascii_lower body in
    if contains body "model_not_found" || contains body "model_decommissioned" then true
    else contains body "model"
         && existsb (contains body)
              ["decommission"; "deprecated"; "deprecation"; "retired"; "no longer supported"; "not found";
               "does not exist"].

(** @src adapters/src/classify.rs:200-236 [error_event_from_status_with_overrides] *)
Definition error_event_from_status_with_overrides (status : N) (body provider : string)
    (overrides : list (N * HttpErrorKind)) : AssistantMessageEvent :=
  let http := (" (HTTP " ++ pretty status ++ "): " ++ body)%string in
  match classify_with_overrides status overrides with
  | Some HttpAuth => event_error_auth (provider ++ " auth error" ++ http)%string
  | Some HttpThrottled => event_error_throttled (provider ++ " rate limit" ++ http)%string
  | Some HttpNetwork => event_error_network (provider ++ " server error" ++ http)%string
  | None =>
    if is_model_retired_response status body
    then event_error_model_retired (provider ++ " model retired or unavailable" ++ http)%string
    else if ((400 <=? status) && (status <? 500))%N
    then event_error (provider ++ " client error" ++ http)%string
    else event_error (provider ++ " HTTP " ++ pretty status ++ ": " ++ body)%string
  end.

(** @src adapters/src/classify.rs:184-186 [error_event_from_status] *)
Definition error_event_from_status (status : N) (body provider : string) : AssistantMessageEvent :=
  error_event_from_status_with_overrides status body provider [].

(** @src adapters/src/classify.rs:246-266 [with_retry_after] *)
Definition with_retry_after (event : AssistantMessageEvent) (retry_after : option Duration) :
    AssistantMessageEvent :=
  match event with
  | ErrorEvent stop_reason error_message usage error_kind _ =>
    ErrorEvent stop_reason error_message usage error_kind retry_after
  | other => other
  end.

(** @src adapters/src/base.rs:174-178 [pre_stream_error] *)
Definition pre_stream_error (event : AssistantMessageEvent) : list AssistantMessageEvent := [Start; event].

(** @src adapters/src/base.rs:15-15 [MAX_ERROR_BODY_BYTES] *)
Definition MAX_ERROR_BODY_BYTES : N := 65536.

Definition byte_length (s : string) : N := N.of_nat (String.length s).

(** The chunks of an error body until the body ends or breaks off, and whether it
    was cut; [cancel]: after how many chunks the token is found cancelled.
    @src adapters/src/base.rs:299-326 [read_error_body_or_cancelled, loop] *)
Fixpoint read_error_chunks (cancel : option nat) (chunks : list string) (bytes : string) :
    option (string * bool) :=
  match cancel, chunks with
  | Some 0, _ => None
  | _, [] => Some (bytes, false)
  | _, chunk :: chunks' =>
    let remaining := (MAX_ERROR_BODY_BYTES - byte_length bytes)%N in
    if (remaining =? 0)%N then Some (bytes, true)
    else
      let kept := N.to_nat (N.min remaining (byte_length chunk)) in
      let bytes := (bytes ++ String.substring 0 kept chunk)%string in
      if (remaining <? byte_length chunk)%N then Some (bytes, true)
      else read_error_chunks (pred <$> cancel) chunks' bytes
  end.

(** @src adapters/src/base.rs:291-333 [read_error_body_or_cancelled] *)
Definition read_error_body_or_cancelled (cancel : option nat) (cancelled_message : string) (chunks : list string) :
    result string AssistantMessageEvent :=
  match read_error_chunks cancel chunks "" with
  | None => Err (cancelled_error cancelled_message)
  | Some (bytes, truncated) =>
    let body := from_utf8_lossy bytes in
    Ok (if truncated then (body ++ "...[truncated]")%string else body)
  end.

Lemma byte_length_app s t : byte_length (s ++ t) = (byte_length s + byte_length t)%N.
Proof. unfold byte_length. rewrite <- Nat2N.inj_add. f_equal. apply string_app_length. Qed.

Lemma byte_length_substring n s : (byte_length (String.substring 0 n s) <= N.of_nat n)%N.
Proof.
  unfold byte_length. enough (String.length (String.substring 0 n s) <= n) by lia.
  revert s. induction n as [|n IH]; intros [|a s]; cbn; try lia. specialize (IH s). lia.
Qed.

Lemma substring_0 n s : String.length s <= n -> String.substring 0 n s = s.
Proof.
  revert n. induction s as [|a s IH]; intros [|n] Hn; cbn in *; try done; [lia|]. rewrite IH by lia. done.
Qed.

Lemma substring_0_app n s t :
  String.length s <= n -> String.substring 0 n (s ++ t) = (s ++ String.substring 0 (n - String.length s) t)%string.
Proof.
  revert n. induction s as [|a s IH]; intros n Hn; [by rewrite !string_app_nil_l, Nat.sub_0_r|].
  destruct n as [|n]; cbn in Hn; [lia|]. rewrite !string_app_cons. cbn. rewrite IH by lia. done.
Qed.

(** What is kept of a body, and whether it was cut. *)
Definition kept_body (whole : string) : string * bool :=
  if (byte_length whole <=? MAX_ERROR_BODY_BYTES)%N then (whole, false)
  else (String.substring 0 (N.to_nat MAX_ERROR_BODY_BYTES) whole, true).

Lemma byte_length_nonempty s : s <> "" -> (1 <= byte_length s)%N.
Proof. destruct s; [done|]. unfold byte_length. cbn. lia. Qed.

Lemma kept_body_app bytes rest :
  (byte_length bytes <= MAX_ERROR_BODY_BYTES)%N ->
  (MAX_ERROR_BODY_BYTES < byte_length bytes + byte_length rest)%N ->
  kept_body (bytes ++ rest)%string
  = ((bytes ++ String.substring 0 (N.to_nat (MAX_ERROR_BODY_BYTES - byte_length bytes)) rest)%string, true).
Proof.
  intros Hb Hr. unfold kept_body. rewrite byte_length_app. destruct (N.leb_spec (byte_length bytes + byte_length rest) MAX_ERROR_BODY_BYTES); [lia|].
  rewrite substring_0_app by (unfold byte_length in Hb; lia).
  do 3 f_equal. unfold byte_length. lia.
Qed.

Lemma substring_0_short n s t :
  n <= String.length s -> String.substring 0 n (s ++ t) = String.substring 0 n s.
Proof.
  revert n. induction s as [|a s IH]; intros [|n] Hn; cbn in Hn; rewrite ?string_app_cons; cbn; try done; try lia.
  - by destruct (_ ++ _)%string.
  - rewrite IH by lia. done.
Qed.

Lemma read_error_chunks_spec chunks bytes :
  (byte_length bytes <= MAX_ERROR_BODY_BYTES)%N -> Forall (fun c => c <> "") chunks ->
  read_error_chunks None chunks bytes = Some (kept_body (bytes ++ concat_text chunks)%string).
Proof.
  intros Hb Hc. revert bytes Hb. induction Hc as [|chunk chunks Hne Hc IH]; intros bytes Hb; cbn [read_error_chunks].
  { rewrite string_app_nil_r. unfold kept_body. destruct (N.leb_spec (byte_length bytes) MAX_ERROR_BODY_BYTES); [done|lia]. }
  rewrite (Assembly.concat_text_app [chunk] chunks : concat_text (chunk :: chunks) = (chunk ++ concat_text chunks)%string).
  assert (Hlen := byte_length_app chunk (concat_text chunks)). apply byte_length_nonempty in Hne.
  destruct (N.eqb_spec (MAX_ERROR_BODY_BYTES - byte_length bytes) 0) as [H0|H0].
  { rewrite kept_body_app by lia. rewrite H0. cbn.
    destruct (chunk ++ concat_text chunks)%string; cbn; by rewrite string_app_nil_r. }
  destruct (N.ltb_spec (MAX_ERROR_BODY_BYTES - byte_length bytes) (byte_length chunk)) as [Hlt|Hge].
  - rewrite kept_body_app by lia. rewrite N.min_l by lia. rewrite substring_0_short by (unfold byte_length in *; lia). done.
  - rewrite N.min_r by lia. cbn [fmap option_fmap option_map].
    assert (Hs : String.substring 0 (N.to_nat (byte_length chunk)) chunk = chunk)
      by (apply substring_0; unfold byte_length; lia).
    rewrite Hs, IH by (rewrite byte_length_app; lia). by rewrite string_app_assoc.
Qed.

Lemma read_error_chunks_cancel cancel chunks bytes :
  read_error_chunks cancel chunks bytes = None
  \/ read_error_chunks cancel chunks bytes = read_error_chunks None chunks bytes.
Proof.
  revert cancel bytes. induction chunks as [|chunk chunks IH]; intros [[|n]|] bytes; auto.
  cbn [read_error_chunks fmap option_fmap option_map pred].
  destruct (_ =? _)%N; [by right|]. destruct (_ <? _)%N; [by right|]. apply IH.
Qed.

Lemma read_error_chunks_total chunks bytes : is_Some (read_error_chunks None chunks bytes).
Proof.
  revert bytes. induction chunks as [|chunk chunks IH]; intros bytes; cbn [read_error_chunks]; [done|].
  destruct (_ =? _)%N; [done|]. destruct (_ <? _)%N; [done|]. apply IH.
Qed.

(** An error body is kept to its limit. *)
Lemma read_error_chunks_bounded chunks bytes r :
  (byte_length bytes <= MAX_ERROR_BODY_BYTES)%N ->
  read_error_chunks None chunks bytes = Some r -> (byte_length (fst r) <= MAX_ERROR_BODY_BYTES)%N.
Proof.
  revert bytes. induction chunks as [|chunk chunks IH]; intros bytes Hb; cbn [read_error_chunks]; [by intros [= <-]|].
  destruct (_ =? _)%N; [by intros [= <-]|].
  pose proof (byte_length_substring
    (N.to_nat (N.min (MAX_ERROR_BODY_BYTES - byte_length bytes) (byte_length chunk))) chunk) as Hsub.
  destruct (_ <? _)%N.
  - intros [= <-]. cbn [fst]. rewrite byte_length_app. lia.
  - apply IH. rewrite byte_length_app. lia.
Qed.

(** A provider's error body, however large and however it is cut into chunks, is
    read to its first 65536 bytes: the text kept is never longer than these bytes
    decoded (three bytes for each that is no UTF-8) with the truncation mark, it is
    the whole body when that fits and its first 65536 bytes with the mark when it
    does not, and cancellation either ends the reading with the cancellation error
    or changes nothing. *)
Lemma error_body_bounded cancel cancelled_message chunks :
  (read_error_body_or_cancelled cancel cancelled_message chunks = Err (cancelled_error cancelled_message)
   \/ read_error_body_or_cancelled cancel cancelled_message chunks
      = read_error_body_or_cancelled None cancelled_message chunks)
  /\ exists body, read_error_body_or_cancelled None cancelled_message chunks = Ok body
     /\ (byte_length body <= 3 * 65536 + 14)%N
     /\ (Forall (fun c => c <> "") chunks ->
         let whole := concat_text chunks in
         body = if (byte_length whole <=? 65536)%N then from_utf8_lossy whole
                else (from_utf8_lossy (String.substring 0 (N.to_nat 65536) whole) ++ "...[truncated]")%string).
Proof.
  split.
  { unfold read_error_body_or_cancelled.
    destruct (read_error_chunks_cancel cancel chunks "") as [->| ->]; [by left|by right]. }
  destruct (read_error_chunks_total chunks "") as [[bytes truncated] Hr].
  unfold read_error_body_or_cancelled. rewrite Hr. eexists. split; [done|]. split.
  - apply read_error_chunks_bounded in Hr; [|done]. cbn [fst] in Hr.
    pose proof (from_utf8_lossy_length bytes) as Hl. unfold byte_length, MAX_ERROR_BODY_BYTES in *.
    destruct truncated; rewrite ?string_app_length; cbn [String.length]; lia.
  - intros Hc. rewrite read_error_chunks_spec in Hr by done. rewrite string_app_nil_l in Hr.
    unfold kept_body, MAX_ERROR_BODY_BYTES in Hr. by destruct (_ <=? _)%N; injection Hr as <- <-.
Qed.

(** @src adapters/src/base.rs:137-148 [merge_extra] *)
Definition merge_extra (body : gmap string Value) (extra : list (string * Value)) (typed_keys : list string) :
    gmap string Value :=
  foldl (fun body '(key, value) => if existsb (String.eqb key) typed_keys then body else <[key := value]> body)
    body extra.

(** Typed request fields win over colliding extras; every other extra is in the body. *)
Lemma merge_extra_typed body extra typed_keys k :
  k ∈ typed_keys -> merge_extra body extra typed_keys !! k = body !! k.
Proof.
  intros Hk. revert body. induction extra as [|[key v] extra IH]; intros body; [done|].
  unfold merge_extra. cbn [foldl]. fold (merge_extra (if existsb (String.eqb key) typed_keys then body else <[key:=v]> body) extra typed_keys).
  rewrite IH. destruct (existsb (String.eqb key) typed_keys) eqn:Hex; [done|].
  apply lookup_insert_ne. intros ->. assert (existsb (String.eqb k) typed_keys = true); [|congruence].
  apply existsb_exists. exists k. split; [by apply list_elem_of_In|apply String.eqb_refl].
Qed.


End HttpErrors.

#[local] Existing Instance Toy.ext.

Lemma error_body_bounded_witness :
  Forall (fun c => c <> "") ["too"; " long"]
  /\ exists body, read_error_body_or_cancelled None "aborted" ["too"; " long"] = Ok body /\ body = "too long".
Proof.
  assert (Hc : Forall (fun c => c <> "") ["too"; " long"]) by (repeat constructor; discriminate).
  split; [exact Hc|].
  destruct (error_body_bounded None "aborted" ["too"; " long"]) as (_ & body & Hr & _ & Hb).
  exists body. split; [exact Hr|]. exact (Hb Hc).
Defined.
