(* ===== verification/OaiCompat.v ===== *)
(** * OpenAI-compatible streams: [adapters/src/openai_compat.rs]

    The chunk handler of the OpenAI, Azure, Mistral and xAI adapters.  Serde's
    decoding of a data line into an [OaiChunk] is a parameter, [parse_chunk].
    The main theorem composes bytes, lines, chunks, block assembly and
    [accumulate_message]. *)
From S2P Require Export Adapter.
From stdpp Require Import sorting.
Open Scope string_scope.
Open Scope list_scope.
Open Scope agent_scope.

Module Oai.
Import Assembly Sse.

Section Chunks.
Context `{E : Ext}.

(** @src adapters/src/openai_compat.rs:157-162 [OaiFunctionDelta] *)
Record OaiFunctionDelta := MkOaiFunctionDelta { fd_name : option string; fd_arguments : option string }.

(** @src adapters/src/openai_compat.rs:147-153 [OaiToolCallDelta] *)
Record OaiToolCallDelta := MkOaiToolCallDelta {
  tcd_index : nat;
  tcd_id : option string;
  tcd_function : option OaiFunctionDelta;
}.

(** @src adapters/src/openai_compat.rs:134-143 [OaiDelta] *)
Record OaiDelta := MkOaiDelta {
  d_content : option string;
  d_tool_calls : option (list OaiToolCallDelta);
  d_reasoning_content : option string;
}.

(** @src adapters/src/openai_compat.rs:123-130 [OaiChoice] *)
Record OaiChoice := MkOaiChoice {
  ch_delta : OaiDelta;
  ch_finish_reason : option string;
  ch_content_filter_results : option Value;
}.

(** [extra] in iteration order.
    @src adapters/src/openai_compat.rs:166-175 [OaiUsage] *)
Record OaiUsage := MkOaiUsage {
  ou_prompt_tokens : N;
  ou_completion_tokens : N;
  ou_total_tokens : option N;
  ou_extra : list (string * Value);
}.

(** @src adapters/src/openai_compat.rs:114-119 [OaiChunk] *)
Record OaiChunk := MkOaiChunk { ck_choices : list OaiChoice; ck_usage : option OaiUsage }.

(** The recursion goes down in the value, which bounds it by its size. *)
Fixpoint collect_numeric (fuel : nat) (key : string) (value : Value) (extra : gmap string N) : gmap string N :=
  match fuel with
  | 0 => extra
  | S fuel =>
    match json_as_u64 value, json_fields value with
    | Some n, _ => <[key := n]> extra
    | None, Some fields =>
      foldl (fun extra '(child_key, child) => collect_numeric fuel (key ++ "." ++ child_key) child extra)
        extra fields
    | None, None => extra
    end
  end.

(** @src adapters/src/openai_compat.rs:195-209 [collect_numeric_usage_fields] *)
Definition collect_numeric_usage_fields (key : string) (value : Value) (extra : gmap string N) : gmap string N :=
  collect_numeric (S (json_size value)) key value extra.

(** @src adapters/src/openai_compat.rs:178-192 [OaiUsage::to_usage] *)
Definition to_usage (u : OaiUsage) : Usage :=
  MkUsage (ou_prompt_tokens u) (ou_completion_tokens u) 0 0
    (default (u64_add (ou_prompt_tokens u) (ou_completion_tokens u)) (ou_total_tokens u))
    (foldl (fun extra '(key, value) => collect_numeric_usage_fields key value extra) ∅ (ou_extra u)).

Fixpoint filtered (fuel : nat) (value : Value) : bool :=
  match fuel with
  | 0 => false
  | S fuel =>
    match json_fields value, json_as_array value with
    | Some fields, _ =>
      existsb (fun '(k, v) => String.eqb k "filtered" && bool_decide (json_as_bool v = Some true)) fields
      || existsb (fun kv => filtered fuel (snd kv)) fields
    | None, Some values => existsb (filtered fuel) values
    | None, None => false
    end
  end.

(** @src adapters/src/openai_compat.rs:539-548 [content_filter_results_filtered] *)
Definition content_filter_results_filtered (value : Value) : bool := filtered (S (json_size value)) value.

(** @src adapters/src/openai_compat.rs:218-223 [OaiToolCallEntry] *)
Record OaiToolCallEntry := MkOaiToolCallEntry {
  te_id : string;
  te_name : option string;
  te_arguments : string;
  te_content_index : option nat;
}.

(** @src adapters/src/openai_compat.rs:353-363 [OaiSseStreamState] *)
Record OaiSseStreamState := MkState {
  blocks : BlockAccumulator;
  tool_calls : gmap nat OaiToolCallEntry;
  usage : option Usage;
  stop_reason : option StopReason;
  terminal_error : option AssistantMessageEvent;
}.

Definition state_default : OaiSseStreamState := MkState new ∅ None None None.

(** @src adapters/src/openai_compat.rs:365-373 [OaiParserOptions] *)
Record OaiParserOptions := MkOptions {
  detect_content_filter_results : bool;
  error_finish_reason_is_error : bool;
}.

Definition put_blocks (b : BlockAccumulator) (s : OaiSseStreamState) : OaiSseStreamState :=
  MkState b (tool_calls s) (usage s) (stop_reason s) (terminal_error s).
Definition put_tool_calls (m : gmap nat OaiToolCallEntry) (s : OaiSseStreamState) : OaiSseStreamState :=
  MkState (blocks s) m (usage s) (stop_reason s) (terminal_error s).
Definition put_usage (u : Usage) (s : OaiSseStreamState) : OaiSseStreamState :=
  MkState (blocks s) (tool_calls s) (Some u) (stop_reason s) (terminal_error s).
Definition put_stop (r : option StopReason) (s : OaiSseStreamState) : OaiSseStreamState :=
  MkState (blocks s) (tool_calls s) (usage s) r (terminal_error s).
Definition put_error (e : option AssistantMessageEvent) (s : OaiSseStreamState) : OaiSseStreamState :=
  MkState (blocks s) (tool_calls s) (usage s) (stop_reason s) e.

#[local] Abbreviation M := (Emit OaiSseStreamState).

(** [if let Some(ev) = state.blocks.op() { events.push(ev) }] *)
Definition on_blocks (f : BlockAccumulator -> option AssistantMessageEvent * BlockAccumulator) : M unit :=
  fun s => let '(e, b) := f (blocks s) in ((tt, option_list e), put_blocks b s).

(** Draining the state clears its tool calls too.
    @src adapters/src/openai_compat.rs:375-382 [OaiSseStreamState::drain_open_blocks] *)
Definition finalize : M unit :=
  fun s => let '(es, b) := finalize_blocks (blocks s) in ((tt, es), put_tool_calls ∅ (put_blocks b s)).

(** ** Tool calls *)

Definition nonempty (o : option string) : option string :=
  match o with Some "" => None | _ => o end.

(** [open_tool_call], then the buffered arguments. *)
Definition open_entry (tc_index : nat) (id name arguments : string) : M unit :=
  s <~ eget ;;
  let '((content_index, start), b) := open_tool_call (blocks s) id name in
  eput (put_blocks b s) ;;~
  push [start] ;;~
  push (match arguments with "" => [] | _ => [tool_call_delta content_index arguments] end) ;;~
  emodify (fun s => put_tool_calls
    (alter (fun e => MkOaiToolCallEntry (te_id e) (te_name e) (te_arguments e) (Some content_index)) tc_index
       (tool_calls s)) s).

(** @src adapters/src/openai_compat.rs:561-602 [process_oai_tool_call_delta, entry (brace)] *)
Definition updated_entry (provider : string) (d : OaiToolCallDelta) (e : option OaiToolCallEntry) :
    OaiToolCallEntry :=
  let e := match e with
           | Some e => e
           | None => MkOaiToolCallEntry (default (provider ++ "-tool-" ++ pretty (tcd_index d))%string (tcd_id d))
                       None "" None
           end in
  MkOaiToolCallEntry
    (match te_content_index e, tcd_id d with None, Some id => id | _, _ => te_id e end)
    (match nonempty (tcd_function d ≫= fd_name) with Some name => Some name | None => te_name e end)
    (te_arguments e ++ default "" (tcd_function d ≫= fd_arguments))
    (te_content_index e).

(** @src adapters/src/openai_compat.rs:551-634 [process_oai_tool_call_delta] *)
Definition process_oai_tool_call_delta (provider : string) (d : OaiToolCallDelta) : M unit :=
  s <~ eget ;;
  let e := updated_entry provider d (tool_calls s !! tcd_index d) in
  eput (put_tool_calls (<[tcd_index d := e]> (tool_calls s)) s) ;;~
  match te_content_index e, te_name e with
  | None, Some name => open_entry (tcd_index d) (te_id e) name (te_arguments e)
  | None, None => eret tt
  | Some content_index, _ =>
    match nonempty (tcd_function d ≫= fd_arguments) with
    | Some args => push [tool_call_delta content_index args]
    | None => eret tt
    end
  end.

Definition pending_indices (s : OaiSseStreamState) : list nat :=
  merge_sort Nat.le (filtermap (fun '(i, e) => match te_content_index e with None => Some i | Some _ => None end)
    (map_to_list (tool_calls s))).

Fixpoint flush_indices (provider : string) (indices : list nat) : M (option AssistantMessageEvent) :=
  match indices with
  | [] => eret None
  | i :: indices' =>
    s <~ eget ;;
    match tool_calls s !! i with
    | None => eret None
    | Some e =>
      match nonempty (te_name e) with
      | Some name => open_entry i (te_id e) name (te_arguments e) ;;~ flush_indices provider indices'
      | None =>
        emodify (put_tool_calls ∅) ;;~
        eret (Some (event_error (provider ++ " stream ended with incomplete tool call " ++ te_id e
                                 ++ ": missing function name")))
      end
    end
  end.

(** @src adapters/src/openai_compat.rs:636-688 [flush_pending_oai_tool_calls] *)
Definition flush_pending_oai_tool_calls (provider : string) : M (option AssistantMessageEvent) :=
  s <~ eget ;; flush_indices provider (pending_indices s).

(** ** Chunks *)

(** The stop of the stream by [error], the open blocks closed. *)
Definition stop_with (provider : string) (error : AssistantMessageEvent) : M bool :=
  flush_pending_oai_tool_calls provider ;;~ finalize ;;~ emodify (put_error (Some error)) ;;~ eret true.

Definition content_filtered (provider : string) : AssistantMessageEvent :=
  event_error_content_filtered (provider ++ " response stopped by content filter").

(** @src adapters/src/openai_compat.rs:442-483 [process_oai_chunk_with_options, delta] *)
Definition process_delta (provider : string) (d : OaiDelta) : M unit :=
  match nonempty (d_reasoning_content d) with
  | Some reasoning =>
    on_blocks ensure_thinking_open ;;~ on_blocks (fun b => (thinking_delta b reasoning, b))
  | None => eret tt
  end ;;~
  match nonempty (d_content d) with
  | Some content =>
    on_blocks (fun b => close_thinking b None) ;;~
    on_blocks ensure_text_open ;;~
    on_blocks (fun b => (text_delta b content, b))
  | None => eret tt
  end ;;~
  match d_tool_calls d with
  | Some deltas =>
    on_blocks (fun b => close_thinking b None) ;;~
    on_blocks close_text ;;~
    foldr (fun d k => process_oai_tool_call_delta provider d ;;~ k) (eret tt) deltas
  | None => eret tt
  end.

(** [true]: the chunk's remaining choices are not looked at.
    @src adapters/src/openai_compat.rs:483-535 [process_oai_chunk_with_options, end of choice (brace)] *)
Definition process_finish (provider : string) (options : OaiParserOptions) (c : OaiChoice) : M bool :=
  if detect_content_filter_results options
     && match ch_content_filter_results c with Some v => content_filter_results_filtered v | None => false end
  then stop_with provider (content_filtered provider)
  else match ch_finish_reason c with
  | None => eret false
  | Some reason =>
    if String.eqb reason "content_filter" then stop_with provider (content_filtered provider)
    else if error_finish_reason_is_error options && String.eqb reason "error" then
      s <~ eget ;;
      stop_with provider (ErrorEvent Error (provider ++ " reported finish_reason=error") (usage s) None None)
    else
      let r := if String.eqb reason "tool_calls" then ToolUse
               else if String.eqb reason "length" || String.eqb reason "model_length" then Length
               else Stop in
      error <~ flush_pending_oai_tool_calls provider ;;
      finalize ;;~
      match error with
      | Some error => emodify (put_error (Some error)) ;;~ eret true
      | None => emodify (put_stop (Some r)) ;;~ eret false
      end
  end.

Fixpoint process_choices (provider : string) (options : OaiParserOptions) (choices : list OaiChoice) : M unit :=
  match choices with
  | [] => eret tt
  | c :: choices' =>
    process_delta provider (ch_delta c) ;;~
    stopped <~ process_finish provider options c ;;
    if stopped then eret tt else process_choices provider options choices'
  end.

(** @src adapters/src/openai_compat.rs:430-537 [process_oai_chunk_with_options] *)
Definition process_oai_chunk_with_options (provider : string) (options : OaiParserOptions) (chunk : OaiChunk) :
    M unit :=
  match ck_usage chunk with Some u => emodify (put_usage (to_usage u)) | None => eret tt end ;;~
  process_choices provider options (ck_choices chunk).

(** ** The handler *)

(** @src adapters/src/openai_compat.rs:385-391 [OaiSseStreamState::emit_terminal_error] *)
Definition emit_terminal_error (event : AssistantMessageEvent) : M unit :=
  flush_pending_oai_tool_calls "OpenAI-compatible" ;;~ finalize ;;~ push [event].

(** @src adapters/src/openai_compat.rs:393-413 [OaiSseStreamState::emit_done_from_done_sentinel] *)
Definition emit_done_from_done_sentinel : M unit :=
  error <~ flush_pending_oai_tool_calls "OpenAI-compatible" ;;
  finalize ;;~
  match error with
  | Some error => push [error]
  | None =>
    s <~ eget ;;
    match terminal_error s with
    | Some error => eput (put_error None s) ;;~ push [error]
    | None => push [Done (default Stop (stop_reason s)) (default usage_default (usage s)) cost_default]
    end
  end.

Section Stream.
Context (parse_chunk : string -> result OaiChunk string).

Definition finish (m : M unit) (s : OaiSseStreamState) : SseAction * OaiSseStreamState :=
  let '((_, es), s) := m s in (Finish es, s).

(** @src adapters/src/openai_compat.rs:728-768 [parse_oai_sse_stream_with_options, on_item (brace)] *)
Definition oai_on_item (provider : string) (options : OaiParserOptions)
    (item : option SseLine) (s : OaiSseStreamState) : SseAction * OaiSseStreamState :=
  match item with
  | None =>
    match terminal_error s with
    | Some error => finish (emit_terminal_error error) (put_error None s)
    | None =>
      finish (emit_terminal_error (event_error_network (provider ++ " stream ended unexpectedly"))) s
    end
  | Some DoneLine => finish emit_done_from_done_sentinel s
  | Some (Data data) =>
    match parse_chunk data with
    | Err e => finish (emit_terminal_error (event_error (provider ++ " JSON parse error: " ++ e))) s
    | Ok chunk =>
      let '((_, events), s) := process_oai_chunk_with_options provider options chunk s in
      match terminal_error s with
      | Some error => (Finish (events ++ [error]), put_error None s)
      | None => (Continue events, s)
      end
    end
  | Some (TransportError message) =>
    finish (emit_terminal_error (event_error_network (provider ++ " " ++ message))) s
  | Some (ProtocolError message) =>
    finish (emit_terminal_error (event_error (provider ++ " " ++ message))) s
  | Some _ => (Skip, s)
  end.

Definition oai_adapter (provider : string) (options : OaiParserOptions) : Adapter OaiSseStreamState SseLine :=
  sse_adapter (events_of_run finalize) "operation cancelled" (oai_on_item provider options).

(** @src adapters/src/openai_compat.rs:713-770 [parse_oai_sse_stream_with_options] *)
Definition parse_oai_sse_stream_with_options (provider : string) (options : OaiParserOptions)
    (cancel : option nat) (bytes : list (result string string)) : option (list AssistantMessageEvent) :=
  adapter_stream (oai_adapter provider options) cancel (sse_data_lines bytes) state_default.

End Stream.
End Chunks.
End Oai.
