(* ===== verification/OaiCompatSpec.v ===== *)
(** * The OpenAI-compatible adapter implements the streaming contract

    Every stream of the adapter is a session of [BlockAccumulator] closed by one
    terminal event, so [accumulate_message] takes it; and a message that ends
    without error holds exactly what the chunks said. *)
From S2P Require Export OaiCompat Adapter.
From stdpp Require Import sorting.
Open Scope string_scope.
Open Scope list_scope.
Open Scope agent_scope.

Module OaiSpec.
Import Assembly Sse Oai.

Section Tracks.
Context `{E : Ext}.
#[local] Abbreviation M := (Emit OaiSseStreamState).

#[local] Abbreviation tracks := (Adapter.tracks blocks).

(** ** The state between chunks *)

(** Arguments go to open tool calls. *)
Definition calls_ok (s : OaiSseStreamState) : Prop :=
  forall i e ci, tool_calls s !! i = Some e -> te_content_index e = Some ci -> ci ∈ open_tool_calls (blocks s).

Definition going (u : option Usage) (s : OaiSseStreamState) : Prop :=
  calls_ok s /\ terminal_error s = None /\ usage s = u.

#[local] Abbreviation is_error := is_error_event.

(** After a terminal error nothing is open. *)
Definition stopped (s : OaiSseStreamState) : Prop :=
  exists t, terminal_error s = Some t /\ is_error t = true /\ blocks s = drained (blocks s).

Definition sends (texts : list string) u (x : unit) (t : list string) (s : OaiSseStreamState) : Prop :=
  t = texts /\ going u s.

Lemma on_blocks_tracks u f texts :
  (forall b, exists o, op_ok b o = true /\ run_op b o = (option_list (fst (f b)), snd (f b))) ->
  (forall b, open_tool_calls (snd (f b)) = open_tool_calls b
             /\ text_chunks (option_list (fst (f b))) = texts) ->
  tracks (going u) (on_blocks f) (sends texts u).
Proof.
  intros Ho Hf s (Hc & Ht & Hu). unfold on_blocks. destruct (Ho (blocks s)) as (o & Hok & Hr).
  destruct (Hf (blocks s)) as [Hopen Htexts]. pose proof (emits_op _ o Hok) as He. rewrite Hr in He.
  destruct (f (blocks s)) as [e b]. cbn [fst snd] in *. split; [done|]. split; [done|].
  split; [|done]. intros i en ci Hi Hci. cbn. rewrite Hopen. by eapply Hc.
Qed.

Lemma ensure_thinking_tracks u : tracks (going u) (on_blocks ensure_thinking_open) (sends [] u).
Proof.
  apply on_blocks_tracks.
  - intros b. exists OpEnsureThinking. done.
  - intros [n tx [[]|] tc]; done.
Qed.

Lemma thinking_delta_tracks u d :
  tracks (going u) (on_blocks (fun b => (thinking_delta b d, b))) (sends [] u).
Proof.
  apply on_blocks_tracks.
  - intros b. by exists (OpThinkingDelta d).
  - intros [n tx [[]|] tc]; done.
Qed.

Lemma close_thinking_tracks u :
  tracks (going u) (on_blocks (fun b => close_thinking b None)) (sends [] u).
Proof.
  apply on_blocks_tracks.
  - intros b. by exists (OpCloseThinking None).
  - intros [n tx [[]|] tc]; done.
Qed.

Lemma close_text_tracks u : tracks (going u) (on_blocks close_text) (sends [] u).
Proof.
  apply on_blocks_tracks.
  - intros b. by exists OpCloseText.
  - intros [n [|] th tc]; done.
Qed.

(** A text delta finds the block open. *)
Lemma text_tracks u d :
  tracks (going u) (on_blocks ensure_text_open ;;~ on_blocks (fun b => (text_delta b d, b))) (sends [d] u).
Proof.
  intros s (Hc & Ht & Hu). destruct s as [[n tx th tc] calls us sr te].
  destruct tx as [i|]; cbn in *; (split; [|split; [done|split; [exact Hc|done]]]).
  - by exists [OpEnsureText; OpTextDelta d].
  - by exists [OpEnsureText; OpTextDelta d].
Qed.

(** ** Tool calls *)

Lemma open_entry_tracks u i id name arguments en :
  tracks (fun s => going u s /\ tool_calls s !! i = Some en) (open_entry i id name arguments) (sends [] u).
Proof.
  intros s [(Hc & Ht & Hu) Hi]. destruct s as [[n tx th tc] calls us sr te]. cbn in *. split.
  - exists (OpOpenTool id name :: match arguments with "" => [] | _ => [OpToolDelta n arguments] end).
    destruct arguments; cbn; [done|]. split; [|done].
    rewrite andb_true_r. apply bool_decide_eq_true. apply elem_of_app. right. by apply list_elem_of_singleton.
  - split; [by destruct arguments|]. split; [|done]. intros j e ci Hj Hci. cbn in *. apply elem_of_app.
    destruct (decide (i = j)) as [->|Hne].
    + rewrite lookup_alter_eq, Hi in Hj. injection Hj as <-. injection Hci as <-.
      right. by apply list_elem_of_singleton.
    + rewrite lookup_alter_ne in Hj by done. left. by eapply Hc.
Qed.

Lemma tool_delta_tracks u provider d : tracks (going u) (process_oai_tool_call_delta provider d) (sends [] u).
Proof.
  apply tracks_read. intros s (Hc & Ht & Hu). apply tracks_put; [by intros ? <-|].
  set (e := updated_entry provider d (tool_calls s !! tcd_index d)).
  set (s' := put_tool_calls _ s).
  assert (Hs' : going u s').
  { split; [|done]. intros i en ci. cbn. rewrite lookup_insert_Some.
    intros [[<- <-]|[_ Hi]] Hci; [|by eapply Hc].
    unfold e, updated_entry in Hci. cbn in Hci.
    destruct (tool_calls s !! tcd_index d) as [e0|] eqn:He0; [|done]. by eapply Hc. }
  assert (He : tool_calls s' !! tcd_index d = Some e) by apply lookup_insert_eq.
  clearbody s' e. clear s Hc Ht Hu. destruct (te_content_index e) as [ci|] eqn:Hci.
  - destruct (nonempty _) as [args|]; [|apply tracks_ret; by intros ? <-]. intros ? <-. split; [|done].
    exists [OpToolDelta ci args]. split; [|done]. cbn. rewrite andb_true_r.
    apply bool_decide_eq_true. by eapply (proj1 Hs').
  - destruct (te_name e) as [name|]; [|apply tracks_ret; by intros ? <-].
    eapply tracks_conseq; [apply (open_entry_tracks u _ _ _ _ e)|by intros ? <-|done].
Qed.

(** Flushing opens every named call; a call without a name is reported. *)
Definition flushed u (r : option AssistantMessageEvent) (t : list string) (s : OaiSseStreamState) : Prop :=
  t = [] /\ going u s /\ match r with Some e => is_error e = true | None => True end.

Lemma flush_indices_tracks u provider indices : tracks (going u) (flush_indices provider indices) (flushed u).
Proof.
  induction indices as [|i indices IH]; [by apply tracks_ret|]. apply tracks_read. intros s Hs.
  destruct (tool_calls s !! i) as [e|] eqn:He; [|apply tracks_ret; by intros ? <-].
  destruct (nonempty (te_name e)) as [name|].
  - eapply (tracks_seq _ _ [] (fun _ => going u)); [|intros ?; exact IH].
    eapply tracks_conseq; [apply (open_entry_tracks u _ _ _ _ e)|by intros ? <-|done].
  - eapply (tracks_seq _ _ [] (fun _ => going u)); [|intros ?; by apply tracks_ret].
    apply tracks_modify. intros ? <-. split; [done|]. split; [done|]. split; [|apply Hs].
    intros j e' ci Hj. cbn in Hj. by rewrite lookup_empty in Hj.
Qed.

Lemma flush_tracks u provider : tracks (going u) (flush_pending_oai_tool_calls provider) (flushed u).
Proof.
  apply tracks_read. intros s Hs.
  eapply tracks_conseq; [apply flush_indices_tracks|by intros ? <-|done].
Qed.

(** ** The end of a choice *)

Definition settled u (s : OaiSseStreamState) : Prop := going u s /\ blocks s = drained (blocks s).

Lemma finalize_tracks u : tracks (going u) finalize (fun _ t s => t = [] /\ settled u s).
Proof.
  intros s (Hc & Ht & Hu). unfold finalize. pose proof (emits_finalize (blocks s)) as He.
  pose proof (finalize_drained (blocks s)) as Hd. pose proof (finalize_no_text (blocks s)) as Hn.
  destruct (finalize_blocks (blocks s)) as [es b]. cbn in *. subst b. split; [done|].
  split; [done|]. split; [|done]. split; [|done]. intros i e ci Hi. cbn in Hi. by rewrite lookup_empty in Hi.
Qed.

(** A choice either goes on or stops the stream. *)
Definition finished u (stop : bool) (t : list string) (s : OaiSseStreamState) : Prop :=
  t = [] /\ if stop then stopped s else going u s.

Lemma set_error_tracks u e : is_error e = true ->
  tracks (settled u) (emodify (put_error (Some e)) ;;~ eret true) (finished u).
Proof.
  intros He. eapply (tracks_seq _ _ [] (fun _ => stopped)); [|intros ?; by apply tracks_ret].
  apply tracks_modify. intros s [_ Hd]. split; [done|]. split; [done|]. by exists e.
Qed.

Lemma stop_with_tracks u provider e : is_error e = true ->
  tracks (going u) (stop_with provider e) (finished u).
Proof.
  intros He. eapply (tracks_seq _ _ [] (fun _ => going u)).
  { eapply tracks_conseq; [apply flush_tracks|done|]. by intros x t s (-> & ? & _). }
  intros ?. eapply tracks_seq; [apply finalize_tracks|]. intros ?. by apply set_error_tracks.
Qed.

Lemma process_finish_tracks u provider options c : tracks (going u) (process_finish provider options c) (finished u).
Proof.
  unfold process_finish. destruct (_ && _); [by apply stop_with_tracks|].
  destruct (ch_finish_reason c) as [reason|]; [|by apply tracks_ret].
  destruct (String.eqb reason "content_filter"); [by apply stop_with_tracks|].
  destruct (_ && _).
  { apply tracks_read. intros s Hs.
    eapply tracks_conseq; [by apply (stop_with_tracks u)|by intros ? <-|done]. }
  eapply (tracks_seq _ _ [] (fun r s => going u s /\ match r with Some e => is_error e = true | None => True end)).
  { apply flush_tracks. }
  intros r. eapply (tracks_seq _ _ [] (fun _ s => settled u s /\ match r with Some e => is_error e = true | None => True end)).
  { intros s [Hs Hr]. pose proof (finalize_tracks u s Hs) as H. destruct (finalize s) as [[x es] s'].
    destruct H as (? & -> & ?). done. }
  intros _ s [Hs Hr]. destruct r as [e|]; [by apply (set_error_tracks u e Hr)|].
  revert s Hs Hr. cut (tracks (settled u) (emodify (put_stop (Some
    (if String.eqb reason "tool_calls" then ToolUse
     else if String.eqb reason "length" || String.eqb reason "model_length" then Length else Stop))) ;;~ eret false)
    (finished u)); [intros H s Hs _; exact (H s Hs)|].
  eapply (tracks_seq _ _ [] (fun _ => going u)); [|intros ?; by apply tracks_ret].
  apply tracks_modify. intros s [Hs _]. split; [done|]. split; done.
Qed.

(** ** Chunks *)

Definition content_of (d : OaiDelta) : list string := option_list (nonempty (d_content d)).

Lemma tool_deltas_tracks u provider deltas :
  tracks (going u) (foldr (fun d k => process_oai_tool_call_delta provider d ;;~ k) (eret tt) deltas) (sends [] u).
Proof.
  induction deltas as [|d deltas IH]; [by apply tracks_ret|].
  eapply tracks_seq; [apply tool_delta_tracks|]. intros ?. exact IH.
Qed.

Lemma process_delta_tracks u provider d :
  tracks (going u) (process_delta provider d) (sends (content_of d) u).
Proof.
  eapply (tracks_seq _ _ [] (fun _ => going u)).
  { destruct (nonempty (d_reasoning_content d)) as [r|]; [|by apply tracks_ret].
    eapply tracks_seq; [apply ensure_thinking_tracks|]. intros ?. apply thinking_delta_tracks. }
  intros _. eapply (tracks_seq _ _ (content_of d) (fun _ => going u)).
  { unfold content_of. destruct (nonempty (d_content d)) as [content|]; [|by apply tracks_ret].
    eapply tracks_seq; [apply close_thinking_tracks|]. intros ?. apply text_tracks. }
  intros _. eapply (tracks_conseq (going u) _ _ (sends [] u)); [|done|].
  - destruct (d_tool_calls d) as [deltas|]; [|by apply tracks_ret].
    eapply tracks_seq; [apply close_thinking_tracks|]. intros ?.
    eapply tracks_seq; [apply close_text_tracks|]. intros ?. apply tool_deltas_tracks.
  - intros x t s [-> ?]. cbn. by rewrite app_nil_r.
Qed.

Definition chunk_texts (chunk : OaiChunk) : list string :=
  concat (map (fun c => content_of (ch_delta c)) (ck_choices chunk)).

Definition usage_after (u : option Usage) (chunk : OaiChunk) : option Usage :=
  match ck_usage chunk with Some x => Some (to_usage x) | None => u end.

Lemma process_choices_tracks u provider options choices :
  tracks (going u) (process_choices provider options choices)
    (fun _ t s => stopped s \/ going u s /\ t = concat (map (fun c => content_of (ch_delta c)) choices)).
Proof.
  induction choices as [|c choices IH]; [apply tracks_ret; by right|].
  eapply tracks_seq; [apply process_delta_tracks|]. intros ?.
  eapply (tracks_seq _ _ [] (fun (b : bool) s => if b then stopped s else going u s)).
  { apply process_finish_tracks. }
  intros [|]; [apply tracks_ret; by left|].
  eapply tracks_conseq; [exact IH|done|]. intros ? t s [?|[? ->]]; [by left|by right].
Qed.

Lemma process_chunk_tracks u provider options chunk :
  tracks (going u) (process_oai_chunk_with_options provider options chunk)
    (fun _ t s => stopped s \/ going (usage_after u chunk) s /\ t = chunk_texts chunk).
Proof.
  eapply (tracks_seq _ _ [] (fun _ => going (usage_after u chunk))); [|intros ?; apply process_choices_tracks].
  unfold usage_after. destruct (ck_usage chunk) as [x|]; [|by apply tracks_ret].
  apply tracks_modify. intros s (? & ? & ?). done.
Qed.

(** ** The handler *)

(** Flushed, closed, and one event more. *)
Lemma finish_closes u (m : M (option AssistantMessageEvent)) (k : option AssistantMessageEvent -> M unit) s :
  tracks (going u) m (flushed u) -> going u s ->
  (forall r s', going u s' -> match r with Some e => is_error e = true | None => True end ->
     exists t, events_of_run (k r) s' = [t] /\ is_terminal t = true
       /\ (is_error t = true \/ r = None /\ exists sr, t = Done sr (default usage_default u) cost_default)) ->
  exists es s' t, finish (r <~ m ;; finalize ;;~ k r) s = (Finish es, s')
    /\ closes (blocks s) es t /\ text_chunks es = []
    /\ (is_error t = true \/ exists sr, t = Done sr (default usage_default u) cost_default).
Proof.
  intros Hm Hs Hk. unfold finish, ebind. specialize (Hm s Hs). destruct (m s) as [[r es] s1].
  destruct Hm as (He & Ht & Hs1 & Hr). pose proof (finalize_tracks u s1 Hs1) as Hf.
  assert (Hfin : snd (fst (finalize s1)) = fst (finalize_blocks (blocks s1))).
  { unfold finalize. by destruct (finalize_blocks (blocks s1)). }
  destruct (finalize s1) as [[x es1] s2]. cbn in Hfin. subst es1. destruct Hf as (_ & Ht1 & [Hs2 _]).
  destruct (Hk r s2 Hs2 Hr) as (t & Hev & Hterm & Hcase). unfold events_of_run in Hev.
  destruct (k r s2) as [[y es2] s3]. cbn in Hev. subst es2.
  eexists _, _, t. split; [done|]. split; [by apply closes_finalized|].
  rewrite !text_chunks_app, Ht, Ht1. split; [by destruct t|]. destruct Hcase as [?|[_ ?]]; [by left|by right].
Qed.

Lemma terminal_error_closes u e s : is_error e = true -> going u s ->
  exists es s' t, finish (emit_terminal_error e) s = (Finish es, s')
    /\ closes (blocks s) es t /\ text_chunks es = [] /\ is_error t = true.
Proof.
  intros He Hs.
  destruct (finish_closes u (flush_pending_oai_tool_calls "OpenAI-compatible") (fun _ => push [e]) s)
    as (es & s' & t & Hf & Hc & Ht & Hcase); [apply flush_tracks|done| |].
  { intros r s' _ _. exists e. split; [done|]. split; [by destruct e|by left]. }
  exists es, s', t. split; [exact Hf|]. split; [done|]. split; [done|].
  destruct Hcase as [?|[sr ->]]; [done|]. exfalso.
  destruct Hc as (mid & a & _ & -> & _). unfold finish, emit_terminal_error in Hf.
  unfold ebind in Hf. destruct (flush_pending_oai_tool_calls _ s) as [[r es1] s1].
  destruct (finalize s1) as [[x es2] s2]. cbn in Hf. injection Hf as Hf _.
  rewrite !app_assoc in Hf. apply app_inj_tail in Hf as [_ ->]. done.
Qed.

Context (parse_chunk : string -> result OaiChunk string).

Lemma oai_line_spec provider options u l s : going u s ->
  match oai_on_item parse_chunk provider options (Some l) s with
  | (Continue es, s') =>
    exists data chunk, l = Data data /\ parse_chunk data = Ok chunk
      /\ emits (blocks s) es (blocks s') /\ text_chunks es = chunk_texts chunk
      /\ going (usage_after u chunk) s'
  | (Finish es, _) =>
    exists t, closes (blocks s) es t
      /\ (is_error t = true
          \/ l = DoneLine /\ text_chunks es = [] /\ exists sr, t = Done sr (default usage_default u) cost_default)
  | (Skip, s') => s' = s /\ is_data_line l = false
  end.
Proof.
  intros Hs. assert (Hstop : forall e, is_error e = true ->
    match finish (emit_terminal_error e) s with
    | (Finish es, _) => exists t, closes (blocks s) es t
        /\ (is_error t = true \/ l = DoneLine /\ text_chunks es = []
                                /\ exists sr, t = Done sr (default usage_default u) cost_default)
    | _ => False
    end).
  { intros e He. destruct (terminal_error_closes u e s He Hs) as (es & s' & t & -> & ? & _ & ?).
    exists t. split; [done|by left]. }
  destruct l as [ev|data| | |msg|msg]; cbn [oai_on_item]; try done.
  - destruct (parse_chunk data) as [chunk|e] eqn:Hp.
    2:{ specialize (Hstop (event_error (provider ++ " JSON parse error: " ++ e)) eq_refl).
        by destruct (finish _ s) as [[]]. }
    pose proof (process_chunk_tracks u provider options chunk s Hs) as H.
    destruct (process_oai_chunk_with_options provider options chunk s) as [[x es] s1].
    destruct H as [He [(t & -> & Ht & Hd)|[Hs1 Ht]]].
    + exists t. split; [|by left]. exists es, (blocks s1). split; [done|]. split; [|by destruct t].
      rewrite Hd. done.
    + pose proof Hs1 as (_ & Hte & _). rewrite Hte. by exists data, chunk.
  - unfold emit_done_from_done_sentinel.
    edestruct (finish_closes u (flush_pending_oai_tool_calls "OpenAI-compatible")) as (es & s' & t & Hf & Hc & Ht & Hcase);
      [apply flush_tracks|exact Hs| |rewrite Hf].
    { intros [e|] s' (Hc' & Hte & Hu) Hr; cbn.
      - exists e. split; [done|]. split; [by destruct e|by left].
      - unfold events_of_run, ebind, eget. rewrite Hte, Hu. cbn.
        eexists. split; [done|]. split; [done|]. right. split; [done|]. by eexists. }
    exists t. split; [done|]. destruct Hcase as [?|?]; [by left|right; done].
  - specialize (Hstop (event_error_network (provider ++ " " ++ msg)) eq_refl). by destruct (finish _ s) as [[]].
  - specialize (Hstop (event_error (provider ++ " " ++ msg)) eq_refl). by destruct (finish _ s) as [[]].
Qed.

Lemma oai_end_spec provider options u s : going u s ->
  exists es s' t, oai_on_item parse_chunk provider options None s = (Finish es, s')
    /\ closes (blocks s) es t /\ is_error t = true.
Proof.
  intros Hs. pose proof Hs as (_ & Hte & _). cbn. rewrite Hte.
  destruct (terminal_error_closes u (event_error_network (provider ++ " stream ended unexpectedly")) s)
    as (es & s' & t & -> & ? & _ & ?); [done..|]. by exists es, s', t.
Qed.

#[export] Instance oai_sound provider options : SoundAdapter (oai_adapter parse_chunk provider options).
Proof.
  refine (Build_SoundAdapter _ _ _ blocks (fun s => exists u, going u s) (fun _ _ => True) _ _ _).
  - intros s l [u Hs] _. pose proof (oai_line_spec provider options u l s Hs) as H. cbn -[oai_on_item].
    destruct (oai_on_item parse_chunk provider options (Some l) s) as [[es|es|] s'].
    + destruct H as (data & chunk & _ & _ & He & _ & Hs'). split; [done|by eexists].
    + destruct H as (t & ? & _). by exists t.
    + destruct H as [-> _]. split; [apply emits_nil|by exists u].
  - intros s [u Hs]. destruct (oai_end_spec provider options u s Hs) as (es & s' & t & ? & ? & _).
    by exists es, s', t.
  - intros s _. eexists. exact (closes_now (blocks s) (cancelled_error "operation cancelled") eq_refl).
Defined.

(** The chunks up to the sentinel, if every line before it is one. *)
Fixpoint chunks_before_done (lines : list SseLine) : option (list OaiChunk) :=
  match lines with
  | [] => None
  | DoneLine :: _ => Some []
  | Data data :: lines' =>
    match parse_chunk data with
    | Ok chunk => cons chunk <$> chunks_before_done lines'
    | Err _ => None
    end
  | (TransportError _ | ProtocolError _) :: _ => None
  | _ :: lines' => chunks_before_done lines'
  end.

Lemma all_lines_ok provider options lines s : lines_ok (oai_adapter parse_chunk provider options) lines s.
Proof.
  revert s. induction lines as [|l lines IH]; intros s; [done|]. split; [done|].
  by destruct (on_item _ (Some l) s) as [[]].
Qed.

Lemma oai_done provider options cancel lines u s es mid sr us c :
  going u s -> adapter_events (oai_adapter parse_chunk provider options) cancel lines s = Some es ->
  es = mid ++ [Done sr us c] ->
  exists chunks, chunks_before_done lines = Some chunks
    /\ text_chunks es = concat (map chunk_texts chunks)
    /\ us = default usage_default (foldl usage_after u chunks).
Proof.
  revert cancel u s es mid. induction lines as [|l lines IH]; intros cancel u s es mid Hs;
    (destruct (decide (cancel = Some 0)) as [->|Hcancel];
     [intros [= <-] H; cbn in H; by apply app_inj_tail in H as [_ H]|]).
  - destruct (oai_end_spec provider options u s Hs) as (es' & s' & t & He & Hc & Herr).
    intros Hev Hes. assert (Some es' = Some es) as [= ->].
    { rewrite <- Hev. destruct cancel as [[|n]|]; cbn in *; by rewrite ?He. }
    pose proof (closes_last _ _ _ _ _ Hc Hes) as <-. done.
  - rewrite adapter_events_line by done. cbn zeta. pose proof (oai_line_spec provider options u l s Hs) as H.
    change (on_item (oai_adapter parse_chunk provider options)) with (oai_on_item parse_chunk provider options).
    destruct (oai_on_item parse_chunk provider options (Some l) s) as [[es1|es1|] s1].
    + destruct H as (data & chunk & -> & Hp & _ & Ht & Hs1).
      destruct (adapter_events _ (pred <$> cancel) lines s1) as [es2|] eqn:Hr; cbn; [|done].
      intros [= <-] Hes. destruct es2 as [|e es2 _] using rev_ind.
      { rewrite app_nil_r in Hes. subst es1. destruct (adapter_events_close
          (oai_adapter parse_chunk provider options) (pred <$> cancel) lines s1) as (es' & t & He' & Hc').
        - by exists (usage_after u chunk).
        - apply all_lines_ok.
        - rewrite Hr in He'. injection He' as <-. destruct Hc' as (? & ? & _ & Hnil & _).
          by destruct (app_cons_not_nil _ _ _ (eq_trans Hnil (app_assoc _ _ _))). }
      rewrite app_assoc in Hes. apply app_inj_tail in Hes as [_ ->].
      destruct (IH (pred <$> cancel) _ s1 _ es2 Hs1 Hr eq_refl) as (chunks & Hc & Htx & Hu).
      exists (chunk :: chunks). cbn. rewrite Hp, Hc. split; [done|]. split; [|done].
      by rewrite text_chunks_app, Ht, Htx.
    + intros [= ->] Hes. destruct H as (t & Hc & Hcase). pose proof (closes_last _ _ _ _ _ Hc Hes) as <-.
      destruct Hcase as [?|(-> & Ht & sr' & [= -> -> ->])]; [done|]. by exists [].
    + destruct H as [-> Hl]. intros Hr Hes. destruct (IH _ _ _ _ _ Hs Hr Hes) as (chunks & Hc & ?).
      exists chunks. split; [|done]. by destruct l.
Qed.

(** C8: the adapter implements the streaming contract, from the bytes of the response
    on: whatever arrives - cut anywhere, in any number of choices and tool
    calls with their names late or missing, broken off, not UTF-8, not JSON,
    cancelled at any point - the stream ends, and [accumulate_message] takes it,
    the only refusal being tool arguments that are not JSON; and a message
    without an error comes from a stream that reached [DONE] with every line
    before it a chunk, holds exactly the contents of these chunks in order and
    the usage last reported. *)
Theorem oai_stream_contract provider options cancel bytes now message_provider model :
  exists es,
    parse_oai_sse_stream_with_options parse_chunk provider options cancel bytes = Some es
    /\ match accumulate_message now es message_provider model with
       | Err e => exists e', e = parse_error e'
       | Ok m =>
         am_error_message m = None ->
         exists chunks, chunks_before_done (sse_data_lines bytes) = Some chunks
           /\ extract_text (am_content m) = concat_text (concat (map chunk_texts chunks))
           /\ am_usage m = default usage_default (foldl usage_after None chunks)
       end.
Proof.
  assert (Hs : going None state_default).
  { split; [|done]. intros i e ci Hi. cbn in Hi. by rewrite lookup_empty in Hi. }
  destruct (adapter_session (oai_adapter parse_chunk provider options) cancel (sse_data_lines bytes) state_default)
    as (ops & t & Hok & Ht & Hes); [by eexists|done|apply all_lines_ok|].
  exists (session_with ops t). split; [exact Hes|].
  pose proof (session_with_accumulates now ops t message_provider model Hok Ht) as H.
  destruct (accumulate_message _ _ _ _) as [m|e]; [|apply H]. destruct H as (_ & Htx & Hf).
  intros Hm. unfold adapter_stream in Hes.
  destruct (adapter_events _ _ _ _) as [es|] eqn:Hev; [|done]. cbn in Hes. injection Hes as Hes.
  unfold session_with in Hes. destruct (run_ops Assembly.new ops) as [ops_es a] eqn:Hr. cbn [fst snd] in *.
  destruct t as [| | | | | | | | | |sr us c|sr em us ek ra]; try done; cbn in Hf; [|congruence].
  injection Hes as ->.
  destruct (oai_done provider options cancel _ None _ _ _ sr us c Hs Hev eq_refl) as (chunks & Hc & Htexts & Hu).
  exists chunks. split; [done|]. injection Hf as _ Hus _ _ _. rewrite Htx, <- Hus, <- Hu. split; [|done].
  assert (Hn : text_chunks (map end_event (map snd (merge_sort key_le (drain_entries a)))) = [])
    by exact (finalize_no_text a).
  rewrite <- Htexts, !text_chunks_app, Hn. cbn.
  by rewrite !app_nil_r.
Qed.

End Tracks.
(** ** A content filter in the middle of a tool call

    The partial arguments are closed by [ToolCallEnd], which
    [accumulate_message] refuses: the error the provider reported is lost. *)
Section Cut.

Definition cut_chunk : OaiChunk (E := Toy.ext) :=
  MkOaiChunk [MkOaiChoice (MkOaiDelta None
      (Some [MkOaiToolCallDelta 0 (Some "c1") (Some (MkOaiFunctionDelta (Some "read") (Some "{")))]) None)
    (Some "content_filter") None] None.

Lemma content_filter_in_call_is_masked :
  match parse_oai_sse_stream_with_options (E := Toy.ext) (fun _ => Ok cut_chunk) "OpenAI" (MkOptions false false)
          None [Ok (String.append "data: chunk" (String LF (String LF "")))] with
  | Some es =>
    last es = Some (event_error_content_filtered "OpenAI response stopped by content filter")
    /\ accumulate_message (E := Toy.ext) 0 es "openai" "m"
       = Err "ToolCallEnd: failed to parse arguments JSON: EOF while parsing an object"
  | None => False
  end.
Proof. by vm_compute. Qed.

End Cut.

End OaiSpec.
