(* ===== verification/Anthropic.v ===== *)
(** * The Anthropic adapter: [adapters/src/anthropic.rs]

    Event pairs in, [AssistantMessageEvent]s out, with Anthropic's own block
    indices mapped to content indices; and the conversation on its way out. *)
From S2P Require Export Adapter.
From stdpp Require Import sorting.
Open Scope string_scope.
Open Scope list_scope.
Open Scope agent_scope.

Module Anthropic.
Import Assembly Sse.

Section Adapter.
Context `{E : Ext}.

(** ** State *)

(** @src adapters/src/anthropic.rs:107-112 [BlockType] *)
Inductive BlockType := BlockText | BlockThinking | BlockToolUse.

#[export] Instance BlockType_eq_dec : EqDecision BlockType.
Proof. solve_decision. Defined.

(** @src adapters/src/anthropic.rs:121-128 [SseStreamState] *)
Record SseStreamState := MkState {
  blocks : BlockAccumulator;
  provider_blocks : gmap N (BlockType * nat);
  usage : Usage;
  stop_reason : option StopReason;
}.

Definition state_new : SseStreamState := MkState Assembly.new ∅ usage_default None.

Definition put_blocks (b : BlockAccumulator) (s : SseStreamState) : SseStreamState :=
  MkState b (provider_blocks s) (usage s) (stop_reason s).
Definition put_provider_blocks (m : gmap N (BlockType * nat)) (s : SseStreamState) : SseStreamState :=
  MkState (blocks s) m (usage s) (stop_reason s).
Definition put_usage (u : Usage) (s : SseStreamState) : SseStreamState :=
  MkState (blocks s) (provider_blocks s) u (stop_reason s).
Definition put_stop (r : StopReason) (s : SseStreamState) : SseStreamState :=
  MkState (blocks s) (provider_blocks s) (usage s) (Some r).

(** @src adapters/src/anthropic.rs:973-978 [SseStreamState::drain_open_blocks] *)
Definition finalize (s : SseStreamState) : list AssistantMessageEvent * SseStreamState :=
  let '(es, b) := finalize_blocks (blocks s) in (es, put_provider_blocks ∅ (put_blocks b s)).

(** ** Fields of an event *)

(** [Value::pointer] on objects. *)
Definition pointer (v : Value) (path : list string) : option Value :=
  foldl (fun o key => o ≫= fun v => json_get v key) (Some v) path.

Definition pointer_str (v : Value) (path : list string) : option string := pointer v path ≫= json_as_str.
Definition pointer_u64 (v : Value) (path : list string) : option N := pointer v path ≫= json_as_u64.

(** On 64-bit targets every [u64] is a [usize].
    @src adapters/src/anthropic.rs:634-644 [required_index] *)
Definition required_index (parsed : Value) : result N string :=
  match json_get parsed "index" with
  | None => Err "missing required field `index`"
  | Some index =>
    ok_or (json_as_u64 index) "required field `index` must be a non-negative integer"
  end.

(** @src adapters/src/anthropic.rs:646-654 [required_non_empty_str] *)
Definition required_non_empty_str (parsed : Value) (path : list string) : result string string :=
  let p := foldr (fun key s => "/" ++ key ++ s)%string "" path in
  match pointer_str parsed path with
  | None => Err ("missing required field `" ++ p ++ "`")%string
  | Some "" => Err ("required field `" ++ p ++ "` must not be empty")%string
  | Some value => Ok value
  end.

(** ** Handlers

    A handler gives its events and says whether the stream is done. *)
Definition Outcome : Type := (list AssistantMessageEvent * bool) * SseStreamState.

Definition goes_on (es : list AssistantMessageEvent) (s : SseStreamState) : Outcome := ((es, false), s).

Definition ends (t : AssistantMessageEvent) (s : SseStreamState) : Outcome :=
  let '(es, s) := finalize s in ((es ++ [t], true), s).

(** @src adapters/src/anthropic.rs:608-619 [malformed_event_parse_error] *)
Definition malformed_event_parse_error (event_type error : string) : SseStreamState -> Outcome :=
  ends (event_error ("Anthropic " ++ event_type ++ " JSON parse error: " ++ error)).

(** @src adapters/src/anthropic.rs:621-632 [malformed_event_protocol_error] *)
Definition malformed_event_protocol_error (event_type message : string) : SseStreamState -> Outcome :=
  ends (event_error ("Anthropic " ++ event_type ++ " protocol error: " ++ message)).

(** @src adapters/src/anthropic.rs:676-693 [process_sse_event, message_start (brace)] *)
Definition message_start (parsed : Value) (s : SseStreamState) : Outcome :=
  let field name (old : N) := default old (pointer_u64 parsed ["message"; "usage"; name]) in
  let u := usage s in
  goes_on [] (put_usage (MkUsage (field "input_tokens" (u_input u)) (u_output u)
    (field "cache_read_input_tokens" (u_cache_read u)) (field "cache_creation_input_tokens" (u_cache_write u))
    (u_total u) (u_extra u)) s).

(** The provider's index is mapped to the open block's.
    @src adapters/src/anthropic.rs:716-759 [process_sse_event, content_block_start (brace)] *)
Definition content_block_start (index : N) (parsed : Value) (s : SseStreamState) : Outcome :=
  let block_type := default "" (pointer_str parsed ["content_block"; "type"]) in
  let map_to (b : BlockAccumulator) (o : option (BlockType * nat)) :=
    match o with
    | Some entry => put_provider_blocks (<[index := entry]> (provider_blocks s)) (put_blocks b s)
    | None => put_blocks b s
    end in
  if String.eqb block_type "text" then
    let '(e, b) := ensure_text_open (blocks s) in
    goes_on (option_list e) (map_to b (pair BlockText <$> text_index b))
  else if String.eqb block_type "thinking" then
    let '(e, b) := ensure_thinking_open (blocks s) in
    goes_on (option_list e) (map_to b ((fun t => (BlockThinking, fst t)) <$> thinking_index b))
  else if String.eqb block_type "tool_use" then
    match required_non_empty_str parsed ["content_block"; "id"] with
    | Err error => malformed_event_protocol_error "content_block_start" error s
    | Ok id =>
      match required_non_empty_str parsed ["content_block"; "name"] with
      | Err error => malformed_event_protocol_error "content_block_start" error s
      | Ok name =>
        let '((content_index, start), b) := open_tool_call (blocks s) id name in
        goes_on [start] (map_to b (Some (BlockToolUse, content_index)))
      end
    end
  else goes_on [] s.

(** Debug assertions are not part of a release build.
    @src adapters/src/anthropic.rs:776-839 [process_sse_event, content_block_delta (brace)] *)
Definition content_block_delta (index : N) (parsed : Value) (s : SseStreamState) : Outcome :=
  let delta_type := default "" (pointer_str parsed ["delta"; "type"]) in
  match provider_blocks s !! index with
  | None => goes_on [] s
  | Some (block_type, content_index) =>
    if String.eqb delta_type "text_delta" then
      goes_on (option_list (TextDelta content_index <$> pointer_str parsed ["delta"; "text"])) s
    else if String.eqb delta_type "thinking_delta" then
      goes_on (option_list (ThinkingDelta content_index <$> pointer_str parsed ["delta"; "thinking"])) s
    else if String.eqb delta_type "signature_delta" then
      goes_on []
        (match block_type, pointer_str parsed ["delta"; "signature"] with
         | BlockThinking, Some signature => put_blocks (set_thinking_signature (blocks s) signature) s
         | _, _ => s
         end)
    else if String.eqb delta_type "input_json_delta" then
      goes_on (option_list (tool_call_delta content_index <$> pointer_str parsed ["delta"; "partial_json"])) s
    else goes_on [] s
  end.

(** @src adapters/src/anthropic.rs:858-874 [process_sse_event, content_block_stop] *)
Definition content_block_stop (index : N) (parsed : Value) (s : SseStreamState) : Outcome :=
  match provider_blocks s !! index with
  | None => goes_on [] s
  | Some (block_type, content_index) =>
    let s := put_provider_blocks (delete index (provider_blocks s)) s in
    let '(e, b) := match block_type with
                   | BlockText => close_text (blocks s)
                   | BlockThinking => close_thinking (blocks s) (pointer_str parsed ["signature"])
                   | BlockToolUse => close_tool_call (blocks s) content_index
                   end in
    goes_on (option_list e) (put_blocks b s)
  end.

(** @src adapters/src/anthropic.rs:885-900 [process_sse_event, message_delta (brace)] *)
Definition message_delta (parsed : Value) (s : SseStreamState) : Outcome :=
  let s := match pointer_str parsed ["delta"; "stop_reason"] with
           | Some reason =>
             put_stop (if String.eqb reason "tool_use" then ToolUse
                       else if String.eqb reason "max_tokens" then Length else Stop) s
           | None => s
           end in
  let u := usage s in
  goes_on []
    (match pointer_u64 parsed ["usage"; "output_tokens"] with
     | Some output =>
       put_usage (MkUsage (u_input u) output (u_cache_read u) (u_cache_write u) (u_total u) (u_extra u)) s
     | None => s
     end).

(** @src adapters/src/anthropic.rs:903-918 [process_sse_event, message_stop] *)
Definition message_stop (s : SseStreamState) : Outcome :=
  let u := usage s in
  let total := u64_add (u64_add (u64_add (u_input u) (u_output u)) (u_cache_read u)) (u_cache_write u) in
  let u := MkUsage (u_input u) (u_output u) (u_cache_read u) (u_cache_write u) total (u_extra u) in
  let '(es, s') := finalize s in
  ((es ++ [Done (default Stop (stop_reason s)) u cost_default], true), put_usage u s').

(** @src adapters/src/anthropic.rs:929-963 [process_sse_event, error (brace)] *)
Definition error_event (data : string) (parsed : Value) : SseStreamState -> Outcome :=
  let msg := default ("Anthropic stream error: " ++ data)%string (pointer_str parsed ["error"; "message"]) in
  let typed (names : list string) :=
    match pointer_str parsed ["error"; "type"] with
    | Some error_type => existsb (String.eqb error_type) names
    | None => false
    end in
  ends (if typed ["authentication_error"; "permission_error"] then event_error_auth msg
        else if typed ["rate_limit_error"] then event_error_throttled msg
        else if typed ["invalid_request_error"] then
          if is_context_overflow_message msg then event_error_context_overflow msg else event_error msg
        else if typed ["overloaded_error"; "api_error"; "server_error"] then event_error_network msg
        else event_error msg).

(** @src adapters/src/anthropic.rs:658-971 [process_sse_event] *)
Definition process_sse_event (event_type data : string) (s : SseStreamState) : Outcome :=
  let with_parsed (k : Value -> SseStreamState -> Outcome) :=
    match json_from_str data with
    | Err e => malformed_event_parse_error event_type e s
    | Ok parsed => k parsed s
    end in
  let with_index (k : N -> Value -> SseStreamState -> Outcome) :=
    with_parsed (fun parsed s =>
      match required_index parsed with
      | Err e => malformed_event_protocol_error event_type e s
      | Ok index => k index parsed s
      end) in
  if String.eqb event_type "message_start" then with_parsed message_start
  else if String.eqb event_type "content_block_start" then with_index content_block_start
  else if String.eqb event_type "content_block_delta" then with_index content_block_delta
  else if String.eqb event_type "content_block_stop" then with_index content_block_stop
  else if String.eqb event_type "message_delta" then with_parsed message_delta
  else if String.eqb event_type "message_stop" then message_stop s
  else if String.eqb event_type "error" then with_parsed (error_event data)
  else goes_on [] s.

Definition to_action (o : Outcome) : SseAction * SseStreamState :=
  let '((es, is_done), s) := o in (if is_done then Finish es else Continue es, s).

(** @src adapters/src/anthropic.rs:566-605 [parse_sse_stream, on_item (brace)] *)
Definition on_event (item : option SseEvent) (s : SseStreamState) : SseAction * SseStreamState :=
  to_action
    match item with
    | None => ends (event_error_network "Anthropic stream ended unexpectedly") s
    | Some (MkSseEvent event_type data) =>
      if String.eqb event_type SSE_TRANSPORT_ERROR_EVENT then ends (event_error_network ("Anthropic " ++ data)) s
      else if String.eqb event_type SSE_PROTOCOL_ERROR_EVENT then ends (event_error ("Anthropic " ++ data)) s
      else process_sse_event event_type data s
    end.

Definition anthropic_adapter : Adapter SseStreamState SseEvent :=
  sse_adapter (fun s => fst (finalize s)) "operation cancelled" on_event.

(** @src adapters/src/anthropic.rs:552-606 [parse_sse_stream] *)
Definition parse_sse_stream (cancel : option nat) (bytes : list (result string string)) :
    option (list AssistantMessageEvent) :=
  adapter_stream anthropic_adapter cancel (sse_paired_events bytes) state_new.

(** ** Requests *)

(** [None]: thinking is off.
    @src adapters/src/anthropic.rs:411-443 [resolve_thinking] *)
Definition resolve_thinking (model : ModelSpec) (max_tokens : N) : option N :=
  match ms_thinking_level model with
  | Off => None
  | level =>
    let configured := ms_thinking_budgets model ≫= fun budgets =>
      snd <$> List.find (fun b => bool_decide (fst b = level)) budgets in
    let budget := default (match level with
                           | Minimal => 1024 | Low => 2048 | High => 10000 | ExtraHigh => 20000 | _ => 5000
                           end)%N configured in
    Some (N.min budget (max_tokens - 1))
  end.

(** @src adapters/src/anthropic.rs:30-46 [AnthropicContentBlock] *)
Inductive AnthropicContentBlock :=
| AText (text : string)
| AToolUse (id name : string) (input : Value)
| AToolResult (tool_use_id content : string).

(** @src adapters/src/anthropic.rs:49-53 [AnthropicMessage] *)
Record AnthropicMessage := MkAnthropicMessage { role : string; content : list AnthropicContentBlock }.

(** @src adapters/src/anthropic.rs:480-509 [convert_messages, assistant block (brace)] *)
Definition convert_block (b : ContentBlock) : option AnthropicContentBlock :=
  match b with
  | Text "" => None
  | Text text => Some (AText text)
  | ToolCall id name arguments _ => Some (AToolUse id name arguments)
  | _ => None
  end.

Definition is_tool_result_block (b : AnthropicContentBlock) : bool :=
  match b with AToolResult _ _ => true | _ => false end.

(** [result.last_mut()] is a message of tool results. *)
Definition push_tool_result (result : list AnthropicMessage) (block : AnthropicContentBlock) :
    list AnthropicMessage :=
  match last result with
  | Some m =>
    if String.eqb (role m) "user" && forallb is_tool_result_block (content m)
    then removelast result ++ [MkAnthropicMessage (role m) (content m ++ [block])]
    else result ++ [MkAnthropicMessage "user" [block]]
  | None => [MkAnthropicMessage "user" [block]]
  end.

(** @src adapters/src/anthropic.rs:467-545 [convert_messages, loop body] *)
Definition convert_step (result : list AnthropicMessage) (msg : AgentMessage) : list AnthropicMessage :=
  match msg with
  | Custom _ => result
  | Llm (User user) => result ++ [MkAnthropicMessage "user" [AText (extract_text (um_content user))]]
  | Llm (Assistant assistant) =>
    match filtermap convert_block (am_content assistant) with
    | [] => result
    | content => result ++ [MkAnthropicMessage "assistant" content]
    end
  | Llm (ToolResult tool_result) =>
    push_tool_result result (AToolResult (tr_tool_call_id tool_result) (extract_text (tr_content tool_result)))
  end.

(** @src adapters/src/anthropic.rs:455-548 [convert_messages] *)
Definition convert_messages (messages : list AgentMessage) (system_prompt : string) :
    option string * list AnthropicMessage :=
  (match system_prompt with "" => None | _ => Some system_prompt end, foldl convert_step [] messages).

(** ** One block at a time

    Anthropic sends its blocks one after the other: a block starts when none is
    open, and its deltas are of its type. *)

Definition delta_matches (o : option (BlockType * nat)) (delta_type : string) : Prop :=
  (delta_type = "text_delta" -> exists ci, o = Some (BlockText, ci))
  /\ (delta_type = "thinking_delta" -> o = None \/ exists ci, o = Some (BlockThinking, ci))
  /\ (delta_type = "input_json_delta" -> o = None \/ exists ci, o = Some (BlockToolUse, ci)).

Definition one_at_a_time (s : SseStreamState) (ev : SseEvent) : Prop :=
  forall parsed index, json_from_str (ev_data ev) = Ok parsed -> required_index parsed = Ok index ->
  (event_type ev = "content_block_start" -> provider_blocks s = ∅)
  /\ (event_type ev = "content_block_delta" ->
      delta_matches (provider_blocks s !! index) (default "" (pointer_str parsed ["delta"; "type"]))).

Definition block_open (b : BlockAccumulator) (bt : BlockType) (ci : nat) : Prop :=
  match bt with
  | BlockText => text_index b = Some ci
  | BlockThinking => fst <$> thinking_index b = Some ci
  | BlockToolUse => ci ∈ open_tool_calls b
  end.

Definition tracked (s : SseStreamState) : Prop :=
  provider_blocks s = ∅
  \/ exists i bt ci, provider_blocks s = {[i := (bt, ci)]} /\ block_open (blocks s) bt ci.

(** The text a line carries. *)
Definition event_texts (ev : SseEvent) : list string :=
  if String.eqb (event_type ev) "content_block_delta" then
    match json_from_str (ev_data ev) with
    | Ok parsed =>
      match required_index parsed with
      | Ok _ =>
        if String.eqb (default "" (pointer_str parsed ["delta"; "type"])) "text_delta"
        then option_list (pointer_str parsed ["delta"; "text"]) else []
      | Err _ => []
      end
    | Err _ => []
    end
  else [].

(** What holds of a handler's outcome for a line of texts [texts]. *)
Definition sound_outcome (s : SseStreamState) (texts : list string) (last : bool) (o : Outcome) : Prop :=
  let '((es, is_done), s') := o in
  if is_done then exists t, closes (blocks s) es t /\ (is_error_event t = true \/ last = true /\ text_chunks es = [])
  else emits (blocks s) es (blocks s') /\ tracked s' /\ text_chunks es = texts.

Lemma ends_sound s texts last t : is_error_event t = true -> sound_outcome s texts last (ends t s).
Proof.
  intros Ht. assert (Hterm : is_terminal t = true) by (by destruct t).
  exists t. split; [exact (closes_now (blocks s) t Hterm)|by left].
Qed.

Lemma quiet_sound s s' last :
  tracked s -> blocks s' = blocks s -> provider_blocks s' = provider_blocks s ->
  sound_outcome s [] last (goes_on [] s').
Proof.
  intros Hs Hb Hp. cbn. rewrite Hb. split; [apply emits_nil|]. split; [|done].
  unfold tracked. by rewrite Hb, Hp.
Qed.

Lemma block_start_sound s last index parsed :
  tracked s -> provider_blocks s = ∅ -> sound_outcome s [] last (content_block_start index parsed s).
Proof.
  intros Hs Hp. unfold content_block_start. cbn zeta.
  destruct (String.eqb _ "text").
  { destruct s as [[n [i|] th tc] pb us sr]; cbn in *; subst pb; (split; [by exists [OpEnsureText]|split; [|done]]).
    all: right; eexists index, BlockText, _; (split; [apply insert_empty|done]). }
  destruct (String.eqb _ "thinking").
  { destruct s as [[n tx [[i sg]|] tc] pb us sr]; cbn in *; subst pb; (split; [by exists [OpEnsureThinking]|split; [|done]]).
    all: right; eexists index, BlockThinking, _; (split; [apply insert_empty|done]). }
  destruct (String.eqb _ "tool_use"); [|by apply quiet_sound].
  destruct (required_non_empty_str _ _) as [id|e]; [|by apply ends_sound].
  destruct (required_non_empty_str _ _) as [name|e]; [|by apply ends_sound].
  destruct s as [[n tx th tc] pb us sr]; cbn in *; subst pb. split; [by exists [OpOpenTool id name]|].
  split; [|done]. right. eexists index, BlockToolUse, _. split; [apply insert_empty|].
  cbn. apply elem_of_app. right. by apply list_elem_of_singleton.
Qed.

(** The block a provider index stands for is open. *)
Lemma tracked_lookup s index bt ci :
  tracked s -> provider_blocks s !! index = Some (bt, ci) -> block_open (blocks s) bt ci.
Proof.
  intros [Hp|(i & bt' & ci' & Hp & Ho)]; rewrite Hp; [by rewrite lookup_empty|].
  intros [_ [= -> ->]]%lookup_singleton_Some. done.
Qed.

Lemma block_delta_sound s last index parsed :
  tracked s -> delta_matches (provider_blocks s !! index) (default "" (pointer_str parsed ["delta"; "type"])) ->
  sound_outcome s (if String.eqb (default "" (pointer_str parsed ["delta"; "type"])) "text_delta"
                   then option_list (pointer_str parsed ["delta"; "text"]) else [])
    last (content_block_delta index parsed s).
Proof.
  intros Hs (Htext & Hthink & Htool). unfold content_block_delta. cbn zeta.
  set (ty := default "" _) in *. clearbody ty.
  destruct (String.eqb_spec ty "text_delta") as [->|_].
  { destruct (Htext eq_refl) as [ci Hci]. rewrite Hci. pose proof (tracked_lookup _ _ _ _ Hs Hci) as Ho.
    split; [|split; [done|by destruct (pointer_str _ _)]]. cbn in Ho.
    destruct (pointer_str _ _) as [d|]; cbn; [|apply emits_nil].
    exists [OpTextDelta d]. split; [done|]. cbn. unfold text_delta. by rewrite Ho. }
  destruct (provider_blocks s !! index) as [[bt ci]|] eqn:Hci; [|by apply quiet_sound].
  pose proof (tracked_lookup _ _ _ _ Hs Hci) as Ho.
  destruct (String.eqb_spec ty "thinking_delta") as [->|_].
  { destruct (Hthink eq_refl) as [?|[ci' [= -> <-]]]; [done|]. cbn in Ho.
    split; [|split; [done|by destruct (pointer_str _ _)]].
    destruct (pointer_str _ _) as [d|]; cbn; [|apply emits_nil].
    exists [OpThinkingDelta d]. split; [done|]. cbn. unfold thinking_delta.
    destruct (thinking_index (blocks s)) as [[i g]|]; [|done]. by injection Ho as ->. }
  destruct (String.eqb ty "signature_delta").
  { destruct bt; try by apply quiet_sound. destruct (pointer_str _ _) as [g|]; [|by apply quiet_sound].
    split; [by exists [OpSetSignature g]|]. split; [|done].
    destruct Hs as [Hp|(i & bt & ci' & Hp & Ho')]; [by left|]. right. exists i, bt, ci'. split; [done|].
    destruct s as [[n tx [[j g']|] tc] pb us sr], bt; cbn in *; done. }
  destruct (String.eqb_spec ty "input_json_delta") as [->|_]; [|by apply quiet_sound].
  destruct (Htool eq_refl) as [?|[ci' [= -> <-]]]; [done|]. cbn in Ho.
  split; [|split; [done|by destruct (pointer_str _ _)]].
  destruct (pointer_str _ _) as [d|]; cbn; [|apply emits_nil].
  exists [OpToolDelta ci d]. split; [|done]. cbn. rewrite andb_true_r. by apply bool_decide_eq_true.
Qed.

Lemma block_stop_sound s last index parsed :
  tracked s -> sound_outcome s [] last (content_block_stop index parsed s).
Proof.
  intros Hs. unfold content_block_stop.
  destruct (provider_blocks s !! index) as [[bt ci]|] eqn:Hci; [|by apply quiet_sound].
  assert (Hp : delete index (provider_blocks s) = ∅).
  { destruct Hs as [Hp|(i & bt' & ci' & Hp & _)]; rewrite Hp in Hci |- *; [by rewrite lookup_empty in Hci|].
    apply lookup_singleton_Some in Hci as [-> _]. apply delete_singleton_eq. }
  destruct s as [[n tx th tc] pb us sr]. cbn [provider_blocks blocks put_provider_blocks put_blocks] in *.
  destruct bt; cbn.
  - destruct tx; (split; [by exists [OpCloseText]|split; [by left|done]]).
  - destruct th as [[]|]; (split; [by exists [OpCloseThinking (pointer_str parsed ["signature"])]|split; [by left|done]]).
  - unfold close_tool_call at 1. cbn.
    pose proof (emits_op (MkBlockAccumulator n tx th tc) (OpCloseTool ci) eq_refl) as He.
    cbn in He. unfold close_tool_call in *. cbn in *.
    destruct (position (Nat.eqb ci) tc); (split; [exact He|split; [by left|done]]).
Qed.

Lemma process_sound s ev :
  tracked s -> one_at_a_time s ev ->
  sound_outcome s (event_texts ev) (String.eqb (event_type ev) "message_stop")
    (process_sse_event (event_type ev) (ev_data ev) s).
Proof.
  intros Hs Hok. unfold process_sse_event, event_texts. cbn zeta.
  destruct (String.eqb_spec (event_type ev) "message_start") as [->|_].
  { cbn. destruct (json_from_str _) as [parsed|e]; [by apply quiet_sound|by apply ends_sound]. }
  destruct (String.eqb_spec (event_type ev) "content_block_start") as [Hty|_].
  { rewrite Hty in *. cbn. destruct (json_from_str _) as [parsed|e] eqn:Hp; [|by apply ends_sound].
    destruct (required_index parsed) as [index|e] eqn:Hi; [|by apply ends_sound].
    apply block_start_sound; [done|]. by apply (Hok parsed index Hp Hi). }
  destruct (String.eqb_spec (event_type ev) "content_block_delta") as [Hty|_].
  { rewrite Hty in *. cbn. destruct (json_from_str _) as [parsed|e] eqn:Hp; [|by apply ends_sound].
    destruct (required_index parsed) as [index|e] eqn:Hi; [|by apply ends_sound].
    apply block_delta_sound; [done|]. by apply (Hok parsed index Hp Hi). }
  destruct (String.eqb_spec (event_type ev) "content_block_stop") as [->|_].
  { cbn. destruct (json_from_str _) as [parsed|e]; [|by apply ends_sound].
    destruct (required_index parsed) as [index|e]; [|by apply ends_sound]. by apply block_stop_sound. }
  destruct (String.eqb_spec (event_type ev) "message_delta") as [->|_].
  { cbn. destruct (json_from_str _) as [parsed|e]; [|by apply ends_sound]. unfold message_delta. cbn zeta.
    apply quiet_sound; [done|..]; destruct (pointer_str _ _), (pointer_u64 _ _); done. }
  destruct (String.eqb_spec (event_type ev) "message_stop") as [_|_].
  { cbn. eexists. split; [apply (closes_now (blocks s)); done|]. right. split; [done|].
    rewrite text_chunks_app. cbn.
    assert (text_chunks (map end_event (map snd (merge_sort key_le (drain_entries (blocks s))))) = []) as ->
      by exact (finalize_no_text (blocks s)). done. }
  destruct (String.eqb_spec (event_type ev) "error") as [_|_]; [|by apply quiet_sound].
  cbn. destruct (json_from_str _) as [parsed|e]; [|by apply ends_sound]. unfold error_event. cbn zeta.
  apply ends_sound. by repeat case_match.
Qed.

Lemma on_event_sound s ev :
  tracked s -> one_at_a_time s ev ->
  match on_event (Some ev) s with
  | (Continue es, s') => emits (blocks s) es (blocks s') /\ tracked s' /\ text_chunks es = event_texts ev
  | (Finish es, _) => exists t, closes (blocks s) es t
      /\ (is_error_event t = true \/ String.eqb (event_type ev) "message_stop" = true /\ text_chunks es = [])
  | (Skip, _) => False
  end.
Proof.
  intros Hs Hok.
  assert (Hto : forall o, sound_outcome s (event_texts ev) (String.eqb (event_type ev) "message_stop") o ->
    match to_action o with
    | (Continue es, s') => emits (blocks s) es (blocks s') /\ tracked s' /\ text_chunks es = event_texts ev
    | (Finish es, _) => exists t, closes (blocks s) es t
        /\ (is_error_event t = true \/ String.eqb (event_type ev) "message_stop" = true /\ text_chunks es = [])
    | (Skip, _) => False
    end).
  { intros [[es [|]] s'] H; exact H. }
  unfold on_event. destruct ev as [ty data]. apply Hto.
  destruct (String.eqb ty SSE_TRANSPORT_ERROR_EVENT); [by apply ends_sound|].
  destruct (String.eqb ty SSE_PROTOCOL_ERROR_EVENT); [by apply ends_sound|].
  exact (process_sound s (MkSseEvent ty data) Hs Hok).
Qed.

Lemma end_sound s :
  exists es s' t, on_event None s = (Finish es, s') /\ closes (blocks s) es t /\ is_error_event t = true.
Proof.
  eexists _, _, (event_error_network "Anthropic stream ended unexpectedly"). split; [reflexivity|].
  split; [exact (closes_now (blocks s) (event_error_network _) eq_refl)|done].
Qed.

#[export] Instance anthropic_sound : SoundAdapter anthropic_adapter.
Proof.
  refine (Build_SoundAdapter _ _ _ blocks tracked one_at_a_time _ _ _).
  - intros s ev Hs Hok. pose proof (on_event_sound s ev Hs Hok) as H. cbn -[on_event].
    destruct (on_event (Some ev) s) as [[es|es|] s']; [|destruct H as (t & ? & _); by exists t|done].
    by destruct H as (? & ? & _).
  - intros s _. destruct (end_sound s) as (es & s' & t & ? & ? & _). by exists es, s', t.
  - intros s _. eexists. exact (closes_now (blocks s) (cancelled_error "operation cancelled") eq_refl).
Defined.

#[export] Instance anthropic_text : TextAdapter anthropic_adapter.
Proof.
  refine (Build_TextAdapter _ _ _ _ event_texts (fun ev => String.eqb (event_type ev) "message_stop") _ _ _).
  - intros s ev Hs Hok. pose proof (on_event_sound s ev Hs Hok) as H. cbn -[on_event].
    destruct (on_event (Some ev) s) as [[es|es|] s']; [apply H| |done].
    destruct H as (t & Hc & Hcase). intros mid t' Hes. by rewrite (closes_last _ _ _ _ _ Hc Hes).
  - intros s es s' mid t _ He Hes. destruct (end_sound s) as (es' & s'' & t' & He' & Hc & Herr).
    change (on_event None s = (Finish es, s')) in He. rewrite He in He'. injection He' as <- <-.
    by rewrite (closes_last _ _ _ _ _ Hc Hes).
  - intros s mid t _ Hes. cbn in Hes. by apply app_inj_tail in Hes as [_ <-].
Defined.


End Adapter.
(** ** Concrete streams *)
Module Wire.
Import Toy.

(** The data lines of the examples are names of JSON values. *)
Definition block (i : N) (fields : list (string * json)) : json :=
  JMap [("index", JNum i); ("content_block", JMap [("type", JStr "text")]); ("delta", JMap fields)].

Definition hi : list (string * json) := [("type", JStr "text_delta"); ("text", JStr "Hi")].

Definition parse (s : string) : result json string :=
  if String.eqb s "first" then Ok (block 0 hi)
  else if String.eqb s "second" then Ok (block 1 hi)
  else Err "expected value".

#[local] Instance ext : Ext := ext_with parse.

Definition send (ty data : string) : string :=
  ("event: " ++ ty ++ String LF ("data: " ++ data ++ String LF (String LF "")))%string.

Definition bytes (events : list (string * string)) : list (result string string) :=
  map (fun ev => Ok (send (fst ev) (snd ev))) events.

Definition greeting : list (string * string) :=
  [("content_block_start", "first"); ("content_block_delta", "first"); ("content_block_stop", "first");
   ("message_stop", "stop")].

(** Two text blocks open at once: the second is the first one's content block, and
    is closed with it. *)
Definition overlapping : list (string * string) :=
  [("content_block_start", "first"); ("content_block_start", "second"); ("content_block_stop", "first");
   ("content_block_delta", "second"); ("message_stop", "stop")].

Lemma overlapping_blocks_refused :
  match parse_sse_stream None (bytes overlapping) with
  | Some es => accumulate_message 0 es "anthropic" "m" = Err "TextDelta: block at index 0 is already closed"
  | None => False
  end.
Proof. by vm_compute. Qed.

Lemma greeting_lines :
  sse_paired_events (bytes greeting)
  = [MkSseEvent "content_block_start" "first"; MkSseEvent "content_block_delta" "first";
     MkSseEvent "content_block_stop" "first"; MkSseEvent "message_stop" "stop"].
Proof. by vm_compute. Qed.

Lemma greeting_ok : lines_ok anthropic_adapter (sse_paired_events (bytes greeting)) state_new.
Proof.
  rewrite greeting_lines.
  assert (Hno : forall s ty data, ty <> "content_block_start" -> ty <> "content_block_delta" ->
    one_at_a_time s (MkSseEvent ty data)) by (by intros s ty data ? ? parsed index _ _).
  split; [by intros parsed index _ _|]. split; [|split; [by apply Hno|split; [by apply Hno|exact I]]].
  intros parsed index Hp Hi. cbn in Hp. injection Hp as <-. cbn in Hi. injection Hi as <-.
  split; [done|]. intros _. split; [by exists 0|done].
Qed.


End Wire.
End Anthropic.
