(* ===== verification/Context.v ===== *)
(** * Context compaction: [src/context.rs]

    Token estimates, the sliding-window compaction with its two pair-keeping
    adjustments, and the overflow predicate.  Token counts are unbounded
    naturals (a [usize] sum over a history in memory does not wrap).  The main
    results: what compaction keeps and reports, that its tail is the longest
    one the budget allows up to whole tool groups, and that a history in which
    every tool result follows its call stays so. *)
From S2P Require Export Types.
Open Scope list_scope.

Section ContextWindow.
Context `{E : Ext}.

(** @src src/context.rs:101-107 [content_blocks] *)
Definition content_blocks (msg : LlmMessage) : list ContentBlock :=
  match msg with
  | User m => um_content m
  | Assistant m => am_content m
  | ToolResult m => tr_content m
  end.

(** [str::len], a byte count. *)
Definition str_len (s : string) : N := N.of_nat (String.length s).

(** @src src/context.rs:44-53 [DefaultTokenCounter::count_tokens, one block] *)
Definition block_len (b : ContentBlock) : N :=
  match b with
  | Text text => str_len text
  | Thinking thinking _ => str_len thinking
  | ToolCall _ _ arguments _ => str_len (json_to_string arguments)
  | Image _ => 0
  | Extension _ data => str_len (json_to_string data)
  end.

(** @src src/context.rs:41-58 [DefaultTokenCounter::count_tokens] *)
Definition default_count_tokens (message : AgentMessage) : N :=
  match message with
  | Llm llm => (sum_by block_len (content_blocks llm) / 4)%N
  | Custom _ => 100
  end.

(** A [TokenCounter], or the default when the option is empty. *)
Definition TokenCounter : Type := AgentMessage -> N.

(** @src src/context.rs:243-244 [counter.unwrap_or(&default)] *)
Definition counter_or_default (counter : option TokenCounter) : TokenCounter :=
  default default_count_tokens counter.

(** @src src/context.rs:61-66 [estimate_tokens] *)
Definition estimate_tokens (msg : AgentMessage) : N := default_count_tokens msg.

(** A tool's declaration, as [name], [description] and [parameters_schema] give it.
    @src src/context.rs:74-84 [estimate_tool_schema_tokens] *)
Definition estimate_tool_schema_tokens (tools : list (string * string * Value)) : N :=
  sum_by (fun '(name, description, schema) =>
            (str_len name + str_len description + str_len (json_to_string schema)) / 4)%N tools.

(** @src src/context.rs:95-99 [estimate_context_tokens] *)
Definition estimate_context_tokens (system_prompt : string) (tools : list (string * string * Value))
    (messages : list AgentMessage) : N :=
  (str_len system_prompt / 4 + estimate_tool_schema_tokens tools
   + sum_by estimate_tokens messages)%N.

(** ** Tool groups *)

(** @src src/context.rs:109-114 [is_tool_result] *)
Definition is_tool_result (messages : list AgentMessage) (idx : nat) : bool :=
  match messages !! idx with Some (Llm (ToolResult _)) => true | _ => false end.

Definition tool_call_id (b : ContentBlock) : option string :=
  match b with ToolCall id _ _ _ => Some id | _ => None end.

(** @src src/context.rs:116-131 [tool_call_ids] *)
Definition tool_call_ids (message : AgentMessage) : option (list string) :=
  match message with
  | Llm (Assistant assistant) =>
    match filtermap tool_call_id (am_content assistant) with
    | [] => None
    | ids => Some ids
    end
  | _ => None
  end.

(** @src src/context.rs:133-138 [tool_result_id] *)
Definition tool_result_id (message : AgentMessage) : option string :=
  match message with Llm (ToolResult result) => Some (tr_tool_call_id result) | _ => None end.

(** The index of the last message at or before [idx] that is not a tool
    result; [None] when the walk reaches the front.
    @src src/context.rs:145-151 [extend_anchor_for_tool_results, assistant_idx loop] *)
Fixpoint assistant_before (messages : list AgentMessage) (idx : nat) : option nat :=
  if is_tool_result messages idx then
    match idx with 0 => None | S idx' => assistant_before messages idx' end
  else Some idx.

(** How many leading messages are results of [call_ids].
    @src src/context.rs:157-166 [extend_anchor_for_tool_results, group_end loop] *)
Fixpoint group_length (call_ids : list string) (messages : list AgentMessage) : nat :=
  match messages with
  | [] => 0
  | m :: messages' =>
    match tool_result_id m with
    | Some result_id => if bool_decide (result_id ∈ call_ids)
                        then S (group_length call_ids messages') else 0
    | None => 0
    end
  end.

(** @src src/context.rs:140-169 [extend_anchor_for_tool_results] *)
Definition extend_anchor_for_tool_results (messages : list AgentMessage) (anchor_end : nat) : nat :=
  if (anchor_end =? 0)%nat || (length messages <=? anchor_end)%nat then anchor_end
  else
    match assistant_before messages (anchor_end - 1) with
    | None => anchor_end
    | Some assistant_idx =>
      match messages !! assistant_idx ≫= tool_call_ids with
      | None => anchor_end
      | Some call_ids =>
        Nat.max anchor_end
          (assistant_idx + 1 + group_length call_ids (drop (assistant_idx + 1) messages))
      end
    end.

(** ** Compaction *)

(** @src src/context.rs:172-190 [CompactionReport] *)
Record CompactionReport := MkCompactionReport {
  cr_dropped_count : nat;
  cr_tokens_before : N;
  cr_tokens_after : N;
  cr_overflow : bool;
  cr_dropped_messages : list LlmMessage;
}.

(** The reverse [for] loop over [effective_anchor..len]; [n] messages are left.
    @src src/context.rs:261-272 [compact_sliding_window_with, tail loop] *)
Fixpoint tail_walk (count : TokenCounter) (messages : list AgentMessage) (effective_anchor : nat)
    (remaining_budget : N) (n : nat) (tail_tokens : N) (tail_start : nat) : nat :=
  match n with
  | 0 => tail_start
  | S n' =>
    let i := (effective_anchor + n')%nat in
    match messages !! i with
    | None => tail_start
    | Some m =>
      if (remaining_budget <? tail_tokens + count m)%N then tail_start
      else tail_walk count messages effective_anchor remaining_budget n' (tail_tokens + count m) i
    end
  end.

(** @src src/context.rs:274-280 [compact_sliding_window_with, pair adjustment] *)
Fixpoint keep_pairs (messages : list AgentMessage) (effective_anchor tail_start : nat) : nat :=
  match tail_start with
  | 0 => 0
  | S t => if (effective_anchor <? tail_start)%nat && (tail_start <? length messages)%nat
              && is_tool_result messages tail_start
           then keep_pairs messages effective_anchor t
           else tail_start
  end.

(** The indices between which messages are dropped, when any are.
    @src src/context.rs:246-285 [compact_sliding_window_with, window] *)
Definition compaction_window (count : TokenCounter) (messages : list AgentMessage)
    (budget : N) (anchor : nat) : option (nat * nat) :=
  let tokens_before := sum_by count messages in
  if (tokens_before <=? budget)%N then None
  else
    let len := length messages in
    let effective_anchor := extend_anchor_for_tool_results messages (Nat.min anchor len) in
    let anchor_tokens := sum_by count (take effective_anchor messages) in
    let remaining_budget := (budget - anchor_tokens)%N in
    let tail_start :=
      tail_walk count messages effective_anchor remaining_budget (len - effective_anchor) 0 len in
    let tail_start := keep_pairs messages effective_anchor tail_start in
    if (tail_start <=? effective_anchor)%nat then None else Some (effective_anchor, tail_start).

(** The new message vector and the report.
    @src src/context.rs:236-312 [compact_sliding_window_with] *)
Definition compact_sliding_window_with (messages : list AgentMessage) (budget : N) (anchor : nat)
    (counter : option TokenCounter) : list AgentMessage * option CompactionReport :=
  let count := counter_or_default counter in
  match compaction_window count messages budget anchor with
  | None => (messages, None)
  | Some (effective_anchor, tail_start) =>
    let dropped_count := (tail_start - effective_anchor)%nat in
    let dropped_messages :=
      filtermap as_llm (take (tail_start - effective_anchor) (drop effective_anchor messages)) in
    let messages' := take effective_anchor messages ++ drop tail_start messages in
    (messages',
     Some (MkCompactionReport dropped_count (sum_by count messages) (sum_by count messages')
             false dropped_messages))
  end.

(** @src src/context.rs:218-234 [compact_sliding_window] *)
Definition compact_sliding_window (messages : list AgentMessage) (budget : N) (anchor : nat) :
    list AgentMessage * option CompactionReport :=
  compact_sliding_window_with messages budget anchor None.

(** The deprecated closure: the report is discarded.
    @src src/context.rs:314-336 [sliding_window] *)
Definition sliding_window (normal_budget overflow_budget : N) (anchor : nat)
    (messages : list AgentMessage) (overflow : bool) : list AgentMessage :=
  fst (compact_sliding_window messages (if overflow then overflow_budget else normal_budget) anchor).

(** @src src/context.rs:338-362 [is_context_overflow] *)
Definition is_context_overflow (messages : list AgentMessage) (model : ModelSpec)
    (counter : option TokenCounter) : bool :=
  match ms_capabilities model ≫= max_context_window with
  | None => false
  | Some max_window => (max_window <? sum_by (counter_or_default counter) messages)%N
  end.

(** ** What compaction keeps *)

Lemma keep_pairs_le messages a t : keep_pairs messages a t <= t.
Proof. induction t as [|t IH]; simpl; [done|]. case_match; lia. Qed.

Lemma keep_pairs_lower messages a t : Nat.min a t <= keep_pairs messages a t.
Proof.
  induction t as [|t IH]; simpl; [lia|]. case_match eqn:H; [|lia].
  apply andb_true_iff in H as [[H%Nat.ltb_lt _]%andb_true_iff _]. lia.
Qed.

(** The walk stops at a message that is not a tool result, or at the anchor. *)
Lemma keep_pairs_boundary messages a t :
  let t' := keep_pairs messages a t in
  a < t' -> t' < length messages -> is_tool_result messages t' = false.
Proof.
  induction t as [|t IH]; cbn [keep_pairs]; [lia|]. case_match eqn:H; [done|].
  cbn. intros Ha Hl. apply andb_false_iff in H as [H|H]; [|done].
  apply andb_false_iff in H as [H%Nat.ltb_ge|H%Nat.ltb_ge]; lia.
Qed.

(** Everything the adjustment adds, past its first message, is a tool result. *)
Lemma keep_pairs_results messages a t i :
  keep_pairs messages a t < i -> i <= t -> is_tool_result messages i = true.
Proof.
  induction t as [|t IH]; cbn [keep_pairs]; [lia|]. case_match eqn:H; [|lia].
  intros Hi Hit. apply andb_true_iff in H as [_ H].
  destruct (decide (i = S t)) as [->|]; [done|]. apply IH; [done|lia].
Qed.

Lemma drop_app_split {A} (l : list A) n m :
  n <= m -> drop n l = take (m - n) (drop n l) ++ drop m l.
Proof.
  intros H. rewrite <- (take_drop (m - n) (drop n l)) at 1. f_equal.
  rewrite drop_drop. f_equal. lia.
Qed.

(** The tail loop finds the longest suffix within the remaining budget. *)
Lemma tail_walk_spec (count : TokenCounter) (messages : list AgentMessage) (a : nat) (b : N) (n : nat) :
  a + n <= length messages ->
  let tail i := sum_by count (drop i messages) in
  (tail (a + n)%nat <= b)%N ->
  let t := tail_walk count messages a b n (tail (a + n)) (a + n) in
  a <= t <= a + n /\ (tail t <= b)%N /\ (a < t -> (b < tail (t - 1)%nat)%N).
Proof.
  induction n as [|n IH]; simpl; intros Hn Hb; [lia|].
  destruct (lookup_lt_is_Some_2 messages (a + n)) as [m Hm]; [lia|]. rewrite Hm.
  assert (sum_by count (drop (a + n) messages)
          = (sum_by count (drop (a + S n) messages) + count m)%N) as Hsum.
  { rewrite (drop_S _ _ _ Hm). simpl. replace (S (a + n)) with (a + S n) by lia. lia. }
  case_match eqn:Hc.
  - apply N.ltb_lt in Hc. replace (a + S n - 1) with (a + n) by lia.
    rewrite Hsum. split_and!; [lia..|done|done].
  - apply N.ltb_ge in Hc. rewrite <- Hsum in *. specialize (IH ltac:(lia) Hc). cbn zeta in IH. lia.
Qed.

Lemma assistant_before_spec messages idx k :
  assistant_before messages idx = Some k ->
  k <= idx /\ is_tool_result messages k = false
  /\ forall i, k < i -> i <= idx -> is_tool_result messages i = true.
Proof.
  revert k. induction idx as [|idx IH]; cbn [assistant_before]; intros k.
  - destruct (is_tool_result messages 0) eqn:H; [done|]. intros [= <-]. split_and!; [done..|lia].
  - destruct (is_tool_result messages (S idx)) eqn:H.
    + intros (Hle & Hk & Hi)%IH. split_and!; [lia|done|]. intros i Hki Hii.
      destruct (decide (i = S idx)) as [->|]; [done|]. apply Hi; [done|lia].
    + intros [= <-]. split_and!; [done..|lia].
Qed.

Lemma group_length_le ids messages : group_length ids messages <= length messages.
Proof. induction messages as [|m l IH]; simpl; [done|]. repeat case_match; lia. Qed.

Lemma extend_anchor_bounds messages n :
  n <= length messages ->
  n <= extend_anchor_for_tool_results messages n <= length messages.
Proof.
  intros Hn. unfold extend_anchor_for_tool_results.
  destruct (_ || _) eqn:Hg; [lia|]. apply orb_false_iff in Hg as [_ Hg%Nat.leb_gt].
  destruct (assistant_before messages (n - 1)) as [k|] eqn:Hk; [|lia].
  apply assistant_before_spec in Hk as (Hk & _ & _).
  destruct (messages !! k ≫= tool_call_ids) as [ids|]; [|lia].
  pose proof (group_length_le ids (drop (k + 1) messages)) as Hl. rewrite length_drop in Hl. lia.
Qed.

(** The window: an anchor prefix of at least [anchor] messages, a tail that is the
    longest suffix fitting the rest of the budget, moved back to a group boundary. *)
Lemma compaction_window_spec (count : TokenCounter) messages budget anchor a t :
  compaction_window count messages budget anchor = Some (a, t) ->
  (budget < sum_by count messages)%N
  /\ a = extend_anchor_for_tool_results messages (Nat.min anchor (length messages))
  /\ a < t /\ (t < length messages -> is_tool_result messages t = false)
  /\ exists t0, t <= t0 <= length messages
      /\ (sum_by count (drop t0 messages) <= budget - sum_by count (take a messages))%N
      /\ (a < t0 -> (budget - sum_by count (take a messages)
                      < sum_by count (drop (t0 - 1) messages))%N)
      /\ forall i, t < i -> i <= t0 -> is_tool_result messages i = true.
Proof.
  unfold compaction_window. destruct (N.leb_spec (sum_by count messages) budget); [done|].
  set (a' := extend_anchor_for_tool_results messages _).
  destruct (extend_anchor_bounds messages (Nat.min anchor (length messages))) as [_ Ha];
    [lia|]. fold a' in Ha.
  set (b := (budget - sum_by count (take a' messages))%N).
  assert (sum_by count (drop (a' + (length messages - a')) messages) = 0%N) as H0.
  { rewrite drop_ge by lia. done. }
  pose proof (tail_walk_spec count messages a' b (length messages - a')) as Hw. cbv beta zeta in Hw.
  rewrite H0 in Hw. destruct Hw as (Hw1 & Hw2 & Hw3); [lia|lia|].
  replace (a' + (length messages - a')) with (length messages) in * by lia.
  set (t0 := tail_walk _ _ _ _ _ _ _) in *.
  destruct (Nat.leb_spec (keep_pairs messages a' t0) a') as [|Hlt]; [done|].
  intros [= <- <-]. split_and!; [done|done|done|intros; by apply keep_pairs_boundary|].
  exists t0. split_and!; [apply keep_pairs_le|lia|done|done|]. intros i. apply keep_pairs_results.
Qed.

(** Compaction keeps a prefix and a suffix of the history, unchanged and in
    order, drops a non-empty middle and reports it exactly: count, LLM messages,
    tokens before and after.  The prefix covers the anchor; the suffix is the
    longest one the remaining budget allows, extended to the left only over tool
    results up to their call.  So the result exceeds the budget only by the
    anchor itself or by such a group; and when nothing is reported the history
    is unchanged. *)
Lemma compact_sliding_window_with_spec messages budget anchor counter :
  let count := counter_or_default counter in
  match compact_sliding_window_with messages budget anchor counter with
  | (messages', None) => messages' = messages
  | (messages', Some r) =>
    exists a t t0,
      Nat.min anchor (length messages) <= a /\ a < t /\ t <= t0 <= length messages
      /\ messages' = take a messages ++ drop t messages
      /\ r = MkCompactionReport (t - a) (sum_by count messages) (sum_by count messages') false
               (filtermap as_llm (take (t - a) (drop a messages)))
      /\ (budget < cr_tokens_before r /\ cr_tokens_after r <= cr_tokens_before r)%N
      /\ (forall i, t < i -> i <= t0 -> is_tool_result messages i = true)
      /\ (t < length messages -> is_tool_result messages t = false)
      /\ (a < t0 -> (budget - sum_by count (take a messages)
                     < sum_by count (drop (t0 - 1) messages))%N)
      /\ (cr_tokens_after r <= N.max budget (sum_by count (take a messages))
                               + sum_by count (take (t0 - t) (drop t messages)))%N
  end.
Proof.
  cbn zeta. unfold compact_sliding_window_with. set (count := counter_or_default counter).
  destruct (compaction_window count messages budget anchor) as [[a t]|] eqn:Hw; [|done].
  apply compaction_window_spec in Hw as (Hb & Ha & Hat & Htr & t0 & Ht0 & Hfit & Hmax & Hres).
  pose proof (extend_anchor_bounds messages (Nat.min anchor (length messages)) ltac:(lia)) as Hext.
  rewrite <- Ha in Hext. exists a, t, t0. split_and!; [lia|done|lia|lia|done|done|done| |done..|]; simpl.
  - rewrite (sum_by_take_drop count a messages), sum_by_app.
    rewrite (drop_app_split messages a t) at 1 by lia. rewrite sum_by_app. lia.
  - rewrite sum_by_app, (drop_app_split messages t t0) at 1 by lia. rewrite sum_by_app. lia.
Qed.

(** ** Tool groups stay whole *)

(** The open group while reading a history: the calls of the last assistant
    message and those still without a result. *)
Definition group : Type := option (list string * list string).

Definition group_closed (g : group) : bool :=
  match g with
  | None => true
  | Some (_, open) => match open with [] => true | _ => false end
  end.

Fixpoint remove_one (id : string) (ids : list string) : list string :=
  match ids with
  | [] => []
  | i :: ids' => if decide (i = id) then ids' else i :: remove_one id ids'
  end.

Lemma elem_of_remove_one x id ids : x ∈ remove_one id ids -> x ∈ ids.
Proof. induction ids as [|i ids IH]; simpl; [done|]. case_decide; set_solver. Qed.

(** Reads one message: a result must answer a call of the open group that has no
    result yet, anything else must find the group fully answered. *)
Definition group_step (g : group) (m : AgentMessage) : option group :=
  match tool_result_id m with
  | Some id =>
    match g with
    | Some (ids, open) =>
      if bool_decide (id ∈ open) then Some (Some (ids, remove_one id open)) else None
    | None => None
    end
  | None => if group_closed g then Some ((fun ids => (ids, ids)) <$> tool_call_ids m) else None
  end.

Fixpoint group_run (g : group) (messages : list AgentMessage) : option group :=
  match messages with
  | [] => Some g
  | m :: messages' => group_step g m ≫= fun g' => group_run g' messages'
  end.

(** Every call is answered exactly once, right after its assistant message, and
    every result answers such a call: what providers require of a history. *)
Definition well_paired (messages : list AgentMessage) : bool :=
  match group_run None messages with Some g => group_closed g | None => false end.

Lemma group_run_app g l k : group_run g (l ++ k) = group_run g l ≫= fun g' => group_run g' k.
Proof.
  revert g. induction l as [|m l IH]; intros g; [done|]. cbn [group_run app].
  destruct (group_step g m) as [g'|]; cbn [mbind option_bind]; auto.
Qed.

Definition answers (ids : list string) (messages : list AgentMessage) (j : nat) : Prop :=
  exists id, messages !! j ≫= tool_result_id = Some id /\ id ∈ ids.

Lemma is_tool_result_id messages j :
  is_tool_result messages j = true <-> exists id, messages !! j ≫= tool_result_id = Some id.
Proof.
  unfold is_tool_result. destruct (messages !! j) as [[[]|]|]; simpl; naive_solver.
Qed.

Lemma answers_is_result ids messages j : answers ids messages j -> is_tool_result messages j = true.
Proof. intros (id & H & _). apply is_tool_result_id. eauto. Qed.

Lemma group_length_result ids messages j :
  j < group_length ids messages -> answers ids messages j.
Proof.
  revert j. induction messages as [|m l IH]; cbn [group_length]; intros j Hj; [lia|].
  destruct (tool_result_id m) as [id|] eqn:Hm; [|lia].
  case_bool_decide as Hid; [|lia]. destruct j as [|j]; [by exists id|]. apply (IH j). lia.
Qed.

Lemma group_length_ge ids messages n :
  (forall j, j < n -> answers ids messages j) -> n <= group_length ids messages.
Proof.
  revert n. induction messages as [|m l IH]; intros n Hn.
  - destruct n; [lia|]. by destruct (Hn 0 ltac:(lia)) as (id & [=] & _).
  - destruct n as [|n]; [lia|]. destruct (Hn 0 ltac:(lia)) as (id & Hm & Hid). cbn in Hm.
    cbn [group_length]. rewrite Hm, bool_decide_eq_true_2 by done.
    apply le_n_S, IH. intros j Hj. apply (Hn (S j)). lia.
Qed.

(** Inside an open group, its assistant message is behind, and only its results
    lie between. *)
Lemma open_group_origin messages i ids open :
  i <= length messages -> group_run None (take i messages) = Some (Some (ids, open)) ->
  open ⊆ ids /\ exists k, k < i /\ messages !! k ≫= tool_call_ids = Some ids
    /\ is_tool_result messages k = false
    /\ forall j, k < j -> j < i -> answers ids messages j.
Proof.
  revert ids open. induction i as [|i IH]; intros ids open Hi; [done|].
  destruct (lookup_lt_is_Some_2 messages i) as [m Hm]; [lia|].
  rewrite (take_S_r _ _ _ Hm), group_run_app.
  destruct (group_run None (take i messages)) as [g|] eqn:Hg; [|done].
  cbn [mbind option_bind group_run]. unfold group_step.
  destruct (tool_result_id m) as [id|] eqn:Hid.
  - destruct g as [[ids' open']|]; [|done]. case_bool_decide as Hin; [|done]. intros [= -> <-].
    destruct (IH _ _ ltac:(lia) eq_refl) as (Hsub & k & Hk & Hids & Hnr & Hj).
    split; [intros x Hx%elem_of_remove_one; auto|].
    exists k. split_and!; [lia|done|done|]. intros j Hkj Hjk.
    destruct (decide (j = i)) as [->|]; [|apply Hj; [done|lia]].
    exists id. rewrite Hm. split; [done|auto].
  - destruct (group_closed g); [|done]. cbn. destruct (tool_call_ids m) as [ids'|] eqn:Hc; [|done].
    intros [= -> <-]. split; [done|]. exists i. split_and!; [lia|by rewrite Hm| |lia].
    unfold is_tool_result. rewrite Hm. by destruct m as [[]|].
Qed.

Lemma result_origin messages i g :
  group_run None messages = Some g -> is_tool_result messages i = true ->
  exists k ids, k < i /\ messages !! k ≫= tool_call_ids = Some ids
    /\ is_tool_result messages k = false
    /\ forall j, k < j -> j <= i -> answers ids messages j.
Proof.
  intros Hrun Hi. apply is_tool_result_id in Hi as [id Hi].
  destruct (messages !! i) as [m|] eqn:Hm; [|done]. cbn in Hi.
  pose proof (lookup_lt_Some _ _ _ Hm) as Hlt.
  rewrite <- (take_drop_middle _ _ _ Hm), group_run_app in Hrun.
  destruct (group_run None (take i messages)) as [g'|] eqn:Hg; [|done].
  cbn [mbind option_bind group_run] in Hrun. unfold group_step in Hrun. rewrite Hi in Hrun.
  destruct g' as [[ids open]|]; [|done]. case_bool_decide as Hin; [|done].
  destruct (open_group_origin messages i ids open) as (Hsub & k & Hk & Hids & Hnr & Hj);
    [lia|done|].
  exists k, ids. split_and!; [done..|]. intros j Hkj Hji.
  destruct (decide (j = i)) as [->|]; [|apply Hj; [done|lia]]. exists id. rewrite Hm.
  split; [done|auto].
Qed.

Lemma assistant_before_ge messages idx k :
  k <= idx -> is_tool_result messages k = false ->
  exists k', assistant_before messages idx = Some k' /\ k <= k'.
Proof.
  induction idx as [|idx IH]; cbn [assistant_before]; intros Hk Hnr.
  - replace k with 0 in * by lia. rewrite Hnr. eauto.
  - destruct (is_tool_result messages (S idx)) eqn:H; [|eauto].
    apply IH; [|done]. destruct (decide (k = S idx)) as [->|]; [congruence|lia].
Qed.

(** The extended anchor never splits a group. *)
Lemma extend_anchor_boundary messages n g :
  group_run None messages = Some g -> n <= length messages ->
  is_tool_result messages (extend_anchor_for_tool_results messages n) = false.
Proof.
  intros Hrun Hn. set (a := extend_anchor_for_tool_results messages n).
  destruct (is_tool_result messages a) eqn:Ha; [exfalso|done].
  destruct (result_origin messages a g Hrun Ha) as (k & ids & Hka & Hids & Hnr & Hans).
  destruct (extend_anchor_bounds messages n Hn) as [Hna _]. fold a in Hna.
  assert (a < length messages) as Hal.
  { apply is_tool_result_id in Ha as [id Ha].
    destruct (messages !! a) eqn:Hl; [by eapply lookup_lt_Some|done]. }
  assert (Hdef : a = extend_anchor_for_tool_results messages n) by done. clearbody a.
  unfold extend_anchor_for_tool_results in Hdef.
  destruct (Nat.eqb_spec n 0) as [|Hn0], (Nat.leb_spec (length messages) n); simpl in Hdef; try lia.
  destruct (decide (k <= n - 1)) as [Hkn|Hkn].
  - destruct (assistant_before_ge messages (n - 1) k Hkn Hnr) as (k' & Hk' & Hkk).
    rewrite Hk' in Hdef. apply assistant_before_spec in Hk' as (Hk'n & Hnr' & _).
    destruct (decide (k' = k)) as [->|Hne].
    + rewrite Hids in Hdef.
      assert (a - k <= group_length ids (drop (k + 1) messages)); [|lia].
      apply group_length_ge. intros j Hj. unfold answers. rewrite lookup_drop.
      apply (Hans (k + 1 + j)); lia.
    + rewrite (answers_is_result ids messages k') in Hnr'; [done|]. apply Hans; lia.
  - destruct (assistant_before messages (n - 1)) as [k'|] eqn:Hk'; [|lia].
    apply assistant_before_spec in Hk' as (Hk'n & _ & _).
    destruct (messages !! k' ≫= tool_call_ids) as [ids'|]; [|lia].
    assert (answers ids' (drop (k' + 1) messages) (k - (k' + 1))) as Hres.
    { apply group_length_result. lia. }
    unfold answers in Hres. rewrite lookup_drop in Hres.
    replace (k' + 1 + (k - (k' + 1))) with k in Hres by lia.
    apply answers_is_result in Hres. congruence.
Qed.

(** Reading past a message that is not a result closes the open group. *)
Lemma group_run_boundary g messages g' :
  group_run g messages = Some g' -> messages <> [] -> is_tool_result messages 0 = false ->
  group_closed g = true /\ forall g0, group_closed g0 = true -> group_run g0 messages = Some g'.
Proof.
  destruct messages as [|m l]; [done|]. intros Hrun _ Hnr. cbn [group_run] in *.
  unfold group_step in *. assert (tool_result_id m = None) as Hm by (by destruct m as [[]|]).
  rewrite Hm in *. destruct (group_closed g); [|done]. split; [done|]. by intros g0 ->.
Qed.

Lemma is_tool_result_drop n messages i :
  is_tool_result (drop n messages) i = is_tool_result messages (n + i).
Proof. unfold is_tool_result. by rewrite lookup_drop. Qed.

(** C40: compaction never breaks a tool exchange: if every tool call of the
    history is answered exactly once by the results right after it and every result answers
    such a call, the compacted history has the same property, whatever the
    budget, the anchor and the token counter. *)
Theorem compaction_keeps_tool_groups messages budget anchor counter :
  well_paired messages = true ->
  well_paired (fst (compact_sliding_window_with messages budget anchor counter)) = true.
Proof.
  intros Hwp. unfold compact_sliding_window_with.
  destruct (compaction_window _ _ _ _) as [[a t]|] eqn:Hw; [|done]. simpl.
  apply compaction_window_spec in Hw as (_ & Ha & Hat & Htr & t0 & Ht0 & _).
  unfold well_paired in *. destruct (group_run None messages) as [gf|] eqn:Hrun; [|done].
  pose proof (extend_anchor_boundary messages (Nat.min anchor (length messages)) gf Hrun ltac:(lia))
    as Hbound. rewrite <- Ha in Hbound.
  rewrite <- (take_drop a messages), group_run_app in Hrun. rewrite group_run_app.
  destruct (group_run None (take a messages)) as [ga|]; [|done]. cbn [mbind option_bind] in *.
  destruct (group_run_boundary ga (drop a messages) gf Hrun) as [Hca _].
  { intros H%(f_equal length). rewrite length_drop in H. simpl in H. lia. }
  { by rewrite is_tool_result_drop, Nat.add_0_r. }
  destruct (decide (t = length messages)) as [->|Ht].
  { by rewrite (drop_ge messages (length messages)) by lia. }
  rewrite (drop_app_split messages a t), group_run_app in Hrun by lia.
  destruct (group_run ga (take (t - a) (drop a messages))) as [gt|]; [|done].
  cbn [mbind option_bind] in Hrun.
  destruct (group_run_boundary gt (drop t messages) gf Hrun) as [_ Hany].
  { intros H%(f_equal length). rewrite length_drop in H. simpl in H. lia. }
  { rewrite is_tool_result_drop, Nat.add_0_r. apply Htr. lia. }
  by rewrite (Hany ga Hca).
Qed.

End ContextWindow.

(** A history of a question, a tool exchange and an answer, twice. *)
Definition demo_history : list AgentMessage :=
  [Demo.user "question one, long enough to cost tokens";
   Demo.assistant [Demo.call "a" "ls" ""; Demo.call "b" "ls" ""];
   Demo.result "a" "0123456789abcdef"; Demo.result "b" "0123456789abcdef";
   Demo.assistant [Demo.text "a first answer that is dropped"];
   Demo.user "question two";
   Demo.assistant [Demo.call "c" "ls" ""];
   Demo.result "c" "0123456789abcdef"; Demo.assistant [Demo.text "done"]].

Lemma compaction_keeps_tool_groups_witness :
  well_paired demo_history = true
  /\ well_paired (fst (compact_sliding_window_with demo_history 24 2 None)) = true
  /\ length (fst (compact_sliding_window_with demo_history 24 2 None)) = 7.
Proof.
  assert (H : well_paired demo_history = true) by reflexivity.
  split; [exact H|]. split; [exact (compaction_keeps_tool_groups demo_history 24 2 None H)|].
  reflexivity.
Defined.
