(* ===== verification/Transformers.v ===== *)
(** * Context transformers: [src/context_transformer.rs], [src/context_version.rs], [src/context_cache.rs]

    The [ContextTransformer] interface the turn pipeline calls before every
    provider request, its built-in implementations (closures, the sliding
    window, the versioning wrapper), the version store it writes to, and the
    cache life cycle that decides how much prefix compaction must leave alone. *)
From S2P Require Export Context.
Open Scope list_scope.

(** ** The cache life cycle *)

(** @src src/context_cache.rs:15-30 [CacheConfig] *)
Record CacheConfig := MkCacheConfig {
  cc_ttl : Duration;
  cc_min_tokens : N;
  cc_cache_intervals : nat;
}.

(** @src src/context_cache.rs:80-90 [CacheState] *)
Record CacheState := MkCacheState {
  turns_since_write : nat;
  cached_prefix_len : nat;
}.

(** @src src/context_cache.rs:93-99 [CacheState::new] *)
Definition cache_state_new : CacheState := MkCacheState 0 0.

(** @src src/context_cache.rs:101-119 [CacheState::advance_turn] *)
Definition advance_turn (s : CacheState) (config : CacheConfig) : CacheHint * CacheState :=
  if (turns_since_write s =? 0)%nat then
    (Write (cc_ttl config), MkCacheState 1 (cached_prefix_len s))
  else if (cc_cache_intervals config <=? turns_since_write s)%nat then
    (Write (cc_ttl config), MkCacheState 1 (cached_prefix_len s))
  else (Read, MkCacheState (S (turns_since_write s)) (cached_prefix_len s)).

(** @src src/context_cache.rs:121-127 [CacheState::reset] *)
Definition cache_state_reset (s : CacheState) : CacheState := MkCacheState 0 0.

(** The hints of [n] consecutive turns. *)
Fixpoint advance_turns (s : CacheState) (config : CacheConfig) (n : nat) : list CacheHint :=
  match n with
  | 0 => []
  | S n' => let '(h, s') := advance_turn s config in h :: advance_turns s' config n'
  end.

Lemma advance_turns_from config k n :
  1 <= k -> k <= Nat.max 1 (cc_cache_intervals config) ->
  forall len i,
  advance_turns (MkCacheState k len) config n !! i =
  if decide (i < n) then
    Some (if decide ((k + i) mod (Nat.max 1 (cc_cache_intervals config)) = 0) then Write (cc_ttl config)
          else Read)
  else None.
Proof.
  set (p := Nat.max 1 (cc_cache_intervals config)). intros Hk1 Hkp len i.
  revert k Hk1 Hkp i. induction n as [|n IH]; intros k Hk1 Hkp i; [done|].
  assert (advance_turn (MkCacheState k len) config
          = if decide (k mod p = 0) then (Write (cc_ttl config), MkCacheState 1 len)
            else (Read, MkCacheState (S k) len)) as Hstep.
  { unfold advance_turn. simpl. destruct (Nat.eqb_spec k 0) as [|_]; [lia|].
    destruct (Nat.leb_spec (cc_cache_intervals config) k) as [Hc|Hc].
    - assert (k = p) as -> by lia. by rewrite Nat.Div0.mod_same.
    - rewrite Nat.mod_small by lia. rewrite decide_False by lia. done. }
  cbn [advance_turns]. rewrite Hstep. destruct (decide (k mod p = 0)) as [H0|H0].
  - assert (k = p) as ->.
    { destruct (decide (k = p)); [done|]. rewrite Nat.mod_small in H0 by lia. lia. }
    destruct i as [|i]; [by rewrite Nat.add_0_r, !decide_True by (rewrite ?Nat.Div0.mod_same; lia)|].
    cbn [lookup list_lookup]. rewrite IH by lia.
    replace (p + S i) with (1 + i + 1 * p) by lia. rewrite Nat.Div0.mod_add.
    destruct (decide (i < n)), (decide (S i < S n)); try lia; done.
  - assert (k < p) by (destruct (decide (k = p)) as [->|]; [by rewrite Nat.Div0.mod_same in H0|lia]).
    destruct i as [|i]; [by rewrite Nat.add_0_r, decide_True, decide_False by (done || lia)|].
    cbn [lookup list_lookup]. rewrite IH by lia. replace (S k + i) with (k + S i) by lia.
    destruct (decide (i < n)), (decide (S i < S n)); try lia; done.
Qed.

(** The cache hints of a session are periodic: the first turn after creation
    or [reset] writes the prefix, and from then on exactly every
    [max 1 cache_intervals]-th turn writes it again, all others reading it. *)
Lemma cache_hints_periodic s config n i :
  turns_since_write s = 0 \/ (exists s0, s = cache_state_reset s0) ->
  i < n ->
  advance_turns s config n !! i
  = Some (if decide (i mod (Nat.max 1 (cc_cache_intervals config)) = 0) then Write (cc_ttl config)
          else Read).
Proof.
  intros Hs Hi. assert (turns_since_write s = 0) as H0 by (destruct Hs as [|[s0 ->]]; done).
  destruct s as [t len]. simpl in H0. subst t. destruct n as [|n]; [lia|].
  cbn [advance_turns advance_turn]. destruct i as [|i].
  { rewrite Nat.Div0.mod_0_l. done. }
  cbn. rewrite advance_turns_from by lia. rewrite decide_True by lia. done.
Qed.

Lemma cache_hints_periodic_witness :
  2 < 7 /\ advance_turns cache_state_new (MkCacheConfig 300%N 10 3) 7 !! 3 = Some (Write 300%N).
Proof.
  split; [lia|].
  exact (cache_hints_periodic cache_state_new (MkCacheConfig 300%N 10 3) 7 3 (or_introl eq_refl)
           ltac:(lia)).
Defined.

Section Transformers.
Context `{E : Ext}.

(** ** The interface *)

(** What the turn pipeline may ask of a transformer: transform the messages, and
    accept a cached-prefix length when it downcasts to the sliding window.
    Interior mutability is the threaded [T].
    @src src/context_transformer.rs:12-37 [ContextTransformer] *)
Class ContextTransformer (T : Type) := {
  transform : T -> N -> list AgentMessage -> bool ->
              option CompactionReport * (list AgentMessage * T);
  publish_prefix : T -> nat -> T;
}.

(** A transformer whose report accounts for every LLM message: none appears, and
    those that leave are in [dropped_messages]. *)
Class AccountedTransformer (T : Type) `{ContextTransformer T} := {
  transform_accounts t now messages overflow :
    match transform t now messages overflow with
    | (Some r, (messages', _)) =>
      filtermap as_llm messages ≡ₚ filtermap as_llm messages' ++ cr_dropped_messages r
    | (None, (messages', _)) => messages' = messages
    end;
}.

(** A bare closure.
    @src src/context_transformer.rs:46-68 [ContextTransformer for F] *)
Definition closure_transform (f : list AgentMessage -> bool -> list AgentMessage)
    (messages : list AgentMessage) (overflow : bool) :
    option CompactionReport * list AgentMessage :=
  let before := length messages in
  let messages := f messages overflow in
  let after := length messages in
  (if (after <? before)%nat then Some (MkCompactionReport (before - after) 0 0 overflow []) else None,
   messages).

#[export] Instance closure_transformer :
    ContextTransformer (list AgentMessage -> bool -> list AgentMessage) := {|
  transform f _ messages overflow :=
    let '(r, messages) := closure_transform f messages overflow in (r, (messages, f));
  publish_prefix f _ := f;
|}.

(** ** The sliding window *)

(** @src src/context_transformer.rs:82-95 [SlidingWindowTransformer] *)
Record SlidingWindowTransformer := MkSlidingWindow {
  sw_normal_budget : N;
  sw_overflow_budget : N;
  sw_anchor : nat;
  sw_token_counter : option TokenCounter;
  sw_cached_prefix_len : nat;
  sw_published_prefix : nat;
}.

(** @src src/context_transformer.rs:105-115 [SlidingWindowTransformer::new] *)
Definition sliding_window_new (normal_budget overflow_budget : N) (anchor : nat) :
    SlidingWindowTransformer :=
  MkSlidingWindow normal_budget overflow_budget anchor None 0 0.

(** @src src/context_transformer.rs:144-147 [SlidingWindowTransformer::publish_cached_prefix] *)
Definition publish_cached_prefix (w : SlidingWindowTransformer) (len : nat) :
    SlidingWindowTransformer :=
  MkSlidingWindow (sw_normal_budget w) (sw_overflow_budget w) (sw_anchor w) (sw_token_counter w)
    (sw_cached_prefix_len w) len.

(** @src src/context_transformer.rs:152-159 [SlidingWindowTransformer::cached_prefix_len] *)
Definition sw_cached_prefix (w : SlidingWindowTransformer) : nat :=
  if (0 <? sw_published_prefix w)%nat then sw_published_prefix w else sw_cached_prefix_len w.

(** @src src/context_transformer.rs:163-181 [SlidingWindowTransformer::transform] *)
Definition sliding_window_transform (w : SlidingWindowTransformer) (messages : list AgentMessage)
    (overflow : bool) : option CompactionReport * list AgentMessage :=
  let budget := if overflow then sw_overflow_budget w else sw_normal_budget w in
  let effective_anchor := Nat.max (sw_anchor w) (sw_cached_prefix w) in
  match compact_sliding_window_with messages budget effective_anchor (sw_token_counter w) with
  | (messages, None) => (None, messages)
  | (messages, Some r) =>
    (Some (MkCompactionReport (cr_dropped_count r) (cr_tokens_before r) (cr_tokens_after r)
             overflow (cr_dropped_messages r)), messages)
  end.

#[export] Instance sliding_window_transformer : ContextTransformer SlidingWindowTransformer := {|
  transform w _ messages overflow :=
    let '(r, messages) := sliding_window_transform w messages overflow in (r, (messages, w));
  publish_prefix := publish_cached_prefix;
|}.

(** ** Versions and their store *)

(** @src src/context_version.rs:25-38 [ContextVersion] *)
Record ContextVersion := MkContextVersion {
  cv_version : N; cv_turn : N; cv_timestamp : N;
  cv_messages : list LlmMessage; cv_summary : option string;
}.

(** @src src/context_version.rs:62-75 [ContextVersionMeta] *)
Record ContextVersionMeta := MkContextVersionMeta {
  cvm_version : N; cvm_turn : N; cvm_timestamp : N;
  cvm_message_count : nat; cvm_has_summary : bool;
}.

(** @src src/context_version.rs:201-207 [InMemoryVersionStore::list_versions, one version] *)
Definition meta_of (v : ContextVersion) : ContextVersionMeta :=
  MkContextVersionMeta (cv_version v) (cv_turn v) (cv_timestamp v) (length (cv_messages v))
    (bool_decide (is_Some (cv_summary v))).

(** @src src/context_version.rs:99-120 [ContextVersionStore] *)
Class ContextVersionStore (S : Type) := {
  save_version : S -> ContextVersion -> S;
  load_version : S -> N -> option ContextVersion;
  list_versions : S -> list ContextVersionMeta;
  empty_store : S;
}.

(** @src src/context_version.rs:113-119 [ContextVersionStore::latest_version] *)
Definition latest_version {S} `{ContextVersionStore S} (s : S) : option ContextVersion :=
  last (list_versions s) ≫= fun meta => load_version s (cvm_version meta).

(** The promise of a store: what is saved is listed last and can be loaded. *)
Class LawfulVersionStore (S : Type) `{ContextVersionStore S} := {
  list_empty : list_versions empty_store = [];
  load_empty n : load_version empty_store n = None;
  list_save s v : list_versions (save_version s v) = list_versions s ++ [meta_of v];
  load_save_eq s v :
    load_version s (cv_version v) = None -> load_version (save_version s v) (cv_version v) = Some v;
  load_save_ne s v n : n <> cv_version v -> load_version (save_version s v) n = load_version s n;
}.

(** @src src/context_version.rs:147-149 [InMemoryVersionStore] *)
Definition InMemoryVersionStore : Type := list ContextVersion.

(** @src src/context_version.rs:178-184 [InMemoryVersionStore::save_version] *)
Definition mem_save_version (s : InMemoryVersionStore) (v : ContextVersion) : InMemoryVersionStore :=
  s ++ [v].

(** @src src/context_version.rs:186-192 [InMemoryVersionStore::load_version] *)
Definition mem_load_version (s : InMemoryVersionStore) (n : N) : option ContextVersion :=
  find_first (fun v => cv_version v =? n)%N s.

(** @src src/context_version.rs:194-209 [InMemoryVersionStore::list_versions] *)
Definition mem_list_versions (s : InMemoryVersionStore) : list ContextVersionMeta := map meta_of s.

#[export] Instance in_memory_store : ContextVersionStore InMemoryVersionStore := {|
  save_version := mem_save_version;
  load_version := mem_load_version;
  list_versions := mem_list_versions;
  empty_store := [];
|}.

(** ** The versioning wrapper *)

(** @src src/context_version.rs:236-246 [VersioningTransformer] *)
Record VersioningTransformer (T S : Type) := MkVersioning {
  vt_inner : T;
  vt_store : S;
  vt_summarizer : option (list LlmMessage -> option string);
  vt_next_version : N;
  vt_turn_counter : N;
}.

End Transformers.

Arguments MkVersioning {_ _ _} _ _ _ _ _.
Arguments vt_inner {_ _ _} _.
Arguments vt_store {_ _ _} _.
Arguments vt_summarizer {_ _ _} _.
Arguments vt_next_version {_ _ _} _.
Arguments vt_turn_counter {_ _ _} _.

Section Versioning.
Context `{E : Ext} {T S : Type} `{!ContextTransformer T} `{!ContextVersionStore S}.

(** @src src/context_version.rs:249-263 [VersioningTransformer::new] *)
Definition versioning_new (inner : T) (store : S)
    (summarizer : option (list LlmMessage -> option string)) : VersioningTransformer T S :=
  MkVersioning inner store summarizer 1 0.

(** @src src/context_version.rs:279-318 [VersioningTransformer::transform] *)
Definition versioning_transform (vt : VersioningTransformer T S) (now : N)
    (messages : list AgentMessage) (overflow : bool) :
    option CompactionReport * (list AgentMessage * VersioningTransformer T S) :=
  match transform (vt_inner vt) now messages overflow with
  | (None, (messages, inner)) =>
    (None, (messages, MkVersioning inner (vt_store vt) (vt_summarizer vt) (vt_next_version vt)
                        (vt_turn_counter vt)))
  | (Some report, (messages, inner)) =>
    match cr_dropped_messages report with
    | [] => (Some report, (messages, MkVersioning inner (vt_store vt) (vt_summarizer vt)
                                       (vt_next_version vt) (vt_turn_counter vt)))
    | _ :: _ =>
      let turn_counter := u64_add (vt_turn_counter vt) 1 in
      let summary := vt_summarizer vt ≫= fun s => s (cr_dropped_messages report) in
      let version := MkContextVersion (vt_next_version vt) turn_counter now
                       (cr_dropped_messages report) summary in
      let next_version := u64_add (vt_next_version vt) 1 in
      (Some report, (messages, MkVersioning inner (save_version (vt_store vt) version)
                                 (vt_summarizer vt) next_version turn_counter))
    end
  end.

#[export] Instance versioning_transformer : ContextTransformer (VersioningTransformer T S) := {|
  transform := versioning_transform;
  (* [as_any] is not overridden: the wrapped window never sees the cached prefix. *)
  publish_prefix vt _ := vt;
|}.

End Versioning.

(** ** Implementations meet the interfaces *)

Section Laws.
Context `{E : Ext}.

#[export] Instance sliding_window_accounted : AccountedTransformer SlidingWindowTransformer.
Proof.
  constructor. intros w now messages overflow. cbn [transform sliding_window_transformer].
  unfold sliding_window_transform, compact_sliding_window_with.
  destruct (compaction_window _ messages _ _) as [[a t]|] eqn:Hw; [|done].
  apply compaction_window_spec in Hw as (_ & _ & Hat & _). cbn.
  rewrite filtermap_app. rewrite <- (take_drop a messages) at 1.
  rewrite filtermap_app, (drop_app_split messages a t) at 1 by lia.
  rewrite filtermap_app, <- !app_assoc. f_equiv. apply Permutation_app_comm.
Qed.

Lemma find_first_app {A} (p : A -> bool) l k :
  find_first p (l ++ k) = match find_first p l with Some a => Some a | None => find_first p k end.
Proof.
  unfold find_first. induction l as [|a l IH]; [simpl; by destruct (position p k ≫= _)|].
  cbn [position app]. destruct (p a); [done|].
  destruct (position p (l ++ k)) as [i|], (position p l) as [j|]; cbn in *; auto.
Qed.

#[export] Instance in_memory_lawful : LawfulVersionStore InMemoryVersionStore.
Proof.
  constructor; try done;
    cbn [load_version save_version list_versions in_memory_store empty_store];
    unfold mem_save_version, mem_load_version, mem_list_versions.
  - intros s v. by rewrite map_app.
  - intros s v. rewrite find_first_app. intros ->. cbn. unfold find_first. cbn.
    by rewrite N.eqb_refl.
  - intros s v n Hn. rewrite find_first_app.
    destruct (find_first _ s); [done|]. unfold find_first. cbn.
    destruct (N.eqb_spec (cv_version v) n); [congruence|done].
Qed.

End Laws.

(** ** Nothing is lost *)

Section Conservation.
Context `{E : Ext} {T S : Type} `{!ContextTransformer T} `{!AccountedTransformer T}
  `{!ContextVersionStore S} `{!LawfulVersionStore S}.

(** One compaction pass of a session: messages appended since, the overflow flag
    and the clock. *)
Definition round : Type := list AgentMessage * bool * N.

Fixpoint run_rounds (vt : VersioningTransformer T S) (messages : list AgentMessage)
    (rounds : list round) : list AgentMessage * VersioningTransformer T S :=
  match rounds with
  | [] => (messages, vt)
  | (appended, overflow, now) :: rounds' =>
    let '(_, (messages, vt)) := transform vt now (messages ++ appended) overflow in
    run_rounds vt messages rounds'
  end.

Definition appended_messages (rounds : list round) : list AgentMessage :=
  concat (map (fun r => fst (fst r)) rounds).

(** The store holds [vs], numbered from 1, and they can be loaded. *)
Record store_holds (vt : VersioningTransformer T S) (vs : list ContextVersion) : Prop := {
  sh_next : vt_next_version vt = N.of_nat (Datatypes.S (length vs));
  sh_turn : vt_turn_counter vt = N.of_nat (length vs);
  sh_list : list_versions (vt_store vt) = map meta_of vs;
  sh_number k v : vs !! k = Some v ->
    cv_version v = N.of_nat (Datatypes.S k) /\ cv_turn v = N.of_nat (Datatypes.S k)
    /\ load_version (vt_store vt) (N.of_nat (Datatypes.S k)) = Some v;
  sh_fresh n : (N.of_nat (length vs) < n)%N -> load_version (vt_store vt) n = None;
}.

Definition stored_messages (vs : list ContextVersion) : list LlmMessage := concat (map cv_messages vs).

Lemma Permutation_app_middle_swap {A} (a a' b c c' : list A) :
  a ++ c ≡ₚ a' ++ c' -> a ++ b ++ c ≡ₚ a' ++ b ++ c'.
Proof.
  intros H. rewrite (Permutation_app_comm b c), (Permutation_app_comm b c'), !app_assoc.
  by rewrite H.
Qed.

Lemma versioning_step vt vs now messages overflow :
  store_holds vt vs -> (N.of_nat (length vs) + 2 < u64_modulus)%N ->
  let '(_, (messages', vt')) := versioning_transform vt now messages overflow in
  exists vs', store_holds vt' vs' /\ length vs' <= Datatypes.S (length vs)
    /\ filtermap as_llm messages ++ stored_messages vs
       ≡ₚ filtermap as_llm messages' ++ stored_messages vs'.
Proof.
  intros [Hn Ht Hl Hk Hf] Hlt. unfold versioning_transform.
  pose proof (transform_accounts (vt_inner vt) now messages overflow) as Hacc.
  destruct (transform (vt_inner vt) now messages overflow) as [[r|] [messages' inner]].
  2: { subst messages'. exists vs. split_and!; [by split|lia|done]. }
  destruct (cr_dropped_messages r) as [|d ds] eqn:Hd.
  { exists vs. split_and!; [by split|lia|]. by rewrite Hacc, app_nil_r. }
  rewrite <- Hd in *. set (v := MkContextVersion _ _ _ _ _).
  exists (vs ++ [v]). split_and!; [|rewrite length_app; simpl; lia|].
  - assert (Hver : cv_version v = N.of_nat (Datatypes.S (length vs))) by done.
    split; cbn [vt_next_version vt_turn_counter vt_store].
    + rewrite length_app, Hn. simpl. rewrite u64_add_exact by lia. lia.
    + rewrite length_app, Ht. simpl. rewrite u64_add_exact by lia. lia.
    + by rewrite list_save, Hl, map_app.
    + intros k w [Hw|[Hge Hw]]%lookup_app_Some.
      * destruct (Hk k w Hw) as (? & ? & ?). split_and!; [done..|].
        rewrite load_save_ne; [done|]. rewrite Hver. apply lookup_lt_Some in Hw. lia.
      * destruct (k - length vs) as [|] eqn:Hkv; [|done]. simpl in Hw. injection Hw as <-.
        assert (k = length vs) as -> by lia. split_and!; [done| |].
        -- cbn. rewrite Ht, u64_add_exact by lia. lia.
        -- rewrite <- Hver. apply load_save_eq. apply Hf. rewrite Hver. lia.
    + intros n Hnl. rewrite length_app in Hnl. simpl in Hnl.
      rewrite load_save_ne; [apply Hf; lia|]. rewrite Hver. lia.
  - unfold stored_messages. rewrite map_app, concat_app. simpl. rewrite app_nil_r, Hacc.
    rewrite <- !app_assoc. f_equiv. apply Permutation_app_comm.
Qed.

Lemma run_rounds_holds vt vs messages rounds :
  store_holds vt vs -> (N.of_nat (length vs + length rounds) + 2 < u64_modulus)%N ->
  let '(messages', vt') := run_rounds vt messages rounds in
  exists vs', store_holds vt' vs'
    /\ filtermap as_llm (messages ++ appended_messages rounds) ++ stored_messages vs
       ≡ₚ filtermap as_llm messages' ++ stored_messages vs'.
Proof.
  revert vt vs messages. induction rounds as [|[[app o] now] rounds IH]; intros vt vs messages H Hlt.
  { exists vs. split; [done|]. unfold appended_messages. simpl. by rewrite app_nil_r. }
  cbn [run_rounds]. simpl in Hlt.
  pose proof (versioning_step vt vs now (messages ++ app) o H ltac:(lia)) as Hstep.
  cbn [transform versioning_transformer].
  destruct (versioning_transform vt now (messages ++ app) o) as [r [messages1 vt1]].
  destruct Hstep as (vs1 & H1 & Hlen & Hp1).
  specialize (IH vt1 vs1 messages1 H1 ltac:(lia)).
  destruct (run_rounds vt1 messages1 rounds) as [messages' vt'].
  destruct IH as (vs' & H' & Hp'). exists vs'. split; [done|]. rewrite <- Hp'.
  unfold appended_messages in *. simpl. rewrite (app_assoc messages).
  rewrite (filtermap_app as_llm (messages ++ app)), (filtermap_app as_llm messages1).
  rewrite <- !app_assoc. by apply Permutation_app_middle_swap.
Qed.

(** Versioned compaction loses nothing: over any session of appends and
    compaction passes, through any transformer that accounts for what it drops
    and any lawful store, the LLM messages ever appended are those still in the
    context together with those of the stored versions; versions are numbered
    1, 2, ... without gaps, each can be loaded by its number, and
    [latest_version] is the newest.  A version's [turn] is its number: it
    counts versions, not turns of the agent. *)
Lemma versioning_conserves inner store summarizer messages rounds :
  list_versions store = [] -> (forall n, load_version store n = None) ->
  (N.of_nat (length rounds) + 2 < u64_modulus)%N ->
  let '(messages', vt) := run_rounds (versioning_new inner store summarizer) messages rounds in
  exists vs,
    filtermap as_llm (messages ++ appended_messages rounds)
      ≡ₚ filtermap as_llm messages' ++ stored_messages vs
    /\ list_versions (vt_store vt) = map meta_of vs
    /\ (forall k v, vs !! k = Some v ->
          cv_version v = N.of_nat (Datatypes.S k) /\ cv_turn v = cv_version v
          /\ load_version (vt_store vt) (cv_version v) = Some v)
    /\ latest_version (vt_store vt) = last vs.
Proof.
  intros Hl Hload Hlt.
  pose proof (run_rounds_holds (versioning_new inner store summarizer) [] messages rounds) as H.
  destruct (run_rounds _ messages rounds) as [messages' vt].
  destruct H as (vs & [_ _ Hlist Hnum _] & Hp).
  { split; cbn; try done. }
  { done. }
  exists vs. split_and!.
  - rewrite <- Hp. unfold stored_messages. simpl. by rewrite app_nil_r.
  - done.
  - intros k v (-> & -> & ?)%Hnum. done.
  - unfold latest_version. rewrite Hlist. change (map ?f ?l) with (f <$> l). rewrite fmap_last.
    destruct (last vs) as [v|] eqn:Hv; [|done]. cbn.
    rewrite last_lookup in Hv. destruct (Hnum _ _ Hv) as (-> & _ & ?). done.
Qed.

End Conservation.

Definition demo_store : @InMemoryVersionStore Toy.ext := [].

(** Two passes, the second after an overflow: both drop messages. *)
Definition demo_versioned : list AgentMessage * VersioningTransformer SlidingWindowTransformer (@InMemoryVersionStore Toy.ext) :=
  run_rounds (versioning_new (sliding_window_new 24 10 2) demo_store None)
    demo_history [([Demo.user "next"], false, 5%N); ([], true, 6%N)].

Lemma versioning_conserves_witness :
  exists vs, filtermap as_llm (demo_history ++ [Demo.user "next"])
               ≡ₚ filtermap as_llm (fst demo_versioned) ++ stored_messages vs /\ length vs = 2.
Proof.
  pose proof (versioning_conserves (sliding_window_new 24 10 2) demo_store None demo_history
                [([Demo.user "next"], false, 5%N); ([], true, 6%N)]
                eq_refl (fun _ => eq_refl) ltac:(vm_compute; reflexivity)) as H.
  fold demo_versioned in H. destruct demo_versioned as [messages' vt] eqn:Hr.
  destruct H as (vs & Hp & Hl & _). exists vs. split; [exact Hp|].
  apply (f_equal length) in Hl. rewrite length_map in Hl. rewrite <- Hl.
  apply (f_equal snd) in Hr. simpl in Hr. rewrite <- Hr. vm_compute. reflexivity.
Defined.
