(* ===== verification/SessionState.v ===== *)
(** * Session key-value state: [src/state.rs]

    [SessionState] with its [StateDelta]: every operation that changes the data
    records what a log reader needs.  The main theorem replays the flushed
    deltas; the last lemma shows the one operation outside that contract,
    [apply_baseline] after a removal. *)
From S2P Require Export Types.
Open Scope list_scope.
Open Scope agent_scope.

Section SessionState.
Context `{E : Ext}.

(** [Some v] sets the key, [None] removes it.
    @src src/state.rs:13-24 [StateDelta] *)
Definition StateDelta : Type := gmap string (option Value).

(** @src src/state.rs:52-55 [StateDelta::is_empty] *)
Definition delta_is_empty (d : StateDelta) : bool := bool_decide (d = ∅).

(** @src src/state.rs:70-75 [SessionState] *)
Record SessionState := MkSessionState {
  ss_data : gmap string Value;
  ss_delta : gmap string (option Value);
}.

(** @src src/state.rs:78-81 [SessionState::new] *)
Definition session_new : SessionState := MkSessionState ∅ ∅.

(** @src src/state.rs:83-91 [SessionState::with_data] *)
Definition with_data (data : gmap string Value) : SessionState := MkSessionState data ∅.

(** @src src/state.rs:93-106 [SessionState::apply_baseline] *)
Definition apply_baseline (s baseline : SessionState) : SessionState :=
  MkSessionState (ss_data s ∪ ss_data baseline) (ss_delta s).

(** @src src/state.rs:116-119 [SessionState::get_raw] *)
Definition get_raw (s : SessionState) (key : string) : option Value := ss_data s !! key.

(** The value is already serialized.
    @src src/state.rs:121-129 [SessionState::set] *)
Definition session_set (s : SessionState) (key : string) (val : Value) : SessionState :=
  MkSessionState (<[key := val]> (ss_data s)) (<[key := Some val]> (ss_delta s)).

(** @src src/state.rs:131-136 [SessionState::remove] *)
Definition session_remove (s : SessionState) (key : string) : SessionState :=
  match ss_data s !! key with
  | Some _ => MkSessionState (delete key (ss_data s)) (<[key := None]> (ss_delta s))
  | None => MkSessionState (delete key (ss_data s)) (ss_delta s)
  end.

(** @src src/state.rs:158-164 [SessionState::clear] *)
Definition session_clear (s : SessionState) : SessionState :=
  MkSessionState ∅ (map_fold (fun key _ changes => <[key := None]> changes) (ss_delta s) (ss_data s)).

(** @src src/state.rs:171-174 [SessionState::flush_delta] *)
Definition flush_delta (s : SessionState) : StateDelta * SessionState :=
  (ss_delta s, MkSessionState (ss_data s) ∅).

(** @src src/state.rs:176-179 [SessionState::snapshot] *)
Definition snapshot (s : SessionState) : Value := json_of_map (ss_data s).

(** @src src/state.rs:181-189 [SessionState::restore_from_snapshot] *)
Definition restore_from_snapshot (v : Value) : result SessionState string :=
  data <-? json_as_map v ;;
  Ok (MkSessionState data ∅).

(** ** Replaying a delta *)

(** What a log reader does with a delta. *)
Definition replay (data : gmap string Value) (d : gmap string (option Value)) : gmap string Value :=
  merge (fun old change => match change with Some v => v | None => old end) data d.

Lemma replay_lookup data (d : gmap string (option Value)) k :
  replay data d !! k = match d !! k with Some v => v | None => data !! k end.
Proof. unfold replay. rewrite lookup_merge. by destruct (data !! k), (d !! k). Qed.

Lemma clear_delta_lookup (data : gmap string Value) (d : gmap string (option Value)) k :
  map_fold (fun key _ changes => <[key := None]> changes) d data !! k
  = match data !! k with Some _ => Some None | None => d !! k end.
Proof.
  apply (map_fold_weak_ind
           (fun (r : gmap string (option Value)) m => r !! k = match m !! k with Some _ => Some None | None => d !! k end)).
  - by rewrite lookup_empty.
  - intros i x m r Hi IH. destruct (decide (i = k)) as [->|Hne].
    + by rewrite !lookup_insert_eq.
    + rewrite !lookup_insert_ne by done. done.
Qed.

Inductive SessionOp :=
| OpSet (key : string) (val : Value)
| OpRemove (key : string)
| OpClear
| OpFlush.

(** One operation; a flush also yields its delta. *)
Definition run_session_op (s : SessionState) (o : SessionOp) : SessionState * list StateDelta :=
  match o with
  | OpSet k v => (session_set s k v, [])
  | OpRemove k => (session_remove s k, [])
  | OpClear => (session_clear s, [])
  | OpFlush => let '(d, s) := flush_delta s in (s, [d])
  end.

Fixpoint run_session_ops (s : SessionState) (os : list SessionOp) : SessionState * list StateDelta :=
  match os with
  | [] => (s, [])
  | o :: os' =>
    let '(s, ds) := run_session_op s o in
    let '(s, ds') := run_session_ops s os' in (s, ds ++ ds')
  end.

(** The pending delta accounts for the difference to the last flush. *)
Definition delta_tracks (base : gmap string Value) (s : SessionState) : Prop :=
  replay base (ss_delta s) = ss_data s.

Lemma session_op_tracks base s o :
  delta_tracks base s ->
  let '(s', ds) := run_session_op s o in delta_tracks (foldl replay base ds) s'.
Proof.
  unfold delta_tracks. intros H.
  assert (Hk : forall k, match ss_delta s !! k with Some v => v | None => base !! k end
                         = ss_data s !! k).
  { intros k. by rewrite <- replay_lookup, H. }
  destruct o as [key val|key| |]; simpl.
  - apply map_eq. intros k. rewrite replay_lookup. destruct (decide (key = k)) as [->|Hne].
    + by rewrite !lookup_insert_eq.
    + rewrite !lookup_insert_ne by done. done.
  - unfold session_remove. destruct (ss_data s !! key) as [v|] eqn:Hkey; simpl.
    + apply map_eq. intros k. rewrite replay_lookup. destruct (decide (key = k)) as [->|Hne].
      * by rewrite lookup_insert_eq, lookup_delete_eq.
      * by rewrite lookup_insert_ne, lookup_delete_ne.
    + by rewrite delete_id.
  - apply map_eq. intros k. rewrite replay_lookup, clear_delta_lookup, lookup_empty.
    specialize (Hk k). destruct (ss_data s !! k); [done|].
    destruct (ss_delta s !! k) as [[|]|]; naive_solver.
  - rewrite H. apply map_eq. intros k. by rewrite replay_lookup, lookup_empty.
Qed.

(** The log of flushed deltas is faithful: from any baseline, whatever
    sequence of sets, removals, clears and flushes follows, replaying the
    flushed deltas in order and then the pending one over the baseline yields
    exactly the store's data; right after a flush the log alone does. *)
Lemma delta_log_replays data os :
  let '(s, log) := run_session_ops (with_data data) os in
  replay (foldl replay data log) (ss_delta s) = ss_data s
  /\ (let '(s', ds) := run_session_op s OpFlush in
     foldl replay data (log ++ ds) = ss_data s' /\ ss_delta s' = ∅).
Proof.
  assert (forall s base, delta_tracks base s ->
    let '(s', log) := run_session_ops s os in delta_tracks (foldl replay base log) s') as Hgen.
  { induction os as [|o os IH]; intros s base H; [done|]. cbn [run_session_ops].
    pose proof (session_op_tracks base s o H) as Ho.
    destruct (run_session_op s o) as [s1 ds]. specialize (IH s1 _ Ho).
    destruct (run_session_ops s1 os) as [s2 ds']. by rewrite foldl_app. }
  specialize (Hgen (with_data data) data).
  destruct (run_session_ops (with_data data) os) as [s log].
  unfold delta_tracks in Hgen. simpl in *. rewrite foldl_app. simpl.
  assert (replay (foldl replay data log) (ss_delta s) = ss_data s) as H; [|done].
  apply Hgen. apply map_eq. intros k. by rewrite replay_lookup, lookup_empty.
Qed.

(** A baseline applied after a removal restores the key without a trace in the delta. *)
Lemma baseline_after_remove_not_logged k v :
  let s := session_remove (with_data {[k := v]}) k in
  let s' := apply_baseline s (with_data {[k := v]}) in
  ss_data s' !! k = Some v /\ replay {[k := v]} (ss_delta s') !! k = None.
Proof.
  unfold session_remove. simpl. rewrite lookup_singleton_eq. simpl. split.
  - apply lookup_union_Some_raw. right. by rewrite lookup_delete_eq, lookup_singleton_eq.
  - by rewrite replay_lookup, lookup_insert_eq.
Qed.

End SessionState.
