(* ===== verification/Policy.v ===== *)
(** * Policy slots: [src/policy.rs], and the loop policies of [policies/src/]

    The four slot runners with their panic isolation, and the built-in
    policies whose behaviour the loop's guarantees rest on: turn cap, budget,
    deny list and loop detection.  A policy evaluation that panics is [None];
    the policies' own state (behind [Mutex]es and atomics) is the threaded [H]. *)
From S2P Require Export SessionState Transformers.
Open Scope list_scope.

Section Policy.
Context `{E : Ext}.

(** @src src/policy.rs:35-44 [PolicyVerdict] *)
Inductive PolicyVerdict :=
| VContinue
| VStop (reason : string)
| VInject (msgs : list AgentMessage).

(** @src src/policy.rs:50-61 [PreDispatchVerdict] *)
Inductive PreDispatchVerdict :=
| DContinue
| DStop (reason : string)
| DInject (msgs : list AgentMessage)
| DSkip (error_text : string).

(** @src src/policy.rs:66-89 [PolicyContext] *)
Record PolicyContext := MkPolicyContext {
  pc_turn_index : nat;
  pc_accumulated_usage : Usage;
  pc_accumulated_cost : Cost;
  pc_message_count : nat;
  pc_overflow_signal : bool;
  pc_new_messages : list AgentMessage;
  pc_state : SessionState;
}.

(** @src src/policy.rs:122-134 [ToolDispatchContext] *)
Record ToolDispatchContext := MkToolDispatchContext {
  dc_tool_name : string;
  dc_tool_call_id : string;
  dc_arguments : Value;
  dc_execution_root : option string;
  dc_state : SessionState;
}.

Definition dc_with_arguments (args : Value) (c : ToolDispatchContext) : ToolDispatchContext :=
  MkToolDispatchContext (dc_tool_name c) (dc_tool_call_id c) args (dc_execution_root c) (dc_state c).

(** @src src/policy.rs:168-187 [TurnPolicyContext] *)
Record TurnPolicyContext := MkTurnPolicyContext {
  tc_assistant_message : AssistantMessage;
  tc_tool_results : list ToolResultMessage;
  tc_stop_reason : StopReason;
  tc_system_prompt : string;
  tc_model_spec : ModelSpec;
  tc_context_messages : list AgentMessage;
}.

Section Runners.
Context {H : Type}.

(** @src src/policy.rs:220-225 [PreTurnPolicy] *)
Definition PreTurnPolicy : Type := PolicyContext -> H -> option PolicyVerdict * H.

(** @src src/policy.rs:241-246 [PostTurnPolicy] *)
Definition PostTurnPolicy : Type :=
  PolicyContext -> TurnPolicyContext -> H -> option PolicyVerdict * H.

(** @src src/policy.rs:251-256 [PostLoopPolicy] *)
Definition PostLoopPolicy : Type := PolicyContext -> H -> option PolicyVerdict * H.

(** Returns the arguments as the policy left them, also when it panics.
    @src src/policy.rs:231-236 [PreDispatchPolicy] *)
Definition PreDispatchPolicy : Type :=
  ToolDispatchContext -> H -> option PreDispatchVerdict * Value * H.

(** The verdict of the accumulated injections, common to all runners.
    @src src/policy.rs:362-366 [run_policies_inner, result] *)
Definition injections_verdict (injections : list AgentMessage) : PolicyVerdict :=
  match injections with [] => VContinue | _ => VInject injections end.

(** @src src/policy.rs:341-366 [run_policies_inner, loop] *)
Fixpoint run_policies_inner (policies : list PreTurnPolicy) (ctx : PolicyContext)
    (injections : list AgentMessage) (h : H) : PolicyVerdict * H :=
  match policies with
  | [] => (injections_verdict injections, h)
  | policy :: policies' =>
    match policy ctx h with
    | (Some VContinue, h) => run_policies_inner policies' ctx injections h
    | (Some (VStop reason), h) => (VStop reason, h)
    | (Some (VInject msgs), h) => run_policies_inner policies' ctx (injections ++ msgs) h
    | (None, h) => run_policies_inner policies' ctx injections h
    end
  end.

(** @src src/policy.rs:260-267 [run_policies] *)
Definition run_policies (policies : list PreTurnPolicy) (ctx : PolicyContext) (h : H) :
    PolicyVerdict * H := run_policies_inner policies ctx [] h.

(** @src src/policy.rs:275-300 [run_post_turn_policies, loop] *)
Fixpoint run_post_turn_inner (policies : list PostTurnPolicy) (ctx : PolicyContext)
    (turn : TurnPolicyContext) (injections : list AgentMessage) (h : H) : PolicyVerdict * H :=
  match policies with
  | [] => (injections_verdict injections, h)
  | policy :: policies' =>
    match policy ctx turn h with
    | (Some VContinue, h) => run_post_turn_inner policies' ctx turn injections h
    | (Some (VStop reason), h) => (VStop reason, h)
    | (Some (VInject msgs), h) => run_post_turn_inner policies' ctx turn (injections ++ msgs) h
    | (None, h) => run_post_turn_inner policies' ctx turn injections h
    end
  end.

(** @src src/policy.rs:269-301 [run_post_turn_policies] *)
Definition run_post_turn_policies (policies : list PostTurnPolicy) (ctx : PolicyContext)
    (turn : TurnPolicyContext) (h : H) : PolicyVerdict * H :=
  run_post_turn_inner policies ctx turn [] h.

(** @src src/policy.rs:308-333 [run_post_loop_policies, loop] *)
Fixpoint run_post_loop_inner (policies : list PostLoopPolicy) (ctx : PolicyContext)
    (injections : list AgentMessage) (h : H) : PolicyVerdict * H :=
  match policies with
  | [] => (injections_verdict injections, h)
  | policy :: policies' =>
    match policy ctx h with
    | (Some VContinue, h) => run_post_loop_inner policies' ctx injections h
    | (Some (VStop reason), h) => (VStop reason, h)
    | (Some (VInject msgs), h) => run_post_loop_inner policies' ctx (injections ++ msgs) h
    | (None, h) => run_post_loop_inner policies' ctx injections h
    end
  end.

(** @src src/policy.rs:303-334 [run_post_loop_policies] *)
Definition run_post_loop_policies (policies : list PostLoopPolicy) (ctx : PolicyContext) (h : H) :
    PolicyVerdict * H := run_post_loop_inner policies ctx [] h.

(** Returns the verdict and the arguments left in [ctx].
    @src src/policy.rs:379-410 [run_pre_dispatch_policies, loop] *)
Fixpoint run_pre_dispatch_inner (policies : list PreDispatchPolicy) (ctx : ToolDispatchContext)
    (injections : list AgentMessage) (h : H) : PreDispatchVerdict * Value * H :=
  match policies with
  | [] => (match injections with [] => DContinue | _ => DInject injections end, dc_arguments ctx, h)
  | policy :: policies' =>
    let argument_snapshot := dc_arguments ctx in
    match policy ctx h with
    | (Some DContinue, args, h) =>
      run_pre_dispatch_inner policies' (dc_with_arguments args ctx) injections h
    | (Some (DStop reason), args, h) => (DStop reason, args, h)
    | (Some (DSkip error_text), args, h) => (DSkip error_text, args, h)
    | (Some (DInject msgs), args, h) =>
      run_pre_dispatch_inner policies' (dc_with_arguments args ctx) (injections ++ msgs) h
    | (None, _, h) =>
      run_pre_dispatch_inner policies' (dc_with_arguments argument_snapshot ctx) injections h
    end
  end.

(** @src src/policy.rs:369-411 [run_pre_dispatch_policies] *)
Definition run_pre_dispatch_policies (policies : list PreDispatchPolicy)
    (ctx : ToolDispatchContext) (h : H) : PreDispatchVerdict * Value * H :=
  run_pre_dispatch_inner policies ctx [] h.

(** ** Reference semantics *)

(** Evaluate all policies in order, whatever their verdicts. *)
Fixpoint evaluate_all (policies : list (H -> option PolicyVerdict * H)) (h : H) :
    list (option PolicyVerdict) * H :=
  match policies with
  | [] => ([], h)
  | p :: ps => let '(v, h) := p h in let '(vs, h) := evaluate_all ps h in (v :: vs, h)
  end.

Definition injected (v : option PolicyVerdict) : list AgentMessage :=
  match v with Some (VInject msgs) => msgs | _ => [] end.

Definition is_stop (v : option PolicyVerdict) : bool :=
  match v with Some (VStop _) => true | _ => false end.

(** The slot contract: the first [Stop] wins and ends the evaluation there;
    without one, every policy ran and the injections are concatenated; a
    panicking policy counts as one that continues. *)
Definition slot_result (policies : list (H -> option PolicyVerdict * H)) (injections : list AgentMessage)
    (h : H) (r : PolicyVerdict * H) : Prop :=
  (exists pre p post reason h1 vs, policies = pre ++ p :: post
     /\ evaluate_all pre h = (vs, h1) /\ Forall (fun v => is_stop v = false) vs
     /\ p h1 = (Some (VStop reason), snd r) /\ fst r = VStop reason)
  \/ (exists vs, evaluate_all policies h = (vs, snd r) /\ Forall (fun v => is_stop v = false) vs
      /\ fst r = injections_verdict (injections ++ concat (map injected vs))).

Lemma slot_result_cons p ps injections h v h1 r :
  p h = (v, h1) -> is_stop v = false -> slot_result ps (injections ++ injected v) h1 r ->
  slot_result (p :: ps) injections h r.
Proof.
  intros Hp Hv [(pre & q & post & reason & h2 & vs & -> & Hpre & Hns & Hq & Hr)|(vs & Hall & Hns & Hr)].
  - left. exists (p :: pre), q, post, reason, h2, (v :: vs). simpl. rewrite Hp, Hpre.
    split_and!; auto.
  - right. exists (v :: vs). simpl. rewrite Hp, Hall. split_and!; auto. by rewrite app_assoc.
Qed.

Lemma slot_result_stop p ps injections h reason h1 :
  p h = (Some (VStop reason), h1) -> slot_result (p :: ps) injections h (VStop reason, h1).
Proof. intros Hp. left. exists [], p, ps, reason, h, []. split_and!; auto. Qed.

Lemma slot_result_nil injections h : slot_result [] injections h (injections_verdict injections, h).
Proof. right. exists []. split_and!; auto. simpl. by rewrite app_nil_r. Qed.


Lemma run_policies_inner_slot policies ctx injections h :
  slot_result (map (fun p => p ctx) policies) injections h
    (run_policies_inner policies ctx injections h).
Proof.
  revert injections h. induction policies as [|p ps IH]; intros injections h; simpl.
  { apply slot_result_nil. }
  destruct (p ctx h) as [[[|reason|msgs]|] h1] eqn:Hp.
  - eapply slot_result_cons; [done|done|]. rewrite app_nil_r. apply IH.
  - by apply slot_result_stop.
  - eapply slot_result_cons; [done|done|]. apply IH.
  - eapply slot_result_cons; [done|done|]. rewrite app_nil_r. apply IH.
Qed.

Lemma run_post_turn_inner_slot policies ctx turn injections h :
  slot_result (map (fun p => p ctx turn) policies) injections h
    (run_post_turn_inner policies ctx turn injections h).
Proof.
  revert injections h. induction policies as [|p ps IH]; intros injections h; simpl.
  { apply slot_result_nil. }
  destruct (p ctx turn h) as [[[|reason|msgs]|] h1] eqn:Hp.
  - eapply slot_result_cons; [done|done|]. rewrite app_nil_r. apply IH.
  - by apply slot_result_stop.
  - eapply slot_result_cons; [done|done|]. apply IH.
  - eapply slot_result_cons; [done|done|]. rewrite app_nil_r. apply IH.
Qed.

Lemma run_post_loop_inner_eq policies ctx injections h :
  run_post_loop_inner policies ctx injections h = run_policies_inner policies ctx injections h.
Proof.
  revert injections h. induction policies as [|p ps IH]; intros injections h; simpl; [done|].
  destruct (p ctx h) as [[[]|] ?]; auto.
Qed.

(** All three verdict slots implement the slot contract: first [Stop] wins
    and later policies do not run, otherwise all policies run in order and their
    injections are concatenated, and a panic is a [Continue]. *)
Lemma policy_slots_contract pre_turn post_turn post_loop ctx turn h :
  slot_result (map (fun p => p ctx) pre_turn) [] h (run_policies pre_turn ctx h)
  /\ slot_result (map (fun p => p ctx turn) post_turn) [] h
       (run_post_turn_policies post_turn ctx turn h)
  /\ slot_result (map (fun p => p ctx) post_loop) [] h (run_post_loop_policies post_loop ctx h).
Proof.
  split_and!; [apply run_policies_inner_slot|apply run_post_turn_inner_slot|].
  unfold run_post_loop_policies. rewrite run_post_loop_inner_eq. apply run_policies_inner_slot.
Qed.

(** Evaluate dispatch policies in order, threading the arguments; a panic
    restores them. *)
Fixpoint evaluate_dispatch (policies : list PreDispatchPolicy) (ctx : ToolDispatchContext) (h : H) :
    list (option PreDispatchVerdict) * Value * H :=
  match policies with
  | [] => ([], dc_arguments ctx, h)
  | p :: ps =>
    let '(v, args, h) := p ctx h in
    let args := match v with Some _ => args | None => dc_arguments ctx end in
    let '(vs, args, h) := evaluate_dispatch ps (dc_with_arguments args ctx) h in
    (v :: vs, args, h)
  end.

Definition dispatch_injected (v : option PreDispatchVerdict) : list AgentMessage :=
  match v with Some (DInject msgs) => msgs | _ => [] end.

Definition ends_dispatch (v : option PreDispatchVerdict) : bool :=
  match v with Some (DStop _) | Some (DSkip _) => true | _ => false end.

(** The dispatch-slot contract. *)
Definition dispatch_result (policies : list PreDispatchPolicy) (ctx : ToolDispatchContext)
    (injections : list AgentMessage) (h : H) (r : PreDispatchVerdict * Value * H) : Prop :=
  (exists pre p post v vs args h1, policies = pre ++ p :: post
     /\ evaluate_dispatch pre ctx h = (vs, args, h1) /\ Forall (fun v => ends_dispatch v = false) vs
     /\ ends_dispatch (Some v) = true
     /\ p (dc_with_arguments args ctx) h1 = (Some v, snd (fst r), snd r) /\ fst (fst r) = v)
  \/ (exists vs, evaluate_dispatch policies ctx h = (vs, snd (fst r), snd r)
      /\ Forall (fun v => ends_dispatch v = false) vs
      /\ fst (fst r) = match injections ++ concat (map dispatch_injected vs) with
                       | [] => DContinue | msgs => DInject msgs end).

Lemma dispatch_result_cons p ps ctx injections h v args h1 r :
  p ctx h = (v, args, h1) -> ends_dispatch v = false ->
  dispatch_result ps (dc_with_arguments (match v with Some _ => args | None => dc_arguments ctx end) ctx)
    (injections ++ dispatch_injected v) h1 r ->
  dispatch_result (p :: ps) ctx injections h r.
Proof.
  intros Hp Hv [(pre & q & post & w & vs & a & h2 & -> & Hpre & Hns & Hw & Hq & Hr)|(vs & Hall & Hns & Hr)].
  - left. exists (p :: pre), q, post, w, (v :: vs), a, h2. simpl. rewrite Hp. simpl. rewrite Hpre.
    split_and!; auto.
  - right. exists (v :: vs). simpl. rewrite Hp. simpl. rewrite Hall. split_and!; auto.
    by rewrite app_assoc.
Qed.

Lemma dc_with_arguments_id ctx : dc_with_arguments (dc_arguments ctx) ctx = ctx.
Proof. by destruct ctx. Qed.

Lemma dispatch_result_end p ps ctx injections h v args h1 :
  p ctx h = (Some v, args, h1) -> ends_dispatch (Some v) = true ->
  dispatch_result (p :: ps) ctx injections h (v, args, h1).
Proof.
  intros Hp Hv. left. exists [], p, ps, v, [], (dc_arguments ctx), h.
  rewrite dc_with_arguments_id. split_and!; auto.
Qed.

(** The pre-dispatch slot: the first [Stop] or [Skip] decides the call and no
    later policy runs; otherwise all run in order, each seeing the arguments the
    previous ones rewrote, and their injections are concatenated; a policy that
    panics changes neither the verdict nor the arguments. *)
Lemma pre_dispatch_contract policies ctx h :
  dispatch_result policies ctx [] h (run_pre_dispatch_policies policies ctx h).
Proof.
  unfold run_pre_dispatch_policies. generalize (@nil AgentMessage) as injections.
  revert ctx h. induction policies as [|p ps IH]; intros ctx h injections; simpl.
  { right. exists []. split_and!; auto. simpl. rewrite app_nil_r. by destruct injections. }
  destruct (p ctx h) as [[[[|reason|msgs|text]|] args] h1] eqn:Hp.
  - eapply dispatch_result_cons; [done|done|]. cbn [dispatch_injected]. rewrite app_nil_r. apply IH.
  - by apply dispatch_result_end.
  - eapply dispatch_result_cons; [done|done|]. apply IH.
  - by apply dispatch_result_end.
  - eapply dispatch_result_cons; [done|done|]. cbn [dispatch_injected]. rewrite app_nil_r. apply IH.
Qed.

End Runners.
End Policy.

(** ** Loop policies: [policies/src/]

    Turn cap, budget, deny list and loop detection as instances of the policy
    slots.  The results say exactly when each one stops the loop; they are
    what the loop's termination and cost guarantees use. *)
Open Scope list_scope.

Section Policies.
Context `{E : Ext}.

(** ** [MaxTurnsPolicy] *)

(** @src policies/src/max_turns.rs:37-46 [MaxTurnsPolicy::evaluate (PreTurn)] *)
Definition max_turns_pre_turn {H} (max_turns : nat) : PreTurnPolicy (H := H) := fun ctx h =>
  (Some (if (max_turns <=? pc_turn_index ctx)%nat
         then VStop ("max turns reached: " ++ pretty (pc_turn_index ctx) ++ " >= " ++ pretty max_turns)
         else VContinue), h).

(** @src policies/src/max_turns.rs:54-63 [MaxTurnsPolicy::evaluate (PostTurn)] *)
Definition max_turns_post_turn {H} (max_turns : nat) : PostTurnPolicy (H := H) := fun ctx _ h =>
  (Some (if (max_turns <=? pc_turn_index ctx)%nat
         then VStop ("max turns reached: " ++ pretty (pc_turn_index ctx) ++ " >= " ++ pretty max_turns)
         else VContinue), h).

(** ** [BudgetPolicy] *)

(** @src policies/src/budget.rs:16-22 [BudgetPolicy] *)
Record BudgetPolicy := MkBudgetPolicy {
  max_cost : option f64;
  max_input : option N;
  max_output : option N;
}.

(** @src policies/src/budget.rs:76-105 [BudgetPolicy::evaluate] *)
Definition budget_evaluate (p : BudgetPolicy) (ctx : PolicyContext) : PolicyVerdict :=
  let cost := c_total (pc_accumulated_cost ctx) in
  let input := u_input (pc_accumulated_usage ctx) in
  let output := u_output (pc_accumulated_usage ctx) in
  let cost_stop :=
    limit ← max_cost p;
    if f64_leb limit cost
    then Some ("budget exceeded: cost " ++ f64_fixed4 cost ++ " >= limit " ++ f64_fixed4 limit)%string
    else None in
  let input_stop :=
    limit ← max_input p;
    if (limit <=? input)%N
    then Some ("budget exceeded: input tokens " ++ pretty input ++ " >= limit " ++ pretty limit)%string
    else None in
  let output_stop :=
    limit ← max_output p;
    if (limit <=? output)%N
    then Some ("budget exceeded: output tokens " ++ pretty output ++ " >= limit " ++ pretty limit)%string
    else None in
  match cost_stop with
  | Some reason => VStop reason
  | None =>
    match input_stop with
    | Some reason => VStop reason
    | None => match output_stop with Some reason => VStop reason | None => VContinue end
    end
  end.

Definition budget_pre_turn {H} (p : BudgetPolicy) : PreTurnPolicy (H := H) := fun ctx h =>
  (Some (budget_evaluate p ctx), h).

(** ** [ToolDenyListPolicy] *)

(** @src policies/src/deny_list.rs:37-43 [ToolDenyListPolicy::evaluate] *)
Definition deny_list {H} (denied : gset string) : PreDispatchPolicy (H := H) := fun ctx h =>
  (Some (if bool_decide (dc_tool_name ctx ∈ denied)
         then DSkip ("tool '" ++ dc_tool_name ctx ++ "' is denied by policy")
         else DContinue), dc_arguments ctx, h).

(** ** [LoopDetectionPolicy] *)

(** @src policies/src/loop_detection.rs:12-20 [LoopDetectionAction] *)
Inductive LoopDetectionAction :=
| DetectStop
| DetectInject (message : string).

(** @src policies/src/loop_detection.rs:39-43 [LoopDetectionPolicy] *)
Record LoopDetectionPolicy := MkLoopDetection {
  ld_lookback : nat;
  ld_on_detect : LoopDetectionAction;
}.

Definition Fingerprint : Type := list (string * Value).

(** [serde_json::json!(content)] of a result's blocks. *)
Context (content_to_json : list ContentBlock -> Value).

(** The id-to-call map; a later block with the same id wins.
    @src policies/src/loop_detection.rs:70-83 [extract_fingerprint, tool_calls] *)
Definition tool_calls_by_id (content : list ContentBlock) : gmap string (string * Value) :=
  foldl (fun m b => match b with
                    | ToolCall id name arguments _ => <[id := (name, arguments)]> m
                    | _ => m
                    end) ∅ content.

(** @src policies/src/loop_detection.rs:68-97 [LoopDetectionPolicy::extract_fingerprint] *)
Definition extract_fingerprint (turn : TurnPolicyContext) : Fingerprint :=
  let tool_calls := tool_calls_by_id (am_content (tc_assistant_message turn)) in
  map (fun tr => match tool_calls !! tr_tool_call_id tr with
                 | Some call => call
                 | None => ("_unknown"%string, content_to_json (tr_content tr))
                 end) (tc_tool_results turn).

(** @src policies/src/loop_detection.rs:100-117 [LoopDetectionPolicy::is_stuck] *)
Definition is_stuck (p : LoopDetectionPolicy) (history : list Fingerprint) : bool :=
  if (length history <? ld_lookback p)%nat then false
  else
    match take (ld_lookback p) (rev history) with
    | [] => false
    | first :: rest => forallb (fun turn => bool_decide (turn = first)) rest
    end.

(** The policy's state is its history, oldest turn first.
    @src policies/src/loop_detection.rs:143-152 [LoopDetectionPolicy::evaluate, history] *)
Definition push_history (p : LoopDetectionPolicy) (fingerprint : Fingerprint)
    (history : list Fingerprint) : list Fingerprint :=
  let history := history ++ [fingerprint] in
  drop (length history - (ld_lookback p + 1)) history.

(** [now] is the timestamp of [UserMessage::new].
    @src policies/src/loop_detection.rs:140-171 [LoopDetectionPolicy::evaluate] *)
Definition loop_detection (p : LoopDetectionPolicy) (now : N) :
    PostTurnPolicy (H := list Fingerprint) := fun _ turn history =>
  let history := push_history p (extract_fingerprint turn) history in
  (Some (if is_stuck p history then
           match ld_on_detect p with
           | DetectStop => VStop "loop detected: repeated tool call pattern"
           | DetectInject message => VInject [Llm (User (MkUserMessage [Text message] now None))]
           end
         else VContinue), history).

(** ** When they stop *)

Definition stops (v : PolicyVerdict) : bool := match v with VStop _ => true | _ => false end.

(** A budget policy stops the loop exactly when some configured limit is
    reached: accumulated cost (IEEE comparison, so never on NaN), input tokens or
    output tokens; an unset limit never stops. *)
Lemma budget_stops_iff p ctx :
  stops (budget_evaluate p ctx) = true <->
  (exists limit, max_cost p = Some limit
     /\ f64_leb limit (c_total (pc_accumulated_cost ctx)) = true)
  \/ (exists limit, max_input p = Some limit /\ (limit <= u_input (pc_accumulated_usage ctx))%N)
  \/ (exists limit, max_output p = Some limit /\ (limit <= u_output (pc_accumulated_usage ctx))%N).
Proof.
  unfold budget_evaluate. setoid_rewrite <- N.leb_le.
  destruct (max_cost p) as [c|], (max_input p) as [i|], (max_output p) as [o|]; simpl;
    repeat (case_match; simpl); try naive_solver.
  all: split; [done|]; intros [(l & Hl & ?)|[(l & Hl & ?)|(l & Hl & ?)]]; simplify_eq.
  all: congruence.
Qed.

Lemma push_history_app p f pre :
  push_history p f (drop (length pre - (ld_lookback p + 1)) pre)
  = drop (length (pre ++ [f]) - (ld_lookback p + 1)) (pre ++ [f]).
Proof.
  unfold push_history. set (n := ld_lookback p + 1). rewrite !length_app, length_drop. simpl.
  destruct (decide (length pre <= n)) as [Hle|Hgt].
  - replace (length pre - n) with 0 by lia. rewrite drop_0, Nat.sub_0_r. done.
  - rewrite <- (drop_app_le pre [f]) by lia. rewrite drop_drop. f_equal. lia.
Qed.

(** The history after the turns [fs]: the last [lookback + 1] of them. *)
Lemma history_of_turns p fs :
  foldl (fun history f => push_history p f history) [] fs
  = drop (length fs - (ld_lookback p + 1)) fs.
Proof.
  induction fs as [|f fs IH] using rev_ind; [done|].
  rewrite foldl_app, IH. apply push_history_app.
Qed.

Lemma forallb_replicate {A} `{EqDecision A} (x : A) l :
  forallb (fun y => bool_decide (y = x)) l = true <-> l = replicate (length l) x.
Proof.
  induction l as [|y l IH]; simpl; [done|]. rewrite andb_true_iff, bool_decide_eq_true, IH.
  split; [intros [-> ->]; by rewrite length_replicate|intros [= -> H]; done].
Qed.

Lemma rev_replicate_eq {A} n (x : A) : rev (replicate n x) = replicate n x.
Proof.
  induction n as [|n IH]; [done|]. simpl. rewrite IH.
  change [x] with (replicate 1 x). rewrite <- replicate_add.
  change (x :: replicate n x) with (replicate (S n) x). f_equal. lia.
Qed.

Lemma is_stuck_spec p fs :
  is_stuck p (drop (length fs - (ld_lookback p + 1)) fs) = true <->
  0 < ld_lookback p /\ exists pre f, fs = pre ++ replicate (ld_lookback p) f.
Proof.
  set (n := ld_lookback p). set (d := length fs - (n + 1)).
  unfold is_stuck. fold n. rewrite length_drop.
  destruct (Nat.ltb_spec (length fs - d) n) as [Hlt|Hge].
  { split; [done|]. intros (Hn & pre & f & Heq). apply (f_equal length) in Heq.
    rewrite length_app, length_replicate in Heq. unfold d in Hlt. lia. }
  assert (Hlen : n <= length fs) by (unfold d in Hge; lia).
  assert (Htake : take n (rev (drop d fs)) = rev (drop (length fs - n) fs)).
  { rewrite firstn_rev, drop_drop, length_drop. do 2 f_equal. unfold d. lia. }
  rewrite Htake. set (tail := drop (length fs - n) fs).
  assert (Htl : length tail = n) by (unfold tail; rewrite length_drop; lia).
  assert (Hfs : forall pre f, fs = pre ++ replicate n f <-> tail = replicate n f /\ pre = take (length fs - n) fs).
  { intros pre f. unfold tail. split.
    - intros Heq. pose proof (f_equal length Heq) as Hl. rewrite length_app, length_replicate in Hl.
      replace (length fs - n) with (length pre) by lia. rewrite Heq.
      by rewrite drop_app_length, take_app_length.
    - intros [<- ->]. symmetry. apply take_drop. }
  setoid_rewrite Hfs.
  destruct (rev tail) as [|first rest] eqn:Hrev.
  - apply (f_equal length) in Hrev. rewrite length_rev, Htl in Hrev. simpl in Hrev. naive_solver lia.
  - assert (Hr : length rest = n - 1 /\ 0 < n).
    { apply (f_equal length) in Hrev. rewrite length_rev, Htl in Hrev. simpl in Hrev. lia. }
    rewrite forallb_replicate. destruct Hr as [Hr Hn]. split.
    + intros Hrest. split; [done|]. eexists _, first. split; [|done].
      rewrite <- (rev_involutive tail), Hrev, Hrest, Hr.
      change (first :: replicate (n - 1) first) with (replicate (S (n - 1)) first).
      rewrite rev_replicate_eq. f_equal. lia.
    + intros (_ & pre & f & Htail & _). rewrite Htail, rev_replicate_eq in Hrev.
      destruct n as [|n']; [lia|]. simpl in Hrev. injection Hrev as <- <-.
      by rewrite length_replicate.
Qed.

(** Loop detection fires at a turn exactly when the last [lookback] turns,
    this one included, have the same fingerprint; in particular it also fires
    on [lookback] consecutive turns that called no tool at all. *)
Lemma loop_detection_fires p now ctx turns turn :
  let fs := map extract_fingerprint (turns ++ [turn]) in
  let history := foldl (fun history t => snd (loop_detection p now ctx t history)) [] turns in
  fst (loop_detection p now ctx turn history) <> Some VContinue <->
  0 < ld_lookback p /\ exists pre f, fs = pre ++ replicate (ld_lookback p) f.
Proof.
  cbn zeta. unfold loop_detection. cbn [fst snd].
  assert (foldl (fun history t => push_history p (extract_fingerprint t) history) [] turns
          = foldl (fun history f => push_history p f history) [] (map extract_fingerprint turns)) as ->.
  { generalize (@nil Fingerprint). induction turns as [|t ts IH]; intros h; simpl; auto. }
  rewrite history_of_turns, push_history_app, map_app. cbn [map].
  rewrite <- is_stuck_spec. destruct (is_stuck p _); [|naive_solver].
  destruct (ld_on_detect p); naive_solver.
Qed.

(** [MaxTurnsPolicy n] before turns stops the turns from index [n] on, so [n] turns
    run; after turns it stops once the turn of index [n] has completed, so
    [n + 1] turns run. *)
Lemma max_turns_pre_turn_stops {H} n ctx (h : H) :
  if decide (n <= pc_turn_index ctx)
  then exists reason, max_turns_pre_turn n ctx h = (Some (VStop reason), h)
  else max_turns_pre_turn n ctx h = (Some VContinue, h).
Proof.
  unfold max_turns_pre_turn.
  destruct (Nat.leb_spec n (pc_turn_index ctx)), (decide _); eauto; lia.
Qed.

Lemma max_turns_post_turn_stops {H} n ctx turn (h : H) :
  if decide (n < S (pc_turn_index ctx))
  then exists reason, max_turns_post_turn n ctx turn h = (Some (VStop reason), h)
  else max_turns_post_turn n ctx turn h = (Some VContinue, h).
Proof.
  unfold max_turns_post_turn.
  destruct (Nat.leb_spec n (pc_turn_index ctx)), (decide _); eauto; lia.
Qed.

End Policies.
