(* ===== verification/Transfer.v ===== *)
(** * Agent handoff: [src/transfer.rs] and the tool result of [src/tool.rs]

    The transfer signal a tool can return, the chain that keeps handoffs from
    looping, and the built-in [transfer_to_agent] tool.  The chain's contract
    is a closed form: after any pushes it holds the first [max_depth] distinct
    names. *)
From stdpp Require Import sorting.
From S2P Require Export Types SessionState.
Open Scope list_scope.

Section Transfer.
Context `{E : Ext}.

(** @src src/transfer.rs:128-131 [TransferChain] *)
Record TransferChain := MkTransferChain {
  tch_chain : list string;
  tch_max_depth : nat;
}.

(** @src src/transfer.rs:28-37 [TransferSignal] *)
Record TransferSignal := MkTransferSignal {
  ts_target_agent : string;
  ts_reason : string;
  ts_context_summary : option string;
  ts_conversation_history : list LlmMessage;
  ts_transfer_chain : option TransferChain;
}.

(** @src src/transfer.rs:41-49 [TransferSignal::new] *)
Definition signal_new (target_agent reason : string) : TransferSignal :=
  MkTransferSignal target_agent reason None [] None.

(** @src src/transfer.rs:53-56 [TransferSignal::with_context_summary] *)
Definition with_context_summary (summary : string) (s : TransferSignal) : TransferSignal :=
  MkTransferSignal (ts_target_agent s) (ts_reason s) (Some summary) (ts_conversation_history s)
    (ts_transfer_chain s).

(** @src src/transfer.rs:63-66 [TransferSignal::with_conversation_history] *)
Definition with_conversation_history (history : list LlmMessage) (s : TransferSignal) : TransferSignal :=
  MkTransferSignal (ts_target_agent s) (ts_reason s) (ts_context_summary s) history
    (ts_transfer_chain s).

(** @src src/transfer.rs:73-76 [TransferSignal::with_transfer_chain] *)
Definition with_transfer_chain (chain : TransferChain) (s : TransferSignal) : TransferSignal :=
  MkTransferSignal (ts_target_agent s) (ts_reason s) (ts_context_summary s)
    (ts_conversation_history s) (Some chain).

(** @src src/transfer.rs:109-119 [TransferError] *)
Inductive TransferError :=
| CircularTransfer (agent_name : string) (chain : list string)
| MaxDepthExceeded (depth max : nat).

(** @src src/transfer.rs:135-140 [TransferChain::new] *)
Definition chain_new (max_depth : nat) : TransferChain := MkTransferChain [] max_depth.

(** @src src/transfer.rs:181-183 [TransferChain::default] *)
Definition chain_default : TransferChain := chain_new 5.

(** @src src/transfer.rs:170-172 [TransferChain::contains] *)
Definition chain_contains (c : TransferChain) (agent_name : string) : bool :=
  existsb (fun n => bool_decide (n = agent_name)) (tch_chain c).

(** The chain as the call leaves it, with the call's result.
    @src src/transfer.rs:146-162 [TransferChain::push] *)
Definition chain_push (c : TransferChain) (name : string) : TransferChain * result unit TransferError :=
  if chain_contains c name then (c, Err (CircularTransfer name (tch_chain c)))
  else if (tch_max_depth c <=? length (tch_chain c))%nat
  then (c, Err (MaxDepthExceeded (length (tch_chain c)) (tch_max_depth c)))
  else (MkTransferChain (tch_chain c ++ [name]) (tch_max_depth c), Ok tt).

(** @src src/transfer.rs:111-118 [Display for TransferError] *)
Definition transfer_error_display (e : TransferError) : string :=
  match e with
  | CircularTransfer agent_name chain =>
    "circular transfer detected: agent '" ++ agent_name ++ "' already in chain "
      ++ debug_strings chain
  | MaxDepthExceeded depth max =>
    "max transfer depth exceeded: depth " ++ pretty depth ++ " >= max " ++ pretty max
  end%string.

(** ** Tool results *)

(** @src src/tool.rs:37-47 [AgentToolResult] *)
Record AgentToolResult := MkAgentToolResult {
  at_content : list ContentBlock;
  at_details : Value;
  at_is_error : bool;
  at_transfer_signal : option TransferSignal;
}.

(** @src src/tool.rs:67-74 [AgentToolResult::text] *)
Definition tool_text (text : string) : AgentToolResult :=
  MkAgentToolResult [Text text] json_null false None.

(** @src src/tool.rs:81-90 [AgentToolResult::error] *)
Definition tool_error (message : string) : AgentToolResult :=
  MkAgentToolResult [Text message] json_null true None.

Definition confirmation_text (target : string) : string :=
  ("Transfer to " ++ target ++ " initiated.")%string.

(** @src src/tool.rs:97-105 [AgentToolResult::transfer] *)
Definition tool_transfer (signal : TransferSignal) : AgentToolResult :=
  MkAgentToolResult [Text (confirmation_text (ts_target_agent signal))] json_null false (Some signal).

(** @src src/tool.rs:108-110 [AgentToolResult::is_transfer] *)
Definition is_transfer (r : AgentToolResult) : bool := bool_decide (is_Some (at_transfer_signal r)).

(** ** The transfer tool *)

(** @src src/transfer.rs:191-198 [TransferParams] *)
Record TransferParams := MkTransferParams {
  tp_agent_name : string;
  tp_reason : string;
  tp_context_summary : option string;
}.

(** The registry is asked for a name; [serde_json::from_value] of the params is
    generated code.
    @src src/transfer.rs:207-211 [TransferToAgentTool] *)
Record TransferToAgentTool := MkTransferTool {
  tt_registered : string -> bool;
  tt_allowed_targets : option (gset string);
  tt_parse : Value -> result TransferParams string;
}.

(** [sorted.sort()] on the allowed targets. *)
Definition sorted_strings (s : gset string) : list string :=
  merge_sort (fun a b => Is_true (String.leb a b)) (elements s).

(** @src src/transfer.rs:260-307 [TransferToAgentTool::execute] *)
Definition transfer_execute (tool : TransferToAgentTool) (cancelled : bool) (params : Value) :
    AgentToolResult :=
  match tt_parse tool params with
  | Err e => tool_error ("invalid parameters: " ++ e)
  | Ok parsed =>
    if cancelled then tool_error "cancelled"
    else if match tt_allowed_targets tool with
            | Some allowed => negb (bool_decide (tp_agent_name parsed ∈ allowed))
            | None => false
            end
    then tool_error ("transfer to '" ++ tp_agent_name parsed ++ "' not allowed. Allowed targets: "
                     ++ debug_strings (sorted_strings (default ∅ (tt_allowed_targets tool))))
    else if negb (tt_registered tool (tp_agent_name parsed))
    then tool_error ("agent '" ++ tp_agent_name parsed ++ "' not found in registry")
    else
      let signal := signal_new (tp_agent_name parsed) (tp_reason parsed) in
      tool_transfer match tp_context_summary parsed with
                    | Some summary => with_context_summary summary signal
                    | None => signal
                    end
  end%string.

(** ** The chain *)

(** Pushing names one after the other, errors ignored, as a session does. *)
Definition push_all (c : TransferChain) (names : list string) : TransferChain :=
  foldl (fun c n => fst (chain_push c n)) c names.

(** The distinct names in order of first occurrence. *)
Definition first_occurrences (names : list string) : list string :=
  foldl (fun seen n => if decide (n ∈ seen) then seen else seen ++ [n]) [] names.

Lemma first_occurrences_snoc names n :
  first_occurrences (names ++ [n])
  = if decide (n ∈ first_occurrences names) then first_occurrences names
    else first_occurrences names ++ [n].
Proof. unfold first_occurrences. by rewrite foldl_app. Qed.

Lemma first_occurrences_spec names :
  NoDup (first_occurrences names) /\ forall n, n ∈ first_occurrences names <-> n ∈ names.
Proof.
  induction names as [|n names [IHd IHe]] using rev_ind; [split; [constructor|done]|].
  rewrite first_occurrences_snoc. case_decide as Hin.
  - split; [done|]. set_solver.
  - split; [|set_solver]. apply NoDup_app. split_and!; [done|set_solver|apply NoDup_singleton].
Qed.

Lemma chain_contains_spec c n : chain_contains c n = true <-> n ∈ tch_chain c.
Proof.
  unfold chain_contains. rewrite existsb_exists. setoid_rewrite <- list_elem_of_In.
  setoid_rewrite bool_decide_eq_true. naive_solver.
Qed.

Lemma push_all_closed max names :
  push_all (chain_new max) names = MkTransferChain (take max (first_occurrences names)) max.
Proof.
  induction names as [|n names IH] using rev_ind.
  { unfold push_all, chain_new. simpl. by destruct max. }
  unfold push_all in *. rewrite foldl_app, IH. simpl. unfold chain_push. simpl.
  set (l := first_occurrences names). rewrite first_occurrences_snoc. fold l.
  destruct (chain_contains _ n) eqn:Hc.
  { apply chain_contains_spec in Hc. simpl in Hc. apply subseteq_take in Hc.
    by rewrite decide_True. }
  assert (n ∉ take max l) as Hn by (intros H; by apply (chain_contains_spec (MkTransferChain (take max l) max)) in H; congruence).
  destruct (Nat.leb_spec max (length (take max l))) as [Hle|Hlt]; simpl.
  - rewrite length_take in Hle. case_decide; [done|]. by rewrite take_app_le by lia.
  - rewrite length_take in Hlt. assert (length l < max) by lia.
    rewrite (take_ge l) in Hn |- * by lia. rewrite decide_False by done.
    rewrite take_ge; [done|]. rewrite length_app. simpl. lia.
Qed.

(** Handoffs cannot loop: whatever names are pushed, the chain is exactly the
    first [max_depth] distinct ones in order, so it never repeats a name nor
    exceeds the bound; a push succeeds exactly for a new name below the bound,
    and a rejected push, with the error that says why, leaves the chain alone. *)
Lemma transfer_chain_safe max names n :
  let c := push_all (chain_new max) names in
  tch_chain c = take max (first_occurrences names)
  /\ NoDup (tch_chain c) /\ length (tch_chain c) <= max
  /\ match chain_push c n with
     | (c', Ok _) => n ∉ names /\ length (tch_chain c) < max
                     /\ tch_chain c' = tch_chain c ++ [n]
     | (c', Err (CircularTransfer n' ch)) =>
       n ∈ tch_chain c /\ n' = n /\ ch = tch_chain c /\ c' = c
     | (c', Err (MaxDepthExceeded d m)) =>
       n ∉ tch_chain c /\ d = max /\ m = max /\ c' = c
     end.
Proof.
  cbn zeta. rewrite push_all_closed. simpl.
  destruct (first_occurrences_spec names) as [Hnd Hin].
  split_and!; [done|eapply sublist_NoDup; [done|apply sublist_take]|rewrite length_take; lia|].
  unfold chain_push. simpl. set (c := MkTransferChain _ _).
  destruct (chain_contains c n) eqn:Hc.
  { apply chain_contains_spec in Hc. done. }
  assert (n ∉ tch_chain c) as Hn by (rewrite <- chain_contains_spec; congruence).
  destruct (Nat.leb_spec max (length (take max (first_occurrences names)))) as [Hle|Hlt].
  - rewrite length_take in *. split_and!; [done|lia|done|done].
  - rewrite length_take in *. simpl in Hn. rewrite take_ge in Hn by lia.
    split_and!; [by rewrite <- Hin|lia|done].
Qed.

(** The transfer tool hands off exactly when its parameters parse, the run is
    not cancelled, the target is allowed and registered; then the result is the
    confirmation text with a signal for that target, and in every other case it
    is an error without a signal. *)
Lemma transfer_tool_signals_iff tool cancelled params :
  let r := transfer_execute tool cancelled params in
  match at_transfer_signal r with
  | Some s =>
    exists p, tt_parse tool params = Ok p /\ cancelled = false
      /\ (forall allowed, tt_allowed_targets tool = Some allowed -> tp_agent_name p ∈ allowed)
      /\ tt_registered tool (tp_agent_name p) = true
      /\ s = MkTransferSignal (tp_agent_name p) (tp_reason p) (tp_context_summary p) [] None
      /\ at_is_error r = false /\ at_content r = [Text (confirmation_text (tp_agent_name p))]
  | None =>
    at_is_error r = true
    /\ (forall p, tt_parse tool params = Ok p -> cancelled = true
          \/ (exists allowed, tt_allowed_targets tool = Some allowed /\ tp_agent_name p ∉ allowed)
          \/ tt_registered tool (tp_agent_name p) = false)
  end.
Proof.
  cbn zeta. unfold transfer_execute.
  destruct (tt_parse tool params) as [p|e] eqn:Hp; [|simpl; naive_solver].
  destruct cancelled; [simpl; naive_solver|].
  assert (Hgate : match tt_allowed_targets tool with
          | Some allowed => negb (bool_decide (tp_agent_name p ∈ allowed)) | None => false end = true
          <-> exists allowed, tt_allowed_targets tool = Some allowed /\ tp_agent_name p ∉ allowed).
  { destruct (tt_allowed_targets tool); [|naive_solver].
    rewrite negb_true_iff, bool_decide_eq_false. naive_solver. }
  destruct (match tt_allowed_targets tool with Some _ => _ | None => false end) eqn:Ha.
  { simpl. split; [done|]. intros p' [= <-]. right. left. by apply Hgate. }
  destruct (tt_registered tool (tp_agent_name p)) eqn:Hr; simpl; [|naive_solver].
  exists p. destruct p as [name reason [s|]]; simpl; split_and!; try done; intros allowed Hal;
    destruct (decide (name ∈ allowed)) as [|Hni]; try done;
    destruct Hgate as [_ Hg]; by specialize (Hg (ex_intro _ _ (conj Hal Hni))).
Qed.

End Transfer.

(** ** Tools, approval and credentials: [src/tool.rs], [src/credential.rs], [src/tool_execution_policy.rs]

    The [AgentTool] interface as the loop uses it, argument validation, the
    approval gate's data and the credential types.  A tool's behaviour is its
    answer to [execute]: the partial updates it sends, in order, and its result,
    or the payload of its panic; the host state [H] it threads can hold any
    state the tools share. *)
Open Scope list_scope.

Section Tool.
Context `{E : Ext}.

(** ** Credentials *)

(** @src src/credential.rs:185-192 [CredentialType] *)
Inductive CredentialType := ApiKeyType | BearerType | OAuth2Type.

#[export] Instance CredentialType_eq_dec : EqDecision CredentialType.
Proof. solve_decision. Defined.

(** @src src/credential.rs:104-111 [ResolvedCredential] *)
Inductive ResolvedCredential :=
| ApiKey (key : string)
| Bearer (token : string)
| OAuth2AccessToken (token : string).

(** @src src/credential.rs:140-147 [AuthConfig] *)
Record AuthConfig := MkAuthConfig {
  credential_key : string;
  credential_type : CredentialType;
}.

(** [StoreError] carries the message of a [SanitizedStoreError], if it is one.
    @src src/credential.rs:201-256 [CredentialError] *)
Inductive CredentialError :=
| CredNotFound (key : string)
| CredExpired (key : string)
| CredRefreshFailed (key reason : string)
| CredTypeMismatch (key : string) (expected actual : CredentialType)
| CredStoreError (sanitized : option string)
| CredTimeout (key : string)
| CredAuthorizationFailed (key reason : string)
| CredAuthorizationTimeout (key : string).

Definition credential_type_debug (t : CredentialType) : string :=
  match t with ApiKeyType => "ApiKey" | BearerType => "Bearer" | OAuth2Type => "OAuth2" end.

(** @src src/credential.rs:311-343 [Display for CredentialError] *)
Definition credential_error_display (e : CredentialError) : string :=
  match e with
  | CredNotFound key => "credential not found: " ++ key
  | CredExpired key => "credential expired: " ++ key
  | CredRefreshFailed key reason => "credential refresh failed for " ++ key ++ ": " ++ reason
  | CredTypeMismatch key expected actual =>
    "credential type mismatch for " ++ key ++ ": expected " ++ credential_type_debug expected
      ++ ", got " ++ credential_type_debug actual
  | CredStoreError (Some sanitized) => "credential store error: " ++ sanitized
  | CredStoreError None => "credential store error"
  | CredTimeout key => "credential resolution timed out for " ++ key
  | CredAuthorizationFailed key reason => "authorization failed for " ++ key ++ ": " ++ reason
  | CredAuthorizationTimeout key => "authorization timed out for " ++ key
  end%string.

(** @src src/loop_/tool_dispatch/execute.rs:367-377 [resolve_credential, actual_type] *)
Definition resolved_type (c : ResolvedCredential) : CredentialType :=
  match c with
  | ApiKey _ => ApiKeyType
  | Bearer _ => BearerType
  | OAuth2AccessToken _ => OAuth2Type
  end.

(** ** Validation *)

(** The validator cache does not change the answer.
    @src src/tool.rs:281-294 [validate_tool_arguments] *)
Definition validate_tool_arguments (schema arguments : Value) : result unit (list string) :=
  match validator_for schema with
  | Err e => Err [e]
  | Ok iter_errors =>
    match iter_errors arguments with [] => Ok tt | errors => Err errors end
  end.

(** @src src/tool.rs:344-346 [unknown_tool_result] *)
Definition unknown_tool_result (tool_name : string) : AgentToolResult :=
  tool_error ("unknown tool: " ++ tool_name).

(** @src src/tool.rs:350-353 [validation_error_result] *)
Definition validation_error_result (errors : list string) : AgentToolResult :=
  tool_error (join (String (Ascii.ascii_of_nat 10) "") errors).

(** ** The approval gate *)

(** @src src/tool.rs:360-367 [ToolApproval] *)
Inductive ToolApproval :=
| Approved
| Rejected
| ApprovedWith (new_params : Value).

(** @src src/tool.rs:376-387 [ToolApprovalRequest] *)
Record ToolApprovalRequest := MkApprovalRequest {
  ar_tool_call_id : string;
  ar_tool_name : string;
  ar_arguments : Value;
  ar_requires_approval : bool;
  ar_context : option Value;
}.

(** @src src/tool.rs:438-448 [ApprovalMode] *)
Inductive ApprovalMode := ApprovalEnabled | ApprovalSmart | ApprovalBypassed.

#[export] Instance ApprovalMode_eq_dec : EqDecision ApprovalMode.
Proof. solve_decision. Defined.

(** What calling the approval callback comes to: it panics before it returns a
    future, or the future panics, or it decides. *)
Inductive ApprovalReply :=
| PanicsAtCall (message : string)
| PanicsLater (message : string)
| Decides (decision : ToolApproval).

(** ** The tool interface *)

(** What [execute] comes to. *)
Inductive ToolEnd :=
| Returns (r : AgentToolResult)
| Panics (message : string).

Section Host.
Context {H : Type}.

(** [approval_context] is [None] when it panics; [execute] reads and writes the
    shared session state.
    @src src/tool.rs:155-230 [AgentTool] *)
Record AgentTool := MkAgentTool {
  td_name : string;
  td_description : string;
  td_parameters_schema : Value;
  td_requires_approval : bool;
  td_execution_root : option string;
  td_approval_context : Value -> option Value;
  td_auth_config : option AuthConfig;
  td_execute : string -> Value -> option ResolvedCredential -> SessionState -> H ->
               list AgentToolResult * ToolEnd * SessionState * H;
}.

(** The resolver answers, or not within the configured timeout ([None]). *)
Definition CredentialResolver : Type :=
  string -> H -> option (result ResolvedCredential CredentialError) * H.

(** @src src/tool_execution_policy.rs:22-29 [ToolCallSummary] *)
Record ToolCallSummary := MkToolCallSummary {
  tcs_id : string;
  tcs_name : string;
  tcs_arguments : Value;
}.

(** @src src/tool_execution_policy.rs:86-101 [ToolExecutionPolicy] *)
Inductive ToolExecutionPolicy :=
| Concurrent
| Sequential
| Priority (priority_fn : ToolCallSummary -> Z)
| CustomStrategy (partition : list ToolCallSummary -> H -> list (list nat) * H).

End Host.
End Tool.

Arguments AgentTool {_} _.
Arguments CredentialResolver _ : clear implicits.
Arguments ToolExecutionPolicy {_} _.
