(* ===== verification/Pricing.v ===== *)
(** * Pricing: [src/pricing.rs] and the pricing part of [src/model_catalog.rs]

    Where the cost of an assistant message comes from: the adapter's own
    figure, the operator's calculator, the compiled catalog, in that order.
    The catalog (a TOML file compiled into the crate) is an argument; of its
    presets only the fields the lookup reads are kept. *)
From S2P Require Export Types.
From Stdlib Require Import SpecFloat.
Open Scope list_scope.

(** ** Arithmetic on [f64] *)
Definition f64_mul (a b : f64) : f64 := SFmul 53 1024 a b.
Definition f64_div (a b : f64) : f64 := SFdiv 53 1024 a b.
(** [n as f64], rounded to nearest. *)
Definition f64_of_N (n : N) : f64 := binary_normalize 53 1024 (Z.of_N n) 0 false.
Definition million : f64 := f64_of_N 1000000.

(** [tokens as f64 * rate / 1_000_000.0] *)
Definition per_m (tokens : N) (rate : f64) : f64 := f64_div (f64_mul (f64_of_N tokens) rate) million.

Section Pricing.
Context `{E : Ext}.

(** @src src/pricing.rs:66-75 [ModelRates] *)
Record ModelRates := MkModelRates {
  input_per_million : f64;
  output_per_million : f64;
  cache_read_per_million : f64;
  cache_write_per_million : f64;
}.

Definition cost_of_parts (input output cache_read cache_write : f64) : Cost :=
  MkCost input output cache_read cache_write
    (f64_add (f64_add (f64_add input output) cache_read) cache_write) ∅.

(** @src src/pricing.rs:108-125 [ModelRates::cost_for] *)
Definition cost_for (r : ModelRates) (usage : Usage) : Cost :=
  cost_of_parts (per_m (u_input usage) (input_per_million r))
    (per_m (u_output usage) (output_per_million r))
    (per_m (u_cache_read usage) (cache_read_per_million r))
    (per_m (u_cache_write usage) (cache_write_per_million r)).

(** @src src/pricing.rs:137-140 [CostCalculator] *)
Definition CostCalculator : Type := string -> Usage -> option Cost.

(** @src src/pricing.rs:159-161 [PricingTable] *)
Definition PricingTable : Type := gmap string ModelRates.

(** @src src/pricing.rs:172-175 [PricingTable::with_model] *)
Definition table_with_model (t : PricingTable) (model_id : string) (rates : ModelRates) : PricingTable :=
  <[model_id := rates]> t.

(** @src src/pricing.rs:205-207 [PricingTable::calculate] *)
Definition table_calculate (t : PricingTable) : CostCalculator := fun model_id usage =>
  (fun rates => cost_for rates usage) <$> (t !! model_id).

(** ** The catalog *)

(** Identity and rates.
    @src src/model_catalog.rs:90-117 [PresetCatalog] *)
Record PresetCatalog := MkPreset {
  pr_id : string;
  pr_model_id : string;
  pr_input : option f64;
  pr_output : option f64;
  pr_cache_read : option f64;
  pr_cache_write : option f64;
}.

(** @src src/model_catalog.rs:251-264 [ProviderCatalog] *)
Record ProviderCatalog := MkProvider { pv_key : string; pv_presets : list PresetCatalog }.

(** @src src/model_catalog.rs:347-355 [ModelCatalog] *)
Definition ModelCatalog : Type := list ProviderCatalog.

(** @src src/model_catalog.rs:381-386 [ModelCatalog::provider] *)
Definition catalog_provider (c : ModelCatalog) (key : string) : option ProviderCatalog :=
  find_first (fun p => String.eqb (pv_key p) key) c.

(** @src src/model_catalog.rs:418-450 [ModelCatalog::preset] *)
Definition catalog_preset (c : ModelCatalog) (provider_key preset_id : string) : option PresetCatalog :=
  provider ← catalog_provider c provider_key;
  find_first (fun p => String.eqb (pr_id p) preset_id) (pv_presets provider).

(** @src src/model_catalog.rs:388-399 [ModelCatalog::find_preset_by_model_id] *)
Definition find_preset_by_model_id (c : ModelCatalog) (model_id : string) : option PresetCatalog :=
  '(key, id) ← head (concat (map (fun provider =>
     filtermap (fun preset => if String.eqb (pr_model_id preset) model_id
                              then Some (pv_key provider, pr_id preset) else None)
               (pv_presets provider)) c));
  catalog_preset c key id.

(** @src src/model_catalog.rs:411-416 [ModelCatalog::find_preset] *)
Definition find_preset (c : ModelCatalog) (provider_key model_id : string) : option PresetCatalog :=
  provider ← catalog_provider c provider_key;
  preset ← find_first (fun p => String.eqb (pr_model_id p) model_id) (pv_presets provider);
  catalog_preset c (pv_key provider) (pr_id preset).

(** @src src/model_catalog.rs:873-892 [cost_from_preset] *)
Definition cost_from_preset (p : PresetCatalog) (usage : Usage) : Cost :=
  let rate tokens r := match r with Some r => per_m tokens r | None => f64_zero end in
  cost_of_parts (rate (u_input usage) (pr_input p)) (rate (u_output usage) (pr_output p))
    (rate (u_cache_read usage) (pr_cache_read p)) (rate (u_cache_write usage) (pr_cache_write p)).

(** @src src/model_catalog.rs:848-857 [calculate_cost] *)
Definition calculate_cost (c : ModelCatalog) (model_id : string) (usage : Usage) : Cost :=
  match find_preset_by_model_id c model_id with
  | None => cost_default
  | Some preset => cost_from_preset preset usage
  end.

(** @src src/model_catalog.rs:866-871 [calculate_cost_for_provider] *)
Definition calculate_cost_for_provider (c : ModelCatalog) (provider_key model_id : string)
    (usage : Usage) : Cost :=
  match find_preset c provider_key model_id with
  | Some preset => cost_from_preset preset usage
  | None => calculate_cost c model_id usage
  end.

(** Assignment to [message.cost]. *)
Definition with_cost (m : AssistantMessage) (c : Cost) : AssistantMessage :=
  MkAssistantMessage (am_content m) (am_provider m) (am_model_id m) (am_usage m) c
    (am_stop_reason m) (am_error_message m) (am_error_kind m) (am_timestamp m) (am_cache_hint m).

(** The message and whether it was repriced.
    @src src/model_catalog.rs:966-984 [price_assistant_message_with] *)
Definition price_assistant_message_with (c : ModelCatalog) (m : AssistantMessage)
    (calculator : option CostCalculator) : AssistantMessage * bool :=
  if negb (cost_is_zero (am_cost m)) then (m, false)
  else
    let operator :=
      calculate ← calculator;
      cost ← calculate (am_model_id m) (am_usage m);
      if cost_is_zero cost then None else Some cost in
    let priced := default (calculate_cost_for_provider c (am_provider m) (am_model_id m) (am_usage m))
                    operator in
    if cost_is_zero priced then (m, false) else (with_cost m priced, true).

(** ** Precedence *)

(** The price of a message: an adapter's own non-zero cost is never touched;
    otherwise the operator's calculator wins when it gives a non-zero cost, and
    the catalog decides else; only the cost changes, the flag says whether it
    did, and pricing again changes nothing. *)
Lemma pricing_precedence c m calculator :
  let '(m', repriced) := price_assistant_message_with c m calculator in
  m' = with_cost m (am_cost m')
  /\ repriced = negb (cost_is_zero (am_cost m')) && cost_is_zero (am_cost m)
  /\ price_assistant_message_with c m' calculator = (m', false)
  /\ (cost_is_zero (am_cost m) = false -> m' = m)
  /\ (cost_is_zero (am_cost m) = true ->
      forall calculate cost, calculator = Some calculate ->
        calculate (am_model_id m) (am_usage m) = Some cost -> cost_is_zero cost = false ->
        am_cost m' = cost)
  /\ (cost_is_zero (am_cost m) = true ->
      (forall calculate cost, calculator = Some calculate ->
        calculate (am_model_id m) (am_usage m) = Some cost -> cost_is_zero cost = true) ->
      let catalog := calculate_cost_for_provider c (am_provider m) (am_model_id m) (am_usage m) in
      m' = if cost_is_zero catalog then m else with_cost m catalog).
Proof.
  assert (Hid : m = with_cost m (am_cost m)) by (by destruct m).
  unfold price_assistant_message_with at 1.
  destruct (cost_is_zero (am_cost m)) eqn:Hz; cbn [negb].
  2: { split_and!; try done; [by rewrite Hz|]. unfold price_assistant_message_with. by rewrite Hz. }
  set (op := _ ≫= _). set (catalog := calculate_cost_for_provider _ _ _ _).
  assert (Hop : match op with
                | Some cost => exists f, calculator = Some f
                    /\ f (am_model_id m) (am_usage m) = Some cost /\ cost_is_zero cost = false
                | None => forall f cost, calculator = Some f ->
                    f (am_model_id m) (am_usage m) = Some cost -> cost_is_zero cost = true
                end).
  { unfold op. destruct calculator as [f|]; cbn; [|done].
    destruct (f (am_model_id m) (am_usage m)) as [cost|] eqn:Hf; cbn; [|naive_solver].
    destruct (cost_is_zero cost) eqn:Hc; naive_solver. }
  destruct (cost_is_zero (default catalog op)) eqn:Hp.
  - assert (op = None) as Hnone by (destruct op as [cost|];
      [cbn in Hp; destruct Hop as (? & _ & _ & ?); congruence|done]).
    rewrite Hnone in Hop, Hp. cbn in Hp.
    split_and!; [exact Hid|by rewrite Hz| |done| |].
    + unfold price_assistant_message_with. rewrite Hz. fold op catalog.
      rewrite Hnone. cbn. by rewrite Hp.
    + intros _ f cost Hf Hc Hcz. specialize (Hop f cost Hf Hc). congruence.
    + intros _ _. cbn zeta. by rewrite Hp.
  - cbn [with_cost am_cost]. split_and!; [done| | | | |].
    + by rewrite Hp.
    + unfold price_assistant_message_with. cbn. by rewrite Hp.
    + done.
    + intros _ f cost Hf Hc Hcz. destruct op as [cost'|].
      * destruct Hop as (f' & Hf' & Hc' & _). cbn. congruence.
      * specialize (Hop f cost Hf Hc). congruence.
    + intros _ Hall. destruct op as [cost'|]; cbn in *; [|by rewrite Hp].
      destruct Hop as (f' & Hf' & Hc' & Hcz). specialize (Hall f' cost' Hf' Hc'). congruence.
Qed.

End Pricing.

(** A declared rate of 3 per million and a million tokens cost exactly 3. *)
Example three_dollars :
  c_total (cost_for (MkModelRates (f64_of_N 3) f64_zero f64_zero f64_zero)
             (MkUsage 1000000 0 0 0 1000000 ∅)) = f64_of_N 3.
Proof. vm_compute. reflexivity. Qed.
