(* ===== verification/LoopTypes.v ===== *)
(** * Data of the agent loop: [src/loop_/types.rs], [src/loop_/event.rs], [src/pause_state.rs]

    Events, the conversation history with its snapshot mirror, the loop's
    mutable state and the outcomes its phases exchange.  The history's theorem
    says the mirror is invisible: a snapshot always shows the LLM messages of
    the current history, whatever was pushed, replaced or edited before. *)
From S2P Require Export Stream Transformers Transfer Pricing.
Open Scope list_scope.

Section LoopTypes.
Context `{E : Ext}.

(** ** Events *)

(** @src src/loop_/event.rs:15-37 [TurnEndReason] *)
Inductive TurnEndReason :=
| EndComplete | EndToolsExecuted | EndSteeringInterrupt | EndError | EndCancelled | EndAborted
| EndTransfer | EndReasoningOnly.

(** @src src/loop_/event.rs:45-50 [TransferRejectionReason] *)
Inductive TransferRejectionReason := RejectCircular | RejectMaxDepthExceeded.

(** @src src/stream.rs:896-912 [AssistantMessageDelta] *)
Inductive AssistantMessageDelta :=
| DeltaText (content_index : nat) (delta : string)
| DeltaThinking (content_index : nat) (delta : string)
| DeltaToolCall (content_index : nat) (delta : string).

(** @src src/types/mod.rs:744-769 [TurnSnapshot] *)
Record TurnSnapshot := MkTurnSnapshot {
  sn_turn_index : nat;
  sn_messages : list LlmMessage;
  sn_usage : Usage;
  sn_cost : Cost;
  sn_stop_reason : StopReason;
  sn_state_delta : option StateDelta;
}.

(** @src src/loop_/event.rs:63-233 [AgentEvent] *)
Inductive AgentEvent :=
| AgentStart
| AgentEnd (messages : list AgentMessage)
| TurnStart
| TurnEnd (assistant_message : AssistantMessage) (tool_results : list ToolResultMessage)
          (reason : TurnEndReason) (snapshot : TurnSnapshot)
| BeforeLlmCall (system_prompt : string) (messages : list LlmMessage) (model : ModelSpec)
| MessageStart
| MessageUpdate (delta : AssistantMessageDelta)
| MessageEnd (message : AssistantMessage)
| ToolExecutionStart (id name : string) (arguments : Value)
| ToolExecutionUpdate (id name : string) (partial : AgentToolResult)
| ToolApprovalRequested (id name : string) (arguments : Value)
| ToolApprovalResolved (id name : string) (approved : bool)
| ToolExecutionEnd (id name : string) (result : AgentToolResult) (is_error : bool)
| ContextCompacted (report : CompactionReport)
| ModelFallbackEvent (from_model to_model : ModelSpec)
| ModelCycled (old new : ModelSpec) (reason : string)
| StateChanged (delta : StateDelta)
| CacheAction (hint : CacheHint) (prefix_tokens : N)
| McpServerConnected (server_name : string)
| McpServerDisconnected (server_name reason : string)
| McpToolsDiscovered (server_name : string) (tool_count : nat)
| McpToolCallStarted (server_name tool_name : string)
| McpToolCallCompleted (server_name tool_name : string) (is_error : bool)
| ArtifactSaved (session_id name : string) (version : N)
| TransferInitiated (signal : TransferSignal)
| TransferRejected (source_agent target_agent : string) (reason : TransferRejectionReason)
| CustomEvent (name : string) (payload : Value).

(** ** The history and its mirror *)

(** [None] in the mirror stands for a custom message.
    @src src/loop_/types.rs:16-39 [ContextMessages] *)
Record ContextMessages := MkContextMessages {
  cm_messages : list AgentMessage;
  cm_mirror : list (option LlmMessage);
}.

(** @src src/loop_/types.rs:44-49 [ContextMessages::new] *)
Definition context_new (messages : list AgentMessage) : ContextMessages :=
  MkContextMessages messages [].

(** @src src/loop_/types.rs:52-54 [ContextMessages::push] *)
Definition context_push (m : AgentMessage) (c : ContextMessages) : ContextMessages :=
  MkContextMessages (cm_messages c ++ [m]) (cm_mirror c).

(** @src src/loop_/types.rs:57-59 [ContextMessages::extend] *)
Definition context_extend (ms : list AgentMessage) (c : ContextMessages) : ContextMessages :=
  MkContextMessages (cm_messages c ++ ms) (cm_mirror c).

(** The other vector is left empty.
    @src src/loop_/types.rs:62-64 [ContextMessages::append] *)
Definition context_append (c : ContextMessages) (other : list AgentMessage) :
    ContextMessages * list AgentMessage :=
  (MkContextMessages (cm_messages c ++ other) (cm_mirror c), []).

(** [None] is the out-of-bounds panic.
    @src src/loop_/types.rs:72-77 [ContextMessages::set] *)
Definition context_set (index : nat) (m : AgentMessage) (c : ContextMessages) : option ContextMessages :=
  if (index <? length (cm_messages c))%nat then
    Some (MkContextMessages (<[index := m]> (cm_messages c))
            (if (index <? length (cm_mirror c))%nat then take index (cm_mirror c) else cm_mirror c))
  else None.

(** [f] is what the caller does with the borrowed vector.
    @src src/loop_/types.rs:85-88 [ContextMessages::make_mut] *)
Definition context_make_mut (f : list AgentMessage -> list AgentMessage) (c : ContextMessages) :
    ContextMessages := MkContextMessages (f (cm_messages c)) [].

(** @src src/loop_/types.rs:91-94 [ContextMessages::take_vec] *)
Definition context_take_vec (c : ContextMessages) : list AgentMessage * ContextMessages :=
  (cm_messages c, MkContextMessages [] []).

(** @src src/loop_/types.rs:98-100 [ContextMessages::into_vec] *)
Definition context_into_vec (c : ContextMessages) : list AgentMessage := cm_messages c.

(** @src src/loop_/types.rs:113-122 [ContextMessages::snapshot_llm] *)
Definition context_snapshot_llm (c : ContextMessages) : list LlmMessage * ContextMessages :=
  let mirror := cm_mirror c ++ map as_llm (drop (length (cm_mirror c)) (cm_messages c)) in
  (filtermap id mirror, MkContextMessages (cm_messages c) mirror).

(** The mirror agrees with a prefix of the history. *)
Definition mirror_ok (c : ContextMessages) : Prop :=
  cm_mirror c = map as_llm (take (length (cm_mirror c)) (cm_messages c)).

(** The calls the loop makes on its history. *)
Inductive context_op :=
| OpPush (m : AgentMessage)
| OpExtend (ms : list AgentMessage)
| OpAppend (ms : list AgentMessage)
| OpSet (index : nat) (m : AgentMessage)
| OpMakeMut (f : list AgentMessage -> list AgentMessage)
| OpTake
| OpSnapshot.

Definition context_apply (o : context_op) (c : ContextMessages) : option ContextMessages :=
  match o with
  | OpPush m => Some (context_push m c)
  | OpExtend ms => Some (context_extend ms c)
  | OpAppend ms => Some (fst (context_append c ms))
  | OpSet i m => context_set i m c
  | OpMakeMut f => Some (context_make_mut f c)
  | OpTake => Some (snd (context_take_vec c))
  | OpSnapshot => Some (snd (context_snapshot_llm c))
  end.

Fixpoint context_run (os : list context_op) (c : ContextMessages) : option ContextMessages :=
  match os with [] => Some c | o :: os' => context_apply o c ≫= context_run os' end.

(** What the same calls do to a plain vector. *)
Definition plain_apply (o : context_op) (l : list AgentMessage) : list AgentMessage :=
  match o with
  | OpPush m => l ++ [m]
  | OpExtend ms | OpAppend ms => l ++ ms
  | OpSet i m => <[i := m]> l
  | OpMakeMut f => f l
  | OpTake => []
  | OpSnapshot => l
  end.

Lemma mirror_ok_length c : mirror_ok c -> length (cm_mirror c) <= length (cm_messages c).
Proof.
  intros H. apply (f_equal length) in H. rewrite length_map, length_take in H. lia.
Qed.

Lemma mirror_ok_app c ms :
  mirror_ok c -> mirror_ok (MkContextMessages (cm_messages c ++ ms) (cm_mirror c)).
Proof.
  intros H. pose proof (mirror_ok_length c H). unfold mirror_ok in *. simpl.
  by rewrite take_app_le.
Qed.

Lemma mirror_ok_set c i m c' : mirror_ok c -> context_set i m c = Some c' -> mirror_ok c'.
Proof.
  intros H. unfold context_set. destruct (Nat.ltb_spec i (length (cm_messages c))); [|done].
  intros [= <-]. pose proof (mirror_ok_length c H) as Hl. unfold mirror_ok in *. simpl.
  destruct (Nat.ltb_spec i (length (cm_mirror c))) as [Hi|Hi].
  - rewrite length_take, Nat.min_l by lia. rewrite H at 1.
    rewrite firstn_map, take_take, Nat.min_l by lia.
    by rewrite take_insert_ge.
  - by rewrite take_insert_ge.
Qed.

Lemma snapshot_mirror c :
  mirror_ok c -> cm_mirror (snd (context_snapshot_llm c)) = map as_llm (cm_messages c).
Proof.
  unfold mirror_ok, context_snapshot_llm. intros H. simpl. rewrite H at 1.
  by rewrite <- map_app, take_drop.
Qed.

Lemma mirror_ok_apply o c c' : mirror_ok c -> context_apply o c = Some c' -> mirror_ok c'.
Proof.
  intros H. destruct o; simpl; intros Ha; simplify_eq; try (by apply mirror_ok_app); try done.
  - by eapply mirror_ok_set.
  - pose proof (snapshot_mirror c H) as Hm. unfold mirror_ok. simpl in Hm |- *.
    by rewrite Hm, length_map, firstn_all.
Qed.

Lemma filtermap_id_map {A B} (f : A -> option B) l : filtermap id (map f l) = filtermap f l.
Proof. induction l as [|a l IH]; simpl; [done|]. destruct (f a); simpl; by rewrite IH. Qed.

Lemma snapshot_spec c :
  mirror_ok c -> fst (context_snapshot_llm c) = filtermap as_llm (cm_messages c).
Proof.
  intros H. pose proof (snapshot_mirror c H) as Hm. unfold context_snapshot_llm in *. simpl in *.
  by rewrite Hm, filtermap_id_map.
Qed.

(** The mirror is invisible: after any calls on a fresh history the messages
    are those of a plain vector under the same calls, a snapshot shows exactly
    its LLM messages in order, and a second snapshot is the same; the calls fail
    only where a [set] is out of bounds. *)
Lemma snapshot_mirror_invisible os messages :
  match context_run os (context_new messages) with
  | Some c =>
    cm_messages c = foldl (fun l o => plain_apply o l) messages os
    /\ fst (context_snapshot_llm c) = filtermap as_llm (cm_messages c)
    /\ fst (context_snapshot_llm (snd (context_snapshot_llm c))) = fst (context_snapshot_llm c)
  | None =>
    exists pre i m post, os = pre ++ OpSet i m :: post
      /\ length (foldl (fun l o => plain_apply o l) messages pre) <= i
  end.
Proof.
  change messages with (cm_messages (context_new messages)) at 2 3.
  assert (H : mirror_ok (context_new messages)) by done.
  revert H. generalize (context_new messages) as c. clear messages.
  induction os as [|o os IH]; intros c H; cbn [context_run foldl].
  { split_and!; [done|by apply snapshot_spec|].
    assert (mirror_ok (snd (context_snapshot_llm c))) as H' by (by apply (mirror_ok_apply OpSnapshot c)).
    by rewrite !snapshot_spec. }
  assert (Hp : forall c', context_apply o c = Some c' -> cm_messages c' = plain_apply o (cm_messages c)).
  { destruct o; simpl; intros c' Ha; simplify_eq; try done.
    unfold context_set in Ha. case_match; by simplify_eq. }
  destruct (context_apply o c) as [c'|] eqn:Ha; cbn [mbind option_bind].
  - rewrite <- (Hp c' eq_refl). specialize (IH c' (mirror_ok_apply o c c' H Ha)).
    destruct (context_run os c'); [done|].
    destruct IH as (pre & i & m & post & -> & Hlen). exists (o :: pre), i, m, post.
    simpl. by rewrite <- (Hp c' eq_refl).
  - destruct o as [| | |i m| | |]; try done. exists [], i, m, os. split; [done|]. simpl in *.
    unfold context_set in Ha. destruct (Nat.ltb_spec i (length (cm_messages c))); [done|lia].
Qed.

(** ** Loop state *)

(** @src src/loop_/types.rs:136-162 [LoopState] *)
Record LoopState := MkLoopState {
  context_messages : ContextMessages;
  pending_messages : list AgentMessage;
  initial_new_messages_len : nat;
  overflow_signal : bool;
  overflow_recovery_attempted : bool;
  turn_index : nat;
  accumulated_usage : Usage;
  accumulated_cost : Cost;
  last_assistant_message : option AssistantMessage;
  last_tool_results : list ToolResultMessage;
  transfer_chain : TransferChain;
  reasoning_only_nudged : bool;
}.

(** Field assignments. *)
Definition put_context (c : ContextMessages) (s : LoopState) : LoopState :=
  MkLoopState c (pending_messages s) (initial_new_messages_len s) (overflow_signal s)
    (overflow_recovery_attempted s) (turn_index s) (accumulated_usage s) (accumulated_cost s)
    (last_assistant_message s) (last_tool_results s) (transfer_chain s) (reasoning_only_nudged s).
Definition put_pending (p : list AgentMessage) (s : LoopState) : LoopState :=
  MkLoopState (context_messages s) p (initial_new_messages_len s) (overflow_signal s)
    (overflow_recovery_attempted s) (turn_index s) (accumulated_usage s) (accumulated_cost s)
    (last_assistant_message s) (last_tool_results s) (transfer_chain s) (reasoning_only_nudged s).
Definition put_initial_len (n : nat) (s : LoopState) : LoopState :=
  MkLoopState (context_messages s) (pending_messages s) n (overflow_signal s)
    (overflow_recovery_attempted s) (turn_index s) (accumulated_usage s) (accumulated_cost s)
    (last_assistant_message s) (last_tool_results s) (transfer_chain s) (reasoning_only_nudged s).
Definition put_overflow_signal (b : bool) (s : LoopState) : LoopState :=
  MkLoopState (context_messages s) (pending_messages s) (initial_new_messages_len s) b
    (overflow_recovery_attempted s) (turn_index s) (accumulated_usage s) (accumulated_cost s)
    (last_assistant_message s) (last_tool_results s) (transfer_chain s) (reasoning_only_nudged s).
Definition put_recovery_attempted (b : bool) (s : LoopState) : LoopState :=
  MkLoopState (context_messages s) (pending_messages s) (initial_new_messages_len s)
    (overflow_signal s) b (turn_index s) (accumulated_usage s) (accumulated_cost s)
    (last_assistant_message s) (last_tool_results s) (transfer_chain s) (reasoning_only_nudged s).
Definition put_turn_index (n : nat) (s : LoopState) : LoopState :=
  MkLoopState (context_messages s) (pending_messages s) (initial_new_messages_len s)
    (overflow_signal s) (overflow_recovery_attempted s) n (accumulated_usage s)
    (accumulated_cost s) (last_assistant_message s) (last_tool_results s) (transfer_chain s)
    (reasoning_only_nudged s).
Definition put_last_tool_results (r : list ToolResultMessage) (s : LoopState) : LoopState :=
  MkLoopState (context_messages s) (pending_messages s) (initial_new_messages_len s)
    (overflow_signal s) (overflow_recovery_attempted s) (turn_index s) (accumulated_usage s)
    (accumulated_cost s) (last_assistant_message s) r (transfer_chain s) (reasoning_only_nudged s).
Definition put_last_assistant (m : AssistantMessage) (s : LoopState) : LoopState :=
  MkLoopState (context_messages s) (pending_messages s) (initial_new_messages_len s)
    (overflow_signal s) (overflow_recovery_attempted s) (turn_index s) (accumulated_usage s)
    (accumulated_cost s) (Some m) (last_tool_results s) (transfer_chain s) (reasoning_only_nudged s).
Definition put_chain (c : TransferChain) (s : LoopState) : LoopState :=
  MkLoopState (context_messages s) (pending_messages s) (initial_new_messages_len s)
    (overflow_signal s) (overflow_recovery_attempted s) (turn_index s) (accumulated_usage s)
    (accumulated_cost s) (last_assistant_message s) (last_tool_results s) c (reasoning_only_nudged s).
Definition put_nudged (b : bool) (s : LoopState) : LoopState :=
  MkLoopState (context_messages s) (pending_messages s) (initial_new_messages_len s)
    (overflow_signal s) (overflow_recovery_attempted s) (turn_index s) (accumulated_usage s)
    (accumulated_cost s) (last_assistant_message s) (last_tool_results s) (transfer_chain s) b.

(** @src src/loop_/turn.rs:552-556 [accumulate_turn_state] *)
Definition accumulate_turn_state (m : AssistantMessage) (s : LoopState) : LoopState :=
  MkLoopState (context_messages s) (pending_messages s) (initial_new_messages_len s)
    (overflow_signal s) (overflow_recovery_attempted s) (turn_index s)
    (usage_add (accumulated_usage s) (am_usage m)) (cost_add (accumulated_cost s) (am_cost m))
    (Some m) (last_tool_results s) (transfer_chain s) (reasoning_only_nudged s).

(** ** Outcomes *)

(** @src src/loop_/types.rs:167-174 [TurnOutcome] *)
Inductive TurnOutcome := ContinueInner | BreakInner | Return.

(** @src src/loop_/types.rs:179-184 [ToolCallInfo] *)
Record ToolCallInfo := MkToolCallInfo {
  tci_id : string;
  tci_name : string;
  tci_arguments : Value;
  tci_is_incomplete : bool;
}.

(** @src src/loop_/types.rs:189-195 [StreamResult] *)
Inductive StreamResult :=
| Message (m : AssistantMessage)
| ContextOverflow
| StreamAborted
| ChannelClosed.

(** The wall-clock durations of the metrics are not modelled.
    @src src/metrics.rs:20-27 [ToolExecMetrics] *)
Record ToolExecMetrics := MkToolExecMetrics { tm_tool_name : string; tm_success : bool }.

(** @src src/metrics.rs:46-59 [TurnMetrics] *)
Record TurnMetrics := MkTurnMetrics {
  tmx_turn_index : nat;
  tmx_tool_executions : list ToolExecMetrics;
  tmx_usage : Usage;
  tmx_cost : Cost;
}.

(** @src src/loop_/types.rs:200-235 [ToolExecOutcome] *)
Inductive ToolExecOutcome :=
| Completed (results : list ToolResultMessage) (tool_metrics : list ToolExecMetrics)
            (transfer_signal : option TransferSignal) (injected_messages : list AgentMessage)
| Stopped (results : list ToolResultMessage) (tool_metrics : list ToolExecMetrics)
          (reason : string) (injected_messages : list AgentMessage)
| SteeringInterrupt (completed cancelled : list ToolResultMessage)
                    (steering_messages : list AgentMessage) (tool_metrics : list ToolExecMetrics)
                    (injected_messages : list AgentMessage)
| ToolsAborted (results : list ToolResultMessage) (tool_metrics : list ToolExecMetrics)
               (injected_messages : list AgentMessage)
| ToolsChannelClosed.

(** ** Pause snapshots *)

(** @src src/pause_state.rs:94-102 [clone_messages] *)
Definition clone_messages (messages : list AgentMessage) : list AgentMessage :=
  filtermap (fun m => match m with
                      | Llm llm => Some (Llm llm)
                      | Custom custom => Custom <$> clone_box custom
                      end) messages.

End LoopTypes.
