(* ===== verification/LoopWorld.v ===== *)
(** * Configuration, effects and event protocol of the loop: [src/loop_/config.rs], [src/loop_/mod.rs]

    [AgentLoopConfig] gathers what the host supplies; each callback threads the
    host's own state [H].  [World] is everything the loop task can change or
    observe: its [LoopState], the events sent, the session and cache state, the
    pause snapshots, and three oracles - how many more events the receiver takes
    before it is dropped, after how many further checks the cancellation token
    reads as cancelled, and how the scheduler interleaves the tool tasks.
    Quantifying over the oracles covers every moment at which a caller drops
    the stream or cancels, and every interleaving.

    The second half is the protocol of [AgentEvent]s as a phase automaton, with
    the Hoare-style rules the turn and loop proofs use, and the classes of errors
    that decide what is retried. *)
From S2P Require Export LoopTypes Policy StreamSpec.
Open Scope list_scope.

(** Whether the receiver of a run is known to stay to its end. *)
Class Receiver := receiver_stays : Prop.

Section World.
Context `{E : Ext} {H : Type}.

(** ** Host callbacks *)

(** @src src/types/mod.rs:640-645 [AgentContext] *)
Record AgentContext := MkAgentContext {
  ac_system_prompt : string;
  ac_messages : list AgentMessage;
  ac_tools : list (AgentTool H);
}.

(** The model, the context and the resolved API key; the events of one response,
    to its end.
    @src src/stream.rs:925-938 [StreamFn (brace of the trait open)] *)
Definition StreamFn : Type :=
  ModelSpec -> AgentContext -> option string -> H -> list AssistantMessageEvent * H.

(** [delay] may draw jitter.
    @src src/retry.rs:21-40 [RetryStrategy] *)
Record RetryStrategy := MkRetryStrategy {
  should_retry : AgentError -> nat -> bool;
  retry_delay : nat -> H -> Duration * H;
}.

(** @src src/message_provider.rs:18-45 [MessageProvider] *)
Record MessageProvider := MkMessageProvider {
  poll_steering : H -> list AgentMessage * H;
  poll_follow_up : H -> list AgentMessage * H;
  has_steering : H -> bool;
}.

(** A context transformer with its state in [H]; [publish] is what the loop does to
    a sliding window before a compaction pass. *)
Record TransformerOps := MkTransformerOps {
  op_transform : list AgentMessage -> bool -> H -> option CompactionReport * list AgentMessage * H;
  op_publish : nat -> H -> H;
}.

(** @src src/loop_/config.rs:64-190 [AgentLoopConfig] *)
Record AgentLoopConfig := MkConfig {
  cfg_agent_name : option string;
  cfg_transfer_chain : option TransferChain;
  cfg_model : ModelSpec;
  cfg_retry_strategy : RetryStrategy;
  cfg_stream_fn : StreamFn;
  cfg_tools : list (AgentTool H);
  cfg_convert_to_llm : AgentMessage -> option LlmMessage;
  cfg_transform_context : option TransformerOps;
  cfg_async_transform_context : option TransformerOps;
  cfg_get_api_key : option (string -> H -> option string * H);
  cfg_message_provider : option MessageProvider;
  cfg_approve_tool : option (ToolApprovalRequest -> H -> ApprovalReply * H);
  cfg_approval_mode : ApprovalMode;
  cfg_pre_turn_policies : list (PreTurnPolicy (H := H));
  cfg_pre_dispatch_policies : list (PreDispatchPolicy (H := H));
  cfg_post_turn_policies : list (PostTurnPolicy (H := H));
  cfg_post_loop_policies : list (PostLoopPolicy (H := H));
  cfg_metrics_collector : option (TurnMetrics -> H -> H);
  cfg_fallback : option (list (ModelSpec * StreamFn));
  cfg_tool_execution_policy : ToolExecutionPolicy H;
  cfg_credential_resolver : option (CredentialResolver H);
  cfg_cache_config : option CacheConfig;
  cfg_dynamic_system_prompt : option (H -> string * H);
  cfg_cost_calculator : option CostCalculator;
  cfg_catalog : ModelCatalog;
  cfg_reasoning_only_nudge : bool;
  cfg_clock : H -> N * H;
}.

(** ** The world *)

Record World := MkWorld {
  w_state : LoopState;
  w_events : list AgentEvent;
  w_room : option nat;
  w_cancel : option nat;
  w_session : SessionState;
  w_cache : CacheState;
  w_pending : list AgentMessage;
  w_context : option (list AgentMessage);
  w_sleeps : list Duration;
  w_schedule : list (list nat * nat);
  w_host : H;
}.

Definition set_state (s : LoopState) (w : World) : World :=
  MkWorld s (w_events w) (w_room w) (w_cancel w) (w_session w) (w_cache w) (w_pending w)
    (w_context w) (w_sleeps w) (w_schedule w) (w_host w).
Definition set_cancel (c : option nat) (w : World) : World :=
  MkWorld (w_state w) (w_events w) (w_room w) c (w_session w) (w_cache w) (w_pending w)
    (w_context w) (w_sleeps w) (w_schedule w) (w_host w).
Definition set_session (s : SessionState) (w : World) : World :=
  MkWorld (w_state w) (w_events w) (w_room w) (w_cancel w) s (w_cache w) (w_pending w)
    (w_context w) (w_sleeps w) (w_schedule w) (w_host w).
Definition set_cache (c : CacheState) (w : World) : World :=
  MkWorld (w_state w) (w_events w) (w_room w) (w_cancel w) (w_session w) c (w_pending w)
    (w_context w) (w_sleeps w) (w_schedule w) (w_host w).
Definition set_pending (p : list AgentMessage) (w : World) : World :=
  MkWorld (w_state w) (w_events w) (w_room w) (w_cancel w) (w_session w) (w_cache w) p
    (w_context w) (w_sleeps w) (w_schedule w) (w_host w).
Definition set_context (c : option (list AgentMessage)) (w : World) : World :=
  MkWorld (w_state w) (w_events w) (w_room w) (w_cancel w) (w_session w) (w_cache w) (w_pending w)
    c (w_sleeps w) (w_schedule w) (w_host w).
Definition add_sleep (d : Duration) (w : World) : World :=
  MkWorld (w_state w) (w_events w) (w_room w) (w_cancel w) (w_session w) (w_cache w) (w_pending w)
    (w_context w) (w_sleeps w ++ [d]) (w_schedule w) (w_host w).
Definition set_schedule (s : list (list nat * nat)) (w : World) : World :=
  MkWorld (w_state w) (w_events w) (w_room w) (w_cancel w) (w_session w) (w_cache w) (w_pending w)
    (w_context w) (w_sleeps w) s (w_host w).
Definition set_host (h : H) (w : World) : World :=
  MkWorld (w_state w) (w_events w) (w_room w) (w_cancel w) (w_session w) (w_cache w) (w_pending w)
    (w_context w) (w_sleeps w) (w_schedule w) h.

Abbreviation M := (Prog World).

(** The loop's state, and its history. *)
Definition st {A} (f : LoopState -> A) : M A := gets (fun w => f (w_state w)).
Definition upd (f : LoopState -> LoopState) : M unit := modify (fun w => set_state (f (w_state w)) w).
Definition messages_now : M (list AgentMessage) := st (fun s => cm_messages (context_messages s)).

(** Ask the host. *)
Definition host {A} (f : H -> A * H) : M A := fun w =>
  let '(a, h) := f (w_host w) in Some (a, set_host h w).

(** [now_timestamp()] *)
Definition now_timestamp (config : AgentLoopConfig) : M N := host (cfg_clock config).

(** [false] when the receiver has been dropped.
    @src src/loop_/mod.rs:137-139 [emit] *)
Definition emit (e : AgentEvent) : M bool := fun w =>
  match w_room w with
  | Some 0 => Some (false, w)
  | Some (S n) => Some (true, MkWorld (w_state w) (w_events w ++ [e]) (Some n) (w_cancel w)
      (w_session w) (w_cache w) (w_pending w) (w_context w) (w_sleeps w) (w_schedule w) (w_host w))
  | None => Some (true, MkWorld (w_state w) (w_events w ++ [e]) None (w_cancel w)
      (w_session w) (w_cache w) (w_pending w) (w_context w) (w_sleeps w) (w_schedule w) (w_host w))
  end.

(** [let _ = emit(..).await] *)
Definition emit_ (e : AgentEvent) : M unit := emit e ≫= fun _ => mret tt.

(** One look at the cancellation token. *)
Definition is_cancelled : M bool := fun w =>
  match w_cancel w with
  | Some 0 => Some (true, w)
  | Some (S n) => Some (false, set_cancel (Some n) w)
  | None => Some (false, w)
  end.

(** [tokio::time::sleep] *)
Definition sleep (d : Duration) : M unit := modify (add_sleep d).

(** @src src/loop_/config.rs:45-47 [AgentLoopRuntimeState::clear_pending_messages] *)
Definition clear_pending_message_snapshot : M unit := modify (set_pending []).

(** @src src/loop_/turn.rs:525-529 [sync_pending_message_snapshot] *)
Definition sync_pending_message_snapshot : M unit :=
  modify (fun w => set_pending (clone_messages (pending_messages (w_state w))) w).

(** @src src/loop_/config.rs:53-55 [AgentLoopRuntimeState::replace_loop_context] *)
Definition replace_loop_context (messages : list AgentMessage) : M unit :=
  modify (set_context (Some (clone_messages messages))).

(** @src src/loop_/turn.rs:543-547 [sync_loop_context_snapshot] *)
Definition sync_loop_context_snapshot : M unit :=
  messages_now ≫= replace_loop_context.

(** [state.context_messages.push(..)] *)
Definition push_context (m : AgentMessage) : M unit :=
  upd (fun s => put_context (context_push m (context_messages s)) s).

(** [state.context_messages.set(..)]; the out-of-bounds panic is [stuck]. *)
Definition set_context_message (i : nat) (m : AgentMessage) : M unit :=
  st context_messages ≫= fun c =>
  match context_set i m c with
  | Some c' => upd (put_context c')
  | None => stuck
  end.

(** ** The event protocol *)

(** Where a listener is in the life of a run. *)
Inductive Phase :=
| Before       (* nothing seen *)
| Between      (* between turns *)
| TurnBegun    (* after [TurnStart] *)
| Calling      (* after [BeforeLlmCall] *)
| Streaming    (* after [MessageStart] *)
| Tools        (* tool events *)
| Closing      (* a transfer decision or the state delta *)
| Ended.       (* after [AgentEnd] *)

#[export] Instance Phase_eq_dec : EqDecision Phase.
Proof. solve_decision. Defined.

Definition is_tool_event (e : AgentEvent) : bool :=
  match e with
  | ToolExecutionStart _ _ _ | ToolExecutionUpdate _ _ _ | ToolExecutionEnd _ _ _ _
  | ToolApprovalRequested _ _ _ | ToolApprovalResolved _ _ _ | ArtifactSaved _ _ _ => true
  | _ => false
  end.

(** The ids of a message's tool calls. *)
Definition call_id (b : ContentBlock) : option string :=
  match b with ToolCall id _ _ _ => Some id | _ => None end.

Definition call_ids (m : AssistantMessage) : list string := filtermap call_id (am_content m).

(** A turn as it ends: every tool call in the message can be replayed, and but for a
    turn that failed or was aborted each call has exactly one result. *)
Definition turn_ok (m : AssistantMessage) (trs : list ToolResultMessage) (reason : TurnEndReason) : bool :=
  forallb replayable (am_content m)
  && match reason with
     | EndError | EndAborted => true
     | _ => bool_decide (map tr_tool_call_id trs ≡ₚ call_ids m)
     end.

(** Which event may come next, and where it leads. *)
Definition phase_step (p : Phase) (e : AgentEvent) : option Phase :=
  match p, e with
  | Before, AgentStart => Some Between
  | Between, ContextCompacted _ => Some Between
  | Between, TurnStart => Some TurnBegun
  | Between, AgentEnd _ => Some Ended
  | TurnBegun, CacheAction _ _ => Some TurnBegun
  | TurnBegun, BeforeLlmCall _ _ _ => Some Calling
  | TurnBegun, MessageStart => Some Streaming
  | Calling, MessageStart => Some Streaming
  | Streaming, MessageUpdate _ | Streaming, MessageEnd _ | Streaming, ModelFallbackEvent _ _
  | Streaming, ContextCompacted _ => Some Streaming
  | (Calling | Streaming | Tools | Closing), TurnEnd m trs reason _ =>
    if turn_ok m trs reason then Some Between else None
  | (Calling | Streaming | Tools | Closing), StateChanged _ => Some Closing
  | (Streaming | Tools), (TransferInitiated _ | TransferRejected _ _ _) => Some Closing
  | (Streaming | Tools), e => if is_tool_event e then Some Tools else None
  | _, _ => None
  end.

Fixpoint phase_run (p : Phase) (es : list AgentEvent) : option Phase :=
  match es with [] => Some p | e :: es' => phase_step p e ≫= fun p' => phase_run p' es' end.

Lemma phase_run_app p es fs : phase_run p (es ++ fs) = phase_run p es ≫= fun p' => phase_run p' fs.
Proof.
  revert p. induction es as [|e es IH]; intros p; simpl; [done|].
  destruct (phase_step p e); simpl; auto.
Qed.

Definition dropped (w : World) : Prop := w_room w = Some 0.

Context {receiver : Receiver}.

(** The events sent follow the protocol and lead to a phase of [P], unless the
    receiver is gone; a receiver that stays is still there. *)
Definition in_phase (P : Phase -> Prop) (w : World) : Prop :=
  exists p, phase_run Before (w_events w) = Some p /\ (P p \/ dropped w)
    /\ (receiver_stays -> w_room w = None).

Lemma in_phase_mono (P Q : Phase -> Prop) w :
  in_phase P w -> (forall p, P p -> Q p) -> in_phase Q w.
Proof. intros (p & Hp & [|] & Hl) HPQ; exists p; auto. Qed.

Lemma in_phase_dropped P Q w : in_phase P w -> dropped w -> in_phase Q w.
Proof. intros (p & Hp & _ & Hl) Hd. exists p. auto. Qed.

(** The rule of [emit]. *)
Lemma wlp_emit e P Q w :
  in_phase P w -> (forall p, P p -> exists p', phase_step p e = Some p' /\ Q p') ->
  wlp (emit e) (fun ok w' => in_phase Q w' /\ (ok = false -> dropped w')) w.
Proof.
  intros (p & Hp & Hin & Hl) Hstep. unfold wlp, emit.
  destruct (w_room w) as [[|n]|] eqn:Hr.
  - split; [|done]. exists p. rewrite Hr. auto.
  - destruct Hin as [HP|Hd]; [|unfold dropped in Hd; congruence].
    destruct (Hstep p HP) as (p' & Hs & HQ). split; [|done]. exists p'. simpl.
    rewrite phase_run_app, Hp. simpl. rewrite Hs. split_and!; auto. intros Hst. by specialize (Hl Hst).
  - destruct Hin as [HP|Hd]; [|unfold dropped in Hd; congruence].
    destruct (Hstep p HP) as (p' & Hs & HQ). split; [|done]. exists p'. simpl.
    rewrite phase_run_app, Hp. simpl. rewrite Hs. auto.
Qed.

Lemma wlp_emit_ e P Q w :
  in_phase P w -> (forall p, P p -> exists p', phase_step p e = Some p' /\ Q p') ->
  wlp (emit_ e) (fun _ => in_phase Q) w.
Proof.
  intros HP Hs. apply wlp_bind. eapply wlp_mono; [by eapply wlp_emit|]. by intros a w' [? _].
Qed.

(** Sends nothing and keeps the receiver. *)
Definition quiet_step (w w' : World) : Prop :=
  w_events w' = w_events w /\ w_room w' = w_room w.

#[export] Instance quiet_step_preorder : PreOrder quiet_step.
Proof. split; [done|]. intros x y z [Ha Hb] [Hc Hd]. by split; etransitivity. Qed.

Definition quiet {A} (m : M A) : Prop := respects quiet_step m.

Lemma quiet_in_phase P w w' : quiet_step w w' -> in_phase P w -> in_phase P w'.
Proof. intros [He Hr] (p & Hp & Hin & Hl). exists p. unfold dropped in *. by rewrite He, Hr. Qed.

Lemma wlp_quiet {A} (m : M A) P w :
  quiet m -> in_phase P w -> wlp m (fun _ => in_phase P) w.
Proof.
  intros Hm HP. eapply wlp_mono; [apply Hm|]. intros a w' Hq. exact (quiet_in_phase _ _ _ Hq HP).
Qed.

Lemma quiet_modify f : (forall w, quiet_step w (f w)) -> quiet (modify f).
Proof. intros Hf w. apply wlp_modify, Hf. Qed.

Lemma quiet_bind {A B} (m : M A) (k : A -> M B) :
  quiet m -> (forall a, quiet (k a)) -> quiet (m ≫= k).
Proof. apply respects_bind. apply quiet_step_preorder. Qed.

Lemma quiet_ret {A} (a : A) : quiet (mret a).
Proof. apply respects_ret. apply quiet_step_preorder. Qed.

Lemma quiet_gets {A} (f : World -> A) : quiet (gets f).
Proof. apply respects_gets. apply quiet_step_preorder. Qed.

Lemma quiet_st {A} (f : LoopState -> A) : quiet (st f).
Proof. apply quiet_gets. Qed.

Lemma quiet_messages_now : quiet messages_now.
Proof. apply quiet_gets. Qed.

Lemma quiet_now config : quiet (now_timestamp config).
Proof. intros w. unfold wlp, now_timestamp, host. by destruct (cfg_clock config (w_host w)). Qed.

Lemma quiet_push m : quiet (push_context m).
Proof. by apply quiet_modify. Qed.

Lemma quiet_when b m : quiet m -> quiet (when b m).
Proof. apply respects_when. apply quiet_step_preorder. Qed.

Lemma quiet_upd f : quiet (upd f).
Proof. by apply quiet_modify. Qed.

Lemma quiet_host {A} (f : H -> A * H) : quiet (host f).
Proof. intros w. unfold wlp, host. by destruct (f (w_host w)). Qed.

Lemma quiet_is_cancelled : quiet is_cancelled.
Proof. intros w. unfold wlp, is_cancelled. by destruct (w_cancel w) as [[|]|]. Qed.

Lemma quiet_sleep d : quiet (sleep d).
Proof. by apply quiet_modify. Qed.

Lemma quiet_sync : quiet sync_loop_context_snapshot.
Proof. intros w. done. Qed.

Lemma quiet_sync_pending : quiet sync_pending_message_snapshot.
Proof. by apply quiet_modify. Qed.

Lemma quiet_clear_pending : quiet clear_pending_message_snapshot.
Proof. by apply quiet_modify. Qed.

Lemma quiet_set_context_message i m : quiet (set_context_message i m).
Proof.
  intros w. unfold wlp, set_context_message, st, gets, mbind, prog_bind.
  destruct (context_set i m (context_messages (w_state w))) as [c|]; [|done]. by split.
Qed.

(** ** What is sent while the receiver listens *)

Definition sends (es : list AgentEvent) (w w' : World) : Prop :=
  w_room w = None -> w_room w' = None /\ w_events w' = w_events w ++ es.

Lemma sends_quiet w w' : quiet_step w w' -> sends [] w w'.
Proof. intros [He Hr] Hw. by rewrite He, Hr, app_nil_r. Qed.

Lemma sends_trans es fs w1 w2 w3 : sends es w1 w2 -> sends fs w2 w3 -> sends (es ++ fs) w1 w3.
Proof.
  intros H1 H2 Hr. destruct (H1 Hr) as [Hr2 He2]. destruct (H2 Hr2) as [Hr3 He3].
  split; [done|]. by rewrite He3, He2, app_assoc.
Qed.

Lemma sends_quiet_l es w1 w2 w3 : quiet_step w1 w2 -> sends es w2 w3 -> sends es w1 w3.
Proof. intros H1%sends_quiet H2. exact (sends_trans _ _ _ _ _ H1 H2). Qed.

Lemma sends_quiet_r es w1 w2 w3 : sends es w1 w2 -> quiet_step w2 w3 -> sends es w1 w3.
Proof.
  intros H1 H2%sends_quiet. rewrite <- (app_nil_r es). exact (sends_trans _ _ _ _ _ H1 H2).
Qed.

Lemma wlp_emit_sends e w :
  wlp (emit e) (fun ok w' => (w_room w = None -> ok = true) /\ sends [e] w w') w.
Proof.
  unfold wlp, emit, sends. destruct (w_room w) as [[|n]|]; (split; [done|]); intros [=]; done.
Qed.

Lemma returns_emit e : returns (emit e).
Proof. intros w. unfold twp, emit. by destruct (w_room w) as [[|]|]. Qed.

Lemma returns_host {A} (f : H -> A * H) : returns (host f).
Proof. intros w. unfold twp, host. by destruct (f (w_host w)). Qed.

Lemma returns_is_cancelled : returns is_cancelled.
Proof. intros w. unfold twp, is_cancelled. by destruct (w_cancel w) as [[|]|]. Qed.

(** ** The interface of tool dispatch *)

Definition outcome_results (o : ToolExecOutcome) : option (list ToolResultMessage) :=
  match o with
  | Completed r _ _ _ | Stopped r _ _ _ | ToolsAborted r _ _ => Some r
  | SteeringInterrupt completed cancelled _ _ _ => Some (completed ++ cancelled)
  | ToolsChannelClosed => None
  end.

(** What dispatch may touch: not the loop's state nor the snapshots. *)
Definition dispatch_frame (w w' : World) : Prop :=
  w_state w' = w_state w /\ w_cache w' = w_cache w /\ w_pending w' = w_pending w
  /\ w_context w' = w_context w /\ w_sleeps w' = w_sleeps w
  /\ (w_cancel w = Some 0 -> w_cancel w' = Some 0)
  /\ (w_room w = None -> w_room w' = None).

(** How the turn calls tool dispatch. *)
Class ToolExecutor := {
  execute_tools : AgentLoopConfig -> list ToolCallInfo -> M ToolExecOutcome;
}.

(** What the turn relies on: dispatch returns; it only sends tool events, and reports
    a closed channel only when the receiver is gone; it answers every call exactly
    once; and it keeps to its frame. *)
Class LawfulToolExecutor `{ToolExecutor} := {
  execute_tools_ends config calls w : twp (execute_tools config calls) (fun _ _ => True) w;
  execute_tools_events config calls w :
    wlp (execute_tools config calls)
        (fun o w' => (exists es, w_events w' = w_events w ++ es
                        /\ Forall (fun e => is_tool_event e = true) es /\ (dropped w -> es = []))
                     /\ (dropped w -> dropped w') /\ (o = ToolsChannelClosed -> dropped w')) w;
  execute_tools_answers config calls w :
    wlp (execute_tools config calls)
        (fun o _ => forall rs, outcome_results o = Some rs ->
                    map tr_tool_call_id rs ≡ₚ map tci_id calls) w;
  execute_tools_frame config calls w :
    wlp (execute_tools config calls) (fun _ => dispatch_frame w) w;
}.

Lemma phase_run_tools p es :
  p = Streaming \/ p = Tools -> Forall (fun e => is_tool_event e = true) es ->
  exists p', phase_run p es = Some p' /\ (p' = Streaming \/ p' = Tools).
Proof.
  revert p. induction es as [|e es IH]; intros p Hp Hes; [eauto|].
  apply Forall_cons in Hes as [He Hes].
  assert (phase_step p e = Some Tools) as Hs by (by destruct Hp as [-> | ->], e).
  simpl. rewrite Hs. simpl. apply IH; auto.
Qed.

(** So the protocol goes on in the tool phase. *)
Lemma execute_tools_phase `{LawfulToolExecutor} config calls w :
  in_phase (fun p => p = Streaming \/ p = Tools) w ->
  wlp (execute_tools config calls)
      (fun o w' => in_phase (fun p => p = Streaming \/ p = Tools) w'
                   /\ (o = ToolsChannelClosed -> dropped w')) w.
Proof.
  intros (p & Hp & Hin & Hl). eapply wlp_mono; [apply wlp_conj; [apply execute_tools_events|apply execute_tools_frame]|].
  intros o w' [((es & He & Hes & Hd) & Hdd & Hc) (_ & _ & _ & _ & _ & _ & Hroom)]. split; [|done].
  assert (Hl' : receiver_stays -> w_room w' = None) by auto.
  destruct Hin as [Hin|Hdr].
  - destruct (phase_run_tools p es Hin Hes) as (p' & Hr & Hp'). exists p'.
    rewrite He, phase_run_app, Hp. auto.
  - exists p. rewrite He, (Hd Hdr), app_nil_r. auto.
Qed.

End World.

Arguments AgentLoopConfig {_} _.
Arguments World {_} _.
Arguments StreamFn {_} _.
Arguments AgentContext {_} _.
Arguments RetryStrategy _ : clear implicits.
Arguments MessageProvider {_} _.
Arguments ToolExecutor {_} _.


#[export] Hint Resolve quiet_ret quiet_gets quiet_st quiet_messages_now quiet_now quiet_push
  quiet_upd quiet_host quiet_is_cancelled quiet_sleep quiet_sync
  quiet_sync_pending quiet_clear_pending quiet_set_context_message
  returns_emit returns_host returns_is_cancelled : swink.

(** Discharges [quiet] goals of straight-line code. *)
Ltac quiet :=
  repeat first
    [ apply quiet_bind; [|intros]
    | solve [eauto with swink]
    | apply quiet_when
    | case_match ].

(** Discharges [returns] goals of straight-line code. *)
Ltac returns :=
  repeat first
    [ solve [eauto with swink]
    | apply returns_bind; [|intros]
    | case_match ].

(** ** Error classification: [src/loop_/mod.rs], [src/retry.rs]

    How a provider's error event becomes an [AgentError], what text a terminal
    error message carries, and which errors are retried or handed to a fallback
    model. *)
Open Scope list_scope.

Section Classify.
Context `{E : Ext}.

(** @src src/loop_/mod.rs:307-324 [build_terminal_message] *)
Definition build_terminal_message (now : N) (model : ModelSpec) (stop_reason : StopReason)
    (error_message : string) : AssistantMessage :=
  MkAssistantMessage [] (ms_provider model) (ms_model_id model) usage_default cost_default
    stop_reason (Some error_message) None now None.

(** @src src/loop_/mod.rs:327-333 [build_abort_message] *)
Definition build_abort_message (now : N) (model : ModelSpec) : AssistantMessage :=
  build_terminal_message now model Aborted "operation aborted via cancellation token".

(** @src src/loop_/mod.rs:340-354 [format_error_with_sources] *)
Definition format_error_with_sources (error : AgentError) : string :=
  foldl (fun message source =>
           if negb (String.eqb source "") && negb (contains message source)
           then message ++ ": " ++ source else message)%string
        (error_display error) (error_sources error).

(** @src src/loop_/mod.rs:336-338 [build_error_message] *)
Definition build_error_message (now : N) (model : ModelSpec) (error : AgentError) : AssistantMessage :=
  build_terminal_message now model Error (format_error_with_sources error).

(** @src src/loop_/mod.rs:377-448 [classify_stream_error_for_model] *)
Definition classify_stream_error_for_model (model_id error_message : string)
    (stop_reason : StopReason) (error_kind : option StreamErrorKind) : AgentError :=
  match error_kind with
  | Some Throttled => ModelThrottled
  | Some ContextWindowExceeded => ContextWindowOverflow model_id
  | Some Auth => AuthError error_message
  | Some Network => NetworkError [error_message]
  | Some ContentFiltered => ContentFilteredError
  | Some ModelRetired => ModelRetiredError error_message
  | None =>
    let lower := to_lowercase error_message in
    let has := contains lower in
    if has "context window" || has "context_length_exceeded" then ContextWindowOverflow model_id
    else if has "rate limit" || has "429" || has "throttl" then ModelThrottled
    else if has "cache miss" || has "cache not found" || has "cache_miss" then CacheMiss
    else if has "content filter" || has "content_filter" then ContentFilteredError
    else if has "model_not_found" || has "model_decommissioned"
            || (has "model" && (has "decommissioned" || has "has been retired"))
    then ModelRetiredError error_message
    else if has "unauthorized" || has "invalid api key" || has "authentication" || has "forbidden"
    then AuthError error_message
    else if bool_decide (stop_reason = Aborted) then AbortedError
    else StreamError [error_message]
  end%string.

(** @src src/loop_/mod.rs:364-370 [classify_stream_error] *)
Definition classify_stream_error (error_message : string) (stop_reason : StopReason)
    (error_kind : option StreamErrorKind) : AgentError :=
  classify_stream_error_for_model "" error_message stop_reason error_kind.

(** @src src/loop_/stream.rs:141-147 [is_fallback_eligible_error] *)
Definition is_fallback_eligible_error (msg : AssistantMessage) : bool :=
  match am_error_message msg with
  | None => false
  | Some error_message =>
    is_retryable (classify_stream_error error_message Error (am_error_kind msg))
  end.

(** The limit and the error class decide; [delay] computes floating-point backoff and
    is left to the host.
    @src src/retry.rs:133-138 [DefaultRetryStrategy::should_retry] *)
Definition default_should_retry (max_attempts : nat) (error : AgentError) (attempt : nat) : bool :=
  if (max_attempts <=? attempt)%nat then false else is_retryable error.

(** ** Texts *)

(** The sources come after the message, each at most once, and never remove text. *)
Lemma format_error_keeps_display error :
  starts_with (error_display error) (format_error_with_sources error) = true.
Proof.
  unfold format_error_with_sources.
  assert (H : forall l m, starts_with (error_display error) m = true ->
    starts_with (error_display error)
      (foldl (fun message source =>
           if negb (String.eqb source "") && negb (contains message source)
           then message ++ ": " ++ source else message)%string m l) = true).
  { induction l as [|s l IH]; intros m Hm; simpl; [done|]. apply IH. case_match; [|done].
    by apply starts_with_app_l. }
  apply H. rewrite <- (string_app_nil_r (error_display error)) at 2. apply starts_with_app.
Qed.

(** With a structural kind the error class is decided by the kind alone,
    whatever the text says; the classes the loop retries are then exactly
    [Throttled] and [Network]; without one an error whose text has no known
    marker is an abort exactly when the stop reason is, and a stream error
    with that text else, which is never retried. *)
Lemma classify_structural model_id message stop_reason kind max_attempts attempt :
  let e := classify_stream_error_for_model model_id message stop_reason kind in
  match kind with
  | Some k =>
    (forall message' stop_reason',
       match classify_stream_error_for_model model_id message' stop_reason' kind with
       | ContextWindowOverflow m => e = ContextWindowOverflow m
       | AuthError _ => e = AuthError message
       | NetworkError _ => e = NetworkError [message]
       | ModelRetiredError _ => e = ModelRetiredError message
       | e' => e = e'
       end)
    /\ default_should_retry max_attempts e attempt
       = bool_decide (attempt < max_attempts /\ (k = Throttled \/ k = Network))
  | None =>
    Forall (fun marker => contains (to_lowercase message) marker = false)
      ["context window"; "context_length_exceeded"; "rate limit"; "429"; "throttl"; "cache miss";
       "cache not found"; "cache_miss"; "content filter"; "content_filter"; "model";
       "model_not_found"; "model_decommissioned"; "unauthorized"; "invalid api key";
       "authentication"; "forbidden"]%string ->
    e = (if decide (stop_reason = Aborted) then AbortedError else StreamError [message])
    /\ is_retryable e = false
  end.
Proof.
  cbn zeta. destruct kind as [k|].
  - split; [by destruct k|]. unfold default_should_retry.
    destruct (Nat.leb_spec max_attempts attempt).
    + symmetry. apply bool_decide_eq_false. lia.
    + symmetry. destruct k; simpl; first [apply bool_decide_eq_true; naive_solver
                                         |apply bool_decide_eq_false; naive_solver].
  - rewrite !Forall_cons. intros HF. unfold classify_stream_error_for_model.
    repeat match goal with H : _ /\ _ |- _ => destruct H as [? H] end.
    repeat match goal with H : contains _ _ = false |- _ => rewrite H end. simpl.
    by destruct (decide (stop_reason = Aborted)) as [->|];
      [rewrite bool_decide_eq_true_2|rewrite bool_decide_eq_false_2].
Qed.

End Classify.

#[local] Existing Instance Toy.ext.

Lemma classify_structural_witness :
  classify_stream_error_for_model "m" "connection reset by peer" Aborted None = AbortedError.
Proof.
  pose proof (classify_structural (E := Toy.ext) "m" "connection reset by peer" Aborted None 3 1) as H.
  cbn zeta in H. destruct H as [H _]; [|exact H].
  repeat constructor.
Defined.

(** A network error is retried, but the terminal message it leaves is not eligible
    for a fallback model: the message carries no structural kind, and its text
    has none of the markers. *)
Lemma network_error_not_fallback_eligible :
  let e := classify_stream_error_for_model "m" "connection reset by peer" Error (Some Network) in
  is_retryable e = true
  /\ is_fallback_eligible_error
       (build_error_message 0 (MkModelSpec "p" "m" Off None None None) e) = false
  /\ is_fallback_eligible_error
       (build_error_message 0 (MkModelSpec "p" "m" Off None None None) ModelThrottled) = true.
Proof. vm_compute. done. Qed.

(** A decoder failure that mentions column 429 is taken for a rate limit. *)
Lemma column_429_taken_for_throttling :
  classify_stream_error "EOF while parsing an object at line 1 column 429" Error None
  = ModelThrottled.
Proof. vm_compute. done. Qed.
