(* ===== verification/StreamLoop.v ===== *)
(** * Calling the provider: [src/loop_/stream.rs]

    One assistant response: the attempts of one model under the retry
    strategy, the chain of fallback models, the buffering of deltas until an
    attempt is final, and the message that is accumulated and priced from it.
    The retry loop carries fuel; [single_ends] says how much is enough. *)
From S2P Require Export LoopWorld.
Open Scope list_scope.

Section StreamLoop.
Context `{E : Ext} {H : Type}.
Implicit Types (config : AgentLoopConfig H).

#[local] Abbreviation M := (Prog (World H)).

(** ** One attempt *)

(** @src src/loop_/stream.rs:311-317 [StreamErrorInfo] *)
Definition StreamErrorInfo : Type :=
  StopReason * string * option Usage * option StreamErrorKind * option Duration.

(** @src src/loop_/stream.rs:320-331 [StreamAttemptResult] *)
Inductive StreamAttemptResult :=
| Collected (events : list AssistantMessageEvent) (error : option StreamErrorInfo)
| EarlyExit (result : StreamResult) (events : list AssistantMessageEvent).

(** @src src/loop_/stream.rs:602-624 [apply_capability_overrides] *)
Definition apply_capability_overrides (model : ModelSpec) : ModelSpec :=
  match ms_capabilities model with
  | None => model
  | Some caps =>
    if negb (supports_thinking caps) && negb (bool_decide (ms_thinking_level model = Off))
    then MkModelSpec (ms_provider model) (ms_model_id model) Off (ms_thinking_budgets model)
           (ms_provider_config model) (ms_capabilities model)
    else model
  end.

(** @src src/loop_/stream.rs:631-647 [capability_filter_tools] *)
Definition capability_filter_tools (model : ModelSpec) (tools : list (AgentTool H)) : list (AgentTool H) :=
  match ms_capabilities model with
  | Some caps =>
    if negb (supports_tool_use caps) && negb (is_nil tools) then [] else tools
  | None => tools
  end.

(** The [select!] looks at the token, then the stream yields, then the token is
    looked at again.
    @src src/loop_/stream.rs:356-402 [stream_single_attempt, loop (brace)] *)
Fixpoint collect_events (stream events : list AssistantMessageEvent)
    (had_error : option StreamErrorInfo) : M StreamAttemptResult :=
  is_cancelled ≫= fun cancelled : bool =>
  if cancelled then mret (EarlyExit StreamAborted events)
  else
    match stream with
    | [] => mret (Collected events had_error)
    | event :: stream' =>
      is_cancelled ≫= fun cancelled : bool =>
      if cancelled then mret (EarlyExit StreamAborted events)
      else
        let had_error := match event with
                         | ErrorEvent sr msg usage kind retry_after =>
                           Some (sr, msg, usage, kind, retry_after)
                         | _ => had_error
                         end in
        collect_events stream' (events ++ [event]) had_error
    end.

(** @src src/loop_/stream.rs:335-403 [stream_single_attempt] *)
Definition stream_single_attempt (model : ModelSpec) (stream_fn : StreamFn H)
    (call_context : AgentContext H) (api_key : option string) : M StreamAttemptResult :=
  let effective_model := apply_capability_overrides model in
  host (stream_fn effective_model call_context api_key) ≫= fun stream =>
  collect_events stream [] None.

(** @src src/loop_/stream.rs:424-447 [emit_delta_event, delta] *)
Definition event_delta (e : AssistantMessageEvent) : option AssistantMessageDelta :=
  match e with
  | TextDelta i d => Some (DeltaText i d)
  | ThinkingDelta i d => Some (DeltaThinking i d)
  | ToolCallDelta i d => Some (DeltaToolCall i d)
  | _ => None
  end.

(** [Some] result ends the response.
    @src src/loop_/stream.rs:420-455 [emit_delta_event] *)
Definition emit_delta_event (event : AssistantMessageEvent) : M (option StreamResult) :=
  match event_delta event with
  | Some d =>
    emit (MessageUpdate d) ≫= fun ok : bool => mret (if ok then None else Some ChannelClosed)
  | None => mret None
  end.

(** @src src/loop_/stream.rs:406-416 [emit_attempt_deltas] *)
Fixpoint emit_attempt_deltas (events : list AssistantMessageEvent) : M (option StreamResult) :=
  match events with
  | [] => mret None
  | event :: events' =>
    emit_delta_event event ≫= fun r =>
    match r with
    | Some early_exit => mret (Some early_exit)
    | None => emit_attempt_deltas events'
    end
  end.

(** ** Errors *)

(** @src src/loop_/stream.rs:297-307 [StreamErrorAction] *)
Inductive StreamErrorAction :=
| OverflowAction
| RetryAction (delay : Duration) (cache_miss_prior_prefix_len : option nat)
| FatalAction (result : StreamResult) (message : AssistantMessage).

(** The last part of [handle_stream_error], common to all error classes.
    @src src/loop_/stream.rs:501-541 [handle_stream_error, after the cache miss (brace)] *)
Definition finish_stream_error config (model : ModelSpec) (error : AgentError)
    (retry_after : option Duration) (attempt : nat) (consulted : bool) : M StreamErrorAction :=
  match error with
  | AbortedError =>
    now_timestamp config ≫= fun now =>
    mret (FatalAction StreamAborted (build_abort_message now model))
  | _ =>
    if negb consulted && should_retry (cfg_retry_strategy config) error attempt then
      match retry_after with
      | Some delay => mret (RetryAction delay None)
      | None => host (retry_delay (cfg_retry_strategy config) attempt) ≫= fun delay =>
                mret (RetryAction delay None)
      end
    else
      now_timestamp config ≫= fun now =>
      let error_msg := build_error_message now model error in
      mret (FatalAction (Message error_msg) error_msg)
  end.

(** @src src/loop_/stream.rs:459-541 [handle_stream_error] *)
Definition handle_stream_error config (model : ModelSpec) (stop_reason : StopReason)
    (error_message : string) (error_kind : option StreamErrorKind) (retry_after : option Duration)
    (attempt : nat) : M StreamErrorAction :=
  let error :=
    classify_stream_error_for_model (ms_model_id model) error_message stop_reason error_kind in
  match error with
  | ContextWindowOverflow _ => mret OverflowAction
  | CacheMiss =>
    gets w_cache ≫= fun cache =>
    let prior_prefix_len := cached_prefix_len cache in
    modify (set_cache (cache_state_reset cache)) ≫= fun _ =>
    if should_retry (cfg_retry_strategy config) error attempt then
      host (retry_delay (cfg_retry_strategy config) attempt) ≫= fun delay =>
      mret (RetryAction delay (Some prior_prefix_len))
    else finish_stream_error config model error retry_after attempt true
  | _ => finish_stream_error config model error retry_after attempt false
  end.

(** @src src/loop_/stream.rs:579-585 [llm_cache_hint] *)
Definition llm_cache_hint (m : LlmMessage) : option CacheHint :=
  match m with
  | User m => um_cache_hint m
  | Assistant m => am_cache_hint m
  | ToolResult m => tr_cache_hint m
  end.

(** @src src/loop_/stream.rs:587-593 [set_llm_cache_hint] *)
Definition set_llm_cache_hint (h : CacheHint) (m : LlmMessage) : LlmMessage :=
  llm_put_cache_hint (Some h) m.

(** The messages of the next attempt; the cache state is rewritten in place.
    @src src/loop_/stream.rs:543-577 [prepare_cache_miss_retry] *)
Definition prepare_cache_miss_retry config (messages : list LlmMessage) (prior_prefix_len : nat) :
    M (list LlmMessage) :=
  match cfg_cache_config config with
  | None => mret messages
  | Some cache_config =>
    let write_hint := Write (cc_ttl cache_config) in
    let saw_cached_message :=
      existsb (fun m => bool_decide (is_Some (llm_cache_hint m))) messages in
    let messages :=
      map (fun m => match llm_cache_hint m with
                    | Some _ => set_llm_cache_hint write_hint m
                    | None => m
                    end) messages in
    if negb saw_cached_message && (prior_prefix_len =? 0)%nat then mret messages
    else
      gets w_cache ≫= fun cache =>
      let '(_, cache) := advance_turn cache cache_config in
      modify (set_cache (MkCacheState (turns_since_write cache) prior_prefix_len)) ≫= fun _ =>
      mret messages
  end.

(** ** A finished response *)

(** Assignment to [timestamp]. *)
Definition with_timestamp (now : N) (m : AssistantMessage) : AssistantMessage :=
  MkAssistantMessage (am_content m) (am_provider m) (am_model_id m) (am_usage m) (am_cost m)
    (am_stop_reason m) (am_error_message m) (am_error_kind m) now (am_cache_hint m).

(** The clock is read at the end of a successful accumulation.
    @src src/loop_/stream.rs:657-707 [finalize_stream_message] *)
Definition finalize_stream_message config (model : ModelSpec) (events : list AssistantMessageEvent) :
    M StreamResult :=
  match accumulate_message 0 events (ms_provider model) (ms_model_id model) with
  | Err e =>
    now_timestamp config ≫= fun now =>
    let error_msg := build_error_message now model (StreamError [e]) in
    emit_ (MessageEnd error_msg) ≫= fun _ =>
    mret (Message error_msg)
  | Ok message =>
    now_timestamp config ≫= fun now =>
    let message := fst (price_assistant_message_with (cfg_catalog config)
                          (with_timestamp now message) (cfg_cost_calculator config)) in
    emit (MessageEnd message) ≫= fun ok : bool =>
    mret (if ok then Message message else ChannelClosed)
  end.

(** ** The attempts of one model *)

(** @src src/loop_/stream.rs:186-196 [stream_with_retry_single, call_context (brace)] *)
Definition call_context (agent_context : AgentContext H) (system_prompt : string)
    (attempt_llm_messages : list LlmMessage) : AgentContext H :=
  MkAgentContext system_prompt (map Llm attempt_llm_messages) (ac_tools agent_context).

(** The [loop] after [attempt] finished attempts.
    @src src/loop_/stream.rs:171-291 [stream_with_retry_single, loop (brace)] *)
Fixpoint retry_loop (fuel : nat) config (model : ModelSpec) (stream_fn : StreamFn H)
    (agent_context : AgentContext H) (system_prompt : string) (api_key : option string)
    (emit_message_start defer_fatal : bool) (attempt : nat)
    (attempt_llm_messages : list LlmMessage) : M StreamResult :=
  match fuel with
  | 0 => stuck
  | S fuel' =>
    let attempt := S attempt in
    is_cancelled ≫= fun cancelled : bool =>
    if cancelled then mret StreamAborted
    else
      (if emit_message_start && (attempt =? 1)%nat then emit MessageStart else mret true)
      ≫= fun started : bool =>
      if negb started then mret ChannelClosed
      else
        stream_single_attempt model stream_fn
          (call_context agent_context system_prompt attempt_llm_messages) api_key
        ≫= fun attempt_result =>
        match attempt_result with
        | EarlyExit result events =>
          emit_attempt_deltas events ≫= fun exit =>
          match exit with
          | Some exit => mret exit
          | None =>
            match result with
            | StreamAborted =>
              now_timestamp config ≫= fun now =>
              emit (MessageEnd (build_abort_message now model)) ≫= fun ok : bool =>
              mret (if ok then result else ChannelClosed)
            | _ => mret result
            end
          end
        | Collected events (Some (stop_reason, error_message, _, error_kind, retry_after)) =>
          handle_stream_error config model stop_reason error_message error_kind retry_after attempt
          ≫= fun action =>
          match action with
          | OverflowAction => mret ContextOverflow
          | RetryAction delay cache_miss_prior_prefix_len =>
            match cache_miss_prior_prefix_len with
            | Some prior_prefix_len =>
              prepare_cache_miss_retry config attempt_llm_messages prior_prefix_len
            | None => mret attempt_llm_messages
            end ≫= fun attempt_llm_messages =>
            sleep delay ≫= fun _ =>
            retry_loop fuel' config model stream_fn agent_context system_prompt api_key
              emit_message_start defer_fatal attempt attempt_llm_messages
          | FatalAction result message =>
            if negb defer_fatal || negb (is_fallback_eligible_error message) then
              emit_attempt_deltas events ≫= fun exit =>
              match exit with
              | Some exit => mret exit
              | None =>
                emit (MessageEnd message) ≫= fun ok : bool =>
                mret (if ok then result else ChannelClosed)
              end
            else mret result
          end
        | Collected events None =>
          emit_attempt_deltas events ≫= fun exit =>
          match exit with
          | Some exit => mret exit
          | None => finalize_stream_message config model events
          end
        end
  end.

(** @src src/loop_/stream.rs:151-291 [stream_with_retry_single] *)
Definition stream_with_retry_single (fuel : nat) config (model : ModelSpec) (stream_fn : StreamFn H)
    (agent_context : AgentContext H) (llm_messages : list LlmMessage) (system_prompt : string)
    (api_key : option string) (emit_message_start defer_fatal : bool) : M StreamResult :=
  retry_loop fuel config model stream_fn agent_context system_prompt api_key emit_message_start
    defer_fatal 0 llm_messages.

(** ** Fallback models *)

(** Whether the next model is tried after this result. *)
Definition falls_back (r : StreamResult) : bool :=
  match r with
  | Message msg => bool_decide (am_stop_reason msg = Error) && is_fallback_eligible_error msg
  | _ => false
  end.

(** @src src/loop_/stream.rs:86-133 [stream_with_retry, fallback loop (brace)] *)
Fixpoint fallback_loop (fuel : nat) config (agent_context : AgentContext H)
    (llm_messages : list LlmMessage) (system_prompt : string) (api_key : option string)
    (models : list (ModelSpec * StreamFn H)) (last_result : StreamResult) : M StreamResult :=
  match models with
  | [] => mret last_result
  | (fb_model, fb_stream_fn) :: models' =>
    emit (ModelFallbackEvent (cfg_model config) fb_model) ≫= fun ok : bool =>
    if negb ok then mret ChannelClosed
    else
      stream_with_retry_single fuel config fb_model fb_stream_fn agent_context llm_messages
        system_prompt api_key false (negb (bool_decide (models' = [])))
      ≫= fun fb_result =>
      if falls_back fb_result
      then fallback_loop fuel config agent_context llm_messages system_prompt api_key models' fb_result
      else mret fb_result
  end.

(** @src src/loop_/stream.rs:30-134 [stream_with_retry] *)
Definition stream_with_retry (fuel : nat) config (agent_context : AgentContext H)
    (llm_messages : list LlmMessage) (system_prompt : string) (api_key : option string)
    (emit_message_start : bool) : M StreamResult :=
  let fallback := default [] (cfg_fallback config) in
  stream_with_retry_single fuel config (cfg_model config) (cfg_stream_fn config) agent_context
    llm_messages system_prompt api_key emit_message_start (negb (bool_decide (fallback = [])))
  ≫= fun primary_result =>
  if falls_back primary_result
  then fallback_loop fuel config agent_context llm_messages system_prompt api_key fallback
         primary_result
  else mret primary_result.

End StreamLoop.
