(* ===== verification/StreamLoopSpec.v ===== *)
(** * What one assistant response guarantees

    About [StreamLoop]: the events a listener sees are those of one attempt,
    whatever was retried; the event protocol is kept; the retry loop ends
    within the strategy's bound; fallback models are tried in order. *)
From S2P Require Export StreamLoop.
Open Scope list_scope.

Section Spec.
Context `{E : Ext} {H : Type} {receiver : Receiver}.
Implicit Types (config : AgentLoopConfig H).

#[local] Abbreviation M := (Prog (World H)).

(** ** The pieces *)

Lemma collect_events_spec stream events err (w : World H) :
  wlp (collect_events stream events err)
    (fun r w' => quiet_step w w' /\
       match r with
       | EarlyExit result evs => result = StreamAborted /\ evs `prefix_of` events ++ stream
       | Collected evs _ => evs = events ++ stream
       end) w.
Proof.
  revert events err w. induction stream as [|e stream IH]; intros events err w; cbn [collect_events].
  - apply wlp_bind. eapply wlp_mono; [apply quiet_is_cancelled|]. intros [] w1 Hq; apply wlp_ret.
    + split_and!; [done|done|by apply prefix_app_r].
    + by rewrite app_nil_r.
  - apply wlp_bind. eapply wlp_mono; [apply quiet_is_cancelled|]. intros [] w1 Hq.
    { apply wlp_ret. split_and!; [done|done|by apply prefix_app_r]. }
    apply wlp_bind. eapply wlp_mono; [apply quiet_is_cancelled|]. intros [] w2 Hq2.
    { apply wlp_ret. split_and!; [by transitivity w1|done|by apply prefix_app_r]. }
    eapply wlp_mono; [apply IH|]. intros r w3 [Hq3 Hr]. split.
    { transitivity w1; [done|]. by transitivity w2. }
    rewrite <- app_assoc in Hr. exact Hr.
Qed.

Lemma returns_collect_events stream events err :
  returns (collect_events (H := H) stream events err).
Proof.
  revert events err. induction stream as [|e stream IH]; intros events err; cbn [collect_events];
    returns.
Qed.

Lemma single_attempt_spec model (stream_fn : StreamFn H) ctx key w :
  wlp (stream_single_attempt model stream_fn ctx key)
    (fun r w' => quiet_step w w' /\
       match r with EarlyExit result _ => result = StreamAborted | _ => True end) w.
Proof.
  unfold stream_single_attempt. apply wlp_bind. eapply wlp_mono; [apply quiet_host|].
  intros stream w1 Hq. eapply wlp_mono; [apply collect_events_spec|].
  intros r w2 [Hq2 Hr]. split; [by transitivity w1|]. by destruct r; [|destruct Hr].
Qed.

Lemma returns_single_attempt model (stream_fn : StreamFn H) ctx key :
  returns (stream_single_attempt model stream_fn ctx key).
Proof. unfold stream_single_attempt. returns. apply returns_collect_events. Qed.

(** The updates the deltas of an attempt become. *)
Definition updates (events : list AssistantMessageEvent) : list AgentEvent :=
  map MessageUpdate (filtermap event_delta events).

Lemma deltas_sends events (w : World H) :
  wlp (emit_attempt_deltas events)
    (fun r w' => (forall x, r = Some x -> x = ChannelClosed /\ w_room w <> None)
                 /\ sends (updates events) w w') w.
Proof.
  revert w. induction events as [|e events IH]; intros w; cbn [emit_attempt_deltas].
  { apply wlp_ret. split; [done|]. by apply sends_quiet. }
  apply wlp_bind. unfold emit_delta_event, updates. cbn [filtermap].
  destruct (event_delta e) as [d|].
  - apply wlp_bind. eapply wlp_mono; [apply wlp_emit_sends|]. intros ok w1 [Hok Hs]. apply wlp_ret.
    destruct ok.
    + eapply wlp_mono; [apply IH|]. intros r w2 [Hr Hs2]. split.
      * intros x [? Hn]%Hr. split; [done|]. intros Hw. by destruct (Hs Hw).
      * exact (sends_trans _ _ _ _ _ Hs Hs2).
    + assert (Hn : w_room w <> None) by (intros Hw; specialize (Hok Hw); congruence).
      apply wlp_ret. split; [by intros x [= <-]|]. by intros Hw.
  - apply wlp_ret, IH.
Qed.

Lemma deltas_phase events (w : World H) :
  in_phase (eq Streaming) w ->
  wlp (emit_attempt_deltas events)
    (fun r w' => in_phase (eq Streaming) w' /\ forall x, r = Some x -> x = ChannelClosed /\ dropped w') w.
Proof.
  revert w. induction events as [|e events IH]; intros w HP; cbn [emit_attempt_deltas].
  { by apply wlp_ret. }
  apply wlp_bind. unfold emit_delta_event. destruct (event_delta e) as [d|].
  - apply wlp_bind. eapply wlp_mono.
    { apply (wlp_emit _ (eq Streaming) (eq Streaming)); [exact HP|]. intros p <-. by exists Streaming. }
    intros [] w1 [HP1 Hd]; apply wlp_ret; [by apply IH|]. apply wlp_ret. split; [done|].
    intros x [= <-]. auto.
  - by apply wlp_ret, IH.
Qed.

Lemma returns_deltas events : returns (emit_attempt_deltas (H := H) events).
Proof.
  induction events as [|e events IH]; cbn [emit_attempt_deltas]; [apply returns_ret|].
  unfold emit_delta_event. returns.
Qed.

(** What an error action may be. *)
Definition action_ok config (attempt : nat) (a : StreamErrorAction) : Prop :=
  match a with
  | OverflowAction => True
  | RetryAction _ _ => exists e, should_retry (cfg_retry_strategy config) e attempt = true
  | FatalAction result m => result = StreamAborted \/ (result = Message m /\ am_stop_reason m = Error)
  end.

Lemma finish_stream_error_spec config model e ra attempt consulted w :
  wlp (finish_stream_error config model e ra attempt consulted)
    (fun a w' => quiet_step w w' /\ action_ok config attempt a) w.
Proof.
  assert (Hrest : wlp (if negb consulted && should_retry (cfg_retry_strategy config) e attempt then
      match ra with
      | Some delay => mret (RetryAction delay None)
      | None => host (retry_delay (cfg_retry_strategy config) attempt) ≫= fun delay =>
                mret (RetryAction delay None)
      end
    else now_timestamp config ≫= fun now =>
      mret (FatalAction (Message (build_error_message now model e)) (build_error_message now model e)))
    (fun a w' => quiet_step w w' /\ action_ok config attempt a) w).
  { destruct (negb consulted && _) eqn:Hr.
    - apply andb_true_iff in Hr as [_ Hr]. destruct ra as [d|].
      + apply wlp_ret. split; [done|by exists e].
      + apply wlp_bind. eapply wlp_mono; [apply quiet_host|]. intros d w1 Hq. apply wlp_ret.
        split; [done|by exists e].
    - apply wlp_bind. eapply wlp_mono; [apply quiet_host|]. intros now w1 Hq. apply wlp_ret.
      split; [done|by right]. }
  destruct e; try exact Hrest. cbn. apply wlp_bind. eapply wlp_mono; [apply quiet_host|].
  intros now w1 Hq. apply wlp_ret. split; [done|by left].
Qed.

Lemma handle_stream_error_spec config model sr msg kind ra attempt w :
  wlp (handle_stream_error config model sr msg kind ra attempt)
    (fun a w' => quiet_step w w' /\ action_ok config attempt a) w.
Proof.
  unfold handle_stream_error. destruct (classify_stream_error_for_model _ _ _ _) eqn:He;
    try apply finish_stream_error_spec; [by apply wlp_ret|].
  apply wlp_bind, wlp_gets, wlp_bind, wlp_modify. destruct (should_retry _ _ _) eqn:Hr.
  - apply wlp_bind. eapply wlp_mono; [apply quiet_host|]. intros d w1 Hq. apply wlp_ret.
    split; [exact Hq|eexists; exact Hr].
  - eapply wlp_mono; [apply finish_stream_error_spec|]. intros a w1 [Hq Ha]. by split.
Qed.

Lemma returns_handle_stream_error config model sr msg kind ra attempt :
  returns (handle_stream_error config model sr msg kind ra attempt).
Proof.
  unfold handle_stream_error, finish_stream_error, now_timestamp. returns.
Qed.

Lemma quiet_prepare config messages n : quiet (prepare_cache_miss_retry config messages n).
Proof.
  unfold prepare_cache_miss_retry. quiet.
Qed.

Lemma returns_prepare config messages n : returns (prepare_cache_miss_retry config messages n).
Proof. unfold prepare_cache_miss_retry. returns. Qed.

Lemma accumulate_timestamp now events p i :
  accumulate_message now events p i
  = match accumulate_message 0 events p i with Ok m => Ok (with_timestamp now m) | Err e => Err e end.
Proof.
  unfold accumulate_message. destruct (acc_events _ _ _) as [a|]; [|done]. simpl.
  destruct (ok_or (acc_content a) _); [|done]. simpl. by destruct (ok_or (acc_stop_reason a) _).
Qed.

(** The message of a finished attempt: accumulated from its events and priced. *)
Definition finished config (model : ModelSpec) (events : list AssistantMessageEvent)
    (m : AssistantMessage) : Prop :=
  exists now m0, accumulate_message now events (ms_provider model) (ms_model_id model) = Ok m0
    /\ m = fst (price_assistant_message_with (cfg_catalog config) m0 (cfg_cost_calculator config)).

Lemma finalize_sends config model events w :
  wlp (finalize_stream_message config model events)
    (fun r w' => match r with
       | Message m => sends [MessageEnd m] w w' /\ (am_stop_reason m = Error \/ finished config model events m)
       | ChannelClosed => w_room w <> None
       | _ => False
       end) w.
Proof.
  unfold finalize_stream_message.
  destruct (accumulate_message 0 events _ _) as [m|e] eqn:Ha; apply wlp_bind;
    (eapply wlp_mono; [apply quiet_host|]); intros now w1 Hq; apply wlp_bind.
  - eapply wlp_mono; [apply wlp_emit_sends|]. intros ok w2 [Hok Hs]. apply wlp_ret.
    pose proof (sends_quiet_l _ _ _ _ Hq Hs) as Hs'.
    destruct ok; [|destruct Hq as [_ Hq]; rewrite <- Hq; intros Hn; specialize (Hok Hn); congruence].
    split; [done|]. right. exists now, (with_timestamp now m).
    by rewrite accumulate_timestamp, Ha.
  - unfold emit_. apply wlp_bind. eapply wlp_mono; [apply wlp_emit_sends|].
    intros ok w2 [_ Hs]. apply wlp_ret, wlp_ret. split; [exact (sends_quiet_l _ _ _ _ Hq Hs)|by left].
Qed.

Lemma finalize_phase config model events w :
  in_phase (eq Streaming) w ->
  wlp (finalize_stream_message config model events)
    (fun r w' => in_phase (eq Streaming) w' /\ (r = ChannelClosed -> dropped w')
                 /\ r <> StreamAborted) w.
Proof.
  intros HP. unfold finalize_stream_message.
  assert (Hstep : forall m p, Streaming = p ->
    exists p', phase_step p (MessageEnd m) = Some p' /\ Streaming = p') by (intros m p <-; by eexists).
  destruct (accumulate_message 0 events _ _) as [m|e]; apply wlp_bind;
    (eapply wlp_mono; [apply (wlp_quiet _ _ _ (quiet_host _) HP)|]); intros now w1 HP1; apply wlp_bind.
  - eapply wlp_mono; [eapply wlp_emit; [exact HP1|apply Hstep]|]. intros ok w2 [HP2 Hd].
    apply wlp_ret. destruct ok; split_and!; auto; done.
  - eapply wlp_mono; [eapply wlp_emit_; [exact HP1|apply Hstep]|]. intros [] w2 HP2.
    apply wlp_ret. by split_and!.
Qed.

Lemma returns_finalize config model events : returns (finalize_stream_message config model events).
Proof. unfold finalize_stream_message, now_timestamp, emit_. returns. Qed.

(** ** One model *)

(** What the end of a response says: its deltas are those of [evs], [tail] follows
    them. *)
Definition response_end config (model : ModelSpec) (defer : bool) (r : StreamResult)
    (evs : list AssistantMessageEvent) (tail : list AgentEvent) : Prop :=
  match r with
  | Message m =>
    (tail = [MessageEnd m] /\ (am_stop_reason m = Error \/ finished config model evs m))
    \/ (tail = [] /\ evs = [] /\ defer = true /\ am_stop_reason m = Error
        /\ is_fallback_eligible_error m = true)
  | StreamAborted => (tail = [] /\ evs = []) \/ exists m, tail = [MessageEnd m]
  | ContextOverflow => tail = [] /\ evs = []
  | ChannelClosed => False
  end.

(** The events of a response, and what the result says about them. *)
Definition response config (model : ModelSpec) (starts defer : bool) (w w' : World H)
    (r : StreamResult) : Prop :=
  (r = ChannelClosed /\ w_room w <> None)
  \/ exists start evs tail,
      sends (start ++ updates evs ++ tail) w w'
      /\ (start = (if starts then [MessageStart] else []) \/ (r = StreamAborted /\ start = []))
      /\ response_end config model defer r evs tail.

Lemma sends_room es (w w' : World H) : sends es w w' -> w_room w' <> None -> w_room w <> None.
Proof. intros Hs Hn Hw. by destruct (Hs Hw). Qed.

Lemma response_later config model (starts defer : bool) w0 w w' r :
  sends (if starts then [MessageStart] else []) w0 w ->
  response config model false defer w w' r -> response config model starts defer w0 w' r.
Proof.
  intros Hs [[-> Hn]|(start & evs & tail & Hs1 & Hstart & Hend)].
  { left. split; [done|]. by apply (sends_room _ _ _ Hs). }
  right. exists (if starts then [MessageStart] else []), evs, tail. split_and!; [|by left|done].
  destruct Hstart as [->|[_ ->]]; exact (sends_trans _ _ _ _ _ Hs Hs1).
Qed.

(** Deltas, then a last event that carries [m]. *)
Lemma respond config model (starts defer : bool) evs m (r : StreamResult) w0 w :
  sends (if starts then [MessageStart] else []) w0 w ->
  (r = StreamAborted \/ (r = Message m /\ am_stop_reason m = Error)) ->
  wlp (emit_attempt_deltas evs ≫= fun exit =>
       match exit with
       | Some exit => mret exit
       | None => emit (MessageEnd m) ≫= fun ok : bool => mret (if ok then r else ChannelClosed)
       end)
    (fun r w' => response config model starts defer w0 w' r) w.
Proof.
  intros Hs Hr. apply wlp_bind. eapply wlp_mono; [apply deltas_sends|]. intros x w1 [Hx Hs1].
  pose proof (sends_trans _ _ _ _ _ Hs Hs1) as Hs2. destruct x as [x|].
  { destruct (Hx x eq_refl) as [-> Hn]. apply wlp_ret. left. split; [done|].
    by apply (sends_room _ _ _ Hs). }
  apply wlp_bind. eapply wlp_mono; [apply wlp_emit_sends|]. intros ok w2 [Hok Hs3]. apply wlp_ret.
  destruct ok.
  2: { left. split; [done|]. apply (sends_room _ _ _ Hs2). intros Hn. specialize (Hok Hn). congruence. }
  right. pose proof (sends_trans _ _ _ _ _ Hs2 Hs3) as Hall. rewrite <- app_assoc in Hall.
  eexists _, evs, _. split_and!; [exact Hall|by left|].
  destruct Hr as [->|[-> Hm]]; [right; by eexists|left; auto].
Qed.

Lemma retry_loop_response fuel config model stream_fn ctx prompt key start defer attempt msgs w :
  wlp (retry_loop fuel config model stream_fn ctx prompt key start defer attempt msgs)
    (fun r w' => response config model (start && (attempt =? 0)%nat) defer w w' r) w.
Proof.
  revert attempt msgs w. induction fuel as [|fuel IH]; intros attempt msgs w; cbn [retry_loop]; [done|].
  apply wlp_bind. eapply wlp_mono; [apply quiet_is_cancelled|]. intros [] w1 Hq1.
  { apply wlp_ret. right. exists [], [], []. split_and!; [by apply sends_quiet|by right|by left]. }
  set (starts := start && (attempt =? 0)%nat).
  replace (start && (S attempt =? 1)%nat) with starts by done.
  apply wlp_bind.
  eapply (wlp_mono _ (fun ok w' => (ok = false -> w_room w <> None)
                       /\ sends (if starts then [MessageStart] else []) w w')).
  { destruct starts; [|apply wlp_ret; split; [done|by apply sends_quiet]].
    eapply wlp_mono; [apply wlp_emit_sends|]. intros ok w2 [Hok Hs].
    split; [|by apply (sends_quiet_l _ w w1 w2)]. intros -> Hn.
    destruct Hq1 as [_ Hq1]. rewrite Hq1 in Hok. by specialize (Hok Hn). }
  intros [] w2 [Hok Hs2]; cbn [negb]; [|apply wlp_ret; left; split; [done|by apply Hok]].
  apply wlp_bind. eapply wlp_mono; [apply single_attempt_spec|]. intros r w3 [Hq3 Hr].
  pose proof (sends_quiet_r _ _ _ _ Hs2 Hq3) as Hs3.
  destruct r as [events [[[[[sr msg] usage] kind] ra]|]|result events].
  - apply wlp_bind. eapply wlp_mono; [apply handle_stream_error_spec|]. intros a w4 [Hq4 Ha].
    pose proof (sends_quiet_r _ _ _ _ Hs3 Hq4) as Hs4. destruct a as [|d prior|result m].
    + apply wlp_ret. right. eexists _, [], []. rewrite app_nil_r.
      split_and!; [exact Hs4|by left|done].
    + apply wlp_bind.
      assert (Hprep : quiet match prior with
              | Some n => prepare_cache_miss_retry config msgs n | None => mret msgs end).
      { destruct prior; [apply quiet_prepare|quiet]. }
      eapply wlp_mono; [apply Hprep|]. intros msgs' w5 Hq5. apply wlp_bind.
      eapply wlp_mono; [apply quiet_sleep|]. intros [] w6 Hq6.
      pose proof (sends_quiet_r _ _ _ _ (sends_quiet_r _ _ _ _ Hs4 Hq5) Hq6) as Hs6.
      eapply wlp_mono; [apply IH|]. intros r w7 Hres. rewrite andb_false_r in Hres.
      exact (response_later _ _ _ _ _ _ _ _ Hs6 Hres).
    + destruct (negb defer || _) eqn:Hdefer; [exact (respond _ _ _ _ _ _ _ _ _ Hs4 Ha)|].
      apply orb_false_iff in Hdefer as [Hd He]. apply negb_false_iff in Hd, He.
      apply wlp_ret. right. eexists _, [], []. rewrite app_nil_r.
      split_and!; [exact Hs4|by left|]. destruct Ha as [->|[-> Hm]]; [by left|right; auto].
  - apply wlp_bind. eapply wlp_mono; [apply deltas_sends|]. intros x w4 [Hx Hs4].
    pose proof (sends_trans _ _ _ _ _ Hs3 Hs4) as Hs. destruct x as [x|].
    { destruct (Hx x eq_refl) as [-> Hn]. apply wlp_ret. left. split; [done|].
      by apply (sends_room _ _ _ Hs3). }
    eapply wlp_mono; [apply finalize_sends|]. intros r w5 Hr5. destruct r as [m| | |]; try done.
    + destruct Hr5 as [Hs5 Hm]. right. pose proof (sends_trans _ _ _ _ _ Hs Hs5) as Hall.
      rewrite <- app_assoc in Hall. eexists _, events, _. split_and!; [exact Hall|by left|by left].
    + left. split; [done|]. by apply (sends_room _ _ _ Hs).
  - subst result. apply wlp_bind. eapply (wlp_mono _ _ _ _ (deltas_sends _ _)).
    intros x w4 [Hx Hs4]. pose proof (sends_trans _ _ _ _ _ Hs3 Hs4) as Hs. destruct x as [x|].
    { destruct (Hx x eq_refl) as [-> Hn]. apply wlp_ret. left. split; [done|].
      by apply (sends_room _ _ _ Hs3). }
    apply wlp_bind. eapply wlp_mono; [apply quiet_host|]. intros now w5 Hq5.
    pose proof (sends_quiet_r _ _ _ _ Hs Hq5) as Hs5.
    apply wlp_bind. eapply wlp_mono; [apply wlp_emit_sends|]. intros ok w6 [Hok6 Hs6]. apply wlp_ret.
    destruct ok.
    2: { left. split; [done|]. apply (sends_room _ _ _ Hs5). intros Hn. specialize (Hok6 Hn). congruence. }
    right. pose proof (sends_trans _ _ _ _ _ Hs5 Hs6) as Hall. rewrite <- app_assoc in Hall.
    eexists _, events, _. split_and!; [exact Hall|by left|right; by eexists].
Qed.


(** ** The event protocol *)

(** The phase after a response. *)
Definition response_phase (r : StreamResult) (w : World H) : Prop :=
  match r with
  | Message _ | ContextOverflow => in_phase (eq Streaming) w
  | StreamAborted => in_phase (fun p => p = Calling \/ p = Streaming) w
  | ChannelClosed => in_phase (eq Streaming) w /\ dropped w
  end.

Lemma streaming_end m p : Streaming = p ->
  exists p', phase_step p (MessageEnd m) = Some p' /\ Streaming = p'.
Proof. intros <-. by eexists. Qed.

Lemma respond_phase events m r (w : World H) :
  in_phase (eq Streaming) w -> (r = StreamAborted \/ exists m', r = Message m') ->
  wlp (emit_attempt_deltas events ≫= fun exit =>
       match exit with
       | Some exit => mret exit
       | None => emit (MessageEnd m) ≫= fun ok : bool => mret (if ok then r else ChannelClosed)
       end) response_phase w.
Proof.
  intros HP Hr. apply wlp_bind. eapply wlp_mono; [by apply deltas_phase|]. intros x w1 [HP1 Hx].
  destruct x as [x|]. { destruct (Hx x eq_refl) as [-> Hd]. by apply wlp_ret. }
  apply wlp_bind. eapply wlp_mono; [eapply wlp_emit; [exact HP1|apply streaming_end]|].
  intros ok w2 [HP2 Hd]. apply wlp_ret. destruct ok; [|split; [done|by apply Hd]].
  destruct Hr as [->|[m' ->]]; [|done]. eapply in_phase_mono; [exact HP2|]. by intros p <-; right.
Qed.

Lemma retry_loop_phase fuel config model stream_fn ctx prompt key start defer attempt msgs (w : World H) :
  in_phase (eq (if start && (attempt =? 0)%nat then Calling else Streaming)) w ->
  wlp (retry_loop fuel config model stream_fn ctx prompt key start defer attempt msgs)
    response_phase w.
Proof.
  revert attempt msgs w. induction fuel as [|fuel IH]; intros attempt msgs w HP; cbn [retry_loop]; [done|].
  apply wlp_bind. eapply wlp_mono; [apply (wlp_quiet _ _ _ quiet_is_cancelled HP)|].
  intros [] w1 HP1.
  { apply wlp_ret. eapply in_phase_mono; [exact HP1|]. intros p <-. destruct (start && _); auto. }
  replace (start && (S attempt =? 1)%nat) with (start && (attempt =? 0)%nat) by done.
  apply wlp_bind.
  eapply (wlp_mono _ (fun ok w' => in_phase (eq Streaming) w' /\ (ok = false -> dropped w'))).
  { destruct (start && _); [|by apply wlp_ret].
    apply (wlp_emit _ (eq Calling) (eq Streaming)); [exact HP1|]. intros p <-. by eexists. }
  intros [] w2 [HP2 Hd]; cbn [negb]; [|apply wlp_ret; split; [done|by apply Hd]].
  apply wlp_bind. eapply wlp_mono; [apply single_attempt_spec|]. intros r w3 [Hq3 Hr].
  pose proof (quiet_in_phase _ _ _ Hq3 HP2) as HP3.
  destruct r as [events [[[[[sr msg] usage] kind] ra]|]|result events].
  - apply wlp_bind. eapply wlp_mono; [apply handle_stream_error_spec|]. intros a w4 [Hq4 Ha].
    pose proof (quiet_in_phase _ _ _ Hq4 HP3) as HP4. destruct a as [|d prior|result m].
    + by apply wlp_ret.
    + apply wlp_bind.
      assert (Hprep : quiet match prior with
              | Some n => prepare_cache_miss_retry config msgs n | None => mret msgs end).
      { destruct prior; [apply quiet_prepare|quiet]. }
      eapply wlp_mono; [apply (wlp_quiet _ _ _ Hprep HP4)|]. intros msgs' w5 HP5. apply wlp_bind.
      eapply wlp_mono; [apply (wlp_quiet _ _ _ (quiet_sleep d) HP5)|]. intros [] w6 HP6.
      apply IH. by rewrite andb_false_r.
    + destruct (negb defer || _).
      * apply respond_phase; [done|]. destruct Ha as [->|[-> _]]; [by left|right; by eexists].
      * apply wlp_ret. destruct Ha as [->|[-> _]]; [|done].
        eapply in_phase_mono; [exact HP4|]. by intros p <-; right.
  - apply wlp_bind. eapply wlp_mono; [by apply deltas_phase|]. intros x w4 [HP4 Hx].
    destruct x as [x|]. { destruct (Hx x eq_refl) as [-> Hd4]. by apply wlp_ret. }
    eapply wlp_mono; [by apply finalize_phase|]. intros r w5 (HP5 & Hd5 & Hna).
    destruct r; try done. split; [done|by apply Hd5].
  - subst result. apply wlp_bind. eapply (wlp_mono _ _ _ _ (deltas_phase _ _ HP3)).
    intros x w4 [HP4 Hx].
    destruct x as [x|]. { destruct (Hx x eq_refl) as [-> Hd4]. by apply wlp_ret. }
    apply wlp_bind. eapply wlp_mono; [apply (wlp_quiet _ _ _ (quiet_host _) HP4)|].
    intros now w5 HP5. apply wlp_bind.
    eapply wlp_mono; [eapply wlp_emit; [exact HP5|apply streaming_end]|].
    intros ok w6 [HP6 Hd6]. apply wlp_ret. destruct ok; [|split; [done|by apply Hd6]].
    eapply in_phase_mono; [exact HP6|]. by intros p <-; right.
Qed.

Lemma fallback_loop_phase fuel config ctx msgs prompt key models last (w : World H) :
  in_phase (eq Streaming) w -> falls_back last = true ->
  wlp (fallback_loop fuel config ctx msgs prompt key models last) response_phase w.
Proof.
  revert last w. induction models as [|[m sf] models IH]; intros last w HP Hlast; cbn [fallback_loop].
  { apply wlp_ret. by destruct last. }
  apply wlp_bind. eapply wlp_mono.
  { apply (wlp_emit _ (eq Streaming) (eq Streaming)); [exact HP|]. intros p <-. by eexists. }
  intros [] w1 [HP1 Hd]; cbn [negb]; [|apply wlp_ret; split; [done|by apply Hd]].
  apply wlp_bind. eapply wlp_mono; [by apply retry_loop_phase|]. intros r w2 Hr.
  destruct (falls_back r) eqn:Hf; [|by apply wlp_ret]. apply IH; [|done]. by destruct r.
Qed.

Lemma stream_with_retry_phase fuel config ctx msgs prompt key (start : bool) (w : World H) :
  in_phase (eq (if start then Calling else Streaming)) w ->
  wlp (stream_with_retry fuel config ctx msgs prompt key start) response_phase w.
Proof.
  intros HP. unfold stream_with_retry. apply wlp_bind.
  eapply wlp_mono; [apply retry_loop_phase; by rewrite andb_true_r|]. intros r w1 Hr.
  destruct (falls_back r) eqn:Hf; [|by apply wlp_ret].
  apply fallback_loop_phase; [|done]. by destruct r.
Qed.

(** ** Termination *)

(** The strategy gives up after [max] attempts. *)
Definition gives_up_after config (max : nat) : Prop :=
  forall e n, max <= n -> should_retry (cfg_retry_strategy config) e n = false.

(** Adds no sleep. *)
Definition same_sleeps (w w' : World H) : Prop := w_sleeps w' = w_sleeps w.

#[local] Instance same_sleeps_preorder : PreOrder same_sleeps.
Proof. split; [done|]. intros x y z ??. unfold same_sleeps in *. congruence. Qed.

Lemma sleepless_emit e : respects same_sleeps (emit e).
Proof. intros w. unfold wlp, emit. by destruct (w_room w) as [[|]|]. Qed.

Lemma sleepless_host {A} (f : H -> A * H) : respects same_sleeps (host f).
Proof. intros w. unfold wlp, host. by destruct (f (w_host w)). Qed.

Lemma sleepless_is_cancelled : respects same_sleeps is_cancelled.
Proof. intros w. unfold wlp, is_cancelled. by destruct (w_cancel w) as [[|]|]. Qed.

Lemma sleepless_set_cache c : respects same_sleeps (modify (set_cache c)).
Proof. done. Qed.

Create HintDb sleepless.
#[local] Hint Resolve sleepless_emit sleepless_host sleepless_is_cancelled sleepless_set_cache : sleepless.

Ltac sleepless :=
  repeat first
    [ apply respects_bind; [apply same_sleeps_preorder| |intros]
    | apply respects_ret; apply same_sleeps_preorder
    | apply respects_gets; apply same_sleeps_preorder
    | solve [eauto with sleepless]
    | case_match ].

Lemma sleepless_collect_events stream events err :
  respects same_sleeps (collect_events stream events err).
Proof.
  revert events err. induction stream as [|e stream IH]; intros events err; cbn [collect_events];
    sleepless.
Qed.

Lemma sleepless_deltas events : respects same_sleeps (emit_attempt_deltas events).
Proof.
  induction events as [|e events IH]; cbn [emit_attempt_deltas]; unfold emit_delta_event; sleepless.
Qed.

Lemma sleepless_handle config model sr msg kind ra attempt :
  respects same_sleeps (handle_stream_error config model sr msg kind ra attempt).
Proof. unfold handle_stream_error, finish_stream_error, now_timestamp. sleepless. Qed.

Lemma sleepless_prepare config msgs n : respects same_sleeps (prepare_cache_miss_retry config msgs n).
Proof. unfold prepare_cache_miss_retry. sleepless. Qed.

Lemma sleepless_finalize config model events :
  respects same_sleeps (finalize_stream_message config model events).
Proof. unfold finalize_stream_message, now_timestamp, emit_. sleepless. Qed.

#[local] Hint Resolve sleepless_collect_events sleepless_deltas sleepless_handle sleepless_prepare
  sleepless_finalize : sleepless.

(** Returns after adding at most [n] sleeps. *)
Definition returns_within {A} (n : nat) (m : M A) : Prop :=
  forall w, twp m (fun _ w' => length (w_sleeps w') <= length (w_sleeps w) + n) w.

Lemma returns_within_0 {A} (m : M A) : returns m -> respects same_sleeps m -> returns_within 0 m.
Proof.
  intros Hm Hs w. apply returns_twp; [done|]. eapply wlp_mono; [apply Hs|].
  intros a w' Hw. unfold same_sleeps in Hw. cbn in Hw. rewrite Hw. lia.
Qed.

Lemma returns_within_bind {A B} n k (m : M A) (f : A -> M B) :
  returns_within n m -> (forall a, returns_within k (f a)) -> returns_within (n + k) (m ≫= f).
Proof.
  intros Hm Hf w. apply twp_bind. eapply twp_mono; [apply Hm|]. intros a w1 H1. cbn in H1.
  eapply twp_mono; [apply Hf|]. intros b w2 H2. cbn in H2 |- *. lia.
Qed.

Lemma returns_within_mono {A} n k (m : M A) : returns_within n m -> n <= k -> returns_within k m.
Proof. intros Hm Hn w. eapply twp_mono; [apply Hm|]. intros a w' Hw. cbn in *. lia. Qed.

Lemma returns_respond evs m (r : StreamResult) :
  returns_within 0 (emit_attempt_deltas (H := H) evs ≫= fun exit =>
       match exit with
       | Some exit => mret exit
       | None => emit (MessageEnd m) ≫= fun ok : bool => mret (if ok then r else ChannelClosed)
       end).
Proof. apply returns_within_0; [returns; apply returns_deltas|sleepless]. Qed.

Lemma retry_loop_within max fuel config model stream_fn ctx prompt key start defer attempt msgs :
  gives_up_after config max -> 0 < fuel -> max <= fuel + attempt ->
  returns_within (max - 1 - attempt)
    (retry_loop fuel config model stream_fn ctx prompt key start defer attempt msgs).
Proof.
  intros Hmax. revert attempt msgs.
  induction fuel as [|fuel IH]; intros attempt msgs Hfuel Hle; cbn [retry_loop]; [lia|].
  assert (H0 : forall B (m : M B), returns_within 0 m -> returns_within (max - 1 - attempt) m).
  { intros B m Hm. eapply returns_within_mono; [exact Hm|lia]. }
  apply (returns_within_bind 0); [apply returns_within_0; eauto with swink sleepless|].
  intros []; [by apply H0, returns_within_0; sleepless|].
  apply (returns_within_bind 0).
  { apply returns_within_0; [returns|sleepless]. }
  intros []; cbn [negb]; [|by apply H0, returns_within_0; sleepless].
  apply (returns_within_bind 0).
  { unfold stream_single_attempt. apply returns_within_0;
      [returns; apply returns_collect_events|sleepless]. }
  intros [events [[[[[sr msg] usage] kind] ra]|]|result events].
  - intros w. apply twp_bind. apply returns_twp; [apply returns_handle_stream_error|].
    eapply wlp_mono; [apply wlp_conj; [apply handle_stream_error_spec|apply sleepless_handle]|].
    intros a w1 [[_ Ha] Hs]. unfold same_sleeps in Hs. destruct a as [|d prior|result m].
    + apply twp_ret. rewrite Hs. lia.
    + destruct Ha as [e He].
      assert (S attempt < max) as Hlt.
      { destruct (decide (max <= S attempt)) as [Hge|]; [|lia]. by rewrite Hmax in He. }
      apply twp_bind. apply (twp_mono _ (fun _ w' => w_sleeps w' = w_sleeps w1)).
      { destruct prior; [|done]. apply returns_twp; [apply returns_prepare|apply sleepless_prepare]. }
      intros msgs' w2 Hw2. apply twp_bind.
      change (twp (sleep d) (fun _ w3 => twp (retry_loop fuel config model stream_fn ctx prompt key
        start defer (S attempt) msgs') (fun _ w' => length (w_sleeps w')
          <= length (w_sleeps w) + (max - 1 - attempt)) w3) w2).
      unfold twp at 1, sleep, modify. eapply twp_mono; [apply IH; lia|].
      intros r w3 Hw3. cbn in Hw3. rewrite Hw2, Hs, length_app in Hw3. cbn in Hw3. lia.
    + destruct (negb defer || _); [|apply twp_ret; rewrite Hs; lia].
      eapply twp_mono; [apply (returns_respond events m result)|].
      intros r w2 Hw2. cbn in Hw2 |- *. rewrite Hs in Hw2. lia.
  - apply H0, returns_within_0; [returns; [apply returns_deltas|apply returns_finalize]|sleepless].
  - apply H0, returns_within_0; [unfold now_timestamp; returns; apply returns_deltas|].
    unfold now_timestamp. sleepless.
Qed.

Lemma single_within max fuel config model stream_fn ctx msgs prompt key start defer :
  gives_up_after config max -> 0 < fuel -> max <= fuel ->
  returns_within (max - 1)
    (stream_with_retry_single fuel config model stream_fn ctx msgs prompt key start defer).
Proof.
  intros Hmax Hf Hle. rewrite <- (Nat.sub_0_r (max - 1)).
  apply (retry_loop_within max); [done|done|lia].
Qed.

Lemma fallback_loop_within max fuel config ctx msgs prompt key models last :
  gives_up_after config max -> 0 < fuel -> max <= fuel ->
  returns_within (length models * (max - 1))
    (fallback_loop fuel config ctx msgs prompt key models last).
Proof.
  intros Hmax Hf Hle. revert last. induction models as [|[m sf] models IH]; intros last;
    cbn [fallback_loop length Nat.mul]; [by apply returns_within_0; sleepless|].
  apply (returns_within_bind 0); [apply returns_within_0; eauto with swink sleepless|].
  intros []; cbn [negb].
  2: { apply (returns_within_mono 0); [by apply returns_within_0; sleepless|apply Nat.le_0_l]. }
  apply returns_within_bind.
  { by apply (single_within max). }
  intros r. destruct (falls_back r); [apply IH|].
  apply (returns_within_mono 0); [by apply returns_within_0; sleepless|apply Nat.le_0_l].
Qed.

(** A response is bounded: when the retry strategy gives up after [max]
    attempts, a call to the provider with its fallback chain returns - fuel
    [max] is enough - and waits between attempts at most [max - 1] times per
    model, whatever the streams, the cancellation and the receiver do. *)
Lemma stream_with_retry_bounded max fuel config ctx msgs prompt key start w :
  gives_up_after config max -> 0 < fuel -> max <= fuel ->
  exists r w', stream_with_retry fuel config ctx msgs prompt key start w = Some (r, w')
    /\ length (w_sleeps w')
       <= length (w_sleeps w) + (1 + length (default [] (cfg_fallback config))) * (max - 1).
Proof.
  intros Hmax Hf Hle. apply twp_run. revert w. unfold stream_with_retry.
  apply returns_within_bind.
  { by apply (single_within max). }
  intros r. destruct (falls_back r); [by apply fallback_loop_within|].
  eapply (returns_within_mono 0); [by apply returns_within_0; sleepless|apply Nat.le_0_l].
Qed.

(** ** The fallback chain *)

Definition is_fallback_event (e : AgentEvent) : bool :=
  match e with ModelFallbackEvent _ _ => true | _ => false end.

(** The fallback switches a listener saw. *)
Definition switches (es : list AgentEvent) : list AgentEvent :=
  filtermap (fun e => if is_fallback_event e then Some e else None) es.

Lemma switches_app es fs : switches (es ++ fs) = switches es ++ switches fs.
Proof. apply filtermap_app. Qed.

Lemma switches_updates es : switches (updates es) = [].
Proof.
  unfold switches, updates. induction (filtermap event_delta es); simpl; done.
Qed.

Lemma single_no_switch fuel config model stream_fn ctx msgs prompt key start defer (w : World H) :
  w_room w = None ->
  wlp (stream_with_retry_single fuel config model stream_fn ctx msgs prompt key start defer)
    (fun r w' => w_room w' = None /\ r <> ChannelClosed
                 /\ switches (w_events w') = switches (w_events w)) w.
Proof.
  intros Hroom. eapply wlp_mono; [apply retry_loop_response|].
  intros r w' [[_ Hn]|(first & evs & tail & Hs & Hf & Hend)]; [done|].
  destruct (Hs Hroom) as [Hr He]. split_and!; [done|by destruct r|]. rewrite He.
  rewrite !switches_app, switches_updates.
  assert (switches first = []) as -> by (destruct Hf as [->|[_ ->]]; [by destruct start|done]).
  assert (switches tail = []) as ->.
  { destruct r; cbn in Hend; [|by destruct Hend as [-> _]| |done].
    - by destruct Hend as [[-> _]|[-> _]].
    - by destruct Hend as [[-> _]|[m ->]]. }
  by rewrite app_nil_r.
Qed.

(** The fallback chain is followed in order and only as far as needed: the
    switches announced to a listener are to the first [k] models of the chain,
    in order; the chain is left early only with a result that calls for no
    fallback; and with no chain, or a primary result that calls for none,
    nothing is announced. *)
Lemma fallbacks_in_order fuel config ctx msgs prompt key start w r w' :
  w_room w = None ->
  stream_with_retry fuel config ctx msgs prompt key start w = Some (r, w') ->
  let chain := default [] (cfg_fallback config) in
  exists k, k <= length chain
    /\ switches (w_events w')
       = switches (w_events w)
         ++ map (fun fb => ModelFallbackEvent (cfg_model config) (fst fb)) (take k chain)
    /\ (k < length chain -> falls_back r = false)
    /\ r <> ChannelClosed.
Proof.
  intros Hroom Hrun chain.
  enough (Hw : wlp (stream_with_retry fuel config ctx msgs prompt key start)
    (fun r w' => exists k, k <= length chain
      /\ switches (w_events w') = switches (w_events w)
           ++ map (fun fb => ModelFallbackEvent (cfg_model config) (fst fb)) (take k chain)
      /\ (k < length chain -> falls_back r = false) /\ r <> ChannelClosed) w)
    by exact (wlp_run _ _ _ _ _ Hw Hrun).
  unfold stream_with_retry. fold chain. apply wlp_bind.
  eapply wlp_mono; [by apply single_no_switch|]. intros r1 w1 (Hr1 & Hnc1 & Hs1).
  destruct (falls_back r1) eqn:Hf1.
  2: { apply wlp_ret. exists 0. split_and!; [lia| |done|done]. by rewrite Hs1, app_nil_r. }
  clearbody chain. rewrite <- Hs1. clear w Hroom Hrun Hs1 r w'.
  revert r1 w1 Hr1 Hnc1 Hf1. induction chain as [|[m sf] chain IH]; intros r1 w1 Hr1 Hnc1 Hf1.
  { apply wlp_ret. exists 0. split_and!; [done| |cbn; lia|done]. by rewrite app_nil_r. }
  cbn [fallback_loop]. apply wlp_bind. eapply wlp_mono; [apply wlp_emit_sends|].
  intros ok w2 [Hok Hs2]. rewrite (Hok Hr1). cbn [negb]. destruct (Hs2 Hr1) as [Hr2 He2].
  apply wlp_bind. eapply wlp_mono; [by apply single_no_switch|]. intros r3 w3 (Hr3 & Hnc3 & Hs3).
  assert (Hsw : switches (w_events w3)
                = switches (w_events w1) ++ [ModelFallbackEvent (cfg_model config) m]).
  { by rewrite Hs3, He2, switches_app. }
  destruct (falls_back r3) eqn:Hf3.
  - eapply wlp_mono; [by apply IH|]. intros r4 w4 (k & Hk & Hsw4 & Hlt & Hnc).
    exists (S k). cbn. split_and!; [lia| |intros; apply Hlt; lia|done].
    by rewrite Hsw4, Hsw, <- app_assoc.
  - apply wlp_ret. exists 1. cbn. split_and!; [lia|by rewrite take_0|done|done].
Qed.

End Spec.

(** ** A scripted host *)

(** The host plays back provider responses; a run of the loop on it can be
    evaluated. *)
Module Script.
#[export] Existing Instance Toy.ext.

(** The responses still to play. *)
Definition host_state : Type := list (list AssistantMessageEvent).

Definition play : StreamFn host_state := fun _ _ _ h =>
  match h with [] => ([], []) | r :: h' => (r, h') end.

Definition model (id : string) : ModelSpec := MkModelSpec "p" id Off None None None.

(** A tool that answers at once. *)
Definition lookup : AgentTool host_state :=
  MkAgentTool "lookup" "finds things" (Toy.JObj "") false None (fun _ => None) None
    (fun _ _ _ session h => ([], Returns (tool_text "42"), session, h)).

Definition config : AgentLoopConfig host_state :=
  MkConfig None None (model "m") (MkRetryStrategy (default_should_retry 3) (fun _ h => (5%N, h)))
    play [lookup] as_llm None None None None None ApprovalSmart [] [] [] [] None (Some [(model "fb", play)])
    Concurrent None None None None []
    false (fun h => (0%N, h)).

Definition state : LoopState :=
  MkLoopState (context_new [Demo.user "hello"]) [] 1 false false 0 usage_default cost_default None []
    chain_default false.

Definition world (h : host_state) : World host_state :=
  MkWorld state [] None None session_new cache_state_new [] None [] [] h.

Definition throttled : list AssistantMessageEvent :=
  [Start; TextStart 0; TextDelta 0 "partial"; event_error_throttled "slow down"].
End Script.

#[local] Existing Instance Toy.ext.

Definition demo_ctx : AgentContext Script.host_state := MkAgentContext "" [] [].

(** A throttled attempt with a partial delta, then a finished one: only the second
    one's delta is seen. *)
Definition demo_retry : World Script.host_state :=
  Script.world [Script.throttled; text_response "done"].

Definition demo_answer (id text : string) : AssistantMessage :=
  MkAssistantMessage [Text text] "p" id usage_default cost_default Stop None None 0 None.

Definition demo_retried : World Script.host_state :=
  MkWorld Script.state
    [MessageStart; MessageUpdate (DeltaText 0 "done"); MessageEnd (demo_answer "m" "done")]
    None None session_new cache_state_new [] None [5%N] [] [].


(** The primary model is throttled three times; the fallback answers. *)
Definition demo_throttled : World Script.host_state :=
  Script.world [Script.throttled; Script.throttled; Script.throttled; text_response "ok"].

Definition demo_fell_back : World Script.host_state :=
  MkWorld Script.state
    [MessageStart; ModelFallbackEvent (Script.model "m") (Script.model "fb");
     MessageUpdate (DeltaText 0 "ok"); MessageEnd (demo_answer "fb" "ok")]
    None None session_new cache_state_new [] None [5%N; 5%N] [] [].

Lemma stream_with_retry_bounded_witness :
  gives_up_after Script.config 3
  /\ exists r w', stream_with_retry 3 Script.config demo_ctx [] "" None true
       demo_throttled = Some (r, w') /\ length (w_sleeps w') <= 4.
Proof.
  assert (Hg : gives_up_after Script.config 3).
  { intros e n Hn. cbn. unfold default_should_retry. by destruct (Nat.leb_spec 3 n); [|lia]. }
  split; [exact Hg|].
  exact (stream_with_retry_bounded 3 3 Script.config demo_ctx [] "" None true demo_throttled
    Hg ltac:(lia) ltac:(lia)).
Defined.

Lemma fallbacks_in_order_witness :
  exists k, k <= 1 /\ switches (w_events demo_fell_back)
   = map (fun fb => ModelFallbackEvent (Script.model "m") (fst fb)) (take k [(Script.model "fb", Script.play)]).
Proof.
  assert (Hrun : stream_with_retry 3 Script.config demo_ctx [] "" None true demo_throttled
    = Some (Message (demo_answer "fb" "ok"), demo_fell_back)).
  { vm_cast_no_check (eq_refl (Some (Message (demo_answer "fb" "ok"), demo_fell_back))). }
  destruct (fallbacks_in_order 3 Script.config demo_ctx [] "" None true demo_throttled _ _
    eq_refl Hrun) as (k & Hk & H & _ & _).
  exists k. split; [exact Hk|exact H].
Defined.
