(* ===== verification/TurnParts.v ===== *)
(** * The pieces of a turn: helpers of [src/loop_/turn.rs]

    What [run_single_turn], the tool phase and overflow recovery share: reading
    pending input, context transformers, cache annotation, snapshots and
    state deltas, the terminal event pairs, and the post-turn policy check. *)
From S2P Require Export StreamLoop.
Open Scope list_scope.

Section TurnParts.
Context `{E : Ext} {H : Type}.
Implicit Types (config : AgentLoopConfig H).

#[local] Abbreviation M := (Prog (World H)).

(** ** Messages for the provider *)

(** @src src/loop_/turn.rs:416-434 [build_dynamic_system_prompt_message] *)
Definition build_dynamic_system_prompt_message config : M (option LlmMessage) :=
  match cfg_dynamic_system_prompt config with
  | None => mret None
  | Some dynamic_fn =>
    host dynamic_fn ≫= fun dynamic_text =>
    if String.eqb dynamic_text "" then mret None
    else now_timestamp config ≫= fun now =>
         mret (Some (User (MkUserMessage [Text dynamic_text] now None)))
  end.

(** @src src/loop_/turn.rs:436-451 [build_llm_messages] *)
Definition build_llm_messages config (context_messages : list AgentMessage)
    (dynamic_prompt_injected : option LlmMessage) : list LlmMessage :=
  let llm_messages := filtermap (cfg_convert_to_llm config) context_messages in
  match dynamic_prompt_injected with
  | Some dynamic_prompt => dynamic_prompt :: llm_messages
  | None => llm_messages
  end.

(** @src src/loop_/turn.rs:453-470 [clone_messages_for_policy_snapshot] *)
Definition clone_messages_for_policy_snapshot (messages : list AgentMessage) : list AgentMessage :=
  filtermap (fun m => match m with
                      | Llm llm => Some (Llm llm)
                      | Custom custom => Custom <$> clone_box custom
                      end) messages.

(** ** Transformers *)

(** One transformer, run in place on the history; whether it reported.
    @src src/loop_/turn.rs:499-506 [run_context_transformers, one transformer] *)
Definition run_transformer (overflow : bool) (t : TransformerOps (H := H)) : M bool :=
  messages_now ≫= fun messages =>
  host (op_transform t messages overflow) ≫= fun '(report, messages') =>
  upd (fun s => put_context (context_make_mut (fun _ => messages') (context_messages s)) s)
  ≫= fun _ => replace_loop_context messages' ≫= fun _ =>
  match report with
  | Some report => emit_ (ContextCompacted report) ≫= fun _ => mret true
  | None => mret false
  end.

(** @src src/loop_/turn.rs:476-519 [run_context_transformers] *)
Definition run_context_transformers config (overflow : bool) : M bool :=
  match cfg_async_transform_context config, cfg_transform_context config with
  | None, None => mret false
  | async_transformer, transformer =>
    upd (fun s => put_context (context_make_mut id (context_messages s)) s) ≫= fun _ =>
    match async_transformer with
    | Some t => run_transformer overflow t
    | None => mret false
    end ≫= fun compacted1 =>
    match transformer with
    | Some t => run_transformer overflow t
    | None => mret false
    end ≫= fun compacted2 =>
    mret (compacted1 || compacted2)
  end.

(** ** Metrics, snapshots, deltas *)

(** @src src/loop_/turn.rs:559-578 [emit_turn_metrics] *)
Definition emit_turn_metrics config (message : AssistantMessage)
    (tool_executions : list ToolExecMetrics) : M unit :=
  match cfg_metrics_collector config with
  | None => mret tt
  | Some on_metrics =>
    st turn_index ≫= fun index =>
    let metrics := MkTurnMetrics index tool_executions (am_usage message) (am_cost message) in
    modify (fun w => set_host (on_metrics metrics (w_host w)) w)
  end.

(** @src src/loop_/turn.rs:634-647 [build_snapshot] *)
Definition build_snapshot (stop_reason : StopReason) (state_delta : option StateDelta) :
    M TurnSnapshot :=
  st context_messages ≫= fun c =>
  let '(messages, c) := context_snapshot_llm c in
  upd (put_context c) ≫= fun _ =>
  st id ≫= fun s =>
  mret (MkTurnSnapshot (turn_index s) messages (accumulated_usage s) (accumulated_cost s)
          stop_reason state_delta).

(** @src src/loop_/turn.rs:650-673 [flush_state_delta] *)
Definition flush_state_delta : M (option StateDelta) :=
  gets w_session ≫= fun session =>
  let '(delta, session) := flush_delta session in
  modify (set_session session) ≫= fun _ =>
  if delta_is_empty delta then mret None
  else emit_ (StateChanged delta) ≫= fun _ => mret (Some delta).

(** ** Terminal events *)

(** [state.context_messages.take_vec()] *)
Definition take_context : M (list AgentMessage) :=
  st context_messages ≫= fun c =>
  let '(messages, c) := context_take_vec c in
  upd (put_context c) ≫= fun _ => mret messages.

(** @src src/loop_/turn.rs:616-625 [emit_agent_end] *)
Definition emit_agent_end : M TurnOutcome :=
  take_context ≫= fun messages =>
  emit_ (AgentEnd messages) ≫= fun _ =>
  mret Return.

(** @src src/loop_/turn.rs:584-613 [emit_turn_end_and_agent_end] *)
Definition emit_turn_end_and_agent_end (m : AssistantMessage) (tool_results : list ToolResultMessage)
    (reason : TurnEndReason) (snapshot : TurnSnapshot) : M TurnOutcome :=
  emit (TurnEnd m tool_results reason snapshot) ≫= fun ok : bool =>
  if negb ok then mret Return else emit_agent_end.

(** @src src/loop_/turn.rs:677-715 [emit_cancellation_for_turn] *)
Definition emit_cancellation_for_turn config (emit_turn_start emit_message_start : bool) :
    M TurnOutcome :=
  now_timestamp config ≫= fun now =>
  let abort_msg := build_abort_message now (cfg_model config) in
  push_context (Llm (Assistant abort_msg)) ≫= fun _ =>
  (if emit_turn_start then emit TurnStart else mret true) ≫= fun ok : bool =>
  if negb ok then mret Return else
  (if emit_message_start then emit MessageStart else mret true) ≫= fun ok : bool =>
  if negb ok then mret Return else
  emit (MessageEnd abort_msg) ≫= fun ok : bool =>
  if negb ok then mret Return else
  build_snapshot Aborted None ≫= fun snapshot =>
  emit_turn_end_and_agent_end abort_msg [] EndCancelled snapshot.

(** @src src/loop_/turn.rs:718-724 [handle_cancellation] *)
Definition handle_cancellation config : M TurnOutcome := emit_cancellation_for_turn config true true.

(** @src src/loop_/turn.rs:727-733 [handle_started_turn_cancellation] *)
Definition handle_started_turn_cancellation config : M TurnOutcome :=
  emit_cancellation_for_turn config false false.

(** ** Post-turn policies *)

Definition is_tool_call (b : ContentBlock) : bool :=
  match b with ToolCall _ _ _ _ => true | _ => false end.

(** @src src/loop_/turn.rs:935-954 [assistant_replacement_preserves_tool_calls] *)
Definition assistant_replacement_preserves_tool_calls (original replacement : AssistantMessage) : bool :=
  bool_decide (List.filter is_tool_call (am_content original)
               = List.filter is_tool_call (am_content replacement)).

(** @src src/loop_/turn.rs:911-927 [run_post_turn_policy_check, injected messages] *)
Fixpoint apply_injections (original : AssistantMessage) (msgs : list AgentMessage)
    (replaced : AssistantMessage) : M AssistantMessage :=
  match msgs with
  | [] => mret replaced
  | Llm (Assistant new_msg) :: msgs' =>
    apply_injections original msgs'
      (if assistant_replacement_preserves_tool_calls original new_msg then new_msg else replaced)
  | other :: msgs' =>
    upd (fun s => put_pending (pending_messages s ++ [other]) s) ≫= fun _ =>
    sync_pending_message_snapshot ≫= fun _ =>
    apply_injections original msgs' replaced
  end.

(** The context every policy slot sees. *)
Definition policy_context (new_messages : list AgentMessage) : M PolicyContext :=
  gets id ≫= fun w =>
  let s := w_state w in
  mret (MkPolicyContext (turn_index s) (accumulated_usage s) (accumulated_cost s)
          (length (cm_messages (context_messages s))) (overflow_signal s) new_messages (w_session w)).

(** @src src/loop_/turn.rs:869-933 [run_post_turn_policy_check] *)
Definition run_post_turn_policy_check config (m : AssistantMessage)
    (tool_results : list ToolResultMessage) (system_prompt : string) :
    M (AssistantMessage * option string) :=
  match cfg_post_turn_policies config with
  | [] => mret (m, None)
  | policies =>
    policy_context [] ≫= fun policy_ctx =>
    messages_now ≫= fun messages =>
    let turn_ctx := MkTurnPolicyContext m tool_results (am_stop_reason m) system_prompt
                      (cfg_model config) messages in
    host (run_post_turn_policies policies policy_ctx turn_ctx) ≫= fun verdict =>
    match verdict with
    | VContinue => mret (m, None)
    | VStop reason => mret (m, Some reason)
    | VInject msgs =>
      apply_injections m msgs m ≫= fun replaced =>
      upd (put_last_assistant replaced) ≫= fun _ =>
      mret (replaced, None)
    end
  end.

(** ** Ends of a turn *)

(** [None]: the loop returns.
    @src src/loop_/turn.rs:737-782 [handle_stream_result] *)
Definition handle_stream_result config (system_prompt : string) (result : StreamResult) :
    M (option AssistantMessage) :=
  match result with
  | Message msg => mret (Some msg)
  | ContextOverflow => mret None
  | StreamAborted =>
    now_timestamp config ≫= fun now =>
    let abort_msg := build_abort_message now (cfg_model config) in
    messages_now ≫= fun messages =>
    let assistant_ctx_index := length messages in
    push_context (Llm (Assistant abort_msg)) ≫= fun _ =>
    run_post_turn_policy_check config abort_msg [] system_prompt ≫= fun '(msg_for_event, _) =>
    set_context_message assistant_ctx_index (Llm (Assistant msg_for_event)) ≫= fun _ =>
    build_snapshot Aborted None ≫= fun snapshot =>
    emit_turn_end_and_agent_end msg_for_event [] EndAborted snapshot ≫= fun _ =>
    mret None
  | ChannelClosed => mret None
  end.

(** @src src/loop_/turn.rs:785-834 [handle_error_stop] *)
Definition handle_error_stop config (system_prompt : string) (m : AssistantMessage) : M TurnOutcome :=
  let m := fst (sanitize_incomplete_tool_calls m) in
  let is_abort := bool_decide (am_stop_reason m = Aborted) in
  let stop := am_stop_reason m in
  messages_now ≫= fun messages =>
  let assistant_ctx_index := length messages in
  push_context (Llm (Assistant m)) ≫= fun _ =>
  run_post_turn_policy_check config m [] system_prompt ≫= fun '(msg_for_event, _) =>
  set_context_message assistant_ctx_index (Llm (Assistant msg_for_event)) ≫= fun _ =>
  build_snapshot stop None ≫= fun snapshot =>
  emit_turn_end_and_agent_end msg_for_event []
    (if is_abort then EndAborted else EndError) snapshot.

(** @src src/loop_/turn.rs:837-860 [extract_tool_calls] *)
Definition extract_tool_calls (m : AssistantMessage) : list ToolCallInfo :=
  filtermap (fun b => match b with
                      | ToolCall id name arguments partial_json =>
                        Some (MkToolCallInfo id name arguments (bool_decide (is_Some partial_json)))
                      | _ => None
                      end) (am_content m).

(** @src src/loop_/turn.rs:531-538 [mark_assistant_message_aborted] *)
Definition mark_assistant_message_aborted config (m : AssistantMessage) : M AssistantMessage :=
  now_timestamp config ≫= fun now =>
  mret (MkAssistantMessage (am_content m) (am_provider m) (am_model_id m) (am_usage m) (am_cost m)
          Aborted (Some "operation aborted via cancellation token"%string) None now (am_cache_hint m)).

(** An error result of the tool phase. *)
Definition error_result (id text : string) (now : N) : ToolResultMessage :=
  MkToolResultMessage id [Text text] true now json_null None.

(** @src src/loop_/turn.rs:1478-1494 [recover_incomplete_tool_calls, loop] *)
Fixpoint split_incomplete config (calls : list ToolCallInfo) :
    M (list ToolResultMessage * list ToolCallInfo) :=
  match calls with
  | [] => mret ([], [])
  | tc :: calls' =>
    if tci_is_incomplete tc then
      now_timestamp config ≫= fun now =>
      split_incomplete config calls' ≫= fun '(results, remaining) =>
      mret (error_result (tci_id tc) "error: tool call was incomplete due to max tokens reached" now
              :: results, remaining)
    else
      split_incomplete config calls' ≫= fun '(results, remaining) =>
      mret (results, tc :: remaining)
  end.

(** The error results and the calls left.
    @src src/loop_/turn.rs:1471-1498 [recover_incomplete_tool_calls] *)
Definition recover_incomplete_tool_calls config (calls : list ToolCallInfo) (stop_reason : StopReason) :
    M (list ToolResultMessage * list ToolCallInfo) :=
  match stop_reason with
  | Length => split_incomplete config calls
  | _ => mret ([], calls)
  end.

(** The result and whether it matched.
    @src src/loop_/turn.rs:1449-1467 [rewrite_tool_result_as_rejected] *)
Definition rewrite_tool_result_as_rejected (confirmation rejection_message : string)
    (tr : ToolResultMessage) : ToolResultMessage * bool :=
  if negb (tr_is_error tr) && bool_decide (tr_content tr = [Text confirmation])
  then (MkToolResultMessage (tr_tool_call_id tr) [Text rejection_message] true (tr_timestamp tr)
          (tr_details tr) (tr_cache_hint tr), true)
  else (tr, false).

(** Rewrites the first match of the batch's results.
    @src src/loop_/turn.rs:1300-1304 [handle_tool_calls, rewrite of tool_results] *)
Fixpoint rewrite_results (confirmation rejection_message : string) (trs : list ToolResultMessage) :
    list ToolResultMessage :=
  match trs with
  | [] => []
  | tr :: trs' =>
    match rewrite_tool_result_as_rejected confirmation rejection_message tr with
    | (tr, true) => tr :: trs'
    | (tr, false) => tr :: rewrite_results confirmation rejection_message trs'
    end
  end.

(** Rewrites the first match of the whole history.
    @src src/loop_/turn.rs:1305-1317 [handle_tool_calls, rewrite of the history] *)
Fixpoint rewrite_history (confirmation rejection_message : string) (messages : list AgentMessage) :
    list AgentMessage :=
  match messages with
  | [] => []
  | Llm (ToolResult tr) :: messages' =>
    match rewrite_tool_result_as_rejected confirmation rejection_message tr with
    | (tr, true) => Llm (ToolResult tr) :: messages'
    | (tr, false) => Llm (ToolResult tr) :: rewrite_history confirmation rejection_message messages'
    end
  | m :: messages' => m :: rewrite_history confirmation rejection_message messages'
  end.

End TurnParts.
