(* ===== verification/Turn.v ===== *)
(** * A turn of the loop: [src/loop_/overflow.rs] and [src/loop_/turn.rs]

    Overflow recovery, the two ways a turn ends normally, and
    [run_single_turn].  Tool dispatch is reached through the [ToolExecutor]
    interface. *)
From S2P Require Export TurnParts.
Open Scope list_scope.

Section Turn.
Context `{E : Ext} {H : Type} `{X : !ToolExecutor H}.
Implicit Types (config : AgentLoopConfig H).

#[local] Abbreviation M := (Prog (World H)).

(** ** Overflow recovery *)

(** @src src/loop_/overflow.rs:27-32 [OverflowRecoveryResult] *)
Inductive OverflowRecoveryResult :=
| Recovered (result : StreamResult)
| Failed (outcome : TurnOutcome).

(** @src src/loop_/overflow.rs:117-161 [overflow_error] *)
Definition overflow_error config (system_prompt : string) : M OverflowRecoveryResult :=
  let error := ContextWindowOverflow (ms_model_id (cfg_model config)) in
  now_timestamp config ≫= fun now =>
  let error_msg := build_error_message now (cfg_model config) error in
  push_context (Llm (Assistant error_msg)) ≫= fun _ =>
  emit_ (MessageEnd error_msg) ≫= fun _ =>
  messages_now ≫= fun messages =>
  let assistant_ctx_index := length messages - 1 in
  run_post_turn_policy_check config error_msg [] system_prompt ≫= fun '(msg_for_event, _) =>
  set_context_message assistant_ctx_index (Llm (Assistant msg_for_event)) ≫= fun _ =>
  build_snapshot Error None ≫= fun snapshot =>
  emit_turn_end_and_agent_end msg_for_event [] EndError snapshot ≫= fun outcome =>
  mret (Failed outcome).

(** @src src/loop_/overflow.rs:41-114 [attempt_overflow_recovery] *)
Definition attempt_overflow_recovery (fuel : nat) config (system_prompt : string)
    (agent_context : AgentContext H) (dynamic_prompt_injected : option LlmMessage)
    (api_key : option string) : M OverflowRecoveryResult :=
  st overflow_recovery_attempted ≫= fun attempted : bool =>
  if attempted then overflow_error config system_prompt
  else
    match cfg_async_transform_context config, cfg_transform_context config with
    | None, None => overflow_error config system_prompt
    | _, _ =>
      upd (put_recovery_attempted true) ≫= fun _ =>
      upd (put_overflow_signal true) ≫= fun _ =>
      run_context_transformers config true ≫= fun any_compacted : bool =>
      upd (put_overflow_signal false) ≫= fun _ =>
      if negb any_compacted then overflow_error config system_prompt
      else
        is_cancelled ≫= fun cancelled : bool =>
        if cancelled then handle_started_turn_cancellation config ≫= fun o => mret (Failed o)
        else
          messages_now ≫= fun messages =>
          let llm_messages := build_llm_messages config messages dynamic_prompt_injected in
          stream_with_retry fuel config agent_context llm_messages system_prompt api_key false
          ≫= fun retry_result =>
          match retry_result with
          | ContextOverflow => overflow_error config system_prompt
          | _ => mret (Recovered retry_result)
          end
    end.

(** ** A turn without tool calls *)

(** @src src/loop_/turn.rs:956-963 [REASONING_ONLY_NUDGE] *)
Definition REASONING_ONLY_NUDGE : string :=
  "Your previous turn produced only hidden reasoning — no visible text and no tool call — so the user saw no reply. Respond again now with your answer as visible text (or a tool call if action is needed).".

(** [state.pending_messages.extend(..)] *)
Definition extend_pending (msgs : list AgentMessage) : M unit :=
  upd (fun s => put_pending (pending_messages s ++ msgs) s).

(** @src src/loop_/turn.rs:1071-1077 [handle_no_tool_calls, poll_steering] *)
Definition poll_steering_into_pending config : M unit :=
  match cfg_message_provider config with
  | None => mret tt
  | Some provider =>
    host (poll_steering provider) ≫= fun msgs =>
    match msgs with
    | [] => mret tt
    | _ => extend_pending msgs ≫= fun _ => sync_pending_message_snapshot
    end
  end.

(** @src src/loop_/turn.rs:975-1084 [handle_no_tool_calls] *)
Definition handle_no_tool_calls config (system_prompt : string) (m : AssistantMessage) :
    M TurnOutcome :=
  upd (accumulate_turn_state m) ≫= fun _ =>
  upd (put_last_tool_results []) ≫= fun _ =>
  emit_turn_metrics config m [] ≫= fun _ =>
  messages_now ≫= fun messages =>
  let assistant_ctx_index := length messages in
  push_context (Llm (Assistant m)) ≫= fun _ =>
  run_post_turn_policy_check config m [] system_prompt ≫= fun '(m, policy_stop) =>
  set_context_message assistant_ctx_index (Llm (Assistant m)) ≫= fun _ =>
  sync_loop_context_snapshot ≫= fun _ =>
  let reasoning_only := is_reasoning_only m in
  flush_state_delta ≫= fun state_delta =>
  build_snapshot (am_stop_reason m) state_delta ≫= fun snapshot =>
  emit (TurnEnd m [] (if reasoning_only then EndReasoningOnly else EndComplete) snapshot)
  ≫= fun ok : bool =>
  if negb ok then mret Return else
  match policy_stop with
  | Some _ => emit_agent_end
  | None =>
    (if reasoning_only then
       st reasoning_only_nudged ≫= fun nudged : bool =>
       when (cfg_reasoning_only_nudge config && negb nudged)
         (upd (put_nudged true) ≫= fun _ =>
          now_timestamp config ≫= fun now =>
          extend_pending [Llm (User (MkUserMessage [Text REASONING_ONLY_NUDGE] now None))]
          ≫= fun _ => sync_pending_message_snapshot)
     else upd (put_nudged false)) ≫= fun _ =>
    poll_steering_into_pending config ≫= fun _ =>
    st pending_messages ≫= fun pending =>
    mret match pending with [] => BreakInner | _ => ContinueInner end
  end.

(** ** A turn with tool calls *)

(** [for tr in &tool_results { context_messages.push(..) }] *)
Definition push_results (trs : list ToolResultMessage) : M unit :=
  for_each (fun tr => push_context (Llm (ToolResult tr))) trs.

(** The tool batch was cancelled.
    @src src/loop_/turn.rs:1171-1217 [handle_tool_calls, Aborted] *)
Definition tools_aborted_turn config (system_prompt : string) (m : AssistantMessage)
    (assistant_ctx_index : nat) (tool_results : list ToolResultMessage)
    (tool_metrics : list ToolExecMetrics) (injected : list AgentMessage) : M TurnOutcome :=
  emit_turn_metrics config m tool_metrics ≫= fun _ =>
  extend_pending injected ≫= fun _ =>
  sync_pending_message_snapshot ≫= fun _ =>
  push_results tool_results ≫= fun _ =>
  upd (put_last_tool_results tool_results) ≫= fun _ =>
  mark_assistant_message_aborted config m ≫= fun aborted =>
  run_post_turn_policy_check config aborted tool_results system_prompt ≫= fun '(aborted, _) =>
  set_context_message assistant_ctx_index (Llm (Assistant aborted)) ≫= fun _ =>
  flush_state_delta ≫= fun state_delta =>
  build_snapshot Aborted state_delta ≫= fun snapshot =>
  emit_turn_end_and_agent_end aborted tool_results EndCancelled snapshot.

(** The [TurnEnd] of a turn that goes on.
    @src src/loop_/turn.rs:1400-1419 [handle_tool_calls, TurnEnd] *)
Definition emit_tools_turn_end (m : AssistantMessage) (tool_results : list ToolResultMessage)
    (steering_interrupted : bool) : M bool :=
  flush_state_delta ≫= fun state_delta =>
  build_snapshot (am_stop_reason m) state_delta ≫= fun snapshot =>
  emit (TurnEnd m tool_results
          (if steering_interrupted then EndSteeringInterrupt else EndToolsExecuted) snapshot).

(** The chain rejected the target.
    @src src/loop_/turn.rs:1275-1358 [handle_tool_calls, rejected transfer (brace)] *)
Definition rejected_transfer_turn config (m : AssistantMessage) (signal : TransferSignal)
    (chain_err : TransferError) (tool_results : list ToolResultMessage)
    (steering_interrupted : bool) (policy_stop : option string) : M TurnOutcome :=
  let rejection_reason := match chain_err with
                          | CircularTransfer _ _ => RejectCircular
                          | MaxDepthExceeded _ _ => RejectMaxDepthExceeded
                          end in
  let rejection_message := ("transfer rejected: " ++ transfer_error_display chain_err)%string in
  let confirmation := confirmation_text (ts_target_agent signal) in
  let tool_results := rewrite_results confirmation rejection_message tool_results in
  upd (fun s => put_context (context_make_mut (rewrite_history confirmation rejection_message)
                               (context_messages s)) s) ≫= fun _ =>
  sync_loop_context_snapshot ≫= fun _ =>
  emit_ (TransferRejected (default ""%string (cfg_agent_name config)) (ts_target_agent signal)
           rejection_reason) ≫= fun _ =>
  emit_tools_turn_end m tool_results steering_interrupted ≫= fun ok : bool =>
  if negb ok then mret Return
  else match policy_stop with Some _ => emit_agent_end | None => mret ContinueInner end.

(** The chain accepted the target.
    @src src/loop_/turn.rs:1362-1394 [handle_tool_calls, transfer] *)
Definition transferred_turn (m : AssistantMessage) (signal : TransferSignal)
    (tool_results : list ToolResultMessage) : M TurnOutcome :=
  messages_now ≫= fun messages =>
  st transfer_chain ≫= fun chain =>
  let signal := with_transfer_chain chain
                  (with_conversation_history (filtermap as_llm messages) signal) in
  emit_ (TransferInitiated signal) ≫= fun _ =>
  flush_state_delta ≫= fun state_delta =>
  build_snapshot Transfer state_delta ≫= fun snapshot =>
  emit_turn_end_and_agent_end m tool_results EndTransfer snapshot.

(** After the batch: commit the results, run the policies, end the turn.
    @src src/loop_/turn.rs:1222-1441 [handle_tool_calls, from the metrics on (brace)] *)
Definition commit_tool_turn config (system_prompt : string) (m : AssistantMessage)
    (assistant_ctx_index : nat) (tool_results : list ToolResultMessage)
    (tool_metrics : list ToolExecMetrics) (steering_interrupted : bool)
    (transfer : option TransferSignal) (dispatch_stop : option string) : M TurnOutcome :=
  emit_turn_metrics config m tool_metrics ≫= fun _ =>
  push_results tool_results ≫= fun _ =>
  upd (put_last_tool_results tool_results) ≫= fun _ =>
  run_post_turn_policy_check config m tool_results system_prompt ≫= fun '(m, policy_stop) =>
  set_context_message assistant_ctx_index (Llm (Assistant m)) ≫= fun _ =>
  sync_loop_context_snapshot ≫= fun _ =>
  match transfer with
  | Some signal =>
    st transfer_chain ≫= fun chain =>
    let '(chain, pushed) := chain_push chain (ts_target_agent signal) in
    upd (put_chain chain) ≫= fun _ =>
    match pushed with
    | Ok _ => transferred_turn m signal tool_results
    | Err chain_err =>
      rejected_transfer_turn config m signal chain_err tool_results steering_interrupted policy_stop
    end
  | None =>
    emit_tools_turn_end m tool_results steering_interrupted ≫= fun ok : bool =>
    if negb ok then mret Return else
    match dispatch_stop, policy_stop with
    | Some _, _ | None, Some _ => emit_agent_end
    | None, None =>
      (if steering_interrupted then mret tt else poll_steering_into_pending config) ≫= fun _ =>
      mret ContinueInner
    end
  end.

(** @src src/loop_/turn.rs:1089-1441 [handle_tool_calls] *)
Definition handle_tool_calls config (system_prompt : string) (m : AssistantMessage)
    (tool_call_data : list ToolCallInfo) : M TurnOutcome :=
  upd (accumulate_turn_state m) ≫= fun _ =>
  messages_now ≫= fun messages =>
  let assistant_ctx_index := length messages in
  push_context (Llm (Assistant m)) ≫= fun _ =>
  recover_incomplete_tool_calls config tool_call_data (am_stop_reason m)
  ≫= fun '(max_token_results, tool_call_data) =>
  push_results max_token_results ≫= fun _ =>
  match tool_call_data with
  | [] => commit_tool_turn config system_prompt m assistant_ctx_index max_token_results [] false None None
  | _ =>
    execute_tools config tool_call_data ≫= fun exec_results =>
    match exec_results with
    | Completed results tool_metrics transfer_signal injected =>
      extend_pending injected ≫= fun _ =>
      sync_pending_message_snapshot ≫= fun _ =>
      commit_tool_turn config system_prompt m assistant_ctx_index (max_token_results ++ results)
        tool_metrics false transfer_signal None
    | Stopped results tool_metrics reason injected =>
      extend_pending injected ≫= fun _ =>
      sync_pending_message_snapshot ≫= fun _ =>
      commit_tool_turn config system_prompt m assistant_ctx_index (max_token_results ++ results)
        tool_metrics false None (Some reason)
    | SteeringInterrupt completed cancelled steering tool_metrics injected =>
      extend_pending injected ≫= fun _ =>
      extend_pending steering ≫= fun _ =>
      sync_pending_message_snapshot ≫= fun _ =>
      commit_tool_turn config system_prompt m assistant_ctx_index
        (max_token_results ++ completed ++ cancelled) tool_metrics true None None
    | ToolsAborted results tool_metrics injected =>
      tools_aborted_turn config system_prompt m assistant_ctx_index (max_token_results ++ results)
        tool_metrics injected
    | ToolsChannelClosed => mret Return
    end
  end.

(** ** The turn *)

(** The new messages the pre-turn policies see.
    @src src/loop_/turn.rs:40-67 [run_single_turn, pending messages] *)
Definition inject_pending : M (list AgentMessage) :=
  upd (put_recovery_attempted false) ≫= fun _ =>
  st id ≫= fun s =>
  let len := length (cm_messages (context_messages s)) in
  let fresh_messages_start :=
    if (turn_index s =? 0)%nat then len - initial_new_messages_len s else len in
  let '(context, pending) := match pending_messages s with
                             | [] => (context_messages s, [])
                             | pending => context_append (context_messages s) pending
                             end in
  upd (fun s => put_pending pending (put_context context s)) ≫= fun _ =>
  let fresh_messages :=
    clone_messages_for_policy_snapshot (drop fresh_messages_start (cm_messages context)) in
  upd (put_initial_len 0) ≫= fun _ =>
  clear_pending_message_snapshot ≫= fun _ =>
  sync_loop_context_snapshot ≫= fun _ =>
  mret fresh_messages.

(** @src src/loop_/turn.rs:76-98 [run_single_turn, published prefix (brace)] *)
Definition publish_prior_prefix config : M unit :=
  match cfg_cache_config config, cfg_transform_context config with
  | Some _, Some transformer =>
    gets w_cache ≫= fun cache =>
    messages_now ≫= fun messages =>
    let clamped := Nat.min (cached_prefix_len cache) (length messages) in
    modify (fun w => set_host (op_publish transformer clamped (w_host w)) w)
  | _, _ => mret tt
  end.

(** [true]: a policy stopped the run, and [AgentEnd] has been sent.
    @src src/loop_/turn.rs:111-151 [run_single_turn, pre-turn policies] *)
Definition pre_turn_stopped config (fresh_messages : list AgentMessage) : M bool :=
  policy_context fresh_messages ≫= fun policy_ctx =>
  host (run_policies (cfg_pre_turn_policies config) policy_ctx) ≫= fun verdict =>
  match verdict with
  | VContinue => mret false
  | VStop _ => emit_agent_end ≫= fun _ => mret true
  | VInject msgs =>
    upd (fun s => put_context (context_extend msgs (context_messages s)) s) ≫= fun _ =>
    sync_loop_context_snapshot ≫= fun _ =>
    mret false
  end.

(** The annotated messages, the cache state and the event to send.
    @src src/loop_/turn.rs:181-239 [run_single_turn, cache_event (brace)] *)
Definition annotate (cache_config : CacheConfig) (cache : CacheState) (messages : list AgentMessage) :
    list AgentMessage * CacheState * option (CacheHint * N) :=
  let '(hint, cache) := advance_turn cache cache_config in
  let current_len := length messages in
  let prior_prefix := Nat.min (cached_prefix_len cache) current_len in
  let prefix_len := match hint with Write _ => current_len | Read => prior_prefix end in
  let prefix_tokens := sum_by estimate_tokens (take prefix_len messages) in
  if (cc_min_tokens cache_config <=? prefix_tokens)%N && (0 <? prefix_len)%nat then
    (map (set_cache_hint hint) (take prefix_len messages)
       ++ map clear_cache_hint (drop prefix_len messages),
     MkCacheState (turns_since_write cache) prefix_len, Some (hint, prefix_tokens))
  else (map clear_cache_hint messages, cache, None).

(** @src src/loop_/turn.rs:176-257 [run_single_turn, cache annotation (brace)] *)
Definition annotate_cache config : M unit :=
  match cfg_cache_config config with
  | None => mret tt
  | Some cache_config =>
    messages_now ≫= fun messages =>
    gets w_cache ≫= fun cache =>
    let '(messages, cache, cache_event) := annotate cache_config cache messages in
    upd (fun s => put_context (context_make_mut (fun _ => messages) (context_messages s)) s)
    ≫= fun _ => modify (set_cache cache) ≫= fun _ =>
    sync_loop_context_snapshot ≫= fun _ =>
    match cache_event with
    | Some (hint, prefix_tokens) => emit_ (CacheAction hint prefix_tokens)
    | None => mret tt
    end
  end.

(** From the provider's answer on.
    @src src/loop_/turn.rs:325-414 [run_single_turn, from handle_stream_result on (brace)] *)
Definition finish_turn config (system_prompt : string) (stream_result : StreamResult) : M TurnOutcome :=
  handle_stream_result config system_prompt stream_result ≫= fun answer =>
  match answer with
  | None => mret Return
  | Some m =>
    let m := fst (price_assistant_message_with (cfg_catalog config) m (cfg_cost_calculator config)) in
    match am_stop_reason m with
    | Error | Aborted => handle_error_stop config system_prompt m
    | _ =>
      let tool_calls := extract_tool_calls m in
      let m := fst (sanitize_incomplete_tool_calls m) in
      match tool_calls with
      | [] => handle_no_tool_calls config system_prompt m
      | _ => handle_tool_calls config system_prompt m tool_calls
      end
    end
  end.

(** From the provider request to the outcome.
    @src src/loop_/turn.rs:259-414 [run_single_turn, from the dynamic prompt on (brace)] *)
Definition call_provider (fuel : nat) config (system_prompt : string) : M TurnOutcome :=
  build_dynamic_system_prompt_message config ≫= fun dynamic_prompt_injected =>
  messages_now ≫= fun messages =>
  let llm_messages := build_llm_messages config messages dynamic_prompt_injected in
  match cfg_get_api_key config with
  | Some get_key => host (get_key (ms_provider (cfg_model config)))
  | None => mret None
  end ≫= fun api_key =>
  let effective_tools := capability_filter_tools (cfg_model config) (cfg_tools config) in
  let agent_context := MkAgentContext system_prompt [] effective_tools in
  emit (BeforeLlmCall system_prompt llm_messages (cfg_model config)) ≫= fun ok : bool =>
  if negb ok then mret Return else
  stream_with_retry fuel config agent_context llm_messages system_prompt api_key true
  ≫= fun stream_result =>
  match stream_result with
  | ContextOverflow =>
    attempt_overflow_recovery fuel config system_prompt agent_context dynamic_prompt_injected api_key
    ≫= fun recovery =>
    match recovery with
    | Recovered result => finish_turn config system_prompt result
    | Failed outcome => mret outcome
    end
  | _ => finish_turn config system_prompt stream_result
  end.

(** @src src/loop_/turn.rs:27-414 [run_single_turn] *)
Definition run_single_turn (fuel : nat) config (system_prompt : string) : M TurnOutcome :=
  inject_pending ≫= fun fresh_messages =>
  is_cancelled ≫= fun cancelled : bool =>
  if cancelled then handle_cancellation config else
  publish_prior_prefix config ≫= fun _ =>
  st overflow_signal ≫= fun overflow : bool =>
  run_context_transformers config overflow ≫= fun _ =>
  upd (put_overflow_signal false) ≫= fun _ =>
  pre_turn_stopped config fresh_messages ≫= fun stopped : bool =>
  if stopped then mret Return else
  emit TurnStart ≫= fun ok : bool =>
  if negb ok then mret Return else
  annotate_cache config ≫= fun _ =>
  call_provider fuel config system_prompt.

End Turn.

(** ** The loop: [run_loop_inner] of [src/loop_/mod.rs]

    The inner loop over turns and the outer loop over follow-ups, as one
    fixpoint over the turns left in its fuel. *)
Open Scope list_scope.

Section AgentLoop.
Context `{E : Ext} {H : Type} `{X : !ToolExecutor H}.
Implicit Types (config : AgentLoopConfig H).

#[local] Abbreviation M := (Prog (World H)).

(** @src src/loop_/mod.rs:171-193 [run_loop_inner, initial state (brace)] *)
Definition initial_state config (initial_messages : list AgentMessage)
    (initial_new_messages_len : nat) : LoopState :=
  let transfer_chain := default chain_default (cfg_transfer_chain config) in
  let transfer_chain := match cfg_agent_name config with
                        | Some name => fst (chain_push transfer_chain name)
                        | None => transfer_chain
                        end in
  MkLoopState (context_new initial_messages) [] initial_new_messages_len false false 0
    usage_default cost_default None [] transfer_chain false.

(** [state.pending_messages.extend(msgs)] and its pause snapshot. *)
Definition queue_messages (msgs : list AgentMessage) : M unit :=
  extend_pending msgs ≫= fun _ => sync_pending_message_snapshot.

(** The end of a run: [AgentEnd] with the whole history. *)
Definition finish_run : M unit :=
  messages_now ≫= fun messages => emit_ (AgentEnd messages).

(** After the inner loop; [true] continues the outer loop.
    @src src/loop_/mod.rs:234-297 [run_loop_inner, after the inner loop (brace)] *)
Definition after_inner config : M bool :=
  policy_context [] ≫= fun policy_ctx =>
  host (run_post_loop_policies (cfg_post_loop_policies config) policy_ctx) ≫= fun verdict =>
  match verdict with
  | VStop _ => finish_run ≫= fun _ => mret false
  | VInject msgs => queue_messages msgs ≫= fun _ => mret true
  | VContinue =>
    match cfg_message_provider config with
    | Some provider =>
      host (poll_follow_up provider) ≫= fun msgs =>
      match msgs with
      | [] => finish_run ≫= fun _ => mret false
      | _ => queue_messages msgs ≫= fun _ => mret true
      end
    | None => finish_run ≫= fun _ => mret false
    end
  end.

Definition next_turn : M unit := upd (fun s => put_turn_index (S (turn_index s)) s).

(** Both loops; [turns] bounds the turns still run.
    @src src/loop_/mod.rs:201-299 [run_loop_inner, 'outer (brace)] *)
Fixpoint turns_loop (turns fuel : nat) config (system_prompt : string) : M unit :=
  match turns with
  | 0 => stuck
  | S turns' =>
    run_single_turn fuel config system_prompt ≫= fun turn_result =>
    match turn_result with
    | ContinueInner => next_turn ≫= fun _ => turns_loop turns' fuel config system_prompt
    | BreakInner =>
      next_turn ≫= fun _ =>
      after_inner config ≫= fun again : bool =>
      if again then turns_loop turns' fuel config system_prompt else mret tt
    | Return => mret tt
    end
  end.

(** @src src/loop_/mod.rs:145-302 [run_loop_inner] *)
Definition run_loop_inner (turns fuel : nat) config (initial_messages : list AgentMessage)
    (initial_new_messages_len : nat) (system_prompt : string) : M unit :=
  modify (set_state (initial_state config initial_messages initial_new_messages_len)) ≫= fun _ =>
  emit AgentStart ≫= fun ok : bool =>
  if negb ok then mret tt else turns_loop turns fuel config system_prompt.

End AgentLoop.
