(* ===== verification/ToolGroups.v ===== *)
(** * Execution groups: [src/loop_/tool_dispatch/execute.rs]

    How a batch of prepared calls is cut into groups that run one after the
    other, for each [ToolExecutionPolicy], and the check of the partition a
    custom strategy returns. *)
From S2P Require Export LoopWorld.
From stdpp Require Import sorting pretty.
Open Scope list_scope.

(** ** The check of a custom partition *)

(** One group; [seen] maps each prepared index to its place.
    @src src/loop_/tool_dispatch/execute.rs:110-127 [validate_custom_execution_groups, one group] *)
Fixpoint check_positions (group_idx position : nat) (group : list nat)
    (seen : list (option (nat * nat))) : result (list (option (nat * nat))) string :=
  match group with
  | [] => Ok seen
  | prepared_idx :: group' =>
    match seen !! prepared_idx with
    | None =>
      Err ("group " ++ pretty group_idx ++ " position " ++ pretty position
             ++ " referenced prepared index " ++ pretty prepared_idx
             ++ ", but the prepared tool-call slice has length " ++ pretty (length seen))%string
    | Some (Some (previous_group, previous_position)) =>
      Err ("group " ++ pretty group_idx ++ " position " ++ pretty position
             ++ " repeated prepared index " ++ pretty prepared_idx
             ++ ", which was already assigned at group " ++ pretty previous_group
             ++ " position " ++ pretty previous_position)%string
    | Some None =>
      check_positions group_idx (S position) group' (<[prepared_idx := Some (group_idx, position)]> seen)
    end
  end.

(** @src src/loop_/tool_dispatch/execute.rs:109-128 [validate_custom_execution_groups, all groups] *)
Fixpoint check_groups (group_idx : nat) (groups : list (list nat))
    (seen : list (option (nat * nat))) : result (list (option (nat * nat))) string :=
  match groups with
  | [] => Ok seen
  | group :: groups' =>
    seen <-? check_positions group_idx 0 group seen ;;
    check_groups (S group_idx) groups' seen
  end.

(** The indices not seen, from [i] on. *)
Fixpoint missing_from (i : nat) (seen : list (option (nat * nat))) : list nat :=
  match seen with
  | [] => []
  | None :: seen' => i :: missing_from (S i) seen'
  | Some _ :: seen' => missing_from (S i) seen'
  end.

(** @src src/loop_/tool_dispatch/execute.rs:103-143 [validate_custom_execution_groups] *)
Definition validate_custom_execution_groups (groups : list (list nat)) (prepared_len : nat) :
    result unit string :=
  seen <-? check_groups 0 groups (replicate prepared_len None) ;;
  match missing_from 0 seen with
  | [] => Ok tt
  | missing => Err ("the custom strategy omitted prepared indices "
                      ++ Externals.join ", " (map (fun i : nat => pretty i) missing))%string
  end.

(** ** Priorities *)

(** [sort_by_key] with the descending key: stable. *)
Fixpoint insert_scored (x : nat * Z) (l : list (nat * Z)) : list (nat * Z) :=
  match l with
  | [] => [x]
  | y :: l' => if (snd y <=? snd x)%Z then x :: l else y :: insert_scored x l'
  end.

Definition sort_scored (l : list (nat * Z)) : list (nat * Z) := foldr insert_scored [] l.

(** [groups.last_mut().push(i)] *)
Fixpoint push_last (i : nat) (groups : list (list nat)) : list (list nat) :=
  match groups with
  | [] => []
  | [g] => [g ++ [i]]
  | g :: gs => g :: push_last i gs
  end.

(** @src src/loop_/tool_dispatch/execute.rs:67-79 [compute_execution_groups, grouping (brace)] *)
Fixpoint group_scored (groups : list (list nat)) (current_priority : option Z)
    (scored : list (nat * Z)) : list (list nat) :=
  match scored with
  | [] => groups
  | (prep_idx, priority) :: scored' =>
    if bool_decide (current_priority = Some priority)
    then group_scored (push_last prep_idx groups) current_priority scored'
    else group_scored (groups ++ [[prep_idx]]) (Some priority) scored'
  end.

Section Groups.
Context `{E : Ext} {H : Type}.

#[local] Abbreviation M := (Prog (World H)).

(** @src src/loop_/tool_dispatch/mod.rs:31-36 [PreparedToolCall] *)
Record PreparedToolCall := MkPrepared {
  p_idx : nat;
  p_effective_arguments : Value;
}.

(** [None]: [tool_calls[prep.idx]] is out of bounds.
    @src src/loop_/tool_dispatch/execute.rs:56-60 [compute_execution_groups, summary] *)
Definition summary (tool_calls : list ToolCallInfo) (prep : PreparedToolCall) : option ToolCallSummary :=
  tc ← tool_calls !! p_idx prep;
  Some (MkToolCallSummary (tci_id tc) (tci_name tc) (p_effective_arguments prep)).

(** @src src/loop_/tool_dispatch/execute.rs:38-101 [compute_execution_groups] *)
Definition compute_execution_groups (policy : ToolExecutionPolicy H) (tool_calls : list ToolCallInfo)
    (prepared : list PreparedToolCall) : M (result (list (list nat)) string) :=
  match prepared with
  | [] => mret (Ok [])
  | _ =>
    match policy with
    | Concurrent => mret (Ok [seq 0 (length prepared)])
    | Sequential => mret (Ok (map (fun i => [i]) (seq 0 (length prepared))))
    | Priority priority_fn =>
      match mapM (summary tool_calls) prepared with
      | None => stuck
      | Some summaries =>
        let scored := imap (fun i s => (i, priority_fn s)) summaries in
        mret (Ok (group_scored [] None (sort_scored scored)))
      end
    | CustomStrategy partition =>
      match mapM (summary tool_calls) prepared with
      | None => stuck
      | Some summaries =>
        host (partition summaries) ≫= fun groups =>
        mret (validate_custom_execution_groups groups (length prepared) ;;? Ok groups)
      end
    end
  end.

End Groups.

(** ** The check accepts exactly the partitions *)

Definition is_seen (seen : list (option (nat * nat))) (i : nat) : Prop :=
  exists place, seen !! i = Some (Some place).

Lemma is_seen_insert seen i place j :
  i < length seen -> is_seen (<[i := Some place]> seen) j <-> j = i \/ is_seen seen j.
Proof.
  intros Hi. unfold is_seen. destruct (decide (i = j)) as [->|Hne].
  - rewrite list_lookup_insert_eq by done. naive_solver.
  - rewrite list_lookup_insert_ne by done. naive_solver.
Qed.

(** [group] can be added to [seen]: no repetition, in bounds, not seen before. *)
Definition fresh_group (group : list nat) (seen : list (option (nat * nat))) : Prop :=
  NoDup group /\ forall i, i ∈ group -> i < length seen /\ ~ is_seen seen i.

(** [seen'] is [seen] with [group] added. *)
Definition marks (group : list nat) (seen seen' : list (option (nat * nat))) : Prop :=
  length seen' = length seen /\ forall i, is_seen seen' i <-> i ∈ group \/ is_seen seen i.

Lemma fresh_group_app g h seen seen' :
  marks g seen seen' -> fresh_group (g ++ h) seen <-> fresh_group g seen /\ fresh_group h seen'.
Proof.
  intros [Hl Hs]. unfold fresh_group. rewrite Hl, NoDup_app. setoid_rewrite elem_of_app.
  setoid_rewrite Hs. naive_solver.
Qed.

Lemma marks_app g h seen1 seen2 seen3 :
  marks g seen1 seen2 -> marks h seen2 seen3 -> marks (g ++ h) seen1 seen3.
Proof. intros [Hl1 H1] [Hl2 H2]. split; [congruence|]. intros i. rewrite H2, H1. set_solver. Qed.

(** What a check of [group] over [seen] comes to. *)
Definition checks (group : list nat) (seen : list (option (nat * nat)))
    (r : result (list (option (nat * nat))) string) : Prop :=
  match r with
  | Ok seen' => fresh_group group seen /\ marks group seen seen'
  | Err _ => ~ fresh_group group seen
  end.

Lemma checks_app g h seen (r : result _ string) (k : list (option (nat * nat)) -> result _ string) :
  checks g seen r -> (forall seen', r = Ok seen' -> checks h seen' (k seen')) ->
  checks (g ++ h) seen (result_bind r k).
Proof.
  intros Hr Hk. destruct r as [seen'|e]; cbn.
  - destruct Hr as [Hf Hm]. specialize (Hk _ eq_refl). unfold checks in *. destruct (k seen').
    + rewrite fresh_group_app by done. destruct Hk. split; [done|by eapply marks_app].
    + rewrite fresh_group_app by done. tauto.
  - cbn in Hr. intros [Hnd Hb]. apply Hr. rewrite NoDup_app in Hnd. split; [tauto|]. set_solver.
Qed.

Lemma checks_nil seen : checks [] seen (Ok seen).
Proof. split; [split; [constructor|set_solver]|]. split; [done|set_solver]. Qed.

Lemma check_positions_spec g k group seen : checks group seen (check_positions g k group seen).
Proof.
  revert k seen. induction group as [|i group IH]; intros k seen; cbn [check_positions].
  { apply checks_nil. }
  destruct (seen !! i) as [[[pg pp]|]|] eqn:Hi.
  - intros [_ Hg]. destruct (Hg i ltac:(set_solver)) as [_ []]. by eexists.
  - assert (Hlen : i < length seen) by by eapply lookup_lt_Some.
    apply (checks_app [i] group seen (Ok (<[i:=Some (g, k)]> seen)) (check_positions g (S k) group)).
    + split; [split|split].
      * apply NoDup_singleton.
      * intros j ->%list_elem_of_singleton. split; [done|]. unfold is_seen. naive_solver.
      * apply length_insert.
      * intros j. rewrite is_seen_insert by done. set_solver.
    + intros seen' [= <-]. apply IH.
  - intros [_ Hg]. destruct (Hg i ltac:(set_solver)) as [Hlt _].
    apply lookup_lt_is_Some in Hlt as [? ?]. congruence.
Qed.

Lemma check_groups_spec g groups seen : checks (concat groups) seen (check_groups g groups seen).
Proof.
  revert g seen. induction groups as [|group groups IH]; intros g seen; cbn [check_groups concat].
  - apply checks_nil.
  - apply checks_app; [apply check_positions_spec|]. intros. apply IH.
Qed.

Lemma elem_of_missing i j seen :
  j ∈ missing_from i seen <-> i <= j /\ seen !! (j - i) = Some None.
Proof.
  revert i. induction seen as [|[p|] seen IH]; intros i; cbn [missing_from].
  - rewrite lookup_nil. set_solver.
  - rewrite IH. destruct (decide (j = i)) as [->|Hne].
    + replace (i - i) with 0 by lia. split; [lia|naive_solver].
    + destruct (decide (S i <= j)).
      * replace (j - i) with (S (j - S i)) by lia. cbn. split; (intros []; split; [lia|done]).
      * split; [lia|]. intros [? ?]. lia.
  - rewrite elem_of_cons, IH. destruct (decide (j = i)) as [->|Hne].
    + replace (i - i) with 0 by lia. split; [done|]. by left.
    + destruct (decide (S i <= j)).
      * replace (j - i) with (S (j - S i)) by lia. cbn. split; [intros [?|[]]; [done|split; [lia|done]]|].
        intros []. right. split; [lia|done].
      * split; [intros [?|[]]; lia|]. intros [? ?]. lia.
Qed.

Lemma validate_ok groups n :
  validate_custom_execution_groups groups n = Ok tt <-> concat groups ≡ₚ seq 0 n.
Proof.
  unfold validate_custom_execution_groups.
  pose proof (check_groups_spec 0 groups (replicate n None)) as Hc.
  assert (Hnone : forall i, ~ is_seen (replicate n None) i).
  { intros i [p Hp]. by apply lookup_replicate in Hp as [? ?]. }
  unfold checks, fresh_group, marks in Hc. rewrite length_replicate in Hc.
  destruct (check_groups 0 groups (replicate n None)) as [seen|e]; cbn.
  - destruct Hc as [[Hnd Hb] [Hl Hs]]. transitivity (missing_from 0 seen = []).
    { destruct (missing_from 0 seen); naive_solver. }
    split.
    + intros Hm. apply NoDup_Permutation; [done|apply NoDup_seq|]. intros i. rewrite elem_of_seq.
      split; [intros Hi; destruct (Hb i Hi); lia|]. intros [_ Hi].
      assert (is_seen seen i) as Hseen.
      { destruct (seen !! i) as [[p|]|] eqn:Hsi; [by exists p| |].
        - assert (i ∈ missing_from 0 seen) as Hin by (apply elem_of_missing; split; [lia|]; by rewrite Nat.sub_0_r).
          rewrite Hm in Hin. by apply not_elem_of_nil in Hin.
        - apply lookup_ge_None in Hsi. lia. }
      apply Hs in Hseen as [|Hseen]; [done|by destruct (Hnone i)].
    + intros Hp. destruct (missing_from 0 seen) as [|i l] eqn:Hm; [done|].
      assert (i ∈ missing_from 0 seen) as [_ Hi]%elem_of_missing by (rewrite Hm; set_solver).
      rewrite Nat.sub_0_r in Hi. assert (is_seen seen i) as [p ?]; [|congruence].
      apply Hs. left. rewrite Hp. apply elem_of_seq. apply lookup_lt_Some in Hi. lia.
  - split; [done|]. intros Hp. destruct Hc. rewrite Hp. split; [apply NoDup_seq|].
    intros i Hi. rewrite Hp, elem_of_seq in Hi. split; [lia|apply Hnone].
Qed.

(** ** The priority order *)

(** Higher score first, then the model's order. *)
Definition before (x y : nat * Z) : Prop :=
  (snd y < snd x)%Z \/ (snd x = snd y /\ fst x < fst y).

Lemma insert_scored_perm x l : insert_scored x l ≡ₚ x :: l.
Proof.
  induction l as [|y l IH]; cbn; [done|]. destruct (Z.leb_spec (snd y) (snd x)); [done|].
  rewrite IH. apply Permutation_swap.
Qed.

Lemma insert_scored_sorted x l :
  StronglySorted before l -> Forall (fun y => fst x < fst y) l -> StronglySorted before (insert_scored x l).
Proof.
  induction l as [|y l IH]; cbn; intros Hs Hx; [by repeat constructor|].
  apply StronglySorted_cons in Hs as [Hy Hs]. apply Forall_cons in Hx as [Hxy Hx].
  destruct (Z.leb_spec (snd y) (snd x)).
  - rewrite !StronglySorted_cons. split_and!; [|done..]. apply Forall_cons. split; [unfold before; lia|].
    rewrite Forall_forall in Hy, Hx |- *. intros z Hz. specialize (Hy z Hz). specialize (Hx z Hz).
    unfold before in *. lia.
  - rewrite StronglySorted_cons. split; [|by apply IH]. rewrite insert_scored_perm. apply Forall_cons.
    split; [left; lia|done].
Qed.

Lemma sort_scored_spec l :
  StronglySorted (fun x y => fst x < fst y) l -> sort_scored l ≡ₚ l /\ StronglySorted before (sort_scored l).
Proof.
  induction l as [|x l IH]; cbn; [by repeat constructor|].
  rewrite StronglySorted_cons. intros [Hx Hs]. destruct (IH Hs) as [Hp Hss].
  split; [by rewrite insert_scored_perm, Hp|]. apply insert_scored_sorted; [done|].
  unfold sort_scored in Hp. by rewrite Hp.
Qed.

Lemma push_last_snoc i gs g : push_last i (gs ++ [g]) = gs ++ [g ++ [i]].
Proof.
  induction gs as [|h gs IH]; [done|]. cbn. rewrite IH. by destruct gs.
Qed.

(** Equal scores within a group, lower ones in later groups, the model's order kept. *)
Definition ordered_groups (score : nat -> Z) (groups : list (list nat)) : Prop :=
  Forall (fun g => g <> [] /\ StronglySorted lt g /\ forall i j, i ∈ g -> j ∈ g -> score i = score j) groups
  /\ StronglySorted (fun g h => forall i j, i ∈ g -> j ∈ h -> (score j < score i)%Z) groups.

(** The last group, if any, has the current priority. *)
Definition current_of (score : nat -> Z) (groups : list (list nat)) (current : option Z) : Prop :=
  match current with
  | None => groups = []
  | Some p => exists gs g, groups = gs ++ [g] /\ forall i, i ∈ g -> score i = p
  end.

Definition follows (score : nat -> Z) (i j : nat) : Prop :=
  (score j < score i)%Z \/ (score i = score j /\ i < j).

Lemma group_scored_spec score scored groups current :
  StronglySorted (follows score) (concat groups ++ map fst scored) ->
  Forall (fun x => score (fst x) = snd x) scored ->
  ordered_groups score groups -> current_of score groups current ->
  ordered_groups score (group_scored groups current scored)
  /\ concat (group_scored groups current scored) = concat groups ++ map fst scored.
Proof.
  revert groups current. induction scored as [|[i p] scored IH]; intros groups current Hs Hsc Ho Hc;
    cbn [group_scored map]; [by rewrite app_nil_r|].
  apply Forall_cons in Hsc as [Hi Hsc]. cbn in Hi, Hs. destruct Ho as [Hall Hlt].
  assert (Hbefore : forall j, j ∈ concat groups -> follows score j i).
  { intros j Hj. eapply StronglySorted_app_1_elem_of; [exact Hs|done|set_solver]. }
  case_bool_decide as Hcur.
  - destruct current as [q|]; [|done]. injection Hcur as ->. destruct Hc as (gs & g & -> & Hg).
    rewrite push_last_snoc. apply Forall_app in Hall as [Hall1 Hall2].
    apply Forall_cons in Hall2 as [(Hne & Hsort & Heq) _]. apply StronglySorted_app in Hlt as (Hlt1 & Hlt2 & _).
    assert (Hc' : concat (gs ++ [g ++ [i]]) = concat (gs ++ [g]) ++ [i]) by (rewrite !concat_app; cbn; by rewrite !app_nil_r, app_assoc).
    destruct (IH (gs ++ [g ++ [i]]) (Some p)) as [Ho' Hcc].
    + rewrite Hc', <- app_assoc. exact Hs.
    + done.
    + split.
      * apply Forall_app. split; [done|]. apply Forall_singleton. split_and!; [by destruct g| |].
        -- apply StronglySorted_app. split_and!; [|done|by repeat constructor].
           intros j k Hj ->%list_elem_of_singleton. specialize (Hg j Hj).
           destruct (Hbefore j) as [|[]]; [rewrite concat_app; set_solver|lia|done].
        -- assert (forall j, j ∈ g ++ [i] -> score j = p) as Hp by set_solver. intros. by rewrite !Hp.
      * apply StronglySorted_app. split_and!; [|done|by repeat constructor].
        intros h k Hh ->%list_elem_of_singleton a b Ha Hb.
        destruct g as [|g0 g']; [done|]. specialize (Hlt1 h (g0 :: g') Hh ltac:(set_solver) a g0 Ha ltac:(set_solver)).
        assert (score b = p) as -> by set_solver. rewrite (Hg g0) in Hlt1 by set_solver. done.
    + exists gs, (g ++ [i]). split; [done|]. set_solver.
    + split; [done|]. rewrite Hcc, Hc', <- app_assoc. done.
  - assert (Hc' : concat (groups ++ [[i]]) = concat groups ++ [i]) by (rewrite concat_app; done).
    destruct (IH (groups ++ [[i]]) (Some p)) as [Ho' Hcc].
    + rewrite Hc', <- app_assoc. exact Hs.
    + done.
    + split.
      * apply Forall_app. split; [done|]. apply Forall_singleton. split_and!; [done|by repeat constructor|set_solver].
      * apply StronglySorted_app. split_and!; [|done|by repeat constructor].
        intros h k Hh ->%list_elem_of_singleton a b Ha ->%list_elem_of_singleton.
        destruct (Hbefore a) as [|[Heq _]]; [apply elem_of_concat; eauto|done|]. exfalso.
        destruct current as [q|]; [|cbn in Hc; subst; set_solver]. destruct Hc as (gs & g & -> & Hg).
        apply Forall_app in Hall as [_ [(Hne & _ & _) _]%Forall_cons].
        apply StronglySorted_app in Hlt as (Hlt1 & _ & _).
        apply elem_of_app in Hh as [Hh|Hh%list_elem_of_singleton].
        -- destruct g as [|g0 g']; [done|]. specialize (Hlt1 h (g0 :: g') Hh ltac:(set_solver) a g0 Ha ltac:(set_solver)).
           destruct (Hbefore g0) as [|[]]; [rewrite concat_app; set_solver|lia|lia].
        -- subst h. rewrite (Hg a Ha) in Heq. congruence.
    + exists groups, [i]. split; [done|]. set_solver.
    + split; [done|]. rewrite Hcc, Hc', <- app_assoc. done.
Qed.

Section Spec.
Context `{E : Ext} {H : Type}.

Lemma imap_increasing {A} (f : A -> Z) (l : list A) k :
  StronglySorted (fun x y => fst x < fst y) (imap (fun i s => (k + i, f s)) l)
  /\ Forall (fun x => k <= fst x) (imap (fun i s => (k + i, f s)) l).
Proof.
  revert k. induction l as [|a l IH]; intros k; [by repeat constructor|].
  rewrite imap_cons. destruct (IH (S k)) as [Hs Hf].
  assert (imap ((fun i s => (k + i, f s)) ∘ S) l = imap (fun i s => (S k + i, f s)) l) as ->.
  { apply imap_ext. intros i x _. cbn. f_equal. lia. }
  cbn. split.
  - apply StronglySorted_cons. split; [|done]. eapply Forall_impl; [exact Hf|]. cbn. lia.
  - apply Forall_cons. split; [cbn; lia|]. eapply Forall_impl; [exact Hf|]. cbn. lia.
Qed.

Lemma sorted_fst_follows score (l : list (nat * Z)) :
  Forall (fun x => score (fst x) = snd x) l -> StronglySorted before l ->
  StronglySorted (follows score) (map fst l).
Proof.
  induction l as [|x l IH]; [constructor|]. rewrite Forall_cons, StronglySorted_cons. intros [Hx Hl] [Hb Hs].
  cbn. apply StronglySorted_cons. split; [|by apply IH]. apply Forall_forall. rewrite Forall_forall in Hb, Hl.
  intros j (y & -> & Hy)%list_elem_of_fmap. specialize (Hb y Hy). specialize (Hl y Hy).
  unfold before, follows in *. rewrite Hx, Hl. lia.
Qed.

(** What a priority policy comes to. *)
Lemma priority_groups (f : ToolCallSummary -> Z) (summaries : list ToolCallSummary) :
  exists score, (forall i s, summaries !! i = Some s -> score i = f s)
  /\ let groups := group_scored [] None (sort_scored (imap (fun i s => (i, f s)) summaries)) in
     ordered_groups score groups /\ concat groups ≡ₚ seq 0 (length summaries).
Proof.
  set (score := fun i => match summaries !! i with Some s => f s | None => 0%Z end).
  exists score. split; [intros i s Hi; unfold score; by rewrite Hi|]. cbn zeta.
  set (l := imap (fun i s => (i, f s)) summaries).
  destruct (imap_increasing f summaries 0) as [Hinc _].
  assert (Hl : imap (fun i s => (0 + i, f s)) summaries = l) by done. rewrite Hl in Hinc.
  destruct (sort_scored_spec l Hinc) as [Hp Hs].
  assert (Hsc : Forall (fun x => score (fst x) = snd x) l).
  { apply Forall_forall. intros [i z] Hin. apply list_elem_of_lookup in Hin as [k Hk].
    unfold l in Hk. rewrite list_lookup_imap in Hk. destruct (summaries !! k) eqn:Hsk; [|done].
    injection Hk as <- <-. cbn. unfold score. by rewrite Hsk. }
  rewrite <- Hp in Hsc.
  destruct (group_scored_spec score (sort_scored l) [] None) as [Ho Hc].
  { cbn. by apply sorted_fst_follows. }
  { done. }
  { split; constructor. }
  { done. }
  split; [exact Ho|]. rewrite Hc. cbn. rewrite Hp. unfold l.
  assert (map fst (imap (fun i s => (i, f s)) summaries) = seq 0 (length summaries)) as ->; [|done].
  apply list_eq. intros i. rewrite list_lookup_fmap, list_lookup_imap.
  destruct (summaries !! i) eqn:Hi.
  - cbn. symmetry. apply lookup_seq. split; [done|by eapply lookup_lt_Some].
  - cbn. symmetry. apply lookup_ge_None in Hi. by apply lookup_seq_ge.
Qed.

Lemma concat_singletons (l : list nat) : concat (map (fun i => [i]) l) = l.
Proof. induction l; cbn; congruence. Qed.

(** How a batch of prepared calls is cut into groups: every policy's groups hold
    each prepared call exactly once; [Concurrent] makes one group, [Sequential]
    singletons in the model's order, [Priority] groups of equal priority, from
    the highest to the lowest, each in the model's order; and a [Custom]
    strategy's groups are used as they are when they form a partition and
    refused otherwise. *)
Lemma execution_groups_partition policy calls prepared (w : World H) r w' :
  compute_execution_groups policy calls prepared w = Some (r, w') ->
  let n := length prepared in
  (forall groups, r = Ok groups -> concat groups ≡ₚ seq 0 n)
  /\ (prepared <> [] ->
      match policy with
      | Concurrent => r = Ok [seq 0 n]
      | Sequential => r = Ok (map (fun i => [i]) (seq 0 n))
      | Priority f => exists groups score, r = Ok groups /\ ordered_groups score groups
          /\ forall i p s, prepared !! i = Some p -> summary calls p = Some s -> score i = f s
      | CustomStrategy partition => exists summaries, mapM (summary calls) prepared = Some summaries
          /\ let groups := fst (partition summaries (w_host w)) in
             (concat groups ≡ₚ seq 0 n -> r = Ok groups)
             /\ (~ concat groups ≡ₚ seq 0 n -> exists reason, r = Err reason)
      end).
Proof.
  intros Hrun n. unfold compute_execution_groups in Hrun.
  destruct prepared as [|p0 prepared']; [injection Hrun as <- <-; naive_solver|].
  set (prepared := p0 :: prepared') in *. destruct policy as [| |f|partition].
  - injection Hrun as <- <-. split; [|done]. intros groups [= <-]. cbn. by rewrite app_nil_r.
  - injection Hrun as <- <-. split; [|done]. intros groups [= <-].
    apply reflexive_eq, (concat_singletons (seq 0 n)).
  - destruct (mapM (summary calls) prepared) as [summaries|] eqn:Hm; [|done]. injection Hrun as <- <-.
    pose proof (length_mapM _ _ _ Hm) as Hlen.
    destruct (priority_groups f summaries) as (score & Hscore & Hord & Hperm). split.
    + intros groups [= <-]. unfold n. rewrite Hlen. exact Hperm.
    + intros _. eexists _, score. split_and!; [done|exact Hord|]. intros i p s Hp Hs.
      apply Hscore. apply mapM_Some in Hm. destruct (Forall2_lookup_l _ _ _ _ _ Hm Hp) as (s' & Hs' & Heq).
      congruence.
  - destruct (mapM (summary calls) prepared) as [summaries|] eqn:Hm; [|done].
    unfold host, mbind, prog_bind in Hrun. destruct (partition summaries (w_host w)) as [groups h] eqn:Hpart.
    injection Hrun as <- <-. change (S (length prepared')) with n. pose proof (validate_ok groups n) as Hv.
    destruct (validate_custom_execution_groups groups n) as [[]|e]; cbn [result_bind].
    + destruct Hv as [Hv _]. specialize (Hv eq_refl). split; [intros g Hg; by simplify_eq|]. intros _.
      exists summaries. rewrite Hpart. cbn [fst]. tauto.
    + split; [done|]. intros _. exists summaries. rewrite Hpart. cbn [fst].
      split_and!; [done| |by eexists]. intros Hp. by apply Hv in Hp.
Qed.

(** It returns when the prepared calls refer to calls of the batch. *)
Lemma compute_execution_groups_returns policy calls prepared (w : World H) :
  Forall (fun p => p_idx p < length calls) prepared ->
  twp (compute_execution_groups policy calls prepared) (fun _ _ => True) w.
Proof.
  intros Hp. unfold compute_execution_groups. destruct prepared as [|p0 prepared']; [done|].
  assert (is_Some (mapM (summary calls) (p0 :: prepared'))) as [summaries Hm].
  { apply mapM_is_Some. eapply Forall_impl; [exact Hp|]. intros p Hlt. cbn in Hlt.
    apply lookup_lt_is_Some in Hlt as [tc Htc]. unfold compose, summary. rewrite Htc. by eexists. }
  rewrite Hm. destruct policy; try done. unfold twp, host, mbind, prog_bind.
  by destruct (partition summaries (w_host w)).
Qed.

End Spec.

#[local] Existing Instance Toy.ext.

(** Two priorities over three calls. *)
Definition demo_calls : list ToolCallInfo :=
  [MkToolCallInfo "a" "low" (Toy.JObj "") false; MkToolCallInfo "b" "high" (Toy.JObj "") false;
   MkToolCallInfo "c" "low" (Toy.JObj "") false].

Definition demo_prepared : list PreparedToolCall :=
  [MkPrepared 0 (Toy.JObj ""); MkPrepared 1 (Toy.JObj ""); MkPrepared 2 (Toy.JObj "")].

Definition demo_policy : ToolExecutionPolicy unit :=
  Priority (fun s => if String.eqb (tcs_name s) "high" then 1%Z else 0%Z).

Lemma execution_groups_partition_witness :
  exists groups, concat groups ≡ₚ seq 0 3 /\ length groups = 2 /\ groups = [[1]; [0; 2]].
Proof.
  set (w := MkWorld (H := unit) (MkLoopState (context_new []) [] 0 false false 0 usage_default
    cost_default None [] chain_default false) [] None None session_new cache_state_new [] None [] [] tt).
  destruct (execution_groups_partition demo_policy demo_calls demo_prepared w (Ok [[1]; [0; 2]]) w
    eq_refl) as [Hp _].
  exists [[1]; [0; 2]]. split_and!; [by apply Hp|reflexivity..].
Defined.
