(* ===== verification/ToolDispatch.v ===== *)
(** * Tool dispatch: [src/loop_/tool_dispatch/]

    A batch of tool calls from the model to its results: pre-dispatch policies
    and the approval gate, execution groups, one task per call, and the
    collection of results with the steering, transfer and cancellation
    interrupts.

    The tasks of a group are a pool of small state machines, one constructor
    of [TaskState] per await point of the spawned future.  Between its own
    actions the dispatcher yields; a yield takes the next entry of the world's
    schedule, which says which tasks take a step, one after the other, and
    which of the finished ones is joined next.  When the schedule has run out,
    a dispatcher that waits runs the first task to its end.  A task that
    outlives the cancellation grace has no further effect. *)
From S2P Require Export ToolGroups TurnParts.
Open Scope list_scope.

Section Dispatch.
Context `{E : Ext} {H : Type}.
Implicit Types (config : AgentLoopConfig H).

(** ** Tasks *)

(** Where a spawned call is; [Exited] carries the payload of a panic.
    @src src/loop_/tool_dispatch/execute.rs:193-333 [dispatch_single_tool, spawned future (brace)] *)
Inductive TaskState :=
| Spawned (arguments : Value) (validation : result unit (list string))
| Executing (arguments : Value) (credential : option ResolvedCredential)
| Updating (partials : list AgentToolResult) (tool_end : ToolEnd)
| Timing (r : AgentToolResult) (is_error : bool)
| Signalling (r : AgentToolResult) (is_error : bool)
| Ending (r : AgentToolResult) (is_error : bool)
| Reporting (r : AgentToolResult) (is_error : bool)
| Checking
| Exited (panic : option string).

Record Task := MkTask {
  t_idx : nat;
  t_call : ToolCallInfo;
  t_tool : AgentTool H;
  t_state : TaskState;
}.

Definition task_to (t : Task) (s : TaskState) : Task := MkTask (t_idx t) (t_call t) (t_tool t) s.

(** ** The state shared by a batch *)

(** @src src/loop_/tool_dispatch/mod.rs:111-122 [execute_tools_concurrently, shared state] *)
Record Batch := MkBatch {
  b_results : list (nat * ToolResultMessage);
  b_timings : list ToolExecMetrics;
  b_steering : bool;
  b_transfer : bool;
  b_signal : option TransferSignal;
  b_cancelled : bool;
  b_tasks : list Task;
}.

Definition batch_new : Batch := MkBatch [] [] false false None false [].

Definition add_result (r : nat * ToolResultMessage) (b : Batch) : Batch :=
  MkBatch (b_results b ++ [r]) (b_timings b) (b_steering b) (b_transfer b) (b_signal b)
    (b_cancelled b) (b_tasks b).
Definition add_timing (t : ToolExecMetrics) (b : Batch) : Batch :=
  MkBatch (b_results b) (b_timings b ++ [t]) (b_steering b) (b_transfer b) (b_signal b)
    (b_cancelled b) (b_tasks b).
Definition detect_steering (b : Batch) : Batch :=
  MkBatch (b_results b) (b_timings b) true (b_transfer b) (b_signal b) (b_cancelled b) (b_tasks b).
(** The first signal wins. *)
Definition detect_transfer (signal : option TransferSignal) (b : Batch) : Batch :=
  MkBatch (b_results b) (b_timings b) (b_steering b) true
    (match b_signal b with Some s => Some s | None => signal end) (b_cancelled b) (b_tasks b).
Definition cancel_batch (b : Batch) : Batch :=
  MkBatch (b_results b) (b_timings b) (b_steering b) (b_transfer b) (b_signal b) true (b_tasks b).
Definition set_tasks (ts : list Task) (b : Batch) : Batch :=
  MkBatch (b_results b) (b_timings b) (b_steering b) (b_transfer b) (b_signal b) (b_cancelled b) ts.

#[local] Abbreviation M := (Prog (World H)).
Abbreviation D := (Prog (World H * Batch)).

(** A step of the loop's world inside a batch. *)
Definition lift {A} (m : M A) : D A := fun '(w, b) =>
  match m w with Some (a, w') => Some (a, (w', b)) | None => None end.

Definition batch_get {A} (f : Batch -> A) : D A := gets (fun wb => f (snd wb)).
Definition batch_upd (f : Batch -> Batch) : D unit := modify (fun wb => (fst wb, f (snd wb))).

(** [batch_token.is_cancelled()] *)
Definition batch_is_cancelled : D bool :=
  batch_get b_cancelled ≫= fun c : bool => if c then mret true else lift is_cancelled.

(** ** Credentials *)

(** @src src/loop_/tool_dispatch/execute.rs:344-386 [resolve_credential] *)
Definition resolve_credential config (tool : AgentTool H) :
    M (result (option ResolvedCredential) CredentialError) :=
  match td_auth_config tool with
  | None => mret (Ok None)
  | Some auth_config =>
    let key := credential_key auth_config in
    match cfg_credential_resolver config with
    | None => mret (Err (CredNotFound key))
    | Some resolve =>
      host (resolve key) ≫= fun answer =>
      mret match answer with
           | None => Err (CredTimeout key)
           | Some (Err e) => Err e
           | Some (Ok credential) =>
             if bool_decide (resolved_type credential = credential_type auth_config)
             then Ok (Some credential)
             else Err (CredTypeMismatch key (credential_type auth_config) (resolved_type credential))
           end
    end
  end.

(** The tool runs on the shared session state.
    @src src/loop_/tool_dispatch/execute.rs:238-247 [dispatch_single_tool, tool.execute (brace)] *)
Definition run_tool (t : Task) (arguments : Value) (credential : option ResolvedCredential) :
    M (list AgentToolResult * ToolEnd) :=
  gets w_session ≫= fun session =>
  host (fun h => let '(partials, tool_end, session, h) :=
          td_execute (t_tool t) (tci_id (t_call t)) arguments credential session h in
        ((partials, tool_end, session), h)) ≫= fun '(partials, tool_end, session) =>
  modify (set_session session) ≫= fun _ =>
  mret (partials, tool_end).

(** @src src/loop_/tool_dispatch/execute.rs:316-323 [dispatch_single_tool, tool_result_msg] *)
Definition tool_result_msg (id : string) (r : AgentToolResult) (is_error : bool) (now : N) :
    ToolResultMessage :=
  MkToolResultMessage id (at_content r) is_error now (at_details r) None.

(** One step of a task, to its next await point.
    @src src/loop_/tool_dispatch/execute.rs:193-333 [dispatch_single_tool, spawned future (brace)] *)
Definition task_step config (t : Task) : D TaskState :=
  let id := tci_id (t_call t) in
  let name := tci_name (t_call t) in
  match t_state t with
  | Spawned _ (Err errors) => mret (Timing (validation_error_result errors) true)
  | Spawned arguments (Ok _) =>
    lift (resolve_credential config (t_tool t)) ≫= fun r =>
    mret match r with
         | Err e => Timing (tool_error (credential_error_display e)) true
         | Ok credential => Executing arguments credential
         end
  | Executing arguments credential =>
    lift (run_tool t arguments credential) ≫= fun '(partials, tool_end) =>
    mret (Updating partials tool_end)
  | Updating (partial :: partials) tool_end =>
    lift (emit (ToolExecutionUpdate id name partial)) ≫= fun ok : bool =>
    mret (Updating (if ok then partials else []) tool_end)
  | Updating [] (Returns r) => mret (Timing r (at_is_error r))
  | Updating [] (Panics message) => mret (Exited (Some message))
  | Timing r is_error =>
    batch_upd (add_timing (MkToolExecMetrics name (negb is_error))) ≫= fun _ =>
    mret (Signalling r is_error)
  | Signalling r is_error =>
    when (is_transfer r) (batch_upd (detect_transfer (at_transfer_signal r))) ≫= fun _ =>
    mret (Ending r is_error)
  | Ending r is_error =>
    lift (emit_ (ToolExecutionEnd id name r is_error)) ≫= fun _ =>
    mret (Reporting r is_error)
  | Reporting r is_error =>
    lift (now_timestamp config) ≫= fun now =>
    batch_upd (add_result (t_idx t, tool_result_msg id r is_error now)) ≫= fun _ =>
    mret Checking
  | Checking =>
    match cfg_message_provider config with
    | Some provider =>
      lift (gets (fun w => has_steering provider (w_host w))) ≫= fun steering : bool =>
      when steering (batch_upd detect_steering)
    | None => mret tt
    end ≫= fun _ =>
    mret (Exited None)
  | Exited panic => mret (Exited panic)
  end.

(** ** The scheduler *)

Definition tick config (i : nat) : D unit :=
  batch_get b_tasks ≫= fun ts =>
  match ts !! i with
  | None => mret tt
  | Some t =>
    task_step config t ≫= fun s =>
    batch_upd (fun b => set_tasks (<[i := task_to t s]> (b_tasks b)) b)
  end.

(** An await of the dispatcher: the next entry of the schedule; returns its pick. *)
Definition yield config : D nat :=
  lift (gets w_schedule) ≫= fun schedule =>
  match schedule with
  | [] => mret 0
  | (ticks, pick) :: schedule' =>
    lift (modify (set_schedule schedule')) ≫= fun _ =>
    for_each (tick config) ticks ≫= fun _ =>
    mret pick
  end.

Definition has_exited (t : Task) : bool :=
  match t_state t with Exited _ => true | _ => false end.

(** The [pick]th of the finished tasks, or the first. *)
Definition pick_exited (pick : nat) (ts : list Task) : option nat :=
  let exited := filtermap id (imap (fun i t => if has_exited t then Some i else None) ts) in
  match exited !! pick with Some i => Some i | None => head exited end.

(** The steps a running task still has, once its updates are known. *)
Definition steps_left (t : Task) : nat :=
  match t_state t with Updating partials _ => length partials + 6 | _ => 6 end.

Fixpoint tick_first config (n : nat) : D unit :=
  match n with 0 => mret tt | S n' => tick config 0 ≫= fun _ => tick_first config n' end.

(** Runs the first task to its end. *)
Definition finish_first config : D unit :=
  tick_first config 2 ≫= fun _ =>
  batch_get b_tasks ≫= fun ts =>
  tick_first config (match ts with t :: _ => steps_left t | [] => 0 end).

(** [futs.next()]: a finished task leaves the pool. *)
Definition next_joined config (pick : nat) : D (option Task) :=
  batch_get (fun b => pick_exited pick (b_tasks b)) ≫= fun found =>
  match found with
  | Some i => mret i
  | None => finish_first config ≫= fun _ => mret 0
  end ≫= fun i =>
  batch_get b_tasks ≫= fun ts =>
  batch_upd (set_tasks (delete i ts)) ≫= fun _ =>
  mret (ts !! i).

(** ** Shared helpers *)

(** @src src/loop_/tool_dispatch/shared.rs:25-53 [emit_error_result] *)
Definition emit_error_result config (tool_name tool_call_id : string) (error_result : AgentToolResult)
    (idx : nat) : D unit :=
  lift (emit_ (ToolExecutionEnd tool_call_id tool_name error_result true)) ≫= fun _ =>
  yield config ≫= fun _ =>
  lift (now_timestamp config) ≫= fun now =>
  batch_upd (add_result (idx, MkToolResultMessage tool_call_id (at_content error_result) true now
    json_null None)).

(** [results.iter().map(|(_, r)| (r.tool_call_id, r)).collect()]: the last one wins. *)
Definition result_map (results : list (nat * ToolResultMessage)) : gmap string ToolResultMessage :=
  foldl (fun m r => <[tr_tool_call_id (snd r) := snd r]> m) ∅ results.

(** @src src/loop_/tool_dispatch/mod.rs:40-55 [order_results_by_tool_calls] *)
Definition order_results_by_tool_calls (tool_calls : list ToolCallInfo)
    (all_results : list (nat * ToolResultMessage)) : list ToolResultMessage :=
  filtermap (fun tc => result_map all_results !! tci_id tc) tool_calls.

(** @src src/loop_/tool_dispatch/shared.rs:107-131 [emit_batch_stop_results] *)
Definition emit_batch_stop_results config (tool_calls : list ToolCallInfo) (reason : string) : D unit :=
  batch_get b_results ≫= fun results =>
  let resolved_ids := map (fun r => tr_tool_call_id (snd r)) results in
  for_each (fun '(idx, tc) =>
    when (negb (bool_decide (tci_id tc ∈ resolved_ids)))
      (emit_error_result config (tci_name tc) (tci_id tc)
         (tool_error ("policy stopped tool batch before dispatch: " ++ reason)) idx))
    (imap pair tool_calls).

(** ** Outcomes *)

(** The results of the calls that have one and, for the others, an error.
    @src src/loop_/tool_dispatch/collect.rs:302-338 [build_aborted_outcome] *)
Fixpoint fill_results config (text : string) (results : gmap string ToolResultMessage)
    (tool_calls : list ToolCallInfo) : M (list ToolResultMessage) :=
  match tool_calls with
  | [] => mret []
  | tc :: tool_calls' =>
    match results !! tci_id tc with
    | Some r => mret r
    | None => now_timestamp config ≫= fun now => mret (error_result (tci_id tc) text now)
    end ≫= fun r =>
    fill_results config text results tool_calls' ≫= fun rs => mret (r :: rs)
  end.

(** @src src/loop_/tool_dispatch/collect.rs:302-338 [build_aborted_outcome] *)
Definition build_aborted_outcome config (tool_calls : list ToolCallInfo)
    (injected_messages : list AgentMessage) : D ToolExecOutcome :=
  batch_get id ≫= fun b =>
  lift (fill_results config "tool call cancelled: operation aborted" (result_map (b_results b)) tool_calls)
  ≫= fun ordered =>
  mret (ToolsAborted ordered (b_timings b) injected_messages).

(** @src src/loop_/tool_dispatch/collect.rs:260-299 [build_transfer_outcome] *)
Definition build_transfer_outcome config (tool_calls : list ToolCallInfo)
    (injected_messages : list AgentMessage) : D ToolExecOutcome :=
  batch_get id ≫= fun b =>
  lift (fill_results config "tool call cancelled: transfer initiated" (result_map (b_results b)) tool_calls)
  ≫= fun ordered =>
  mret (Completed ordered (b_timings b) (b_signal b) injected_messages).

(** The completed and the cancelled results.
    @src src/loop_/tool_dispatch/collect.rs:227-242 [build_steering_outcome, loop] *)
Fixpoint split_results config (results : gmap string ToolResultMessage)
    (tool_calls : list ToolCallInfo) : M (list ToolResultMessage * list ToolResultMessage) :=
  match tool_calls with
  | [] => mret ([], [])
  | tc :: tool_calls' =>
    match results !! tci_id tc with
    | Some r =>
      split_results config results tool_calls' ≫= fun '(completed, cancelled) =>
      mret (r :: completed, cancelled)
    | None =>
      now_timestamp config ≫= fun now =>
      split_results config results tool_calls' ≫= fun '(completed, cancelled) =>
      mret (completed, error_result (tci_id tc)
                         "tool call cancelled: user requested steering interrupt" now :: cancelled)
    end
  end.

(** @src src/loop_/tool_dispatch/collect.rs:211-257 [build_steering_outcome] *)
Definition build_steering_outcome config (tool_calls : list ToolCallInfo)
    (injected_messages : list AgentMessage) : D ToolExecOutcome :=
  batch_get id ≫= fun b =>
  lift (split_results config (result_map (b_results b)) tool_calls) ≫= fun '(completed, cancelled) =>
  match cfg_message_provider config with
  | Some provider => lift (host (poll_steering provider))
  | None => mret []
  end ≫= fun steering_messages =>
  mret (SteeringInterrupt completed cancelled steering_messages (b_timings b) injected_messages).

(** All groups done.
    @src src/loop_/tool_dispatch/mod.rs:304-316 [execute_tools_concurrently, end (brace)] *)
Definition build_completed_outcome (tool_calls : list ToolCallInfo)
    (injected_messages : list AgentMessage) : D ToolExecOutcome :=
  batch_get id ≫= fun b =>
  mret (Completed (order_results_by_tool_calls tool_calls (b_results b)) (b_timings b) (b_signal b)
          injected_messages).

End Dispatch.

Arguments Task {_} _.
Arguments Batch {_} _.
