(* ===== verification/ToolBatch.v ===== *)
(** * A tool batch from end to end: [src/loop_/tool_dispatch/mod.rs], [preprocess.rs], [execute.rs], [collect.rs]

    The pre-process phase, the dispatch of the execution groups and the
    collection of their results, and [execute_tools_concurrently]. *)
From S2P Require Export ToolDispatch.
Open Scope list_scope.

Section Batch.
Context `{E : Ext} {H : Type}.
Implicit Types (config : AgentLoopConfig H).

#[local] Abbreviation D := (Prog (World H * Batch H)).

(** The first tool registered under a name.
    @src src/loop_/tool_dispatch/mod.rs:63-79 [build_tool_map] *)
Definition build_tool_map (tools : list (AgentTool H)) : gmap string (AgentTool H) :=
  foldl (fun m t => match m !! td_name t with Some _ => m | None => <[td_name t := t]> m end) ∅ tools.

(** ** Pre-process: policies *)

(** @src src/loop_/tool_dispatch/preprocess.rs:25-30 [PreprocessResult] *)
Record PreprocessResult := MkPreprocessResult {
  pr_prepared : list PreparedToolCall;
  pr_injected_messages : list AgentMessage;
}.

(** @src src/loop_/tool_dispatch/preprocess.rs:33-42 [PreDispatchPassResult] *)
Inductive PreDispatchPassResult :=
| PassReady (idx : nat) (effective_arguments : Value)
| PassSkip (idx : nat) (error_text : string).

(** @src src/loop_/tool_dispatch/preprocess.rs:59-77 [stopped_preprocess_outcome] *)
Definition stopped_preprocess_outcome config (tool_calls : list ToolCallInfo) (reason : string)
    (injected_messages : list AgentMessage) : D ToolExecOutcome :=
  emit_batch_stop_results config tool_calls reason ≫= fun _ =>
  batch_get id ≫= fun b =>
  mret (Stopped (order_results_by_tool_calls tool_calls (b_results b)) (b_timings b) reason
          injected_messages).

(** The policies on one call: the verdict and the arguments they leave.
    @src src/loop_/tool_dispatch/preprocess.rs:129-141 [preprocess_tool_calls, run policies (brace)] *)
Definition policy_pass config (state_snapshot : SessionState) (tc : ToolCallInfo) (arguments : Value) :
    D (PreDispatchVerdict * Value) :=
  let execution_root := build_tool_map (cfg_tools config) !! tci_name tc ≫= td_execution_root in
  let dispatch_ctx := MkToolDispatchContext (tci_name tc) (tci_id tc) arguments execution_root
                        state_snapshot in
  lift (host (fun h => let '(verdict, arguments, h) :=
                run_pre_dispatch_policies (cfg_pre_dispatch_policies config) dispatch_ctx h in
              ((verdict, arguments), h))).

(** The first loop; [calls] are those from [idx] on.
    @src src/loop_/tool_dispatch/preprocess.rs:118-170 [preprocess_tool_calls, policies (brace)] *)
Fixpoint pre_dispatch_pass config (state_snapshot : SessionState) (tool_calls : list ToolCallInfo)
    (idx : nat) (calls : list ToolCallInfo) (pass : list PreDispatchPassResult)
    (injected : list AgentMessage) :
    D (result (list PreDispatchPassResult * list AgentMessage) ToolExecOutcome) :=
  match calls with
  | [] => mret (Ok (pass, injected))
  | tc :: calls' =>
    batch_is_cancelled ≫= fun cancelled : bool =>
    if cancelled then build_aborted_outcome config tool_calls injected ≫= fun o => mret (Err o)
    else
      policy_pass config state_snapshot tc (tci_arguments tc) ≫= fun '(verdict, arguments) =>
      let next pass injected :=
        pre_dispatch_pass config state_snapshot tool_calls (S idx) calls' pass injected in
      match verdict with
      | DContinue => next (pass ++ [PassReady idx arguments]) injected
      | DInject msgs => next (pass ++ [PassReady idx arguments]) (injected ++ msgs)
      | DStop reason =>
        stopped_preprocess_outcome config tool_calls reason injected ≫= fun o => mret (Err o)
      | DSkip error_text => next (pass ++ [PassSkip idx error_text]) injected
      end
  end.

(** ** Pre-process: approval *)

(** @src src/loop_/tool_dispatch/preprocess.rs:80-87 [ApprovalOutcome] *)
Inductive ApprovalOutcome :=
| OutApproved
| OutApprovedWith (new_params : Value)
| OutRejected
| OutCancelled
| OutChannelClosed.

(** @src src/loop_/tool_dispatch/preprocess.rs:307-321 [emit_approval_resolved] *)
Definition emit_approval_resolved (tc : ToolCallInfo) (approved : bool) : D bool :=
  lift (emit (ToolApprovalResolved (tci_id tc) (tci_name tc) approved)).

(** @src src/loop_/tool_dispatch/preprocess.rs:323-348 [reject_approval_panic] *)
Definition reject_approval_panic config (tc : ToolCallInfo) (idx : nat) (panic_message : string) :
    D ApprovalOutcome :=
  emit_approval_resolved tc false ≫= fun ok : bool =>
  if negb ok then mret OutChannelClosed else
  emit_error_result config (tci_name tc) (tci_id tc)
    (tool_error ("Tool call '" ++ tci_name tc
       ++ "' was rejected because the approval callback panicked: " ++ panic_message)) idx ≫= fun _ =>
  mret OutRejected.

(** @src src/loop_/tool_dispatch/preprocess.rs:367-466 [check_approval] *)
Definition check_approval config (approve_fn : ToolApprovalRequest -> H -> ApprovalReply * H)
    (tc : ToolCallInfo) (effective_arguments : Value) (idx : nat) (requires_approval : bool) :
    D ApprovalOutcome :=
  batch_is_cancelled ≫= fun cancelled : bool =>
  if cancelled then mret OutCancelled else
  lift (emit (ToolApprovalRequested (tci_id tc) (tci_name tc) effective_arguments)) ≫= fun ok : bool =>
  if negb ok then mret OutChannelClosed else
  let approval_context := build_tool_map (cfg_tools config) !! tci_name tc
                            ≫= fun tool => td_approval_context tool effective_arguments in
  let request := MkApprovalRequest (tci_id tc) (tci_name tc) effective_arguments requires_approval
                   approval_context in
  lift (host (approve_fn request)) ≫= fun reply =>
  match reply with
  | PanicsAtCall message => reject_approval_panic config tc idx message
  | PanicsLater _ | Decides _ =>
    batch_is_cancelled ≫= fun cancelled : bool =>
    if cancelled then
      emit_approval_resolved tc false ≫= fun ok : bool =>
      mret (if ok then OutCancelled else OutChannelClosed)
    else
      match reply with
      | Decides decision =>
        emit_approval_resolved tc (match decision with Rejected => false | _ => true end)
        ≫= fun ok : bool =>
        if negb ok then mret OutChannelClosed else
        match decision with
        | Approved => mret OutApproved
        | ApprovedWith new_params => mret (OutApprovedWith new_params)
        | Rejected =>
          emit_error_result config (tci_name tc) (tci_id tc)
            (tool_error ("Tool call '" ++ tci_name tc ++ "' was rejected by the approval gate.")) idx
          ≫= fun _ => mret OutRejected
        end
      | PanicsLater message | PanicsAtCall message => reject_approval_panic config tc idx message
      end
  end.

(** An error result with the policy's text. *)
Definition skip_result (error_text : string) : AgentToolResult :=
  MkAgentToolResult [Text error_text] json_null true None.

(** What the gate leaves of a call: the arguments to run it with and the
    messages injected so far, nothing more to do, or the end of the batch. *)
Inductive GateResult :=
| GatePass (effective_arguments : Value) (injected : list AgentMessage)
| GateSkip (injected : list AgentMessage)
| GateEnd (outcome : ToolExecOutcome).

(** After [ApprovedWith]: the policies see the new parameters.
    @src src/loop_/tool_dispatch/preprocess.rs:239-281 [preprocess_tool_calls, ApprovedWith] *)
Definition recheck_policies config (state_snapshot : SessionState) (tool_calls : list ToolCallInfo)
    (idx : nat) (tc : ToolCallInfo) (new_params : Value) (injected : list AgentMessage) : D GateResult :=
  policy_pass config state_snapshot tc new_params ≫= fun '(verdict, arguments) =>
  match verdict with
  | DContinue => mret (GatePass arguments injected)
  | DInject msgs => mret (GatePass arguments (injected ++ msgs))
  | DSkip error_text =>
    emit_error_result config (tci_name tc) (tci_id tc) (skip_result error_text) idx ≫= fun _ =>
    mret (GateSkip injected)
  | DStop reason =>
    stopped_preprocess_outcome config tool_calls reason injected ≫= fun o => mret (GateEnd o)
  end.

Definition requires_approval config (tc : ToolCallInfo) : bool :=
  match build_tool_map (cfg_tools config) !! tci_name tc with
  | Some t => td_requires_approval t
  | None => false
  end.

(** The callback to ask for a call, if it must be asked.
    @src src/loop_/tool_dispatch/preprocess.rs:212-225 [preprocess_tool_calls, should_call_approval (brace)] *)
Definition approval_for config (tc : ToolCallInfo) :
    option (ToolApprovalRequest -> H -> ApprovalReply * H) :=
  match cfg_approval_mode config with
  | ApprovalBypassed => None
  | ApprovalEnabled => cfg_approve_tool config
  | ApprovalSmart => if requires_approval config tc then cfg_approve_tool config else None
  end.

(** @src src/loop_/tool_dispatch/preprocess.rs:209-293 [preprocess_tool_calls, approval gate] *)
Definition approval_gate config (state_snapshot : SessionState) (tool_calls : list ToolCallInfo)
    (idx : nat) (tc : ToolCallInfo) (arguments : Value) (injected : list AgentMessage) : D GateResult :=
  match approval_for config tc with
  | None => mret (GatePass arguments injected)
  | Some approve_fn =>
    check_approval config approve_fn tc arguments idx (requires_approval config tc) ≫= fun approval =>
    match approval with
    | OutApproved => mret (GatePass arguments injected)
    | OutApprovedWith new_params =>
      recheck_policies config state_snapshot tool_calls idx tc new_params injected
    | OutRejected => mret (GateSkip injected)
    | OutCancelled =>
      build_aborted_outcome config tool_calls injected ≫= fun o => mret (GateEnd o)
    | OutChannelClosed => mret (GateEnd ToolsChannelClosed)
    end
  end.

(** The second loop.
    @src src/loop_/tool_dispatch/preprocess.rs:176-304 [preprocess_tool_calls, approval (brace)] *)
Fixpoint approval_pass config (state_snapshot : SessionState) (tool_calls : list ToolCallInfo)
    (pass : list PreDispatchPassResult) (prepared : list PreparedToolCall)
    (injected : list AgentMessage) : D (result PreprocessResult ToolExecOutcome) :=
  match pass with
  | [] => mret (Ok (MkPreprocessResult prepared injected))
  | pre_dispatch_result :: pass' =>
    batch_is_cancelled ≫= fun cancelled : bool =>
    if cancelled then build_aborted_outcome config tool_calls injected ≫= fun o => mret (Err o)
    else
      match pre_dispatch_result with
      | PassSkip idx error_text =>
        match tool_calls !! idx with
        | None => stuck
        | Some tc =>
          emit_error_result config (tci_name tc) (tci_id tc) (skip_result error_text) idx ≫= fun _ =>
          approval_pass config state_snapshot tool_calls pass' prepared injected
        end
      | PassReady idx arguments =>
        match tool_calls !! idx with
        | None => stuck
        | Some tc =>
          approval_gate config state_snapshot tool_calls idx tc arguments injected ≫= fun gate =>
          match gate with
          | GatePass arguments injected =>
            approval_pass config state_snapshot tool_calls pass'
              (prepared ++ [MkPrepared idx arguments]) injected
          | GateSkip injected =>
            approval_pass config state_snapshot tool_calls pass' prepared injected
          | GateEnd o => mret (Err o)
          end
        end
      end
  end.

(** @src src/loop_/tool_dispatch/preprocess.rs:97-305 [preprocess_tool_calls] *)
Definition preprocess_tool_calls config (tool_calls : list ToolCallInfo) :
    D (result PreprocessResult ToolExecOutcome) :=
  lift (gets w_session) ≫= fun state_snapshot =>
  pre_dispatch_pass config state_snapshot tool_calls 0 tool_calls [] [] ≫= fun r =>
  match r with
  | Err o => mret (Err o)
  | Ok (pass, injected) => approval_pass config state_snapshot tool_calls pass [] injected
  end.

(** ** Execute *)

(** @src src/loop_/tool_dispatch/execute.rs:24-31 [DispatchResult] *)
Inductive DispatchResult := SpawnedTask | Inline | DispatchClosed.

(** @src src/loop_/tool_dispatch/execute.rs:149-337 [dispatch_single_tool] *)
Definition dispatch_single_tool config (tc : ToolCallInfo) (effective_arguments : Value) (idx : nat) :
    D DispatchResult :=
  yield config ≫= fun _ =>
  match build_tool_map (cfg_tools config) !! tci_name tc with
  | None =>
    emit_error_result config (tci_name tc) (tci_id tc) (unknown_tool_result (tci_name tc)) idx
    ≫= fun _ => mret Inline
  | Some tool =>
    let validation := validate_tool_arguments (td_parameters_schema tool) effective_arguments in
    match validation with
    | Ok _ => lift (emit (ToolExecutionStart (tci_id tc) (tci_name tc) effective_arguments))
    | Err _ => mret true
    end ≫= fun ok : bool =>
    if negb ok then mret DispatchClosed else
    batch_upd (fun b => set_tasks (b_tasks b ++ [MkTask idx tc tool (Spawned effective_arguments validation)]) b)
    ≫= fun _ => mret SpawnedTask
  end.

(** The grace period, after which the tasks still running are aborted.
    @src src/loop_/tool_dispatch/collect.rs:122-134 [abort_join_handles_with_grace] *)
Definition abort_join_handles_with_grace config : D unit :=
  yield config ≫= fun _ => batch_upd (set_tasks []).

(** The calls of one group; an outcome ends the batch.
    @src src/loop_/tool_dispatch/mod.rs:206-252 [execute_tools_concurrently, dispatch of a group (brace)] *)
Fixpoint dispatch_group config (tool_calls : list ToolCallInfo) (prepared : list PreparedToolCall)
    (injected : list AgentMessage) (group : list nat) : D (option ToolExecOutcome) :=
  match group with
  | [] => mret None
  | prepared_idx :: group' =>
    batch_is_cancelled ≫= fun cancelled : bool =>
    if cancelled then
      abort_join_handles_with_grace config ≫= fun _ =>
      build_aborted_outcome config tool_calls injected ≫= fun o => mret (Some o)
    else
      match prepared !! prepared_idx ≫= fun prep => (fun tc => (prep, tc)) <$> tool_calls !! p_idx prep with
      | None => stuck
      | Some (prep, tc) =>
        dispatch_single_tool config tc (p_effective_arguments prep) (p_idx prep) ≫= fun handle =>
        match handle with
        | SpawnedTask | Inline => dispatch_group config tool_calls prepared injected group'
        | DispatchClosed =>
          batch_upd cancel_batch ≫= fun _ =>
          abort_join_handles_with_grace config ≫= fun _ =>
          mret (Some ToolsChannelClosed)
        end
      end
  end.

(** ** Collect *)

(** @src src/loop_/tool_dispatch/collect.rs:24-33 [GroupOutcome] *)
Inductive GroupOutcome := GroupContinue | GroupSteering | GroupTransfer | GroupAborted.

(** @src src/loop_/tool_dispatch/collect.rs:90-120 [emit_join_failure] *)
Definition emit_join_failure config (tool_calls : list ToolCallInfo) (idx : nat) (panic_message : string) :
    D unit :=
  match tool_calls !! idx with
  | None => stuck
  | Some tc =>
    emit_error_result config (tci_name tc) (tci_id tc)
      (tool_error ("tool execution panicked: " ++ panic_message)) idx
  end.

Definition report_join config (tool_calls : list ToolCallInfo) (t : Task H) : D unit :=
  match t_state t with
  | Exited (Some message) => emit_join_failure config tool_calls (t_idx t) message
  | _ => mret tt
  end.

(** The tasks that finish within the grace are joined, the others aborted.
    @src src/loop_/tool_dispatch/collect.rs:70-88 [cancel_remaining_with_bounded_wait] *)
Definition cancel_remaining config (tool_calls : list ToolCallInfo) : D unit :=
  yield config ≫= fun _ =>
  batch_get (fun b => List.filter has_exited (b_tasks b)) ≫= fun completed =>
  batch_upd (set_tasks []) ≫= fun _ =>
  for_each (report_join config tool_calls) completed.

(** [n] bounds the tasks left to join.
    @src src/loop_/tool_dispatch/collect.rs:157-205 [collect_group_results, loop] *)
Fixpoint collect_loop config (tool_calls : list ToolCallInfo) (n : nat) : D GroupOutcome :=
  batch_get b_tasks ≫= fun futs =>
  match futs with
  | [] => mret GroupContinue
  | _ =>
    match n with
    | 0 => stuck
    | S n' =>
      yield config ≫= fun pick =>
      batch_is_cancelled ≫= fun cancelled : bool =>
      if cancelled then cancel_remaining config tool_calls ≫= fun _ => mret GroupAborted
      else
        next_joined config pick ≫= fun joined =>
        match joined with
        | None => mret GroupContinue
        | Some t =>
          match t_state t with
          | Exited (Some message) =>
            emit_join_failure config tool_calls (t_idx t) message ≫= fun _ =>
            collect_loop config tool_calls n'
          | _ =>
            batch_get b_steering ≫= fun steering : bool =>
            if steering then
              batch_upd cancel_batch ≫= fun _ =>
              cancel_remaining config tool_calls ≫= fun _ => mret GroupSteering
            else
              batch_get b_transfer ≫= fun transfer : bool =>
              if transfer then
                batch_upd cancel_batch ≫= fun _ =>
                cancel_remaining config tool_calls ≫= fun _ => mret GroupTransfer
              else collect_loop config tool_calls n'
          end
        end
    end
  end.

(** @src src/loop_/tool_dispatch/collect.rs:139-206 [collect_group_results] *)
Definition collect_group_results config (tool_calls : list ToolCallInfo) : D GroupOutcome :=
  batch_get (fun b => length (b_tasks b)) ≫= fun n => collect_loop config tool_calls n.

(** ** The batch *)

(** @src src/loop_/tool_dispatch/mod.rs:193-315 [execute_tools_concurrently, groups (brace)] *)
Fixpoint run_groups config (tool_calls : list ToolCallInfo) (prepared : list PreparedToolCall)
    (injected : list AgentMessage) (groups : list (list nat)) : D ToolExecOutcome :=
  match groups with
  | [] => build_completed_outcome tool_calls injected
  | group :: groups' =>
    batch_is_cancelled ≫= fun cancelled : bool =>
    if cancelled then build_aborted_outcome config tool_calls injected
    else
      dispatch_group config tool_calls prepared injected group ≫= fun ended =>
      match ended with
      | Some o => mret o
      | None =>
        collect_group_results config tool_calls ≫= fun group_outcome =>
        match group_outcome with
        | GroupContinue => run_groups config tool_calls prepared injected groups'
        | GroupSteering => build_steering_outcome config tool_calls injected
        | GroupAborted => build_aborted_outcome config tool_calls injected
        | GroupTransfer => build_transfer_outcome config tool_calls injected
        end
      end
  end.

(** A custom strategy returned no partition.
    @src src/loop_/tool_dispatch/mod.rs:163-189 [execute_tools_concurrently, invalid partition (brace)] *)
Definition refuse_partition config (tool_calls : list ToolCallInfo) (prepared : list PreparedToolCall)
    (injected : list AgentMessage) (reason : string) : D ToolExecOutcome :=
  for_each (fun prep =>
    match tool_calls !! p_idx prep with
    | None => stuck
    | Some tc =>
      emit_error_result config (tci_name tc) (tci_id tc)
        (tool_error ("custom tool execution strategy returned an invalid partition: " ++ reason))
        (p_idx prep)
    end) prepared ≫= fun _ =>
  batch_get id ≫= fun b =>
  mret (Completed (order_results_by_tool_calls tool_calls (b_results b)) (b_timings b) None injected).

(** @src src/loop_/tool_dispatch/mod.rs:95-316 [execute_tools_concurrently] *)
Definition run_batch config (tool_calls : list ToolCallInfo) : D ToolExecOutcome :=
  preprocess_tool_calls config tool_calls ≫= fun r =>
  match r with
  | Err early_outcome => mret early_outcome
  | Ok (MkPreprocessResult prepared injected) =>
    batch_is_cancelled ≫= fun cancelled : bool =>
    if cancelled then build_aborted_outcome config tool_calls injected
    else
      lift (compute_execution_groups (cfg_tool_execution_policy config) tool_calls prepared)
      ≫= fun groups =>
      match groups with
      | Err reason => refuse_partition config tool_calls prepared injected reason
      | Ok groups => run_groups config tool_calls prepared injected groups
      end
  end.

(** @src src/loop_/tool_dispatch/mod.rs:95-316 [execute_tools_concurrently] *)
Definition execute_tools_concurrently config (tool_calls : list ToolCallInfo) :
    Prog (World H) ToolExecOutcome := fun w =>
  match run_batch config tool_calls (w, batch_new) with
  | Some (o, (w', _)) => Some (o, w')
  | None => None
  end.

End Batch.
