(* ===== verification/ToolBatchSpec.v ===== *)
(** * Tool dispatch answers every call

    For every schedule of the tasks, every moment of cancellation and every
    behaviour of tools, policies and the approval callback, a batch returns
    and answers each call once; what it reports was announced, and what it
    started was approved.  The first result discharges the [ToolExecutor]
    interface the loop is proved against. *)
From S2P Require Export ToolBatch.
Open Scope list_scope.

Section Spec.
Context `{E : Ext} {H : Type}.
Implicit Types (config : AgentLoopConfig H).

#[local] Abbreviation S := (World H * Batch H)%type.
#[local] Abbreviation D := (Prog (World H * Batch H)).

(** ** What every step of a batch respects *)

Definition answered (rs : list (nat * ToolResultMessage)) (id : string) : Prop :=
  exists j r, (j, r) ∈ rs /\ tr_tool_call_id r = id.

(** Tool events are added, unless the receiver is gone; the loop's own state is
    left alone; results are added. *)
Definition dispatches (s s' : S) : Prop :=
  (exists es, w_events (fst s') = w_events (fst s) ++ es
     /\ Forall (fun e => is_tool_event e = true) es /\ (dropped (fst s) -> es = []))
  /\ (dropped (fst s) -> dropped (fst s'))
  /\ dispatch_frame (fst s) (fst s')
  /\ exists rs, b_results (snd s') = b_results (snd s) ++ rs.

#[local] Instance dispatches_preorder : PreOrder dispatches.
Proof.
  split.
  - intros s. repeat split; try done; exists []; by rewrite app_nil_r.
  - intros s1 s2 s3 ((es & He & Hes & Hd) & Hdd & (Hs1 & Hs2 & Hs3 & Hs4 & Hs5 & Hs6 & Hs7) & rs & Hr)
      ((fs & Hf & Hfs & Hg) & Hgg & (Ht1 & Ht2 & Ht3 & Ht4 & Ht5 & Ht6 & Ht7) & rs2 & Hr2).
    split_and!.
    + exists (es ++ fs). rewrite Hf, He, app_assoc. split_and!; [done|by apply Forall_app|].
      intros Hdr. by rewrite (Hd Hdr), (Hg (Hdd Hdr)).
    + auto.
    + unfold dispatch_frame. split_and!; try congruence; auto.
    + exists (rs ++ rs2). by rewrite Hr2, Hr, app_assoc.
Qed.

Lemma answered_mono s s' id : dispatches s s' -> answered (b_results (snd s)) id -> answered (b_results (snd s')) id.
Proof. intros (_ & _ & _ & rs & ->) (j & r & Hin & Hid). exists j, r. set_solver. Qed.

(** ** The pool *)

(** The task has pushed its result. *)
Definition reported (s : TaskState) : Prop := s = Checking \/ s = Exited None.

Definition task_ok (calls : list ToolCallInfo) (rs : list (nat * ToolResultMessage)) (t : Task H) : Prop :=
  calls !! t_idx t = Some (t_call t) /\ (reported (t_state t) -> answered rs (tci_id (t_call t))).

Definition pool_ok (calls : list ToolCallInfo) (b : Batch H) : Prop :=
  Forall (task_ok calls (b_results b)) (b_tasks b).

(** What leaves the pool as it is, up to the steps of its tasks. *)
Definition keeps (calls : list ToolCallInfo) (s s' : S) : Prop :=
  dispatches s s' /\ map t_call (b_tasks (snd s')) = map t_call (b_tasks (snd s))
  /\ (pool_ok calls (snd s) -> pool_ok calls (snd s')).

#[local] Instance keeps_preorder calls : PreOrder (keeps calls).
Proof.
  split; [by intros s; repeat split; try done; exists []; rewrite app_nil_r|].
  intros s1 s2 s3 (Hd & Ht & Hp) (Hd2 & Ht2 & Hp2). split_and!; [by transitivity s2|congruence|auto].
Qed.

(** What a step of the world may do. *)
Definition world_step (w w' : World H) : Prop :=
  (exists es, w_events w' = w_events w ++ es /\ Forall (fun e => is_tool_event e = true) es
     /\ (dropped w -> es = []))
  /\ (dropped w -> dropped w') /\ dispatch_frame w w'.

Lemma world_step_dispatches w w' (b : Batch H) : world_step w w' -> dispatches (w, b) (w', b).
Proof.
  intros (? & ? & ?). split; [done|]. split; [done|]. split; [done|]. exists []. by rewrite app_nil_r.
Qed.

#[local] Instance world_step_preorder : PreOrder world_step.
Proof.
  split.
  - intros w. repeat split; try done. exists []. by rewrite app_nil_r.
  - intros w1 w2 w3 H1 H2. set (b := @batch_new _ H).
    destruct (PreOrder_Transitive _ _ _ (world_step_dispatches _ _ b H1) (world_step_dispatches _ _ b H2))
      as (? & ? & ? & _). split; [done|by split].
Qed.

#[local] Abbreviation mild := (ensures world_step).

Lemma mild_host {A} (f : H -> A * H) : mild (host f).
Proof.
  intros w. unfold twp, host. destruct (f (w_host w)). repeat split; try done. exists []. by rewrite app_nil_r.
Qed.

Lemma mild_is_cancelled : mild is_cancelled.
Proof.
  intros w. unfold twp, is_cancelled.
  destruct (w_cancel w) as [[|n]|] eqn:Hc; repeat split; try done; cbn; try congruence; exists []; by rewrite app_nil_r.
Qed.

Lemma mild_emit e : is_tool_event e = true -> mild (emit e).
Proof.
  intros He w. unfold twp, emit. destruct (w_room w) as [[|n]|] eqn:Hr; [reflexivity|..];
    (split; [|split; [unfold dropped; congruence|unfold dispatch_frame; cbn; split_and!; congruence]]); cbn; exists [e];
    (split_and!; [done|by apply Forall_singleton|unfold dropped; congruence]).
Qed.

Lemma mild_emit_ e : is_tool_event e = true -> mild (emit_ e).
Proof.
  intros He. apply ensures_bind; [tc_solve|by apply mild_emit|]. intros b. apply ensures_ret. tc_solve.
Qed.

Lemma mild_modify f :
  (forall w, w_events (f w) = w_events w /\ w_room (f w) = w_room w /\ dispatch_frame w (f w)) -> mild (modify f).
Proof.
  intros Hf. apply ensures_modify. intros w. destruct (Hf w) as (He & Hr & Hd). unfold world_step, dropped.
  rewrite He, Hr. split; [|done]. exists []. by rewrite app_nil_r.
Qed.

(** A step that touches neither the tasks nor, but to add some, the results. *)
Definition stays (s s' : S) : Prop := dispatches s s' /\ b_tasks (snd s') = b_tasks (snd s).

#[local] Instance stays_preorder : PreOrder stays.
Proof. split; [by split|]. intros s1 s2 s3 [] []. split; [by transitivity s2|congruence]. Qed.

Lemma stays_lift {A} (m : Prog (World H) A) : mild m -> ensures stays (lift m).
Proof.
  intros Hm [w b]. unfold twp, lift. specialize (Hm w). unfold twp in Hm.
  destruct (m w) as [[a w']|]; [|done]. split; [by apply world_step_dispatches|done].
Qed.

Lemma dispatches_results w (b b' : Batch H) rs : b_results b' = b_results b ++ rs -> dispatches (w, b) (w, b').
Proof.
  intros Hr. split; [exists []; by rewrite app_nil_r|]. split; [done|]. split; [by repeat split|]. by exists rs.
Qed.

Lemma stays_upd f :
  (forall b, b_results (f b) = b_results b /\ b_tasks (f b) = b_tasks b) -> ensures stays (batch_upd f).
Proof.
  intros Hf. apply ensures_modify. intros [w b]. destruct (Hf b) as [Hr Ht]. split; [|done].
  apply (dispatches_results _ _ _ []). by rewrite app_nil_r.
Qed.

Lemma stays_add_result r : ensures stays (batch_upd (add_result r)).
Proof. apply ensures_modify. intros [w b]. split; [|done]. by apply (dispatches_results _ _ _ [r]). Qed.

Lemma task_ok_mono calls s s' t :
  dispatches s s' -> task_ok calls (b_results (snd s)) t -> task_ok calls (b_results (snd s')) t.
Proof. intros Hd [Hc Hr]. split; [done|]. intros Ha%Hr. exact (answered_mono _ _ _ Hd Ha). Qed.

Lemma stays_keeps calls s s' : stays s s' -> keeps calls s s'.
Proof.
  intros [Hd Ht]. split; [done|]. split; [by rewrite Ht|]. unfold pool_ok. rewrite Ht. intros Hp.
  eapply Forall_impl; [exact Hp|]. intros t. by apply task_ok_mono.
Qed.

Lemma keeps_stays calls {A} (m : D A) : ensures stays m -> ensures (keeps calls) m.
Proof. intros Hm. eapply ensures_mono; [exact Hm|]. intros s s'. apply stays_keeps. Qed.

Create HintDb dispatch.
#[local] Hint Resolve mild_host mild_is_cancelled stays_add_result : dispatch.
#[local] Hint Extern 1 (ensures _ (mret _)) => (apply ensures_ret; tc_solve) : dispatch.
#[local] Hint Extern 1 (ensures _ (gets _)) => (apply ensures_gets; tc_solve) : dispatch.
#[local] Hint Extern 1 (ensures _ (batch_get _)) => (apply ensures_gets; tc_solve) : dispatch.
#[local] Hint Extern 1 (ensures world_step (emit _)) => (apply mild_emit; reflexivity) : dispatch.
#[local] Hint Extern 1 (ensures world_step (emit_ _)) => (apply mild_emit_; reflexivity) : dispatch.
#[local] Hint Extern 1 (ensures world_step (now_timestamp _)) => (apply mild_host) : dispatch.
#[local] Hint Extern 2 (ensures world_step (modify _)) => (apply mild_modify; intros ?; by repeat split) : dispatch.
#[local] Hint Extern 2 (ensures stays (batch_upd _)) => (apply stays_upd; intros ?; by split) : dispatch.

(** Straight-line programs. *)
Ltac straight :=
  repeat first
    [ solve [eauto with dispatch]
    | apply ensures_bind; [tc_solve| |intros]
    | apply ensures_when; [tc_solve|]
    | apply stays_lift
    | case_match ].

(** ** Steps of a task *)

Lemma mild_resolve config tool : mild (resolve_credential config tool).
Proof. unfold resolve_credential. straight. Qed.

Lemma mild_run_tool t arguments credential : mild (run_tool t arguments credential).
Proof. unfold run_tool. straight. Qed.

#[local] Hint Resolve mild_resolve mild_run_tool : dispatch.

Lemma task_step_stays config t : ensures stays (task_step config t).
Proof. unfold task_step. straight. Qed.

(** The steps before the updates, and those to the end from there on. *)
Definition early (s : TaskState) : nat :=
  match s with Spawned _ _ => 2 | Executing _ _ => 1 | _ => 0 end.

Definition late (s : TaskState) : nat :=
  match s with
  | Spawned _ _ | Executing _ _ => 0
  | Updating partials _ => length partials + 6
  | Timing _ _ => 5
  | Signalling _ _ => 4
  | Ending _ _ => 3
  | Reporting _ _ => 2
  | Checking => 1
  | Exited _ => 0
  end.

(** A task reports before it is done, and comes closer to its end. *)
Definition advances (t : Task H) (s' : S) (st : TaskState) : Prop :=
  (reported st -> reported (t_state t) \/ answered (b_results (snd s')) (tci_id (t_call t)))
  /\ early st <= early (t_state t) - 1
  /\ (early (t_state t) = 0 -> late st <= late (t_state t) - 1).

Lemma twp_after {A} (m : D A) (k : A -> D TaskState) (Q : TaskState -> S -> Prop) s :
  ensures stays m -> (forall a s', stays s s' -> twp (k a) Q s') -> twp (m ≫= k) Q s.
Proof. intros Hm Hk. apply twp_bind. eapply twp_mono; [apply Hm|]. intros a s' Hs. by apply Hk. Qed.

Lemma task_step_spec config t s :
  twp (task_step config t) (fun st s' => stays s s' /\ advances t s' st) s.
Proof.
  unfold task_step, advances. destruct (t_state t) eqn:Ht; cbn [late early].
  - destruct validation; [|apply twp_ret; split; [done|]; split_and!; [by intros [?|?]|cbn; lia|done]].
    apply twp_after; [straight|]. intros a s' Hs. apply twp_ret. split; [done|].
    split_and!; [by destruct a; intros [?|?]|destruct a; cbn; lia|done].
  - apply twp_after; [straight|]. intros [ps e] s' Hs. apply twp_ret. split; [done|].
    split_and!; [by intros [?|?]|done|done].
  - destruct partials as [|p ps].
    + destruct tool_end; apply twp_ret; (split; [done|]; split_and!; [by intros [?|?]|done|cbn; lia]).
    + apply twp_after; [straight|]. intros ok s' Hs. apply twp_ret. split; [done|].
      split_and!; [by intros [?|?]|done|]. intros _. destruct ok; cbn; lia.
  - apply twp_after; [straight|]. intros u s' Hs. apply twp_ret. split; [done|]. split_and!; [by intros [?|?]|done|cbn; lia].
  - apply twp_after; [straight|]. intros u s' Hs. apply twp_ret. split; [done|]. split_and!; [by intros [?|?]|done|cbn; lia].
  - apply twp_after; [straight|]. intros u s' Hs. apply twp_ret. split; [done|]. split_and!; [by intros [?|?]|done|cbn; lia].
  - apply twp_after; [straight|]. intros now s1 H1. apply twp_bind. unfold twp, batch_upd, modify.
    destruct s1 as [w b]. split; [|split_and!; [|done|cbn; lia]].
    + transitivity (w, b); [done|]. split; [|done]. by eapply dispatches_results.
    + intros _. right. eexists _, _. split; [cbn; apply elem_of_app; right; by left|done].
  - apply twp_after; [destruct (cfg_message_provider config); straight|]. intros u s' Hs. apply twp_ret.
    split; [done|]. split_and!; [by left; left|done|cbn; lia].
  - apply twp_ret. split; [done|]. split_and!; [by left|done|cbn; lia].
Qed.

(** ** The scheduler *)

(** A step of the [i]th task. *)
Definition ticked (i : nat) (s s' : S) : Prop :=
  dispatches s s'
  /\ match b_tasks (snd s) !! i with
     | None => b_tasks (snd s') = b_tasks (snd s)
     | Some t => exists st, b_tasks (snd s') = <[i := task_to t st]> (b_tasks (snd s)) /\ advances t s' st
     end.

Lemma tick_spec config i s : twp (tick config i) (fun _ => ticked i s) s.
Proof.
  unfold tick, ticked. apply twp_bind. unfold twp at 1, batch_get, gets.
  destruct (b_tasks (snd s) !! i) as [t|] eqn:Hi; [|apply twp_ret; split; [reflexivity|done]].
  apply twp_bind. eapply twp_mono; [apply task_step_spec|].
  intros st [w b] [[Hd Ht] Ha]. cbn in Ht. unfold twp, batch_upd, modify. cbn. split.
  - transitivity (w, b); [done|]. apply (dispatches_results _ _ _ []). by rewrite app_nil_r.
  - exists st. by rewrite Ht.
Qed.

Lemma tick_keeps calls config i : ensures (keeps calls) (tick config i).
Proof.
  intros s. eapply twp_mono; [apply tick_spec|]. intros u s' [Hd Ht]. split; [exact Hd|].
  destruct (b_tasks (snd s) !! i) as [t|] eqn:Hi.
  - destruct Ht as (st & Ht & Hrep & _). unfold pool_ok. rewrite Ht, list_fmap_insert. split.
    + apply list_insert_id. by rewrite list_lookup_fmap, Hi.
    + intros Hp. assert (Hp' : Forall (task_ok calls (b_results (snd s'))) (b_tasks (snd s))).
      { eapply Forall_impl; [exact Hp|]. intros t'. by apply task_ok_mono. }
      apply Forall_insert; [done|]. rewrite Forall_lookup in Hp'. destruct (Hp' i t Hi) as [Hc Hr].
      split; [done|]. intros [Hr'|Ha]%Hrep; [by apply Hr|done].
  - split; [by rewrite Ht|]. unfold pool_ok. rewrite Ht. intros Hp.
    eapply Forall_impl; [exact Hp|]. intros t'. by apply task_ok_mono.
Qed.

Lemma yield_keeps calls config : ensures (keeps calls) (yield config).
Proof.
  unfold yield. apply ensures_bind; [tc_solve|apply keeps_stays; straight|]. intros [|[ticks pick] schedule].
  - apply ensures_ret. tc_solve.
  - apply ensures_bind; [tc_solve|apply keeps_stays; straight|]. intros u.
    apply ensures_bind; [tc_solve| |intros; apply ensures_ret; tc_solve].
    apply ensures_for_each; [tc_solve|]. intros i _. apply tick_keeps.
Qed.

Lemma keeps_dispatches calls {A} (m : D A) : ensures (keeps calls) m -> ensures dispatches m.
Proof. intros Hm. eapply ensures_mono; [exact Hm|]. by intros s s' []. Qed.

Lemma tick_first_keeps calls config n : ensures (keeps calls) (tick_first config n).
Proof.
  induction n as [|n IH]; cbn [tick_first]; [apply ensures_ret; tc_solve|].
  apply ensures_bind; [tc_solve|apply tick_keeps|done].
Qed.

Lemma tick_first_spec config n s t ts :
  b_tasks (snd s) = t :: ts ->
  twp (tick_first config n) (fun _ s' => exists t', b_tasks (snd s') = t' :: ts
    /\ early (t_state t') <= early (t_state t) - n
    /\ (early (t_state t) = 0 -> late (t_state t') <= late (t_state t) - n)) s.
Proof.
  revert s t. induction n as [|n IH]; intros s t Ht; cbn [tick_first].
  { apply twp_ret. exists t. split_and!; [done|lia|lia]. }
  apply twp_bind. eapply twp_mono; [apply tick_spec|]. intros u s1 [_ H1]. rewrite Ht in H1. cbn in H1.
  destruct H1 as (st & Ht1 & _ & He & Hl). eapply twp_mono; [by apply IH|].
  intros u2 s2 (t' & Ht2 & He2 & Hl2). exists t'. cbn in *. split_and!; [done|lia|]. intros H0. lia.
Qed.

Lemma finish_first_keeps calls config : ensures (keeps calls) (finish_first config).
Proof.
  unfold finish_first. apply ensures_bind; [tc_solve|apply tick_first_keeps|]. intros u.
  apply ensures_bind; [tc_solve|apply keeps_stays; straight|]. intros [|]; apply tick_first_keeps.
Qed.

Lemma finish_first_spec calls config s t ts :
  b_tasks (snd s) = t :: ts ->
  twp (finish_first config) (fun _ s' => keeps calls s s'
    /\ exists t', b_tasks (snd s') = t' :: ts /\ has_exited t' = true) s.
Proof.
  intros Ht. apply twp_conj; [apply finish_first_keeps|]. unfold finish_first.
  apply twp_bind. eapply twp_mono; [by apply tick_first_spec|]. intros u s1 (t1 & Ht1 & He1 & _).
  assert (He : early (t_state t1) = 0) by (destruct (t_state t); cbn in He1; lia).
  apply twp_bind. unfold twp at 1, batch_get, gets. rewrite Ht1.
  eapply twp_mono; [by apply tick_first_spec|]. intros u2 s2 (t2 & Ht2 & He2 & Hl2). exists t2. split; [done|].
  specialize (Hl2 He). rewrite He in He2. unfold has_exited.
  assert (late (t_state t1) <= steps_left t1) by (unfold steps_left; destruct (t_state t1); cbn; lia).
  destruct (t_state t2); cbn in *; lia || done.
Qed.

Lemma emit_error_keeps calls config name id r idx : ensures (keeps calls) (emit_error_result config name id r idx).
Proof.
  unfold emit_error_result. apply ensures_bind; [tc_solve|apply keeps_stays; straight|]. intros u.
  apply ensures_bind; [tc_solve|apply yield_keeps|]. intros n. apply keeps_stays. straight.
Qed.

(** It answers the call it is about. *)
Lemma emit_error_answers calls config name id r idx s :
  twp (emit_error_result config name id r idx)
      (fun _ s' => keeps calls s s' /\ answered (b_results (snd s')) id) s.
Proof.
  unfold emit_error_result. apply twp_bind. eapply twp_mono; [apply (keeps_stays calls); straight|].
  intros u s1 H1. apply twp_bind. eapply twp_mono; [apply (yield_keeps calls)|]. intros n s2 H2.
  apply twp_bind. eapply twp_mono; [apply (keeps_stays calls); straight|]. intros now s3 H3.
  assert (H4 : keeps calls s s3) by (transitivity s2; [by transitivity s1|done]).
  unfold twp, batch_upd, modify. destruct s3 as [w b]. split.
  - transitivity (w, b); [done|]. apply stays_keeps. split; [|done]. by eapply dispatches_results.
  - eexists _, _. cbn. split; [apply elem_of_app; right; by left|done].
Qed.

(** ** Collecting a group *)

Lemma pick_exited_Some pick (ts : list (Task H)) i :
  pick_exited pick ts = Some i -> exists t, ts !! i = Some t /\ has_exited t = true.
Proof.
  unfold pick_exited. set (l := filtermap id _). intros Hi.
  assert (Hin : i ∈ l).
  { destruct (l !! pick) eqn:Hl; [simplify_eq; by eapply list_elem_of_lookup_2|].
    destruct l; [done|]. cbn in Hi. simplify_eq. by left. }
  apply elem_of_filtermap in Hin as (o & Ho & Hid). cbn in Hid. subst o.
  apply list_elem_of_lookup in Ho as [k Hk]. rewrite list_lookup_imap in Hk.
  destruct (ts !! k) as [t|] eqn:Ht; [|done]. cbn in Hk.
  destruct (has_exited t) eqn:He; [|done]. injection Hk as ->. by exists t.
Qed.

(** [t] left the pool, finished, after some more scheduling. *)
Definition joined_from (calls : list ToolCallInfo) (s s' : S) (t : Task H) : Prop :=
  exists s1 i, keeps calls s s1 /\ b_tasks (snd s1) !! i = Some t /\ has_exited t = true
    /\ fst s' = fst s1 /\ b_results (snd s') = b_results (snd s1) /\ b_tasks (snd s') = delete i (b_tasks (snd s1)).

Lemma next_joined_spec calls config pick s :
  b_tasks (snd s) <> [] ->
  twp (next_joined config pick) (fun o s' => exists t, o = Some t /\ joined_from calls s s' t) s.
Proof.
  intros Hne. unfold next_joined. apply twp_bind. unfold twp at 1, batch_get, gets.
  apply twp_bind. apply (twp_mono _ (fun i s1 => keeps calls s s1
    /\ exists t, b_tasks (snd s1) !! i = Some t /\ has_exited t = true)).
  - destruct (pick_exited pick (b_tasks (snd s))) as [i|] eqn:Hp.
    + apply twp_ret. split; [reflexivity|]. by apply pick_exited_Some in Hp.
    + destruct (b_tasks (snd s)) as [|t ts] eqn:Ht; [done|]. apply twp_bind.
      eapply twp_mono; [by apply (finish_first_spec calls _ _ t ts)|]. intros u s1 (Hk & t' & Ht' & He).
      apply twp_ret. split; [done|]. exists t'. by rewrite Ht'.
  - intros i [w b] (Hk & t & Hi & He). unfold twp, batch_get, batch_upd, gets, modify, mbind, prog_bind, mret, prog_ret.
    exists t. split; [done|]. exists (w, b), i. by repeat split; try apply Hk.
Qed.

Lemma emit_join_failure_answers config calls (t : Task H) m s :
  calls !! t_idx t = Some (t_call t) ->
  twp (emit_join_failure config calls (t_idx t) m)
      (fun _ s' => keeps calls s s' /\ answered (b_results (snd s')) (tci_id (t_call t))) s.
Proof. intros Hc. unfold emit_join_failure. rewrite Hc. apply emit_error_answers. Qed.

Lemma dispatches_set_tasks ts : ensures dispatches (batch_upd (H := H) (set_tasks ts)).
Proof. apply ensures_modify. intros [w b]. apply (dispatches_results _ _ _ []). by rewrite app_nil_r. Qed.

Lemma stays_dispatches {A} (m : D A) : ensures stays m -> ensures dispatches m.
Proof. intros Hm. eapply ensures_mono; [exact Hm|]. by intros s s' []. Qed.

Lemma cancel_remaining_spec config calls s :
  pool_ok calls (snd s) -> twp (cancel_remaining config calls) (fun _ => dispatches s) s.
Proof.
  intros Hp. unfold cancel_remaining. apply twp_bind. eapply twp_mono; [apply (yield_keeps calls)|].
  intros n s1 (H1 & _ & Hp1). specialize (Hp1 Hp). apply twp_bind. unfold twp at 1, batch_get, gets.
  apply twp_bind. eapply twp_mono; [apply dispatches_set_tasks|]. intros u s2 H2.
  assert (Hl : Forall (fun t => calls !! t_idx t = Some (t_call t)) (List.filter has_exited (b_tasks (snd s1)))).
  { unfold pool_ok in Hp1. rewrite Forall_forall in Hp1. apply Forall_forall. intros t Ht.
    apply list_elem_of_In, filter_In in Ht as [Ht _]. apply list_elem_of_In in Ht. by apply (Hp1 t). }
  eapply twp_mono; [apply (ensures_for_each dispatches)|].
  - intros t Ht. rewrite Forall_forall in Hl. specialize (Hl t Ht). unfold report_join.
    destruct (t_state t) as [| | | | | | | |[m|]]; try (apply ensures_ret; tc_solve).
    intros s3. eapply twp_mono; [by apply emit_join_failure_answers|]. by intros ? ? [[] _].
  - cbn. intros _ s3 H3. transitivity s2; [by transitivity s1|done].
Qed.

(** What a group comes to: if the batch goes on, every call of the pool is answered. *)
Definition collects (s : S) (o : GroupOutcome) (s' : S) : Prop :=
  dispatches s s'
  /\ (o = GroupContinue -> b_tasks (snd s') = []
      /\ forall tc, tc ∈ map t_call (b_tasks (snd s)) -> answered (b_results (snd s')) (tci_id tc)).

Lemma interrupted config calls s (o : GroupOutcome) :
  pool_ok calls (snd s) ->
  twp (batch_upd cancel_batch ≫= fun _ => cancel_remaining config calls ≫= fun _ => mret o)
      (fun o' s' => dispatches s s' /\ o' = o) s.
Proof.
  intros Hp. apply twp_bind. eapply twp_mono; [apply (stays_upd cancel_batch); by split|]. intros u s1 H1.
  pose proof (stays_keeps calls _ _ H1) as (_ & _ & Hp1). destruct H1 as [Hd _].
  apply twp_bind. eapply twp_mono; [apply cancel_remaining_spec, Hp1, Hp|]. intros u2 s2 H2.
  apply twp_ret. split; [by transitivity s1|done].
Qed.

Lemma collect_loop_spec config calls n s :
  pool_ok calls (snd s) -> length (b_tasks (snd s)) <= n ->
  twp (collect_loop config calls n) (collects s) s.
Proof.
  revert s. induction n as [|n IH]; intros s Hp Hn; cbn [collect_loop]; apply twp_bind;
    unfold twp at 1, batch_get, gets; destruct (b_tasks (snd s)) as [|t0 ts0] eqn:Hts.
  1,3: apply twp_ret; split; [reflexivity|]; intros _; rewrite Hts; split; [done|]; cbn; set_solver.
  1: cbn in Hn; lia.
  apply twp_bind. eapply twp_mono; [apply (yield_keeps calls)|]. intros pick s1 (Hd1 & Hc1 & Hp1).
  specialize (Hp1 Hp). apply twp_bind.
  eapply twp_mono; [apply (keeps_stays calls); unfold batch_is_cancelled; straight|].
  intros c s2 (Hd2 & Hc2 & Hp2). specialize (Hp2 Hp1). assert (Hd02 : dispatches s s2) by by transitivity s1.
  assert (Hc02 : map t_call (b_tasks (snd s2)) = map t_call (b_tasks (snd s))) by congruence.
  clear Hd1 Hc1 Hd2 Hc2 Hp1 s1. destruct c.
  { apply twp_bind. eapply twp_mono; [by apply cancel_remaining_spec|]. intros u s3 H3. apply twp_ret.
    split; [by transitivity s2|done]. }
  apply twp_bind. eapply twp_mono.
  { apply (next_joined_spec calls). intros Hnil. rewrite Hnil, Hts in Hc02. done. }
  intros o s3 (t & -> & s2' & i & (Hd' & Hc' & Hp') & Hi & He & Hw & Hr & Hdel). specialize (Hp' Hp2).
  assert (Hd03 : dispatches s s3).
  { transitivity s2; [done|]. transitivity s2'; [done|]. destruct s3 as [w3 b3], s2' as [w2 b2]. cbn in *. subst w3.
    apply (dispatches_results _ _ _ []). by rewrite app_nil_r. }
  assert (Hp3 : pool_ok calls (snd s3)).
  { unfold pool_ok in *. rewrite Hr, Hdel. by apply Forall_delete. }
  assert (Hc03 : forall tc, tc ∈ map t_call (b_tasks (snd s)) -> tc = t_call t \/ tc ∈ map t_call (b_tasks (snd s3))).
  { intros tc Htc. rewrite <- Hc02, <- Hc' in Htc. apply list_elem_of_fmap in Htc as (t' & -> & Ht').
    rewrite Hdel. pose proof (delete_Permutation _ _ _ Hi) as Hperm. rewrite Hperm in Ht'.
    apply elem_of_cons in Ht' as [->|Ht']; [by left|]. right. by apply list_elem_of_fmap_2. }
  assert (Hn3 : length (b_tasks (snd s3)) <= n).
  { rewrite Hdel. apply (f_equal length) in Hc'. apply (f_equal length) in Hc02. rewrite !length_map in *.
    rewrite length_delete by by eexists. rewrite Hts in Hc02. cbn in Hc02, Hn. lia. }
  assert (Htok : task_ok calls (b_results (snd s3)) t).
  { rewrite Hr. unfold pool_ok in Hp'. rewrite Forall_lookup in Hp'. by eapply Hp'. }
  assert (Hgo : forall s4, keeps calls s3 s4 -> answered (b_results (snd s4)) (tci_id (t_call t)) ->
    twp (collect_loop config calls n) (collects s) s4).
  { intros s4 (Hd4 & Hc4 & Hp4) Ha. eapply twp_mono.
    { apply IH; [by apply Hp4|]. apply (f_equal length) in Hc4. rewrite !length_map in Hc4. lia. }
    intros o s5 [Hd5 Ho]. split; [by do 2 (etransitivity; [eassumption|])|]. intros Hcont. destruct (Ho Hcont) as [Hnil Hall].
    split; [done|]. intros tc [->|Htc]%Hc03; [by eapply answered_mono|]. apply Hall. by rewrite Hc4. }
  unfold has_exited in He. destruct (t_state t) as [| | | | | | | |[m|]] eqn:Hst; try done.
  { apply twp_bind. eapply twp_mono; [apply emit_join_failure_answers, Htok|]. intros u s4 [Hk Ha]. by apply Hgo. }
  assert (Ha : answered (b_results (snd s3)) (tci_id (t_call t))) by (apply Htok; right; by rewrite Hst).
  assert (Hint : forall o, o <> GroupContinue -> twp (batch_upd cancel_batch ≫= fun _ =>
    cancel_remaining config calls ≫= fun _ => mret o) (collects s) s3).
  { intros o Ho. eapply twp_mono; [by apply interrupted|]. intros o' s4 [Hd4 ->].
    split; [by transitivity s3|]. by intros ->. }
  apply twp_bind. unfold twp at 1, batch_get, gets. destruct (b_steering (snd s3)); [by apply Hint|].
  apply twp_bind. unfold twp at 1, batch_get, gets. destruct (b_transfer (snd s3)); [by apply Hint|].
  apply Hgo; [reflexivity|done].
Qed.

(** ** Outcomes *)

Lemma result_map_snoc rs r : result_map (rs ++ [r]) = <[tr_tool_call_id (snd r) := snd r]> (result_map rs).
Proof. unfold result_map. by rewrite foldl_app. Qed.

Lemma result_map_Some rs id r :
  result_map rs !! id = Some r -> tr_tool_call_id r = id /\ exists j, (j, r) ∈ rs.
Proof.
  induction rs as [|[j q] rs IH] using rev_ind; [done|]. rewrite result_map_snoc. cbn.
  intros [[<- <-]|[Hne (Hid & k & Hk)%IH]]%lookup_insert_Some; [split; [done|]; exists j; set_solver|].
  split; [done|]. exists k. set_solver.
Qed.

Lemma result_map_answered rs id : answered rs id -> is_Some (result_map rs !! id).
Proof.
  induction rs as [|[j q] rs IH] using rev_ind; [intros (? & ? & Hin & _); by apply not_elem_of_nil in Hin|].
  intros (k & r & Hin & Hid). rewrite result_map_snoc. cbn.
  destruct (decide (tr_tool_call_id q = id)) as [<-|Hne]; [rewrite lookup_insert_eq; by eexists|].
  rewrite lookup_insert_ne by done. apply IH. exists k, r. split; [|done]. set_solver.
Qed.

(** One result per call, in the order of the calls. *)
Definition in_order (calls : list ToolCallInfo) (rs : list ToolResultMessage) : Prop :=
  map tr_tool_call_id rs = map tci_id calls.

Lemma order_results_in_order calls rs :
  Forall (fun tc => answered rs (tci_id tc)) calls -> in_order calls (order_results_by_tool_calls calls rs).
Proof.
  unfold order_results_by_tool_calls, in_order. induction 1 as [|tc calls Ha _ IH]; [done|]. cbn.
  destruct (result_map_answered _ _ Ha) as [r Hr]. rewrite Hr. cbn.
  destruct (result_map_Some _ _ _ Hr) as [-> _]. by rewrite IH.
Qed.

Lemma fill_results_spec config text rs calls w :
  twp (fill_results config text (result_map rs) calls) (fun out w' => world_step w w' /\ in_order calls out) w.
Proof.
  unfold in_order. revert w. induction calls as [|tc calls IH]; intros w; cbn [fill_results].
  { by apply twp_ret. }
  apply twp_bind. apply (twp_mono _ (fun r w' => world_step w w' /\ tr_tool_call_id r = tci_id tc)).
  { destruct (result_map rs !! tci_id tc) as [r|] eqn:Hr.
    - apply twp_ret. split; [reflexivity|]. by apply result_map_Some in Hr as [? _].
    - apply twp_bind. eapply twp_mono; [apply mild_host|]. intros now w1 H1. by apply twp_ret. }
  intros r w1 [H1 Hid]. apply twp_bind. eapply twp_mono; [apply IH|]. intros out w2 [H2 Hout].
  apply twp_ret. split; [by transitivity w1|]. cbn. by rewrite Hid, Hout.
Qed.

Lemma split_results_spec config rs calls w :
  twp (split_results config (result_map rs) calls)
      (fun out w' => world_step w w' /\ map tr_tool_call_id (fst out ++ snd out) ≡ₚ map tci_id calls) w.
Proof.
  revert w. induction calls as [|tc calls IH]; intros w; cbn [split_results]; [by apply twp_ret|].
  destruct (result_map rs !! tci_id tc) as [r|] eqn:Hr.
  - apply twp_bind. eapply twp_mono; [apply IH|]. intros [c x] w1 [H1 Hp]. apply twp_ret. split; [done|].
    apply result_map_Some in Hr as [Hid _]. cbn in *. by rewrite Hid, Hp.
  - apply twp_bind. eapply twp_mono; [apply mild_host|]. intros now w1 H1.
    apply twp_bind. eapply twp_mono; [apply IH|]. intros [c x] w2 [H2 Hp]. apply twp_ret.
    split; [by transitivity w1|]. cbn in *. rewrite !map_app in *. cbn. rewrite <- Permutation_middle. by rewrite Hp.
Qed.

(** The answers of an outcome. *)
Definition outcome_ok (calls : list ToolCallInfo) (o : ToolExecOutcome) : Prop :=
  match o with
  | Completed rs _ _ _ | Stopped rs _ _ _ | ToolsAborted rs _ _ => in_order calls rs
  | SteeringInterrupt completed cancelled _ _ _ =>
    map tr_tool_call_id (completed ++ cancelled) ≡ₚ map tci_id calls
  | ToolsChannelClosed => True
  end.

(** How a batch may end. *)
Definition ends_with (calls : list ToolCallInfo) (s : S) (o : ToolExecOutcome) (s' : S) : Prop :=
  dispatches s s' /\ outcome_ok calls o /\ (o = ToolsChannelClosed -> dropped (fst s')).

Lemma ends_with_later calls s s1 o s' : dispatches s s1 -> ends_with calls s1 o s' -> ends_with calls s o s'.
Proof. intros Hd (Hd1 & Ho). split; [by transitivity s1|done]. Qed.

Lemma twp_lift {A} (m : Prog (World H) A) (Q : A -> World H -> Prop) w b :
  twp m Q w -> twp (lift m) (fun a s' => Q a (fst s') /\ snd s' = b) (w, b).
Proof. unfold twp, lift. by destruct (m w) as [[a w']|]. Qed.

Lemma aborted_ends config calls injected s :
  twp (build_aborted_outcome config calls injected) (ends_with calls s) s.
Proof.
  unfold build_aborted_outcome. destruct s as [w b]. apply twp_bind. unfold twp at 1, batch_get, gets.
  apply twp_bind. eapply twp_mono; [apply twp_lift, fill_results_spec|]. intros rs [w' b'] [[Hw Hrs] Hb].
  cbn in Hw, Hb. subst b'. apply twp_ret. split; [by apply world_step_dispatches|done].
Qed.

Lemma transferred_ends config calls injected s :
  twp (build_transfer_outcome config calls injected) (ends_with calls s) s.
Proof.
  unfold build_transfer_outcome. destruct s as [w b]. apply twp_bind. unfold twp at 1, batch_get, gets.
  apply twp_bind. eapply twp_mono; [apply twp_lift, fill_results_spec|]. intros rs [w' b'] [[Hw Hrs] Hb].
  cbn in Hw, Hb. subst b'. apply twp_ret. split; [by apply world_step_dispatches|done].
Qed.

Lemma steering_ends config calls injected s :
  twp (build_steering_outcome config calls injected) (ends_with calls s) s.
Proof.
  unfold build_steering_outcome. destruct s as [w b]. apply twp_bind. unfold twp at 1, batch_get, gets.
  apply twp_bind. eapply twp_mono; [apply twp_lift, split_results_spec|]. intros [c x] [w' b'] [[Hw Hrs] Hb].
  cbn in Hw, Hb. subst b'. apply twp_bind.
  eapply twp_mono; [apply (stays_dispatches (match cfg_message_provider config with
    | Some provider => lift (host (poll_steering provider)) | None => mret [] end)); straight|].
  intros msgs s2 H2. apply twp_ret. split; [|done]. transitivity (w', b); [by apply world_step_dispatches|done].
Qed.

Lemma completed_ends calls injected s :
  Forall (fun tc => answered (b_results (snd s)) (tci_id tc)) calls ->
  twp (build_completed_outcome calls injected) (ends_with calls s) s.
Proof.
  intros Ha. unfold build_completed_outcome. apply twp_bind. unfold twp at 1, batch_get, gets.
  apply twp_ret. split; [reflexivity|]. split; [by apply order_results_in_order|done].
Qed.

(** ** Dispatching a group *)

(** Answered, or about to be. *)
Definition owed (s : S) (tc : ToolCallInfo) : Prop :=
  answered (b_results (snd s)) (tci_id tc) \/ tc ∈ map t_call (b_tasks (snd s)).

(** What dispatching keeps. *)
Definition grows (calls : list ToolCallInfo) (s s' : S) : Prop :=
  dispatches s s' /\ (pool_ok calls (snd s) -> pool_ok calls (snd s'))
  /\ forall tc, owed s tc -> owed s' tc.

#[local] Instance grows_preorder calls : PreOrder (grows calls).
Proof.
  split; [by intros s; split; [reflexivity|]|]. intros s1 s2 s3 (Hd & Hp & Ho) (Hd2 & Hp2 & Ho2).
  split; [by transitivity s2|]. split; auto.
Qed.

Lemma keeps_grows calls s s' : keeps calls s s' -> grows calls s s'.
Proof.
  intros (Hd & Hc & Hp). split; [done|]. split; [done|]. intros tc [Ha|Hin].
  - left. by apply (answered_mono s).
  - right. by rewrite Hc.
Qed.

Lemma lift_emit_spec e s :
  is_tool_event e = true ->
  twp (lift (emit e)) (fun ok s' => stays s s' /\ (ok = false -> dropped (fst s'))) s.
Proof.
  intros He. apply twp_conj; [apply stays_lift; by apply mild_emit|]. destruct s as [w b].
  unfold twp, lift, emit, dropped. by destruct (w_room w) as [[|]|] eqn:Hr.
Qed.

Lemma dispatch_single_spec config calls tc arguments idx s :
  calls !! idx = Some tc ->
  twp (dispatch_single_tool config tc arguments idx)
      (fun d s' => grows calls s s'
         /\ match d with DispatchClosed => dropped (fst s') | _ => owed s' tc end) s.
Proof.
  intros Hidx. unfold dispatch_single_tool. apply twp_bind. eapply twp_mono; [apply (yield_keeps calls)|].
  intros n s1 H1%keeps_grows. destruct (build_tool_map _ !! tci_name tc) as [tool|].
  2: { apply twp_bind. eapply twp_mono; [apply (emit_error_answers calls)|]. intros u s2 [H2%keeps_grows Ha].
       apply twp_ret. split; [by transitivity s1|by left]. }
  apply twp_bind. apply (twp_mono _ (fun ok s2 => stays s1 s2 /\ (ok = false -> dropped (fst s2)))).
  { destruct (validate_tool_arguments _ _); [by apply lift_emit_spec|by apply twp_ret]. }
  intros ok s2 [H2%(stays_keeps calls)%keeps_grows Hok]. destruct ok; cbn [negb].
  2: { apply twp_ret. split; [by transitivity s1|by apply Hok]. }
  set (t := MkTask idx tc tool _). apply twp_bind. unfold twp, batch_upd, modify. cbn. destruct s2 as [w b]. cbn.
  assert (H12 : grows calls s (w, b)) by by transitivity s1. split.
  - etransitivity; [exact H12|]. split; [apply (dispatches_results _ _ _ []); by rewrite app_nil_r|]. split.
    + intros Hp. apply Forall_app. split; [exact Hp|]. apply Forall_singleton. split; [done|]. by intros [|].
    + intros tc' [Ha|Hin]; [by left|]. right. cbn. rewrite map_app. set_solver.
  - right. cbn. rewrite map_app. cbn. set_solver.
Qed.

Lemma cancelled_stays : ensures stays (batch_is_cancelled (H := H)).
Proof. unfold batch_is_cancelled. straight. Qed.

Lemma abort_join_dispatches config : ensures dispatches (abort_join_handles_with_grace config).
Proof.
  unfold abort_join_handles_with_grace. apply ensures_bind; [tc_solve|apply (keeps_dispatches []), yield_keeps|].
  intros n. apply dispatches_set_tasks.
Qed.

Lemma dispatch_group_spec config calls prepared injected group s :
  (forall i, i ∈ group -> exists p tc, prepared !! i = Some p /\ calls !! p_idx p = Some tc) ->
  twp (dispatch_group config calls prepared injected group)
      (fun r s' => match r with
         | None => grows calls s s' /\ forall i p tc, i ∈ group -> prepared !! i = Some p ->
                     calls !! p_idx p = Some tc -> owed s' tc
         | Some o => ends_with calls s o s'
         end) s.
Proof.
  revert s. induction group as [|i group IH]; intros s Hg; cbn [dispatch_group].
  { apply twp_ret. split; [reflexivity|]. intros i p tc Hi. by apply not_elem_of_nil in Hi. }
  apply twp_bind. eapply twp_mono; [apply cancelled_stays|]. intros c s1 H1.
  pose proof (keeps_grows _ _ _ (stays_keeps calls _ _ H1)) as Hg1. destruct H1 as [Hd1 _]. destruct c.
  { apply twp_bind. eapply twp_mono; [apply abort_join_dispatches|]. intros u s2 H2. apply twp_bind.
    eapply twp_mono; [apply aborted_ends|]. intros o s3 H3. apply twp_ret.
    apply (ends_with_later _ _ s2); [by transitivity s1|done]. }
  destruct (Hg i ltac:(set_solver)) as (p & tc & Hp & Htc). rewrite Hp. cbn. rewrite Htc. cbn.
  apply twp_bind. eapply twp_mono; [by apply (dispatch_single_spec _ calls)|]. intros d s2 [H2 Hd].
  assert (Hnext : owed s2 tc -> twp (dispatch_group config calls prepared injected group)
    (fun r s' => match r with
       | None => grows calls s s' /\ forall i' p tc, i' ∈ i :: group -> prepared !! i' = Some p ->
                   calls !! p_idx p = Some tc -> owed s' tc
       | Some o => ends_with calls s o s'
       end) s2).
  { intros Ho. eapply twp_mono; [apply IH; intros; apply Hg; set_solver|]. intros [o|] s3.
    - intros He. eapply ends_with_later; [|exact He]. transitivity s1; [done|]. apply H2.
    - intros [H3 Hrest]. split; [transitivity s1; [done|by transitivity s2]|].
      intros i' p' tc' [->|Hi']%elem_of_cons Hp' Htc'; [|by eapply Hrest].
      assert (tc' = tc) as -> by congruence. by apply H3. }
  destruct d; [by apply Hnext|by apply Hnext|].
  apply twp_bind. eapply twp_mono; [apply (stays_upd cancel_batch); by split|]. intros u s3 [H3 _].
  apply twp_bind. eapply twp_mono; [apply abort_join_dispatches|]. intros u2 s4 H4. apply twp_ret.
  assert (Hd4 : dispatches s2 s4) by by transitivity s3. split; [|split; [done|]].
  - transitivity s2; [|done]. transitivity s1; [done|apply H2].
  - intros _. by apply Hd4.
Qed.

(** ** The groups in turn *)

Lemma run_groups_spec config calls prepared injected groups s :
  pool_ok calls (snd s) -> b_tasks (snd s) = [] ->
  (forall i, i ∈ concat groups -> exists p tc, prepared !! i = Some p /\ calls !! p_idx p = Some tc) ->
  (forall k tc, calls !! k = Some tc -> answered (b_results (snd s)) (tci_id tc)
     \/ exists i p, i ∈ concat groups /\ prepared !! i = Some p /\ p_idx p = k) ->
  twp (run_groups config calls prepared injected groups) (ends_with calls s) s.
Proof.
  revert s. induction groups as [|group groups IH]; intros s Hp Ht Hg Ha; cbn [run_groups].
  { apply completed_ends. apply Forall_lookup. intros k tc Hk.
    destruct (Ha k tc Hk) as [?|(i & p & Hi & _)]; [done|by apply not_elem_of_nil in Hi]. }
  apply twp_bind. eapply twp_mono; [apply cancelled_stays|]. intros c s1 [Hd1 Ht1].
  destruct c; [eapply twp_mono; [apply aborted_ends|]; intros o s2; by apply ends_with_later|].
  assert (Hp1 : pool_ok calls (snd s1)) by (unfold pool_ok; rewrite Ht1, Ht; constructor).
  apply twp_bind. eapply twp_mono; [apply dispatch_group_spec|].
  { intros i Hi. apply Hg. cbn. set_solver. }
  intros [o|] s2; [intros He; apply twp_ret; by eapply ends_with_later|]. intros [(Hd2 & Hp2 & Ho2) Hrun].
  apply twp_bind. unfold collect_group_results. apply twp_bind. unfold twp at 1, batch_get, gets.
  eapply twp_mono; [by apply collect_loop_spec; [apply Hp2|]|]. intros o s3 [Hd3 Ho].
  assert (Hd03 : dispatches s s3) by (transitivity s1; [done|by transitivity s2]).
  destruct o; [|eapply twp_mono; [first [apply steering_ends|apply transferred_ends|apply aborted_ends]|];
    intros o s4; by apply ends_with_later..].
  destruct (Ho eq_refl) as [Hnil Hall].
  assert (Howed : forall tc, owed s2 tc -> answered (b_results (snd s3)) (tci_id tc)).
  { intros tc [Htc|Htc]; [by apply (answered_mono s2)|by apply Hall]. }
  eapply twp_mono; [apply IH|].
  - unfold pool_ok. by rewrite Hnil.
  - done.
  - intros i Hi. apply Hg. cbn. set_solver.
  - intros k tc Hk. destruct (Ha k tc Hk) as [Hak|(i & p & Hi & Hpi & <-)]; [left; by apply (answered_mono s)|].
    cbn in Hi. apply elem_of_app in Hi as [Hi|Hi]; [|right; by exists i, p].
    left. apply Howed. by apply (Hrun i p).
  - intros o s4. by apply ends_with_later.
Qed.

(** ** Pre-processing *)

Lemma keeps_ends calls s s1 o s' : keeps calls s s1 -> ends_with calls s1 o s' -> ends_with calls s o s'.
Proof. intros [Hd _]. by apply ends_with_later. Qed.

Lemma stop_results_spec config calls reason (all : list (nat * ToolCallInfo)) (ids : list string) s :
  twp (for_each (fun '(idx, tc) =>
         when (negb (bool_decide (tci_id tc ∈ ids)))
           (emit_error_result config (tci_name tc) (tci_id tc)
              (tool_error ("policy stopped tool batch before dispatch: " ++ reason)) idx)) all)
      (fun _ s' => keeps calls s s' /\ forall idx tc, (idx, tc) ∈ all ->
                     tci_id tc ∈ ids \/ answered (b_results (snd s')) (tci_id tc)) s.
Proof.
  revert s. induction all as [|[idx tc] all IH]; intros s; cbn [for_each].
  { apply twp_ret. split; [reflexivity|]. intros idx tc Hin. by apply not_elem_of_nil in Hin. }
  apply twp_bind.
  apply (twp_mono _ (fun _ s1 => keeps calls s s1 /\ (tci_id tc ∈ ids \/ answered (b_results (snd s1)) (tci_id tc)))).
  { case_bool_decide; cbn [negb when].
    - apply twp_ret. split; [reflexivity|by left].
    - eapply twp_mono; [apply (emit_error_answers calls)|]. intros u s1 [? ?]. split; [done|by right]. }
  intros u s1 [H1 Ha]. eapply twp_mono; [apply IH|]. intros u2 s2 [H2 Hrest].
  split; [by transitivity s1|]. intros idx' tc' [[= -> ->]|Hin]%elem_of_cons; [|by eapply Hrest].
  destruct Ha as [?|Ha]; [by left|right]. destruct H2 as [Hd _]. by apply (answered_mono s1).
Qed.

Lemma stopped_ends config calls reason injected s :
  twp (stopped_preprocess_outcome config calls reason injected) (ends_with calls s) s.
Proof.
  unfold stopped_preprocess_outcome, emit_batch_stop_results. apply twp_bind, twp_bind.
  unfold twp at 1, batch_get, gets. set (ids := map _ _).
  eapply twp_mono; [apply (stop_results_spec config calls)|]. intros u s1 [[Hd _] Hall].
  apply twp_bind. unfold twp at 1. apply twp_ret. split; [done|]. split; [|done].
  apply order_results_in_order, Forall_lookup. intros i tc Hi.
  assert (Hin : (i, tc) ∈ imap pair calls) by (apply list_elem_of_lookup_2 with i; by rewrite list_lookup_imap, Hi).
  destruct (Hall i tc Hin) as [Hids|Ha]; [|done]. apply (answered_mono s); [done|].
  apply list_elem_of_fmap in Hids as ([j r] & -> & Hr). by exists j, r.
Qed.

Lemma policy_pass_keeps calls config snapshot tc arguments :
  ensures (keeps calls) (policy_pass config snapshot tc arguments).
Proof. apply keeps_stays. unfold policy_pass. straight. Qed.

Definition pass_idx (p : PreDispatchPassResult) : nat :=
  match p with PassReady i _ | PassSkip i _ => i end.

Lemma pre_dispatch_pass_spec config snapshot calls idx rest pass injected s :
  twp (pre_dispatch_pass config snapshot calls idx rest pass injected)
      (fun r s' => match r with
         | Ok (pass', _) => keeps calls s s' /\ map pass_idx pass' = map pass_idx pass ++ seq idx (length rest)
         | Err o => ends_with calls s o s'
         end) s.
Proof.
  revert idx pass injected s. induction rest as [|tc rest IH]; intros idx pass injected s; cbn [pre_dispatch_pass].
  { apply twp_ret. split; [reflexivity|]. by rewrite app_nil_r. }
  apply twp_bind. eapply twp_mono; [apply cancelled_stays|]. intros c s1 H1%(stays_keeps calls). destruct c.
  { apply twp_bind. eapply twp_mono; [apply aborted_ends|]. intros o s2 He. apply twp_ret. by apply (keeps_ends _ _ s1). }
  apply twp_bind. eapply twp_mono; [apply (policy_pass_keeps calls)|]. intros [v args] s2 H2.
  assert (H02 : keeps calls s s2) by by transitivity s1.
  assert (Hnext : forall p injected', pass_idx p = idx ->
    twp (pre_dispatch_pass config snapshot calls (Datatypes.S idx) rest (pass ++ [p]) injected')
      (fun r s' => match r with
         | Ok (pass', _) => keeps calls s s'
             /\ map pass_idx pass' = map pass_idx pass ++ seq idx (length (tc :: rest))
         | Err o => ends_with calls s o s'
         end) s2).
  { intros p injected' Hp. eapply twp_mono; [apply IH|]. intros [[pass' inj]|o] s3.
    - intros [H3 Hm]. split; [by transitivity s2|]. rewrite Hm, map_app, <- app_assoc. cbn. by rewrite Hp.
    - by apply keeps_ends. }
  destruct v; try by apply Hnext.
  apply twp_bind. eapply twp_mono; [apply stopped_ends|]. intros o s3 He. apply twp_ret. by apply (keeps_ends _ _ s2).
Qed.

(** What the gate leaves of a call. *)
Definition gated (calls : list ToolCallInfo) (tc : ToolCallInfo) (s : S) (g : GateResult) (s' : S) : Prop :=
  match g with
  | GatePass _ _ => keeps calls s s'
  | GateSkip _ => keeps calls s s' /\ answered (b_results (snd s')) (tci_id tc)
  | GateEnd o => ends_with calls s o s'
  end.

Lemma gated_later calls tc s s1 g s' : keeps calls s s1 -> gated calls tc s1 g s' -> gated calls tc s g s'.
Proof.
  intros H1. destruct g; cbn; [by transitivity s1| |by apply keeps_ends]. intros [? ?]. split; [by transitivity s1|done].
Qed.

(** What the approval callback comes to. *)
Definition resolved (calls : list ToolCallInfo) (tc : ToolCallInfo) (s : S) (o : ApprovalOutcome) (s' : S) : Prop :=
  keeps calls s s'
  /\ match o with
     | OutRejected => answered (b_results (snd s')) (tci_id tc)
     | OutChannelClosed => dropped (fst s')
     | _ => True
     end.

Lemma resolved_later calls tc s s1 o s' : keeps calls s s1 -> resolved calls tc s1 o s' -> resolved calls tc s o s'.
Proof. intros H1 [? ?]. split; [by transitivity s1|done]. Qed.

Lemma approval_resolved_spec calls tc b s :
  twp (emit_approval_resolved tc b) (fun ok s' => keeps calls s s' /\ (ok = false -> dropped (fst s'))) s.
Proof.
  unfold emit_approval_resolved. eapply twp_mono; [by apply lift_emit_spec|]. intros ok s' [H1 Hd].
  split; [by apply stays_keeps|done].
Qed.

Lemma reject_panic_spec config calls tc idx m s :
  twp (reject_approval_panic config tc idx m) (resolved calls tc s) s.
Proof.
  unfold reject_approval_panic. apply twp_bind. eapply twp_mono; [apply (approval_resolved_spec calls)|].
  intros ok s1 [H1 Hd]. destruct ok; cbn [negb]; [|apply twp_ret; split; [done|by apply Hd]].
  apply twp_bind. eapply twp_mono; [apply (emit_error_answers calls)|]. intros u s2 [H2 Ha]. apply twp_ret.
  split; [by transitivity s1|done].
Qed.

Lemma check_approval_spec config calls approve tc arguments idx ra s :
  twp (check_approval config approve tc arguments idx ra) (resolved calls tc s) s.
Proof.
  unfold check_approval. apply twp_bind. eapply twp_mono; [apply cancelled_stays|].
  intros c s1 H1%(stays_keeps calls). destruct c; [by apply twp_ret|].
  apply twp_bind. eapply twp_mono; [by apply lift_emit_spec|]. intros ok s2 [H2%(stays_keeps calls) Hd].
  assert (H02 : keeps calls s s2) by by transitivity s1.
  destruct ok; cbn [negb]; [|apply twp_ret; split; [done|by apply Hd]].
  apply twp_bind. eapply twp_mono; [apply (keeps_stays calls); straight|]. intros reply s3 H3.
  assert (H03 : keeps calls s s3) by by transitivity s2. clear H1 H2 Hd H02 H3 s1 s2.
  assert (Hreject : forall s4 m, keeps calls s s4 -> twp (reject_approval_panic config tc idx m) (resolved calls tc s) s4).
  { intros s4 m H4. eapply twp_mono; [apply (reject_panic_spec _ calls)|]. intros o s5. by apply resolved_later. }
  assert (Hask : forall k, (forall s4, keeps calls s s4 -> twp k (resolved calls tc s) s4) ->
    twp (batch_is_cancelled ≫= fun cancelled : bool =>
      if cancelled then emit_approval_resolved tc false ≫= fun ok : bool =>
        mret (if ok then OutCancelled else OutChannelClosed) else k) (resolved calls tc s) s3).
  { intros k Hk. apply twp_bind. eapply twp_mono; [apply cancelled_stays|]. intros c s4 H4%(stays_keeps calls).
    assert (H04 : keeps calls s s4) by by transitivity s3. destruct c; [|by apply Hk].
    apply twp_bind. eapply twp_mono; [apply (approval_resolved_spec calls)|]. intros ok s5 [H5 Hd]. apply twp_ret.
    assert (H05 : keeps calls s s5) by by transitivity s4. destruct ok; split; try done. by apply Hd. }
  destruct reply as [m|m|decision]; [by apply Hreject|apply Hask; intros; by apply Hreject|].
  apply Hask. intros s4 H4. apply twp_bind. eapply twp_mono; [apply (approval_resolved_spec calls)|].
  intros ok s5 [H5 Hd]. assert (H05 : keeps calls s s5) by by transitivity s4.
  destruct ok; cbn [negb]; [|apply twp_ret; split; [done|by apply Hd]].
  destruct decision; try by apply twp_ret.
  apply twp_bind. eapply twp_mono; [apply (emit_error_answers calls)|]. intros u s6 [H6 Ha]. apply twp_ret.
  split; [by transitivity s5|done].
Qed.

Lemma approval_gate_spec config snapshot calls idx tc arguments injected s :
  twp (approval_gate config snapshot calls idx tc arguments injected) (gated calls tc s) s.
Proof.
  unfold approval_gate. destruct (approval_for config tc) as [approve|]; [|apply twp_ret; cbn; reflexivity].
  apply twp_bind. eapply twp_mono; [apply (check_approval_spec _ calls)|]. intros o s1 [H1 Ho].
  destruct o; try by apply twp_ret.
  - unfold recheck_policies. apply twp_bind. eapply twp_mono; [apply (policy_pass_keeps calls)|].
    intros [v args] s2 H2. assert (H02 : keeps calls s s2) by by transitivity s1. destruct v; try by apply twp_ret.
    + apply twp_bind. eapply twp_mono; [apply stopped_ends|]. intros o s3 He. apply twp_ret. by apply (keeps_ends _ _ s2).
    + apply twp_bind. eapply twp_mono; [apply (emit_error_answers calls)|]. intros u s3 [H3 Ha]. apply twp_ret.
      split; [by transitivity s2|done].
  - apply twp_bind. eapply twp_mono; [apply aborted_ends|]. intros o s2 He. apply twp_ret. by apply (keeps_ends _ _ s1).
  - apply twp_ret. split; [apply H1|done].
Qed.

(** Every call passed on is answered or prepared. *)
Definition accounts (calls : list ToolCallInfo) (pass : list PreDispatchPassResult)
    (prepared : list PreparedToolCall) (s : S) (r : result PreprocessResult ToolExecOutcome) (s' : S) : Prop :=
  match r with
  | Ok pr => keeps calls s s' /\ (exists more, pr_prepared pr = prepared ++ more)
      /\ (forall p, p ∈ pr_prepared pr -> p ∈ prepared \/ p_idx p ∈ map pass_idx pass)
      /\ forall i tc, i ∈ map pass_idx pass -> calls !! i = Some tc ->
           answered (b_results (snd s')) (tci_id tc) \/ exists p, p ∈ pr_prepared pr /\ p_idx p = i
  | Err o => ends_with calls s o s'
  end.

Lemma approval_pass_spec config snapshot calls pass prepared injected s :
  Forall (fun p => pass_idx p < length calls) pass ->
  twp (approval_pass config snapshot calls pass prepared injected) (accounts calls pass prepared s) s.
Proof.
  revert prepared injected s. induction pass as [|p pass IH]; intros prepared injected s Hb; cbn [approval_pass].
  { apply twp_ret. split; [reflexivity|]. split; [exists []; by rewrite app_nil_r|]. split; [by left|].
    intros i tc Hi. by apply not_elem_of_nil in Hi. }
  apply Forall_cons in Hb as [Hp Hb]. apply lookup_lt_is_Some in Hp as [tc Htc].
  apply twp_bind. eapply twp_mono; [apply cancelled_stays|]. intros c s1 H1%(stays_keeps calls). destruct c.
  { apply twp_bind. eapply twp_mono; [apply aborted_ends|]. intros o s2 He. apply twp_ret. by apply (keeps_ends _ _ s1). }
  assert (Hnext : forall s2 prepared' injected',
    keeps calls s s2 ->
    (answered (b_results (snd s2)) (tci_id tc) /\ prepared' = prepared
     \/ exists args, prepared' = prepared ++ [MkPrepared (pass_idx p) args]) ->
    twp (approval_pass config snapshot calls pass prepared' injected') (accounts calls (p :: pass) prepared s) s2).
  { intros s2 prepared' injected' H2 Hor. eapply twp_mono; [by apply IH|]. intros [pr|o] s3; [|by apply keeps_ends].
    intros (H3 & (more & Hmore) & Hback & Hacc). split; [by transitivity s2|].
    destruct Hor as [[Ha ->]|[args ->]].
    - split; [by exists more|]. split; [intros q Hq; destruct (Hback q Hq); [by left|right; cbn; set_solver]|].
      intros i tc' Hi Htc'. cbn in Hi. apply elem_of_cons in Hi as [->|Hi]; [|by apply Hacc].
      left. rewrite Htc in Htc'. injection Htc' as <-. destruct H3 as [Hd3 _]. by apply (answered_mono s2).
    - split; [exists (MkPrepared (pass_idx p) args :: more); by rewrite Hmore, <- app_assoc|].
      split.
      + intros q Hq. destruct (Hback q Hq) as [Hin|Hin]; [|right; cbn; set_solver].
        apply elem_of_app in Hin as [?| ->%list_elem_of_singleton]; [by left|right; cbn; set_solver].
      + intros i tc' Hi Htc'. cbn in Hi. apply elem_of_cons in Hi as [->|Hi]; [|by apply Hacc].
        right. exists (MkPrepared (pass_idx p) args). split; [|done]. rewrite Hmore. set_solver. }
  destruct p as [idx arguments|idx error_text]; cbn [pass_idx] in Htc; rewrite Htc; apply twp_bind.
  - eapply twp_mono; [apply (approval_gate_spec _ _ calls)|]. intros g s2 Hg.
    apply (gated_later _ _ s) in Hg; [|done]. destruct g as [args inj|inj|o].
    + apply Hnext; [done|]. right. by exists args.
    + destruct Hg as [Hg Ha]. apply Hnext; [done|]. by left.
    + by apply twp_ret.
  - eapply twp_mono; [apply (emit_error_answers calls)|]. intros u s2 [H2 Ha].
    apply Hnext; [by transitivity s1|by left].
Qed.

Lemma preprocess_spec config calls s :
  twp (preprocess_tool_calls config calls)
      (fun r s' => match r with
         | Ok pr => keeps calls s s'
             /\ Forall (fun p => p_idx p < length calls) (pr_prepared pr)
             /\ forall i tc, calls !! i = Some tc ->
                  answered (b_results (snd s')) (tci_id tc) \/ exists p, p ∈ pr_prepared pr /\ p_idx p = i
         | Err o => ends_with calls s o s'
         end) s.
Proof.
  unfold preprocess_tool_calls. apply twp_bind. eapply twp_mono; [apply (keeps_stays calls); straight|].
  intros snapshot s1 H1. apply twp_bind. eapply twp_mono; [apply pre_dispatch_pass_spec|].
  intros [[pass injected]|o] s2; [|intros He; apply twp_ret; by apply (keeps_ends _ _ s1)].
  intros [H2 Hm]. cbn in Hm. assert (H02 : keeps calls s s2) by by transitivity s1.
  eapply twp_mono; [apply approval_pass_spec|].
  - apply Forall_forall. intros p Hp. apply (list_elem_of_fmap_2 pass_idx) in Hp.
    change (pass_idx <$> pass) with (map pass_idx pass) in Hp. rewrite Hm in Hp. apply elem_of_seq in Hp. lia.
  - intros [pr|o] s3; [|by apply keeps_ends]. intros (H3 & _ & Hback & Hacc).
    split; [by transitivity s2|]. rewrite Hm in Hback, Hacc. split.
    + apply Forall_forall. intros p Hp. destruct (Hback p Hp) as [Hin|Hin]; [by apply not_elem_of_nil in Hin|].
      apply elem_of_seq in Hin. lia.
    + intros i tc Hi. apply Hacc; [|done]. apply elem_of_seq. apply lookup_lt_Some in Hi. lia.
Qed.

(** ** The batch *)

Lemma refuse_partition_spec config calls prepared injected reason s :
  Forall (fun p => p_idx p < length calls) prepared ->
  (forall i tc, calls !! i = Some tc ->
     answered (b_results (snd s)) (tci_id tc) \/ exists p, p ∈ prepared /\ p_idx p = i) ->
  twp (refuse_partition config calls prepared injected reason) (ends_with calls s) s.
Proof.
  intros Hb Ha. unfold refuse_partition. apply twp_bind.
  set (body := fun prep : PreparedToolCall => _).
  assert (Hloop : forall l s, Forall (fun p => p_idx p < length calls) l ->
    twp (for_each body l) (fun _ s' => keeps calls s s' /\ forall p tc, p ∈ l -> calls !! p_idx p = Some tc ->
      answered (b_results (snd s')) (tci_id tc)) s).
  { clear. induction l as [|p l IH]; intros s Hb; cbn [for_each].
    { apply twp_ret. split; [reflexivity|]. intros p tc Hp. by apply not_elem_of_nil in Hp. }
    apply Forall_cons in Hb as [Hp Hb]. apply lookup_lt_is_Some in Hp as [tc Htc]. apply twp_bind.
    unfold body at 1. rewrite Htc. eapply twp_mono; [apply (emit_error_answers calls)|]. intros u s1 [H1 Ha1].
    eapply twp_mono; [by apply IH|]. intros u2 s2 [H2 Hrest]. split; [by transitivity s1|].
    intros p' tc' [->|Hin]%elem_of_cons Htc'; [|by eapply Hrest].
    rewrite Htc in Htc'. injection Htc' as <-. destruct H2 as [Hd _]. by apply (answered_mono s1). }
  eapply twp_mono; [by apply Hloop|]. intros u s1 [[Hd _] Hall]. apply twp_bind. unfold twp at 1. apply twp_ret.
  split; [done|]. split; [|done]. apply order_results_in_order, Forall_lookup. intros i tc Hi.
  destruct (Ha i tc Hi) as [H0|(p & Hp & <-)]; [by apply (answered_mono s)|by apply (Hall p)].
Qed.

Lemma compute_groups_mild policy calls prepared :
  Forall (fun p => p_idx p < length calls) prepared ->
  ensures world_step (compute_execution_groups (H := H) policy calls prepared).
Proof.
  intros Hb w. pose proof (compute_execution_groups_returns policy calls prepared w Hb) as Hr.
  revert Hr. unfold compute_execution_groups. destruct prepared; [intros _; apply twp_ret; reflexivity|].
  destruct policy; try by (intros _; apply twp_ret; reflexivity).
  - destruct (mapM _ _); [|done]. intros _. apply twp_ret. reflexivity.
  - destruct (mapM _ _); [|done]. intros _. apply twp_bind. eapply twp_mono; [apply mild_host|].
    intros groups w1 H1. by apply twp_ret.
Qed.

Lemma run_batch_spec config calls s :
  b_tasks (snd s) = [] -> twp (run_batch config calls) (ends_with calls s) s.
Proof.
  intros Ht. unfold run_batch. apply twp_bind. eapply twp_mono; [apply preprocess_spec|].
  intros [[prepared injected]|o] s1; [|intros He; by apply twp_ret]. intros (H1 & Hb & Ha). cbn in Hb, Ha.
  apply twp_bind. eapply twp_mono; [apply cancelled_stays|]. intros c s2 [Hd2 Ht2].
  assert (Hd02 : dispatches s s2) by (transitivity s1; [apply H1|done]).
  destruct c; [eapply twp_mono; [apply aborted_ends|]; intros o s3; by apply ends_with_later|].
  destruct s2 as [w b]. apply twp_bind.
  eapply twp_mono; [apply twp_lift, (twp_of_wlp _ (fun _ => world_step w) (fun r _ => forall groups, r = Ok groups ->
    concat groups ≡ₚ seq 0 (length prepared)) w)|].
  { by apply compute_groups_mild. }
  { unfold wlp. destruct (compute_execution_groups _ _ _ w) as [[r w']|] eqn:Hrun; [|done].
    by apply execution_groups_partition in Hrun as [? _]. }
  intros r [w3 b3] [[Hw Hgroups] Hb3]. cbn in Hw, Hgroups, Hb3. subst b3.
  assert (Hd3 : dispatches s (w3, b)).
  { transitivity (w, b); [done|by apply world_step_dispatches]. }
  assert (Ha3 : forall i tc, calls !! i = Some tc ->
     answered (b_results b) (tci_id tc) \/ exists p, p ∈ prepared /\ p_idx p = i).
  { intros i tc Hi. destruct (Ha i tc Hi) as [Hans|?]; [left|by right]. by apply (answered_mono s1 (w, b)). }
  assert (Htb : b_tasks b = []).
  { cbn in Ht2. destruct H1 as (_ & Hc & _). rewrite Ht in Hc. destruct (b_tasks (snd s1)); [congruence|done]. }
  destruct r as [groups|reason].
  - specialize (Hgroups groups eq_refl). eapply twp_mono; [apply run_groups_spec|].
    + unfold pool_ok. cbn. rewrite Htb. constructor.
    + done.
    + intros i Hi. rewrite Hgroups, elem_of_seq in Hi. destruct (lookup_lt_is_Some_2 prepared i) as [p Hp]; [lia|].
      rewrite Forall_lookup in Hb. destruct (lookup_lt_is_Some_2 calls (p_idx p)) as [tc Htc]; [by eapply Hb|].
      by exists p, tc.
    + intros k tc Hk. destruct (Ha3 k tc Hk) as [?|(p & Hp & Hidx)]; [by left|right].
      apply list_elem_of_lookup in Hp as [i Hi]. exists i, p. split; [|done].
      rewrite Hgroups. apply elem_of_seq. apply lookup_lt_Some in Hi. lia.
    + intros o s4. by apply ends_with_later.
  - eapply twp_mono; [by apply refuse_partition_spec|]. intros o s4. by apply ends_with_later.
Qed.

Lemma execute_tools_spec config calls w :
  twp (execute_tools_concurrently config calls)
      (fun o w' => exists b, ends_with calls (w, batch_new) o (w', b)) w.
Proof.
  pose proof (run_batch_spec config calls (w, batch_new) eq_refl) as Hb.
  revert Hb. unfold execute_tools_concurrently, twp.
  destruct (run_batch config calls (w, batch_new)) as [[o [w' b]]|]; [|done]. intros He. by exists b.
Qed.


End Spec.

(** ** The interface discharged *)

#[export] Instance tool_dispatch {E : Ext} {H : Type} : ToolExecutor H := {|
  execute_tools := execute_tools_concurrently;
|}.

#[export] Instance tool_dispatch_lawful {E : Ext} {H : Type} : LawfulToolExecutor (H := H).
Proof.
  split; intros config calls w; unfold execute_tools, tool_dispatch.
  - eapply twp_mono; [apply execute_tools_spec|]. done.
  - apply twp_wlp. eapply twp_mono; [apply execute_tools_spec|]. intros o w' (b & Hd & _ & Hc).
    destruct Hd as (He & Hdd & _). by split_and!.
  - apply twp_wlp. eapply twp_mono; [apply execute_tools_spec|]. intros o w' (b & _ & Ho & _) rs Hrs.
    destruct o; cbn in Hrs; simplify_eq; cbn in Ho; unfold in_order in Ho; by rewrite Ho.
  - apply twp_wlp. eapply twp_mono; [apply execute_tools_spec|]. intros o w' (b & (_ & _ & Hf & _) & _). exact Hf.
Qed.
