(* ===== verification/ToolBatchSafety.v ===== *)
(** * Tool dispatch starts only what was cleared, and reports only what it announced

    Two safety results over every schedule: a tool starts only with arguments
    the pre-dispatch policies passed and, where approval is asked for, after
    the approval; and the results handed to the model are those shown to the
    listener, but for the calls a batch gives up. *)
From S2P Require Export ToolBatchSpec StreamLoopSpec.
Open Scope list_scope.

Section Safety.
Context `{E : Ext} {H : Type}.
Implicit Types (config : AgentLoopConfig H).

#[local] Abbreviation S := (World H * Batch H)%type.
#[local] Abbreviation D := (Prog (World H * Batch H)).

Definition is_start (e : AgentEvent) : bool :=
  match e with ToolExecutionStart _ _ _ => true | _ => false end.

(** No tool starts. *)
Definition startless (w w' : World H) : Prop :=
  exists es, w_events w' = w_events w ++ es /\ Forall (fun e => is_start e = false) es.

#[local] Instance startless_preorder : PreOrder startless.
Proof.
  split; [intros w; exists []; by rewrite app_nil_r|].
  intros w1 w2 w3 (es & He & Hes) (fs & Hf & Hfs). exists (es ++ fs).
  rewrite Hf, He, app_assoc. split; [done|by apply Forall_app].
Qed.

Definition idle (s s' : S) : Prop := startless (fst s) (fst s').

#[local] Instance idle_preorder : PreOrder idle.
Proof. split; [intros s; unfold idle; reflexivity|]. intros s1 s2 s3. unfold idle. apply transitivity. Qed.

Lemma idle_lift {A} (m : Prog (World H) A) : respects startless m -> respects idle (lift m).
Proof.
  intros Hm [w b]. specialize (Hm w). revert Hm. unfold wlp, lift, idle. by destruct (m w) as [[]|].
Qed.

Lemma startless_modify f : (forall w, w_events (f w) = w_events w) -> respects startless (modify f).
Proof. intros Hf w. apply wlp_modify. exists []. by rewrite Hf, app_nil_r. Qed.

Lemma startless_host {A} (f : H -> A * H) : respects startless (host f).
Proof. intros w. unfold wlp, host. destruct (f (w_host w)). exists []. by rewrite app_nil_r. Qed.

Lemma startless_is_cancelled : respects startless is_cancelled.
Proof.
  intros w. unfold wlp, is_cancelled. destruct (w_cancel w) as [[|]|]; exists []; by rewrite app_nil_r.
Qed.

Lemma startless_emit e : is_start e = false -> respects startless (emit e).
Proof.
  intros He w. unfold wlp, emit.
  destruct (w_room w) as [[|]|]; [exists []; by rewrite app_nil_r|exists [e]..]; (split; [done|by apply Forall_singleton]).
Qed.

Lemma startless_emit_ e : is_start e = false -> respects startless (emit_ e).
Proof.
  intros He. apply respects_bind; [tc_solve|by apply startless_emit|]. intros b. apply respects_ret. tc_solve.
Qed.

Lemma idle_upd f : respects idle (batch_upd (H := H) f).
Proof. intros s. apply wlp_modify. unfold idle. cbn. reflexivity. Qed.

Create HintDb idle.
#[local] Hint Resolve idle_upd startless_host startless_is_cancelled : idle.
#[local] Hint Extern 1 (respects _ (mret _)) => (apply respects_ret; tc_solve) : idle.
#[local] Hint Extern 1 (respects _ (gets _)) => (apply respects_gets; tc_solve) : idle.
#[local] Hint Extern 1 (respects _ stuck) => (apply respects_stuck) : idle.
#[local] Hint Extern 1 (respects _ (batch_get _)) => (apply respects_gets; tc_solve) : idle.
#[local] Hint Extern 1 (respects startless (emit _)) => (apply startless_emit; reflexivity) : idle.
#[local] Hint Extern 1 (respects startless (emit_ _)) => (apply startless_emit_; reflexivity) : idle.
#[local] Hint Extern 1 (respects startless (now_timestamp _)) => (apply startless_host) : idle.
#[local] Hint Extern 2 (respects startless (modify _)) => (apply startless_modify; intros ?; done) : idle.

Ltac idle :=
  repeat first
    [ solve [eauto with idle]
    | apply respects_bind; [tc_solve| |intros]
    | apply respects_when; [tc_solve|]
    | apply respects_for_each; [tc_solve|intros]
    | apply idle_lift
    | case_match ].

Lemma idle_resolve config tool : respects startless (resolve_credential config tool).
Proof. unfold resolve_credential. idle. Qed.

Lemma idle_run_tool t arguments credential : respects startless (run_tool t arguments credential).
Proof. unfold run_tool. idle. Qed.

#[local] Hint Resolve idle_resolve idle_run_tool : idle.

Lemma idle_task_step config t : respects idle (task_step config t).
Proof. unfold task_step. idle. Qed.

#[local] Hint Resolve idle_task_step : idle.

Lemma idle_tick config i : respects idle (tick config i).
Proof. unfold tick. idle. Qed.

#[local] Hint Resolve idle_tick : idle.

Lemma idle_yield config : respects idle (yield config).
Proof. unfold yield. idle. Qed.

Lemma idle_tick_first config n : respects idle (tick_first config n).
Proof. induction n as [|n IH]; cbn [tick_first]; idle. Qed.

#[local] Hint Resolve idle_yield idle_tick_first : idle.

Lemma idle_next_joined config pick : respects idle (next_joined config pick).
Proof. unfold next_joined, finish_first. idle. Qed.

Lemma idle_emit_error config name id r idx : respects idle (emit_error_result config name id r idx).
Proof. unfold emit_error_result. idle. Qed.

#[local] Hint Resolve idle_next_joined idle_emit_error : idle.

Lemma idle_fill config text results calls : respects startless (fill_results config text results calls).
Proof. induction calls as [|tc calls IH]; cbn [fill_results]; idle. Qed.

Lemma idle_split config results calls : respects startless (split_results config results calls).
Proof. induction calls as [|tc calls IH]; cbn [split_results]; idle. Qed.

#[local] Hint Resolve idle_fill idle_split : idle.

Lemma idle_aborted config calls injected : respects idle (build_aborted_outcome config calls injected).
Proof. unfold build_aborted_outcome. idle. Qed.

Lemma idle_transfer config calls injected : respects idle (build_transfer_outcome config calls injected).
Proof. unfold build_transfer_outcome. idle. Qed.

Lemma idle_steering config calls injected : respects idle (build_steering_outcome config calls injected).
Proof. unfold build_steering_outcome. idle. Qed.

Lemma idle_completed calls injected : respects idle (build_completed_outcome (H := H) calls injected).
Proof. unfold build_completed_outcome. idle. Qed.

Lemma idle_cancelled : respects idle (batch_is_cancelled (H := H)).
Proof. unfold batch_is_cancelled. idle. Qed.

#[local] Hint Resolve idle_aborted idle_transfer idle_steering idle_completed idle_cancelled : idle.

Lemma idle_stopped config calls reason injected : respects idle (stopped_preprocess_outcome config calls reason injected).
Proof. unfold stopped_preprocess_outcome, emit_batch_stop_results. idle. Qed.

Lemma idle_join_failure config calls idx m : respects idle (emit_join_failure config calls idx m).
Proof. unfold emit_join_failure. idle. Qed.

#[local] Hint Resolve idle_stopped idle_join_failure : idle.

Lemma idle_cancel_remaining config calls : respects idle (cancel_remaining config calls).
Proof. unfold cancel_remaining, report_join. idle. Qed.

#[local] Hint Resolve idle_cancel_remaining : idle.

Lemma idle_collect config calls : respects idle (collect_group_results config calls).
Proof.
  unfold collect_group_results. apply respects_bind; [tc_solve|idle|]. intros n.
  induction n as [|n IH]; cbn [collect_loop]; idle.
Qed.

Lemma idle_refuse config calls prepared injected reason :
  respects idle (refuse_partition config calls prepared injected reason).
Proof. unfold refuse_partition. idle. Qed.

Lemma idle_groups policy calls prepared : respects startless (compute_execution_groups (H := H) policy calls prepared).
Proof. unfold compute_execution_groups. idle. Qed.

Lemma idle_policy_pass config snapshot tc arguments : respects idle (policy_pass config snapshot tc arguments).
Proof. unfold policy_pass. idle. Qed.

Lemma idle_abort_join config : respects idle (abort_join_handles_with_grace config).
Proof. unfold abort_join_handles_with_grace. idle. Qed.

Lemma idle_resolved tc b : respects idle (emit_approval_resolved (H := H) tc b).
Proof. unfold emit_approval_resolved. idle. Qed.

#[local] Hint Resolve idle_collect idle_refuse idle_groups idle_policy_pass idle_abort_join idle_resolved : idle.

Lemma idle_reject config tc idx m : respects idle (reject_approval_panic config tc idx m).
Proof. unfold reject_approval_panic. idle. Qed.

#[local] Hint Resolve idle_reject : idle.

(** ** What a tool may start with *)

(** The policies passed the arguments, as the model or the approver gave them.
    The state they see is the one at the start of the batch. *)
Definition cleared config (snapshot : SessionState) (tc : ToolCallInfo) (arguments : Value) : Prop :=
  exists given h h' verdict,
    run_pre_dispatch_policies (cfg_pre_dispatch_policies config)
      (MkToolDispatchContext (tci_name tc) (tci_id tc) given
         (build_tool_map (cfg_tools config) !! tci_name tc ≫= td_execution_root) snapshot) h
    = (verdict, arguments, h')
    /\ (verdict = DContinue \/ exists msgs, verdict = DInject msgs).

(** Approval was not asked for, or has been given. *)
Definition approved config (tc : ToolCallInfo) (es : list AgentEvent) : Prop :=
  approval_for config tc = None \/ ToolApprovalResolved (tci_id tc) (tci_name tc) true ∈ es.

Definition start_ok config snapshot (calls : list ToolCallInfo) (id name : string) (arguments : Value)
    (es : list AgentEvent) : Prop :=
  exists tc, tc ∈ calls /\ tci_id tc = id /\ tci_name tc = name
    /\ cleared config snapshot tc arguments /\ approved config tc es.

(** Every start among [es] is justified by what comes before it. *)
Definition starts_ok config snapshot calls (es : list AgentEvent) : Prop :=
  forall pre post id name arguments,
    es = pre ++ ToolExecutionStart id name arguments :: post ->
    start_ok config snapshot calls id name arguments pre.

Lemma starts_ok_app config snapshot calls es fs :
  starts_ok config snapshot calls es -> Forall (fun e => is_start e = false) fs ->
  starts_ok config snapshot calls (es ++ fs).
Proof.
  intros Hes Hfs pre post id name arguments Heq.
  apply app_eq_inv in Heq as [(k & -> & Hk)|(k & -> & ->)].
  - destruct k as [|e k]; cbn in Hk.
    + subst. apply Forall_cons in Hfs as [Hf _]. done.
    + injection Hk as <- ->. by apply (Hes pre k).
  - apply Forall_app in Hfs as [_ [Hf _]%Forall_cons]. done.
Qed.

Lemma starts_ok_snoc config snapshot calls es id name arguments :
  starts_ok config snapshot calls es -> start_ok config snapshot calls id name arguments es ->
  starts_ok config snapshot calls (es ++ [ToolExecutionStart id name arguments]).
Proof.
  intros Hes Hok pre post id' name' arguments' Heq.
  apply app_eq_inv in Heq as [(k & -> & Hk)|(k & -> & Hk)].
  - destruct k as [|e k]; cbn in Hk; [|injection Hk as <- ->; by apply (Hes pre k)].
    simplify_eq/=. by rewrite app_nil_r in Hok.
  - destruct k as [|e k]; cbn in Hk; [|by destruct k].
    simplify_eq/=. by rewrite app_nil_r.
Qed.

Section Run.
Context config (calls : list ToolCallInfo) (snapshot : SessionState) (es0 : list AgentEvent).

(** Since [es0], only justified starts. *)
Definition safe (s : S) : Prop :=
  exists es, w_events (fst s) = es0 ++ es /\ starts_ok config snapshot calls es.

(** A prepared call is cleared and approved. *)
Definition ready (s : S) (p : PreparedToolCall) : Prop :=
  forall tc, calls !! p_idx p = Some tc ->
    cleared config snapshot tc (p_effective_arguments p)
    /\ exists es, w_events (fst s) = es0 ++ es /\ approved config tc es.

Definition grown (s s' : S) : Prop := exists es, w_events (fst s') = w_events (fst s) ++ es.

#[local] Instance grown_preorder : PreOrder grown.
Proof.
  split; [intros s; exists []; by rewrite app_nil_r|]. intros s1 s2 s3 [es He] [fs Hf].
  exists (es ++ fs). by rewrite Hf, He, app_assoc.
Qed.

Lemma idle_grown s s' : idle s s' -> grown s s'.
Proof. intros (es & He & _). by exists es. Qed.

Lemma idle_safe s s' : idle s s' -> safe s -> safe s'.
Proof.
  intros (fs & Hf & Hfs) (es & He & Hes). exists (es ++ fs). rewrite Hf, He, app_assoc.
  split; [done|by apply starts_ok_app].
Qed.

Lemma ready_grown s s' p : grown s s' -> ready s p -> ready s' p.
Proof.
  intros [fs Hf] Hr tc Htc. destruct (Hr tc Htc) as (Hc & es & He & Ha). split; [done|].
  exists (es ++ fs). rewrite Hf, He, app_assoc. split; [done|].
  destruct Ha as [?|?]; [by left|right; set_solver].
Qed.

(** Programs that keep [safe]. *)
Definition safely {A} (m : D A) (s : S) : Prop := wlp m (fun _ s' => safe s' /\ grown s s') s.

Lemma idle_safely {A} (m : D A) s : respects idle m -> safe s -> safely m s.
Proof.
  intros Hm Hs. eapply wlp_mono; [apply Hm|]. intros a s' Hi. split; [exact (idle_safe _ _ Hi Hs)|by apply idle_grown].
Qed.

Lemma safely_bind {A B} (m : D A) (k : A -> D B) s :
  safely m s -> (forall a s', safe s' -> grown s s' -> safely (k a) s') -> safely (m ≫= k) s.
Proof.
  intros Hm Hk. apply wlp_bind. eapply wlp_mono; [apply Hm|]. intros a s1 [H1 Hg1].
  eapply wlp_mono; [by apply Hk|]. intros b s2 [H2 Hg2]. split; [done|by transitivity s1].
Qed.

Lemma start_safely tc p s :
  safe s -> ready s p -> calls !! p_idx p = Some tc ->
  safely (lift (emit (ToolExecutionStart (tci_id tc) (tci_name tc) (p_effective_arguments p)))) s.
Proof.
  intros (es & He & Hes) Hr Htc. destruct (Hr tc Htc) as (Hc & es' & He' & Ha).
  assert (es' = es) as -> by (rewrite He in He'; by apply app_inv_head in He').
  destruct s as [w b]. unfold safely, wlp, lift, emit.
  assert (Hok : start_ok config snapshot calls (tci_id tc) (tci_name tc) (p_effective_arguments p) es).
  { exists tc. split_and!; try done. by eapply list_elem_of_lookup_2. }
  cbn in He. assert (Hnew : forall w', w_events w' = w_events w ++ [ToolExecutionStart (tci_id tc) (tci_name tc)
      (p_effective_arguments p)] -> safe (w', b) /\ grown (w, b) (w', b)).
  { intros w' Hw'. split; [|by eexists]. eexists. cbn. rewrite Hw', He, <- app_assoc.
    split; [done|by apply starts_ok_snoc]. }
  destruct (w_room w) as [[|n]|]; [split; [by exists es|reflexivity]|by apply Hnew..].
Qed.

Lemma dispatch_single_safely tc p s :
  safe s -> ready s p -> calls !! p_idx p = Some tc ->
  safely (dispatch_single_tool config tc (p_effective_arguments p) (p_idx p)) s.
Proof.
  intros Hs Hr Htc. unfold dispatch_single_tool. apply safely_bind; [by apply idle_safely; [idle|]|].
  intros n s1 Hs1 Hg1. apply (ready_grown _ s1) in Hr; [|done].
  destruct (build_tool_map _ !! tci_name tc) as [tool|]; [|apply idle_safely; [idle|done]].
  apply safely_bind.
  - destruct (validate_tool_arguments _ _); [by apply start_safely|apply idle_safely; [idle|done]].
  - intros ok s2 Hs2 Hg2. apply idle_safely; [idle|done].
Qed.

Lemma dispatch_group_safely prepared injected group s :
  safe s -> Forall (ready s) prepared ->
  safely (dispatch_group config calls prepared injected group) s.
Proof.
  revert s. induction group as [|i group IH]; intros s Hs Hr; cbn [dispatch_group]; [apply idle_safely; [idle|done]|].
  apply safely_bind; [apply idle_safely; [idle|done]|]. intros c s1 Hs1 Hg1.
  assert (Hr1 : Forall (ready s1) prepared) by (eapply Forall_impl; [exact Hr|]; intros p; by apply ready_grown).
  destruct c; [apply idle_safely; [idle|done]|].
  destruct (prepared !! i) as [p|] eqn:Hp; cbn; [|done]. destruct (calls !! p_idx p) as [tc|] eqn:Htc; cbn; [|done].
  apply safely_bind; [apply dispatch_single_safely; [done| |done]; rewrite Forall_lookup in Hr1; by eapply Hr1|].
  intros d s2 Hs2 Hg2.
  assert (Hr2 : Forall (ready s2) prepared) by (eapply Forall_impl; [exact Hr1|]; intros q; by apply ready_grown).
  destruct d; [by apply IH..|]. apply idle_safely; [idle|done].
Qed.

Lemma run_groups_safely prepared injected groups s :
  safe s -> Forall (ready s) prepared -> safely (run_groups config calls prepared injected groups) s.
Proof.
  revert s. induction groups as [|group groups IH]; intros s Hs Hr; cbn [run_groups]; [apply idle_safely; [idle|done]|].
  apply safely_bind; [apply idle_safely; [idle|done]|]. intros c s1 Hs1 Hg1.
  assert (Hr1 : Forall (ready s1) prepared) by (eapply Forall_impl; [exact Hr|]; intros p; by apply ready_grown).
  destruct c; [apply idle_safely; [idle|done]|].
  apply safely_bind; [by apply dispatch_group_safely|]. intros r s2 Hs2 Hg2. destruct r; [apply idle_safely; [idle|done]|].
  apply safely_bind; [apply idle_safely; [idle|done]|]. intros o s3 Hs3 Hg3.
  assert (Hr3 : Forall (ready s3) prepared).
  { eapply Forall_impl; [exact Hr1|]. intros q. apply ready_grown. by transitivity s2. }
  destruct o; [by apply IH|apply idle_safely; [idle|done]..].
Qed.

(** ** Pre-processing makes calls ready *)

Definition pass_cleared (p : PreDispatchPassResult) : Prop :=
  match p with
  | PassReady i args => forall tc, calls !! i = Some tc -> cleared config snapshot tc args
  | PassSkip _ _ => True
  end.

Lemma policy_pass_clears tc given s :
  wlp (policy_pass config snapshot tc given)
      (fun va s' => idle s s' /\ (fst va = DContinue \/ (exists msgs, fst va = DInject msgs) ->
                       cleared config snapshot tc (snd va))) s.
Proof.
  apply wlp_conj; [apply idle_policy_pass|]. destruct s as [w b].
  unfold wlp, policy_pass, lift, host.
  set (ctx := MkToolDispatchContext _ _ _ _ _).
  destruct (run_pre_dispatch_policies (cfg_pre_dispatch_policies config) ctx (w_host w)) as [[v args] h] eqn:Hrun.
  cbn. intros Hv. by exists given, (w_host w), h, v.
Qed.

Lemma pre_dispatch_pass_clears idx rest pass injected s :
  (forall k tc, rest !! k = Some tc -> calls !! (idx + k) = Some tc) -> Forall pass_cleared pass ->
  wlp (pre_dispatch_pass config snapshot calls idx rest pass injected)
      (fun r s' => idle s s' /\ match r with Ok (pass', _) => Forall pass_cleared pass' | Err _ => True end) s.
Proof.
  revert idx pass injected s. induction rest as [|tc rest IH]; intros idx pass injected s Hrest Hpass;
    cbn [pre_dispatch_pass]; [by apply wlp_ret|].
  assert (Htc : calls !! idx = Some tc) by (rewrite <- (Nat.add_0_r idx); by apply Hrest).
  assert (Hrest' : forall k tc', rest !! k = Some tc' -> calls !! (Datatypes.S idx + k) = Some tc').
  { intros k tc' Hk. replace (Datatypes.S idx + k) with (idx + Datatypes.S k) by lia. by apply Hrest. }
  apply wlp_bind. eapply wlp_mono; [apply idle_cancelled|]. intros c s1 H1.
  assert (Herr : forall s2 (m : D ToolExecOutcome), idle s s2 -> respects idle m ->
    wlp (m ≫= fun o => mret (Err o)) (fun r s' => idle s s' /\ match r : result (list PreDispatchPassResult * list AgentMessage) ToolExecOutcome with
      | Ok (pass', _) => Forall pass_cleared pass' | Err _ => True end) s2).
  { intros s2 m H2 Hm. apply wlp_bind. eapply wlp_mono; [apply Hm|]. intros o s3 H3. apply wlp_ret.
    split; [by transitivity s2|done]. }
  destruct c; [apply Herr; [done|idle]|].
  apply wlp_bind. eapply wlp_mono; [apply policy_pass_clears|]. intros [v args] s2 [H2 Hc]. cbn in Hc.
  assert (H02 : idle s s2) by by transitivity s1.
  assert (Hnext : forall p injected', pass_cleared p ->
    wlp (pre_dispatch_pass config snapshot calls (Datatypes.S idx) rest (pass ++ [p]) injected')
      (fun r s' => idle s s' /\ match r with Ok (pass', _) => Forall pass_cleared pass' | Err _ => True end) s2).
  { intros p injected' Hp. eapply wlp_mono.
    { apply IH; [done|]. apply Forall_app. by split; [|apply Forall_singleton]. }
    intros r s3 [H3 Hr]. split; [by transitivity s2|done]. }
  destruct v; try apply Hnext; cbn; try done.
  - intros tc' Htc'. assert (tc' = tc) as -> by congruence. apply Hc. by left.
  - apply Herr; [done|idle].
  - intros tc' Htc'. assert (tc' = tc) as -> by congruence. apply Hc. right. by eexists.
Qed.

Lemma resolved_emits tc b s :
  wlp (emit_approval_resolved tc b)
      (fun ok s' => idle s s' /\ (ok = true -> w_events (fst s')
         = w_events (fst s) ++ [ToolApprovalResolved (tci_id tc) (tci_name tc) b])) s.
Proof.
  apply wlp_conj; [apply idle_resolved|]. destruct s as [w bt].
  unfold wlp, emit_approval_resolved, lift, emit. by destruct (w_room w) as [[|]|].
Qed.

(** The listener saw the approval. *)
Definition saw_approval (tc : ToolCallInfo) (s s' : S) : Prop :=
  exists es, w_events (fst s') = w_events (fst s) ++ es
    /\ ToolApprovalResolved (tci_id tc) (tci_name tc) true ∈ es.

Lemma saw_approval_later tc s s1 s2 s3 : idle s s1 -> saw_approval tc s1 s2 -> idle s2 s3 -> saw_approval tc s s3.
Proof.
  intros (es & He & _) (fs & Hf & Hin) (gs & Hg & _). exists (es ++ fs ++ gs).
  rewrite Hg, Hf, He, !app_assoc. split; [done|set_solver].
Qed.

(** What an approval answers for. *)
Definition allows (tc : ToolCallInfo) (s : S) (o : ApprovalOutcome) (s' : S) : Prop :=
  idle s s' /\ match o with OutApproved | OutApprovedWith _ => saw_approval tc s s' | _ => True end.

Lemma allows_idle tc s (m : D ApprovalOutcome) s1 :
  idle s s1 -> respects idle m -> wlp m (fun o _ => match o with OutApproved | OutApprovedWith _ => False | _ => True end) s1 ->
  wlp m (allows tc s) s1.
Proof.
  intros H1 Hm Ho. eapply wlp_mono; [apply wlp_conj; [apply Hm|exact Ho]|]. intros o s2 [H2 Hno].
  split; [by transitivity s1|]. by destruct o.
Qed.

Lemma reject_never_approves tc idx m s :
  wlp (reject_approval_panic config tc idx m)
      (fun o _ => match o with OutApproved | OutApprovedWith _ => False | _ => True end) s.
Proof.
  unfold reject_approval_panic. apply wlp_bind. unfold wlp at 1. destruct (emit_approval_resolved _ _ _) as [[[|] s1]|];
    cbn [negb]; try done. apply wlp_bind. unfold wlp at 1. by destruct (emit_error_result _ _ _ _ _ _) as [[? ?]|].
Qed.

Lemma check_approval_allows approve tc arguments idx ra s :
  wlp (check_approval config approve tc arguments idx ra) (allows tc s) s.
Proof.
  unfold check_approval. apply wlp_bind. eapply wlp_mono; [apply idle_cancelled|].
  intros c s1 H1. destruct c; [by apply wlp_ret|].
  apply wlp_bind. eapply wlp_mono; [apply (idle_lift (emit _)); by apply startless_emit|]. intros ok s2 H2.
  assert (H02 : idle s s2) by by transitivity s1. destruct ok; cbn [negb]; [|by apply wlp_ret].
  apply wlp_bind. eapply wlp_mono; [apply (idle_lift (host _)), startless_host|]. intros reply s3 H3.
  assert (H03 : idle s s3) by by transitivity s2. clear H1 H2 H02 H3 s1 s2.
  assert (Hreject : forall s4 m, idle s s4 -> wlp (reject_approval_panic config tc idx m) (allows tc s) s4).
  { intros s4 m H4. apply allows_idle; [done|idle|apply reject_never_approves]. }
  assert (Hask : forall k, (forall s4, idle s s4 -> wlp k (allows tc s) s4) ->
    wlp (batch_is_cancelled ≫= fun cancelled : bool =>
      if cancelled then emit_approval_resolved tc false ≫= fun ok : bool =>
        mret (if ok then OutCancelled else OutChannelClosed) else k) (allows tc s) s3).
  { intros k Hk. apply wlp_bind. eapply wlp_mono; [apply idle_cancelled|]. intros c s4 H4.
    assert (H04 : idle s s4) by by transitivity s3. destruct c; [|by apply Hk].
    apply wlp_bind. eapply wlp_mono; [apply idle_resolved|]. intros ok s5 H5. apply wlp_ret.
    split; [by transitivity s4|by destruct ok]. }
  destruct reply as [m|m|decision]; [by apply Hreject|apply Hask; intros; by apply Hreject|].
  apply Hask. intros s4 H4. apply wlp_bind. eapply wlp_mono; [apply resolved_emits|].
  intros ok s5 [H5 Hev]. assert (H05 : idle s s5) by by transitivity s4.
  destruct ok; cbn [negb]; [|by apply wlp_ret]. specialize (Hev eq_refl).
  destruct decision; [|apply allows_idle; [done|idle|]|]; try (apply wlp_ret; split; [done|]).
  - apply (saw_approval_later _ _ s4 s5 s5); [done| |reflexivity]. eexists. split; [exact Hev|by apply list_elem_of_singleton].
  - apply wlp_bind. unfold wlp at 1. by destruct (emit_error_result _ _ _ _ _ _) as [[? ?]|].
  - apply (saw_approval_later _ _ s4 s5 s5); [done| |reflexivity]. eexists. split; [exact Hev|by apply list_elem_of_singleton].
Qed.

(** A call let through the gate may start. *)
Definition let_through (tc : ToolCallInfo) (s : S) (g : GateResult) (s' : S) : Prop :=
  idle s s' /\ match g with
    | GatePass args _ => cleared config snapshot tc args /\ (approval_for config tc = None \/ saw_approval tc s s')
    | _ => True
    end.

Lemma approval_gate_clears idx tc arguments injected s :
  cleared config snapshot tc arguments ->
  wlp (approval_gate config snapshot calls idx tc arguments injected) (let_through tc s) s.
Proof.
  intros Hc. unfold approval_gate. destruct (approval_for config tc) as [approve|] eqn:Hap;
    [|apply wlp_ret; split; [reflexivity|auto]].
  assert (Hother : forall s2 (m : D ToolExecOutcome), idle s s2 -> respects idle m ->
    wlp (m ≫= fun o => mret (GateEnd o)) (let_through tc s) s2).
  { intros s2 m H2 Hm. apply wlp_bind. eapply wlp_mono; [apply Hm|]. intros o s3 H3. apply wlp_ret.
    split; [by transitivity s2|done]. }
  apply wlp_bind. eapply wlp_mono; [apply check_approval_allows|]. intros o s1 [H1 Ho].
  destruct o; [by apply wlp_ret; split; auto| |by apply wlp_ret|apply Hother; [done|idle]|by apply wlp_ret].
  unfold recheck_policies. apply wlp_bind. eapply wlp_mono; [apply policy_pass_clears|]. intros [v args] s2 [H2 Hv].
  cbn in Hv. assert (H02 : idle s s2) by by transitivity s1.
  assert (Hsaw : saw_approval tc s s2) by (by apply (saw_approval_later _ s s s1); [reflexivity|..]).
  destruct v.
  - apply wlp_ret. split; [done|]. split; [by apply Hv; left|by right].
  - apply Hother; [done|idle].
  - apply wlp_ret. split; [done|]. split; [apply Hv; right; by eexists|by right].
  - apply wlp_bind. eapply wlp_mono; [apply idle_emit_error|]. intros u s3 H3. apply wlp_ret.
    split; [by transitivity s2|done].
Qed.

Lemma since s : safe s -> exists es, w_events (fst s) = es0 ++ es.
Proof. intros (es & He & _). by exists es. Qed.

Lemma approval_pass_ready pass prepared injected s :
  safe s -> Forall pass_cleared pass -> Forall (ready s) prepared ->
  wlp (approval_pass config snapshot calls pass prepared injected)
      (fun r s' => idle s s' /\ match r with Ok pr => Forall (ready s') (pr_prepared pr) | Err _ => True end) s.
Proof.
  revert prepared injected s. induction pass as [|p pass IH]; intros prepared injected s Hs Hpass Hr;
    cbn [approval_pass]; [by apply wlp_ret|].
  apply Forall_cons in Hpass as [Hp Hpass]. apply wlp_bind. eapply wlp_mono; [apply idle_cancelled|]. intros c s1 H1.
  destruct c.
  { apply wlp_bind. eapply wlp_mono; [apply idle_aborted|]. intros o s2 H2. apply wlp_ret.
    split; [by transitivity s1|done]. }
  assert (Hnext : forall s2 prepared' injected', idle s s2 -> Forall (ready s2) prepared' ->
    wlp (approval_pass config snapshot calls pass prepared' injected')
      (fun r s' => idle s s' /\ match r with Ok pr => Forall (ready s') (pr_prepared pr) | Err _ => True end) s2).
  { intros s2 prepared' injected' H2 Hr2. eapply wlp_mono; [apply IH; [exact (idle_safe _ _ H2 Hs)|done|done]|].
    intros r s3 [H3 Hr3]. split; [by transitivity s2|done]. }
  assert (Hkeep : forall s2, idle s s2 -> Forall (ready s2) prepared).
  { intros s2 H2. eapply Forall_impl; [exact Hr|]. intros q. by apply ready_grown, idle_grown. }
  destruct p as [idx arguments|idx error_text]; destruct (calls !! idx) as [tc|] eqn:Htc; try done; apply wlp_bind.
  - eapply wlp_mono; [by apply approval_gate_clears, Hp|]. intros g s2 [H2 Hg].
    assert (H02 : idle s s2) by by transitivity s1.
    destruct g as [args inj|inj|o]; [|apply Hnext; auto|by apply wlp_ret].
    apply Hnext; [done|]. apply Forall_app. split; [by apply Hkeep|]. apply Forall_singleton.
    intros tc' Htc'. cbn in Htc'. assert (tc' = tc) as -> by congruence. destruct Hg as [Hc Ha]. split; [done|].
    destruct (since s1 (idle_safe _ _ H1 Hs)) as [es He]. destruct Ha as [Ha|(fs & Hf & Hin)].
    + destruct H2 as (fs & Hf & _). exists (es ++ fs). rewrite Hf, He, app_assoc. split; [done|by left].
    + exists (es ++ fs). rewrite Hf, He, app_assoc. split; [done|]. right. set_solver.
  - eapply wlp_mono; [apply idle_emit_error|]. intros u s2 H2. apply Hnext; [|apply Hkeep]; by transitivity s1.
Qed.

Lemma preprocess_ready s :
  safe s -> w_session (fst s) = snapshot ->
  wlp (preprocess_tool_calls config calls)
      (fun r s' => idle s s' /\ match r with Ok pr => Forall (ready s') (pr_prepared pr) | Err _ => True end) s.
Proof.
  intros Hs Hsn. unfold preprocess_tool_calls. destruct s as [w b]. apply wlp_bind. unfold wlp at 1, lift, gets.
  cbn in Hsn. rewrite Hsn. apply wlp_bind.
  eapply wlp_mono; [apply pre_dispatch_pass_clears; [by intros|constructor]|].
  intros [[pass injected]|o] s1 [H1 Hpass]; [|by apply wlp_ret].
  eapply wlp_mono; [apply approval_pass_ready; [exact (idle_safe _ _ H1 Hs)|done|constructor]|].
  intros r s2 [H2 Hr]. split; [by transitivity s1|done].
Qed.

Lemma run_batch_safely s :
  safe s -> w_session (fst s) = snapshot -> safely (run_batch config calls) s.
Proof.
  intros Hs Hsn. unfold run_batch. unfold safely. apply wlp_bind.
  eapply wlp_mono; [by apply preprocess_ready|]. intros [[prepared injected]|o] s1 [H1 Hr];
    pose proof (idle_safe _ _ H1 Hs) as Hs1; pose proof (idle_grown _ _ H1) as Hg1; [|by apply wlp_ret].
  cbn in Hr. apply (wlp_mono _ (fun _ s' => safe s' /\ grown s1 s'));
    [|intros o s2 [Hs2 Hg2]; split; [exact Hs2|exact (transitivity Hg1 Hg2)]].
  fold (safely (batch_is_cancelled ≫= fun cancelled : bool =>
    if cancelled then build_aborted_outcome config calls injected
    else lift (compute_execution_groups (cfg_tool_execution_policy config) calls prepared) ≫= fun groups =>
      match groups with
      | Err reason => refuse_partition config calls prepared injected reason
      | Ok groups => run_groups config calls prepared injected groups
      end) s1).
  apply safely_bind; [by apply idle_safely; [idle|]|]. intros c s2 Hs2 Hg2.
  assert (Hready : forall s3, grown s1 s3 -> Forall (ready s3) prepared).
  { intros s3 Hg3. eapply Forall_impl; [exact Hr|]. intros q. by apply ready_grown. }
  destruct c; [apply idle_safely; [idle|done]|].
  apply safely_bind; [apply idle_safely; [idle|done]|]. intros [groups|reason] s3 Hs3 Hg3.
  - apply run_groups_safely; [done|]. apply Hready. by transitivity s2.
  - apply idle_safely; [idle|done].
Qed.
End Run.


(** ** What is reported was announced *)

(** The listener saw the end of this call, unless it is gone. *)
Definition announced (w : World H) (id : string) (content : list ContentBlock) (is_error : bool) : Prop :=
  dropped w \/ exists name r, ToolExecutionEnd id name r is_error ∈ w_events w /\ at_content r = content.

(** The listener misses nothing later. *)
Definition heard (w w' : World H) : Prop :=
  (exists es, w_events w' = w_events w ++ es) /\ (dropped w -> dropped w').

#[local] Instance heard_preorder : PreOrder heard.
Proof.
  split; [intros w; split; [exists []; by rewrite app_nil_r|done]|].
  intros w1 w2 w3 [[es He] Hd] [[fs Hf] Hd2]. split; [|auto]. exists (es ++ fs). by rewrite Hf, He, app_assoc.
Qed.

Lemma announced_heard w w' id c e : heard w w' -> announced w id c e -> announced w' id c e.
Proof.
  intros [[es He] Hd] [Hdr|(name & r & Hin & Hc)]; [left; auto|right]. exists name, r. rewrite He. split; [set_solver|done].
Qed.

Definition reports (w : World H) (r : nat * ToolResultMessage) : Prop :=
  announced w (tr_tool_call_id (snd r)) (tr_content (snd r)) (tr_is_error (snd r)).

(** A task about to report has announced. *)
Definition forewarned (w : World H) (id : string) (st : TaskState) : Prop :=
  match st with Reporting r e => announced w id (at_content r) e | _ => True end.

Definition known (s : S) : Prop :=
  Forall (reports (fst s)) (b_results (snd s))
  /\ Forall (fun t => forewarned (fst s) (tci_id (t_call t)) (t_state t)) (b_tasks (snd s)).

Definition informs (s s' : S) : Prop := heard (fst s) (fst s') /\ (known s -> known s').

#[local] Instance informs_preorder : PreOrder informs.
Proof. split; [by split|]. intros s1 s2 s3 [H1 K1] [H2 K2]. split; [by transitivity (fst s2)|auto]. Qed.

Lemma forewarned_heard w w' id st : heard w w' -> forewarned w id st -> forewarned w' id st.
Proof. destruct st; try done. by apply announced_heard. Qed.

(** The world moves on, the results stay, and the tasks are some of those before. *)
Lemma informs_heard (s s' : S) :
  heard (fst s) (fst s') -> b_results (snd s') = b_results (snd s) ->
  (forall t, t ∈ b_tasks (snd s') -> t ∈ b_tasks (snd s)) -> informs s s'.
Proof.
  intros Hh Hr Ht. split; [done|]. intros [Hk1 Hk2]. split.
  - rewrite Hr. eapply Forall_impl; [exact Hk1|]. intros r. by apply announced_heard.
  - apply Forall_forall. intros t Hin. rewrite Forall_forall in Hk2.
    apply (forewarned_heard (fst s)); [done|]. apply Hk2, Ht, Hin.
Qed.

Lemma informs_lift {A} (m : Prog (World H) A) : respects heard m -> respects informs (lift m).
Proof.
  intros Hm [w b]. specialize (Hm w). revert Hm. unfold wlp, lift. destruct (m w) as [[a w']|]; [|done].
  intros Hh. by apply informs_heard.
Qed.

Lemma informs_upd f :
  (forall b, b_results (f b) = b_results b /\ forall t : Task H, t ∈ b_tasks (f b) -> t ∈ b_tasks b) ->
  respects informs (batch_upd f).
Proof. intros Hf [w b]. destruct (Hf b). apply wlp_modify. by apply informs_heard. Qed.

Lemma heard_modify f : (forall w, w_events (f w) = w_events w /\ w_room (f w) = w_room w) -> respects heard (modify f).
Proof.
  intros Hf w. apply wlp_modify. destruct (Hf w) as [He Hr]. split; [exists []; by rewrite He, app_nil_r|].
  unfold dropped. by rewrite Hr.
Qed.

Lemma heard_host {A} (f : H -> A * H) : respects heard (host f).
Proof. intros w. unfold wlp, host. destruct (f (w_host w)). split; [exists []; by rewrite app_nil_r|done]. Qed.

Lemma heard_is_cancelled : respects heard is_cancelled.
Proof.
  intros w. unfold wlp, is_cancelled. destruct (w_cancel w) as [[|]|]; (split; [exists []; by rewrite app_nil_r|done]).
Qed.

Lemma heard_emit e : respects heard (emit e).
Proof.
  intros w. unfold wlp, emit. destruct (w_room w) as [[|]|] eqn:Hr; [reflexivity|..];
    (split; [by exists [e]|unfold dropped; congruence]).
Qed.

Lemma emit_announces e id name r is_error w :
  e = ToolExecutionEnd id name r is_error ->
  wlp (emit_ e) (fun _ w' => heard w w' /\ announced w' id (at_content r) is_error) w.
Proof.
  intros ->. unfold emit_. apply wlp_bind. eapply wlp_mono; [apply wlp_conj; [apply heard_emit|]|].
  - instantiate (1 := fun _ w' => announced w' id (at_content r) is_error). unfold wlp, emit, announced, dropped.
    destruct (w_room w) as [[|]|] eqn:Hr; [by left|right..]; exists name, r; cbn; (split; [set_solver|done]).
  - intros b w' Hw. by apply wlp_ret.
Qed.

Create HintDb informs.
#[local] Hint Resolve heard_host heard_is_cancelled heard_emit : informs.
#[local] Hint Extern 1 (respects _ (mret _)) => (apply respects_ret; tc_solve) : informs.
#[local] Hint Extern 1 (respects _ (gets _)) => (apply respects_gets; tc_solve) : informs.
#[local] Hint Extern 1 (respects _ stuck) => (apply respects_stuck) : informs.
#[local] Hint Extern 1 (respects _ (batch_get _)) => (apply respects_gets; tc_solve) : informs.
#[local] Hint Extern 1 (respects heard (now_timestamp _)) => (apply heard_host) : informs.
#[local] Hint Extern 2 (respects heard (modify _)) => (apply heard_modify; intros ?; done) : informs.
#[local] Hint Extern 2 (respects informs (batch_upd _)) =>
  (apply informs_upd; intros ?; split; [done|cbn; intros ? ?;
     first [assumption|exfalso; eapply not_elem_of_nil; eassumption]]) : informs.

Ltac informs :=
  repeat first
    [ solve [eauto with informs]
    | apply respects_bind; [tc_solve| |intros]
    | apply respects_when; [tc_solve|]
    | apply respects_for_each; [tc_solve|intros]
    | apply informs_lift
    | case_match ].

Lemma heard_emit_ e : respects heard (emit_ e).
Proof. unfold emit_. informs. Qed.

#[local] Hint Resolve heard_emit_ : informs.

Lemma heard_resolve config tool : respects heard (resolve_credential config tool).
Proof. unfold resolve_credential. informs. Qed.

Lemma heard_run_tool t arguments credential : respects heard (run_tool t arguments credential).
Proof. unfold run_tool. informs. Qed.

#[local] Hint Resolve heard_resolve heard_run_tool : informs.

(** Adding an announced result. *)
Lemma known_add w b r : known (w, b) -> reports w r -> known (w, add_result r b).
Proof. intros [Hr Ht] Hn. split; [|done]. cbn. apply Forall_app. split; [done|by apply Forall_singleton]. Qed.

(** A step that leads to no report. *)
Lemma quick_step {A} (m : D A) (k : A -> TaskState) id s :
  respects informs m -> (forall a w, forewarned w id (k a)) ->
  wlp (m ≫= fun a => mret (k a)) (fun st s' => informs s s' /\ (known s -> forewarned (fst s') id st)) s.
Proof.
  intros Hm Hk. apply wlp_bind. eapply wlp_mono; [apply Hm|]. intros a s1 H1. apply wlp_ret. by split.
Qed.

Lemma task_step_informs config t s :
  wlp (task_step config t) (fun st s' => heard (fst s) (fst s')
    /\ (known s -> forewarned (fst s) (tci_id (t_call t)) (t_state t) ->
         known s' /\ forewarned (fst s') (tci_id (t_call t)) st)) s.
Proof.
  assert (Hsimple : forall m, wlp m (fun st s' => informs s s' /\ (known s -> forewarned (fst s') (tci_id (t_call t)) st)) s ->
    wlp m (fun st s' => heard (fst s) (fst s') /\ (known s -> forewarned (fst s) (tci_id (t_call t)) (t_state t) ->
         known s' /\ forewarned (fst s') (tci_id (t_call t)) st)) s).
  { intros m Hm. eapply wlp_mono; [exact Hm|]. intros st s' [[Hh Hk] Hf]. split; [done|]. intros ? _. auto. }
  unfold task_step. destruct (t_state t) as [args [u|errs]|args cred|[|p ps] e|r e|r e|r e|r e| |p] eqn:Hst.
  - apply Hsimple, (quick_step _ (fun r => match r with Err e => _ | Ok c => _ end)); [informs|by intros []].
  - apply Hsimple, wlp_ret. by split.
  - apply Hsimple, wlp_bind. eapply wlp_mono; [apply (informs_lift (run_tool t args cred)); informs|].
    intros [ps e] s1 H1. apply wlp_ret. by split.
  - apply Hsimple. by destruct e; apply wlp_ret; split.
  - apply Hsimple, (quick_step _ (fun ok : bool => _)); [informs|done].
  - apply Hsimple, (quick_step _ (fun _ => _)); [informs|done].
  - apply Hsimple, (quick_step _ (fun _ => _)); [informs|done].
  - apply Hsimple. destruct s as [w b]. apply wlp_bind.
    apply (wlp_mono _ (fun _ s1 => heard w (fst s1) /\ snd s1 = b /\ announced (fst s1) (tci_id (t_call t)) (at_content r) e)).
    { pose proof (emit_announces _ (tci_id (t_call t)) (tci_name (t_call t)) r e w eq_refl) as He.
      revert He. unfold wlp, lift. destruct (emit_ _ w) as [[[] w']|]; [|done]. intros [Hh Ha]. by split_and!. }
    intros u [w1 b1] (Hh & Hb & Ha). cbn in Hh, Hb, Ha. subst b1. apply wlp_ret. split; [by apply informs_heard|done].
  - destruct s as [w b]. apply wlp_bind. eapply wlp_mono; [apply (informs_lift (now_timestamp config)); informs|].
    intros now [w1 b1] [Hh Hk]. apply wlp_bind, wlp_modify, wlp_ret. split; [done|]. cbn in *.
    intros Hkn Hf. split; [|done]. apply known_add; [by apply Hk|]. by apply (announced_heard w).
  - apply Hsimple, (quick_step (match cfg_message_provider config with Some provider => _ | None => _ end) (fun _ => _)); [informs|done].
  - apply Hsimple, wlp_ret. by split.
Qed.

Lemma tick_informs config i : respects informs (tick config i).
Proof.
  intros s. unfold tick. apply wlp_bind, wlp_gets. destruct (b_tasks (snd s) !! i) as [t|] eqn:Hi; [|by apply wlp_ret].
  apply wlp_bind. eapply wlp_mono; [apply wlp_conj; [apply task_step_informs|apply twp_wlp, task_step_stays]|].
  intros st [w b] [[Hh Hk] [_ Ht]]. apply wlp_modify. split; [done|]. intros Hks. pose proof Hks as [_ Hkt].
  rewrite Forall_lookup in Hkt. destruct (Hk Hks (Hkt i t Hi)) as [[Hr Hts] Hst]. split; [done|]. cbn in *.
  by apply Forall_insert.
Qed.

#[local] Hint Resolve tick_informs : informs.

Lemma yield_informs config : respects informs (yield config).
Proof. unfold yield. informs. Qed.

Lemma tick_first_informs config n : respects informs (tick_first config n).
Proof. induction n as [|n IH]; cbn [tick_first]; informs. Qed.

#[local] Hint Resolve yield_informs tick_first_informs : informs.

Lemma next_joined_informs config pick : respects informs (next_joined config pick).
Proof.
  unfold next_joined, finish_first. apply respects_bind; [tc_solve|informs|]. intros o.
  apply respects_bind; [tc_solve|informs|]. intros i s. apply wlp_bind, wlp_gets, wlp_bind, wlp_modify, wlp_ret.
  apply informs_heard; [reflexivity|done|]. intros t Ht. cbn in Ht. apply list_elem_of_lookup in Ht as [k Hk].
  destruct (decide (k < i)).
  - rewrite list_lookup_delete_lt in Hk by done. by eapply list_elem_of_lookup_2.
  - rewrite list_lookup_delete_ge in Hk by lia. by eapply list_elem_of_lookup_2.
Qed.

Lemma emit_error_informs config name id r idx : respects informs (emit_error_result config name id r idx).
Proof.
  intros [w b]. unfold emit_error_result. apply wlp_bind.
  apply (wlp_mono _ (fun _ s1 => informs (w, b) s1 /\ announced (fst s1) id (at_content r) true)).
  { pose proof (emit_announces _ id name r true w eq_refl) as Ha. revert Ha. unfold wlp, lift.
    destruct (emit_ _ w) as [[[] w']|]; [|done]. intros [Hh Ha]. split; [by apply informs_heard|done]. }
  intros u s1 [H1 Ha1]. apply wlp_bind. eapply wlp_mono; [apply yield_informs|]. intros n s2 H2.
  apply wlp_bind. eapply wlp_mono; [apply (informs_lift (now_timestamp config)); informs|]. intros now s3 H3.
  apply wlp_modify. assert (H13 : informs s1 s3) by by transitivity s2.
  destruct H1 as [Hh1 Hk1], H13 as [Hh3 Hk3], s3 as [w3 b3]. split; [by transitivity (fst s1)|].
  intros Hk. apply known_add; [by apply Hk3, Hk1|]. by apply (announced_heard (fst s1)).
Qed.
#[local] Hint Resolve next_joined_informs emit_error_informs : informs.

Lemma cancelled_informs : respects informs (batch_is_cancelled (H := H)).
Proof. unfold batch_is_cancelled. informs. Qed.

Lemma join_failure_informs config calls idx m : respects informs (emit_join_failure config calls idx m).
Proof. unfold emit_join_failure. informs. Qed.

Lemma batch_stop_informs config calls reason : respects informs (emit_batch_stop_results config calls reason).
Proof. unfold emit_batch_stop_results. informs. Qed.

#[local] Hint Resolve cancelled_informs join_failure_informs batch_stop_informs : informs.

Lemma cancel_remaining_informs config calls : respects informs (cancel_remaining config calls).
Proof. unfold cancel_remaining, report_join. informs. Qed.

Lemma abort_join_informs config : respects informs (abort_join_handles_with_grace config).
Proof. unfold abort_join_handles_with_grace. informs. Qed.

#[local] Hint Resolve cancel_remaining_informs abort_join_informs : informs.

Lemma collect_informs config calls : respects informs (collect_group_results config calls).
Proof.
  unfold collect_group_results. apply respects_bind; [tc_solve|informs|]. intros n.
  induction n as [|n IH]; cbn [collect_loop]; informs.
Qed.

Lemma policy_pass_informs config snapshot tc arguments : respects informs (policy_pass config snapshot tc arguments).
Proof. unfold policy_pass. informs. Qed.

Lemma resolved_informs tc b : respects informs (emit_approval_resolved (H := H) tc b).
Proof. unfold emit_approval_resolved. informs. Qed.

#[local] Hint Resolve collect_informs policy_pass_informs resolved_informs : informs.

Lemma check_approval_informs config approve tc arguments idx ra :
  respects informs (check_approval config approve tc arguments idx ra).
Proof. unfold check_approval, reject_approval_panic. informs. Qed.

Lemma groups_heard policy calls prepared : respects heard (compute_execution_groups (H := H) policy calls prepared).
Proof. unfold compute_execution_groups. informs. Qed.

#[local] Hint Resolve check_approval_informs groups_heard : informs.

Lemma dispatch_single_informs config tc arguments idx : respects informs (dispatch_single_tool config tc arguments idx).
Proof.
  unfold dispatch_single_tool. apply respects_bind; [tc_solve|informs|]. intros n.
  destruct (build_tool_map _ !! _) as [tool|]; [|informs]. apply respects_bind; [tc_solve|informs|].
  intros []; cbn [negb]; [|informs]. apply respects_bind; [tc_solve| |intros; informs].
  intros [w b]. apply wlp_modify. split; [reflexivity|]. intros [Hr Ht]. split; [done|]. cbn in *.
  apply Forall_app. split; [done|]. by apply Forall_singleton.
Qed.

(** ** Outcomes hold what was reported *)

(** A call given up at an interrupt. *)
Definition given_up (r : ToolResultMessage) : Prop :=
  tr_is_error r = true
  /\ (tr_content r = [Text "tool call cancelled: operation aborted"]
      \/ tr_content r = [Text "tool call cancelled: transfer initiated"]
      \/ tr_content r = [Text "tool call cancelled: user requested steering interrupt"]).

Definition holds_reports (o : ToolExecOutcome) (s : S) : Prop :=
  forall rs r, outcome_results o = Some rs -> r ∈ rs ->
    given_up r \/ exists j, (j, r) ∈ b_results (snd s).

(** Programs that end a batch. *)
Definition concludes (m : D ToolExecOutcome) : Prop :=
  forall s, wlp m (fun o s' => informs s s' /\ holds_reports o s') s.

Lemma order_results_from calls rs r :
  r ∈ order_results_by_tool_calls calls rs -> exists j, (j, r) ∈ rs.
Proof.
  unfold order_results_by_tool_calls. intros (tc & _ & Hr)%elem_of_filtermap.
  by apply result_map_Some in Hr as [_ ?].
Qed.

Lemma fill_heard config text rs calls w :
  given_up (error_result "" text 0) ->
  wlp (fill_results config text (result_map rs) calls)
      (fun out w' => heard w w' /\ forall r, r ∈ out -> given_up r \/ exists j, (j, r) ∈ rs) w.
Proof.
  intros Hg. revert w. induction calls as [|tc calls IH]; intros w; cbn [fill_results].
  { apply wlp_ret. split; [reflexivity|]. intros r Hr. by apply not_elem_of_nil in Hr. }
  apply wlp_bind. apply (wlp_mono _ (fun r w' => heard w w' /\ (given_up r \/ exists j, (j, r) ∈ rs))).
  { destruct (result_map rs !! tci_id tc) as [r|] eqn:Hr.
    - apply wlp_ret. split; [reflexivity|]. right. by apply result_map_Some in Hr as [_ ?].
    - apply wlp_bind. eapply wlp_mono; [apply heard_host|]. intros now w1 H1. apply wlp_ret. by split; [|left]. }
  intros r w1 [H1 Hr]. apply wlp_bind. eapply wlp_mono; [apply IH|]. intros out w2 [H2 Hout]. apply wlp_ret.
  split; [by transitivity w1|]. intros r' [->|Hin]%elem_of_cons; auto.
Qed.

Lemma split_heard config rs calls w :
  wlp (split_results config (result_map rs) calls)
      (fun out w' => heard w w' /\ forall r, r ∈ fst out ++ snd out -> given_up r \/ exists j, (j, r) ∈ rs) w.
Proof.
  revert w. induction calls as [|tc calls IH]; intros w; cbn [split_results].
  { apply wlp_ret. split; [reflexivity|]. intros r Hr. by apply not_elem_of_nil in Hr. }
  destruct (result_map rs !! tci_id tc) as [r|] eqn:Hr.
  - apply wlp_bind. eapply wlp_mono; [apply IH|]. intros [c x] w1 [H1 Hout]. apply wlp_ret. split; [done|].
    intros r' [->|Hin]%elem_of_cons; [|by apply Hout]. right. by apply result_map_Some in Hr as [_ ?].
  - apply wlp_bind. eapply wlp_mono; [apply heard_host|]. intros now w1 H1.
    apply wlp_bind. eapply wlp_mono; [apply IH|]. intros [c x] w2 [H2 Hout]. apply wlp_ret.
    split; [by transitivity w1|]. cbn in *. intros r' Hin. rewrite elem_of_app, elem_of_cons in Hin.
    destruct Hin as [Hin|[->|Hin]]; [apply Hout; set_solver| |apply Hout; set_solver].
    left. split; [done|]. cbn. auto.
Qed.

Lemma wlp_lift {A} (m : Prog (World H) A) (Q : A -> World H -> Prop) w b :
  wlp m Q w -> wlp (lift m) (fun a s' => Q a (fst s') /\ snd s' = b) (w, b).
Proof. unfold wlp, lift. by destruct (m w) as [[a w']|]. Qed.

Lemma aborted_concludes config calls injected : concludes (build_aborted_outcome config calls injected).
Proof.
  intros [w b]. unfold build_aborted_outcome. apply wlp_bind, wlp_gets, wlp_bind.
  eapply wlp_mono; [apply wlp_lift, fill_heard; split; cbn; auto|]. intros out [w' b'] [[Hh Hout] Hb].
  cbn in *. subst b'. apply wlp_ret. split; [by apply informs_heard|]. intros rs r [= <-]. apply Hout.
Qed.

Lemma transfer_concludes config calls injected : concludes (build_transfer_outcome config calls injected).
Proof.
  intros [w b]. unfold build_transfer_outcome. apply wlp_bind, wlp_gets, wlp_bind.
  eapply wlp_mono; [apply wlp_lift, fill_heard; split; cbn; auto|]. intros out [w' b'] [[Hh Hout] Hb].
  cbn in *. subst b'. apply wlp_ret. split; [by apply informs_heard|]. intros rs r [= <-]. apply Hout.
Qed.

Lemma steering_concludes config calls injected : concludes (build_steering_outcome config calls injected).
Proof.
  intros [w b]. unfold build_steering_outcome. apply wlp_bind, wlp_gets, wlp_bind.
  eapply wlp_mono; [apply wlp_lift, split_heard|]. intros [c x] [w' b'] [[Hh Hout] Hb].
  cbn in *. subst b'. apply wlp_bind.
  apply (wlp_mono _ (fun _ s2 => informs (w, b) s2 /\ b_results (snd s2) = b_results b)).
  { destruct (cfg_message_provider config) as [p|]; [|by apply wlp_ret; split; [apply informs_heard|]].
    eapply wlp_mono; [apply wlp_lift, (heard_host (poll_steering p))|]. intros msgs [w2 b2] [H2 Hb]. cbn in *. subst b2.
    split; [|done]. apply informs_heard; cbn; [by transitivity w'|done|done]. }
  intros msgs s2 [H2 Hr]. apply wlp_ret. split; [done|]. intros rs r [= <-]. rewrite Hr. apply Hout.
Qed.

Lemma completed_concludes calls injected : concludes (build_completed_outcome (H := H) calls injected).
Proof.
  intros s. unfold build_completed_outcome. apply wlp_bind, wlp_gets, wlp_ret. split; [reflexivity|].
  intros rs r [= <-] Hr. right. by eapply order_results_from.
Qed.

Lemma concludes_bind {A} (m : D A) (k : A -> D ToolExecOutcome) :
  respects informs m -> (forall a, concludes (k a)) -> concludes (m ≫= k).
Proof.
  intros Hm Hk s. apply wlp_bind. eapply wlp_mono; [apply Hm|]. intros a s1 H1.
  eapply wlp_mono; [apply Hk|]. intros o s2 [H2 Ho]. split; [by transitivity s1|done].
Qed.

Lemma stopped_concludes config calls reason injected : concludes (stopped_preprocess_outcome config calls reason injected).
Proof.
  unfold stopped_preprocess_outcome. apply concludes_bind; [informs|]. intros u s. apply wlp_bind, wlp_gets, wlp_ret.
  split; [reflexivity|]. intros rs r [= <-] Hr. right. by eapply order_results_from.
Qed.

Lemma refuse_concludes config calls prepared injected reason :
  concludes (refuse_partition config calls prepared injected reason).
Proof.
  unfold refuse_partition. apply concludes_bind; [informs|]. intros u s. apply wlp_bind, wlp_gets, wlp_ret.
  split; [reflexivity|]. intros rs r [= <-] Hr. right. by eapply order_results_from.
Qed.

Lemma closed_concludes s : holds_reports ToolsChannelClosed s.
Proof. by intros rs r. Qed.

(** Programs that may end a batch, by [get] of their value. *)
Definition may_conclude {A} (get : A -> option ToolExecOutcome) (m : D A) : Prop :=
  forall s, wlp m (fun a s' => informs s s' /\ forall o, get a = Some o -> holds_reports o s') s.

Lemma may_bind {A B} (get : B -> option ToolExecOutcome) (m : D A) (k : A -> D B) :
  respects informs m -> (forall a, may_conclude get (k a)) -> may_conclude get (m ≫= k).
Proof.
  intros Hm Hk s. apply wlp_bind. eapply wlp_mono; [apply Hm|]. intros a s1 H1.
  eapply wlp_mono; [apply Hk|]. intros o s2 [H2 Ho]. split; [by transitivity s1|done].
Qed.

Lemma may_end {A} (get : A -> option ToolExecOutcome) (m : D ToolExecOutcome) (f : ToolExecOutcome -> A) :
  concludes m -> (forall o, get (f o) = Some o) -> may_conclude get (m ≫= fun o => mret (f o)).
Proof.
  intros Hm Hf s. apply wlp_bind. eapply wlp_mono; [apply Hm|]. intros o s1 [H1 Ho]. apply wlp_ret.
  split; [done|]. intros o'. rewrite Hf. by intros [= <-].
Qed.

Lemma may_ret {A} (get : A -> option ToolExecOutcome) a :
  (forall o, get a = Some o -> o = ToolsChannelClosed) -> may_conclude get (mret a).
Proof. intros Ha s. apply wlp_ret. split; [reflexivity|]. intros o ->%Ha. apply closed_concludes. Qed.

Lemma may_stuck {A} (get : A -> option ToolExecOutcome) : may_conclude get stuck.
Proof. done. Qed.

Definition gate_end (g : GateResult) : option ToolExecOutcome :=
  match g with GateEnd o => Some o | _ => None end.

Definition err_end {A} (r : result A ToolExecOutcome) : option ToolExecOutcome :=
  match r with Err o => Some o | Ok _ => None end.

#[local] Hint Resolve aborted_concludes transfer_concludes steering_concludes completed_concludes
  stopped_concludes refuse_concludes dispatch_single_informs : informs.

Lemma gate_may_conclude config snapshot calls idx tc arguments injected :
  may_conclude gate_end (approval_gate config snapshot calls idx tc arguments injected).
Proof.
  unfold approval_gate. destruct (approval_for config tc); [|by apply may_ret].
  apply may_bind; [informs|]. intros [|new| | |]; try by (apply may_ret; intros o Ho; cbn in Ho; congruence).
  - unfold recheck_policies. apply may_bind; [informs|]. intros [[|reason|msgs|text] args]; try by apply may_ret.
    + apply may_end; [informs|done].
    + apply may_bind; [informs|]. intros u. by apply may_ret.
  - apply may_end; [informs|done].
Qed.

Lemma pre_dispatch_may_conclude config snapshot calls idx rest pass injected :
  may_conclude err_end (pre_dispatch_pass config snapshot calls idx rest pass injected).
Proof.
  revert idx pass injected. induction rest as [|tc rest IH]; intros idx pass injected; cbn [pre_dispatch_pass];
    [by apply may_ret|].
  apply may_bind; [informs|]. intros []; [apply may_end; [informs|done]|].
  apply may_bind; [informs|]. intros [[|reason|msgs|text] args]; try apply IH. apply may_end; [informs|done].
Qed.

(** A program that may end the batch, then the rest. *)
Lemma may_then {A B} (get : A -> option ToolExecOutcome) (get' : B -> option ToolExecOutcome) (m : D A) (k : A -> D B) :
  may_conclude get m ->
  (forall a, match get a with
     | Some o => exists b, k a = mret b /\ forall o', get' b = Some o' -> o' = o
     | None => may_conclude get' (k a)
     end) ->
  may_conclude get' (m ≫= k).
Proof.
  intros Hm Hk s. apply wlp_bind. eapply wlp_mono; [apply Hm|]. intros a s1 [H1 Ho]. specialize (Hk a).
  destruct (get a) as [o|].
  - destruct Hk as (b & -> & Hb). apply wlp_ret. split; [done|]. intros o' ->%Hb. by apply Ho.
  - eapply wlp_mono; [apply Hk|]. intros b s2 [H2 Ho2]. split; [by transitivity s1|done].
Qed.

Lemma approval_pass_may_conclude config snapshot calls pass prepared injected :
  may_conclude err_end (approval_pass config snapshot calls pass prepared injected).
Proof.
  revert prepared injected. induction pass as [|p pass IH]; intros prepared injected; cbn [approval_pass];
    [by apply may_ret|].
  apply may_bind; [informs|]. intros []; [apply may_end; [informs|done]|].
  destruct p as [idx arguments|idx text]; destruct (calls !! idx); try apply may_stuck.
  - eapply may_then; [apply gate_may_conclude|]. intros [args inj|inj|o]; cbn; [apply IH..|].
    eexists. split; [done|]. cbn. by intros o' [= ->].
  - apply may_bind; [informs|]. intros u. apply IH.
Qed.

Lemma preprocess_may_conclude config calls : may_conclude err_end (preprocess_tool_calls config calls).
Proof.
  unfold preprocess_tool_calls. apply may_bind; [informs|]. intros snapshot.
  eapply may_then; [apply pre_dispatch_may_conclude|]. intros [[pass injected]|o]; cbn.
  - apply approval_pass_may_conclude.
  - eexists. split; [done|]. cbn. by intros o' [= ->].
Qed.

Lemma dispatch_group_may_conclude config calls prepared injected group :
  may_conclude id (dispatch_group config calls prepared injected group).
Proof.
  induction group as [|i group IH]; cbn [dispatch_group]; [by apply may_ret|].
  apply may_bind; [informs|]. intros [].
  { apply may_bind; [informs|]. intros u. apply may_end; [informs|done]. }
  destruct (prepared !! i ≫= _) as [[p tc]|]; [|apply may_stuck].
  apply may_bind; [informs|]. intros []; [apply IH..|]. apply may_bind; [informs|]. intros u.
  apply may_bind; [informs|]. intros u2. apply may_ret. by intros o [= <-].
Qed.

Lemma run_groups_concludes config calls prepared injected groups :
  may_conclude Some (run_groups config calls prepared injected groups).
Proof.
  assert (Hc : forall m, concludes m -> may_conclude Some m).
  { intros m Hm s. eapply wlp_mono; [apply Hm|]. intros o s1 [H1 Ho]. split; [done|]. by intros o' [= <-]. }
  induction groups as [|group groups IH]; cbn [run_groups]; [apply Hc; informs|].
  apply may_bind; [informs|]. intros []; [apply Hc; informs|].
  eapply may_then; [apply dispatch_group_may_conclude|]. intros [o|]; cbn.
  { exists o. split; [done|]. by intros o' [= ->]. }
  apply may_bind; [informs|]. intros []; [apply IH|apply Hc; informs..].
Qed.

Lemma run_batch_concludes config calls : may_conclude Some (run_batch config calls).
Proof.
  assert (Hc : forall m, concludes m -> may_conclude Some m).
  { intros m Hm s. eapply wlp_mono; [apply Hm|]. intros o s1 [H1 Ho]. split; [done|]. by intros o' [= <-]. }
  unfold run_batch. eapply may_then; [apply preprocess_may_conclude|]. intros [[prepared injected]|o]; cbn.
  - apply may_bind; [informs|]. intros []; [apply Hc; informs|]. apply may_bind; [informs|].
    intros [groups|reason]; [apply run_groups_concludes|apply Hc; informs].
  - exists o. split; [done|]. by intros o' [= ->].
Qed.

(** C33: what the model is told is what the listener was shown: every result a batch
    returns, but for the calls given up at a cancellation, transfer or steering
    interrupt, was announced by a [ToolExecutionEnd] with the same call, content
    and error flag, unless the receiver is gone. *)
Theorem results_were_announced config calls (w : World H) o w' rs r :
  execute_tools_concurrently config calls w = Some (o, w') ->
  outcome_results o = Some rs -> r ∈ rs ->
  given_up r
  \/ announced w' (tr_tool_call_id r) (tr_content r) (tr_is_error r).
Proof.
  intros Hrun Hrs Hr. unfold execute_tools_concurrently in Hrun.
  destruct (run_batch config calls (w, batch_new)) as [[o' [w1 b]]|] eqn:Hb; [|done]. simplify_eq.
  pose proof (run_batch_concludes config calls (w, batch_new)) as Hw.
  apply (wlp_run _ _ _ _ _ Hw) in Hb as [[_ Hk] Ho]. destruct (Ho o eq_refl rs r Hrs Hr) as [?|[j Hj]]; [by left|right].
  destruct Hk as [Hk _]; [split; constructor|]. rewrite Forall_forall in Hk. by apply (Hk (j, r)).
Qed.

End Safety.

(** ** Batches evaluated *)

#[local] Existing Instance Toy.ext.

(** Every call is asked about; the approver rewrites the arguments of the first. *)
Definition gate_approves : ToolApprovalRequest -> Script.host_state -> ApprovalReply * Script.host_state :=
  fun r h => (Decides (if String.eqb (ar_tool_call_id r) "c1" then ApprovedWith (Toy.JObj "x") else Rejected), h).

Definition gated_config : AgentLoopConfig Script.host_state :=
  MkConfig None None (Script.model "m") (MkRetryStrategy (default_should_retry 3) (fun _ h => (5%N, h)))
    Script.play [Script.lookup] as_llm None None None None (Some gate_approves) ApprovalEnabled [] [] [] []
    None None Concurrent None None None None []
    false (fun h => (0%N, h)).

Definition gated_calls : list ToolCallInfo :=
  [MkToolCallInfo "c1" "lookup" (Toy.JObj "") false; MkToolCallInfo "c2" "lookup" (Toy.JObj "") false].

Definition gated_end : ToolExecOutcome * World Script.host_state := Eval vm_compute in
  match execute_tools_concurrently gated_config gated_calls (Script.world []) with
  | Some (o, w) => (o, w)
  | None => (ToolsChannelClosed, Script.world [])
  end.

Lemma gated_runs :
  execute_tools_concurrently gated_config gated_calls (Script.world []) = Some (fst gated_end, snd gated_end).
Proof. vm_cast_no_check (eq_refl (Some (fst gated_end, snd gated_end))). Qed.


(** The refusal of "c2", as the model sees it. *)
Definition gated_refusal : ToolResultMessage :=
  error_result "c2" "Tool call 'lookup' was rejected by the approval gate." 0.

Lemma results_were_announced_witness :
  announced (snd gated_end) "c2" (tr_content gated_refusal) true.
Proof.
  destruct (results_were_announced gated_config gated_calls (Script.world []) (fst gated_end) (snd gated_end)
    [@MkToolResultMessage Toy.ext "c1" [Text "42"] false 0 Toy.JNull None; gated_refusal] gated_refusal gated_runs) as [Hg|Ha].
  - reflexivity.
  - by apply list_elem_of_further, list_elem_of_singleton.
  - exfalso. revert Hg. unfold given_up. naive_solver.
  - exact Ha.
Defined.
