(* ===== verification/LoopProtocol.v ===== *)
(** * The event protocol of a run

    Every event sequence the loop sends is a path of the phase automaton of
    [LoopWorld], and a run that returns with its receiver still listening has
    sent [AgentEnd], once, as its last event. *)
From S2P Require Export Turn StreamLoopSpec ToolBatchSpec.
Open Scope list_scope.

Section Protocol.
Context `{E : Ext} {H : Type} `{X : !ToolExecutor H} `{L : !LawfulToolExecutor}.
Context {receiver : Receiver}.
Implicit Types (config : AgentLoopConfig H).

#[local] Abbreviation M := (Prog (World H)).

(** ** Rules for sequences *)

Lemma quiet_then {A B} (m : M A) (k : A -> M B) P Q w :
  quiet m -> in_phase P w -> (forall a w', in_phase P w' -> wlp (k a) Q w') -> wlp (m ≫= k) Q w.
Proof.
  intros Hm HP Hk. apply wlp_bind. eapply wlp_mono; [apply (wlp_quiet _ _ _ Hm HP)|]. auto.
Qed.

Lemma emit_then {B} e (k : bool -> M B) P P' Q w :
  in_phase P w -> (forall p, P p -> exists p', phase_step p e = Some p' /\ P' p') ->
  (forall w', in_phase P' w' -> wlp (k true) Q w') ->
  (forall w', in_phase P' w' -> dropped w' -> wlp (k false) Q w') ->
  wlp (emit e ≫= k) Q w.
Proof.
  intros HP Hs Ht Hf. apply wlp_bind. eapply wlp_mono; [by eapply wlp_emit|].
  intros [] w' [HP' Hd]; auto.
Qed.

Lemma emit__then {B} e (k : unit -> M B) P P' Q w :
  in_phase P w -> (forall p, P p -> exists p', phase_step p e = Some p' /\ P' p') ->
  (forall w', in_phase P' w' -> wlp (k tt) Q w') -> wlp (emit_ e ≫= k) Q w.
Proof.
  intros HP Hs Hk. apply wlp_bind. eapply wlp_mono; [by eapply wlp_emit_|].
  intros [] w' HP'. auto.
Qed.

Lemma wlp_then {A B} (m : M A) (k : A -> M B) (P : A -> World H -> Prop) Q w :
  wlp m P w -> (forall a w', P a w' -> wlp (k a) Q w') -> wlp (m ≫= k) Q w.
Proof. intros Hm Hk. apply wlp_bind. by eapply wlp_mono. Qed.

Lemma wlp_any {W A} (m : Prog W A) w : wlp m (fun _ _ => True) w.
Proof. unfold wlp. by destruct (m w) as [[]|]. Qed.

(** The phases inside a turn, once the provider was called. *)
Definition body (p : Phase) : Prop :=
  match p with Calling | Streaming | Tools | Closing => True | _ => False end.

Lemma streaming_body (w : World H) : in_phase (eq Streaming) w -> in_phase body w.
Proof. intros HP. eapply in_phase_mono; [exact HP|]. by intros p <-. Qed.

Lemma bind_ret {W A B} (a : A) (k : A -> Prog W B) : (mret a : Prog W A) ≫= k = k a.
Proof. done. Qed.

Lemma wlp_assoc {W A B C} (m : Prog W A) (f : A -> Prog W B) (g : B -> Prog W C) Q w :
  wlp (m ≫= fun a => f a ≫= g) Q w -> wlp ((m ≫= f) ≫= g) Q w.
Proof. unfold wlp, mbind, prog_bind. by destruct (m w) as [[]|]. Qed.

(** ** Quiet parts *)

Lemma quiet_apply_injections original msgs replaced :
  quiet (apply_injections (H := H) original msgs replaced).
Proof.
  revert replaced. induction msgs as [|m msgs IH]; intros replaced; cbn [apply_injections]; quiet.
Qed.

Lemma quiet_policy_check config m trs prompt : quiet (run_post_turn_policy_check config m trs prompt).
Proof.
  unfold run_post_turn_policy_check, policy_context. quiet. apply quiet_apply_injections.
Qed.

Lemma quiet_snapshot sr delta : quiet (build_snapshot (H := H) sr delta).
Proof. unfold build_snapshot. quiet. Qed.

Lemma quiet_metrics config m tools : quiet (emit_turn_metrics config m tools).
Proof. unfold emit_turn_metrics. quiet. Qed.

Lemma quiet_push_results trs : quiet (push_results (H := H) trs).
Proof.
  apply respects_for_each; [apply quiet_step_preorder|]. intros tr. apply quiet_push.
Qed.

Lemma quiet_poll_steering config : quiet (poll_steering_into_pending config).
Proof. unfold poll_steering_into_pending, extend_pending. quiet. Qed.

Lemma quiet_extend_pending msgs : quiet (extend_pending (H := H) msgs).
Proof. apply quiet_upd. Qed.

Lemma quiet_split_incomplete config calls : quiet (split_incomplete config calls).
Proof.
  induction calls as [|tc calls IH]; cbn [split_incomplete]; quiet.
Qed.

Lemma quiet_recover config calls sr : quiet (recover_incomplete_tool_calls config calls sr).
Proof. unfold recover_incomplete_tool_calls. quiet. apply quiet_split_incomplete. Qed.

Lemma quiet_mark config m : quiet (mark_assistant_message_aborted config m).
Proof. unfold mark_assistant_message_aborted. quiet. Qed.

Lemma quiet_inject_pending : quiet (inject_pending (H := H)).
Proof. unfold inject_pending. quiet. Qed.

Lemma quiet_publish config : quiet (publish_prior_prefix config).
Proof. unfold publish_prior_prefix. quiet. Qed.

Lemma quiet_take_context : quiet (take_context (H := H)).
Proof. unfold take_context. quiet. Qed.

Lemma quiet_dynamic config : quiet (build_dynamic_system_prompt_message config).
Proof. unfold build_dynamic_system_prompt_message. quiet. Qed.

Hint Resolve quiet_policy_check quiet_snapshot quiet_metrics quiet_push_results quiet_poll_steering quiet_extend_pending quiet_recover quiet_mark
  quiet_inject_pending quiet_publish quiet_take_context quiet_dynamic : swink.

(** ** Turns as they end *)

Definition same_calls (m m' : AssistantMessage) : Prop :=
  List.filter is_tool_call (am_content m) = List.filter is_tool_call (am_content m').

Lemma replayable_calls (bs : list ContentBlock) :
  forallb replayable bs = forallb replayable (List.filter is_tool_call bs).
Proof. induction bs as [|[] bs IH]; cbn; by rewrite ?IH. Qed.

Lemma call_ids_calls (bs : list ContentBlock) :
  filtermap call_id bs = filtermap call_id (List.filter is_tool_call bs).
Proof. induction bs as [|[] bs IH]; cbn; by rewrite ?IH. Qed.

(** Only the tool calls of the message count. *)
Lemma turn_ok_same_calls m m' trs reason : same_calls m m' -> turn_ok m trs reason = turn_ok m' trs reason.
Proof.
  intros Hs. unfold turn_ok, call_ids. rewrite replayable_calls, call_ids_calls, Hs.
  by rewrite <- replayable_calls, <- call_ids_calls.
Qed.

Lemma call_id_sanitized b : call_id (fst (sanitize_block b)) = call_id b.
Proof. destruct b as [t|t g|id name args [p|]|i|t]; try done. cbn. by destruct (negb _). Qed.

Lemma call_ids_sanitized m : call_ids (fst (sanitize_incomplete_tool_calls m)) = call_ids m.
Proof.
  unfold call_ids, sanitize_incomplete_tool_calls. cbn [fst am_content]. induction (am_content m) as [|b bs IH]; [done|].
  cbn [map filtermap]. by rewrite call_id_sanitized, IH.
Qed.

Lemma replayable_sanitized m :
  forallb replayable (am_content (fst (sanitize_incomplete_tool_calls m))) = true.
Proof.
  unfold sanitize_incomplete_tool_calls. cbn. destruct (sanitize_blocks_spec (am_content m)) as [Hs _].
  apply forallb_forall. intros b Hb. rewrite Forall_forall in Hs. apply Hs. by apply list_elem_of_In.
Qed.

Lemma call_ids_extract m : map tci_id (extract_tool_calls m) = call_ids m.
Proof.
  unfold call_ids, extract_tool_calls. induction (am_content m) as [|[] bs IH]; cbn; by rewrite ?IH.
Qed.

(** A message without blocks needs no results. *)
Lemma turn_ok_empty m reason : am_content m = [] -> turn_ok m [] reason = true.
Proof. intros Hm. unfold turn_ok, call_ids. rewrite Hm. by destruct reason. Qed.

Lemma turn_ok_answered m trs reason :
  forallb replayable (am_content m) = true -> map tr_tool_call_id trs ≡ₚ call_ids m -> turn_ok m trs reason = true.
Proof. intros Hr Hc. unfold turn_ok. rewrite Hr. destruct reason; cbn; by rewrite ?bool_decide_eq_true_2. Qed.

(** A replacement by a post-turn policy keeps the calls. *)
Lemma apply_injections_same original msgs replaced (w : World H) :
  same_calls original replaced ->
  wlp (apply_injections original msgs replaced) (fun m' _ => same_calls original m') w.
Proof.
  revert replaced w. induction msgs as [|m msgs IH]; intros replaced w Hs; cbn [apply_injections].
  - by apply wlp_ret.
  - assert (Hother : forall x : AgentMessage, wlp (upd (fun s => put_pending (pending_messages s ++ [x]) s)
        ≫= fun _ => sync_pending_message_snapshot ≫= fun _ => apply_injections original msgs replaced)
      (fun m' _ => same_calls original m') w).
    { intros x. eapply wlp_then; [apply wlp_any|]. intros ? w1 _.
      eapply wlp_then; [apply wlp_any|]. intros ? w2 _. by apply IH. }
    destruct m as [[u|a|t]|c]; try apply Hother. apply IH.
    destruct (assistant_replacement_preserves_tool_calls original a) eqn:Ha; [|done].
    by apply bool_decide_eq_true in Ha.
Qed.

Lemma policy_check_same config m trs prompt (w : World H) :
  wlp (run_post_turn_policy_check config m trs prompt) (fun r _ => same_calls m (fst r)) w.
Proof.
  unfold run_post_turn_policy_check. destruct (cfg_post_turn_policies config) as [|p ps]; [by apply wlp_ret|].
  eapply wlp_then; [apply wlp_any|]. intros ctx w1 _. eapply wlp_then; [apply wlp_any|]. intros msgs w2 _.
  eapply wlp_then; [apply wlp_any|]. intros [|reason|injected] w3 _; [by apply wlp_ret..|].
  eapply wlp_then; [by apply apply_injections_same|]. intros m' w4 Hm.
  eapply wlp_then; [apply wlp_any|]. intros ? w5 _. by apply wlp_ret.
Qed.

(** The post-turn policies in sequence. *)
Lemma policy_check_then {B} config m trs prompt (k : AssistantMessage * option string -> M B) P Q w :
  in_phase P w -> (forall m' stop w', same_calls m m' -> in_phase P w' -> wlp (k (m', stop)) Q w') ->
  wlp (run_post_turn_policy_check config m trs prompt ≫= k) Q w.
Proof.
  intros HP Hk. eapply wlp_then.
  - apply wlp_conj; [apply policy_check_same|]. apply (wlp_quiet _ _ _ (quiet_policy_check config m trs prompt) HP).
  - intros [m' stop] w' [Hs HP']. by apply Hk.
Qed.

(** Skips a quiet first command. *)
Ltac skip HP :=
  eapply quiet_then; [solve [eauto with swink]|exact HP|clear HP; intros ? ? HP].

(** ** Terminal events *)

Definition ended (o : TurnOutcome) (w : World H) : Prop := o = Return /\ in_phase (eq Ended) w.

Lemma emit_agent_end_phase (w : World H) :
  in_phase (eq Between) w -> wlp emit_agent_end ended w.
Proof.
  intros HP. unfold emit_agent_end. skip HP.
  eapply (emit__then _ _ (eq Between) (eq Ended)); [exact HP|intros p <-; by exists Ended|].
  intros w2 HP2. by apply wlp_ret.
Qed.

Lemma turn_end_step p m trs reason sn : turn_ok m trs reason = true -> body p ->
  exists p', phase_step p (TurnEnd m trs reason sn) = Some p' /\ Between = p'.
Proof. intros Hok. destruct p; try done; cbn; rewrite Hok; by eexists. Qed.

Lemma turn_end_phase m trs reason sn (w : World H) :
  turn_ok m trs reason = true -> in_phase body w -> wlp (emit_turn_end_and_agent_end m trs reason sn) ended w.
Proof.
  intros Hok HP. eapply (emit_then _ _ body (eq Between)); [exact HP|intros p; by apply turn_end_step| |].
  - intros w1 HP1. by apply emit_agent_end_phase.
  - intros w1 HP1 Hd. apply wlp_ret. split; [done|]. by apply (in_phase_dropped (eq Between)).
Qed.

Lemma flush_phase (w : World H) :
  in_phase body w -> wlp flush_state_delta (fun _ => in_phase body) w.
Proof.
  intros HP. unfold flush_state_delta.
  apply wlp_bind, wlp_gets. cbn [flush_delta]. apply wlp_bind, wlp_modify.
  assert (in_phase body (set_session (snd (flush_delta (w_session w))) w)) as HP1 by exact HP.
  cbn [flush_delta snd] in HP1. destruct (delta_is_empty _); [by apply wlp_ret|].
  eapply (emit__then _ _ body body); [exact HP1| |].
  - intros p Hp. exists Closing. by destruct p.
  - intros w2 HP2. by apply wlp_ret.
Qed.

(** ** Transformers *)

Lemma run_transformer_phase p overflow t (w : World H) :
  (forall r, phase_step p (ContextCompacted r) = Some p) ->
  in_phase (eq p) w -> wlp (run_transformer overflow t) (fun _ => in_phase (eq p)) w.
Proof.
  intros Hc HP. unfold run_transformer. skip HP.
  eapply quiet_then; [apply quiet_host|exact HP|]. intros [report msgs] w1 HP1.
  skip HP1. skip HP1. rename HP1 into HP3.
  destruct report as [r|]; [|by apply wlp_ret].
  eapply (emit__then _ _ (eq p) (eq p)); [exact HP3|intros q <-; by exists p|].
  intros w4 HP4. by apply wlp_ret.
Qed.

Lemma run_context_transformers_phase p config overflow (w : World H) :
  (forall r, phase_step p (ContextCompacted r) = Some p) ->
  in_phase (eq p) w -> wlp (run_context_transformers config overflow) (fun _ => in_phase (eq p)) w.
Proof.
  intros Hc HP. unfold run_context_transformers.
  assert (Hopt : forall (t : option (TransformerOps (H := H))) w, in_phase (eq p) w ->
    wlp (match t with Some t => run_transformer overflow t | None => mret false end)
        (fun _ => in_phase (eq p)) w).
  { intros [t|] w1 HP1; [by apply run_transformer_phase|by apply wlp_ret]. }
  assert (Hboth : wlp (upd (fun s => put_context (context_make_mut id (context_messages s)) s)
    ≫= fun _ => match cfg_async_transform_context config with
    | Some t => run_transformer overflow t | None => mret false end ≫= fun compacted1 =>
    match cfg_transform_context config with
    | Some t => run_transformer overflow t | None => mret false end ≫= fun compacted2 =>
    mret (compacted1 || compacted2)) (fun _ => in_phase (eq p)) w).
  { skip HP. eapply wlp_then; [by apply Hopt|]. intros b1 w2 HP2.
    eapply wlp_then; [by apply Hopt|]. intros b2 w3 HP3. by apply wlp_ret. }
  revert Hboth. destruct (cfg_async_transform_context config), (cfg_transform_context config);
    intros Hboth; first [exact Hboth|by apply wlp_ret].
Qed.

(** ** Turns that end early *)

Lemma started_cancellation_phase config (w : World H) :
  in_phase (eq Streaming) w -> wlp (handle_started_turn_cancellation config) ended w.
Proof.
  intros HP. unfold handle_started_turn_cancellation, emit_cancellation_for_turn.
  skip HP. skip HP. cbn [negb]. rewrite !bind_ret. cbn [negb].
  eapply (emit_then _ _ (eq Streaming) (eq Streaming)); [exact HP|intros p <-; by eexists| |];
    intros w1 HP1; cbn [negb].
  - skip HP1. apply turn_end_phase; [by apply turn_ok_empty|by apply streaming_body].
  - intros Hd. apply wlp_ret. split; [done|by apply (in_phase_dropped (eq Streaming))].
Qed.

Lemma cancellation_phase config (w : World H) :
  in_phase (eq Between) w -> wlp (handle_cancellation config) ended w.
Proof.
  intros HP. unfold handle_cancellation, emit_cancellation_for_turn. skip HP. skip HP. cbn [negb].
  assert (Hdrop : forall P (w : World H), in_phase P w -> dropped w -> ended Return w).
  { intros P w1 HP' Hd. split; [done|]. by apply (in_phase_dropped P). }
  eapply (emit_then _ _ (eq Between) (eq TurnBegun)); [exact HP|intros p <-; by eexists| |];
    intros w1 HP1; cbn [negb]; [|intros; apply wlp_ret; by eapply Hdrop].
  eapply (emit_then _ _ (eq TurnBegun) (eq Streaming)); [exact HP1|intros p <-; by eexists| |];
    intros w2 HP2; cbn [negb]; [|intros; apply wlp_ret; by eapply Hdrop].
  eapply (emit_then _ _ (eq Streaming) (eq Streaming)); [exact HP2|intros p <-; by eexists| |];
    intros w3 HP3; cbn [negb]; [|intros; apply wlp_ret; by eapply Hdrop].
  skip HP3. apply turn_end_phase; [by apply turn_ok_empty|by apply streaming_body].
Qed.

Lemma error_stop_phase config prompt m (w : World H) :
  am_stop_reason m = Error \/ am_stop_reason m = Aborted -> in_phase body w -> wlp (handle_error_stop config prompt m) ended w.
Proof.
  intros Hstop HP. unfold handle_error_stop. skip HP. skip HP.
  eapply policy_check_then; [exact HP|]. intros m' stop w1 Hs HP1.
  skip HP1. skip HP1. apply turn_end_phase; [|done]. rewrite <- (turn_ok_same_calls _ _ _ _ Hs).
  unfold turn_ok. rewrite replayable_sanitized. by case_bool_decide.
Qed.

Lemma overflow_error_phase config prompt (w : World H) :
  in_phase (eq Streaming) w ->
  wlp (overflow_error config prompt)
    (fun r w' => exists o, r = Failed o /\ ended o w') w.
Proof.
  intros HP. unfold overflow_error. skip HP. skip HP.
  eapply (emit__then _ _ (eq Streaming) (eq Streaming)); [exact HP|intros p <-; by eexists|].
  intros w1 HP1. skip HP1. eapply policy_check_then; [exact HP1|]. intros m' stop w2 Hs HP2.
  skip HP2. skip HP2. eapply wlp_then.
  { apply turn_end_phase; [|by apply streaming_body]. rewrite <- (turn_ok_same_calls _ _ _ _ Hs).
    by apply turn_ok_empty. }
  intros o w3 Ho. apply wlp_ret. eauto.
Qed.

Lemma recovery_phase fuel config prompt ctx dyn key (w : World H) :
  in_phase (eq Streaming) w ->
  wlp (attempt_overflow_recovery fuel config prompt ctx dyn key)
    (fun r w' => match r with
                 | Failed o => ended o w'
                 | Recovered r => response_phase r w' /\ r <> ContextOverflow
                 end) w.
Proof.
  intros HP. unfold attempt_overflow_recovery.
  assert (Hfail : forall w, in_phase (eq Streaming) w -> wlp (overflow_error config prompt)
    (fun r w' => match r with Failed o => ended o w'
       | Recovered r => response_phase r w' /\ r <> ContextOverflow end) w).
  { intros w1 HP1. eapply wlp_mono; [by apply overflow_error_phase|]. by intros r w2 (o & -> & Ho). }
  eapply quiet_then; [apply quiet_st|exact HP|]. intros [] w1 HP1; [by apply Hfail|].
  assert (Hgo : wlp (upd (put_recovery_attempted true) ≫= fun _ =>
      upd (put_overflow_signal true) ≫= fun _ =>
      run_context_transformers config true ≫= fun any_compacted : bool =>
      upd (put_overflow_signal false) ≫= fun _ =>
      if negb any_compacted then overflow_error config prompt
      else
        is_cancelled ≫= fun cancelled : bool =>
        if cancelled then handle_started_turn_cancellation config ≫= fun o => mret (Failed o)
        else
          messages_now ≫= fun messages =>
          stream_with_retry fuel config ctx (build_llm_messages config messages dyn) prompt key false
          ≫= fun retry_result =>
          match retry_result with
          | ContextOverflow => overflow_error config prompt
          | _ => mret (Recovered retry_result)
          end)
    (fun r w' => match r with Failed o => ended o w'
       | Recovered r => response_phase r w' /\ r <> ContextOverflow end) w1).
  { skip HP1. skip HP1. eapply wlp_then; [by apply (run_context_transformers_phase Streaming)|].
    intros compacted w2 HP2. skip HP2. destruct compacted; cbn [negb]; [|by apply Hfail].
    eapply quiet_then; [apply quiet_is_cancelled|exact HP2|]. intros [] w3 HP3.
    - eapply wlp_then; [by apply started_cancellation_phase|]. intros o w4 Ho. by apply wlp_ret.
    - skip HP3. eapply wlp_then; [by apply stream_with_retry_phase|]. intros r w4 Hr.
      destruct r; [by apply wlp_ret|by apply Hfail|by apply wlp_ret|by apply wlp_ret]. }
  revert Hgo. destruct (cfg_async_transform_context config), (cfg_transform_context config);
    intros Hgo; first [exact Hgo|by apply Hfail].
Qed.

(** ** Turns that go on *)

(** The phase a turn's outcome leaves. *)
Definition outcome_phase (o : TurnOutcome) (w : World H) : Prop :=
  match o with Return => in_phase (eq Ended) w | _ => in_phase (eq Between) w end.

Lemma ended_outcome o (w : World H) : ended o w -> outcome_phase o w.
Proof. by intros [-> HP]. Qed.

Lemma dropped_outcome P o (w : World H) : in_phase P w -> dropped w -> outcome_phase o w.
Proof. intros HP Hd. destruct o; by apply (in_phase_dropped P). Qed.

Lemma agent_end_outcome (w : World H) :
  in_phase (eq Between) w -> wlp emit_agent_end outcome_phase w.
Proof.
  intros HP. eapply wlp_mono; [by apply emit_agent_end_phase|]. intros o w' Ho. by apply ended_outcome.
Qed.

Lemma no_tool_calls_phase config prompt m (w : World H) :
  forallb replayable (am_content m) = true -> call_ids m = [] -> in_phase body w -> wlp (handle_no_tool_calls config prompt m) outcome_phase w.
Proof.
  intros Hr Hcalls HP. unfold handle_no_tool_calls. skip HP. skip HP. skip HP. skip HP. skip HP.
  eapply policy_check_then; [exact HP|]. intros m' stop w1 Hs HP1.
  assert (Hok : forall reason, turn_ok m' [] reason = true).
  { intros reason. rewrite <- (turn_ok_same_calls _ _ _ _ Hs). apply turn_ok_answered; [done|]. by rewrite Hcalls. }
  skip HP1. skip HP1. eapply wlp_then; [by apply flush_phase|]. intros delta w2 HP2. skip HP2.
  eapply (emit_then _ _ body (eq Between)); [exact HP2|intros p; by apply turn_end_step| |];
    intros w3 HP3; cbn [negb]; [|intros Hd; apply wlp_ret; by eapply dropped_outcome].
  destruct stop as [reason|]; [by apply agent_end_outcome|].
  eapply quiet_then; [|exact HP3|].
  { destruct (is_reasoning_only m'); [|eauto with swink].
    apply quiet_bind; [eauto with swink|]. intros nudged. apply quiet_when. quiet. }
  intros _ w4 HP4. skip HP4. skip HP4. apply wlp_ret. by destruct (_ : list AgentMessage).
Qed.

(** A message whose calls the results answer. *)
Definition answered (m : AssistantMessage) (trs : list ToolResultMessage) : Prop :=
  forallb replayable (am_content m) = true /\ map tr_tool_call_id trs ≡ₚ call_ids m.

Lemma answered_turn_ok m trs reason : answered m trs -> turn_ok m trs reason = true.
Proof. intros [? ?]. by apply turn_ok_answered. Qed.

Lemma answered_same m m' trs : same_calls m m' -> answered m trs -> answered m' trs.
Proof.
  intros Hs [Hr Hc]. unfold answered, call_ids. rewrite (replayable_calls (am_content m')), <- Hs, <- replayable_calls.
  split; [done|]. rewrite (call_ids_calls (am_content m')), <- Hs, <- call_ids_calls. exact Hc.
Qed.

Lemma rewrite_results_ids confirmation msg trs :
  map tr_tool_call_id (rewrite_results confirmation msg trs) = map tr_tool_call_id trs.
Proof.
  induction trs as [|tr trs IH]; [done|]. cbn [rewrite_results]. unfold rewrite_tool_result_as_rejected.
  destruct (_ && _); cbn; [done|]. by rewrite IH.
Qed.

Lemma tools_turn_end_phase m trs steering (w : World H) :
  answered m trs -> in_phase body w ->
  wlp (emit_tools_turn_end m trs steering)
    (fun ok w' => in_phase (eq Between) w' /\ (ok = false -> dropped w')) w.
Proof.
  intros Ha HP. unfold emit_tools_turn_end. eapply wlp_then; [by apply flush_phase|].
  intros delta w1 HP1. skip HP1. apply (wlp_emit _ body (eq Between)); [exact HP1|].
  intros p. by apply turn_end_step, answered_turn_ok.
Qed.

(** Where the tool phase leaves a listener. *)
Definition tooling (p : Phase) : Prop := p = Streaming \/ p = Tools.

Lemma tooling_body (w : World H) : in_phase tooling w -> in_phase body w.
Proof. intros HP. eapply in_phase_mono; [exact HP|]. by intros p [->| ->]. Qed.

Lemma rejected_transfer_phase config m signal err trs steering stop (w : World H) :
  answered m trs -> in_phase tooling w ->
  wlp (rejected_transfer_turn config m signal err trs steering stop) outcome_phase w.
Proof.
  intros Ha HP. unfold rejected_transfer_turn. skip HP. skip HP.
  eapply (emit__then _ _ tooling (eq Closing)); [exact HP|by intros p [->| ->]; eexists|].
  intros w1 HP1. eapply wlp_then.
  { apply tools_turn_end_phase.
    - destruct Ha. split; [done|]. by rewrite rewrite_results_ids.
    - eapply in_phase_mono; [exact HP1|]. by intros p <-. }
  intros [] w2 [HP2 Hd]; cbn [negb]; [|apply wlp_ret; exact (dropped_outcome _ _ _ HP2 (Hd eq_refl))].
  destruct stop; [by apply agent_end_outcome|by apply wlp_ret].
Qed.

Lemma transferred_phase m signal trs (w : World H) :
  answered m trs -> in_phase tooling w -> wlp (transferred_turn m signal trs) outcome_phase w.
Proof.
  intros Ha HP. unfold transferred_turn. skip HP. skip HP.
  eapply (emit__then _ _ tooling (eq Closing)); [exact HP|by intros p [->| ->]; eexists|].
  intros w1 HP1. eapply wlp_then.
  { apply flush_phase. eapply in_phase_mono; [exact HP1|]. by intros p <-. }
  intros delta w2 HP2. skip HP2. eapply wlp_mono; [by apply turn_end_phase; [apply answered_turn_ok|]|].
  intros o w3 Ho. by apply ended_outcome.
Qed.

Lemma commit_tool_turn_phase config prompt m i trs metrics steering transfer stop (w : World H) :
  answered m trs -> in_phase tooling w ->
  wlp (commit_tool_turn config prompt m i trs metrics steering transfer stop) outcome_phase w.
Proof.
  intros Ha HP. unfold commit_tool_turn. skip HP. skip HP. skip HP.
  eapply policy_check_then; [exact HP|]. intros m' pstop w1 Hs HP1.
  apply (answered_same _ _ _ Hs) in Ha.
  skip HP1. skip HP1. destruct transfer as [signal|].
  - eapply quiet_then; [apply quiet_st|exact HP1|]. intros chain w2 HP2.
    destruct (chain_push chain (ts_target_agent signal)) as [chain' [[]|err]].
    + skip HP2. by apply transferred_phase.
    + skip HP2. by apply rejected_transfer_phase.
  - eapply wlp_then; [by apply tools_turn_end_phase; [|apply tooling_body]|].
    intros [] w2 [HP2 Hd]; cbn [negb]; [|apply wlp_ret; exact (dropped_outcome _ _ _ HP2 (Hd eq_refl))].
    destruct stop, pstop; try by apply agent_end_outcome.
    destruct steering; [rewrite bind_ret; by apply wlp_ret|].
    skip HP2. by apply wlp_ret.
Qed.

Lemma tools_aborted_phase config prompt m i trs metrics injected (w : World H) :
  answered m trs -> in_phase tooling w ->
  wlp (tools_aborted_turn config prompt m i trs metrics injected) outcome_phase w.
Proof.
  intros Ha HP. unfold tools_aborted_turn. skip HP. skip HP. skip HP. skip HP. skip HP.
  unfold mark_assistant_message_aborted. apply wlp_assoc. skip HP. rewrite bind_ret.
  eapply policy_check_then; [exact HP|]. intros m' pstop w1 Hs HP1. skip HP1.
  apply (answered_same m m' trs) in Ha; [|exact Hs].
  eapply wlp_then; [by apply flush_phase, tooling_body|]. intros delta w2 HP2. skip HP2.
  eapply wlp_mono; [by apply turn_end_phase; [apply answered_turn_ok|]|]. intros o w3 Ho. by apply ended_outcome.
Qed.

(** The error results and the calls left make up the calls. *)
Lemma split_incomplete_ids config calls (w : World H) :
  wlp (split_incomplete config calls)
    (fun r _ => map tr_tool_call_id (fst r) ++ map tci_id (snd r) ≡ₚ map tci_id calls) w.
Proof.
  revert w. induction calls as [|tc calls IH]; intros w; cbn [split_incomplete]; [by apply wlp_ret|].
  destruct (tci_is_incomplete tc).
  - eapply wlp_then; [apply wlp_any|]. intros now w1 _. eapply wlp_then; [apply IH|].
    intros [results remaining] w2 Hr. apply wlp_ret. cbn in *. by rewrite Hr.
  - eapply wlp_then; [apply IH|]. intros [results remaining] w2 Hr. apply wlp_ret. cbn in *.
    by rewrite <- Permutation_middle, Hr.
Qed.

Lemma recover_ids config calls sr (w : World H) :
  wlp (recover_incomplete_tool_calls config calls sr)
    (fun r _ => map tr_tool_call_id (fst r) ++ map tci_id (snd r) ≡ₚ map tci_id calls) w.
Proof. destruct sr; try (by apply wlp_ret). apply split_incomplete_ids. Qed.

Lemma tool_calls_phase config prompt m calls (w : World H) :
  forallb replayable (am_content m) = true -> map tci_id calls = call_ids m ->
  in_phase (eq Streaming) w -> wlp (handle_tool_calls config prompt m calls) outcome_phase w.
Proof.
  intros Hr Hids HP. unfold handle_tool_calls. skip HP. skip HP. skip HP.
  eapply wlp_then; [apply wlp_conj; [apply recover_ids|exact (wlp_quiet _ _ _ (quiet_recover _ _ _) HP)]|].
  clear HP. intros [early calls'] w1 [He HP1]. cbn [fst snd] in He. rewrite Hids in He. skip HP1.
  assert (HP2 := in_phase_mono _ tooling _ HP1 (fun p Hp => or_introl (eq_sym Hp))). clear HP1.
  destruct calls' as [|c cs].
  { apply commit_tool_turn_phase; [|done]. split; [done|]. cbn in He. by rewrite app_nil_r in He. }
  set (calls' := c :: cs) in *. clearbody calls'.
  eapply wlp_then; [by apply wlp_conj; [apply execute_tools_answers|apply execute_tools_phase]|].
  intros o w3 [Hans [HP3 Hd]]. fold tooling in HP3.
  assert (Ha : forall rs, outcome_results o = Some rs -> answered m (early ++ rs)).
  { intros rs Hrs. split; [done|]. by rewrite map_app, (Hans rs Hrs). }
  destruct o; cbn [outcome_results] in Ha.
  - skip HP3. skip HP3. apply commit_tool_turn_phase; [by apply Ha|done].
  - skip HP3. skip HP3. apply commit_tool_turn_phase; [by apply Ha|done].
  - skip HP3. skip HP3. skip HP3. apply commit_tool_turn_phase; [by apply Ha|done].
  - apply tools_aborted_phase; [by apply Ha|done].
  - apply wlp_ret. eapply dropped_outcome; [exact HP3|by apply Hd].
Qed.

Lemma finish_turn_phase config prompt r (w : World H) :
  response_phase r w -> r <> ContextOverflow -> wlp (finish_turn config prompt r) outcome_phase w.
Proof.
  intros Hr Hno. unfold finish_turn. destruct r as [m| | |]; [|done| |].
  - cbn [handle_stream_result]. rewrite bind_ret. cbn zeta.
    set (m' := fst (price_assistant_message_with _ _ _)). cbn [response_phase] in Hr.
    assert (Hgo : wlp (let tool_calls := extract_tool_calls m' in
      let m := fst (sanitize_incomplete_tool_calls m') in
      match tool_calls with
      | [] => handle_no_tool_calls config prompt m
      | _ => handle_tool_calls config prompt m tool_calls
      end) outcome_phase w).
    { cbn zeta. pose proof (call_ids_extract m') as Hids. rewrite <- call_ids_sanitized in Hids.
      pose proof (replayable_sanitized m') as Hrep. destruct (extract_tool_calls m').
      - apply no_tool_calls_phase; [done|done|by apply streaming_body].
      - by apply tool_calls_phase. }
    destruct (am_stop_reason m') eqn:Hsr; try exact Hgo;
      (eapply wlp_mono; [apply error_stop_phase; [by auto|by apply streaming_body]|]); intros o w1 Ho;
      by apply ended_outcome.
  - cbn [handle_stream_result response_phase] in *.
    assert (in_phase body w) as HP.
    { eapply in_phase_mono; [exact Hr|]. by intros p [->| ->]. }
    eapply (wlp_then _ _ (fun a w' => a = None /\ in_phase (eq Ended) w')).
    { skip HP. skip HP. skip HP. eapply policy_check_then; [exact HP|].
      intros m' stop w1 Hs HP1. skip HP1. skip HP1. eapply wlp_then.
      { apply turn_end_phase; [|done]. rewrite <- (turn_ok_same_calls _ _ _ _ Hs). by apply turn_ok_empty. }
      intros o w2 [_ Ho]. by apply wlp_ret. }
    intros a w1 [-> HP1]. by apply wlp_ret.
  - cbn [handle_stream_result]. rewrite bind_ret. apply wlp_ret. destruct Hr as [HP Hd].
    by eapply dropped_outcome.
Qed.

Lemma call_provider_phase fuel config prompt (w : World H) :
  in_phase (eq TurnBegun) w -> wlp (call_provider fuel config prompt) outcome_phase w.
Proof.
  intros HP. unfold call_provider. skip HP. skip HP.
  eapply quiet_then; [|exact HP|]; [quiet|]. intros key w1 HP1.
  eapply (emit_then _ _ (eq TurnBegun) (eq Calling)); [exact HP1|intros p <-; by eexists| |];
    intros w2 HP2; cbn [negb]; [|intros Hd; apply wlp_ret; by eapply dropped_outcome].
  eapply wlp_then; [by apply stream_with_retry_phase|]. intros r w3 Hr.
  destruct r; try (by apply finish_turn_phase).
  eapply wlp_then; [by apply recovery_phase|]. intros [r|o] w4 Hw4.
  - destruct Hw4. by apply finish_turn_phase.
  - apply wlp_ret. by apply ended_outcome.
Qed.

Lemma run_single_turn_phase fuel config prompt (w : World H) :
  in_phase (eq Between) w -> wlp (run_single_turn fuel config prompt) outcome_phase w.
Proof.
  intros HP. unfold run_single_turn. skip HP.
  eapply quiet_then; [apply quiet_is_cancelled|exact HP|]. intros [] w1 HP1.
  { eapply wlp_mono; [by apply cancellation_phase|]. intros o w2 Ho. by apply ended_outcome. }
  skip HP1. skip HP1. eapply wlp_then; [by apply (run_context_transformers_phase Between)|].
  intros compacted w2 HP2. skip HP2.
  eapply (wlp_then _ _ (fun (stopped : bool) w' => in_phase (eq (if stopped then Ended else Between)) w')).
  { unfold pre_turn_stopped, policy_context. apply wlp_assoc. skip HP2. rewrite bind_ret.
    eapply quiet_then; [apply quiet_host|exact HP2|]. intros [|reason|msgs] w3 HP3.
    - by apply wlp_ret.
    - eapply wlp_then; [by apply emit_agent_end_phase|]. intros o w4 [_ Ho]. by apply wlp_ret.
    - skip HP3. skip HP3. by apply wlp_ret. }
  intros [] w3 HP3; [by apply wlp_ret|].
  eapply (emit_then _ _ (eq Between) (eq TurnBegun)); [exact HP3|intros p <-; by eexists| |];
    intros w4 HP4; cbn [negb]; [|intros Hd; apply wlp_ret; by eapply dropped_outcome].
  eapply (wlp_then _ _ (fun _ => in_phase (eq TurnBegun))).
  { unfold annotate_cache. destruct (cfg_cache_config config) as [cc|]; [|by apply wlp_ret].
    skip HP4. eapply quiet_then; [apply quiet_gets|exact HP4|]. intros cache w5 HP5.
    destruct (annotate cc cache _) as [[msgs cache'] ev]. skip HP5. skip HP5. skip HP5.
    destruct ev as [[hint n]|]; [|by apply wlp_ret].
    eapply wlp_emit_; [exact HP5|]. intros p <-. by eexists. }
  intros _ w5 HP5. by apply call_provider_phase.
Qed.

Lemma finish_run_phase (w : World H) :
  in_phase (eq Between) w -> wlp finish_run (fun _ => in_phase (eq Ended)) w.
Proof.
  intros HP. unfold finish_run. skip HP.
  eapply wlp_emit_; [exact HP|]. intros p <-. by eexists.
Qed.

Lemma after_inner_phase config (w : World H) :
  in_phase (eq Between) w ->
  wlp (after_inner config) (fun again w' => in_phase (eq (if again then Between else Ended)) w') w.
Proof.
  intros HP. unfold after_inner, policy_context. apply wlp_assoc. skip HP. rewrite bind_ret.
  assert (Hend : forall (w : World H), in_phase (eq Between) w -> wlp (finish_run ≫= fun _ => mret false)
    (fun again w' => in_phase (eq (if again : bool then Between else Ended)) w') w).
  { intros w1 HP1. eapply wlp_then; [by apply finish_run_phase|]. intros u w2 HP2. by apply wlp_ret. }
  assert (Hqueue : forall msgs (w : World H), in_phase (eq Between) w ->
    wlp (queue_messages msgs ≫= fun _ => mret true)
    (fun again w' => in_phase (eq (if again : bool then Between else Ended)) w') w).
  { intros msgs w1 HP1. eapply quiet_then; [unfold queue_messages; quiet|exact HP1|].
    intros u w2 HP2. by apply wlp_ret. }
  eapply quiet_then; [apply quiet_host|exact HP|]. intros [|reason|msgs] w1 HP1; [|by apply Hend|by apply Hqueue].
  destruct (cfg_message_provider config) as [provider|]; [|by apply Hend].
  eapply quiet_then; [apply quiet_host|exact HP1|]. intros [|m ms] w2 HP2; [by apply Hend|by apply Hqueue].
Qed.

Lemma turns_loop_phase turns fuel config prompt (w : World H) :
  in_phase (eq Between) w -> wlp (turns_loop turns fuel config prompt) (fun _ => in_phase (eq Ended)) w.
Proof.
  revert w. induction turns as [|turns IH]; intros w HP; cbn [turns_loop]; [done|].
  eapply wlp_then; [by apply run_single_turn_phase|]. intros [] w1 HP1; cbn [outcome_phase] in HP1.
  - eapply quiet_then; [unfold next_turn; quiet|exact HP1|]. intros u w2 HP2. by apply IH.
  - eapply quiet_then; [unfold next_turn; quiet|exact HP1|]. intros u w2 HP2.
    eapply wlp_then; [by apply after_inner_phase|]. intros [] w3 HP3; [by apply IH|by apply wlp_ret].
  - by apply wlp_ret.
Qed.

Lemma run_loop_inner_phase turns fuel config msgs n prompt (w : World H) :
  in_phase (eq Before) w ->
  wlp (run_loop_inner turns fuel config msgs n prompt) (fun _ => in_phase (eq Ended)) w.
Proof.
  intros HP. unfold run_loop_inner. skip HP.
  eapply (emit_then _ _ (eq Before) (eq Between)); [exact HP|intros p <-; by eexists| |];
    intros w1 HP1; cbn [negb]; [by apply turns_loop_phase|].
  intros Hd. apply wlp_ret. by apply (in_phase_dropped (eq Between)).
Qed.

End Protocol.

Section Runs.
Context `{E : Ext} {H : Type} `{X : !ToolExecutor H} `{L : !LawfulToolExecutor}.

(** While the receiver stays, it stays to the end, and sees [AgentEnd] last. *)
Lemma run_heard_to_the_end turns fuel config msgs n prompt (w : World H) w' :
  w_events w = [] -> w_room w = None ->
  run_loop_inner turns fuel config msgs n prompt w = Some (tt, w') ->
  w_room w' = None /\ phase_run Before (w_events w') = Some Ended.
Proof.
  intros He Hr Hrun.
  pose proof (run_loop_inner_phase (receiver := True) turns fuel config msgs n prompt w) as Hw.
  destruct (wlp_run _ _ _ _ _ (Hw ltac:(exists Before; rewrite He; by auto)) Hrun) as (p & Hp & Hin & Hl).
  specialize (Hl I). split; [done|]. destruct Hin as [<-|Hd]; [done|]. unfold dropped in Hd. congruence.
Qed.


(** A turn's message and results, as the next prompt repeats them. *)
Definition turn_answered (e : AgentEvent) : Prop :=
  match e with
  | TurnEnd m trs reason _ =>
    (forall b, b ∈ am_content m -> match b with
     | ToolCall _ _ arguments partial_json => json_is_object arguments = true /\ partial_json = None
     | _ => True end)
    /\ (reason <> EndError -> reason <> EndAborted ->
        forall id, length (List.filter (fun tr => bool_decide (tr_tool_call_id tr = id)) trs)
          = length (List.filter (fun b => bool_decide (call_id b = Some id)) (am_content m)))
  | _ => True
  end.

Lemma count_results id trs :
  List.filter (fun i => bool_decide (i = id)) (map tr_tool_call_id trs)
  = map tr_tool_call_id (List.filter (fun tr => bool_decide (tr_tool_call_id tr = id)) trs).
Proof.
  induction trs as [|tr trs IH]; [done|]. cbn [map List.filter]. rewrite IH. by case_bool_decide.
Qed.

Lemma count_calls id bs :
  length (List.filter (fun i => bool_decide (i = id)) (filtermap call_id bs))
  = length (List.filter (fun b => bool_decide (call_id b = Some id)) bs).
Proof.
  induction bs as [|b bs IH]; [done|]. cbn [filtermap List.filter].
  destruct (call_id b) as [i|] eqn:Hb; cbn [List.filter].
  - destruct (decide (i = id)) as [->|Hne].
    + rewrite !bool_decide_eq_true_2 by done. cbn [length]. by rewrite IH.
    + rewrite !bool_decide_eq_false_2 by congruence. exact IH.
  - rewrite bool_decide_eq_false_2 by done. exact IH.
Qed.

Lemma filter_perm_length {A} (f : A -> bool) (l k : list A) :
  l ≡ₚ k -> length (List.filter f l) = length (List.filter f k).
Proof. induction 1; cbn; try destruct (f _); try destruct (f _); cbn; congruence. Qed.

Lemma turn_ok_answers m trs reason sn :
  turn_ok m trs reason = true -> turn_answered (TurnEnd m trs reason sn).
Proof.
  intros [Hr Hc]%andb_prop. cbn. split.
  - intros b Hb. rewrite forallb_forall in Hr. specialize (Hr b). rewrite <- list_elem_of_In in Hr.
    specialize (Hr Hb). by destruct b as [| |id name args [p|]| |].
  - intros He Ha id.
    assert (Hp : map tr_tool_call_id trs ≡ₚ call_ids m) by (by destruct reason; cbn in Hc; try apply bool_decide_eq_true in Hc).
    rewrite <- count_calls. fold (call_ids m).
    rewrite <- (filter_perm_length _ _ _ Hp), count_results. by rewrite length_map.
Qed.

Lemma protocol_answered es p p' : phase_run p es = Some p' -> Forall turn_answered es.
Proof.
  revert p. induction es as [|e es IH]; intros p Hes; [done|]. cbn in Hes.
  destruct (phase_step p e) as [q|] eqn:Hs; [|done]. constructor; [|by eapply IH].
  destruct e; try done. apply turn_ok_answers. destruct p; cbn in Hs; try done;
    by destruct (turn_ok _ _ _).
Qed.

Lemma answered_turns_in es m trs reason sn :
  Forall turn_answered es -> TurnEnd m trs reason sn ∈ es -> turn_answered (TurnEnd m trs reason sn).
Proof. intros Hes. rewrite Forall_forall in Hes. apply Hes. Qed.

Lemma run_answered turns fuel config msgs n prompt (w : World H) w' :
  w_events w = [] ->
  run_loop_inner turns fuel config msgs n prompt w = Some (tt, w') -> Forall turn_answered (w_events w').
Proof.
  intros He Hrun.
  pose proof (run_loop_inner_phase (receiver := False) turns fuel config msgs n prompt w) as Hw.
  assert (HP : in_phase (receiver := False) (eq Before) w) by (exists Before; rewrite He; split_and!; [done|by left|intros []]).
  destruct (wlp_run _ _ _ _ _ (Hw HP) Hrun) as (p & Hp & _). by eapply protocol_answered.
Qed.

(** C9: a turn never ends with a dangling call: in every [TurnEnd] of a run, whatever
    the provider streamed (calls cut off by the length limit, calls whose arguments
    are no object), the policies replaced, the tools returned, was transferred,
    steered or cancelled, each tool call of the message carries an object as its
    arguments and no fragment; and unless the turn ended as failed or aborted, every
    id has as many results as it has calls - the history can be sent back. *)
Theorem turns_are_answered turns fuel config msgs n prompt (w : World H) w' m trs reason sn :
  w_events w = [] ->
  run_loop_inner turns fuel config msgs n prompt w = Some (tt, w') ->
  TurnEnd m trs reason sn ∈ w_events w' ->
  (forall id name arguments partial_json, ToolCall id name arguments partial_json ∈ am_content m ->
     json_is_object arguments = true /\ partial_json = None)
  /\ (reason <> EndError -> reason <> EndAborted ->
      forall id, length (List.filter (fun tr => bool_decide (tr_tool_call_id tr = id)) trs)
        = length (List.filter (fun b => bool_decide (call_id b = Some id)) (am_content m))).
Proof.
  intros He Hrun Hin. destruct (answered_turns_in _ _ _ _ _ (run_answered _ _ _ _ _ _ _ _ He Hrun) Hin) as [Hb Hc].
  split; [|exact Hc]. intros id name arguments partial_json Hin'. exact (Hb _ Hin').
Qed.

End Runs.


(** ** A run evaluated *)

#[local] Existing Instance Toy.ext.

(** A tool call, then the answer. *)
Definition demo_tool_turn : list AssistantMessageEvent :=
  [Start; ToolCallStart 0 "c1" "lookup"; ToolCallDelta 0 "{}"; ToolCallEnd 0;
   Done ToolUse usage_default cost_default].

Definition demo_start : World Script.host_state :=
  Script.world [demo_tool_turn; text_response "hi"].

(** The world it leaves, evaluated. *)
Definition demo_ended : World Script.host_state := Eval vm_compute in
  match run_loop_inner 3 3 Script.config [Demo.user "hello"] 1 "" demo_start with
  | Some (_, w) => w
  | None => demo_start
  end.

Lemma demo_runs :
  run_loop_inner 3 3 Script.config [Demo.user "hello"] 1 "" demo_start = Some (tt, demo_ended).
Proof. vm_cast_no_check (eq_refl (Some (tt, demo_ended))). Qed.


(** The message and the results of the first turn. *)
Definition demo_turn_end : option (AssistantMessage * list ToolResultMessage * TurnEndReason * TurnSnapshot) :=
  Eval vm_compute in
  head (filtermap (fun e => match e with TurnEnd m trs r sn => Some (m, trs, r, sn) | _ => None end)
    (w_events demo_ended)).

Lemma turns_are_answered_witness :
  exists m trs reason sn, demo_turn_end = Some (m, trs, reason, sn)
  /\ length trs = 1
  /\ length (List.filter (fun tr => bool_decide (tr_tool_call_id tr = "c1")) trs)
    = length (List.filter (fun b => bool_decide (call_id b = Some "c1")) (am_content m)).
Proof.
  unfold demo_turn_end. do 4 eexists. split; [reflexivity|]. split; [reflexivity|].
  refine (proj2 (turns_are_answered 3 3 Script.config [Demo.user "hello"] 1 "" demo_start demo_ended
    _ _ _ _ eq_refl demo_runs _) _ _ "c1").
  - apply (list_elem_of_lookup_2 _ 8). reflexivity.
  - discriminate.
  - discriminate.
Defined.
