(* ===== verification/LoopTermination.v ===== *)
(** * A capped run ends

    With a turn cap among the pre-turn policies and a retry strategy that gives
    up, every run returns, after at most that many provider calls, whatever
    the model, the tools and the other callbacks do.  The proof follows the
    turn index and the history length through the pieces of a turn; the latter
    is what keeps the indexed replacement of the assistant message in bounds. *)
From S2P Require Export LoopProtocol Policy.
Open Scope list_scope.

Section Termination.
Context `{E : Ext} {H : Type} `{X : !ToolExecutor H} `{L : !LawfulToolExecutor}.
Implicit Types (config : AgentLoopConfig H).

#[local] Abbreviation M := (Prog (World H)).

(** ** What a piece of a turn leaves alone *)

Definition is_llm_call (e : AgentEvent) : bool :=
  match e with BeforeLlmCall _ _ _ => true | _ => false end.

(** Provider calls announced so far. *)
Definition llm_calls (w : World H) : nat := length (List.filter is_llm_call (w_events w)).

Definition index (w : World H) : nat := turn_index (w_state w).
Definition len (w : World H) : nat := length (cm_messages (context_messages (w_state w))).

(** Same turn, no new provider call. *)
Definition calm (w w' : World H) : Prop := index w' = index w /\ llm_calls w' = llm_calls w.

(** Besides, nothing is taken from the history. *)
Definition steadily (w w' : World H) : Prop := calm w w' /\ len w <= len w'.

#[local] Instance calm_preorder : PreOrder calm.
Proof. split; [done|]. intros x y z [??] [??]. split; congruence. Qed.

#[local] Instance steadily_preorder : PreOrder steadily.
Proof.
  split; [done|]. intros x y z [??] [??]. split; [by etransitivity|lia].
Qed.

Definition settles {A} (m : M A) : Prop := forall w, twp m (fun _ => calm w) w.
Definition steady {A} (m : M A) : Prop := forall w, twp m (fun _ => steadily w) w.

Lemma steady_settles {A} (m : M A) : steady m -> settles m.
Proof. intros Hm w. eapply twp_mono; [apply Hm|]. by intros a w' []. Qed.

Lemma steady_bind {A B} (m : M A) (k : A -> M B) : steady m -> (forall a, steady (k a)) -> steady (m ≫= k).
Proof.
  intros Hm Hk w. apply twp_bind. eapply twp_mono; [apply Hm|]. intros a w1 H1.
  eapply twp_mono; [apply Hk|]. intros b w2 H2. by transitivity w1.
Qed.

Lemma settles_bind {A B} (m : M A) (k : A -> M B) :
  settles m -> (forall a, settles (k a)) -> settles (m ≫= k).
Proof.
  intros Hm Hk w. apply twp_bind. eapply twp_mono; [apply Hm|]. intros a w1 H1.
  eapply twp_mono; [apply Hk|]. intros b w2 H2. by transitivity w1.
Qed.

Lemma steady_ret {A} (a : A) : steady (mret a).
Proof. intros w. apply twp_ret. reflexivity. Qed.

Lemma steady_gets {A} (f : World H -> A) : steady (gets f).
Proof. intros w. exact (reflexivity w). Qed.

Lemma steady_host {A} (f : H -> A * H) : steady (host f).
Proof. intros w. unfold twp, host. destruct (f (w_host w)). by split. Qed.

Lemma steady_is_cancelled : steady is_cancelled.
Proof. intros w. unfold twp, is_cancelled. by destruct (w_cancel w) as [[|]|]. Qed.

Lemma steady_emit e : is_llm_call e = false -> steady (emit e).
Proof.
  intros He w. unfold twp, emit.
  assert (Hn : forall es, length (List.filter is_llm_call (es ++ [e])) = length (List.filter is_llm_call es)).
  { intros es. rewrite List.filter_app. simpl. by rewrite He, app_nil_r. }
  destruct (w_room w) as [[|n]|]; (split; [split|]); try done; apply Hn.
Qed.

Lemma steady_emit_ e : is_llm_call e = false -> steady (emit_ e).
Proof. intros He. apply steady_bind; [by apply steady_emit|]. intros b. apply steady_ret. Qed.

Lemma steady_modify f : (forall w, steadily w (f w)) -> steady (modify f).
Proof. intros Hf w. exact (Hf w). Qed.

Lemma steady_upd f :
  (forall s, turn_index (f s) = turn_index s
     /\ length (cm_messages (context_messages s)) <= length (cm_messages (context_messages (f s)))) ->
  steady (upd f).
Proof. intros Hf. apply steady_modify. intros w. destruct (Hf (w_state w)). by split. Qed.

Lemma steady_for_each {A} (f : A -> M unit) l : (forall a, steady (f a)) -> steady (for_each f l).
Proof.
  intros Hf. induction l as [|a l IH]; [apply steady_ret|]. by apply steady_bind.
Qed.

Lemma steady_when b (m : M unit) : steady m -> steady (when b m).
Proof. destruct b; [done|]. intros _. apply steady_ret. Qed.

Lemma steady_push m : steady (push_context m).
Proof. apply steady_upd. intros s. split; [done|]. simpl. rewrite length_app. lia. Qed.

Lemma steady_push_results trs : steady (push_results trs).
Proof. apply steady_for_each. intros tr. apply steady_push. Qed.

Create HintDb steady.
#[local] Hint Resolve steady_ret steady_gets steady_host steady_is_cancelled steady_push
  steady_push_results : steady.
#[local] Hint Extern 1 (steady (emit _)) => (apply steady_emit; reflexivity) : steady.
#[local] Hint Extern 1 (steady (emit_ _)) => (apply steady_emit_; reflexivity) : steady.
#[local] Hint Extern 2 (steady (modify _)) => (apply steady_modify; intros ?; done) : steady.
#[local] Hint Extern 2 (steady (upd _)) => (apply steady_upd; intros ?; done) : steady.
#[local] Hint Extern 3 (steady (now_timestamp _)) => (apply steady_host) : steady.
#[local] Hint Extern 3 (steady (st _)) => (apply steady_gets) : steady.
#[local] Hint Extern 3 (steady messages_now) => (apply steady_gets) : steady.
#[local] Hint Extern 3 (steady sync_loop_context_snapshot) =>
  (apply steady_bind; [apply steady_gets|intros; apply steady_modify; intros ?; done]) : steady.
#[local] Hint Extern 3 (steady sync_pending_message_snapshot) => (apply steady_modify; intros ?; done) : steady.
#[local] Hint Extern 3 (steady clear_pending_message_snapshot) => (apply steady_modify; intros ?; done) : steady.
#[local] Hint Extern 3 (steady (replace_loop_context _)) => (apply steady_modify; intros ?; done) : steady.
#[local] Hint Extern 3 (steady (extend_pending _)) => (apply steady_upd; intros ?; done) : steady.
#[local] Hint Extern 3 (steady (sleep _)) => (apply steady_modify; intros ?; done) : steady.

Ltac steady :=
  repeat first
    [ solve [eauto with steady]
    | apply steady_bind; [|intros]
    | apply steady_when
    | case_match ].

(** ** The provider call *)

Lemma steady_collect_events stream events err : steady (collect_events stream events err).
Proof.
  revert events err. induction stream as [|e stream IH]; intros events err; cbn [collect_events]; steady.
Qed.

Lemma steady_deltas events : steady (emit_attempt_deltas events).
Proof.
  induction events as [|e events IH]; cbn [emit_attempt_deltas]; unfold emit_delta_event; steady.
Qed.

Lemma steady_handle config model sr msg kind ra attempt :
  steady (handle_stream_error config model sr msg kind ra attempt).
Proof. unfold handle_stream_error, finish_stream_error. steady. Qed.

Lemma steady_prepare config msgs n : steady (prepare_cache_miss_retry config msgs n).
Proof. unfold prepare_cache_miss_retry. steady. Qed.

Lemma steady_finalize config model events : steady (finalize_stream_message config model events).
Proof. unfold finalize_stream_message. steady. Qed.

#[local] Hint Resolve steady_collect_events steady_deltas steady_handle steady_prepare
  steady_finalize : steady.

Lemma steady_respects {A} (m : M A) : steady m -> respects steadily m.
Proof. intros Hm w. specialize (Hm w). revert Hm. unfold twp, wlp. by destruct (m w) as [[]|]. Qed.

Lemma respects_then {A B} (m : M A) (k : A -> M B) :
  steady m -> (forall a, respects steadily (k a)) -> respects steadily (m ≫= k).
Proof.
  intros Hm Hk. apply respects_bind; [apply steadily_preorder|by apply steady_respects|done].
Qed.

Lemma retry_loop_steadily fuel config model sf ctx prompt key start defer attempt msgs :
  respects steadily (retry_loop fuel config model sf ctx prompt key start defer attempt msgs).
Proof.
  revert attempt msgs. induction fuel as [|fuel IH]; intros attempt msgs; cbn [retry_loop];
    [by apply respects_stuck|].
  apply respects_then; [steady|]. intros []; [apply steady_respects; steady|].
  apply respects_then; [steady|]. intros []; cbn [negb]; [|apply steady_respects; steady].
  apply respects_then; [unfold stream_single_attempt; steady|].
  intros [events [[[[[sr msg] usage] kind] ra]|]|result events]; [|apply steady_respects; steady..].
  apply respects_then; [steady|]. intros [|d prior|result m]; [apply steady_respects; steady| |].
  - apply respects_then; [steady|]. intros msgs'. apply respects_then; [steady|]. intros u. apply IH.
  - apply steady_respects. steady.
Qed.

Context (max : nat) (fuel : nat) (Hfuel : 0 < fuel) (Hmax : max <= fuel).

Lemma steady_single config model sf ctx msgs prompt key start defer :
  gives_up_after config max ->
  steady (stream_with_retry_single fuel config model sf ctx msgs prompt key start defer).
Proof.
  intros Hg w. apply returns_twp; [|apply retry_loop_steadily].
  intros w1. eapply twp_mono; [by apply (single_within max)|done].
Qed.

Lemma steady_fallback config ctx msgs prompt key models last :
  gives_up_after config max -> steady (fallback_loop fuel config ctx msgs prompt key models last).
Proof.
  intros Hg. revert last. induction models as [|[m sf] models IH]; intros last; cbn [fallback_loop];
    [steady|]. steady. by apply steady_single.
Qed.

Lemma steady_stream config ctx msgs prompt key start :
  gives_up_after config max -> steady (stream_with_retry fuel config ctx msgs prompt key start).
Proof.
  intros Hg. unfold stream_with_retry. steady; [by apply steady_single|by apply steady_fallback].
Qed.

(** ** The pieces of a turn *)

Lemma steady_apply_injections original msgs replaced : steady (apply_injections original msgs replaced).
Proof.
  revert replaced. induction msgs as [|m msgs IH]; intros replaced; cbn [apply_injections]; steady.
Qed.

#[local] Hint Resolve steady_apply_injections : steady.

Lemma steady_policy_check config m trs prompt : steady (run_post_turn_policy_check config m trs prompt).
Proof. unfold run_post_turn_policy_check, policy_context. steady. Qed.

Lemma steady_snapshot sr delta : steady (build_snapshot sr delta).
Proof. intros w. by split. Qed.

Lemma steady_flush : steady flush_state_delta.
Proof. unfold flush_state_delta. steady. Qed.

Lemma steady_metrics config m tools : steady (emit_turn_metrics config m tools).
Proof. unfold emit_turn_metrics. steady. Qed.

Lemma steady_poll config : steady (poll_steering_into_pending config).
Proof. unfold poll_steering_into_pending. steady. Qed.

Lemma steady_split config calls : steady (split_incomplete config calls).
Proof. induction calls as [|tc calls IH]; cbn [split_incomplete]; steady. Qed.

Lemma steady_recover config calls sr : steady (recover_incomplete_tool_calls config calls sr).
Proof. unfold recover_incomplete_tool_calls. pose proof steady_split. steady. Qed.

Lemma steady_mark config m : steady (mark_assistant_message_aborted config m).
Proof. unfold mark_assistant_message_aborted. steady. Qed.

Lemma steady_dynamic config : steady (build_dynamic_system_prompt_message config).
Proof. unfold build_dynamic_system_prompt_message. steady. Qed.

Lemma steady_publish config : steady (publish_prior_prefix config).
Proof. unfold publish_prior_prefix. steady. Qed.

#[local] Hint Resolve steady_flush steady_snapshot : steady.

Lemma steady_tools_turn_end m trs steering : steady (emit_tools_turn_end m trs steering).
Proof. unfold emit_tools_turn_end. steady. Qed.

Lemma llm_calls_tools es fs :
  Forall (fun e => is_tool_event e = true) fs ->
  length (List.filter is_llm_call (es ++ fs)) = length (List.filter is_llm_call es).
Proof.
  intros Hfs. rewrite List.filter_app.
  assert (List.filter is_llm_call fs = []) as ->; [|by rewrite app_nil_r].
  induction Hfs as [|e fs He Hfs IH]; [done|]. simpl. by destruct e.
Qed.

Lemma steady_execute config calls : steady (execute_tools config calls).
Proof.
  intros w. apply returns_twp; [intros w1; apply execute_tools_ends|].
  eapply wlp_mono; [apply wlp_conj; [apply execute_tools_events|apply execute_tools_frame]|].
  intros o w' [[(es & He & Hes & _) _] (Hs & _)]. unfold steadily, calm, index, len, llm_calls.
  rewrite Hs, He. split_and!; [done|by apply llm_calls_tools|done].
Qed.

#[local] Hint Resolve steady_policy_check steady_snapshot steady_flush steady_metrics steady_poll
  steady_recover steady_mark steady_dynamic steady_publish steady_tools_turn_end steady_execute : steady.

(** A turn's commit: the message replaced was pushed before. *)
Lemma set_context_message_calm i m w :
  i < len w -> twp (set_context_message i m) (fun _ w' => steadily w w') w.
Proof.
  intros Hi. unfold set_context_message, context_set. unfold twp, st, gets, mbind, prog_bind.
  unfold len in Hi. destruct (Nat.ltb_spec i (length (cm_messages (context_messages (w_state w)))));
    [|lia]. split; [done|]. unfold len. simpl. by rewrite length_insert.
Qed.

(** Ends in the same turn when the history is longer than [i]. *)
Definition settles_from {A} (i : nat) (m : M A) : Prop :=
  forall w, i < len w -> twp m (fun _ => calm w) w.

Lemma settles_settles_from {A} i (m : M A) : settles m -> settles_from i m.
Proof. intros Hm w _. apply Hm. Qed.

Lemma settles_from_steady {A B} i (m : M A) (k : A -> M B) :
  steady m -> (forall a, settles_from i (k a)) -> settles_from i (m ≫= k).
Proof.
  intros Hm Hk w Hw. apply twp_bind. eapply twp_mono; [apply Hm|]. intros a w1 [Hc Hl].
  eapply twp_mono; [apply Hk; lia|]. intros b w2 H2. by transitivity w1.
Qed.

Lemma settles_from_set {B} i m (k : unit -> M B) :
  (forall u, settles (k u)) -> settles_from i (set_context_message i m ≫= k).
Proof.
  intros Hk w Hw. apply twp_bind. eapply twp_mono; [by apply set_context_message_calm|].
  intros u w1 [Hc _]. eapply twp_mono; [apply Hk|]. intros b w2 H2. by transitivity w1.
Qed.

(** The assistant message is pushed at index [len]. *)
Lemma settles_push {B} m (k : list AgentMessage -> M B) :
  (forall ms, settles_from (length ms) (k ms)) ->
  settles (messages_now ≫= fun messages => push_context m ≫= fun _ => k messages).
Proof.
  intros Hk w. apply twp_bind.
  apply (twp_mono _ (fun ms w1 => ms = cm_messages (context_messages (w_state w)) /\ w1 = w)); [done|].
  intros ms w1 [-> ->]. apply twp_bind.
  apply (twp_mono _ (fun _ w1 => calm w w1 /\ len w1 = S (len w))).
  { unfold twp, push_context, upd, modify. split; [done|]. unfold len. simpl. rewrite length_app. simpl. lia. }
  intros u w2 [Hc Hl]. eapply twp_mono; [apply Hk; unfold len in *; lia|]. intros b w3 H3. by transitivity w2.
Qed.

(** Or it is the last message. *)
Lemma settles_pushed {B} m (k : unit -> M B) :
  (forall u, settles_from 0 (k u)) -> settles (push_context m ≫= k).
Proof.
  intros Hk w. apply twp_bind. apply (twp_mono _ (fun _ w1 => calm w w1 /\ len w1 = S (len w))).
  { unfold twp, push_context, upd, modify. split; [done|]. unfold len. simpl. rewrite length_app. simpl. lia. }
  intros u w2 [Hc Hl]. eapply twp_mono; [apply Hk; lia|]. intros b w3 H3. by transitivity w2.
Qed.

Lemma settles_last {B} (k : list AgentMessage -> M B) :
  (forall ms, settles_from (length ms - 1) (k ms)) -> settles_from 0 (messages_now ≫= k).
Proof.
  intros Hk w Hw. apply twp_bind.
  apply (twp_mono _ (fun ms w1 => ms = cm_messages (context_messages (w_state w)) /\ w1 = w)); [done|].
  intros ms w1 [-> ->]. apply Hk. unfold len in *. lia.
Qed.

Lemma settles_steady {A B} (m : M A) (k : A -> M B) :
  steady m -> (forall a, settles (k a)) -> settles (m ≫= k).
Proof. intros Hm. apply settles_bind. by apply steady_settles. Qed.

Lemma settles_agent_end : settles emit_agent_end.
Proof.
  unfold emit_agent_end, take_context. repeat (apply settles_bind; [|intros]);
    try (apply steady_settles; steady; fail). intros w. by split.
Qed.

Lemma settles_turn_end m trs reason sn : settles (emit_turn_end_and_agent_end m trs reason sn).
Proof.
  unfold emit_turn_end_and_agent_end. apply settles_bind; [apply steady_settles; steady|].
  intros []; cbn [negb]; [apply settles_agent_end|apply steady_settles; steady].
Qed.

Ltac first_steady := apply settles_steady; [steady; fail|intros].
Ltac then_steady := apply settles_from_steady; [steady; fail|intros].
Ltac all_steady := apply steady_settles; steady; fail.

Lemma settles_error_stop config prompt m : settles (handle_error_stop config prompt m).
Proof.
  unfold handle_error_stop. apply settles_push. intros ms. then_steady. case_match.
  apply settles_from_set. intros u. first_steady. apply settles_turn_end.
Qed.

Lemma settles_overflow_error config prompt : settles (overflow_error config prompt).
Proof.
  unfold overflow_error. first_steady. apply settles_pushed. intros u. then_steady.
  apply settles_last. intros ms. then_steady. case_match. apply settles_from_set. intros u2.
  first_steady. apply settles_bind; [apply settles_turn_end|intros; all_steady].
Qed.

Lemma settles_cancellation config b1 b2 : settles (emit_cancellation_for_turn config b1 b2).
Proof.
  unfold emit_cancellation_for_turn. first_steady. first_steady.
  apply settles_steady; [destruct b1; steady|]. intros []; cbn [negb]; [|all_steady].
  apply settles_steady; [destruct b2; steady|]. intros []; cbn [negb]; [|all_steady].
  first_steady. case_match; [all_steady|]. first_steady. apply settles_turn_end.
Qed.

(** The history a transformer or an annotation leaves may be shorter. *)
Lemma settles_put_context f : settles (upd (fun s => put_context (f s) s)).
Proof. intros w. by split. Qed.

Lemma settles_run_transformer overflow t : settles (run_transformer overflow t).
Proof.
  unfold run_transformer. first_steady. first_steady. case_match.
  apply settles_bind; [apply settles_put_context|]. intros u. all_steady.
Qed.

Lemma settles_run_context_transformers config overflow : settles (run_context_transformers config overflow).
Proof.
  unfold run_context_transformers. pose proof (settles_run_transformer overflow) as Ht.
  assert (Hopt : forall t : option (TransformerOps (H := H)),
    settles (match t with Some t => run_transformer overflow t | None => mret false end)).
  { intros [t|]; [apply Ht|all_steady]. }
  destruct (cfg_async_transform_context config) as [t1|], (cfg_transform_context config) as [t2|];
    try all_steady; (apply settles_bind; [apply settles_put_context|]; intros u);
    repeat (apply settles_bind; [first [apply Ht|all_steady]|intros]); all_steady.
Qed.

Lemma settles_recovery config prompt ctx dyn key :
  gives_up_after config max -> settles (attempt_overflow_recovery fuel config prompt ctx dyn key).
Proof.
  intros Hg. unfold attempt_overflow_recovery. first_steady.
  pose proof (settles_overflow_error config prompt) as Herr.
  destruct a; [done|].
  assert (Hgo : settles (upd (put_recovery_attempted true) ≫= fun _ =>
      upd (put_overflow_signal true) ≫= fun _ =>
      run_context_transformers config true ≫= fun any_compacted : bool =>
      upd (put_overflow_signal false) ≫= fun _ =>
      if negb any_compacted then overflow_error config prompt
      else
        is_cancelled ≫= fun cancelled : bool =>
        if cancelled then handle_started_turn_cancellation config ≫= fun o => mret (Failed o)
        else
          messages_now ≫= fun messages =>
          stream_with_retry fuel config ctx (build_llm_messages config messages dyn) prompt key false
          ≫= fun retry_result =>
          match retry_result with
          | ContextOverflow => overflow_error config prompt
          | _ => mret (Recovered retry_result)
          end)).
  { first_steady. first_steady. apply settles_bind; [apply settles_run_context_transformers|].
    intros compacted. first_steady. destruct compacted; cbn [negb]; [|done].
    first_steady. case_match.
    - apply settles_bind; [apply settles_cancellation|intros; all_steady].
    - first_steady. apply settles_steady; [by apply steady_stream|].
      intros []; [all_steady|done|all_steady|all_steady]. }
  revert Hgo. destruct (cfg_async_transform_context config), (cfg_transform_context config);
    intros Hgo; first [exact Hgo|exact Herr].
Qed.

Lemma settles_no_tool_calls config prompt m : settles (handle_no_tool_calls config prompt m).
Proof.
  unfold handle_no_tool_calls. first_steady. first_steady. first_steady.
  apply settles_push. intros ms. then_steady. case_match. apply settles_from_set. intros u.
  first_steady. first_steady. first_steady. first_steady. case_match; [all_steady|].
  case_match; [apply settles_agent_end|]. all_steady.
Qed.

Lemma settles_commit config prompt m i trs metrics steering transfer stop :
  settles_from i (commit_tool_turn config prompt m i trs metrics steering transfer stop).
Proof.
  unfold commit_tool_turn. then_steady. then_steady. then_steady. then_steady. case_match.
  apply settles_from_set. intros u. first_steady. destruct transfer as [signal|].
  - first_steady. case_match. first_steady. case_match.
    + unfold transferred_turn. first_steady. first_steady. first_steady. first_steady. first_steady.
      apply settles_turn_end.
    + unfold rejected_transfer_turn. apply settles_bind; [apply settles_put_context|]. intros u2.
      first_steady. first_steady. first_steady. case_match; [all_steady|].
      case_match; [apply settles_agent_end|all_steady].
  - first_steady. case_match; [all_steady|]. repeat case_match; try apply settles_agent_end; all_steady.
Qed.

Lemma settles_tool_calls config prompt m calls : settles (handle_tool_calls config prompt m calls).
Proof.
  unfold handle_tool_calls. first_steady. apply settles_push. intros ms. then_steady.
  destruct a0 as [early calls']. then_steady.
  destruct calls'; [apply settles_commit|]. then_steady. case_match.
  - then_steady. then_steady. apply settles_commit.
  - then_steady. then_steady. apply settles_commit.
  - then_steady. then_steady. then_steady. apply settles_commit.
  - unfold tools_aborted_turn. repeat then_steady. case_match. apply settles_from_set. intros u.
    first_steady. first_steady. apply settles_turn_end.
  - apply settles_settles_from. all_steady.
Qed.

Lemma settles_finish_turn config prompt r : settles (finish_turn config prompt r).
Proof.
  unfold finish_turn. apply settles_bind.
  { unfold handle_stream_result. destruct r; [all_steady|all_steady| |all_steady].
    first_steady. apply settles_push. intros ms. then_steady. case_match.
    apply settles_from_set. intros u. first_steady.
    apply settles_bind; [apply settles_turn_end|intros; all_steady]. }
  intros [m|]; [|all_steady]. cbn zeta. set (m' := fst (price_assistant_message_with _ _ _)).
  pose proof (settles_error_stop config prompt m').
  assert (Hgo : settles (match extract_tool_calls m' with
      | [] => handle_no_tool_calls config prompt (fst (sanitize_incomplete_tool_calls m'))
      | _ => handle_tool_calls config prompt (fst (sanitize_incomplete_tool_calls m'))
               (extract_tool_calls m') end)).
  { destruct (extract_tool_calls m'); [apply settles_no_tool_calls|apply settles_tool_calls]. }
  by destruct (am_stop_reason m').
Qed.

(** ** Turns *)

(** At most one provider call is announced per turn. *)
Definition one_call (w w' : World H) : Prop := index w' = index w /\ llm_calls w' <= S (llm_calls w).

Lemma call_provider_once config prompt w :
  gives_up_after config max -> twp (call_provider fuel config prompt) (fun _ => one_call w) w.
Proof.
  intros Hg. unfold call_provider. revert w.
  assert (Hbefore : forall A B (m : M A) (k : A -> M B), steady m ->
    (forall a w, twp (k a) (fun _ => one_call w) w) -> forall w, twp (m ≫= k) (fun _ => one_call w) w).
  { intros A B m k Hm Hk w. apply twp_bind. eapply twp_mono; [apply Hm|]. intros a w1 [[Hi Hc] _].
    eapply twp_mono; [apply Hk|]. intros b w2 [Hi2 Hc2]. split; [congruence|lia]. }
  apply Hbefore; [steady|]. intros dyn. apply Hbefore; [steady|]. intros ms.
  apply Hbefore; [steady|]. intros key w. apply twp_bind.
  apply (twp_mono _ (fun _ => one_call w)).
  { unfold twp, emit, one_call, llm_calls. destruct (w_room w) as [[|n]|]; [split; [done|lia]|..];
      (split; [done|]); simpl; rewrite List.filter_app, length_app; simpl; lia. }
  assert (Hafter : forall (m : M TurnOutcome) w1, one_call w w1 -> settles m -> twp m (fun _ => one_call w) w1).
  { intros m w1 [Hi Hc] Hm. eapply twp_mono; [apply Hm|]. intros o w2 [Hi2 Hc2]. split; [congruence|lia]. }
  intros ok w1 H1. apply Hafter; [done|]. case_match; [all_steady|].
  apply settles_steady; [by apply steady_stream|]. intros r.
  pose proof (settles_finish_turn config prompt) as Hf.
  destruct r; try apply Hf. apply settles_bind; [by apply settles_recovery|].
  intros []; [apply Hf|all_steady].
Qed.

(** The cancelled run leaves the loop. *)
Lemma settles_wlp {A} (m : M A) (P : A -> Prop) w :
  settles m -> wlp m (fun a _ => P a) w -> twp m (fun a w' => calm w w' /\ P a) w.
Proof. intros Hm Hp. exact (twp_of_wlp _ _ _ _ (Hm w) Hp). Qed.

Lemma wlp_anyhow {A B} (m : M A) (k : A -> M B) (P : B -> Prop) w :
  (forall a w', wlp (k a) (fun b _ => P b) w') -> wlp (m ≫= k) (fun b _ => P b) w.
Proof. intros Hk. apply wlp_bind. unfold wlp. destruct (m w) as [[a w']|]; [apply Hk|done]. Qed.

Lemma cancellation_returns config b1 b2 w :
  wlp (emit_cancellation_for_turn config b1 b2) (fun o _ => o = Return) w.
Proof.
  unfold emit_cancellation_for_turn, emit_turn_end_and_agent_end, emit_agent_end.
  repeat first [apply wlp_anyhow; intros | case_match | by apply wlp_ret].
Qed.

Lemma settles_inject : settles inject_pending.
Proof.
  unfold inject_pending. first_steady. first_steady. case_match.
  apply settles_bind; [intros w; by split|intros]. all_steady.
Qed.

(** A turn cap in the pre-turn slot stops the turn it is reached in. *)
Lemma capped_verdict (policies : list (PreTurnPolicy (H := H))) n ctx injections h :
  max_turns_pre_turn n ∈ policies -> n <= pc_turn_index ctx ->
  exists reason h', run_policies_inner policies ctx injections h = (VStop reason, h').
Proof.
  intros Hin Hn. revert injections h. induction policies as [|p ps IH]; intros injections h.
  { by apply not_elem_of_nil in Hin. }
  cbn [run_policies_inner]. apply elem_of_cons in Hin as [<-|Hin].
  - unfold max_turns_pre_turn. destruct (Nat.leb_spec n (pc_turn_index ctx)); [eauto|lia].
  - destruct (p ctx h) as [[[|reason|msgs]|] h1]; eauto.
Qed.

Lemma pre_turn_stopped_calm config fresh n w :
  max_turns_pre_turn n ∈ cfg_pre_turn_policies config ->
  twp (pre_turn_stopped config fresh) (fun b w' => calm w w' /\ (n <= index w -> b = true)) w.
Proof.
  intros Hcap. apply twp_of_wlp.
  - revert w. change (settles (pre_turn_stopped config fresh)). unfold pre_turn_stopped, policy_context.
    first_steady. first_steady. destruct a0; [all_steady| |].
    + apply settles_bind; [apply settles_agent_end|intros; all_steady].
    + apply settles_bind; [intros w; by split|intros; all_steady].
  - unfold pre_turn_stopped, policy_context. apply wlp_bind, wlp_bind, wlp_gets, wlp_ret, wlp_bind.
    set (ctx := MkPolicyContext _ _ _ _ _ _ _).
    eapply wlp_mono.
    { instantiate (1 := fun v _ => n <= index w -> exists r, v = VStop r). unfold wlp, host, run_policies.
      destruct (run_policies_inner (cfg_pre_turn_policies config) ctx [] (w_host w)) as [v h] eqn:Hv.
      intros Hn. destruct (capped_verdict _ n ctx [] (w_host w) Hcap Hn) as (r & h' & Hr).
      rewrite Hr in Hv. simplify_eq. eauto. }
    intros v w1 Hstop. destruct v as [|r|msgs].
    + apply wlp_ret. intros Hn. by destruct (Hstop Hn).
    + apply wlp_anyhow. intros. by apply wlp_ret.
    + apply wlp_anyhow. intros u w2. apply wlp_anyhow. intros. apply wlp_ret. intros Hn. by destruct (Hstop Hn).
Qed.

(** A turn: at most one provider call, none when the cap is reached. *)
Definition turn_calls (n : nat) (w : World H) (o : TurnOutcome) (w' : World H) : Prop :=
  one_call w w' /\ (n <= index w -> o = Return /\ llm_calls w' = llm_calls w).

Lemma turn_calls_calm n w w1 o w' : calm w w1 -> turn_calls n w1 o w' -> turn_calls n w o w'.
Proof.
  intros [Hi Hc] [[Hi1 Hc1] Ho]. split; [split; [congruence|lia]|].
  rewrite <- Hi, <- Hc. exact Ho.
Qed.

Lemma turn_calls_return n w w1 : calm w w1 -> turn_calls n w Return w1.
Proof. intros [Hi Hc]. split; [split; [done|lia]|done]. Qed.

Lemma twp_calm {A B} (m : M A) (k : A -> M B) (Q : B -> World H -> Prop) w :
  settles m -> (forall a w1, calm w w1 -> twp (k a) Q w1) -> twp (m ≫= k) Q w.
Proof. intros Hm Hk. apply twp_bind. eapply twp_mono; [apply Hm|]. exact Hk. Qed.

Lemma settles_annotate config : settles (annotate_cache config).
Proof.
  unfold annotate_cache. destruct (cfg_cache_config config); [|all_steady]. first_steady. first_steady.
  destruct (annotate _ _ _) as [[ms c'] ev].
  apply settles_bind; [apply (settles_put_context (fun s => context_make_mut (fun _ => ms) (context_messages s)))|].
  intros. destruct ev as [[]|]; all_steady.
Qed.

Lemma turn_capped config prompt n w :
  gives_up_after config max -> max_turns_pre_turn n ∈ cfg_pre_turn_policies config ->
  twp (run_single_turn fuel config prompt) (turn_calls n w) w.
Proof.
  intros Hg Hcap. unfold run_single_turn.
  apply twp_calm; [apply settles_inject|]. intros fresh w1 H1.
  apply twp_calm; [all_steady|]. intros c w2 H2. assert (H02 : calm w w2) by by transitivity w1.
  destruct c.
  { eapply twp_mono; [apply settles_wlp; [apply settles_cancellation|apply cancellation_returns]|].
    intros o w3 [H3 ->]. apply turn_calls_return. by transitivity w2. }
  apply twp_calm; [all_steady|]. intros u w3 H3.
  apply twp_calm; [all_steady|]. intros ov w4 H4.
  apply twp_calm; [apply settles_run_context_transformers|]. intros u5 w5 H5.
  apply twp_calm; [all_steady|]. intros u6 w6 H6.
  assert (H06 : calm w w6) by (transitivity w2; [done|transitivity w3; [done|transitivity w4; [done|by transitivity w5]]]).
  clear H1 H02 H2 H3 H4 H5 H6.
  apply twp_bind. eapply twp_mono; [by apply (pre_turn_stopped_calm _ _ n)|]. intros b w7 [H7 Hb].
  assert (H07 : calm w w7) by by transitivity w6. destruct b.
  { apply twp_ret. by apply turn_calls_return. }
  assert (Hn : ~ n <= index w) by (intros Hn; destruct H06 as [Hi _]; rewrite Hi in Hb; by specialize (Hb Hn)).
  apply twp_calm; [all_steady|]. intros ok w8 H8. destruct ok; cbn [negb].
  2: { apply twp_ret. apply turn_calls_return. by transitivity w7. }
  apply twp_calm; [apply settles_annotate|]. intros u9 w9 H9.
  eapply twp_mono; [by apply call_provider_once|]. intros o w10 [Hi Hc].
  assert (H09 : calm w w9) by (transitivity w7; [done|by transitivity w8]). destruct H09 as [Hi9 Hc9].
  split; [split; [congruence|lia]|]. intros Hn'. by destruct Hn.
Qed.

(** What may still be called from turn [index w] on. *)
Lemma turns_loop_capped turns config prompt n w :
  gives_up_after config max -> max_turns_pre_turn n ∈ cfg_pre_turn_policies config ->
  n - index w < turns ->
  twp (turns_loop turns fuel config prompt) (fun _ w' => llm_calls w' <= llm_calls w + (n - index w)) w.
Proof.
  intros Hg Hcap. revert w. induction turns as [|turns IH]; intros w Ht; [lia|]. cbn [turns_loop].
  apply twp_bind. eapply twp_mono; [by apply (turn_capped _ _ n)|]. intros o w1 [[Hi Hc] Hn].
  assert (Hret : o = Return \/ S (index w1) <= n) by (destruct (decide (n <= index w)); [naive_solver|lia]).
  assert (Hle : llm_calls w1 <= llm_calls w + (n - index w)) by (destruct (decide (n <= index w)); [naive_solver lia|lia]).
  assert (Hmore : forall w2, S (index w) <= n -> llm_calls w2 = llm_calls w1 -> index w2 = S (index w1) ->
    twp (turns_loop turns fuel config prompt) (fun _ w' => llm_calls w' <= llm_calls w + (n - index w)) w2).
  { intros w2 Hlt Hc2 Hi2. eapply twp_mono; [apply IH; lia|]. cbn. intros _ w3 H3. lia. }
  destruct o.
  - apply twp_bind. unfold twp at 1, next_turn, upd, modify. destruct Hret as [?|Hret]; [done|].
    apply Hmore; [lia|done..].
  - apply twp_bind. unfold twp at 1, next_turn, upd, modify. destruct Hret as [?|Hret]; [done|].
    set (w2 := set_state _ w1). assert (Hc2 : llm_calls w2 = llm_calls w1) by done.
    assert (Hi2 : index w2 = S (index w1)) by done. clearbody w2.
    apply twp_calm.
    { unfold after_inner, policy_context, finish_run, queue_messages. all_steady. }
    intros again w3 [Hi3 Hc3]. destruct again; [|apply twp_ret; lia]. apply Hmore; lia.
  - apply twp_ret. lia.
Qed.

End Termination.

(** ** The whole run *)

Section Run.
Context `{E : Ext} {H : Type} `{X : !ToolExecutor H} `{L : !LawfulToolExecutor}.

Lemma run_capped max n turns fuel (config : AgentLoopConfig H) initial_messages new_len prompt w :
  gives_up_after config max -> 0 < fuel -> max <= fuel -> n < turns ->
  max_turns_pre_turn n ∈ cfg_pre_turn_policies config ->
  exists w', run_loop_inner turns fuel config initial_messages new_len prompt w = Some (tt, w')
             /\ llm_calls w' <= llm_calls w + n.
Proof.
  intros Hg Hfuel Hmax Hn Hcap.
  assert (Hrun : twp (run_loop_inner turns fuel config initial_messages new_len prompt)
                   (fun _ w' => llm_calls w' <= llm_calls w + n) w).
  { unfold run_loop_inner. apply twp_bind. unfold twp at 1, modify.
    set (w0 := set_state _ w). assert (H0 : llm_calls w0 = llm_calls w) by done.
    assert (Hi0 : index w0 = 0) by done. clearbody w0.
    apply twp_bind. eapply twp_mono; [by apply steady_emit|]. intros ok w1 [[Hi Hc] _].
    destruct ok; cbn [negb]; [|apply twp_ret; lia].
    eapply twp_mono; [apply (turns_loop_capped max fuel Hfuel Hmax turns config prompt n); [done..|lia]|].
    cbn. lia. }
  apply twp_run in Hrun as ([] & w' & Hrun & Hle). by exists w'.
Qed.


End Run.

#[local] Existing Instance Toy.ext.

(** [Script.config] with a cap of one turn. *)
Definition capped_config : AgentLoopConfig Script.host_state :=
  MkConfig None None (Script.model "m") (MkRetryStrategy (default_should_retry 3) (fun _ h => (5%N, h)))
    Script.play [Script.lookup] as_llm None None None None None ApprovalSmart [max_turns_pre_turn 1] [] [] [] None None
    Concurrent None None None None []
    false (fun h => (0%N, h)).

Definition capped_ended : World Script.host_state := Eval vm_compute in
  match run_loop_inner 2 3 capped_config [Demo.user "hello"] 1 "" demo_start with
  | Some (_, w) => w
  | None => demo_start
  end.

Lemma capped_runs :
  run_loop_inner 2 3 capped_config [Demo.user "hello"] 1 "" demo_start = Some (tt, capped_ended).
Proof. vm_cast_no_check (eq_refl (Some (tt, capped_ended))). Qed.

