(* ===== verification/Queues.v ===== *)
(** * Steering and follow-up queues: [src/agent/queueing.rs], [src/message_provider.rs]

    The agent's two queues and the provider through which the loop drains
    them.  [AHost] is what the callbacks of a run share: the queues and the
    application's own state.  The main theorem says that a queue is a FIFO
    log from which nothing is lost or repeated. *)
From S2P Require Export LoopWorld LoopTypes.
Open Scope list_scope.

Section Queues.
Context `{E : Ext}.

(** @src src/agent.rs:63-69 [SteeringMode] *)
Inductive SteeringMode := SteeringAll | SteeringOneAtATime.

(** @src src/agent.rs:74-80 [FollowUpMode] *)
Inductive FollowUpMode := FollowUpAll | FollowUpOneAtATime.

#[export] Instance SteeringMode_eq_dec : EqDecision SteeringMode.
Proof. solve_decision. Defined.
#[export] Instance FollowUpMode_eq_dec : EqDecision FollowUpMode.
Proof. solve_decision. Defined.

(** What is drained, and what is left.
    @src src/agent/queueing.rs:122-134 [drain_queue] *)
Definition drain_queue (queue : list AgentMessage) (one_at_a_time : bool) :
    list AgentMessage * list AgentMessage :=
  match queue with
  | [] => ([], [])
  | m :: rest => if one_at_a_time then ([m], rest) else (queue, [])
  end.

(** @src src/agent/queueing.rs:112-120 [drain_messages_from_queue] *)
Definition drain_messages_from_queue (queue : list AgentMessage) : list AgentMessage * list AgentMessage :=
  (queue, []).

Lemma drain_queue_split queue one : fst (drain_queue queue one) ++ snd (drain_queue queue one) = queue.
Proof. destruct queue, one; cbn; by rewrite ?app_nil_r. Qed.

(** ** The queues of an agent *)

Section Host.
Context {X : Type}.

Record AHost := MkAHost {
  ah_steering_queue : list AgentMessage;
  ah_follow_up_queue : list AgentMessage;
  ah_app : X;
}.

(** @src src/agent/queueing.rs:17-22 [Agent::steer] *)
Definition host_steer (m : AgentMessage) (h : AHost) : AHost :=
  MkAHost (ah_steering_queue h ++ [m]) (ah_follow_up_queue h) (ah_app h).

(** @src src/agent/queueing.rs:25-30 [Agent::follow_up] *)
Definition host_follow_up (m : AgentMessage) (h : AHost) : AHost :=
  MkAHost (ah_steering_queue h) (ah_follow_up_queue h ++ [m]) (ah_app h).

(** @src src/agent/queueing.rs:33-38 [Agent::clear_steering] *)
Definition host_clear_steering (h : AHost) : AHost := MkAHost [] (ah_follow_up_queue h) (ah_app h).

(** @src src/agent/queueing.rs:41-46 [Agent::clear_follow_up] *)
Definition host_clear_follow_up (h : AHost) : AHost := MkAHost (ah_steering_queue h) [] (ah_app h).

(** @src src/agent/queueing.rs:49-52 [Agent::clear_queues] *)
Definition host_clear_queues (h : AHost) : AHost := host_clear_follow_up (host_clear_steering h).

(** @src src/agent/queueing.rs:56-68 [Agent::has_pending_messages] *)
Definition host_has_pending (h : AHost) : bool :=
  negb (is_nil (ah_steering_queue h)) || negb (is_nil (ah_follow_up_queue h)).

(** @src src/agent/queueing.rs:84-91 [QueueMessageProvider::poll_steering] *)
Definition queue_poll_steering (mode : SteeringMode) (h : AHost) : list AgentMessage * AHost :=
  let '(drained, rest) := drain_queue (ah_steering_queue h) (bool_decide (mode = SteeringOneAtATime)) in
  (drained, MkAHost rest (ah_follow_up_queue h) (ah_app h)).

(** @src src/agent/queueing.rs:93-100 [QueueMessageProvider::poll_follow_up] *)
Definition queue_poll_follow_up (mode : FollowUpMode) (h : AHost) : list AgentMessage * AHost :=
  let '(drained, rest) := drain_queue (ah_follow_up_queue h) (bool_decide (mode = FollowUpOneAtATime)) in
  (drained, MkAHost (ah_steering_queue h) rest (ah_app h)).

(** @src src/agent/queueing.rs:102-108 [QueueMessageProvider::has_steering] *)
Definition queue_has_steering (h : AHost) : bool := negb (is_nil (ah_steering_queue h)).

(** The loop's provider.  That the drained messages are also appended to the pause
    snapshot is a step of the agent's model; the loop overwrites the snapshot
    when it has taken the messages.
    @src src/agent/queueing.rs:75-109 [QueueMessageProvider] *)
Definition queue_provider (steering_mode : SteeringMode) (follow_up_mode : FollowUpMode) :
    MessageProvider AHost :=
  MkMessageProvider (queue_poll_steering steering_mode) (queue_poll_follow_up follow_up_mode)
    queue_has_steering.

(** @src src/message_provider.rs:202-218 [ComposedMessageProvider] *)
Definition composed_provider (primary secondary : MessageProvider AHost) :
    MessageProvider AHost :=
  MkMessageProvider
    (fun h => let '(ms, h) := poll_steering primary h in
              let '(ms', h) := poll_steering secondary h in (ms ++ ms', h))
    (fun h => let '(ms, h) := poll_follow_up primary h in
              let '(ms', h) := poll_follow_up secondary h in (ms ++ ms', h))
    (fun h => has_steering primary h || has_steering secondary h).

(** ** Queues as logs *)

Inductive QueueOp :=
| Steer (m : AgentMessage)
| FollowUp (m : AgentMessage)
| PollSteering
| PollFollowUp
| App (f : X -> X).

(** What was put in and what came out of each queue. *)
Record QueueLog := MkQueueLog {
  ql_steered : list AgentMessage;
  ql_steering_out : list AgentMessage;
  ql_followed : list AgentMessage;
  ql_follow_up_out : list AgentMessage;
}.

Definition queue_op (sm : SteeringMode) (fm : FollowUpMode) (s : AHost * QueueLog) (o : QueueOp) :
    AHost * QueueLog :=
  let '(h, l) := s in
  match o with
  | Steer m => (host_steer m h, MkQueueLog (ql_steered l ++ [m]) (ql_steering_out l) (ql_followed l) (ql_follow_up_out l))
  | FollowUp m => (host_follow_up m h, MkQueueLog (ql_steered l) (ql_steering_out l) (ql_followed l ++ [m]) (ql_follow_up_out l))
  | PollSteering =>
    let '(ms, h) := poll_steering (queue_provider sm fm) h in
    (h, MkQueueLog (ql_steered l) (ql_steering_out l ++ ms) (ql_followed l) (ql_follow_up_out l))
  | PollFollowUp =>
    let '(ms, h) := poll_follow_up (queue_provider sm fm) h in
    (h, MkQueueLog (ql_steered l) (ql_steering_out l) (ql_followed l) (ql_follow_up_out l ++ ms))
  | App f => (MkAHost (ah_steering_queue h) (ah_follow_up_queue h) (f (ah_app h)), l)
  end.

Definition log_of (h : AHost) : QueueLog := MkQueueLog (ah_steering_queue h) [] (ah_follow_up_queue h) [].

Definition logged (s : AHost * QueueLog) : Prop :=
  ql_steered (snd s) = ql_steering_out (snd s) ++ ah_steering_queue (fst s)
  /\ ql_followed (snd s) = ql_follow_up_out (snd s) ++ ah_follow_up_queue (fst s).

Lemma queue_op_logged sm fm s o : logged s -> logged (queue_op sm fm s o).
Proof.
  destruct s as [[sq fq x] [si so fi fo]]. unfold logged. cbn. intros [-> ->].
  destruct o; cbn; unfold queue_poll_steering, queue_poll_follow_up; cbn.
  - by rewrite app_assoc.
  - by rewrite app_assoc.
  - pose proof (drain_queue_split sq (bool_decide (sm = SteeringOneAtATime))) as Hd.
    destruct (drain_queue sq _) as [d r]. cbn in *. by rewrite <- Hd, app_assoc.
  - pose proof (drain_queue_split fq (bool_decide (fm = FollowUpOneAtATime))) as Hd.
    destruct (drain_queue fq _) as [d r]. cbn in *. by rewrite <- Hd, app_assoc.
  - done.
Qed.

(** What a poll promises: in one-at-a-time mode the oldest message, in all mode every
    message; nothing only when there is nothing; and [has_steering] tells. *)
Lemma poll_steering_gives sm fm h :
  let '(ms, h') := poll_steering (queue_provider sm fm) h in
  (ms = [] <-> has_steering (queue_provider sm fm) h = false)
  /\ (sm = SteeringOneAtATime -> length ms <= 1)
  /\ (sm = SteeringAll -> has_steering (queue_provider sm fm) h' = false).
Proof. destruct h as [[|m sq] fq x], sm; cbn; split_and!; try done; lia. Qed.

(** The queues deliver in order: whatever is steered, followed up and polled, in
    whatever order and whatever the application does in between, what was put
    into a queue is what the polls gave out, in order, followed by what is
    still in it; nothing is lost, repeated or moved to the other queue. *)
Lemma queues_are_fifo sm fm h os :
  let '(h', l) := foldl (queue_op sm fm) (h, log_of h) os in
  ql_steered l = ql_steering_out l ++ ah_steering_queue h'
  /\ ql_followed l = ql_follow_up_out l ++ ah_follow_up_queue h'.
Proof.
  assert (Hl : logged (h, log_of h)) by done. revert Hl. generalize (h, log_of h).
  induction os as [|o os IH]; intros s Hs; cbn; [by destruct s|]. by apply IH, queue_op_logged.
Qed.

End Host.
End Queues.

Arguments AHost {_} _.

(** ** Event listeners: [src/agent_subscriptions.rs], [src/agent/events.rs]

    A callback may keep state and may panic.  It is modelled as a function of
    the events it has been given so far, which says whether it panics on the
    last of them; the registry keeps that history with it.  The iteration
    order of the source's hash map is the list's order. *)
Open Scope list_scope.

Section Listeners.
Context `{E : Ext}.

(** @src src/agent_subscriptions.rs:31-31 [ListenerFn] *)
Definition ListenerFn : Type := list AgentEvent -> bool.

Record Listener := MkListener {
  ls_id : nat;
  ls_seen : list AgentEvent;
  ls_fn : ListenerFn;
}.

(** [sr_next] is the process-wide counter of [SubscriptionId::next].
    @src src/agent_subscriptions.rs:39-41 [ListenerRegistry] *)
Record ListenerRegistry := MkListenerRegistry {
  sr_listeners : list Listener;
  sr_next : nat;
}.

(** @src src/agent_subscriptions.rs:45-49 [ListenerRegistry::new] *)
Definition listeners_new (next : nat) : ListenerRegistry := MkListenerRegistry [] next.

(** @src src/agent_subscriptions.rs:52-59 [ListenerRegistry::subscribe] *)
Definition subscribe (r : ListenerRegistry) (callback : ListenerFn) : nat * ListenerRegistry :=
  (sr_next r, MkListenerRegistry (sr_listeners r ++ [MkListener (sr_next r) [] callback]) (S (sr_next r))).

(** @src src/agent_subscriptions.rs:62-64 [ListenerRegistry::unsubscribe] *)
Definition unsubscribe (r : ListenerRegistry) (id : nat) : bool * ListenerRegistry :=
  (existsb (fun l => ls_id l =? id)%nat (sr_listeners r),
   MkListenerRegistry (List.filter (fun l => negb (ls_id l =? id)%nat) (sr_listeners r)) (sr_next r)).

(** One callback on one event.
    @src src/agent_subscriptions.rs:73-77 [ListenerRegistry::dispatch, catch_unwind (brace)] *)
Definition notify (e : AgentEvent) (l : Listener) : Listener * bool :=
  let seen := ls_seen l ++ [e] in
  (MkListener (ls_id l) seen (ls_fn l), ls_fn l seen).

(** @src src/agent_subscriptions.rs:70-83 [ListenerRegistry::dispatch] *)
Definition dispatch (r : ListenerRegistry) (e : AgentEvent) : ListenerRegistry :=
  let called := map (notify e) (sr_listeners r) in
  let panicked := map (fun lp => ls_id (fst lp)) (List.filter snd called) in
  MkListenerRegistry
    (List.filter (fun l => negb (existsb (Nat.eqb (ls_id l)) panicked)) (map fst called)) (sr_next r).

(** ** What each listener gets *)

Inductive ListenerOp :=
| Subscribe (callback : ListenerFn)
| Unsubscribe (id : nat)
| Dispatch (e : AgentEvent).

Definition listener_op (r : ListenerRegistry) (o : ListenerOp) : ListenerRegistry :=
  match o with
  | Subscribe callback => snd (subscribe r callback)
  | Unsubscribe id => snd (unsubscribe r id)
  | Dispatch e => dispatch r e
  end.

(** What the listener subscribed as [id] with [f] has got when it had seen [seen]
    before the operations, and whether it is still there: it misses nothing, gets
    nothing twice, and goes at its own panic or at its unsubscription. *)
Fixpoint received (id : nat) (f : ListenerFn) (seen : list AgentEvent) (os : list ListenerOp) :
    option (list AgentEvent) :=
  match os with
  | [] => Some seen
  | Subscribe _ :: os' => received id f seen os'
  | Unsubscribe id' :: os' => if (id =? id')%nat then None else received id f seen os'
  | Dispatch e :: os' =>
    if f (seen ++ [e]) then None else received id f (seen ++ [e]) os'
  end.

(** Ids are unique and below the counter. *)
Definition ids_wf (r : ListenerRegistry) : Prop :=
  NoDup (map ls_id (sr_listeners r)) /\ Forall (fun l => ls_id l < sr_next r) (sr_listeners r).

Lemma ids_wf_new n : ids_wf (listeners_new n).
Proof. split; constructor. Qed.

Lemma map_ls_id_notify e ls : map (fun l => ls_id (fst (notify e l))) ls = map ls_id ls.
Proof. done. Qed.

Lemma NoDup_map_filter {A B} (f : A -> B) (p : A -> bool) l :
  NoDup (map f l) -> NoDup (map f (List.filter p l)).
Proof.
  induction l as [|a l IH]; [done|]. cbn. intros [Ha Hl]%NoDup_cons.
  destruct (p a); [|auto]. cbn. apply NoDup_cons. split; [|auto]. intros Hin. apply Ha.
  apply list_elem_of_In, in_map_iff in Hin as (x & Hx & [Hin _]%filter_In).
  apply list_elem_of_In, in_map_iff. eauto.
Qed.

Lemma Forall_filter {A} (P : A -> Prop) (p : A -> bool) l : Forall P l -> Forall P (List.filter p l).
Proof. induction 1; cbn; [done|]. destruct (p _); auto. Qed.

(** Under unique ids, exactly the listeners that panic go. *)
Lemma dispatch_listeners r e :
  ids_wf r ->
  sr_listeners (dispatch r e)
  = filtermap (fun l => if ls_fn l (ls_seen l ++ [e]) then None
                        else Some (MkListener (ls_id l) (ls_seen l ++ [e]) (ls_fn l))) (sr_listeners r).
Proof.
  intros [Hnd _]. unfold dispatch. cbn. set (ls := sr_listeners r) in *. clearbody ls.
  assert (Hp : forall l, l ∈ ls ->
    existsb (Nat.eqb (ls_id l)) (map (fun lp => ls_id (fst lp)) (List.filter snd (map (notify e) ls)))
    = ls_fn l (ls_seen l ++ [e])).
  { intros l Hl. apply eq_bool_prop_intro. rewrite !Is_true_true, existsb_exists. split.
    - intros (i & Hi & <-%Nat.eqb_eq). apply in_map_iff in Hi as ([l' b] & Hid & [Hin Hb]%filter_In).
      apply in_map_iff in Hin as (l0 & [= <- <-] & Hl0%list_elem_of_In). cbn in *.
      assert (l0 = l) as ->; [|done].
      apply list_elem_of_lookup in Hl as [i Hi], Hl0 as [j Hj].
      assert (i = j) as ->; [|congruence]. eapply (NoDup_lookup _ _ _ _ Hnd); by rewrite list_lookup_fmap, ?Hi, ?Hj; cbn; rewrite ?Hid.
    - intros Hb. exists (ls_id l). split; [|apply Nat.eqb_refl]. apply in_map_iff. exists (notify e l). split; [done|].
      apply filter_In. split; [|done]. apply in_map, list_elem_of_In. done. }
  clear Hnd. revert Hp. generalize (map (fun lp => ls_id (fst lp)) (List.filter snd (map (notify e) ls))).
  intros panicked Hp. induction ls as [|l ls IH]; [done|]. cbn. rewrite Hp by by left.
  destruct (ls_fn l (ls_seen l ++ [e])); cbn; rewrite IH; try done; intros l' Hl'; apply Hp; by right.
Qed.

Lemma ids_wf_op r o : ids_wf r -> ids_wf (listener_op r o).
Proof.
  intros [Hnd Hlt]. destruct o as [f|id|e]; cbn.
  - split; cbn.
    + rewrite map_app. apply NoDup_app. split_and!; [done| |by apply NoDup_singleton].
      intros i Hi Hn. cbn in Hn. apply list_elem_of_singleton in Hn as ->.
      apply list_elem_of_In, in_map_iff in Hi as (l & Hl & Hin%list_elem_of_In).
      rewrite Forall_forall in Hlt. specialize (Hlt l Hin). lia.
    + apply Forall_app. split; [|apply Forall_singleton; cbn; lia].
      eapply Forall_impl; [exact Hlt|]. cbn. lia.
  - split; cbn; [by apply NoDup_map_filter|by apply Forall_filter].
  - split.
    + unfold dispatch. cbn. apply NoDup_map_filter. rewrite !map_map. exact Hnd.
    + unfold dispatch. cbn. apply Forall_filter. rewrite map_map. apply List.Forall_map. exact Hlt.
Qed.

Lemma ids_wf_run r os : ids_wf r -> ids_wf (foldl listener_op r os).
Proof. revert r. induction os as [|o os IH]; intros r Hr; [done|]. by apply IH, ids_wf_op. Qed.

(** Once gone, an id does not come back. *)
Lemma gone_stays r os id :
  ids_wf r -> id < sr_next r -> id ∉ map ls_id (sr_listeners r) ->
  id ∉ map ls_id (sr_listeners (foldl listener_op r os)).
Proof.
  revert r. induction os as [|o os IH]; intros r Hr Hid Hgone; [done|]. apply IH; [by apply ids_wf_op| |].
  - destruct o; cbn; lia.
  - destruct o as [f|id'|e]; cbn -[dispatch].
    + rewrite map_app. cbn. rewrite elem_of_app, list_elem_of_singleton. intros [?|?]; [done|lia].
    + intros Hin. apply Hgone. apply list_elem_of_In, in_map_iff in Hin as (l & <- & [Hin _]%filter_In).
      by apply list_elem_of_In, in_map.
    + rewrite dispatch_listeners by done. intros Hin. apply Hgone.
      apply list_elem_of_In, in_map_iff in Hin as (l & <- & Hin%list_elem_of_In).
      apply elem_of_filtermap in Hin as (l0 & Hl0 & Hl). destruct (ls_fn l0 _); [done|]. injection Hl as <-. cbn.
      by apply list_elem_of_In, in_map, list_elem_of_In.
Qed.

Lemma received_run r os id f seen :
  ids_wf r -> MkListener id seen f ∈ sr_listeners r ->
  match received id f seen os with
  | Some seen' => MkListener id seen' f ∈ sr_listeners (foldl listener_op r os)
  | None => id ∉ map ls_id (sr_listeners (foldl listener_op r os))
  end.
Proof.
  revert r seen. induction os as [|o os IH]; intros r seen Hr Hin; [done|].
  assert (Hid : id < sr_next r) by (destruct Hr as [_ Hlt]; rewrite Forall_forall in Hlt; by apply (Hlt _ Hin)).
  pose proof (ids_wf_op r o Hr) as Hr'. destruct o as [g|id'|e]; cbn [received foldl listener_op] in *.
  - apply IH; [done|]. cbn. apply elem_of_app. by left.
  - destruct (Nat.eqb_spec id id') as [<-|Hne].
    + apply gone_stays; [done|done|]. cbn. intros Hg.
      apply list_elem_of_In, in_map_iff in Hg as (l & Hl & [_ Hf]%filter_In).
      apply negb_true_iff, Nat.eqb_neq in Hf. done.
    + apply IH; [done|]. cbn. apply list_elem_of_In, filter_In. split; [by apply list_elem_of_In|].
      by apply negb_true_iff, Nat.eqb_neq.
  - pose proof (dispatch_listeners r e Hr) as Hd. destruct (f (seen ++ [e])) eqn:Hf.
    + apply gone_stays; [done|done|]. rewrite Hd. intros Hg.
      apply list_elem_of_In, in_map_iff in Hg as (l & Hl & Hg%list_elem_of_In).
      apply elem_of_filtermap in Hg as (l0 & Hl0 & Hg).
      assert (l0 = MkListener id seen f) as ->; [|cbn in Hg; by rewrite Hf in Hg].
      assert (Heq : ls_id l0 = id) by (destruct (ls_fn l0 _); [done|]; by injection Hg as <-).
      destruct Hr as [Hnd _]. apply list_elem_of_lookup in Hl0 as [i Hi], Hin as [j Hj].
      assert (i = j) as ->; [|congruence].
      eapply (NoDup_lookup _ _ _ _ Hnd); by rewrite list_lookup_fmap, ?Hi, ?Hj; cbn; rewrite ?Heq.
    + apply IH; [done|]. rewrite Hd. apply elem_of_filtermap. exists (MkListener id seen f). split; [done|].
      cbn. by rewrite Hf.
Qed.

(** One listener's panic is nobody else's: in any sequence of subscriptions,
    unsubscriptions and dispatches, a listener is given exactly the events
    dispatched since it subscribed, each once and in order, up to its own
    first panic or its unsubscription, after which it is gone for good. *)
Lemma listeners_isolated n before f after :
  let r := foldl listener_op (listeners_new n) before in
  let '(id, r) := subscribe r f in
  match received id f [] after with
  | Some seen => MkListener id seen f ∈ sr_listeners (foldl listener_op r after)
  | None => id ∉ map ls_id (sr_listeners (foldl listener_op r after))
  end.
Proof.
  cbn. pose proof (ids_wf_run _ before (ids_wf_new n)) as Hr.
  apply received_run; [by apply (ids_wf_op _ (Subscribe f))|]. cbn. apply elem_of_app. right. by left.
Qed.

End Listeners.
