(* ===== verification/MessageCodec.v ===== *)
(** * Message batches in storage: [src/types/message_codec.rs], [src/types/custom_message.rs]

    A batch of messages is stored as its LLM messages, the envelopes of its
    custom messages and the order of the two; a registry turns the envelopes
    back into messages.  The main theorem says what comes back. *)
From S2P Require Export Types SessionState.
Open Scope string_scope.
Open Scope list_scope.
Open Scope agent_scope.

Section Codec.
Context `{E : Ext}.

(** ** Custom messages *)

(** @src src/types/custom_message.rs:52-53 [CustomMessageDeserializer] *)
Definition CustomMessageDeserializer : Type := Value -> result CustomMessage string.

(** @src src/types/custom_message.rs:59-61 [CustomMessageRegistry] *)
Definition CustomMessageRegistry : Type := gmap string CustomMessageDeserializer.

(** @src src/types/custom_message.rs:66-70 [CustomMessageRegistry::new] *)
Definition registry_new : CustomMessageRegistry := ∅.

(** @src src/types/custom_message.rs:76-82 [CustomMessageRegistry::register] *)
Definition register (r : CustomMessageRegistry) (name : string) (d : CustomMessageDeserializer) :
    CustomMessageRegistry := <[name := d]> r.

(** @src src/types/custom_message.rs:108-117 [CustomMessageRegistry::deserialize] *)
Definition registry_deserialize (r : CustomMessageRegistry) (name : string) (value : Value) :
    result CustomMessage string :=
  deser <-? ok_or (r !! name) ("no deserializer registered for custom message type: " ++ name)%string ;;
  deser value.

(** @src src/types/custom_message.rs:121-123 [CustomMessageRegistry::has_type_name] *)
Definition has_type_name (r : CustomMessageRegistry) (name : string) : bool :=
  bool_decide (is_Some (r !! name)).

(** @src src/types/custom_message.rs:148-155 [serialize_custom_message] *)
Definition serialize_custom_message (c : CustomMessage) : option Value :=
  name ← type_name c;
  payload ← to_json c;
  Some (json_envelope name payload).

(** @src src/types/custom_message.rs:164-177 [deserialize_custom_message] *)
Definition deserialize_custom_message (r : CustomMessageRegistry) (envelope : Value) :
    result CustomMessage string :=
  name <-? ok_or (json_get envelope "type" ≫= json_as_str)
             "missing 'type' field in custom message envelope"%string ;;
  data <-? ok_or (json_get envelope "data")
             "missing 'data' field in custom message envelope"%string ;;
  registry_deserialize r name data.

(** @src src/types/message_codec.rs:240-245 [SerializedCustomMessage::from_custom] *)
Definition from_custom (c : CustomMessage) : option CustomMessage :=
  name ← type_name c;
  json ← to_json c;
  Some (SerializedCustom name json).

(** @src src/types/custom_message.rs:208-219 [AgentMessage::try_clone] *)
Definition try_clone (m : AgentMessage) : option AgentMessage :=
  match m with
  | Llm m => Some (Llm m)
  | Custom c =>
    Custom <$> match clone_box c with Some c => Some c | None => from_custom c end
  end.

(** @src src/types/message_codec.rs:273-284 [clone_messages_for_send] *)
Definition clone_messages_for_send : list AgentMessage -> list AgentMessage :=
  filtermap (fun m => match m with
                      | Llm m => Some (Llm m)
                      | Custom c => Custom <$> from_custom c
                      end).

(** ** Batches *)

(** @src src/types/message_codec.rs:41-46 [MessageSlot] *)
Inductive MessageSlot :=
| SlotLlm (index : nat)
| SlotCustom (index : nat).

(** @src src/types/message_codec.rs:54-61 [SerializedMessages] *)
Record SerializedMessages := MkSerializedMessages {
  sm_llm_messages : list LlmMessage;
  sm_custom_messages : list Value;
  sm_message_order : list MessageSlot;
}.

(** One turn of the loop.
    @src src/types/message_codec.rs:94-117 [serialize_messages, loop body] *)
Definition serialize_step (s : SerializedMessages) (m : AgentMessage) : SerializedMessages :=
  match m with
  | Llm llm =>
    MkSerializedMessages (sm_llm_messages s ++ [llm]) (sm_custom_messages s)
      (sm_message_order s ++ [SlotLlm (length (sm_llm_messages s))])
  | Custom c =>
    match serialize_custom_message c with
    | Some envelope =>
      MkSerializedMessages (sm_llm_messages s) (sm_custom_messages s ++ [envelope])
        (sm_message_order s ++ [SlotCustom (length (sm_custom_messages s))])
    | None => s
    end
  end.

(** @src src/types/message_codec.rs:89-124 [serialize_messages] *)
Definition serialize_messages (messages : list AgentMessage) : SerializedMessages :=
  foldl serialize_step (MkSerializedMessages [] [] []) messages.

(** Failures are logged and skipped.
    @src src/types/message_codec.rs:152-165 [restore_messages, MessageSlot::Custom] *)
Definition restore_envelope (registry : option CustomMessageRegistry) (envelope : Value) :
    option AgentMessage :=
  reg ← registry;
  match deserialize_custom_message reg envelope with
  | Ok custom => Some (Custom custom)
  | Err _ => None
  end.

(** @src src/types/message_codec.rs:145-167 [restore_messages, slot] *)
Definition restore_slot (llm : list LlmMessage) (custom : list Value)
    (registry : option CustomMessageRegistry) (slot : MessageSlot) : option AgentMessage :=
  match slot with
  | SlotLlm index => Llm <$> llm !! index
  | SlotCustom index => custom !! index ≫= restore_envelope registry
  end.

(** @src src/types/message_codec.rs:136-190 [restore_messages] *)
Definition restore_messages (llm : list LlmMessage) (custom : list Value) (order : list MessageSlot)
    (registry : option CustomMessageRegistry) : list AgentMessage :=
  match order with
  | [] => map Llm llm ++ filtermap (restore_envelope registry) custom
  | _ => filtermap (restore_slot llm custom registry) order
  end.

Definition restore_batch (s : SerializedMessages) (registry : option CustomMessageRegistry) : list AgentMessage :=
  restore_messages (sm_llm_messages s) (sm_custom_messages s) (sm_message_order s) registry.

(** @src src/types/message_codec.rs:198-206 [restore_single_custom] *)
Definition restore_single_custom (registry : option CustomMessageRegistry) (envelope : Value) :
    result (option CustomMessage) string :=
  match registry with
  | None => Ok None
  | Some reg => custom <-? deserialize_custom_message reg envelope ;; Ok (Some custom)
  end.

(** ** What survives storage *)

(** The message a reader gets for a message written: itself for an LLM message, what
    the registered decoder makes of the payload for a custom message, nothing
    when it has no name, no payload or no decoder that takes it. *)
Definition stored (registry : option CustomMessageRegistry) (m : AgentMessage) : option AgentMessage :=
  match m with
  | Llm m => Some (Llm m)
  | Custom c =>
    reg ← registry;
    name ← type_name c;
    payload ← to_json c;
    decode ← reg !! name;
    match decode payload with Ok c => Some (Custom c) | Err _ => None end
  end.

Lemma restore_serialized registry c :
  serialize_custom_message c ≫= restore_envelope registry = stored registry (Custom c).
Proof.
  unfold serialize_custom_message, restore_envelope, stored, deserialize_custom_message.
  destruct (type_name c) as [name|]; cbn; [|by destruct registry].
  destruct (to_json c) as [payload|]; cbn; [|by destruct registry].
  destruct registry as [reg|]; [|done]. cbn.
  rewrite json_envelope_type, json_envelope_data. cbn. rewrite json_as_str_string. cbn.
  unfold registry_deserialize. by destruct (reg !! name).
Qed.

(** [s] stores what comes back as [ms]. *)
Definition holds registry (s : SerializedMessages) (ms : list AgentMessage) : Prop :=
  filtermap (restore_slot (sm_llm_messages s) (sm_custom_messages s) registry) (sm_message_order s) = ms
  /\ Forall (fun slot => match slot with
                         | SlotLlm i => i < length (sm_llm_messages s)
                         | SlotCustom i => i < length (sm_custom_messages s)
                         end) (sm_message_order s)
  /\ (sm_message_order s = [] -> sm_llm_messages s = [] /\ sm_custom_messages s = []).

(** Slots that are in range do not see what is appended. *)
Lemma restore_slots_app registry llm custom llm' custom' order :
  Forall (fun slot => match slot with
                      | SlotLlm i => i < length llm
                      | SlotCustom i => i < length custom
                      end) order ->
  filtermap (restore_slot (llm ++ llm') (custom ++ custom') registry) order
  = filtermap (restore_slot llm custom registry) order.
Proof.
  induction 1 as [|slot order Hslot _ IH]; [done|]. cbn. rewrite IH.
  by destruct slot; cbn; rewrite lookup_app_l.
Qed.

Lemma serialize_step_holds registry s ms m :
  holds registry s ms -> holds registry (serialize_step s m) (ms ++ option_list (stored registry m)).
Proof.
  intros (<- & Hin & Hempty). destruct m as [llm|c]; cbn [serialize_step].
  - split_and!; cbn; [|apply Forall_app; split; [|by apply Forall_singleton; rewrite length_app; cbn; lia]|by destruct (sm_message_order s)].
    + rewrite filtermap_app. rewrite <- (app_nil_r (sm_custom_messages s)) at 1.
      rewrite restore_slots_app by done. f_equal. cbn. by rewrite list_lookup_middle.
    + eapply Forall_impl; [exact Hin|]. intros []; rewrite ?length_app; cbn; lia.
  - pose proof (restore_serialized registry c) as Hc.
    destruct (serialize_custom_message c) as [envelope|] eqn:Hs.
    + split_and!; cbn -[stored]; [|apply Forall_app; split; [|by apply Forall_singleton; rewrite length_app; cbn; lia]|by destruct (sm_message_order s)].
      * rewrite filtermap_app. rewrite <- (app_nil_r (sm_llm_messages s)) at 1.
        rewrite restore_slots_app by done. f_equal. cbn -[stored]. rewrite list_lookup_middle by done.
        change (restore_envelope registry envelope = stored registry (Custom c)) in Hc.
        cbn -[stored restore_envelope]. rewrite Hc. by destruct (stored registry (Custom c)).
      * eapply Forall_impl; [exact Hin|]. intros []; rewrite ?length_app; cbn; lia.
    + rewrite <- Hc. cbn. rewrite app_nil_r. by split_and!.
Qed.

Lemma serialize_holds registry messages s ms :
  holds registry s ms ->
  holds registry (foldl serialize_step s messages) (ms ++ filtermap (stored registry) messages).
Proof.
  revert s ms. induction messages as [|m messages IH]; intros s ms Hs; cbn; [by rewrite app_nil_r|].
  apply serialize_step_holds with (m := m) in Hs. apply IH in Hs.
  rewrite <- app_assoc in Hs. by destruct (stored registry m).
Qed.

(** The registry gives back a custom message as it was. *)
Definition faithful (registry : option CustomMessageRegistry) (c : CustomMessage) : Prop :=
  stored registry (Custom c) = Some (Custom c).

Lemma restore_serialize registry messages :
  restore_batch (serialize_messages messages) registry = filtermap (stored registry) messages.
Proof.
  destruct (serialize_holds registry messages (MkSerializedMessages [] [] []) []) as (H1 & _ & H2); [done|].
  unfold restore_batch, restore_messages. cbn [app] in H1. rewrite <- H1. fold (serialize_messages messages) in *.
  destruct (sm_message_order _) eqn:Ho; [|done]. by destruct H2 as [-> ->].
Qed.

(** A batch whose custom messages the registry knows. *)
Definition all_faithful (registry : option CustomMessageRegistry) (ms : list AgentMessage) : Prop :=
  Forall (fun m => match m with Llm _ => True | Custom c => faithful registry c end) ms.

Lemma stored_faithful registry ms : all_faithful registry ms -> filtermap (stored registry) ms = ms.
Proof.
  induction 1 as [|m ms Hm _ IH]; [done|]. cbn [filtermap].
  destruct m as [llm|c]; [cbn; by rewrite IH|]. unfold faithful in Hm. by rewrite Hm, IH.
Qed.

Lemma stored_is_llm registry ms :
  Forall (fun m => is_Some (as_llm m)) ms -> all_faithful registry ms.
Proof. intros Hms. eapply Forall_impl; [exact Hms|]. by intros [llm|c] [x Hx]. Qed.

(** A stored batch comes back in order: restoring what [serialize_messages] made
    of a batch gives every LLM message and, between them where they were, the
    custom messages as their registered decoders read them; only what has no
    name, payload or accepting decoder is missing.  So a batch whose custom
    messages the registry reads back faithfully is restored exactly, also
    when it is empty or holds no LLM message. *)
Lemma codec_roundtrip registry messages :
  let s := serialize_messages messages in
  let restored := restore_messages (sm_llm_messages s) (sm_custom_messages s) (sm_message_order s) registry in
  restored = filtermap (stored registry) messages
  /\ (all_faithful registry messages -> restored = messages).
Proof.
  cbn zeta. fold (restore_batch (serialize_messages messages) registry). rewrite restore_serialize.
  split; [done|]. apply stored_faithful.
Qed.

(** What crosses a thread boundary is stored the same way. *)
Lemma clone_for_send_stored registry messages :
  filtermap (stored registry) (clone_messages_for_send messages) = filtermap (stored registry) messages.
Proof.
  unfold clone_messages_for_send. rewrite filtermap_filtermap. induction messages as [|[llm|c] ms IH]; [done|cbn; by rewrite IH|].
  cbn [filtermap]. rewrite IH. cbn. unfold from_custom. destruct (type_name c) as [name|], registry as [reg|]; cbn; try done;
    by destruct (to_json c).
Qed.

Lemma clone_for_send_idempotent messages :
  clone_messages_for_send (clone_messages_for_send messages) = clone_messages_for_send messages.
Proof.
  unfold clone_messages_for_send. rewrite filtermap_filtermap. induction messages as [|[llm|c] ms IH]; [done|cbn; by rewrite IH|].
  cbn [filtermap]. rewrite IH. unfold from_custom. by destruct (type_name c), (to_json c).
Qed.

(** [clone_for_send] keeps every LLM message. *)
Lemma clone_for_send_llm messages :
  filtermap as_llm (clone_messages_for_send messages) = filtermap as_llm messages.
Proof.
  unfold clone_messages_for_send. rewrite filtermap_filtermap. induction messages as [|[llm|c] ms IH]; [done|cbn; by rewrite IH|].
  cbn [filtermap]. rewrite IH. unfold from_custom. by destruct (type_name c), (to_json c).
Qed.

End Codec.

(** ** Checkpoints: [src/checkpoint.rs]

    The stored forms of a conversation and of a paused loop.  Serde's JSON of
    them is not modelled; the checkpoint store is the host's. *)
Open Scope list_scope.

Section Checkpoint.
Context `{E : Ext}.

(** [messages], [custom_messages] and [message_order] are one [SerializedMessages].
    @src src/checkpoint.rs:26-60 [Checkpoint] *)
Record Checkpoint := MkCheckpoint {
  ck_id : string;
  ck_system_prompt : string;
  ck_provider : string;
  ck_model_id : string;
  ck_messages : SerializedMessages;
  ck_turn_count : nat;
  ck_usage : Usage;
  ck_cost : Cost;
  ck_created_at : N;
  ck_metadata : gmap string Value;
  ck_state : option Value;
}.

(** @src src/checkpoint.rs:72-96 [Checkpoint::new] *)
Definition checkpoint_new (id system_prompt provider model_id : string) (messages : list AgentMessage)
    (now : N) : Checkpoint :=
  MkCheckpoint id system_prompt provider model_id (serialize_messages messages) 0 usage_default
    cost_default now ∅ None.

(** @src src/checkpoint.rs:100-103 [Checkpoint::with_state] *)
Definition checkpoint_with_state (c : Checkpoint) (state : Value) : Checkpoint :=
  MkCheckpoint (ck_id c) (ck_system_prompt c) (ck_provider c) (ck_model_id c) (ck_messages c)
    (ck_turn_count c) (ck_usage c) (ck_cost c) (ck_created_at c) (ck_metadata c) (Some state).

(** @src src/checkpoint.rs:107-110 [Checkpoint::with_turn_count] *)
Definition checkpoint_with_turn_count (c : Checkpoint) (turn_count : nat) : Checkpoint :=
  MkCheckpoint (ck_id c) (ck_system_prompt c) (ck_provider c) (ck_model_id c) (ck_messages c)
    turn_count (ck_usage c) (ck_cost c) (ck_created_at c) (ck_metadata c) (ck_state c).

(** @src src/checkpoint.rs:142-150 [Checkpoint::restore_messages] *)
Definition checkpoint_restore_messages (c : Checkpoint) (registry : option CustomMessageRegistry) :
    list AgentMessage := restore_batch (ck_messages c) registry.

(** @src src/checkpoint.rs:163-206 [LoopCheckpoint] *)
Record LoopCheckpoint := MkLoopCheckpoint {
  lc_messages : SerializedMessages;
  lc_pending : SerializedMessages;
  lc_pending_steering : SerializedMessages;
  lc_system_prompt : string;
  lc_provider : string;
  lc_model_id : string;
  lc_created_at : N;
  lc_metadata : gmap string Value;
  lc_state : option Value;
}.

Definition no_messages : SerializedMessages := MkSerializedMessages [] [] [].

(** @src src/checkpoint.rs:214-239 [LoopCheckpoint::new] *)
Definition loop_checkpoint_new (system_prompt provider model_id : string) (messages : list AgentMessage)
    (now : N) : LoopCheckpoint :=
  MkLoopCheckpoint (serialize_messages messages) no_messages no_messages system_prompt provider
    model_id now ∅ None.

(** @src src/checkpoint.rs:243-246 [LoopCheckpoint::with_state] *)
Definition loop_checkpoint_with_state (c : LoopCheckpoint) (state : Value) : LoopCheckpoint :=
  MkLoopCheckpoint (lc_messages c) (lc_pending c) (lc_pending_steering c) (lc_system_prompt c)
    (lc_provider c) (lc_model_id c) (lc_created_at c) (lc_metadata c) (Some state).

(** @src src/checkpoint.rs:250-255 [LoopCheckpoint::with_pending_messages] *)
Definition with_pending_messages (c : LoopCheckpoint) (pending : list LlmMessage) : LoopCheckpoint :=
  MkLoopCheckpoint (lc_messages c) (MkSerializedMessages pending [] []) (lc_pending_steering c)
    (lc_system_prompt c) (lc_provider c) (lc_model_id c) (lc_created_at c) (lc_metadata c) (lc_state c).

(** @src src/checkpoint.rs:259-264 [LoopCheckpoint::with_pending_steering_messages] *)
Definition with_pending_steering_messages (c : LoopCheckpoint) (pending : list LlmMessage) : LoopCheckpoint :=
  MkLoopCheckpoint (lc_messages c) (lc_pending c) (MkSerializedMessages pending [] [])
    (lc_system_prompt c) (lc_provider c) (lc_model_id c) (lc_created_at c) (lc_metadata c) (lc_state c).

(** @src src/checkpoint.rs:268-274 [LoopCheckpoint::with_pending_message_batch] *)
Definition with_pending_message_batch (c : LoopCheckpoint) (pending : list AgentMessage) : LoopCheckpoint :=
  MkLoopCheckpoint (lc_messages c) (serialize_messages pending) (lc_pending_steering c)
    (lc_system_prompt c) (lc_provider c) (lc_model_id c) (lc_created_at c) (lc_metadata c) (lc_state c).

(** @src src/checkpoint.rs:278-285 [LoopCheckpoint::with_pending_steering_message_batch] *)
Definition with_pending_steering_message_batch (c : LoopCheckpoint) (pending : list AgentMessage) :
    LoopCheckpoint :=
  MkLoopCheckpoint (lc_messages c) (lc_pending c) (serialize_messages pending)
    (lc_system_prompt c) (lc_provider c) (lc_model_id c) (lc_created_at c) (lc_metadata c) (lc_state c).

(** @src src/checkpoint.rs:299-307 [LoopCheckpoint::restore_messages] *)
Definition loop_restore_messages (c : LoopCheckpoint) (registry : option CustomMessageRegistry) :
    list AgentMessage := restore_batch (lc_messages c) registry.

(** @src src/checkpoint.rs:311-322 [LoopCheckpoint::restore_pending_messages] *)
Definition restore_pending_messages (c : LoopCheckpoint) (registry : option CustomMessageRegistry) :
    list AgentMessage := restore_batch (lc_pending c) registry.

(** @src src/checkpoint.rs:326-337 [LoopCheckpoint::restore_pending_steering_messages] *)
Definition restore_pending_steering_messages (c : LoopCheckpoint) (registry : option CustomMessageRegistry) :
    list AgentMessage := restore_batch (lc_pending_steering c) registry.

(** @src src/checkpoint.rs:341-357 [LoopCheckpoint::to_checkpoint] *)
Definition to_checkpoint (c : LoopCheckpoint) (id : string) : Checkpoint :=
  MkCheckpoint id (lc_system_prompt c) (lc_provider c) (lc_model_id c) (lc_messages c) 0 usage_default
    cost_default (lc_created_at c) (lc_metadata c) (lc_state c).

(** Messages given as plain LLM messages come back in order, through the fallback
    for checkpoints without an order. *)
Lemma restore_plain llm registry : restore_batch (MkSerializedMessages llm [] []) registry = map Llm llm.
Proof. unfold restore_batch, restore_messages. cbn. by rewrite app_nil_r. Qed.

Lemma to_checkpoint_restores c id registry :
  checkpoint_restore_messages (to_checkpoint c id) registry = loop_restore_messages c registry.
Proof. done. Qed.

End Checkpoint.
