(* ===== verification/Agent.v ===== *)
(** * The agent: [src/agent.rs], [src/agent/]

    The stateful object around the loop: history, queues, the flags it shares
    with a running loop, checkpoints.  [Shared] is what the loop task and the
    stream guards see of it; a run is known by its generation, which also
    names its cancellation token.  Counters do not reach [2^64]. *)
From S2P Require Export Queues MessageCodec.
Open Scope string_scope.
Open Scope list_scope.
Open Scope agent_scope.

#[export] Instance ModelCapabilities_eq_dec : EqDecision ModelCapabilities.
Proof. solve_decision. Defined.
#[export] Instance ModelSpec_eq_dec `{E : Ext} : EqDecision ModelSpec.
Proof. solve_decision. Defined.

Section Agent.
Context `{E : Ext} {X : Type}.

#[local] Abbreviation H := (AHost X).

(** ** State *)

(** @src src/agent.rs:86-111 [AgentState] *)
Record AgentState := MkAgentState {
  st_system_prompt : string;
  st_model : ModelSpec;
  st_tools : list (AgentTool H);
  st_messages : list AgentMessage;
  st_is_running : bool;
  st_stream_message : option AgentMessage;
  st_pending_tool_calls : gset string;
  st_error : option string;
  st_available_models : list ModelSpec;
}.

(** [sh_notified] counts the calls of [notify_waiters], [sh_cancelled] holds the
    cancelled tokens. *)
Record Shared := MkShared {
  sh_pending_snapshot : list AgentMessage;
  sh_context_snapshot : option (list AgentMessage);
  sh_session : SessionState;
  sh_loop_active : bool;
  sh_generation : nat;
  sh_notified : nat;
  sh_cancelled : gset nat;
}.

(** What [std::io::Error] is made of here. *)
Inductive IoError :=
| WouldBlock (message : string)
| InvalidData (message : string)
| OtherIo (message : string).

(** The application's [CheckpointStore].
    @src src/checkpoint/store.rs:13-25 [CheckpointStore] *)
Record CheckpointStore := MkCheckpointStore {
  store_save : Checkpoint -> H -> result unit IoError * H;
  store_load : string -> H -> result (option Checkpoint) IoError * H;
}.

(** The settings that do not change after construction. *)
Record Settings := MkSettings {
  as_agent_name : option string;
  as_transfer_chain : option TransferChain;
  as_steering_mode : SteeringMode;
  as_follow_up_mode : FollowUpMode;
  as_convert_to_llm : AgentMessage -> option LlmMessage;
  as_transform_context : option (TransformerOps (H := H));
  as_async_transform_context : option (TransformerOps (H := H));
  as_get_api_key : option (string -> H -> option string * H);
  as_retry_strategy : RetryStrategy H;
  as_approve_tool : option (ToolApprovalRequest -> H -> ApprovalReply * H);
  as_reasoning_only_nudge : bool;
  as_pre_turn_policies : list (PreTurnPolicy (H := H));
  as_pre_dispatch_policies : list (PreDispatchPolicy (H := H));
  as_post_turn_policies : list (PostTurnPolicy (H := H));
  as_post_loop_policies : list (PostLoopPolicy (H := H));
  as_metrics_collector : option (TurnMetrics -> H -> H);
  as_fallback : option (list (ModelSpec * StreamFn H));
  as_external_message_provider : option (MessageProvider H);
  as_tool_execution_policy : ToolExecutionPolicy H;
  as_credential_resolver : option (CredentialResolver H);
  as_cache_config : option CacheConfig;
  as_dynamic_system_prompt : option (H -> string * H);
  as_cost_calculator : option CostCalculator;
  as_catalog : ModelCatalog;
  as_clock : H -> N * H;
  as_structured_output_max_retries : nat;
  as_custom_message_registry : option CustomMessageRegistry;
  as_plan_mode_addendum : option string;
  as_checkpoint_store : option CheckpointStore;
}.

(** @src src/agent.rs:219-301 [Agent] *)
Record Agent := MkAgent {
  ag_state : AgentState;
  ag_shared : Shared;
  ag_host : H;
  ag_settings : Settings;
  ag_stream_fn : StreamFn H;
  ag_model_stream_fns : list (ModelSpec * StreamFn H);
  ag_approval_mode : ApprovalMode;
  ag_abort_controller : option nat;
  ag_listeners : ListenerRegistry;
  ag_forwarders : list Listener;
}.

(** ** Field assignments *)

Definition upd_state (f : AgentState -> AgentState) (a : Agent) : Agent :=
  MkAgent (f (ag_state a)) (ag_shared a) (ag_host a) (ag_settings a) (ag_stream_fn a)
    (ag_model_stream_fns a) (ag_approval_mode a) (ag_abort_controller a) (ag_listeners a) (ag_forwarders a).
Definition upd_shared (f : Shared -> Shared) (a : Agent) : Agent :=
  MkAgent (ag_state a) (f (ag_shared a)) (ag_host a) (ag_settings a) (ag_stream_fn a)
    (ag_model_stream_fns a) (ag_approval_mode a) (ag_abort_controller a) (ag_listeners a) (ag_forwarders a).
Definition upd_host (f : H -> H) (a : Agent) : Agent :=
  MkAgent (ag_state a) (ag_shared a) (f (ag_host a)) (ag_settings a) (ag_stream_fn a)
    (ag_model_stream_fns a) (ag_approval_mode a) (ag_abort_controller a) (ag_listeners a) (ag_forwarders a).
Definition put_stream_fn (s : StreamFn H) (a : Agent) : Agent :=
  MkAgent (ag_state a) (ag_shared a) (ag_host a) (ag_settings a) s
    (ag_model_stream_fns a) (ag_approval_mode a) (ag_abort_controller a) (ag_listeners a) (ag_forwarders a).
Definition put_approval_mode (m : ApprovalMode) (a : Agent) : Agent :=
  MkAgent (ag_state a) (ag_shared a) (ag_host a) (ag_settings a) (ag_stream_fn a)
    (ag_model_stream_fns a) m (ag_abort_controller a) (ag_listeners a) (ag_forwarders a).
Definition put_abort (t : option nat) (a : Agent) : Agent :=
  MkAgent (ag_state a) (ag_shared a) (ag_host a) (ag_settings a) (ag_stream_fn a)
    (ag_model_stream_fns a) (ag_approval_mode a) t (ag_listeners a) (ag_forwarders a).
Definition put_listeners (r : ListenerRegistry) (fs : list Listener) (a : Agent) : Agent :=
  MkAgent (ag_state a) (ag_shared a) (ag_host a) (ag_settings a) (ag_stream_fn a)
    (ag_model_stream_fns a) (ag_approval_mode a) (ag_abort_controller a) r fs.

Definition put_system_prompt (p : string) (s : AgentState) : AgentState :=
  MkAgentState p (st_model s) (st_tools s) (st_messages s) (st_is_running s) (st_stream_message s)
    (st_pending_tool_calls s) (st_error s) (st_available_models s).
Definition put_model (m : ModelSpec) (s : AgentState) : AgentState :=
  MkAgentState (st_system_prompt s) m (st_tools s) (st_messages s) (st_is_running s) (st_stream_message s)
    (st_pending_tool_calls s) (st_error s) (st_available_models s).
Definition put_tools (t : list (AgentTool H)) (s : AgentState) : AgentState :=
  MkAgentState (st_system_prompt s) (st_model s) t (st_messages s) (st_is_running s) (st_stream_message s)
    (st_pending_tool_calls s) (st_error s) (st_available_models s).
Definition put_messages (m : list AgentMessage) (s : AgentState) : AgentState :=
  MkAgentState (st_system_prompt s) (st_model s) (st_tools s) m (st_is_running s) (st_stream_message s)
    (st_pending_tool_calls s) (st_error s) (st_available_models s).
Definition put_running (b : bool) (s : AgentState) : AgentState :=
  MkAgentState (st_system_prompt s) (st_model s) (st_tools s) (st_messages s) b (st_stream_message s)
    (st_pending_tool_calls s) (st_error s) (st_available_models s).
Definition put_stream_message (m : option AgentMessage) (s : AgentState) : AgentState :=
  MkAgentState (st_system_prompt s) (st_model s) (st_tools s) (st_messages s) (st_is_running s) m
    (st_pending_tool_calls s) (st_error s) (st_available_models s).
Definition put_pending_tool_calls (p : gset string) (s : AgentState) : AgentState :=
  MkAgentState (st_system_prompt s) (st_model s) (st_tools s) (st_messages s) (st_is_running s)
    (st_stream_message s) p (st_error s) (st_available_models s).
Definition put_error (e : option string) (s : AgentState) : AgentState :=
  MkAgentState (st_system_prompt s) (st_model s) (st_tools s) (st_messages s) (st_is_running s)
    (st_stream_message s) (st_pending_tool_calls s) e (st_available_models s).

Definition put_snapshots (p : list AgentMessage) (c : option (list AgentMessage)) (s : Shared) : Shared :=
  MkShared p c (sh_session s) (sh_loop_active s) (sh_generation s) (sh_notified s) (sh_cancelled s).
Definition put_session (x : SessionState) (s : Shared) : Shared :=
  MkShared (sh_pending_snapshot s) (sh_context_snapshot s) x (sh_loop_active s) (sh_generation s)
    (sh_notified s) (sh_cancelled s).
Definition put_active (b : bool) (s : Shared) : Shared :=
  MkShared (sh_pending_snapshot s) (sh_context_snapshot s) (sh_session s) b (sh_generation s)
    (sh_notified s) (sh_cancelled s).
Definition next_generation (s : Shared) : Shared :=
  MkShared (sh_pending_snapshot s) (sh_context_snapshot s) (sh_session s) (sh_loop_active s)
    (S (sh_generation s)) (sh_notified s) (sh_cancelled s).
Definition notify_waiters (s : Shared) : Shared :=
  MkShared (sh_pending_snapshot s) (sh_context_snapshot s) (sh_session s) (sh_loop_active s)
    (sh_generation s) (S (sh_notified s)) (sh_cancelled s).
Definition cancel_token (t : nat) (s : Shared) : Shared :=
  MkShared (sh_pending_snapshot s) (sh_context_snapshot s) (sh_session s) (sh_loop_active s)
    (sh_generation s) (sh_notified s) ({[t]} ∪ sh_cancelled s).

(** Both snapshots emptied. *)
Definition clear_snapshots : Shared -> Shared := put_snapshots [] None.

(** ** Events to the host *)

(** @src src/agent/events.rs:26-37 [Agent::dispatch_event] *)
Definition dispatch_event (e : AgentEvent) (a : Agent) : Agent :=
  put_listeners (dispatch (ag_listeners a) e)
    (filtermap (fun l => let '(l, panicked) := notify e l in if panicked then None else Some l) (ag_forwarders a))
    a.

(** ** Queues *)

Definition steer (m : AgentMessage) : Agent -> Agent := upd_host (host_steer m).
Definition follow_up (m : AgentMessage) : Agent -> Agent := upd_host (host_follow_up m).
Definition clear_queues : Agent -> Agent := upd_host host_clear_queues.
Definition has_pending_messages (a : Agent) : bool := host_has_pending (ag_host a).

(** A poll by the running loop: it also appends to the pause snapshot.
    @src src/agent/queueing.rs:84-91 [QueueMessageProvider::poll_steering] *)
Definition loop_polls_steering (a : Agent) : list AgentMessage * Agent :=
  let '(drained, h) := queue_poll_steering (as_steering_mode (ag_settings a)) (ag_host a) in
  (drained, upd_shared (fun s => put_snapshots (sh_pending_snapshot s ++ clone_messages drained) (sh_context_snapshot s) s)
              (upd_host (fun _ => h) a)).

(** @src src/agent/queueing.rs:93-100 [QueueMessageProvider::poll_follow_up] *)
Definition loop_polls_follow_up (a : Agent) : list AgentMessage * Agent :=
  let '(drained, h) := queue_poll_follow_up (as_follow_up_mode (ag_settings a)) (ag_host a) in
  (drained, upd_shared (fun s => put_snapshots (sh_pending_snapshot s ++ clone_messages drained) (sh_context_snapshot s) s)
              (upd_host (fun _ => h) a)).

(** ** Starting a run *)

(** @src src/agent/invoke.rs:242-251 [Agent::check_not_running] *)
Definition check_not_running (a : Agent) : Agent * result unit AgentError :=
  let active := sh_loop_active (ag_shared a) in
  (upd_state (put_running active) a, if active then Err AlreadyRunning else Ok tt).

Definition is_assistant (m : AgentMessage) : bool :=
  match m with Llm (Assistant _) => true | _ => false end.

(** @src src/agent/invoke.rs:253-263 [Agent::validate_continue] *)
Definition validate_continue (a : Agent) : result unit AgentError :=
  match last (st_messages (ag_state a)) with
  | None => Err NoMessages
  | Some m => if is_assistant m && negb (has_pending_messages a) then Err InvalidContinue else Ok tt
  end.

(** The messages a run starts from, and how many of them are new.
    @src src/agent/invoke.rs:285-303 [Agent::start_loop, messages_for_loop] *)
Definition messages_for_loop (input : list AgentMessage) (is_continue : bool) (a : Agent) :
    list AgentMessage * nat * Agent :=
  let msgs := st_messages (ag_state a) in
  if is_continue then
    if match last msgs with Some m => is_assistant m | None => false end then
      let '(steering, _) := drain_messages_from_queue (ah_steering_queue (ag_host a)) in
      let '(follow_up, _) := drain_messages_from_queue (ah_follow_up_queue (ag_host a)) in
      (msgs ++ steering ++ follow_up, length steering + length follow_up, clear_queues a)
    else (msgs, length input, a)
  else (msgs ++ input, length input, a).

(** What a run needs to go on its way. *)
Record Launch := MkLaunch {
  la_messages : list AgentMessage;
  la_initial_new_messages_len : nat;
  la_system_prompt : string;
  la_config : AgentLoopConfig H;
  la_generation : nat;
}.

(** @src src/agent/invoke.rs:350-476 [Agent::build_loop_config] *)
Definition build_loop_config (a : Agent) : AgentLoopConfig H :=
  let s := ag_settings a in
  let queue := queue_provider (as_steering_mode s) (as_follow_up_mode s) in
  let message_provider := match as_external_message_provider s with
                          | Some external => composed_provider queue external
                          | None => queue
                          end in
  MkConfig (as_agent_name s) (as_transfer_chain s) (st_model (ag_state a)) (as_retry_strategy s)
    (ag_stream_fn a) (st_tools (ag_state a)) (as_convert_to_llm s) (as_transform_context s)
    (as_async_transform_context s) (as_get_api_key s) (Some message_provider) (as_approve_tool s)
    (ag_approval_mode a) (as_pre_turn_policies s) (as_pre_dispatch_policies s) (as_post_turn_policies s)
    (as_post_loop_policies s) (as_metrics_collector s) (as_fallback s) (as_tool_execution_policy s)
    (as_credential_resolver s) (as_cache_config s) (as_dynamic_system_prompt s) (as_cost_calculator s)
    (as_catalog s) (as_reasoning_only_nudge s) (as_clock s).

(** @src src/agent/invoke.rs:267-347 [Agent::start_loop] *)
Definition start_loop (input : list AgentMessage) (is_continue : bool) (a : Agent) : Agent * Launch :=
  let a := upd_state (fun s => put_error None (put_running true s)) a in
  let a := upd_shared (fun s => next_generation (put_active true (clear_snapshots s))) a in
  let generation := sh_generation (ag_shared a) in
  let a := put_abort (Some generation) a in
  let config := build_loop_config a in
  let system_prompt := st_system_prompt (ag_state a) in
  let '(messages, initial_new_messages_len, a) := messages_for_loop input is_continue a in
  (upd_state (put_messages (clone_messages_for_send messages)) a,
   MkLaunch messages initial_new_messages_len system_prompt config generation).

(** @src src/agent/invoke.rs:97-110 [Agent::prompt_stream] *)
Definition prompt_stream (input : list AgentMessage) (a : Agent) : Agent * result Launch AgentError :=
  let '(a, r) := check_not_running a in
  match r with
  | Err e => (a, Err e)
  | Ok _ => let '(a, l) := start_loop input false a in (a, Ok l)
  end.

(** @src src/agent/invoke.rs:207-213 [Agent::continue_stream] *)
Definition continue_stream (a : Agent) : Agent * result Launch AgentError :=
  let '(a, r) := check_not_running a in
  match r with
  | Err e => (a, Err e)
  | Ok _ =>
    match validate_continue a with
    | Err e => (a, Err e)
    | Ok _ => let '(a, l) := start_loop [] true a in (a, Ok l)
    end
  end.

(** The stream of run [generation] is dropped.
    @src src/agent/invoke.rs:60-71 [LoopGuardStream::drop] *)
Definition drop_guard (generation : nat) (a : Agent) : Agent :=
  if (sh_generation (ag_shared a) =? generation)%nat
  then upd_shared (fun s => notify_waiters (clear_snapshots (put_active false (cancel_token generation s)))) a
  else a.

(** ** Control *)

(** @src src/agent/control.rs:27-35 [Agent::clear_transient_runtime_state] *)
Definition clear_transient_runtime_state (a : Agent) : Agent :=
  upd_shared clear_snapshots (put_abort None
    (upd_state (fun s => put_error None (put_pending_tool_calls ∅ (put_stream_message None (put_running false s)))) a)).

(** @src src/agent/control.rs:38-43 [Agent::abort] *)
Definition abort (a : Agent) : Agent :=
  match ag_abort_controller a with
  | Some token => upd_shared (cancel_token token) a
  | None => a
  end.

(** @src src/agent/control.rs:50-66 [Agent::reset] *)
Definition reset (a : Agent) : Agent :=
  let a := abort a in
  let a := upd_shared next_generation a in
  let a := upd_state (put_messages []) a in
  let a := upd_shared (put_active false) a in
  let a := clear_queues (clear_transient_runtime_state a) in
  upd_shared notify_waiters a.

(** ** Events of a run *)

(** @src src/agent/state_updates.rs:140-164 [Agent::update_state_from_event] *)
Definition update_state_from_event (e : AgentEvent) (a : Agent) : Agent :=
  match e with
  | MessageStart => upd_state (put_stream_message None) a
  | MessageEnd message => upd_state (put_stream_message (Some (Llm (Assistant message)))) a
  | ToolExecutionStart id _ _ =>
    upd_state (fun s => put_pending_tool_calls ({[id]} ∪ st_pending_tool_calls s) s) a
  | TurnEnd _ _ _ _ => upd_state (fun s => put_stream_message None (put_pending_tool_calls ∅ s)) a
  | AgentEnd _ =>
    upd_shared (put_active false)
      (upd_state (fun s => put_stream_message None (put_pending_tool_calls ∅ (put_running false s))) a)
  | _ => a
  end.

(** The messages a turn writes back.
    @src src/agent/state_updates.rs:114-123 [Agent::handle_stream_event, TurnEnd (brace)] *)
Definition turn_messages (assistant_message : AssistantMessage) (tool_results : list ToolResultMessage) :
    list AgentMessage :=
  Llm (Assistant assistant_message) :: map (fun tr => Llm (ToolResult tr)) tool_results.

(** @src src/agent/state_updates.rs:99-138 [Agent::handle_stream_event] *)
Definition handle_stream_event (e : AgentEvent) (a : Agent) : Agent :=
  let a := update_state_from_event e (dispatch_event e a) in
  match e with
  | TurnEnd assistant_message tool_results _ _ =>
    let a := upd_state (fun s => put_messages (st_messages s ++ turn_messages assistant_message tool_results) s) a in
    match am_error_message assistant_message with
    | Some err => upd_state (put_error (Some err)) a
    | None => a
    end
  | AgentEnd messages =>
    upd_shared (fun s => notify_waiters (clear_snapshots s)) (upd_state (put_messages (clone_messages messages)) a)
  | _ => a
  end.

(** @src src/types/mod.rs:542-555 [AgentResult] *)
Record AgentResult := MkAgentResult {
  res_messages : list AgentMessage;
  res_stop_reason : StopReason;
  res_usage : Usage;
  res_cost : Cost;
  res_error : option string;
  res_transfer_signal : option TransferSignal;
}.

Definition result_new : AgentResult :=
  MkAgentResult [] Stop usage_default cost_default None None.

(** What an event adds to the result.
    @src src/agent/state_updates.rs:30-65 [Agent::collect_stream, result (brace)] *)
Definition collect_result (r : AgentResult) (e : AgentEvent) : AgentResult :=
  match e with
  | TransferInitiated signal =>
    MkAgentResult (res_messages r) Transfer (res_usage r) (res_cost r) (res_error r) (Some signal)
  | TurnEnd m tool_results _ _ =>
    MkAgentResult (res_messages r ++ turn_messages m tool_results)
      (match res_transfer_signal r with None => am_stop_reason m | Some _ => res_stop_reason r end)
      (usage_add (res_usage r) (am_usage m)) (cost_add (res_cost r) (am_cost m))
      (match am_error_message m with Some err => Some err | None => res_error r end)
      (res_transfer_signal r)
  | _ => r
  end.

(** [Arc::try_unwrap] of the final messages fails when a listener kept the event;
    then the messages are cloned. [shared] says which.
    @src src/agent/state_updates.rs:26-76 [Agent::collect_stream, loop body] *)
Definition collect_event (shared : bool) (e : AgentEvent) (a : Agent) : Agent :=
  let a := update_state_from_event e (dispatch_event e a) in
  match e with
  | TurnEnd m tool_results _ _ =>
    upd_state (fun s => put_messages (st_messages s ++ turn_messages m tool_results) s) a
  | AgentEnd messages =>
    upd_state (put_messages (if shared then clone_messages messages else messages)) a
  | _ => a
  end.

(** To the end of the stream of run [generation], which is dropped on return.
    @src src/agent/state_updates.rs:15-96 [Agent::collect_stream] *)
Definition collect_stream (shared : bool) (generation : nat) (events : list AgentEvent) (a : Agent) :
    Agent * AgentResult :=
  let a := foldl (fun a e => collect_event shared e a) a events in
  let r := foldl collect_result result_new events in
  let a := upd_state (put_running false) a in
  let a := upd_shared (fun s => clear_snapshots (put_active false s)) a in
  let a := upd_state (put_error (res_error r)) a in
  let a := upd_shared notify_waiters a in
  (drop_guard generation a, r).

End Agent.

Arguments Agent {_} _.
Arguments AgentState {_} _.
Arguments Launch {_} _.
Arguments Settings {_} _.
Arguments CheckpointStore {_} _.
