(* ===== verification/AgentOps.v ===== *)
(** * The agent's settings and checkpoints: [src/agent/mutation.rs], [src/agent/checkpointing.rs], [src/agent/compaction.rs]

    The operations of a host on an agent outside a run, and pausing one. *)
From S2P Require Export Agent.
Open Scope string_scope.
Open Scope list_scope.
Open Scope agent_scope.

Section Ops.
Context `{E : Ext} {X : Type}.

#[local] Abbreviation H := (AHost X).
Implicit Types (a : Agent X).

(** ** Settings: [src/agent/mutation.rs] *)

(** @src src/agent/mutation.rs:12-14 [Agent::set_system_prompt] *)
Definition set_system_prompt (prompt : string) a : Agent X := upd_state (put_system_prompt prompt) a.

Definition announce_model (old new : ModelSpec) (reason : string) a : Agent X :=
  if bool_decide (old = new) then a else dispatch_event (ModelCycled old new reason) a.

(** @src src/agent/mutation.rs:21-35 [Agent::set_model] *)
Definition set_model (model : ModelSpec) a : Agent X :=
  let old := st_model (ag_state a) in
  let a := match List.find (fun ms => bool_decide (fst ms = model)) (ag_model_stream_fns a) with
           | Some (_, stream_fn) => put_stream_fn stream_fn a
           | None => a
           end in
  announce_model old model "set_model" (upd_state (put_model model) a).

(** @src src/agent/mutation.rs:39-51 [Agent::set_model_with_stream] *)
Definition set_model_with_stream (model : ModelSpec) (stream_fn : StreamFn H) a : Agent X :=
  let old := st_model (ag_state a) in
  announce_model old model "set_model_with_stream" (put_stream_fn stream_fn (upd_state (put_model model) a)).

(** @src src/agent/mutation.rs:54-56 [Agent::set_thinking_level] *)
Definition set_thinking_level (level : ThinkingLevel) a : Agent X :=
  upd_state (fun s => let m := st_model s in
    put_model (MkModelSpec (ms_provider m) (ms_model_id m) level (ms_thinking_budgets m)
                 (ms_provider_config m) (ms_capabilities m)) s) a.

(** Panics on a repeated name.
    @src src/agent.rs:167-186 [assert_unique_tool_names] *)
Definition unique_tool_names (tools : list (AgentTool H)) : bool :=
  bool_decide (NoDup (map td_name tools)).

(** @src src/agent/mutation.rs:59-62 [Agent::set_tools] *)
Definition set_tools (tools : list (AgentTool H)) a : option (Agent X) :=
  if unique_tool_names tools then Some (upd_state (put_tools tools) a) else None.

Definition without_tool (name : string) (tools : list (AgentTool H)) : list (AgentTool H) :=
  List.filter (fun t => negb (String.eqb (td_name t) name)) tools.

(** @src src/agent/mutation.rs:65-69 [Agent::add_tool] *)
Definition add_tool (tool : AgentTool H) a : Agent X :=
  upd_state (fun s => put_tools (without_tool (td_name tool) (st_tools s) ++ [tool]) s) a.

(** @src src/agent/mutation.rs:72-76 [Agent::remove_tool] *)
Definition remove_tool (name : string) a : Agent X * bool :=
  let before := length (st_tools (ag_state a)) in
  let tools := without_tool name (st_tools (ag_state a)) in
  (upd_state (put_tools tools) a, (length tools <? before)%nat).

(** @src src/agent/mutation.rs:90-92 [Agent::find_tool] *)
Definition find_tool (name : string) a : option (AgentTool H) :=
  List.find (fun t => String.eqb (td_name t) name) (st_tools (ag_state a)).

(** @src src/agent/mutation.rs:84-86 [Agent::set_approval_mode] *)
Definition set_approval_mode (mode : ApprovalMode) a : Agent X := put_approval_mode mode a.

(** @src src/agent/mutation.rs:122-124 [Agent::set_messages] *)
Definition set_messages (messages : list AgentMessage) a : Agent X := upd_state (put_messages messages) a.

(** @src src/agent/mutation.rs:127-129 [Agent::append_messages] *)
Definition append_messages (messages : list AgentMessage) a : Agent X :=
  upd_state (fun s => put_messages (st_messages s ++ messages) s) a.

(** @src src/agent_options.rs:36-36 [DEFAULT_PLAN_MODE_ADDENDUM] *)
Definition DEFAULT_PLAN_MODE_ADDENDUM : string :=
  String (Ascii.ascii_of_nat 10) (String (Ascii.ascii_of_nat 10)
    "You are in planning mode. Analyze the request and produce a step-by-step plan. Do not make any modifications or execute any write operations.").

(** @src src/agent/mutation.rs:137-156 [Agent::enter_plan_mode] *)
Definition enter_plan_mode a : Agent X * (list (AgentTool H) * string) :=
  let saved_tools := st_tools (ag_state a) in
  let saved_prompt := st_system_prompt (ag_state a) in
  let addendum := default DEFAULT_PLAN_MODE_ADDENDUM (as_plan_mode_addendum (ag_settings a)) in
  (upd_state (fun s => put_system_prompt (saved_prompt ++ addendum)%string
                         (put_tools (List.filter (fun t => negb (td_requires_approval t)) saved_tools) s)) a,
   (saved_tools, saved_prompt)).

(** @src src/agent/mutation.rs:159-162 [Agent::exit_plan_mode] *)
Definition exit_plan_mode (saved_tools : list (AgentTool H)) (saved_prompt : string) a : Agent X :=
  upd_state (fun s => put_system_prompt saved_prompt (put_tools saved_tools s)) a.

(** ** Compaction on demand: [src/agent/compaction.rs] *)

Definition run_compaction (t : option (TransformerOps (H := H))) a : Agent X * option CompactionReport :=
  match t with
  | None => (a, None)
  | Some t =>
    let '(report, messages, h) := op_transform t (st_messages (ag_state a)) true (ag_host a) in
    let a := upd_host (fun _ => h) (upd_state (put_messages messages) a) in
    (match report with Some r => dispatch_event (ContextCompacted r) a | None => a end, report)
  end.

(** @src src/agent/compaction.rs:59-85 [Agent::compact_context] *)
Definition compact_context a : Agent X * result (option CompactionReport) AgentError :=
  let '(a, r) := check_not_running a in
  match r with
  | Err e => (a, Err e)
  | Ok _ =>
    let '(a, async_report) := run_compaction (as_async_transform_context (ag_settings a)) a in
    let '(a, sync_report) := run_compaction (as_transform_context (ag_settings a)) a in
    (a, Ok (match sync_report with Some r => Some r | None => async_report end))
  end.

(** ** Checkpoints: [src/agent/checkpointing.rs] *)

(** @src src/agent/checkpointing.rs:16-33 [restore_session_state] *)
Definition restore_session_state (snap : option Value) : result SessionState IoError :=
  match snap with
  | None => Ok session_new
  | Some state_val =>
    match restore_from_snapshot state_val with
    | Ok s => Ok s
    | Err e => Err (InvalidData ("corrupted session state snapshot: " ++ e))
    end
  end.

(** @src src/agent/checkpointing.rs:38-44 [Agent::rebind_stream_fn_for_current_model] *)
Definition rebind_stream_fn a : Agent X :=
  let m := st_model (ag_state a) in
  match List.find (fun ms => String.eqb (ms_provider (fst ms)) (ms_provider m)
                             && String.eqb (ms_model_id (fst ms)) (ms_model_id m))
          (ag_model_stream_fns a) with
  | Some (_, stream_fn) => put_stream_fn stream_fn a
  | None => a
  end.

(** The names of the tools the history calls, in order.
    @src src/agent/checkpointing.rs:96-108 [Agent::inject_noop_tools_for_missing_references, names (brace)] *)
Definition called_tools (messages : list AgentMessage) : list string :=
  concat (map (fun m => match m with
                        | Llm (Assistant am) =>
                          filtermap (fun b => match b with ToolCall _ name _ _ => Some name | _ => None end)
                            (am_content am)
                        | _ => []
                        end) messages).

(** The first occurrences of the names that are not [known].
    @src src/agent/checkpointing.rs:93-108 [Agent::inject_noop_tools_for_missing_references, missing (brace)] *)
Fixpoint missing_tools (known : list string) (names : list string) : list string :=
  match names with
  | [] => []
  | name :: names' =>
    if bool_decide (name ∈ known) then missing_tools known names'
    else name :: missing_tools (name :: known) names'
  end.

(** @src src/tool.rs:298-304 [permissive_object_schema] *)
Definition permissive_object_schema : Value :=
  json_of_map (<["type" := json_string "object"]> (<["properties" := json_empty_object]>
    {["additionalProperties" := json_bool true]})).

(** @src src/noop_tool.rs:43-83 [NoopTool] *)
Definition noop_tool (name : string) : AgentTool H :=
  MkAgentTool name "This tool is no longer available." permissive_object_schema false None
    (fun _ => None) None
    (fun _ _ _ session h =>
       ([], Returns (tool_error ("Tool '" ++ name
              ++ "' is no longer available. It may have been removed or renamed.")%string), session, h)).

(** @src src/agent/checkpointing.rs:92-116 [Agent::inject_noop_tools_for_missing_references] *)
Definition inject_noop_tools a : Agent X :=
  let missing := missing_tools (map td_name (st_tools (ag_state a))) (called_tools (st_messages (ag_state a))) in
  upd_state (fun s => put_tools (st_tools s ++ map noop_tool missing) s) a.

Definition session_snapshot a : option Value :=
  let s := sh_session (ag_shared a) in
  if bool_decide (ss_data s = ∅) then None else Some (snapshot s).

(** @src src/agent/checkpointing.rs:52-79 [Agent::save_checkpoint] *)
Definition save_checkpoint (id : string) a : Agent X * result Checkpoint IoError :=
  let '(now, h) := as_clock (ag_settings a) (ag_host a) in
  let a := upd_host (fun _ => h) a in
  let m := st_model (ag_state a) in
  let checkpoint := checkpoint_new id (st_system_prompt (ag_state a)) (ms_provider m) (ms_model_id m)
                      (st_messages (ag_state a)) now in
  let checkpoint := match session_snapshot a with
                    | Some v => checkpoint_with_state checkpoint v
                    | None => checkpoint
                    end in
  match as_checkpoint_store (ag_settings a) with
  | None => (a, Ok checkpoint)
  | Some store =>
    let '(r, h) := store_save store checkpoint (ag_host a) in
    (upd_host (fun _ => h) a, match r with Ok _ => Ok checkpoint | Err e => Err e end)
  end.

(** @src src/agent/checkpointing.rs:118-125 [Agent::ensure_idle_for_checkpoint_restore] *)
Definition ensure_idle_for_restore a : Agent X * result unit IoError :=
  let '(a, r) := check_not_running a in
  (a, match r with Ok _ => Ok tt | Err _ => Err (WouldBlock "cannot restore checkpoint while agent is running") end).

(** What both restores do once nothing can fail any more. *)
Definition install (messages : list AgentMessage) (system_prompt provider model_id : string)
    (session : SessionState) a : Agent X :=
  let a := inject_noop_tools (upd_state (put_messages messages) (clear_transient_runtime_state a)) in
  let a := upd_state (fun s => let m := st_model s in
    put_model (MkModelSpec provider model_id (ms_thinking_level m) (ms_thinking_budgets m)
                 (ms_provider_config m) (ms_capabilities m)) (put_system_prompt system_prompt s)) a in
  upd_shared (put_session session) (rebind_stream_fn a).

(** @src src/agent/checkpointing.rs:140-164 [Agent::restore_from_checkpoint] *)
Definition restore_from_checkpoint (c : Checkpoint) a : Agent X * result unit IoError :=
  let '(a, r) := ensure_idle_for_restore a in
  match r with
  | Err e => (a, Err e)
  | Ok _ =>
    let restored_messages := checkpoint_restore_messages c (as_custom_message_registry (ag_settings a)) in
    match restore_session_state (ck_state c) with
    | Err e => (a, Err e)
    | Ok restored_state =>
      (install restored_messages (ck_system_prompt c) (ck_provider c) (ck_model_id c) restored_state a, Ok tt)
    end
  end.

(** @src src/agent/checkpointing.rs:171-186 [Agent::load_and_restore_checkpoint] *)
Definition load_and_restore_checkpoint (id : string) a : Agent X * result (option Checkpoint) IoError :=
  let '(a, r) := ensure_idle_for_restore a in
  match r with
  | Err e => (a, Err e)
  | Ok _ =>
    match as_checkpoint_store (ag_settings a) with
    | None => (a, Err (OtherIo "no checkpoint store configured"))
    | Some store =>
      let '(r, h) := store_load store id (ag_host a) in
      let a := upd_host (fun _ => h) a in
      match r with
      | Err e => (a, Err e)
      | Ok None => (a, Ok None)
      | Ok (Some checkpoint) =>
        let '(a, r) := restore_from_checkpoint checkpoint a in
        (a, match r with Ok _ => Ok (Some checkpoint) | Err e => Err e end)
      end
    end
  end.

(** @src src/agent/checkpointing.rs:207-258 [Agent::pause] *)
Definition pause a : Agent X * option LoopCheckpoint :=
  if negb (sh_loop_active (ag_shared a)) then (a, None) else
  let a := abort a in
  let pending_messages := clone_messages (sh_pending_snapshot (ag_shared a)) ++ ah_follow_up_queue (ag_host a) in
  let a := upd_host host_clear_follow_up a in
  let checkpoint_messages := match sh_context_snapshot (ag_shared a) with
                             | Some ctx => clone_messages ctx
                             | None => st_messages (ag_state a)
                             end in
  let m := st_model (ag_state a) in
  let '(now, h) := as_clock (ag_settings a) (ag_host a) in
  let a := upd_host (fun _ => h) a in
  let checkpoint := loop_checkpoint_new (st_system_prompt (ag_state a)) (ms_provider m) (ms_model_id m)
                      checkpoint_messages now in
  let checkpoint := with_pending_message_batch checkpoint pending_messages in
  let checkpoint := with_pending_steering_message_batch checkpoint (ah_steering_queue (ag_host a)) in
  let a := upd_host host_clear_steering a in
  (a, Some (match session_snapshot a with
            | Some v => loop_checkpoint_with_state checkpoint v
            | None => checkpoint
            end)).

(** @src src/agent/checkpointing.rs:280-328 [Agent::restore_from_loop_checkpoint] *)
Definition restore_from_loop_checkpoint (c : LoopCheckpoint) a : Agent X * result unit AgentError :=
  let registry := as_custom_message_registry (ag_settings a) in
  let restored_messages := loop_restore_messages c registry in
  match restored_messages with
  | [] => (a, Err NoMessages)
  | _ =>
    match restore_session_state (lc_state c) with
    | Err (WouldBlock e) | Err (InvalidData e) | Err (OtherIo e) => (a, Err (StreamError [e]))
    | Ok restored_state =>
      let a := install restored_messages (lc_system_prompt c) (lc_provider c) (lc_model_id c) restored_state a in
      let a := clear_queues a in
      let a := foldl (fun a m => follow_up m a) a (restore_pending_messages c registry) in
      let a := foldl (fun a m => steer m a) a (restore_pending_steering_messages c registry) in
      (a, Ok tt)
    end
  end.

(** @src src/agent/checkpointing.rs:271-278 [Agent::resume_stream] *)
Definition resume_stream (c : LoopCheckpoint) a : Agent X * result (Launch X) AgentError :=
  let '(a, r) := check_not_running a in
  match r with
  | Err e => (a, Err e)
  | Ok _ =>
    let '(a, r) := restore_from_loop_checkpoint c a in
    match r with
    | Err e => (a, Err e)
    | Ok _ => continue_stream a
    end
  end.

End Ops.
