(* ===== verification/AgentLife.v ===== *)
(** * The life of an agent: at most one run goes on

    The host's calls on an agent and what the running loop does to the state it
    shares are steps of a transition system.  In every reachable state the
    active run is the one the agent would abort, its stream is still held by
    the host, and every other run has ended or is cancelled. *)
From S2P Require Export AgentOps StreamLoopSpec.
Open Scope list_scope.

Section Life.
Context `{E : Ext} {X : Type}.

#[local] Abbreviation H := (AHost X).

(** An agent, the runs it has started, the streams the host still holds and the
    runs whose [AgentEnd] it has been given. *)
Record Life := MkLife {
  lf_agent : Agent X;
  lf_started : list nat;
  lf_held : list nat;
  lf_ended : list nat;
}.

Definition active (a : Agent X) : bool := sh_loop_active (ag_shared a).
Definition generation (a : Agent X) : nat := sh_generation (ag_shared a).
Definition cancelled (a : Agent X) (g : nat) : Prop := g ∈ sh_cancelled (ag_shared a).

Definition drop_held (g : nat) (held : list nat) : list nat := List.filter (fun g' => negb (g =? g')%nat) held.

Definition is_agent_end (e : AgentEvent) : bool := match e with AgentEnd _ => true | _ => false end.

Definition end_if (e : AgentEvent) (g : nat) (ended : list nat) : list nat :=
  if is_agent_end e then g :: ended else ended.

(** What changes neither a flag nor the token that [abort] cancels. *)
Definition keeps_flags (f : Agent X -> Agent X) : Prop :=
  forall a, active (f a) = active a /\ generation (f a) = generation a
    /\ sh_cancelled (ag_shared (f a)) = sh_cancelled (ag_shared a)
    /\ ag_abort_controller (f a) = ag_abort_controller a.

(** A launched run: its stream goes to the host. *)
Definition launched (r : Agent X * result (Launch X) AgentError) (s : Life) : Life :=
  match r with
  | (a, Ok l) => MkLife a (la_generation l :: lf_started s) (la_generation l :: lf_held s) (lf_ended s)
  | (a, Err _) => MkLife a (lf_started s) (lf_held s) (lf_ended s)
  end.

Definition with_agent (a : Agent X) (s : Life) : Life := MkLife a (lf_started s) (lf_held s) (lf_ended s).

(** The host feeds an agent the events of its current run; streams of earlier runs
    it only drops.  [LifeLoop] is a step of the loop or of the host that leaves
    the flags alone: a poll, a snapshot, a session write, a queued message, a
    setting. *)
Inductive life_step : Life -> Life -> Prop :=
| LifePrompt s input : life_step s (launched (prompt_stream input (lf_agent s)) s)
| LifeContinue s : life_step s (launched (continue_stream (lf_agent s)) s)
| LifeResume s c : life_step s (launched (resume_stream c (lf_agent s)) s)
| LifeHandle s e :
    generation (lf_agent s) ∈ lf_held s ->
    life_step s (MkLife (handle_stream_event e (lf_agent s)) (lf_started s) (lf_held s)
                   (end_if e (generation (lf_agent s)) (lf_ended s)))
| LifeCollect s shared e :
    generation (lf_agent s) ∈ lf_held s ->
    life_step s (MkLife (collect_event shared e (lf_agent s)) (lf_started s) (lf_held s)
                   (end_if e (generation (lf_agent s)) (lf_ended s)))
| LifeCollected s shared events :
    generation (lf_agent s) ∈ lf_held s ->
    life_step s (MkLife (fst (collect_stream shared (generation (lf_agent s)) events (lf_agent s)))
                   (lf_started s) (drop_held (generation (lf_agent s)) (lf_held s)) (lf_ended s))
| LifeDrop s g :
    g ∈ lf_held s ->
    life_step s (MkLife (drop_guard g (lf_agent s)) (lf_started s) (drop_held g (lf_held s)) (lf_ended s))
| LifeAbort s : life_step s (with_agent (abort (lf_agent s)) s)
| LifeReset s : life_step s (with_agent (reset (lf_agent s)) s)
| LifePause s : life_step s (with_agent (fst (pause (lf_agent s))) s)
| LifeRestore s c : life_step s (with_agent (fst (restore_from_checkpoint c (lf_agent s))) s)
| LifeLoop s f : keeps_flags f -> life_step s (with_agent (f (lf_agent s)) s).

Inductive reachable (a0 : Agent X) : Life -> Prop :=
| reach_start : reachable a0 (MkLife a0 [] [] [])
| reach_step s s' : reachable a0 s -> life_step s s' -> reachable a0 s'.

(** ** What the operations do to the flags *)

Lemma keeps_flags_state f : keeps_flags (upd_state f).
Proof. done. Qed.
Lemma keeps_flags_host f : keeps_flags (upd_host f).
Proof. done. Qed.
Lemma keeps_flags_dispatch e : keeps_flags (dispatch_event e).
Proof. done. Qed.
Lemma keeps_flags_compose f g : keeps_flags f -> keeps_flags g -> keeps_flags (fun a => f (g a)).
Proof.
  intros Hf Hg a. destruct (Hf (g a)) as (-> & -> & -> & ->). apply Hg.
Qed.

(** The queue operations and the loop's polls are steps of this kind. *)
Lemma keeps_flags_steer m : keeps_flags (steer m).
Proof. done. Qed.
Lemma keeps_flags_polls : keeps_flags (fun a => snd (loop_polls_steering a)) /\ keeps_flags (fun a => snd (loop_polls_follow_up a)).
Proof.
  split; intros a; unfold loop_polls_steering, loop_polls_follow_up.
  - by destruct (queue_poll_steering _ _).
  - by destruct (queue_poll_follow_up _ _).
Qed.
Lemma keeps_flags_set_model m : keeps_flags (set_model m).
Proof.
  intros a. unfold set_model, announce_model. by destruct (List.find _ _) as [[]|], (bool_decide _).
Qed.

Record same_flags (a a' : Agent X) : Prop := {
  same_active : active a' = active a;
  same_generation : generation a' = generation a;
  same_cancelled : sh_cancelled (ag_shared a') = sh_cancelled (ag_shared a);
  same_abort : ag_abort_controller a' = ag_abort_controller a;
}.

Lemma handle_flags e a :
  let a' := handle_stream_event e a in
  active a' = (if is_agent_end e then false else active a) /\ generation a' = generation a
  /\ sh_cancelled (ag_shared a') = sh_cancelled (ag_shared a) /\ ag_abort_controller a' = ag_abort_controller a.
Proof.
  unfold handle_stream_event. destruct e; try done. by destruct (am_error_message _).
Qed.

Lemma collect_flags shared e a :
  let a' := collect_event shared e a in
  active a' = (if is_agent_end e then false else active a) /\ generation a' = generation a
  /\ sh_cancelled (ag_shared a') = sh_cancelled (ag_shared a) /\ ag_abort_controller a' = ag_abort_controller a.
Proof. unfold collect_event. by destruct e. Qed.

Lemma collects_flags shared es a :
  let a' := foldl (fun a e => collect_event shared e a) a es in
  generation a' = generation a /\ sh_cancelled (ag_shared a') = sh_cancelled (ag_shared a)
  /\ ag_abort_controller a' = ag_abort_controller a.
Proof.
  revert a. induction es as [|e es IH]; intros a; [done|]. cbn.
  destruct (IH (collect_event shared e a)) as (-> & -> & ->). destruct (collect_flags shared e a) as (_ & H1 & H2 & H3). done.
Qed.

(** A started run is the current one, and cancellable. *)
Lemma start_loop_flags input c a :
  let '(a', l) := start_loop input c a in
  active a' = true /\ generation a' = S (generation a) /\ la_generation l = S (generation a)
  /\ sh_cancelled (ag_shared a') = sh_cancelled (ag_shared a) /\ ag_abort_controller a' = Some (S (generation a)).
Proof.
  unfold start_loop, messages_for_loop.
  destruct c; cbn; [|done]. by destruct (match last _ with Some m => _ | None => _ end).
Qed.

Lemma install_flags ms p pr mi s a :
  let a' := install ms p pr mi s a in
  active a' = active a /\ generation a' = generation a
  /\ sh_cancelled (ag_shared a') = sh_cancelled (ag_shared a) /\ ag_abort_controller a' = None.
Proof. unfold install, rebind_stream_fn. by destruct (List.find _ _) as [[]|]. Qed.

Lemma follow_ups_flags ms a : same_flags a (foldl (fun a m => follow_up m a) a ms).
Proof. revert a. induction ms as [|m ms IH]; intros a; [done|]. cbn. by destruct (IH (follow_up m a)). Qed.
Lemma steers_flags ms a : same_flags a (foldl (fun a m => steer m a) a ms).
Proof. revert a. induction ms as [|m ms IH]; intros a; [done|]. cbn. by destruct (IH (steer m a)). Qed.

(** ** The invariant *)

Record life_inv (s : Life) : Prop := {
  inv_active : active (lf_agent s) = true ->
    generation (lf_agent s) ∈ lf_held s /\ generation (lf_agent s) ∈ lf_started s
    /\ ag_abort_controller (lf_agent s) = Some (generation (lf_agent s));
  inv_bound : forall g, g ∈ lf_started s -> g <= generation (lf_agent s);
  inv_held : forall g, g ∈ lf_held s -> g ∈ lf_started s;
  inv_runs : forall g, g ∈ lf_started s ->
    (active (lf_agent s) = true /\ g = generation (lf_agent s))
    \/ cancelled (lf_agent s) g \/ g ∈ lf_ended s;
}.

(** A step that changes no flag, or only takes the agent out of its run. *)
Lemma inv_quiet s a :
  life_inv s -> same_flags (lf_agent s) a -> life_inv (with_agent a s).
Proof.
  intros [Ha Hb Hh Hr] [H1 H2 H3 H4]. unfold with_agent. split; cbn; unfold cancelled; rewrite ?H1, ?H2, ?H3, ?H4; auto.
Qed.

Lemma drop_held_spec g g' held : g' ∈ drop_held g held <-> g' ∈ held /\ g' <> g.
Proof.
  unfold drop_held. rewrite !list_elem_of_In, filter_In, negb_true_iff, Nat.eqb_neq. naive_solver.
Qed.

Lemma inv_idle_start s input c a :
  life_inv s -> same_flags (lf_agent s) a -> active a = false ->
  life_inv (launched (let '(a, l) := start_loop input c a in (a, Ok l)) s).
Proof.
  intros [Ha Hb Hh Hr] [H1 H2 H3 H4] Hidle. pose proof (start_loop_flags input c a) as Hs.
  destruct (start_loop input c a) as [a' l]. destruct Hs as (Hs1 & Hs2 & Hs3 & Hs4 & Hs5).
  cbn. split; cbn; unfold cancelled; rewrite ?Hs1, ?Hs2, ?Hs3, ?Hs4, ?Hs5, ?H2, ?H3.
  - intros _. split_and!; [by left..|done].
  - intros g [->|Hg]%elem_of_cons; [done|]. specialize (Hb g Hg). lia.
  - intros g [->|Hg]%elem_of_cons; [by left|]. right. by apply Hh.
  - intros g [->|Hg]%elem_of_cons; [by left|]. right. destruct (Hr g Hg) as [[Hact _]|Hc]; [congruence|]. done.
Qed.

Lemma inv_check s a r :
  check_not_running (lf_agent s) = (a, r) -> same_flags (lf_agent s) a /\ (r = Ok tt -> active a = false).
Proof.
  unfold check_not_running. intros [= <- <-]. split; [done|]. unfold active. cbn.
  by destruct (sh_loop_active _).
Qed.

Lemma inv_prompt s input : life_inv s -> life_inv (launched (prompt_stream input (lf_agent s)) s).
Proof.
  intros Hs. unfold prompt_stream. destruct (check_not_running _) as [a r] eqn:Hc.
  destruct (inv_check _ _ _ Hc) as [Hf Hi]. destruct r as [[]|e]; [|by apply inv_quiet].
  apply inv_idle_start; auto.
Qed.

(** The same for a restored agent, whose abort token is gone. *)
Lemma inv_idle_continue s a :
  life_inv s -> active a = false -> active (lf_agent s) = false -> generation a = generation (lf_agent s) ->
  sh_cancelled (ag_shared a) = sh_cancelled (ag_shared (lf_agent s)) ->
  life_inv (launched (continue_stream a) s).
Proof.
  intros Hs Hi Hi0 Hg Hcn. pose proof Hs as [Ha Hb Hh Hr].
  unfold continue_stream. destruct (check_not_running a) as [a1 r] eqn:Hc.
  assert (Hf : same_flags a a1 /\ r = Ok tt).
  { unfold check_not_running in Hc. injection Hc as <- <-. unfold active in Hi. rewrite Hi. by split. }
  destruct Hf as [[H1 H2 H3 H4] ->].
  assert (Hq : life_inv (with_agent a1 s)).
  { split; unfold with_agent; cbn; unfold cancelled; rewrite ?H1, ?H2, ?H3, ?Hi, ?Hg, ?Hcn; try done.
    intros g Hin. right. destruct (Hr g Hin) as [[Hact _]|?]; [congruence|done]. }
  destruct (validate_continue a1); [|exact Hq].
  assert (Hi1 : active a1 = false) by (rewrite H1; exact Hi).
  pose proof (inv_idle_start (with_agent a1 s) [] true a1 Hq (Build_same_flags a1 a1 eq_refl eq_refl eq_refl eq_refl) Hi1) as Hl.
  destruct (start_loop [] true a1) as [a2 l]. exact Hl.
Qed.

Lemma inv_continue s : life_inv s -> life_inv (launched (continue_stream (lf_agent s)) s).
Proof.
  intros Hs. destruct (active (lf_agent s)) eqn:Hact; [|by apply inv_idle_continue].
  unfold continue_stream, check_not_running. unfold active in Hact. rewrite Hact. by apply inv_quiet.
Qed.

Lemma restore_loop_flags c a :
  let '(a', r) := restore_from_loop_checkpoint c a in
  active a' = active a /\ generation a' = generation a /\ sh_cancelled (ag_shared a') = sh_cancelled (ag_shared a)
  /\ (ag_abort_controller a' = ag_abort_controller a \/ r = Ok tt).
Proof.
  unfold restore_from_loop_checkpoint. destruct (loop_restore_messages _ _) as [|m ms]; [by split_and!; try left|].
  destruct (restore_session_state _) as [s|[]]; try (by split_and!; try left).
  pose proof (install_flags (m :: ms) (lc_system_prompt c) (lc_provider c) (lc_model_id c) s a) as (I1 & I2 & I3 & _).
  revert I1 I2 I3. generalize (install (m :: ms) (lc_system_prompt c) (lc_provider c) (lc_model_id c) s a).
  intros b I1 I2 I3. cbn zeta.
  generalize (restore_pending_messages c (as_custom_message_registry (ag_settings a)))
    (restore_pending_steering_messages c (as_custom_message_registry (ag_settings a))). intros fs ss.
  destruct (steers_flags ss (foldl (fun a m => follow_up m a) (clear_queues b) fs)) as [-> -> -> _].
  destruct (follow_ups_flags fs (clear_queues b)) as [-> -> -> _].
  split_and!; [exact I1|exact I2|exact I3|by right].
Qed.

Lemma inv_resume s c : life_inv s -> life_inv (launched (resume_stream c (lf_agent s)) s).
Proof.
  intros Hs. unfold resume_stream. destruct (check_not_running _) as [a r] eqn:Hc.
  destruct (inv_check _ _ _ Hc) as [Hf Hi]. destruct r as [[]|e]; [|by apply inv_quiet].
  specialize (Hi eq_refl). pose proof (restore_loop_flags c a) as Hl.
  destruct Hf as [H1 H2 H3 H4].
  destruct (restore_from_loop_checkpoint c a) as [a' r] eqn:Hrs. destruct Hl as (L1 & L2 & L3 & L4).
  destruct r as [[]|e].
  - apply inv_idle_continue; [done|congruence|congruence|congruence|congruence].
  - destruct L4 as [L4|?]; [|done]. apply inv_quiet; [done|]. split; congruence.
Qed.

Lemma inv_end s a g :
  life_inv s -> active a = false \/ active a = active (lf_agent s) ->
  (active a = false -> active (lf_agent s) = true -> g = generation (lf_agent s)) ->
  generation a = generation (lf_agent s) ->
  sh_cancelled (ag_shared a) = sh_cancelled (ag_shared (lf_agent s)) ->
  ag_abort_controller a = ag_abort_controller (lf_agent s) ->
  life_inv (MkLife a (lf_started s) (lf_held s)
              (if active a then lf_ended s else g :: lf_ended s)).
Proof.
  intros [Ha Hb Hh Hr] Hact Hg H2 H3 H4. split; cbn; unfold cancelled; rewrite ?H2, ?H3, ?H4; auto.
  - intros Ht. apply Ha. destruct Hact; congruence.
  - intros g' Hg'. destruct (active a) eqn:Haa.
    + destruct Hact as [?|Hact]; [done|]. specialize (Hr g' Hg'). by rewrite <- Hact in Hr.
    + right. destruct (Hr g' Hg') as [[Ht ->]|[?|?]]; [|by left|by right; right].
      right. rewrite (Hg eq_refl Ht). by left.
Qed.

Lemma inv_event s a e :
  life_inv s -> active a = (if is_agent_end e then false else active (lf_agent s)) ->
  generation a = generation (lf_agent s) ->
  sh_cancelled (ag_shared a) = sh_cancelled (ag_shared (lf_agent s)) ->
  ag_abort_controller a = ag_abort_controller (lf_agent s) ->
  life_inv (MkLife a (lf_started s) (lf_held s) (end_if e (generation (lf_agent s)) (lf_ended s))).
Proof.
  intros Hs Ha H2 H3 H4. unfold end_if. destruct (is_agent_end e).
  - pose proof (inv_end s a (generation (lf_agent s)) Hs (or_introl Ha) (fun _ _ => eq_refl) H2 H3 H4) as Hi.
    by rewrite Ha in Hi.
  - destruct Hs as [A B C D]. split; cbn; unfold cancelled; rewrite ?Ha, ?H2, ?H3, ?H4; auto.
Qed.

(** Dropping the current run's stream ends the run; another one's changes nothing. *)
Lemma inv_drop s g : life_inv s ->
  life_inv (MkLife (drop_guard g (lf_agent s)) (lf_started s) (drop_held g (lf_held s)) (lf_ended s)).
Proof.
  intros [Ha Hb Hh Hr]. unfold drop_guard. fold (generation (lf_agent s)).
  destruct (Nat.eqb_spec (generation (lf_agent s)) g) as [<-|Hne].
  - split; cbn; try done.
    + intros g' [Hg' _]%drop_held_spec. by apply Hh.
    + intros g' Hg'. right. unfold cancelled. cbn.
      destruct (Hr g' Hg') as [[_ ->]|[Hc|?]]; [left; set_solver|left; unfold cancelled in Hc; set_solver|by right].
  - split; cbn; auto.
    + intros Ht. destruct (Ha Ht) as (H1 & H2 & H3). split_and!; try done. by apply drop_held_spec.
    + intros g' [Hg' _]%drop_held_spec. by apply Hh.
Qed.

Lemma inv_collected s shared events : life_inv s ->
  life_inv (MkLife (fst (collect_stream shared (generation (lf_agent s)) events (lf_agent s)))
              (lf_started s) (drop_held (generation (lf_agent s)) (lf_held s)) (lf_ended s)).
Proof.
  intros [Ha Hb Hh Hr]. unfold collect_stream. cbn [fst].
  destruct (collects_flags shared events (lf_agent s)) as (G & C & A).
  set (a1 := foldl _ _ _) in *. unfold drop_guard.
  cbn -[drop_held]. fold (generation a1). rewrite G, Nat.eqb_refl.
  split; unfold active, generation, cancelled; cbn -[drop_held]; fold (generation a1); rewrite ?G, ?C; try done.
  - intros g' [Hg' _]%drop_held_spec. by apply Hh.
  - intros g' Hg'. right. destruct (Hr g' Hg') as [[_ ->]|[Hc|?]]; [left; set_solver|left; unfold cancelled in Hc; set_solver|by right].
Qed.

Lemma inv_reset s : life_inv s -> life_inv (with_agent (reset (lf_agent s)) s).
Proof.
  intros [Ha Hb Hh Hr]. unfold reset, abort.
  destruct (ag_abort_controller (lf_agent s)) as [t|] eqn:Hab.
  all: split; unfold with_agent, active, generation, cancelled in *; cbn in *; try done.
  all: try (intros g Hg; specialize (Hb g Hg); lia).
  all: intros g Hg; right; destruct (Hr g Hg) as [[Ht ->]|[Hc|?]]; [|left; set_solver|by right].
  all: destruct (Ha Ht) as (_ & _ & Heq); simplify_eq; left; set_solver.
Qed.

Lemma inv_cancel_more s t : life_inv s -> life_inv (with_agent (upd_shared (cancel_token t) (lf_agent s)) s).
Proof.
  intros [Ha Hb Hh Hr]. split; unfold with_agent, active, generation, cancelled in *; cbn in *; auto.
  intros g Hg. destruct (Hr g Hg) as [?|[?|?]]; [by left|right; left; set_solver|by right; right].
Qed.

Lemma inv_abort s : life_inv s -> life_inv (with_agent (abort (lf_agent s)) s).
Proof.
  intros Hs. unfold abort. destruct (ag_abort_controller _); [by apply inv_cancel_more|by apply inv_quiet].
Qed.

Lemma inv_pause s : life_inv s -> life_inv (with_agent (fst (pause (lf_agent s))) s).
Proof.
  intros Hs. unfold pause. destruct (negb _); [by apply inv_quiet|].
  apply inv_abort in Hs. apply (inv_quiet (with_agent (abort (lf_agent s)) s)); [done|].
  cbn. by destruct (as_clock _ _).
Qed.

Lemma inv_restore s c : life_inv s -> life_inv (with_agent (fst (restore_from_checkpoint c (lf_agent s))) s).
Proof.
  intros Hs. unfold restore_from_checkpoint, ensure_idle_for_restore.
  destruct (check_not_running _) as [a r] eqn:Hc. destruct (inv_check _ _ _ Hc) as [Hf Hi].
  destruct r as [[]|e]; [|by apply inv_quiet]. specialize (Hi eq_refl).
  destruct (restore_session_state _) as [st|e]; [|by apply inv_quiet]. cbn [fst].
  pose proof (install_flags (checkpoint_restore_messages c (as_custom_message_registry (ag_settings a)))
    (ck_system_prompt c) (ck_provider c) (ck_model_id c) st a) as (I1 & I2 & I3 & _). revert I1 I2 I3.
  generalize (install (checkpoint_restore_messages c (as_custom_message_registry (ag_settings a)))
    (ck_system_prompt c) (ck_provider c) (ck_model_id c) st a). intros b I1 I2 I3.
  destruct Hf as [H1 H2 H3 H4]. destruct Hs as [Ha Hb Hh Hr].
  split; unfold with_agent; cbn [lf_agent lf_started lf_held lf_ended]; unfold cancelled;
    rewrite ?I1, ?I2, ?I3, ?Hi, ?H2, ?H3; [done|exact Hb|exact Hh|].
  intros g Hg. right. destruct (Hr g Hg) as [[Ht _]|?]; [congruence|done].
Qed.

Lemma life_step_inv s s' : life_step s s' -> life_inv s -> life_inv s'.
Proof.
  intros Hstep Hs. destruct Hstep.
  - by apply inv_prompt.
  - by apply inv_continue.
  - by apply inv_resume.
  - destruct (handle_flags e (lf_agent s)) as (H1 & H2 & H3 & H4). by apply inv_event.
  - destruct (collect_flags shared e (lf_agent s)) as (H1 & H2 & H3 & H4). by apply inv_event.
  - by apply inv_collected.
  - by apply inv_drop.
  - by apply inv_abort.
  - by apply inv_reset.
  - by apply inv_pause.
  - by apply inv_restore.
  - match goal with Hf : keeps_flags _ |- _ => destruct (Hf (lf_agent s)) as (H1 & H2 & H3 & H4) end.
    by apply inv_quiet.
Qed.


End Life.

(** ** A concrete agent *)
Module Studio.
#[export] Existing Instance Toy.ext.

Definition app : Type := list (list AssistantMessageEvent).

(** Plays the next scripted response. *)
Definition play : StreamFn (AHost app) := fun _ _ _ h =>
  match ah_app h with
  | [] => ([], h)
  | r :: app' => (r, MkAHost (ah_steering_queue h) (ah_follow_up_queue h) app')
  end.

Definition lookup : AgentTool (AHost app) :=
  MkAgentTool "lookup" "finds things" (Toy.JObj "") false None (fun _ => None) None
    (fun _ _ _ session h => ([], Returns (tool_text "42"), session, h)).

(** Knows the notes of the application. *)
Definition registry : CustomMessageRegistry := {["note" := fun v => Ok (SerializedCustom "note" v)]}.

Definition settings (policies : list (PreTurnPolicy (H := AHost app))) : Settings app :=
  MkSettings None None SteeringOneAtATime FollowUpOneAtATime as_llm None None None
    (MkRetryStrategy (default_should_retry 3) (fun _ h => (5%N, h))) None false policies [] [] [] None None None
    Concurrent None None None None [] (fun h => (0%N, h)) 3 (Some registry) None None.

Definition agent (policies : list (PreTurnPolicy (H := AHost app))) (script : app) : Agent app :=
  MkAgent (MkAgentState "be brief" (Script.model "m") [lookup] [] false None ∅ None [Script.model "m"])
    (MkShared [] None session_new false 0 0 ∅) (MkAHost [] [] script) (settings policies) play
    [(Script.model "m", play)] ApprovalSmart None (listeners_new 1) [].
End Studio.

#[local] Existing Instance Toy.ext.


(** What the discipline of [LifeHandle] is for: an [AgentEnd] left over from a run that
    was reset marks the next run idle, so that a third one may start beside it. *)
Lemma stale_agent_end_lets_two_runs_go_on :
  let first := fst (prompt_stream [Demo.user "one"] (Studio.agent [] [])) in
  let second := fst (prompt_stream [Demo.user "two"] (reset first)) in
  let misled := handle_stream_event (AgentEnd []) second in
  exists third l, prompt_stream [Demo.user "three"] misled = (third, Ok l)
    /\ active second = true /\ generation second = 3 /\ la_generation l = 4
    /\ bool_decide (3 ∈ sh_cancelled (ag_shared third)) = false.
Proof. eexists _, _. split; [reflexivity|]. split_and!; reflexivity. Qed.
