(* ===== verification/AgentPause.v ===== *)
(** * Pausing, restoring and waiting

    A paused loop comes back as it was; a restore either happens completely or
    not at all, and leaves no call in the history without a tool; a stream
    dropped early loses no turn; and nobody waits for an agent that is idle. *)
From S2P Require Export AgentLife.
Open Scope string_scope.
Open Scope list_scope.

Section Pause.
Context `{E : Ext} {X : Type}.

#[local] Abbreviation H := (AHost X).
Implicit Types (a : Agent X).

(** ** Restored tools *)

Definition tool_names a : list string := map td_name (st_tools (ag_state a)).

Lemma elem_of_missing_tools known names name :
  name ∈ missing_tools known names <-> name ∈ names /\ name ∉ known.
Proof.
  revert known. induction names as [|n names IH]; intros known; cbn.
  - by rewrite elem_of_nil; naive_solver.
  - destruct (bool_decide_reflect (n ∈ known)).
    + rewrite IH, elem_of_cons. naive_solver.
    + rewrite !elem_of_cons, IH, elem_of_cons. destruct (decide (name = n)); naive_solver.
Qed.

Lemma missing_tools_NoDup known names : NoDup (missing_tools known names).
Proof.
  revert known. induction names as [|n names IH]; intros known; cbn; [constructor|].
  destruct (bool_decide _); [done|]. constructor; [|done]. rewrite elem_of_missing_tools. set_solver.
Qed.

Lemma map_noop_names missing : map (fun n => td_name (noop_tool (X := X) n)) missing = missing.
Proof. by rewrite map_id. Qed.

(** Every called tool has an entry, and no name gets a second one. *)
Lemma inject_noop_tools_spec a :
  let a' := inject_noop_tools a in
  (forall name, name ∈ called_tools (st_messages (ag_state a)) -> name ∈ tool_names a')
  /\ (NoDup (tool_names a) -> NoDup (tool_names a'))
  /\ (exists added, st_tools (ag_state a') = st_tools (ag_state a) ++ added).
Proof.
  unfold tool_names. cbn. rewrite map_app, map_map, map_noop_names. split_and!.
  - intros name Hn. rewrite elem_of_app, elem_of_missing_tools.
    destruct (decide (name ∈ map td_name (st_tools (ag_state a)))); [by left|by right].
  - intros Hnd. apply NoDup_app. split_and!; [done| |apply missing_tools_NoDup].
    intros n Hn. rewrite elem_of_missing_tools. naive_solver.
  - by eexists.
Qed.

(** ** What a restore leaves *)

(** Messages, prompt, model and session are those given; every called tool exists. *)
Record installed (ms : list AgentMessage) (prompt provider model_id : string) (session : SessionState) a : Prop := {
  in_messages : st_messages (ag_state a) = ms;
  in_prompt : st_system_prompt (ag_state a) = prompt;
  in_provider : ms_provider (st_model (ag_state a)) = provider;
  in_model_id : ms_model_id (st_model (ag_state a)) = model_id;
  in_session : sh_session (ag_shared a) = session;
  in_tools : forall name, name ∈ called_tools ms -> name ∈ tool_names a;
  in_clean : st_is_running (ag_state a) = false /\ st_error (ag_state a) = None
    /\ st_stream_message (ag_state a) = None /\ st_pending_tool_calls (ag_state a) = ∅
    /\ sh_pending_snapshot (ag_shared a) = [] /\ sh_context_snapshot (ag_shared a) = None;
}.

Lemma install_installed ms p pr mi s a : installed ms p pr mi s (install ms p pr mi s a).
Proof.
  destruct (inject_noop_tools_spec (upd_state (put_messages ms) (clear_transient_runtime_state a))) as (Ht & _ & _).
  unfold install, rebind_stream_fn. destruct (List.find _ _) as [[]|]; split; try done.
Qed.

Lemma install_settings ms p pr mi s a :
  ag_settings (install ms p pr mi s a) = ag_settings a /\ ag_host (install ms p pr mi s a) = ag_host a.
Proof. unfold install, rebind_stream_fn. by destruct (List.find _ _) as [[]|]. Qed.

(** The snapshot of a session reads back as its data with nothing pending. *)
Lemma restore_session_roundtrip a :
  restore_session_state (session_snapshot a) = Ok (MkSessionState (ss_data (sh_session (ag_shared a))) ∅).
Proof.
  unfold session_snapshot. destruct (bool_decide_reflect (ss_data (sh_session (ag_shared a)) = ∅)) as [->|]; [done|].
  cbn. unfold restore_from_snapshot, snapshot. by rewrite json_as_map_of_map.
Qed.

(** C39: restoring a checkpoint happens completely or not at all: it fails exactly
    when a run is active ([WouldBlock]) or, on an idle agent, when the session
    snapshot is corrupt ([InvalidData]), and then nothing changes but the
    [is_running] flag brought up to date; otherwise messages, prompt, model and
    session are the checkpoint's, the traces of earlier runs are gone, and
    every tool the restored history calls exists. *)
Theorem restore_is_atomic c a :
  let '(a', r) := restore_from_checkpoint c a in
  match r with
  | Err e =>
    a' = upd_state (put_running (active a)) a
    /\ if active a then e = WouldBlock "cannot restore checkpoint while agent is running"
       else exists v msg, ck_state c = Some v /\ restore_from_snapshot v = Err msg
                          /\ e = InvalidData ("corrupted session state snapshot: " ++ msg)
  | Ok _ =>
    active a = false
    /\ exists session, restore_session_state (ck_state c) = Ok session
       /\ installed (checkpoint_restore_messages c (as_custom_message_registry (ag_settings a)))
            (ck_system_prompt c) (ck_provider c) (ck_model_id c) session a'
  end.
Proof.
  unfold restore_from_checkpoint, ensure_idle_for_restore, check_not_running.
  fold (active a). destruct (active a) eqn:Ha; cbn; [done|].
  destruct (restore_session_state (ck_state c)) as [s|e] eqn:Hs.
  - split; [done|]. exists s. split; [done|]. apply install_installed.
  - split; [done|]. unfold restore_session_state in Hs. destruct (ck_state c) as [v|]; [|done].
    destruct (restore_from_snapshot v) as [|msg] eqn:Hv; [done|]. injection Hs as <-. by exists v, msg.
Qed.

(** ** Pause and resume *)

Lemma follow_ups_host ms a :
  foldl (fun a m => follow_up m a) a ms
  = upd_host (fun h => MkAHost (ah_steering_queue h) (ah_follow_up_queue h ++ ms) (ah_app h)) a.
Proof.
  revert a. induction ms as [|m ms IH]; intros a; cbn.
  - destruct a as [? ? [] ? ? ? ? ? ? ?]. unfold upd_host. cbn. by rewrite app_nil_r.
  - rewrite IH. destruct a as [? ? [] ? ? ? ? ? ? ?]. unfold follow_up, upd_host, host_follow_up. cbn. by rewrite <- app_assoc.
Qed.

Lemma steers_host ms a :
  foldl (fun a m => steer m a) a ms
  = upd_host (fun h => MkAHost (ah_steering_queue h ++ ms) (ah_follow_up_queue h) (ah_app h)) a.
Proof.
  revert a. induction ms as [|m ms IH]; intros a; cbn.
  - destruct a as [? ? [] ? ? ? ? ? ? ?]. unfold upd_host. cbn. by rewrite app_nil_r.
  - rewrite IH. destruct a as [? ? [] ? ? ? ? ? ? ?]. unfold steer, upd_host, host_steer. cbn. by rewrite <- app_assoc.
Qed.

Lemma restore_loop_spec c a m ms session :
  loop_restore_messages c (as_custom_message_registry (ag_settings a)) = m :: ms ->
  restore_session_state (lc_state c) = Ok session ->
  exists a', restore_from_loop_checkpoint c a = (a', Ok tt)
    /\ installed (m :: ms) (lc_system_prompt c) (lc_provider c) (lc_model_id c) session a'
    /\ ah_follow_up_queue (ag_host a') = restore_pending_messages c (as_custom_message_registry (ag_settings a))
    /\ ah_steering_queue (ag_host a') = restore_pending_steering_messages c (as_custom_message_registry (ag_settings a)).
Proof.
  intros Hm Hs. unfold restore_from_loop_checkpoint. rewrite Hm, Hs.
  pose proof (install_installed (m :: ms) (lc_system_prompt c) (lc_provider c) (lc_model_id c) session a) as Hi.
  revert Hi. generalize (install (m :: ms) (lc_system_prompt c) (lc_provider c) (lc_model_id c) session a). intros b Hi.
  rewrite follow_ups_host, steers_host. eexists. split; [done|]. split_and!; [|done|done].
  by destruct Hi.
Qed.

(** What a pause captures of a running agent. *)
Definition paused_messages a : list AgentMessage :=
  match sh_context_snapshot (ag_shared a) with
  | Some ctx => clone_messages ctx
  | None => st_messages (ag_state a)
  end.
Definition paused_follow_ups a : list AgentMessage :=
  clone_messages (sh_pending_snapshot (ag_shared a)) ++ ah_follow_up_queue (ag_host a).

(** The application's clock leaves the queues alone. *)
Definition clock_frame a : Prop :=
  forall h : H, ah_steering_queue (snd (as_clock (ag_settings a) h)) = ah_steering_queue h
    /\ ah_follow_up_queue (snd (as_clock (ag_settings a) h)) = ah_follow_up_queue h.

Lemma pause_captures a registry :
  active a = true -> clock_frame a ->
  exists a' c, pause a = (a', Some c)
    /\ loop_restore_messages c registry = filtermap (stored registry) (paused_messages a)
    /\ restore_pending_messages c registry = filtermap (stored registry) (paused_follow_ups a)
    /\ restore_pending_steering_messages c registry = filtermap (stored registry) (ah_steering_queue (ag_host a))
    /\ restore_session_state (lc_state c) = Ok (MkSessionState (ss_data (sh_session (ag_shared a))) ∅)
    /\ lc_system_prompt c = st_system_prompt (ag_state a)
    /\ lc_provider c = ms_provider (st_model (ag_state a)) /\ lc_model_id c = ms_model_id (st_model (ag_state a))
    /\ ah_steering_queue (ag_host a') = [] /\ ah_follow_up_queue (ag_host a') = []
    /\ active a' = true /\ ag_abort_controller a' = ag_abort_controller a
    /\ (forall g, ag_abort_controller a = Some g -> cancelled a' g).
Proof.
  intros Hact Hc. unfold pause. fold (active a). rewrite Hact. cbn [negb].
  set (b := abort a).
  assert (Hb : ag_state b = ag_state a /\ ag_host b = ag_host a /\ ag_settings b = ag_settings a
    /\ sh_pending_snapshot (ag_shared b) = sh_pending_snapshot (ag_shared a)
    /\ sh_context_snapshot (ag_shared b) = sh_context_snapshot (ag_shared a)
    /\ sh_session (ag_shared b) = sh_session (ag_shared a) /\ active b = true
    /\ ag_abort_controller b = ag_abort_controller a
    /\ (forall g, ag_abort_controller a = Some g -> cancelled b g)).
  { unfold b, abort. destruct (ag_abort_controller a) as [t|] eqn:Ht; split_and!; try done.
    intros g [= <-]. unfold cancelled. cbn. set_solver. }
  clearbody b. destruct Hb as (B1 & B2 & B3 & B4 & B5 & B6 & B7 & B8 & B9). cbn. rewrite B1, B2, B3, B4, B5.
  pose proof (Hc (host_clear_follow_up (ag_host a))) as [H1 H2].
  destruct (as_clock (ag_settings a) _) as [now h]. cbn in H1, H2. cbn. rewrite H1.
  eexists _, _. split; [done|].
  assert (Hsess : session_snapshot (upd_host (fun _ => host_clear_steering h) (upd_host (fun _ => h)
    (upd_host host_clear_follow_up b))) = session_snapshot a) by (unfold session_snapshot; cbn; by rewrite B6).
  match goal with |- context [session_snapshot ?x] => change (session_snapshot x) with (session_snapshot b) end.
  assert (Hsess' : session_snapshot b = session_snapshot a) by (unfold session_snapshot; by rewrite B6). rewrite Hsess'.
  pose proof (restore_session_roundtrip a) as Hr.
  unfold loop_restore_messages, restore_pending_messages, restore_pending_steering_messages.
  destruct (session_snapshot a) as [v|]; cbn; rewrite ?restore_serialize; split_and!; try done.
Qed.

(** A paused loop comes back as it was: pausing an active agent cancels its run,
    empties its queues into the checkpoint and leaves it busy until its stream
    goes; restoring that checkpoint - into the same agent or another one with
    the registry - gives the loop's messages, the follow-ups (those the loop
    had already taken first), the steering messages, the session data, the
    prompt and the model, and a tool for every call.  Messages the registry
    cannot read back are the only loss. *)
Lemma pause_resume_roundtrip a a2 :
  active a = true -> clock_frame a ->
  let registry := as_custom_message_registry (ag_settings a2) in
  let queued := paused_follow_ups a ++ ah_steering_queue (ag_host a) in
  all_faithful registry (paused_messages a ++ queued) -> paused_messages a <> [] ->
  exists a1 c a3, pause a = (a1, Some c)
    /\ active a1 = true /\ ah_steering_queue (ag_host a1) = [] /\ ah_follow_up_queue (ag_host a1) = []
    /\ (forall g, ag_abort_controller a = Some g -> cancelled a1 g)
    /\ restore_from_loop_checkpoint c a2 = (a3, Ok tt)
    /\ installed (paused_messages a) (st_system_prompt (ag_state a)) (ms_provider (st_model (ag_state a)))
         (ms_model_id (st_model (ag_state a))) (MkSessionState (ss_data (sh_session (ag_shared a))) ∅) a3
    /\ ah_follow_up_queue (ag_host a3) = paused_follow_ups a
    /\ ah_steering_queue (ag_host a3) = ah_steering_queue (ag_host a).
Proof.
  intros Hact Hc registry queued Hf Hne.
  apply Forall_app in Hf as [Hm [Hq Hst]%Forall_app].
  destruct (pause_captures a registry Hact Hc) as (a1 & c & Hp & H1 & H2 & H3 & H4 & H5 & H6 & H7 & H8 & H9 & H10 & H11 & H12).
  rewrite stored_faithful in H1, H2, H3 by done.
  destruct (paused_messages a) as [|m ms] eqn:Hpm; [done|].
  destruct (restore_loop_spec c a2 m ms _ H1 H4) as (a3 & Hr & Hi & Hfu & Hsq).
  rewrite H5, H6, H7 in Hi. exists a1, c, a3. fold registry in Hfu, Hsq. split_and!; try done; congruence.
Qed.

(** ** A stream dropped early *)

(** The turns a list of events completes. *)
Fixpoint turns_of (es : list AgentEvent) : list AgentMessage :=
  match es with
  | [] => []
  | TurnEnd m tool_results _ _ :: es' => turn_messages m tool_results ++ turns_of es'
  | _ :: es' => turns_of es'
  end.

Lemma handle_messages e a :
  is_agent_end e = false ->
  st_messages (ag_state (handle_stream_event e a)) = st_messages (ag_state a) ++ turns_of [e].
Proof.
  intros He. unfold handle_stream_event. destruct e; try done; cbn; rewrite ?app_nil_r; try done.
  by destruct (am_error_message _).
Qed.

Lemma handle_all_messages es a :
  Forall (fun e => is_agent_end e = false) es ->
  st_messages (ag_state (foldl (fun a e => handle_stream_event e a) a es)) = st_messages (ag_state a) ++ turns_of es.
Proof.
  intros He. revert a. induction He as [|e es He _ IH]; intros a; [by rewrite app_nil_r|]. cbn [foldl].
  rewrite IH, handle_messages by done. rewrite <- app_assoc. f_equal. destruct e; cbn; by rewrite ?app_nil_r.
Qed.

Lemma drop_guard_messages g a : st_messages (ag_state (drop_guard g a)) = st_messages (ag_state a).
Proof. unfold drop_guard. by destruct (_ =? _)%nat. Qed.

(** Dropping a stream loses no history: a prompt on an idle agent, any number of
    its events handled, the stream dropped at any point before [AgentEnd]: the
    history holds what it held, the prompt (custom messages as their portable
    snapshots) and every turn whose [TurnEnd] was handled, in order; and the
    agent is idle again. *)
Lemma dropped_stream_keeps_history a input es :
  active a = false -> Forall (fun e => is_agent_end e = false) es ->
  exists a1 l, prompt_stream input a = (a1, Ok l)
    /\ let a2 := drop_guard (la_generation l) (foldl (fun a e => handle_stream_event e a) a1 es) in
       st_messages (ag_state a2) = clone_messages_for_send (st_messages (ag_state a) ++ input) ++ turns_of es
       /\ active a2 = false.
Proof.
  intros Ha Hes. unfold prompt_stream, check_not_running. fold (active a). rewrite Ha. cbn.
  eexists _, _. split; [done|]. split.
  - rewrite drop_guard_messages, handle_all_messages by done. done.
  - match goal with |- active (drop_guard _ ?b) = false => assert (Hg : generation b = S (generation a)) end.
    { match goal with |- generation (foldl _ ?b0 _) = _ => assert (Hb : generation b0 = S (generation a)) by done; revert Hb; generalize b0 end.
      clear Hes. induction es as [|e es IH]; intros b Hb; [done|]. cbn. apply IH.
      destruct (handle_flags e b) as (_ & -> & _). done. }
    revert Hg. match goal with |- generation ?b = _ -> _ => generalize b end. intros b Hg.
    unfold drop_guard. change (sh_generation (ag_shared b)) with (generation b). rewrite Hg.
    match goal with |- active (if (?n =? ?k)%nat then _ else _) = _ => change k with n end. by rewrite Nat.eqb_refl.
Qed.

End Pause.

(** ** Waiting for idle: [src/agent/control.rs] *)

Section Wait.
Context `{E : Ext} {X : Type}.
Implicit Types (a : Agent X).

(** Where the future is: a [Notified] created when [seen] notifications had been sent
    completes at a later one.
    @src src/agent/control.rs:9-24 [wait_for_idle_future] *)
Inductive Waiter :=
| Polling
| Registered (seen : nat)
| Sleeping (seen : nat)
| Returned.

(** @src src/agent/control.rs:9-24 [wait_for_idle_future] *)
Definition wait_step (s : Shared) (w : Waiter) : Waiter :=
  match w with
  | Polling => Registered (sh_notified s)
  | Registered seen => if sh_loop_active s then Sleeping seen else Returned
  | Sleeping seen => if (seen <? sh_notified s)%nat then Polling else Sleeping seen
  | Returned => Returned
  end.

(** The future borrows the agent, so beside it only stream guards go. *)
Inductive WaitEvent := WaiterRuns | StreamDropped (g : nat).

#[export] Instance WaitEvent_eq_dec : EqDecision WaitEvent.
Proof. solve_decision. Defined.

Definition wait_event (s : Agent X * Waiter) (e : WaitEvent) : Agent X * Waiter :=
  match e with
  | WaiterRuns => (fst s, wait_step (ag_shared (fst s)) (snd s))
  | StreamDropped g => (drop_guard g (fst s), snd s)
  end.

(** A sleeper has a notification to wake up to, or a run to wait for. *)
Definition wait_ok (s : Agent X * Waiter) : Prop :=
  match snd s with
  | Registered seen => seen <= sh_notified (ag_shared (fst s))
                       /\ (seen = sh_notified (ag_shared (fst s)) \/ active (fst s) = false)
  | Sleeping seen => seen <= sh_notified (ag_shared (fst s))
                     /\ (seen < sh_notified (ag_shared (fst s)) \/ active (fst s) = true)
  | Returned => active (fst s) = false
  | Polling => True
  end.

Lemma drop_guard_shared g a :
  drop_guard g a = a
  \/ active (drop_guard g a) = false
     /\ sh_notified (ag_shared (drop_guard g a)) = S (sh_notified (ag_shared a)).
Proof. unfold drop_guard. destruct (_ =? _)%nat; [right|left]; done. Qed.

Lemma wait_event_ok s e : wait_ok s -> wait_ok (wait_event s e).
Proof.
  destruct s as [a w], e as [|g]; unfold wait_ok; cbn.
  - destruct w as [|n|n|]; cbn -[Nat.ltb]; fold (active a); try done; [by auto| |].
    + intros [Hle [->|Hact]]; [|by rewrite Hact]. destruct (active a) eqn:Ha; by auto.
    + destruct (Nat.ltb_spec n (sh_notified (ag_shared a))); cbn; auto.
  - destruct (drop_guard_shared g a) as [->|[Hact Hn]]; [done|]. rewrite Hact, Hn.
    destruct w; intros Hw; try done; destruct Hw; (split; [lia|]); [by right|left; lia].
Qed.

(** The steps a waiter of an idle agent still takes. *)
Definition steps_to_return (s : Agent X * Waiter) : nat :=
  match snd s with Polling => 2 | Registered _ => 1 | Sleeping _ => 3 | Returned => 0 end.

Lemma wait_idle_event s e :
  wait_ok s -> active (fst s) = false ->
  active (fst (wait_event s e)) = false
  /\ steps_to_return (wait_event s e) <= steps_to_return s - (if decide (e = WaiterRuns) then 1 else 0).
Proof.
  destruct s as [a w]. unfold wait_ok. cbn. intros Hok Ha. destruct e as [|g]; cbn.
  - split; [done|]. unfold active in Ha. rewrite (decide_True (P := WaiterRuns = WaiterRuns)) by done.
    destruct w as [|n|n|]; cbn -[Nat.ltb]; rewrite ?Ha; cbn -[Nat.ltb]; try lia.
    destruct Hok as [_ [Hlt|Hx]]; [cbn in Hlt|unfold active in Hx; cbn in Hx; congruence].
    destruct (Nat.ltb_spec n (sh_notified (ag_shared a))); cbn; lia.
  - rewrite (decide_False (P := StreamDropped g = WaiterRuns)) by done.
    destruct (drop_guard_shared g a) as [->|[Hact _]]; [split; [done|unfold steps_to_return; cbn; lia]|].
    split; [done|]. unfold steps_to_return. cbn. lia.
Qed.

Definition waiter_runs (es : list WaitEvent) : nat := length (List.filter (fun e => bool_decide (e = WaiterRuns)) es).

Lemma wait_idle_events es s :
  wait_ok s -> active (fst s) = false ->
  active (fst (foldl wait_event s es)) = false
  /\ steps_to_return (foldl wait_event s es) <= steps_to_return s - waiter_runs es.
Proof.
  revert s. induction es as [|e es IH]; intros s Hok Ha; cbn [foldl].
  - split; [done|]. unfold waiter_runs. cbn. lia.
  - destruct (wait_idle_event s e Hok Ha) as [Ha' Hs].
    destruct (IH _ (wait_event_ok s e Hok) Ha') as [Hi Hn]. split; [done|].
    unfold waiter_runs in *. cbn. destruct (bool_decide_reflect (e = WaiterRuns)), (decide (e = WaiterRuns)); try done; cbn; lia.
Qed.

Lemma drops_generation es s :
  generation (fst (foldl wait_event s es)) = generation (fst s).
Proof.
  revert s. induction es as [|e es IH]; intros s; [done|]. cbn. rewrite IH. destruct e as [|g]; [done|].
  cbn. unfold drop_guard. by destruct (_ =? _)%nat.
Qed.

(** No wake-up is lost: however a waiter's polls and the ends of streams
    interleave, once the current run's stream is dropped the waiter returns
    within three of its own steps - also when the stream goes between its
    registration, its check and its sleep - and it never returns while a run
    is active. *)
Lemma wait_for_idle_returns a before after :
  3 <= waiter_runs after ->
  let '(a', w) := foldl wait_event (a, Polling) (before ++ StreamDropped (generation a) :: after) in
  w = Returned /\ active a' = false
  /\ (snd (foldl wait_event (a, Polling) before) = Returned -> active (fst (foldl wait_event (a, Polling) before)) = false).
Proof.
  intros Hruns. rewrite foldl_app. cbn [foldl].
  assert (Hok : wait_ok (foldl wait_event (a, Polling) before)).
  { assert (H0 : wait_ok (a, Polling)) by done. revert H0. generalize (a, Polling).
    induction before as [|e es IH]; intros s Hs; [done|]. by apply IH, wait_event_ok. }
  pose proof (drops_generation before (a, Polling)) as Hg. cbn in Hg.
  destruct (foldl wait_event (a, Polling) before) as [a1 w1]. cbn [fst snd] in *.
  assert (Hd : active (drop_guard (generation a) a1) = false).
  { unfold drop_guard. unfold generation in *. by rewrite Hg, Nat.eqb_refl. }
  pose proof (wait_event_ok (a1, w1) (StreamDropped (generation a)) Hok) as Hok1. cbn [wait_event fst snd] in *.
  destruct (wait_idle_events after _ Hok1 Hd) as [Ha Hs].
  destruct (foldl wait_event (drop_guard (generation a) a1, w1) after) as [a2 w2]. cbn [fst snd] in *.
  split; [|split; [done|]].
  - unfold steps_to_return in Hs. cbn in Hs. destruct w2; try done; destruct w1; lia.
  - intros ->. exact Hok.
Qed.

End Wait.

(** ** Evaluated *)

#[local] Existing Instance Toy.ext.

(** An agent in the middle of a run: a note in its history, one follow-up taken by the
    loop, one still queued, and a steering message. *)
Definition busy : Agent Studio.app :=
  let a := steer (Demo.user "stop") (follow_up (Demo.user "later") (follow_up (Demo.user "next")
             (fst (prompt_stream [Demo.user "hello"; Custom (SerializedCustom "note" (Toy.JStr "n"))] (Studio.agent [] []))))) in
  upd_shared (put_session (with_data {["k" := Toy.JNull]})) (snd (loop_polls_follow_up a)).

Lemma pause_resume_roundtrip_witness :
  exists a1 c a3, pause busy = (a1, Some c)
    /\ restore_from_loop_checkpoint c (drop_guard 1 a1) = (a3, Ok tt)
    /\ ah_follow_up_queue (ag_host a3) = [Demo.user "next"; Demo.user "later"]
    /\ ah_steering_queue (ag_host a3) = [Demo.user "stop"]
    /\ st_messages (ag_state a3) = [Demo.user "hello"; Custom (SerializedCustom "note" (Toy.JStr "n"))].
Proof.
  assert (Hf : all_faithful (Some Studio.registry)
    (paused_messages busy ++ paused_follow_ups busy ++ ah_steering_queue (ag_host busy))).
  { repeat constructor. }
  destruct (pause_resume_roundtrip busy (drop_guard 1 (fst (pause busy))) eq_refl (fun h => conj eq_refl eq_refl) Hf ltac:(discriminate))
    as (a1 & c & a3 & Hp & _ & _ & _ & _ & Hr & Hi & Hfu & Hst).
  exists a1, c, a3. split; [exact Hp|]. rewrite Hp in Hr. split; [exact Hr|].
  split; [exact Hfu|]. split; [exact Hst|]. destruct Hi as [Hm _ _ _ _ _ _]. exact Hm.
Defined.

Lemma dropped_stream_keeps_history_witness :
  exists a1 l, prompt_stream [Demo.user "hello"] (Studio.agent [] []) = (a1, Ok l)
    /\ st_messages (ag_state (drop_guard (la_generation l) (handle_stream_event TurnStart a1))) = [Demo.user "hello"].
Proof.
  destruct (dropped_stream_keeps_history (Studio.agent [] []) [Demo.user "hello"] [TurnStart] eq_refl
    ltac:(by repeat constructor)) as (a1 & l & Hp & Hm & _).
  exists a1, l. split; [exact Hp|]. exact Hm.
Defined.

(** The stream goes between the check and the sleep. *)
Lemma wait_for_idle_returns_witness :
  snd (foldl wait_event (busy, Polling) ([WaiterRuns; WaiterRuns] ++ StreamDropped 1 :: [WaiterRuns; WaiterRuns; WaiterRuns]))
  = Returned.
Proof.
  pose proof (wait_for_idle_returns busy [WaiterRuns; WaiterRuns] [WaiterRuns; WaiterRuns; WaiterRuns] ltac:(cbv; lia)) as Hw.
  change (generation busy) with 1 in Hw.
  destruct (foldl wait_event (busy, Polling) _) as [a' w]. exact (proj1 Hw).
Defined.
