(* ===== verification/AgentRun.v ===== *)
(** * A prompt from call to result: [src/agent/invoke.rs], [src/agent/state_updates.rs], [src/agent/structured_output.rs]

    The agent, the loop and tool dispatch put together: [prompt_async] starts a
    run of [run_loop_inner] on a world made of the agent's shared state, and
    collects its events to the end.  The collector holds the receiver and the
    agent while it waits, so events can be collected after the run; [cancel]
    says when the run's token is cancelled, [schedule] how its tool tasks
    interleave, [turns] and [fuel] bound the run. *)
From S2P Require Export AgentPause LoopTermination.
Open Scope string_scope.
Open Scope list_scope.

Section Run.
Context `{E : Ext} {X : Type}.
Implicit Types (a : Agent X).

(** What the environment decides about a run. *)
Record Env := MkEnv {
  env_turns : nat;
  env_fuel : nat;
  env_cancel : option nat;
  env_schedule : list (list nat * nat);
  env_shared_end : bool;
}.

(** The world a run starts in: an open channel and the agent's shared state. *)
Definition launch_world (env : Env) a (l : Launch X) : World (AHost X) :=
  MkWorld (initial_state (la_config l) [] 0) [] None (env_cancel env) (sh_session (ag_shared a))
    cache_state_new (sh_pending_snapshot (ag_shared a)) (sh_context_snapshot (ag_shared a)) []
    (env_schedule env) (ag_host a).

(** What the run has done to the shared state. *)
Definition absorb (w : World (AHost X)) a : Agent X :=
  upd_host (fun _ => w_host w)
    (upd_shared (fun s => put_session (w_session w) (put_snapshots (w_pending w) (w_context w) s)) a).

(** [collect_stream] on a launched run.
    @src src/agent/state_updates.rs:15-96 [Agent::collect_stream] *)
Definition run_launched (env : Env) a (l : Launch X) : option (Agent X * AgentResult) :=
  match run_loop_inner (env_turns env) (env_fuel env) (la_config l) (la_messages l)
          (la_initial_new_messages_len l) (la_system_prompt l) (launch_world env a l) with
  | None => None
  | Some (_, w) =>
    Some (collect_stream (env_shared_end env) (la_generation l) (w_events w) (absorb w a))
  end.

Definition run_stream (env : Env) (r : Agent X * result (Launch X) AgentError) :
    option (Agent X * result AgentResult AgentError) :=
  match r with
  | (a, Err e) => Some (a, Err e)
  | (a, Ok l) =>
    match run_launched env a l with Some (a, res) => Some (a, Ok res) | None => None end
  end.

(** @src src/agent/invoke.rs:117-128 [Agent::prompt_async] *)
Definition prompt_async (env : Env) (input : list AgentMessage) a :
    option (Agent X * result AgentResult AgentError) := run_stream env (prompt_stream input a).

(** @src src/agent/invoke.rs:221-224 [Agent::continue_async] *)
Definition continue_async (env : Env) a : option (Agent X * result AgentResult AgentError) :=
  run_stream env (continue_stream a).

(** @src src/agent/checkpointing.rs:261-268 [Agent::resume] *)
Definition resume (env : Env) (c : LoopCheckpoint) a : option (Agent X * result AgentResult AgentError) :=
  run_stream env (resume_stream c a).

(** ** Structured output *)

Definition structured_output_name : string := "__structured_output".

(** @src src/agent/structured_output.rs:140-171 [StructuredOutputTool] *)
Definition structured_output_tool (schema : Value) : AgentTool (AHost X) :=
  MkAgentTool structured_output_name
    "Return structured data matching the required JSON schema. Call this tool with the requested data as the arguments."
    schema false None (fun _ => None) None
    (fun _ params _ session h => ([], Returns (tool_text (json_to_string params)), session, h)).

(** The calls of the structured output tool in a result, in order. *)
Definition structured_calls (r : AgentResult) : list (string * Value) :=
  concat (map (fun m => match m with
                        | Llm (Assistant am) =>
                          filtermap (fun b => match b with
                                              | ToolCall id name arguments _ =>
                                                if String.eqb name structured_output_name
                                                then Some (id, arguments) else None
                                              | _ => None
                                              end) (am_content am)
                        | _ => []
                        end) (res_messages r)).

(** The first call decides.
    @src src/agent/structured_output.rs:173-195 [extract_structured_output] *)
Definition extract_structured_output (r : AgentResult) (schema : Value) : result Value string :=
  match structured_calls r with
  | (_, arguments) :: _ =>
    match validate_tool_arguments schema arguments with
    | Ok _ => Ok arguments
    | Err errors => Err (join "; " errors)
    end
  | [] => Err "no __structured_output tool call found in response"
  end.

(** @src src/agent/structured_output.rs:197-210 [find_structured_output_call_id] *)
Definition find_structured_output_call_id (r : AgentResult) : option string := fst <$> head (structured_calls r).

(** @src src/agent/structured_output.rs:97-117 [Agent::run_structured_output_attempts, feedback (brace)] *)
Definition push_feedback (r : AgentResult) (e : string) a : Agent X :=
  let '(now, h) := as_clock (ag_settings a) (ag_host a) in
  let feedback := Llm (ToolResult (MkToolResultMessage (default "" (find_structured_output_call_id r))
    [Text ("Validation failed: " ++ e ++ ". Please try again with valid output.")%string] true now json_null None)) in
  upd_state (fun s => put_messages (st_messages s ++ [feedback]) s) (upd_host (fun _ => h) a).

(** The first attempt prompts, the others continue.
    @src src/agent/structured_output.rs:81-94 [Agent::run_structured_output_attempts, result (brace)] *)
Definition structured_attempt (env : Env) (prompt : string) (attempt : nat) a :
    option (Agent X * result AgentResult AgentError) :=
  if (attempt =? 0)%nat then
    let '(now, h) := as_clock (ag_settings a) (ag_host a) in
    prompt_async env [Llm (User (MkUserMessage [Text prompt] now None))] (upd_host (fun _ => h) a)
  else continue_async env a.

(** [left] attempts remain after this one; each has its own environment.
    @src src/agent/structured_output.rs:80-119 [Agent::run_structured_output_attempts, for (brace)] *)
Fixpoint structured_attempts (envs : nat -> Env) (prompt : string) (schema : Value) (max_retries left : nat) a :
    option (Agent X * result Value AgentError) :=
  let attempt := max_retries - left in
  match structured_attempt (envs attempt) prompt attempt a with
  | None => None
  | Some (a, Err e) => Some (a, Err e)
  | Some (a, Ok r) =>
    match extract_structured_output r schema with
    | Ok value => Some (a, Ok value)
    | Err e =>
      match left with
      | 0 => Some (a, Err (StructuredOutputFailed (N.of_nat (max_retries + 1)) e))
      | S left' => structured_attempts envs prompt schema max_retries left' (push_feedback r e a)
      end
    end
  end.

(** @src src/agent/structured_output.rs:14-29 [Agent::structured_output] *)
Definition structured_output (envs : nat -> Env) (prompt : string) (schema : Value) a :
    option (Agent X * result Value AgentError) :=
  let a := upd_state (fun s => put_tools (st_tools s ++ [structured_output_tool schema]) s) a in
  let max_retries := as_structured_output_max_retries (ag_settings a) in
  match structured_attempts envs prompt schema max_retries max_retries a with
  | None => None
  | Some (a, r) =>
    Some (upd_state (fun s => put_tools (without_tool structured_output_name (st_tools s)) s) a, r)
  end.

(** ** The end of a run *)

Lemma ended_run p es : phase_run p es = Some Ended -> p <> Ended ->
  exists init m, es = init ++ [AgentEnd m] /\ Forall (fun e => is_agent_end e = false) init.
Proof.
  revert p. induction es as [|e es IH]; intros p Hes Hp; cbn in Hes; [congruence|].
  destruct (phase_step p e) as [p'|] eqn:Hs; [|done]. cbn in Hes.
  destruct (decide (p' = Ended)) as [->|Hne].
  - exists []. assert (He : exists m, e = AgentEnd m).
    { destruct p, e; cbn in Hs; try done; try (destruct (turn_ok _ _ _)); eauto; done. }
    destruct He as [m ->]. exists m. destruct es as [|e' es]; [by split|]. by destruct e'.
  - destruct (IH p' Hes Hne) as (init & m & -> & Hi). exists (e :: init), m. split; [done|].
    constructor; [|done]. destruct e; try done. exfalso. apply Hne. destruct p; cbn in Hs; congruence.
Qed.

Lemma collect_messages shared e a :
  is_agent_end e = false ->
  st_messages (ag_state (collect_event shared e a)) = st_messages (ag_state a) ++ turns_of [e].
Proof. intros He. unfold collect_event. destruct e; try done; cbn; by rewrite ?app_nil_r. Qed.

(** The usage of a run is the sum over its turns. *)
Fixpoint turn_usage (es : list AgentEvent) : Usage -> Usage :=
  match es with
  | [] => id
  | TurnEnd m _ _ _ :: es' => fun u => turn_usage es' (usage_add u (am_usage m))
  | _ :: es' => turn_usage es'
  end.

Lemma collect_result_spec es r :
  let r' := foldl collect_result r es in
  res_messages r' = res_messages r ++ turns_of es /\ res_usage r' = turn_usage es (res_usage r).
Proof.
  revert r. induction es as [|e es IH]; intros r; cbn; [by rewrite app_nil_r|].
  destruct (IH (collect_result r e)) as [-> ->]. destruct e; try done. cbn.
  split; [by rewrite <- app_assoc|done].
Qed.

Lemma collect_stream_end shared g es m a :
  generation a = g ->
  let '(a', r) := collect_stream shared g (es ++ [AgentEnd m]) a in
  st_messages (ag_state a') = (if shared then clone_messages m else m)
  /\ active a' = false /\ st_is_running (ag_state a') = false
  /\ sh_pending_snapshot (ag_shared a') = [] /\ sh_context_snapshot (ag_shared a') = None
  /\ st_error (ag_state a') = res_error r
  /\ res_messages r = turns_of es /\ res_usage r = turn_usage es usage_default.
Proof.
  intros Hg. unfold collect_stream. rewrite !foldl_app.
  destruct (collects_flags shared es a) as (G & _ & _). cbn [foldl].
  destruct (collect_result_spec es result_new) as [H1 H2]. cbn [collect_result].
  set (a1 := foldl (fun a e => collect_event shared e a) a es) in *. clearbody a1.
  unfold drop_guard. unfold generation in *. cbn. rewrite G, Hg, Nat.eqb_refl. cbn.
  split_and!; try done.
Qed.

(** A prompt that finds the agent idle. *)
Lemma prompt_stream_idle input a :
  active a = false -> exists a1 l, prompt_stream input a = (a1, Ok l)
    /\ generation a1 = la_generation l /\ la_config l = build_loop_config a.
Proof.
  intros Ha. unfold prompt_stream, check_not_running. fold (active a). rewrite Ha. cbn. by eexists _, _.
Qed.

Lemma run_launched_spec env a l a' r :
  generation a = la_generation l -> run_launched env a l = Some (a', r) ->
  exists w es m,
    run_loop_inner (env_turns env) (env_fuel env) (la_config l) (la_messages l)
      (la_initial_new_messages_len l) (la_system_prompt l) (launch_world env a l) = Some (tt, w)
    /\ w_events w = es ++ [AgentEnd m] /\ phase_run Before (w_events w) = Some Ended
    /\ st_messages (ag_state a') = (if env_shared_end env then clone_messages m else m)
    /\ active a' = false /\ st_is_running (ag_state a') = false
    /\ st_error (ag_state a') = res_error r
    /\ res_messages r = turns_of es /\ res_usage r = turn_usage es usage_default.
Proof.
  intros Hg. unfold run_launched. destruct (run_loop_inner _ _ _ _ _ _ _) as [[[] w]|] eqn:Hrun; [|done].
  intros Heq. assert (Hc : collect_stream (env_shared_end env) (la_generation l) (w_events w) (absorb w a) = (a', r))
    by (by apply (inj Some)). clear Heq.
  destruct (run_heard_to_the_end _ _ _ _ _ _ (launch_world env a l) _ eq_refl eq_refl Hrun) as [_ Hp].
  destruct (ended_run _ _ Hp) as (es & m & He & _); [done|].
  pose proof (collect_stream_end (env_shared_end env) (la_generation l) es m (absorb w a) Hg) as Hend.
  rewrite He in Hc. rewrite Hc in Hend. destruct Hend as (H1 & H2 & H3 & _ & _ & H6 & H7 & H8).
  exists w, es, m. by split_and!.
Qed.


(** A capped prompt on an idle agent returns a result and leaves the agent idle. *)
Lemma capped_prompt_settles max n env input a :
  active a = false -> gives_up_after (build_loop_config a) max ->
  0 < env_fuel env -> max <= env_fuel env -> n < env_turns env ->
  max_turns_pre_turn n ∈ as_pre_turn_policies (ag_settings a) ->
  exists a' res, prompt_async env input a = Some (a', Ok res) /\ active a' = false.
Proof.
  intros Ha Hg Hf Hm Hn Hcap. unfold prompt_async, run_stream.
  destruct (prompt_stream_idle input a Ha) as (a1 & l & -> & Hgen & Hcfg).
  destruct (run_capped max n (env_turns env) (env_fuel env) (la_config l) (la_messages l)
    (la_initial_new_messages_len l) (la_system_prompt l) (launch_world env a1 l)) as (w & Hrun & _);
    [by rewrite Hcfg|done|done|done|by rewrite Hcfg|].
  destruct (run_launched env a1 l) as [[a2 res]|] eqn:Hr; [|unfold run_launched in Hr; by rewrite Hrun in Hr].
  exists a2, res. split; [done|].
  by destruct (run_launched_spec _ _ _ _ _ Hgen Hr) as (_ & _ & _ & _ & _ & _ & _ & Hidle & _).
Qed.

(** A capped prompt comes back: with a turn cap of [n] among the pre-turn
    policies and a retry strategy that gives up after [max] attempts, a prompt
    on an idle agent returns - it does not hang and no panic escapes - after at
    most [n] provider requests, and the agent can be prompted again. *)
Lemma capped_prompt_returns max n env input a :
  active a = false -> gives_up_after (build_loop_config a) max ->
  0 < env_fuel env -> max <= env_fuel env -> n < env_turns env ->
  max_turns_pre_turn n ∈ as_pre_turn_policies (ag_settings a) ->
  exists a' res, prompt_async env input a = Some (a', Ok res)
    /\ exists a'' l, prompt_stream [] a' = (a'', Ok l).
Proof.
  intros Ha Hg Hf Hm Hn Hcap.
  destruct (capped_prompt_settles max n env input a Ha Hg Hf Hm Hn Hcap) as (a2 & res & Hrun & Hidle).
  exists a2, res. split; [done|].
  destruct (prompt_stream_idle [] a2 Hidle) as (a3 & l3 & -> & _). by eexists _, _.
Qed.

(** ** Structured output *)

(** A continued run that finds a tool result last is as good as a prompt. *)
Lemma continue_stream_idle a m :
  active a = false -> last (st_messages (ag_state a)) = Some m -> is_assistant m = false ->
  exists a1 l, continue_stream a = (a1, Ok l) /\ generation a1 = la_generation l.
Proof.
  intros Ha Hl Hm. unfold continue_stream, check_not_running. fold (active a). rewrite Ha.
  unfold validate_continue. cbn [upd_state ag_state put_running st_messages]. rewrite Hl, Hm. cbn [andb].
  match goal with |- context [start_loop [] true ?b] => pose proof (start_loop_flags [] true b) as Hs;
    destruct (start_loop [] true b) as [a1 l] end.
  destruct Hs as (_ & Hg & Hlg & _). exists a1, l. split; [done|congruence].
Qed.

Lemma run_stream_idle env a1 l a' r :
  generation a1 = la_generation l -> run_stream env (a1, Ok l) = Some (a', r) ->
  active a' = false /\ exists res, r = Ok res.
Proof.
  intros Hg. cbn. destruct (run_launched env a1 l) as [[a2 res]|] eqn:Hr; [|done]. intros [= <- <-].
  destruct (run_launched_spec _ _ _ _ _ Hg Hr) as (_ & _ & _ & _ & _ & _ & _ & Hi & _). eauto.
Qed.

Lemma extract_valid r schema v :
  extract_structured_output r schema = Ok v -> validate_tool_arguments schema v = Ok tt.
Proof.
  unfold extract_structured_output. destruct (structured_calls r) as [|[id arguments] calls]; [done|].
  destruct (validate_tool_arguments schema arguments) as [[]|] eqn:Hv; [|done]. by intros [= <-].
Qed.

(** Ready for the next attempt. *)
Definition ready_for (attempt : nat) a : Prop :=
  active a = false
  /\ (attempt <> 0 -> exists m, last (st_messages (ag_state a)) = Some m /\ is_assistant m = false).

Lemma push_feedback_ready r e a k : active a = false -> ready_for k (push_feedback r e a).
Proof.
  intros Ha. unfold push_feedback. destruct (as_clock _ _) as [now h]. split; [done|]. intros _.
  cbn. rewrite last_snoc. by eexists.
Qed.

Lemma structured_attempt_idle env prompt k a a1 r1 :
  ready_for k a -> structured_attempt env prompt k a = Some (a1, r1) ->
  active a1 = false /\ exists res, r1 = Ok res.
Proof.
  intros [Ha Hready]. unfold structured_attempt. destruct (Nat.eqb_spec k 0) as [H0|H0].
  - destruct (as_clock _ _) as [now h].
    destruct (prompt_stream_idle [Llm (User (MkUserMessage [Text prompt] now None))] (upd_host (fun _ => h) a) Ha)
      as (a2 & l & Hp & Hg & _). unfold prompt_async. rewrite Hp. by apply run_stream_idle.
  - destruct (Hready H0) as (m & Hl & Hm). destruct (continue_stream_idle a m Ha Hl Hm) as (a2 & l & Hp & Hg).
    unfold continue_async. rewrite Hp. by apply run_stream_idle.
Qed.

Lemma structured_attempts_spec envs prompt schema max left a a' r :
  left <= max -> ready_for (max - left) a ->
  structured_attempts envs prompt schema max left a = Some (a', r) ->
  active a' = false
  /\ match r with
     | Ok v => validate_tool_arguments schema v = Ok tt
     | Err e => exists last_error, e = StructuredOutputFailed (N.of_nat (max + 1)) last_error
     end.
Proof.
  revert a. induction left as [|left IH]; intros a Hle Hready; cbn [structured_attempts]; cbn zeta.
  all: match goal with |- context [structured_attempt ?e ?p ?k ?b] =>
         destruct (structured_attempt e p k b) as [[a1 r1]|] eqn:Hrun; [|done] end.
  all: destruct (structured_attempt_idle _ _ _ _ _ _ Hready Hrun) as [Hi [res ->]].
  all: destruct (extract_structured_output res schema) as [v|e] eqn:He.
  1, 3: intros [= <- <-]; split; [done|]; by eapply extract_valid.
  - intros [= <- <-]. split; [done|]. by eexists.
  - apply IH; [lia|by apply push_feedback_ready].
Qed.

(** Structured output is valid or refused after the allowed attempts: on an idle
    agent a structured request that returns gives a value the schema accepts,
    or fails after exactly one attempt more than the retries configured; the
    agent is idle and the schema's tool is gone from it. *)
Lemma structured_output_valid envs prompt schema a a' r :
  active a = false -> structured_output envs prompt schema a = Some (a', r) ->
  match r with
  | Ok v => validate_tool_arguments schema v = Ok tt
  | Err e => exists last_error,
      e = StructuredOutputFailed (N.of_nat (as_structured_output_max_retries (ag_settings a) + 1)) last_error
  end /\ active a' = false /\ find_tool structured_output_name a' = None.
Proof.
  intros Ha. unfold structured_output. cbn zeta.
  match goal with |- context [structured_attempts ?e ?p ?s ?m ?l ?b] =>
    destruct (structured_attempts e p s m l b) as [[a1 r1]|] eqn:Hrun; [|done] end.
  intros [= <- <-]. apply structured_attempts_spec in Hrun as [Hi Hr]; [|done|split; [done|cbn; lia]].
  split; [exact Hr|]. split; [done|]. unfold find_tool, without_tool. cbn.
  induction (st_tools (ag_state a1)) as [|t ts IH]; [done|]. cbn.
  destruct (String.eqb_spec (td_name t) structured_output_name) as [Hn|Hn]; [done|]. cbn.
  by destruct (String.eqb_spec (td_name t) structured_output_name).
Qed.

End Run.

(** ** Evaluated *)

#[local] Existing Instance Toy.ext.

Definition quick : Env := MkEnv 4 3 None [] false.

(** A tool call, then the answer. *)
Definition studio : Agent Studio.app :=
  Studio.agent [max_turns_pre_turn 3] [demo_tool_turn; text_response "hi"].

Definition settled : Agent Studio.app * result AgentResult AgentError := Eval vm_compute in
  match prompt_async quick [Demo.user "hello"] studio with
  | Some r => r
  | None => (studio, Err NoMessages)
  end.

Lemma studio_settles : prompt_async quick [Demo.user "hello"] studio = Some (fst settled, snd settled).
Proof. vm_cast_no_check (eq_refl (Some (fst settled, snd settled))). Qed.


Lemma capped_prompt_returns_witness :
  exists a' res, prompt_async quick [Demo.user "hello"] studio = Some (a', Ok res)
    /\ exists a'' l, prompt_stream [] a' = (a'', Ok l).
Proof.
  apply (capped_prompt_returns 3 3 quick [Demo.user "hello"] studio); [reflexivity| |cbn; lia..|].
  - intros e n Hn. cbn. unfold default_should_retry. by destruct (Nat.leb_spec 3 n); [|lia].
  - by apply list_elem_of_singleton.
Defined.

(** A call whose arguments are refused ([null] is no object), then one that fits. *)
Definition draft_then_fit : AgentResult :=
  MkAgentResult [Llm (Assistant (Demo.assistant_message [ToolCall "c1" structured_output_name Toy.JNull None] ToolUse));
                 Llm (Assistant (Demo.assistant_message [ToolCall "c2" structured_output_name (Toy.JObj "x") None] ToolUse))]
    Stop usage_default cost_default None None.

(** Only the first call of a run is looked at: a model that corrects itself within the
    run is told that it failed. *)
Lemma corrected_call_not_extracted :
  extract_structured_output draft_then_fit (Toy.JObj "") = Err "not an object"
  /\ validate_tool_arguments (Toy.JObj "") (Toy.JObj "x") = Ok tt.
Proof. split; reflexivity. Qed.

Definition form_turn : list AssistantMessageEvent :=
  [Start; ToolCallStart 0 "c1" structured_output_name; ToolCallDelta 0 "{}"; ToolCallEnd 0;
   Done ToolUse usage_default cost_default].

Definition form_agent : Agent Studio.app := Studio.agent [] [form_turn; text_response "done"].

Definition filled : Agent Studio.app * result Value AgentError := Eval vm_compute in
  match structured_output (fun _ => quick) "fill in" (Toy.JObj "") form_agent with
  | Some r => r
  | None => (form_agent, Err NoMessages)
  end.

Lemma form_fills :
  structured_output (fun _ => quick) "fill in" (Toy.JObj "") form_agent = Some (fst filled, snd filled).
Proof. vm_cast_no_check (eq_refl (Some (fst filled, snd filled))). Qed.

Lemma structured_output_valid_witness :
  (match snd filled with Ok v => Toy.eqb v (Toy.JObj "") | Err _ => false end) = true
  /\ validate_tool_arguments (Toy.JObj "") (Toy.JObj "") = Ok tt.
Proof.
  destruct (structured_output_valid (E := Toy.ext) (fun _ => quick) "fill in" (Toy.JObj "") form_agent (fst filled) (snd filled)
    eq_refl form_fills) as [Hv _].
  split; [reflexivity|]. exact Hv.
Defined.
