(* ===== verification/Pipeline.v ===== *)
(** * Pipelines of agents, one step at a time: [patterns/src/pipeline]

    Sequential and loop pipelines over an [AgentFactory].  The factory is an
    interface: what an executor needs of the agents it creates by name, over
    a host [W] they share.  [PipelineAgents.v] gives the instance made of the
    agents of this library, [Parallel.v] the concurrent pipelines and the
    executor.  Durations are left out. *)
From S2P Require Export Agent Utf8.
Open Scope string_scope.
Open Scope list_scope.

(** ** Data *)

(** @src patterns/src/pipeline/types.rs:13-13 [PipelineId] *)
Definition PipelineId : Type := string.

Section Types.
Context `{E : Ext} {Regex : Type}.

(** @src patterns/src/pipeline/types.rs:38-47 [MergeStrategy] *)
Inductive MergeStrategy :=
| Concat (separator : string)
| First
| Fastest (n : nat)
| CustomMerge (aggregator : string).

(** @src patterns/src/pipeline/types.rs:54-65 [ExitCondition] *)
Inductive ExitCondition :=
| ToolCalled (tool_name : string)
| OutputContains (pattern : string) (compiled : Regex)
| MaxIterations.

(** @src patterns/src/pipeline/types.rs:129-152 [Pipeline] *)
Inductive Pipeline :=
| Sequential (id : PipelineId) (name : string) (steps : list string) (pass_context : bool)
| Parallel (id : PipelineId) (name : string) (branches : list string) (merge_strategy : MergeStrategy)
| Loop (id : PipelineId) (name : string) (body : string) (exit_condition : ExitCondition) (max_iterations : nat).

(** @src patterns/src/pipeline/types.rs:232-236 [Pipeline::id] *)
Definition pipeline_id (p : Pipeline) : PipelineId :=
  match p with Sequential id _ _ _ | Parallel id _ _ _ | Loop id _ _ _ _ => id end.

(** @src patterns/src/pipeline/types.rs:239-245 [Pipeline::name] *)
Definition pipeline_name (p : Pipeline) : string :=
  match p with Sequential _ name _ _ | Parallel _ name _ _ | Loop _ name _ _ _ => name end.

(** @src patterns/src/pipeline/types.rs:222-229 [Pipeline::with_id] *)
Definition with_id (id : PipelineId) (p : Pipeline) : Pipeline :=
  match p with
  | Sequential _ name steps pass_context => Sequential id name steps pass_context
  | Parallel _ name branches merge_strategy => Parallel id name branches merge_strategy
  | Loop _ name body exit_condition max_iterations => Loop id name body exit_condition max_iterations
  end.

(** @src patterns/src/pipeline/types.rs:71-76 [ExitCondition::output_contains] *)
Definition output_contains (regex_new : string -> result Regex string) (pattern : string) :
    result ExitCondition string :=
  match regex_new pattern with
  | Ok compiled => Ok (OutputContains pattern compiled)
  | Err e => Err ("invalid regex '" ++ pattern ++ "': " ++ e)%string
  end.

(** @src patterns/src/pipeline/output.rs:14-23 [StepResult] *)
Record StepResult := MkStepResult {
  sr_agent_name : string;
  sr_response : string;
  sr_usage : Usage;
}.

(** @src patterns/src/pipeline/output.rs:48-59 [PipelineOutput] *)
Record PipelineOutput := MkPipelineOutput {
  po_pipeline_id : PipelineId;
  po_final_response : string;
  po_steps : list StepResult;
  po_total_usage : Usage;
}.

(** The boxed [source] of a failed step: an agent's error or a text. *)
Inductive StepFailure :=
| AgentFailure (e : AgentError)
| Failure (message : string).

(** @src patterns/src/pipeline/output.rs:102-125 [PipelineError] *)
Inductive PipelineError :=
| AgentNotFound (name : string)
| PipelineNotFound (id : PipelineId)
| StepFailed (step_index : nat) (agent_name : string) (source : StepFailure)
| MaxIterationsReached (iterations : nat)
| PipelineCancelled
| InvalidExitCondition (message : string).

(** [Display] as [thiserror] derives it. *)
Definition pipeline_error_display (e : PipelineError) : string :=
  match e with
  | AgentNotFound name => "agent not found: " ++ name
  | PipelineNotFound id => "pipeline not found: " ++ id
  | StepFailed index name source =>
    "step " ++ pretty index ++ " (" ++ name ++ ") failed: "
    ++ match source with AgentFailure e => error_display e | Failure message => message end
  | MaxIterationsReached iterations => "max iterations reached: " ++ pretty iterations
  | PipelineCancelled => "pipeline cancelled"
  | InvalidExitCondition message => "invalid exit condition: " ++ message
  end%string.

(** @src patterns/src/pipeline/events.rs:13-44 [PipelineEvent] *)
Inductive PipelineEvent :=
| Started (id : PipelineId) (name : string)
| StepStarted (id : PipelineId) (step_index : nat) (agent_name : string)
| StepCompleted (id : PipelineId) (step_index : nat) (agent_name : string) (usage : Usage)
| Completed (id : PipelineId) (total_usage : Usage)
| Failed (id : PipelineId) (error_message : string).

(** ** The registry *)

(** @src patterns/src/pipeline/registry.rs:9-11 [PipelineRegistry] *)
Definition PipelineRegistry : Type := gmap PipelineId Pipeline.

(** @src patterns/src/pipeline/registry.rs:22-28 [PipelineRegistry::register] *)
Definition register (pipeline : Pipeline) (r : PipelineRegistry) : PipelineRegistry :=
  <[pipeline_id pipeline := pipeline]> r.

(** @src patterns/src/pipeline/registry.rs:31-37 [PipelineRegistry::get] *)
Definition registry_get (id : PipelineId) (r : PipelineRegistry) : option Pipeline := r !! id.

(** @src patterns/src/pipeline/registry.rs:50-56 [PipelineRegistry::remove] *)
Definition registry_remove (id : PipelineId) (r : PipelineRegistry) : bool * PipelineRegistry :=
  (bool_decide (is_Some (r !! id)), delete id r).

(** @src patterns/src/pipeline/registry.rs:40-47 [PipelineRegistry::list] *)
Definition registry_list (r : PipelineRegistry) : list (PipelineId * string) :=
  map (fun '(_, p) => (pipeline_id p, pipeline_name p)) (map_to_list r).

(** Every entry is filed under its own id. *)
Definition registry_wf (r : PipelineRegistry) : Prop := map_Forall (fun id p => pipeline_id p = id) r.

Lemma register_wf p r : registry_wf r -> registry_wf (register p r).
Proof. intros H. by apply map_Forall_insert_2. Qed.

Lemma registry_remove_wf id r : registry_wf r -> registry_wf (snd (registry_remove id r)).
Proof. intros H. by apply map_Forall_delete. Qed.

End Types.
Arguments ExitCondition : clear implicits.
Arguments Pipeline : clear implicits.
Arguments PipelineRegistry : clear implicits.

(** ** The agents a pipeline runs *)

(** [create] and [prompt] give [None] when they panic; [abandon] is what a prompt
    leaves behind that is dropped before it returns; [cancelled] is the state of the
    pipeline's token. *)
Class AgentFactory `{E : Ext} (W : Type) := {
  factory_agent : Type;
  create : string -> W -> option (result factory_agent PipelineError) * W;
  prompt : factory_agent -> list AgentMessage -> W -> option (result AgentResult AgentError) * W;
  abandon : factory_agent -> list AgentMessage -> W -> W;
  cancelled : W -> bool;
  factory_now : W -> N;
}.

Record PipelineWorld {E : Ext} (W : Type) := MkPipelineWorld {
  pw_host : W;
  pw_events : list PipelineEvent;
}.
Arguments MkPipelineWorld {_ _} _ _.
Arguments pw_host {_ _} _.
Arguments pw_events {_ _} _.

Section Steps.
Context `{E : Ext} {W : Type} `{F : !AgentFactory W}.
Context {Regex : Type} (is_match : Regex -> string -> bool).

#[local] Abbreviation M := (Prog (PipelineWorld W)).

(** @src patterns/src/pipeline/executor.rs:94-99 [PipelineExecutor::emit] *)
Definition emit_event (e : PipelineEvent) (w : PipelineWorld W) : PipelineWorld W :=
  MkPipelineWorld (pw_host w) (pw_events w ++ [e]).

Definition report (e : PipelineEvent) : M unit := modify (emit_event e).

(** A call to the host that may panic. *)
Definition call {A} (f : W -> option A * W) : M A :=
  fun w => let '(r, h) := f (pw_host w) in
           match r with Some a => Some (a, MkPipelineWorld h (pw_events w)) | None => None end.

(** [?] in code with effects. *)
Definition and_then {A B} (m : M (result A PipelineError)) (k : A -> M (result B PipelineError)) :
    M (result B PipelineError) :=
  m ≫= fun r => match r with Ok a => k a | Err e => mret (Err e) end.

(** @src patterns/src/pipeline/executor.rs:299-306 [user_msg] *)
Definition user_message (text : string) : LlmMessage := User (MkUserMessage [Text text] 0 None).

Definition as_assistant (m : AgentMessage) : option AssistantMessage :=
  match m with Llm (Assistant m) => Some m | _ => None end.

(** @src patterns/src/pipeline/executor.rs:309-328 [extract_text_response] *)
Definition extract_text_response (r : AgentResult) : string :=
  match head (filtermap as_assistant (rev (res_messages r))) with
  | Some msg => extract_text (am_content msg)
  | None => ""
  end.

(** The part of a step that the sequential and the loop pipeline share: is the
    token cancelled, announce, create, prompt.
    @src patterns/src/pipeline/executor.rs:201-234 [run_sequential, start of a step (brace)] *)
Definition attempt (id : PipelineId) (index : nat) (agent_name : string) (messages : list AgentMessage) :
    M (result AgentResult PipelineError) :=
  gets (fun w => cancelled (pw_host w)) ≫= fun is_cancelled : bool =>
  if is_cancelled then mret (Err PipelineCancelled)
  else
    report (StepStarted id index agent_name) ≫= fun _ =>
    and_then (call (create agent_name)) (fun agent =>
    call (prompt agent messages) ≫= fun r =>
    mret (match r with Ok result => Ok result | Err e => Err (StepFailed index agent_name (AgentFailure e)) end)).

(** ** Sequential pipelines *)

(** @src patterns/src/pipeline/executor.rs:215-224 [run_sequential, messages of a step] *)
Definition step_messages (pass_context : bool) (context : list LlmMessage) (current_input : string) :
    list AgentMessage :=
  if pass_context && negb (bool_decide (context = []))
  then map Llm context ++ [Llm (user_message current_input)]
  else [Llm (user_message current_input)].

(** @src patterns/src/pipeline/executor.rs:257-271 [run_sequential, context of the next step] *)
Definition next_context (pass_context : bool) (context : list LlmMessage) (current_input : string)
    (r : AgentResult) : list LlmMessage :=
  if pass_context
  then (context ++ [user_message current_input]) ++ map Assistant (filtermap as_assistant (res_messages r))
  else context.

Definition step_result (agent_name : string) (r : AgentResult) : StepResult :=
  MkStepResult agent_name (extract_text_response r) (res_usage r).

(** @src patterns/src/pipeline/executor.rs:200-274 [run_sequential, loop] *)
Fixpoint sequential_steps (id : PipelineId) (pass_context : bool) (index : nat) (steps : list string)
    (current_input : string) (context : list LlmMessage) (total_usage : Usage) (step_results : list StepResult) :
    M (result (list StepResult * Usage) PipelineError) :=
  match steps with
  | [] => mret (Ok (step_results, total_usage))
  | agent_name :: steps' =>
    and_then (attempt id index agent_name (step_messages pass_context context current_input)) (fun r =>
    report (StepCompleted id index agent_name (res_usage r)) ≫= fun _ =>
    sequential_steps id pass_context (S index) steps' (extract_text_response r)
      (next_context pass_context context current_input r) (usage_add total_usage (res_usage r))
      (step_results ++ [step_result agent_name r]))
  end.

(** @src patterns/src/pipeline/executor.rs:179-295 [PipelineExecutor::run_sequential] *)
Definition run_sequential (id : PipelineId) (name : string) (steps : list string) (pass_context : bool)
    (input : string) : M (result PipelineOutput PipelineError) :=
  report (Started id name) ≫= fun _ =>
  and_then (sequential_steps id pass_context 0 steps input [] usage_default []) (fun '(step_results, total_usage) =>
  let final_response := default "" (sr_response <$> last step_results) in
  report (Completed id total_usage) ≫= fun _ =>
  mret (Ok (MkPipelineOutput id final_response step_results total_usage))).

(** ** Loop pipelines *)

(** @src patterns/src/pipeline/loop_exec.rs:193-201 [check_tool_called] *)
Definition check_tool_called (r : AgentResult) (tool_name : string) : bool :=
  existsb (fun m => match as_assistant m with
    | Some msg => existsb (fun b => match b with ToolCall _ name _ _ => String.eqb name tool_name | _ => false end)
                    (am_content msg)
    | None => false
    end) (res_messages r).

(** @src patterns/src/pipeline/loop_exec.rs:62-77 [run_loop, messages of an iteration] *)
Definition loop_messages (input : string) (responses : list string) : list AgentMessage :=
  match responses with
  | [] => [Llm (user_message input)]
  | _ =>
    [Llm (user_message (input ++ String LF (String LF "Previous iterations:") ++ String LF
       (join (String LF "") (imap (fun i r => "Iteration " ++ pretty (i + 1) ++ ": " ++ r) responses)))%string)]
  end.

(** @src patterns/src/pipeline/loop_exec.rs:118-122 [run_loop, exit condition] *)
Definition should_exit (exit_condition : ExitCondition Regex) (r : AgentResult) : bool :=
  match exit_condition with
  | ToolCalled tool_name => check_tool_called r tool_name
  | OutputContains _ compiled => is_match compiled (extract_text_response r)
  | MaxIterations => false
  end.

Definition completed (id : PipelineId) (final_response : string) (steps : list StepResult) (total_usage : Usage) :
    M (result PipelineOutput PipelineError) :=
  report (Completed id total_usage) ≫= fun _ => mret (Ok (MkPipelineOutput id final_response steps total_usage)).

(** The iterations left, and what follows when none is.
    @src patterns/src/pipeline/loop_exec.rs:41-167 [run_loop, loop and end] *)
Fixpoint loop_iterations (id : PipelineId) (body : string) (exit_condition : ExitCondition Regex) (input : string)
    (left : nat) (iteration : nat) (steps : list StepResult) (total_usage : Usage) (responses : list string) :
    M (result PipelineOutput PipelineError) :=
  match left with
  | O =>
    match exit_condition with
    | MaxIterations => completed id (default "" (last responses)) steps total_usage
    | _ => mret (Err (MaxIterationsReached iteration))
    end
  | S left' =>
    and_then (attempt id iteration body (loop_messages input responses)) (fun r =>
    let total_usage := usage_merge total_usage (res_usage r) in
    let steps := steps ++ [step_result body r] in
    report (StepCompleted id iteration body (res_usage r)) ≫= fun _ =>
    let responses := responses ++ [extract_text_response r] in
    if should_exit exit_condition r then completed id (extract_text_response r) steps total_usage
    else loop_iterations id body exit_condition input left' (S iteration) steps total_usage responses)
  end.

(** @src patterns/src/pipeline/loop_exec.rs:18-168 [run_loop] *)
Definition run_loop (id : PipelineId) (name body : string) (exit_condition : ExitCondition Regex)
    (max_iterations : nat) (input : string) : M (result PipelineOutput PipelineError) :=
  report (Started id name) ≫= fun _ =>
  loop_iterations id body exit_condition input max_iterations 0 [] usage_default [].

End Steps.

(** ** What a pipeline does, in terms of its steps *)

Section Rounds.
Context `{E : Ext} {W : Type} `{F : !AgentFactory W}.

(** [agent_at i]: who runs step [i]; [ask rs]: what it is asked after the results [rs]. *)
Variables (id : PipelineId) (agent_at : nat -> option string) (ask : list AgentResult -> list AgentMessage).

(** Steps that succeeded one after the other, the world handed from each to the next. *)
Inductive rounds (w : PipelineWorld W) : list AgentResult -> PipelineWorld W -> Prop :=
| rounds_nil : rounds w [] w
| rounds_snoc rs r name w1 w2 :
    rounds w rs w1 -> agent_at (length rs) = Some name ->
    attempt id (length rs) name (ask rs) w1 = Some (Ok r, w2) ->
    rounds w (rs ++ [r]) (emit_event (StepCompleted id (length rs) name (res_usage r)) w2).

(** The step after [rs] fails with [e]. *)
Definition fails_after (rs : list AgentResult) (w : PipelineWorld W) (e : PipelineError) (w' : PipelineWorld W) : Prop :=
  exists name, agent_at (length rs) = Some name /\ attempt id (length rs) name (ask rs) w = Some (Err e, w').

Lemma attempt_events i name msgs (w : PipelineWorld W) r w' :
  attempt id i name msgs w = Some (r, w') ->
  pw_events w' = pw_events w ++ [StepStarted id i name]
  \/ (w' = w /\ r = Err PipelineCancelled).
Proof.
  unfold attempt, gets, report, modify, and_then, call, mbind, prog_bind. destruct (cancelled (pw_host w)).
  { intros [= <- <-]. by right. }
  cbn. destruct (create name (pw_host w)) as [[[agent|e]|] h]; cbn; [|by intros [= <- <-]; left|done].
  destruct (prompt agent msgs h) as [[[res|e]|] h']; [| |done]; intros [= <- <-]; by left.
Qed.

(** The events of the steps [i], [i + 1], … with these results. *)
Definition step_events (names : list (nat * string * AgentResult)) : list PipelineEvent :=
  concat (map (fun '(i, name, r) => [StepStarted id i name; StepCompleted id i name (res_usage r)]) names).

Lemma rounds_events w rs w' :
  rounds w rs w' ->
  exists steps, map snd steps = rs /\ map (fun s => fst (fst s)) steps = seq 0 (length rs)
    /\ Forall (fun s => agent_at (fst (fst s)) = Some (snd (fst s))) steps
    /\ pw_events w' = pw_events w ++ step_events steps.
Proof.
  induction 1 as [|rs r name w1 w2 _ (steps & H1 & H2 & H3 & H4) Hname Ha].
  { exists []. by rewrite app_nil_r. }
  exists (steps ++ [(length rs, name, r)]). rewrite !map_app, H1, H2, length_app, seq_app. split_and!; [done..| |].
  - apply Forall_app. by repeat constructor.
  - apply attempt_events in Ha as [Ha|[_ ?]]; [|done]. cbn. rewrite Ha, H4. unfold step_events.
    by rewrite map_app, concat_app, <- !app_assoc.
Qed.

End Rounds.

Section Spec.
Context `{E : Ext} {W : Type} `{F : !AgentFactory W}.
Context {Regex : Type} (is_match : Regex -> string -> bool).

Definition total_of (rs : list AgentResult) : Usage := foldl usage_add usage_default (map res_usage rs).

Lemma total_of_snoc rs r : total_of (rs ++ [r]) = usage_add (total_of rs) (res_usage r).
Proof. unfold total_of. by rewrite map_app, foldl_app. Qed.

(** What the next step is asked: the last response, or the input. *)
Definition input_after (input : string) (rs : list AgentResult) : string :=
  match last rs with Some r => extract_text_response r | None => input end.

(** The conversation so far as a step with context gets it. *)
Fixpoint exchanges (input : string) (rs : list AgentResult) : list LlmMessage :=
  match rs with
  | [] => []
  | r :: rs' =>
    user_message input :: map Assistant (filtermap as_assistant (res_messages r))
    ++ exchanges (extract_text_response r) rs'
  end.

Lemma input_after_cons input r rs : input_after input (r :: rs) = input_after (extract_text_response r) rs.
Proof. unfold input_after. by destruct rs as [|r' rs] using rev_ind; rewrite ?last_cons, ?last_snoc. Qed.

Lemma exchanges_snoc input rs r :
  exchanges input (rs ++ [r])
  = (exchanges input rs ++ [user_message (input_after input rs)])
    ++ map Assistant (filtermap as_assistant (res_messages r)).
Proof.
  revert input. induction rs as [|r0 rs IH]; intros input; cbn [app exchanges]; [by rewrite app_nil_r|].
  rewrite IH, input_after_cons. cbn. f_equal. by rewrite !app_assoc.
Qed.

(** What a step of a sequential pipeline is asked. *)
Definition sequential_ask (pass_context : bool) (input : string) (rs : list AgentResult) : list AgentMessage :=
  (if pass_context then map Llm (exchanges input rs) else []) ++ [Llm (user_message (input_after input rs))].

Definition context_after (pass_context : bool) (input : string) (rs : list AgentResult) : list LlmMessage :=
  if pass_context then exchanges input rs else [].

Lemma step_messages_ask pass_context input rs :
  step_messages pass_context (context_after pass_context input rs) (input_after input rs)
  = sequential_ask pass_context input rs.
Proof.
  unfold step_messages, sequential_ask, context_after. destruct pass_context; [|done].
  cbn [andb]. by case_bool_decide as He; cbn [negb]; rewrite ?He.
Qed.

Lemma next_context_after pass_context input rs r :
  next_context pass_context (context_after pass_context input rs) (input_after input rs) r
  = context_after pass_context input (rs ++ [r]).
Proof. unfold next_context, context_after. destruct pass_context; [|done]. by rewrite exchanges_snoc. Qed.

Lemma input_after_snoc input rs r : input_after input (rs ++ [r]) = extract_text_response r.
Proof. unfold input_after. by rewrite last_snoc. Qed.

Lemma zip_with_snoc {A B C} (f : A -> B -> C) l k a b :
  l !! length k = Some a -> zip_with f l (k ++ [b]) = zip_with f l k ++ [f a b].
Proof.
  revert l. induction k as [|b' k IH]; intros [|a' l] Hl; try done; cbn in *; [by destruct l; injection Hl as ->|].
  by rewrite IH.
Qed.

Lemma sequential_steps_spec id pass_context input all (w0 : PipelineWorld W) steps rs w r w' :
  drop (length rs) all = steps ->
  rounds id (fun i => all !! i) (sequential_ask pass_context input) w0 rs w ->
  sequential_steps id pass_context (length rs) steps (input_after input rs)
    (context_after pass_context input rs) (total_of rs) (zip_with step_result all rs) w = Some (r, w') ->
  exists rs' w1, rounds id (fun i => all !! i) (sequential_ask pass_context input) w0 rs' w1
    /\ match r with
       | Ok (results, usage) =>
         length rs' = length all /\ w' = w1 /\ results = zip_with step_result all rs' /\ usage = total_of rs'
       | Err e => fails_after id (fun i => all !! i) (sequential_ask pass_context input) rs' w1 e w'
       end.
Proof.
  revert rs w. induction steps as [|name steps IH]; intros rs w Hd Hr; cbn [sequential_steps].
  - intros [= <- <-]. exists rs, w. split; [done|]. split_and!; try done.
    assert (length all <= length rs) by (apply (f_equal length) in Hd; rewrite length_drop in Hd; cbn in Hd; lia).
    enough (length rs <= length all) by lia. clear -Hr.
    induction Hr as [|rs r name w1 w2 _ IH Hn _]; cbn; [lia|]. rewrite length_app. cbn.
    apply lookup_lt_Some in Hn. lia.
  - assert (Hn : all !! length rs = Some name) by (rewrite <- (Nat.add_0_r (length rs)), <- lookup_drop, Hd; done).
    unfold and_then. unfold mbind at 1, prog_bind at 1. rewrite step_messages_ask.
    destruct (attempt _ _ _ _ w) as [[[res|e] w1]|] eqn:Ha; [| |done].
    2:{ intros [= <- <-]. exists rs, w. split; [done|]. by exists name. }
    unfold report, modify, mbind, prog_bind. rewrite next_context_after, <- total_of_snoc, <- zip_with_snoc by done.
    rewrite <- (input_after_snoc input rs res). intros Hrun.
    assert (Hlen : length (rs ++ [res]) = S (length rs)) by (rewrite length_app; cbn; lia).
    rewrite <- Hlen in Hrun. eapply IH; [| |exact Hrun].
    + rewrite Hlen. by rewrite <- Nat.add_1_r, <- drop_drop, Hd.
    + by econstructor.
Qed.

Lemma last_zip_with names (rs : list AgentResult) :
  length rs = length names ->
  default "" (sr_response <$> last (zip_with step_result names rs)) = input_after "" rs.
Proof.
  intros Hl. destruct rs as [|r rs _] using rev_ind; [by destruct names|].
  destruct names as [|n names _] using rev_ind; rewrite !length_app in Hl; cbn in Hl; [lia|].
  rewrite zip_with_app by lia. cbn. by rewrite last_snoc, input_after_snoc.
Qed.

(** A sequential pipeline is the chain of its agents: whatever the factory and the
    agents do, its run is that of a number of steps, in declared order and from 0,
    each on the world the one before left, each asked the response before it (the
    input, for the first), in context mode after the exchanges so far; it
    succeeds with the responses, usages and last response of all steps, or the
    step after the successful ones fails (cancellation before it counts), its
    error is the result and nothing runs after it. *)
Lemma sequential_chains id name steps pass_context input (w : PipelineWorld W) r w' :
  run_sequential id name steps pass_context input w = Some (r, w') ->
  exists rs w1,
    rounds id (fun i => steps !! i) (sequential_ask pass_context input) (emit_event (Started id name) w) rs w1
    /\ match r with
       | Ok out =>
         length rs = length steps /\ w' = emit_event (Completed id (total_of rs)) w1
         /\ out = MkPipelineOutput id (input_after "" rs) (zip_with step_result steps rs) (total_of rs)
       | Err e => fails_after id (fun i => steps !! i) (sequential_ask pass_context input) rs w1 e w'
       end.
Proof.
  unfold run_sequential, report, modify, and_then, mbind, prog_bind.
  destruct (sequential_steps _ _ _ _ _ _ _ _ _) as [[r1 w1]|] eqn:Hs; [|done].
  pose proof (sequential_steps_spec id pass_context input steps (emit_event (Started id name) w) steps []
    (emit_event (Started id name) w) r1 w1 eq_refl (rounds_nil _ _ _ _)) as H. cbn [length] in H.
  assert (Hz : zip_with step_result steps [] = []) by (by destruct steps). rewrite Hz in H.
  assert (Hc : context_after pass_context input [] = []) by (by destruct pass_context). rewrite Hc in H.
  destruct (H Hs) as (rs & w2 & Hr & Hcase).
  destruct r1 as [[results usage]|e].
  - intros [= <- <-]. destruct Hcase as (Hl & -> & -> & ->). exists rs, w2. split; [done|]. split_and!; [done..|].
    by rewrite <- (last_zip_with steps).
  - intros [= <- <-]. by exists rs, w2.
Qed.

Section LoopSpec.
Variables (id : PipelineId) (body : string) (exit_condition : ExitCondition Regex) (max : nat) (input : string).

Definition loop_agent (i : nat) : option string := if (i <? max)%nat then Some body else None.

(** What an iteration is asked: the input and the responses so far. *)
Definition loop_ask (rs : list AgentResult) : list AgentMessage := loop_messages input (map extract_text_response rs).

(** How a loop ends after the iterations [rs], in the world [w]. *)
Definition loop_ends (rs : list AgentResult) (w : PipelineWorld W) (r : result PipelineOutput PipelineError)
    (w' : PipelineWorld W) : Prop :=
  match r with
  | Ok out =>
    ((exists init r0, rs = init ++ [r0] /\ should_exit is_match exit_condition r0 = true
        /\ Forall (fun r1 => should_exit is_match exit_condition r1 = false) init)
     \/ (exit_condition = MaxIterations /\ length rs = max))
    /\ w' = emit_event (Completed id (total_of rs)) w
    /\ out = MkPipelineOutput id (input_after "" rs) (map (step_result body) rs) (total_of rs)
  | Err e =>
    Forall (fun r1 => should_exit is_match exit_condition r1 = false) rs
    /\ (fails_after id loop_agent loop_ask rs w e w'
        \/ (exit_condition <> MaxIterations /\ length rs = max /\ e = MaxIterationsReached max /\ w' = w))
  end.

End LoopSpec.

Lemma loop_iterations_spec id body exit_condition max input (w0 : PipelineWorld W) left rs w r w' :
  length rs + left = max -> rounds id (loop_agent body max) (loop_ask input) w0 rs w ->
  Forall (fun r1 => should_exit is_match exit_condition r1 = false) rs ->
  loop_iterations is_match id body exit_condition input left (length rs) (map (step_result body) rs) (total_of rs)
    (map extract_text_response rs) w = Some (r, w') ->
  exists rs' w1, rounds id (loop_agent body max) (loop_ask input) w0 rs' w1
    /\ loop_ends id body exit_condition max input rs' w1 r w'.
Proof.
  revert rs w. induction left as [|left IH]; intros rs w Hlen Hr Hno; cbn [loop_iterations].
  - intros Hrun. exists rs, w. split; [done|]. rewrite Nat.add_0_r in Hlen.
    assert (Hlast : default "" (last (map extract_text_response rs)) = input_after "" rs).
    { unfold input_after. change (map extract_text_response rs) with (extract_text_response <$> rs).
      rewrite fmap_last. by destruct (last rs). }
    destruct exit_condition; injection Hrun as <- <-; cbn [loop_ends].
    + split; [done|]. right. by rewrite Hlen.
    + split; [done|]. right. by rewrite Hlen.
    + rewrite Hlast. split_and!; [by right|done..].
  - assert (Ha0 : loop_agent body max (length rs) = Some body).
    { unfold loop_agent. destruct (Nat.ltb_spec (length rs) max); [done|lia]. }
    unfold and_then. unfold mbind at 1, prog_bind at 1. fold (loop_ask input rs).
    destruct (attempt _ _ _ _ w) as [[[res|e] w1]|] eqn:Ha; [| |done].
    2:{ intros [= <- <-]. exists rs, w. split; [done|]. split; [done|]. left. by exists body. }
    assert (Hr' : rounds id (loop_agent body max) (loop_ask input) w0 (rs ++ [res])
      (emit_event (StepCompleted id (length rs) body (res_usage res)) w1)) by (by econstructor).
    unfold report, modify, mbind, prog_bind, usage_merge. rewrite <- total_of_snoc.
    change [extract_text_response res] with (map extract_text_response [res]).
    change [step_result body res] with (map (step_result body) [res]). rewrite <- !map_app.
    destruct (should_exit is_match exit_condition res) eqn:Hexit.
    + intros [= <- <-]. exists (rs ++ [res]). eexists. split; [exact Hr'|].
      cbn [loop_ends]. rewrite input_after_snoc. split_and!; [|done..]. left. by exists rs, res.
    + assert (Hl : S (length rs) = length (rs ++ [res])) by (rewrite length_app; cbn; lia).
      rewrite Hl. apply IH; [rewrite <- Hl; lia|done|]. apply Forall_app. by repeat constructor.
Qed.

(** A loop pipeline stops at the first iteration that meets its condition: its run
    is that of at most [max_iterations] iterations of the body, each asked the
    input and the responses before it; it succeeds exactly with the first
    result that meets the exit condition, or after all iterations when the
    condition is the cap itself; otherwise no iteration met the condition
    and either the next one failed or all of them ran and the cap is the error. *)
Lemma loop_exits_first id name body exit_condition max_iterations input (w : PipelineWorld W) r w' :
  run_loop is_match id name body exit_condition max_iterations input w = Some (r, w') ->
  exists rs w1,
    rounds id (loop_agent body max_iterations) (loop_ask input) (emit_event (Started id name) w) rs w1
    /\ length rs <= max_iterations
    /\ loop_ends id body exit_condition max_iterations input rs w1 r w'.
Proof.
  intros Hrun. destruct (loop_iterations_spec id body exit_condition max_iterations input
    (emit_event (Started id name) w) max_iterations [] (emit_event (Started id name) w) r w' eq_refl
    (rounds_nil _ _ _ _) (Forall_nil_2 _) Hrun)
    as (rs & w1 & Hr & He).
  exists rs, w1. split_and!; [done| |done]. clear -Hr.
  induction Hr as [|rs r name' w1 w2 _ IH Hn _]; cbn; [lia|]. rewrite length_app. cbn.
  unfold loop_agent in Hn. destruct (Nat.ltb_spec (length rs) max_iterations); [lia|done].
Qed.

End Spec.

(** ** Evaluated: agents that say their name and what they were asked *)

Module Echo.
#[export] Existing Instance Toy.ext.

(** The text of the last message. *)
Definition asked (messages : list AgentMessage) : string :=
  match last messages with Some (Llm (User m)) => extract_text (um_content m) | _ => "" end.

Definition says (text : string) : AgentResult :=
  MkAgentResult [Llm (Assistant (Demo.assistant_message [Text text] Stop))] Stop usage_default cost_default None None.

(** The host counts the prompts; the token is cancelled after ten. *)
#[export] Instance echo : AgentFactory nat := {
  factory_agent := string;
  create name h := (if String.eqb name "trap" then None
                    else Some (if String.eqb name "ghost" then Err (AgentNotFound name) else Ok name), h);
  prompt agent messages h := (Some (Ok (says (agent ++ "(" ++ asked messages ++ ")")%string)), S h);
  abandon _ _ h := h;
  cancelled h := (10 <=? h)%nat;
  factory_now _ := 0%N;
}.

Definition start : PipelineWorld nat := MkPipelineWorld 0 [].

(** Patterns are plain words. *)
Definition word_match : string -> string -> bool := fun word text => contains text word.
End Echo.

Section Evaluated.
Import Echo.

Definition relay : result PipelineOutput PipelineError * PipelineWorld nat := Eval vm_compute in
  match run_sequential "p" "relay" ["a"; "b"] false "hi" start with
  | Some r => r
  | None => (Err PipelineCancelled, start)
  end.

Lemma relay_runs : run_sequential "p" "relay" ["a"; "b"] false "hi" start = Some (fst relay, snd relay).
Proof. by vm_compute. Qed.

Lemma sequential_chains_witness :
  exists out, fst relay = Ok out /\ po_final_response out = "b(a(hi))"
    /\ exists rs, length rs = 2 /\ po_final_response out = input_after "" rs.
Proof.
  destruct (sequential_chains "p" "relay" ["a"; "b"] false "hi" start (fst relay) (snd relay) relay_runs)
    as (rs & w1 & _ & Hl & _ & Ho).
  eexists. split; [reflexivity|]. split; [reflexivity|].
  exists rs. split; [exact Hl|]. exact (f_equal po_final_response Ho).
Defined.

(** The second iteration sees the first and says so. *)
Definition retry : result PipelineOutput PipelineError * PipelineWorld nat := Eval vm_compute in
  match run_loop word_match "p" "retry" "a" (OutputContains "Iteration 1" "Iteration 1") 5 "go" start with
  | Some r => r
  | None => (Err PipelineCancelled, start)
  end.

Lemma retry_runs :
  run_loop word_match "p" "retry" "a" (OutputContains "Iteration 1" "Iteration 1") 5 "go" start
  = Some (fst retry, snd retry).
Proof. by vm_compute. Qed.

Lemma loop_exits_first_witness :
  exists out, fst retry = Ok out /\ length (po_steps out) = 2
    /\ exists rs, length rs <= 5 /\ po_steps out = map (step_result "a") rs.
Proof.
  destruct (loop_exits_first word_match "p" "retry" "a" (OutputContains "Iteration 1" "Iteration 1") 5 "go" start
    (fst retry) (snd retry) retry_runs) as (rs & w1 & _ & Hl & _ & _ & Ho).
  eexists. split; [reflexivity|]. split; [reflexivity|].
  exists rs. split; [exact Hl|]. exact (f_equal po_steps Ho).
Defined.

(** A run with context hands on the calls of a step without their results. *)
Definition called : AgentResult :=
  MkAgentResult [Llm (Assistant (Demo.assistant_message [ToolCall "c1" "lookup" (Toy.JObj "") None] ToolUse));
                 Llm (ToolResult (MkToolResultMessage "c1" [Text "42"] false 0 Toy.JNull None));
                 Llm (Assistant (Demo.assistant_message [Text "it is 42"] Stop))]
    Stop usage_default cost_default None None.

Definition is_result (m : AgentMessage) : bool := match m with Llm (ToolResult _) => true | _ => false end.

Lemma context_keeps_calls_drops_results :
  existsb is_result (res_messages called) = true
  /\ existsb is_result (sequential_ask true "go" [called]) = false
  /\ check_tool_called (MkAgentResult (sequential_ask true "go" [called]) Stop usage_default cost_default None None) "lookup"
     = true.
Proof. by vm_compute. Qed.
End Evaluated.
