(* ===== verification/Parallel.v ===== *)
(** * Parallel pipelines and the executor: [patterns/src/pipeline]

    The branches are tasks; a schedule of choices says which of them goes on,
    whether a cancelled one is dropped before its agent returns, what the host
    does meanwhile and when the receiver wakes up.  After the schedule the
    branches run to their end in order, so every run ends.  A prompt takes
    effect when it returns; a handler that panics is left out, as are
    durations and the memory [Fastest] reserves. *)
From S2P Require Export Pipeline.
Open Scope string_scope.
Open Scope list_scope.

Section Parallel.
Context `{E : Ext} {W : Type} `{F : !AgentFactory W}.

(** @src patterns/src/pipeline/parallel.rs:17-23 [BranchResult] *)
Record BranchResult := MkBranchResult {
  br_index : nat;
  br_agent_name : string;
  br_response : string;
  br_usage : Usage;
}.

Definition Item : Type := result BranchResult PipelineError.

(** @src patterns/src/pipeline/parallel.rs:25-31 [missing_branch_result_error] *)
Definition missing_branch_result_error (step_index : nat) (agent_name : string) : PipelineError :=
  StepFailed step_index agent_name (Failure "parallel branch exited without producing a result").

(** @src patterns/src/pipeline/parallel.rs:33-39 [branch_panic_error] *)
Definition branch_panic_error (step_index : nat) (agent_name : string) : PipelineError :=
  StepFailed step_index agent_name (Failure "parallel branch panicked").

(** Where the task of a branch stands. *)
Inductive BranchState :=
| Spawned
| Prompting (agent : factory_agent) (messages : list AgentMessage)
| Sending (item : Item)
| Ended.

(** [Branch i true]: branch [i] notices the cancelled token while its agent runs. *)
Inductive Choice :=
| Branch (i : nat) (abandons : bool)
| Elsewhere (f : W -> W)
| Receive.

(** [pa_child]: the branches' own token is cancelled.  The channel says which branch sent
    an item, [pa_received] what the receiver got; the code sees neither. *)
Record ParWorld := MkParWorld {
  pa_world : PipelineWorld W;
  pa_child : bool;
  pa_tasks : list BranchState;
  pa_channel : list (nat * Item);
  pa_received : list (nat * Item);
  pa_schedule : list Choice;
}.

Definition on_world (f : PipelineWorld W -> PipelineWorld W) (s : ParWorld) : ParWorld :=
  MkParWorld (f (pa_world s)) (pa_child s) (pa_tasks s) (pa_channel s) (pa_received s) (pa_schedule s).
Definition put_host (h : W) : ParWorld -> ParWorld := on_world (fun w => MkPipelineWorld h (pw_events w)).
Definition put_task (i : nat) (t : BranchState) (s : ParWorld) : ParWorld :=
  MkParWorld (pa_world s) (pa_child s) (<[i := t]> (pa_tasks s)) (pa_channel s) (pa_received s) (pa_schedule s).
Definition put_channel (c : list (nat * Item)) (s : ParWorld) : ParWorld :=
  MkParWorld (pa_world s) (pa_child s) (pa_tasks s) c (pa_received s) (pa_schedule s).
Definition put_schedule (c : list Choice) (s : ParWorld) : ParWorld :=
  MkParWorld (pa_world s) (pa_child s) (pa_tasks s) (pa_channel s) (pa_received s) c.
Definition cancel_child (s : ParWorld) : ParWorld :=
  MkParWorld (pa_world s) true (pa_tasks s) (pa_channel s) (pa_received s) (pa_schedule s).

(** A child token is cancelled by itself or through its parent. *)
Definition token_cancelled (s : ParWorld) : bool := pa_child s || cancelled (pw_host (pa_world s)).

Section Run.
Variables (id : PipelineId) (branches : list string) (input : string).

(** From the start of a branch to its first await.
    @src patterns/src/pipeline/parallel.rs:84-106 [run_parallel, branch up to the prompt (brace)] *)
Definition start_branch (i : nat) (branch_name : string) (s : ParWorld) : ParWorld :=
  if token_cancelled s then put_task i (Sending (Err PipelineCancelled)) s
  else
    let s := on_world (emit_event (StepStarted id i branch_name)) s in
    let '(r, h) := create branch_name (pw_host (pa_world s)) in
    put_task i
      (match r with
       | None => Sending (Err (branch_panic_error i branch_name))
       | Some (Err e) => Sending (Err e)
       | Some (Ok agent) => Prompting agent [Llm (User (MkUserMessage [Text input] (factory_now h) None))]
       end) (put_host h s).

(** The agent has answered, failed or panicked.
    @src patterns/src/pipeline/parallel.rs:108-151 [run_parallel, branch from the prompt on (brace)] *)
Definition finish_branch (i : nat) (branch_name : string) (agent : factory_agent) (messages : list AgentMessage)
    (s : ParWorld) : ParWorld :=
  let '(r, h) := prompt agent messages (pw_host (pa_world s)) in
  let s := put_host h s in
  match r with
  | None => put_task i (Sending (Err (branch_panic_error i branch_name))) s
  | Some (Err e) => put_task i (Sending (Err (StepFailed i branch_name (AgentFailure e)))) s
  | Some (Ok result) =>
    put_task i (Sending (Ok (MkBranchResult i branch_name (extract_text_response result) (res_usage result))))
      (on_world (emit_event (StepCompleted id i branch_name (res_usage result))) s)
  end.

(** One step of branch [i]; the channel has room for every branch.
    @src patterns/src/pipeline/parallel.rs:82-153 [run_parallel, task of a branch] *)
Definition branch_step (i : nat) (abandons : bool) (s : ParWorld) : ParWorld :=
  match pa_tasks s !! i, branches !! i with
  | Some Spawned, Some branch_name => start_branch i branch_name s
  | Some (Prompting agent messages), Some branch_name =>
    if abandons then
      if token_cancelled s
      then put_task i (Sending (Err PipelineCancelled)) (put_host (abandon agent messages (pw_host (pa_world s))) s)
      else s
    else finish_branch i branch_name agent messages s
  | Some (Sending item), _ => put_task i Ended (put_channel (pa_channel s ++ [(i, item)]) s)
  | _, _ => s
  end.

Definition ended (t : BranchState) : bool := match t with Ended => true | _ => false end.

Definition choose (c : Choice) (s : ParWorld) : ParWorld :=
  match c with
  | Branch i abandons => branch_step i abandons s
  | Elsewhere f => put_host (f (pw_host (pa_world s))) s
  | Receive => s
  end.

(** The next item, if there is one. *)
Definition take_item (s : ParWorld) : option Item * ParWorld :=
  match pa_channel s with
  | [] => (None, s)
  | (i, item) :: c =>
    (Some item, MkParWorld (pa_world s) (pa_child s) (pa_tasks s) c (pa_received s ++ [(i, item)]) (pa_schedule s))
  end.

(** [recv]: wait for an item or for all senders to be gone. *)
Fixpoint receive (schedule : list Choice) (s : ParWorld) : option Item * ParWorld :=
  match schedule with
  | [] =>
    let s := put_schedule [] s in
    match pa_channel s, position (fun t => negb (ended t)) (pa_tasks s) with
    | [], Some i => take_item (Nat.iter 3 (branch_step i false) s)
    | _, _ => take_item s
    end
  | Receive :: schedule' =>
    match pa_channel s, position (fun t => negb (ended t)) (pa_tasks s) with
    | [], Some _ => receive schedule' s
    | _, _ => take_item (put_schedule schedule' s)
    end
  | c :: schedule' => receive schedule' (choose c s)
  end.

#[local] Abbreviation M := (Prog ParWorld).

Definition recv : M (option Item) := fun s => Some (receive (pa_schedule s) s).

(** [while let Some(item) = rx.recv().await], left by [inr]. *)
Fixpoint recv_loop {A B} (fuel : nat) (on_item : A -> Item -> A + B) (acc : A) : M (A + B) :=
  match fuel with
  | O => stuck
  | S fuel' =>
    recv ≫= fun o =>
    match o with
    | None => mret (inl acc)
    | Some item =>
      match on_item acc item with
      | inl acc' => recv_loop fuel' on_item acc'
      | inr b => mret (inr b)
      end
    end
  end.

Definition branch_step_result (b : BranchResult) : StepResult :=
  MkStepResult (br_agent_name b) (br_response b) (br_usage b).

Definition total_branches (bs : list BranchResult) : Usage := foldl usage_merge usage_default (map br_usage bs).

Definition merged (final_response : string) (bs : list BranchResult) : PipelineOutput :=
  MkPipelineOutput id final_response (map branch_step_result bs) (total_branches bs).

(** All slots filled, or the first that is not.
    @src patterns/src/pipeline/parallel.rs:212-218 [merge_concat, slots (brace)] *)
Fixpoint take_slots (index : nat) (slots : list (option BranchResult)) : result (list BranchResult) PipelineError :=
  match slots with
  | [] => Ok []
  | None :: _ => Err (missing_branch_result_error index ("parallel-branch-" ++ pretty index)%string)
  | Some b :: slots' =>
    match take_slots (S index) slots' with Ok bs => Ok (b :: bs) | Err e => Err e end
  end.

(** [results[idx] = Some(branch)]; the index is that of the branch's task. *)
Definition fill_slot (slots : list (option BranchResult)) (item : Item) :
    list (option BranchResult) + PipelineError :=
  match item with
  | Ok branch => inl (<[br_index branch := Some branch]> slots)
  | Err e => inr e
  end.

(** The branches in declaration order, or the first error.
    @src patterns/src/pipeline/parallel.rs:370-376 [merge_custom, collect] *)
Definition collect_all : M (result (list BranchResult) PipelineError) :=
  recv_loop (S (length branches)) fill_slot (replicate (length branches) None) ≫= fun r =>
  mret (match r with inl slots => take_slots 0 slots | inr e => Err e end).

(** @src patterns/src/pipeline/parallel.rs:193-239 [merge_concat] *)
Definition merge_concat (separator : string) : M (result PipelineOutput PipelineError) :=
  collect_all ≫= fun r =>
  mret (match r with Ok bs => Ok (merged (join separator (map br_response bs)) bs) | Err e => Err e end).

(** [get_or_insert] *)
Definition or_insert {A} (o : option A) (a : A) : option A := match o with Some _ => o | None => Some a end.

(** @src patterns/src/pipeline/parallel.rs:252-279 [merge_first, an item] *)
Definition first_item (first_error : option PipelineError) (item : Item) : option PipelineError + BranchResult :=
  match item with Ok branch => inr branch | Err e => inl (or_insert first_error e) end.

(** @src patterns/src/pipeline/parallel.rs:242-291 [merge_first] *)
Definition merge_first : M (result PipelineOutput PipelineError) :=
  recv_loop (S (length branches)) first_item None ≫= fun r =>
  match r with
  | inr branch =>
    modify cancel_child ≫= fun _ => mret (Ok (merged (br_response branch) [branch]))
  | inl (Some error) => mret (Err error)
  | inl None => mret (Err (StepFailed 0 "parallel" (Failure "all parallel branches failed")))
  end.

(** A stable sort by the branches' indices. *)
Fixpoint insert_by_index (b : BranchResult) (bs : list BranchResult) : list BranchResult :=
  match bs with
  | [] => [b]
  | b' :: bs' => if (br_index b <=? br_index b')%nat then b :: bs else b' :: insert_by_index b bs'
  end.

Definition sort_by_index (bs : list BranchResult) : list BranchResult := foldr insert_by_index [] bs.

(** @src patterns/src/pipeline/parallel.rs:305-318 [merge_fastest, an item] *)
Definition fastest_item (n : nat) (acc : list BranchResult * option PipelineError) (item : Item) :
    (list BranchResult * option PipelineError) + (list BranchResult * option PipelineError) :=
  let '(collected, first_error) := acc in
  match item with
  | Ok branch =>
    let collected := collected ++ [branch] in
    if (n <=? length collected)%nat then inr (collected, first_error) else inl (collected, first_error)
  | Err e => inl (collected, or_insert first_error e)
  end.

(** @src patterns/src/pipeline/parallel.rs:294-357 [merge_fastest] *)
Definition merge_fastest (n : nat) : M (result PipelineOutput PipelineError) :=
  recv_loop (S (length branches)) (fastest_item n) ([], None) ≫= fun r =>
  match r with
  | inr acc => modify cancel_child ≫= fun _ => mret acc
  | inl acc => mret acc
  end ≫= fun '(collected, first_error) =>
  match collected with
  | [] =>
    mret (Err (default (StepFailed 0 "parallel" (Failure "no parallel branches completed successfully")) first_error))
  | _ =>
    let collected := sort_by_index collected in
    mret (Ok (merged (join (String LF "") (map br_response collected)) collected))
  end.

(** A program over the pipeline's world. *)
Definition in_world {A} (m : Prog (PipelineWorld W) A) : M A :=
  fun s => match m (pa_world s) with Some (a, w) => Some (a, on_world (fun _ => w) s) | None => None end.

(** What the aggregator is asked. *)
Definition formatted (bs : list BranchResult) : string :=
  join (String LF (String LF "")) (map (fun b => ("[" ++ br_agent_name b ++ "]: " ++ br_response b)%string) bs).

(** The aggregator's part of a custom merge.
    @src patterns/src/pipeline/parallel.rs:400-435 [merge_custom, aggregator (brace)] *)
Definition aggregate (aggregator : string) (bs : list BranchResult) :
    Prog (PipelineWorld W) (result PipelineOutput PipelineError) :=
  and_then (call (create aggregator)) (fun agent =>
  gets (fun w => factory_now (pw_host w)) ≫= fun now =>
  call (prompt agent [Llm (User (MkUserMessage [Text (formatted bs)] now None))]) ≫= fun r =>
  mret (match r with
        | Err e => Err (StepFailed (length branches) aggregator (AgentFailure e))
        | Ok res =>
          Ok (MkPipelineOutput id (extract_text_response res)
                (map branch_step_result bs ++ [step_result aggregator res])
                (usage_add (total_branches bs) (res_usage res)))
        end)).

(** @src patterns/src/pipeline/parallel.rs:361-436 [merge_custom] *)
Definition merge_custom (aggregator : string) : M (result PipelineOutput PipelineError) :=
  collect_all ≫= fun r =>
  match r with
  | Err e => mret (Err e)
  | Ok bs => in_world (aggregate aggregator bs)
  end.

(** @src patterns/src/pipeline/parallel.rs:159-179 [run_parallel, merge] *)
Definition merge (merge_strategy : MergeStrategy) : M (result PipelineOutput PipelineError) :=
  match merge_strategy with
  | Concat separator => merge_concat separator
  | First => merge_first
  | Fastest n => merge_fastest n
  | CustomMerge aggregator => merge_custom aggregator
  end.

(** What the branches still do once the result is there. *)
Definition aftermath (schedule : list Choice) (s : ParWorld) : ParWorld := foldl (fun s c => choose c s) s schedule.

End Run.

(** @src patterns/src/pipeline/parallel.rs:44-190 [run_parallel] *)
Definition run_parallel (id : PipelineId) (name : string) (branches : list string) (merge_strategy : MergeStrategy)
    (input : string) (schedule : list Choice) (w : PipelineWorld W) :
    option (result PipelineOutput PipelineError * ParWorld) :=
  if cancelled (pw_host w) then Some (Err PipelineCancelled, MkParWorld w false [] [] [] schedule)
  else
    let s := MkParWorld (emit_event (Started id name) w) false (replicate (length branches) Spawned) [] [] schedule in
    match merge id branches input merge_strategy s with
    | None => None
    | Some (Ok out, s) => Some (Ok out, on_world (emit_event (Completed (po_pipeline_id out) (po_total_usage out))) s)
    | Some (Err e, s) => Some (Err e, s)
    end.

(** ** The executor *)

Context {Regex : Type} (is_match : Regex -> string -> bool).

(** A run without branches. *)
Definition alone (r : option (result PipelineOutput PipelineError * PipelineWorld W)) :
    option (result PipelineOutput PipelineError * ParWorld) :=
  match r with Some (r, w) => Some (r, MkParWorld w false [] [] [] []) | None => None end.

(** @src patterns/src/pipeline/executor.rs:119-167 [PipelineExecutor::run, dispatch] *)
Definition run_pipeline (pipeline : Pipeline Regex) (input : string) (schedule : list Choice) (w : PipelineWorld W) :
    option (result PipelineOutput PipelineError * ParWorld) :=
  match pipeline with
  | Sequential id name steps pass_context => alone (run_sequential id name steps pass_context input w)
  | Parallel id name branches merge_strategy => run_parallel id name branches merge_strategy input schedule w
  | Loop id name body exit_condition max_iterations =>
    alone (run_loop is_match id name body exit_condition max_iterations input w)
  end.

Definition report_failure (id : PipelineId) (e : PipelineError) (w : PipelineWorld W) : PipelineWorld W :=
  emit_event (Failed id (pipeline_error_display e)) w.

(** @src patterns/src/pipeline/executor.rs:102-177 [PipelineExecutor::run] *)
Definition run (registry : PipelineRegistry Regex) (id : PipelineId) (input : string) (schedule : list Choice)
    (w : PipelineWorld W) : option (result PipelineOutput PipelineError * ParWorld) :=
  match registry_get id registry with
  | None =>
    alone (Some (Err (PipelineNotFound id), report_failure id (PipelineNotFound id) w))
  | Some pipeline =>
    match run_pipeline pipeline input schedule w with
    | None => None
    | Some (Ok out, s) => Some (Ok out, s)
    | Some (Err e, s) => Some (Err e, on_world (report_failure id e) s)
    end
  end.

(** The tool around a pipeline; [parse_params] decodes [PipelineToolParams].
    @src patterns/src/pipeline/tool.rs:92-104 [PipelineTool::execute] *)
Definition pipeline_tool (parse_params : Value -> result string string) (registry : PipelineRegistry Regex)
    (id : PipelineId) (params : Value) (schedule : list Choice) (w : PipelineWorld W) :
    option (AgentToolResult * ParWorld) :=
  match parse_params params with
  | Err e => Some (tool_error ("invalid parameters: " ++ e), MkParWorld w false [] [] [] schedule)
  | Ok input =>
    match run registry id input schedule w with
    | None => None
    | Some (Ok output, s) => Some (tool_text (po_final_response output), s)
    | Some (Err e, s) => Some (tool_error ("pipeline error: " ++ pipeline_error_display e), s)
    end
  end.

End Parallel.
Arguments Choice W : clear implicits.
