(* ===== verification/ParallelSpec.v ===== *)
(** * What a parallel pipeline promises

    The invariant of the tasks and the channel, how the receiver gets on under
    any schedule, and what each merge strategy makes of the items it got. *)
From S2P Require Export Parallel.
Open Scope string_scope.
Open Scope list_scope.

Section Spec.
Context `{E : Ext} {W : Type} `{F : !AgentFactory W}.

Section Inv.
Variables (id : PipelineId) (branches : list string) (input : string).

#[local] Abbreviation n := (length branches).

(** An item as branch [i] may send it: a result is the branch's own, and was reported. *)
Definition sent_by (w : PipelineWorld W) (i : nat) (item : Item) : Prop :=
  i < n
  /\ match item with
     | Ok b =>
       br_index b = i /\ branches !! i = Some (br_agent_name b)
       /\ StepCompleted id i (br_agent_name b) (br_usage b) ∈ pw_events w
     | Err _ => True
     end.

Definition log (s : ParWorld (W := W)) : list (nat * Item) := pa_received s ++ pa_channel s.

Record par_inv (s : ParWorld) : Prop := MkParInv {
  inv_len : length (pa_tasks s) = n;
  inv_nodup : NoDup (map fst (log s));
  inv_ended : forall i, i ∈ map fst (log s) <-> pa_tasks s !! i = Some Ended;
  inv_sent : Forall (fun p => sent_by (pa_world s) (fst p) (snd p)) (log s);
  inv_sending : forall i item, pa_tasks s !! i = Some (Sending item) -> sent_by (pa_world s) i item;
}.

Lemma sent_by_mono w w' i item : pw_events w ⊆ pw_events w' -> sent_by w i item -> sent_by w' i item.
Proof. intros Hw [Hi Hc]. split; [done|]. destruct item; naive_solver. Qed.

(** A task that has not ended moves on without sending. *)
Lemma inv_move s i t t' w' :
  par_inv s -> pw_events (pa_world s) ⊆ pw_events w' ->
  pa_tasks s !! i = Some t -> t <> Ended -> t' <> Ended ->
  (forall item, t' = Sending item -> sent_by w' i item) ->
  par_inv (put_task i t' (on_world (fun _ => w') s)).
Proof.
  intros [Hl Hn He Hs Hg] Hw Ht Hne Hne' Hok. split; cbn in *.
  - by rewrite length_insert.
  - done.
  - intros j. unfold log in *. cbn. rewrite He. destruct (decide (i = j)) as [<-|Hij].
    + rewrite list_lookup_insert_eq by (by eapply lookup_lt_Some). split; congruence.
    + by rewrite list_lookup_insert_ne.
  - eapply Forall_impl; [exact Hs|]. intros p. by apply sent_by_mono.
  - intros j item. destruct (decide (i = j)) as [<-|Hij].
    + rewrite list_lookup_insert_eq by (by eapply lookup_lt_Some). intros [= ->]. by apply Hok.
    + rewrite list_lookup_insert_ne by done. intros Hj. eapply sent_by_mono; [exact Hw|]. by apply Hg.
Qed.

Lemma inv_world s w' : par_inv s -> pw_events (pa_world s) ⊆ pw_events w' -> par_inv (on_world (fun _ => w') s).
Proof.
  intros [Hl Hn He Hs Hg] Hw. split; cbn in *; try done.
  - eapply Forall_impl; [exact Hs|]. intros p. by apply sent_by_mono.
  - intros j item Hj. eapply sent_by_mono; [exact Hw|]. by apply Hg.
Qed.

Lemma inv_send s i item :
  par_inv s -> pa_tasks s !! i = Some (Sending item) ->
  par_inv (put_task i Ended (put_channel (pa_channel s ++ [(i, item)]) s)).
Proof.
  intros [Hl Hn He Hs Hg] Ht.
  assert (Hlog : log (put_task i Ended (put_channel (pa_channel s ++ [(i, item)]) s)) = log s ++ [(i, item)]).
  { unfold log. cbn. by rewrite app_assoc. }
  split; rewrite ?Hlog, ?map_app; cbn.
  - by rewrite length_insert.
  - apply NoDup_app. split_and!; [done| |by apply NoDup_singleton].
    intros j Hj. rewrite list_elem_of_singleton. intros ->. apply He in Hj. congruence.
  - intros j. rewrite elem_of_app, list_elem_of_singleton, He. destruct (decide (i = j)) as [<-|Hij].
    + rewrite list_lookup_insert_eq by (by eapply lookup_lt_Some). naive_solver.
    + rewrite list_lookup_insert_ne by done. naive_solver.
  - apply Forall_app. split; [done|]. apply Forall_singleton. by apply Hg.
  - intros j item'. destruct (decide (i = j)) as [<-|Hij].
    + by rewrite list_lookup_insert_eq by (by eapply lookup_lt_Some).
    + rewrite list_lookup_insert_ne by done. apply Hg.
Qed.

Lemma start_branch_inv s i name :
  par_inv s -> pa_tasks s !! i = Some Spawned -> i < n -> par_inv (start_branch id input i name s).
Proof.
  intros Hinv Ht Hi. unfold start_branch. destruct (token_cancelled s).
  { refine (inv_move s i _ _ (pa_world s) Hinv _ Ht _ _ _); [done..|]. by intros item [= <-]. }
  cbn. destruct (create name _) as [r h]. 
  refine (inv_move s i _ _ (MkPipelineWorld h (pw_events (pa_world s) ++ [StepStarted id i name])) Hinv _ Ht _ _ _).
  - cbn. set_solver.
  - done.
  - by destruct r as [[]|].
  - by intros item; destruct r as [[]|]; intros [= <-].
Qed.

Lemma finish_branch_inv s i name agent msgs :
  par_inv s -> pa_tasks s !! i = Some (Prompting agent msgs) -> branches !! i = Some name ->
  par_inv (finish_branch id i name agent msgs s).
Proof.
  intros Hinv Ht Hn. assert (Hi : i < n) by (by eapply lookup_lt_Some).
  unfold finish_branch. destruct (prompt agent msgs _) as [r h].
  destruct r as [[res|e]|].
  - refine (inv_move s i _ _ (MkPipelineWorld h (pw_events (pa_world s) ++ [StepCompleted id i name (res_usage res)]))
      Hinv _ Ht _ _ _); cbn; [set_solver|done|done|].
    intros item [= <-]. split; [done|]. cbn. split_and!; [done..|]. set_solver.
  - refine (inv_move s i _ _ (MkPipelineWorld h (pw_events (pa_world s))) Hinv _ Ht _ _ _); cbn; [done..|].
    by intros item [= <-].
  - refine (inv_move s i _ _ (MkPipelineWorld h (pw_events (pa_world s))) Hinv _ Ht _ _ _); cbn; [done..|].
    by intros item [= <-].
Qed.

Lemma branch_step_inv i abandons s : par_inv s -> par_inv (branch_step id branches input i abandons s).
Proof.
  intros Hinv. unfold branch_step. destruct (pa_tasks s !! i) as [[|agent msgs|item|]|] eqn:Ht; try done.
  - destruct (branches !! i) eqn:Hn; [|done]. apply start_branch_inv; [done..|]. by eapply lookup_lt_Some.
  - destruct (branches !! i) as [name|] eqn:Hn; [|done]. destruct abandons; [|by apply finish_branch_inv].
    destruct (token_cancelled s); [|done].
    refine (inv_move s i _ _ (MkPipelineWorld _ (pw_events (pa_world s))) Hinv _ Ht _ _ _); cbn; [done..|].
    intros item [= <-]. split; [|done]. by eapply lookup_lt_Some.
  - by apply inv_send.
Qed.

Lemma choose_inv c s : par_inv s -> par_inv (choose id branches input c s).
Proof.
  intros Hinv. destruct c; cbn; [by apply branch_step_inv|by apply inv_world|done].
Qed.

(** The branches do not touch what was received. *)
Lemma branch_step_received i abandons s : pa_received (branch_step id branches input i abandons s) = pa_received s.
Proof.
  unfold branch_step, start_branch, finish_branch. repeat case_match; try done; cbn;
    repeat (case_match; cbn in *; simplify_eq; try done).
Qed.

Lemma choose_received c s : pa_received (choose id branches input c s) = pa_received s.
Proof. destruct c; [apply branch_step_received|done|done]. Qed.

(** How many steps a branch still needs. *)
Definition rank (t : BranchState) : nat :=
  match t with Spawned => 3 | Prompting _ _ => 2 | Sending _ => 1 | Ended => 0 end.

Lemma branch_step_rank i s t :
  par_inv s -> pa_tasks s !! i = Some t ->
  exists t', pa_tasks (branch_step id branches input i false s) !! i = Some t' /\ rank t' <= rank t - 1.
Proof.
  intros Hinv Ht. assert (Hi : i < length (pa_tasks s)) by (by eapply lookup_lt_Some).
  assert (Hb : is_Some (branches !! i)) by (apply lookup_lt_is_Some; by rewrite <- (inv_len _ Hinv)).
  destruct Hb as [name Hb]. unfold branch_step. rewrite Ht, Hb. destruct t as [|agent msgs|item|].
  - unfold start_branch. destruct (token_cancelled s).
    { eexists. split; [by apply list_lookup_insert_eq|]. cbn. lia. }
    cbn. destruct (create name _) as [r h]. eexists. split; [by apply list_lookup_insert_eq|].
    destruct r as [[]|]; cbn; lia.
  - unfold finish_branch. destruct (prompt agent msgs _) as [[[res|e]|] h];
      (eexists; split; [by apply list_lookup_insert_eq|cbn; lia]).
  - eexists. split; [by apply list_lookup_insert_eq|]. cbn. lia.
  - exists Ended. split; [done|cbn; lia].
Qed.

Lemma branch_runs_out i s t :
  par_inv s -> pa_tasks s !! i = Some t ->
  pa_tasks (Nat.iter 3 (branch_step id branches input i false) s) !! i = Some Ended.
Proof.
  intros Hinv Ht. cbn [Nat.iter].
  pose proof (branch_step_inv i false _ Hinv) as Hinv1. pose proof (branch_step_inv i false _ Hinv1) as Hinv2.
  destruct (branch_step_rank i s t Hinv Ht) as (t1 & H1 & R1).
  destruct (branch_step_rank i _ t1 Hinv1 H1) as (t2 & H2 & R2).
  destruct (branch_step_rank i _ t2 Hinv2 H2) as (t3 & H3 & R3).
  cbn. rewrite H3. f_equal. destruct t, t1, t2, t3; cbn in *; (done || lia).
Qed.

Lemma iter_step_inv k i s : par_inv s -> par_inv (Nat.iter k (branch_step id branches input i false) s).
Proof. intros Hinv. induction k as [|k IH]; [done|]. by apply branch_step_inv. Qed.

Lemma iter_step_received k i s :
  pa_received (Nat.iter k (branch_step id branches input i false) s) = pa_received s.
Proof. induction k as [|k IH]; [done|]. by rewrite Nat.iter_succ, branch_step_received. Qed.

Lemma take_item_inv s : par_inv s -> par_inv (snd (take_item s)).
Proof.
  unfold take_item. destruct (pa_channel s) as [|[i item] c] eqn:Hc; [done|].
  intros [Hl Hn He Hs Hg]. unfold log in *. rewrite Hc in *.
  split; unfold log; cbn; rewrite <- ?(app_assoc (pa_received s)); done.
Qed.

(** All branches are done and everything they sent was received. *)
Definition exhausted (s : ParWorld (W := W)) : Prop :=
  pa_channel s = [] /\ Forall (fun t => ended t = true) (pa_tasks s).

(** What a call of [recv] gives. *)
Definition received_one (s : ParWorld) (o : option Item) (s' : ParWorld) : Prop :=
  par_inv s'
  /\ match o with
     | Some item => exists i, pa_received s' = pa_received s ++ [(i, item)]
     | None => pa_received s' = pa_received s /\ exhausted s'
     end.

Lemma take_item_some s : par_inv s -> pa_channel s <> [] ->
  received_one s (fst (take_item s)) (snd (take_item s)).
Proof.
  intros Hinv Hc. split; [by apply take_item_inv|]. unfold take_item.
  destruct (pa_channel s) as [|[i item] c]; [done|]. by exists i.
Qed.

Lemma take_item_none s : par_inv s -> position (fun t => negb (ended t)) (pa_tasks s) = None ->
  received_one s (fst (take_item s)) (snd (take_item s)).
Proof.
  intros Hinv Hp. destruct (pa_channel s) as [|p c] eqn:Hc; [|apply take_item_some; [done|by rewrite Hc]].
  unfold take_item. rewrite Hc. split; [done|]. split; [done|]. split; [done|].
  apply position_None in Hp. eapply Forall_impl; [exact Hp|]. intros t Ht. cbn in Ht. by apply negb_false_iff in Ht.
Qed.

Lemma settled_channel s i :
  par_inv s -> pa_channel s = [] -> position (fun t => negb (ended t)) (pa_tasks s) = Some i ->
  pa_channel (Nat.iter 3 (branch_step id branches input i false) s) <> [].
Proof.
  intros Hinv Hc Hp. apply position_Some in Hp as (t & Ht & Hne).
  pose proof (branch_runs_out i s t Hinv Ht) as Hend.
  apply (inv_ended _ (iter_step_inv 3 i s Hinv)) in Hend. unfold log in Hend.
  rewrite iter_step_received, map_app, elem_of_app in Hend. destruct Hend as [Hend|Hend].
  - assert (Hs : i ∈ map fst (log s)) by (unfold log; rewrite Hc, app_nil_r; exact Hend).
    apply (inv_ended _ Hinv) in Hs. rewrite Ht in Hs. by injection Hs as ->.
  - intros H0. rewrite H0 in Hend. by apply elem_of_nil in Hend.
Qed.

Lemma received_one_from s s1 o s' :
  pa_received s1 = pa_received s -> received_one s1 o s' -> received_one s o s'.
Proof. unfold received_one. by intros ->. Qed.

Lemma receive_spec schedule s :
  par_inv s -> received_one s (fst (receive id branches input schedule s)) (snd (receive id branches input schedule s)).
Proof.
  revert s. induction schedule as [|c schedule IH]; intros s Hinv; cbn [receive].
  - assert (Hinv' : par_inv (put_schedule [] s)) by (by destruct Hinv; split).
    destruct (pa_channel _) as [|p ch] eqn:Hc.
    + destruct (position _ _) as [i|] eqn:Hp.
      * eapply received_one_from; [|apply take_item_some; [by apply iter_step_inv|by apply settled_channel]].
        by rewrite iter_step_received.
      * eapply received_one_from; [|by apply take_item_none]. done.
    + eapply received_one_from; [|apply take_item_some; [done|by rewrite Hc]]. done.
  - assert (Hinv' : par_inv (put_schedule schedule s)) by (by destruct Hinv; split).
    destruct c as [i abandons|f|].
    1, 2: eapply received_one_from; [|apply IH, choose_inv, Hinv]; apply choose_received.
    destruct (pa_channel s) as [|p ch] eqn:Hc.
    + destruct (position _ _) as [i|] eqn:Hp; [by apply IH|].
      eapply received_one_from; [|by apply take_item_none]. done.
    + eapply received_one_from; [|apply take_item_some; [done|]]; [done|]. cbn. by rewrite Hc.
Qed.

(** ** The receiver's loop *)

Lemma exhausted_indices s : par_inv s -> exhausted s -> map fst (pa_received s) ≡ₚ seq 0 n.
Proof.
  intros Hinv [Hc Ht]. pose proof (inv_nodup _ Hinv) as Hn. pose proof (inv_ended _ Hinv) as He.
  unfold log in *. rewrite Hc, app_nil_r in *. apply NoDup_Permutation; [done|apply NoDup_seq|].
  intros i. rewrite He, elem_of_seq. split.
  - intros Hi%lookup_lt_Some. rewrite (inv_len _ Hinv) in Hi. lia.
  - intros [_ Hi]. cbn in Hi. rewrite <- (inv_len _ Hinv) in Hi. apply lookup_lt_is_Some in Hi as [t Hi].
    rewrite Forall_lookup in Ht. specialize (Ht _ _ Hi). by destruct t.
Qed.

Lemma received_bound s : par_inv s -> length (pa_received s) <= n.
Proof.
  intros Hinv. rewrite <- (length_map fst). replace n with (length (seq 0 n)) by apply length_seq.
  apply submseteq_length, NoDup_submseteq.
  - pose proof (inv_nodup _ Hinv) as Hn. unfold log in Hn. rewrite map_app in Hn. by apply NoDup_app in Hn as [? _].
  - intros i Hi. assert (Hl : i ∈ map fst (log s)) by (unfold log; rewrite map_app; by apply elem_of_app; left).
    apply (inv_ended _ Hinv), lookup_lt_Some in Hl. rewrite (inv_len _ Hinv) in Hl. apply elem_of_seq. lia.
Qed.

(** [P rs acc]: what the loop has after receiving [rs]. *)
Lemma recv_loop_spec {A B} (on_item : A -> Item -> A + B) (P : list (nat * Item) -> A -> Prop) fuel acc s :
  par_inv s -> P (pa_received s) acc ->
  (forall s' rs acc i item acc', par_inv s' -> pa_received s' = rs ++ [(i, item)] -> P rs acc ->
     on_item acc item = inl acc' -> P (rs ++ [(i, item)]) acc') ->
  S n <= fuel + length (pa_received s) ->
  exists r s', recv_loop id branches input fuel on_item acc s = Some (r, s') /\ par_inv s'
    /\ match r with
       | inl acc' => P (pa_received s') acc' /\ exhausted s'
       | inr b => exists rs acc' i item, pa_received s' = rs ++ [(i, item)] /\ P rs acc' /\ on_item acc' item = inr b
       end.
Proof.
  intros Hinv HP Hstep. revert acc s Hinv HP. induction fuel as [|fuel IH]; intros acc s Hinv HP Hf.
  { pose proof (received_bound s Hinv). lia. }
  cbn [recv_loop]. unfold recv, mbind, prog_bind.
  destruct (receive_spec (pa_schedule s) s Hinv) as [Hinv' Hone].
  destruct (receive _ _ _ _ _) as [[item|] s'] eqn:Hr; cbn in Hinv', Hone.
  - destruct Hone as (i & Hrs). destruct (on_item acc item) as [acc'|b] eqn:Ho.
    + apply IH; [done| |rewrite Hrs, length_app; cbn; lia]. rewrite Hrs. by eapply Hstep.
    + exists (inr b), s'. split_and!; [done..|]. by exists (pa_received s), acc, i, item.
  - destruct Hone as [Hrs Hex]. exists (inl acc), s'. split_and!; [done..|by rewrite Hrs|done].
Qed.

(** ** What the strategies make of the items *)

Definition oks (rs : list (nat * Item)) : list BranchResult :=
  filtermap (fun p => match snd p with Ok b => Some b | Err _ => None end) rs.

Definition errs (rs : list (nat * Item)) : list PipelineError :=
  filtermap (fun p => match snd p with Ok _ => None | Err e => Some e end) rs.

Lemma received_nodup s : par_inv s -> NoDup (map fst (pa_received s)).
Proof. intros Hinv. pose proof (inv_nodup _ Hinv) as Hn. unfold log in Hn. rewrite map_app in Hn. by apply NoDup_app in Hn as [? _]. Qed.

Lemma received_sent s : par_inv s -> Forall (fun p => sent_by (pa_world s) (fst p) (snd p)) (pa_received s).
Proof. intros Hinv. pose proof (inv_sent _ Hinv) as Hs. unfold log in Hs. by apply Forall_app in Hs as [? _]. Qed.

(** The last item received is its branch's only one. *)
Lemma received_last s rs i item :
  par_inv s -> pa_received s = rs ++ [(i, item)] -> (i ∉ map fst rs) /\ sent_by (pa_world s) i item.
Proof.
  intros Hinv Hrs. pose proof (received_nodup s Hinv) as Hn. pose proof (received_sent s Hinv) as Hs.
  rewrite Hrs in *. rewrite map_app in Hn. apply NoDup_app in Hn as (_ & Hd & _).
  apply Forall_app in Hs as [_ Hs]. split; [|by inversion Hs].
  intros Hi. by apply (Hd i Hi), list_elem_of_singleton.
Qed.

Lemma oks_subset s rs :
  Forall (fun p => sent_by (pa_world s) (fst p) (snd p)) rs -> map br_index (oks rs) ⊆ map fst rs.
Proof.
  induction 1 as [|[i item] rs [_ Hi] _ IH]; [done|]. destruct item as [b|e]; cbn in *; [|set_solver].
  destruct Hi as [-> _]. set_solver.
Qed.

Lemma oks_nodup s rs :
  Forall (fun p => sent_by (pa_world s) (fst p) (snd p)) rs -> NoDup (map fst rs) -> NoDup (map br_index (oks rs)).
Proof.
  intros Hs Hn. induction Hs as [|[i item] rs [_ Hi] Hs IH]; [constructor|].
  apply NoDup_cons in Hn as [Hni Hn]. destruct item as [b|e]; cbn in *; [|by apply IH].
  destruct Hi as [-> _]. constructor; [|by apply IH]. intros Hin. by apply Hni, (oks_subset s rs Hs).
Qed.

(** A result per branch, in declaration order. *)
Definition in_order (rs : list (nat * Item)) (bs : list BranchResult) : Prop :=
  map br_index bs = seq 0 n /\ bs ≡ₚ oks rs /\ length rs = n.

(** [e] is the first error, and the last item received. *)
Definition first_error (rs : list (nat * Item)) (e : PipelineError) : Prop :=
  exists pre i, rs = pre ++ [(i, Err e)] /\ errs pre = [].

(** The slots after receiving [rs]. *)
Definition slots_hold (rs : list (nat * Item)) (slots : list (option BranchResult)) : Prop :=
  errs rs = [] /\ length slots = n /\ forall i b, slots !! i = Some (Some b) <-> (i, Ok b) ∈ rs.

Lemma errs_app rs rs' : errs (rs ++ rs') = errs rs ++ errs rs'.
Proof. apply filtermap_app. Qed.

Lemma oks_app rs rs' : oks (rs ++ rs') = oks rs ++ oks rs'.
Proof. apply filtermap_app. Qed.

Lemma elem_of_oks b rs : b ∈ oks rs <-> exists i, (i, Ok b) ∈ rs.
Proof.
  unfold oks. rewrite elem_of_filtermap. split.
  - intros ([i [b'|e]] & Hin & Hb); cbn in Hb; [|done]. injection Hb as ->. by exists i.
  - intros [i Hin]. by exists (i, Ok b).
Qed.

Lemma slots_hold_start : slots_hold [] (replicate n None).
Proof.
  split_and!; [done|by rewrite length_replicate|]. intros i b. split; [|by intros ?%elem_of_nil].
  by intros [? _]%lookup_replicate.
Qed.

Lemma slots_hold_step s rs slots i item slots' :
  par_inv s -> pa_received s = rs ++ [(i, item)] -> slots_hold rs slots ->
  fill_slot slots item = inl slots' -> slots_hold (rs ++ [(i, item)]) slots'.
Proof.
  intros Hinv Hrs (He & Hl & Hb) Hf. destruct (received_last s rs i item Hinv Hrs) as [Hni [Hi Hit]].
  destruct item as [b|e]; [|done]. cbn in Hf. injection Hf as <-. destruct Hit as [Hbi _].
  split_and!; [by rewrite errs_app, He|by rewrite length_insert|].
  intros j b'. rewrite elem_of_app, list_elem_of_singleton, Hbi. destruct (decide (i = j)) as [<-|Hij].
  - rewrite list_lookup_insert_eq by lia. split; [intros [= ->]; by right|].
    intros [Hin|[= ->]]; [|done]. exfalso. apply Hni. apply (list_elem_of_fmap_2 fst) in Hin. exact Hin.
  - rewrite list_lookup_insert_ne by done. rewrite Hb. split; [by left|]. intros [?|[= ??]]; [done|congruence].
Qed.

Lemma take_slots_full k bs : take_slots k (map Some bs) = Ok bs.
Proof. revert k. induction bs as [|b bs IH]; intros k; [done|]. cbn. by rewrite IH. Qed.

Lemma slots_full (slots : list (option BranchResult)) :
  (forall i, i < length slots -> exists b, slots !! i = Some (Some b)) -> exists bs, slots = map Some bs.
Proof.
  induction slots as [|o slots IH]; intros H; [by exists []|].
  destruct (H 0 ltac:(cbn; lia)) as [b Hb]. injection Hb as ->.
  destruct IH as [bs ->]; [|by exists (b :: bs)]. intros i Hi. apply (H (S i)). cbn. lia.
Qed.

Lemma slots_hold_end s slots :
  par_inv s -> exhausted s -> slots_hold (pa_received s) slots ->
  exists bs, slots = map Some bs /\ in_order (pa_received s) bs.
Proof.
  intros Hinv Hex (He & Hl & Hb). pose proof (exhausted_indices s Hinv Hex) as Hp.
  pose proof (received_sent s Hinv) as Hs. rewrite Forall_forall in Hs.
  destruct (slots_full slots) as [bs ->].
  { intros i Hi. assert (Hin : i ∈ map fst (pa_received s)) by (rewrite Hp, elem_of_seq; lia).
    apply list_elem_of_fmap in Hin as ([j [b|e]] & -> & Hin); [exists b; by apply Hb|].
    exfalso. assert (H0 : e ∈ errs (pa_received s)) by (apply elem_of_filtermap; by eexists).
    rewrite He in H0. by apply elem_of_nil in H0. }
  rewrite length_map in Hl. exists bs. split; [done|].
  assert (Hlook : forall i b, bs !! i = Some b <-> (i, Ok b) ∈ pa_received s).
  { intros i b. rewrite <- Hb, list_lookup_fmap. destruct (bs !! i); cbn; naive_solver. }
  assert (Hidx : map br_index bs = seq 0 n).
  { apply list_eq. intros i. change (map br_index bs) with (br_index <$> bs). rewrite list_lookup_fmap.
    destruct (bs !! i) as [b|] eqn:Hi; cbn.
    - pose proof Hi as Hi'. apply Hlook in Hi'. destruct (Hs _ Hi') as [_ [Hbi _]]. cbn in Hbi.
      symmetry. apply lookup_seq. apply lookup_lt_Some in Hi. lia.
    - symmetry. apply lookup_seq_ge. apply lookup_ge_None in Hi. lia. }
  split_and!; [done| |by rewrite <- (length_map fst), Hp, length_seq].
  apply NoDup_Permutation.
  - apply (NoDup_fmap_1 br_index). change (br_index <$> bs) with (map br_index bs). rewrite Hidx. apply NoDup_seq.
  - apply (NoDup_fmap_1 br_index), (oks_nodup s); [by apply received_sent|by apply received_nodup].
  - intros b. rewrite elem_of_oks, list_elem_of_lookup. by setoid_rewrite Hlook.
Qed.

Lemma collect_all_spec s :
  par_inv s -> pa_received s = [] ->
  exists r s', collect_all id branches input s = Some (r, s') /\ par_inv s'
    /\ match r with
       | Ok bs => in_order (pa_received s') bs
       | Err e => first_error (pa_received s') e
       end.
Proof.
  intros Hinv H0. destruct (recv_loop_spec fill_slot slots_hold (S n) (replicate n None) s) as (r & s' & Hr & Hinv' & Hc).
  - done.
  - rewrite H0. apply slots_hold_start.
  - intros s1 rs acc i item acc' Hi1 Hrs HP Ho. by eapply slots_hold_step.
  - lia.
  - unfold collect_all, mbind, prog_bind. rewrite Hr. eexists _, s'. split; [done|]. split; [done|].
    destruct r as [slots|e].
    + destruct Hc as [HP Hex]. destruct (slots_hold_end s' slots Hinv' Hex HP) as (bs & -> & Ho).
      by rewrite take_slots_full.
    + destruct Hc as (rs & slots & i & item & Hrs & (He & _) & Hf). exists rs, i.
      destruct item; [done|]. cbn in Hf. injection Hf as ->. by split.
Qed.

(** *** First *)

(** Only errors so far, the first of them kept. *)
Definition only_errors (rs : list (nat * Item)) (kept : option PipelineError) : Prop :=
  oks rs = [] /\ kept = head (errs rs).

Lemma head_or_insert {A} (l : list A) a : or_insert (head l) a = head (l ++ [a]).
Proof. by destruct l. Qed.

Lemma merge_first_spec s :
  par_inv s -> pa_received s = [] ->
  exists r s', merge_first id branches input s = Some (r, s') /\ par_inv s'
    /\ match r with
       | Ok out =>
         pa_child s' = true
         /\ exists pre i b, pa_received s' = pre ++ [(i, Ok b)] /\ oks pre = []
              /\ out = merged id (br_response b) [b]
       | Err e =>
         length (pa_received s') = n /\ oks (pa_received s') = []
         /\ e = default (StepFailed 0 "parallel" (Failure "all parallel branches failed")) (head (errs (pa_received s')))
       end.
Proof.
  intros Hinv H0. destruct (recv_loop_spec first_item only_errors (S n) None s) as (r & s' & Hr & Hinv' & Hc).
  - done.
  - by rewrite H0.
  - intros s1 rs acc i item acc' _ _ [Ho ->] Hf. destruct item as [b|e]; [done|]. injection Hf as <-.
    split; [by rewrite oks_app, Ho|]. by rewrite errs_app, head_or_insert.
  - lia.
  - unfold merge_first, mbind, prog_bind.  rewrite Hr. destruct r as [fe|b].
    + destruct Hc as [[Ho ->] Hex].
      assert (Hlen : length (pa_received s') = n).
      { rewrite <- (length_map fst), (exhausted_indices s' Hinv' Hex). apply length_seq. }
      destruct (head (errs (pa_received s'))) as [e|] eqn:He; eexists _, s'; (split; [done|]); by rewrite ?He.
    + destruct Hc as (rs & fe & i & item & Hrs & [Ho ->] & Hf). destruct item as [b'|e]; [|done]. injection Hf as ->.
      eexists _, (cancel_child s'). split; [done|]. split; [by destruct Hinv'|]. split; [done|]. by exists rs, i, b.
Qed.

(** *** Fastest *)

Lemma insert_by_index_perm b bs : insert_by_index b bs ≡ₚ b :: bs.
Proof.
  induction bs as [|b' bs IH]; [done|]. cbn. destruct (_ <=? _)%nat; [done|]. rewrite IH. apply Permutation_swap.
Qed.

Lemma sort_by_index_perm bs : sort_by_index bs ≡ₚ bs.
Proof. induction bs as [|b bs IH]; [done|]. cbn. by rewrite insert_by_index_perm, IH. Qed.

Lemma insert_by_index_sorted b bs :
  Sorted.Sorted le (map br_index bs) -> Sorted.Sorted le (map br_index (insert_by_index b bs)).
Proof.
  induction bs as [|b' bs IH]; intros Hs; cbn; [by repeat constructor|].
  inversion Hs as [|? ? Hs' Hh]; subst. destruct (Nat.leb_spec (br_index b) (br_index b')) as [Hle|Hgt].
  - cbn. constructor; [done|]. by constructor.
  - cbn. constructor; [by apply IH|]. destruct bs as [|b'' bs]; cbn in *; [constructor; lia|].
    inversion Hh; subst. destruct (_ <=? _)%nat; cbn; constructor; lia.
Qed.

Lemma sort_by_index_sorted bs : Sorted.Sorted le (map br_index (sort_by_index bs)).
Proof. induction bs as [|b bs IH]; [constructor|]. by apply insert_by_index_sorted. Qed.

Definition racing (m : nat) (rs : list (nat * Item)) (acc : list BranchResult * option PipelineError) : Prop :=
  acc = (oks rs, head (errs rs)) /\ length (oks rs) < Nat.max 1 m.

(** The branches a race kept: sorted, and all of them when fewer than asked for succeeded. *)
Definition race_won (m : nat) (rs : list (nat * Item)) (stopped : bool) (bs : list BranchResult) : Prop :=
  bs ≡ₚ oks rs /\ Sorted.Sorted le (map br_index bs) /\ bs <> []
  /\ if stopped then length bs = Nat.max 1 m /\ exists pre i b, rs = pre ++ [(i, Ok b)]
     else length rs = n /\ length bs < m.

(** Receiving cancels nothing. *)
Lemma branch_step_child i abandons s : pa_child (branch_step id branches input i abandons s) = pa_child s.
Proof.
  unfold branch_step, start_branch, finish_branch. repeat case_match; try done; cbn;
    repeat (case_match; cbn in *; simplify_eq; try done).
Qed.

Lemma take_item_child s : pa_child (snd (take_item s)) = pa_child s.
Proof. unfold take_item. by destruct (pa_channel s) as [|[]]. Qed.

Lemma iter_step_child k i s : pa_child (Nat.iter k (branch_step id branches input i false) s) = pa_child s.
Proof. induction k as [|k IH]; [done|]. by rewrite Nat.iter_succ, branch_step_child. Qed.

Lemma receive_child schedule s : pa_child (snd (receive id branches input schedule s)) = pa_child s.
Proof.
  revert s. induction schedule as [|c schedule IH]; intros s; cbn [receive].
  - destruct (pa_channel _); [destruct (position _ _)|]; by rewrite take_item_child, ?iter_step_child.
  - destruct c; [by rewrite IH; apply branch_step_child|by rewrite IH|].
    destruct (pa_channel _); [destruct (position _ _)|]; by rewrite ?IH, ?take_item_child.
Qed.

Lemma recv_loop_child {A B} fuel (on_item : A -> Item -> A + B) acc s r s' :
  recv_loop id branches input fuel on_item acc s = Some (r, s') -> pa_child s' = pa_child s.
Proof.
  revert acc s. induction fuel as [|fuel IH]; intros acc s; [done|]. cbn [recv_loop].
  unfold recv, mbind, prog_bind. pose proof (receive_child (pa_schedule s) s) as Hc.
  destruct (receive _ _ _ _ _) as [[item|] s1]; cbn in Hc; [|by intros [= <- <-]].
  destruct (on_item acc item); [|by intros [= <- <-]]. intros Hr. by rewrite (IH _ _ Hr).
Qed.

Lemma merge_fastest_spec m s :
  par_inv s -> pa_received s = [] -> pa_child s = false ->
  exists r s', merge_fastest id branches input m s = Some (r, s') /\ par_inv s'
    /\ match r with
       | Ok out =>
         exists bs, race_won m (pa_received s') (pa_child s') bs
           /\ out = merged id (join (String LF "") (map br_response bs)) bs
       | Err e =>
         length (pa_received s') = n /\ oks (pa_received s') = []
         /\ e = default (StepFailed 0 "parallel" (Failure "no parallel branches completed successfully"))
                 (head (errs (pa_received s')))
       end.
Proof.
  intros Hinv H0 Hch.
  destruct (recv_loop_spec (fastest_item m) (racing m) (S n) ([], None) s) as (r & s' & Hr & Hinv' & Hc).
  - done.
  - rewrite H0. split; [done|]. cbn. lia.
  - intros s1 rs acc i item acc' _ _ [-> Hl] Hf. cbn in Hf. unfold racing. rewrite oks_app, errs_app.
    destruct item as [b|e]; cbn in *.
    + destruct (Nat.leb_spec m (length (oks rs ++ [b]))) as [Hm|Hm]; [done|]. injection Hf as <-.
      rewrite app_nil_r. split; [done|lia].
    + injection Hf as <-. by rewrite app_nil_r, head_or_insert.
  - lia.
  - assert (Hch' : pa_child s' = false) by (by rewrite (recv_loop_child _ _ _ _ _ _ Hr)). unfold merge_fastest, mbind, prog_bind.
    rewrite Hr. clear Hr. destruct r as [acc|acc].
    + destruct Hc as [[-> Hl] Hex].
      assert (Hlen : length (pa_received s') = n).
      { rewrite <- (length_map fst), (exhausted_indices s' Hinv' Hex). apply length_seq. }
      cbn. destruct (oks (pa_received s')) as [|b bs] eqn:Hoks.
      { eexists _, s'. by split_and!. }
      eexists _, s'. split; [done|]. split; [done|]. exists (sort_by_index (b :: bs)). split; [|done].
      rewrite Hch'. split_and!; [by rewrite Hoks, sort_by_index_perm|apply sort_by_index_sorted| |done|].
      * intros Hn. pose proof (sort_by_index_perm (b :: bs)) as Hp. rewrite Hn in Hp. by apply Permutation_nil_cons in Hp.
      * rewrite sort_by_index_perm. cbn in *. lia.
    + destruct Hc as (rs & acc' & i & item & Hrs & [-> Hl] & Hf). destruct item as [b|e]; [|done]. cbn in Hf.
      destruct (Nat.leb_spec m (length (oks rs ++ [b]))) as [Hm|Hm]; [|done]. injection Hf as <-.
      assert (Hoks : oks (pa_received s') = oks rs ++ [b]) by (by rewrite Hrs, oks_app).
      cbn. destruct (oks rs ++ [b]) as [|b0 bs] eqn:Hbs; [by destruct (oks rs)|].
      eexists _, (cancel_child s'). split; [done|]. split; [by destruct Hinv'|].
      exists (sort_by_index (b0 :: bs)). split; [|done]. cbn [cancel_child pa_child pa_received].
      split_and!; [by rewrite Hoks, sort_by_index_perm|apply sort_by_index_sorted| | |by exists rs, i, b].
      * intros Hn. pose proof (sort_by_index_perm (b0 :: bs)) as Hp. rewrite Hn in Hp. by apply Permutation_nil_cons in Hp.
      * rewrite sort_by_index_perm, <- Hbs, length_app in *. cbn in *. lia.
Qed.

(** *** All strategies *)

(** The contract of a merge: [rs] is what the receiver got, [stopped] whether it
    cancelled the branches. *)
Definition merge_promise (strategy : MergeStrategy) (rs : list (nat * Item)) (stopped : bool)
    (r : result PipelineOutput PipelineError) : Prop :=
  match strategy, r with
  | Concat separator, Ok out => exists bs, in_order rs bs /\ out = merged id (join separator (map br_response bs)) bs
  | Concat _, Err e => first_error rs e
  | First, Ok out =>
    stopped = true
    /\ exists pre i b, rs = pre ++ [(i, Ok b)] /\ oks pre = [] /\ out = merged id (br_response b) [b]
  | First, Err e =>
    length rs = n /\ oks rs = []
    /\ e = default (StepFailed 0 "parallel" (Failure "all parallel branches failed")) (head (errs rs))
  | Fastest m, Ok out =>
    exists bs, race_won m rs stopped bs /\ out = merged id (join (String LF "") (map br_response bs)) bs
  | Fastest _, Err e =>
    length rs = n /\ oks rs = []
    /\ e = default (StepFailed 0 "parallel" (Failure "no parallel branches completed successfully")) (head (errs rs))
  | CustomMerge aggregator, r =>
    (exists e, r = Err e /\ first_error rs e)
    \/ (exists bs w1 w2, in_order rs bs /\ aggregate id branches aggregator bs w1 = Some (r, w2))
  end.

Lemma merge_spec strategy s :
  par_inv s -> pa_received s = [] -> pa_child s = false ->
  match merge id branches input strategy s with
  | None => exists aggregator, strategy = CustomMerge aggregator
  | Some (r, s') =>
    merge_promise strategy (pa_received s') (pa_child s') r
    /\ NoDup (map fst (pa_received s'))
    /\ ((exists aggregator, strategy = CustomMerge aggregator) \/ par_inv s')
  end.
Proof.
  intros Hinv H0 Hch. destruct strategy as [sep| |m|aggregator]; cbn [merge merge_promise].
  - destruct (collect_all_spec s Hinv H0) as (r & s' & Hr & Hinv' & Hc).
    unfold merge_concat, mbind, prog_bind. rewrite Hr. destruct r as [bs|e]; cbn;
      (split; [|split; [by apply received_nodup|by right]]); [by exists bs|done].
  - destruct (merge_first_spec s Hinv H0) as (r & s' & -> & Hinv' & Hc).
    split; [by destruct r|]. split; [by apply received_nodup|by right].
  - destruct (merge_fastest_spec m s Hinv H0 Hch) as (r & s' & -> & Hinv' & Hc).
    split; [by destruct r|]. split; [by apply received_nodup|by right].
  - destruct (collect_all_spec s Hinv H0) as (r & s' & Hr & Hinv' & Hc).
    unfold merge_custom, mbind, prog_bind. rewrite Hr. destruct r as [bs|e].
    + unfold in_world. destruct (aggregate id branches aggregator bs (pa_world s')) as [[r w]|] eqn:Ha; [|by eexists].
      cbn. split; [|split; [by apply received_nodup|left; by eexists]]. right. by exists bs, (pa_world s'), w.
    + cbn. split; [|split; [by apply received_nodup|by right]]. left. by exists e.
Qed.

(** ** After the result *)

Definition is_start (e : PipelineEvent) : bool := match e with StepStarted _ _ _ => true | _ => false end.

(** The branches that were started. *)
Definition starts (s : ParWorld (W := W)) : list PipelineEvent := List.filter is_start (pw_events (pa_world s)).

Lemma choose_stopped c s :
  pa_child s = true ->
  pa_child (choose id branches input c s) = true /\ starts (choose id branches input c s) = starts s.
Proof.
  intros Hc. destruct c as [i abandons|f|]; cbn [choose]; [|done..]. split; [by rewrite branch_step_child|].
  unfold branch_step, start_branch, finish_branch, token_cancelled. rewrite Hc. cbn [orb].
  repeat case_match; try done; unfold starts; cbn; rewrite ?List.filter_app; cbn; by rewrite ?app_nil_r.
Qed.

Lemma aftermath_stopped schedule s :
  pa_child s = true -> starts (aftermath id branches input schedule s) = starts s.
Proof.
  unfold aftermath. revert s. induction schedule as [|c schedule IH]; intros s Hc; [done|]. cbn [foldl].
  destruct (choose_stopped c s Hc) as [Hc' <-]. by apply IH.
Qed.

Lemma initial_inv name (w : PipelineWorld W) schedule :
  par_inv (MkParWorld (emit_event (Started id name) w) false (replicate n Spawned) [] [] schedule).
Proof.
  split; cbn.
  - by rewrite length_replicate.
  - constructor.
  - intros i. split; [by intros ?%elem_of_nil|]. by intros [? _]%lookup_replicate.
  - constructor.
  - by intros i item [? _]%lookup_replicate.
Qed.

End Inv.

End Spec.

(** ** Evaluated *)

Section Evaluated.
Import Echo.

(** Branch 2 answers before branch 0 is asked; branch 1 starts too late. *)
Definition race : result PipelineOutput PipelineError * ParWorld (W := nat) := Eval vm_compute in
  match run_parallel "p" "race" ["a"; "b"; "c"] (Fastest 2) "hi"
    [Branch 2 false; Branch 2 false; Branch 2 false; Branch 0 false; Branch 0 false; Branch 0 false; Receive; Receive] start with
  | Some r => r
  | None => (Err PipelineCancelled, MkParWorld start false [] [] [] [])
  end.

Lemma race_runs :
  run_parallel "p" "race" ["a"; "b"; "c"] (Fastest 2) "hi"
    [Branch 2 false; Branch 2 false; Branch 2 false; Branch 0 false; Branch 0 false; Branch 0 false; Receive; Receive] start
  = Some (fst race, snd race).
Proof. vm_cast_no_check (eq_refl (Some (fst race, snd race))). Qed.


(** A race for three that is cancelled after the first answer is a success. *)
Definition cut_short : option (result PipelineOutput PipelineError) := Eval vm_compute in
  fst <$> run_parallel "p" "race" ["a"; "b"; "c"] (Fastest 3) "hi"
    [Branch 0 false; Branch 0 false; Branch 0 false; Elsewhere (fun _ => 10)] start.

Lemma cancelled_race_succeeds :
  exists out, cut_short = Some (Ok out) /\ po_final_response out = "a(hi)" /\ length (po_steps out) = 1.
Proof. by eexists. Qed.

(** [Fastest 0] keeps one branch. *)
Definition race_for_none : option (result PipelineOutput PipelineError) := Eval vm_compute in
  fst <$> run_parallel "p" "race" ["a"; "b"] (Fastest 0) "hi" [] start.

Lemma fastest_none_keeps_one : exists out, race_for_none = Some (Ok out) /\ length (po_steps out) = 1.
Proof. by eexists. Qed.
End Evaluated.
