(* ===== verification/PipelineAgents.v ===== *)
(** * Pipelines over the agents of this library

    [ReliableFactory] is what a pipeline needs to know of its factory to be sure
    to return; the factory of [executor.rs] with capped agents satisfies it. *)
From S2P Require Export AgentRun ParallelSpec.
Open Scope string_scope.
Open Scope list_scope.

(** ** Factories whose agents answer *)

Class ReliableFactory `{E : Ext} (W : Type) `{F : !AgentFactory W} := {
  sound : W -> Prop;
  ready : factory_agent -> Prop;
  create_reliable : forall name h, sound h ->
    sound (snd (create name h))
    /\ match fst (create name h) with
       | Some (Ok agent) => ready agent
       | Some (Err e) => e = AgentNotFound name
       | None => False
       end;
  prompt_reliable : forall agent messages h, sound h -> ready agent ->
    sound (snd (prompt agent messages h)) /\ exists res, fst (prompt agent messages h) = Some (Ok res);
}.

Section Reliable.
Context `{E : Ext} {W : Type} `{F : !AgentFactory W} `{R : !ReliableFactory W}.
Context {Regex : Type} (is_match : Regex -> string -> bool).

(** The errors that are left: cancellation and a name the factory does not know. *)
Definition mild (e : PipelineError) : Prop := e = PipelineCancelled \/ exists name, e = AgentNotFound name.

#[local] Abbreviation host_sound := (fun w : PipelineWorld W => sound (pw_host w)).

Lemma attempt_reliable id i name messages (w : PipelineWorld W) :
  host_sound w ->
  exists r w', attempt id i name messages w = Some (r, w') /\ host_sound w'
    /\ match r with Ok _ => True | Err e => mild e end.
Proof.
  intros Hs. unfold attempt, gets, report, modify, and_then, call, mbind, prog_bind.
  destruct (cancelled (pw_host w)).
  { eexists _, w. split_and!; [done..|]. by left. }
  cbn. destruct (create_reliable name (pw_host w) Hs) as [Hs1 Hc].
  destruct (create name (pw_host w)) as [[[agent|e]|] h]; cbn in *; [| |done].
  - destruct (prompt_reliable agent messages h Hs1 Hc) as [Hs2 [res Hr]].
    destruct (prompt agent messages h) as [r h']. cbn in *. subst r. by eexists _, _.
  - eexists _, _. split_and!; [done..|]. right. by exists name.
Qed.

Lemma sequential_steps_reliable id pass_context steps index current_input context total results (w : PipelineWorld W) :
  host_sound w ->
  exists r w', sequential_steps id pass_context index steps current_input context total results w = Some (r, w')
    /\ match r with Ok _ => True | Err e => mild e end.
Proof.
  revert index current_input context total results w.
  induction steps as [|name steps IH]; intros index current_input context total results w Hs; cbn [sequential_steps].
  { by eexists _, _. }
  unfold and_then. unfold mbind at 1, prog_bind at 1.
  destruct (attempt_reliable id index name (step_messages pass_context context current_input) w Hs)
    as (r & w1 & -> & Hs1 & Hr).
  destruct r as [res|e]; [|by eexists _, _]. by apply IH.
Qed.

Lemma loop_iterations_reliable id body exit_condition input left iteration steps total responses (w : PipelineWorld W) :
  host_sound w ->
  exists r w', loop_iterations is_match id body exit_condition input left iteration steps total responses w = Some (r, w')
    /\ match r with Ok _ => True | Err e => mild e \/ e = MaxIterationsReached (iteration + left) end.
Proof.
  revert iteration steps total responses w.
  induction left as [|left IH]; intros iteration steps total responses w Hs; cbn [loop_iterations].
  { rewrite Nat.add_0_r. by destruct exit_condition; eexists _, _; (split; [done|]); first [done|right]. }
  unfold and_then. unfold mbind at 1, prog_bind at 1.
  destruct (attempt_reliable id iteration body (loop_messages input responses) w Hs) as (r & w1 & -> & Hs1 & Hr).
  destruct r as [res|e]; [|eexists _, _; split; [done|by left]].
  unfold report, modify, mbind, prog_bind. destruct (should_exit _ _ _); [by eexists _, _|].
  rewrite <- Nat.add_succ_comm. by apply IH.
Qed.

(** A pipeline over a reliable factory returns. *)
Lemma reliable_pipeline_returns (pipeline : Pipeline Regex) input schedule (w : PipelineWorld W) :
  host_sound w ->
  match pipeline with
  | Parallel _ _ _ _ => True
  | Sequential _ _ _ _ =>
    exists r s, run_pipeline is_match pipeline input schedule w = Some (r, s)
      /\ match r with Ok _ => True | Err e => mild e end
  | Loop _ _ _ _ max_iterations =>
    exists r s, run_pipeline is_match pipeline input schedule w = Some (r, s)
      /\ match r with Ok _ => True | Err e => mild e \/ e = MaxIterationsReached max_iterations end
  end.
Proof.
  intros Hs. destruct pipeline as [id name steps pass_context|id name branches strategy|id name body cond max]; [|done|]; cbn [run_pipeline].
  - unfold run_sequential, report, modify, and_then, mbind, prog_bind.
    destruct (sequential_steps_reliable id pass_context steps 0 input [] usage_default [] (emit_event (Started id name) w) Hs)
      as (r & w1 & -> & Hr). destruct r as [[results usage]|e]; by eexists _, _.
  - unfold run_loop, report, modify, mbind, prog_bind.
    destruct (loop_iterations_reliable id body cond input max 0 [] usage_default [] (emit_event (Started id name) w) Hs)
      as (r & w1 & -> & Hr). by eexists _, _.
Qed.

End Reliable.

(** ** The factory of the library *)

Section Agents.
Context `{E : Ext} {X : Type}.

(** Builders by name, and what the environment decides: how the [k]-th prompt runs, what
    the clock then says, after how many prompts the token is cancelled.
    @src patterns/src/pipeline/executor.rs:25-27 [SimpleAgentFactory] *)
Record SimpleAgentFactory := MkSimpleAgentFactory {
  builders : gmap string (Agent X);
  fac_env : nat -> Env;
  fac_clock : nat -> N;
  fac_cancel : option nat;
  fac_prompts : nat;
}.

(** @src patterns/src/pipeline/executor.rs:38-44 [SimpleAgentFactory::register] *)
Definition register_builder (name : string) (builder : Agent X) (h : SimpleAgentFactory) : SimpleAgentFactory :=
  MkSimpleAgentFactory (<[name := builder]> (builders h)) (fac_env h) (fac_clock h) (fac_cancel h) (fac_prompts h).

(** @src patterns/src/pipeline/executor.rs:54-62 [SimpleAgentFactory::create] *)
Definition create_agent (name : string) (h : SimpleAgentFactory) : result (Agent X) PipelineError :=
  ok_or (builders h !! name) (AgentNotFound name).

Definition prompted (h : SimpleAgentFactory) : SimpleAgentFactory :=
  MkSimpleAgentFactory (builders h) (fac_env h) (fac_clock h) (fac_cancel h) (S (fac_prompts h)).

#[export] Instance simple_factory : AgentFactory SimpleAgentFactory := {
  factory_agent := Agent X;
  create name h := (Some (create_agent name h), h);
  prompt agent messages h := (snd <$> prompt_async (fac_env h (fac_prompts h)) messages agent, prompted h);
  abandon agent messages h := prompted h;
  cancelled h := match fac_cancel h with Some k => (k <=? fac_prompts h)%nat | None => false end;
  factory_now h := fac_clock h (fac_prompts h);
}.

(** The agent comes back from every prompt that has the fuel for it. *)
Definition capped (max n : nat) (a : Agent X) : Prop :=
  active a = false /\ gives_up_after (build_loop_config a) max
  /\ max_turns_pre_turn n ∈ as_pre_turn_policies (ag_settings a).

Definition roomy (max n : nat) (env : Env) : Prop := 0 < env_fuel env /\ max <= env_fuel env /\ n < env_turns env.

Definition capped_host (max n : nat) (h : SimpleAgentFactory) : Prop :=
  map_Forall (fun _ a => capped max n a) (builders h) /\ forall k, roomy max n (fac_env h k).

Program Definition capped_reliable (max n : nat) : ReliableFactory SimpleAgentFactory := {|
  sound := capped_host max n;
  ready := capped max n;
|}.
Next Obligation.
  intros max n name h Hs. split; [done|]. cbn. unfold create_agent, ok_or.
  destruct (builders h !! name) as [a|] eqn:Ha; [|done]. exact (proj1 Hs name a Ha).
Qed.
Next Obligation.
  intros max n a messages h Hs (Hidle & Hg & Hcap). split; [done|]. cbn.
  destruct (proj2 Hs (fac_prompts h)) as (Hf & Hm & Hn).
  destruct (capped_prompt_settles max n (fac_env h (fac_prompts h)) messages a) as (a' & res & -> & _); try done.
  by exists res.
Qed.

Context {Regex : Type} (is_match : Regex -> string -> bool).


End Agents.

(** ** Evaluated *)

#[local] Existing Instance Toy.ext.

(** A writer that answers and one whose provider fails. *)
Definition broken_turn : list AssistantMessageEvent := [Start; event_error "boom"].

Definition office : SimpleAgentFactory (X := Studio.app) :=
  register_builder "broken" (Studio.agent [max_turns_pre_turn 3] [broken_turn; broken_turn; broken_turn])
  (register_builder "writer" (Studio.agent [max_turns_pre_turn 3] [text_response "hi"])
  (MkSimpleAgentFactory ∅ (fun _ => quick) (fun _ => 0%N) None 0)).

Definition office_world : PipelineWorld (SimpleAgentFactory (X := Studio.app)) := MkPipelineWorld office [].

Lemma office_capped : capped_host 3 3 office.
Proof.
  assert (Hg : forall script, capped 3 3 (Studio.agent [max_turns_pre_turn 3] script)).
  { intros script. split_and!; [done| |by apply list_elem_of_singleton].
    intros e n Hn. cbn. unfold default_should_retry. by destruct (Nat.leb_spec 3 n); [|lia]. }
  split; [|by repeat split; cbn; lia].
  apply map_Forall_insert_2; [apply Hg|]. apply map_Forall_insert_2; [apply Hg|]. apply map_Forall_empty.
Qed.


(** A step whose agent ended in a provider error counts as done: the writer is asked to
    go on with an empty text, and the pipeline succeeds. *)
Definition after_failure : option (result PipelineOutput PipelineError) := Eval vm_compute in
  fst <$> run_pipeline Echo.word_match (Sequential "p" "desk" ["broken"; "writer"] false) "hi" [] office_world.

Lemma failed_step_goes_on :
  exists out, after_failure = Some (Ok out)
    /\ map sr_response (po_steps out) = [""; "hi"] /\ map sr_agent_name (po_steps out) = ["broken"; "writer"].
Proof. by eexists. Qed.

Definition broken_result : option (option string) := Eval vm_compute in
  match prompt (W := SimpleAgentFactory (X := Studio.app))
          (Studio.agent [max_turns_pre_turn 3] [broken_turn; broken_turn; broken_turn]) [Demo.user "hi"] office with
  | (Some (Ok res), _) => Some (res_error res)
  | _ => None
  end.

Lemma broken_agent_reports_error : is_Some (broken_result ≫= id).
Proof. by eexists. Qed.
