(* ===== verification/ByteFile.v ===== *)
(** * Files of bytes and their lines

    What the session store uses of [std]: the text functions on byte strings
    that it needs, an open file with its position, and what a crash leaves of a
    sequence of writes. *)
From S2P Require Export Utf8.
From Stdlib Require Import Ascii.
Open Scope string_scope.
Open Scope list_scope.

(** ** Byte strings *)

Fixpoint str_take (n : nat) (s : string) : string :=
  match n, s with
  | S n', String a s' => String a (str_take n' s')
  | _, _ => ""
  end.

Fixpoint str_drop (n : nat) (s : string) : string :=
  match n, s with
  | S n', String _ s' => str_drop n' s'
  | 0, _ => s
  | _, "" => ""
  end.

Lemma str_take_drop n s : (str_take n s ++ str_drop n s)%string = s.
Proof.
  revert s. induction n as [|n IH]; intros [|a s]; try done.
  cbn [str_take str_drop]. by rewrite string_app_cons, IH.
Qed.

Lemma str_take_length n s : String.length (str_take n s) = n `min` String.length s.
Proof. revert s. induction n as [|n IH]; intros [|a s]; cbn; [done..|]. by rewrite IH. Qed.

Lemma str_drop_length n s : String.length (str_drop n s) = String.length s - n.
Proof. revert s. induction n as [|n IH]; intros [|a s]; cbn; [done..|]. by rewrite IH. Qed.

Lemma str_take_ge n s : String.length s <= n -> str_take n s = s.
Proof. revert s. induction n as [|n IH]; intros [|a s] Hn; cbn in *; [done|lia|done|]. rewrite IH by lia. done. Qed.

Lemma str_drop_ge n s : String.length s <= n -> str_drop n s = "".
Proof. revert s. induction n as [|n IH]; intros [|a s] Hn; cbn in *; [done|lia|done|]. rewrite IH by lia. done. Qed.

Lemma str_take_app n a b : str_take n (a ++ b) = (str_take n a ++ str_take (n - String.length a) b)%string.
Proof.
  revert a. induction n as [|n IH]; intros a; [by destruct a|].
  destruct a as [|x a]; [done|]. rewrite string_app_cons. cbn [str_take String.length Nat.sub].
  by rewrite IH, string_app_cons.
Qed.

Lemma str_drop_app n a b : str_drop n (a ++ b) = (str_drop n a ++ str_drop (n - String.length a) b)%string.
Proof.
  revert a. induction n as [|n IH]; intros a.
  - cbn. by destruct a.
  - destruct a as [|x a]; [done|]. rewrite string_app_cons. cbn [str_drop String.length Nat.sub]. by rewrite IH.
Qed.

Lemma str_drop_drop n m s : str_drop n (str_drop m s) = str_drop (m + n) s.
Proof. revert s. induction m as [|m IH]; intros s; [done|]. destruct s; cbn; [by destruct n|]. by rewrite IH. Qed.

Lemma str_drop_0 s : str_drop 0 s = s.
Proof. by destruct s. Qed.

Lemma str_take_0 s : str_take 0 s = "".
Proof. by destruct s. Qed.

(** [n] copies of a byte. *)
Fixpoint str_repeat (a : ascii) (n : nat) : string :=
  match n with 0 => "" | S n => String a (str_repeat a n) end.

Lemma str_repeat_length a n : String.length (str_repeat a n) = n.
Proof. induction n; cbn; congruence. Qed.

Definition SPACE : ascii := " "%char.

(** [String::from_utf8] succeeds. *)
Definition is_utf8 (bytes : string) : bool :=
  match from_utf8 bytes with (_, Complete) => true | _ => false end.

Definition str_is_empty (s : string) : bool := match s with "" => true | _ => false end.

(** ** [str::trim_end]: the code points with the Unicode property [White_Space] *)

Definition byte (n : N) : ascii := ascii_of_N n.

(** The bytes of a string, the last one first. *)
Definition rev_bytes (s : string) : list ascii := rev (String.list_ascii_of_string s).

Definition white1 (a : ascii) : bool :=
  let n := N_of_ascii a in (((9 <=? n) && (n <=? 13)) || (n =? 32))%N.

(** U+0085 and U+00A0. *)
Definition white2 (b a : ascii) : bool :=
  ((N_of_ascii b =? 194) && ((N_of_ascii a =? 133) || (N_of_ascii a =? 160)))%N.

(** U+1680, U+2000 to U+200A, U+2028, U+2029, U+202F, U+205F, U+3000. *)
Definition white3 (c b a : ascii) : bool :=
  let '(c, b, a) := (N_of_ascii c, N_of_ascii b, N_of_ascii a) in
  ((c =? 225) && (b =? 154) && (a =? 128)
   || (c =? 226) && (b =? 128) && (((128 <=? a) && (a <=? 138)) || (a =? 168) || (a =? 169) || (a =? 175))
   || (c =? 226) && (b =? 129) && (a =? 159)
   || (c =? 227) && (b =? 128) && (a =? 128))%N.

(** On the reversed bytes: without the white space in front. *)
Fixpoint strip_white (l : list ascii) : list ascii :=
  match l with
  | [] => []
  | a :: l1 =>
    if white1 a then strip_white l1
    else match l1 with
         | [] => l
         | b :: l2 =>
           if white2 b a then strip_white l2
           else match l2 with
                | [] => l
                | c :: l3 => if white3 c b a then strip_white l3 else l
                end
         end
  end.

Definition trim_end (s : string) : string := String.string_of_list_ascii (rev (strip_white (rev_bytes s))).

(** ** [str::trim] *)

Fixpoint trim_start (s : string) : string :=
  match s with
  | "" => ""
  | String a s1 =>
    if white1 a then trim_start s1
    else match s1 with
         | "" => s
         | String b s2 =>
           if white2 a b then trim_start s2
           else match s2 with
                | "" => s
                | String c s3 => if white3 a b c then trim_start s3 else s
                end
         end
  end.

Definition trim (s : string) : string := trim_start (trim_end s).

(** ** Numbers *)

Fixpoint parse_digits (acc : N) (s : string) : option N :=
  match s with
  | "" => Some acc
  | String a s' =>
    let n := N_of_ascii a in
    if ((48 <=? n) && (n <=? 57))%N then parse_digits (acc * 10 + (n - 48))%N s' else None
  end.

(** [str::parse] at an unsigned type whose largest value is [max]. *)
Definition parse_unsigned (max : N) (s : string) : option N :=
  let digits := match s with String a s' => if Ascii.eqb a "+"%char then s' else s | "" => s end in
  if str_is_empty digits then None
  else n ← parse_digits 0 digits; if (n <=? max)%N then Some n else None.

Lemma ascii_digit (x : N) :
  (x < 10)%N -> (N_of_ascii (pretty_N_char x) = 48 + x)%N.
Proof.
  intros Hx. assert (x = 0 \/ x = 1 \/ x = 2 \/ x = 3 \/ x = 4 \/ x = 5 \/ x = 6 \/ x = 7 \/ x = 8 \/ x = 9)%N as H by lia.
  by repeat destruct H as [-> | H]; [..|subst x].
Qed.

Lemma parse_digits_char acc x s :
  (x < 10)%N -> parse_digits acc (String (pretty_N_char x) s) = parse_digits (acc * 10 + x) s.
Proof.
  intros Hx. cbn [parse_digits]. rewrite ascii_digit by done.
  assert (((48 <=? 48 + x) && (48 + x <=? 57))%N = true) as ->.
  { apply andb_true_iff. split; apply N.leb_le; lia. }
  f_equal. lia.
Qed.

(** The digits of [x] in front are [x] in the accumulator. *)
Lemma parse_digits_go x s : parse_digits 0 (pretty_N_go x s) = parse_digits x s.
Proof.
  revert s. induction x as [x IH] using (well_founded_induction N.lt_wf_0). intros s.
  destruct (decide (x = 0)%N) as [->|Hx]; [by rewrite pretty_N_go_0|].
  rewrite pretty_N_go_step by lia. rewrite IH by (apply N.div_lt; lia).
  rewrite parse_digits_char by (apply N.mod_lt; lia). f_equal.
  rewrite N.mul_comm. symmetry. apply N.div_mod. lia.
Qed.

Lemma parse_digits_pretty x : parse_digits 0 (pretty x) = Some x.
Proof.
  unfold pretty, pretty_N. destruct (decide (x = 0)%N) as [->|Hx]; [done|]. by rewrite parse_digits_go.
Qed.

(** The first byte of a number is a digit. *)
Lemma pretty_go_head x s a s' :
  pretty_N_go x s = String a s' -> (0 < x)%N -> exists d, (d < 10)%N /\ a = pretty_N_char d.
Proof.
  revert s. induction x as [x IH] using (well_founded_induction N.lt_wf_0). intros s Hs Hx.
  rewrite pretty_N_go_step in Hs by lia. destruct (decide (x `div` 10 = 0)%N) as [Hz|Hz].
  - rewrite Hz, pretty_N_go_0 in Hs. injection Hs as <- <-. exists (x `mod` 10)%N. split; [apply N.mod_lt; lia|done].
  - assert (x `div` 10 < x)%N by (apply N.div_lt; lia). eapply IH; [done|exact Hs|by apply N.neq_0_lt_0].
Qed.

Lemma pretty_head (x : N) : exists d s', (d < 10)%N /\ pretty x = String (pretty_N_char d) s'.
Proof.
  unfold pretty, pretty_N. destruct (decide (x = 0)%N) as [->|Hx]; [by exists 0%N, ""|].
  destruct (pretty_N_go x "") as [|a s'] eqn:Hs.
  - pose proof (parse_digits_go x "") as H. rewrite Hs in H. cbn in H. congruence.
  - apply pretty_go_head in Hs as (d & Hd & ->); [eauto|lia].
Qed.

Lemma parse_unsigned_pretty max n : (n <= max)%N -> parse_unsigned max (pretty n) = Some n.
Proof.
  intros Hn. unfold parse_unsigned. destruct (pretty_head n) as (d & s' & Hd & Hp).
  assert (Ascii.eqb (pretty_N_char d) "+"%char = false) as Ha.
  { apply not_true_iff_false. rewrite Ascii.eqb_eq. intros He. pose proof (ascii_digit d Hd) as Hdig. rewrite He in Hdig.
    change (N_of_ascii "+"%char) with 43%N in Hdig. lia. }
  rewrite Hp, Ha. cbn [str_is_empty]. rewrite <- Hp, parse_digits_pretty. cbn.
  by rewrite (proj2 (N.leb_le _ _) Hn).
Qed.

(** [s.trim().is_empty()] *)
Definition is_blank (s : string) : bool := str_is_empty (trim_end s).

Lemma list_ascii_app a b :
  String.list_ascii_of_string (a ++ b) = String.list_ascii_of_string a ++ String.list_ascii_of_string b.
Proof. induction a as [|x a IH]; [done|]. rewrite string_app_cons. cbn. by rewrite IH. Qed.

Lemma rev_bytes_app a b : rev_bytes (a ++ b) = rev_bytes b ++ rev_bytes a.
Proof. unfold rev_bytes. by rewrite list_ascii_app, rev_app_distr. Qed.

Lemma trim_end_white s a : white1 a = true -> trim_end (s ++ String a "") = trim_end s.
Proof. intros Ha. unfold trim_end. rewrite rev_bytes_app. cbn. by rewrite Ha. Qed.

(** The reversed bytes after the code point in front, when that is white. *)
Definition strip_white1 (l : list ascii) : option (list ascii) :=
  match l with
  | [] => None
  | a :: l1 =>
    if white1 a then Some l1
    else match l1 with
         | [] => None
         | b :: l2 =>
           if white2 b a then Some l2
           else match l2 with
                | [] => None
                | c :: l3 => if white3 c b a then Some l3 else None
                end
         end
  end.

Lemma strip_white_step l :
  strip_white l = match strip_white1 l with Some l' => strip_white l' | None => l end.
Proof.
  destruct l as [|a l]; [done|]. cbn -[white1 white2 white3].
  destruct (white1 a); [done|]. destruct l as [|b l]; [done|].
  destruct (white2 b a); [done|]. destruct l as [|c l]; [done|].
  by destruct (white3 c b a).
Qed.

Lemma strip_white1_shorter l l' : strip_white1 l = Some l' -> length l' < length l.
Proof. destruct l as [|a [|b [|c l]]]; cbn; intros H; repeat case_match; simplify_eq; cbn; lia. Qed.

Lemma strip_white_done l : strip_white1 (strip_white l) = None.
Proof.
  induction l as [l IH] using (well_founded_induction (well_founded_ltof _ (@length ascii))).
  rewrite strip_white_step. destruct (strip_white1 l) as [l'|] eqn:Hl; [|done].
  apply IH. by apply strip_white1_shorter.
Qed.

Lemma strip_white_idem l : strip_white (strip_white l) = strip_white l.
Proof. rewrite (strip_white_step (strip_white l)). by rewrite strip_white_done. Qed.

Lemma trim_end_idem s : trim_end (trim_end s) = trim_end s.
Proof.
  unfold trim_end at 1. unfold rev_bytes. unfold trim_end at 1.
  rewrite String.list_ascii_of_string_of_list_ascii, rev_involutive.
  by rewrite strip_white_idem.
Qed.

(** ** Lines *)

Definition newline : string := String LF "".

Definition no_lf : string -> bool := string_all (fun a => negb (Ascii.eqb a LF)).

(** Every line of [s] is terminated. *)
Definition terminated (s : string) : Prop := (split_newlines s).2 = "".

Lemma split_no_lf s : no_lf s = true -> split_newlines s = ([], s).
Proof.
  induction s as [|a s IH]; [done|]. cbn. rewrite andb_true_iff, negb_true_iff. intros [Ha Hs].
  by rewrite IH, Ha.
Qed.

Lemma split_terminated_app a b :
  terminated a -> split_newlines (a ++ b) = ((split_newlines a).1 ++ (split_newlines b).1, (split_newlines b).2).
Proof.
  unfold terminated. intros Ha. rewrite split_newlines_app. destruct (split_newlines a) as [lines rest]. cbn in *.
  subst rest. rewrite string_app_nil_l. by destruct (split_newlines b).
Qed.

Lemma terminated_nil : terminated "".
Proof. done. Qed.

Lemma terminated_app a b : terminated a -> terminated b -> terminated (a ++ b).
Proof. intros Ha Hb. unfold terminated. by rewrite split_terminated_app. Qed.

Lemma split_line s : no_lf s = true -> split_newlines (s ++ newline) = ([s], "").
Proof.
  intros Hs. rewrite split_newlines_app, split_no_lf by done. cbn.
  induction s as [|a s IH]; [done|]. cbn in Hs. rewrite andb_true_iff, negb_true_iff in Hs. destruct Hs as [Ha Hs].
  rewrite string_app_cons. cbn. specialize (IH Hs). destruct (split_newlines (s ++ newline)) as [lines rest].
  injection IH as -> ->. by rewrite Ha.
Qed.

Lemma terminated_line s : no_lf s = true -> terminated (s ++ newline).
Proof. intros Hs. unfold terminated. by rewrite split_line. Qed.

Lemma str_lines_nil : str_lines "" = [].
Proof. done. Qed.

Lemma str_lines_app a b : terminated a -> str_lines (a ++ b) = str_lines a ++ str_lines b.
Proof.
  intros Ha. unfold str_lines. rewrite split_terminated_app by done.
  unfold terminated in Ha. destruct (split_newlines a) as [la ra]. cbn in Ha. subst ra.
  destruct (split_newlines b) as [lb rb]. cbn. by rewrite app_nil_r, map_app, app_assoc.
Qed.

Lemma str_lines_line s : no_lf s = true -> str_lines (s ++ newline) = [strip_cr s].
Proof. intros Hs. unfold str_lines. by rewrite split_line. Qed.

Lemma str_lines_torn s : no_lf s = true -> s <> "" -> str_lines s = [s].
Proof. intros Hs Hne. unfold str_lines. rewrite split_no_lf by done. cbn. by destruct s. Qed.

Lemma no_lf_app a b : no_lf (a ++ b) = no_lf a && no_lf b.
Proof.
  induction a as [|x a IH]; [done|]. rewrite string_app_cons. unfold no_lf in *. cbn. by rewrite IH, andb_assoc.
Qed.

Lemma no_lf_take n s : no_lf s = true -> no_lf (str_take n s) = true.
Proof.
  intros Hs. pose proof (str_take_drop n s) as He. rewrite <- He, no_lf_app in Hs. by apply andb_true_iff in Hs as [Hs _].
Qed.

Lemma no_lf_repeat a n : Ascii.eqb a LF = false -> no_lf (str_repeat a n) = true.
Proof. intros Ha. induction n as [|n IH]; [done|]. cbn. by rewrite Ha. Qed.

Lemma split_lines_no_lf s : Forall (fun l => no_lf l = true) (split_newlines s).1 /\ no_lf (split_newlines s).2 = true.
Proof.
  induction s as [|a s [IH1 IH2]]; [done|]. cbn. destruct (split_newlines s) as [lines rest]. cbn in *.
  destruct (Ascii.eqb a LF) eqn:Ha; cbn; [split; [by constructor|done]|].
  destruct lines as [|l lines]; cbn.
  - by rewrite Ha.
  - apply Forall_cons in IH1 as [Hl IH1]. split; [|done]. constructor; [|done]. cbn. by rewrite Ha.
Qed.

Lemma strip_cr_cases s : strip_cr s = s \/ s = (strip_cr s ++ String CR "")%string.
Proof.
  induction s as [|a [|b s] IH]; [by left| |].
  - cbn. destruct (Ascii.eqb a CR) eqn:Ha; [|by left]. apply Ascii.eqb_eq in Ha as ->. by right.
  - change (strip_cr (String a (String b s))) with (String a (strip_cr (String b s))).
    destruct IH as [IH|IH]; [left; by rewrite IH|right]. rewrite string_app_cons. by rewrite <- IH.
Qed.

Lemma no_lf_strip_cr s : no_lf s = true -> no_lf (strip_cr s) = true.
Proof.
  intros Hs. destruct (strip_cr_cases s) as [H|H]; [by rewrite H|].
  rewrite H, no_lf_app in Hs. by apply andb_true_iff in Hs as [Hs _].
Qed.

Lemma str_lines_no_lf s : Forall (fun l => no_lf l = true) (str_lines s).
Proof.
  unfold str_lines. pose proof (split_lines_no_lf s) as [H1 H2]. destruct (split_newlines s) as [lines rest]. cbn in *.
  apply Forall_app. split.
  - apply Forall_map. eapply Forall_impl; [exact H1|]. cbn. apply no_lf_strip_cr.
  - destruct rest; [done|]. by constructor.
Qed.

(** The bytes of lines that are written one after the other. *)
Definition write_lines (lines : list string) : string :=
  fold_right (fun l s => (l ++ newline ++ s)%string) "" lines.

Lemma write_lines_cons l lines : write_lines (l :: lines) = ((l ++ newline) ++ write_lines lines)%string.
Proof. cbn. by rewrite string_app_assoc. Qed.

Lemma write_lines_app a b : write_lines (a ++ b) = (write_lines a ++ write_lines b)%string.
Proof.
  induction a as [|x a IH]; [done|]. rewrite <- app_comm_cons, !write_lines_cons, IH. symmetry. apply string_app_assoc.
Qed.

Lemma write_lines_terminated lines : Forall (fun l => no_lf l = true) lines -> terminated (write_lines lines).
Proof.
  induction 1 as [|l lines Hl _ IH]; [done|]. rewrite write_lines_cons. apply terminated_app; [|done]. by apply terminated_line.
Qed.

Lemma write_lines_read lines :
  Forall (fun l => no_lf l = true) lines -> str_lines (write_lines lines) = map strip_cr lines.
Proof.
  induction 1 as [|l lines Hl _ IH]; [done|]. rewrite write_lines_cons, str_lines_app by (by apply terminated_line).
  by rewrite str_lines_line, IH.
Qed.

(** ** Writes to an open file *)

(** What the code does to an open file: moving its position and writing at it. *)
Inductive FileOp :=
| SeekStart (n : nat)
| SeekEnd
| WriteAll (s : string).

(** The bytes of a file and the position of its handle. *)
Definition OpenFile : Type := string * nat.

(** Bytes written at a position replace those there and extend the file. *)
Definition write_at (f : OpenFile) (s : string) : OpenFile :=
  let '(bytes, pos) := f in
  ((str_take pos bytes ++ s ++ str_drop (pos + String.length s) bytes)%string, pos + String.length s).

Definition file_op (f : OpenFile) (op : FileOp) : OpenFile :=
  match op with
  | SeekStart n => (f.1, n)
  | SeekEnd => (f.1, String.length f.1)
  | WriteAll s => write_at f s
  end.

(** The file after the operations. *)
Definition file_ops (bytes : string) (ops : list FileOp) : string := (foldl file_op (bytes, 0) ops).1.

Definition op_bytes (op : FileOp) : nat := match op with WriteAll s => String.length s | _ => 0 end.

(** What is left when the process dies after [n] bytes of the operations: the
    operations before, and the part of a write that was done. *)
Fixpoint crash_ops (n : nat) (ops : list FileOp) : list FileOp :=
  match ops with
  | [] => []
  | WriteAll s :: ops' =>
    if (n <? String.length s)%nat then [WriteAll (str_take n s)]
    else WriteAll s :: crash_ops (n - String.length s) ops'
  | op :: ops' => op :: crash_ops n ops'
  end.

Definition crash_after (n : nat) (bytes : string) (ops : list FileOp) : string := file_ops bytes (crash_ops n ops).
