(* ===== verification/SessionData.v ===== *)
(** * The data of the session store

    [memory/src/meta.rs], [entry.rs], [interrupt.rs], [load_options.rs],
    [codec.rs] and [migrate.rs]: what a session file holds, how its values are
    written as JSON and how old versions are brought up to date; at the end a concrete
    JSON for the witnesses.  The instants
    of [chrono] and the serializers that [serde] derives are parameters. *)
From S2P Require Export MessageCodec ByteFile.
From Stdlib Require Import Ascii.
Open Scope string_scope.
Open Scope list_scope.
Open Scope agent_scope.

(** ** Instants: [chrono::DateTime<Utc>] *)

Class Chrono := {
  DateTime : Type;
  #[global] DateTime_eq_dec :: EqDecision DateTime;
  (** seconds since the epoch, negative before it *)
  datetime_timestamp : DateTime -> Z;
  datetime_le : relation DateTime;
  #[global] datetime_le_dec :: RelDecision datetime_le;
  #[global] datetime_le_total :: Total datetime_le;
  #[global] datetime_le_trans :: Transitive datetime_le;
}.

(** ** Errors: [std::io::Error] *)

Inductive IoErrorKind := NotFound | AlreadyExists | InvalidData | InvalidInput | DirectoryNotEmpty | OtherKind.

Record IoError := MkIoError { io_kind : IoErrorKind; io_text : string }.

#[export] Instance io_error_kind_eq_dec : EqDecision IoErrorKind.
Proof. solve_decision. Defined.
#[export] Instance io_error_eq_dec : EqDecision IoError.
Proof. solve_decision. Defined.

(** [io::Error::other] *)
Definition io_other {T} (r : result T string) : result T IoError :=
  match r with Ok t => Ok t | Err e => Err (MkIoError OtherKind e) end.

Section Data.
Context `{E : Ext} `{C : Chrono}.

(** @src memory/src/meta.rs:9-24 [SessionMeta] *)
Record SessionMeta := MkSessionMeta {
  meta_id : string;
  meta_title : string;
  meta_created_at : DateTime;
  meta_updated_at : DateTime;
  meta_version : N;
  meta_sequence : N;
}.

#[export] Instance session_meta_eq_dec : EqDecision SessionMeta.
Proof. solve_decision. Defined.

(** @src memory/src/meta.rs:37-51 [SessionMeta::new] *)
Definition meta_new (id title : string) (created_at updated_at : DateTime) : SessionMeta :=
  MkSessionMeta id title created_at updated_at 1 0.

(** @src memory/src/meta.rs:55-58 [SessionMeta::with_version] *)
Definition with_version (m : SessionMeta) (version : N) : SessionMeta :=
  MkSessionMeta (meta_id m) (meta_title m) (meta_created_at m) (meta_updated_at m) version (meta_sequence m).

(** @src memory/src/meta.rs:62-65 [SessionMeta::with_sequence] *)
Definition with_sequence (m : SessionMeta) (sequence : N) : SessionMeta :=
  MkSessionMeta (meta_id m) (meta_title m) (meta_created_at m) (meta_updated_at m) (meta_version m) sequence.

(** @src memory/src/entry.rs:18-57 [SessionEntry] *)
Inductive SessionEntry :=
| EntryMessage (m : LlmMessage)
| EntryModelChange (from to : ModelSpec) (timestamp : N)
| EntryThinkingLevelChange (from to : string) (timestamp : N)
| EntryCompaction (dropped_count tokens_before tokens_after : nat) (timestamp : N)
| EntryLabel (text : string) (message_index : nat) (timestamp : N)
| EntryCustom (type_name : string) (data : Value) (timestamp : N).

(** @src memory/src/entry.rs:75-80 [SessionEntry::as_message] *)
Definition as_message (e : SessionEntry) : option LlmMessage :=
  match e with EntryMessage m => Some m | _ => None end.

(** @src memory/src/entry.rs:83-85 [SessionEntry::messages] *)
Definition entry_messages (entries : list SessionEntry) : list LlmMessage := filtermap as_message entries.

(** @src memory/src/entry.rs:90-99 [SessionEntry::entry_type_name] *)
Definition entry_type_name (e : SessionEntry) : string :=
  match e with
  | EntryMessage _ => "message"
  | EntryModelChange _ _ _ => "model_change"
  | EntryThinkingLevelChange _ _ _ => "thinking_level_change"
  | EntryCompaction _ _ _ _ => "compaction"
  | EntryLabel _ _ _ => "label"
  | EntryCustom _ _ _ => "custom"
  end.

Definition llm_timestamp (m : LlmMessage) : N :=
  match m with User u => um_timestamp u | Assistant a => am_timestamp a | ToolResult r => tr_timestamp r end.

(** @src memory/src/entry.rs:104-121 [SessionEntry::timestamp] *)
Definition entry_timestamp (e : SessionEntry) : option N :=
  match e with
  | EntryMessage m => Some (llm_timestamp m)
  | EntryModelChange _ _ t | EntryThinkingLevelChange _ _ t | EntryCompaction _ _ _ t
  | EntryLabel _ _ t | EntryCustom _ _ t => Some t
  end.

(** @src memory/src/interrupt.rs:13-20 [PendingToolCall] *)
Record PendingToolCall := MkPendingToolCall {
  ptc_tool_call_id : string;
  ptc_tool_name : string;
  ptc_arguments : Value;
}.

(** @src memory/src/interrupt.rs:45-56 [InterruptState] *)
Record InterruptState := MkInterruptState {
  int_interrupted_at : N;
  int_pending_tool_calls : list PendingToolCall;
  int_context_snapshot : list LlmMessage;
  int_system_prompt : string;
  int_model : ModelSpec;
}.

(** @src memory/src/load_options.rs:18-28 [LoadOptions] *)
Record LoadOptions := MkLoadOptions {
  last_n_entries : option nat;
  after_timestamp : option DateTime;
  entry_types : option (list string);
}.

End Data.

(** ** What [serde] derives

    The keys are those of the attributes in [src/types/mod.rs] and
    [memory/src/entry.rs]: an [LlmMessage] is tagged by ["role"] and a
    [SessionEntry] by ["entry_type"], and no other key of the two is one of the
    markers of a session file.  [serde_json] skips white space after a value,
    and a text that is JSON ends with a byte of the value or with white space of
    JSON. *)
Definition markers : list string := ["_state"; "_append"; "_meta"; "_custom"].

Class SessionSerde `{E : Ext} `{C : Chrono} := {
  llm_to_string : LlmMessage -> string;
  llm_from_value : Value -> result LlmMessage string;
  meta_to_string : SessionMeta -> string;
  meta_to_value : SessionMeta -> Value;
  meta_from_value : Value -> result SessionMeta string;
  entry_to_string : SessionEntry -> string;
  entry_from_value : Value -> result SessionEntry string;
  interrupt_to_string_pretty : InterruptState -> string;
  interrupt_from_value : Value -> result InterruptState string;
  (** [format!("{id:?}")], and the system's message for a file that is missing *)
  debug_str : string -> string;
  os_not_found : string;
  llm_keys m v k : json_from_str (llm_to_string m) = Ok v ->
    k ∈ "entry_type" :: markers -> json_get v k = None;
  entry_keys e v k : json_from_str (entry_to_string e) = Ok v -> k ∈ markers -> json_get v k = None;
  entry_tag e v : json_from_str (entry_to_string e) = Ok v -> is_Some (json_get v "entry_type");
  entry_no_role e v m : json_from_str (entry_to_string e) = Ok v -> llm_from_value v <> Ok m;
  json_from_str_white s a v : white1 a = true -> N_of_ascii a <> 11%N -> N_of_ascii a <> 12%N ->
    json_from_str (s ++ String a "") = Ok v <-> json_from_str s = Ok v;
  json_from_str_empty v : json_from_str "" <> Ok v;
  json_from_str_trim s v : json_from_str s = Ok v -> json_from_str (trim_end s) = Ok v;
}.

Section Codec.
Context `{Sd : SessionSerde}.

(** [value.get(key).and_then(Value::as_bool) == Some(true)] *)
Definition marked (v : Value) (key : string) : bool :=
  bool_decide (json_get v key ≫= json_as_bool = Some true).

(** @src memory/src/entry.rs:64-72 [SessionEntry::parse] *)
Definition entry_parse (line : string) : result SessionEntry string :=
  value <-? json_from_str line ;;
  match json_get value "entry_type" with
  | Some _ => entry_from_value value
  | None => m <-? llm_from_value value ;; Ok (EntryMessage m)
  end.

(** [None] is the panic of [expect], which an envelope that is an object excludes.
    @src memory/src/codec.rs:135-140 [insert of the marker] *)
Definition mark_custom (envelope : Value) : option Value :=
  match json_as_map envelope with
  | Ok m => Some (json_of_map (<["_custom" := json_bool true]> m))
  | Err _ => None
  end.

(** @src memory/src/codec.rs:121-152 [encode_jsonl_message_line] *)
Definition encode_jsonl_message_line (m : AgentMessage) : option string :=
  match m with
  | Llm llm => Some (llm_to_string llm)
  | Custom custom =>
    envelope ← serialize_custom_message custom;
    json_to_string <$> mark_custom envelope
  end.

(** @src memory/src/codec.rs:22-27 [MessageKind] *)
Inductive MessageKind := KindLlm | KindCustom.

(** @src memory/src/codec.rs:32-37 [MessageKind::as_str] *)
Definition kind_as_str (k : MessageKind) : string :=
  match k with KindLlm => "llm" | KindCustom => "custom" end.

(** @src memory/src/codec.rs:41-47 [MessageKind::parse] *)
Definition kind_parse (s : string) : option MessageKind :=
  if String.eqb s "llm" then Some KindLlm
  else if String.eqb s "custom" then Some KindCustom else None.

(** @src memory/src/codec.rs:58-88 [encode] *)
Definition encode (m : AgentMessage) : option (MessageKind * string) :=
  match m with
  | Llm llm => Some (KindLlm, llm_to_string llm)
  | Custom custom =>
    envelope ← serialize_custom_message custom;
    Some (KindCustom, json_to_string envelope)
  end.

(** @src memory/src/codec.rs:96-113 [decode] *)
Definition decode (kind : MessageKind) (data : string) (registry : option CustomMessageRegistry) :
    result (option AgentMessage) IoError :=
  value <-? io_other (json_from_str data) ;;
  match kind with
  | KindLlm => m <-? io_other (llm_from_value value) ;; Ok (Some (Llm m))
  | KindCustom => c <-? io_other (restore_single_custom registry value) ;; Ok (Custom <$> c)
  end.

(** @src memory/src/codec.rs:159-180 [decode_jsonl_message_line] *)
Definition decode_jsonl_message_line (line : string) (registry : option CustomMessageRegistry) :
    result (option AgentMessage) IoError :=
  value <-? io_other (json_from_str line) ;;
  if marked value "_state" then Ok None
  else if marked value "_custom" then decode KindCustom line registry
  else match llm_from_value value with
       | Ok m => Ok (Some (Llm m))
       | Err _ =>
         entry <-? io_other (entry_parse line) ;;
         match entry with EntryMessage m => Ok (Some (Llm m)) | _ => Ok None end
       end.

(** @src memory/src/codec.rs:189-193 [encode_session_entry] *)
Definition encode_session_entry (e : SessionEntry) : string * string := (entry_type_name e, entry_to_string e).

(** @src memory/src/codec.rs:200-212 [decode_session_entry] *)
Definition decode_session_entry (kind data : string) : result (option SessionEntry) IoError :=
  match kind_parse kind with
  | Some KindLlm =>
    m <-? io_other (value <-? json_from_str data ;; llm_from_value value) ;; Ok (Some (EntryMessage m))
  | Some KindCustom =>
    match value <-? json_from_str data ;; entry_from_value value with
    | Ok e => Ok (Some e)
    | Err _ => Ok None
    end
  | None => e <-? io_other (value <-? json_from_str data ;; entry_from_value value) ;; Ok (Some e)
  end.

(** ** Migrations *)

(** @src memory/src/migrate.rs:17-33 [SessionMigrator] *)
Record SessionMigrator := MkSessionMigrator {
  source_version : N;
  target_version : N;
  migrate : SessionMeta -> list SessionEntry -> result (list SessionEntry) IoError;
}.

(** @src memory/src/migrate.rs:36-36 [CURRENT_VERSION] *)
Definition CURRENT_VERSION : N := 1.

(** The [while] loop; [None] when the fuel runs out.
    @src memory/src/migrate.rs:59-76 [run_migrations, while] *)
Fixpoint migration_steps (fuel : nat) (migrators : list SessionMigrator) (meta : SessionMeta)
    (entries : list SessionEntry) : option (result (SessionMeta * list SessionEntry) IoError) :=
  match fuel with
  | 0 => None
  | S fuel' =>
    if (CURRENT_VERSION <=? meta_version meta)%N then Some (Ok (meta, entries))
    else
      match List.find (fun m => (source_version m =? meta_version meta)%N) migrators with
      | None =>
        Some (Err (MkIoError InvalidData
          ("no migrator found for version " ++ pretty (meta_version meta) ++ " -> " ++ pretty (meta_version meta + 1)%N)))
      | Some migrator =>
        match migrate migrator meta entries with
        | Err e => Some (Err e)
        | Ok entries' => migration_steps fuel' migrators (with_version meta (target_version migrator)) entries'
        end
      end
  end.

(** @src memory/src/migrate.rs:44-79 [run_migrations] *)
Definition run_migrations (fuel : nat) (meta : SessionMeta) (entries : list SessionEntry)
    (migrators : list SessionMigrator) : option (result (SessionMeta * list SessionEntry) IoError) :=
  if (CURRENT_VERSION <? meta_version meta)%N
  then Some (Err (MkIoError InvalidData
         ("unsupported session version " ++ pretty (meta_version meta) ++ " (current: 1)")))
  else migration_steps fuel migrators meta entries.

End Codec.

(** ** A concrete JSON for session files

    A printer and a parser of JSON texts (strings without quotes or escapes,
    numbers without sign) with serializers for the values a session file holds,
    as an instance of [SessionSerde]: the theorems about sessions are evaluated
    with it on the bytes of actual files. *)
Open Scope string_scope.
Open Scope list_scope.
Open Scope agent_scope.

Module SessionToy.

Definition QUOTE : ascii := "034"%char.
Definition quoted (s : string) : string := String QUOTE (s ++ String QUOTE "").

Fixpoint print (v : Toy.json) : string :=
  match v with
  | Toy.JNull => "null"
  | Toy.JStr s => quoted s
  | Toy.JObj f => "{" ++ f ++ "}"
  | Toy.JEnv t d => "{" ++ quoted "type" ++ ":" ++ quoted t ++ "," ++ quoted "data" ++ ":" ++ print d ++ "}"
  | Toy.JMap fields => "{" ++ join "," (map (fun kv => quoted (fst kv) ++ ":" ++ print (snd kv)) fields) ++ "}"
  | Toy.JBool b => if b then "true" else "false"
  | Toy.JNum n => pretty n
  | Toy.JArr l => "[" ++ join "," (map print l) ++ "]"
  end%string.

(** The text up to a quote, and what follows it. *)
Fixpoint parse_string (s : string) : option (string * string) :=
  match s with
  | "" => None
  | String a rest =>
    if Ascii.eqb a QUOTE then Some ("", rest)
    else '(t, rest') ← parse_string rest; Some (String a t, rest')
  end.

Definition digit (a : ascii) : option N :=
  let n := N_of_ascii a in if ((48 <=? n) && (n <=? 57))%N then Some (n - 48)%N else None.

Fixpoint parse_number (acc : N) (s : string) : N * string :=
  match s with
  | String a rest => match digit a with Some d => parse_number (10 * acc + d) rest | None => (acc, s) end
  | "" => (acc, "")
  end.

(** A value, the members of an object after a brace or a comma, the elements of an array. *)
Fixpoint parse_value (fuel : nat) (s : string) : option (Toy.json * string) :=
  match fuel with
  | 0 => None
  | S fuel =>
    match s with
    | String "{" rest =>
      match rest with
      | String "}" rest => Some (Toy.JMap [], rest)
      | _ => '(m, rest) ← parse_members fuel rest; Some (Toy.JMap m, rest)
      end
    | String "[" rest =>
      match rest with
      | String "]" rest => Some (Toy.JArr [], rest)
      | _ => '(l, rest) ← parse_elements fuel rest; Some (Toy.JArr l, rest)
      end
    | String a rest =>
      if Ascii.eqb a QUOTE then '(t, rest) ← parse_string rest; Some (Toy.JStr t, rest)
      else match digit a with
           | Some _ => let '(n, rest) := parse_number 0 s in Some (Toy.JNum n, rest)
           | None =>
             match str_strip_prefix "true" s, str_strip_prefix "false" s, str_strip_prefix "null" s with
             | Some rest, _, _ => Some (Toy.JBool true, rest)
             | _, Some rest, _ => Some (Toy.JBool false, rest)
             | _, _, Some rest => Some (Toy.JNull, rest)
             | _, _, _ => None
             end
           end
    | "" => None
    end
  end
with parse_members (fuel : nat) (s : string) : option (list (string * Toy.json) * string) :=
  match fuel with
  | 0 => None
  | S fuel =>
    match s with
    | String a rest =>
      if Ascii.eqb a QUOTE then
        '(k, rest) ← parse_string rest;
        match rest with
        | String ":" rest =>
          '(v, rest) ← parse_value fuel rest;
          match rest with
          | String "," rest => '(m, rest) ← parse_members fuel rest; Some ((k, v) :: m, rest)
          | String "}" rest => Some ([(k, v)], rest)
          | _ => None
          end
        | _ => None
        end
      else None
    | "" => None
    end
  end
with parse_elements (fuel : nat) (s : string) : option (list Toy.json * string) :=
  match fuel with
  | 0 => None
  | S fuel =>
    '(v, rest) ← parse_value fuel s;
    match rest with
    | String "," rest => '(l, rest) ← parse_elements fuel rest; Some (v :: l, rest)
    | String "]" rest => Some ([v], rest)
    | _ => None
    end
  end.

Definition parse (s : string) : result Toy.json string :=
  let t := trim_end s in
  match parse_value (2 * String.length t + 1) t with
  | Some (v, "") => Ok v
  | _ => Err "expected value"
  end.

#[export] Instance session_ext : Ext := Toy.ext_of parse print.

#[export] Program Instance session_chrono : Chrono := {|
  DateTime := Z;
  datetime_timestamp := id;
  datetime_le := Z.le;
|}.

(** ** Serializers *)

Definition get_str (v : Toy.json) (k : string) : result string string :=
  match Toy.get v k with Some (Toy.JStr s) => Ok s | _ => Err ("missing field " ++ k)%string end.

Definition get_num (v : Toy.json) (k : string) : result N string :=
  match Toy.get v k with Some (Toy.JNum n) => Ok n | _ => Err ("missing field " ++ k)%string end.

Definition meta_value (m : SessionMeta (C := session_chrono)) : Toy.json :=
  Toy.JMap [("id", Toy.JStr (meta_id m)); ("title", Toy.JStr (meta_title m));
    ("created_at", Toy.JNum (Z.to_N (meta_created_at m))); ("updated_at", Toy.JNum (Z.to_N (meta_updated_at m)));
    ("version", Toy.JNum (meta_version m)); ("sequence", Toy.JNum (meta_sequence m))].

Definition meta_of_value (v : Toy.json) : result (SessionMeta (C := session_chrono)) string :=
  id <-? get_str v "id" ;; title <-? get_str v "title" ;;
  created <-? get_num v "created_at" ;; updated <-? get_num v "updated_at" ;;
  version <-? get_num v "version" ;; sequence <-? get_num v "sequence" ;;
  Ok (MkSessionMeta (C := session_chrono) id title (Z.of_N created) (Z.of_N updated) version sequence).

(** User messages of one text. *)
Definition llm_value (m : LlmMessage (E := session_ext)) : Toy.json :=
  match m with
  | User (MkUserMessage [Text t] ts None) =>
    Toy.JMap [("role", Toy.JStr "user"); ("text", Toy.JStr t); ("timestamp", Toy.JNum ts)]
  | _ => Toy.JNull
  end.

Definition llm_of_value (v : Toy.json) : result (LlmMessage (E := session_ext)) string :=
  role <-? get_str v "role" ;; t <-? get_str v "text" ;; ts <-? get_num v "timestamp" ;;
  Ok (User (MkUserMessage [Text t] ts None)).

(** Messages and labels. *)
Definition entry_value (e : SessionEntry (E := session_ext)) : Toy.json :=
  match e with
  | EntryMessage m => Toy.JMap [("entry_type", Toy.JStr "message"); ("data", llm_value m)]
  | EntryLabel t i ts =>
    Toy.JMap [("entry_type", Toy.JStr "label");
      ("data", Toy.JMap [("text", Toy.JStr t); ("message_index", Toy.JNum (N.of_nat i)); ("timestamp", Toy.JNum ts)])]
  | _ => Toy.JNull
  end.

Definition entry_of_value (v : Toy.json) : result (SessionEntry (E := session_ext)) string :=
  tag <-? get_str v "entry_type" ;;
  data <-? ok_or (Toy.get v "data") "missing field data" ;;
  if String.eqb tag "message" then m <-? llm_of_value data ;; Ok (EntryMessage m)
  else t <-? get_str data "text" ;; i <-? get_num data "message_index" ;; ts <-? get_num data "timestamp" ;;
       Ok (EntryLabel t (N.to_nat i) ts).

(** A text that parses to a value that is not [good] is not written. *)
Definition checked (good : Toy.json -> bool) (t : string) : string :=
  match parse t with Ok v => if good v then t else "" | Err _ => t end.

Lemma checked_good good t v : parse (checked good t) = Ok v -> good v = true.
Proof.
  unfold checked. destruct (parse t) as [v'|e] eqn:Ht.
  - destruct (good v') eqn:Hg; [rewrite Ht; congruence|done].
  - by rewrite Ht.
Qed.

Definition lacks (keys : list string) (v : Toy.json) : bool :=
  forallb (fun k => match Toy.get v k with None => true | Some _ => false end) keys.

Lemma lacks_key keys v k : lacks keys v = true -> k ∈ keys -> Toy.get v k = None.
Proof.
  unfold lacks. rewrite forallb_forall. intros H Hk. apply list_elem_of_In in Hk. specialize (H k Hk).
  by destruct (Toy.get v k).
Qed.

Definition good_entry (v : Toy.json) : bool :=
  lacks markers v
  && match Toy.get v "entry_type" with Some _ => true | None => false end
  && match llm_of_value v with Ok _ => false | Err _ => true end.

#[export] Program Instance session_serde : SessionSerde (E := session_ext) (C := session_chrono) := {|
  llm_to_string m := checked (lacks ("entry_type" :: markers)) (print (llm_value m));
  llm_from_value := llm_of_value;
  meta_to_string m := print (meta_value m);
  meta_to_value := meta_value;
  meta_from_value := meta_of_value;
  entry_to_string e := checked good_entry (print (entry_value e));
  entry_from_value := entry_of_value;
  interrupt_to_string_pretty i := print (Toy.JMap [("system_prompt", Toy.JStr (int_system_prompt i))]);
  interrupt_from_value _ := Err "not supported";
  debug_str := quoted;
  os_not_found := "No such file or directory";
|}.
Next Obligation. intros m v k Hv. exact (lacks_key _ v k (checked_good _ _ _ Hv)). Qed.
Next Obligation.
  intros e v k Hv Hk. apply checked_good in Hv. unfold good_entry in Hv. rewrite !andb_true_iff in Hv.
  by eapply lacks_key; [apply Hv|].
Qed.
Next Obligation.
  intros e v Hv. apply checked_good in Hv. unfold good_entry in Hv. rewrite !andb_true_iff in Hv.
  destruct Hv as [[_ Hv] _]. cbn. by destruct (Toy.get v "entry_type").
Qed.
Next Obligation.
  intros e v m Hv. apply checked_good in Hv. unfold good_entry in Hv. rewrite !andb_true_iff in Hv.
  destruct Hv as [_ Hv]. by destruct (llm_of_value v).
Qed.
Next Obligation. intros s a v Ha _ _. cbn. unfold parse. by rewrite trim_end_white. Qed.
Next Obligation. intros v. by vm_compute. Qed.
Next Obligation. intros s v. cbn. unfold parse. by rewrite trim_end_idem. Qed.

End SessionToy.
