(* ===== verification/Jsonl.v ===== *)
(** * Session files: [memory/src/jsonl.rs]

    A session is a file of lines.  The first holds the metadata, padded so that
    it can be overwritten in place; every later line is a record.  An append
    writes a begin marker, its records and a metadata record that commits them,
    and patches the first line afterwards.  The functions of this file work on
    the bytes of one file; SessionStore.v puts them behind the store's
    operations.  Reading, writing and renaming succeed; what a write leaves when
    the process dies in it is [crash_after]. *)
From S2P Require Export SessionData.
From Stdlib Require Import Ascii.
Open Scope string_scope.
Open Scope list_scope.
Open Scope agent_scope.

Section Jsonl.
Context `{Sd : SessionSerde}.

(** @src memory/src/jsonl.rs:25-25 [META_LINE_PADDING] *)
Definition META_LINE_PADDING : nat := 64.

(** @src memory/src/jsonl.rs:27-34 [SessionRecord] *)
Inductive SessionRecord :=
| RecLlm (m : LlmMessage)
| RecCustom (envelope : Value)
| RecAppendBegin
| RecMeta (m : SessionMeta)
| RecState (state : Value).

(** Serialization to a string does not fail for these types.
    @src memory/src/jsonl.rs:50-70 [SessionRecord::to_json_line] *)
Definition to_json_line (r : SessionRecord) : string :=
  match r with
  | RecLlm m => llm_to_string m
  | RecCustom envelope => json_to_string envelope
  | RecAppendBegin =>
    json_to_string (json_of_map (<["_append" := json_bool true]> {["phase" := json_string "begin"]}))
  | RecMeta m => json_to_string (json_of_map (<["_meta" := json_bool true]> {["data" := meta_to_value m]}))
  | RecState state => json_to_string (json_of_map (<["_state" := json_bool true]> {["data" := state]}))
  end.

(** [value.get("data").cloned().unwrap_or(Value::Null)] *)
Definition data_of (value : Value) : Value := default json_null (json_get value "data").

(** The part of [parse] after the text is read.
    @src memory/src/jsonl.rs:74-102 [SessionRecord::parse, after from_str] *)
Definition record_of_value (value : Value) : result SessionRecord string :=
  if marked value "_state" then Ok (RecState (data_of value))
  else if marked value "_append" then Ok RecAppendBegin
  else if marked value "_meta" then m <-? meta_from_value (data_of value) ;; Ok (RecMeta m)
  else if marked value "_custom" then Ok (RecCustom value)
  else m <-? llm_from_value value ;; Ok (RecLlm m).

(** @src memory/src/jsonl.rs:72-103 [SessionRecord::parse] *)
Definition record_parse (line : string) : result SessionRecord IoError :=
  io_other (value <-? json_from_str line ;; record_of_value value).

(** @src memory/src/jsonl.rs:37-44 [SessionRecord::from_message] *)
Definition from_message (message : AgentMessage) : option SessionRecord :=
  line ← encode_jsonl_message_line message;
  match record_parse line with
  | Ok (RecLlm m) => Some (RecLlm m)
  | Ok (RecCustom envelope) => Some (RecCustom envelope)
  | _ => None
  end.

(** @src memory/src/jsonl.rs:124-126 [not_found] *)
Definition not_found (id : string) : IoError := MkIoError NotFound ("session not found: " ++ id).

(** @src memory/src/jsonl.rs:128-133 [sequence_conflict] *)
Definition sequence_conflict (id : string) (expected actual : N) : IoError :=
  MkIoError AlreadyExists
    ("sequence conflict for session " ++ id ++ ": expected " ++ pretty expected ++ ", found " ++ pretty actual).

(** @src memory/src/jsonl.rs:146-148 [empty_file] *)
Definition empty_file : IoError := MkIoError InvalidData "empty session file".

(** @src memory/src/jsonl.rs:150-155 [invalid_meta] *)
Definition invalid_meta (error : string) : IoError :=
  MkIoError InvalidData ("invalid session metadata: " ++ error).

(** A missing file and an empty one are errors.
    @src memory/src/jsonl.rs:157-171 [open_session_file] *)
Definition open_session_file (file : option string) (id : string) : result string IoError :=
  match file with
  | None => Err (not_found id)
  | Some "" => Err empty_file
  | Some bytes => Ok bytes
  end.

(** @src memory/src/jsonl.rs:394-397 [canonical_meta_for_id] *)
Definition canonical_meta_for_id (meta : SessionMeta) (id : string) : SessionMeta :=
  MkSessionMeta id (meta_title meta) (meta_created_at meta) (meta_updated_at meta)
    (meta_version meta) (meta_sequence meta).

(** [serde_json::from_str::<SessionMeta>] *)
Definition meta_from_str (text : string) : result SessionMeta string :=
  value <-? json_from_str text ;; meta_from_value value.

Definition map_err {T A B} (f : A -> B) (r : result T A) : result T B :=
  match r with Ok t => Ok t | Err e => Err (f e) end.

(** ** Reading *)

(** The locals of the scan: the metadata in force, the lines, and those of an
    append that is not committed. *)
Record Scan := MkScan {
  sc_meta : SessionMeta;
  sc_lines : list string;
  sc_pending : option (list string);
}.

(** One line of the scan; a line that is not UTF-8 is skipped.
    @src memory/src/jsonl.rs:192-228 [read_meta_and_message_lines, while] *)
Definition scan_line (id : string) (s : Scan) (raw : string) : Scan :=
  if is_utf8 raw then
    match record_parse raw with
    | Ok RecAppendBegin => MkScan (sc_meta s) (sc_lines s) (Some [])
    | Ok (RecMeta meta_update) =>
      MkScan (canonical_meta_for_id meta_update id) (sc_lines s ++ default [] (sc_pending s)) None
    | Ok (RecLlm _ | RecCustom _ | RecState _) | Err _ =>
      match sc_pending s with
      | Some lines => MkScan (sc_meta s) (sc_lines s) (Some (lines ++ [raw]))
      | None => MkScan (sc_meta s) (sc_lines s ++ [raw]) None
      end
    end
  else s.

(** [read_raw_line] until the end of the file is [str_lines].
    @src memory/src/jsonl.rs:173-254 [read_meta_and_message_lines, read_raw_line] *)
Definition read_meta_and_message_lines (file : option string) (id : string) :
    result (SessionMeta * list string) IoError :=
  bytes <-? open_session_file file id ;;
  match str_lines bytes with
  | [] => Err empty_file
  | meta_line :: raws =>
    if is_utf8 meta_line then
      meta <-? map_err invalid_meta (meta_from_str meta_line) ;;
      let s := foldl (scan_line id) (MkScan (canonical_meta_for_id meta id) [] None) raws in
      Ok (sc_meta s, sc_lines s)
    else Err (invalid_meta "invalid utf-8 sequence")
  end.

(** The metadata record a line holds. *)
Definition meta_of_line (raw : string) : option SessionMeta :=
  if is_utf8 raw then match record_parse raw with Ok (RecMeta m) => Some m | _ => None end else None.

(** Forward, the last one counts.
    @src memory/src/jsonl.rs:349-364 [find_last_meta_commit, the streaming scan] *)
Definition last_meta_forward (body : string) : option SessionMeta :=
  foldl (fun meta raw => match meta_of_line raw with Some m => Some m | None => meta end) None (str_lines body).

(** [bytes.split(|&b| b == b'\n')]: the pieces between line feeds, the last one included. *)
Definition split_pieces (bytes : string) : list string :=
  let '(lines, rest) := split_newlines bytes in lines ++ [rest].

(** @src memory/src/jsonl.rs:370-392 [last_meta_in_complete_lines] *)
Definition last_meta_in_complete_lines (bytes : string) : option SessionMeta :=
  head (filtermap (fun piece =>
      let line := strip_cr piece in
      if str_is_empty line then None else meta_of_line line) (rev (split_pieces bytes))).

(** What follows the first line feed of a window. *)
Fixpoint after_newline (bytes : string) : option string :=
  match bytes with
  | "" => None
  | String a rest => if Ascii.eqb a LF then Some rest else after_newline rest
  end.

(** @src memory/src/jsonl.rs:298-298 [META_TAIL_WINDOW] *)
Definition META_TAIL_WINDOW : N := 65536.

(** The tail windows, and [out] when the fuel runs out.
    @src memory/src/jsonl.rs:322-343 [find_last_meta_commit, while] *)
Fixpoint tail_windows (out : option SessionMeta) (fuel : nat) (window : N) (bytes : string) (body_start : nat) :
    option SessionMeta :=
  match fuel with
  | 0 => out
  | S fuel' =>
    if (window <? N.of_nat (String.length bytes - body_start))%N then
      match after_newline (str_drop (String.length bytes - N.to_nat window) bytes) ≫= last_meta_in_complete_lines with
      | Some meta => Some meta
      | None => tail_windows out fuel' (2 * window)%N bytes body_start
      end
    else last_meta_forward (str_drop body_start bytes)
  end.

(** A window doubles, so a turn more than the length has bits is enough fuel.
    @src memory/src/jsonl.rs:318-365 [find_last_meta_commit] *)
Definition find_last_meta_commit (bytes : string) (body_start : nat) : option SessionMeta :=
  tail_windows None (S (N.to_nat (N.size (N.of_nat (String.length bytes))))) META_TAIL_WINDOW bytes body_start.

(** [read_line]: the first line with its line feed, if it has one. *)
Fixpoint first_line (bytes : string) : string :=
  match bytes with
  | "" => ""
  | String a rest => if Ascii.eqb a LF then String a "" else String a (first_line rest)
  end.

(** [read_line] fails on a line that is not UTF-8.
    @src memory/src/jsonl.rs:275-295 [read_meta_with_line_len] *)
Definition read_meta_with_line_len (file : option string) (id : string) : result (SessionMeta * nat) IoError :=
  bytes <-? open_session_file file id ;;
  let first := first_line bytes in
  if negb (is_utf8 first) then Err (MkIoError InvalidData "stream did not contain valid UTF-8")
  else
    let line_len := String.length first in
    meta <-? map_err invalid_meta (meta_from_str (trim_end first)) ;;
    match find_last_meta_commit bytes line_len with
    | Some meta_update => Ok (canonical_meta_for_id meta_update id, line_len)
    | None => Ok (canonical_meta_for_id meta id, line_len)
    end.

(** @src memory/src/jsonl.rs:135-144 [check_sequence_path] *)
Definition check_sequence_path (file : option string) (id : string) (caller_sequence : N) : result unit IoError :=
  match file with
  | None => Ok tt
  | Some _ =>
    r <-? read_meta_with_line_len file id ;;
    let stored := meta_sequence (fst r) in
    if (stored =? caller_sequence)%N then Ok tt
    else Err (sequence_conflict id caller_sequence stored)
  end.

(** ** State lines *)

(** @src memory/src/jsonl.rs:629-660 [parse_state_line] *)
Definition parse_state_line (line id : string) : result (option Value) IoError :=
  match json_from_str line with
  | Err error =>
    if contains line (String "034" "_state" ++ String "034" "")
    then Err (MkIoError InvalidData ("corrupted state line in session " ++ id ++ ": " ++ error))
    else Ok None
  | Ok value =>
    match json_get value "_state" with
    | None => Ok None
    | Some state_marker =>
      if bool_decide (json_as_bool state_marker = Some true) then Ok (Some (data_of value))
      else Err (MkIoError InvalidData
                  ("invalid state marker in session " ++ id ++ ": expected `_state: true`"))
    end
  end.

(** @src memory/src/jsonl.rs:256-264 [extract_state_from_lines] *)
Fixpoint extract_state_from_lines (lines : list string) (id : string) : result (option Value) IoError :=
  match lines with
  | [] => Ok None
  | line :: lines' =>
    state <-? parse_state_line line id ;;
    match state with Some v => Ok (Some v) | None => extract_state_from_lines lines' id end
  end.

(** The first line that is a state record is replaced, else a line is added.
    @src memory/src/jsonl.rs:613-627 [upsert_state_line], 699-717 [find_record_line_mut] *)
Fixpoint upsert_state_line (lines : list string) (state : Value) : list string :=
  match lines with
  | [] => [to_json_line (RecState state)]
  | line :: lines' =>
    match record_parse line with
    | Ok (RecState _) => to_json_line (RecState state) :: lines'
    | _ => line :: upsert_state_line lines' state
    end
  end.

(** ** Writing *)

(** @src memory/src/jsonl.rs:515-527 [write_meta_line] *)
Definition write_meta_line (meta : SessionMeta) (padding : nat) : string :=
  (meta_to_string meta ++ str_repeat SPACE padding ++ newline)%string.

Definition nonempty_lines (lines : list string) : list string :=
  List.filter (fun l => negb (str_is_empty l)) lines.

(** @src memory/src/jsonl.rs:399-414 [rewrite_session_file_locked] *)
Definition rewrite_session_file (meta : SessionMeta) (lines : list string) : string :=
  (write_meta_line meta META_LINE_PADDING ++ write_lines (nonempty_lines lines))%string.

(** @src memory/src/jsonl.rs:416-430 [preserve_existing_lines] *)
Definition preserve_existing_lines (file : option string) (id : string) (should_preserve : string -> bool) :
    result (list string) IoError :=
  match file with
  | None => Ok []
  | Some _ =>
    r <-? read_meta_and_message_lines file id ;;
    Ok (List.filter should_preserve (snd r))
  end.

(** @src memory/src/jsonl.rs:432-446 [preserve_for_message_save] *)
Definition preserve_for_message_save (line : string) : bool :=
  match record_parse line with
  | Ok (RecState _) => true
  | Ok _ => false
  | Err _ =>
    match entry_parse line with
    | Ok (EntryMessage _) => false
    | Ok _ => true
    | Err _ => false
    end
  end.

(** @src memory/src/jsonl.rs:448-453 [preserve_for_entry_save] *)
Definition preserve_for_entry_save (line : string) : bool :=
  match record_parse line with
  | Ok (RecState _ | RecCustom _) => true
  | _ => false
  end.

(** The metadata of a write: the caller's, under the session's name, with the next sequence number.
    @src memory/src/jsonl.rs:471-474 [save_messages_with_hooks, write_meta] *)
Definition write_meta_of (meta : SessionMeta) (id : string) (now : DateTime) : SessionMeta :=
  MkSessionMeta id (meta_title meta) (meta_created_at meta) now (meta_version meta)
    (u64_add (meta_sequence meta) 1).

(** @src memory/src/jsonl.rs:490-513 [write_messages_with_preserved_lines] *)
Definition write_messages_with_preserved_lines (meta : SessionMeta) (messages : list AgentMessage)
    (preserved_lines : list string) : string :=
  (write_meta_line meta META_LINE_PADDING
   ++ write_lines (map to_json_line (filtermap from_message messages))
   ++ write_lines (nonempty_lines preserved_lines))%string.

(** @src memory/src/jsonl.rs:529-545 [write_meta_line_in_place] *)
Definition write_meta_line_in_place (line : string) (existing_line_len : nat) : list FileOp :=
  if (existing_line_len <? String.length line + 1)%nat then []
  else [SeekStart 0; WriteAll line; WriteAll (str_repeat SPACE (existing_line_len - 1 - String.length line));
        WriteAll newline].

(** The writes of an append, or [None] when the metadata does not fit its line.
    @src memory/src/jsonl.rs:573-611 [append_records_in_place_with_hooks] *)
Definition append_records_in_place (meta : SessionMeta) (meta_line_len : nat) (record_lines : list string) :
    option (list FileOp) :=
  let meta_line := meta_to_string meta in
  if (meta_line_len <? String.length meta_line + 1)%nat then None
  else Some (SeekEnd :: WriteAll (to_json_line RecAppendBegin ++ newline)
        :: map (fun line => WriteAll (line ++ newline)) (nonempty_lines record_lines)
        ++ WriteAll (to_json_line (RecMeta meta) ++ newline)
        :: write_meta_line_in_place meta_line meta_line_len).

(** How an append changes the file: by writes in place, or as a whole. *)
Inductive Change :=
| InPlace (ops : list FileOp)
| Rewrite (bytes : string).

Definition apply_change (bytes : string) (c : Change) : string :=
  match c with InPlace ops => file_ops bytes ops | Rewrite new => new end.

(** The fallback when the metadata outgrew its line, shared by the two kinds of append.
    @src memory/src/jsonl.rs:689-695 [append_records_with_rewrite, in place or rewrite] *)
Definition append_or_rewrite (file : option string) (id : string) (meta : SessionMeta) (meta_line_len : nat)
    (record_lines : list string) : result Change IoError :=
  match append_records_in_place meta meta_line_len record_lines with
  | Some ops => Ok (InPlace ops)
  | None =>
    r <-? read_meta_and_message_lines file id ;;
    Ok (Rewrite (rewrite_session_file meta (snd r ++ record_lines)))
  end.

(** @src memory/src/jsonl.rs:670-697 [append_records_with_rewrite] *)
Definition append_records (file : option string) (id : string) (records : list SessionRecord) (now : DateTime) :
    result Change IoError :=
  r <-? read_meta_with_line_len file id ;;
  let '(stored, meta_line_len) := r in
  append_or_rewrite file id (write_meta_of stored id now) meta_line_len (map to_json_line records).

(** ** Lines as entries *)

(** @src memory/src/jsonl.rs:1596-1608 [ClassifiedLine] *)
Inductive ClassifiedLine :=
| LineEntry (e : SessionEntry)
| LineCustom (envelope : Value)
| LineState.

(** @src memory/src/jsonl.rs:1615-1630 [classify_line] *)
Definition classify_line (line : string) : result ClassifiedLine string :=
  value <-? json_from_str line ;;
  if marked value "_state" then Ok LineState
  else if marked value "_custom" then Ok (LineCustom value)
  else e <-? entry_parse line ;; Ok (LineEntry e).

(** Blank lines and lines that are no records are skipped.
    @src memory/src/jsonl.rs:1494-1510 [classify_and_migrate, classification] *)
Definition classify_lines (lines : list string) : list ClassifiedLine :=
  filtermap (fun line => if is_blank line then None
                         else match classify_line line with Ok item => Some item | Err _ => None end) lines.

Definition entry_of_line (item : ClassifiedLine) : option SessionEntry :=
  match item with LineEntry e => Some e | _ => None end.

(** The migrated entries one by one into the slots of the old ones.
    @src memory/src/jsonl.rs:1551-1563 [weave_migrated_entries, same count] *)
Fixpoint weave_slots (classified : list ClassifiedLine) (migrated : list SessionEntry) : list ClassifiedLine :=
  match classified with
  | [] => []
  | LineEntry _ :: rest =>
    match migrated with
    | e :: migrated' => LineEntry e :: weave_slots rest migrated'
    | [] => weave_slots rest []
    end
  | item :: rest => item :: weave_slots rest migrated
  end.

(** All migrated entries into the first slot, or to the end when there is none.
    @src memory/src/jsonl.rs:1565-1584 [weave_migrated_entries, other count] *)
Fixpoint weave_block (classified : list ClassifiedLine) (migrated : list SessionEntry) : list ClassifiedLine :=
  match classified with
  | [] => map LineEntry migrated
  | LineEntry _ :: rest => map LineEntry migrated ++ weave_block rest []
  | item :: rest => item :: weave_block rest migrated
  end.

(** @src memory/src/jsonl.rs:1544-1587 [weave_migrated_entries] *)
Definition weave_migrated_entries (classified : list ClassifiedLine) (migrated : list SessionEntry)
    (original_entry_count : nat) : list ClassifiedLine :=
  if (length migrated =? original_entry_count)%nat then weave_slots classified migrated
  else weave_block classified migrated.

(** [None]: the migrations did not end within the fuel.
    @src memory/src/jsonl.rs:1488-1530 [classify_and_migrate] *)
Definition classify_and_migrate (fuel : nat) (migrators : list SessionMigrator) (meta : SessionMeta)
    (lines : list string) : option (result (SessionMeta * list ClassifiedLine) IoError) :=
  let classified := classify_lines lines in
  let entries := filtermap entry_of_line classified in
  r ← run_migrations fuel meta entries migrators;
  Some (m <-? r ;;
        let '(meta', migrated) := m in
        Ok (meta', weave_migrated_entries classified migrated (length entries))).

(** @src memory/src/jsonl.rs:1637-1643 [custom_envelope_to_message] *)
Definition custom_envelope_to_message (envelope : Value) (registry : option CustomMessageRegistry) :
    result (option AgentMessage) IoError :=
  decode_jsonl_message_line (json_to_string envelope) registry.

(** @src memory/src/jsonl.rs:1645-1675 [classified_lines_to_messages] *)
Definition classified_lines_to_messages (classified : list ClassifiedLine)
    (registry : option CustomMessageRegistry) : list AgentMessage :=
  filtermap (fun item =>
    match item with
    | LineEntry (EntryMessage m) => Some (Llm m)
    | LineEntry _ => None
    | LineCustom envelope =>
      match custom_envelope_to_message envelope registry with Ok m => m | Err _ => None end
    | LineState => None
    end) classified.

End Jsonl.
