(* ===== verification/SessionStore.v ===== *)
(** * The session store: [JsonlSessionStore] of [memory/src/jsonl.rs]

    The sessions directory is two maps from session ids to the bytes of their
    files.  Every operation holds the lock of its session's file, so it is one
    step on the store.  An operation that fails leaves the files as they were:
    whole files are replaced by a rename ([src/atomic_fs.rs]), and appends write
    only after everything that can fail. *)
From S2P Require Export Jsonl.
From Stdlib Require Import Ascii.
Open Scope string_scope.
Open Scope list_scope.
Open Scope agent_scope.

Section Store.
Context `{Sd : SessionSerde}.

(** [u8::is_ascii_control] *)
Definition is_ascii_control (a : ascii) : bool := ((N_of_ascii a <? 32) || (N_of_ascii a =? 127))%N.

(** @src memory/src/jsonl.rs:722-740 [validate_session_id] *)
Definition validate_session_id (id : string) : result unit IoError :=
  if str_is_empty id then Err (MkIoError InvalidInput "session ID must not be empty")
  else if contains id "/" || contains id "\" || contains id ".."
          || negb (string_all (fun a => negb (Ascii.eqb a ":" || is_ascii_control a)) id)
  then Err (MkIoError InvalidInput ("session ID contains unsafe characters: " ++ debug_str id))
  else Ok tt.

(** The directory's [*.jsonl] and [*.interrupt.json] files, and the migrators.
    @src memory/src/jsonl.rs:752-769 [JsonlSessionStore], 106-112 [session_path, interrupt_path] *)
Record Store := MkStore {
  st_sessions : gmap string string;
  st_interrupts : gmap string string;
  st_migrators : list SessionMigrator;
}.

Definition put_session (st : Store) (id bytes : string) : Store :=
  MkStore (<[id := bytes]> (st_sessions st)) (st_interrupts st) (st_migrators st).

Definition put_interrupts (st : Store) (m : gmap string string) : Store :=
  MkStore (st_sessions st) m (st_migrators st).

(** @src memory/src/jsonl.rs:911-917 [with_migrators] *)
Definition with_migrators (st : Store) (migrators : list SessionMigrator) : Store :=
  MkStore (st_sessions st) (st_interrupts st) migrators.

(** Validate the id, run [op] on the session's file and replace the file by what it gives.
    @src memory/src/jsonl.rs:114-122 [with_session_lock] *)
Definition on_session {T} (st : Store) (id : string) (op : option string -> result (T * string) IoError) :
    result T IoError * Store :=
  match validate_session_id id ;;? op (st_sessions st !! id) with
  | Ok (t, bytes) => (Ok t, put_session st id bytes)
  | Err e => (Err e, st)
  end.

(** An operation that only reads. *)
Definition read_session {T} (st : Store) (id : string) (op : option string -> result T IoError) : result T IoError :=
  validate_session_id id ;;? op (st_sessions st !! id).

(** ** Messages *)

(** @src memory/src/jsonl.rs:455-488 [save_messages_with_hooks, write_messages_locked] *)
Definition save_file (id : string) (meta : SessionMeta) (messages : list AgentMessage) (now : DateTime)
    (file : option string) : result (unit * string) IoError :=
  check_sequence_path file id (meta_sequence meta) ;;?
  preserved <-? preserve_existing_lines file id preserve_for_message_save ;;
  Ok (tt, write_messages_with_preserved_lines (write_meta_of meta id now) messages preserved).

(** @src memory/src/jsonl.rs:933-940 [save] *)
Definition save (st : Store) (id : string) (meta : SessionMeta) (messages : list AgentMessage) (now : DateTime) :
    result unit IoError * Store :=
  on_session st id (save_file id meta messages now).

(** @src memory/src/jsonl.rs:953-971 [save_full, locked] *)
Definition save_full_file (id : string) (meta : SessionMeta) (messages : list AgentMessage) (state : Value)
    (now : DateTime) (file : option string) : result (SessionMeta * string) IoError :=
  check_sequence_path file id (meta_sequence meta) ;;?
  preserved <-? preserve_existing_lines file id preserve_for_message_save ;;
  let write_meta := write_meta_of meta id now in
  Ok (write_meta, write_messages_with_preserved_lines write_meta messages (upsert_state_line preserved state)).

(** @src memory/src/jsonl.rs:942-978 [save_full] *)
Definition save_full (st : Store) (id : string) (meta : SessionMeta) (messages : list AgentMessage) (state : Value)
    (now : DateTime) : result SessionMeta IoError * Store :=
  on_session st id (save_full_file id meta messages state now).

(** The bytes of a file after a change; an operation that changes a file found one. *)
Definition changed {T} (file : option string) (r : result (T * Change) IoError) : result (T * string) IoError :=
  match r with Ok (t, c) => Ok (t, apply_change (default "" file) c) | Err e => Err e end.

(** @src memory/src/jsonl.rs:980-990 [append (brace)] *)
Definition append (st : Store) (id : string) (messages : list AgentMessage) (now : DateTime) :
    result unit IoError * Store :=
  on_session st id (fun file =>
    changed file (c <-? append_records file id (filtermap from_message messages) now ;; Ok (tt, c))).

(** @src memory/src/jsonl.rs:1028-1032 [load, locked] *)
Definition load_file (fuel : nat) (migrators : list SessionMigrator) (id : string)
    (registry : option CustomMessageRegistry) (file : option string) :
    option (result (SessionMeta * list AgentMessage) IoError) :=
  match read_meta_and_message_lines file id with
  | Err e => Some (Err e)
  | Ok (meta, lines) =>
    r ← classify_and_migrate fuel migrators meta lines;
    Some (m <-? r ;; Ok (fst m, classified_lines_to_messages (snd m) registry))
  end.

(** [None]: the migrations did not end within the fuel.
    @src memory/src/jsonl.rs:1020-1033 [load] *)
Definition load (fuel : nat) (st : Store) (id : string) (registry : option CustomMessageRegistry) :
    option (result (SessionMeta * list AgentMessage) IoError) :=
  match validate_session_id id with
  | Err e => Some (Err e)
  | Ok _ => load_file fuel (st_migrators st) id registry (st_sessions st !! id)
  end.

(** @src memory/src/jsonl.rs:1043-1049 [load_full, locked] *)
Definition load_full_file (fuel : nat) (migrators : list SessionMigrator) (id : string)
    (registry : option CustomMessageRegistry) (file : option string) :
    option (result (SessionMeta * list AgentMessage * option Value) IoError) :=
  match r <-? read_meta_and_message_lines file id ;;
        state <-? extract_state_from_lines (snd r) id ;; Ok (r, state) with
  | Err e => Some (Err e)
  | Ok (meta, lines, state) =>
    r ← classify_and_migrate fuel migrators meta lines;
    Some (m <-? r ;; Ok (fst m, classified_lines_to_messages (snd m) registry, state))
  end.

(** @src memory/src/jsonl.rs:1035-1050 [load_full] *)
Definition load_full (fuel : nat) (st : Store) (id : string) (registry : option CustomMessageRegistry) :
    option (result (SessionMeta * list AgentMessage * option Value) IoError) :=
  match validate_session_id id with
  | Err e => Some (Err e)
  | Ok _ => load_full_file fuel (st_migrators st) id registry (st_sessions st !! id)
  end.

(** ** The directory *)

(** A stable sort, the last updated first. *)
Fixpoint insert_recent (m : SessionMeta) (l : list SessionMeta) : list SessionMeta :=
  match l with
  | [] => [m]
  | y :: l' => if decide (datetime_le (meta_updated_at y) (meta_updated_at m)) then m :: l
               else y :: insert_recent m l'
  end.

Definition sort_recent (l : list SessionMeta) : list SessionMeta := foldr insert_recent [] l.

(** The files in the order of [read_dir]; unreadable ones are skipped.
    @src memory/src/jsonl.rs:1052-1089 [list] *)
Definition list_sessions (dir : list (string * string)) : list SessionMeta :=
  sort_recent (filtermap (fun '(file_id, bytes) =>
    match validate_session_id file_id ;;? read_meta_with_line_len (Some bytes) file_id with
    | Ok (meta, _) => Some (canonical_meta_for_id meta file_id)
    | Err _ => None
    end) dir).

(** @src memory/src/jsonl.rs:1091-1119 [delete] *)
Definition delete_session (st : Store) (id : string) : result unit IoError * Store :=
  match validate_session_id id with
  | Err e => (Err e, st)
  | Ok _ =>
    match st_sessions st !! id with
    | None => (Err (MkIoError NotFound os_not_found), st)
    | Some _ => (Ok tt, MkStore (delete id (st_sessions st)) (delete id (st_interrupts st)) (st_migrators st))
    end
  end.

(** ** State *)

(** @src memory/src/jsonl.rs:1125-1135 [save_state, locked] *)
Definition save_state_file (id : string) (state : Value) (now : DateTime) (file : option string) :
    result (unit * string) IoError :=
  match file with
  | None => Err (not_found id)
  | Some _ =>
    r <-? read_meta_and_message_lines file id ;;
    Ok (tt, rewrite_session_file (write_meta_of (fst r) id now) (upsert_state_line (snd r) state))
  end.

(** @src memory/src/jsonl.rs:1121-1136 [save_state] *)
Definition save_state (st : Store) (id : string) (state : Value) (now : DateTime) : result unit IoError * Store :=
  on_session st id (save_state_file id state now).

(** @src memory/src/jsonl.rs:1138-1150 [load_state] *)
Definition load_state (st : Store) (id : string) : result (option Value) IoError :=
  read_session st id (fun file =>
    match file with
    | None => Ok None
    | Some _ => r <-? read_meta_and_message_lines file id ;; extract_state_from_lines (snd r) id
    end).

(** ** Interrupts *)

(** @src memory/src/jsonl.rs:1152-1162 [save_interrupt] *)
Definition save_interrupt (st : Store) (id : string) (state : InterruptState) : result unit IoError * Store :=
  match validate_session_id id with
  | Err e => (Err e, st)
  | Ok _ =>
    match st_sessions st !! id with
    | None => (Err (not_found id), st)
    | Some _ => (Ok tt, put_interrupts st (<[id := interrupt_to_string_pretty state]> (st_interrupts st)))
    end
  end.

(** @src memory/src/jsonl.rs:1164-1179 [load_interrupt] *)
Definition load_interrupt (st : Store) (id : string) : result (option InterruptState) IoError :=
  validate_session_id id ;;?
  match st_sessions st !! id, st_interrupts st !! id with
  | Some _, Some contents =>
    if is_utf8 contents then
      state <-? map_err (fun e => MkIoError InvalidData
                   ("corrupted interrupt file for session " ++ id ++ ": " ++ e))
                 (value <-? json_from_str contents ;; interrupt_from_value value) ;;
      Ok (Some state)
    else Err (MkIoError InvalidData "stream did not contain valid UTF-8")
  | _, _ => Ok None
  end.

(** @src memory/src/jsonl.rs:1181-1189 [clear_interrupt] *)
Definition clear_interrupt (st : Store) (id : string) : result unit IoError * Store :=
  match validate_session_id id with
  | Err e => (Err e, st)
  | Ok _ => (Ok tt, put_interrupts st (delete id (st_interrupts st)))
  end.

(** ** Entries *)

(** @src memory/src/jsonl.rs:1340-1366 [save_entries, locked] *)
Definition save_entries_file (id : string) (meta : SessionMeta) (entries : list SessionEntry) (now : DateTime)
    (file : option string) : result (unit * string) IoError :=
  check_sequence_path file id (meta_sequence meta) ;;?
  preserved <-? preserve_existing_lines file id preserve_for_entry_save ;;
  Ok (tt, (meta_to_string (write_meta_of meta id now) ++ newline
           ++ write_lines (map entry_to_string entries) ++ write_lines (nonempty_lines preserved))%string).

(** @src memory/src/jsonl.rs:1330-1387 [save_entries] *)
Definition save_entries (st : Store) (id : string) (meta : SessionMeta) (entries : list SessionEntry)
    (now : DateTime) : result unit IoError * Store :=
  on_session st id (save_entries_file id meta entries now).

(** @src memory/src/jsonl.rs:1424-1445 [append_entries, locked] *)
Definition append_entries_file (id : string) (meta : SessionMeta) (entries : list SessionEntry) (now : DateTime)
    (file : option string) : result (SessionMeta * Change) IoError :=
  check_sequence_path file id (meta_sequence meta) ;;?
  r <-? read_meta_with_line_len file id ;;
  let write_meta := write_meta_of meta id now in
  c <-? append_or_rewrite file id write_meta (snd r) (map entry_to_string entries) ;;
  Ok (write_meta, c).

(** @src memory/src/jsonl.rs:1414-1452 [append_entries] *)
Definition append_entries (st : Store) (id : string) (meta : SessionMeta) (entries : list SessionEntry)
    (now : DateTime) : result SessionMeta IoError * Store :=
  on_session st id (fun file => changed file (append_entries_file id meta entries now file)).

(** @src memory/src/jsonl.rs:1459-1477 [load_entries] *)
Definition load_entries (fuel : nat) (st : Store) (id : string) :
    option (result (SessionMeta * list SessionEntry) IoError) :=
  match validate_session_id id ;;? read_meta_and_message_lines (st_sessions st !! id) id with
  | Err e => Some (Err e)
  | Ok (meta, lines) =>
    r ← classify_and_migrate fuel (st_migrators st) meta lines;
    Some (m <-? r ;; Ok (fst m, filtermap entry_of_line (snd m)))
  end.

(** [i64::cast_unsigned] *)
Definition cast_unsigned (z : Z) : N := Z.to_N (z mod 2 ^ 64).

(** @src memory/src/jsonl.rs:1198-1214 [load_with_options, filters] *)
Definition select_entries (options : LoadOptions) (entries : list SessionEntry) : list SessionEntry :=
  let entries :=
    match entry_types options with
    | Some types => List.filter (fun e => existsb (fun t => String.eqb t (entry_type_name e)) types) entries
    | None => entries
    end in
  let entries :=
    match after_timestamp options with
    | Some after =>
      let after_secs := cast_unsigned (datetime_timestamp after) in
      List.filter (fun e => match entry_timestamp e with Some ts => (after_secs <? ts)%N | None => false end) entries
    | None => entries
    end in
  match last_n_entries options with
  | Some n => drop (length entries - n) entries
  | None => entries
  end.

(** @src memory/src/jsonl.rs:1191-1217 [load_with_options] *)
Definition load_with_options (fuel : nat) (st : Store) (id : string) (options : LoadOptions) :
    option (result (SessionMeta * list SessionEntry) IoError) :=
  r ← load_entries fuel st id;
  Some (m <-? r ;; Ok (fst m, select_entries options (snd m))).

End Store.
