(* ===== verification/JsonlScan.v ===== *)
(** * Finding the metadata of a session file

    The store reads a file in two ways: a forward scan of all lines, and for
    its metadata a scan of growing windows from the end.  This file shows that
    they find the same. *)
From S2P Require Export Jsonl.
From S2P Require Import SessionData.
From Stdlib Require Import Ascii.
Open Scope string_scope.
Open Scope list_scope.
Open Scope agent_scope.

Lemma is_utf8_app a b : is_utf8 a = true -> is_utf8 (a ++ b) = is_utf8 b.
Proof.
  unfold is_utf8. rewrite from_utf8_app. destruct (from_utf8 a) as [v []]; try done. intros _. cbn.
  by destruct (from_utf8 b).
Qed.

(** An ASCII byte neither completes nor continues a sequence. *)
Lemma utf8_lead_ranges a ex : utf8_lead a = Some ex -> Forall (fun r => (128 <= fst r)%N) ex.
Proof. unfold utf8_lead, continuation. intros H. repeat case_match; simplify_eq; repeat constructor; cbn; lia. Qed.

Lemma utf8_scan_snoc pending expect s a :
  (N_of_ascii a < 128)%N -> Forall (fun r => (128 <= fst r)%N) expect ->
  (match (utf8_scan pending expect (s ++ String a "")).2 with Complete => true | _ => false end)
  = (match (utf8_scan pending expect s).2 with Complete => true | _ => false end).
Proof.
  intros Ha. revert pending expect. induction s as [|x s IH]; intros pending expect He.
  - rewrite string_app_nil_l. destruct expect as [|r ex]; cbn.
    + assert (utf8_lead a = Some []) as -> by (unfold utf8_lead; by rewrite (proj2 (N.ltb_lt _ _) Ha)). done.
    + apply Forall_cons in He as [Hr _]. unfold in_range.
      rewrite (proj2 (N.leb_gt _ _)) by lia. done.
  - rewrite string_app_cons. cbn [utf8_scan]. destruct expect as [|r ex].
    + destruct (utf8_lead x) as [[|r ex]|] eqn:Hl; [|by apply IH; eapply utf8_lead_ranges|done].
      specialize (IH "" [] (Forall_nil_2 _)).
      destruct (utf8_scan "" [] (s ++ String a "")), (utf8_scan "" [] s). exact IH.
    + apply Forall_cons in He as [Hr He]. destruct (in_range r x); [|done].
      destruct ex as [|r' ex]; [|by apply IH]. specialize (IH "" [] (Forall_nil_2 _)).
      destruct (utf8_scan "" [] (s ++ String a "")), (utf8_scan "" [] s). exact IH.
Qed.

Lemma is_utf8_snoc s a : (N_of_ascii a < 128)%N -> is_utf8 (s ++ String a "") = is_utf8 s.
Proof.
  intros Ha. pose proof (utf8_scan_snoc "" [] s a Ha (Forall_nil_2 _)) as H. unfold is_utf8, from_utf8.
  destruct (utf8_scan "" [] (s ++ String a "")), (utf8_scan "" [] s). exact H.
Qed.

Lemma filtermap_ext {A B} (f g : A -> option B) l : (forall x, f x = g x) -> filtermap f l = filtermap g l.
Proof. intros Hfg. induction l as [|x l IH]; [done|]. cbn. by rewrite Hfg, IH. Qed.

Lemma filtermap_map {A B D} (f : B -> option D) (g : A -> B) l : filtermap f (map g l) = filtermap (fun x => f (g x)) l.
Proof. induction l as [|x l IH]; [done|]. cbn. by rewrite IH. Qed.

(** [from_str] is about the value only, so that a carriage return after it is nothing. *)
Section Scan.
Context `{Sd : SessionSerde}.

Lemma from_str_cr s v : json_from_str (s ++ String CR "") = Ok v <-> json_from_str s = Ok v.
Proof. by apply json_from_str_white. Qed.

Lemma from_str_space s v : json_from_str (s ++ String SPACE "") = Ok v <-> json_from_str s = Ok v.
Proof. by apply json_from_str_white. Qed.

Lemma meta_of_line_cr s : meta_of_line (s ++ String CR "") = meta_of_line s.
Proof.
  unfold meta_of_line. rewrite is_utf8_snoc by done. destruct (is_utf8 s); [|done]. unfold record_parse.
  destruct (json_from_str s) as [v|e] eqn:Hv.
  - rewrite <- from_str_cr in Hv. by rewrite Hv.
  - destruct (json_from_str (s ++ String CR "")) as [v|e'] eqn:Hv'; [|done]. rewrite from_str_cr in Hv'. congruence.
Qed.

Lemma meta_of_line_strip_cr s : meta_of_line (strip_cr s) = meta_of_line s.
Proof.
  destruct (strip_cr_cases s) as [->|H]; [done|]. rewrite H at 2. by rewrite meta_of_line_cr.
Qed.

Lemma meta_of_line_empty : meta_of_line "" = None.
Proof.
  unfold meta_of_line, record_parse. cbn. destruct (json_from_str "") as [v|e] eqn:Hv; [|done].
  by apply json_from_str_empty in Hv.
Qed.

(** ** Both scans find the last metadata record *)

Lemma last_app_default {A} (l k : list A) : last (l ++ k) = match last k with Some x => Some x | None => last l end.
Proof. rewrite last_app. by destruct (last k). Qed.

Lemma last_meta_forward_lines body : last_meta_forward body = last (filtermap meta_of_line (str_lines body)).
Proof.
  unfold last_meta_forward. induction (str_lines body) as [|raw raws IH] using rev_ind; [done|].
  rewrite foldl_app, filtermap_app, last_app_default, IH. cbn. by destruct (meta_of_line raw).
Qed.

Lemma head_rev {A} (l : list A) : head (rev l) = last l.
Proof.
  induction l as [|x l IH] using rev_ind; [done|]. by rewrite rev_app_distr, last_snoc.
Qed.

Lemma filtermap_rev {A B} (f : A -> option B) l : filtermap f (rev l) = rev (filtermap f l).
Proof.
  induction l as [|x l IH]; [done|]. cbn. rewrite filtermap_app, IH. cbn. destruct (f x); [done|]. by rewrite app_nil_r.
Qed.

Lemma last_meta_complete_lines bytes :
  last_meta_in_complete_lines bytes = last (filtermap meta_of_line (str_lines bytes)).
Proof.
  unfold last_meta_in_complete_lines. rewrite filtermap_rev, head_rev. f_equal.
  assert (forall piece, (let line := strip_cr piece in if str_is_empty line then None else meta_of_line line)
                        = meta_of_line piece) as Hg.
  { intros piece. cbn zeta. rewrite <- (meta_of_line_strip_cr piece).
    destruct (strip_cr piece) eqn:Hp; [by rewrite meta_of_line_empty|done]. }
  rewrite (filtermap_ext _ _ _ Hg). unfold split_pieces, str_lines. destruct (split_newlines bytes) as [lines rest].
  rewrite !filtermap_app. f_equal.
  - rewrite filtermap_map. apply filtermap_ext. intros l. by rewrite meta_of_line_strip_cr.
  - destruct rest; [cbn [filtermap]; by rewrite meta_of_line_empty|done].
Qed.

Lemma after_newline_split bytes rest :
  after_newline bytes = Some rest -> exists p, bytes = (p ++ newline ++ rest)%string.
Proof.
  induction bytes as [|a bytes IH]; [done|]. cbn. destruct (Ascii.eqb a LF) eqn:Ha.
  - intros [= ->]. apply Ascii.eqb_eq in Ha as ->. by exists "".
  - intros H. destruct (IH H) as [p ->]. by exists (String a p).
Qed.

Lemma terminated_snoc x : terminated (x ++ newline).
Proof.
  unfold terminated. rewrite split_newlines_app. pose proof (split_newlines_rest x) as H.
  pose proof (split_lines_no_lf x) as [_ Hx]. destruct (split_newlines x) as [lines rest]. cbn in Hx.
  by rewrite split_line.
Qed.

Lemma last_meta_forward_app x rest m :
  last_meta_forward rest = Some m -> last_meta_forward (x ++ newline ++ rest) = Some m.
Proof.
  rewrite !last_meta_forward_lines. intros Hm.
  rewrite <- string_app_assoc, str_lines_app by apply terminated_snoc.
  by rewrite filtermap_app, last_app_default, Hm.
Qed.

Lemma tail_windows_forward out fuel window bytes body_start :
  (0 < window)%N -> (N.of_nat (String.length bytes - body_start) <= window * 2 ^ N.of_nat fuel)%N ->
  tail_windows out (S fuel) window bytes body_start = last_meta_forward (str_drop body_start bytes).
Proof.
  revert window. induction fuel as [|fuel IH]; intros window Hw Hf; cbn [tail_windows];
    (destruct (window <? _)%N eqn:Hlt; [|done]); apply N.ltb_lt in Hlt; [cbn in Hf; lia|].
  destruct (after_newline _ ≫= _) as [m|] eqn:Hm.
  - apply bind_Some in Hm as (rest & Hrest & Hm). rewrite last_meta_complete_lines, <- last_meta_forward_lines in Hm.
    apply after_newline_split in Hrest as [p Hp]. symmetry.
    assert (str_drop body_start bytes
      = (str_take (String.length bytes - N.to_nat window - body_start) (str_drop body_start bytes) ++ p ++ newline ++ rest)%string) as ->.
    { rewrite <- Hp. rewrite <- (str_take_drop (String.length bytes - N.to_nat window - body_start) (str_drop body_start bytes)) at 1.
      f_equal. rewrite str_drop_drop. f_equal. lia. }
    rewrite <- string_app_assoc. by apply last_meta_forward_app.
  - apply IH; [lia|]. rewrite Nat2N.inj_succ, N.pow_succ_r' in Hf. lia.
Qed.

Lemma find_last_meta_commit_is_forward bytes body_start :
  find_last_meta_commit bytes body_start = last_meta_forward (str_drop body_start bytes).
Proof.
  unfold find_last_meta_commit. apply tail_windows_forward; [done|].
  rewrite N2Nat.id. pose proof (N.size_gt (N.of_nat (String.length bytes))) as H. unfold META_TAIL_WINDOW. lia.
Qed.

(** ** The two readers agree *)

Lemma scan_meta id s raws :
  sc_meta (foldl (scan_line id) s raws)
  = match last (filtermap meta_of_line raws) with Some m => canonical_meta_for_id m id | None => sc_meta s end.
Proof.
  induction raws as [|raw raws IH] using rev_ind; [done|].
  rewrite foldl_app, filtermap_app, last_app_default. cbn [foldl filtermap]. revert IH.
  generalize (foldl (scan_line id) s raws) as s'. intros s' IH. unfold scan_line, meta_of_line.
  destruct (is_utf8 raw); [|done]. destruct (record_parse raw) as [[| | | |]|]; cbn; try done; by destruct (sc_pending s').
Qed.

(** The first line, with its line feed if it has one, and the rest. *)
Lemma first_line_rest bytes : bytes = (first_line bytes ++ str_drop (String.length (first_line bytes)) bytes)%string.
Proof.
  induction bytes as [|a bytes IH]; [done|]. cbn [first_line]. destruct (Ascii.eqb a LF); cbn.
  - by rewrite ?str_drop_0.
  - rewrite string_app_cons. by rewrite <- IH.
Qed.

Lemma first_line_cases bytes :
  bytes <> "" ->
  exists l raws, str_lines bytes = l :: raws
    /\ str_lines (str_drop (String.length (first_line bytes)) bytes) = raws
    /\ (first_line bytes = l \/ first_line bytes = (l ++ newline)%string
        \/ first_line bytes = (l ++ String CR "" ++ newline)%string).
Proof.
  intros Hne. pose proof (first_line_rest bytes) as Hb.
  assert ((exists l, no_lf l = true /\ first_line bytes = (l ++ newline)%string)
          \/ (no_lf bytes = true /\ first_line bytes = bytes)) as [(l & Hl & Hf)|[Hl Hf]].
  { clear. induction bytes as [|a bytes IH]; [by right|]. cbn. destruct (Ascii.eqb a LF) eqn:Ha; cbn.
    - left. exists "". apply Ascii.eqb_eq in Ha as ->. done.
    - destruct IH as [(l & Hl & Hf)|[Hl Hf]].
      + left. exists (String a l). rewrite Hf. split; [|done]. cbn. by rewrite Ha.
      + right. rewrite Hf. by split. }
  - exists (strip_cr l), (str_lines (str_drop (String.length (first_line bytes)) bytes)).
    split_and!; [|done|].
    + rewrite Hb at 1. rewrite Hf at 1. rewrite str_lines_app by by apply terminated_line. by rewrite str_lines_line.
    + destruct (strip_cr_cases l) as [Hs|Hs]; rewrite Hf; [rewrite Hs; auto|].
      right. right. rewrite Hs at 1. by rewrite string_app_assoc.
  - exists bytes, []. split_and!; [by apply str_lines_torn| |by left].
    rewrite Hf. by rewrite str_drop_ge.
Qed.

Lemma first_line_same l first :
  first = l \/ first = (l ++ newline)%string \/ first = (l ++ String CR "" ++ newline)%string ->
  is_utf8 first = is_utf8 l /\ trim_end first = trim_end l.
Proof.
  intros [->|[->| ->]]; [done|..]; rewrite <- ?string_app_assoc; split; unfold newline;
    rewrite ?is_utf8_snoc by done; by rewrite ?trim_end_white by done.
Qed.

Lemma meta_from_str_trim l m : meta_from_str l = Ok m -> meta_from_str (trim_end l) = Ok m.
Proof.
  unfold meta_from_str. rewrite !result_bind_Ok. intros (v & Hv & Hm). exists v. split; [|done].
  by apply json_from_str_trim.
Qed.

Lemma readers_agree file id m lines :
  read_meta_and_message_lines file id = Ok (m, lines) ->
  exists bytes, file = Some bytes /\ read_meta_with_line_len file id = Ok (m, String.length (first_line bytes)).
Proof.
  unfold read_meta_and_message_lines, read_meta_with_line_len. destruct file as [bytes|]; [|done].
  intros H. exists bytes. split; [done|]. revert H.
  destruct (open_session_file (Some bytes) id) as [b|e] eqn:Ho; [|done].
  assert (bytes <> "" /\ b = bytes) as [Hne ->] by (destruct bytes; cbn in Ho; simplify_eq; done).
  cbn [result_bind]. destruct (first_line_cases bytes Hne) as (l & raws & -> & Hraws & Hf).
  destruct (first_line_same _ _ Hf) as [Hu Ht]. rewrite Hu, Ht. destruct (is_utf8 l) eqn:Hul; [|done]. cbn [negb].
  destruct (meta_from_str l) as [m0|e] eqn:Hm0; [|done]. apply meta_from_str_trim in Hm0 as ->.
  cbn [map_err result_bind]. intros [= <- <-]. rewrite scan_meta, find_last_meta_commit_is_forward, last_meta_forward_lines, Hraws.
  cbn. by destruct (last _).
Qed.

(** C4: the metadata of a session is found without reading the file from its
    start: the scan of tail windows, which starts with 64 KiB and doubles, ends
    and gives the metadata record that the scan of all lines gives, for every file
    and wherever its body starts, with lines that are torn, not JSON or not UTF-8.
    So whenever a session can be read, the reader that only wants its
    metadata succeeds too and gives the same metadata. *)
Theorem meta_scans_agree :
  (forall bytes body_start,
     find_last_meta_commit bytes body_start = last_meta_forward (str_drop body_start bytes))
  /\ (forall file id m lines,
       read_meta_and_message_lines file id = Ok (m, lines) ->
       exists bytes, file = Some bytes
         /\ read_meta_with_line_len file id = Ok (m, String.length (first_line bytes))).
Proof. split; [exact find_last_meta_commit_is_forward|exact readers_agree]. Qed.

End Scan.

(** ** A session file, evaluated *)
Module ScanDemo.
Import SessionToy.

Definition meta (sequence : N) : SessionMeta := MkSessionMeta (C := session_chrono) "s" "demo" 1%Z 2%Z 1 sequence.
Definition user (t : string) : LlmMessage := User (MkUserMessage [Text t] 7 None).

(** A file whose last append is committed but whose first line is old, and a torn line at the end. *)
Definition committed : string :=
  (write_meta_line (meta 0) META_LINE_PADDING
   ++ write_lines (map to_json_line [RecLlm (user "a"); RecAppendBegin; RecLlm (user "b"); RecMeta (meta 1)])
   ++ String "034" "torn")%string.

Definition committed_lines : list string := Eval vm_compute in
  match read_meta_and_message_lines (Some committed) "s" with Ok (_, l) => l | Err _ => [] end.

Lemma meta_scans_agree_witness :
  read_meta_and_message_lines (Some committed) "s" = Ok (meta 1, committed_lines) /\ length committed_lines = 3
  /\ exists bytes, Some committed = Some bytes
       /\ read_meta_with_line_len (Some committed) "s" = Ok (meta 1, String.length (first_line bytes)).
Proof.
  split; [by vm_compute|]. split; [done|]. apply (proj2 meta_scans_agree _ _ _ committed_lines). by vm_compute.
Defined.
End ScanDemo.
