(* ===== verification/JsonlCrash.v ===== *)
(** * What a crash leaves of an append

    An append writes its begin marker, its lines and the metadata record that
    commits them behind the file, and then patches the first line in place.
    This file follows the bytes: which lines are there after any prefix of the
    writes, what the scan makes of them, and that the session is the old or
    the new one. *)
From S2P Require Export JsonlScan SessionStore.
From S2P Require Import SessionData.
From Stdlib Require Import Ascii.
Open Scope string_scope.
Open Scope list_scope.
Open Scope agent_scope.

(** ** Writes to a file *)

Definition bytes_of (ws : list string) : string := fold_right (fun w s => (w ++ s)%string) "" ws.

(** After [n] bytes of writes at a position: they replace as many bytes; writes that
    are done leave the rest of the operations. *)
Lemma crash_writes n b p ws rest :
  p <= String.length b ->
  foldl file_op (b, p) (crash_ops n (map WriteAll ws ++ rest))
  = if (n <? String.length (bytes_of ws))%nat
    then ((str_take p b ++ str_take n (bytes_of ws) ++ str_drop (p + n) b)%string, p + n)
    else foldl file_op ((str_take p b ++ bytes_of ws ++ str_drop (p + String.length (bytes_of ws)) b)%string,
                        p + String.length (bytes_of ws)) (crash_ops (n - String.length (bytes_of ws)) rest).
Proof.
  revert n b p. induction ws as [|w ws IH]; intros n b p Hp.
  - cbn. rewrite Nat.add_0_r, Nat.sub_0_r, string_app_nil_l, str_take_drop. done.
  - cbn [map app crash_ops bytes_of fold_right]. fold (bytes_of ws). rewrite string_app_length.
    destruct (n <? String.length w)%nat eqn:Hn.
    + apply Nat.ltb_lt in Hn. rewrite (proj2 (Nat.ltb_lt _ _)) by lia. cbn.
      rewrite str_take_app, str_take_length. rewrite Nat.min_l by lia.
      replace (n - String.length w) with 0 by lia. by rewrite str_take_0, string_app_nil_r.
    + apply Nat.ltb_ge in Hn. cbn [foldl file_op write_at]. rewrite IH.
      2:{ rewrite !string_app_length, str_take_length. lia. }
      set (b' := (str_take p b ++ w ++ str_drop (p + String.length w) b)%string).
      assert (str_take (p + String.length w) b' = (str_take p b ++ w)%string) as Ht.
      { unfold b'. rewrite <- string_app_assoc, str_take_app. rewrite (str_take_ge (p + String.length w)).
        - rewrite string_app_length, str_take_length. rewrite Nat.min_l by done. by rewrite Nat.sub_diag, str_take_0, string_app_nil_r.
        - rewrite string_app_length, str_take_length. lia. }
      assert (forall k, str_drop (p + String.length w + k) b' = str_drop (p + String.length w + k) b) as Hd.
      { intros k. unfold b'. rewrite <- string_app_assoc, str_drop_app.
        rewrite str_drop_ge by (rewrite string_app_length, str_take_length; lia).
        rewrite string_app_nil_l, string_app_length, str_take_length, Nat.min_l by done.
        rewrite str_drop_drop. f_equal. lia. }
      rewrite Ht, !Hd. destruct (n - String.length w <? String.length (bytes_of ws))%nat eqn:Hn'.
      * apply Nat.ltb_lt in Hn'. rewrite (proj2 (Nat.ltb_lt _ _)) by lia. f_equal; [|lia].
        rewrite str_take_app, (str_take_ge n w) by done. rewrite !string_app_assoc. do 4 f_equal. lia.
      * apply Nat.ltb_ge in Hn'. rewrite (proj2 (Nat.ltb_ge _ _)) by lia.
        rewrite !string_app_assoc, !Nat.add_assoc, Nat.sub_add_distr. done.
Qed.

Lemma crash_all ops n : sum_list_with op_bytes ops <= n -> crash_ops n ops = ops.
Proof.
  revert n. induction ops as [|op ops IH]; intros n Hn; [done|].
  cbn [sum_list_with] in Hn. destruct op as [k| |s]; cbn [crash_ops op_bytes] in *; rewrite ?IH by lia; try done.
  rewrite (proj2 (Nat.ltb_ge _ _)) by lia. done.
Qed.

(** ** Prefixes of written lines *)

Lemma bytes_of_lines lines : bytes_of (map (fun l => (l ++ newline)%string) lines) = write_lines lines.
Proof. induction lines as [|l lines IH]; [done|]. cbn. fold (bytes_of (map (fun l => (l ++ newline)%string) lines)). by rewrite IH, string_app_assoc. Qed.

Lemma take_write_lines n lines :
  exists k torn, k <= length lines
    /\ str_take n (write_lines lines) = (write_lines (take k lines) ++ torn)%string
    /\ (torn = "" \/ exists l j, lines !! k = Some l /\ torn = str_take j l /\ 0 < j <= String.length l
                               /\ String.length (write_lines (take k lines)) + j = n).
Proof.
  revert n. induction lines as [|l lines IH]; intros n.
  - exists 0, "". cbn. split_and!; [lia|by destruct n|by left].
  - rewrite write_lines_cons, str_take_app.
    assert (String.length (l ++ newline) = S (String.length l)) as Hl by (rewrite string_app_length; cbn; lia).
    destruct (decide (n <= String.length l)) as [Hn|Hn].
    + exists 0, (str_take n l). split; [cbn; lia|]. rewrite Hl. replace (n - S (String.length l)) with 0 by lia.
      rewrite str_take_0, string_app_nil_r, str_take_app. replace (n - String.length l) with 0 by lia.
      rewrite str_take_0, string_app_nil_r. split; [by rewrite take_0|].
      destruct n as [|n]; [left; by rewrite str_take_0|right]. exists l, (S n). cbn. split_and!; auto; lia.
    + destruct (IH (n - S (String.length l))) as (k & torn & Hk & Ht & Hc).
      exists (S k), torn. split; [cbn; lia|]. rewrite Hl, Ht. rewrite str_take_ge by lia.
      cbn [take]. rewrite write_lines_cons, !string_app_assoc. split; [done|].
      destruct Hc as [->|(l' & j & Hl' & -> & Hj & He)]; [by left|right]. exists l', j. split_and!; try done; try lia.
      rewrite !string_app_length in *. cbn [String.length newline] in *. lia.
Qed.

Section Crash.
Context `{Sd : SessionSerde}.

(** ** Texts as lines *)

(** A JSON text that [serde_json] made of an object: one line, and no text before its end. *)
Record json_line (t : string) (v : Value) : Prop := {
  jl_lf : no_lf t = true;
  jl_cr : strip_cr t = t;
  jl_utf8 : is_utf8 t = true;
  jl_parse : json_from_str t = Ok v;
  jl_torn : forall n w, n < String.length t -> json_from_str (str_take n t) <> Ok w;
}.

(** A line of an append: a text that is neither a begin marker nor metadata. *)
Definition data_line (t : string) : Prop :=
  exists v, json_line t v /\ marked v "_append" = false /\ marked v "_meta" = false.

(** Metadata that is written and read back, alone and in its record. *)
Definition meta_written (m : SessionMeta) : Prop :=
  exists v w, json_line (meta_to_string m) v /\ meta_from_value v = Ok m
    /\ meta_from_value (meta_to_value m) = Ok m
    /\ json_line (to_json_line (RecMeta m)) w
    /\ w = json_of_map (<["_meta" := json_bool true]> {["data" := meta_to_value m]}).

Definition STATE_KEY : string := String "034" "_state" ++ String "034" "".

(** The begin marker is written and read back. *)
Definition begin_written : Prop :=
  exists v, json_line (to_json_line RecAppendBegin) v
    /\ v = json_of_map (<["_append" := json_bool true]> {["phase" := json_string "begin"]})
    /\ contains (to_json_line RecAppendBegin) STATE_KEY = false.

Lemma json_line_ne t v : json_line t v -> t <> "".
Proof. intros [_ _ _ Hp _] ->. by apply json_from_str_empty in Hp. Qed.

Lemma marked_of_map m k : marked (json_of_map m) k = bool_decide (m !! k ≫= json_as_bool = Some true).
Proof. unfold marked. by rewrite json_get_of_map. Qed.

Lemma begin_parse t v :
  json_line t v -> v = json_of_map (<["_append" := json_bool true]> {["phase" := json_string "begin"]}) ->
  record_parse t = Ok RecAppendBegin.
Proof.
  intros [_ _ _ Hp _] ->. unfold record_parse. rewrite Hp. cbn [result_bind]. unfold record_of_value.
  rewrite !marked_of_map. rewrite lookup_insert_ne, lookup_singleton_ne by done. rewrite lookup_insert_eq. cbn.
  rewrite json_as_bool_bool. done.
Qed.

Lemma meta_parse t m :
  json_from_str t = Ok (json_of_map (<["_meta" := json_bool true]> {["data" := meta_to_value m]})) ->
  meta_from_value (meta_to_value m) = Ok m -> record_parse t = Ok (RecMeta m).
Proof.
  intros Hp Hm. unfold record_parse. rewrite Hp. cbn [result_bind]. unfold record_of_value, data_of.
  rewrite !marked_of_map, json_get_of_map. rewrite !lookup_insert_ne by done.
  rewrite lookup_insert_eq. rewrite (lookup_singleton_ne "data" "_state"), (lookup_singleton_ne "data" "_append") by done.
  rewrite lookup_singleton_eq. cbn. rewrite json_as_bool_bool. cbn. by rewrite Hm.
Qed.

(** ** The scan over the lines of an append *)

Definition push_line (s : Scan) (t : string) : Scan :=
  match sc_pending s with
  | Some lines => MkScan (sc_meta s) (sc_lines s) (Some (lines ++ [t]))
  | None => MkScan (sc_meta s) (sc_lines s ++ [t]) None
  end.

Lemma scan_data id s t : data_line t -> scan_line id s t = push_line s t.
Proof.
  intros (v & [_ _ Hu Hp _] & Ha & Hm). unfold scan_line, push_line. rewrite Hu.
  unfold record_parse. rewrite Hp. cbn [result_bind]. unfold record_of_value. rewrite Ha, Hm.
  destruct (marked v "_state"); [done|]. destruct (marked v "_custom"); [done|]. by destruct (llm_from_value v).
Qed.

Lemma scan_data_pending id s lines ts :
  sc_pending s = Some lines -> Forall data_line ts ->
  foldl (scan_line id) s ts = MkScan (sc_meta s) (sc_lines s) (Some (lines ++ ts)).
Proof.
  intros Hs Hts. revert s lines Hs. induction Hts as [|t ts Ht _ IH]; intros s lines Hs.
  - rewrite app_nil_r. destruct s; cbn in *; by subst.
  - cbn [foldl]. rewrite scan_data by done. unfold push_line. rewrite Hs.
    rewrite (IH _ (lines ++ [t])) by done. cbn. by rewrite <- app_assoc.
Qed.

(** A torn line is skipped or kept as a line that is no JSON. *)
Lemma scan_torn id s t :
  (forall w, json_from_str t <> Ok w) ->
  scan_line id s t = s \/ scan_line id s t = push_line s t.
Proof.
  intros Ht. unfold scan_line. destruct (is_utf8 t); [|by left]. right. unfold record_parse, push_line.
  destruct (json_from_str t) as [w|e] eqn:Hw; [by destruct (Ht w)|]. done.
Qed.

Lemma scan_begin id s t : is_utf8 t = true -> record_parse t = Ok RecAppendBegin ->
  scan_line id s t = MkScan (sc_meta s) (sc_lines s) (Some []).
Proof. intros Hu Hp. unfold scan_line. by rewrite Hu, Hp. Qed.

Lemma scan_commit id s t m : is_utf8 t = true -> record_parse t = Ok (RecMeta m) ->
  scan_line id s t = MkScan (canonical_meta_for_id m id) (sc_lines s ++ default [] (sc_pending s)) None.
Proof. intros Hu Hp. unfold scan_line. by rewrite Hu, Hp. Qed.

(** The lines that an append writes behind the file. *)
Definition append_lines (m : SessionMeta) (ts : list string) : list string :=
  to_json_line RecAppendBegin :: ts ++ [to_json_line (RecMeta m)].

(** A line that no reader sees. *)
Definition invisible (t : string) : Prop := (forall w, json_from_str t <> Ok w) /\ contains t STATE_KEY = false.

(** The outcome of a scan: before the commit, the session as it was but for a torn line. *)
Definition uncommitted (s s' : Scan) : Prop :=
  sc_meta s' = sc_meta s /\ exists junk, sc_lines s' = sc_lines s ++ junk /\ Forall invisible junk.

Lemma contains_take n t p : contains t p = false -> contains (str_take n t) p = false.
Proof.
  intros H. destruct (contains (str_take n t) p) eqn:Hc; [|done].
  apply (contains_app_l _ (str_drop n t)) in Hc. rewrite str_take_drop in Hc. congruence.
Qed.

Lemma nonempty_data lines : Forall data_line lines -> nonempty_lines lines = lines.
Proof.
  unfold nonempty_lines. induction 1 as [|t lines (v & Hv & _) _ IH]; [done|]. cbn. rewrite IH.
  apply json_line_ne in Hv. by destruct t.
Qed.

Context (id : string) (m : SessionMeta) (ts : list string).
Context (Hbegin : begin_written) (Hmeta : meta_written m) (Hid : meta_id m = id) (Hts : Forall data_line ts).

Lemma canonical_same : canonical_meta_for_id m id = m.
Proof. subst id. by destruct m. Qed.

Lemma append_lines_no_lf : Forall (fun l => no_lf l = true) (append_lines m ts).
Proof.
  destruct Hbegin as (v & Hv & _), Hmeta as (x & w & _ & _ & _ & Hw & _). constructor; [apply Hv|].
  apply Forall_app. split; [|constructor; [apply Hw|done]].
  eapply Forall_impl; [exact Hts|]. by intros t (u & Hu & _); apply Hu.
Qed.

Lemma append_lines_cr : map strip_cr (append_lines m ts) = append_lines m ts.
Proof.
  destruct Hbegin as (v & Hv & _), Hmeta as (x & w & _ & _ & _ & Hw & _). unfold append_lines.
  cbn [map]. rewrite map_app. cbn [map]. rewrite (jl_cr _ _ Hv), (jl_cr _ _ Hw). do 2 f_equal.
  rewrite <- (map_id ts) at 2. apply map_ext_Forall. eapply Forall_impl; [exact Hts|]. by intros t (u & Hu & _); apply Hu.
Qed.

(** All lines: the session has the new metadata and the new lines. *)
Lemma scan_append_all s :
  foldl (scan_line id) s (append_lines m ts) = MkScan m (sc_lines s ++ ts) None.
Proof.
  destruct Hbegin as (v & Hv & Hv' & _), Hmeta as (x & w & _ & _ & Hm & Hw & Hw').
  unfold append_lines. cbn [foldl]. rewrite foldl_app.
  rewrite scan_begin by (apply Hv || by eapply begin_parse).
  rewrite (scan_data_pending id _ [] ts) by done. cbn [foldl sc_meta sc_lines app].
  rewrite (scan_commit id _ _ m); [by cbn; rewrite canonical_same|apply Hw|].
  apply meta_parse; [|done]. subst w. apply Hw.
Qed.

(** Some of the lines, but not the commit: nothing happened. *)
Lemma scan_append_some s k :
  k <= S (length ts) ->
  foldl (scan_line id) s (take k (append_lines m ts))
  = match k with
    | 0 => s
    | S k => MkScan (sc_meta s) (sc_lines s) (Some (take k ts))
    end.
Proof.
  destruct Hbegin as (v & Hv & Hv' & _). intros Hk. destruct k as [|k]; [done|].
  unfold append_lines. cbn [take foldl]. rewrite scan_begin by (apply Hv || by eapply begin_parse).
  rewrite take_app_le by lia. by rewrite (scan_data_pending id _ []) by (done || by apply Forall_take).
Qed.

(** And a piece of the line after them. *)
Lemma scan_append_torn s k l j :
  append_lines m ts !! k = Some l -> 0 < j <= String.length l -> (k = S (length ts) -> j < String.length l) ->
  uncommitted s (foldl (scan_line id) s (take k (append_lines m ts) ++ [str_take j l])).
Proof.
  intros Hl Hj Hlast.
  assert (k <= S (length ts)) as Hk.
  { apply lookup_lt_Some in Hl. unfold append_lines in Hl. cbn in Hl. rewrite length_app in Hl. cbn in Hl. lia. }
  rewrite foldl_app, scan_append_some by done. cbn [foldl]. destruct k as [|k].
  - destruct Hbegin as (v & Hv & Hv' & Hc). assert (l = to_json_line RecAppendBegin) as -> by (by injection Hl).
    destruct (decide (j = String.length (to_json_line RecAppendBegin))) as [->|Hne].
    + rewrite str_take_ge by done. rewrite scan_begin by (apply Hv || by eapply begin_parse).
      split; [done|]. exists []. by rewrite app_nil_r.
    + assert (forall w, json_from_str (str_take j (to_json_line RecAppendBegin)) <> Ok w) as Htorn
        by (intros w; eapply jl_torn; [exact Hv|lia]).
      destruct (scan_torn id s _ Htorn) as [H|H]; rewrite H.
      * split; [done|]. exists []. by rewrite app_nil_r.
      * unfold push_line. destruct (sc_pending s); split; try done; [exists []; by rewrite app_nil_r|].
        exists [str_take j (to_json_line RecAppendBegin)]. split; [done|]. constructor; [|done]. split.
        -- done.
        -- by apply contains_take.
  - change ((ts ++ [to_json_line (RecMeta m)]) !! k = Some l) in Hl. set (s1 := MkScan _ _ _).
    assert (scan_line id s1 (str_take j l) = s1 \/ scan_line id s1 (str_take j l) = push_line s1 (str_take j l)) as H.
    { destruct (decide (j = String.length l)) as [->|Hne].
      - rewrite str_take_ge by done. right. apply scan_data. 
        rewrite lookup_app_l in Hl by (destruct (decide (k = length ts)); [|lia]; subst k; specialize (Hlast eq_refl); lia).
        by eapply Forall_lookup_1.
      - apply scan_torn. intros w. apply lookup_app_Some in Hl as [Hl|[_ Hl]].
        + pose proof (Forall_lookup_1 _ _ _ _ Hts Hl) as (u & Hu & _). eapply jl_torn; [exact Hu|lia].
        + destruct Hmeta as (x & w' & _ & _ & _ & Hw & _). apply list_lookup_singleton_Some in Hl as [_ <-].
          eapply jl_torn; [exact Hw|lia]. }
    destruct H as [-> | ->]; split; try done; exists []; cbn; by rewrite app_nil_r.
Qed.

(** ** The bytes of a file during an append *)

Lemma read_lines bytes l raws :
  str_lines bytes = l :: raws ->
  read_meta_and_message_lines (Some bytes) id
  = if is_utf8 l then
      meta <-? map_err invalid_meta (meta_from_str l) ;;
      let s := foldl (scan_line id) (MkScan (canonical_meta_for_id meta id) [] None) raws in
      Ok (sc_meta s, sc_lines s)
    else Err (invalid_meta "invalid utf-8 sequence").
Proof.
  intros Hl. unfold read_meta_and_message_lines, open_session_file. destruct bytes; [done|].
  cbn [result_bind]. by rewrite Hl.
Qed.

(** The scan of a file goes on with what is written behind it. *)
Lemma read_extended f m0 lines :
  terminated f -> read_meta_and_message_lines (Some f) id = Ok (m0, lines) ->
  exists s, sc_meta s = m0 /\ sc_lines s = lines
    /\ forall x, read_meta_and_message_lines (Some (f ++ x)%string) id
                = let s' := foldl (scan_line id) s (str_lines x) in Ok (sc_meta s', sc_lines s').
Proof.
  intros Hf Hr. destruct (str_lines f) as [|l raws] eqn:Hl.
  { unfold read_meta_and_message_lines in Hr. destruct f; [done|]. cbn [open_session_file result_bind] in Hr. by rewrite Hl in Hr. }
  rewrite (read_lines f l raws Hl) in Hr. destruct (is_utf8 l) eqn:Hu; [|done].
  destruct (meta_from_str l) as [meta|e] eqn:Hm; [|done]. cbn in Hr.
  exists (foldl (scan_line id) (MkScan (canonical_meta_for_id meta id) [] None) raws).
  split_and!; [congruence..|]. intros x.
  rewrite (read_lines _ l (raws ++ str_lines x)) by (by rewrite str_lines_app, Hl).
  rewrite Hu, Hm. cbn. by rewrite foldl_app.
Qed.

(** Metadata read before the scan does not matter for the lines it finds. *)
Lemma scan_lines_meta m1 m2 lines pending raws :
  let s1 := foldl (scan_line id) (MkScan m1 lines pending) raws in
  let s2 := foldl (scan_line id) (MkScan m2 lines pending) raws in
  sc_lines s1 = sc_lines s2 /\ sc_pending s1 = sc_pending s2.
Proof.
  revert m1 m2 lines pending. induction raws as [|raw raws IH]; intros m1 m2 lines pending; [done|]. cbn [foldl].
  unfold scan_line at 2 4 6 8. cbn [sc_meta sc_lines sc_pending].
  destruct (is_utf8 raw); [|apply IH]. destruct (record_parse raw) as [[| | | |]|]; try destruct pending; apply IH.
Qed.

Lemma first_line_terminated f : terminated f -> f <> "" ->
  exists l, no_lf l = true /\ first_line f = (l ++ newline)%string.
Proof.
  clear. unfold terminated. induction f as [|a f IH]; [done|]. intros Hf _. cbn [first_line].
  destruct (Ascii.eqb a LF) eqn:Ha.
  - apply Ascii.eqb_eq in Ha as ->. by exists "".
  - cbn in Hf. destruct (split_newlines f) as [ls r] eqn:Hs. rewrite Ha in Hf.
    destruct ls as [|x ls]; [done|]. cbn in Hf. subst r.
    destruct IH as (l & Hl & He); [done|by intros ->|]. exists (String a l). rewrite He. split; [|done].
    cbn. by rewrite Ha.
Qed.

(** The writes of an append. *)
Lemma append_ops_shape len ops :
  append_records_in_place m len ts = Some ops ->
  String.length (meta_to_string m) + 1 <= len
  /\ ops = SeekEnd :: map WriteAll (map (fun l => (l ++ newline)%string) (append_lines m ts))
           ++ SeekStart 0 :: map WriteAll [meta_to_string m; str_repeat SPACE (len - 1 - String.length (meta_to_string m)); newline].
Proof.
  unfold append_records_in_place, write_meta_line_in_place.
  destruct (len <? String.length (meta_to_string m) + 1)%nat eqn:Hlen; [done|]. apply Nat.ltb_ge in Hlen.
  intros [= <-]. split; [done|]. f_equal. unfold append_lines. cbn [map app]. f_equal.
  rewrite !map_app, map_map. cbn [map]. rewrite <- app_assoc. cbn [app]. f_equal.
  by rewrite nonempty_data.
Qed.

Definition tail_bytes : string := write_lines (append_lines m ts).
Definition meta_slot (len : nat) : string :=
  (meta_to_string m ++ str_repeat SPACE (len - 1 - String.length (meta_to_string m)))%string.

Lemma meta_slot_length len : String.length (meta_to_string m) + 1 <= len -> String.length (meta_slot len) = len - 1.
Proof. intros H. unfold meta_slot. rewrite string_app_length, str_repeat_length. lia. Qed.

(** The file after [n] bytes of the append: a prefix of the tail behind it, or the
    whole tail and a prefix of the new first line over the old one. *)
Lemma crash_append_bytes f l rest ops n :
  f = (l ++ newline ++ rest)%string -> no_lf l = true ->
  append_records_in_place m (String.length (first_line f)) ts = Some ops ->
  first_line f = (l ++ newline)%string ->
  crash_after n f ops
  = if (n <? String.length tail_bytes)%nat then (f ++ str_take n tail_bytes)%string
    else let j := n - String.length tail_bytes in
         let slot := meta_slot (String.length (first_line f)) in
         ((str_take j slot ++ str_drop j l) ++ newline ++ rest ++ tail_bytes)%string.
Proof.
  intros Hf Hl Hops Hfl. apply append_ops_shape in Hops as [Hlen ->].
  unfold crash_after, file_ops. cbn [crash_ops foldl file_op fst].
  rewrite crash_writes by done. rewrite bytes_of_lines. fold tail_bytes.
  destruct (n <? String.length tail_bytes)%nat eqn:Hn.
  - cbn [fst]. rewrite str_take_ge by done. rewrite str_drop_ge by lia. by rewrite string_app_nil_r.
  - cbn [crash_ops foldl file_op fst]. rewrite str_take_ge by done. rewrite str_drop_ge by lia. rewrite string_app_nil_r.
    set (j := n - String.length tail_bytes). cbn zeta.
    rewrite <- (app_nil_r (map WriteAll _)), crash_writes by lia.
    set (slot := meta_slot _).
    assert (bytes_of [meta_to_string m; str_repeat SPACE (String.length (first_line f) - 1 - String.length (meta_to_string m)); newline]
            = (slot ++ newline)%string) as ->.
    { cbn. unfold slot, meta_slot. by rewrite string_app_assoc. }
    assert (String.length slot = String.length l) as Hslot.
    { unfold slot. rewrite meta_slot_length by done. rewrite Hfl, string_app_length. cbn. lia. }
    rewrite string_app_length, Hslot, str_take_0, string_app_nil_l. cbn [String.length newline plus].
    rewrite Hf. destruct (j <? String.length l + 1)%nat eqn:Hj.
    + apply Nat.ltb_lt in Hj. cbn [fst]. rewrite str_take_app, Hslot. replace (j - String.length l) with 0 by lia.
      rewrite str_take_0, string_app_nil_r. rewrite string_app_assoc. rewrite (str_drop_app j l).
      replace (j - String.length l) with 0 by lia. by rewrite str_drop_0, !string_app_assoc.
    + apply Nat.ltb_ge in Hj. destruct (j - (String.length l + 1)); cbn [crash_ops foldl fst];
        rewrite (str_take_ge j slot) by lia; rewrite (str_drop_ge j l) by lia; rewrite string_app_nil_r;
        rewrite string_app_assoc, <- (string_app_assoc l newline), <- Hfl;
        rewrite string_app_assoc, Hfl, str_drop_app, string_app_length; cbn [String.length newline];
        rewrite (str_drop_ge (String.length l + 1)) by (rewrite string_app_length; cbn; lia);
        by rewrite Nat.sub_diag, str_drop_0.
Qed.

(** ** The session after a crash *)

Lemma tail_lines : terminated tail_bytes /\ str_lines tail_bytes = append_lines m ts.
Proof.
  unfold tail_bytes. split; [apply write_lines_terminated, append_lines_no_lf|].
  by rewrite write_lines_read, append_lines_cr by apply append_lines_no_lf.
Qed.

(** The commit record lacks at most its line feed. *)
Lemma take_tail_commit : exists v, str_take (String.length tail_bytes - 1) tail_bytes
  = (write_lines (to_json_line RecAppendBegin :: ts) ++ to_json_line (RecMeta m))%string
  /\ json_line (to_json_line (RecMeta m)) v /\ 1 < String.length tail_bytes.
Proof.
  destruct Hmeta as (x & w & _ & _ & _ & Hw & _). exists w.
  assert (tail_bytes = ((write_lines (to_json_line RecAppendBegin :: ts) ++ to_json_line (RecMeta m)) ++ newline)%string) as ->.
  { unfold tail_bytes, append_lines. rewrite app_comm_cons, write_lines_app. rewrite string_app_assoc. by f_equal. }
  split; [|split; [done|]].
  - rewrite str_take_app, (string_app_length _ newline). cbn [String.length newline].
    rewrite str_take_ge by lia. rewrite Nat.add_sub, Nat.sub_diag, str_take_0. apply string_app_nil_r.
  - rewrite !string_app_length. cbn [String.length newline]. pose proof (json_line_ne _ _ Hw) as Hne.
    destruct (to_json_line (RecMeta m)); [done|]. cbn. lia.
Qed.

Lemma scan_prefix s n :
  S n < String.length tail_bytes ->
  uncommitted s (foldl (scan_line id) s (str_lines (str_take n tail_bytes))).
Proof.
  intros Hn. destruct take_tail_commit as (v & Hcommit & Hv & Hlen).
  destruct (take_write_lines n (append_lines m ts)) as (k & torn & Hk & Ht & Hc). fold tail_bytes in Ht.
  pose proof append_lines_no_lf as Hlf.
  assert (length (append_lines m ts) = S (S (length ts))) as Hll by (unfold append_lines; cbn; rewrite length_app; cbn; lia).
  assert (str_lines (write_lines (take k (append_lines m ts))) = take k (append_lines m ts)) as Hlines.
  { rewrite write_lines_read by by apply Forall_take. by rewrite <- firstn_map, append_lines_cr. }
  assert (terminated (write_lines (take k (append_lines m ts)))) as Hterm by by apply write_lines_terminated, Forall_take.
  rewrite Ht, str_lines_app, Hlines by done.
  assert (String.length tail_bytes - 1 = String.length (write_lines (to_json_line RecAppendBegin :: ts)) + String.length (to_json_line (RecMeta m))) as Hsplit.
  { apply (f_equal String.length) in Hcommit. rewrite str_take_length, string_app_length in Hcommit. lia. }
  destruct Hc as [->|(l & j & Hl & -> & Hj & He)].
  - rewrite str_lines_nil, app_nil_r. rewrite scan_append_some.
    + destruct k; split; try done; exists []; by rewrite app_nil_r.
    + destruct (decide (k = S (S (length ts)))) as [->|]; [|lia]. exfalso.
      rewrite string_app_nil_r, firstn_all2 in Ht by lia. fold tail_bytes in Ht.
      apply (f_equal String.length) in Ht. rewrite str_take_length in Ht. lia.
  - rewrite str_lines_torn.
    + apply scan_append_torn; [done|done|]. intros ->.
      assert (l = to_json_line (RecMeta m)) as ->.
      { change ((ts ++ [to_json_line (RecMeta m)]) !! length ts = Some l) in Hl. rewrite lookup_app_r, Nat.sub_diag in Hl by lia. by injection Hl. }
      assert (take (S (length ts)) (append_lines m ts) = to_json_line RecAppendBegin :: ts) as Htake.
      { unfold append_lines. cbn [take]. by rewrite take_app_length. }
      rewrite Htake in He. lia.
    + apply no_lf_take. exact (Forall_lookup_1 _ _ _ _ Hlf Hl).
    + intros H. apply (f_equal String.length) in H. rewrite str_take_length in H. cbn in H. lia.
Qed.

Lemma scan_commit_prefix s n :
  String.length tail_bytes <= S n ->
  foldl (scan_line id) s (str_lines (str_take n tail_bytes)) = MkScan m (sc_lines s ++ ts) None.
Proof.
  intros Hn. destruct tail_lines as [_ Hall].
  destruct (decide (String.length tail_bytes <= n)) as [Hge|Hlt].
  - rewrite str_take_ge by done. by rewrite Hall, scan_append_all.
  - replace n with (String.length tail_bytes - 1) by lia. destruct take_tail_commit as (v & -> & Hv & _).
    assert (str_lines (write_lines (to_json_line RecAppendBegin :: ts) ++ to_json_line (RecMeta m)) = append_lines m ts) as ->;
      [|by rewrite scan_append_all].
    pose proof append_lines_no_lf as Hlf. pose proof append_lines_cr as Hcr.
    unfold append_lines in Hlf, Hcr |- *. rewrite app_comm_cons in Hlf, Hcr |- *.
    apply Forall_app in Hlf as [Hlf1 Hlf2]. rewrite map_app in Hcr.
    rewrite str_lines_app by by apply write_lines_terminated. rewrite write_lines_read by done.
    rewrite str_lines_torn; [|by inversion Hlf2|by eapply json_line_ne].
    apply app_inj_2 in Hcr as [-> _]; [done|]. done.
Qed.

(** What a file holds for its readers. *)
Definition same_session (f g : string) : Prop :=
  forall fuel migrators registry,
    load_full_file fuel migrators id registry (Some f) = load_full_file fuel migrators id registry (Some g).

Lemma same_session_read f g : 
  read_meta_and_message_lines (Some f) id = read_meta_and_message_lines (Some g) id -> same_session f g.
Proof. intros H fuel migrators registry. unfold load_full_file. by rewrite H. Qed.

Lemma extract_state_app lines junk :
  Forall invisible junk -> extract_state_from_lines (lines ++ junk) id = extract_state_from_lines lines id.
Proof.
  intros Hj. induction lines as [|t lines IH]; cbn.
  - induction Hj as [|t junk [Ht Hs] _ IH]; [done|]. cbn. unfold parse_state_line. fold STATE_KEY. rewrite Hs.
    destruct (json_from_str t) as [v|e] eqn:Hv; [by destruct (Ht v)|]. done.
  - destruct (parse_state_line t id) as [[v|]|e]; cbn; try done.
Qed.

Lemma classify_lines_app lines junk : Forall invisible junk -> classify_lines (lines ++ junk) = classify_lines lines.
Proof.
  intros Hj. unfold classify_lines. rewrite filtermap_app.
  assert (filtermap (fun line => if is_blank line then None
            else match classify_line line with Ok item => Some item | Err _ => None end) junk = []) as ->; [|by rewrite app_nil_r].
  induction Hj as [|t junk [Ht _] _ IH]; [done|]. cbn. rewrite IH. unfold classify_line.
  destruct (json_from_str t) as [v|e] eqn:Hv; [by destruct (Ht v)|]. by destruct (is_blank t).
Qed.

Lemma uncommitted_session f g m0 lines junk :
  read_meta_and_message_lines (Some f) id = Ok (m0, lines) ->
  read_meta_and_message_lines (Some g) id = Ok (m0, lines ++ junk) ->
  Forall invisible junk -> same_session f g.
Proof.
  intros Hf Hg Hj fuel migrators registry. unfold load_full_file. rewrite Hf, Hg. cbn [result_bind snd].
  rewrite extract_state_app by done. destruct (extract_state_from_lines lines id) as [st|e]; [|done]. cbn.
  unfold classify_and_migrate. by rewrite classify_lines_app.
Qed.

(** ** The first line while it is overwritten *)

Lemma strip_cr_same x v :
  (is_utf8 (strip_cr x) = is_utf8 x) /\ (meta_from_str x = Ok v -> meta_from_str (strip_cr x) = Ok v).
Proof.
  destruct (strip_cr_cases x) as [H|H]; [by rewrite H|]. split.
  - rewrite H at 2. by rewrite is_utf8_snoc.
  - rewrite H at 1. unfold meta_from_str. rewrite !result_bind_Ok. intros (w & Hw & Hv). exists w. by rewrite from_str_cr in Hw.
Qed.

Lemma no_lf_newline_lines x rest : no_lf x = true -> str_lines (x ++ newline ++ rest) = strip_cr x :: str_lines rest.
Proof.
  intros Hx. rewrite <- string_app_assoc, str_lines_app by by apply terminated_line. by rewrite str_lines_line.
Qed.

(** Whatever the first line has become, the lines of the file and of the append are read,
    unless it is no metadata. *)
Lemma read_patched l rest m0 lines x :
  no_lf l = true -> terminated rest -> read_meta_and_message_lines (Some (l ++ newline ++ rest)%string) id = Ok (m0, lines) ->
  no_lf x = true ->
  read_meta_and_message_lines (Some (x ++ newline ++ rest ++ tail_bytes)%string) id
  = if is_utf8 (strip_cr x) then
      _ <-? map_err invalid_meta (meta_from_str (strip_cr x)) ;; Ok (m, lines ++ ts)
    else Err (invalid_meta "invalid utf-8 sequence").
Proof.
  intros Hl Hrest Hr Hx. rewrite (read_lines _ _ _ (no_lf_newline_lines l rest Hl)) in Hr.
  rewrite (read_lines _ _ _ (no_lf_newline_lines x _ Hx)). destruct (is_utf8 (strip_cr x)); [|done].
  destruct (meta_from_str (strip_cr x)) as [mx|e]; [|done]. cbn [map_err result_bind].
  rewrite str_lines_app, (proj2 tail_lines), foldl_app, scan_append_all by done. cbn.
  destruct (is_utf8 (strip_cr l)); [|done]. destruct (meta_from_str (strip_cr l)) as [ml|e]; [|done].
  cbn in Hr. injection Hr as _ <-.
  by rewrite (proj1 (scan_lines_meta (canonical_meta_for_id mx id) (canonical_meta_for_id ml id) [] None (str_lines rest))).
Qed.

Lemma from_str_spaces s n v : json_from_str (s ++ str_repeat SPACE n) = Ok v <-> json_from_str s = Ok v.
Proof.
  induction n as [|n IH]; [by rewrite string_app_nil_r|].
  assert (str_repeat SPACE (S n) = (str_repeat SPACE n ++ String SPACE "")%string) as ->.
  { clear. induction n as [|n IH]; [done|]. cbn [str_repeat] in *. rewrite string_app_cons. by rewrite <- IH. }
  by rewrite <- string_app_assoc, from_str_space.
Qed.

Lemma is_utf8_spaces s n : is_utf8 (s ++ str_repeat SPACE n) = is_utf8 s.
Proof.
  revert s. induction n as [|n IH]; intros s; [by rewrite string_app_nil_r|]. cbn [str_repeat].
  replace (s ++ String SPACE (str_repeat SPACE n))%string with ((s ++ String SPACE "") ++ str_repeat SPACE n)%string
    by by rewrite string_app_assoc.
  by rewrite IH, is_utf8_snoc.
Qed.

(** The patched first line is the new metadata. *)
Lemma slot_meta len : is_utf8 (meta_slot len) = true /\ meta_from_str (meta_slot len) = Ok m /\ no_lf (meta_slot len) = true.
Proof.
  destruct Hmeta as (v & w & Hv & Hm & _). unfold meta_slot, meta_from_str. split_and!.
  - rewrite is_utf8_spaces. apply Hv.
  - rewrite (proj2 (from_str_spaces _ _ v)); [done|apply Hv].
  - rewrite no_lf_app, no_lf_repeat by done. by rewrite (jl_lf _ _ Hv).
Qed.

(** ** The append *)

Lemma append_crash f m0 lines ops :
  terminated f -> read_meta_and_message_lines (Some f) id = Ok (m0, lines) ->
  append_records_in_place m (String.length (first_line f)) ts = Some ops ->
  (terminated (file_ops f ops) /\ read_meta_and_message_lines (Some (file_ops f ops)) id = Ok (m, lines ++ ts))
  /\ forall n, (S n < String.length tail_bytes -> same_session f (crash_after n f ops))
    /\ (String.length tail_bytes <= S n ->
         same_session (file_ops f ops) (crash_after n f ops)
         \/ (String.length tail_bytes < n < String.length tail_bytes + String.length (first_line f)
            /\ exists e, read_meta_and_message_lines (Some (crash_after n f ops)) id = Err e /\ io_kind e = InvalidData)).
Proof.
  intros Hf Hr Hops.
  assert (f <> "") as Hne by (intros ->; discriminate).
  destruct (first_line_terminated f Hf Hne) as (l & Hl & Hfl).
  set (rest := str_drop (String.length (first_line f)) f).
  assert (f = (l ++ newline ++ rest)%string) as Hf0.
  { rewrite (first_line_rest f) at 1. fold rest. by rewrite Hfl, string_app_assoc. }
  assert (terminated rest) as Hrest.
  { unfold terminated in *. rewrite Hf0, <- string_app_assoc, split_terminated_app in Hf by by apply terminated_line. exact Hf. }
  set (slot := meta_slot (String.length (first_line f))).
  destruct (slot_meta (String.length (first_line f))) as (Hsu & Hsm & Hsl). fold slot in Hsu, Hsm, Hsl.
  assert (String.length slot = String.length l) as Hslot.
  { apply append_ops_shape in Hops as [Hlen _]. unfold slot. rewrite meta_slot_length by done.
    rewrite Hfl, string_app_length. cbn. lia. }
  pose proof (fun n => crash_append_bytes f l rest ops n Hf0 Hl Hops Hfl) as Hcrash. fold slot in Hcrash. cbn zeta in Hcrash.
  assert (read_meta_and_message_lines (Some (l ++ newline ++ rest)%string) id = Ok (m0, lines)) as Hr0 by (by rewrite <- Hf0).
  assert (read_meta_and_message_lines (Some (slot ++ newline ++ rest ++ tail_bytes)%string) id = Ok (m, lines ++ ts)) as Hnew.
  { rewrite (read_patched l rest m0 lines slot Hl Hrest Hr0 Hsl).
    destruct (strip_cr_same slot m) as [-> Hm]. rewrite Hsu, Hm by done. done. }
  assert (file_ops f ops = (slot ++ newline ++ rest ++ tail_bytes)%string) as Hfin.
  { specialize (Hcrash (sum_list_with op_bytes ops + String.length tail_bytes + String.length l)).
    unfold crash_after in Hcrash. rewrite crash_all in Hcrash by lia.
    rewrite Hcrash, (proj2 (Nat.ltb_ge _ _)) by lia.
    rewrite str_take_ge by lia. rewrite str_drop_ge by lia. by rewrite string_app_nil_r. }
  rewrite Hfin. split.
  { split; [|done]. rewrite <- string_app_assoc. apply terminated_app; [by apply terminated_line|].
    apply terminated_app; [done|]. apply tail_lines. }
  intros n. rewrite Hcrash.
  destruct (read_extended f m0 lines Hf Hr) as (s & <- & <- & Hext). split; intros Hn.
  - rewrite (proj2 (Nat.ltb_lt _ _)) by lia.
    destruct (scan_prefix s n Hn) as [Hm (junk & Hj & Hinv)].
    eapply uncommitted_session; [exact Hr| |exact Hinv]. rewrite Hext. cbn zeta. by rewrite Hm, Hj.
  - destruct (n <? String.length tail_bytes)%nat eqn:Hlt.
    + left. apply same_session_read. rewrite Hnew, Hext, scan_commit_prefix by done. done.
    + apply Nat.ltb_ge in Hlt. set (j := n - String.length tail_bytes).
      set (x := (str_take j slot ++ str_drop j l)%string).
      assert (no_lf x = true) as Hx.
      { unfold x. rewrite no_lf_app, no_lf_take by done. pose proof (str_take_drop j l) as He. rewrite <- He, no_lf_app in Hl.
        by apply andb_true_iff in Hl as [_ ->]. }
      assert (x = l -> same_session (slot ++ newline ++ rest ++ tail_bytes) (x ++ newline ++ rest ++ tail_bytes)) as Hold.
      { intros ->. apply same_session_read. rewrite Hnew, <- !string_app_assoc, (string_app_assoc l newline rest), <- Hf0.
        rewrite Hext, (proj2 tail_lines), scan_append_all. done. }
      destruct (decide (j = 0)) as [H0|H0].
      { left. apply Hold. unfold x. by rewrite H0, str_take_0, str_drop_0. }
      destruct (decide (j < String.length (first_line f))) as [Hjl|Hjl].
      2:{ left. unfold x. rewrite Hfl, string_app_length in Hjl. cbn in Hjl.
          rewrite str_take_ge, str_drop_ge, string_app_nil_r by lia. done. }
      pose proof (read_patched l rest _ _ x Hl Hrest Hr0 Hx) as Hread.
      destruct (is_utf8 (strip_cr x)); [|right; split; [lia|eauto]].
      destruct (meta_from_str (strip_cr x)) as [mx|e]; cbn [map_err result_bind] in Hread; [|right; split; [lia|eauto]].
      left. apply same_session_read. by rewrite Hnew, Hread.
Qed.

End Crash.

(** ** The theorem, and what happens outside its hypotheses *)
Section Atomic.
Context `{Sd : SessionSerde}.

(** [json_line], decided. *)
Definition json_line_ok (t : string) : bool :=
  no_lf t && String.eqb (strip_cr t) t && is_utf8 t
  && forallb (fun n => match json_from_str (str_take n t) with Ok _ => false | Err _ => true end) (seq 0 (String.length t)).

Lemma json_line_intro t v : json_from_str t = Ok v -> json_line_ok t = true -> json_line t v.
Proof.
  unfold json_line_ok. rewrite !andb_true_iff, String.eqb_eq, forallb_forall. intros Hp [[[H1 H2] H3] H4].
  split; [done..|]. intros n w Hn Hw. specialize (H4 n). rewrite Hw in H4.
  assert (false = true) by (apply H4, in_seq; lia). done.
Qed.

(** C2: an append takes effect at one byte.  When the file of a session is complete
    (its last line ends with a line feed) and can be read, and the append's
    writes go in place, then a process that dies after any number of bytes of
    them leaves a file whose messages, metadata and state are exactly those
    before the append when the commit record is not there (its line feed
    aside), and exactly those after the whole append when it is: no message
    of the append without the others, and none of the old ones lost.
    One case is left: when the process dies while the first line is being
    overwritten, that line may be no metadata, and reading the file fails. *)
Theorem append_is_atomic f id m0 lines records now ops :
  terminated f -> read_meta_and_message_lines (Some f) id = Ok (m0, lines) ->
  begin_written -> meta_written (write_meta_of m0 id now) -> Forall data_line (map to_json_line records) ->
  append_records (Some f) id records now = Ok (InPlace ops) ->
  let m := write_meta_of m0 id now in
  let tail := String.length (tail_bytes m (map to_json_line records)) in
  read_meta_and_message_lines (Some (file_ops f ops)) id = Ok (m, lines ++ map to_json_line records)
  /\ forall n, (S n < tail -> same_session id f (crash_after n f ops))
    /\ (tail <= S n ->
         same_session id (file_ops f ops) (crash_after n f ops)
         \/ (tail < n < tail + String.length (first_line f)
            /\ exists e, read_meta_and_message_lines (Some (crash_after n f ops)) id = Err e /\ io_kind e = InvalidData)).
Proof.
  intros Hf Hr Hb Hm Hd Ha. cbn zeta. destruct (readers_agree _ _ _ _ Hr) as (b & [= <-] & Hlen).
  unfold append_records in Ha. rewrite Hlen in Ha. cbn [result_bind] in Ha. unfold append_or_rewrite in Ha.
  destruct (append_records_in_place _ _ _) as [ops'|] eqn:Hops.
  - injection Ha as ->. destruct (append_crash id _ _ Hb Hm eq_refl Hd f m0 lines ops Hf Hr Hops) as [[_ H1] H2]. by split.
  - rewrite Hr in Ha. discriminate.
Qed.

End Atomic.

Module CrashDemo.
Import SessionToy ScanDemo.

Definition saved : string := (write_meta_line (meta 9) META_LINE_PADDING ++ write_lines (map to_json_line [RecLlm (user "a")]))%string.

Definition in_place (r : result Change IoError) : list FileOp :=
  match r with Ok (InPlace ops) => ops | _ => [] end.

Definition records : list SessionRecord := [RecLlm (user "b"); RecLlm (user "c")].
Definition ops : list FileOp := Eval vm_compute in in_place (append_records (Some saved) "s" records 3%Z).
Definition next : SessionMeta := Eval vm_compute in write_meta_of (meta 9) "s" 3%Z.

Definition saved_lines : list string := Eval vm_compute in map to_json_line [RecLlm (user "a")].

Ltac line_by_computing :=
  apply json_line_intro; [vm_compute; reflexivity|vm_compute; reflexivity].

Lemma append_is_atomic_witness :
  length ops = 9
  /\ forall n, (S n < String.length (tail_bytes next (map to_json_line records)) -> same_session "s" saved (crash_after n saved ops))
    /\ (String.length (tail_bytes next (map to_json_line records)) <= S n ->
         same_session "s" (file_ops saved ops) (crash_after n saved ops)
         \/ (String.length (tail_bytes next (map to_json_line records)) < n
              < String.length (tail_bytes next (map to_json_line records)) + String.length (first_line saved)
            /\ exists e, read_meta_and_message_lines (Some (crash_after n saved ops)) "s" = Err e /\ io_kind e = InvalidData)).
Proof.
  split; [done|]. refine (proj2 (append_is_atomic saved "s" (meta 9) saved_lines records 3%Z ops _ _ _ _ _ _)).
  - vm_compute. reflexivity.
  - vm_compute. reflexivity.
  - eexists. split; [line_by_computing|]. split; vm_compute; reflexivity.
  - eexists _, _. split; [line_by_computing|]. split; [vm_compute; reflexivity|]. split; [vm_compute; reflexivity|].
    split; [line_by_computing|]. vm_compute. reflexivity.
  - repeat constructor; (eexists; split; [line_by_computing|split; vm_compute; reflexivity]).
  - vm_compute. reflexivity.
Defined.

Definition messages_of (file : string) : option (list string) :=
  match load_file 1 [] "s" None (Some file) with
  | Some (Ok (_, ms)) =>
    Some (filtermap (fun m => match m with Llm (User u) => Some (extract_text (um_content u)) | _ => None end) ms)
  | _ => None
  end.

(** Dying while the first line is overwritten can lose the session: the sequence
    number went from 9 to 10. *)
Lemma torn_patch_is_unreadable :
  messages_of saved = Some ["a"] /\ messages_of (file_ops saved ops) = Some ["a"; "b"; "c"]
  /\ exists n, messages_of (crash_after n saved ops) = None.
Proof.
  split; [by vm_compute|]. split; [by vm_compute|].
  exists (String.length (tail_bytes next (map to_json_line records)) + String.length (meta_to_string next) - 1).
  by vm_compute.
Qed.

(** The append that comes after one that died in its second record: its begin
    marker becomes part of the torn line, and its commit also commits the
    first record of the append that died. *)
Definition torn : string := Eval vm_compute in
  crash_after (String.length (write_lines (map to_json_line [RecAppendBegin; RecLlm (user "b")])) + 10) saved ops.
Definition later : list FileOp := Eval vm_compute in
  in_place (append_records (Some torn) "s" [RecLlm (user "d")] 4%Z).

Lemma torn_append_resurfaces :
  messages_of torn = Some ["a"] /\ messages_of (file_ops torn later) = Some ["a"; "b"; "d"].
Proof. split; by vm_compute. Qed.

End CrashDemo.
