(* ===== verification/SessionStoreSpec.v ===== *)
(** * What the session store promises

    Abstractly a session is its metadata and its lines, and an operation is a
    function of them that checks and advances the sequence number.  The files
    of the store represent sessions, and every operation that writes does on
    the file what the function does on the session: as a whole new file or in
    place.  Loading gives the messages of the lines. *)
From S2P Require Export JsonlCrash.
From S2P Require Import SessionData.
From Stdlib Require Import Ascii.
Open Scope string_scope.
Open Scope list_scope.
Open Scope agent_scope.

Section Spec.
Context `{Sd : SessionSerde}.

(** ** Lines that a scan keeps *)

(** One line of text that is neither a begin marker nor metadata; it need not be JSON. *)
Record plain_line (l : string) : Prop := {
  pl_ne : l <> "";
  pl_lf : no_lf l = true;
  pl_cr : strip_cr l = l;
  pl_utf8 : is_utf8 l = true;
  pl_begin : record_parse l <> Ok RecAppendBegin;
  pl_meta : forall m, record_parse l <> Ok (RecMeta m);
}.

Lemma data_plain t : data_line t -> plain_line t.
Proof.
  intros (v & Hv & Ha & Hm). split; try apply Hv; [by eapply json_line_ne| |];
    unfold record_parse; rewrite (jl_parse _ _ Hv); cbn [result_bind]; unfold record_of_value; rewrite Ha, Hm;
    destruct (marked v "_state"), (marked v "_custom"), (llm_from_value v); cbn; congruence.
Qed.

Lemma scan_plain id s l : plain_line l -> scan_line id s l = push_line s l.
Proof.
  intros [_ _ _ Hu Hb Hm]. unfold scan_line, push_line. rewrite Hu.
  destruct (record_parse l) as [[| | |m|]|]; try done. by destruct (Hm m).
Qed.

Lemma scan_plains id m lines ls :
  Forall plain_line ls -> foldl (scan_line id) (MkScan m lines None) ls = MkScan m (lines ++ ls) None.
Proof.
  intros Hls. revert lines. induction Hls as [|l ls Hl _ IH]; intros lines; [by rewrite app_nil_r|].
  cbn [foldl]. rewrite scan_plain by done. unfold push_line. cbn. by rewrite IH, <- app_assoc.
Qed.

(** A whole file: padded metadata and lines. *)
Lemma read_written id m pad ls :
  meta_written m -> meta_id m = id -> Forall plain_line ls ->
  let f := (write_meta_line m pad ++ write_lines ls)%string in
  terminated f /\ read_meta_and_message_lines (Some f) id = Ok (m, ls).
Proof.
  intros Hm Hid Hls. cbn zeta. pose proof Hm as (v & w & Hv & Hvm & _).
  assert (Forall (fun l => no_lf l = true) ls) as Hlf by (eapply Forall_impl; [exact Hls|intros l Hl; apply Hl]).
  assert (write_meta_line m pad = ((meta_to_string m ++ str_repeat SPACE pad) ++ newline)%string) as ->
    by (unfold write_meta_line; by rewrite string_app_assoc).
  set (first := (meta_to_string m ++ str_repeat SPACE pad)%string).
  assert (no_lf first = true) as Hflf by (unfold first; rewrite no_lf_app, no_lf_repeat, (jl_lf _ _ Hv); done).
  split; [apply terminated_app; [by apply terminated_line|by apply write_lines_terminated]|].
  assert (str_lines ((first ++ newline) ++ write_lines ls) = strip_cr first :: ls) as Hl.
  { rewrite str_lines_app, str_lines_line, write_lines_read by (done || by apply terminated_line). cbn. f_equal.
    rewrite <- (map_id ls) at 2. apply map_ext_Forall. eapply Forall_impl; [exact Hls|intros l Hl; apply Hl]. }
  rewrite (read_lines id _ _ _ Hl). destruct (strip_cr_same first m) as [-> Hms].
  assert (is_utf8 first = true) as -> by (unfold first; rewrite is_utf8_spaces; apply Hv).
  rewrite Hms.
  - cbn [map_err result_bind]. rewrite scan_plains by done. cbn. subst id. by destruct m.
  - unfold meta_from_str, first. by rewrite (proj2 (from_str_spaces _ _ v)) by apply Hv.
Qed.

(** What a scan reads from a file: no begin marker and no metadata. *)
Definition kept_line (l : string) : Prop :=
  no_lf l = true /\ is_utf8 l = true /\ record_parse l <> Ok RecAppendBegin /\ forall m, record_parse l <> Ok (RecMeta m).

Lemma scan_line_kept id s raw :
  no_lf raw = true -> Forall kept_line (sc_lines s) /\ Forall kept_line (default [] (sc_pending s)) ->
  Forall kept_line (sc_lines (scan_line id s raw)) /\ Forall kept_line (default [] (sc_pending (scan_line id s raw))).
Proof.
  intros Hraw [Hl Hp]. unfold scan_line. destruct (is_utf8 raw) eqn:Hu; [|done].
  destruct (record_parse raw) as [[| | | |]|] eqn:Hpr;
    try (assert (kept_line raw) as Hk by (split_and!; [done|done|congruence|congruence]));
    destruct s as [m0 ls0 [pending|]]; cbn in *; rewrite ?Forall_app; auto using Forall_nil_2, Forall_cons_2.
Qed.

Lemma scan_kept id s raws :
  Forall (fun l => no_lf l = true) raws ->
  Forall kept_line (sc_lines s) /\ Forall kept_line (default [] (sc_pending s)) ->
  Forall kept_line (sc_lines (foldl (scan_line id) s raws)).
Proof.
  intros Hr. revert s. induction Hr as [|raw raws Hraw _ IH]; intros s Hs; [apply Hs|].
  apply IH. by apply scan_line_kept.
Qed.

Lemma read_kept f id m lines :
  read_meta_and_message_lines (Some f) id = Ok (m, lines) -> Forall kept_line lines.
Proof.
  intros H. destruct (str_lines f) as [|l raws] eqn:Hl.
  { unfold read_meta_and_message_lines in H. destruct f; [done|]. cbn [open_session_file result_bind] in H. by rewrite Hl in H. }
  rewrite (read_lines id f l raws Hl) in H. destruct (is_utf8 l); [|done]. destruct (meta_from_str l); [|done].
  cbn in H. injection H as _ <-. apply scan_kept; [|done].
  pose proof (str_lines_no_lf f) as Hn. rewrite Hl in Hn. by inversion Hn.
Qed.

(** ** Files that represent sessions *)

Definition Session : Type := SessionMeta * list string.

(** The lines of a session file are written by the store: not empty, no carriage return. *)
Record represents (id f : string) (s : Session) : Prop := {
  rep_terminated : terminated f;
  rep_read : read_meta_and_message_lines (Some f) id = Ok s;
  rep_tidy : Forall (fun l => l <> "" /\ strip_cr l = l) (snd s);
}.

Lemma represents_plain id f s : represents id f s -> Forall plain_line (snd s).
Proof.
  destruct s as [m lines]. intros [_ Hr Ht]. apply read_kept in Hr. cbn in *.
  apply Forall_forall. intros l Hl. rewrite Forall_forall in Hr, Ht.
  destruct (Hr l Hl) as (H1 & H2 & H3 & H4), (Ht l Hl) as [H5 H6]. by split.
Qed.

Lemma represents_written id m pad ls :
  meta_written m -> meta_id m = id -> Forall plain_line ls ->
  represents id (write_meta_line m pad ++ write_lines ls)%string (m, ls).
Proof.
  intros Hm Hid Hls. destruct (read_written id m pad ls Hm Hid Hls) as [H1 H2]. split; [done|done|].
  eapply Forall_impl; [exact Hls|]. by intros l [].
Qed.

Lemma represents_unpadded id m ls :
  meta_written m -> meta_id m = id -> Forall plain_line ls ->
  represents id (meta_to_string m ++ newline ++ write_lines ls)%string (m, ls).
Proof.
  intros Hm Hid Hls. pose proof (represents_written id m 0 ls Hm Hid Hls) as H. unfold write_meta_line in H.
  cbn [str_repeat] in H. by rewrite string_app_nil_l, string_app_assoc in H.
Qed.

Lemma nonempty_plain ls : Forall plain_line ls -> nonempty_lines ls = ls.
Proof.
  unfold nonempty_lines. induction 1 as [|l ls Hl _ IH]; [done|]. cbn. rewrite IH. destruct Hl as [Hne _ _ _ _ _]. by destruct l.
Qed.

(** An append, in place or by a new file, adds its lines. *)
Lemma represents_appended id f m0 lines m ts :
  represents id f (m0, lines) -> begin_written -> meta_written m -> meta_id m = id -> Forall data_line ts ->
  exists c, append_or_rewrite (Some f) id m (String.length (first_line f)) ts = Ok c
    /\ represents id (apply_change f c) (m, lines ++ ts).
Proof.
  intros Hrep Hb Hm Hid Hts. unfold append_or_rewrite.
  assert (Forall plain_line (lines ++ ts)) as Hpl.
  { apply Forall_app. split; [by apply (represents_plain id f (m0, lines))|].
    eapply Forall_impl; [exact Hts|]. exact data_plain. }
  destruct (append_records_in_place m _ ts) as [ops|] eqn:Hops.
  - exists (InPlace ops). split; [done|]. cbn [apply_change].
    destruct (append_crash id m ts Hb Hm Hid Hts f m0 lines ops (rep_terminated _ _ _ Hrep) (rep_read _ _ _ Hrep) Hops) as [[H1 H2] _].
    split; [done|done|]. eapply Forall_impl; [exact Hpl|]. by intros l [].
  - rewrite (rep_read _ _ _ Hrep). cbn [result_bind snd]. eexists. split; [done|]. cbn [apply_change].
    unfold rewrite_session_file. rewrite nonempty_plain by done. by apply represents_written.
Qed.

(** ** Operations on abstract sessions *)

Inductive Write :=
| WSave (meta : SessionMeta) (messages : list AgentMessage)
| WSaveFull (meta : SessionMeta) (messages : list AgentMessage) (state : Value)
| WAppend (messages : list AgentMessage)
| WSaveState (state : Value)
| WSaveEntries (meta : SessionMeta) (entries : list SessionEntry)
| WAppendEntries (meta : SessionMeta) (entries : list SessionEntry).

(** The operation of the store. *)
Definition run_write (st : Store) (id : string) (w : Write) (now : DateTime) : result unit IoError * Store :=
  let forget {T} (r : result T IoError * Store) := (result_bind (fst r) (fun _ => Ok tt), snd r) in
  match w with
  | WSave meta messages => save st id meta messages now
  | WSaveFull meta messages state => forget (save_full st id meta messages state now)
  | WAppend messages => append st id messages now
  | WSaveState state => save_state st id state now
  | WSaveEntries meta entries => save_entries st id meta entries now
  | WAppendEntries meta entries => forget (append_entries st id meta entries now)
  end.

Definition message_lines (messages : list AgentMessage) : list string :=
  map to_json_line (filtermap from_message messages).

(** The metadata a caller brings, whose sequence number has to be the stored one. *)
Definition caller_meta (w : Write) : option SessionMeta :=
  match w with
  | WSave meta _ | WSaveFull meta _ _ | WSaveEntries meta _ | WAppendEntries meta _ => Some meta
  | WAppend _ | WSaveState _ => None
  end.

(** Whether an operation makes a session that is not there. *)
Definition creates (w : Write) : bool :=
  match w with WSave _ _ | WSaveFull _ _ _ | WSaveEntries _ _ => true | _ => false end.

Definition new_lines (w : Write) (lines : list string) : list string :=
  match w with
  | WSave _ messages => message_lines messages ++ List.filter preserve_for_message_save lines
  | WSaveFull _ messages state =>
    message_lines messages ++ upsert_state_line (List.filter preserve_for_message_save lines) state
  | WAppend messages => lines ++ message_lines messages
  | WSaveState state => upsert_state_line lines state
  | WSaveEntries _ entries => map entry_to_string entries ++ List.filter preserve_for_entry_save lines
  | WAppendEntries _ entries => lines ++ map entry_to_string entries
  end.

(** One step of a session: its old value, or [None] when it is not there. *)
Definition session_step (id : string) (s : option Session) (w : Write) (now : DateTime) : result Session IoError :=
  match s with
  | None =>
    match caller_meta w with
    | Some meta => if creates w then Ok (write_meta_of meta id now, new_lines w []) else Err (not_found id)
    | None => Err (not_found id)
    end
  | Some (stored, lines) =>
    match caller_meta w with
    | Some meta =>
      if (meta_sequence stored =? meta_sequence meta)%N then Ok (write_meta_of meta id now, new_lines w lines)
      else Err (sequence_conflict id (meta_sequence meta) (meta_sequence stored))
    | None => Ok (write_meta_of stored id now, new_lines w lines)
    end
  end.

(** The store holds this session, or none. *)
Definition holds_session (st : Store) (id : string) (s : option Session) : Prop :=
  match st_sessions st !! id, s with
  | None, None => True
  | Some f, Some s => represents id f s
  | _, _ => False
  end.

(** ** What is written can be read *)

(** A state that is written and read back. *)
Definition state_written (state : Value) : Prop :=
  json_line (to_json_line (RecState state)) (json_of_map (<["_state" := json_bool true]> {["data" := state]})).

(** A message whose line is read back as it was; a custom message that cannot be stored has none. *)
Definition message_written (message : AgentMessage) : Prop :=
  forall line, encode_jsonl_message_line message = Some line ->
  exists v, json_line line v /\
    match message with
    | Llm m => llm_from_value v = Ok m /\ line = llm_to_string m
    | Custom c =>
      json_to_string v = line /\ exists envelope, serialize_custom_message c = Some envelope /\ mark_custom envelope = Some v
    end.

Definition entry_written (e : SessionEntry) : Prop :=
  exists v, json_line (entry_to_string e) v /\ entry_from_value v = Ok e.

(** What an operation writes besides metadata. *)
Definition write_ok (w : Write) : Prop :=
  match w with
  | WSave _ messages | WAppend messages => Forall message_written messages
  | WSaveFull _ messages state => Forall message_written messages /\ state_written state
  | WSaveState state => state_written state
  | WSaveEntries _ entries | WAppendEntries _ entries => Forall entry_written entries
  end.

Lemma unmarked v k : json_get v k = None -> marked v k = false.
Proof. intros H. unfold marked. by rewrite H. Qed.

Lemma mark_custom_value c envelope v :
  serialize_custom_message c = Some envelope -> mark_custom envelope = Some v ->
  exists name payload, type_name c = Some name /\ to_json c = Some payload
    /\ v = json_of_map (<["_custom" := json_bool true]> (<["type" := json_string name]> {["data" := payload]})).
Proof.
  unfold serialize_custom_message, mark_custom. destruct (type_name c) as [name|]; [|done].
  destruct (to_json c) as [payload|]; [|done]. cbn. intros [= <-]. rewrite json_as_map_envelope. intros [= <-].
  by exists name, payload.
Qed.

(** The line of a message, and what it parses to. *)
Lemma message_line_parse m line :
  message_written m -> encode_jsonl_message_line m = Some line ->
  exists v, json_line line v /\
    match m with
    | Llm llm => line = llm_to_string llm /\ llm_from_value v = Ok llm /\ record_of_value v = Ok (RecLlm llm)
    | Custom c => json_to_string v = line /\ record_of_value v = Ok (RecCustom v)
        /\ exists name payload, type_name c = Some name /\ to_json c = Some payload
          /\ v = json_of_map (<["_custom" := json_bool true]> (<["type" := json_string name]> {["data" := payload]}))
    end.
Proof.
  intros Hw He. destruct (Hw _ He) as (v & Hv & H). exists v. split; [done|]. destruct m as [llm|c].
  - destruct H as [Hp ->]. split_and!; [done|done|]. unfold record_of_value.
    rewrite !unmarked by (eapply llm_keys; [apply Hv|unfold markers; set_solver]). by rewrite Hp.
  - destruct H as [Hs (envelope & Henv & Hmark)]. destruct (mark_custom_value _ _ _ Henv Hmark) as (name & payload & Hn & Hp & ->).
    split_and!; [done| |eauto]. unfold record_of_value. rewrite !marked_of_map.
    rewrite !(lookup_insert_ne _ "_custom") by done. rewrite !(lookup_insert_ne _ "type") by done.
    rewrite !lookup_singleton_ne by done. rewrite lookup_insert_eq. cbn. by rewrite json_as_bool_bool.
Qed.

Lemma from_message_line m r :
  message_written m -> from_message m = Some r ->
  exists v, json_line (to_json_line r) v /\ record_of_value v = Ok r
    /\ match m with
       | Llm llm => r = RecLlm llm /\ llm_from_value v = Ok llm
       | Custom c => r = RecCustom v
           /\ exists name payload, type_name c = Some name /\ to_json c = Some payload
             /\ v = json_of_map (<["_custom" := json_bool true]> (<["type" := json_string name]> {["data" := payload]}))
       end.
Proof.
  unfold from_message. intros Hw Hr. apply bind_Some in Hr as (line & He & Hr).
  destruct (message_line_parse m line Hw He) as (v & Hv & Hm).
  unfold record_parse in Hr. rewrite (jl_parse _ _ Hv) in Hr. cbn [result_bind] in Hr. destruct m as [llm|c].
  - destruct Hm as (-> & Hp & Hrec). rewrite Hrec in Hr. injection Hr as <-. by exists v.
  - destruct Hm as (<- & Hrec & Hc). rewrite Hrec in Hr. injection Hr as <-. by exists v.
Qed.

Lemma message_lines_data messages : Forall message_written messages -> Forall data_line (message_lines messages).
Proof.
  induction 1 as [|m messages Hm _ IH]; [constructor|]. unfold message_lines in *. cbn [filtermap].
  destruct (from_message m) as [r|] eqn:Hr; [|done]. constructor; [|done].
  destruct (from_message_line m r Hm Hr) as (v & Hv & Hrec & _). exists v. split; [done|].
  unfold from_message in Hr. apply bind_Some in Hr as (line & _ & Hr). unfold record_of_value in Hrec.
  destruct (marked v "_state"); [injection Hrec as <-; destruct (record_parse line) as [[]|]; discriminate|].
  destruct (marked v "_append"); [injection Hrec as <-; destruct (record_parse line) as [[]|]; discriminate|]. split; [done|].
  destruct (marked v "_meta"); [|done]. destruct (meta_from_value _); [|done]. injection Hrec as <-.
  destruct (record_parse line) as [[]|]; discriminate.
Qed.

Lemma entry_lines_data entries : Forall entry_written entries -> Forall data_line (map entry_to_string entries).
Proof.
  intros He. apply Forall_map. eapply Forall_impl; [exact He|]. intros e (v & Hv & _). exists v. split; [done|].
  split; apply unmarked; (eapply entry_keys; [apply Hv|unfold markers; set_solver]).
Qed.

Lemma state_line_data state : state_written state -> data_line (to_json_line (RecState state)).
Proof.
  intros Hs. eexists. split; [exact Hs|]. rewrite !marked_of_map.
  by rewrite !lookup_insert_ne, !lookup_singleton_ne by done.
Qed.

Lemma upsert_plain lines state :
  Forall plain_line lines -> state_written state -> Forall plain_line (upsert_state_line lines state).
Proof.
  intros Hl Hs. pose proof (data_plain _ (state_line_data _ Hs)) as Hp.
  induction Hl as [|l lines Hpl Hl IH]; cbn; [by constructor|].
  destruct (record_parse l) as [[]|]; by constructor.
Qed.

Lemma plain_filter p lines : Forall plain_line lines -> Forall plain_line (List.filter p lines).
Proof. induction 1 as [|l lines Hl _ IH]; [done|]. cbn. destruct (p l); [by constructor|done]. Qed.

Lemma new_lines_plain w lines : write_ok w -> Forall plain_line lines -> Forall plain_line (new_lines w lines).
Proof.
  intros Hw Hl. destruct w; cbn in *; rewrite ?Forall_app;
    repeat match goal with
    | H : Forall message_written _ |- _ => apply message_lines_data in H
    | H : Forall entry_written _ |- _ => apply entry_lines_data in H
    | H : _ /\ _ |- _ => destruct H
    end; split_and?; try (by apply upsert_plain; try apply plain_filter); try (by apply plain_filter); try done;
    (eapply Forall_impl; [eassumption|exact data_plain]).
Qed.

(** ** The operations on represented sessions *)

Lemma stored_meta id f m lines :
  represents id f (m, lines) -> read_meta_with_line_len (Some f) id = Ok (m, String.length (first_line f)).
Proof. intros Hr. by destruct (readers_agree _ _ _ _ (rep_read _ _ _ Hr)) as (b & [= <-] & ->). Qed.

Lemma check_sequence id f m lines seq :
  represents id f (m, lines) ->
  check_sequence_path (Some f) id seq
  = if (meta_sequence m =? seq)%N then Ok tt else Err (sequence_conflict id seq (meta_sequence m)).
Proof. intros Hr. unfold check_sequence_path. by rewrite (stored_meta _ _ _ _ Hr). Qed.

Lemma preserved id f m lines p :
  represents id f (m, lines) -> preserve_existing_lines (Some f) id p = Ok (List.filter p lines).
Proof. intros Hr. unfold preserve_existing_lines. by rewrite (rep_read _ _ _ Hr). Qed.

Lemma written_bytes m a b :
  Forall plain_line b ->
  (write_meta_line m META_LINE_PADDING ++ write_lines a ++ write_lines (nonempty_lines b))%string
  = (write_meta_line m META_LINE_PADDING ++ write_lines (a ++ b))%string.
Proof. intros Hb. by rewrite nonempty_plain, write_lines_app. Qed.

(** The bytes an operation makes of its session's file. *)
Definition file_write (id : string) (w : Write) (now : DateTime) (file : option string) : result string IoError :=
  match w with
  | WSave meta messages => r <-? save_file id meta messages now file ;; Ok (snd r)
  | WSaveFull meta messages state => r <-? save_full_file id meta messages state now file ;; Ok (snd r)
  | WAppend messages =>
    c <-? append_records file id (filtermap from_message messages) now ;; Ok (apply_change (default "" file) c)
  | WSaveState state => r <-? save_state_file id state now file ;; Ok (snd r)
  | WSaveEntries meta entries => r <-? save_entries_file id meta entries now file ;; Ok (snd r)
  | WAppendEntries meta entries =>
    r <-? append_entries_file id meta entries now file ;; Ok (apply_change (default "" file) (snd r))
  end.

Lemma run_write_file st id w now :
  validate_session_id id = Ok tt ->
  run_write st id w now
  = match file_write id w now (st_sessions st !! id) with
    | Ok bytes => (Ok tt, put_session st id bytes)
    | Err e => (Err e, st)
    end.
Proof.
  intros Hid. destruct w; cbn [run_write file_write];
    unfold save, save_full, append, save_state, save_entries, append_entries, on_session; rewrite Hid; cbn [result_bind].
  - by destruct (save_file _ _ _ _ _) as [[[] b]|e].
  - by destruct (save_full_file _ _ _ _ _ _) as [[r b]|e].
  - by destruct (append_records _ _ _ _) as [c|e].
  - by destruct (save_state_file _ _ _ _) as [[[] b]|e].
  - by destruct (save_entries_file _ _ _ _ _) as [[[] b]|e].
  - by destruct (append_entries_file _ _ _ _ _) as [[r c]|e].
Qed.

Lemma file_write_new id w now :
  write_ok w -> (forall s', session_step id None w now = Ok s' -> meta_written (fst s')) ->
  match session_step id None w now with
  | Ok s' => exists bytes, file_write id w now None = Ok bytes /\ represents id bytes s'
  | Err e => file_write id w now None = Err e
  end.
Proof.
  intros Hw Hm. pose proof (new_lines_plain w [] Hw (Forall_nil_2 _)) as Hpl.
  destruct w; cbn in Hm |- *; try done; specialize (Hm _ eq_refl); cbn in Hm, Hpl.
  - eexists. split; [done|]. rewrite app_nil_r. unfold write_messages_with_preserved_lines. cbn. rewrite string_app_nil_r.
    rewrite app_nil_r in Hpl. by apply represents_written.
  - eexists. split; [done|]. unfold write_messages_with_preserved_lines. rewrite written_bytes.
    + by apply represents_written.
    + by apply Forall_app in Hpl as [_ Hpl].
  - eexists. split; [done|]. rewrite app_nil_r. cbn. rewrite string_app_nil_r, app_nil_r in *.
    by apply represents_unpadded.
Qed.

Lemma file_write_old id f stored lines w now :
  begin_written -> represents id f (stored, lines) -> write_ok w ->
  (forall s', session_step id (Some (stored, lines)) w now = Ok s' -> meta_written (fst s')) ->
  match session_step id (Some (stored, lines)) w now with
  | Ok s' => exists bytes, file_write id w now (Some f) = Ok bytes /\ represents id bytes s'
  | Err e => file_write id w now (Some f) = Err e
  end.
Proof.
  intros Hb Hrep Hw Hm. pose proof (represents_plain _ _ _ Hrep) as Hpl. cbn [snd] in Hpl.
  pose proof (new_lines_plain w lines Hw Hpl) as Hnew. pose proof (stored_meta _ _ _ _ Hrep) as Hst.
  cbn [session_step] in *. destruct w as [meta messages|meta messages state|messages|state|meta entries|meta entries];
    cbn [caller_meta file_write new_lines] in *;
    unfold save_file, save_full_file, save_state_file, save_entries_file, append_entries_file, append_records;
    rewrite ?(check_sequence _ _ _ _ _ Hrep), ?(preserved _ _ _ _ _ Hrep), ?(rep_read _ _ _ Hrep), ?Hst;
    try (destruct (meta_sequence stored =? meta_sequence meta)%N; [|done]);
    specialize (Hm _ eq_refl); cbn [fst result_bind snd] in *.
  - eexists. split; [done|]. unfold write_messages_with_preserved_lines. rewrite written_bytes.
    + by apply represents_written.
    + by apply Forall_app in Hnew as [_ ?].
  - eexists. split; [done|]. unfold write_messages_with_preserved_lines. rewrite written_bytes.
    + by apply represents_written.
    + by apply Forall_app in Hnew as [_ ?].
  - destruct (represents_appended id f stored lines _ _ Hrep Hb Hm eq_refl (message_lines_data _ Hw)) as (c & Hc & Hr).
    unfold message_lines in Hc. rewrite Hc. cbn. eauto.
  - eexists. split; [done|]. unfold rewrite_session_file. rewrite nonempty_plain by done. by apply represents_written.
  - eexists. split; [done|]. rewrite nonempty_plain by by apply Forall_app in Hnew as [_ ?].
    rewrite <- write_lines_app. by apply represents_unpadded.
  - destruct (represents_appended id f stored lines _ _ Hrep Hb Hm eq_refl (entry_lines_data _ Hw)) as (c & Hc & Hr).
    rewrite Hc. cbn. eauto.
Qed.

(** C1: the store implements sessions that are metadata and a list of lines.  When
    its file represents a session (or there is none), every writing operation
    does to the file what it does to the session: it fails with the same error
    (no session, a stale sequence number) and leaves all files as they were,
    or it succeeds and the file, rewritten or extended in place, represents
    the session with the new lines and the metadata of the write, its
    sequence number advanced; no other session is touched.  So no line is
    lost or moved, also when the metadata outgrows its place in the file. *)
Theorem store_implements_sessions st id s w now :
  validate_session_id id = Ok tt -> holds_session st id s -> begin_written -> write_ok w ->
  (forall s', session_step id s w now = Ok s' -> meta_written (fst s')) ->
  match session_step id s w now with
  | Ok s' =>
    exists bytes, run_write st id w now = (Ok tt, put_session st id bytes) /\ represents id bytes s'
  | Err e => run_write st id w now = (Err e, st)
  end.
Proof.
  intros Hid Hs Hb Hw Hm. rewrite run_write_file by done. unfold holds_session in Hs.
  destruct (st_sessions st !! id) as [f|], s as [[stored lines]|]; try done.
  - pose proof (file_write_old id f stored lines w now Hb Hs Hw Hm) as H.
    destruct (session_step _ _ _ _); [|by rewrite H]. destruct H as (bytes & -> & Hr). by exists bytes.
  - pose proof (file_write_new id w now Hw Hm) as H.
    destruct (session_step _ _ _ _); [|by rewrite H]. destruct H as (bytes & -> & Hr). by exists bytes.
Qed.

(** ** What is loaded *)

(** The message of a line, if it holds one. *)
Definition line_message (registry : option CustomMessageRegistry) (line : string) : option AgentMessage :=
  item ← (if is_blank line then None else match classify_line line with Ok item => Some item | Err _ => None end);
  match item with
  | LineEntry (EntryMessage m) => Some (Llm m)
  | LineEntry _ => None
  | LineCustom envelope => match custom_envelope_to_message envelope registry with Ok m => m | Err _ => None end
  | LineState => None
  end.

Definition session_messages (registry : option CustomMessageRegistry) (lines : list string) : list AgentMessage :=
  filtermap (line_message registry) lines.

Lemma session_messages_lines registry lines :
  classified_lines_to_messages (classify_lines lines) registry = session_messages registry lines.
Proof. unfold classified_lines_to_messages, classify_lines, session_messages. by rewrite filtermap_filtermap. Qed.

Lemma weave_same classified : weave_slots classified (filtermap entry_of_line classified) = classified.
Proof. induction classified as [|[e|v|] rest IH]; cbn; by rewrite ?IH. Qed.

(** A session of the current version is loaded as it is. *)
Lemma load_represented fuel migrators id registry f m lines state :
  represents id f (m, lines) -> meta_version m = CURRENT_VERSION ->
  extract_state_from_lines lines id = Ok state ->
  load_full_file (S fuel) migrators id registry (Some f) = Some (Ok (m, session_messages registry lines, state)).
Proof.
  intros Hr Hv Hs. unfold load_full_file. rewrite (rep_read _ _ _ Hr). cbn [result_bind snd]. rewrite Hs. cbn [result_bind].
  unfold classify_and_migrate, run_migrations. rewrite Hv. cbn [migration_steps N.ltb N.compare CURRENT_VERSION].
  rewrite Hv. cbn -[classified_lines_to_messages]. unfold weave_migrated_entries. rewrite Nat.eqb_refl, weave_same.
  by rewrite session_messages_lines.
Qed.

Lemma not_blank line v : json_from_str line = Ok v -> is_blank line = false.
Proof.
  intros H. apply json_from_str_trim in H. unfold is_blank. destruct (trim_end line); [|done].
  by apply json_from_str_empty in H.
Qed.

(** What the lines of an operation hold. *)
Lemma stored_line registry m r :
  message_written m -> from_message m = Some r -> line_message registry (to_json_line r) = stored registry m.
Proof.
  intros Hw Hr. destruct (from_message_line m r Hw Hr) as (v & Hv & _ & Hm). pose proof (jl_parse _ _ Hv) as Hp.
  unfold line_message. rewrite (not_blank _ _ Hp). unfold classify_line. rewrite Hp. cbn [result_bind].
  destruct m as [llm|c].
  - destruct Hm as [-> Hl]. cbn [to_json_line] in *. rewrite !unmarked by (eapply llm_keys; [exact Hp|unfold markers; set_solver]).
    unfold entry_parse. rewrite Hp. cbn [result_bind].
    rewrite (llm_keys _ _ "entry_type" Hp) by set_solver. by rewrite Hl.
  - destruct Hm as [-> (name & payload & Hn & Hj & ->)]. cbn [to_json_line] in *.
    assert (marked (json_of_map (<["_custom" := json_bool true]> (<["type" := json_string name]> {["data" := payload]}))) "_state" = false) as Hst
      by (rewrite marked_of_map, !lookup_insert_ne, lookup_singleton_ne by done; done).
    assert (marked (json_of_map (<["_custom" := json_bool true]> (<["type" := json_string name]> {["data" := payload]}))) "_custom" = true) as Hcu
      by (rewrite marked_of_map, lookup_insert_eq; cbn; by rewrite json_as_bool_bool).
    rewrite Hst, Hcu. cbn. unfold custom_envelope_to_message, decode_jsonl_message_line. rewrite Hp. cbn [io_other result_bind].
    rewrite Hst, Hcu. unfold decode. rewrite Hp. cbn [io_other result_bind].
    unfold restore_single_custom, stored. destruct registry as [reg|]; [|done]. cbn. rewrite Hn, Hj. cbn.
    unfold deserialize_custom_message. rewrite !json_get_of_map, lookup_insert_ne, lookup_insert_eq by done.
    cbn. rewrite json_as_str_string. cbn. rewrite !lookup_insert_ne, lookup_singleton_eq by done. cbn.
    unfold registry_deserialize. destruct (reg !! name) as [d|]; [|done]. cbn. by destruct (d payload).
Qed.

Lemma unstored registry m : message_written m -> from_message m = None -> stored registry m = None.
Proof.
  intros Hw Hr. unfold from_message in Hr. destruct (encode_jsonl_message_line m) as [line|] eqn:He.
  - destruct (message_line_parse m line Hw He) as (v & Hv & Hm). cbn in Hr. unfold record_parse in Hr.
    rewrite (jl_parse _ _ Hv) in Hr. cbn [result_bind] in Hr.
    destruct m; [destruct Hm as (_ & _ & Hrec)|destruct Hm as (_ & Hrec & _)]; by rewrite Hrec in Hr.
  - destruct m as [llm|c]; [done|]. cbn in He. unfold stored. destruct registry as [reg|]; [|done]. cbn.
    unfold serialize_custom_message, mark_custom in He. destruct (type_name c) as [name|]; [|done].
    destruct (to_json c) as [payload|]; [|done]. cbn in He. by rewrite json_as_map_envelope in He.
Qed.

Lemma message_lines_loaded registry messages :
  Forall message_written messages -> session_messages registry (message_lines messages) = filtermap (stored registry) messages.
Proof.
  unfold session_messages, message_lines. induction 1 as [|m messages Hm _ IH]; [done|]. cbn [filtermap].
  destruct (from_message m) as [r|] eqn:Hr; cbn [map filtermap].
  - rewrite (stored_line registry m r Hm Hr), IH. done.
  - by rewrite (unstored registry m Hm Hr).
Qed.

Lemma entry_lines_loaded registry entries :
  Forall entry_written entries ->
  session_messages registry (map entry_to_string entries) = map Llm (entry_messages entries).
Proof.
  unfold session_messages, entry_messages. induction 1 as [|e entries (v & Hv & He) _ IH]; [done|].
  cbn [map filtermap]. rewrite IH. pose proof (jl_parse _ _ Hv) as Hp.
  assert (line_message registry (entry_to_string e) = Llm <$> as_message e) as ->; [|by destruct (as_message e)].
  unfold line_message. rewrite (not_blank _ _ Hp). unfold classify_line. rewrite Hp. cbn [result_bind].
  rewrite !unmarked by (eapply entry_keys; [exact Hp|unfold markers; set_solver]).
  unfold entry_parse. rewrite Hp. cbn [result_bind]. destruct (entry_tag _ _ Hp) as [t ->]. rewrite He. cbn. by destruct e.
Qed.

Lemma state_line_loaded registry state : state_written state -> line_message registry (to_json_line (RecState state)) = None.
Proof.
  intros Hv. pose proof (jl_parse _ _ Hv) as Hp. unfold line_message. rewrite (not_blank _ _ Hp).
  unfold classify_line. rewrite Hp. cbn [result_bind]. rewrite marked_of_map, lookup_insert_eq. cbn. by rewrite json_as_bool_bool.
Qed.

Lemma record_state_line l v registry : record_parse l = Ok (RecState v) -> line_message registry l = None.
Proof.
  unfold record_parse, line_message, classify_line. destruct (json_from_str l) as [w|e]; [|by destruct (is_blank l)].
  cbn [result_bind]. unfold record_of_value. destruct (marked w "_state"); [by destruct (is_blank l)|].
  destruct (marked w "_append"); [done|]. destruct (marked w "_meta"); [by destruct (meta_from_value _)|].
  destruct (marked w "_custom"); [done|]. by destruct (llm_from_value w).
Qed.

Lemma upsert_loaded registry lines state :
  state_written state -> session_messages registry (upsert_state_line lines state) = session_messages registry lines.
Proof.
  intros Hs. unfold session_messages. induction lines as [|l lines IH]; cbn [upsert_state_line filtermap].
  - by rewrite state_line_loaded.
  - destruct (record_parse l) as [[| | | |v]|] eqn:Hr; cbn [filtermap]; rewrite ?IH; try done.
    rewrite (record_state_line l v) by done. by rewrite state_line_loaded.
Qed.

(** No line carries the marker of metadata and that of a custom message. *)
Definition single_markers (lines : list string) : Prop :=
  Forall (fun l => forall v, json_from_str l = Ok v -> marked v "_meta" = true -> marked v "_custom" = false) lines.

(** A save keeps no line that holds a message. *)
Lemma preserved_loaded registry lines :
  single_markers lines -> session_messages registry (List.filter preserve_for_message_save lines) = [].
Proof.
  unfold session_messages. induction 1 as [|l lines Hl _ IH]; [done|]. cbn.
  destruct (preserve_for_message_save l) eqn:Hp; [|done]. cbn. rewrite IH.
  assert (line_message registry l = None) as ->; [|done]. unfold preserve_for_message_save in Hp.
  destruct (record_parse l) as [[| | | |v]|e] eqn:Hr; try done; [by eapply record_state_line|].
  destruct (entry_parse l) as [en|e'] eqn:He; [|done].
  unfold line_message, classify_line. rewrite He. unfold record_parse in Hr.
  destruct (json_from_str l) as [v|]; [|by destruct (is_blank l)]. cbn [result_bind] in *. specialize (Hl v eq_refl).
  unfold record_of_value in Hr. destruct (marked v "_state"); [done|]. destruct (marked v "_append"); [done|].
  assert (marked v "_custom" = false) as ->.
  { destruct (marked v "_meta"); [by apply Hl|]. by destruct (marked v "_custom"). }
  cbn. destruct (is_blank l); [done|]. by destruct en.
Qed.

(** ** The state of a session *)

Lemma state_line_none id l v : json_from_str l = Ok v -> json_get v "_state" = None -> parse_state_line l id = Ok None.
Proof. intros Hl Hv. unfold parse_state_line. by rewrite Hl, Hv. Qed.

Lemma state_line_some id l v : parse_state_line l id = Ok (Some v) -> record_parse l = Ok (RecState v).
Proof.
  unfold parse_state_line, record_parse. destruct (json_from_str l) as [w|e]; [|by case_match].
  cbn [result_bind]. unfold record_of_value, marked. destruct (json_get w "_state") as [k|]; [|done]. cbn.
  destruct (bool_decide (json_as_bool k = Some true)); [|done]. by intros [= <-].
Qed.

(** Lines without state before or after others do not matter. *)
Lemma extract_state_skip id a b :
  Forall (fun l => parse_state_line l id = Ok None) a ->
  extract_state_from_lines (a ++ b) id = extract_state_from_lines b id.
Proof. induction 1 as [|l a Hl _ IH]; [done|]. cbn. by rewrite Hl. Qed.

Lemma extract_state_more id a b :
  Forall (fun l => parse_state_line l id = Ok None) b ->
  extract_state_from_lines (a ++ b) id = extract_state_from_lines a id.
Proof.
  intros Hb. induction a as [|l a IH]; cbn.
  - rewrite <- (app_nil_r b). by rewrite extract_state_skip.
  - destruct (parse_state_line l id) as [[v|]|e]; cbn; try done.
Qed.

Lemma extract_state_filter id p lines state :
  (forall l v, record_parse l = Ok (RecState v) -> p l = true) ->
  extract_state_from_lines lines id = Ok state ->
  extract_state_from_lines (List.filter p lines) id = Ok state.
Proof.
  intros Hp. induction lines as [|l lines IH]; [done|]. cbn. destruct (parse_state_line l id) as [[v|]|e] eqn:Hl; cbn; [| |done].
  - intros [= <-]. rewrite (Hp l v) by by eapply state_line_some. cbn. by rewrite Hl.
  - intros H. destruct (p l); [|by apply IH]. cbn. rewrite Hl. by apply IH.
Qed.

Lemma extract_state_upsert id lines state old :
  state_written state -> extract_state_from_lines lines id = Ok old ->
  extract_state_from_lines (upsert_state_line lines state) id = Ok (Some state).
Proof.
  intros Hs.
  assert (parse_state_line (to_json_line (RecState state)) id = Ok (Some state)) as Hnew.
  { unfold parse_state_line. rewrite (jl_parse _ _ Hs). rewrite json_get_of_map, lookup_insert_eq.
    rewrite json_as_bool_bool, bool_decide_true by done. unfold data_of.
    by rewrite json_get_of_map, lookup_insert_ne, lookup_singleton_eq by done. }
  induction lines as [|l lines IH]; cbn [upsert_state_line extract_state_from_lines]; [by rewrite Hnew|].
  destruct (parse_state_line l id) as [[v|]|e] eqn:Hl; cbn [result_bind]; [| |done].
  - intros _. rewrite (state_line_some id l v Hl). cbn [extract_state_from_lines]. by rewrite Hnew.
  - intros Hold. destruct (record_parse l) as [[]|]; cbn [extract_state_from_lines]; rewrite ?Hnew, ?Hl; cbn [result_bind]; auto.
Qed.

Lemma message_lines_stateless id messages :
  Forall message_written messages -> Forall (fun l => parse_state_line l id = Ok None) (message_lines messages).
Proof.
  induction 1 as [|m messages Hm _ IH]; [constructor|]. unfold message_lines in *. cbn [filtermap].
  destruct (from_message m) as [r|] eqn:Hr; [|done]. constructor; [|done].
  destruct (from_message_line m r Hm Hr) as (v & Hv & _ & H). apply (state_line_none id _ v); [apply Hv|].
  destruct m as [llm|c].
  - destruct H as [-> _]. eapply llm_keys; [apply Hv|unfold markers; set_solver].
  - destruct H as [_ (name & payload & _ & _ & ->)]. rewrite json_get_of_map. by rewrite !lookup_insert_ne, lookup_singleton_ne by done.
Qed.

Lemma entry_lines_stateless id entries :
  Forall entry_written entries -> Forall (fun l => parse_state_line l id = Ok None) (map entry_to_string entries).
Proof.
  intros He. apply Forall_map. eapply Forall_impl; [exact He|]. intros e (v & Hv & _).
  apply (state_line_none id _ v); [apply Hv|]. eapply entry_keys; [apply Hv|unfold markers; set_solver].
Qed.

(** ** What is loaded after a write *)

Definition messages_after (registry : option CustomMessageRegistry) (w : Write) (lines : list string) : list AgentMessage :=
  match w with
  | WSave _ messages | WSaveFull _ messages _ => filtermap (stored registry) messages
  | WAppend messages => session_messages registry lines ++ filtermap (stored registry) messages
  | WSaveState _ => session_messages registry lines
  | WSaveEntries _ entries =>
    map Llm (entry_messages entries) ++ session_messages registry (List.filter preserve_for_entry_save lines)
  | WAppendEntries _ entries => session_messages registry lines ++ map Llm (entry_messages entries)
  end.

Definition state_after (w : Write) (state : option Value) : option Value :=
  match w with WSaveFull _ _ v | WSaveState v => Some v | _ => state end.

Lemma session_messages_app registry a b :
  session_messages registry (a ++ b) = session_messages registry a ++ session_messages registry b.
Proof. apply filtermap_app. Qed.

Lemma new_lines_loaded registry w lines :
  write_ok w -> single_markers lines -> session_messages registry (new_lines w lines) = messages_after registry w lines.
Proof.
  intros Hw Hl. destruct w as [| ? ? v| | | |]; cbn [new_lines messages_after write_ok] in *; rewrite ?session_messages_app; [|destruct Hw as [Hw Hv]|..];
    rewrite ?upsert_loaded, ?message_lines_loaded, ?entry_lines_loaded, ?preserved_loaded, ?app_nil_r by done; done.
Qed.

Lemma new_lines_state id w lines state :
  write_ok w -> extract_state_from_lines lines id = Ok state ->
  extract_state_from_lines (new_lines w lines) id = Ok (state_after w state).
Proof.
  assert (forall l v, record_parse l = Ok (RecState v) -> preserve_for_message_save l = true) as Hm
    by (intros l v H; unfold preserve_for_message_save; by rewrite H).
  assert (forall l v, record_parse l = Ok (RecState v) -> preserve_for_entry_save l = true) as He
    by (intros l v H; unfold preserve_for_entry_save; by rewrite H).
  intros Hw Hl. destruct w as [| ? ? v| | | |]; cbn in *; [|destruct Hw as [Hw Hst]|..];
    rewrite ?extract_state_skip by (by apply message_lines_stateless || by apply entry_lines_stateless);
    rewrite ?extract_state_more by (by apply message_lines_stateless || by apply entry_lines_stateless);
    try (by eapply extract_state_upsert; [|first [eassumption|eapply extract_state_filter; eassumption]]);
    try (by apply extract_state_filter); done.
Qed.

Definition session_lines (s : option Session) : list string := match s with Some (_, lines) => lines | None => [] end.

Lemma session_step_lines id s w now m' lines' :
  session_step id s w now = Ok (m', lines') -> lines' = new_lines w (session_lines s).
Proof.
  destruct s as [[stored lines]|]; cbn; destruct (caller_meta w) as [meta|];
    [destruct (_ =? _)%N| |destruct (creates w)|]; congruence.
Qed.


(** ** Migrations *)

(** Migrators that go forward end: from version 0 there is one step. *)
Lemma run_migrations_ends migrators meta entries :
  Forall (fun m => (source_version m < target_version m)%N) migrators ->
  exists r, run_migrations 2 meta entries migrators = Some r
    /\ match r with Ok (meta', _) => (CURRENT_VERSION <= meta_version meta')%N | Err _ => True end.
Proof.
  intros Hm. unfold run_migrations. destruct (CURRENT_VERSION <? meta_version meta)%N; [by eexists|].
  cbn [migration_steps]. destruct (CURRENT_VERSION <=? meta_version meta)%N eqn:Hv.
  - apply N.leb_le in Hv. by eexists.
  - destruct (List.find _ migrators) as [g|] eqn:Hg; [|by eexists]. apply find_some in Hg as [Hin Hsrc].
    destruct (migrate g meta entries) as [entries'|e]; [|by eexists].
    apply list_elem_of_In in Hin. rewrite Forall_forall in Hm. specialize (Hm g Hin). cbn [with_version meta_version].
    assert (CURRENT_VERSION <= target_version g)%N as Ht by (unfold CURRENT_VERSION; lia).
    rewrite (proj2 (N.leb_le _ _)) by done. by eexists.
Qed.

(** Weaving keeps the lines that are no entries, in order, and the entries are the migrated ones. *)
Lemma weave_slots_entries classified migrated :
  length migrated = length (filtermap entry_of_line classified) ->
  filtermap entry_of_line (weave_slots classified migrated) = migrated.
Proof.
  revert migrated. induction classified as [|[e|v|] rest IH]; intros migrated Hl; cbn in *.
  - by destruct migrated.
  - destruct migrated as [|x migrated]; [done|]. cbn. rewrite IH by (cbn in Hl; lia). done.
  - by apply IH.
  - by apply IH.
Qed.

Lemma map_entries_back l : filtermap entry_of_line (map LineEntry l) = l.
Proof. induction l as [|x l IH]; cbn; congruence. Qed.

Lemma weave_block_entries classified migrated : filtermap entry_of_line (weave_block classified migrated) = migrated.
Proof.
  revert migrated. induction classified as [|[e|v|] rest IH]; intros migrated; cbn [weave_block filtermap entry_of_line];
    rewrite ?filtermap_app, ?map_entries_back, ?IH, ?app_nil_r; done.
Qed.

Lemma weave_entries classified migrated :
  filtermap entry_of_line (weave_migrated_entries classified migrated (length (filtermap entry_of_line classified))) = migrated.
Proof.
  unfold weave_migrated_entries. destruct (_ =? _)%nat eqn:Hl; [|apply weave_block_entries].
  apply Nat.eqb_eq in Hl. by apply weave_slots_entries.
Qed.

Definition passes (item : ClassifiedLine) : option ClassifiedLine :=
  match item with LineEntry _ => None | _ => Some item end.

Lemma map_entries_pass l : filtermap passes (map LineEntry l) = [].
Proof. induction l as [|x l IH]; cbn; congruence. Qed.

Lemma weave_passes classified migrated n :
  filtermap passes (weave_migrated_entries classified migrated n) = filtermap passes classified.
Proof.
  unfold weave_migrated_entries. destruct (_ =? _)%nat; revert migrated;
    induction classified as [|[e|v|] rest IH]; intros migrated; cbn [weave_block weave_slots filtermap passes];
    rewrite ?filtermap_app, ?map_entries_pass, ?IH; try done; destruct migrated; cbn [filtermap passes]; by rewrite IH.
Qed.

End Spec.

(** ** A store, evaluated *)
Module StoreDemo.
Import SessionToy ScanDemo CrashDemo.

Definition store : Store := MkStore {["s" := saved]} ∅ [].
Definition session : Session := (meta 9, saved_lines).
Definition appended : Write := WAppend [Llm (user "b")].
Definition replaced : Write := WSaveFull (meta 9) [Llm (user "x"); Llm (user "y")] (Toy.JStr "on").
Definition after : SessionMeta := Eval vm_compute in write_meta_of (meta 9) "s" 5%Z.

Lemma saved_represents : represents "s" saved session.
Proof.
  split; [by vm_compute|by vm_compute|].
  constructor; [|constructor]. split; [discriminate|by vm_compute].
Defined.

Lemma store_holds : holds_session store "s" (Some session).
Proof. exact saved_represents. Defined.

Lemma begin_demo : begin_written.
Proof. eexists. split; [line_by_computing|]. split; by vm_compute. Defined.

Lemma after_written : meta_written after.
Proof.
  eexists _, _. split; [line_by_computing|]. split; [by vm_compute|]. split; [by vm_compute|].
  split; [line_by_computing|by vm_compute].
Defined.

Lemma user_written t : json_line_ok (llm_to_string (user t)) = true ->
  json_from_str (llm_to_string (user t)) = Ok (llm_value (user t)) -> message_written (Llm (user t)).
Proof. intros H1 H2 line [= <-]. exists (llm_value (user t)). split; [by apply json_line_intro|done]. Defined.

Lemma appended_ok : write_ok appended.
Proof. constructor; [|constructor]. apply user_written; by vm_compute. Defined.

Lemma replaced_ok : write_ok replaced.
Proof.
  split; [repeat constructor; apply user_written; by vm_compute|].
  apply json_line_intro; by vm_compute.
Defined.

Lemma store_implements_sessions_witness :
  session_step "s" (Some session) appended 5%Z = Ok (after, new_lines appended saved_lines)
  /\ exists bytes, run_write store "s" appended 5%Z = (Ok tt, put_session store "s" bytes)
     /\ represents "s" bytes (after, new_lines appended saved_lines).
Proof.
  split; [by vm_compute|].
  refine (store_implements_sessions store "s" (Some session) appended 5%Z _ store_holds begin_demo appended_ok _).
  - by vm_compute.
  - intros s' Hs'. assert (s' = (after, new_lines appended saved_lines)) as -> by (vm_compute in Hs'; by injection Hs').
    exact after_written.
Defined.

(** A migrator that does not advance the version is called for ever. *)
Definition stuck : SessionMigrator := MkSessionMigrator 0 0 (fun _ entries => Ok entries).

Lemma stuck_migration_diverges fuel meta entries :
  meta_version meta = 0%N -> run_migrations fuel meta entries [stuck] = None.
Proof.
  intros Hv. unfold run_migrations. rewrite Hv. cbn. revert meta Hv.
  induction fuel as [|fuel IH]; intros meta Hv; [done|]. cbn. rewrite Hv. cbn. by apply IH.
Qed.

(** Entries after an instant before 1970: none, whatever their times. *)
Lemma early_instant_drops_all :
  select_entries (MkLoadOptions None (Some (-1)%Z) None) [EntryLabel "a" 0 100; EntryLabel "b" 0 2000000000] = [].
Proof. by vm_compute. Qed.
End StoreDemo.
