(* ===== verification/FileTree.v ===== *)
(** * A tree of directories

    What the artifact store uses of [std::fs]: looking a path up, creating and
    removing directories and files, listing a directory, and the atomic write of
    [src/atomic_fs.rs].  There are no symbolic links, so a path that is resolved
    is the path without its ["."] components; every operation is one step. *)
From S2P Require Export SessionData.
From Stdlib Require Import Ascii.
Open Scope string_scope.
Open Scope list_scope.
Open Scope agent_scope.

Lemma NoDup_filtermap {A B} (f : A -> option B) l :
  NoDup l -> (forall x y b, x ∈ l -> y ∈ l -> f x = Some b -> f y = Some b -> x = y) -> NoDup (filtermap f l).
Proof.
  induction 1 as [|a l Ha Hl IH]; intros Hf; cbn; [constructor|].
  assert (NoDup (filtermap f l)) as Hn by (apply IH; intros x y b Hx Hy; apply Hf; set_solver).
  destruct (f a) as [b|] eqn:Hb; [|done]. constructor; [|done].
  rewrite elem_of_filtermap. intros (a' & Hin & Ha'). apply Ha.
  assert (a = a') as -> by (apply (Hf a a' b); set_solver). done.
Qed.

Lemma if_decide_ext {A} (P Q : Prop) `{Decision P} `{Decision Q} (x y : A) :
  (P <-> Q) -> (if bool_decide P then x else y) = (if bool_decide Q then x else y).
Proof. intros HPQ. by rewrite (bool_decide_ext P Q HPQ). Qed.

(** The path of a directory, from the root of the store down. *)
Abbreviation DirPath := (list string).
(** The files of a directory and their bytes. *)
Abbreviation Files := (gmap string string).
(** Every directory that exists. *)
Abbreviation Tree := (gmap (list string) (gmap string string)).

Inductive Node := DirNode (files : Files) | FileNode (bytes : string).

Definition no_such_file : IoError := MkIoError NotFound "No such file or directory (os error 2)".
Definition not_a_directory : IoError := MkIoError OtherKind "Not a directory (os error 20)".
Definition is_a_directory : IoError := MkIoError OtherKind "Is a directory (os error 21)".
Definition file_exists : IoError := MkIoError AlreadyExists "File exists (os error 17)".
Definition not_empty : IoError := MkIoError DirectoryNotEmpty "Directory not empty (os error 39)".

Definition is_dir (fs : Tree) (p : DirPath) : bool := bool_decide (is_Some (fs !! p)).

(** The file [c] of the directory [p]. *)
Definition file_of (fs : Tree) (p : DirPath) (c : string) : option string := files ← fs !! p; files !! c.

Fixpoint walk (fs : Tree) (here rest : DirPath) : result Node IoError :=
  match rest with
  | [] => match fs !! here with Some files => Ok (DirNode files) | None => Err no_such_file end
  | c :: rest' =>
    if is_dir fs (here ++ [c]) then walk fs (here ++ [c]) rest'
    else match file_of fs here c with
         | None => Err no_such_file
         | Some bytes => match rest' with [] => Ok (FileNode bytes) | _ => Err not_a_directory end
         end
  end.

(** [fs::metadata] *)
Definition stat (fs : Tree) (p : DirPath) : result Node IoError := walk fs [] p.

(** [Path::exists] *)
Definition exists_path (fs : Tree) (p : DirPath) : bool := match stat fs p with Ok _ => true | Err _ => false end.

(** [fs::try_exists] *)
Definition try_exists (fs : Tree) (p : DirPath) : result bool IoError :=
  match stat fs p with
  | Ok _ => Ok true
  | Err e => if decide (io_kind e = NotFound) then Ok false else Err e
  end.

(** [fs::read] *)
Definition read_file (fs : Tree) (p : DirPath) : result string IoError :=
  match stat fs p with
  | Ok (FileNode bytes) => Ok bytes
  | Ok (DirNode _) => Err is_a_directory
  | Err e => Err e
  end.

(** [fs::read_to_string] *)
Definition read_to_string (fs : Tree) (p : DirPath) : result string IoError :=
  match read_file fs p with
  | Ok bytes => if is_utf8 bytes then Ok bytes else Err (MkIoError InvalidData "stream did not contain valid UTF-8")
  | Err e => Err e
  end.

(** The name of [d] in [p]. *)
Fixpoint child_of (p d : DirPath) : option string :=
  match p, d with
  | [], [c] => Some c
  | x :: p', y :: d' => if String.eqb x y then child_of p' d' else None
  | _, _ => None
  end.

Definition children (fs : Tree) (p : DirPath) : list string :=
  filtermap (fun x => child_of p (fst x)) (map_to_list fs).

(** [fs::read_dir]: the directories and the files, in no particular order *)
Definition read_dir (fs : Tree) (p : DirPath) : result (list string * list (string * string)) IoError :=
  match stat fs p with
  | Ok (DirNode files) => Ok (children fs p, map_to_list files)
  | Ok (FileNode _) => Err not_a_directory
  | Err e => Err e
  end.

(** [fs::create_dir_all]: a file in the way is found before anything is made *)
Fixpoint create_dirs (fs : Tree) (here rest : DirPath) : result unit IoError * Tree :=
  match rest with
  | [] => (Ok tt, fs)
  | c :: rest' =>
    match file_of fs here c with
    | Some _ => (Err (match rest' with [] => file_exists | _ => not_a_directory end), fs)
    | None => create_dirs (if is_dir fs (here ++ [c]) then fs else <[here ++ [c] := ∅]> fs) (here ++ [c]) rest'
    end
  end.

Definition create_dir_all (fs : Tree) (p : DirPath) : result unit IoError * Tree := create_dirs fs [] p.

(** [fs::remove_dir] *)
Definition remove_dir (fs : Tree) (p : DirPath) : result unit IoError * Tree :=
  match stat fs p with
  | Ok (DirNode files) =>
    if bool_decide (files = ∅ /\ children fs p = []) then (Ok tt, delete p fs) else (Err not_empty, fs)
  | Ok (FileNode _) => (Err not_a_directory, fs)
  | Err e => (Err e, fs)
  end.

(** The file [f] of the directory [p] as the target of a rename.
    @src src/atomic_fs.rs:68-106 [atomic_write_inner] *)
Definition atomic_write_bytes (fs : Tree) (p : DirPath) (f : string) (data : string) : result unit IoError * Tree :=
  match stat fs p with
  | Ok (DirNode files) =>
    if is_dir fs (p ++ [f]) then (Err is_a_directory, fs) else (Ok tt, <[p := <[f := data]> files]> fs)
  | Ok (FileNode _) => (Err not_a_directory, fs)
  | Err e => (Err e, fs)
  end.

(** ** Closed trees *)

(** The root exists, and every other directory is in one that exists. *)
Definition closed (fs : Tree) : Prop :=
  is_Some (fs !! []) /\ forall p c, is_Some (fs !! (p ++ [c])) -> is_Some (fs !! p).

Lemma is_dir_spec fs p : is_dir fs p = true <-> is_Some (fs !! p).
Proof. unfold is_dir. apply bool_decide_eq_true. Qed.

Lemma is_dir_none fs p : is_dir fs p = false <-> fs !! p = None.
Proof. unfold is_dir. rewrite bool_decide_eq_false, <- eq_None_not_Some. done. Qed.

Lemma closed_prefix fs p q : closed fs -> is_Some (fs !! (p ++ q)) -> is_Some (fs !! p).
Proof.
  intros Hc. induction q as [|c q IH] using rev_ind; [by rewrite app_nil_r|]. rewrite app_assoc. intros H.
  by apply Hc, IH in H.
Qed.

(** No file has the name of a component below [here]. *)
Definition clear (fs : Tree) (here rest : DirPath) : Prop :=
  forall q c r, rest = q ++ c :: r -> file_of fs (here ++ q) c = None.

Lemma clear_cons fs here c rest :
  clear fs here (c :: rest) <-> file_of fs here c = None /\ clear fs (here ++ [c]) rest.
Proof.
  unfold clear. split.
  - intros H. split; [rewrite <- (app_nil_r here) at 1; by eapply H|].
    intros q x r ->. rewrite <- app_assoc. by apply (H (c :: q) x r).
  - intros [H1 H2] [|y q] x r [= -> ->]; [by rewrite app_nil_r|]. specialize (H2 q x r eq_refl). by rewrite <- app_assoc in H2.
Qed.

Lemma walk_clear fs here rest tail :
  closed fs -> clear fs here rest -> is_Some (fs !! here) ->
  walk fs here (rest ++ tail)
  = if is_dir fs (here ++ rest) then walk fs (here ++ rest) tail else Err no_such_file.
Proof.
  intros Hc. revert here. induction rest as [|c rest IH]; intros here Hcl Hh.
  - rewrite app_nil_r. cbn [app]. by rewrite (proj2 (is_dir_spec fs here) Hh).
  - apply clear_cons in Hcl as [Hf Hcl]. cbn [app walk].
    destruct (is_dir fs (here ++ [c])) eqn:Hd.
    + apply is_dir_spec in Hd. rewrite IH by done. by rewrite <- app_assoc.
    + rewrite Hf. assert (is_dir fs (here ++ c :: rest) = false) as ->; [|done].
      apply not_true_iff_false. rewrite is_dir_spec. intros H. change (c :: rest) with ([c] ++ rest) in H.
      rewrite app_assoc in H. apply closed_prefix in H; [|done]. apply is_dir_spec in H. congruence.
Qed.

(** A path with no file in the way. *)
Lemma stat_clear fs p :
  closed fs -> clear fs [] p ->
  stat fs p = match fs !! p with Some files => Ok (DirNode files) | None => Err no_such_file end.
Proof.
  intros Hc Hp. unfold stat. rewrite <- (app_nil_r p) at 1. rewrite walk_clear by (done || apply Hc). cbn [app].
  destruct (is_dir fs p) eqn:Hd; [done|]. apply is_dir_none in Hd. by rewrite Hd.
Qed.

(** A file of such a directory. *)
Lemma stat_file fs p f :
  closed fs -> clear fs [] p -> fs !! (p ++ [f]) = None ->
  stat fs (p ++ [f]) = match file_of fs p f with Some bytes => Ok (FileNode bytes) | None => Err no_such_file end.
Proof.
  intros Hc Hp Hf. unfold stat. rewrite walk_clear by (done || apply Hc). cbn [app].
  destruct (is_dir fs p) eqn:Hd.
  - cbn [walk]. rewrite (proj2 (is_dir_none fs _) Hf). by destruct (file_of fs p f).
  - apply is_dir_none in Hd. unfold file_of. by rewrite Hd.
Qed.

Lemma child_of_spec p d c : child_of p d = Some c <-> d = p ++ [c].
Proof.
  revert d. induction p as [|x p IH]; intros [|y d]; cbn; [done| |split; [done|by intros [=]]|].
  - destruct d as [|z d]; split; try done; intros [=]; congruence.
  - destruct (String.eqb x y) eqn:He.
    + apply String.eqb_eq in He as ->. rewrite IH. split; [by intros ->|by intros [=]].
    + split; [done|]. intros [= -> _]. by rewrite String.eqb_refl in He.
Qed.

Lemma elem_of_children fs p c : c ∈ children fs p <-> is_Some (fs !! (p ++ [c])).
Proof.
  unfold children. rewrite elem_of_filtermap. split.
  - intros ([d files] & Hin & Hd). cbn [fst] in Hd. apply child_of_spec in Hd as ->. apply elem_of_map_to_list in Hin. by exists files.
  - intros [files Hf]. exists (p ++ [c], files). split; [by apply elem_of_map_to_list|]. cbn [fst]. by apply child_of_spec.
Qed.

Lemma children_NoDup fs p : NoDup (children fs p).
Proof.
  apply NoDup_filtermap; [apply NoDup_map_to_list|]. intros [d1 f1] [d2 f2] c H1 H2 Hc1 Hc2. cbn in *.
  apply child_of_spec in Hc1 as ->, Hc2 as ->. apply elem_of_map_to_list in H1, H2. congruence.
Qed.

(** *** Creating directories *)

Lemma closed_insert_dir fs p c files : closed fs -> is_Some (fs !! p) -> closed (<[p ++ [c] := files]> fs).
Proof.
  intros [Hr Hc] Hp. split; [rewrite lookup_insert_ne by (by destruct p); done|].
  intros q x. destruct (decide (p ++ [c] = q)) as [<-|Hne]; [by rewrite lookup_insert_eq|].
  rewrite (lookup_insert_ne _ _ q) by done. destruct (decide (p ++ [c] = q ++ [x])) as [He|Hne'].
  - apply app_inj_tail in He as [-> ->]. done.
  - rewrite lookup_insert_ne by done. apply Hc.
Qed.

Lemma closed_update fs p files : closed fs -> is_Some (fs !! p) -> closed (<[p := files]> fs).
Proof.
  intros [Hr Hc] Hp. split; [apply lookup_insert_is_Some'; auto|]. intros q x [->|H]%lookup_insert_is_Some'.
  - apply lookup_insert_is_Some'. right. by eapply Hc.
  - apply lookup_insert_is_Some'. right. by eapply Hc.
Qed.

(** The directories of the path that were not there are there, empty. *)
Definition with_dirs (fs : Tree) (p : DirPath) (fs' : Tree) : Prop :=
  forall d, fs' !! d = match fs !! d with
                       | Some files => Some files
                       | None => if bool_decide (d `prefix_of` p) then Some ∅ else None
                       end.

Lemma create_dirs_spec fs here rest :
  closed fs -> is_Some (fs !! here) -> clear fs here rest ->
  exists fs', create_dirs fs here rest = (Ok tt, fs') /\ closed fs'
    /\ (forall d, fs' !! d = match fs !! d with
                             | Some files => Some files
                             | None => if bool_decide (here `prefix_of` d /\ d `prefix_of` here ++ rest) then Some ∅ else None
                             end).
Proof.
  revert fs here. induction rest as [|c rest IH]; intros fs here Hc Hh Hcl.
  - exists fs. split; [done|]. split; [done|]. intros d. destruct (fs !! d) eqn:Hd; [done|].
    rewrite bool_decide_false; [done|]. rewrite app_nil_r. intros [H1 H2].
    assert (d = here) as -> by (by apply (anti_symm prefix)). rewrite Hd in Hh. by destruct Hh.
  - apply clear_cons in Hcl as [Hf Hcl]. cbn [create_dirs]. rewrite Hf.
    set (fs1 := if is_dir fs (here ++ [c]) then fs else <[here ++ [c] := ∅]> fs).
    assert (Hc1 : closed fs1) by (subst fs1; destruct (is_dir _ _); [done|by apply closed_insert_dir]).
    assert (Hl1 : forall d, fs1 !! d = match fs !! d with Some files => Some files | None => if bool_decide (d = here ++ [c]) then Some ∅ else None end).
    { intros d. subst fs1. destruct (is_dir fs (here ++ [c])) eqn:Hd.
      - destruct (fs !! d) eqn:He; [done|]. rewrite bool_decide_false; [done|]. intros ->. apply is_dir_spec in Hd.
        rewrite He in Hd. by destruct Hd.
      - apply is_dir_none in Hd. destruct (decide (here ++ [c] = d)) as [<-|Hne].
        + by rewrite lookup_insert_eq, Hd, bool_decide_true.
        + rewrite lookup_insert_ne by done. rewrite bool_decide_false by congruence. by destruct (fs !! d). }
    destruct (IH fs1 (here ++ [c])) as (fs' & He & Hc' & Hl').
    + done.
    + rewrite Hl1. destruct (fs !! (here ++ [c])); [done|]. by rewrite bool_decide_true.
    + intros q x r ->. specialize (Hcl q x r eq_refl). unfold file_of in *. rewrite Hl1.
      destruct (fs !! ((here ++ [c]) ++ q)); [done|]. case_bool_decide; [cbn; apply lookup_empty|done].
    + exists fs'. split; [done|]. split; [done|]. intros d. rewrite Hl', Hl1. destruct (fs !! d) eqn:Hd; [done|].
      rewrite <- app_assoc. cbn [app]. case_bool_decide as H1.
      * subst d. rewrite bool_decide_true; [done|]. split; [by apply prefix_app_r|].
        exists rest. by rewrite <- app_assoc.
      * apply if_decide_ext. split; intros [Ha Hb]; (split; [|done]).
        -- etrans; [|exact Ha]. by apply prefix_app_r.
        -- destruct Ha as [k ->], Hb as [l Hl]. rewrite <- app_assoc in Hl. apply app_inv_head in Hl.
           destruct k as [|y k]; [rewrite app_nil_r in Hd; rewrite Hd in Hh; by destruct Hh|].
           injection Hl as <- _. exists k. by rewrite <- app_assoc.
Qed.

Lemma create_dir_all_spec fs p :
  closed fs -> clear fs [] p ->
  exists fs', create_dir_all fs p = (Ok tt, fs') /\ closed fs' /\ with_dirs fs p fs'.
Proof.
  intros Hc Hp. destruct (create_dirs_spec fs [] p Hc (proj1 Hc) Hp) as (fs' & He & Hc' & Hl).
  exists fs'. split; [done|]. split; [done|]. intros d. rewrite Hl. destruct (fs !! d); [done|]. cbn [app].
  apply if_decide_ext. split; [by intros []|]. intros H. split; [apply prefix_nil|done].
Qed.

(** *** Writing a file *)

(** What is in a directory has no part in whether the way to it is clear. *)
Lemma clear_update fs p files : clear fs [] p -> clear (<[p := files]> fs) [] p.
Proof.
  intros Hc q c r Hp. unfold file_of. cbn [app]. rewrite lookup_insert_ne; [by apply (Hc q c r)|].
  intros He. subst q. apply (f_equal length) in Hp. rewrite length_app in Hp. cbn in Hp. lia.
Qed.

Lemma atomic_write_spec fs p f data files :
  closed fs -> clear fs [] p -> fs !! p = Some files -> fs !! (p ++ [f]) = None ->
  atomic_write_bytes fs p f data = (Ok tt, <[p := <[f := data]> files]> fs).
Proof.
  intros Hc Hp Hf Hn. unfold atomic_write_bytes. rewrite stat_clear by done. rewrite Hf.
  by rewrite (proj2 (is_dir_none fs _) Hn).
Qed.

(** *** Removing a directory *)

Lemma closed_delete fs p : closed fs -> p <> [] -> children fs p = [] -> closed (delete p fs).
Proof.
  intros [Hr Hc] Hp Hch. split; [by rewrite lookup_delete_ne|]. intros q c [files Hf].
  apply lookup_delete_Some in Hf as [Hne Hf]. assert (is_Some (fs !! q)) as Hq by (apply (Hc q c); eauto).
  rewrite lookup_delete_ne; [done|]. intros ->. assert (c ∈ children fs q) as Hin by (apply elem_of_children; eauto).
  rewrite Hch in Hin. by apply not_elem_of_nil in Hin.
Qed.
