(* ===== verification/Artifact.v ===== *)
(** * Artifacts: [src/artifact.rs]

    Versioned artifacts of a session: their data, the validation of names, the
    trait of their stores as a type class, and what the trait promises as laws
    about the histories of a store. *)
From S2P Require Export FileTree.
From Stdlib Require Import Ascii.
Open Scope string_scope.
Open Scope list_scope.
Open Scope agent_scope.

(** @src src/artifact.rs:16-31 [ArtifactError] *)
Inductive ArtifactError :=
| InvalidName (name reason : string)
| InvalidSessionId (session_id reason : string)
| PathOutsideRoot
| Storage (e : IoError)
| NotConfigured.

#[export] Instance artifact_error_eq_dec : EqDecision ArtifactError.
Proof. solve_decision. Defined.

(** @src src/artifact.rs:38-43 [ArtifactData] *)
Record ArtifactData := MkArtifactData {
  ad_content : string;
  ad_content_type : string;
  ad_metadata : gmap string string;
}.

#[export] Instance artifact_data_eq_dec : EqDecision ArtifactData.
Proof. solve_decision. Defined.

(** ** Names *)

Definition is_ascii_alphanumeric (a : ascii) : bool :=
  let n := N_of_ascii a in
  (((48 <=? n) && (n <=? 57)) || ((65 <=? n) && (n <=? 90)) || ((97 <=? n) && (n <=? 122)))%N.

Definition artifact_char (a : ascii) : bool :=
  is_ascii_alphanumeric a || existsb (Ascii.eqb a) ["-"; "_"; "."; "/"]%char.

(** [str::ends_with] *)
Definition ends_with (s p : string) : bool :=
  String.eqb (str_drop (String.length s - String.length p) s) p.

(** @src src/artifact.rs:211-259 [validate_artifact_name] *)
Definition validate_artifact_name (name : string) : result unit ArtifactError :=
  if str_is_empty name then Err (InvalidName name "name must not be empty")
  else if starts_with "/" name then Err (InvalidName name "name must not start with '/'")
  else if ends_with name "/" then Err (InvalidName name "name must not end with '/'")
  else if contains name "//" then Err (InvalidName name "name must not contain consecutive slashes")
  else if contains name "../" || contains name "/.." || String.eqb name ".."
  then Err (InvalidName name "name must not contain path traversal")
  else if negb (string_all artifact_char name)
  then Err (InvalidName name "name contains invalid characters (allowed: alphanumeric, -, _, ., /)")
  else Ok tt.

(** White space in front. *)
Definition starts_white (s : string) : bool :=
  match s with
  | "" => false
  | String a rest =>
    white1 a
    || match rest with
       | "" => false
       | String b rest =>
         white2 a b || match rest with "" => false | String c _ => white3 a b c end
       end
  end.

Definition control_char (a : ascii) : bool := ((N_of_ascii a <? 32) || (N_of_ascii a =? 127))%N.

(** @src src/artifact.rs:276-328 [validate_session_id] *)
Definition validate_artifact_session (session_id : string) : result unit ArtifactError :=
  let bad reason := Err (InvalidSessionId session_id reason) in
  if str_is_empty session_id then bad "session id must not be empty"
  else if starts_white session_id || negb (String.eqb (trim_end session_id) session_id)
  then bad "session id must not contain leading or trailing whitespace"
  else if contains session_id "/" || contains session_id "\" then bad "session id must not contain path separators"
  else if contains session_id ".." then bad "session id must not contain path traversal"
  else if negb (string_all (fun a => negb (control_char a)) session_id)
  then bad "session id must not contain control characters"
  else if contains session_id ":" then bad "session id must not contain ':'"
  else Ok tt.

Section Artifacts.
Context `{C : Chrono}.

(** @src src/artifact.rs:67-73 [ArtifactVersion] *)
Record ArtifactVersion := MkArtifactVersion {
  av_name : string;
  av_version : N;
  av_created_at : DateTime;
  av_size : nat;
  av_content_type : string;
}.

(** @src src/artifact.rs:98-104 [ArtifactMeta] *)
Record ArtifactMeta := MkArtifactMeta {
  amt_name : string;
  amt_latest_version : N;
  amt_created_at : DateTime;
  amt_updated_at : DateTime;
  amt_content_type : string;
}.

(** A version with its data. *)
Abbreviation Stored := (ArtifactData * ArtifactVersion)%type.

(** The trait: the operations on a store's state.  [save] is given the time, and
    a [list] that does not end is [None].
    @src src/artifact.rs:136-176 [ArtifactStore] *)
Class ArtifactStore (St : Type) := {
  art_save : string -> string -> ArtifactData -> DateTime -> St -> result ArtifactVersion ArtifactError * St;
  art_load : string -> string -> St -> result (option Stored) ArtifactError;
  art_load_version : string -> string -> N -> St -> result (option Stored) ArtifactError;
  art_list : string -> St -> option (result (list ArtifactMeta) ArtifactError);
  art_delete : string -> string -> St -> result unit ArtifactError * St;
}.

(** ** What the trait promises *)

(** The versions of an artifact, the oldest first. *)
Abbreviation History := (list Stored).

(** All artifacts that exist, by session and name. *)
Abbreviation Histories := (gmap (string * string) History).

Definition history (h : Histories) (session_id name : string) : History := default [] (h !! (session_id, name)).

(** The version a save makes. *)
Definition next_stored (h : History) (name : string) (data : ArtifactData) (now : DateTime) : Stored :=
  (data, MkArtifactVersion name (N.of_nat (length h) + 1) now (String.length (ad_content data)) (ad_content_type data)).

Definition save_history (h : Histories) (session_id name : string) (data : ArtifactData) (now : DateTime) : Histories :=
  <[(session_id, name) := history h session_id name ++ [next_stored (history h session_id name) name data now]]> h.

(** The summary of an artifact. *)
Definition summary (name : string) (h : History) : option ArtifactMeta :=
  match head h, last h with
  | Some first, Some latest =>
    Some (MkArtifactMeta name (av_version (snd latest)) (av_created_at (snd first)) (av_created_at (snd latest))
            (av_content_type (snd latest)))
  | _, _ => None
  end.

Definition summaries (h : Histories) (session_id : string) : list ArtifactMeta :=
  filtermap (fun '((s, name), v) => if String.eqb s session_id then summary name v else None) (map_to_list h).

Lemma summary_name n v x : summary n v = Some x -> amt_name x = n.
Proof. unfold summary. destruct (head v), (last v); try done. by intros [= <-]. Qed.

Lemma summaries_spec h s x :
  x ∈ summaries h s <-> exists n v, h !! (s, n) = Some v /\ summary n v = Some x.
Proof.
  unfold summaries. rewrite elem_of_filtermap. split.
  - intros ([[s' n] v] & Hin & Hx). apply elem_of_map_to_list in Hin. destruct (String.eqb s' s) eqn:Hs; [|done].
    apply String.eqb_eq in Hs as ->. eauto.
  - intros (n & v & Hh & Hx). exists ((s, n), v). by rewrite elem_of_map_to_list, String.eqb_refl.
Qed.

Lemma summaries_perm h s l :
  NoDup l -> (forall x, x ∈ l <-> exists n v, h !! (s, n) = Some v /\ summary n v = Some x) -> l ≡ₚ summaries h s.
Proof.
  intros Hl Hx. apply NoDup_Permutation; [done| |by intros x; rewrite Hx, summaries_spec].
  unfold summaries. apply NoDup_filtermap; [apply NoDup_map_to_list|].
  intros [[s1 n1] v1] [[s2 n2] v2] b H1 H2 Hb1 Hb2. apply elem_of_map_to_list in H1, H2.
  destruct (String.eqb s1 s) eqn:Hs1, (String.eqb s2 s) eqn:Hs2; try done.
  apply String.eqb_eq in Hs1 as ->, Hs2 as ->. apply summary_name in Hb1, Hb2. subst. congruence.
Qed.

(** A store, on sessions and names that are [usable], holds histories: every
    operation answers by them and changes them as it should. *)
Class ArtifactStoreLaws (St : Type) `{ArtifactStore St} (usable : string -> string -> Prop) := {
  holds_artifacts : St -> Histories -> Prop;
  law_save st h s n data now :
    holds_artifacts st h -> usable s n -> (N.of_nat (length (history h s n)) + 1 < u32_max)%N ->
    let '(r, st') := art_save s n data now st in
    r = Ok (snd (next_stored (history h s n) n data now)) /\ holds_artifacts st' (save_history h s n data now);
  law_load st h s n : holds_artifacts st h -> usable s n -> art_load s n st = Ok (last (history h s n));
  law_load_version st h s n v :
    holds_artifacts st h -> usable s n -> (v <= u32_max)%N ->
    art_load_version s n v st = Ok (List.find (fun x => (av_version (snd x) =? v)%N) (history h s n));
  law_list st h s : holds_artifacts st h -> (exists n, usable s n) ->
    exists l, art_list s st = Some (Ok l) /\ l ≡ₚ summaries h s;
  law_delete st h s n : holds_artifacts st h -> usable s n ->
    let '(r, st') := art_delete s n st in r = Ok tt /\ holds_artifacts st' (delete (s, n) h);
}.

End Artifacts.

Abbreviation Stored := (ArtifactData * ArtifactVersion)%type.
Abbreviation History := (list Stored).
Abbreviation Histories := (gmap (string * string) History).

(** ** Artifacts in memory: [artifacts/src/memory_store.rs]

    The store is a map of maps of version lists behind one lock, so every
    operation is one step. *)
Open Scope string_scope.
Open Scope list_scope.
Open Scope agent_scope.

Section Memory.
Context `{C : Chrono}.

Local Abbreviation VersionList := (list (ArtifactVersion * ArtifactData)).

(** @src artifacts/src/memory_store.rs:11-19 [InMemoryArtifactStore, SessionMap] *)
Record InMemoryArtifactStore := MkInMemoryArtifactStore { im_data : gmap string (gmap string VersionList) }.

(** @src artifacts/src/memory_store.rs:23-27 [new] *)
Definition memory_new : InMemoryArtifactStore := MkInMemoryArtifactStore ∅.

(** [versions.len() as u32 + 1] *)
Definition u32_next (len : nat) : N := ((N.of_nat len mod 4294967296 + 1) mod 4294967296)%N.

(** @src artifacts/src/memory_store.rs:37-72 [save] *)
Definition memory_save (session_id name : string) (data : ArtifactData) (now : DateTime) (st : InMemoryArtifactStore) :
    result ArtifactVersion ArtifactError * InMemoryArtifactStore :=
  match validate_artifact_name name with
  | Err e => (Err e, st)
  | Ok _ =>
    let session := default ∅ (im_data st !! session_id) in
    let versions := default [] (session !! name) in
    let version := MkArtifactVersion name (u32_next (length versions)) now
                     (String.length (ad_content data)) (ad_content_type data) in
    (Ok version, MkInMemoryArtifactStore (<[session_id := <[name := versions ++ [(version, data)]]> session]> (im_data st)))
  end.

Definition memory_versions (session_id name : string) (st : InMemoryArtifactStore) :
    option VersionList :=
  session ← im_data st !! session_id; session !! name.

Definition swap {A B} (x : A * B) : B * A := (snd x, fst x).

(** @src artifacts/src/memory_store.rs:74-89 [load] *)
Definition memory_load (session_id name : string) (st : InMemoryArtifactStore) : result (option Stored) ArtifactError :=
  Ok (swap <$> (memory_versions session_id name st ≫= last)).

(** @src artifacts/src/memory_store.rs:91-111 [load_version] *)
Definition memory_load_version (session_id name : string) (version : N) (st : InMemoryArtifactStore) :
    result (option Stored) ArtifactError :=
  Ok (swap <$> (memory_versions session_id name st
                ≫= List.find (fun x => (av_version (fst x) =? version)%N))).

(** A [HashMap] is listed in no particular order.
    @src artifacts/src/memory_store.rs:113-139 [list] *)
Definition memory_list (session_id : string) (st : InMemoryArtifactStore) : result (list ArtifactMeta) ArtifactError :=
  match im_data st !! session_id with
  | None => Ok []
  | Some session =>
    Ok (filtermap (fun '(name, versions) =>
          match head versions, last versions with
          | Some first, Some latest =>
            Some (MkArtifactMeta name (av_version (fst latest)) (av_created_at (fst first))
                    (av_created_at (fst latest)) (av_content_type (fst latest)))
          | _, _ => None
          end) (map_to_list session))
  end.

(** @src artifacts/src/memory_store.rs:141-154 [delete] *)
Definition memory_delete (session_id name : string) (st : InMemoryArtifactStore) :
    result unit ArtifactError * InMemoryArtifactStore :=
  match im_data st !! session_id with
  | Some session => (Ok tt, MkInMemoryArtifactStore (<[session_id := delete name session]> (im_data st)))
  | None => (Ok tt, st)
  end.

#[export] Instance memory_store : ArtifactStore InMemoryArtifactStore := {|
  art_save := memory_save;
  art_load := memory_load;
  art_load_version := memory_load_version;
  art_list session_id st := Some (memory_list session_id st);
  art_delete := memory_delete;
|}.

(** ** The laws *)

(** The versions are the history. *)
Definition memory_holds (st : InMemoryArtifactStore) (h : Histories) : Prop :=
  forall s n, memory_versions s n st = map swap <$> h !! (s, n).

Lemma swap_swap {A B} (l : list (A * B)) : map swap (map swap l) = l.
Proof. rewrite map_map. rewrite <- (map_id l) at 2. apply map_ext. by intros []. Qed.

Lemma memory_versions_put s n v session (data : gmap string (gmap string VersionList)) s' n' :
  data !! s = Some session \/ (data !! s = None /\ session = ∅) ->
  memory_versions s' n' (MkInMemoryArtifactStore (<[s := <[n := v]> session]> data))
  = if bool_decide ((s', n') = (s, n)) then Some v else memory_versions s' n' (MkInMemoryArtifactStore data).
Proof.
  intros Hs. unfold memory_versions. cbn [im_data]. destruct (decide (s' = s)) as [->|Hne].
  - rewrite lookup_insert_eq. cbn [mbind option_bind]. destruct (decide (n' = n)) as [->|Hn].
    + rewrite lookup_insert_eq, bool_decide_true by done. done.
    + rewrite lookup_insert_ne by congruence. rewrite bool_decide_false by congruence.
      destruct Hs as [-> | [-> ->]]; [done|]. cbn. apply lookup_empty.
  - rewrite lookup_insert_ne by congruence. by rewrite bool_decide_false by congruence.
Qed.

Lemma memory_save_law st h s n data now :
  memory_holds st h -> validate_artifact_name n = Ok tt -> (N.of_nat (length (history h s n)) + 1 < u32_max)%N ->
  let '(r, st') := memory_save s n data now st in
  r = Ok (snd (next_stored (history h s n) n data now)) /\ memory_holds st' (save_history h s n data now).
Proof.
  intros Hh Hn Hlen. unfold memory_save. rewrite Hn.
  assert (default [] (default ∅ (im_data st !! s) !! n) = map swap (history h s n)) as Hv.
  { unfold history. pose proof (Hh s n) as H. unfold memory_versions in H.
    destruct (im_data st !! s) as [session|]; cbn in *; [|rewrite lookup_empty]; [rewrite H|]; destruct (h !! (s, n)); done. }
  rewrite Hv, length_map. assert (u32_next (length (history h s n)) = (N.of_nat (length (history h s n)) + 1)%N) as ->.
  { unfold u32_next, u32_max in *. rewrite !N.mod_small; try lia. rewrite N.mod_small; lia. }
  split; [done|]. intros s' n'. rewrite memory_versions_put by (destruct (im_data st !! s); auto).
  unfold save_history. destruct (decide ((s', n') = (s, n))) as [[= -> ->]|Hne].
  - rewrite bool_decide_true, lookup_insert_eq by done. cbn. by rewrite map_app.
  - rewrite bool_decide_false, lookup_insert_ne by congruence. destruct st. apply Hh.
Qed.

Lemma memory_load_law st h s n : memory_holds st h -> memory_load s n st = Ok (last (history h s n)).
Proof.
  intros Hh. unfold memory_load, history. rewrite (Hh s n). destruct (h !! (s, n)) as [v|]; [|done]. cbn.
  f_equal. destruct (last v) as [x|] eqn:Hl.
  - apply last_Some in Hl as [l' ->]. rewrite map_app. cbn. rewrite last_snoc. by destruct x.
  - apply last_None in Hl as ->. done.
Qed.

Lemma memory_load_version_law st h s n version :
  memory_holds st h ->
  memory_load_version s n version st = Ok (List.find (fun x => (av_version (snd x) =? version)%N) (history h s n)).
Proof.
  intros Hh. unfold memory_load_version, history. rewrite (Hh s n). destruct (h !! (s, n)) as [v|]; [|done]. cbn.
  f_equal. induction v as [|[d x] v IH]; [done|]. cbn. destruct (av_version x =? version)%N; [done|apply IH].
Qed.

Lemma memory_delete_law st h s n :
  memory_holds st h ->
  let '(r, st') := memory_delete s n st in r = Ok tt /\ memory_holds st' (delete (s, n) h).
Proof.
  intros Hh. unfold memory_delete. destruct (im_data st !! s) as [session|] eqn:Hs.
  - split; [done|]. intros s' n'. unfold memory_versions. cbn [im_data]. pose proof (Hh s' n') as H. unfold memory_versions in H.
    destruct (decide (s' = s)) as [->|Hne].
    + rewrite lookup_insert_eq. rewrite Hs in H. cbn [mbind option_bind] in *. destruct (decide (n' = n)) as [->|Hn].
      * by rewrite !lookup_delete_eq.
      * by rewrite !lookup_delete_ne by congruence.
    + rewrite lookup_insert_ne by congruence. by rewrite lookup_delete_ne by congruence.
  - split; [done|]. intros s' n'. destruct (decide ((s', n') = (s, n))) as [[= -> ->]|Hne].
    + rewrite lookup_delete_eq. unfold memory_versions. by rewrite Hs.
    + rewrite lookup_delete_ne by congruence. apply Hh.
Qed.

Lemma memory_list_law st h s :
  memory_holds st h -> exists l, memory_list s st = Ok l /\ l ≡ₚ summaries h s.
Proof.
  intros Hh. unfold memory_list. destruct (im_data st !! s) as [session|] eqn:Hs.
  - eexists. split; [done|].
    assert (forall n v, session !! n = Some v <-> exists w, h !! (s, n) = Some w /\ v = map swap w) as Hn.
    { intros n v. pose proof (Hh s n) as H. unfold memory_versions in H. rewrite Hs in H. cbn in H. rewrite H.
      destruct (h !! (s, n)) as [w|]; cbn; [|naive_solver]. split; [intros [= <-]; eauto|intros (w' & [= <-] & ->); done]. }
    assert (forall n w, (match head (map swap w), last (map swap w) with
              | Some first, Some latest =>
                Some (MkArtifactMeta n (av_version (fst latest)) (av_created_at (fst first))
                        (av_created_at (fst latest)) (av_content_type (fst latest)))
              | _, _ => None
              end : option ArtifactMeta) = summary n w) as Hsum.
    { intros n w. unfold summary. change (map swap w) with (swap <$> w). rewrite fmap_last. destruct w as [|x w]; [done|].
      cbn [head fmap list_fmap]. by destruct (last (x :: w)). }
    apply summaries_perm.
    + apply NoDup_filtermap; [apply NoDup_map_to_list|]. intros [n1 v1] [n2 v2] b H1 H2 Hb1 Hb2.
      apply elem_of_map_to_list in H1, H2. apply Hn in H1 as Hw1, H2 as Hw2.
      destruct Hw1 as (w1 & _ & ->), Hw2 as (w2 & _ & ->). rewrite Hsum in Hb1, Hb2.
      apply summary_name in Hb1, Hb2. subst. congruence.
    + intros x. rewrite elem_of_filtermap. split.
      * intros ([n v] & Hin & Hx). apply elem_of_map_to_list, Hn in Hin as (w & Hw & ->). rewrite Hsum in Hx. eauto.
      * intros (n & w & Hw & Hx). exists (n, map swap w). rewrite elem_of_map_to_list, Hn, Hsum. eauto.
  - exists []. split; [done|]. apply summaries_perm; [constructor|]. intros x. split; [by intros ?%not_elem_of_nil|].
    intros (n & v & Hv & _). pose proof (Hh s n) as H. unfold memory_versions in H. rewrite Hs, Hv in H. done.
Qed.

Lemma memory_list_total st h s :
  memory_holds st h -> exists l, Some (memory_list s st) = Some (Ok l) /\ l ≡ₚ summaries h s.
Proof. intros Hh. destruct (memory_list_law st h s Hh) as (l & -> & Hl). eauto. Qed.

(** The store keeps what the trait promises, on every session and every valid name. *)
#[export] Instance memory_laws :
  ArtifactStoreLaws InMemoryArtifactStore (fun _ name => validate_artifact_name name = Ok tt) := {|
  holds_artifacts := memory_holds;
  law_save st h s n data now Hh Hn := memory_save_law st h s n data now Hh Hn;
  law_load st h s n Hh _ := memory_load_law st h s n Hh;
  law_load_version st h s n v Hh _ _ := memory_load_version_law st h s n v Hh;
  law_list st h s Hh _ := memory_list_total st h s Hh;
  law_delete st h s n Hh _ := memory_delete_law st h s n Hh;
|}.

Lemma memory_new_holds : memory_holds memory_new ∅.
Proof. intros s n. unfold memory_versions, memory_new. cbn [im_data]. by rewrite !lookup_empty. Qed.

End Memory.
