(* ===== verification/ArtifactFs.v ===== *)
(** * Artifacts in files: [artifacts/src/fs_store.rs], [artifacts/src/streaming.rs]

    An artifact is a directory below that of its session, with a [meta.json] and
    a file for the content of each version.  Every operation is one step: the
    store takes a lock for the artifact, in the process and between processes. *)
From stdpp Require Import sorting.
From Stdlib Require Import Ascii.
From S2P Require Export Artifact.
Open Scope string_scope.
Open Scope list_scope.
Open Scope agent_scope.

(** ** Names of files *)

(** [s.split('/')] *)
Fixpoint split_slash (s : string) : list string :=
  match s with
  | "" => [""]
  | String a s' =>
    if Ascii.eqb a "/"%char then "" :: split_slash s'
    else match split_slash s' with w :: ws => String a w :: ws | [] => [String a ""] end
  end.

(** [Path::components] of a relative path with no [".."] *)
Definition path_components (s : string) : list string :=
  filter (fun c => negb (str_is_empty c || String.eqb c ".")) (split_slash s).

(** [str::parse::<u32>] *)
Definition parse_u32 (s : string) : option N := parse_unsigned u32_max s.

(** [str::strip_suffix] *)
Definition str_strip_suffix (p s : string) : option string :=
  if ends_with s p then Some (str_take (String.length s - String.length p) s) else None.

(** @src artifacts/src/fs_store.rs:82-86 [parse_version_file_name] *)
Definition parse_version_file_name (name : string) : option N :=
  v ← str_strip_prefix "v" name;
  version ← str_strip_suffix ".bin" v;
  parse_u32 version.

Definition META : string := "meta.json".

Definition version_file (version : N) : string := ("v" ++ pretty version ++ ".bin")%string.

(** [name.replace('\\', "/")] *)
Definition slashes (s : string) : string :=
  String.string_of_list_ascii
    (map (fun a => if Ascii.eqb a "\"%char then "/"%char else a) (String.list_ascii_of_string s)).

Definition string_le (a b : string) : Prop := Is_true (String.leb a b).

#[export] Instance string_le_dec : RelDecision string_le.
Proof. intros a b. unfold string_le. apply _. Defined.

(** [Vec::dedup] *)
Fixpoint dedup (l : list string) : list string :=
  match l with
  | a :: (b :: _) as l' => if String.eqb a b then dedup l' else a :: dedup l'
  | _ => l
  end.

Section Files.
Context `{C : Chrono}.

(** @src artifacts/src/fs_store.rs:19-32 [MetaFile, VersionRecord] *)
Record VersionRecord := MkVersionRecord {
  vr_name : string;
  vr_version : N;
  vr_created_at : DateTime;
  vr_size : nat;
  vr_content_type : string;
  vr_metadata : gmap string string;
}.

Definition MetaFile : Type := list VersionRecord.

(** What [serde] derives for [MetaFile]: the text of the pretty printer is
    UTF-8, and parses back. *)
Class MetaSerde := {
  metafile_to_string_pretty : MetaFile -> string;
  metafile_from_str : string -> result MetaFile string;
  metafile_utf8 m : is_utf8 (metafile_to_string_pretty m) = true;
  metafile_parse_print m : metafile_from_str (metafile_to_string_pretty m) = Ok m;
}.

Context `{Ms : MetaSerde}.

(** @src artifacts/src/fs_store.rs:36-38 [storage_err] *)
Definition storage_err {T} (r : result T IoError) : result T ArtifactError :=
  match r with Ok t => Ok t | Err e => Err (Storage e) end.

Definition storage_invalid (text : string) : ArtifactError := Storage (MkIoError InvalidData text).

Section Store.
(** How the directory that is the root is shown in messages. *)
Variable root : string.

Definition display (p : DirPath) : string := join "/" (root :: p)%list.

(** @src artifacts/src/fs_store.rs:41-54 [missing_content_err] *)
Definition missing_content_err (session_id name : string) (version : N) (path : DirPath) : ArtifactError :=
  storage_invalid ("artifact '" ++ name ++ "' in session '" ++ session_id
    ++ "' metadata references missing content for version " ++ pretty version ++ ": " ++ display path).

(** @src artifacts/src/fs_store.rs:57-70 [orphan_content_err] *)
Definition orphan_content_err (session_id name : string) (version : N) (path : DirPath) : ArtifactError :=
  storage_invalid ("artifact '" ++ name ++ "' in session '" ++ session_id
    ++ "' has content for version " ++ pretty version ++ " without metadata membership: " ++ display path).

(** @src artifacts/src/fs_store.rs:72-80 [invalid_meta_err] *)
Definition invalid_meta_err (session_id name reason : string) : ArtifactError :=
  storage_invalid ("artifact '" ++ name ++ "' in session '" ++ session_id ++ "' has invalid metadata: " ++ reason).

(** Without symbolic links a path below the root stays there.
    @src artifacts/src/fs_store.rs:283-287 [resolve_session_dir] *)
Definition resolve_session_dir (session_id : string) : result DirPath ArtifactError :=
  match validate_artifact_session session_id with
  | Err e => Err e
  | Ok _ => Ok (path_components session_id)
  end.

(** @src artifacts/src/fs_store.rs:266-268 [artifact_dir] *)
Definition artifact_dir (session_id name : string) : DirPath := path_components session_id ++ path_components name.

(** @src artifacts/src/fs_store.rs:291-300 [resolve_artifact_dir] *)
Definition resolve_artifact_dir (session_id name : string) : result DirPath ArtifactError :=
  match validate_artifact_session session_id with
  | Err e => Err e
  | Ok _ =>
    match validate_artifact_name name with
    | Err e => Err e
    | Ok _ => Ok (artifact_dir session_id name)
    end
  end.

Definition version_path (session_id name : string) (version : N) : DirPath :=
  artifact_dir session_id name ++ [version_file version].

(** @src artifacts/src/fs_store.rs:303-317 [read_meta] *)
Definition read_meta (fs : Tree) (session_id name : string) : result MetaFile ArtifactError :=
  match resolve_artifact_dir session_id name with
  | Err e => Err e
  | Ok dir =>
    match read_to_string fs (dir ++ [META]) with
    | Ok contents =>
      match metafile_from_str contents with Ok m => Ok m | Err e => Err (Storage (MkIoError OtherKind e)) end
    | Err e => if decide (io_kind e = NotFound) then Ok [] else Err (Storage e)
    end
  end.

(** @src artifacts/src/fs_store.rs:320-336 [write_meta] *)
Definition write_meta (fs : Tree) (session_id name : string) (meta : MetaFile) : result unit ArtifactError * Tree :=
  match resolve_artifact_dir session_id name with
  | Err e => (Err e, fs)
  | Ok dir => let '(r, fs') := atomic_write_bytes fs dir META (metafile_to_string_pretty meta) in (storage_err r, fs')
  end.

(** ** Listing *)

Definition artifact_file (f : string) : bool :=
  String.eqb f META || bool_decide (is_Some (parse_version_file_name f)).

(** The components of [dir] below those of [session_dir]. *)
Fixpoint strip_dir (session_dir dir : DirPath) : option DirPath :=
  match session_dir, dir with
  | [], _ => Some dir
  | x :: p, y :: d => if String.eqb x y then strip_dir p d else None
  | _, [] => None
  end.

(** The name that a directory gives, when it is one of an artifact. *)
Definition artifact_name_of (session_dir dir : DirPath) (files : list (string * string)) : option string :=
  if existsb (fun x => artifact_file (fst x)) files then
    relative ← strip_dir session_dir dir;
    let name := join "/" relative in
    if str_is_empty name then None else Some (slashes name)
  else None.

(** The loop over the stack of directories, the next one in front.
    @src artifacts/src/fs_store.rs:349-377 [discover_artifacts: the loop] *)
Fixpoint discover_loop (fuel : nat) (fs : Tree) (session_dir : DirPath) (stack : list DirPath) (names : list string) :
    option (result (list string) ArtifactError) :=
  match stack, fuel with
  | [], _ => Some (Ok names)
  | _, 0 => None
  | dir :: stack', S fuel' =>
    match read_dir fs dir with
    | Err e => Some (Err (Storage e))
    | Ok (subdirs, files) =>
      let pushed := rev (map (fun c => dir ++ [c]) subdirs) in
      let names' := match artifact_name_of session_dir dir files with Some n => names ++ [n] | None => names end in
      discover_loop fuel' fs session_dir (pushed ++ stack') names'
    end
  end.

(** A tree has no cycle, so every directory is popped once.
    @src artifacts/src/fs_store.rs:343-383 [discover_artifacts] *)
Definition discover_artifacts (fs : Tree) (session_id : string) : option (result (list string) ArtifactError) :=
  match resolve_session_dir session_id with
  | Err e => Some (Err e)
  | Ok session_dir =>
    if negb (exists_path fs session_dir) then Some (Ok [])
    else match discover_loop (S (size fs)) fs session_dir [session_dir] [] with
         | Some (Ok names) => Some (Ok (dedup (merge_sort string_le names)))
         | r => r
         end
  end.

(** ** The content files and the metadata *)

(** The first file that is not of a known version, if any. *)
Fixpoint find_orphan (known_versions : list N) (files : list (string * string)) : option (string * N) :=
  match files with
  | [] => None
  | (f, _) :: files' =>
    match parse_version_file_name f with
    | Some version =>
      if bool_decide (version ∈ known_versions) then find_orphan known_versions files' else Some (f, version)
    | None => find_orphan known_versions files'
    end
  end.

(** @src artifacts/src/fs_store.rs:453-481 [reject_orphan_content_files] *)
Definition reject_orphan_content_files (fs : Tree) (session_id name : string) (known_versions : list N) :
    result unit ArtifactError :=
  match resolve_artifact_dir session_id name with
  | Err e => Err e
  | Ok dir =>
    match read_dir fs dir with
    | Err e => if decide (io_kind e = NotFound) then Ok tt else Err (Storage e)
    | Ok (_, files) =>
      match find_orphan known_versions files with
      | Some (f, version) => Err (orphan_content_err session_id name version (dir ++ [f]))
      | None => Ok tt
      end
    end
  end.

(** @src artifacts/src/fs_store.rs:483-496 [reject_content_files_without_metadata] *)
Definition reject_content_files_without_metadata (fs : Tree) (session_id name : string) (meta : MetaFile) :
    result unit ArtifactError :=
  reject_orphan_content_files fs session_id name (map vr_version meta).

(** @src artifacts/src/fs_store.rs:498-531 [reject_metadata_without_content_files] *)
Fixpoint reject_metadata_without_content_files (fs : Tree) (session_id name : string) (meta : MetaFile) :
    result unit ArtifactError :=
  match meta with
  | [] => Ok tt
  | record :: meta' =>
    let content_path := version_path session_id name (vr_version record) in
    match stat fs content_path with
    | Ok (FileNode _) => reject_metadata_without_content_files fs session_id name meta'
    | Ok (DirNode _) =>
      Err (storage_invalid ("artifact '" ++ name ++ "' in session '" ++ session_id
             ++ "' metadata references non-file content for version " ++ pretty (vr_version record) ++ ": "
             ++ display content_path))
    | Err e =>
      if decide (io_kind e = NotFound) then Err (missing_content_err session_id name (vr_version record) content_path)
      else Err (Storage e)
    end
  end.

(** @src artifacts/src/fs_store.rs:533-543 [reject_metadata_content_mismatch] *)
Definition reject_metadata_content_mismatch (fs : Tree) (session_id name : string) (meta : MetaFile) :
    result unit ArtifactError :=
  match reject_content_files_without_metadata fs session_id name meta with
  | Err e => Err e
  | Ok _ => reject_metadata_without_content_files fs session_id name meta
  end.

(** The versions from [expected] on, without a gap, and the one after them.
    @src artifacts/src/fs_store.rs:551-568 [next_version: the loop] *)
Fixpoint expected_version (session_id name : string) (expected : N) (meta : MetaFile) : result N ArtifactError :=
  match meta with
  | [] => Ok expected
  | record :: meta' =>
    if negb (vr_version record =? expected)%N then
      Err (invalid_meta_err session_id name
             ("expected version " ++ pretty expected ++ " in sequence, found version " ++ pretty (vr_version record)))
    else if (expected =? u32_max)%N then
      Err (invalid_meta_err session_id name "version sequence exceeds u32 range")
    else expected_version session_id name (expected + 1) meta'
  end.

(** @src artifacts/src/fs_store.rs:545-576 [next_version] *)
Definition next_version (fs : Tree) (session_id name : string) (meta : MetaFile) : result N ArtifactError :=
  match expected_version session_id name 1 meta with
  | Err e => Err e
  | Ok expected =>
    match reject_orphan_content_files fs session_id name (map vr_version meta) with
    | Err e => Err e
    | Ok _ =>
      match reject_metadata_without_content_files fs session_id name meta with
      | Err e => Err e
      | Ok _ => Ok expected
      end
    end
  end.

(** ** Saving *)

(** @src artifacts/src/fs_store.rs:439-451 [rollback_version_file] *)
Definition rollback_version_file (fs : Tree) (dir : DirPath) (f : string) : Tree :=
  match stat fs (dir ++ [f]), fs !! dir with
  | Ok (FileNode _), Some files => <[dir := delete f files]> fs
  | _, _ => fs
  end.

(** The metadata after the content: what both kinds of save end with. *)
Definition commit_version (fs : Tree) (session_id name : string) (dir : DirPath) (meta : MetaFile) (record : VersionRecord) :
    result ArtifactVersion ArtifactError * Tree :=
  match write_meta fs session_id name (meta ++ [record]) with
  | (Err e, fs') => (Err e, rollback_version_file fs' dir (version_file (vr_version record)))
  | (Ok _, fs') =>
    (Ok (MkArtifactVersion (vr_name record) (vr_version record) (vr_created_at record) (vr_size record)
           (vr_content_type record)), fs')
  end.

(** The content of the next version: what a save does before it touches the metadata. *)
Definition write_content (session_id name : string) (data : ArtifactData) (now : DateTime) (dir : DirPath) (fs : Tree) :
    result (MetaFile * VersionRecord) ArtifactError * Tree :=
  match read_meta fs session_id name with
  | Err e => (Err e, fs)
  | Ok meta =>
    match next_version fs session_id name meta with
    | Err e => (Err e, fs)
    | Ok next =>
      let record := MkVersionRecord name next now (String.length (ad_content data)) (ad_content_type data) (ad_metadata data) in
      match atomic_write_bytes fs dir (version_file next) (ad_content data) with
      | (Err e, fs') => (Err (Storage e), fs')
      | (Ok _, fs') => (Ok (meta, record), fs')
      end
    end
  end.

(** From when the directory is there. *)
Definition save_created (session_id name : string) (data : ArtifactData) (now : DateTime) (dir : DirPath) (fs : Tree) :
    result ArtifactVersion ArtifactError * Tree :=
  match write_content session_id name data now dir fs with
  | (Err e, fs') => (Err e, fs')
  | (Ok (meta, record), fs') => commit_version fs' session_id name dir meta record
  end.

(** @src artifacts/src/fs_store.rs:580-645 [save] *)
Definition fs_save (session_id name : string) (data : ArtifactData) (now : DateTime) (fs : Tree) :
    result ArtifactVersion ArtifactError * Tree :=
  match resolve_artifact_dir session_id name with
  | Err e => (Err e, fs)
  | Ok dir =>
    match create_dir_all fs dir with
    | (Err e, fs') => (Err (Storage e), fs')
    | (Ok _, fs') => save_created session_id name data now dir fs'
    end
  end.

(** The chunks of a stream up to an error; the temporary file is gone after one.
    @src artifacts/src/streaming.rs:44-79 [write_stream_to_temp_file] *)
Fixpoint stream_content (stream : list (result string ArtifactError)) : result string ArtifactError :=
  match stream with
  | [] => Ok ""
  | Err e :: _ => Err e
  | Ok bytes :: stream' =>
    match stream_content stream' with Ok rest => Ok (bytes ++ rest)%string | Err e => Err e end
  end.

(** @src artifacts/src/streaming.rs:82-138 [save_stream] *)
Definition save_stream (session_id name content_type : string) (metadata : gmap string string)
    (stream : list (result string ArtifactError)) (now : DateTime) (fs : Tree) :
    result ArtifactVersion ArtifactError * Tree :=
  match resolve_artifact_dir session_id name with
  | Err e => (Err e, fs)
  | Ok dir =>
    match create_dir_all fs dir with
    | (Err e, fs') => (Err (Storage e), fs')
    | (Ok _, fs') =>
      match read_meta fs' session_id name with
      | Err e => (Err e, fs')
      | Ok meta =>
        match next_version fs' session_id name meta with
        | Err e => (Err e, fs')
        | Ok next =>
          match stream_content stream with
          | Err e => (Err e, fs')
          | Ok content =>
            let record := MkVersionRecord name next now (String.length content) content_type metadata in
            match atomic_write_bytes fs' dir (version_file next) content with
            | (Err e, fs'') => (Err (Storage e), fs'')
            | (Ok _, fs'') => commit_version fs'' session_id name dir meta record
            end
          end
        end
      end
    end
  end.

(** ** Loading *)

(** The metadata of an artifact whose files agree with it. *)
Definition checked_meta (fs : Tree) (session_id name : string) : result MetaFile ArtifactError :=
  match resolve_artifact_dir session_id name with
  | Err e => Err e
  | Ok _ =>
    match read_meta fs session_id name with
    | Err e => Err e
    | Ok meta =>
      match reject_metadata_content_mismatch fs session_id name meta with
      | Err e => Err e
      | Ok _ => Ok meta
      end
    end
  end.

(** The content of a version, or the error of a missing file. *)
Definition read_content (fs : Tree) (session_id name : string) (version : N) : result string ArtifactError :=
  match read_file fs (version_path session_id name version) with
  | Ok bytes => Ok bytes
  | Err e =>
    if decide (io_kind e = NotFound)
    then Err (missing_content_err session_id name version (version_path session_id name version))
    else Err (Storage e)
  end.

Definition stored_of (record : VersionRecord) (content : string) : Stored :=
  (MkArtifactData content (vr_content_type record) (vr_metadata record),
   MkArtifactVersion (vr_name record) (vr_version record) (vr_created_at record) (vr_size record) (vr_content_type record)).

(** @src artifacts/src/fs_store.rs:647-705 [load] *)
Definition fs_load (session_id name : string) (fs : Tree) : result (option Stored) ArtifactError :=
  match checked_meta fs session_id name with
  | Err e => Err e
  | Ok meta =>
    match last meta with
    | None => Ok None
    | Some record =>
      match read_content fs session_id name (vr_version record) with
      | Err e => Err e
      | Ok content => Ok (Some (stored_of record content))
      end
    end
  end.

(** The record of a version; content without a record is an error. *)
Definition find_record (fs : Tree) (session_id name : string) (version : N) (meta : MetaFile) :
    result (option VersionRecord) ArtifactError :=
  match List.find (fun r => (vr_version r =? version)%N) meta with
  | Some record => Ok (Some record)
  | None =>
    match try_exists fs (version_path session_id name version) with
    | Err e => Err (Storage e)
    | Ok true => Err (orphan_content_err session_id name version (version_path session_id name version))
    | Ok false => Ok None
    end
  end.

(** @src artifacts/src/fs_store.rs:707-763 [load_version] *)
Definition fs_load_version (session_id name : string) (version : N) (fs : Tree) : result (option Stored) ArtifactError :=
  match checked_meta fs session_id name with
  | Err e => Err e
  | Ok meta =>
    match find_record fs session_id name version meta with
    | Err e => Err e
    | Ok None => Ok None
    | Ok (Some record) =>
      match read_content fs session_id name version with
      | Err e => Err e
      | Ok content => Ok (Some (stored_of record content))
      end
    end
  end.

(** The bytes of the stream, read from the file that was opened.
    @src artifacts/src/streaming.rs:140-212 [load_stream] *)
Definition load_stream (session_id name : string) (version : option N) (fs : Tree) : result (option string) ArtifactError :=
  match checked_meta fs session_id name with
  | Err e => Err e
  | Ok meta =>
    match match version with
          | Some version => find_record fs session_id name version meta
          | None => Ok (last meta)
          end with
    | Err e => Err e
    | Ok None => Ok None
    | Ok (Some record) =>
      match read_content fs session_id name (vr_version record) with
      | Err e => Err e
      | Ok content => Ok (Some content)
      end
    end
  end.

(** @src artifacts/src/fs_store.rs:772-793 [list: the loop (brace)] *)
Fixpoint list_metas (fs : Tree) (session_id : string) (names : list string) : result (list ArtifactMeta) ArtifactError :=
  match names with
  | [] => Ok []
  | name :: names' =>
    match read_meta fs session_id name with
    | Err e => Err e
    | Ok meta =>
      match reject_metadata_content_mismatch fs session_id name meta with
      | Err e => Err e
      | Ok _ =>
        match list_metas fs session_id names' with
        | Err e => Err e
        | Ok metas =>
          match head meta, last meta with
          | Some first, Some latest =>
            Ok (MkArtifactMeta name (vr_version latest) (vr_created_at first) (vr_created_at latest) (vr_content_type latest)
                  :: metas)
          | _, _ => Ok metas
          end
        end
      end
    end
  end.

(** @src artifacts/src/fs_store.rs:765-795 [list] *)
Definition fs_list (session_id : string) (fs : Tree) : option (result (list ArtifactMeta) ArtifactError) :=
  names ← discover_artifacts fs session_id;
  match names with
  | Err e => Some (Err e)
  | Ok names => Some (list_metas fs session_id names)
  end.

(** ** Deleting *)

(** @src artifacts/src/fs_store.rs:389-410 [delete_artifact_files] *)
Definition delete_artifact_files (fs : Tree) (dir : DirPath) : result unit ArtifactError * Tree :=
  match read_dir fs dir with
  | Ok _ => (Ok tt, <[dir := ∅]> fs)
  | Err e => if decide (io_kind e = NotFound) then (Ok tt, fs) else (Err (Storage e), fs)
  end.

(** From the directory of the artifact up: the components below the session's, the last one first.
    @src artifacts/src/fs_store.rs:422-434 [prune_empty_artifact_dirs: the loop] *)
Fixpoint prune_up (fs : Tree) (session_dir : DirPath) (up : list string) : result unit ArtifactError * Tree :=
  match up with
  | [] => (Ok tt, fs)
  | _ :: up' =>
    match remove_dir fs (session_dir ++ rev up) with
    | (Ok _, fs') => prune_up fs' session_dir up'
    | (Err e, fs') =>
      if decide (io_kind e = NotFound) then prune_up fs' session_dir up'
      else if decide (io_kind e = DirectoryNotEmpty) then (Ok tt, fs')
      else (Err (Storage e), fs')
    end
  end.

(** @src artifacts/src/fs_store.rs:414-437 [prune_empty_artifact_dirs] *)
Definition prune_empty_artifact_dirs (fs : Tree) (session_id name : string) : result unit ArtifactError * Tree :=
  prune_up fs (path_components session_id) (rev (path_components name)).

(** @src artifacts/src/fs_store.rs:797-814 [delete] *)
Definition fs_delete (session_id name : string) (fs : Tree) : result unit ArtifactError * Tree :=
  match resolve_artifact_dir session_id name with
  | Err e => (Err e, fs)
  | Ok dir =>
    match delete_artifact_files fs dir with
    | (Err e, fs') => (Err e, fs')
    | (Ok _, fs') => prune_empty_artifact_dirs fs' session_id name
    end
  end.

(** The root is there from the start.
    @src artifacts/src/fs_store.rs:203-207 [try_new] *)
Definition fs_new : Tree := {[ [] := ∅ ]}.

#[export] Instance fs_store : ArtifactStore Tree := {|
  art_save := fs_save;
  art_load := fs_load;
  art_load_version := fs_load_version;
  art_list := fs_list;
  art_delete := fs_delete;
|}.

End Store.
End Files.

(** ** The names of the artifact files

    Splitting and joining the components of a name, and the names of the content
    files: a version number that is printed is parsed back. *)
Open Scope string_scope.
Open Scope list_scope.
Open Scope agent_scope.

(** ** Components *)

Definition no_slash : string -> bool := string_all (fun a => negb (Ascii.eqb a "/"%char)).

Lemma split_slash_ne s : split_slash s <> [].
Proof.
  destruct s as [|a s]; [done|]. cbn. destruct (Ascii.eqb a "/"%char); [done|]. by destruct (split_slash s).
Qed.

Lemma split_no_slash s : Forall (fun c => no_slash c = true) (split_slash s).
Proof.
  induction s as [|a s IH]; [by repeat constructor|]. cbn. destruct (Ascii.eqb a "/"%char) eqn:Ha.
  - by constructor.
  - destruct (split_slash s) as [|w ws]; [repeat constructor; unfold no_slash; cbn; by rewrite Ha|].
    apply Forall_cons in IH as [Hw Hws]. constructor; [|done]. unfold no_slash in *. cbn. by rewrite Ha.
Qed.

Lemma join_slash_cons c cs : cs <> [] -> join "/" (c :: cs) = (c ++ String "/"%char (join "/" cs))%string.
Proof. by destruct cs. Qed.

Lemma join_split s : join "/" (split_slash s) = s.
Proof.
  induction s as [|a s IH]; [done|]. cbn [split_slash]. destruct (Ascii.eqb a "/"%char) eqn:Ha.
  - apply Ascii.eqb_eq in Ha as ->. rewrite join_slash_cons by apply split_slash_ne. by rewrite IH.
  - destruct (split_slash s) as [|w ws] eqn:Hs; [by apply split_slash_ne in Hs|].
    rewrite <- IH. destruct ws as [|w' ws]; [done|].
    rewrite (join_slash_cons w), (join_slash_cons (String a w)) by done. by rewrite string_app_cons.
Qed.

Lemma split_slash_app c s :
  no_slash c = true -> split_slash (c ++ String "/"%char s) = c :: split_slash s.
Proof.
  induction c as [|a c IH]; [done|]. unfold no_slash in *. cbn. rewrite andb_true_iff, negb_true_iff. intros [Ha Hc].
  rewrite string_app_cons. cbn [split_slash]. by rewrite Ha, (IH Hc).
Qed.

Lemma split_slash_one c : no_slash c = true -> split_slash c = [c].
Proof.
  induction c as [|a c IH]; [done|]. unfold no_slash in *. cbn. rewrite andb_true_iff, negb_true_iff. intros [Ha Hc].
  by rewrite Ha, (IH Hc).
Qed.

Lemma split_join cs : cs <> [] -> Forall (fun c => no_slash c = true) cs -> split_slash (join "/" cs) = cs.
Proof.
  intros Hne. induction 1 as [|c cs Hc Hcs IH]; [done|]. destruct cs as [|c' cs]; [by apply split_slash_one|].
  rewrite join_slash_cons, split_slash_app by done. by rewrite IH.
Qed.

Lemma contains_slash s : contains s "/" = false -> no_slash s = true.
Proof.
  induction s as [|a s IH]; [done|]. cbn. rewrite !orb_false_iff, andb_false_iff. intros [Ha Hs].
  unfold no_slash in *. cbn. rewrite (IH Hs), andb_true_r. apply negb_true_iff. rewrite Ascii.eqb_sym. by destruct Ha.
Qed.

(** ** Version numbers *)

Lemma parse_u32_pretty n : (n <= u32_max)%N -> parse_u32 (pretty n) = Some n.
Proof. apply parse_unsigned_pretty. Qed.

Lemma strip_suffix_app s p : str_strip_suffix p (s ++ p) = Some s.
Proof.
  unfold str_strip_suffix, ends_with. rewrite string_app_length.
  replace (String.length s + String.length p - String.length p) with (String.length s) by lia.
  rewrite str_drop_app, str_drop_ge, Nat.sub_diag, str_drop_0, string_app_nil_l, String.eqb_refl by lia.
  by rewrite str_take_app, Nat.sub_diag, str_take_0, string_app_nil_r, str_take_ge by lia.
Qed.

Lemma parse_version_file n : (n <= u32_max)%N -> parse_version_file_name (version_file n) = Some n.
Proof.
  intros Hn. unfold parse_version_file_name, version_file. rewrite str_strip_prefix_app. cbn [mbind option_bind].
  rewrite strip_suffix_app. cbn [mbind option_bind]. by apply parse_u32_pretty.
Qed.

Lemma version_file_inj n m :
  (n <= u32_max)%N -> (m <= u32_max)%N -> version_file n = version_file m -> n = m.
Proof. intros Hn Hm He. apply parse_version_file in Hn, Hm. congruence. Qed.

Lemma meta_not_version n : META <> version_file n.
Proof. done. Qed.

Lemma parse_meta : parse_version_file_name META = None.
Proof. done. Qed.

(** ** Backslashes *)

Lemma slashes_id s : string_all artifact_char s = true -> slashes s = s.
Proof.
  unfold slashes. induction s as [|a s IH]; [done|]. cbn. rewrite andb_true_iff. intros [Ha Hs].
  rewrite (IH Hs). destruct (Ascii.eqb a "\"%char) eqn:He; [|done]. by apply Ascii.eqb_eq in He as ->.
Qed.

(** ** Sorted names *)

Lemma dedup_NoDup l : NoDup l -> dedup l = l.
Proof.
  induction 1 as [|a l Ha Hl IH]; [done|]. destruct l as [|b l]; [done|].
  change (dedup (a :: b :: l)) with (if String.eqb a b then dedup (b :: l) else a :: dedup (b :: l)).
  destruct (String.eqb a b) eqn:He; [apply String.eqb_eq in He as ->; set_solver|]. by rewrite IH.
Qed.
