(* ===== verification/ArtifactFsSpec.v ===== *)
(** * The file store keeps what the trait promises

    On the sessions and names that keep clear of ["."] and of the store's own
    file names, the tree of directories holds the histories of the artifacts. *)
From stdpp Require Import sorting.
From Stdlib Require Import Ascii.
From S2P Require Export ArtifactFs.
Open Scope string_scope.
Open Scope list_scope.
Open Scope agent_scope.

(** A component that the store can tell from its own files and from the
    directory itself. *)
Definition good_comp (c : string) : bool :=
  negb (str_is_empty c || String.eqb c ".") && no_slash c && negb (artifact_file c).

(** Every component of the name is good. *)
Definition good_name (n : string) : bool := forallb good_comp (split_slash n).

Definition file_usable (s n : string) : Prop :=
  validate_artifact_session s = Ok tt /\ s <> "." /\ validate_artifact_name n = Ok tt /\ good_name n = true.

#[export] Instance file_usable_dec s n : Decision (file_usable s n).
Proof. unfold file_usable. apply _. Defined.

Abbreviation GoodComps := (Forall (fun c => good_comp c = true)).

Lemma good_name_comps n : good_name n = true <-> GoodComps (split_slash n).
Proof.
  unfold good_name. induction (split_slash n) as [|c cs IH]; cbn; [by split|].
  by rewrite andb_true_iff, Forall_cons, IH.
Qed.

Lemma good_comps_no_slash cs : GoodComps cs -> Forall (fun c => no_slash c = true) cs.
Proof.
  intros H. eapply Forall_impl; [exact H|]. intros c. unfold good_comp. rewrite !andb_true_iff. by intros [[_ Hc] _].
Qed.

Lemma good_comp_not_file c : good_comp c = true -> artifact_file c = false.
Proof. unfold good_comp. rewrite !andb_true_iff. intros [_ H]. by apply negb_true_iff. Qed.

Lemma filter_all (P : string -> bool) l : Forall (fun c => P c = true) l -> filter (fun c => P c) l = l.
Proof.
  induction 1 as [|c l Hc _ IH]; [done|]. rewrite filter_cons_True by (by rewrite Hc). by rewrite IH.
Qed.

Lemma session_components s : validate_artifact_session s = Ok tt -> s <> "." -> path_components s = [s].
Proof.
  intros Hs Hdot. unfold validate_artifact_session in Hs. destruct (str_is_empty s) eqn:He; [done|].
  destruct (starts_white s || negb (String.eqb (trim_end s) s)); [done|].
  destruct (contains s "/") eqn:Hc; [done|]. unfold path_components.
  rewrite split_slash_one by (by apply contains_slash). apply filter_all. repeat constructor.
  rewrite He. cbn. apply negb_true_iff, not_true_iff_false. by rewrite String.eqb_eq.
Qed.

Lemma name_components n : good_name n = true -> path_components n = split_slash n.
Proof.
  rewrite good_name_comps. intros Hn. apply filter_all. eapply Forall_impl; [exact Hn|].
  intros c. unfold good_comp. rewrite !andb_true_iff. by intros [[Hc _] _].
Qed.

Lemma name_chars n : validate_artifact_name n = Ok tt -> string_all artifact_char n = true.
Proof. unfold validate_artifact_name. repeat case_match; try done. by rewrite <- negb_false_iff. Qed.

Section Spec.
Context `{C : Chrono} `{Ms : !MetaSerde}.
Variable root : string.

(** ** The files of a history *)

Definition record_of (x : Stored) : VersionRecord :=
  let '(data, v) := x in
  MkVersionRecord (av_name v) (av_version v) (av_created_at v) (av_size v) (av_content_type v) (ad_metadata data).

Definition content_file (x : Stored) : string * string := (version_file (av_version (snd x)), ad_content (fst x)).

Definition content_files (v : History) : Files := list_to_map (map content_file v).

(** The directory of an artifact with this history. *)
Definition history_files (v : History) : Files :=
  match v with
  | [] => ∅
  | _ => <[META := metafile_to_string_pretty (map record_of v)]> (content_files v)
  end.

(** A version as a save makes it. *)
Definition stored_ok (n : string) (k : N) (x : Stored) : Prop :=
  av_name (snd x) = n /\ av_version (snd x) = k /\ av_size (snd x) = String.length (ad_content (fst x))
  /\ av_content_type (snd x) = ad_content_type (fst x).

(** The versions are numbered from one, and there is room for one more. *)
Definition wf_history (n : string) (v : History) : Prop :=
  (N.of_nat (length v) < u32_max)%N /\ forall i x, v !! i = Some x -> stored_ok n (N.of_nat i + 1) x.

Lemma wf_history_nil n : wf_history n [].
Proof. split; [done|]. intros i x. by rewrite lookup_nil. Qed.

Lemma wf_history_snoc n v data now :
  wf_history n v -> (N.of_nat (length v) + 1 < u32_max)%N -> wf_history n (v ++ [next_stored v n data now]).
Proof.
  intros [Hl Hv] Hlen. split; [rewrite length_app; cbn; lia|]. intros i x [Hi|[Hle Hi]]%lookup_app_Some; [by apply Hv|].
  apply list_lookup_singleton_Some in Hi as [Hi <-]. unfold next_stored, stored_ok. cbn. repeat split; try done. lia.
Qed.

Lemma wf_elem n v x : wf_history n v -> x ∈ v -> stored_ok n (av_version (snd x)) x /\ (1 <= av_version (snd x) <= N.of_nat (length v))%N.
Proof.
  intros [_ Hv] [i Hi]%list_elem_of_lookup. pose proof (lookup_lt_Some _ _ _ Hi) as Hlt. apply Hv in Hi as Hx.
  destruct Hx as (H1 & H2 & H3). split; [by split_and!; [..|apply H3|apply H3]|lia].
Qed.

Lemma wf_small n v x : wf_history n v -> x ∈ v -> (av_version (snd x) <= u32_max)%N.
Proof. intros Hv Hx. apply (wf_elem n v x Hv) in Hx as [_ Hx]. destruct Hv as [Hl _]. lia. Qed.

Lemma stored_record n k x : stored_ok n k x -> stored_of (record_of x) (ad_content (fst x)) = x.
Proof. destruct x as [[c ct md] [vn vv vc vs vt]]. unfold stored_ok, stored_of. cbn. by intros (-> & -> & -> & ->). Qed.

Lemma content_file_eq f b x : (f, b) = content_file x <-> f = version_file (av_version (snd x)) /\ b = ad_content (fst x).
Proof. apply pair_equal_spec. Qed.

Lemma content_files_lookup n v f b :
  wf_history n v -> content_files v !! f = Some b <-> exists x, x ∈ v /\ f = version_file (av_version (snd x)) /\ b = ad_content (fst x).
Proof.
  intros Hv. unfold content_files. rewrite <- elem_of_list_to_map.
  - rewrite list_elem_of_fmap. setoid_rewrite content_file_eq. naive_solver.
  - apply NoDup_fmap_fst.
    + intros f' b1 b2 (x1 & E1 & H1)%list_elem_of_fmap (x2 & E2 & H2)%list_elem_of_fmap.
      apply content_file_eq in E1 as [-> ->], E2 as [He ->].
      apply version_file_inj in He; [|by eapply wf_small..].
      apply list_elem_of_lookup in H1 as [i1 H1], H2 as [i2 H2]. destruct Hv as [_ Hv].
      destruct (Hv _ _ H1) as (_ & N1 & _), (Hv _ _ H2) as (_ & N2 & _). assert (i1 = i2) as -> by lia. congruence.
    + apply NoDup_alt. intros i j y Hi Hj. change (map content_file v) with (content_file <$> v) in *.
      rewrite list_lookup_fmap in Hi, Hj. destruct (v !! i) as [x1|] eqn:H1; [|done]. destruct (v !! j) as [x2|] eqn:H2; [|done].
      change (Some (content_file x1) = Some y) in Hi. change (Some (content_file x2) = Some y) in Hj.
      apply (inj Some) in Hi as <-. apply (inj Some) in Hj as Hj. symmetry in Hj. apply content_file_eq in Hj as [He _].
      apply version_file_inj in He; [|eapply wf_small; [done|by eapply list_elem_of_lookup_2]..].
      destruct Hv as [_ Hv]. destruct (Hv _ _ H1) as (_ & E1 & _), (Hv _ _ H2) as (_ & E2 & _). lia.
Qed.

Lemma history_files_lookup n v f b :
  wf_history n v -> history_files v !! f = Some b ->
  v <> [] /\ ((f = META /\ b = metafile_to_string_pretty (map record_of v))
              \/ exists x, x ∈ v /\ f = version_file (av_version (snd x)) /\ b = ad_content (fst x)).
Proof.
  intros Hv Hf. destruct v as [|x v]; [unfold history_files in Hf; by rewrite lookup_empty in Hf|]. split; [done|].
  unfold history_files in Hf. apply lookup_insert_Some in Hf as [[<- <-]|[_ Hf]]; [by left|].
  right. by apply (content_files_lookup n) in Hf.
Qed.

Lemma history_meta v : v <> [] -> history_files v !! META = Some (metafile_to_string_pretty (map record_of v)).
Proof. destruct v; [done|]. intros _. apply lookup_insert_eq. Qed.

Lemma history_content n v x :
  wf_history n v -> x ∈ v -> history_files v !! version_file (av_version (snd x)) = Some (ad_content (fst x)).
Proof.
  intros Hv Hx. destruct v as [|y v]; [by apply not_elem_of_nil in Hx|]. unfold history_files.
  rewrite lookup_insert_ne by apply meta_not_version. apply (content_files_lookup n); eauto.
Qed.

Lemma history_files_artifact n v f b : wf_history n v -> history_files v !! f = Some b -> artifact_file f = true.
Proof.
  intros Hv Hf. apply (history_files_lookup n) in Hf as [_ [[-> _]|(x & Hx & -> & _)]]; [done| |done].
  unfold artifact_file. rewrite parse_version_file by (by eapply wf_small). apply orb_true_r.
Qed.

Lemma history_files_empty v : history_files v = ∅ <-> v = [].
Proof.
  split; [|by intros ->]. intros H. destruct v as [|x v]; [done|]. unfold history_files in H. by apply insert_non_empty in H.
Qed.

Lemma history_files_snoc n v x :
  wf_history n (v ++ [x]) ->
  history_files (v ++ [x])
  = <[META := metafile_to_string_pretty (map record_of v ++ [record_of x])]>
      (<[version_file (av_version (snd x)) := ad_content (fst x)]> (history_files v)).
Proof.
  intros Hv.
  assert (content_files (v ++ [x]) = <[version_file (av_version (snd x)) := ad_content (fst x)]> (content_files v)) as Hc.
  { unfold content_files. rewrite map_app. cbn [map]. unfold content_file at 2. apply list_to_map_snoc.
    intros ([f b] & Hf & Hy)%list_elem_of_fmap. cbn in Hf. subst f.
    apply list_elem_of_fmap in Hy as (y & E & Hy). apply content_file_eq in E as [He _].
    apply version_file_inj in He; [|eapply (wf_small n); [exact Hv|set_solver]..].
    apply list_elem_of_lookup in Hy as [i Hi]. destruct Hv as [_ Hv]. pose proof (lookup_lt_Some _ _ _ Hi).
    destruct (Hv i y) as (_ & E1 & _); [by rewrite lookup_app_l|].
    destruct (Hv (length v) x) as (_ & E2 & _); [by rewrite lookup_app_r, Nat.sub_diag by lia|]. lia. }
  destruct v as [|y v].
  - unfold history_files. cbn [app]. change ([x]) with ([] ++ [x]). by rewrite Hc.
  - unfold history_files at 2. unfold history_files. cbn [app] in *. rewrite Hc.
    rewrite (insert_insert_ne _ (version_file _)) by (symmetry; apply meta_not_version).
    rewrite insert_insert_eq. by rewrite app_comm_cons, map_app.
Qed.

(** ** The tree of the histories *)

(** The files of a directory: none in the root and in the directory of a
    session, the history's in the others. *)
Definition dir_files (h : Histories) (d : DirPath) : Files :=
  match d with
  | s :: ((_ :: _) as cs) => history_files (history h s (join "/" cs))
  | _ => ∅
  end.

Record fs_holds (fs : Tree) (h : Histories) : Prop := {
  fh_closed : closed fs;
  fh_dirs d files : fs !! d = Some files -> files = dir_files h d /\ GoodComps (tail d);
  fh_hist s n v : h !! (s, n) = Some v ->
    file_usable s n /\ v <> [] /\ wf_history n v /\ is_Some (fs !! (s :: split_slash n));
}.

Lemma dir_files_name h s n : dir_files h (s :: split_slash n) = history_files (history h s n).
Proof.
  unfold dir_files. destruct (split_slash n) as [|c cs] eqn:Hn; [by apply split_slash_ne in Hn|].
  by rewrite <- Hn, join_split.
Qed.

Lemma usable_dir s n : file_usable s n -> resolve_artifact_dir s n = Ok (s :: split_slash n).
Proof.
  intros (Hs & Hdot & Hn & Hg). unfold resolve_artifact_dir, artifact_dir. rewrite Hs, Hn.
  by rewrite session_components, name_components.
Qed.

Lemma usable_comps s n : file_usable s n -> GoodComps (split_slash n).
Proof. intros (_ & _ & _ & Hg). by apply good_name_comps. Qed.

Section Holds.
Context (fs : Tree) (h : Histories) (Hh : fs_holds fs h).

Lemma holds_wf s n : wf_history n (history h s n).
Proof.
  unfold history. destruct (h !! (s, n)) as [v|] eqn:Hv; [|apply wf_history_nil]. by apply (fh_hist _ _ Hh) in Hv as (_ & _ & Hw & _).
Qed.

(** No file of the store is in the way of a good path. *)
Lemma holds_clear s cs : GoodComps cs -> clear fs [] (s :: cs).
Proof.
  intros Hcs q c r He. unfold file_of. cbn [app]. destruct (fs !! q) as [files|] eqn:Hq; [|done]. cbn.
  apply (fh_dirs _ _ Hh) in Hq as [-> _]. destruct q as [|s' q]; [by cbn; apply lookup_empty|].
  injection He as <- ->. destruct q as [|c' q]; [by cbn; apply lookup_empty|].
  apply eq_None_not_Some. intros [b Hb]. apply (history_files_artifact (join "/" (c' :: q))) in Hb; [|apply holds_wf].
  apply Forall_app in Hcs as [_ Hcs]. apply Forall_cons in Hcs as [Hc _]. apply good_comp_not_file in Hc. congruence.
Qed.

(** A name of the store's own files is not one of a directory. *)
Lemma holds_no_dir s cs f : artifact_file f = true -> fs !! (s :: cs ++ [f]) = None.
Proof.
  intros Hf. apply eq_None_not_Some. intros [files Hd]. apply (fh_dirs _ _ Hh) in Hd as [_ Hg]. cbn in Hg.
  apply Forall_app in Hg as [_ Hg]. apply Forall_cons in Hg as [Hg _]. apply good_comp_not_file in Hg. congruence.
Qed.

Context (s n : string) (Hu : file_usable s n).

Lemma holds_dir :
  match fs !! (s :: split_slash n) with
  | Some files => files = history_files (history h s n)
  | None => history h s n = []
  end.
Proof.
  destruct (fs !! (s :: split_slash n)) as [files|] eqn:Hd.
  - apply (fh_dirs _ _ Hh) in Hd as [-> _]. apply dir_files_name.
  - unfold history. destruct (h !! (s, n)) as [v|] eqn:Hv; [|done].
    apply (fh_hist _ _ Hh) in Hv as (_ & _ & _ & [? Hd']). congruence.
Qed.

Lemma holds_stat f :
  artifact_file f = true ->
  stat fs ((s :: split_slash n) ++ [f])
  = match history_files (history h s n) !! f with Some b => Ok (FileNode b) | None => Err no_such_file end.
Proof.
  intros Hf. rewrite stat_file.
  - unfold file_of. pose proof holds_dir as Hd. destruct (fs !! _) as [files|]; [by subst files|]. by rewrite Hd.
  - apply (fh_closed _ _ Hh).
  - apply holds_clear. by eapply usable_comps.
  - by apply holds_no_dir.
Qed.

Lemma holds_read_meta : read_meta fs s n = Ok (map record_of (history h s n)).
Proof.
  unfold read_meta, read_to_string, read_file. rewrite usable_dir by done. rewrite holds_stat by done.
  destruct (decide (history h s n = [])) as [He|He].
  - rewrite He. unfold history_files. by rewrite lookup_empty.
  - rewrite history_meta by done. by rewrite metafile_utf8, metafile_parse_print.
Qed.

Lemma find_orphan_none known files :
  (forall f b v, (f, b) ∈ files -> parse_version_file_name f = Some v -> v ∈ known) -> find_orphan known files = None.
Proof.
  induction files as [|[f b] files IH]; [done|]. intros Hk. cbn [find_orphan].
  rewrite IH by (intros f' b' v' Hin; apply (Hk f' b' v'); by right).
  destruct (parse_version_file_name f) as [v|] eqn:Hf; [|done]. rewrite bool_decide_true; [done|].
  apply (Hk f b v); [by left|done].
Qed.

Lemma holds_no_orphans : reject_orphan_content_files root fs s n (map vr_version (map record_of (history h s n))) = Ok tt.
Proof.
  unfold reject_orphan_content_files, read_dir. rewrite usable_dir by done.
  rewrite stat_clear; [|apply (fh_closed _ _ Hh)|apply holds_clear; by eapply usable_comps].
  pose proof holds_dir as Hd. destruct (fs !! _) as [files|]; [|done]. subst files.
  rewrite find_orphan_none; [done|]. intros f b v Hin Hv. apply elem_of_map_to_list in Hin.
  apply (history_files_lookup n) in Hin as [_ [[-> _]|(x & Hx & -> & _)]]; [done| |apply holds_wf].
  rewrite parse_version_file in Hv by (eapply wf_small; [apply holds_wf|done]). injection Hv as <-.
  rewrite map_map. apply list_elem_of_fmap. exists x. split; [by destruct x as [? []]|done].
Qed.

Lemma holds_content x :
  x ∈ history h s n -> stat fs (version_path s n (av_version (snd x))) = Ok (FileNode (ad_content (fst x))).
Proof.
  intros Hx. pose proof Hu as (Hs & Hdot & _ & Hg). unfold version_path, artifact_dir.
  rewrite session_components, name_components by done. cbn [app]. rewrite app_comm_cons, holds_stat.
  - erewrite history_content; [done|apply holds_wf|done].
  - unfold artifact_file. rewrite parse_version_file by (eapply wf_small; [apply holds_wf|done]). apply orb_true_r.
Qed.

Lemma record_version x : vr_version (record_of x) = av_version (snd x).
Proof. by destruct x. Qed.

Lemma holds_no_missing : reject_metadata_without_content_files root fs s n (map record_of (history h s n)) = Ok tt.
Proof.
  assert (forall v, (forall x, x ∈ v -> x ∈ history h s n) ->
            reject_metadata_without_content_files root fs s n (map record_of v) = Ok tt) as H; [|by apply H].
  induction v as [|x v IH]; [done|]. intros Hv. cbn [map reject_metadata_without_content_files].
  rewrite record_version, holds_content by (apply Hv; by left). apply IH. intros y Hy. apply Hv. by right.
Qed.

Lemma holds_checked : checked_meta root fs s n = Ok (map record_of (history h s n)).
Proof.
  unfold checked_meta. rewrite usable_dir, holds_read_meta by done.
  unfold reject_metadata_content_mismatch, reject_content_files_without_metadata. by rewrite holds_no_orphans, holds_no_missing.
Qed.

Lemma expected_version_run k v :
  (forall i x, v !! i = Some x -> av_version (snd x) = N.of_nat i + k)%N -> (N.of_nat (length v) + k <= u32_max)%N ->
  expected_version s n k (map record_of v) = Ok (N.of_nat (length v) + k)%N.
Proof.
  revert k. induction v as [|x v IH]; intros k Hv Hl; [done|]. cbn [map expected_version length] in *.
  rewrite record_version. rewrite (Hv 0 x) by done. change (N.of_nat 0 + k)%N with k. rewrite N.eqb_refl.
  cbn [negb]. rewrite (proj2 (N.eqb_neq _ _)) by lia. rewrite IH; [f_equal; lia| |lia].
  intros i y Hi. rewrite (Hv (S i) y Hi). lia.
Qed.

Lemma holds_next_version :
  next_version root fs s n (map record_of (history h s n)) = Ok (N.of_nat (length (history h s n)) + 1)%N.
Proof.
  unfold next_version. destruct (holds_wf s n) as [Hl Hv]. rewrite expected_version_run.
  - by rewrite holds_no_orphans, holds_no_missing.
  - intros i x Hi. by destruct (Hv i x Hi) as (_ & -> & _).
  - lia.
Qed.

Lemma holds_read_content x :
  x ∈ history h s n -> read_content root fs s n (av_version (snd x)) = Ok (ad_content (fst x)).
Proof. intros Hx. unfold read_content, read_file. by rewrite holds_content. Qed.

Lemma holds_stored x : x ∈ history h s n -> stored_of (record_of x) (ad_content (fst x)) = x.
Proof. intros Hx. apply (wf_elem n) in Hx as [Hx _]; [|apply holds_wf]. by eapply stored_record. Qed.

Lemma fs_load_law : fs_load root s n fs = Ok (last (history h s n)).
Proof.
  unfold fs_load. rewrite holds_checked. change (map record_of (history h s n)) with (record_of <$> history h s n).
  rewrite fmap_last. destruct (last (history h s n)) as [x|] eqn:Hl; [|done]. cbn [fmap option_fmap option_map].
  assert (x ∈ history h s n) as Hx by (by apply last_Some_elem_of).
  by rewrite record_version, holds_read_content, holds_stored.
Qed.

Lemma find_version_records v version :
  List.find (fun r => (vr_version r =? version)%N) (map record_of v)
  = record_of <$> List.find (fun x => (av_version (snd x) =? version)%N) v.
Proof.
  induction v as [|x v IH]; [done|]. cbn [map List.find]. rewrite record_version.
  by destruct (av_version (snd x) =? version)%N.
Qed.

Lemma find_version_spec (v : History) version x :
  List.find (fun x => (av_version (snd x) =? version)%N) v = Some x -> x ∈ v /\ av_version (snd x) = version.
Proof. intros [Hin He]%find_some. split; [by apply list_elem_of_In|by apply N.eqb_eq]. Qed.

Lemma holds_find_record version :
  (version <= u32_max)%N ->
  find_record root fs s n version (map record_of (history h s n))
  = Ok (record_of <$> List.find (fun x => (av_version (snd x) =? version)%N) (history h s n)).
Proof.
  intros Hv. unfold find_record. rewrite find_version_records. destruct (List.find _ _) as [x|] eqn:Hf; [done|].
  pose proof Hu as (Hs & Hdot & _ & Hg). unfold try_exists, version_path, artifact_dir.
  rewrite session_components, name_components by done. cbn [app]. rewrite app_comm_cons, holds_stat.
  - destruct (history_files _ !! _) as [b|] eqn:Hb; [|done].
    apply (history_files_lookup n) in Hb as [_ [[He _]|(x & Hx & He & _)]]; [by symmetry in He| |apply holds_wf].
    apply version_file_inj in He; [|done|eapply wf_small; [apply holds_wf|done]].
    apply list_elem_of_In in Hx. apply (find_none _ _ Hf), N.eqb_neq in Hx. congruence.
  - unfold artifact_file. rewrite parse_version_file by done. apply orb_true_r.
Qed.

Lemma fs_load_version_law version :
  (version <= u32_max)%N ->
  fs_load_version root s n version fs = Ok (List.find (fun x => (av_version (snd x) =? version)%N) (history h s n)).
Proof.
  intros Hv. unfold fs_load_version. rewrite holds_checked, holds_find_record by done.
  destruct (List.find _ _) as [x|] eqn:Hf; [|done]. cbn [fmap option_fmap option_map].
  apply find_version_spec in Hf as [Hx <-]. by rewrite holds_read_content, holds_stored.
Qed.

(** ** Saving *)

Lemma create_holds :
  exists fs1 files, create_dir_all fs (s :: split_slash n) = (Ok tt, fs1) /\ fs_holds fs1 h
    /\ fs1 !! (s :: split_slash n) = Some files.
Proof.
  destruct (create_dir_all_spec fs (s :: split_slash n)) as (fs1 & He & Hc & Hw).
  { apply (fh_closed _ _ Hh). }
  { apply holds_clear. by eapply usable_comps. }
  assert (is_Some (fs1 !! (s :: split_slash n))) as [files Hf].
  { rewrite Hw. destruct (fs !! _); [done|]. by rewrite bool_decide_true. }
  exists fs1, files. split; [done|]. split; [|done]. split; [done| |].
  - intros d files' Hd. rewrite Hw in Hd. destruct (fs !! d) as [files''|] eqn:Hd'.
    + injection Hd as <-. by apply (fh_dirs _ _ Hh).
    + case_bool_decide as Hp; [|done]. injection Hd as <-. destruct Hp as [k Hk].
      destruct d as [|s' cs]; [done|]. injection Hk as <- Hk. pose proof (usable_comps _ _ Hu) as Hg. rewrite Hk in Hg.
      apply Forall_app in Hg as [Hg _]. split; [|done]. cbn. destruct cs as [|c cs]; [done|]. symmetry.
      apply history_files_empty. unfold history. destruct (h !! _) as [v|] eqn:Hv; [|done].
      apply (fh_hist _ _ Hh) in Hv as (_ & _ & _ & [? Hd]). rewrite split_join in Hd; [congruence|done|].
      by apply good_comps_no_slash.
  - intros s' n' v Hv. apply (fh_hist _ _ Hh) in Hv as (H1 & H2 & H3 & [files' H4]). split_and!; try done.
    rewrite Hw, H4. done.
Qed.

End Holds.

Lemma save_history_holds fs h s n data now files :
  fs_holds fs h -> file_usable s n -> fs !! (s :: split_slash n) = Some files ->
  (N.of_nat (length (history h s n)) + 1 < u32_max)%N ->
  let x := next_stored (history h s n) n data now in
  fs_holds
    (<[s :: split_slash n :=
         <[META := metafile_to_string_pretty (map record_of (history h s n) ++ [record_of x])]>
           (<[version_file (av_version (snd x)) := ad_content data]> files)]> fs)
    (save_history h s n data now).
Proof.
  intros Hh Hu Hf Hlen x. pose proof (holds_wf _ _ Hh s n) as Hw.
  pose proof (wf_history_snoc n _ data now Hw Hlen) as Hw'.
  pose proof (fh_dirs _ _ Hh _ _ Hf) as [-> _]. rewrite dir_files_name.
  change (ad_content data) with (ad_content (fst x)). rewrite <- (history_files_snoc n) by done.
  assert (history (save_history h s n data now) s n = history h s n ++ [x]) as Hs.
  { unfold history at 1, save_history. by rewrite lookup_insert_eq. }
  split.
  - apply closed_update; [apply (fh_closed _ _ Hh)|eauto].
  - intros d files' [[<- <-]|[Hne Hd]]%lookup_insert_Some.
    + split; [by rewrite dir_files_name, Hs|]. cbn. by eapply usable_comps.
    + apply (fh_dirs _ _ Hh) in Hd as [-> Hg]. split; [|done]. destruct d as [|s' [|c cs]]; try done.
      unfold dir_files. f_equal. unfold history, save_history. rewrite lookup_insert_ne; [done|].
      intros He. apply pair_equal_spec in He as [-> ->]. apply Hne. rewrite split_join; [done..|]. by apply good_comps_no_slash.
  - intros s' n' v Hv. unfold save_history in Hv. apply lookup_insert_Some in Hv as [[[= <- <-] <-]|[Hne Hv]].
    + split_and!; [done|by destruct (history h s n)|done|]. rewrite lookup_insert_eq. done.
    + apply (fh_hist _ _ Hh) in Hv as (H1 & H2 & H3 & H4). split_and!; try done.
      apply lookup_insert_is_Some'. by right.
Qed.

(** The directory of the artifact, in a tree like those that hold histories. *)
Lemma usable_clear fs h s n : fs_holds fs h -> file_usable s n -> clear fs [] (s :: split_slash n).
Proof. intros Hh Hu. apply (holds_clear _ _ Hh). by eapply usable_comps. Qed.

Lemma next_version_file (v : History) :
  (N.of_nat (length v) + 1 < u32_max)%N -> artifact_file (version_file (N.of_nat (length v) + 1)) = true.
Proof. intros Hl. unfold artifact_file. rewrite parse_version_file by lia. apply orb_true_r. Qed.

(** What a save does before it touches the metadata. *)
Lemma write_content_holds fs h s n data now files :
  fs_holds fs h -> file_usable s n -> fs !! (s :: split_slash n) = Some files ->
  (N.of_nat (length (history h s n)) + 1 < u32_max)%N ->
  let x := next_stored (history h s n) n data now in
  write_content root s n data now (s :: split_slash n) fs
  = (Ok (map record_of (history h s n), record_of x),
     <[s :: split_slash n := <[version_file (av_version (snd x)) := ad_content data]> files]> fs).
Proof.
  intros Hh Hu Hf Hlen x. unfold write_content.
  rewrite (holds_read_meta _ _ Hh), (holds_next_version _ _ Hh) by done.
  rewrite (atomic_write_spec _ _ _ _ files); [done|apply (fh_closed _ _ Hh)|by eapply usable_clear|done|].
  apply (holds_no_dir _ _ Hh). by apply next_version_file.
Qed.

Lemma insert_no_dir (fs : Tree) (p : DirPath) (f : string) (files : Files) :
  fs !! (p ++ [f]) = None -> <[p := files]> fs !! (p ++ [f]) = None.
Proof.
  intros H. rewrite lookup_insert_ne; [done|]. intros He. apply (f_equal length) in He. rewrite length_app in He. cbn in He. lia.
Qed.

Lemma fs_save_law fs h s n data now :
  fs_holds fs h -> file_usable s n -> (N.of_nat (length (history h s n)) + 1 < u32_max)%N ->
  let '(r, fs') := fs_save root s n data now fs in
  r = Ok (snd (next_stored (history h s n) n data now)) /\ fs_holds fs' (save_history h s n data now).
Proof.
  intros Hh Hu Hlen. unfold fs_save. rewrite usable_dir by done.
  destruct (create_holds fs h Hh s n Hu) as (fs1 & files & -> & Hh1 & Hf). unfold save_created.
  rewrite (write_content_holds fs1 h s n data now files) by done.
  unfold commit_version, write_meta. rewrite usable_dir by done.
  pose proof (usable_clear _ _ _ _ Hh1 Hu) as Hcl. pose proof (fh_closed _ _ Hh1) as Hc.
  erewrite atomic_write_spec; [|by apply closed_update; eauto|by apply clear_update|apply lookup_insert_eq|].
  - cbn [storage_err]. split; [done|]. rewrite insert_insert_eq. by apply (save_history_holds fs1 h s n data now files).
  - apply insert_no_dir. by apply (holds_no_dir _ _ Hh1).
Qed.

(** ** Deleting *)

(** The artifact without its files. *)
Lemma erase_holds fs h s n :
  fs_holds fs h -> file_usable s n -> is_Some (fs !! (s :: split_slash n)) ->
  fs_holds (<[s :: split_slash n := ∅]> fs) (delete (s, n) h).
Proof.
  intros Hh Hu Hf. split.
  - apply closed_update; [apply (fh_closed _ _ Hh)|done].
  - intros d files [[<- <-]|[Hne Hd]]%lookup_insert_Some.
    + split; [|cbn; by eapply usable_comps]. rewrite dir_files_name. symmetry. apply history_files_empty.
      unfold history. by rewrite lookup_delete_eq.
    + apply (fh_dirs _ _ Hh) in Hd as [-> Hg]. split; [|done]. destruct d as [|s' [|c cs]]; try done.
      unfold dir_files. f_equal. unfold history. rewrite lookup_delete_ne; [done|].
      intros He. apply pair_equal_spec in He as [-> ->]. apply Hne.
      rewrite split_join; [done..|]. by apply good_comps_no_slash.
  - intros s' n' v [Hne Hv]%lookup_delete_Some. apply (fh_hist _ _ Hh) in Hv as (H1 & H2 & H3 & H4). split_and!; try done.
    apply lookup_insert_is_Some'. by right.
Qed.

Lemma fh_clear_name fs h s cs : fs_holds fs h -> GoodComps cs ->
  stat fs (s :: cs) = match fs !! (s :: cs) with Some files => Ok (DirNode files) | None => Err no_such_file end.
Proof. intros Hh Hcs. apply stat_clear; [apply (fh_closed _ _ Hh)|by apply (holds_clear _ _ Hh)]. Qed.

(** A directory that is removed had no artifact. *)
Lemma remove_holds fs h s cs :
  fs_holds fs h -> fs !! (s :: cs) = Some ∅ -> children fs (s :: cs) = [] -> fs_holds (delete (s :: cs) fs) h.
Proof.
  intros Hh Hf Hch. split.
  - apply closed_delete; [apply (fh_closed _ _ Hh)|done..].
  - intros d files [_ Hd]%lookup_delete_Some. by apply (fh_dirs _ _ Hh).
  - intros s' n' v Hv. pose proof (fh_hist _ _ Hh _ _ _ Hv) as (H1 & H2 & H3 & [files H4]). split_and!; try done.
    rewrite lookup_delete_ne; [eauto|]. intros He. rewrite He in Hf. rewrite H4 in Hf. injection Hf as ->.
    apply (fh_dirs _ _ Hh) in H4 as [H4 _]. rewrite dir_files_name in H4. symmetry in H4. apply history_files_empty in H4.
    unfold history in H4. by rewrite Hv in H4.
Qed.

Lemma prune_holds fs h s cs :
  fs_holds fs h -> GoodComps cs -> exists fs', prune_up fs [s] (rev cs) = (Ok tt, fs') /\ fs_holds fs' h.
Proof.
  revert fs. induction cs as [|c cs IH] using rev_ind; intros fs Hh Hcs; [by exists fs|].
  apply Forall_app in Hcs as Hcs'. destruct Hcs' as [Hcs' _].
  rewrite rev_app_distr. cbn [rev app prune_up]. change (rev [] ++ [c]) with [c]. cbn [rev]. rewrite rev_involutive.
  unfold remove_dir. rewrite (fh_clear_name _ h) by done.
  destruct (fs !! (s :: cs ++ [c])) as [files|] eqn:Hf; [|by apply IH].
  case_bool_decide as He; [|eexists; split; [done|done]]. destruct He as [-> Hch]. apply IH; [|done]. by apply remove_holds.
Qed.

Lemma fs_delete_law fs h s n :
  fs_holds fs h -> file_usable s n ->
  let '(r, fs') := fs_delete s n fs in r = Ok tt /\ fs_holds fs' (delete (s, n) h).
Proof.
  intros Hh Hu. unfold fs_delete. rewrite usable_dir by done.
  assert (exists fs1, delete_artifact_files fs (s :: split_slash n) = (Ok tt, fs1) /\ fs_holds fs1 (delete (s, n) h)) as (fs1 & -> & Hh1).
  { unfold delete_artifact_files, read_dir. rewrite (fh_clear_name _ h) by (done || by eapply usable_comps).
    destruct (fs !! (s :: split_slash n)) as [files|] eqn:Hf.
    - eexists. split; [done|]. apply erase_holds; eauto.
    - exists fs. split; [done|]. rewrite delete_id; [done|]. destruct (h !! (s, n)) as [v|] eqn:Hv; [|done].
      apply (fh_hist _ _ Hh) in Hv as (_ & _ & _ & [? Hd]). congruence. }
  unfold prune_empty_artifact_dirs. pose proof Hu as (Hs & Hdot & _ & Hg).
  rewrite session_components, name_components by done.
  destruct (prune_holds fs1 _ s (split_slash n) Hh1) as (fs2 & -> & Hh2); [by eapply usable_comps|done].
Qed.

Lemma fs_new_holds : fs_holds fs_new ∅.
Proof.
  unfold fs_new. split.
  - split; [by rewrite lookup_singleton_eq|]. intros p c [files Hf]. apply lookup_singleton_Some in Hf as [Hf _]. by destruct p.
  - intros d files [<- <-]%lookup_singleton_Some. split; [done|constructor].
  - intros s n v Hv. by rewrite lookup_empty in Hv.
Qed.

End Spec.

(** ** Listing the artifacts of the file store

    The walk over the directories below a session's ends and meets each of them
    once; so the list has one summary for every artifact. *)
Open Scope string_scope.
Open Scope list_scope.
Open Scope agent_scope.

(** ** The directories below one *)

Definition below (fs : Tree) (d : DirPath) : list (DirPath * Files) :=
  filter (fun x => d `prefix_of` fst x) (map_to_list fs).

Lemma elem_of_below fs d p files : (p, files) ∈ below fs d <-> d `prefix_of` p /\ fs !! p = Some files.
Proof. unfold below. by rewrite list_elem_of_filter, elem_of_map_to_list. Qed.

Lemma below_NoDup fs d : NoDup (below fs d).
Proof. apply NoDup_filter, NoDup_map_to_list. Qed.

(** A directory, and what is below its children. *)
Lemma below_children fs d files :
  closed fs -> fs !! d = Some files ->
  below fs d ≡ₚ (d, files) :: (children fs d ≫= fun c => below fs (d ++ [c])).
Proof.
  intros Hc Hd. apply NoDup_Permutation; [apply below_NoDup| |].
  - constructor.
    + rewrite list_elem_of_bind. intros (c & Hin & _). apply elem_of_below in Hin as [Hp%prefix_length _].
      rewrite length_app in Hp. cbn in Hp. lia.
    + apply NoDup_bind; [|intros c _; apply below_NoDup|apply children_NoDup].
      intros c1 c2 [p f] _ _ [[k1 H1] _]%elem_of_below [[k2 H2] _]%elem_of_below. rewrite H1, <- !app_assoc in H2.
      apply app_inv_head in H2. by injection H2.
  - intros [p f]. rewrite elem_of_cons, list_elem_of_bind. setoid_rewrite elem_of_below. split.
    + intros [[k ->] Hp]. destruct k as [|c k].
      * rewrite app_nil_r in *. left. congruence.
      * right. exists c. split; [split; [exists k; by rewrite <- app_assoc|done]|].
        apply elem_of_children. apply (closed_prefix fs _ k); [done|]. rewrite <- app_assoc. eauto.
    + intros [[= -> ->]|(c & [Hp Hf] & _)]; [done|]. split; [|done]. etrans; [|done]. by apply prefix_app_r.
Qed.

Lemma below_length fs d : length (below fs d) <= size fs.
Proof. unfold below. rewrite <- length_map_to_list. apply length_filter. Qed.

Lemma filtermap_Permutation {A B} (f : A -> option B) l l' : l ≡ₚ l' -> filtermap f l ≡ₚ filtermap f l'.
Proof.
  induction 1 as [|x l l' _ IH|x y l|l1 l2 l3 _ IH1 _ IH2]; cbn; [done| | |by rewrite IH1].
  - destruct (f x); by rewrite IH.
  - destruct (f x), (f y); try done. by constructor.
Qed.

Section Walk.
Context (fs : Tree) (session_dir : DirPath).
Context (Hc : closed fs) (Hclear : forall d, is_Some (fs !! d) -> clear fs [] d).

Definition name_at (x : DirPath * Files) : option string :=
  artifact_name_of session_dir (fst x) (map_to_list (snd x)).

(** With fuel for every directory below the stack the loop ends, and adds the
    name of each of them that is one of an artifact. *)
Lemma discover_loop_spec fuel stack names :
  Forall (fun d => is_Some (fs !! d)) stack -> length (stack ≫= below fs) <= fuel ->
  exists found, discover_loop fuel fs session_dir stack names = Some (Ok (names ++ found))
    /\ found ≡ₚ filtermap name_at (stack ≫= below fs).
Proof.
  revert stack names. induction fuel as [|fuel IH]; intros stack names Hs Hlen.
  { destruct stack as [|d stack]; [exists []; by rewrite app_nil_r|]. exfalso. apply Forall_cons in Hs as [[files Hd] _].
    change ((d :: stack) ≫= below fs) with (below fs d ++ (stack ≫= below fs)) in Hlen.
    rewrite (below_children fs d files Hc Hd) in Hlen. cbn in Hlen. lia. }
  destruct stack as [|d stack]; [exists []; by rewrite app_nil_r|]. apply Forall_cons in Hs as [Hd Hs].
  cbn [discover_loop]. unfold read_dir. rewrite stat_clear by auto. destruct Hd as [files Hd]. rewrite Hd.
  set (pushed := rev (map (fun c => d ++ [c]) (children fs d))).
  assert ((pushed ++ stack) ≫= below fs ≡ₚ (children fs d ≫= fun c => below fs (d ++ [c])) ++ (stack ≫= below fs)) as Hp.
  { rewrite bind_app. apply Permutation_app_tail. subst pushed. rewrite <- Permutation_rev.
    change (map (fun c => d ++ [c]) (children fs d)) with ((fun c => d ++ [c]) <$> children fs d).
    by rewrite list_fmap_bind. }
  assert ((d :: stack) ≫= below fs ≡ₚ (d, files) :: ((pushed ++ stack) ≫= below fs)) as Hp'.
  { rewrite Hp. change ((d :: stack) ≫= below fs) with (below fs d ++ (stack ≫= below fs)).
    by rewrite (below_children fs d files Hc Hd). }
  destruct (IH (pushed ++ stack) (match artifact_name_of session_dir d (map_to_list files) with Some n => names ++ [n] | None => names end))
    as (found & He & Hf).
  - apply Forall_app. split; [|done]. subst pushed. apply Forall_rev, Forall_map, Forall_forall. intros c Hin.
    by apply elem_of_children.
  - apply Permutation_length in Hp'. rewrite Hp' in Hlen. cbn in Hlen. lia.
  - rewrite He. apply (filtermap_Permutation name_at) in Hp'. cbn [filtermap] in Hp'.
    change (name_at (d, files)) with (artifact_name_of session_dir d (map_to_list files)) in Hp'.
    destruct (artifact_name_of session_dir d (map_to_list files)) as [n|].
    + exists (n :: found). rewrite <- app_assoc. split; [done|]. etrans; [|symmetry; exact Hp']. by constructor.
    + exists found. split; [done|]. by etrans; [|symmetry; exact Hp'].
Qed.

End Walk.

Section Listing.
Context `{C : Chrono} `{Ms : !MetaSerde}.
Variable root : string.
Context (fs : Tree) (h : Histories) (Hh : fs_holds fs h).

Lemma holds_dir_clear d : is_Some (fs !! d) -> clear fs [] d.
Proof.
  intros [files Hd]. apply (fh_dirs _ _ Hh) in Hd as [_ Hg]. destruct d as [|s cs]; [|by apply (holds_clear _ _ Hh)].
  intros q c r He. by destruct q.
Qed.

Lemma existsb_artifact_files v n :
  wf_history n v -> existsb (fun x => artifact_file (fst x)) (map_to_list (history_files v)) = bool_decide (v <> []).
Proof.
  intros Hv. case_bool_decide as Hne.
  - apply existsb_exists. exists (META, metafile_to_string_pretty (map record_of v)). split; [|done].
    apply list_elem_of_In, elem_of_map_to_list. by apply history_meta.
  - subst v. unfold history_files. by rewrite map_to_list_empty.
Qed.

(** The name a directory gives is that of the artifact it is for. *)
Lemma holds_name s cs files :
  fs !! (s :: cs) = Some files ->
  artifact_name_of [s] (s :: cs) (map_to_list files)
  = match cs with [] => None | _ => (fun _ => join "/" cs) <$> h !! (s, join "/" cs) end.
Proof.
  intros Hd. apply (fh_dirs _ _ Hh) in Hd as [-> _]. unfold artifact_name_of. destruct cs as [|c cs].
  { cbn [dir_files]. by rewrite map_to_list_empty. }
  cbn [dir_files]. rewrite (existsb_artifact_files _ (join "/" (c :: cs))) by apply (holds_wf _ _ Hh).
  unfold history. destruct (h !! (s, join "/" (c :: cs))) as [v|] eqn:Hv; [|done]. cbn [default].
  apply (fh_hist _ _ Hh) in Hv as ((_ & _ & Hn & _) & Hne & _). rewrite bool_decide_true by done.
  cbn [strip_dir]. rewrite String.eqb_refl. cbn [mbind option_bind fmap option_fmap option_map].
  rewrite slashes_id by (by apply name_chars). destruct (str_is_empty _) eqn:He; [|done].
  exfalso. unfold validate_artifact_name in Hn. by rewrite He in Hn.
Qed.

(** Exactly the artifacts of the session are found. *)
Lemma holds_discover s :
  (exists n, file_usable s n) ->
  exists names, discover_artifacts fs s = Some (Ok names) /\ NoDup names
    /\ forall n, n ∈ names <-> is_Some (h !! (s, n)).
Proof.
  intros (n0 & Hs & Hdot & _). unfold discover_artifacts, resolve_session_dir.
  rewrite Hs, session_components by done. pose proof (fh_closed _ _ Hh) as Hc.
  assert (forall n v, h !! (s, n) = Some v -> is_Some (fs !! [s])) as Hdir.
  { intros n v Hv. apply (fh_hist _ _ Hh) in Hv as (_ & _ & _ & Hd). by apply (closed_prefix fs [s] (split_slash n)). }
  unfold exists_path. rewrite (fh_clear_name _ h) by (done || constructor). destruct (fs !! [s]) as [files0|] eqn:Hd0; cbn [negb].
  2:{ exists []. split; [done|]. split; [constructor|]. intros n. split; [by intros ?%not_elem_of_nil|].
      intros [v Hv]. apply Hdir in Hv as [? Hv]. congruence. }
  destruct (discover_loop_spec fs [s] Hc holds_dir_clear (S (size fs)) [[s]] []) as (found & -> & Hf).
  { repeat constructor. eauto. }
  { cbn. rewrite app_nil_r. etrans; [apply below_length|lia]. }
  cbn [app]. assert (forall x n, x ∈ below fs [s] -> name_at [s] x = Some n ->
     exists v, h !! (s, n) = Some v /\ fst x = s :: split_slash n) as Hname.
  { intros [d files] n [[cs ->] Hd]%elem_of_below Hx. unfold name_at in Hx. cbn [fst snd app] in *.
    rewrite holds_name in Hx by done. destruct cs as [|c cs]; [done|].
    apply fmap_Some in Hx as (v & Hv & ->). exists v. split; [done|]. apply (fh_dirs _ _ Hh) in Hd as [_ Hg].
    rewrite split_join; [done..|]. by apply good_comps_no_slash. }
  cbn in Hf. rewrite app_nil_r in Hf.
  assert (NoDup (merge_sort string_le found)) as Hnd.
  { rewrite merge_sort_Permutation, Hf. apply NoDup_filtermap; [apply below_NoDup|].
    intros [d1 f1] [d2 f2] n H1 H2 Hn1 Hn2. apply Hname in Hn1 as (_ & _ & E1), Hn2 as (_ & _ & E2); [|done..].
    cbn in E1, E2. subst. apply elem_of_below in H1 as [_ H1], H2 as [_ H2]. congruence. }
  exists (merge_sort string_le found). rewrite dedup_NoDup by done. split; [done|]. split; [done|].
  intros n. rewrite merge_sort_Permutation, Hf, elem_of_filtermap. split.
  - intros (x & Hin & Hx). apply Hname in Hx as (v & Hv & _); eauto.
  - intros [v Hv]. pose proof (fh_hist _ _ Hh _ _ _ Hv) as (_ & _ & _ & [files Hd]).
    exists (s :: split_slash n, files). split; [apply elem_of_below; split; [by exists (split_slash n)|done]|].
    unfold name_at. cbn [fst snd]. rewrite holds_name by done. destruct (split_slash n) as [|c cs] eqn:Hn; [by apply split_slash_ne in Hn|].
    rewrite <- Hn, join_split, Hv. done.
Qed.

Lemma list_metas_spec s names :
  Forall (fun n => file_usable s n) names ->
  list_metas root fs s names = Ok (filtermap (fun n => summary n (history h s n)) names).
Proof.
  induction 1 as [|n names Hu _ IH]; [done|]. cbn [list_metas].
  rewrite (holds_read_meta _ _ Hh) by done. unfold reject_metadata_content_mismatch, reject_content_files_without_metadata.
  rewrite (holds_no_orphans _ _ _ Hh), (holds_no_missing _ _ _ Hh), IH by done. cbn [filtermap].
  change (map record_of (history h s n)) with (record_of <$> history h s n). rewrite fmap_last.
  destruct (history h s n) as [|x v]; [done|]. cbn [head fmap list_fmap].
  assert (summary n (x :: v) = (fun y : Stored => MkArtifactMeta n (av_version (snd y)) (av_created_at (snd x))
            (av_created_at (snd y)) (av_content_type (snd y))) <$> last (x :: v)) as -> by (unfold summary; cbn [head]; by destruct (last (x :: v))).
  destruct (last (x :: v)) as [y|]; [|done]. cbn [option_map option_fmap fmap].
  destruct x as [? []], y as [? []]. done.
Qed.

Lemma fs_list_law s :
  (exists n, file_usable s n) -> exists l, fs_list root s fs = Some (Ok l) /\ l ≡ₚ summaries h s.
Proof.
  intros Hs. destruct (holds_discover s Hs) as (names & He & Hnd & Hn). unfold fs_list. rewrite He. cbn [mbind option_bind].
  rewrite list_metas_spec.
  - eexists. split; [done|]. apply summaries_perm.
    + apply NoDup_filtermap; [done|]. intros n1 n2 b _ _ H1%summary_name H2%summary_name. congruence.
    + intros x. rewrite elem_of_filtermap. split.
      * intros (n & [v Hv]%Hn & Hx). exists n, v. split; [done|]. unfold history in Hx. by rewrite Hv in Hx.
      * intros (n & v & Hv & Hx). exists n. split; [apply Hn; eauto|]. unfold history. by rewrite Hv.
  - apply Forall_forall. intros n [v Hv]%Hn. by apply (fh_hist _ _ Hh) in Hv as [Hu _].
Qed.

End Listing.

(** The file store keeps what the trait promises. *)
#[export] Instance fs_laws `{C : Chrono} `{Ms : !MetaSerde} (root : string) :
  @ArtifactStoreLaws C Tree (fs_store root) file_usable :=
  @Build_ArtifactStoreLaws C Tree (fs_store root) file_usable fs_holds
    (fs_save_law root)
    (fun fs h s n Hh Hu => fs_load_law root fs h Hh s n Hu)
    (fun fs h s n v Hh Hu Hv => fs_load_version_law root fs h Hh s n Hu v Hv)
    (fun fs h s Hh Hs => fs_list_law root fs h Hh s Hs)
    fs_delete_law.
