(* ===== verification/ArtifactSpec.v ===== *)
(** * What the artifact stores promise together

    Any store with the laws answers a sequence of operations as the histories
    do; so the two stores cannot be told apart, but for the order of lists.  A
    save that is interrupted between its two writes, a delete that races with
    one, and names that mean each other's files are shown with the file store. *)
From S2P Require Export Artifact ArtifactFsSpec.
From S2P Require Import SessionData JsonlScan.
From Stdlib Require Import Ascii.
Open Scope string_scope.
Open Scope list_scope.
Open Scope agent_scope.

(** ** Sequences of operations *)

Section Runs.
Context `{C : Chrono}.

Inductive ArtifactOp :=
| OpSave (session_id name : string) (data : ArtifactData) (now : DateTime)
| OpLoad (session_id name : string)
| OpLoadVersion (session_id name : string) (version : N)
| OpList (session_id : string)
| OpDelete (session_id name : string).

Inductive ArtifactReply :=
| ReplyVersion (r : result ArtifactVersion ArtifactError)
| ReplyStored (r : result (option Stored) ArtifactError)
| ReplyList (r : option (result (list ArtifactMeta) ArtifactError))
| ReplyUnit (r : result unit ArtifactError).

(** The same reply, lists in any order. *)
Inductive reply_eq : ArtifactReply -> ArtifactReply -> Prop :=
| reply_refl r : reply_eq r r
| reply_lists l l' : l ≡ₚ l' -> reply_eq (ReplyList (Some (Ok l))) (ReplyList (Some (Ok l'))).

#[export] Instance reply_eq_equivalence : Equivalence reply_eq.
Proof.
  split.
  - intros r. constructor.
  - intros r r'. destruct 1; by constructor.
  - intros r1 r2 r3. destruct 1 as [r|l l' Hl]; [done|]. intros H. inversion H; subst; constructor; [done|]. by etrans.
Qed.

Definition art_step {St} `{!ArtifactStore St} (op : ArtifactOp) (st : St) : ArtifactReply * St :=
  match op with
  | OpSave s n data now => let '(r, st') := art_save s n data now st in (ReplyVersion r, st')
  | OpLoad s n => (ReplyStored (art_load s n st), st)
  | OpLoadVersion s n v => (ReplyStored (art_load_version s n v st), st)
  | OpList s => (ReplyList (art_list s st), st)
  | OpDelete s n => let '(r, st') := art_delete s n st in (ReplyUnit r, st')
  end.

Fixpoint art_run {St} `{!ArtifactStore St} (ops : list ArtifactOp) (st : St) : list ArtifactReply :=
  match ops with
  | [] => []
  | op :: ops' => let '(r, st') := art_step op st in r :: art_run ops' st'
  end.

(** The histories answer. *)
Definition spec_step (op : ArtifactOp) (h : Histories) : ArtifactReply * Histories :=
  match op with
  | OpSave s n data now => (ReplyVersion (Ok (snd (next_stored (history h s n) n data now))), save_history h s n data now)
  | OpLoad s n => (ReplyStored (Ok (last (history h s n))), h)
  | OpLoadVersion s n v => (ReplyStored (Ok (List.find (fun x => (av_version (snd x) =? v)%N) (history h s n))), h)
  | OpList s => (ReplyList (Some (Ok (summaries h s))), h)
  | OpDelete s n => (ReplyUnit (Ok tt), delete (s, n) h)
  end.

Fixpoint spec_run (ops : list ArtifactOp) (h : Histories) : list ArtifactReply :=
  match ops with
  | [] => []
  | op :: ops' => let '(r, h') := spec_step op h in r :: spec_run ops' h'
  end.

(** An operation on what is [usable]. *)
Definition op_usable (usable : string -> string -> Prop) (op : ArtifactOp) : Prop :=
  match op with
  | OpSave s n _ _ | OpLoad s n | OpDelete s n => usable s n
  | OpLoadVersion s n v => usable s n /\ (v <= u32_max)%N
  | OpList s => exists n, usable s n
  end.

(** There is room for as many versions. *)
Definition room (h : Histories) (k : nat) : Prop := forall s n, (N.of_nat (length (history h s n) + k) < u32_max)%N.

Lemma room_save h s n data now k : room h (S k) -> room (save_history h s n data now) k.
Proof.
  intros Hr s' n'. unfold history, save_history. destruct (decide ((s, n) = (s', n'))) as [[= <- <-]|Hne].
  - rewrite lookup_insert_eq. cbn. rewrite length_app. cbn. specialize (Hr s n). lia.
  - rewrite lookup_insert_ne by done. specialize (Hr s' n'). unfold history in Hr. lia.
Qed.

Lemma room_delete h s n k : room h (S k) -> room (delete (s, n) h) k.
Proof.
  intros Hr s' n'. unfold history. destruct (decide ((s, n) = (s', n'))) as [[= <- <-]|Hne].
  - rewrite lookup_delete_eq. specialize (Hr s n). cbn. lia.
  - rewrite lookup_delete_ne by done. specialize (Hr s' n'). unfold history in Hr. lia.
Qed.

Lemma room_less h k : room h (S k) -> room h k.
Proof. intros Hr s n. specialize (Hr s n). lia. Qed.

(** A step of a store with the laws is the step of the histories it holds. *)
Lemma law_step {St} `{Hst : !ArtifactStore St} {usable} `{!ArtifactStoreLaws St usable} op st h k :
  holds_artifacts st h -> op_usable usable op -> room h (S k) ->
  let '(r, st') := art_step op st in
  let '(r', h') := spec_step op h in
  reply_eq r r' /\ holds_artifacts st' h' /\ room h' k.
Proof.
  intros Hh Hu Hr. destruct op as [s n data now|s n|s n v|s|s n]; cbn in Hu |- *.
  - assert (N.of_nat (length (history h s n)) + 1 < u32_max)%N as Hl by (specialize (Hr s n); lia).
    pose proof (law_save st h s n data now Hh Hu Hl) as H. destruct (art_save s n data now st) as [r st'].
    destruct H as [-> H]. split_and!; [constructor|done|by apply room_save].
  - rewrite (law_load st h) by done. split_and!; [constructor|done|by apply room_less].
  - destruct Hu as [Hu Hv]. rewrite (law_load_version st h) by done. split_and!; [constructor|done|by apply room_less].
  - destruct (law_list st h s Hh Hu) as (l & -> & Hl). split_and!; [by constructor|done|by apply room_less].
  - pose proof (law_delete st h s n Hh Hu) as H. destruct (art_delete s n st) as [r st']. destruct H as [-> H].
    split_and!; [constructor|done|by apply room_delete].
Qed.

Lemma law_run {St} `{Hst : !ArtifactStore St} {usable} `{!ArtifactStoreLaws St usable} ops st h :
  holds_artifacts st h -> Forall (op_usable usable) ops -> room h (length ops) ->
  Forall2 reply_eq (art_run ops st) (spec_run ops h).
Proof.
  intros Hh Hops. revert st h Hh. induction Hops as [|op ops Hop _ IH]; intros st h Hh Hr; [constructor|].
  cbn [art_run spec_run]. pose proof (law_step op st h (length ops) Hh Hop Hr) as H.
  destruct (art_step op st) as [r st'], (spec_step op h) as [r' h']. destruct H as (Hrep & Hh' & Hr').
  constructor; [done|]. by apply IH.
Qed.

Lemma op_usable_impl (P Q : string -> string -> Prop) op :
  (forall s n, P s n -> Q s n) -> op_usable P op -> op_usable Q op.
Proof. intros HPQ. destruct op; cbn; naive_solver. Qed.

End Runs.

Section Agree.
Context `{C : Chrono} `{Ms : !MetaSerde}.
Variable root : string.

(** C5: From empty stores, any sequence of operations on usable sessions and
    names gets the same replies from the file store and from the store in
    memory - the version a save makes, what a load or a load of a version
    finds, the artifacts of a session up to their order, and a delete - and
    they are those of the histories of the artifacts. *)
Theorem artifact_stores_agree (ops : list ArtifactOp) :
  Forall (op_usable file_usable) ops -> (N.of_nat (length ops) < u32_max)%N ->
  Forall2 reply_eq (@art_run _ _ (fs_store root) ops fs_new) (art_run ops memory_new)
  /\ Forall2 reply_eq (art_run ops memory_new) (spec_run ops ∅).
Proof.
  intros Hops Hlen. assert (room ∅ (length ops)) as Hr by (intros s n; unfold history; by rewrite lookup_empty).
  assert (Forall2 reply_eq (art_run ops memory_new) (spec_run ops ∅)) as Hm.
  { apply law_run; [apply memory_new_holds| |done]. eapply Forall_impl; [exact Hops|].
    intros op. apply op_usable_impl. by intros s n (_ & _ & Hn & _). }
  split; [|done].
  assert (Forall2 reply_eq (@art_run _ _ (fs_store root) ops fs_new) (spec_run ops ∅)) as Hf.
  { apply (@law_run _ _ (fs_store root) file_usable (fs_laws root)); [apply fs_new_holds|done|done]. }
  etrans; [exact Hf|]. by symmetry.
Qed.

(** ** A save that is interrupted *)

(** What a save that dies before it writes the metadata leaves. *)
Definition save_cut (session_id name : string) (data : ArtifactData) (now : DateTime) (fs : Tree) : Tree :=
  match resolve_artifact_dir session_id name with
  | Err _ => fs
  | Ok dir =>
    match create_dir_all fs dir with
    | (Err _, fs') => fs'
    | (Ok _, fs') => snd (write_content root session_id name data now dir fs')
    end
  end.

Lemma create_existing fs p :
  closed fs -> clear fs [] p -> is_Some (fs !! p) -> create_dir_all fs p = (Ok tt, fs).
Proof.
  intros Hc Hp Hd. destruct (create_dir_all_spec fs p Hc Hp) as (fs' & -> & _ & Hw). f_equal. apply map_eq. intros d.
  rewrite Hw. destruct (fs !! d) as [files|] eqn:Hf; [done|]. case_bool_decide as Hpre; [|done].
  destruct Hpre as [k ->]. apply closed_prefix in Hd; [|done]. rewrite Hf in Hd. by destruct Hd.
Qed.

Lemma find_orphan_one known files f k b :
  (f, b) ∈ files -> parse_version_file_name f = Some k -> k ∉ known ->
  (forall f' b' v, (f', b') ∈ files -> parse_version_file_name f' = Some v -> v ∉ known -> f' = f) ->
  find_orphan known files = Some (f, k).
Proof.
  intros Hin Hk Hnk. induction files as [|[f' b'] files IH]; [by apply not_elem_of_nil in Hin|]. intros Hone.
  cbn [find_orphan]. destruct (parse_version_file_name f') as [v|] eqn:Hv.
  - case_bool_decide as Hkn.
    + apply IH; [|intros f'' b'' v' H; apply (Hone f'' b'' v'); by right].
      apply elem_of_cons in Hin as [[= -> ->]|Hin]; [congruence|done].
    + assert (f' = f) as -> by (apply (Hone f' b' v); [by left|done..]). congruence.
  - apply IH; [|intros f'' b'' v' H; apply (Hone f'' b'' v'); by right].
    apply elem_of_cons in Hin as [[= -> ->]|Hin]; [congruence|done].
Qed.

Section Torn.
Context (fs : Tree) (h : Histories) (s n : string) (data : ArtifactData) (now : DateTime).
Context (Hh : fs_holds fs h) (Hu : file_usable s n) (Hlen : (N.of_nat (length (history h s n)) + 1 < u32_max)%N).

Let dir : DirPath := s :: split_slash n.
Let next : N := (N.of_nat (length (history h s n)) + 1)%N.

(** The tree before, with the content file of a version that no record names. *)
Lemma save_cut_tree :
  exists fs1, fs_holds fs1 h /\ fs1 !! dir = Some (history_files (history h s n))
    /\ save_cut s n data now fs = <[dir := <[version_file next := ad_content data]> (history_files (history h s n))]> fs1.
Proof.
  unfold save_cut. rewrite usable_dir by done. destruct (create_holds fs h Hh s n Hu) as (fs1 & files & -> & Hh1 & Hf).
  exists fs1. pose proof (fh_dirs _ _ Hh1 _ _ Hf) as [He _]. rewrite dir_files_name in He. subst files.
  split; [done|]. split; [done|]. by erewrite (write_content_holds root fs1 h).
Qed.

Lemma torn_facts fs2 :
  fs2 = save_cut s n data now fs ->
  closed fs2 /\ clear fs2 [] dir
  /\ fs2 !! dir = Some (<[version_file next := ad_content data]> (history_files (history h s n)))
  /\ (forall f, artifact_file f = true -> fs2 !! (dir ++ [f]) = None).
Proof.
  intros ->. destruct save_cut_tree as (fs1 & Hh1 & Hf & ->). split_and!.
  - apply closed_update; [apply (fh_closed _ _ Hh1)|eauto].
  - apply clear_update. by eapply usable_clear.
  - apply lookup_insert_eq.
  - intros f Hfile. apply insert_no_dir. by apply (holds_no_dir _ _ Hh1).
Qed.

Lemma torn_meta : read_meta (save_cut s n data now fs) s n = Ok (map record_of (history h s n)).
Proof.
  destruct (torn_facts _ eq_refl) as (Hc & Hcl & Hf & Hnd). unfold read_meta, read_to_string, read_file.
  rewrite usable_dir by done. rewrite stat_file by auto. unfold file_of. fold dir. rewrite Hf. cbn [mbind option_bind].
  rewrite lookup_insert_ne by (symmetry; apply meta_not_version). destruct (decide (history h s n = [])) as [He|He].
  - rewrite He. unfold history_files. by rewrite lookup_empty.
  - rewrite history_meta by done. by rewrite metafile_utf8, metafile_parse_print.
Qed.

Definition orphan_err : ArtifactError := orphan_content_err root s n next (dir ++ [version_file next]).

Lemma torn_orphan :
  reject_orphan_content_files root (save_cut s n data now fs) s n (map vr_version (map record_of (history h s n))) = Err orphan_err.
Proof.
  destruct (torn_facts _ eq_refl) as (Hc & Hcl & Hf & Hnd). unfold reject_orphan_content_files, read_dir.
  rewrite usable_dir by done. rewrite stat_clear by done. fold dir. rewrite Hf.
  pose proof (holds_wf _ _ Hh s n) as Hw. assert (next <= u32_max)%N as Hn by (unfold next; lia).
  assert (forall v, v ∈ map vr_version (map record_of (history h s n)) <-> exists x, x ∈ history h s n /\ v = av_version (snd x)) as Hkn.
  { intros v. rewrite map_map. rewrite list_elem_of_fmap. setoid_rewrite record_version. naive_solver. }
  rewrite (find_orphan_one _ _ (version_file next) next (ad_content data)); [done| | | |].
  - apply elem_of_map_to_list, lookup_insert_eq.
  - by apply parse_version_file.
  - rewrite Hkn. intros (x & Hx & He). apply (wf_elem n) in Hx as [_ [_ Hx]]; [|done]. unfold next in He. lia.
  - intros f b v Hin Hv Hnk. apply elem_of_map_to_list, lookup_insert_Some in Hin as [[<- _]|[Hne Hin]]; [done|].
    exfalso. apply (history_files_lookup n) in Hin as [_ [[-> _]|(x & Hx & -> & _)]]; [done| |done].
    apply Hnk, Hkn. exists x. split; [done|]. rewrite parse_version_file in Hv by (by eapply wf_small). congruence.
Qed.

Lemma torn_save data' now' : fs_save root s n data' now' (save_cut s n data now fs) = (Err orphan_err, save_cut s n data now fs).
Proof.
  destruct (torn_facts _ eq_refl) as (Hc & Hcl & Hf & Hnd). unfold fs_save. rewrite usable_dir by done. fold dir.
  rewrite create_existing by eauto. unfold save_created, write_content. rewrite torn_meta.
  unfold next_version. destruct (holds_wf _ _ Hh s n) as [Hl Hv]. rewrite expected_version_run.
  - by rewrite torn_orphan.
  - intros i x Hi. by destruct (Hv i x Hi) as (_ & -> & _).
  - lia.
Qed.

Lemma torn_checked : checked_meta root (save_cut s n data now fs) s n = Err orphan_err.
Proof.
  unfold checked_meta. rewrite usable_dir, torn_meta by done.
  unfold reject_metadata_content_mismatch, reject_content_files_without_metadata. by rewrite torn_orphan.
Qed.

Lemma torn_delete :
  let '(r, fs') := fs_delete s n (save_cut s n data now fs) in r = Ok tt /\ fs_holds fs' (delete (s, n) h).
Proof.
  destruct save_cut_tree as (fs1 & Hh1 & Hf1 & He). destruct (torn_facts _ eq_refl) as (Hc & Hcl & Hf & Hnd).
  unfold fs_delete. rewrite usable_dir by done. unfold delete_artifact_files, read_dir. rewrite stat_clear by done.
  fold dir. rewrite Hf, He, insert_insert_eq. unfold prune_empty_artifact_dirs. pose proof Hu as (Hs & Hdot & _ & Hg).
  rewrite session_components, name_components by done.
  destruct (prune_holds (<[dir := ∅]> fs1) (delete (s, n) h) s (split_slash n)) as (fs2 & -> & Hh2).
  - apply erase_holds; [done|done|]. fold dir. eauto.
  - by eapply usable_comps.
  - done.
Qed.

End Torn.

(** The two writes of a save are not one: when the process dies between
    them, the content of a version that the metadata does not name makes every
    later save, load and load of a version of the artifact fail - the versions
    before are out of reach too - until a delete, which gives up all of them and
    leaves the other artifacts as they were. *)
Lemma interrupted_save_blocks fs h s n data now :
  fs_holds fs h -> file_usable s n -> (N.of_nat (length (history h s n)) + 1 < u32_max)%N ->
  let fs' := save_cut s n data now fs in
  let e := orphan_err h s n in
  (forall data' now', fs_save root s n data' now' fs' = (Err e, fs'))
  /\ fs_load root s n fs' = Err e
  /\ (forall v, fs_load_version root s n v fs' = Err e)
  /\ let '(r, fs'') := fs_delete s n fs' in r = Ok tt /\ fs_holds fs'' (delete (s, n) h).
Proof.
  intros Hh Hu Hlen fs' e. split; [intros data' now'; by apply torn_save|].
  unfold fs_load, fs_load_version. subst fs' e. rewrite (torn_checked fs h s n data now) by done.
  split_and!; [done|done|by apply torn_delete].
Qed.

End Agree.

(** ** A concrete store *)

Import SessionToy.

(** A serializer: the number of the encoding, in binary. *)
Fixpoint bits (p : positive) : string :=
  match p with
  | xH => ""
  | xO p => String "0" (bits p)
  | xI p => String "1" (bits p)
  end.

Fixpoint of_bits (s : string) : positive :=
  match s with
  | "" => xH
  | String a s => if Ascii.eqb a "0"%char then xO (of_bits s) else xI (of_bits s)
  end.

Lemma of_bits_bits p : of_bits (bits p) = p.
Proof. induction p as [p IH|p IH|]; cbn; congruence. Qed.

Lemma bits_utf8 p : is_utf8 (bits p) = true.
Proof.
  induction p as [p IH|p IH|]; [| |done]; cbn [bits].
  - change (String "1" (bits p)) with ("1" ++ bits p)%string. by rewrite is_utf8_app.
  - change (String "0" (bits p)) with ("0" ++ bits p)%string. by rewrite is_utf8_app.
Qed.

Abbreviation Record0 := (@VersionRecord session_chrono).

#[export] Instance record_eq_dec : EqDecision Record0.
Proof. solve_decision. Defined.

#[export] Instance record_countable : Countable Record0.
Proof.
  apply (inj_countable'
    (fun r : Record0 => (vr_name r, vr_version r, (vr_created_at r : Z), vr_size r, vr_content_type r, vr_metadata r))
    (fun '(a, b, c, d, e, f) => @MkVersionRecord session_chrono a b c d e f)).
  by intros [].
Defined.

#[export] Program Instance toy_meta_serde : @MetaSerde session_chrono := {|
  metafile_to_string_pretty m := bits (countable.encode (m : list Record0));
  metafile_from_str s := match countable.decode (A := list Record0) (of_bits s) with Some m => Ok m | None => Err "invalid" end;
|}.
Next Obligation. intros m. apply bits_utf8. Qed.
Next Obligation. intros m. cbn beta. rewrite of_bits_bits. by rewrite decode_encode. Qed.

Definition text_data (content : string) : ArtifactData := MkArtifactData content "text/plain" {["lang" := "en"]}.

Definition demo_ops : list ArtifactOp :=
  [OpSave "s1" "report" (text_data "one") 10%Z; OpSave "s1" "tool/out.txt" (text_data "x") 11%Z;
   OpSave "s1" "report" (text_data "two") 12%Z; OpLoad "s1" "report"; OpLoadVersion "s1" "report" 1;
   OpLoadVersion "s1" "report" 7; OpDelete "s1" "tool/out.txt"; OpList "s1"; OpLoad "s1" "tool/out.txt"].

Lemma artifact_stores_agree_witness :
  Forall2 reply_eq (@art_run _ _ (fs_store "/srv/artifacts") demo_ops fs_new) (art_run demo_ops memory_new)
  /\ map (fun r => match r with ReplyStored (Ok (Some (d, v))) => (ad_content d, av_version v) | _ => ("", 0%N) end)
       (art_run demo_ops memory_new)
     = [("", 0); ("", 0); ("", 0); ("two", 2); ("one", 1); ("", 0); ("", 0); ("", 0); ("", 0)]%N.
Proof.
  split; [|vm_compute; reflexivity].
  refine (proj1 (artifact_stores_agree "/srv/artifacts" demo_ops _ _)).
  - repeat constructor; try (apply (bool_decide_unpack _); vm_compute; reflexivity).
    exists "report". repeat split; try (vm_compute; reflexivity). discriminate.
  - vm_compute. reflexivity.
Defined.

Definition demo_root : string := "/srv/artifacts".

Definition after_save : Tree := snd (fs_save demo_root "s1" "report" (text_data "one") 10%Z fs_new).

Lemma interrupted_save_blocks_witness :
  fs_load demo_root "s1" "report" after_save = Ok (Some (text_data "one", MkArtifactVersion "report" 1 10%Z 3 "text/plain"))
  /\ fs_load demo_root "s1" "report" (save_cut demo_root "s1" "report" (text_data "two") 11%Z after_save)
     = Err (storage_invalid ("artifact 'report' in session 's1' has content for version 2 without metadata membership: "
              ++ "/srv/artifacts/s1/report/v2.bin")).
Proof.
  split; [vm_compute; reflexivity|].
  assert (file_usable "s1" "report") as Hu by (apply (bool_decide_unpack _); vm_compute; reflexivity).
  assert (fs_holds after_save (save_history ∅ "s1" "report" (text_data "one") 10%Z)) as Hh.
  { pose proof (fs_save_law demo_root fs_new ∅ "s1" "report" (text_data "one") 10%Z fs_new_holds Hu eq_refl) as H.
    unfold after_save. destruct (fs_save _ _ _ _ _ _) as [r fs']. apply H. }
  pose proof (interrupted_save_blocks demo_root _ _ "s1" "report" (text_data "two") 11%Z Hh Hu eq_refl) as H.
  destruct H as (_ & H & _). rewrite H. vm_compute. reflexivity.
Defined.

(** ** Names that mean each other's files *)

Definition saved (r : result ArtifactVersion ArtifactError * Tree) : bool := match fst r with Ok _ => true | Err _ => false end.
Definition content_of (r : result (option Stored) ArtifactError) : option string :=
  match r with Ok (Some (d, _)) => Some (ad_content d) | _ => None end.

(** The session ["."] is the root, from which every session's artifacts are names. *)
Lemma session_dot_reaches_all :
  validate_artifact_session "." = Ok tt
  /\ content_of (fs_load demo_root "." "s1/report" after_save) = Some "one".
Proof. split; vm_compute; reflexivity. Qed.

(** Names that differ in ["."] components are one artifact. *)
Lemma dot_names_alias :
  content_of (fs_load demo_root "s1" "a/b" (snd (fs_save demo_root "s1" "a/./b" (text_data "z") 1%Z fs_new))) = Some "z"
  /\ content_of (memory_load "s1" "a/b" (snd (memory_save "s1" "a/./b" (text_data "z") 1%Z memory_new))) = None.
Proof. split; vm_compute; reflexivity. Qed.

(** A name with a component of the store's own files and the artifact it is in
    keep each other from being saved. *)
Lemma own_names_collide :
  let fs1 := fs_save demo_root "s1" "x/meta.json" (text_data "z") 1%Z fs_new in
  saved fs1 = true
  /\ saved (fs_save demo_root "s1" "x" (text_data "w") 2%Z (snd fs1)) = false
  /\ saved (fs_save demo_root "s1" "report/v1.bin" (text_data "w") 2%Z after_save) = false.
Proof. split_and!; vm_compute; reflexivity. Qed.

(** A delete below the directory that a save has just made removes it again, and
    the save fails: their locks are those of different artifacts. *)
Lemma delete_races_save :
  let made := snd (create_dir_all fs_new ["s1"; "a"]) in
  let deleted := fs_delete "s1" "a/b" made in
  fst deleted = Ok tt
  /\ fst (save_created demo_root "s1" "a" (text_data "z") 1%Z ["s1"; "a"] made)
     = Ok (MkArtifactVersion "a" 1 1%Z 1 "text/plain")
  /\ fst (save_created demo_root "s1" "a" (text_data "z") 1%Z ["s1"; "a"] (snd deleted)) = Err (Storage no_such_file).
Proof. split_and!; vm_compute; reflexivity. Qed.

(** The store in memory takes any session. *)
Lemma memory_takes_any_session :
  (exists v, fst (memory_save "../other" "x" (text_data "z") 1%Z memory_new) = Ok v)
  /\ fst (fs_save demo_root "../other" "x" (text_data "z") 1%Z fs_new)
     = Err (InvalidSessionId "../other" "session id must not contain path separators").
Proof. split; [eexists|]; vm_compute; reflexivity. Qed.
