(* ===== verification/Compaction.v ===== *)
(** * Compaction with a summary: [memory/src/compaction.rs]

    A compactor is the sliding window of Context.v with a summary that the host
    stores between turns; the next compaction that drops messages puts it behind
    the anchor and forgets it. *)
From S2P Require Export Context Utf8.
Open Scope string_scope.
Open Scope list_scope.

Section Compactor.
Context `{E : Ext}.

(** @src memory/src/compaction.rs:55-64 [SummarizingCompactor] *)
Record SummarizingCompactor := MkSummarizingCompactor {
  cp_summary : option string;
  cp_normal_budget : N;
  cp_overflow_budget : N;
  cp_anchor : nat;
}.

(** @src memory/src/compaction.rs:68-75 [new] *)
Definition compactor_new (normal_budget overflow_budget : N) (anchor : nat) : SummarizingCompactor :=
  MkSummarizingCompactor None normal_budget overflow_budget anchor.

(** @src memory/src/compaction.rs:130-136 [set_summary] *)
Definition set_summary (c : SummarizingCompactor) (text : string) : SummarizingCompactor :=
  MkSummarizingCompactor (Some text) (cp_normal_budget c) (cp_overflow_budget c) (cp_anchor c).

(** @src memory/src/compaction.rs:139-145 [clear_summary] *)
Definition clear_summary (c : SummarizingCompactor) : SummarizingCompactor :=
  MkSummarizingCompactor None (cp_normal_budget c) (cp_overflow_budget c) (cp_anchor c).

(** @src memory/src/compaction.rs:148-154 [has_summary] *)
Definition has_summary (c : SummarizingCompactor) : bool := bool_decide (is_Some (cp_summary c)).

(** @src memory/src/compaction.rs:105-114 [compaction_fn, summary_msg] *)
Definition summary_message (text : string) : AgentMessage :=
  Llm (Assistant (MkAssistantMessage
    [Text ("[Context summary of earlier conversation]" ++ String LF text)%string]
    "" "" usage_default cost_default Stop None None 0 None)).

(** @src memory/src/compaction.rs:85-122 [compaction_fn] *)
Definition compaction_fn (c : SummarizingCompactor) (messages : list AgentMessage) (overflow : bool) :
    list AgentMessage * SummarizingCompactor :=
  let compacted := sliding_window (cp_normal_budget c) (cp_overflow_budget c) (cp_anchor c) messages overflow in
  if (length compacted <? length messages)%nat then
    match cp_summary c with
    | Some text =>
      let insert_pos := Nat.min (cp_anchor c) (length compacted) in
      (take insert_pos compacted ++ summary_message text :: drop insert_pos compacted, clear_summary c)
    | None => (compacted, c)
    end
  else (compacted, c).

(** Without a summary, or when nothing is dropped, this is the sliding window; a
    summary is used once. *)
Lemma compaction_fn_window c messages overflow :
  let '(messages', c') := compaction_fn c messages overflow in
  exists before after,
    sliding_window (cp_normal_budget c) (cp_overflow_budget c) (cp_anchor c) messages overflow = before ++ after
    /\ ((messages' = before ++ after /\ c' = c)
        \/ exists text, cp_summary c = Some text /\ messages' = before ++ summary_message text :: after
                      /\ c' = clear_summary c /\ length before <= cp_anchor c).
Proof.
  unfold compaction_fn. set (compacted := sliding_window _ _ _ _ _).
  destruct (length compacted <? length messages)%nat; [destruct (cp_summary c) as [text|] eqn:Hs|].
  - exists (take (Nat.min (cp_anchor c) (length compacted)) compacted), (drop (Nat.min (cp_anchor c) (length compacted)) compacted).
    split; [by rewrite take_drop|]. right. exists text. rewrite length_take. split_and!; try done. lia.
  - exists compacted, []. rewrite app_nil_r. auto.
  - exists compacted, []. rewrite app_nil_r. auto.
Qed.

(** What follows a closed group does not see it. *)
Lemma well_paired_after g rest :
  group_closed g = true ->
  match group_run g rest with Some g' => group_closed g' | None => false end = well_paired rest.
Proof.
  intros Hg. unfold well_paired. destruct rest as [|m rest]; cbn [group_run]; [done|].
  assert (group_step g m = group_step None m) as ->; [|done]. unfold group_step. rewrite Hg. cbn [group_closed].
  destruct (tool_result_id m); [|done]. by destruct g as [[ids [|? ?]]|].
Qed.

(** Where the anchor is no cut inside a tool group the result is a history that providers take. *)
Lemma compaction_fn_paired c messages overflow :
  well_paired (take (cp_anchor c) (sliding_window (cp_normal_budget c) (cp_overflow_budget c) (cp_anchor c) messages overflow)) = true ->
  well_paired (sliding_window (cp_normal_budget c) (cp_overflow_budget c) (cp_anchor c) messages overflow) = true ->
  well_paired (fst (compaction_fn c messages overflow)) = true.
Proof.
  unfold compaction_fn. set (compacted := sliding_window _ _ _ _ _). intros Ha Hc.
  destruct (length compacted <? length messages)%nat; [|done]. destruct (cp_summary c) as [text|]; [|done]. cbn [fst].
  assert (take (Nat.min (cp_anchor c) (length compacted)) compacted = take (cp_anchor c) compacted) as ->.
  { destruct (decide (cp_anchor c <= length compacted)); [by rewrite Nat.min_l|]. rewrite !firstn_all2 by lia. done. }
  assert (drop (Nat.min (cp_anchor c) (length compacted)) compacted = drop (cp_anchor c) compacted) as ->.
  { destruct (decide (cp_anchor c <= length compacted)); [by rewrite Nat.min_l|]. rewrite !skipn_all2 by lia. done. }
  rewrite <- (take_drop (cp_anchor c) compacted) in Hc. unfold well_paired in *. rewrite group_run_app in *.
  destruct (group_run None (take (cp_anchor c) compacted)) as [g|]; [|done]. cbn [mbind option_bind] in *.
  rewrite well_paired_after in Hc by done. cbn [group_run]. unfold group_step. cbn [tool_result_id summary_message].
  rewrite Ha. cbn. exact Hc.
Qed.

End Compactor.

(** The anchor ends inside a tool exchange: the window extends it over the results, but
    the summary goes between the call and its result. *)
Definition summarizing : SummarizingCompactor := MkSummarizingCompactor (Some "they talked") 24 24 2.

Lemma summary_splits_tool_group :
  well_paired demo_history = true
  /\ well_paired (sliding_window 24 24 2 demo_history false) = true
  /\ well_paired (fst (compaction_fn summarizing demo_history false)) = false.
Proof. by vm_compute. Qed.
