(* ===== verification/LocalThink.v ===== *)
(** * Thinking in the text of a local model: [local-llm/src/stream.rs]

    The parsers that split the text of a model, as it arrives, into thinking and
    text: [ThinkTagParser] and, with other delimiters, [ChannelThoughtParser].
    However the text is cut into tokens they give what a scan of all of it gives. *)
From S2P Require Export ByteFile BlockAccumulator.
From Stdlib Require Import Ascii.
Open Scope string_scope.
Open Scope list_scope.
Open Scope agent_scope.

(** ** Searching *)

(** [str::find] *)
Fixpoint str_find (needle s : string) : option nat :=
  if starts_with needle s then Some 0
  else match s with "" => None | String _ s' => S <$> str_find needle s' end.

(** The delimiters are ASCII, so the suffixes that start inside a character do
    not match.
    @src local-llm/src/stream.rs:71-96 [delimiter::partial_prefix_at_end] *)
Fixpoint partial_prefix_at_end (haystack needle : string) : option nat :=
  match haystack with
  | "" => None
  | String _ haystack' =>
    if (String.length haystack <? String.length needle)%nat && starts_with haystack needle
    then Some (String.length haystack)
    else partial_prefix_at_end haystack' needle
  end.

(** Appending to an output that may not be there yet.
    @src local-llm/src/stream.rs:246-251 [append] *)
Definition append (target : option string) (s : string) : option string :=
  Some (default "" target ++ s)%string.

Lemma starts_with_spec p s : starts_with p s = true <-> exists t, s = (p ++ t)%string.
Proof.
  split; [|by intros [t ->]; apply starts_with_app].
  revert s. induction p as [|a p IH]; intros s; [by exists s|]. destruct s as [|b s]; [done|]. cbn.
  rewrite andb_true_iff. intros [Ha Hs]. apply Ascii.eqb_eq in Ha as ->. destruct (IH s Hs) as [t ->]. by exists t.
Qed.

(** Nowhere in front of [b] does [n] start. *)
Definition no_start (n a b : string) : Prop :=
  forall j, j < String.length a -> starts_with n (str_drop j (a ++ b)) = false.

Lemma no_start_cons n x a b :
  no_start n (String x a) b <-> starts_with n (String x a ++ b) = false /\ no_start n a b.
Proof.
  split.
  - intros H. split; [apply (H 0); cbn; lia|]. intros j Hj. apply (H (S j)). cbn. lia.
  - intros [H0 H] [|j] Hj; [done|]. apply (H j). cbn in Hj. lia.
Qed.

Lemma no_start_nil n b : no_start n "" b.
Proof. intros j Hj. cbn in Hj. lia. Qed.

Lemma str_find_some n s i :
  str_find n s = Some i -> exists a b, s = (a ++ n ++ b)%string /\ String.length a = i /\ no_start n a (n ++ b).
Proof.
  revert i. induction s as [|x s IH]; intros i; cbn [str_find]; destruct (starts_with n _) eqn:Hs.
  1,3: intros [= <-]; apply starts_with_spec in Hs as [t ->]; exists "", t; split; [done|split; [done|apply no_start_nil]].
  - done.
  - intros Hi. apply fmap_Some in Hi as (j & Hj & ->). destruct (IH j Hj) as (a & b & -> & <- & Hn).
    exists (String x a), b. split; [done|]. split; [done|]. apply no_start_cons. split; [|done]. exact Hs.
Qed.

Lemma str_find_none n s : str_find n s = None -> no_start n s "".
Proof.
  induction s as [|x s IH]; cbn [str_find]; destruct (starts_with n _) eqn:Hs; try done.
    - intros _. apply no_start_nil.
  - intros Hf. apply fmap_None in Hf. apply no_start_cons. rewrite string_app_nil_r. split; [done|by apply IH].
Qed.

(** More text does not make a delimiter start earlier than where one is found. *)
(** The longest end of a text that begins the delimiter, or none; what is in
    front of it starts no delimiter, whatever comes. *)
Lemma partial_prefix_some needle h k :
  partial_prefix_at_end h needle = Some k ->
  exists a p, h = (a ++ p)%string /\ String.length p = k /\ starts_with p needle = true /\ k < String.length needle.
Proof.
  induction h as [|x h IH]; [done|]. cbn [partial_prefix_at_end].
  destruct ((String.length (String x h) <? String.length needle)%nat && starts_with (String x h) needle) eqn:Hc.
  - intros [= <-]. apply andb_true_iff in Hc as [Hl Hs]. apply Nat.ltb_lt in Hl. by exists "", (String x h).
  - intros (a & p & -> & Hp)%IH. by exists (String x a), p.
Qed.

Lemma starts_with_cut n u r :
  starts_with n (u ++ r) = true -> String.length u < String.length n -> starts_with u n = true.
Proof.
  revert u. induction n as [|x n IH]; intros [|y u]; cbn; try done; try lia.
  rewrite string_app_cons, !andb_true_iff. intros [Ha Hs] Hl. apply Ascii.eqb_eq in Ha as ->. rewrite Ascii.eqb_refl.
  split; [done|]. apply IH; [done|lia].
Qed.

Lemma starts_with_short n u r :
  starts_with n (u ++ r) = true -> String.length n <= String.length u -> starts_with n u = true.
Proof.
  intros Hs Hl. apply starts_with_spec in Hs as [t Ht]. apply starts_with_spec. exists (str_drop (String.length n) u).
  assert (str_take (String.length n) u = n) as Htk; [|rewrite <- Htk at 1; symmetry; apply str_take_drop].
  assert (str_take (String.length n) (u ++ r) = n) as Hr.
  { rewrite Ht, str_take_app, Nat.sub_diag, str_take_0, string_app_nil_r. by apply str_take_ge. }
  rewrite str_take_app in Hr. replace (String.length n - String.length u) with 0 in Hr by lia.
  by rewrite str_take_0, string_app_nil_r in Hr.
Qed.

Lemma longest_partial needle h j :
  j < String.length h -> String.length h - j < String.length needle -> starts_with (str_drop j h) needle = true ->
  exists k, partial_prefix_at_end h needle = Some k /\ String.length h - j <= k.
Proof.
  revert j. induction h as [|x h IH]; intros j Hj Hn Hs; [cbn in Hj; lia|]. cbn [partial_prefix_at_end].
  destruct (_ && _) eqn:Hc; [eexists; split; [done|lia]|]. destruct j as [|j].
  - exfalso. rewrite str_drop_0 in Hs. rewrite Hs, andb_true_r in Hc. apply Nat.ltb_nlt in Hc. lia.
  - cbn in Hj, Hn, Hs |- *. destruct (IH j) as (k' & Hk & Hle); [lia..|done|eauto].
Qed.

(** How much of the end is kept back. *)
Definition kept (needle h : string) : nat := default 0 (partial_prefix_at_end h needle).

(** No delimiter starts in what is not kept back, whatever comes. *)
Lemma no_start_flush needle h r :
  str_find needle h = None ->
  no_start needle (str_take (String.length h - kept needle h) h) (str_drop (String.length h - kept needle h) h ++ r).
Proof.
  intros Hf j Hj. rewrite str_take_length in Hj. apply not_true_iff_false. intros Hs.
  rewrite <- string_app_assoc, str_take_drop, str_drop_app in Hs.
  replace (j - String.length h) with 0 in Hs by lia. rewrite str_drop_0 in Hs.
  destruct (decide (String.length needle <= String.length (str_drop j h))) as [Hl|Hl].
  - apply starts_with_short in Hs; [|done]. pose proof (str_find_none _ _ Hf j) as Hn. rewrite string_app_nil_r in Hn.
    rewrite Hn in Hs; [done|lia].
  - apply starts_with_cut in Hs; [|lia]. rewrite str_drop_length in Hl.
    destruct (longest_partial needle h j) as (k & Hk & Hle); [lia|lia|done|]. unfold kept in Hj. rewrite Hk in Hj. cbn in Hj. lia.
Qed.

(** More text does not make a delimiter start earlier than where one is found. *)
Lemma no_start_more n a b r : no_start n a (n ++ b) -> no_start n a (n ++ (b ++ r)).
Proof.
  intros H j Hj. apply not_true_iff_false. intros Hs. specialize (H j Hj). apply not_true_iff_false in H. apply H.
  rewrite str_drop_app in Hs |- *. replace (j - String.length a) with 0 in * by lia. rewrite str_drop_0 in *.
  rewrite <- !string_app_assoc in Hs. rewrite <- string_app_assoc. apply starts_with_short in Hs; [done|].
  rewrite !string_app_length. lia.
Qed.

(** ** The parsers *)

(** @src local-llm/src/stream.rs:111-117 [think_tags::State] *)
Inductive ThinkState := TNormal | TPartialOpen | TInThinking | TPartialClose.

(** @src local-llm/src/stream.rs:105-109 [ThinkTagParser] *)
Record ThinkParser := MkThinkParser { tp_state : ThinkState; tp_buffer : string }.

(** What a call gives: thinking and text. *)
Definition ThinkOut : Type := option string * option string.

Section Parser.
Variables OPEN_DELIM CLOSE_DELIM : string.

Definition think_new : ThinkParser := MkThinkParser TNormal "".

(** [append] when there is something to append. *)
Definition append_nonempty (target : option string) (s : string) : option string :=
  if str_is_empty s then target else append target s.

Definition put (thinking : bool) (s : string) (out : ThinkOut) : ThinkOut :=
  let '(th, tx) := out in if thinking then (append_nonempty th s, tx) else (th, append_nonempty tx s).

(** Outside a delimiter: up to the next one, or what cannot be the start of one. *)
Definition think_scan (thinking : bool) (delim buffer : string) (out : ThinkOut) : bool * ThinkParser * ThinkOut :=
  match str_find delim buffer with
  | Some pos =>
    (true, MkThinkParser (if thinking then TNormal else TInThinking) (str_drop (pos + String.length delim) buffer),
     put thinking (str_take pos buffer) out)
  | None =>
    match partial_prefix_at_end buffer delim with
    | Some partial_len =>
      let flush_end := String.length buffer - partial_len in
      (false, MkThinkParser (if thinking then TPartialClose else TPartialOpen) (str_drop flush_end buffer),
       put thinking (str_take flush_end buffer) out)
    | None => (false, MkThinkParser (if thinking then TInThinking else TNormal) "", put thinking buffer out)
    end
  end.

(** Behind the start of a delimiter. *)
Definition think_partial (thinking : bool) (delim buffer : string) (out : ThinkOut) : bool * ThinkParser * ThinkOut :=
  let back := if thinking then TInThinking else TNormal in
  if (String.length delim <=? String.length buffer)%nat then
    if starts_with delim buffer
    then (true, MkThinkParser (if thinking then TNormal else TInThinking) (str_drop (String.length delim) buffer), out)
    else (true, MkThinkParser back buffer, out)
  else if starts_with buffer delim
  then (false, MkThinkParser (if thinking then TPartialClose else TPartialOpen) buffer, out)
  else (true, MkThinkParser back buffer, out).

(** One round of the loop: whether it goes on.
    @src local-llm/src/stream.rs:133-225 [ThinkTagParser::process: the loop] *)
Definition think_round (p : ThinkParser) (out : ThinkOut) : bool * ThinkParser * ThinkOut :=
  match tp_state p with
  | TNormal => think_scan false OPEN_DELIM (tp_buffer p) out
  | TPartialOpen => think_partial false OPEN_DELIM (tp_buffer p) out
  | TInThinking => think_scan true CLOSE_DELIM (tp_buffer p) out
  | TPartialClose => think_partial true CLOSE_DELIM (tp_buffer p) out
  end.

Fixpoint think_loop (fuel : nat) (p : ThinkParser) (out : ThinkOut) : option (ThinkOut * ThinkParser) :=
  match fuel with
  | 0 => None
  | S fuel' =>
    match think_round p out with
    | (true, p', out') => think_loop fuel' p' out'
    | (false, p', out') => Some (out', p')
    end
  end.

(** Two rounds use up a byte of the buffer.
    @src local-llm/src/stream.rs:127-228 [ThinkTagParser::process (brace)] *)
Definition think_process (content : string) (p : ThinkParser) : option (ThinkOut * ThinkParser) :=
  let buffer := (tp_buffer p ++ content)%string in
  think_loop (2 * String.length buffer + 2) (MkThinkParser (tp_state p) buffer) (None, None).

(** @src local-llm/src/stream.rs:230-243 [ThinkTagParser::finish] *)
Definition think_finish (p : ThinkParser) : ThinkOut * ThinkParser :=
  if str_is_empty (tp_buffer p) then ((None, None), p)
  else match tp_state p with
       | TNormal | TPartialOpen => ((None, Some (tp_buffer p)), MkThinkParser TNormal "")
       | TInThinking | TPartialClose => ((Some (tp_buffer p), None), MkThinkParser TNormal "")
       end.

(** ** What they mean *)

Definition delim_of (thinking : bool) : string := if thinking then CLOSE_DELIM else OPEN_DELIM.

(** A scan of the whole text: its thinking and its text; [skip] bytes of a
    delimiter are still to come. *)
Fixpoint think_split (thinking : bool) (skip : nat) (s : string) : string * string :=
  match s with
  | "" => ("", "")
  | String a s' =>
    match skip with
    | S skip' => think_split thinking skip' s'
    | 0 =>
      if starts_with (delim_of thinking) s
      then think_split (negb thinking) (String.length (delim_of thinking) - 1) s'
      else let '(th, tx) := think_split thinking 0 s' in
           if thinking then (String a th, tx) else (th, String a tx)
    end
  end.

Definition put_split (thinking : bool) (s : string) (x : string * string) : string * string :=
  if thinking then ((s ++ fst x)%string, snd x) else (fst x, (s ++ snd x)%string).

Lemma split_skip thinking k s : think_split thinking k s = think_split thinking 0 (str_drop k s).
Proof. revert k. induction s as [|a s IH]; intros [|k]; try done. cbn [think_split str_drop]. apply IH. Qed.

Lemma split_delim thinking r :
  delim_of thinking <> "" ->
  think_split thinking 0 (delim_of thinking ++ r) = think_split (negb thinking) 0 r.
Proof.
  intros Hne. destruct (delim_of thinking) as [|a d] eqn:Hd; [done|]. rewrite string_app_cons. cbn [think_split].
  rewrite Hd. rewrite <- string_app_cons, starts_with_app. rewrite split_skip. cbn [String.length].
  replace (S (String.length d) - 1) with (String.length d) by lia.
  by rewrite str_drop_app, str_drop_ge, Nat.sub_diag, str_drop_0, string_app_nil_l by lia.
Qed.

Lemma split_front thinking a b :
  no_start (delim_of thinking) a b -> think_split thinking 0 (a ++ b) = put_split thinking a (think_split thinking 0 b).
Proof.
  induction a as [|x a IH].
  - intros _. cbn. unfold put_split. rewrite !string_app_nil_l. by destruct thinking, (think_split _ _ _).
  - intros [H0 H]%no_start_cons. rewrite string_app_cons in H0 |- *. cbn [think_split]. rewrite H0, (IH H).
    unfold put_split. by destruct thinking.
Qed.

(** What is still to come of a parser when [r] comes. *)
Definition is_thinking (p : ThinkParser) : bool :=
  match tp_state p with TInThinking | TPartialClose => true | _ => false end.

Definition remaining (p : ThinkParser) (r : string) : string * string :=
  think_split (is_thinking p) 0 (tp_buffer p ++ r).

(** The output so far, with what is to come. *)
Definition with_out (out : ThinkOut) (x : string * string) : string * string :=
  ((default "" (fst out) ++ fst x)%string, (default "" (snd out) ++ snd x)%string).

Lemma with_put thinking s out x : with_out (put thinking s out) x = with_out out (put_split thinking s x).
Proof.
  assert (forall t, (default "" (append_nonempty t s) = default "" t ++ s)%string) as Ha.
  { intros t. unfold append_nonempty. destruct s; [by rewrite string_app_nil_r|done]. }
  unfold with_out. destruct out as [th tx], x as [xh xt], thinking; cbn; by rewrite Ha, string_app_assoc.
Qed.

Hypothesis open_long : 1 < String.length OPEN_DELIM.
Hypothesis close_long : 1 < String.length CLOSE_DELIM.

Lemma delim_long thinking : 1 < String.length (delim_of thinking).
Proof using open_long close_long. by destruct thinking. Qed.

Lemma delim_nonempty thinking : delim_of thinking <> "".
Proof using open_long close_long. intros He. pose proof (delim_long thinking) as Hl. rewrite He in Hl. cbn in Hl. lia. Qed.

(** The buffer at the end of a call: nothing, or the start of a delimiter. *)
Definition think_settled (p : ThinkParser) : Prop :=
  match tp_state p with
  | TNormal | TInThinking => tp_buffer p = ""
  | TPartialOpen | TPartialClose =>
    String.length (tp_buffer p) < String.length (delim_of (is_thinking p))
    /\ starts_with (tp_buffer p) (delim_of (is_thinking p)) = true
  end.

(** Rounds that are left, at most. *)
Definition rounds (p : ThinkParser) : nat :=
  2 * String.length (tp_buffer p) + match tp_state p with TPartialOpen | TPartialClose => 1 | _ => 0 end.

(** What a round keeps. *)
Definition round_ok (p : ThinkParser) (out : ThinkOut) (x : bool * ThinkParser * ThinkOut) : Prop :=
  let '(more, p', out') := x in
  (forall r, with_out out (remaining p r) = with_out out' (remaining p' r))
  /\ (if more then rounds p' < rounds p else think_settled p').

Lemma think_scan_ok thinking p out :
  is_thinking p = thinking -> (tp_state p = TNormal \/ tp_state p = TInThinking) ->
  round_ok p out (think_scan thinking (delim_of thinking) (tp_buffer p) out).
Proof using open_long close_long.
  intros Ht Hst. unfold think_scan, round_ok. pose proof (delim_long thinking) as Hl.
  destruct (str_find (delim_of thinking) (tp_buffer p)) as [pos|] eqn:Hf.
  - apply str_find_some in Hf as (a & b & Hb & Hpos & Hn). rewrite Hb.
    assert (str_take pos (a ++ delim_of thinking ++ b) = a) as ->.
    { rewrite str_take_app, Hpos, Nat.sub_diag, str_take_0, string_app_nil_r. apply str_take_ge. lia. }
    assert (str_drop (pos + String.length (delim_of thinking)) (a ++ delim_of thinking ++ b) = b) as ->.
    { rewrite <- str_drop_drop, (str_drop_app pos a), (str_drop_ge pos a), Hpos, Nat.sub_diag, str_drop_0, string_app_nil_l by lia.
      rewrite str_drop_app, Nat.sub_diag, str_drop_0, str_drop_ge by lia. done. }
    split.
    + intros r. rewrite with_put. f_equal. unfold remaining. rewrite Ht, Hb.
      rewrite !string_app_assoc, split_front by (by apply no_start_more). f_equal.
      rewrite split_delim by apply delim_nonempty. by destruct thinking.
    + unfold rounds. cbn [tp_buffer tp_state]. rewrite Hb, !string_app_length.
      destruct thinking; cbn; lia.
  - destruct (partial_prefix_at_end _ _) as [k|] eqn:Hp.
    + split.
      * intros r. rewrite with_put. f_equal. unfold remaining. cbn [tp_buffer]. rewrite Ht.
        replace (is_thinking _) with thinking by (by destruct thinking).
        rewrite <- (str_take_drop (String.length (tp_buffer p) - k) (tp_buffer p)) at 1.
        rewrite string_app_assoc. apply split_front. pose proof (no_start_flush _ _ r Hf) as Hn. unfold kept in Hn.
        by rewrite Hp in Hn.
      * apply partial_prefix_some in Hp as (a & q & Hb & Hk & Hs & Hlt). rewrite Hb.
        assert (str_drop (String.length (a ++ q) - k) (a ++ q) = q) as ->.
        { rewrite string_app_length. replace (String.length a + String.length q - k) with (String.length a) by lia.
          by rewrite str_drop_app, Nat.sub_diag, str_drop_0, str_drop_ge by lia. }
        unfold think_settled. destruct thinking; cbn in *; (split; [lia|done]).
    + split.
      * intros r. rewrite with_put. f_equal. unfold remaining. cbn [tp_buffer]. rewrite Ht.
        replace (is_thinking _) with thinking by (by destruct thinking).
        rewrite string_app_nil_l. apply split_front. pose proof (no_start_flush _ _ r Hf) as Hn. unfold kept in Hn.
        rewrite Hp in Hn. cbn [default] in Hn. rewrite Nat.sub_0_r in Hn.
        by rewrite str_take_ge, str_drop_ge, string_app_nil_l in Hn by lia.
      * by destruct thinking.
Qed.

Lemma think_partial_ok thinking p out :
  is_thinking p = thinking -> (tp_state p = TPartialOpen \/ tp_state p = TPartialClose) ->
  round_ok p out (think_partial thinking (delim_of thinking) (tp_buffer p) out).
Proof using open_long close_long.
  intros Ht Hst. unfold think_partial, round_ok. pose proof (delim_long thinking) as Hl.
  assert (rounds p = 2 * String.length (tp_buffer p) + 1) as Hr by (unfold rounds; destruct Hst as [-> | ->]; done).
  assert (forall st, (match st with TInThinking | TPartialClose => true | _ => false end) = thinking ->
            forall r, remaining (MkThinkParser st (tp_buffer p)) r = remaining p r) as Hsame.
  { intros st Hs r. unfold remaining. rewrite Ht. cbn [tp_buffer]. by replace (is_thinking _) with thinking. }
  destruct (_ <=? _)%nat eqn:Hle.
  - apply Nat.leb_le in Hle. destruct (starts_with _ (tp_buffer p)) eqn:Hs.
    + apply starts_with_spec in Hs as [b Hb]. split.
      * intros r. f_equal. unfold remaining. rewrite Ht, Hb. cbn [tp_buffer].
        rewrite str_drop_app, str_drop_ge, Nat.sub_diag, str_drop_0, string_app_nil_l by lia.
        rewrite string_app_assoc, split_delim by apply delim_nonempty. by destruct thinking.
      * rewrite Hr. unfold rounds. cbn [tp_buffer tp_state]. rewrite str_drop_length. destruct thinking; lia.
    + split; [intros r; f_equal; symmetry; apply Hsame; by destruct thinking|].
      rewrite Hr. unfold rounds. cbn [tp_buffer tp_state]. destruct thinking; lia.
  - apply Nat.leb_nle in Hle. destruct (starts_with (tp_buffer p) _) eqn:Hs.
    + split; [intros r; f_equal; symmetry; apply Hsame; by destruct thinking|].
      unfold think_settled. destruct thinking; cbn in *; (split; [lia|done]).
    + split; [intros r; f_equal; symmetry; apply Hsame; by destruct thinking|].
      rewrite Hr. unfold rounds. cbn [tp_buffer tp_state]. destruct thinking; lia.
Qed.

Lemma think_round_keeps p out : round_ok p out (think_round p out).
Proof using open_long close_long.
  unfold think_round. destruct p as [[] buffer]; cbn [tp_state tp_buffer].
  - apply (think_scan_ok false (MkThinkParser TNormal buffer)); auto.
  - apply (think_partial_ok false (MkThinkParser TPartialOpen buffer)); auto.
  - apply (think_scan_ok true (MkThinkParser TInThinking buffer)); auto.
  - apply (think_partial_ok true (MkThinkParser TPartialClose buffer)); auto.
Qed.

Lemma think_loop_keeps fuel p out :
  rounds p < fuel ->
  exists out' p', think_loop fuel p out = Some (out', p') /\ think_settled p'
    /\ forall r, with_out out (remaining p r) = with_out out' (remaining p' r).
Proof using open_long close_long.
  revert p out. induction fuel as [|fuel IH]; intros p out Hf; [lia|]. cbn [think_loop].
  pose proof (think_round_keeps p out) as H. unfold round_ok in H. destruct (think_round p out) as [[more p'] out'].
  destruct H as [Hr H]. destruct more; [|eauto].
  destruct (IH p' out') as (out2 & p2 & He & Hs & Hr2); [lia|]. exists out2, p2. split; [done|]. split; [done|].
  intros r. by rewrite Hr, Hr2.
Qed.

(** A call returns, and gives its part of what a scan of everything gives. *)
Lemma think_process_keeps content p :
  exists out p', think_process content p = Some (out, p') /\ think_settled p'
    /\ forall r, remaining p (content ++ r) = with_out out (remaining p' r).
Proof using open_long close_long.
  unfold think_process. set (q := MkThinkParser (tp_state p) (tp_buffer p ++ content)).
  destruct (think_loop_keeps (2 * String.length (tp_buffer p ++ content) + 2) q (None, None)) as (out & p' & He & Hs & Hr).
  { unfold rounds, q. cbn. destruct (tp_state p); lia. }
  exists out, p'. split; [done|]. split; [done|]. intros r. rewrite <- Hr. unfold remaining, with_out. cbn.
  unfold is_thinking, q. cbn. rewrite string_app_assoc. by destruct (think_split _ _ _).
Qed.

Lemma split_partial thinking b :
  String.length b < String.length (delim_of thinking) -> think_split thinking 0 b = put_split thinking b ("", "").
Proof.
  intros Hb. rewrite <- (string_app_nil_r b) at 1. rewrite split_front; [done|]. intros j Hj.
  apply not_true_iff_false. intros [t Ht]%starts_with_spec. apply (f_equal String.length) in Ht.
  rewrite str_drop_length, !string_app_length in Ht. cbn in Ht. lia.
Qed.

Lemma think_finish_keeps p : think_settled p -> remaining p "" = with_out (fst (think_finish p)) ("", "").
Proof using open_long close_long.
  intros Hs. unfold remaining. rewrite string_app_nil_r. rewrite split_partial.
  - unfold think_finish, put_split, with_out. destruct p as [st b]. cbn [tp_buffer tp_state].
    destruct b as [|x b]; [by destruct (is_thinking _)|]. cbn [str_is_empty].
    destruct st; cbn; by rewrite ?string_app_nil_r.
  - pose proof (delim_long (is_thinking p)) as Hl. unfold think_settled in Hs.
    destruct (tp_state p); [rewrite Hs; cbn; lia|apply Hs|rewrite Hs; cbn; lia|apply Hs].
Qed.

(** The text, token by token. *)
Fixpoint think_run (p : ThinkParser) (tokens : list string) : option (list ThinkOut * ThinkParser) :=
  match tokens with
  | [] => Some ([], p)
  | t :: tokens' =>
    '(out, p1) ← think_process t p;
    '(outs, p2) ← think_run p1 tokens';
    Some (out :: outs, p2)
  end.

(** All the thinking and all the text of some outputs. *)
Definition gathered (outs : list ThinkOut) : string * string :=
  (concat_text (map (fun o => default "" (fst o)) outs), concat_text (map (fun o => default "" (snd o)) outs)).

Lemma concat_text_cons d ds : concat_text (d :: ds) = (d ++ concat_text ds)%string.
Proof. unfold concat_text at 1. cbn [foldl]. rewrite Assembly.foldl_append. by rewrite string_app_nil_l. Qed.

Lemma gathered_cons o outs : gathered (o :: outs) = with_out o (gathered outs).
Proof. unfold gathered, with_out. cbn [map]. by rewrite !concat_text_cons. Qed.

Lemma think_run_keeps p tokens :
  think_settled p ->
  exists outs p', think_run p tokens = Some (outs, p') /\ think_settled p'
    /\ remaining p (concat_text tokens) = gathered (outs ++ [fst (think_finish p')]).
Proof using open_long close_long.
  revert p. induction tokens as [|t tokens IH]; intros p Hs; cbn [think_run].
  - exists [], p. split; [done|]. split; [done|]. cbn [app]. rewrite gathered_cons. by apply think_finish_keeps.
  - destruct (think_process_keeps t p) as (out & p1 & He & Hs1 & Hr). rewrite He. cbn [mbind option_bind].
    destruct (IH p1 Hs1) as (outs & p2 & He2 & Hs2 & Hr2). rewrite He2. cbn [mbind option_bind].
    exists (out :: outs), p2. split; [done|]. split; [done|]. cbn [app]. rewrite gathered_cons, <- Hr2. rewrite concat_text_cons. apply Hr.
Qed.

End Parser.
