(* ===== verification/LocalTool.v ===== *)
(** * Tool calls in the text of a local model: [local-llm/src/stream.rs]

    The parsers that find tool calls in the text as it arrives: the default one,
    [call:name{...}], and that of the Gemma models.  Nothing of the text is lost
    and nothing is made up: what comes out, put together again, is what went in. *)
From S2P Require Export LocalThink.
From Stdlib Require Import Ascii.
Open Scope string_scope.
Open Scope list_scope.
Open Scope agent_scope.

(** @src local-llm/src/stream.rs:894-896 [is_tool_name_char] *)
Definition is_tool_name_char (a : ascii) : bool :=
  let n := N_of_ascii a in
  (((48 <=? n) && (n <=? 57)) || ((65 <=? n) && (n <=? 90)) || ((97 <=? n) && (n <=? 122))
   || (n =? 95) || (n =? 45))%N.

Lemma tool_name_char_plain a :
  is_tool_name_char a = true -> white1 a = false /\ forall b c, white2 a b = false /\ white2 b a = false
    /\ white3 a b c = false /\ white3 c b a = false.
Proof.
  unfold is_tool_name_char, white1, white2, white3. intros H.
  repeat (apply orb_true_iff in H as [H|H]); rewrite ?andb_true_iff, ?N.leb_le, ?N.eqb_eq in H;
    (split; [apply not_true_iff_false; rewrite orb_true_iff, andb_true_iff, !N.leb_le, N.eqb_eq; lia|]);
    intros b c; split_and!; apply not_true_iff_false;
    rewrite ?orb_true_iff, ?andb_true_iff, ?orb_true_iff, ?andb_true_iff, ?N.leb_le, ?N.eqb_eq; lia.
Qed.

Lemma trim_name s : string_all is_tool_name_char s = true -> trim s = s.
Proof.
  intros Hs. assert (trim_end s = s) as He.
  { unfold trim_end, rev_bytes. assert (strip_white (rev (String.list_ascii_of_string s)) = rev (String.list_ascii_of_string s)) as ->.
    - assert (Forall (fun a => is_tool_name_char a = true) (String.list_ascii_of_string s)) as Hl.
      { induction s as [|a s IH]; cbn in *; [constructor|]. apply andb_true_iff in Hs as [Ha Hs]. constructor; auto. }
      apply Forall_rev in Hl. destruct Hl as [|a l Ha Hl]; [done|]. apply tool_name_char_plain in Ha as [H1 H].
      cbn -[white1 white2 white3]. rewrite H1. destruct l as [|b l]; [done|]. destruct (H b a) as (_ & -> & _).
      destruct l as [|c l]; [done|]. by destruct (H b c) as (_ & _ & _ & ->).
    - rewrite rev_involutive. apply String.string_of_list_ascii_of_string. }
  unfold trim. rewrite He. destruct s as [|a s]; [done|]. cbn in Hs. apply andb_true_iff in Hs as [Ha _].
  apply tool_name_char_plain in Ha as [H1 H]. cbn -[white1 white2 white3]. rewrite H1. destruct s as [|b s]; [done|].
  destruct (H b a) as (-> & _). destruct s as [|c s]; [done|]. by destruct (H b c) as (_ & _ & -> & _).
Qed.

(** ** What the parsers give *)

(** @src local-llm/src/stream.rs:642-645 [ParsedToolCall] *)
Record ParsedToolCall := MkParsedToolCall { ptc_name : string; ptc_args : string }.

(** @src local-llm/src/stream.rs:647-651 [ToolCallFinish] *)
Inductive ToolCallFinish := FinishText (text : string) | FinishPartial (name args : string).

Definition ToolOut : Type := list ParsedToolCall * option string.

Definition put_text (s : string) (out : ToolOut) : ToolOut := (fst out, append_nonempty (snd out) s).
Definition put_call (c : ParsedToolCall) (out : ToolOut) : ToolOut := (fst out ++ [c], snd out).

(** Text and calls in the order of the text they are from; the name of a call as
    it stands there. *)
Inductive Piece := PieceText (text : string) | PieceCall (name args : string).

Definition piece_texts (ps : list Piece) : string :=
  concat_text (filtermap (fun p => match p with PieceText t => Some t | _ => None end) ps).
Definition piece_calls (ps : list Piece) : list ParsedToolCall :=
  filtermap (fun p => match p with PieceCall n a => Some (MkParsedToolCall (trim n) a) | _ => None end) ps.

Lemma piece_texts_app a b : piece_texts (a ++ b) = (piece_texts a ++ piece_texts b)%string.
Proof. unfold piece_texts. by rewrite filtermap_app, Assembly.concat_text_app. Qed.

Lemma piece_calls_app a b : piece_calls (a ++ b) = piece_calls a ++ piece_calls b.
Proof. apply filtermap_app. Qed.

(** [out'] is [out] with the pieces behind it. *)
Definition gives (ps : list Piece) (out out' : ToolOut) : Prop :=
  fst out' = fst out ++ piece_calls ps /\ default "" (snd out') = (default "" (snd out) ++ piece_texts ps)%string.

Lemma gives_nil out : gives [] out out.
Proof. split; [by rewrite app_nil_r|]. by rewrite string_app_nil_r. Qed.

Lemma gives_app ps qs out1 out2 out3 : gives ps out1 out2 -> gives qs out2 out3 -> gives (ps ++ qs) out1 out3.
Proof.
  intros [H1 H2] [H3 H4]. split.
  - by rewrite H3, H1, piece_calls_app, app_assoc.
  - by rewrite H4, H2, piece_texts_app, string_app_assoc.
Qed.

Lemma piece_text_one s : piece_texts [PieceText s] = s.
Proof. unfold piece_texts. cbn [filtermap]. rewrite concat_text_cons. apply string_app_nil_r. Qed.

Lemma gives_text s out : gives [PieceText s] out (put_text s out).
Proof.
  split; [by rewrite app_nil_r|]. rewrite piece_text_one. unfold put_text, append_nonempty. cbn [snd].
  destruct s; [by rewrite string_app_nil_r|done].
Qed.

Lemma gives_call n a out : gives [PieceCall n a] out (put_call (MkParsedToolCall (trim n) a) out).
Proof. split; [done|]. by rewrite string_app_nil_r. Qed.

(** The pieces as they stood in the text. *)
Definition raws (raw : Piece -> string) (ps : list Piece) : string := concat_text (map raw ps).

Lemma raws_app raw a b : raws raw (a ++ b) = (raws raw a ++ raws raw b)%string.
Proof. unfold raws. by rewrite map_app, Assembly.concat_text_app. Qed.

Lemma raws_one raw x : raws raw [x] = raw x.
Proof. unfold raws. cbn [map]. rewrite concat_text_cons. apply string_app_nil_r. Qed.

Lemma raws_nil raw : raws raw [] = "".
Proof. done. Qed.

Lemma find_parts delim s pos :
  str_find delim s = Some pos ->
  s = (str_take pos s ++ delim ++ str_drop (pos + String.length delim) s)%string
  /\ pos + String.length delim <= String.length s.
Proof.
  intros (a & b & -> & <- & _)%str_find_some. rewrite !string_app_length. split; [|lia].
  rewrite str_take_app, Nat.sub_diag, str_take_0, string_app_nil_r, (str_take_ge _ a) by lia. do 2 f_equal.
  rewrite <- str_drop_drop, (str_drop_app _ a), (str_drop_ge _ a), Nat.sub_diag, str_drop_0, string_app_nil_l by lia.
  by rewrite str_drop_app, Nat.sub_diag, str_drop_0, str_drop_ge by lia.
Qed.

(** The pieces of a call's output. *)
Definition out_is (ps : list Piece) (out : ToolOut) : Prop :=
  fst out = piece_calls ps /\ default "" (snd out) = piece_texts ps.

Lemma gives_out ps out : gives ps ([], None) out -> out_is ps out.
Proof. intros [H1 H2]. split; [done|]. by rewrite H2, string_app_nil_l. Qed.

(** ** The arguments: one object *)

Record JsonScan := MkJsonScan { json_depth : nat; in_string : bool; escape : bool }.

Definition json_start : JsonScan := MkJsonScan 0 false false.

(** A byte of the arguments; whether it closes the object. *)
Definition json_byte (j : JsonScan) (a : ascii) : JsonScan * bool :=
  if escape j then (MkJsonScan (json_depth j) (in_string j) false, false)
  else if in_string j then
    (if Ascii.eqb a "\"%char then MkJsonScan (json_depth j) true true
     else if Ascii.eqb a "034"%char then MkJsonScan (json_depth j) false false
     else j, false)
  else if Ascii.eqb a "034"%char then (MkJsonScan (json_depth j) true false, false)
  else if Ascii.eqb a "{"%char then (MkJsonScan (S (json_depth j)) false false, false)
  else if Ascii.eqb a "}"%char then
    (MkJsonScan (pred (json_depth j)) false false, (pred (json_depth j) =? 0)%nat)
  else (j, false).

(** The bytes up to the end of the object, if it is there; what is behind it.
    @src local-llm/src/stream.rs:845-877 [consume_args_buffer] *)
Fixpoint consume_args (j : JsonScan) (args buffer : string) : option string * (JsonScan * string) :=
  match buffer with
  | "" => (None, (j, args))
  | String a rest =>
    let args := (args ++ String a "")%string in
    match json_byte j a with
    | (j', true) => (Some rest, (j', args))
    | (j', false) => consume_args j' args rest
    end
  end.

(** [args] is one object and nothing behind it. *)
Fixpoint json_closed (j : JsonScan) (args : string) : bool :=
  match args with
  | "" => false
  | String a rest =>
    match json_byte j a with
    | (_, true) => str_is_empty rest
    | (j', false) => json_closed j' rest
    end
  end.

(** The scan of the beginning of an object. *)
Fixpoint json_run (j : JsonScan) (s : string) : option JsonScan :=
  match s with
  | "" => Some j
  | String a rest => match json_byte j a with (_, true) => None | (j', false) => json_run j' rest end
  end.

Lemma json_run_app j s t : json_run j (s ++ t) = json_run j s ≫= fun j' => json_run j' t.
Proof.
  revert j. induction s as [|a s IH]; intros j; [done|]. rewrite string_app_cons. cbn [json_run].
  destruct (json_byte j a) as [j' []]; [done|]. apply IH.
Qed.

Lemma json_closed_app j s t j' : json_run j s = Some j' -> json_closed j (s ++ t) = json_closed j' t.
Proof.
  revert j. induction s as [|a s IH]; intros j; cbn [json_run]; [by intros [= ->]|].
  rewrite string_app_cons. cbn [json_closed]. destruct (json_byte j a) as [j1 []]; [done|]. apply IH.
Qed.

(** What the scan takes and leaves. *)
Lemma consume_spec j args buffer :
  match consume_args j args buffer with
  | (Some rest, (_, args')) =>
    exists taken, buffer = (taken ++ rest)%string /\ args' = (args ++ taken)%string /\ json_closed j taken = true
  | (None, (j', args')) => args' = (args ++ buffer)%string /\ json_run j buffer = Some j'
  end.
Proof.
  revert j args. induction buffer as [|a rest IH]; intros j args; cbn [consume_args].
  - split; [by rewrite string_app_nil_r|done].
  - destruct (json_byte j a) as [j' []] eqn:Ha.
    + exists (String a ""). split; [done|]. split; [done|]. cbn. by rewrite Ha.
    + specialize (IH j' (args ++ String a "")%string). destruct (consume_args _ _ _) as [[rest'|] [j2 args2]].
      * destruct IH as (taken & -> & -> & Hc). exists (String a taken). split; [done|].
        split; [by rewrite string_app_assoc|]. cbn. by rewrite Ha.
      * destruct IH as [-> Hr]. split; [by rewrite string_app_assoc|]. cbn. by rewrite Ha.
Qed.

(** ** The default parser *)

Module DefaultTool.

(** @src local-llm/src/stream.rs:640-640 [default_tool_call::OPEN_DELIM] *)
Definition OPEN_DELIM : string := "call:".

(** @src local-llm/src/stream.rs:664-670 [State] *)
Inductive State := Normal | PartialOpen | InName | InArgs.

(** @src local-llm/src/stream.rs:653-662 [ToolCallParser] *)
Record ToolCallParser := MkToolCallParser {
  dp_state : State;
  dp_buffer : string;
  dp_name : string;
  dp_args : string;
  dp_json : JsonScan;
}.

(** @src local-llm/src/stream.rs:673-683 [ToolCallParser::new (brace)] *)
Definition new : ToolCallParser := MkToolCallParser Normal "" "" "" json_start.

Definition with_buffer (p : ToolCallParser) (s : string) : ToolCallParser :=
  MkToolCallParser (dp_state p) s (dp_name p) (dp_args p) (dp_json p).

(** The parser at the start of a name. *)
Definition start_name (buffer : string) : ToolCallParser := MkToolCallParser InName buffer "" "" json_start.

(** @src local-llm/src/stream.rs:879-885 [flush_invalid_call] *)
Definition flush_invalid_call (p : ToolCallParser) (out : ToolOut) : ToolCallParser * ToolOut :=
  (MkToolCallParser (dp_state p) (dp_buffer p) "" "" json_start,
   (fst out, append (append (snd out) OPEN_DELIM) (dp_name p))).

(** The bytes of a name in front. *)
Fixpoint valid_prefix_len (s : string) : nat :=
  match s with
  | "" => 0
  | String a s' => if is_tool_name_char a then S (valid_prefix_len s') else 0
  end.

(** One round of the loop: whether it goes on.
    @src local-llm/src/stream.rs:692-794 [ToolCallParser::process: the loop (brace)] *)
Definition round (p : ToolCallParser) (out : ToolOut) : bool * ToolCallParser * ToolOut :=
  let buffer := dp_buffer p in
  let back (x : ToolCallParser * ToolOut) :=
    (true, MkToolCallParser Normal (dp_buffer (fst x)) (dp_name (fst x)) (dp_args (fst x)) (dp_json (fst x)), snd x) in
  match dp_state p with
  | Normal =>
    match str_find OPEN_DELIM buffer with
    | Some pos => (true, start_name (str_drop (pos + String.length OPEN_DELIM) buffer), put_text (str_take pos buffer) out)
    | None =>
      match partial_prefix_at_end buffer OPEN_DELIM with
      | Some partial_len =>
        let flush_end := String.length buffer - partial_len in
        (false, MkToolCallParser PartialOpen (str_drop flush_end buffer) (dp_name p) (dp_args p) (dp_json p),
         put_text (str_take flush_end buffer) out)
      | None => (false, with_buffer p "", put_text buffer out)
      end
    end
  | PartialOpen =>
    if (String.length OPEN_DELIM <=? String.length buffer)%nat then
      if starts_with OPEN_DELIM buffer
      then (true, start_name (str_drop (String.length OPEN_DELIM) buffer), out)
      else back (p, out)
    else if starts_with buffer OPEN_DELIM then (false, p, out)
    else back (p, out)
  | InName =>
    match str_find "{" buffer with
    | Some pos =>
      let candidate := str_take pos buffer in
      if negb (string_all is_tool_name_char candidate) then back (flush_invalid_call p out)
      else
        let name := (dp_name p ++ candidate)%string in
        if str_is_empty name
        then back (flush_invalid_call (MkToolCallParser InName buffer name (dp_args p) (dp_json p)) out)
        else (true, MkToolCallParser InArgs (str_drop pos buffer) name (dp_args p) (dp_json p), out)
    | None =>
      let len := valid_prefix_len buffer in
      if (len <? String.length buffer)%nat then
        let '(p', out') := flush_invalid_call
          (MkToolCallParser InName buffer (dp_name p ++ str_take len buffer) (dp_args p) (dp_json p)) out in
        back (with_buffer p' (str_drop len buffer), out')
      else (false, MkToolCallParser InName "" (dp_name p ++ buffer) (dp_args p) (dp_json p), out)
    end
  | InArgs =>
    match consume_args (dp_json p) (dp_args p) buffer with
    | (Some rest, (_, args)) =>
      (true, MkToolCallParser Normal rest "" "" json_start, put_call (MkParsedToolCall (trim (dp_name p)) args) out)
    | (None, (j, args)) => (false, MkToolCallParser InArgs "" (dp_name p) args j, out)
    end
  end.

Fixpoint loop (fuel : nat) (p : ToolCallParser) (out : ToolOut) : option (ToolOut * ToolCallParser) :=
  match fuel with
  | 0 => None
  | S fuel' =>
    match round p out with
    | (true, p', out') => loop fuel' p' out'
    | (false, p', out') => Some (out', p')
    end
  end.

(** Three rounds use up a byte of the buffer.
    @src local-llm/src/stream.rs:686-797 [ToolCallParser::process (brace)] *)
Definition process (content : string) (p : ToolCallParser) : option (ToolOut * ToolCallParser) :=
  let buffer := (dp_buffer p ++ content)%string in
  loop (3 * String.length buffer + 3) (with_buffer p buffer) ([], None).

(** What the parser holds, as it stood in the text. *)
Definition pending (p : ToolCallParser) : string :=
  match dp_state p with
  | Normal | PartialOpen => dp_buffer p
  | InName => OPEN_DELIM ++ dp_name p ++ dp_buffer p
  | InArgs => OPEN_DELIM ++ dp_name p ++ dp_args p ++ dp_buffer p
  end%string.

(** @src local-llm/src/stream.rs:799-835 [finish] *)
Definition finish (preserve_partial_tool_call : bool) (p : ToolCallParser) : option ToolCallFinish * ToolCallParser :=
  if str_is_empty (dp_buffer p) && str_is_empty (dp_name p) && str_is_empty (dp_args p)
  then (None, MkToolCallParser Normal (dp_buffer p) (dp_name p) (dp_args p) (dp_json p))
  else if preserve_partial_tool_call && (match dp_state p with InArgs => true | _ => false end)
          && negb (str_is_empty (trim (dp_name p)))
  then (Some (FinishPartial (trim (dp_name p)) (dp_args p)), new)
  else
    let text := pending p in
    (if str_is_empty text then None else Some (FinishText text), new).

(** ** Nothing is lost *)

(** A piece as it stood in the text. *)
Definition raw (x : Piece) : string :=
  match x with PieceText t => t | PieceCall n a => OPEN_DELIM ++ n ++ a end%string.

(** A call has a name and one closed object. *)
Definition call_ok (x : Piece) : Prop :=
  match x with
  | PieceText _ => True
  | PieceCall n a => n <> "" /\ string_all is_tool_name_char n = true /\ json_closed json_start a = true
  end.

Definition wf (p : ToolCallParser) : Prop :=
  match dp_state p with
  | Normal | PartialOpen => dp_name p = "" /\ dp_args p = "" /\ dp_json p = json_start
  | InName => string_all is_tool_name_char (dp_name p) = true /\ dp_args p = "" /\ dp_json p = json_start
  | InArgs =>
    dp_name p <> "" /\ string_all is_tool_name_char (dp_name p) = true /\ json_run json_start (dp_args p) = Some (dp_json p)
  end.

(** The buffer between calls. *)
Definition settled (p : ToolCallParser) : Prop :=
  match dp_state p with
  | PartialOpen => starts_with (dp_buffer p) OPEN_DELIM = true
  | _ => dp_buffer p = ""
  end.

Definition rounds (p : ToolCallParser) : nat :=
  3 * String.length (dp_buffer p)
  + match dp_state p with Normal => 0 | PartialOpen | InArgs => 1 | InName => 2 end.

Definition round_ok (p : ToolCallParser) (out : ToolOut) (x : bool * ToolCallParser * ToolOut) : Prop :=
  let '(more, p', out') := x in
  exists ps, gives ps out out' /\ Forall call_ok ps /\ pending p = (raws raw ps ++ pending p')%string /\ wf p'
    /\ (if more then rounds p' < rounds p else settled p').

Lemma normal_ok p out : dp_state p = Normal -> wf p -> round_ok p out (round p out).
Proof.
  destruct p as [st b n a j]. cbn [dp_state]. intros -> Hw. cbn in Hw. destruct Hw as (-> & -> & ->). unfold round. cbn [dp_state dp_buffer].
  destruct (str_find OPEN_DELIM b) as [pos|] eqn:Hf.
  - apply find_parts in Hf as [Hb Hl]. exists [PieceText (str_take pos b)].
    split; [apply gives_text|]. split; [by repeat constructor|]. split; [|split; [done|]].
    + rewrite raws_one. unfold pending. cbn [dp_state dp_buffer dp_name start_name raw]. rewrite string_app_nil_l. exact Hb.
    + unfold rounds. cbn -[Nat.mul]. rewrite str_drop_length. cbn in Hl |- *. lia.
  - destruct (partial_prefix_at_end b OPEN_DELIM) as [k|] eqn:Hp.
    + exists [PieceText (str_take (String.length b - k) b)].
      split; [apply gives_text|]. split; [by repeat constructor|]. split; [|split; [done|]].
      * rewrite raws_one. unfold pending. cbn [dp_state dp_buffer raw]. by rewrite str_take_drop.
      * apply partial_prefix_some in Hp as (x & q & -> & Hk & Hs & _). cbn.
        rewrite string_app_length. replace (String.length x + String.length q - k) with (String.length x) by lia.
        by rewrite str_drop_app, Nat.sub_diag, str_drop_0, str_drop_ge by lia.
    + exists [PieceText b]. split; [apply gives_text|]. split; [by repeat constructor|]. split; [|split; done].
      rewrite raws_one. unfold pending. cbn [dp_state dp_name dp_args dp_buffer dp_json raw flush_invalid_call with_buffer fst snd].
      rewrite ?raws_nil, ?raws_one. cbn [raw]. by rewrite ?string_app_nil_l, ?string_app_nil_r, ?string_app_assoc.
Qed.

Lemma partial_ok p out : dp_state p = PartialOpen -> wf p -> round_ok p out (round p out).
Proof.
  destruct p as [st b n a j]. cbn [dp_state]. intros -> Hw. cbn in Hw. destruct Hw as (-> & -> & ->). unfold round. cbn [dp_state dp_buffer].
  destruct (_ <=? _)%nat eqn:Hle.
  - apply Nat.leb_le in Hle. destruct (starts_with OPEN_DELIM b) eqn:Hs.
    + apply starts_with_spec in Hs as [t ->]. exists []. split; [apply gives_nil|]. split; [constructor|]. split; [|split; [done|]].
      * unfold pending. cbn [dp_state dp_buffer dp_name start_name]. rewrite string_app_nil_l.
        by rewrite str_drop_app, str_drop_ge, Nat.sub_diag, str_drop_0 by lia.
      * unfold rounds. cbn [dp_state dp_buffer start_name]. rewrite str_drop_length. cbn in Hle |- *. lia.
    + exists []. split; [apply gives_nil|]. split; [constructor|]. split; [done|]. split; [done|]. unfold rounds. cbn. lia.
  - destruct (starts_with b OPEN_DELIM) eqn:Hs.
    + exists []. split; [apply gives_nil|]. split; [constructor|]. done.
    + exists []. split; [apply gives_nil|]. split; [constructor|]. split; [done|]. split; [done|]. unfold rounds. cbn. lia.
Qed.

(** The delimiter and a name that is none, given back as text. *)
Lemma flush_gives n out :
  gives [PieceText (OPEN_DELIM ++ n)] out (fst out, append (append (snd out) OPEN_DELIM) n).
Proof.
  split; [by rewrite app_nil_r|]. rewrite piece_text_one. unfold append. cbn [snd from_option id]. by rewrite string_app_assoc.
Qed.

Lemma valid_prefix_take s : string_all is_tool_name_char (str_take (valid_prefix_len s) s) = true.
Proof. induction s as [|a s IH]; [done|]. cbn [valid_prefix_len]. destruct (is_tool_name_char a) eqn:Ha; [|done]. cbn. by rewrite Ha. Qed.

Lemma valid_prefix_le s : valid_prefix_len s <= String.length s.
Proof. induction s as [|a s IH]; [done|]. cbn. destruct (is_tool_name_char a); lia. Qed.

Lemma valid_prefix_all s : valid_prefix_len s = String.length s -> string_all is_tool_name_char s = true.
Proof. intros H. rewrite <- (str_take_ge (valid_prefix_len s) s) by lia. apply valid_prefix_take. Qed.

Lemma string_all_app P a b : string_all P (a ++ b) = string_all P a && string_all P b.
Proof. induction a as [|x a IH]; [done|]. rewrite string_app_cons. cbn. by rewrite IH, andb_assoc. Qed.

Lemma name_ok p out : dp_state p = InName -> wf p -> round_ok p out (round p out).
Proof.
  destruct p as [st b n a j]. cbn [dp_state]. intros -> Hw. cbn in Hw. destruct Hw as (Hn & -> & ->). unfold round. cbn [dp_state dp_buffer dp_name dp_args dp_json].
  destruct (str_find "{" b) as [pos|] eqn:Hf.
  - apply find_parts in Hf as [Hb Hl]. destruct (string_all is_tool_name_char (str_take pos b)) eqn:Hc; cbn [negb].
    + destruct (str_is_empty (n ++ str_take pos b)) eqn:He.
      * assert (n = "" /\ str_take pos b = "") as [-> Ht] by (destruct n; [split; [done|]; by destruct (str_take pos b)|done]).
        exists [PieceText (OPEN_DELIM ++ "")]. rewrite Ht. split; [apply flush_gives|]. split; [by repeat constructor|].
        split; [by rewrite raws_one|]. split; [done|]. unfold rounds. cbn. lia.
      * exists []. split; [apply gives_nil|]. split; [constructor|]. split; [|split].
        -- unfold pending. cbn [dp_state dp_name dp_args dp_buffer]. rewrite raws_nil, !string_app_nil_l. f_equal.
           rewrite !string_app_assoc. by rewrite str_take_drop.
        -- cbn. split; [by intros He'; rewrite He' in He|]. by rewrite string_all_app, Hn, Hc.
        -- unfold rounds. cbn [dp_state dp_buffer]. rewrite str_drop_length. lia.
    + exists [PieceText (OPEN_DELIM ++ n)]. split; [apply flush_gives|]. split; [by repeat constructor|].
      split; [rewrite raws_one; unfold pending; cbn; by rewrite string_app_assoc|]. split; [done|]. unfold rounds. cbn. lia.
  - destruct (valid_prefix_len b <? String.length b)%nat eqn:Hv.
    + exists [PieceText (OPEN_DELIM ++ n ++ str_take (valid_prefix_len b) b)]. split; [apply flush_gives|].
      split; [by repeat constructor|]. split; [|split; [done|]].
      * rewrite raws_one. unfold pending. cbn [dp_state dp_name dp_args dp_buffer raw flush_invalid_call with_buffer fst snd].
        by rewrite !string_app_assoc, str_take_drop.
      * unfold rounds. cbn [dp_state dp_buffer flush_invalid_call with_buffer fst snd]. rewrite str_drop_length. lia.
    + apply Nat.ltb_nlt in Hv. pose proof (valid_prefix_le b). exists []. split; [apply gives_nil|]. split; [constructor|].
      split; [|split; [|done]].
      * unfold pending. cbn [dp_state dp_name dp_args dp_buffer dp_json raw flush_invalid_call with_buffer fst snd].
      rewrite ?raws_nil, ?raws_one. cbn [raw]. by rewrite ?string_app_nil_l, ?string_app_nil_r, ?string_app_assoc.
      * cbn. rewrite string_all_app, Hn. split; [|done]. apply valid_prefix_all. lia.
Qed.

Lemma args_ok p out : dp_state p = InArgs -> wf p -> round_ok p out (round p out).
Proof.
  destruct p as [st b n a j]. cbn [dp_state]. intros -> Hw. cbn in Hw. destruct Hw as (Hne & Hn & Hj). unfold round. cbn [dp_state dp_buffer dp_name dp_args dp_json].
  pose proof (consume_spec j a b) as H. destruct (consume_args j a b) as [[rest|] [j' args]].
  - destruct H as (taken & -> & -> & Hc). exists [PieceCall n (a ++ taken)].
    split; [apply gives_call|]. split; [|split; [|split; [done|]]].
    + repeat constructor; try done. by rewrite (json_closed_app _ _ _ _ Hj).
    + rewrite raws_one. unfold pending. cbn [dp_state dp_name dp_args dp_buffer dp_json raw flush_invalid_call with_buffer fst snd]. by rewrite !string_app_assoc.
    + unfold rounds. cbn [dp_state dp_buffer]. rewrite string_app_length.
      destruct taken; [done|]. cbn. lia.
  - destruct H as [-> Hr]. exists []. split; [apply gives_nil|]. split; [constructor|]. split; [|split; [|done]].
    + unfold pending. cbn [dp_state dp_name dp_args dp_buffer dp_json raw flush_invalid_call with_buffer fst snd].
      rewrite ?raws_nil, ?raws_one. cbn [raw]. by rewrite ?string_app_nil_l, ?string_app_nil_r, ?string_app_assoc.
    + cbn. split_and!; try done. by rewrite json_run_app, Hj.
Qed.

Lemma round_keeps p out : wf p -> round_ok p out (round p out).
Proof.
  intros Hw. destruct (dp_state p) eqn:Hs; [by apply normal_ok|by apply partial_ok|by apply name_ok|by apply args_ok].
Qed.

Lemma loop_keeps fuel p out :
  wf p -> rounds p < fuel ->
  exists out' p' ps, loop fuel p out = Some (out', p') /\ gives ps out out' /\ Forall call_ok ps
    /\ pending p = (raws raw ps ++ pending p')%string /\ wf p' /\ settled p'.
Proof.
  revert p out. induction fuel as [|fuel IH]; intros p out Hw Hf; [lia|]. cbn [loop].
  pose proof (round_keeps p out Hw) as H. unfold round_ok in H. destruct (round p out) as [[more p'] out'].
  destruct H as (ps & Hg & Hps & Hpend & Hw' & H). destruct more.
  - destruct (IH p' out' Hw') as (out2 & p2 & qs & He & Hg2 & Hqs & Hpend2 & Hw2 & Hs2); [lia|].
    exists out2, p2, (ps ++ qs). split; [done|]. split; [by eapply gives_app|]. split; [by apply Forall_app|].
    split; [|done]. by rewrite raws_app, Hpend, Hpend2, string_app_assoc.
  - exists out', p', ps. done.
Qed.

Lemma process_keeps content p :
  wf p ->
  exists out p' ps, process content p = Some (out, p') /\ out_is ps out /\ Forall call_ok ps
    /\ (pending p ++ content)%string = (raws raw ps ++ pending p')%string /\ wf p' /\ settled p'.
Proof.
  intros Hw. unfold process. set (q := with_buffer p (dp_buffer p ++ content)).
  destruct (loop_keeps (3 * String.length (dp_buffer p ++ content) + 3) q ([], None))
    as (out & p' & ps & He & Hg & Hps & Hpend & Hw' & Hs').
  - destruct p as [[] b n a j]; exact Hw.
  - unfold rounds, q. cbn -[Nat.mul]. destruct (dp_state p); lia.
  - exists out, p', ps. split; [done|]. split; [by apply gives_out|]. split; [done|]. split; [|done].
    rewrite <- Hpend. unfold pending, q. cbn [dp_state dp_name dp_args dp_buffer dp_json raw flush_invalid_call with_buffer fst snd]. destruct (dp_state p); by rewrite ?string_app_assoc.
Qed.

(** What is left at the end: text, or the beginning of a call. *)
Lemma finish_keeps preserve p :
  wf p -> settled p ->
  match fst (finish preserve p) with
  | None => pending p = "" \/ pending p = OPEN_DELIM
  | Some (FinishText t) => pending p = t
  | Some (FinishPartial name args) =>
    preserve = true /\ pending p = (OPEN_DELIM ++ name ++ args)%string /\ name <> ""
    /\ string_all is_tool_name_char name = true /\ is_Some (json_run json_start args)
  end.
Proof.
  destruct p as [st b n a j]. unfold finish, wf, settled. cbn [dp_state dp_buffer dp_name dp_args dp_json]. intros Hw Hs.
  destruct (str_is_empty b && str_is_empty n && str_is_empty a) eqn:He.
  - cbn [fst]. rewrite !andb_true_iff in He. destruct He as [[Hb Hn] Ha].
    destruct b, n, a; try done. destruct st; cbn; auto.
  - destruct (preserve && _ && _) eqn:Hp.
    + cbn [fst]. rewrite !andb_true_iff in Hp. destruct Hp as [[-> Hst] _]. destruct st; try done.
      destruct Hw as (Hne & Hn & Hj). subst b. rewrite trim_name by done. unfold pending. cbn.
      rewrite string_app_nil_r. eauto 10.
    + cbn [fst]. destruct (str_is_empty (pending _)) eqn:Ht; [|done]. left. by destruct (pending _).
Qed.

End DefaultTool.
