(* ===== verification/LocalGemma.v ===== *)
(** * Tool calls of the Gemma models: [local-llm/src/stream.rs]

    The parser of [<|tool_call>call:name{...}<tool_call|>], built with the
    feature [gemma4]. *)
From S2P Require Export LocalTool.
From Stdlib Require Import Ascii.
Open Scope string_scope.
Open Scope list_scope.
Open Scope agent_scope.

Module GemmaTool.

(** @src local-llm/src/stream.rs:416-417 [tool_call::OPEN_DELIM, CLOSE_DELIM] *)
Definition OPEN_DELIM : string := "<|tool_call>call:".
Definition CLOSE_DELIM : string := "<tool_call|>".

(** @src local-llm/src/stream.rs:438-445 [tool_call::State] *)
Inductive State := Normal | PartialOpen | InName | InArgs | PartialClose.

(** @src local-llm/src/stream.rs:430-436 [tool_call::ToolCallParser] *)
Record ToolCallParser := MkToolCallParser {
  gp_state : State;
  gp_buffer : string;
  gp_name : string;
  gp_args : string;
}.

(** @src local-llm/src/stream.rs:448-455 [tool_call::ToolCallParser::new (brace)] *)
Definition new : ToolCallParser := MkToolCallParser Normal "" "" "".

Definition with_buffer (p : ToolCallParser) (st : State) (s : string) : ToolCallParser :=
  MkToolCallParser st s (gp_name p) (gp_args p).

Definition finished_call (p : ToolCallParser) : ParsedToolCall := MkParsedToolCall (trim (gp_name p)) (gp_args p).

(** One round of the loop: whether it goes on.
    @src local-llm/src/stream.rs:464-576 [tool_call::ToolCallParser::process: the loop (brace)] *)
Definition round (p : ToolCallParser) (out : ToolOut) : bool * ToolCallParser * ToolOut :=
  let buffer := gp_buffer p in
  match gp_state p with
  | Normal =>
    match str_find OPEN_DELIM buffer with
    | Some pos =>
      (true, MkToolCallParser InName (str_drop (pos + String.length OPEN_DELIM) buffer) "" "",
       put_text (str_take pos buffer) out)
    | None =>
      match partial_prefix_at_end buffer OPEN_DELIM with
      | Some partial_len =>
        let flush_end := String.length buffer - partial_len in
        (false, with_buffer p PartialOpen (str_drop flush_end buffer), put_text (str_take flush_end buffer) out)
      | None => (false, with_buffer p Normal "", put_text buffer out)
      end
    end
  | PartialOpen =>
    if (String.length OPEN_DELIM <=? String.length buffer)%nat then
      if starts_with OPEN_DELIM buffer
      then (true, MkToolCallParser InName (str_drop (String.length OPEN_DELIM) buffer) "" "", out)
      else (true, with_buffer p Normal buffer, out)
    else if starts_with buffer OPEN_DELIM then (false, p, out)
    else (true, with_buffer p Normal buffer, out)
  | InName =>
    match str_find "{" buffer with
    | Some pos =>
      (true, MkToolCallParser InArgs (str_drop pos buffer) (gp_name p ++ str_take pos buffer) (gp_args p), out)
    | None => (false, MkToolCallParser InName "" (gp_name p ++ buffer) (gp_args p), out)
    end
  | InArgs =>
    match str_find CLOSE_DELIM buffer with
    | Some pos =>
      let p' := MkToolCallParser InArgs buffer (gp_name p) (gp_args p ++ str_take pos buffer) in
      (true, MkToolCallParser Normal (str_drop (pos + String.length CLOSE_DELIM) buffer) "" "", put_call (finished_call p') out)
    | None =>
      match partial_prefix_at_end buffer CLOSE_DELIM with
      | Some partial_len =>
        let flush_end := String.length buffer - partial_len in
        (false, MkToolCallParser PartialClose (str_drop flush_end buffer) (gp_name p) (gp_args p ++ str_take flush_end buffer), out)
      | None => (false, MkToolCallParser InArgs "" (gp_name p) (gp_args p ++ buffer), out)
      end
    end
  | PartialClose =>
    if (String.length CLOSE_DELIM <=? String.length buffer)%nat then
      if starts_with CLOSE_DELIM buffer
      then (true, MkToolCallParser Normal (str_drop (String.length CLOSE_DELIM) buffer) "" "", put_call (finished_call p) out)
      else (true, with_buffer p InArgs buffer, out)
    else if starts_with buffer CLOSE_DELIM then (false, p, out)
    else (true, with_buffer p InArgs buffer, out)
  end.

Fixpoint loop (fuel : nat) (p : ToolCallParser) (out : ToolOut) : option (ToolOut * ToolCallParser) :=
  match fuel with
  | 0 => None
  | S fuel' =>
    match round p out with
    | (true, p', out') => loop fuel' p' out'
    | (false, p', out') => Some (out', p')
    end
  end.

(** @src local-llm/src/stream.rs:458-579 [tool_call::ToolCallParser::process (brace)] *)
Definition process (content : string) (p : ToolCallParser) : option (ToolOut * ToolCallParser) :=
  let buffer := (gp_buffer p ++ content)%string in
  loop (3 * String.length buffer + 3) (with_buffer p (gp_state p) buffer) ([], None).

(** What the parser holds, as it stood in the text. *)
Definition pending (p : ToolCallParser) : string :=
  match gp_state p with
  | Normal | PartialOpen => gp_buffer p
  | InName => OPEN_DELIM ++ gp_name p ++ gp_buffer p
  | InArgs | PartialClose => OPEN_DELIM ++ gp_name p ++ gp_args p ++ gp_buffer p
  end%string.

(** @src local-llm/src/stream.rs:581-617 [tool_call::finish] *)
Definition finish (preserve_partial_tool_call : bool) (p : ToolCallParser) : option ToolCallFinish * ToolCallParser :=
  if str_is_empty (gp_buffer p) && str_is_empty (gp_name p) && str_is_empty (gp_args p)
  then (None, with_buffer p Normal (gp_buffer p))
  else if preserve_partial_tool_call && (match gp_state p with InArgs | PartialClose => true | _ => false end)
          && negb (str_is_empty (trim (gp_name p)))
  then (Some (FinishPartial (trim (gp_name p)) (gp_args p)), new)
  else
    let text := pending p in
    (if str_is_empty text then None else Some (FinishText text), new).

(** ** Nothing is lost *)

Definition raw (x : Piece) : string :=
  match x with PieceText t => t | PieceCall n a => OPEN_DELIM ++ n ++ a ++ CLOSE_DELIM end%string.

Definition wf (p : ToolCallParser) : Prop :=
  match gp_state p with
  | Normal | PartialOpen => gp_name p = "" /\ gp_args p = ""
  | InName => gp_args p = ""
  | _ => True
  end.

Definition rounds (p : ToolCallParser) : nat :=
  3 * String.length (gp_buffer p)
  + match gp_state p with Normal => 0 | PartialOpen | InArgs => 1 | InName | PartialClose => 2 end.

Definition round_ok (p : ToolCallParser) (out : ToolOut) (x : bool * ToolCallParser * ToolOut) : Prop :=
  let '(more, p', out') := x in
  exists ps, gives ps out out' /\ pending p = (raws raw ps ++ pending p')%string /\ wf p'
    /\ (more = true -> rounds p' < rounds p).

Ltac fields := cbn [gp_state gp_name gp_args gp_buffer with_buffer raw fst snd].

(** A round that gives nothing. *)
Lemma silent more p out p' :
  pending p = pending p' -> wf p' -> (more = true -> rounds p' < rounds p) -> round_ok p out (more, p', out).
Proof. intros H1 H2 H3. exists []. split; [apply gives_nil|]. by rewrite raws_nil, string_app_nil_l. Qed.

Lemma gemma_round_keeps p out : wf p -> round_ok p out (round p out).
Proof.
  destruct p as [st b n a]. intros Hw. unfold wf in Hw. unfold round. destruct st; cbn [gp_state gp_name gp_args gp_buffer] in Hw |- *.
  - destruct Hw as [-> ->]. destruct (str_find OPEN_DELIM b) as [pos|] eqn:Hf.
    + apply find_parts in Hf as [Hb Hl]. exists [PieceText (str_take pos b)].
      split; [apply gives_text|]. split; [|split; [done|]].
      * rewrite raws_one. unfold pending. fields. rewrite string_app_nil_l. exact Hb.
      * intros _. unfold rounds. fields. rewrite str_drop_length. cbn in Hl |- *. lia.
    + destruct (partial_prefix_at_end b OPEN_DELIM) as [k|].
      * exists [PieceText (str_take (String.length b - k) b)]. split; [apply gives_text|]. split; [|done].
        rewrite raws_one. unfold pending. fields. by rewrite str_take_drop.
      * exists [PieceText b]. split; [apply gives_text|]. split; [|done].
        rewrite raws_one. unfold pending. fields. by rewrite string_app_nil_r.
  - destruct Hw as [-> ->].
    destruct (_ <=? _)%nat eqn:Hle; [apply Nat.leb_le in Hle; destruct (starts_with OPEN_DELIM b) eqn:Hs|destruct (starts_with b OPEN_DELIM)].
    + apply starts_with_spec in Hs as [t ->]. apply silent; [|done|].
      * unfold pending. fields. rewrite string_app_nil_l. by rewrite str_drop_app, str_drop_ge, Nat.sub_diag, str_drop_0 by lia.
      * intros _. unfold rounds. fields. rewrite str_drop_length. cbn in Hle |- *. lia.
    + apply silent; [done..|]. intros _. unfold rounds. fields. lia.
    + by apply silent.
    + apply silent; [done..|]. intros _. unfold rounds. fields. lia.
  - subst a. destruct (str_find "{" b) as [pos|] eqn:Hf.
    + apply find_parts in Hf as [Hb Hl]. apply silent; [|done|].
      * unfold pending. fields. by rewrite !string_app_nil_l, !string_app_assoc, str_take_drop.
      * intros _. unfold rounds. fields. rewrite str_drop_length. lia.
    + apply silent; [|done|done]. unfold pending. fields. by rewrite string_app_nil_r.
  - destruct (str_find CLOSE_DELIM b) as [pos|] eqn:Hf.
    + apply find_parts in Hf as [Hb Hl]. exists [PieceCall n (a ++ str_take pos b)].
      split; [apply gives_call|]. split; [|split; [done|]].
      * rewrite raws_one. unfold pending. fields. rewrite !string_app_assoc. by rewrite <- Hb.
      * intros _. unfold rounds. fields. rewrite str_drop_length. cbn in Hl |- *. lia.
    + destruct (partial_prefix_at_end b CLOSE_DELIM) as [k|].
      * apply silent; [|done|done]. unfold pending. fields. by rewrite !string_app_assoc, str_take_drop.
      * apply silent; [|done|done]. unfold pending. fields. by rewrite !string_app_assoc, string_app_nil_r.
  - destruct (_ <=? _)%nat eqn:Hle; [apply Nat.leb_le in Hle; destruct (starts_with CLOSE_DELIM b) eqn:Hs|destruct (starts_with b CLOSE_DELIM)].
    + apply starts_with_spec in Hs as [t ->]. exists [PieceCall n a]. split; [apply gives_call|]. split; [|split; [done|]].
      * rewrite raws_one. unfold pending. fields. rewrite !string_app_assoc.
        by rewrite str_drop_app, str_drop_ge, Nat.sub_diag, str_drop_0 by lia.
      * intros _. unfold rounds. fields. rewrite str_drop_length. cbn in Hle |- *. lia.
    + apply silent; [done..|]. intros _. unfold rounds. fields. lia.
    + by apply silent.
    + apply silent; [done..|]. intros _. unfold rounds. fields. lia.
Qed.

Lemma gemma_loop_keeps fuel p out :
  wf p -> rounds p < fuel ->
  exists out' p' ps, loop fuel p out = Some (out', p') /\ gives ps out out'
    /\ pending p = (raws raw ps ++ pending p')%string /\ wf p'.
Proof.
  revert p out. induction fuel as [|fuel IH]; intros p out Hw Hf; [lia|]. cbn [loop].
  pose proof (gemma_round_keeps p out Hw) as H. unfold round_ok in H. destruct (round p out) as [[more p'] out'].
  destruct H as (ps & Hg & Hpend & Hw' & H). destruct more.
  - specialize (H eq_refl). destruct (IH p' out' Hw') as (out2 & p2 & qs & He & Hg2 & Hpend2 & Hw2); [lia|].
    exists out2, p2, (ps ++ qs). split; [done|]. split; [by eapply gives_app|].
    split; [|done]. by rewrite raws_app, Hpend, Hpend2, string_app_assoc.
  - exists out', p', ps. done.
Qed.

Lemma gemma_process_keeps content p :
  wf p ->
  exists out p' ps, process content p = Some (out, p') /\ out_is ps out
    /\ (pending p ++ content)%string = (raws raw ps ++ pending p')%string /\ wf p'.
Proof.
  intros Hw. unfold process. set (q := with_buffer p (gp_state p) (gp_buffer p ++ content)).
  destruct (gemma_loop_keeps (3 * String.length (gp_buffer p ++ content) + 3) q ([], None))
    as (out & p' & ps & He & Hg & Hpend & Hw').
  - destruct p as [[] b n a]; exact Hw.
  - unfold rounds, q. fields. destruct (gp_state p); lia.
  - exists out, p', ps. split; [done|]. split; [by apply gives_out|]. split; [|done].
    rewrite <- Hpend. unfold pending, q. fields. destruct (gp_state p); by rewrite ?string_app_assoc.
Qed.

Lemma finish_wf preserve p : wf p -> wf (snd (finish preserve p)).
Proof.
  intros Hw. unfold finish. destruct p as [st b n a]. fields.
  destruct (str_is_empty b && str_is_empty n && str_is_empty a) eqn:He.
  - rewrite !andb_true_iff in He. destruct He as [[_ Hn] Ha]. by destruct n, a.
  - by destruct (preserve && _ && _).
Qed.

End GemmaTool.
