(* ===== verification/LocalStream.v ===== *)
(** * The stream of a local model: [local-llm/src/stream.rs]

    The state of a response as its tokens arrive: the parsers for thinking and
    for tool calls in front of the block accumulator, and the stream around them.
    With the feature [gemma4]; the other models use the default parsers. *)
From S2P Require Export Adapter LocalGemma.
Open Scope string_scope.
Open Scope list_scope.
Open Scope agent_scope.

Import Assembly.

Module LocalStream.

(** @src local-llm/src/stream.rs:102-103 [think_tags::OPEN_DELIM, CLOSE_DELIM] *)
Definition THINK_OPEN : string := "<think>".
Definition THINK_CLOSE : string := "</think>".

(** @src local-llm/src/stream.rs:258-259 [channel_thought::OPEN_DELIM, CLOSE_DELIM] *)
Definition CHANNEL_OPEN : string := "<|channel>thought" ++ String LF "".
Definition CHANNEL_CLOSE : string := "<channel|>".

(** The parsers of the thinking: one code, with these delimiters.
    @src local-llm/src/stream.rs:127-228 [think_tags::ThinkTagParser::process (brace)] *)
Definition tags_process (content : string) (p : ThinkParser) : option (ThinkOut * ThinkParser) :=
  think_process THINK_OPEN THINK_CLOSE content p.

(** @src local-llm/src/stream.rs:283-384 [channel_thought::ChannelThoughtParser::process (brace)] *)
Definition channel_process (content : string) (p : ThinkParser) : option (ThinkOut * ThinkParser) :=
  think_process CHANNEL_OPEN CHANNEL_CLOSE content p.

(** @src local-llm/src/stream.rs:386-399 [channel_thought::ChannelThoughtParser::finish] *)
Definition channel_finish (p : ThinkParser) : ThinkOut * ThinkParser := think_finish p.

(** @src local-llm/src/runner.rs:118-122 [FinishReason] *)
Inductive FinishReason := FinishStop | FinishLength.

(** @src local-llm/src/runner.rs:107-116 [TokenEvent] *)
Inductive TokenEvent :=
| Token (text : string)
| TokensDone (prompt_tokens completion_tokens : N) (finish_reason : FinishReason)
| TokenError (message : string).

Section Stream.
Context `{E : Ext}.
(** [Uuid::new_v4], by the number of identifiers made before. *)
Context (new_uuid : nat -> string).

(** @src local-llm/src/stream.rs:908-922 [StreamState] *)
Record StreamState := MkStreamState {
  blocks : BlockAccumulator;
  prompt_tokens : N;
  completion_tokens : N;
  has_tool_calls : bool;
  finish_reason : FinishReason;
  saw_done : bool;
  think_parser : ThinkParser;
  default_tool_call_parser : DefaultTool.ToolCallParser;
  channel_parser : option ThinkParser;
  tool_call_parser : option GemmaTool.ToolCallParser;
  ids_made : nat;
}.

(** @src local-llm/src/stream.rs:925-952 [StreamState::new (brace)] *)
Definition state_new (is_gemma4 : bool) : StreamState :=
  MkStreamState Assembly.new 0 0 false FinishStop false think_new DefaultTool.new
    (if is_gemma4 then Some think_new else None) (if is_gemma4 then Some GemmaTool.new else None) 0.

#[local] Abbreviation M := (Emit StreamState).

Definition put_blocks (b : BlockAccumulator) (s : StreamState) : StreamState :=
  MkStreamState b (prompt_tokens s) (completion_tokens s) (has_tool_calls s) (finish_reason s) (saw_done s)
    (think_parser s) (default_tool_call_parser s) (channel_parser s) (tool_call_parser s) (ids_made s).

Definition put_think (p : ThinkParser) (s : StreamState) : StreamState :=
  MkStreamState (blocks s) (prompt_tokens s) (completion_tokens s) (has_tool_calls s) (finish_reason s) (saw_done s)
    p (default_tool_call_parser s) (channel_parser s) (tool_call_parser s) (ids_made s).

Definition put_tool (p : DefaultTool.ToolCallParser) (s : StreamState) : StreamState :=
  MkStreamState (blocks s) (prompt_tokens s) (completion_tokens s) (has_tool_calls s) (finish_reason s) (saw_done s)
    (think_parser s) p (channel_parser s) (tool_call_parser s) (ids_made s).

Definition put_channel (p : ThinkParser) (s : StreamState) : StreamState :=
  MkStreamState (blocks s) (prompt_tokens s) (completion_tokens s) (has_tool_calls s) (finish_reason s) (saw_done s)
    (think_parser s) (default_tool_call_parser s) (Some p) (tool_call_parser s) (ids_made s).

Definition put_gemma (p : GemmaTool.ToolCallParser) (s : StreamState) : StreamState :=
  MkStreamState (blocks s) (prompt_tokens s) (completion_tokens s) (has_tool_calls s) (finish_reason s) (saw_done s)
    (think_parser s) (default_tool_call_parser s) (channel_parser s) (Some p) (ids_made s).

(** One more identifier, one more call. *)
Definition count_call (s : StreamState) : StreamState :=
  MkStreamState (blocks s) (prompt_tokens s) (completion_tokens s) true (finish_reason s) (saw_done s)
    (think_parser s) (default_tool_call_parser s) (channel_parser s) (tool_call_parser s) (S (ids_made s)).

Definition put_done (p c : N) (r : FinishReason) (s : StreamState) : StreamState :=
  MkStreamState (blocks s) p c (has_tool_calls s) r true
    (think_parser s) (default_tool_call_parser s) (channel_parser s) (tool_call_parser s) (ids_made s).

(** An operation of the accumulator, its event pushed. *)
Definition on_blocks (f : BlockAccumulator -> option AssistantMessageEvent * BlockAccumulator) : M unit :=
  fun s => let '(e, b) := f (blocks s) in ((tt, option_list e), put_blocks b s).

(** The open blocks closed. *)
Definition finalize_open : M unit :=
  fun s => let '(es, b) := finalize_blocks (blocks s) in ((tt, es), put_blocks b s).

(** What is there and not empty. *)
Definition nonempty_part (part : option string) : option string :=
  match part with Some s => if str_is_empty s then None else Some s | None => None end.

(** @src local-llm/src/stream.rs:1056-1063 [emit_thinking] *)
Definition emit_thinking (thinking_part : option string) : M unit :=
  match nonempty_part thinking_part with
  | Some think => on_blocks ensure_thinking_open ;;~ on_blocks (fun b => (thinking_delta b think, b))
  | None => eret tt
  end.

(** @src local-llm/src/stream.rs:1104-1112 [emit_text] *)
Definition emit_text (text : option string) : M unit :=
  match nonempty_part text with
  | Some text =>
    on_blocks (fun b => close_thinking b None) ;;~ on_blocks ensure_text_open ;;~
    on_blocks (fun b => (text_delta b text, b))
  | None => eret tt
  end.

(** @src local-llm/src/stream.rs:1012-1025 [emit_tool_call] *)
Definition emit_tool_call (name args : string) : M unit :=
  on_blocks close_text ;;~
  on_blocks (fun b => close_thinking b None) ;;~
  s <~ eget ;;
  let id := new_uuid (ids_made s) in
  emodify count_call ;;~
  let '((tc_content_index, start_ev), b) := open_tool_call (blocks s) id name in
  emodify (put_blocks b) ;;~
  push (start_ev :: (if str_is_empty args then [] else [tool_call_delta tc_content_index args])).

Fixpoint emit_tool_calls (calls : list ParsedToolCall) : M unit :=
  match calls with
  | [] => eret tt
  | c :: calls' => emit_tool_call (ptc_name c) (ptc_args c) ;;~ emit_tool_calls calls'
  end.

(** The parsers always return. *)
Definition total {A P} (r : option (A * P)) (nothing : A) (p : P) : A * P := default (nothing, p) r.

(** @src local-llm/src/stream.rs:1004-1010 [process_default_tool_call_text] *)
Definition process_default_tool_call_text (text : string) : M (option string) :=
  s <~ eget ;;
  let '((calls, remaining), p) :=
    total (DefaultTool.process text (default_tool_call_parser s)) ([], None) (default_tool_call_parser s) in
  emodify (put_tool p) ;;~ emit_tool_calls calls ;;~ eret remaining.

(** The same with the parser of the Gemma models. *)
Definition process_gemma_text (parser : GemmaTool.ToolCallParser) (text : string) : M (option string) :=
  let '((calls, remaining), p) := total (GemmaTool.process text parser) ([], None) parser in
  emodify (put_gemma p) ;;~ emit_tool_calls calls ;;~ eret remaining.

(** Thinking and text of the next token. *)
Definition split_token (content : string) : M ThinkOut :=
  s <~ eget ;;
  match channel_parser s with
  | None =>
    let '(out, p) := total (tags_process content (think_parser s)) (None, None) (think_parser s) in
    emodify (put_think p) ;;~ eret out
  | Some parser =>
    let '(out, p) := total (channel_process content parser) (None, None) parser in
    emodify (put_channel p) ;;~ eret out
  end.

(** @src local-llm/src/stream.rs:954-998 [process_token] *)
Definition process_token (content : string) : M unit :=
  out <~ split_token content ;;
  emit_thinking (fst out) ;;~
  final_text <~ match snd out with
                | Some text =>
                  s <~ eget ;;
                  match tool_call_parser s with
                  | Some parser => process_gemma_text parser text
                  | None => process_default_tool_call_text text
                  end
                | None => eret None
                end ;;
  emit_text final_text.

Definition emit_finish (finished : option ToolCallFinish) : M unit :=
  match finished with
  | None => eret tt
  | Some (FinishText text) => emit_text (Some text)
  | Some (FinishPartial name args) => emit_tool_call name args
  end.

(** @src local-llm/src/stream.rs:1090-1102 [flush_pending_default_tool_call] *)
Definition flush_pending_default_tool_call (preserve : bool) : M unit :=
  s <~ eget ;;
  let '(finished, p) := DefaultTool.finish preserve (default_tool_call_parser s) in
  emodify (put_tool p) ;;~ emit_finish finished.

(** @src local-llm/src/stream.rs:1077-1088 [flush_pending_gemma_tool_call] *)
Definition flush_pending_gemma_tool_call (preserve : bool) : M unit :=
  s <~ eget ;;
  match tool_call_parser s with
  | None => eret tt
  | Some parser =>
    let '(finished, p) := GemmaTool.finish preserve parser in
    emodify (put_gemma p) ;;~ emit_finish finished
  end.

(** @src local-llm/src/stream.rs:1066-1074 [process_gemma_tool_call_text] *)
Definition process_gemma_tool_call_text (text : string) : M unit :=
  s <~ eget ;;
  match tool_call_parser s with
  | Some parser => remaining <~ process_gemma_text parser text ;; emit_text remaining
  | None => eret tt
  end.

(** @src local-llm/src/stream.rs:1027-1054 [flush_pending_parsers] *)
Definition flush_pending_parsers (preserve_partial_tool_call : bool) : M unit :=
  s <~ eget ;;
  match channel_parser s with
  | Some parser =>
    let '((thinking_part, text_part), p) := channel_finish parser in
    emodify (put_channel p) ;;~
    emit_thinking thinking_part ;;~
    match nonempty_part text_part with Some text => process_gemma_tool_call_text text | None => eret tt end ;;~
    flush_pending_gemma_tool_call preserve_partial_tool_call
  | None =>
    let '((thinking_part, text_part), p) := think_finish (think_parser s) in
    emodify (put_think p) ;;~
    emit_thinking thinking_part ;;~
    match nonempty_part text_part with
    | Some text => final_text <~ process_default_tool_call_text text ;; emit_text final_text
    | None => eret tt
    end ;;~
    flush_pending_default_tool_call preserve_partial_tool_call
  end.

(** [self.prompt_tokens + self.completion_tokens] *)
Definition u32_add (a b : N) : N := ((a + b) mod 4294967296)%N.

(** The parsers flushed, the open blocks closed, the last event. *)
Definition finish_with (preserve : bool) (last_event : StreamState -> AssistantMessageEvent) : M unit :=
  flush_pending_parsers preserve ;;~ finalize_open ;;~ s <~ eget ;; push [last_event s].

Definition is_length (r : FinishReason) : bool := match r with FinishLength => true | FinishStop => false end.

Definition token_usage (prompt completion : N) : Usage :=
  MkUsage prompt completion 0 0 (u32_add prompt completion) ∅.

Definition done_event (s : StreamState) : AssistantMessageEvent :=
  Done (match finish_reason s with
        | FinishLength => Length
        | FinishStop => if has_tool_calls s then ToolUse else Stop
        end)
       (token_usage (prompt_tokens s) (completion_tokens s)) cost_default.

(** @src local-llm/src/stream.rs:1114-1135 [finalize] *)
Definition finalize : M unit :=
  s <~ eget ;; finish_with (is_length (finish_reason s)) done_event.

(** @src local-llm/src/stream.rs:1137-1143 [finalize_error] *)
Definition finalize_error (message : string) : M unit := finish_with false (fun _ => event_error message).

(** @src local-llm/src/stream.rs:1145-1151 [finalize_cancelled] *)
Definition finalize_cancelled : M unit := finish_with false (fun _ => cancelled_error "local inference cancelled").

(** @src local-llm/src/stream.rs:1153-1155 [finalize_eof_without_done] *)
Definition finalize_eof_without_done : M unit :=
  finalize_error "local inference stream ended before completion".

(** ** The stream *)

Definition finish (m : M unit) (s : StreamState) : SseAction * StreamState :=
  let '((_, es), s') := m s in (Finish es, s').

(** @src local-llm/src/stream.rs:1443-1475 [token_event_stream, the event] *)
Definition on_token (item : option TokenEvent) (s : StreamState) : SseAction * StreamState :=
  match item with
  | Some (Token text) => let '((_, es), s') := process_token text s in (Continue es, s')
  | Some (TokensDone p c r) => finish finalize (put_done p c r s)
  | Some (TokenError msg) => finish (finalize_error ("local inference error: " ++ msg)) s
  | None => finish finalize_eof_without_done s
  end.

Definition local_adapter : Adapter StreamState TokenEvent :=
  MkAdapter StreamState TokenEvent on_token (fun s => snd (fst (finalize_cancelled s))).

(** [cancel]: after how many tokens the cancelled token is noticed.
    @src local-llm/src/stream.rs:1405-1479 [token_event_stream] *)
Definition token_event_stream (is_gemma4 : bool) (cancel : option nat) (tokens : list TokenEvent) :
    option (list AssistantMessageEvent) :=
  adapter_stream local_adapter cancel tokens (state_new is_gemma4).

End Stream.
End LocalStream.
