(* ===== verification/LocalStreamSpec.v ===== *)
(** * The stream of a local model keeps the contract

    Whatever the tokens are, the stream is one session of the block accumulator
    that ends with one terminal event; and the text of a response that completes
    is the text of its tokens, the thinking and the tool calls taken out. *)
From S2P Require Export LocalStream Adapter.
From stdpp Require Import sorting.
Open Scope string_scope.
Open Scope list_scope.
Open Scope agent_scope.

Import Assembly.

Module LocalSpec.
Import LocalStream.

Section Spec.
Context `{E : Ext} (new_uuid : nat -> string).
#[local] Abbreviation M := (Emit StreamState).
#[local] Abbreviation tracks := (Adapter.tracks blocks).

(** ** Emitting *)

(** All but the blocks and the counts. *)
Definition view (s : StreamState) : ThinkParser * DefaultTool.ToolCallParser * option ThinkParser * option GemmaTool.ToolCallParser :=
  (think_parser s, default_tool_call_parser s, channel_parser s, tool_call_parser s).

Definition at_view v (s : StreamState) : Prop := view s = v.

(** What was said, and the view. *)
Definition says {A} (texts : list string) v (x : A) (t : list string) (s : StreamState) : Prop := t = texts /\ at_view v s.

Lemma block_op_tracks v f texts :
  (forall b, exists o, op_ok b o = true /\ run_op b o = (option_list (fst (f b)), snd (f b))) ->
  (forall b, text_chunks (option_list (fst (f b))) = texts) ->
  tracks (at_view v) (on_blocks f) (says texts v).
Proof.
  intros Ho Hf s Hs. unfold on_blocks. destruct (Ho (blocks s)) as (o & Hok & Hr).
  pose proof (Hf (blocks s)) as Htexts. pose proof (emits_op _ o Hok) as He. rewrite Hr in He.
  destruct (f (blocks s)) as [e b]. cbn [fst snd] in *. by split.
Qed.

Lemma end_thinking_tracks v : tracks (at_view v) (on_blocks (fun b => close_thinking b None)) (says [] v).
Proof.
  apply block_op_tracks; [intros b; by exists (OpCloseThinking None)|]. intros [n tx [[]|] tc]; done.
Qed.

Lemma end_text_tracks v : tracks (at_view v) (on_blocks close_text) (says [] v).
Proof. apply block_op_tracks; [intros b; by exists OpCloseText|]. intros [n [|] th tc]; done. Qed.

Lemma emit_thinking_tracks v th : tracks (at_view v) (emit_thinking th) (says [] v).
Proof.
  unfold emit_thinking. destruct (nonempty_part th) as [d|]; [|by apply tracks_ret].
  eapply (tracks_seq _ _ [] (fun _ => at_view v)); [|intros _].
  - apply block_op_tracks; [intros b; by exists OpEnsureThinking|]. intros [n tx [[]|] tc]; done.
  - apply block_op_tracks; [intros b; by exists (OpThinkingDelta d)|]. intros [n tx [[]|] tc]; done.
Qed.

Lemma emit_text_tracks v x : tracks (at_view v) (emit_text x) (says (option_list (nonempty_part x)) v).
Proof.
  unfold emit_text. destruct (nonempty_part x) as [d|]; [|by apply tracks_ret].
  eapply (tracks_seq _ _ [] (fun _ => at_view v)); [apply end_thinking_tracks|intros _].
  intros s Hs. destruct s as [[n tx th tc] ? ? ? ? ? ? ? ? ? ?].
  destruct tx as [i|]; cbn in *; (split; [|by split]); by exists [OpEnsureText; OpTextDelta d].
Qed.

Lemma emit_tool_call_tracks v name args : tracks (at_view v) (emit_tool_call new_uuid name args) (says [] v).
Proof.
  eapply (tracks_seq _ _ [] (fun _ => at_view v)); [apply end_text_tracks|intros _].
  eapply (tracks_seq _ _ [] (fun _ => at_view v)); [apply end_thinking_tracks|intros _].
  intros s Hs. destruct s as [[n tx th tc] ? ? ? ? ? ? ? ? ? k]. cbn in *. split.
  - exists (OpOpenTool (new_uuid k) name :: if str_is_empty args then [] else [OpToolDelta n args]).
    destruct (str_is_empty args); cbn; [done|]. split; [|done]. rewrite andb_true_r.
    apply bool_decide_eq_true. apply elem_of_app. right. by apply list_elem_of_singleton.
  - split; [by destruct (str_is_empty args)|done].
Qed.

Lemma emit_tool_calls_tracks v calls : tracks (at_view v) (emit_tool_calls new_uuid calls) (says [] v).
Proof.
  induction calls as [|c calls IH]; [by apply tracks_ret|]. cbn [emit_tool_calls].
  eapply (tracks_seq _ _ [] (fun _ => at_view v)); [apply emit_tool_call_tracks|intros _; exact IH].
Qed.

Definition finish_texts (f : option ToolCallFinish) : list string :=
  match f with Some (FinishText t) => option_list (nonempty_part (Some t)) | _ => [] end.

Lemma emit_finish_tracks v f : tracks (at_view v) (emit_finish new_uuid f) (says (finish_texts f) v).
Proof.
  destruct f as [[t|name args]|]; [apply emit_text_tracks|apply emit_tool_call_tracks|by apply tracks_ret].
Qed.

(** A change of the view. *)
Lemma put_view_tracks v v' (f : StreamState -> StreamState) :
  (forall s, blocks (f s) = blocks s) -> (forall s, at_view v s -> at_view v' (f s)) ->
  tracks (at_view v) (emodify f) (says [] v').
Proof. intros Hb Hv. apply tracks_modify. intros s Hs. split; [apply Hb|]. split; [done|by apply Hv]. Qed.

Lemma read_view {B} v (k : StreamState -> M B) R :
  (forall s, view s = v -> tracks (at_view v) (k s) R) -> tracks (at_view v) (ebind eget k) R.
Proof.
  intros H. apply tracks_read. intros s Hs. eapply tracks_conseq; [apply (H s Hs)| |done]. by intros ? <-.
Qed.

(** ** The default models *)

Definition default_view (tp : ThinkParser) (dp : DefaultTool.ToolCallParser) := (tp, dp, @None ThinkParser, @None GemmaTool.ToolCallParser).

Definition tool_ready (dp : DefaultTool.ToolCallParser) : Prop := DefaultTool.wf dp /\ DefaultTool.settled dp.
Definition think_ready (tp : ThinkParser) : Prop := think_settled THINK_OPEN THINK_CLOSE tp.

(** The tool parser on some text: what it gives, and where it is then. *)
Lemma default_text_tracks tp dp text :
  tool_ready dp ->
  exists dp' ps remaining, tool_ready dp' /\ Forall DefaultTool.call_ok ps
    /\ (DefaultTool.pending dp ++ text)%string = (raws DefaultTool.raw ps ++ DefaultTool.pending dp')%string
    /\ default "" remaining = piece_texts ps
    /\ tracks (at_view (default_view tp dp)) (process_default_tool_call_text new_uuid text)
         (fun x t s => x = remaining /\ t = [] /\ at_view (default_view tp dp') s).
Proof.
  intros [Hw Hs]. destruct (DefaultTool.process_keeps text dp Hw) as ([calls rem] & dp' & ps & He & [_ Htx] & Hok & Hp & Hw' & Hs').
  exists dp', ps, rem. split; [done|]. split; [done|]. split; [done|]. split; [done|].
  unfold process_default_tool_call_text. apply read_view. intros s [= _ Hdp _ _]. rewrite Hdp, He. cbn [total default].
  eapply (tracks_seq _ _ [] (fun _ => at_view (default_view tp dp'))).
  - apply put_view_tracks; [done|]. intros s' [= H1 _ H3 H4]. unfold at_view, view. cbn. by rewrite H1, H3, H4.
  - intros _. eapply (tracks_seq _ _ [] (fun _ => at_view (default_view tp dp'))); [apply emit_tool_calls_tracks|].
    intros _. by apply tracks_ret.
Qed.

Lemma concat_nonempty x : concat_text (option_list (nonempty_part x)) = default "" x.
Proof. destruct x as [[|a x]|]; [done| |done]. change (concat_text [String a x] = String a x).
  rewrite concat_text_cons. apply string_app_nil_r. Qed.

(** What has been heard, and what has been said of it. *)
Definition heard (w : string) (said : string) (s : StreamState) : Prop :=
  exists tp dp, at_view (default_view tp dp) s /\ think_ready tp /\ tool_ready dp
    /\ exists out ps, (forall r, think_split THINK_OPEN THINK_CLOSE false 0 (w ++ r) = with_out out (remaining THINK_OPEN THINK_CLOSE tp r))
       /\ default "" (snd out) = (raws DefaultTool.raw ps ++ DefaultTool.pending dp)%string
       /\ said = piece_texts ps /\ Forall DefaultTool.call_ok ps.

Lemma think_long : 1 < String.length THINK_OPEN /\ 1 < String.length THINK_CLOSE.
Proof. cbn. lia. Qed.

Lemma split_token_tracks tp dp content :
  think_ready tp ->
  exists out tp', think_ready tp'
    /\ (forall r, remaining THINK_OPEN THINK_CLOSE tp (content ++ r) = with_out out (remaining THINK_OPEN THINK_CLOSE tp' r))
    /\ tracks (at_view (default_view tp dp)) (split_token content) (fun x t s => x = out /\ t = [] /\ at_view (default_view tp' dp) s).
Proof.
  intros Ht. destruct think_long as [Ho Hc]. destruct (think_process_keeps _ _ Ho Hc content tp) as (out & tp' & He & Hs & Hr).
  exists out, tp'. split; [done|]. split; [done|]. unfold split_token. apply read_view. intros s [= Htp _ Hcp _].
  unfold tags_process. rewrite Hcp, Htp, He. cbn [total default].
  eapply (tracks_seq _ _ [] (fun _ => at_view (default_view tp' dp))).
  - apply put_view_tracks; [done|]. intros s' [= _ H2 H3 H4]. unfold at_view, view. cbn. by rewrite H2, H3, H4.
  - intros _. by apply tracks_ret.
Qed.

Lemma with_out_app out1 out2 x :
  with_out out1 (with_out out2 x)
  = with_out (Some (default "" (fst out1) ++ default "" (fst out2)), Some (default "" (snd out1) ++ default "" (snd out2)))%string x.
Proof. unfold with_out. cbn. by rewrite !string_app_assoc. Qed.

(** A token is heard. *)
Lemma process_token_tracks w said content s :
  heard w said s ->
  let '((_, es), s') := process_token new_uuid content s in
  emits (blocks s) es (blocks s') /\ heard (w ++ content) (said ++ concat_text (text_chunks es)) s'.
Proof.
  intros (tp & dp & Hv & Ht & Hd & out & ps & Hw & Hx & -> & Hok).
  destruct (split_token_tracks tp dp content Ht) as (out1 & tp1 & Ht1 & Hr1 & Htr).
  assert (tracks (at_view (default_view tp dp)) (process_token new_uuid content)
    (fun _ t s' => heard (w ++ content) (piece_texts ps ++ concat_text t) s')) as H.
  2:{ specialize (H s Hv). destruct (process_token new_uuid content s) as [[x es] s']. exact H. }
  eapply (tracks_seq _ _ [] (fun x s => x = out1 /\ at_view (default_view tp1 dp) s)).
  { eapply tracks_conseq; [exact Htr|done|]. naive_solver. }
  intros x. apply tracks_pure. intros ->.
  eapply (tracks_seq _ _ [] (fun _ => at_view (default_view tp1 dp))); [apply emit_thinking_tracks|intros _].
  assert (forall dp' qs rem,
    tool_ready dp' -> Forall DefaultTool.call_ok qs ->
    (DefaultTool.pending dp ++ default "" (snd out1))%string = (raws DefaultTool.raw qs ++ DefaultTool.pending dp')%string ->
    default "" rem = piece_texts qs ->
    tracks (at_view (default_view tp1 dp')) (emit_text rem)
      (fun _ t s' => heard (w ++ content) (piece_texts ps ++ concat_text t) s')) as Hend.
  { intros dp' qs rem Hd' Hqs Hp Hrem. eapply tracks_conseq; [apply emit_text_tracks|done|].
    intros _ t s' [-> Hs']. rewrite concat_nonempty, Hrem. exists tp1, dp'. split; [done|]. split; [done|]. split; [done|].
    exists (Some (default "" (fst out) ++ default "" (fst out1)), Some (default "" (snd out) ++ default "" (snd out1)))%string, (ps ++ qs).
    split; [intros r; rewrite string_app_assoc, Hw, Hr1; apply with_out_app|].
    split; [|split; [by rewrite piece_texts_app|by apply Forall_app]].
    cbn [snd from_option id]. by rewrite Hx, string_app_assoc, Hp, raws_app, string_app_assoc. }
  destruct (snd out1) as [text|] eqn:Hsnd.
  - destruct (default_text_tracks tp1 dp text Hd) as (dp' & qs & rem & Hd' & Hqs & Hp & Hrem & Htext).
    eapply (tracks_seq _ _ [] (fun x s => x = rem /\ at_view (default_view tp1 dp') s)).
    + apply read_view. intros s2 [= _ _ _ ->]. eapply tracks_conseq; [exact Htext|done|]. naive_solver.
    + intros y. apply tracks_pure. intros ->. by apply (Hend dp' qs rem).
  - eapply (tracks_seq _ _ [] (fun x s => x = None /\ at_view (default_view tp1 dp) s)).
    + by apply tracks_ret.
    + intros y. apply tracks_pure. intros ->. apply (Hend dp [] None); [done|by apply Forall_nil| |done].
      cbn. by rewrite string_app_nil_r.
Qed.

(** What the text of the tokens is, in the end: pieces whose texts were said, and
    at most the delimiter of a call behind them. *)
Definition told (preserve : bool) (w said : string) : Prop :=
  exists ps lost, snd (think_split THINK_OPEN THINK_CLOSE false 0 w) = (raws DefaultTool.raw ps ++ lost)%string
    /\ said = piece_texts ps /\ (lost = "" \/ lost = DefaultTool.OPEN_DELIM)
    /\ (preserve = false -> Forall DefaultTool.call_ok ps).

(** The text that is left in the thinking parser. *)
Lemma left_text_tracks tp dp text :
  tool_ready dp ->
  exists dp' ps, tool_ready dp' /\ Forall DefaultTool.call_ok ps
    /\ (DefaultTool.pending dp ++ default "" text)%string = (raws DefaultTool.raw ps ++ DefaultTool.pending dp')%string
    /\ tracks (at_view (default_view tp dp))
         (match nonempty_part text with
          | Some text => final_text <~ process_default_tool_call_text new_uuid text ;; emit_text final_text
          | None => eret tt
          end)
         (fun _ t s => concat_text t = piece_texts ps /\ at_view (default_view tp dp') s).
Proof.
  intros Hd. destruct (nonempty_part text) as [x|] eqn:Hx.
  - destruct (default_text_tracks tp dp x Hd) as (dp' & ps & rem & Hd' & Hps & Hp & Hrem & Ht).
    assert (default "" text = x) as -> by (destruct text as [[|a y]|]; cbn in *; congruence).
    exists dp', ps. split; [done|]. split; [done|]. split; [done|].
    eapply (tracks_seq _ _ [] (fun y s => y = rem /\ at_view (default_view tp dp') s)).
    + eapply tracks_conseq; [exact Ht|done|]. naive_solver.
    + intros y. apply tracks_pure. intros ->. eapply tracks_conseq; [apply emit_text_tracks|done|].
      intros _ t s [Htx Hs]. rewrite Htx. cbn [app]. by rewrite concat_nonempty, Hrem.
  - exists dp, []. split; [done|]. split; [by apply Forall_nil|]. split.
    + assert (default "" text = "") as -> by (destruct text as [[|a y]|]; cbn in *; congruence). by rewrite string_app_nil_r.
    + by apply tracks_ret.
Qed.

(** Flushing the tool parser. *)
Lemma flush_tool_tracks tp dp preserve :
  tool_ready dp ->
  exists qs lost, DefaultTool.pending dp = (raws DefaultTool.raw qs ++ lost)%string
    /\ (lost = "" \/ lost = DefaultTool.OPEN_DELIM) /\ (preserve = false -> Forall DefaultTool.call_ok qs)
    /\ tracks (at_view (default_view tp dp)) (flush_pending_default_tool_call new_uuid preserve)
         (fun _ t _ => concat_text t = piece_texts qs).
Proof.
  intros [Hw Hs]. pose proof (DefaultTool.finish_keeps preserve dp Hw Hs) as Hf.
  destruct (DefaultTool.finish preserve dp) as [f dp'] eqn:Hfin. cbn [fst] in Hf.
  assert (tracks (at_view (default_view tp dp)) (flush_pending_default_tool_call new_uuid preserve)
            (fun _ t _ => t = finish_texts f)) as Ht.
  { apply read_view. intros s [= _ Hdp _ _]. rewrite Hdp, Hfin.
    eapply (tracks_seq _ _ [] (fun _ => at_view (default_view tp dp'))).
    - apply put_view_tracks; [done|]. intros s' [= H1 _ H3 H4]. unfold at_view, view. cbn. by rewrite H1, H3, H4.
    - intros _. eapply tracks_conseq; [apply emit_finish_tracks|done|]. by intros _ t s' [-> _]. }
  assert (forall qs lost, DefaultTool.pending dp = (raws DefaultTool.raw qs ++ lost)%string ->
    (lost = "" \/ lost = DefaultTool.OPEN_DELIM) -> (preserve = false -> Forall DefaultTool.call_ok qs) ->
    concat_text (finish_texts f) = piece_texts qs ->
    exists qs lost, DefaultTool.pending dp = (raws DefaultTool.raw qs ++ lost)%string
    /\ (lost = "" \/ lost = DefaultTool.OPEN_DELIM) /\ (preserve = false -> Forall DefaultTool.call_ok qs)
    /\ tracks (at_view (default_view tp dp)) (flush_pending_default_tool_call new_uuid preserve)
         (fun _ t _ => concat_text t = piece_texts qs)) as Hgo.
  { intros qs lost H1 H2 H3 H4. exists qs, lost. split_and!; try done.
    eapply tracks_conseq; [exact Ht|done|]. by intros _ t s ->. }
  destruct f as [[t|name args]|].
  - apply (Hgo [PieceText t] ""); [|by left| |].
    + by rewrite raws_one, string_app_nil_r.
    + intros _. by repeat constructor.
    + rewrite piece_text_one. apply (concat_nonempty (Some t)).
  - destruct Hf as (-> & Hp & _). apply (Hgo [PieceCall name args] ""); [|by left|done|done].
    by rewrite raws_one, string_app_nil_r.
  - apply (Hgo [] (DefaultTool.pending dp)); [done|done| |done]. intros _. by apply Forall_nil.
Qed.

Lemma flush_default w said preserve s :
  heard w said s ->
  let '((_, es), s') := flush_pending_parsers new_uuid preserve s in
  emits (blocks s) es (blocks s') /\ told preserve w (said ++ concat_text (text_chunks es)).
Proof.
  intros (tp & dp & Hv & Ht & Hd & out & ps & Hw & Hx & -> & Hok).
  assert (tracks (at_view (default_view tp dp)) (flush_pending_parsers new_uuid preserve)
    (fun _ t _ => told preserve w (piece_texts ps ++ concat_text t))) as H.
  2:{ specialize (H s Hv). destruct (flush_pending_parsers new_uuid preserve s) as [[x es] s']. exact H. }
  destruct think_long as [Hlo Hlc]. pose proof (think_finish_keeps _ _ Hlo Hlc tp Ht) as Hfin.
  specialize (Hw ""). rewrite string_app_nil_r, Hfin in Hw.
  apply read_view. intros s1 [= Htp _ Hcp _]. rewrite Hcp, Htp. destruct (think_finish tp) as [[th tx] tp'] eqn:Htf.
  cbn [fst] in Hw. destruct (left_text_tracks tp' dp tx Hd) as (dp' & qs & Hd' & Hqs & Hp & Hleft).
  destruct (flush_tool_tracks tp' dp' preserve Hd') as (rs & lost & Hpend & Hlost & Hrs & Hflush).
  eapply (tracks_seq _ _ [] (fun _ => at_view (default_view tp' dp))).
  { apply put_view_tracks; [done|]. intros s' [= _ H2 H3 H4]. unfold at_view, view. cbn. by rewrite H2, H3, H4. }
  intros _. eapply (tracks_seq _ _ [] (fun _ => at_view (default_view tp' dp))); [apply emit_thinking_tracks|intros _].
  eapply tracks_bind; [exact Hleft|]. intros u t1.
  apply tracks_pure. intros Ht1. eapply tracks_conseq; [exact Hflush|done|]. intros u2 t2 s2 Ht2.
  exists (ps ++ qs ++ rs), lost. split_and!.
  - rewrite Hw. unfold with_out. cbn [fst snd]. rewrite Hx, string_app_nil_r, string_app_assoc, Hp, Hpend.
    by rewrite !raws_app, !string_app_assoc.
  - cbn [app]. by rewrite Assembly.concat_text_app, Ht1, Ht2, !piece_texts_app.
  - done.
  - intros Hpre. apply Forall_app. split; [done|]. apply Forall_app. auto.
Qed.

(** ** The Gemma models *)

Definition gemma_state (s : StreamState) : Prop :=
  exists tp dp cp gp, at_view (tp, dp, Some cp, Some gp) s /\ think_settled CHANNEL_OPEN CHANNEL_CLOSE cp /\ GemmaTool.wf gp.

Definition keeps_gemma {A} (m : M A) : Prop := tracks gemma_state m (fun _ _ => gemma_state).

Lemma gemma_emits {A} (m : M A) :
  (forall v, tracks (at_view v) m (fun _ _ => at_view v)) -> keeps_gemma m.
Proof.
  intros H s (tp & dp & cp & gp & Hv & Hc & Hg). specialize (H _ s Hv). destruct (m s) as [[x es] s'].
  destruct H as [He Hv']. split; [done|]. exists tp, dp, cp, gp. done.
Qed.

Lemma keeps_bind {A B} (m : M A) (k : A -> M B) : keeps_gemma m -> (forall x, keeps_gemma (k x)) -> keeps_gemma (ebind m k).
Proof.
  intros Hm Hk. unfold keeps_gemma. eapply tracks_bind; [exact Hm|]. intros x t. apply Hk.
Qed.

Lemma says_view {A} v (m : M A) texts : tracks (at_view v) m (says texts v) -> tracks (at_view v) m (fun _ _ => at_view v).
Proof. intros H. eapply tracks_conseq; [exact H|done|]. by intros x t s [_ Hs]. Qed.

Lemma gemma_ret {A} (x : A) : keeps_gemma (eret x).
Proof. by apply tracks_ret. Qed.

Lemma gemma_thinking th : keeps_gemma (emit_thinking th).
Proof. apply gemma_emits. intros v. eapply says_view, emit_thinking_tracks. Qed.

Lemma gemma_text x : keeps_gemma (emit_text x).
Proof. apply gemma_emits. intros v. eapply says_view, emit_text_tracks. Qed.

Lemma gemma_finish f : keeps_gemma (emit_finish new_uuid f).
Proof. apply gemma_emits. intros v. eapply says_view, emit_finish_tracks. Qed.

Lemma gemma_process text :
  keeps_gemma (s <~ eget ;; match tool_call_parser s with
                            | Some parser => process_gemma_text new_uuid parser text
                            | None => process_default_tool_call_text new_uuid text
                            end).
Proof.
  intros s (tp & dp & cp & gp & Hv & Hc & Hg).
  destruct (GemmaTool.gemma_process_keeps text gp Hg) as ([calls rem] & gp' & ps & He & _ & _ & Hg').
  assert (tracks (at_view (tp, dp, Some cp, Some gp))
    (s <~ eget ;; match tool_call_parser s with
                  | Some parser => process_gemma_text new_uuid parser text
                  | None => process_default_tool_call_text new_uuid text
                  end) (fun _ _ => at_view (tp, dp, Some cp, Some gp'))) as H.
  { apply read_view. intros s1 [= _ _ _ ->]. unfold process_gemma_text. rewrite He. cbn [total default].
    eapply (tracks_seq _ _ [] (fun _ => at_view (tp, dp, Some cp, Some gp'))).
    - apply put_view_tracks; [done|]. intros s' [= H1 H2 H3 _]. unfold at_view, view. cbn. by rewrite H1, H2, H3.
    - intros _. eapply (tracks_seq _ _ [] (fun _ => at_view (tp, dp, Some cp, Some gp'))); [apply emit_tool_calls_tracks|].
      intros _. by apply tracks_ret. }
  specialize (H s Hv). destruct (ebind _ _ s) as [[x es] s']. destruct H as [He' Hv']. split; [done|]. by exists tp, dp, cp, gp'.
Qed.

Lemma channel_long : 1 < String.length CHANNEL_OPEN /\ 1 < String.length CHANNEL_CLOSE.
Proof. split; apply Nat.ltb_lt; reflexivity. Qed.

Lemma gemma_split content : keeps_gemma (split_token content).
Proof.
  intros s (tp & dp & cp & gp & Hv & Hc & Hg). destruct channel_long as [Ho Hcl].
  destruct (think_process_keeps _ _ Ho Hcl content cp) as (out & cp' & He & Hs & _).
  assert (tracks (at_view (tp, dp, Some cp, Some gp)) (split_token content) (fun _ _ => at_view (tp, dp, Some cp', Some gp))) as H.
  { apply read_view. intros s1 [= _ _ -> _]. unfold channel_process. rewrite He. cbn [total default].
    eapply (tracks_seq _ _ [] (fun _ => at_view (tp, dp, Some cp', Some gp))); [|intros _; by apply tracks_ret].
    apply put_view_tracks; [done|]. intros s' [= H1 H2 _ H4]. unfold at_view, view. cbn. by rewrite H1, H2, H4. }
  specialize (H s Hv). destruct (split_token content s) as [[x es] s']. destruct H as [He' Hv']. split; [done|]. by exists tp, dp, cp', gp.
Qed.

Lemma gemma_token content : keeps_gemma (process_token new_uuid content).
Proof.
  apply keeps_bind; [apply gemma_split|intros out]. apply keeps_bind; [apply gemma_thinking|intros _].
  apply keeps_bind; [|intros x; apply gemma_text]. destruct (snd out) as [text|]; [apply gemma_process|apply gemma_ret].
Qed.

Lemma gemma_flush preserve : keeps_gemma (flush_pending_parsers new_uuid preserve).
Proof.
  intros s (tp & dp & cp & gp & Hv & Hc & Hg).
  assert (tracks (at_view (tp, dp, Some cp, Some gp)) (flush_pending_parsers new_uuid preserve) (fun _ _ => gemma_state)) as H.
  { apply read_view. intros s1 [= _ _ -> _]. unfold channel_finish. destruct (think_finish cp) as [[th tx] cp'] eqn:Hf.
    assert (think_settled CHANNEL_OPEN CHANNEL_CLOSE cp') as Hc'.
    { unfold think_finish in Hf. destruct (str_is_empty (tp_buffer cp)); [by injection Hf as _ _ <-|].
      destruct (tp_state cp); by injection Hf as _ _ <-. }
    eapply (tracks_seq _ _ [] (fun _ => gemma_state)).
    { apply tracks_modify. intros s' [= H1 H2 _ H4]. split; [done|]. split; [done|]. exists tp, dp, cp', gp. split; [|done].
      unfold at_view, view. cbn. by rewrite H1, H2, H4. }
    intros _. apply keeps_bind; [apply gemma_thinking|intros _]. apply keeps_bind.
    - destruct (nonempty_part tx) as [text|]; [|apply gemma_ret].
      intros s2 Hs2. pose proof Hs2 as (tp2 & dp2 & cp2 & gp2 & Hv2 & _). pose proof (gemma_process text s2 Hs2) as Hp.
      unfold process_gemma_tool_call_text, ebind, eget in *. injection Hv2 as _ _ _ Hgp. rewrite Hgp in *.
      destruct (process_gemma_text new_uuid gp2 text s2) as [[x es] s3]. destruct Hp as [He Hs3]. cbn [app] in *.
      pose proof (gemma_text x s3 Hs3) as Ht. destruct (emit_text x s3) as [[y es'] s4]. destruct Ht as [He' Hs4].
      split; [by eapply emits_app|done].
    - intros _ s2 (tp2 & dp2 & cp2 & gp2 & Hv2 & Hc2 & Hg2). unfold flush_pending_gemma_tool_call, ebind, eget.
      injection Hv2 as H1 H2 H3 H4. rewrite H4. destruct (GemmaTool.finish preserve gp2) as [f gp3] eqn:Hfin.
      assert (GemmaTool.wf gp3) as Hg3 by (apply (f_equal snd) in Hfin; cbn in Hfin; subst gp3; by apply GemmaTool.finish_wf).
      assert (gemma_state (put_gemma gp3 s2)) as Hs3.
      { exists tp2, dp2, cp2, gp3. split; [|done]. unfold at_view, view. cbn. by rewrite H1, H2, H3. }
      cbn [emodify]. pose proof (gemma_finish f _ Hs3) as Ht. destruct (emit_finish new_uuid f (put_gemma gp3 s2)) as [[y es'] s4].
      exact Ht. }
  specialize (H s Hv). destruct (flush_pending_parsers new_uuid preserve s) as [[x es] s']. exact H.
Qed.

(** ** The meters *)

Definition meters (s : StreamState) : N * N * FinishReason := (prompt_tokens s, completion_tokens s, finish_reason s).

Definition still {A} (m : M A) : Prop := forall s, meters (snd (m s)) = meters s.

Lemma still_bind {A B} (m : M A) (k : A -> M B) : still m -> (forall x, still (k x)) -> still (ebind m k).
Proof.
  intros Hm Hk s. unfold ebind. specialize (Hm s). destruct (m s) as [[x es] s1]. specialize (Hk x s1).
  destruct (k x s1) as [[y es'] s2]. cbn in *. congruence.
Qed.

Lemma still_on_blocks f : still (on_blocks f).
Proof. intros s. unfold on_blocks. by destruct (f (blocks s)). Qed.

Ltac stays :=
  repeat first
    [ apply still_bind; [|intros ?]
    | apply still_on_blocks
    | match goal with |- still (match ?x with _ => _ end) => destruct x end
    | by intros ? ].

Lemma still_text x : still (emit_text x).
Proof. unfold emit_text. stays. Qed.

Lemma still_thinking x : still (emit_thinking x).
Proof. unfold emit_thinking. stays. Qed.

Lemma still_call name args : still (emit_tool_call new_uuid name args).
Proof. unfold emit_tool_call. stays. Qed.

Lemma still_calls calls : still (emit_tool_calls new_uuid calls).
Proof. induction calls; cbn [emit_tool_calls]; [by intros ?|]. apply still_bind; [apply still_call|done]. Qed.

Lemma still_finish f : still (emit_finish new_uuid f).
Proof. destruct f as [[t|name args]|]; [apply still_text|apply still_call|by intros ?]. Qed.

#[local] Hint Resolve still_text still_thinking still_call still_calls still_finish : core.

Lemma still_flush preserve : still (flush_pending_parsers new_uuid preserve).
Proof.
  unfold flush_pending_parsers, flush_pending_default_tool_call, flush_pending_gemma_tool_call, process_gemma_tool_call_text,
    process_default_tool_call_text, process_gemma_text.
  repeat first [progress auto | progress stays].
Qed.

(** ** The handler *)

Definition ready (s : StreamState) : Prop := (exists w said, heard w said s) \/ gemma_state s.

Lemma flush_emits preserve s :
  ready s ->
  let '((_, es), s') := flush_pending_parsers new_uuid preserve s in
  emits (blocks s) es (blocks s') /\ forall w said, heard w said s -> told preserve w (said ++ concat_text (text_chunks es)).
Proof.
  intros Hs. assert (emits (blocks s) (snd (fst (flush_pending_parsers new_uuid preserve s)))
    (blocks (snd (flush_pending_parsers new_uuid preserve s)))) as He.
  { destruct Hs as [(w & said & Hh)|Hg].
    - pose proof (flush_default w said preserve s Hh) as H. destruct (flush_pending_parsers _ _ _) as [[x es] s']; apply H.
    - pose proof (gemma_flush preserve s Hg) as H. destruct (flush_pending_parsers _ _ _) as [[x es] s']; apply H. }
  assert (forall w said, heard w said s ->
    told preserve w (said ++ concat_text (text_chunks (snd (fst (flush_pending_parsers new_uuid preserve s)))))) as Ht.
  { intros w said Hh. pose proof (flush_default w said preserve s Hh) as H.
    destruct (flush_pending_parsers _ _ _) as [[x es] s']; apply H. }
  by destruct (flush_pending_parsers _ _ _) as [[x es] s'].
Qed.

(** The stream closed by [last_event]. *)
Lemma last_event_closes preserve last_event s :
  ready s -> (forall s, is_terminal (last_event s) = true) ->
  exists es s' s2, finish (finish_with new_uuid preserve last_event) s = (Finish es, s')
    /\ meters s2 = meters s /\ closes (blocks s) es (last_event s2)
    /\ forall w said, heard w said s -> told preserve w (said ++ concat_text (text_chunks es)).
Proof.
  intros Hs Hl. unfold finish, finish_with, ebind. pose proof (flush_emits preserve s Hs) as H.
  pose proof (still_flush preserve s) as Hm. destruct (flush_pending_parsers new_uuid preserve s) as [[x es] s1].
  destruct H as [He Ht]. unfold finalize_open. pose proof (closes_finalized (blocks s) es (blocks s1)) as Hc.
  pose proof (finalize_no_text (blocks s1)) as Hn. destruct (finalize_blocks (blocks s1)) as [es1 b] eqn:Hf. cbn [fst snd] in *.
  eexists _, _, (put_blocks b s1). split; [done|]. split; [exact Hm|]. split; [by apply Hc|].
  intros w said Hh. rewrite !text_chunks_app, Hn.
  assert (text_chunks [last_event (put_blocks b s1)] = []) as -> by (generalize (Hl (put_blocks b s1)); by destruct (last_event _)).
  rewrite !app_nil_r. by apply Ht.
Qed.

Lemma finish_finalize s : finish (finalize new_uuid) s = finish (finish_with new_uuid (is_length (finish_reason s)) done_event) s.
Proof. unfold finish, finalize, ebind at 1, eget. by destruct (finish_with _ _ _ s) as [[x es] s']. Qed.

Lemma ready_done p c r s : ready s -> ready (put_done p c r s).
Proof. intros [(w & said & Hh)|Hg]; [left; by exists w, said|by right]. Qed.

Lemma heard_start : heard "" "" (state_new false).
Proof.
  exists think_new, DefaultTool.new. split_and!; [done..|]. exists (None, None), []. split_and!; [|done..|by apply Forall_nil].
  intros r. unfold remaining, with_out. cbn [fst snd default from_option tp_buffer think_new is_thinking tp_state].
  rewrite !string_app_nil_l. by destruct (think_split _ _ _ _ _).
Qed.

Lemma ready_start is_gemma4 : ready (state_new is_gemma4).
Proof.
  destruct is_gemma4; [right|left; exists "", ""; exact heard_start].
  by exists think_new, DefaultTool.new, think_new, GemmaTool.new.
Qed.

Lemma token_emits content s :
  ready s ->
  let '((_, es), s') := process_token new_uuid content s in
  emits (blocks s) es (blocks s') /\ ready s'
  /\ forall w said, heard w said s -> heard (w ++ content) (said ++ concat_text (text_chunks es)) s'.
Proof.
  intros Hs. assert (forall w said, heard w said s ->
    let '((_, es), s') := process_token new_uuid content s in
    emits (blocks s) es (blocks s') /\ heard (w ++ content) (said ++ concat_text (text_chunks es)) s') as Ht
    by (intros; by apply process_token_tracks).
  destruct Hs as [(w & said & Hh)|Hg].
  - pose proof (Ht w said Hh) as H. destruct (process_token _ _ _) as [[x es] s']. destruct H as [He H].
    split; [done|]. split; [left; by do 2 eexists|]. intros w' said' Hh'. by apply Ht.
  - pose proof (gemma_token content s Hg) as H. destruct (process_token _ _ _) as [[x es] s']. destruct H as [He H].
    split; [done|]. split; [by right|]. intros w' said' Hh'. by apply Ht.
Qed.

#[export] Instance local_sound : SoundAdapter (local_adapter new_uuid).
Proof.
  refine (Build_SoundAdapter _ _ (local_adapter new_uuid) blocks ready (fun _ _ => True) _ _ _).
  - intros s [text|p c r|msg] Hs _; cbn [on_item local_adapter on_token].
    + pose proof (token_emits text s Hs) as H. destruct (process_token _ _ _) as [[x es] s']. split; apply H.
    + destruct (last_event_closes (is_length r) done_event (put_done p c r s)) as (es & s' & s2 & He & _ & Hc & _); [by apply ready_done|done|].
      rewrite finish_finalize. cbn [finish_reason put_done]. rewrite He. by eexists.
    + destruct (last_event_closes false (fun _ => event_error ("local inference error: " ++ msg)%string) s Hs) as (es & s' & s2 & He & _ & Hc & _); [done|].
      unfold finalize_error. rewrite He. by eexists.
  - intros s Hs. destruct (last_event_closes false (fun _ => event_error "local inference stream ended before completion") s Hs)
      as (es & s' & s2 & He & _ & Hc & _); [done|]. by exists es, s', (event_error "local inference stream ended before completion").
  - intros s Hs. destruct (last_event_closes false (fun _ => cancelled_error "local inference cancelled") s Hs)
      as (es & s' & s2 & He & _ & Hc & _); [done|]. eexists. unfold finish in He. cbn -[finalize_cancelled].
    unfold finalize_cancelled. destruct (finish_with _ _ _ s) as [[x es'] s'']. injection He as -> _. exact Hc.
Defined.

(** The text of the tokens up to the end the runner reports. *)
Fixpoint spoken (tokens : list TokenEvent) : option (string * (N * N * FinishReason)) :=
  match tokens with
  | Token text :: tokens' => '(w, d) ← spoken tokens'; Some ((text ++ w)%string, d)
  | TokensDone p c r :: _ => Some ("", (p, c, r))
  | _ => None
  end.

Lemma all_tokens_ok tokens s : lines_ok (local_adapter new_uuid) tokens s.
Proof.
  revert s. induction tokens as [|t tokens IH]; intros s; [done|]. split; [done|].
  by destruct (on_item _ (Some t) s) as [[]].
Qed.

Lemma local_done cancel tokens w said s es mid sr us c :
  heard w said s -> adapter_events (local_adapter new_uuid) cancel tokens s = Some es ->
  es = mid ++ [Done sr us c] ->
  exists w' p k r, spoken tokens = Some (w', (p, k, r)) /\ us = token_usage p k /\ (sr = Length <-> r = FinishLength)
    /\ told (is_length r) (w ++ w') (said ++ concat_text (text_chunks es)).
Proof.
  revert cancel w said s es mid. induction tokens as [|t tokens IH]; intros cancel w said s es mid Hs;
    assert (ready s) as Hready by (left; by exists w, said);
    (destruct (decide (cancel = Some 0)) as [->|Hcancel];
     [intros [= <-] H; destruct (last_event_closes false (fun _ => cancelled_error "local inference cancelled") s Hready)
        as (es' & s' & s2 & He & _ & Hc & _); [done|];
      unfold on_cancel, local_adapter, finalize_cancelled in H; unfold finish in He;
      destruct (finish_with _ _ _ s) as [[x es] s'']; injection He as -> _; by pose proof (closes_last _ _ _ _ _ Hc H)|]).
  - destruct (last_event_closes false (fun _ => event_error "local inference stream ended before completion") s Hready)
      as (es' & s' & s2 & He & _ & Hc & _); [done|]. intros Hev Hes.
    assert (Some es' = Some es) as [= ->].
    { rewrite <- Hev. destruct cancel as [[|n]|]; [done|..]; cbn [adapter_events on_item local_adapter on_token];
        change (finalize_eof_without_done new_uuid) with
          (finish_with new_uuid false (fun _ => event_error "local inference stream ended before completion")); by rewrite He. }
    by pose proof (closes_last _ _ _ _ _ Hc Hes).
  - rewrite adapter_events_line by done. cbn zeta. destruct t as [text|p k r|msg]; cbn [on_item local_adapter on_token].
    + pose proof (token_emits text s Hready) as H. destruct (process_token new_uuid text s) as [[x es1] s1].
      destruct H as (_ & Hs1 & Hh). specialize (Hh w said Hs).
      destruct (adapter_events _ (pred <$> cancel) tokens s1) as [es2|] eqn:Hr; cbn [fmap option_fmap option_map]; [|done].
      intros [= <-] Hes. destruct es2 as [|e es2 _] using rev_ind.
      { destruct (adapter_events_close (local_adapter new_uuid) (pred <$> cancel) tokens s1) as (es' & t & He' & Hc').
        - exact Hs1.
        - apply all_tokens_ok.
        - rewrite Hr in He'. injection He' as <-. destruct Hc' as (? & ? & _ & Hnil & _).
          by destruct (app_cons_not_nil _ _ _ (eq_trans Hnil (app_assoc _ _ _))). }
      rewrite app_assoc in Hes. apply app_inj_tail in Hes as [_ ->].
      destruct (IH (pred <$> cancel) _ _ s1 _ es2 Hh Hr eq_refl) as (w' & p & k & r & Hsp & Hus & Hsr & Ht).
      exists (text ++ w')%string, p, k, r. cbn [spoken]. rewrite Hsp. split; [done|]. split; [done|]. split; [done|].
      rewrite (text_chunks_app es1), Assembly.concat_text_app, <- !string_app_assoc in *. exact Ht.
    + intros Hes He. destruct (last_event_closes (is_length r) done_event (put_done p k r s)) as (es' & s' & s2 & Hf & Hm & Hc & Ht);
        [by apply ready_done|done|]. rewrite finish_finalize in Hes. cbn [finish_reason put_done] in Hes. rewrite Hf in Hes.
      injection Hes as ->. pose proof (closes_last _ _ _ _ _ Hc He) as Hd. injection Hm as Hp Hk Hr.
      unfold done_event in Hd. rewrite Hp, Hk, Hr in Hd. injection Hd as -> -> ->.
      exists "", p, k, r. split; [done|]. split; [done|]. split; [destruct r, (has_tool_calls s2); done|].
      rewrite string_app_nil_r. by apply Ht.
    + intros Hes He. destruct (last_event_closes false (fun _ => event_error ("local inference error: " ++ msg)%string) s Hready)
        as (es' & s' & s2 & Hf & _ & Hc & _); [done|]. unfold finalize_error in Hes. rewrite Hf in Hes. injection Hes as ->.
      by pose proof (closes_last _ _ _ _ _ Hc He).
Qed.

Lemma token_stream_session is_gemma4 cancel tokens :
  exists ops t, ops_ok Assembly.new ops = true /\ is_terminal t = true
    /\ token_event_stream new_uuid is_gemma4 cancel tokens = Some (session_with ops t).
Proof.
  exact (adapter_session (local_adapter new_uuid) cancel tokens (state_new is_gemma4) (ready_start is_gemma4) eq_refl (all_tokens_ok _ _)).
Qed.

Lemma token_stream_accumulates is_gemma4 cancel tokens now provider model :
  exists es, token_event_stream new_uuid is_gemma4 cancel tokens = Some es
    /\ match accumulate_message now es provider model with Ok _ => True | Err e => exists e', e = parse_error e' end.
Proof.
  destruct (token_stream_session is_gemma4 cancel tokens) as (ops & t & Hok & Ht & Hes). exists (session_with ops t).
  split; [exact Hes|]. pose proof (session_with_accumulates now ops t provider model Hok Ht) as H.
  destruct (accumulate_message _ _ _ _); [done|apply H].
Qed.


End Spec.

(** The parsers of the thinking, for the Gemma models and the others, do not
    depend on how the text is cut into tokens: each call returns, and all that the
    calls and the last flush give, put together, is the thinking and the text that a scan
    of the whole text finds between and outside the delimiters. *)
Lemma thinking_cut_irrelevant (is_gemma4 : bool) tokens :
  let open_delim := if is_gemma4 then CHANNEL_OPEN else THINK_OPEN in
  let close_delim := if is_gemma4 then CHANNEL_CLOSE else THINK_CLOSE in
  exists outs p, think_run open_delim close_delim think_new tokens = Some (outs, p)
    /\ gathered (outs ++ [fst (think_finish p)]) = think_split open_delim close_delim false 0 (concat_text tokens).
Proof.
  cbn zeta. destruct is_gemma4; [destruct channel_long as [Ho Hc]|destruct think_long as [Ho Hc]];
    match goal with |- context [think_run ?o ?c] =>
      destruct (think_run_keeps o c Ho Hc think_new tokens) as (outs & p & He & _ & Hr); [done|];
      exists outs, p; split; [exact He|]; by rewrite <- Hr
    end.
Qed.

(** ** What the parsers make of some texts *)

Section Texts.

Definition toy_stream (tokens : list string) : option (list AssistantMessageEvent) :=
  token_event_stream (fun _ => "id") false None (map Token tokens ++ [TokensDone 1 1 FinishStop]).

Definition toy_usage : Usage := token_usage 1 1.

(** A text that ends in the delimiter loses it. *)
Lemma delimiter_at_the_end_is_lost :
  toy_stream ["Their last "; "call:"]
  = Some [Start; TextStart 0; TextDelta 0 "Their last "; TextEnd 0; Done Stop toy_usage cost_default].
Proof. by vm_compute. Qed.

(** Two delimiters in a row are a call or text, by where the tokens are cut. *)
Lemma tool_parser_depends_on_the_cut :
  toy_stream ["call:call:b{}"]
  = Some [Start; ToolCallStart 0 "id" "b"; ToolCallDelta 0 "{}"; TextStart 1; TextDelta 1 "call:"; ToolCallEnd 0;
          TextEnd 1; Done ToolUse toy_usage cost_default]
  /\ toy_stream ["call:call"; ":b{}"]
     = Some [Start; TextStart 0; TextDelta 0 "call:call:b{}"; TextEnd 0; Done Stop toy_usage cost_default].
Proof. by vm_compute. Qed.

(** Within a token the calls come before the text in front of them, and the
    thinking before both. *)
Lemma calls_come_before_their_text :
  toy_stream ["a call:b{}"]
  = Some [Start; ToolCallStart 0 "id" "b"; ToolCallDelta 0 "{}"; TextStart 1; TextDelta 1 "a "; ToolCallEnd 0;
          TextEnd 1; Done ToolUse toy_usage cost_default]
  /\ toy_stream ["a "; "call:b{}"]
     = Some [Start; TextStart 0; TextDelta 0 "a "; TextEnd 0; ToolCallStart 1 "id" "b"; ToolCallDelta 1 "{}";
             ToolCallEnd 1; Done ToolUse toy_usage cost_default].
Proof. by vm_compute. Qed.

End Texts.
End LocalSpec.
