(* ===== verification/Convert.v ===== *)
(** * Message conversion: [src/convert.rs], [adapters/src/openai_compat.rs], [adapters/src/responses.rs], [adapters/src/ollama.rs]

    The history as a provider's request takes it.  [MessageConverter] is what an
    adapter supplies; [FaithfulConverter] is what it promises: a request says what
    the history says, every call and every result included, in order. *)
From S2P Require Export ByteFile BlockAccumulator.
Open Scope string_scope.
Open Scope list_scope.

Section Convert.
Context `{E : Ext}.

(** ** The converter *)

(** @src src/convert.rs:22-39 [MessageConverter] *)
Class MessageConverter := {
  Message : Type;
  system_message : string -> option Message;
  user_message : UserMessage -> Message;
  assistant_message : AssistantMessage -> Message;
  tool_result_message : ToolResultMessage -> Message;
}.

Definition convert_message `{C : MessageConverter} (msg : AgentMessage) : option Message :=
  match msg with
  | Llm (User user) => Some (user_message user)
  | Llm (Assistant assistant) => Some (assistant_message assistant)
  | Llm (ToolResult tool_result) => Some (tool_result_message tool_result)
  | Custom _ => None
  end.

(** @src src/convert.rs:44-70 [convert_messages] *)
Definition convert_messages `{C : MessageConverter} (messages : list AgentMessage) (system_prompt : string) : list Message :=
  (if str_is_empty system_prompt then [] else option_list (system_message system_prompt))
  ++ filtermap convert_message messages.

(** ** Tools *)

(** @src src/convert.rs:78-83 [ToolSchema] *)
Record ToolSchema := MkToolSchema { ts_name : string; ts_description : string; ts_parameters : Value }.

(** A tool by its name, its description and its schema.
    @src src/convert.rs:98-103 [extract_tool_schemas] *)
Definition extract_tool_schemas (tools : list (string * string * Value)) : list ToolSchema :=
  map (fun '(name, description, schema) => MkToolSchema name description schema) tools.

(** ** What a history says *)

Inductive Item :=
| ISystem (text : string)
| IUser (text : string)
| IAssistant (text : string)
| ICall (id name arguments : string)
| IAnswer (id text : string).

(** Empty texts are left out. *)
Definition said (f : string -> Item) (text : string) : list Item := if str_is_empty text then [] else [f text].

Definition block_call (b : ContentBlock) : option Item :=
  match b with ToolCall id name arguments _ => Some (ICall id name (json_to_string arguments)) | _ => None end.

Definition message_items (msg : AgentMessage) : list Item :=
  match msg with
  | Llm (User user) => said IUser (extract_text (um_content user))
  | Llm (Assistant a) => said IAssistant (extract_text (am_content a)) ++ filtermap block_call (am_content a)
  | Llm (ToolResult r) => [IAnswer (tr_tool_call_id r) (extract_text (tr_content r))]
  | Custom _ => []
  end.

Definition history_items (messages : list AgentMessage) : list Item := concat (map message_items messages).

(** What a converter promises: on the wire is what was said, [on_wire] being what
    the provider's format keeps of it. *)
Class FaithfulConverter (C : MessageConverter) := {
  items : Message -> list Item;
  on_wire : Item -> Item;
  system_faithful p : match system_message p with Some m => items m = said ISystem p | None => True end;
  user_faithful u : items (user_message u) = map on_wire (said IUser (extract_text (um_content u)));
  assistant_faithful a :
    items (assistant_message a)
    = map on_wire (said IAssistant (extract_text (am_content a)) ++ filtermap block_call (am_content a));
  result_faithful r : items (tool_result_message r) = map on_wire [IAnswer (tr_tool_call_id r) (extract_text (tr_content r))];
}.

Lemma convert_faithful `{C : MessageConverter} {F : FaithfulConverter C} messages system_prompt :
  concat (map items (convert_messages messages system_prompt))
  = (match system_message system_prompt with Some _ => said ISystem system_prompt | None => [] end)
    ++ map on_wire (history_items messages).
Proof.
  unfold convert_messages. rewrite map_app, concat_app. f_equal.
  - unfold said. pose proof (system_faithful system_prompt) as Hs. unfold said in Hs.
    destruct (str_is_empty system_prompt) eqn:He; destruct (system_message _); try done. cbn. by rewrite app_nil_r.
  - unfold history_items. induction messages as [|msg messages IH]; [done|]. cbn [filtermap map concat].
    rewrite map_app, <- IH. destruct msg as [[u|a|r]|c]; cbn [convert_message message_items].
    + cbn [map concat]. by rewrite user_faithful.
    + cbn [map concat]. by rewrite assistant_faithful.
    + cbn [map concat]. by rewrite result_faithful.
    + done.
Qed.

(** ** OpenAI-compatible *)

(** @src adapters/src/openai_compat.rs:50-54 [OaiFunctionCallRequest] *)
Record OaiFunctionCallRequest := MkOaiFunctionCallRequest { fc_name : string; fc_arguments : string }.

(** @src adapters/src/openai_compat.rs:42-47 [OaiToolCallRequest] *)
Record OaiToolCallRequest := MkOaiToolCallRequest { tq_id : string; tq_type : string; tq_function : OaiFunctionCallRequest }.

(** @src adapters/src/openai_compat.rs:30-39 [OaiMessage] *)
Record OaiMessage := MkOaiMessage {
  om_role : string;
  om_content : option string;
  om_tool_calls : option (list OaiToolCallRequest);
  om_tool_call_id : option string;
}.

Definition nonempty_text (s : string) : option string := if str_is_empty s then None else Some s.
Definition nonempty_list {A} (l : list A) : option (list A) := match l with [] => None | _ => Some l end.

(** @src adapters/src/openai_compat.rs:255-305 [OaiConverter::assistant_message] *)
Definition oai_assistant_message (assistant : AssistantMessage) : OaiMessage :=
  let '(content, tool_calls) :=
    foldl (fun '(content, tool_calls) block =>
             match block with
             | Text text => ((content ++ text)%string, tool_calls)
             | ToolCall id name arguments _ =>
               (content, tool_calls ++ [MkOaiToolCallRequest id "function" (MkOaiFunctionCallRequest name (json_to_string arguments))])
             | _ => (content, tool_calls)
             end) ("", []) (am_content assistant) in
  MkOaiMessage "assistant" (nonempty_text content) (nonempty_list tool_calls) None.

(** @src adapters/src/openai_compat.rs:233-316 [impl MessageConverter for OaiConverter (brace)] *)
Definition OaiConverter : MessageConverter := {|
  Message := OaiMessage;
  system_message system_prompt := Some (MkOaiMessage "system" (Some system_prompt) None None);
  user_message user := MkOaiMessage "user" (Some (extract_text (um_content user))) None None;
  assistant_message := oai_assistant_message;
  tool_result_message result :=
    MkOaiMessage "tool" (Some (extract_text (tr_content result))) None (Some (tr_tool_call_id result));
|}.

(** Text and calls collected in one pass. *)
Lemma collect_blocks {A} (call : string -> string -> Value -> A) bs t calls :
  foldl (fun '(content, tool_calls) block =>
           match block with
           | Text text => ((content ++ text)%string, tool_calls)
           | ToolCall id name arguments _ => (content, tool_calls ++ [call id name arguments])
           | _ => (content, tool_calls)
           end) (t, calls) bs
  = ((t ++ extract_text bs)%string,
     calls ++ filtermap (fun b => match b with ToolCall id name arguments _ => Some (call id name arguments) | _ => None end) bs).
Proof.
  revert t calls. induction bs as [|b bs IH]; intros t calls; cbn [foldl filtermap].
  - by rewrite string_app_nil_r, app_nil_r.
  - rewrite Assembly.extract_text_cons. destruct b; rewrite IH; cbn [Assembly.text_of]; rewrite ?string_app_nil_l, ?string_app_assoc, <- ?app_assoc; done.
Qed.

Definition oai_call_item (c : OaiToolCallRequest) : Item :=
  ICall (tq_id c) (fc_name (tq_function c)) (fc_arguments (tq_function c)).

Definition oai_items (m : OaiMessage) : list Item :=
  let text := default "" (om_content m) in
  if String.eqb (om_role m) "system" then said ISystem text
  else if String.eqb (om_role m) "user" then said IUser text
  else if String.eqb (om_role m) "tool" then [IAnswer (default "" (om_tool_call_id m)) text]
  else said IAssistant text ++ map oai_call_item (default [] (om_tool_calls m)).

Lemma default_nonempty_text s : default "" (nonempty_text s) = s.
Proof. by destruct s. Qed.

Lemma default_nonempty_list {A} (l : list A) : default [] (nonempty_list l) = l.
Proof. by destruct l. Qed.

Lemma map_filtermap {A B C} (g : B -> C) (f : A -> option B) l :
  map g (filtermap f l) = filtermap (fun a => g <$> f a) l.
Proof. induction l as [|a l IH]; [done|]. cbn. destruct (f a); cbn; by rewrite IH. Qed.

Lemma filtermap_pointwise {A B} (f g : A -> option B) l : (forall a, f a = g a) -> filtermap f l = filtermap g l.
Proof. intros H. induction l as [|a l IH]; [done|]. cbn. by rewrite H, IH. Qed.

Lemma filtermap_none {A B} (f : A -> option B) l : (forall a, f a = None) -> filtermap f l = [].
Proof. intros H. induction l as [|a l IH]; [done|]. cbn. by rewrite H. Qed.

Lemma call_items {A} (call : string -> string -> Value -> A) (item : A -> Item) (wire : Item -> Item) bs :
  (forall id name arguments, item (call id name arguments) = wire (ICall id name (json_to_string arguments))) ->
  map item (filtermap (fun b => match b with ToolCall id name arguments _ => Some (call id name arguments) | _ => None end) bs)
  = map wire (filtermap block_call bs).
Proof.
  intros H. rewrite !map_filtermap. apply filtermap_pointwise. intros [ | | | | ]; cbn; try done. by rewrite H.
Qed.

#[export] Instance OaiConverter_faithful : FaithfulConverter OaiConverter.
Proof.
  refine {| items := oai_items : Message (MessageConverter := OaiConverter) -> _; on_wire x := x |}.
  - done.
  - intros u. rewrite map_id. done.
  - intros a. rewrite map_id. cbn [assistant_message OaiConverter]. unfold oai_assistant_message. rewrite collect_blocks.
    rewrite string_app_nil_l. cbn [app]. unfold oai_items. cbn [om_role om_content om_tool_calls String.eqb Ascii.eqb Bool.eqb].
    rewrite default_nonempty_text, default_nonempty_list. f_equal.
    erewrite (call_items _ _ (fun x => x)); [by rewrite map_id|done].
  - done.
Defined.

Lemma oai_request_says messages system_prompt :
  concat (map oai_items (convert_messages (C := OaiConverter) messages system_prompt))
  = said ISystem system_prompt ++ history_items messages.
Proof.
  pose proof (convert_faithful (C := OaiConverter) messages system_prompt) as H.
  change (map on_wire (history_items messages)) with (map (fun x : Item => x) (history_items messages)) in H.
  rewrite map_id in H. exact H.
Qed.

(** @src adapters/src/openai_compat.rs:65-69 [OaiToolDef] *)
Record OaiToolDef := MkOaiToolDef { od_name : string; od_description : string; od_parameters : Value }.

(** @src adapters/src/openai_compat.rs:58-61 [OaiTool] *)
Record OaiTool := MkOaiTool { ot_type : string; ot_function : OaiToolDef }.

(** @src adapters/src/openai_compat.rs:321-339 [build_oai_tools] *)
Definition build_oai_tools (tools : list (string * string * Value)) : list OaiTool * option string :=
  let oai_tools := 
    map (fun s => MkOaiTool "function" (MkOaiToolDef (ts_name s) (ts_description s) (ts_parameters s))) (extract_tool_schemas tools) in
  (oai_tools, match oai_tools with [] => None | _ => Some "auto" end).

End Convert.

(** ** Message conversion of the other providers

    The requests of the Responses API (adapters/src/responses.rs) and of Ollama
    (adapters/src/ollama.rs), and the adapters that convert the history on their own:
    Anthropic, Google and Bedrock, whose messages are lists of blocks. *)
Open Scope string_scope.
Open Scope list_scope.

Section ConvertWire.
Context `{E : Ext}.

(** ** The Responses API *)

(** @src adapters/src/responses.rs:74-79 [ContentPart] *)
Inductive ContentPart := InputText (text : string) | OutputText (text : string).

(** @src adapters/src/responses.rs:54-70 [InputItem] *)
Inductive InputItem :=
| InputMessage (role : string) (content : list ContentPart)
| FunctionCall (call_id name arguments : string)
| FunctionCallOutput (call_id output : string).

(** @src adapters/src/responses.rs:149-184 [ResponsesConverter::assistant_message] *)
Definition responses_assistant_message (assistant : AssistantMessage) : list InputItem :=
  let '(text, items) :=
    foldl (fun '(text, items) block =>
             match block with
             | Text t => ((text ++ t)%string, items)
             | ToolCall id name arguments _ => (text, items ++ [FunctionCall id name (json_to_string arguments)])
             | _ => (text, items)
             end) ("", []) (am_content assistant) in
  if str_is_empty text then items else InputMessage "assistant" [OutputText text] :: items.

(** @src adapters/src/responses.rs:132-192 [impl MessageConverter for ResponsesConverter (brace)] *)
Definition ResponsesConverter : MessageConverter := {|
  Message := list InputItem;
  system_message _ := None;
  user_message user := [InputMessage "user" [InputText (extract_text (um_content user))]];
  assistant_message := responses_assistant_message;
  tool_result_message result := [FunctionCallOutput (tr_tool_call_id result) (extract_text (tr_content result))];
|}.

Definition part_text (p : ContentPart) : string := match p with InputText t | OutputText t => t end.

Definition input_item_items (i : InputItem) : list Item :=
  match i with
  | InputMessage role content =>
    said (if String.eqb role "user" then IUser else IAssistant) (concat_text (map part_text content))
  | FunctionCall id name arguments => [ICall id name arguments]
  | FunctionCallOutput id output => [IAnswer id output]
  end.

Lemma concat_text_one s : concat_text [s] = s.
Proof. unfold concat_text. cbn. by rewrite string_app_nil_l. Qed.

#[export] Instance ResponsesConverter_faithful : FaithfulConverter ResponsesConverter.
Proof.
  refine {| items := (fun m : Message (MessageConverter := ResponsesConverter) => concat (map input_item_items m)); on_wire x := x |}.
  - done.
  - intros u. rewrite map_id. cbn. by rewrite app_nil_r, string_app_nil_l.
  - intros a. rewrite map_id. cbn [assistant_message ResponsesConverter]. unfold responses_assistant_message. rewrite collect_blocks.
    rewrite string_app_nil_l. cbn [app].
    assert (forall l, concat (map input_item_items (filtermap (fun b => match b with
        ToolCall id name arguments _ => Some (FunctionCall id name (json_to_string arguments)) | _ => None end) l))
      = filtermap block_call l) as Hc.
    { intros l. induction l as [|b l IH]; [done|]. destruct b; cbn; by rewrite ?IH. }
    unfold said. destruct (str_is_empty (extract_text (am_content a))) eqn:He; [apply Hc|].
    cbn [map concat]. rewrite Hc. cbn [input_item_items map part_text String.eqb Ascii.eqb Bool.eqb]. unfold said. by rewrite concat_text_one, He.
  - done.
Defined.

(** ** Ollama *)

(** @src adapters/src/ollama.rs:43-47 [OllamaFunctionCall] *)
Record OllamaFunctionCall := MkOllamaFunctionCall { lf_name : string; lf_arguments : Value }.

(** @src adapters/src/ollama.rs:37-40 [OllamaToolCall] *)
Record OllamaToolCall := MkOllamaToolCall { lc_function : OllamaFunctionCall }.

(** @src adapters/src/ollama.rs:28-34 [OllamaMessage] *)
Record OllamaMessage := MkOllamaMessage {
  lm_role : string;
  lm_content : string;
  lm_tool_calls : option (list OllamaToolCall);
}.

(** @src adapters/src/ollama.rs:359-389 [OllamaConverter::assistant_message] *)
Definition ollama_assistant_message (assistant : AssistantMessage) : OllamaMessage :=
  let '(content, tool_calls) :=
    foldl (fun '(content, tool_calls) block =>
             match block with
             | Text text => ((content ++ text)%string, tool_calls)
             | ToolCall _ name arguments _ => (content, tool_calls ++ [MkOllamaToolCall (MkOllamaFunctionCall name arguments)])
             | _ => (content, tool_calls)
             end) ("", []) (am_content assistant) in
  MkOllamaMessage "assistant" content (nonempty_list tool_calls).

(** @src adapters/src/ollama.rs:339-399 [impl MessageConverter for OllamaConverter (brace)] *)
Definition OllamaConverter : MessageConverter := {|
  Message := OllamaMessage;
  system_message system_prompt := Some (MkOllamaMessage "system" system_prompt None);
  user_message user := MkOllamaMessage "user" (extract_text (um_content user)) None;
  assistant_message := ollama_assistant_message;
  tool_result_message result := MkOllamaMessage "tool" (extract_text (tr_content result)) None;
|}.

(** Ollama's format has no identifiers: results are told by their order. *)
Definition without_id (i : Item) : Item :=
  match i with ICall _ name arguments => ICall "" name arguments | IAnswer _ text => IAnswer "" text | _ => i end.

Definition ollama_items (m : OllamaMessage) : list Item :=
  let text := lm_content m in
  if String.eqb (lm_role m) "system" then said ISystem text
  else if String.eqb (lm_role m) "user" then said IUser text
  else if String.eqb (lm_role m) "tool" then [IAnswer "" text]
  else said IAssistant text
       ++ map (fun c => ICall "" (lf_name (lc_function c)) (json_to_string (lf_arguments (lc_function c)))) (default [] (lm_tool_calls m)).

Lemma without_id_said f text : (forall t, without_id (f t) = f t) -> map without_id (said f text) = said f text.
Proof. intros H. unfold said. destruct (str_is_empty text); cbn; by rewrite ?H. Qed.

#[export] Instance OllamaConverter_faithful : FaithfulConverter OllamaConverter.
Proof.
  refine {| items := ollama_items : Message (MessageConverter := OllamaConverter) -> _; on_wire := without_id |}.
  - done.
  - intros u. by rewrite without_id_said.
  - intros a. rewrite map_app, without_id_said by done. cbn [assistant_message OllamaConverter].
    unfold ollama_assistant_message. rewrite (collect_blocks (fun _ name arguments => MkOllamaToolCall (MkOllamaFunctionCall name arguments))).
    rewrite string_app_nil_l. cbn [app].
    unfold ollama_items. cbn [lm_role lm_content lm_tool_calls String.eqb Ascii.eqb Bool.eqb]. rewrite default_nonempty_list. f_equal.
    by apply (call_items (fun _ name arguments => MkOllamaToolCall (MkOllamaFunctionCall name arguments))).
  - done.
Defined.

(** ** Messages made of blocks *)

(** What a block is to the reader of the request. *)
Inductive Part :=
| PText (text : string)
| PCall (id name arguments : string)
| PAnswer (id text : string)
| PHidden.

Definition parts_items (role : string) (ps : list Part) : list Item :=
  said (if String.eqb role "user" then IUser else IAssistant)
    (concat_text (filtermap (fun p => match p with PText t => Some t | _ => None end) ps))
  ++ filtermap (fun p => match p with PCall id name arguments => Some (ICall id name arguments) | _ => None end) ps
  ++ filtermap (fun p => match p with PAnswer id text => Some (IAnswer id text) | _ => None end) ps.

Lemma parts_answer role ps id text : parts_items role (ps ++ [PAnswer id text]) = parts_items role ps ++ [IAnswer id text].
Proof. unfold parts_items. rewrite !filtermap_app. cbn [filtermap]. by rewrite !app_nil_r, <- !app_assoc. Qed.

(** An assistant's blocks, each translated or left out. *)
Lemma assistant_parts_items role (f : ContentBlock -> option Part) bs :
  String.eqb role "user" = false ->
  (forall b, f b = match b with
                   | Text text => if str_is_empty text then None else Some (PText text)
                   | ToolCall id name arguments _ => Some (PCall id name (json_to_string arguments))
                   | _ => None
                   end \/ f b = Some PHidden /\ match b with Thinking _ _ => True | _ => False end) ->
  parts_items role (filtermap f bs) = said IAssistant (extract_text bs) ++ filtermap block_call bs.
Proof.
  intros Hr Hf. unfold parts_items. rewrite Hr, !filtermap_filtermap.
  assert (concat_text (filtermap (fun a => f a ≫= fun p => match p with PText t => Some t | _ => None end) bs) = extract_text bs) as ->.
  { induction bs as [|b bs IH]; [done|]. rewrite Assembly.extract_text_cons, <- IH. cbn [filtermap].
    destruct (Hf b) as [-> | [-> Hb]]; destruct b as [[|x t]| | | |]; try done; cbn [str_is_empty mbind option_bind Assembly.text_of];
      rewrite ?string_app_nil_l; try done.
    unfold concat_text at 1. cbn [foldl]. by rewrite Assembly.foldl_append, string_app_nil_l. }
  f_equal. rewrite <- (app_nil_r (filtermap block_call bs)). f_equal.
  - apply filtermap_pointwise. intros b. destruct (Hf b) as [-> | [-> Hb]]; destruct b; try done. cbn. by destruct (str_is_empty text).
  - clear -Hf. induction bs as [|b bs IH]; [done|]. cbn [filtermap].
    destruct (Hf b) as [-> | [-> Hb]]; destruct b; cbn; try done. by destruct (str_is_empty text).
Qed.

End ConvertWire.
