(* ===== verification/ConvertGoogle.v ===== *)
(** * The request to Gemini: [adapters/src/google.rs]

    The history in contents and parts.  (Anthropic's is in Anthropic.v.) *)
From S2P Require Export Convert.
Open Scope string_scope.
Open Scope list_scope.

Module Google.
Section Google.
Context `{E : Ext}.

(** @src adapters/src/google.rs:107-112 [GeminiInlineData] *)
Record GeminiInlineData := MkGeminiInlineData { gi_mime_type : string; gi_data : string }.

(** @src adapters/src/google.rs:114-119 [GeminiFileData] *)
Record GeminiFileData := MkGeminiFileData { gf_mime_type : string; gf_file_uri : string }.

(** @src adapters/src/google.rs:121-130 [GeminiFunctionCall] *)
Record GeminiFunctionCall := MkGeminiFunctionCall { gc_id : option string; gc_name : string; gc_args : Value }.

(** @src adapters/src/google.rs:132-137 [GeminiFunctionResponse] *)
Record GeminiFunctionResponse := MkGeminiFunctionResponse { gr_name : string; gr_response : Value }.

(** @src adapters/src/google.rs:88-105 [GeminiPart] *)
Record GeminiPart := MkGeminiPart {
  gp_text : option string;
  gp_thought : option bool;
  gp_thought_signature : option string;
  gp_inline_data : option GeminiInlineData;
  gp_file_data : option GeminiFileData;
  gp_function_call : option GeminiFunctionCall;
  gp_function_response : option GeminiFunctionResponse;
}.

Definition text_part (text : string) : GeminiPart := MkGeminiPart (Some text) None None None None None None.

(** @src adapters/src/google.rs:82-86 [GeminiContent] *)
Record GeminiContent := MkGeminiContent { gc_role : string; gc_parts : list GeminiPart }.

Definition user_part (block : ContentBlock) : option GeminiPart :=
  match block with
  | Text text => if str_is_empty text then None else Some (text_part text)
  | Image (Base64 media_type data) =>
    Some (MkGeminiPart None None None (Some (MkGeminiInlineData media_type data)) None None None)
  | Image (Url url media_type) =>
    Some (MkGeminiPart None None None None (Some (MkGeminiFileData media_type url)) None None)
  | _ => None
  end.

(** @src adapters/src/google.rs:538-569 [user_parts] *)
Definition user_parts (blocks : list ContentBlock) : list GeminiPart := filtermap user_part blocks.

Definition assistant_step (st : list GeminiPart * gmap string string) (block : ContentBlock) :
    list GeminiPart * gmap string string :=
  let '(parts, names) := st in
  match block with
  | Text text => if str_is_empty text then st else (parts ++ [text_part text], names)
  | Thinking thinking signature =>
    if negb (str_is_empty thinking) || bool_decide (is_Some signature)
    then (parts ++ [MkGeminiPart (nonempty_text thinking) (Some true) signature None None None None], names)
    else st
  | ToolCall id name arguments _ =>
    (parts ++ [MkGeminiPart None None None None None (Some (MkGeminiFunctionCall (Some id) name arguments)) None],
     <[id := name]> names)
  | _ => st
  end.

(** @src adapters/src/google.rs:571-620 [assistant_parts] *)
Definition assistant_parts (assistant : AssistantMessage) (tool_names_by_id : gmap string string) :
    list GeminiPart * gmap string string :=
  foldl assistant_step ([], tool_names_by_id) (am_content assistant).

(** @src adapters/src/google.rs:622-642 [tool_result_part] *)
Definition tool_result_part (result : ToolResultMessage) (tool_names_by_id : gmap string string) : GeminiPart :=
  let name := default (tr_tool_call_id result) (tool_names_by_id !! tr_tool_call_id result) in
  MkGeminiPart None None None None None None
    (Some (MkGeminiFunctionResponse name
       (json_of_map {["toolCallId" := json_string (tr_tool_call_id result);
                      "content" := json_string (extract_text (tr_content result));
                      "isError" := json_bool (tr_is_error result)]}))).

Definition convert_step (st : list GeminiContent * gmap string string) (message : AgentMessage) :
    list GeminiContent * gmap string string :=
  let '(result, names) := st in
  match message with
  | Custom _ => st
  | Llm (User user) =>
    match user_parts (um_content user) with
    | [] => st
    | parts => (result ++ [MkGeminiContent "user" parts], names)
    end
  | Llm (Assistant assistant) =>
    let '(parts, names) := assistant_parts assistant names in
    match parts with
    | [] => (result, names)
    | _ => (result ++ [MkGeminiContent "model" parts], names)
    end
  | Llm (ToolResult tool_result) => (result ++ [MkGeminiContent "user" [tool_result_part tool_result names]], names)
  end.

(** @src adapters/src/google.rs:494-536 [convert_messages] *)
Definition convert_messages (messages : list AgentMessage) : list GeminiContent :=
  fst (foldl convert_step ([], ∅) messages).

(** @src adapters/src/google.rs:474-482 [contains_thinking] *)
Definition contains_thinking (message : AgentMessage) : bool :=
  match message with
  | Llm (Assistant a) => existsb (fun b => match b with Thinking _ _ => true | _ => false end) (am_content a)
  | _ => false
  end.

(** @src adapters/src/google.rs:484-492 [contains_tool_call] *)
Definition contains_tool_call (message : AgentMessage) : bool :=
  match message with
  | Llm (Assistant a) => existsb (fun b => match b with ToolCall _ _ _ _ => true | _ => false end) (am_content a)
  | _ => false
  end.

(** @src adapters/src/google.rs:69-80 [GeminiTool, GeminiFunctionDeclaration] *)
Record GeminiTool := MkGeminiTool { function_declarations : list ToolSchema }.

(** @src adapters/src/google.rs:455-472 [build_tools] *)
Definition build_tools (tools : list (string * string * Value)) : list GeminiTool :=
  match extract_tool_schemas tools with [] => [] | declarations => [MkGeminiTool declarations] end.

(** @src adapters/src/google.rs:26-67 [GeminiRequest, its configurations flattened (brace)] *)
Record GeminiRequest := MkGeminiRequest {
  gq_system_instruction : option GeminiContent;
  gq_contents : list GeminiContent;
  gq_tools : list GeminiTool;
  gq_calling_mode : option string;
  gq_temperature : option f64;
  gq_max_output_tokens : option N;
  gq_include_thoughts : bool;
}.

(** @src adapters/src/google.rs:415-453 [convert_request] *)
Definition convert_request (system_prompt : string) (messages : list AgentMessage) (tools : list (string * string * Value))
    (temperature : option f64) (max_tokens : option N) : GeminiRequest :=
  let gemini_tools := build_tools tools in
  MkGeminiRequest
    (if str_is_empty system_prompt then None else Some (MkGeminiContent "user" [text_part system_prompt]))
    (convert_messages messages)
    gemini_tools
    (match gemini_tools with [] => None | _ => Some "AUTO" end)
    temperature max_tokens
    (existsb contains_thinking messages || existsb contains_tool_call messages || negb (match tools with [] => true | _ => false end)).

(** ** What the request says *)

Definition part_of (p : GeminiPart) : Part :=
  match gp_function_call p, gp_function_response p, gp_thought p, gp_text p with
  | Some c, _, _, _ => PCall (default "" (gc_id c)) (gc_name c) (json_to_string (gc_args c))
  | None, Some r, _, _ =>
    PAnswer (default "" (json_get (gr_response r) "toolCallId" ≫= json_as_str))
            (default "" (json_get (gr_response r) "content" ≫= json_as_str))
  | None, None, None, Some text => PText text
  | _, _, _, _ => PHidden
  end.

Definition content_items (c : GeminiContent) : list Item := parts_items (gc_role c) (map part_of (gc_parts c)).

Definition block_part (b : ContentBlock) : option Part :=
  match b with
  | Text text => if str_is_empty text then None else Some (PText text)
  | Thinking thinking signature =>
    if negb (str_is_empty thinking) || bool_decide (is_Some signature) then Some PHidden else None
  | ToolCall id name arguments _ => Some (PCall id name (json_to_string arguments))
  | _ => None
  end.

Lemma assistant_parts_are a names :
  map part_of (fst (assistant_parts a names)) = filtermap block_part (am_content a).
Proof.
  unfold assistant_parts.
  assert (forall bs parts names, map part_of (fst (foldl assistant_step (parts, names) bs)) = map part_of parts ++ filtermap block_part bs) as H
    by (intros bs; induction bs as [|b bs IH]; intros parts ns; [by rewrite app_nil_r|]; cbn [foldl filtermap];
      destruct b as [text|th sg|id name args pj|src|n d]; cbn [block_part assistant_step]; try (by rewrite IH);
      [destruct (str_is_empty text); rewrite IH; [done|]; by rewrite map_app, <- app_assoc
      |destruct (_ || _); rewrite IH; [|done]; rewrite map_app, <- app_assoc; cbn; by destruct (nonempty_text th)
      |by rewrite IH, map_app, <- app_assoc]).
  by rewrite H.
Qed.

Lemma user_parts_items blocks : concat (map content_items (match user_parts blocks with [] => [] | parts => [MkGeminiContent "user" parts] end))
  = said IUser (extract_text blocks).
Proof.
  assert (parts_items "user" (map part_of (user_parts blocks)) = said IUser (extract_text blocks)) as H.
  { unfold parts_items, user_parts. cbn [String.eqb Ascii.eqb Bool.eqb]. rewrite map_filtermap, !filtermap_filtermap.
    assert (concat_text (filtermap (fun a => (part_of <$> user_part a) ≫= fun p => match p with PText t => Some t | _ => None end) blocks)
      = extract_text blocks) as ->.
    { induction blocks as [|b bs IH]; [done|]. rewrite Assembly.extract_text_cons, <- IH. cbn [filtermap].
      destruct b as [[|x t]| | |[]|]; try (cbn [user_part str_is_empty fmap option_fmap option_map mbind option_bind Assembly.text_of];
        rewrite ?string_app_nil_l; done).
      cbn [user_part str_is_empty fmap option_fmap option_map mbind option_bind Assembly.text_of part_of text_part gp_function_call
        gp_function_response gp_thought gp_text]. unfold concat_text at 1. cbn [foldl]. by rewrite Assembly.foldl_append, string_app_nil_l. }
    rewrite !filtermap_none; [by rewrite !app_nil_r|..]; intros [[|x t]| | |[]|]; done. }
  destruct (user_parts blocks) as [|p ps] eqn:Hp; [cbn in *; exact H|]. cbn [map concat]. by rewrite app_nil_r.
Qed.

(** The request says what the history says. *)
Lemma convert_messages_says messages :
  concat (map content_items (convert_messages messages)) = history_items messages.
Proof.
  unfold convert_messages, history_items.
  assert (forall result names, concat (map content_items (fst (foldl convert_step (result, names) messages)))
    = concat (map content_items result) ++ concat (map message_items messages)) as H.
  2:{ by rewrite H. }
  induction messages as [|msg messages IH]; intros result names; [by rewrite app_nil_r|]. cbn [foldl map concat].
  assert (exists names' more, convert_step (result, names) msg = (result ++ more, names')
    /\ concat (map content_items more) = message_items msg) as (names' & more & -> & Hm).
  { destruct msg as [[u|a|r]|c]; cbn [convert_step message_items].
    - pose proof (user_parts_items (um_content u)) as Hu. destruct (user_parts (um_content u)) as [|p ps];
        [exists names, []; by rewrite app_nil_r|by do 2 eexists].
    - pose proof (assistant_parts_are a names) as Ha. destruct (assistant_parts a names) as [parts names'].
      cbn [fst] in Ha. pose proof (assistant_parts_items "model" block_part (am_content a)) as Hi.
      rewrite <- Ha in Hi. rewrite <- Hi; [|done|].
      + destruct parts as [|p ps]; [exists names', []; by rewrite app_nil_r|]. do 2 eexists. split; [done|].
        cbn [map concat]. by rewrite app_nil_r.
      + intros b. destruct b as [|th sg| | |]; cbn; try by left. destruct (_ || _); [by right|by left].
    - do 2 eexists. split; [done|]. cbn [map concat]. rewrite app_nil_r. unfold content_items, tool_result_part.
      cbn [gc_parts map part_of gp_function_call gp_function_response gr_response].
      rewrite !json_get_of_map. rewrite lookup_insert_eq. rewrite (lookup_insert_ne _ "toolCallId" "content") by done. rewrite lookup_insert_eq.
      cbn [mbind option_bind]. by rewrite !json_as_str_string.
    - exists names, []. by rewrite app_nil_r. }
  rewrite IH, map_app, concat_app, Hm, app_assoc. done.
Qed.

End Google.
End Google.
