(* ===== verification/ConvertBedrock.v ===== *)
(** * The request to Bedrock: [adapters/src/bedrock.rs]

    The history in messages and content blocks. *)
From S2P Require Export ConvertGoogle.
Open Scope string_scope.
Open Scope list_scope.

Module Bedrock.
Section Bedrock.
Context `{E : Ext}.

(** @src adapters/src/bedrock.rs:113-119 [BedrockToolUse] *)
Record BedrockToolUse := MkBedrockToolUse { bu_tool_use_id : string; bu_name : string; bu_input : Value }.

(** The texts of the content.
    @src adapters/src/bedrock.rs:121-133 [BedrockToolResult, BedrockToolResultContent (brace)] *)
Record BedrockToolResult := MkBedrockToolResult { br_tool_use_id : string; br_content : list string; br_status : option string }.

(** @src adapters/src/bedrock.rs:102-111 [BedrockContentBlock] *)
Record BedrockContentBlock := MkBedrockContentBlock {
  bb_text : option string;
  bb_tool_use : option BedrockToolUse;
  bb_tool_result : option BedrockToolResult;
}.

(** @src adapters/src/bedrock.rs:96-100 [BedrockMessage] *)
Record BedrockMessage := MkBedrockMessage { bm_role : string; bm_content : list BedrockContentBlock }.

Definition text_block (text : string) : BedrockContentBlock := MkBedrockContentBlock (Some text) None None.

(** @src adapters/src/bedrock.rs:953-993 [convert_messages, assistant block (brace)] *)
Definition convert_block (b : ContentBlock) : option BedrockContentBlock :=
  match b with
  | Text text => if str_is_empty text then None else Some (text_block text)
  | ToolCall id name arguments _ => Some (MkBedrockContentBlock None (Some (MkBedrockToolUse id name arguments)) None)
  | _ => None
  end.

Definition convert_message (message : AgentMessage) : option BedrockMessage :=
  match message with
  | Custom _ => None
  | Llm (User user) =>
    let text := extract_text (um_content user) in
    if str_is_empty text then None else Some (MkBedrockMessage "user" [text_block text])
  | Llm (Assistant assistant) =>
    match filtermap convert_block (am_content assistant) with
    | [] => None
    | content => Some (MkBedrockMessage "assistant" content)
    end
  | Llm (ToolResult tool_result) =>
    Some (MkBedrockMessage "user"
      [MkBedrockContentBlock None None
         (Some (MkBedrockToolResult (tr_tool_call_id tool_result) [extract_text (tr_content tool_result)]
                  (if tr_is_error tool_result then Some "error" else None)))])
  end.

(** @src adapters/src/bedrock.rs:933-1016 [convert_messages] *)
Definition convert_messages (messages : list AgentMessage) : list BedrockMessage := filtermap convert_message messages.

(** The messages and the system prompt of the request; it never is without a
    message.
    @src adapters/src/bedrock.rs:864-900 [build_request, messages and system (brace)] *)
Definition build_messages (messages : list AgentMessage) (system_prompt : string) : list BedrockMessage * option (list string) :=
  (match convert_messages messages with [] => [MkBedrockMessage "user" [text_block ""]] | ms => ms end,
   if str_is_empty system_prompt then None else Some [system_prompt]).

Definition part_of (b : BedrockContentBlock) : Part :=
  match bb_tool_use b, bb_tool_result b, bb_text b with
  | Some u, _, _ => PCall (bu_tool_use_id u) (bu_name u) (json_to_string (bu_input u))
  | None, Some r, _ => PAnswer (br_tool_use_id r) (concat_text (br_content r))
  | None, None, Some text => PText text
  | None, None, None => PHidden
  end.

Definition bedrock_items (m : BedrockMessage) : list Item := parts_items (bm_role m) (map part_of (bm_content m)).

Lemma bedrock_messages_say messages :
  concat (map bedrock_items (convert_messages messages)) = history_items messages.
Proof.
  unfold convert_messages, history_items. induction messages as [|msg messages IH]; [done|]. cbn [filtermap map concat]. rewrite <- IH.
  assert (concat (map bedrock_items (option_list (convert_message msg))) = message_items msg) as <-.
  2:{ destruct (convert_message msg) as [m|]; cbn; [by rewrite app_nil_r|done]. }
  destruct msg as [[u|a|r]|c]; cbn [convert_message message_items]; [| | |done].
  - unfold said. destruct (str_is_empty _) eqn:He; [done|]. cbn. unfold bedrock_items, parts_items. cbn.
    unfold said. by rewrite string_app_nil_l, He.
  - assert (parts_items "assistant" (map part_of (filtermap convert_block (am_content a)))
      = said IAssistant (extract_text (am_content a)) ++ filtermap block_call (am_content a)) as H.
    { rewrite map_filtermap. apply assistant_parts_items; [done|]. intros [t| | | |]; left; try done. cbn. by destruct (str_is_empty t). }
    rewrite <- H. destruct (filtermap convert_block (am_content a)) as [|b bs]; [done|]. exact (app_nil_r _).
  - unfold bedrock_items, parts_items. cbn. by rewrite string_app_nil_l.
Qed.

End Bedrock.
End Bedrock.
