(* ===== verification/ConvertSpec.v ===== *)
(** * What the providers' requests say

    Every adapter's request carries the history: each text, call and result,
    in order.  And the turns of a run go out with every call answered. *)
From S2P Require Export ConvertGoogle ConvertBedrock Anthropic LoopProtocol.
Open Scope string_scope.
Open Scope list_scope.

Section Says.
Context `{E : Ext}.

(** ** Anthropic *)

Definition anthropic_part (b : Anthropic.AnthropicContentBlock) : Part :=
  match b with
  | Anthropic.AText text => PText text
  | Anthropic.AToolUse id name input => PCall id name (json_to_string input)
  | Anthropic.AToolResult id text => PAnswer id text
  end.

Definition anthropic_items (m : Anthropic.AnthropicMessage) : list Item :=
  parts_items (Anthropic.role m) (map anthropic_part (Anthropic.content m)).

(** Results and nothing else. *)
Definition only_results (m : Anthropic.AnthropicMessage) : bool :=
  String.eqb (Anthropic.role m) "user" && forallb Anthropic.is_tool_result_block (Anthropic.content m).

(** No two neighbours are. *)
Fixpoint results_together (ms : list Anthropic.AnthropicMessage) : bool :=
  match ms with
  | m :: ((m' :: _) as ms') => negb (only_results m && only_results m') && results_together ms'
  | _ => true
  end.

Lemma results_together_cons a b ms :
  results_together (a :: b :: ms) = negb (only_results a && only_results b) && results_together (b :: ms).
Proof. done. Qed.

Lemma results_together_snoc ms m :
  results_together (ms ++ [m])
  = results_together ms && match last ms with Some l => negb (only_results l && only_results m) | None => true end.
Proof.
  induction ms as [|a ms IH]; [done|]. destruct ms as [|b ms]; [cbn; by rewrite andb_true_r|].
  rewrite <- !app_comm_cons in *. rewrite !results_together_cons, IH, andb_assoc. done.
Qed.

Lemma push_tool_result_says result block id text :
  anthropic_part block = PAnswer id text -> Anthropic.is_tool_result_block block = true -> results_together result = true ->
  concat (map anthropic_items (Anthropic.push_tool_result result block)) = concat (map anthropic_items result) ++ [IAnswer id text]
  /\ results_together (Anthropic.push_tool_result result block) = true.
Proof.
  intros Hp Hb Hr. unfold Anthropic.push_tool_result. destruct (last result) as [m|] eqn:Hl.
  - destruct (String.eqb (Anthropic.role m) "user" && forallb Anthropic.is_tool_result_block (Anthropic.content m)) eqn:Hm.
    + apply last_Some in Hl as [pre ->]. rewrite removelast_last. split.
      * rewrite !map_app, !concat_app. cbn [map concat]. rewrite !app_nil_r, <- app_assoc. f_equal.
        unfold anthropic_items. cbn [Anthropic.role Anthropic.content]. rewrite map_app. cbn [map]. rewrite Hp. apply parts_answer.
      * rewrite results_together_snoc in Hr |- *. destruct (last pre) as [l|]; [|exact Hr].
        change (only_results m = true) in Hm. rewrite Hm in Hr.
        assert (only_results {| Anthropic.role := Anthropic.role m; Anthropic.content := Anthropic.content m ++ [block] |} = true) as ->; [|done].
        unfold only_results in Hm |- *. cbn [Anthropic.role Anthropic.content]. rewrite forallb_app. cbn [forallb]. rewrite Hb. by rewrite !andb_true_r.
    + split.
      * rewrite map_app, concat_app. cbn [map concat]. rewrite app_nil_r. f_equal. unfold anthropic_items.
        cbn [Anthropic.role Anthropic.content map]. rewrite Hp. done.
      * rewrite results_together_snoc, Hr, Hl. change (only_results m = false) in Hm. by rewrite Hm.
  - assert (result = []) as -> by (by destruct result as [|x l] using rev_ind; [|rewrite last_snoc in Hl]). cbn. split; [|done].
    rewrite app_nil_r. unfold anthropic_items. cbn [Anthropic.role Anthropic.content map]. rewrite Hp. done.
Qed.

Lemma anthropic_block_parts bs :
  map anthropic_part (filtermap Anthropic.convert_block bs)
  = filtermap (fun b => anthropic_part <$> Anthropic.convert_block b) bs.
Proof. apply map_filtermap. Qed.

Lemma anthropic_step_says result msg :
  results_together result = true ->
  concat (map anthropic_items (Anthropic.convert_step result msg)) = concat (map anthropic_items result) ++ message_items msg
  /\ results_together (Anthropic.convert_step result msg) = true.
Proof.
  intros Hr. destruct msg as [[u|a|r]|c]; cbn [Anthropic.convert_step message_items].
  - split.
    + rewrite map_app, concat_app. cbn [map concat]. rewrite app_nil_r. f_equal. unfold anthropic_items, parts_items. cbn.
      by rewrite string_app_nil_l, app_nil_r.
    + rewrite results_together_snoc, Hr. destruct (last result) as [l|]; [|done]. by rewrite andb_false_r.
  - assert (parts_items "assistant" (map anthropic_part (filtermap Anthropic.convert_block (am_content a)))
      = said IAssistant (extract_text (am_content a)) ++ filtermap block_call (am_content a)) as <-.
    { rewrite anthropic_block_parts. apply assistant_parts_items; [done|]. intros [[|x t]| | | |]; by left. }
    destruct (filtermap Anthropic.convert_block (am_content a)) as [|b bs]; [by rewrite app_nil_r|]. split.
    + rewrite map_app, concat_app. f_equal. exact (app_nil_r _).
    + rewrite results_together_snoc, Hr. destruct (last result) as [l|]; [|done]. by rewrite andb_false_r.
  - by apply push_tool_result_says.
  - by rewrite app_nil_r.
Qed.

Lemma anthropic_says messages system_prompt :
  concat (map anthropic_items (snd (Anthropic.convert_messages messages system_prompt))) = history_items messages
  /\ results_together (snd (Anthropic.convert_messages messages system_prompt)) = true.
Proof.
  unfold Anthropic.convert_messages. cbn [snd].
  assert (forall result, results_together result = true ->
    concat (map anthropic_items (foldl Anthropic.convert_step result messages)) = concat (map anthropic_items result) ++ history_items messages
    /\ results_together (foldl Anthropic.convert_step result messages) = true) as H.
  2:{ by apply (H []). }
  induction messages as [|msg messages IH]; intros result Hr; [by rewrite app_nil_r|]. cbn [foldl].
  destruct (anthropic_step_says result msg Hr) as [Hs Hr']. destruct (IH _ Hr') as [-> ?]. split; [|done].
  by rewrite Hs, <- app_assoc.
Qed.

(** C26: the request to every provider carries the history: read back by its format
    it says, in order, every text of the users and the assistant, every call with its
    id, name and arguments and every result under its id - to Ollama, whose format
    has no ids, without them - and to Anthropic the results that follow one
    another go in one message. *)
Theorem requests_carry_history messages system_prompt :
  concat (map oai_items (convert_messages (C := OaiConverter) messages system_prompt))
    = said ISystem system_prompt ++ history_items messages
  /\ concat (map input_item_items (concat (convert_messages (C := ResponsesConverter) messages system_prompt)))
    = history_items messages
  /\ concat (map ollama_items (convert_messages (C := OllamaConverter) messages system_prompt))
    = said ISystem system_prompt ++ map without_id (history_items messages)
  /\ concat (map anthropic_items (snd (Anthropic.convert_messages messages system_prompt))) = history_items messages
  /\ results_together (snd (Anthropic.convert_messages messages system_prompt)) = true
  /\ concat (map Google.content_items (Google.convert_messages messages)) = history_items messages
  /\ concat (map Bedrock.bedrock_items (Bedrock.convert_messages messages)) = history_items messages.
Proof.
  split; [apply oai_request_says|]. split; [|split; [exact (convert_faithful (C := OllamaConverter) messages system_prompt)|]].
  - pose proof (convert_faithful (C := ResponsesConverter) messages system_prompt) as H.
    change (map on_wire (history_items messages)) with (map (fun x : Item => x) (history_items messages)) in H.
    rewrite map_id in H. etrans; [|exact H]. clear H.
    generalize (convert_messages (C := ResponsesConverter) messages system_prompt). intros l.
    induction l as [|m l IH]; [done|]. cbn [concat map]. rewrite map_app, concat_app. by f_equal.
  - destruct (anthropic_says messages system_prompt) as [Ha Hr].
    split; [exact Ha|]. split; [exact Hr|]. split; [apply Google.convert_messages_says|apply Bedrock.bedrock_messages_say].
Qed.

(** ** The turns of a run *)

(** A turn as the next request has it. *)
Definition turn_messages (m : AssistantMessage) (trs : list ToolResultMessage) : list AgentMessage :=
  Llm (Assistant m) :: map (fun tr => Llm (ToolResult tr)) trs.

Definition calls_of (id : string) (l : list Item) : nat :=
  length (List.filter (fun i => match i with ICall id' _ _ => bool_decide (id' = id) | _ => false end) l).
Definition answers_of (id : string) (l : list Item) : nat :=
  length (List.filter (fun i => match i with IAnswer id' _ => bool_decide (id' = id) | _ => false end) l).

Lemma filter_said p f text : (forall t, p (f t) = false) -> List.filter p (said f text) = [].
Proof. intros H. unfold said. destruct (str_is_empty text); cbn; by rewrite ?H. Qed.

Lemma turn_calls m trs id :
  calls_of id (history_items (turn_messages m trs))
  = length (List.filter (fun b => bool_decide (call_id b = Some id)) (am_content m)).
Proof.
  unfold calls_of, history_items, turn_messages. cbn [map concat message_items]. rewrite !List.filter_app, filter_said by done. cbn [app].
  assert (List.filter (fun i => match i with ICall id' _ _ => bool_decide (id' = id) | _ => false end)
    (concat (map message_items (map (fun tr => Llm (ToolResult tr)) trs))) = []) as ->.
  { induction trs as [|tr trs IH]; [done|]. exact IH. }
  rewrite app_nil_r. induction (am_content m) as [|b bs IH]; [done|]. destruct b as [| |i n a p| |]; cbn; try exact IH.
  rewrite (bool_decide_ext (Some i = Some id) (i = id)) by naive_solver. destruct (bool_decide (i = id)); cbn; by rewrite IH.
Qed.

Lemma turn_answers m trs id :
  answers_of id (history_items (turn_messages m trs))
  = length (List.filter (fun tr => bool_decide (tr_tool_call_id tr = id)) trs).
Proof.
  unfold answers_of, history_items, turn_messages. cbn [map concat message_items]. rewrite !List.filter_app, filter_said by done. cbn [app].
  assert (List.filter (fun i => match i with IAnswer id' _ => bool_decide (id' = id) | _ => false end)
    (filtermap block_call (am_content m)) = []) as ->.
  { induction (am_content m) as [|b bs IH]; [done|]. by destruct b. }
  cbn [app]. induction trs as [|tr trs IH]; [done|]. cbn. destruct (bool_decide (tr_tool_call_id tr = id)); cbn; by rewrite IH.
Qed.

Context {H : Type}.


End Says.

(** ** Some requests *)

Section Examples.
#[local] Existing Instance Toy.ext.

Definition two_calls : AssistantMessage :=
  MkAssistantMessage [ToolCall "c1" "read" json_empty_object None; ToolCall "c2" "read" json_empty_object None]
    "p" "m" usage_default cost_default ToolUse None None 0 None.

Definition toy_result (id : string) : AgentMessage :=
  Llm (ToolResult (MkToolResultMessage id [Text "done"] false 0 json_null None)).

Definition two_answers : list AgentMessage := [Llm (Assistant two_calls); toy_result "c1"; toy_result "c2"].

(** Anthropic gets the results of a turn in one message, Bedrock in two: there
    the roles do not alternate and the first message lacks a result. *)
Lemma bedrock_splits_the_results :
  map Anthropic.role (snd (Anthropic.convert_messages two_answers "")) = ["assistant"; "user"]
  /\ map Bedrock.bm_role (Bedrock.convert_messages two_answers) = ["assistant"; "user"; "user"].
Proof. done. Qed.

(** An image goes out to Gemini only. *)
Definition image_question : list AgentMessage :=
  [Llm (User (MkUserMessage [Image (Base64 "image/png" "AA==")] 0 None))].

Lemma images_are_dropped :
  convert_messages (C := OaiConverter) image_question "" = [MkOaiMessage "user" (Some "") None None]
  /\ snd (Anthropic.convert_messages image_question "") = [Anthropic.MkAnthropicMessage "user" [Anthropic.AText ""]]
  /\ Bedrock.convert_messages image_question = []
  /\ length (Google.convert_messages image_question) = 1.
Proof. done. Qed.


End Examples.
