(* ===== verification/Mistral.v ===== *)
(** * The Mistral adapter: [adapters/src/mistral.rs]

    Mistral takes tool-call ids of nine letters and digits, and no user message
    right after a tool's: the request is the OpenAI one with its ids exchanged
    and empty assistant messages put in between; in the response the ids
    are changed back. *)
From S2P Require Export Convert.
From Stdlib Require Import Ascii.
Open Scope string_scope.
Open Scope list_scope.

Module Mistral.
Section Mistral.
Context `{E : Ext}.
(** The bytes of [Uuid::new_v4], by the number of ids made before. *)
Context (uuid : nat -> list N).

(** @src adapters/src/mistral.rs:39-39 [MISTRAL_ID_CHARSET] *)
Definition MISTRAL_ID_CHARSET : string := "abcdefghijklmnopqrstuvwxyzABCDEFGHIJKLMNOPQRSTUVWXYZ0123456789".

(** ** Identifiers *)

(** @src adapters/src/mistral.rs:106-109 [MistralIdMap] *)
Record MistralIdMap := MkMistralIdMap {
  harness_to_mistral : gmap string string;
  mistral_to_harness : gmap string string;
  ids_made : nat;
}.

(** @src adapters/src/mistral.rs:112-117 [MistralIdMap::new] *)
Definition id_map_new : MistralIdMap := MkMistralIdMap ∅ ∅ 0.

Definition id_char (b : N) : ascii := default "a"%char (String.get (N.to_nat (b mod 62)) MISTRAL_ID_CHARSET).

(** @src adapters/src/mistral.rs:148-156 [generate_mistral_id] *)
Definition generate_mistral_id (bytes : list N) : string := String.string_of_list_ascii (map id_char (take 9 bytes)).

(** @src adapters/src/mistral.rs:120-130 [remap_to_mistral] *)
Definition remap_to_mistral (harness_id : string) (m : MistralIdMap) : string * MistralIdMap :=
  match harness_to_mistral m !! harness_id with
  | Some mid => (mid, m)
  | None =>
    let mid := generate_mistral_id (uuid (ids_made m)) in
    (mid, MkMistralIdMap (<[harness_id := mid]> (harness_to_mistral m)) (<[mid := harness_id]> (mistral_to_harness m)) (S (ids_made m)))
  end.

(** @src adapters/src/mistral.rs:134-145 [remap_to_harness] *)
Definition remap_to_harness (mistral_id : string) (m : MistralIdMap) : string * MistralIdMap :=
  match mistral_to_harness m !! mistral_id with
  | Some hid => (hid, m)
  | None =>
    let hid := ("call_" ++ mistral_id)%string in
    (hid, MkMistralIdMap (<[hid := mistral_id]> (harness_to_mistral m)) (<[mistral_id := hid]> (mistral_to_harness m)) (ids_made m))
  end.

(** ** The request *)

Definition put_id (c : OaiToolCallRequest) (id : string) : OaiToolCallRequest :=
  MkOaiToolCallRequest id (tq_type c) (tq_function c).

Fixpoint remap_calls (calls : list OaiToolCallRequest) (m : MistralIdMap) : list OaiToolCallRequest * MistralIdMap :=
  match calls with
  | [] => ([], m)
  | c :: calls' =>
    let '(id, m) := remap_to_mistral (tq_id c) m in
    let '(rest, m) := remap_calls calls' m in (put_id c id :: rest, m)
  end.

Definition is_role (m : OaiMessage) (role : string) : bool := String.eqb (om_role m) role.

(** The ids of a message.
    @src adapters/src/mistral.rs:283-297 [convert_messages_for_mistral, ids (brace)] *)
Definition remap_message (msg : OaiMessage) (m : MistralIdMap) : OaiMessage * MistralIdMap :=
  let '(msg, m) :=
    match (if is_role msg "assistant" then om_tool_calls msg else None) with
    | Some tool_calls =>
      let '(tool_calls, m) := remap_calls tool_calls m in
      (MkOaiMessage (om_role msg) (om_content msg) (Some tool_calls) (om_tool_call_id msg), m)
    | None => (msg, m)
    end in
  match (if is_role msg "tool" then om_tool_call_id msg else None) with
  | Some id =>
    let '(id, m) := remap_to_mistral id m in
    (MkOaiMessage (om_role msg) (om_content msg) (om_tool_calls msg) (Some id), m)
  | None => (msg, m)
  end.

Definition synthetic : OaiMessage := MkOaiMessage "assistant" (Some "") None None.

Fixpoint normalize (prev_was_tool : bool) (raw : list OaiMessage) (m : MistralIdMap) : list OaiMessage * MistralIdMap :=
  match raw with
  | [] => ([], m)
  | msg :: raw' =>
    let between := if prev_was_tool && is_role msg "user" then [synthetic] else [] in
    let '(msg, m) := remap_message msg m in
    let '(rest, m) := normalize (is_role msg "tool") raw' m in (between ++ msg :: rest, m)
  end.

(** @src adapters/src/mistral.rs:261-304 [convert_messages_for_mistral] *)
Definition convert_messages_for_mistral (messages : list AgentMessage) (system_prompt : string) (id_map : MistralIdMap) :
    list OaiMessage * MistralIdMap :=
  normalize false (convert_messages (C := OaiConverter) messages system_prompt) id_map.

(** ** The response *)

(** @src adapters/src/mistral.rs:318-337 [normalize_response_stream] *)
Fixpoint normalize_response_stream (raw : list AssistantMessageEvent) (m : MistralIdMap) : list AssistantMessageEvent :=
  match raw with
  | [] => []
  | ToolCallStart content_index id name :: raw' =>
    let '(harness_id, m) := remap_to_harness id m in
    ToolCallStart content_index harness_id name :: normalize_response_stream raw' m
  | event :: raw' => event :: normalize_response_stream raw' m
  end.

(** ** What it keeps *)

(** No user message right after a tool's. *)
Fixpoint no_user_after_tool (prev_was_tool : bool) (wire : list OaiMessage) : bool :=
  match wire with
  | [] => true
  | msg :: wire' => negb (prev_was_tool && is_role msg "user") && no_user_after_tool (is_role msg "tool") wire'
  end.

Definition mistral_id_ok (id : string) : bool :=
  (String.length id =? 9)%nat
  && string_all (fun a => let n := N_of_ascii a in
       ((97 <=? n) && (n <=? 122)) || ((65 <=? n) && (n <=? 90)) || ((48 <=? n) && (n <=? 57)))%N id.

(** An item with its id as the harness knows it. *)
Definition restore (m : MistralIdMap) (i : Item) : Item :=
  let back id := default id (mistral_to_harness m !! id) in
  match i with ICall id name arguments => ICall (back id) name arguments | IAnswer id text => IAnswer (back id) text | _ => i end.

Definition item_id (i : Item) : option string :=
  match i with ICall id _ _ | IAnswer id _ => Some id | _ => None end.

Hypothesis uuid_bytes : forall k, length (uuid k) = 16.

Lemma generated_ok k : mistral_id_ok (generate_mistral_id (uuid k)) = true.
Proof using uuid_bytes.
  unfold generate_mistral_id. pose proof (uuid_bytes k) as Hl. unfold mistral_id_ok. apply andb_true_iff. split.
  - apply Nat.eqb_eq. assert (forall l, String.length (String.string_of_list_ascii l) = length l) as -> by
      (intros l; induction l; cbn; auto). rewrite length_map, length_take. lia.
  - induction (take 9 (uuid k)) as [|b bs IH]; [done|]. cbn [map String.string_of_list_ascii string_all]. rewrite IH, andb_true_r.
    assert (forall i, i < 62 -> match String.get i MISTRAL_ID_CHARSET with
      | Some a => (let n := N_of_ascii a in ((97 <=? n) && (n <=? 122)) || ((65 <=? n) && (n <=? 90)) || ((48 <=? n) && (n <=? 57)))%N
      | None => false end = true) as H.
    { intros i Hi. do 62 (destruct i as [|i]; [reflexivity|]). lia. }
    specialize (H (N.to_nat (b mod 62))). unfold id_char.
    destruct (String.get _ _); [apply H|]; pose proof (N.mod_lt b 62); [lia|]. discriminate H. lia.
Qed.

(** The maps are inverse, and made of generated ids. *)
Definition id_inv (m : MistralIdMap) : Prop :=
  (forall h x, harness_to_mistral m !! h = Some x <-> mistral_to_harness m !! x = Some h)
  /\ (forall x h, mistral_to_harness m !! x = Some h -> exists k, k < ids_made m /\ x = generate_mistral_id (uuid k)).

Definition distinct_ids (n : nat) : Prop :=
  forall i j, i < j -> j < n -> generate_mistral_id (uuid i) <> generate_mistral_id (uuid j).

Lemma id_inv_new : id_inv id_map_new.
Proof. split; [by intros h x|]. intros x h H. cbn in H. by rewrite lookup_empty in H. Qed.

(** What an exchange of ids keeps. *)
Definition grows (m m' : MistralIdMap) (made : nat) : Prop :=
  id_inv m' /\ mistral_to_harness m ⊆ mistral_to_harness m' /\ ids_made m' <= ids_made m + made.

Lemma grows_refl m : id_inv m -> grows m m 0.
Proof. intros H. split; [done|]. split; [done|lia]. Qed.

Lemma grows_trans m1 m2 m3 a b : grows m1 m2 a -> grows m2 m3 b -> grows m1 m3 (a + b).
Proof. intros (_ & H1 & H2) (H3 & H4 & H5). split; [done|]. split; [by etrans|lia]. Qed.

Lemma remap_spec n h m x m' :
  distinct_ids n -> id_inv m -> ids_made m < n -> remap_to_mistral h m = (x, m') ->
  grows m m' 1 /\ mistral_to_harness m' !! x = Some h /\ mistral_id_ok x = true.
Proof using uuid_bytes.
  intros Hd [Hinv Hmade] Hn. unfold remap_to_mistral. destruct (harness_to_mistral m !! h) as [mid|] eqn:Hh; intros [= <- <-].
  - pose proof (proj1 (Hinv h mid) Hh) as Hx. split; [|split; [done|]].
    + split; [done|]. split; [done|lia].
    + destruct (Hmade _ _ Hx) as (k & _ & ->). apply generated_ok.
  - set (mid := generate_mistral_id (uuid (ids_made m))).
    assert (mistral_to_harness m !! mid = None) as Hfresh.
    { destruct (mistral_to_harness m !! mid) as [h'|] eqn:He; [|done]. destruct (Hmade _ _ He) as (k & Hk & He').
      exfalso. by apply (Hd k (ids_made m) Hk Hn). }
    split; [|split; [apply lookup_insert_eq|apply generated_ok]]. split; [|split; [by apply insert_subseteq|cbn; lia]].
    split; cbn [harness_to_mistral mistral_to_harness ids_made].
    + intros h' x'. rewrite !lookup_insert_Some. split.
      * intros [[-> ->]|[Hne Hx]]; [by left|]. right. apply Hinv in Hx. split; [congruence|done].
      * intros [[-> ->]|[Hne Hx]]; [by left|]. right. apply Hinv in Hx. split; [congruence|done].
    + intros x' h' [[<- <-]|[Hne Hx]]%lookup_insert_Some; [exists (ids_made m); split; [lia|done]|].
      destruct (Hmade _ _ Hx) as (k & Hk & ->). exists k. split; [lia|done].
Qed.

(** An item said in the harness's ids, and on the wire. *)
Definition ids_fit (m : MistralIdMap) (i : Item) : Prop :=
  match item_id i with Some id => mistral_id_ok id = true /\ is_Some (mistral_to_harness m !! id) | None => True end.

Lemma restore_id m m' i id h :
  mistral_to_harness m ⊆ mistral_to_harness m' -> item_id i = Some id -> mistral_to_harness m !! id = Some h ->
  restore m' i = match i with ICall _ name arguments => ICall h name arguments | IAnswer _ text => IAnswer h text | _ => i end.
Proof. intros Hs Hi Hh. eapply lookup_weaken in Hh; [|exact Hs]. destruct i; try done; injection Hi as ->; cbn; by rewrite Hh. Qed.

Lemma remap_calls_spec n calls m calls' m' :
  distinct_ids n -> id_inv m -> ids_made m + length calls <= n -> remap_calls calls m = (calls', m') ->
  grows m m' (length calls)
  /\ forall m2, mistral_to_harness m' ⊆ mistral_to_harness m2 ->
     map (restore m2) (map oai_call_item calls') = map oai_call_item calls /\ Forall (ids_fit m2) (map oai_call_item calls').
Proof using uuid_bytes.
  intros Hd. revert m calls' m'. induction calls as [|c calls IH]; intros m calls' m' Hm Hn; cbn [remap_calls].
  - intros [= <- <-]. split; [by apply grows_refl|]. done.
  - destruct (remap_to_mistral (tq_id c) m) as [id m1] eqn:Hr. destruct (remap_calls calls m1) as [rest m2] eqn:Hc.
    intros [= <- <-]. cbn [length] in Hn. apply (remap_spec n) in Hr as (Hg & Hid & Hok); [|done|done|lia].
    pose proof Hg as (Hm1 & Hs1 & Hn1). apply IH in Hc as (Hg2 & Hrest); [|done|lia].
    split; [exact (grows_trans _ _ _ 1 _ Hg Hg2)|]. intros m3 Hs3. destruct (Hrest m3 Hs3) as [Hback Hfit].
    assert (mistral_to_harness m1 ⊆ mistral_to_harness m3) as Hs by (etrans; [apply Hg2|done]). cbn [map]. split.
    + f_equal; [|done]. by rewrite (restore_id m1 m3 _ id (tq_id c)).
    + constructor; [|done]. split; [done|]. exists (tq_id c). by eapply lookup_weaken.
Qed.

(** The messages of the OpenAI conversion. *)
Definition oai_shape (msg : OaiMessage) : Prop :=
  ((om_role msg = "system" \/ om_role msg = "user") /\ om_tool_calls msg = None)
  \/ om_role msg = "assistant"
  \/ (om_role msg = "tool" /\ exists id, om_tool_call_id msg = Some id).

Lemma converted_shape messages system_prompt : Forall oai_shape (convert_messages (C := OaiConverter) messages system_prompt).
Proof.
  apply Forall_app. split.
  - destruct (str_is_empty _); [constructor|]. constructor; [left; auto|constructor].
  - induction messages as [|[[u|a|r]|c] messages IH]; cbn [filtermap convert_message]; [constructor|..|exact IH];
      (constructor; [|exact IH]).
    + left. auto.
    + right. left. cbn. unfold oai_assistant_message. by destruct (foldl _ _ _).
    + right. right. split; [done|by eexists].
Qed.

Definition id_count (l : list Item) : nat := length (filtermap item_id l).

Lemma id_count_app a b : id_count (a ++ b) = id_count a + id_count b.
Proof. unfold id_count. by rewrite filtermap_app, length_app. Qed.

Lemma said_no_ids f text : (forall t, item_id (f t) = None) ->
  id_count (said f text) = 0 /\ forall m, (forall t, restore m (f t) = f t) ->
    map (restore m) (said f text) = said f text /\ Forall (ids_fit m) (said f text).
Proof.
  intros H. unfold said, id_count. destruct (str_is_empty text); [done|]. cbn. rewrite H. split; [done|].
  intros m Hm. rewrite Hm. split; [done|]. repeat constructor. unfold ids_fit. by rewrite H.
Qed.

Lemma calls_ids calls : id_count (map oai_call_item calls) = length calls.
Proof. unfold id_count. induction calls; cbn; auto. Qed.

Lemma remap_message_spec n msg m msg' m' :
  distinct_ids n -> id_inv m -> oai_shape msg -> ids_made m + id_count (oai_items msg) <= n -> remap_message msg m = (msg', m') ->
  grows m m' (id_count (oai_items msg)) /\ om_role msg' = om_role msg
  /\ forall m2, mistral_to_harness m' ⊆ mistral_to_harness m2 ->
     map (restore m2) (oai_items msg') = oai_items msg /\ Forall (ids_fit m2) (oai_items msg').
Proof using uuid_bytes.
  intros Hd Hm Hs Hn. destruct msg as [role content calls cid]. destruct Hs as [[Hr Hc]|[Hr|[Hr [id Hid]]]];
    cbn [om_role om_tool_calls om_tool_call_id] in *; unfold remap_message, is_role; cbn [om_role om_tool_calls om_tool_call_id om_content].
  - subst calls. assert (exists f, oai_items (MkOaiMessage role content None cid) = said f (default "" content)
      /\ (forall t, item_id (f t) = None) /\ forall m t, restore m (f t) = f t) as (f & Hf & Hid & Hres)
      by (destruct Hr as [-> | ->]; by eexists).
    assert (String.eqb role "assistant" = false /\ String.eqb role "tool" = false) as [Ha Ht] by (by destruct Hr as [-> | ->]).
    rewrite Ha. cbn [om_role]. rewrite Ht. intros [= <- <-]. rewrite Hf in *. destruct (said_no_ids f (default "" content) Hid) as [H0 H]. rewrite H0.
    split; [by apply grows_refl|]. split; [done|]. intros m2 _. by apply H.
  - subst role. cbn [String.eqb Ascii.eqb Bool.eqb]. unfold oai_items in *. cbn [om_role om_content om_tool_calls String.eqb Ascii.eqb Bool.eqb] in *.
    destruct (said_no_ids IAssistant (default "" content)) as [H0 Hf]; [done|].
    rewrite id_count_app, H0, calls_ids in *. destruct calls as [calls|]; cbn [default from_option] in *.
    + destruct (remap_calls calls m) as [calls' m1] eqn:Hc. cbn [om_role om_tool_call_id om_content om_tool_calls String.eqb Ascii.eqb Bool.eqb].
      intros [= <- <-]. apply (remap_calls_spec n) in Hc as (Hg & Hback); [|done..]. split; [done|]. split; [done|].
      intros m2 Hs2. destruct (Hback m2 Hs2). destruct (Hf m2) as [Hr ?]; [done|].
      cbn [om_role om_content om_tool_calls String.eqb Ascii.eqb Bool.eqb default from_option].
      split; [rewrite map_app, Hr; by f_equal|by apply Forall_app].
    + intros [= <- <-]. split; [by apply grows_refl|]. split; [done|]. intros m2 _.
      cbn [om_role om_content om_tool_calls String.eqb Ascii.eqb Bool.eqb default from_option map]. rewrite app_nil_r. by apply Hf.
  - subst role. subst cid. cbn [String.eqb Ascii.eqb Bool.eqb om_role om_tool_call_id om_content om_tool_calls].
    unfold oai_items in *. cbn [om_role om_content om_tool_call_id String.eqb Ascii.eqb Bool.eqb default from_option] in *.
    destruct (remap_to_mistral id m) as [x m1] eqn:Hx. intros [= <- <-].
    apply (remap_spec n) in Hx as (Hg & Hid & Hok); [|done|done|cbn in Hn; lia]. split; [exact Hg|]. split; [done|].
    cbn [om_role om_content om_tool_call_id String.eqb Ascii.eqb Bool.eqb default from_option]. intros m2 Hs2. cbn [map]. split.
    + by rewrite (restore_id m1 m2 _ x id).
    + repeat constructor; [done|]. exists id. by eapply lookup_weaken.
Qed.

Lemma normalize_spec n prev raw m wire m' :
  distinct_ids n -> id_inv m -> Forall oai_shape raw -> ids_made m + id_count (concat (map oai_items raw)) <= n ->
  normalize prev raw m = (wire, m') ->
  grows m m' (id_count (concat (map oai_items raw)))
  /\ (forall m2, mistral_to_harness m' ⊆ mistral_to_harness m2 ->
      map (restore m2) (concat (map oai_items wire)) = concat (map oai_items raw)
      /\ Forall (ids_fit m2) (concat (map oai_items wire)))
  /\ no_user_after_tool prev wire = true.
Proof using uuid_bytes.
  intros Hd. revert prev m wire m'. induction raw as [|msg raw IH]; intros prev m wire m' Hm Hs Hn; cbn [normalize].
  - intros [= <- <-]. split; [by apply grows_refl|]. done.
  - apply Forall_cons in Hs as [Hs Hss]. cbn [map concat] in Hn. rewrite id_count_app in Hn.
    destruct (remap_message msg m) as [msg1 m1] eqn:Hr. destruct (normalize (is_role msg1 "tool") raw m1) as [rest m2] eqn:Hw.
    intros [= <- <-]. apply (remap_message_spec n) in Hr as (Hg & Hrole & Hback); [|done|done|done|lia].
    pose proof Hg as (Hm1 & Hs1 & Hn1). apply IH in Hw as (Hg2 & Hback2 & Hno); [|done|done|lia].
    assert (concat (map oai_items ((if prev && is_role msg "user" then [synthetic] else []) ++ msg1 :: rest))
      = oai_items msg1 ++ concat (map oai_items rest)) as Hitems by (by destruct (prev && is_role msg "user")).
    cbn [map concat]. rewrite Hitems. split; [rewrite id_count_app; exact (grows_trans _ _ _ _ _ Hg Hg2)|]. split.
    + intros m3 Hs3. destruct (Hback2 m3 Hs3) as [Hr2 Hf2]. destruct (Hback m3) as [Hr1 Hf1]; [etrans; [apply Hg2|done]|].
      rewrite map_app. split; [by f_equal|by apply Forall_app].
    + assert (is_role msg "user" = is_role msg1 "user") as -> by (unfold is_role; by rewrite Hrole).
      destruct prev; cbn [andb]; [|cbn; by rewrite Hno].
      destruct (is_role msg1 "user") eqn:Hu; cbn [app no_user_after_tool is_role synthetic om_role String.eqb Ascii.eqb Bool.eqb andb negb];
        rewrite ?Hu; exact Hno.
Qed.

(** An item as it goes out. *)
Definition send (m : MistralIdMap) (i : Item) : Item :=
  let out id := default id (harness_to_mistral m !! id) in
  match i with ICall id name arguments => ICall (out id) name arguments | IAnswer id text => IAnswer (out id) text | _ => i end.

Lemma send_restore m i : id_inv m -> ids_fit m i -> send m (restore m i) = i.
Proof.
  intros [Hinv _] Hi. destruct i as [|t|t|id name args|id text]; try done; destruct Hi as [_ [h Hh]]; cbn; rewrite Hh; cbn;
    by rewrite (proj2 (Hinv _ _) Hh).
Qed.

Lemma normalize_says n messages system_prompt wire m' :
  distinct_ids n -> id_count (history_items messages) <= n ->
  convert_messages_for_mistral messages system_prompt id_map_new = (wire, m') ->
  let said_there := said ISystem system_prompt ++ history_items messages in
  map (restore m') (concat (map oai_items wire)) = said_there /\ concat (map oai_items wire) = map (send m') said_there
  /\ Forall (ids_fit m') (concat (map oai_items wire)) /\ no_user_after_tool false wire = true.
Proof using uuid_bytes.
  intros Hd Hn Hw. pose proof (oai_request_says messages system_prompt) as Hc.
  apply (normalize_spec n) in Hw as ((Hinv & _) & Hback & Hno); [|done|apply id_inv_new|apply converted_shape|].
  - destruct (Hback m') as [Hr Hf]; [done|]. rewrite Hc in Hr. cbn zeta. rewrite <- Hr. split; [done|]. split; [|done].
    clear -Hinv Hf. induction Hf as [|i l Hi Hl IH]; [done|]. cbn [map]. rewrite send_restore by done. by f_equal.
  - cbn [ids_made id_map_new Nat.add]. refine (eq_ind_r (fun l => id_count l <= n) _ Hc). rewrite id_count_app.
    destruct (said_no_ids ISystem system_prompt) as [-> _]; [done|]. exact Hn.
Qed.

(** A request to Mistral is what Mistral takes and says what the history says:
    every id of a call or a result has nine letters or digits, no user message
    comes right after a tool's, and but for the ids, exchanged one for one, the
    request holds the system prompt and every text, call and result of the
    history in order. *)
Lemma mistral_request messages system_prompt :
  distinct_ids (id_count (history_items messages)) ->
  let '(wire, m) := convert_messages_for_mistral messages system_prompt id_map_new in
  let said_there := said ISystem system_prompt ++ history_items messages in
  map (restore m) (concat (map oai_items wire)) = said_there
  /\ concat (map oai_items wire) = map (send m) said_there
  /\ Forall (ids_fit m) (concat (map oai_items wire))
  /\ no_user_after_tool false wire = true.
Proof using uuid_bytes.
  intros Hd. destruct (convert_messages_for_mistral _ _ _) as [wire m] eqn:Hw. by eapply normalize_says.
Qed.

End Mistral.
(** ** A request evaluated *)

Section Demo.
#[local] Existing Instance Toy.ext.

Definition demo_uuid (k : nat) : list N := N.of_nat k :: repeat 0%N 15.

Definition demo_history : list AgentMessage :=
  [Llm (Assistant (MkAssistantMessage [ToolCall "call_1" "read" json_empty_object None] "p" "m" usage_default cost_default ToolUse None None 0 None));
   Llm (ToolResult (MkToolResultMessage "call_1" [Text "done"] false 0 json_null None));
   Llm (User (MkUserMessage [Text "and?"] 0 None))].

Definition demo_request := convert_messages_for_mistral demo_uuid demo_history "" id_map_new.

Lemma mistral_request_witness :
  map om_role (fst demo_request) = ["assistant"; "tool"; "assistant"; "user"]
  /\ concat (map oai_items (fst demo_request))
     = [ICall "aaaaaaaaa" "read" "{}"; IAnswer "aaaaaaaaa" "done"; IUser "and?"]
  /\ no_user_after_tool false (fst demo_request) = true.
Proof.
  split; [vm_compute; reflexivity|]. split; [vm_compute; reflexivity|].
  assert (distinct_ids demo_uuid (id_count (history_items demo_history))) as Hd.
  { intros [|[|i]] [|[|j]] Hij Hj; vm_compute in Hj; try lia; vm_compute; discriminate. }
  pose proof (mistral_request demo_uuid (fun k => eq_refl) demo_history "" Hd) as H.
  unfold demo_request. destruct (convert_messages_for_mistral _ _ _ _) as [wire m]. apply H.
Defined.

End Demo.
End Mistral.
