(* ===== verification/LocalRunner.v ===== *)
(** * The generation loop of a local model: [local-llm/src/runner.rs]

    The model runtime (llama.cpp) is a parameter: its context with what has been
    decoded, the sampler, the vocabulary.  Whatever it does the loop ends, within
    the limit, with one last event. *)
From S2P Require Export LocalStream.
From Stdlib Require Import Ascii.
Open Scope string_scope.
Open Scope list_scope.

Module LocalRunner.
Import LocalStream.

(** What a call of the runtime does. *)
Inductive Run (A : Type) := Fine (x : A) | Failed (error : string) | Panicked (message : string).
#[global] Arguments Fine {A} x.
#[global] Arguments Failed {A} error.
#[global] Arguments Panicked {A} message.

Definition run_bind {A B} (r : Run A) (k : A -> Run B) : Run B :=
  match r with Fine x => k x | Failed e => Failed e | Panicked m => Panicked m end.

(** [LocalModelError::inference] *)
Definition inference_error (what : string) (e : string) : string := ("inference error: " ++ what ++ ": " ++ e)%string.

Definition map_failed {A} (what : string) (r : Run A) : Run A :=
  match r with Failed e => Failed (inference_error what e) | _ => r end.

(** @src local-llm/src/runner.rs:27-33 [RunnerConfig] *)
Record RunnerConfig := MkRunnerConfig { context_length : N; batch_size : N; gpu_layers : N; n_threads : N }.

(** The limit; the temperature is for the sampler.
    @src local-llm/src/runner.rs:46-50 [GenerateOptions] *)
Record GenerateOptions := MkGenerateOptions { max_tokens : option N }.

Definition u32_max : N := 4294967295.
Definition to_u32 (n : nat) : N := N.min (N.of_nat n) u32_max.

(** @src local-llm/src/runner.rs:57-63 [effective_max_tokens] *)
Definition effective_max_tokens (options : GenerateOptions) (context_length : N) (prompt_len : nat) : N :=
  let available := (context_length - to_u32 prompt_len)%N in
  match max_tokens options with Some limit => N.min available limit | None => available end.

(** The runtime.  A batch is tokens with their positions. *)
Class Llama := {
  Tok : Type;
  Ctx : Type;
  new_context : RunnerConfig -> Run Ctx;
  (** into a batch of this capacity that has so many tokens *)
  batch_add : nat -> nat -> Run unit;
  decode : list (Tok * nat) -> Ctx -> Run Ctx;
  (** the sampler accepts what it samples *)
  sample : Ctx -> Run (Tok * Ctx);
  is_eog : Tok -> bool;
  (** the bytes of a token *)
  token_to_piece : Tok -> string;
}.

Section Runner.
Context `{L : Llama}.

Fixpoint add_prompt (capacity i : nat) (tokens : list Tok) : Run (list (Tok * nat)) :=
  match tokens with
  | [] => Fine []
  | t :: tokens' =>
    run_bind (map_failed "batch add failed" (batch_add capacity i)) (fun _ =>
    run_bind (add_prompt capacity (S i) tokens') (fun rest => Fine ((t, i) :: rest)))
  end.

(** How the loop was left. *)
Inductive LoopEnd := ReceiverGone | LoopDone (completion_tokens : N) (reason : FinishReason).

(** [cancelled step]: the token is cancelled when a step begins; [gone k]: the
    receiver is dropped when the [k]-th token is sent. *)
Context (cancelled gone : nat -> bool).

(** The loop from [step] on, [left] steps before the limit.
    @src local-llm/src/runner.rs:365-415 [run_inference: the loop (brace)] *)
Fixpoint generation (left capacity step n_cur sent : nat) (ctx : Ctx) (completion_tokens : N) : list TokenEvent * Run LoopEnd :=
  match left with
  | 0 => ([], Fine (LoopDone completion_tokens (if (step =? 0)%nat then FinishLength else FinishStop)))
  | S left' =>
    if cancelled step then ([], Fine (LoopDone completion_tokens FinishStop))
    else
      match sample ctx with
      | Fine (new_token, ctx) =>
        if is_eog new_token then ([], Fine (LoopDone completion_tokens FinishStop))
        else
          let completion_tokens := (completion_tokens + 1)%N in
          let token_str := from_utf8_lossy (token_to_piece new_token) in
          let nonempty := negb (str_is_empty token_str) in
          if nonempty && gone sent then ([], Fine ReceiverGone)
          else
            let event := if nonempty then [Token token_str] else [] in
            match run_bind (map_failed "batch add failed" (batch_add capacity 0)) (fun _ =>
                  map_failed "decode failed" (decode [(new_token, n_cur)] ctx)) with
            | Fine ctx =>
              match left' with
              | 0 => (event, Fine (LoopDone completion_tokens FinishLength))
              | _ =>
                let '(events, r) := generation left' capacity (S step) (S n_cur) (if nonempty then S sent else sent) ctx completion_tokens in
                (event ++ events, r)
              end
            | Failed e => (event, Failed e)
            | Panicked m => (event, Panicked m)
            end
      | Failed e => ([], Failed e)
      | Panicked m => ([], Panicked m)
      end
  end.

(** @src local-llm/src/runner.rs:296-426 [run_inference] *)
Definition run_inference (config : RunnerConfig) (tokens : list Tok) (options : GenerateOptions) : list TokenEvent * Run unit :=
  match map_failed "context creation failed" (new_context config) with
  | Fine ctx =>
    let prompt_len := length tokens in
    if (prompt_len =? 0)%nat then ([TokensDone 0 0 FinishStop], Fine tt)
    else
      let capacity := Nat.max (N.to_nat (batch_size config)) prompt_len in
      match run_bind (add_prompt capacity 0 tokens) (fun batch =>
            map_failed "prompt decode failed" (decode batch ctx)) with
      | Fine ctx =>
        let limit := effective_max_tokens options (context_length config) prompt_len in
        match generation (N.to_nat limit) capacity 0 prompt_len 0 ctx 0 with
        | (events, Fine (LoopDone completion reason)) =>
          (events ++ [TokensDone (to_u32 prompt_len) completion reason], Fine tt)
        | (events, Fine ReceiverGone) => (events, Fine tt)
        | (events, Failed e) => (events, Failed e)
        | (events, Panicked m) => (events, Panicked m)
        end
      | Failed e => ([], Failed e)
      | Panicked m => ([], Panicked m)
      end
  | Failed e => ([], Failed e)
  | Panicked m => ([], Panicked m)
  end.

(** What the receiver gets.
    @src local-llm/src/runner.rs:209-245 [LlamaRunner::generate_stream (brace)] *)
Definition generate_stream (config : RunnerConfig) (tokens : list Tok) (options : GenerateOptions) : list TokenEvent :=
  let '(events, r) := run_inference config tokens options in
  events ++ match r with
            | Fine _ => []
            | Failed e => [TokenError e]
            | Panicked m => [TokenError ("inference thread panicked: " ++ m)]
            end.

(** ** The loop ends as it should *)

Definition is_token (e : TokenEvent) : bool := match e with Token t => negb (str_is_empty t) | _ => false end.

Lemma generation_ok left capacity step n_cur sent ctx completion :
  (N.of_nat step = completion)%N ->
  let '(events, r) := generation left capacity step n_cur sent ctx completion in
  Forall (fun e => is_token e = true) events /\ length events <= left
  /\ match r with
     | Fine (LoopDone total reason) =>
       (completion <= total <= completion + N.of_nat left)%N
       /\ (reason = FinishLength <-> total = (completion + N.of_nat left)%N /\ (step = 0 \/ 0 < left))
       /\ length events <= N.to_nat (total - completion)
     | Fine ReceiverGone => exists k, gone k = true
     | _ => True
     end.
Proof.
  revert step n_cur sent ctx completion. induction left as [|left IH]; intros step n_cur sent ctx completion Hc; cbn [generation].
  - split; [constructor|]. split; [cbn; lia|]. split; [lia|]. split; [|cbn; lia]. destruct (step =? 0)%nat eqn:Hs.
    + apply Nat.eqb_eq in Hs. split; [intros _; split; [lia|by left]|done].
    + apply Nat.eqb_neq in Hs. split; [done|]. intros [_ [?|?]]; lia.
  - assert (forall total reason, total = completion -> reason = FinishStop ->
      (completion <= total <= completion + N.of_nat (S left))%N
       /\ (reason = FinishLength <-> total = (completion + N.of_nat (S left))%N /\ (step = 0 \/ 0 < S left))
       /\ @length TokenEvent [] <= N.to_nat (total - completion)) as Hstop.
    { intros total reason -> ->. split; [lia|]. split; [|cbn; lia]. split; [done|]. intros [? _]. lia. }
    destruct (cancelled step); [split; [constructor|]; split; [cbn; lia|by apply Hstop]|].
    destruct (sample ctx) as [[tok ctx']|e|m]; [|split; [constructor|]; split; [cbn; lia|done]..].
    destruct (is_eog tok); [split; [constructor|]; split; [cbn; lia|by apply Hstop]|].
    set (text := from_utf8_lossy (token_to_piece tok)).
    destruct (negb (str_is_empty text) && gone sent) eqn:Hg.
    { split; [constructor|]. split; [cbn; lia|]. apply andb_true_iff in Hg as [_ Hg]. by exists sent. }
    set (event := if negb (str_is_empty text) then [Token text] else []).
    assert (Forall (fun e => is_token e = true) event /\ length event <= 1) as [Hev Hlen].
    { unfold event. destruct (negb (str_is_empty text)) eqn:Hn; [|split; [constructor|cbn; lia]].
      split; [constructor; [exact Hn|constructor]|cbn; lia]. }
    destruct (run_bind _ _) as [ctx2|e|m]; [|split; [done|]; split; [lia|done]..].
    destruct left as [|left].
    + split; [done|]. split; [lia|]. split; [lia|]. split; [|lia]. split; [intros _; split; [lia|right; lia]|done].
    + specialize (IH (S step) (S n_cur) (if negb (str_is_empty text) then S sent else sent) ctx2 (completion + 1)%N ltac:(lia)).
      destruct (generation (S left) _ _ _ _ _ _) as [events r]. destruct IH as (He & Hl & Hr).
      split; [by apply Forall_app|]. rewrite length_app. split; [lia|].
      destruct r as [[|total reason]|e|m]; [done| |done..]. destruct Hr as (Hb & Hreason & Hl2). split; [lia|]. split; [|lia].
      rewrite Hreason. split; intros [Ht _]; (split; [lia|right; lia]).
Qed.

(** The effective limit. *)
Lemma effective_max_within options length prompt_len :
  (N.of_nat prompt_len <= length)%N -> (length <= u32_max)%N ->
  (to_u32 prompt_len + effective_max_tokens options length prompt_len <= length)%N.
Proof.
  unfold effective_max_tokens, to_u32. intros H1 H2. destruct (max_tokens options); lia.
Qed.

(** Whatever the model runtime does - fails, panics, is cancelled, samples what
    it likes - the generation thread ends and sends only non-empty tokens, at most
    as many as the request and the context allow, and then, unless the receiver
    is gone, exactly one last event: an error, or the counts, which are exact, fit
    the context, and say that the length ran out just when the limit was reached. *)
Lemma generation_ends config tokens options :
  (forall k, gone k = false) ->
  exists texts last, generate_stream config tokens options = texts ++ [last]
    /\ Forall (fun e => is_token e = true) texts
    /\ length texts <= N.to_nat (effective_max_tokens options (context_length config) (length tokens))
    /\ match last with
       | TokensDone prompt completion reason =>
         prompt = to_u32 (length tokens)
         /\ (tokens <> [] ->
             let limit := effective_max_tokens options (context_length config) (length tokens) in
             length texts <= N.to_nat completion /\ (completion <= limit)%N
             /\ (reason = FinishLength <-> completion = limit))
       | TokenError _ => True
       | Token _ => False
       end.
Proof.
  intros Hopen. unfold generate_stream, run_inference.
  assert (forall e, exists texts last, [] ++ [TokenError e] = texts ++ [last]
    /\ Forall (fun e => is_token e = true) texts
    /\ length texts <= N.to_nat (effective_max_tokens options (context_length config) (length tokens))
    /\ match last with TokensDone _ _ _ => False | TokenError _ => True | Token _ => False end) as Hfail.
  { intros e. exists [], (TokenError e). split; [done|]. split; [constructor|]. split; [cbn; lia|done]. }
  assert (forall e, exists texts last, [] ++ [TokenError e] = texts ++ [last]
    /\ Forall (fun e => is_token e = true) texts
    /\ length texts <= N.to_nat (effective_max_tokens options (context_length config) (length tokens))
    /\ match last with
       | TokensDone prompt completion reason =>
         prompt = to_u32 (length tokens)
         /\ (tokens <> [] ->
             let limit := effective_max_tokens options (context_length config) (length tokens) in
             length texts <= N.to_nat completion /\ (completion <= limit)%N
             /\ (reason = FinishLength <-> completion = limit))
       | TokenError _ => True
       | Token _ => False
       end) as Hfailed.
  { intros e. destruct (Hfail e) as (texts & l & H1 & H2 & H3 & H4). exists texts, l. split; [done|]. split; [done|]. split; [done|]. by destruct l. }
  destruct (map_failed _ (new_context config)) as [ctx|e|m]; [|apply Hfailed..].
  destruct tokens as [|t tokens].
  { exists [], (TokensDone 0 0 FinishStop). split; [done|]. split; [constructor|]. split; [cbn; lia|]. split; [done|]. done. }
  set (ts := t :: tokens). change (length ts =? 0)%nat with false. cbn iota.
  destruct (run_bind _ _) as [ctx2|e|m]; [|apply Hfailed..].
  set (limit := effective_max_tokens options (context_length config) (length ts)).
  pose proof (generation_ok (N.to_nat limit) (Nat.max (N.to_nat (batch_size config)) (length ts)) 0 (length ts) 0 ctx2 0 eq_refl) as H.
  destruct (generation (N.to_nat limit) _ 0 (length ts) 0 ctx2 0) as [events r]. destruct H as (He & Hl & Hr).
  destruct r as [[|completion reason]|e|m].
  - destruct Hr as [k Hk]. by rewrite Hopen in Hk.
  - destruct Hr as (Hb & Hreason & Hl2). exists events, (TokensDone (to_u32 (length ts)) completion reason).
    rewrite app_nil_r. split; [done|]. split; [done|]. split; [done|]. split; [done|]. intros _. cbn zeta. split; [lia|]. split; [lia|].
    rewrite Hreason. split; [intros [? _]; lia|]. intros ->. split; [lia|by left].
  - exists events, (TokenError e). by split_and!.
  - eexists events, _. by split_and!.
Qed.

End Runner.

(** ** A runtime that says what it is told *)

Section Toy.
Context (speech : list string).

(** The tokens of the speech one after the other, then the end. *)
Definition toy_llama : Llama := {|
  Tok := option string;
  Ctx := list string;
  new_context _ := Fine speech;
  batch_add _ _ := Fine tt;
  decode _ ctx := Fine ctx;
  sample ctx := match ctx with [] => Fine (None, []) | t :: ctx' => Fine (Some t, ctx') end;
  is_eog t := match t with None => true | Some _ => false end;
  token_to_piece t := default "" t;
|}.
End Toy.

Definition toy_generate (speech : list string) (limit : N) : list TokenEvent :=
  generate_stream (L := toy_llama speech) (fun _ => false) (fun _ => false) (MkRunnerConfig 100 1 0 1) [None; None] (MkGenerateOptions (Some limit)).

(** A character in two tokens is two replacement characters. *)
Lemma split_character_is_lost :
  let e_acute := (String "195"%char "", String "169"%char "") in
  toy_generate [fst e_acute; snd e_acute] 5
  = [Token replacement_character; Token replacement_character; TokensDone 2 2 FinishStop]
  /\ toy_generate [(fst e_acute ++ snd e_acute)%string] 5 = [Token (fst e_acute ++ snd e_acute); TokensDone 2 1 FinishStop].
Proof. by vm_compute. Qed.

Lemma generation_ends_witness :
  toy_generate ["a"; ""; "b"; "c"] 3 = [Token "a"; Token "b"; TokensDone 2 3 FinishLength]
  /\ exists texts last, toy_generate ["a"; ""; "b"; "c"] 3 = texts ++ [last] /\ length texts <= 3.
Proof.
  split; [vm_compute; reflexivity|].
  destruct (generation_ends (L := toy_llama ["a"; ""; "b"; "c"]) (fun _ => false) (fun _ => false)
    (MkRunnerConfig 100 1 0 1) [None; None] (MkGenerateOptions (Some 3%N)) (fun _ => eq_refl)) as (texts & l & H & _ & Hl & _).
  exists texts, l. split; [exact H|]. exact Hl.
Defined.

End LocalRunner.
