(* ===== verification/LocalPrompt.v ===== *)
(** * The prompt of a local model: [local-llm/src/convert.rs], [local-llm/src/stream.rs]

    The history as roles and texts, cut to the context of the model, and the request
    from the check of the model to the stream of its tokens. *)
From S2P Require Export Convert LocalRunner LocalStreamSpec.
From Stdlib Require Import Ascii.
Open Scope string_scope.
Open Scope list_scope.

Module LocalPrompt.
Import LocalStream LocalRunner.

Section Prompt.
Context `{E : Ext}.

(** ** Conversion *)

(** @src local-llm/src/convert.rs:18-22 [LocalMessage] *)
Record LocalMessage := MkLocalMessage { role : string; content : string }.

Fixpoint ends_with_newline (s : string) : bool :=
  match s with "" => false | String a "" => Ascii.eqb a LF | String _ s' => ends_with_newline s' end.

(** @src local-llm/src/convert.rs:62-95 [format_assistant_content] *)
Definition format_assistant_content (blocks : list ContentBlock) : string :=
  foldl (fun content block =>
           match block with
           | Text text => (content ++ text)%string
           | ToolCall id name arguments partial_json =>
             let content := if negb (str_is_empty content) && negb (ends_with_newline content)
                            then (content ++ String LF "")%string else content in
             let arguments_text := match partial_json with Some p => p | None => json_to_string arguments end in
             (content ++ "[tool_call_id: " ++ id ++ "]" ++ String LF "call:" ++ name ++ arguments_text)%string
           | _ => content
           end) "" blocks.

(** @src local-llm/src/convert.rs:28-60 [impl MessageConverter for LocalConverter (brace)] *)
Definition LocalConverter : MessageConverter := {|
  Message := LocalMessage;
  system_message system_prompt := Some (MkLocalMessage "system" system_prompt);
  user_message user := MkLocalMessage "user" (extract_text (um_content user));
  assistant_message assistant := MkLocalMessage "assistant" (format_assistant_content (am_content assistant));
  tool_result_message result :=
    MkLocalMessage "tool"
      ("[tool_call_id: " ++ tr_tool_call_id result ++ "]" ++ String LF (extract_text (tr_content result)))%string;
|}.

(** @src local-llm/src/convert.rs:103-128 [impl MessageConverter for Gemma4LocalConverter (brace)] *)
Definition Gemma4LocalConverter : MessageConverter := {|
  Message := LocalMessage;
  system_message := system_message (MessageConverter := LocalConverter);
  user_message := user_message (MessageConverter := LocalConverter);
  assistant_message := assistant_message (MessageConverter := LocalConverter);
  tool_result_message result :=
    MkLocalMessage "tool"
      ("<|tool_result>" ++ tr_tool_call_id result ++ String LF (extract_text (tr_content result)) ++ "<tool_result|>")%string;
|}.

(** @src local-llm/src/convert.rs:179-187 [inject_think_token] *)
Definition inject_think_token (system_prompt : string) (is_gemma4 thinking_enabled : bool) : string :=
  if is_gemma4 && thinking_enabled then ("<|think|>" ++ String LF system_prompt)%string else system_prompt.

(** @src local-llm/src/convert.rs:136-149 [convert_context_messages] *)
Definition convert_context_messages (messages : list AgentMessage) (system_prompt : string) (is_gemma4 thinking_enabled : bool) :
    list LocalMessage :=
  let system_prompt := inject_think_token system_prompt is_gemma4 thinking_enabled in
  if is_gemma4 then convert_messages (C := Gemma4LocalConverter) messages system_prompt
  else convert_messages (C := LocalConverter) messages system_prompt.

(** @src local-llm/src/convert.rs:160-177 [format_gemma4_prompt] *)
Definition format_gemma4_prompt (messages : list LocalMessage) : string :=
  foldl (fun prompt msg =>
           let r := if String.eqb (role msg) "assistant" then "model" else role msg in
           (prompt ++ "<|turn>" ++ r ++ String LF (content msg) ++ "<turn|>" ++ String LF "")%string) "" messages
  ++ "<|turn>model" ++ String LF "".

(** ** Cutting the history to the context *)

Definition is_system (m : LocalMessage) : bool := String.eqb (role m) "system".
Definition is_tool (m : LocalMessage) : bool := String.eqb (role m) "tool".

(** [messages.iter().position(|m| m.role != "system")], and the message taken out. *)
Fixpoint remove_first_turn (messages : list LocalMessage) : option (LocalMessage * list LocalMessage) :=
  match messages with
  | [] => None
  | m :: messages' =>
    if is_system m then
      match remove_first_turn messages' with Some (x, rest) => Some (x, m :: rest) | None => None end
    else Some (m, messages')
  end.

(** The first that is not the system's goes as long as it is a tool's.
    @src local-llm/src/stream.rs:1379-1385 [drop_leading_tool_results] *)
Fixpoint drop_leading_tool_results (fuel : nat) (messages : list LocalMessage) : list LocalMessage :=
  match fuel with
  | 0 => messages
  | S fuel' =>
    match remove_first_turn messages with
    | Some (m, rest) => if is_tool m then drop_leading_tool_results fuel' rest else messages
    | None => messages
    end
  end.

(** Every round removes a message.
    @src local-llm/src/stream.rs:1360-1377 [truncate_messages_to_context] *)
Fixpoint truncate_loop {Er} (fuel : nat) (messages : list LocalMessage) (max_prompt_tokens : nat)
    (token_count : list LocalMessage -> result nat Er) : option (result (list LocalMessage) Er) :=
  match fuel with
  | 0 => None
  | S fuel' =>
    match token_count messages with
    | Err e => Some (Err e)
    | Ok count =>
      if (count <=? max_prompt_tokens)%nat then Some (Ok messages)
      else
        match remove_first_turn messages with
        | None => Some (Ok messages)
        | Some (_, rest) => truncate_loop fuel' (drop_leading_tool_results (length rest) rest) max_prompt_tokens token_count
        end
    end
  end.

(** @src local-llm/src/stream.rs:1360-1377 [truncate_messages_to_context] *)
Definition truncate_messages_to_context {Er} (messages : list LocalMessage) (max_prompt_tokens : nat)
    (token_count : list LocalMessage -> result nat Er) : option (result (list LocalMessage) Er) :=
  truncate_loop (S (length messages)) messages max_prompt_tokens token_count.

(** @src local-llm/src/stream.rs:1352-1358 [prompt_token_budget] *)
Definition prompt_token_budget (context_length : nat) : nat :=
  if (context_length <=? 1)%nat then context_length else context_length - 1.

(** ** The request *)

Context `{L : Llama}.
(** Of the runtime: whether a chat message can be made, the model's chat template
    and its tokenizer. *)
Context (chat_message_ok : LocalMessage -> bool) (apply_chat_template : list LocalMessage -> result string string)
        (tokenize : string -> list Tok).

(** @src local-llm/src/stream.rs:1313-1350 [build_prompt] *)
Definition build_prompt (messages : list LocalMessage) (use_manual_format : bool) : result string string :=
  if use_manual_format then Ok (format_gemma4_prompt messages)
  else apply_chat_template (List.filter chat_message_ok messages).

(** @src local-llm/src/stream.rs:1185-1191 [thinking_enabled_for_model] *)
Definition thinking_enabled_for_model (model : ModelSpec) : bool :=
  negb (bool_decide (ms_thinking_level model = Off))
  && match ms_capabilities model with Some c => supports_thinking c | None => false end.

(** @src local-llm/src/stream.rs:1484-1491 [generation_options_from_stream_options] *)
Definition generation_options_from_stream_options (max_tokens : option N) : GenerateOptions :=
  MkGenerateOptions ((fun value => N.min value u32_max) <$> max_tokens).

(** The model's configuration and state when the request comes: whether the
    cancellation wins the race against [ensure_ready], what that gives, and what
    the runner's lock gives - whether it holds a loaded model. *)
Record LocalModel := MkLocalModel {
  lm_context_length : nat;
  lm_is_gemma4 : bool;
  lm_runner_config : RunnerConfig;
  lm_cancelled_first : bool;
  lm_ready : result unit string;
  lm_runner : result bool string;
}.

Definition failed_with (message : string) : option (list AssistantMessageEvent) := Some [Start; event_error message].

(** [cancel] as in [token_event_stream], [cancelled] and [gone] as in [run_inference].
    @src local-llm/src/stream.rs:1196-1303 [local_stream] *)
Definition local_stream (new_uuid : nat -> string) (local_model : LocalModel) (model : ModelSpec)
    (messages : list AgentMessage) (system_prompt : string) (max_tokens : option N)
    (cancel : option nat) (cancelled gone : nat -> bool) : option (list AssistantMessageEvent) :=
  if lm_cancelled_first local_model then Some [Start; cancelled_error "local inference cancelled"]
  else
    match lm_ready local_model with
    | Err e => failed_with ("local model not ready: " ++ e)
    | Ok _ =>
      let is_gemma4 := lm_is_gemma4 local_model in
      let local_messages := convert_context_messages messages system_prompt is_gemma4 (thinking_enabled_for_model model) in
      match lm_runner local_model with
      | Err e => failed_with ("model runner unavailable: " ++ e)
      | Ok false => failed_with "model in unexpected state"
      | Ok true =>
        let token_count ms :=
          match build_prompt ms is_gemma4 with Ok prompt => Ok (length (tokenize prompt)) | Err e => Err e end in
        match truncate_messages_to_context local_messages (prompt_token_budget (lm_context_length local_model)) token_count with
        | None => None
        | Some (Err e) => failed_with ("prompt truncation error: " ++ e)
        | Some (Ok local_messages) =>
          match build_prompt local_messages is_gemma4 with
          | Err e => failed_with ("chat template error: " ++ e)
          | Ok prompt =>
            token_event_stream new_uuid is_gemma4 cancel
              (generate_stream cancelled gone (lm_runner_config local_model) (tokenize prompt)
                 (generation_options_from_stream_options max_tokens))
          end
        end
      end
    end.

(** ** What is cut *)

Lemma remove_first_turn_at sys turns :
  Forall (fun m => is_system m = true) sys -> Forall (fun m => is_system m = false) turns ->
  remove_first_turn (sys ++ turns) = match turns with [] => None | t :: ts => Some (t, sys ++ ts) end.
Proof.
  intros Hs Ht. induction Hs as [|m sys Hm Hs IH]; cbn [app remove_first_turn].
  - destruct Ht as [|t ts Ht _]; [done|]. cbn. by rewrite Ht.
  - rewrite Hm, IH. by destruct turns.
Qed.

(** No result without its call in front. *)
Definition no_result_first (turns : list LocalMessage) : Prop :=
  match turns with t :: _ => is_tool t = false | [] => True end.

Lemma drop_leading_at fuel sys turns :
  Forall (fun m => is_system m = true) sys -> Forall (fun m => is_system m = false) turns -> length turns <= fuel ->
  exists tools rest, turns = tools ++ rest /\ Forall (fun m => is_tool m = true) tools /\ no_result_first rest
    /\ drop_leading_tool_results fuel (sys ++ turns) = sys ++ rest.
Proof.
  intros Hs. revert turns. induction fuel as [|fuel IH]; intros turns Ht Hl.
  - destruct turns; [|cbn in Hl; lia]. exists [], []. by split_and!.
  - cbn [drop_leading_tool_results]. rewrite remove_first_turn_at by done. destruct Ht as [|t ts Ht Hts].
    + exists [], []. by split_and!.
    + destruct (is_tool t) eqn:Htool.
      * destruct (IH ts Hts) as (tools & rest & -> & Hf & Hn & He); [cbn in Hl; lia|].
        exists (t :: tools), rest. split_and!; try done; by constructor.
      * exists [], (t :: ts). by split_and!.
Qed.

(** A place to cut the turns at: nowhere, or in front of a message that is not a
    result. *)
Definition cut_at (turns dropped kept : list LocalMessage) : Prop :=
  turns = dropped ++ kept /\ (dropped = [] \/ no_result_first kept).

Lemma cut_between turns dropped t tools rest dropped' kept' :
  turns = dropped ++ t :: tools ++ rest -> Forall (fun m => is_tool m = true) tools ->
  cut_at turns dropped' kept' -> length dropped' < length (dropped ++ t :: tools) ->
  length dropped' < length dropped \/ kept' = t :: tools ++ rest.
Proof.
  intros -> Hf [He Hc] Hl. destruct (List.app_eq_app _ _ _ _ He) as [l [[-> ->]|[-> Hk]]].
  - destruct l as [|x l]; [by right|]. left. rewrite !length_app in *. cbn. lia.
  - destruct l as [|x l]; [by right|]. exfalso. injection Hk as <- Hk. rewrite !length_app in Hl. cbn [length] in Hl.
    destruct Hc as [Hc|Hc]; [by destruct dropped|].
    destruct (List.app_eq_app _ _ _ _ Hk) as [k [[-> ->]|[-> _]]]; [|rewrite length_app in Hl; lia].
    destruct k as [|y k]; [rewrite app_nil_r in Hl; lia|]. apply Forall_app in Hf as [_ Hf].
    apply Forall_cons in Hf as [Hy _]. cbn in Hc. congruence.
Qed.

Section Truncate.
Context {Er : Type} (max_prompt_tokens : nat) (token_count : list LocalMessage -> result nat Er).
Context (sys turns : list LocalMessage).
Hypothesis Hsys : Forall (fun m => is_system m = true) sys.
Hypothesis Hturns : Forall (fun m => is_system m = false) turns.

Definition fits (kept : list LocalMessage) : Prop :=
  exists count, token_count (sys ++ kept) = Ok count /\ count <= max_prompt_tokens.

(** The cut of the loop. *)
Definition cut_result (r : option (result (list LocalMessage) Er)) : Prop :=
  match r with
  | Some (Ok messages) =>
    exists dropped kept, messages = sys ++ kept /\ cut_at turns dropped kept /\ (fits kept \/ kept = [])
      /\ forall dropped' kept', cut_at turns dropped' kept' -> length dropped' < length dropped -> ~ fits kept'
  | Some (Err e) => exists dropped kept, cut_at turns dropped kept /\ token_count (sys ++ kept) = Err e
  | None => False
  end.

Lemma truncate_loop_cuts fuel dropped kept :
  cut_at turns dropped kept -> length (sys ++ kept) < fuel ->
  (forall dropped' kept', cut_at turns dropped' kept' -> length dropped' < length dropped -> ~ fits kept') ->
  cut_result (truncate_loop fuel (sys ++ kept) max_prompt_tokens token_count).
Proof using Hsys Hturns.
  revert dropped kept. induction fuel as [|fuel IH]; intros dropped kept Hcut Hf Hno; [lia|]. cbn [truncate_loop].
  destruct (token_count (sys ++ kept)) as [count|e] eqn:Hc; [|by exists dropped, kept].
  destruct (count <=? max_prompt_tokens)%nat eqn:Hle.
  - apply Nat.leb_le in Hle. exists dropped, kept. split_and!; try done. left. by exists count.
  - apply Nat.leb_nle in Hle. assert (~ fits kept) as Hnot by (intros (c & Hc' & Hl); rewrite Hc in Hc'; injection Hc' as <-; lia).
    pose proof Hcut as [He _]. assert (Forall (fun m => is_system m = false) kept) as Hk by (rewrite He in Hturns; by apply Forall_app in Hturns as [_ ?]).
    rewrite remove_first_turn_at by done. destruct kept as [|t ts].
    { exists dropped, []. split_and!; try done. by right. }
    apply Forall_cons in Hk as [_ Hts].
    destruct (drop_leading_at (length (sys ++ ts)) sys ts) as (tools & rest & -> & Hf' & Hn & ->); [done|done|rewrite length_app; lia|].
    apply (IH (dropped ++ t :: tools) rest).
    + split; [by rewrite He, <- app_assoc|by right].
    + rewrite !length_app in *. cbn [length] in Hf. rewrite length_app in Hf. lia.
    + intros dropped' kept' Hcut' Hl. destruct (cut_between _ _ _ _ _ _ _ He Hf' Hcut' Hl) as [Hl'|Hkept]; [by eapply Hno|].
      by rewrite Hkept.
Qed.

(** Cutting a conversation to the context of a local model ends, and keeps the
    system prompt and the longest end of the conversation that fits and does not
    begin with the results of a dropped call; only when not even the system prompt
    fits is what is left too long; and the only errors are those of counting. *)
Lemma truncation_keeps_the_longest_end :
  cut_result (truncate_messages_to_context (sys ++ turns) max_prompt_tokens token_count).
Proof using Hsys Hturns.
  apply (truncate_loop_cuts _ []); [by split; [|left]|lia|]. intros d k _ Hl. cbn in Hl. lia.
Qed.

End Truncate.

(** The conversation: the system prompt in front. *)
Lemma convert_context_shape messages system_prompt is_gemma4 thinking_enabled :
  exists sys turns, convert_context_messages messages system_prompt is_gemma4 thinking_enabled = sys ++ turns
    /\ Forall (fun m => is_system m = true) sys /\ Forall (fun m => is_system m = false) turns.
Proof.
  unfold convert_context_messages. set (p := inject_think_token system_prompt is_gemma4 thinking_enabled).
  destruct is_gemma4; do 2 eexists; (split; [reflexivity|]); (split; [destruct (str_is_empty p); repeat constructor|]);
    (induction messages as [|[[u|a|r]|c] messages IH]; cbn [filtermap convert_message]; [constructor|..|exact IH]; by constructor).
Qed.


End Prompt.
(** A call goes with its results, and the question in front of it. *)
Definition demo_turns : list LocalMessage :=
  [MkLocalMessage "user" "q"; MkLocalMessage "assistant" "call:f{}"; MkLocalMessage "tool" "1"; MkLocalMessage "tool" "2";
   MkLocalMessage "user" "and?"].
Definition demo_system : list LocalMessage := [MkLocalMessage "system" "s"].

Lemma truncation_keeps_the_longest_end_witness :
  truncate_messages_to_context (Er := string) (demo_system ++ demo_turns) 3 (fun ms => Ok (length ms))
  = Some (Ok (demo_system ++ [MkLocalMessage "user" "and?"]))
  /\ cut_result (Er := string) 3 (fun ms => Ok (length ms)) demo_system demo_turns
       (truncate_messages_to_context (demo_system ++ demo_turns) 3 (fun ms => Ok (length ms))).
Proof.
  split; [reflexivity|].
  apply (truncation_keeps_the_longest_end 3 (fun ms => Ok (length ms)) demo_system demo_turns); repeat constructor.
Defined.

End LocalPrompt.
