(* ===== verification/GoogleStream.v ===== *)
(** * The Google adapter: [adapters/src/google.rs]

    Gemini's chunks in, [AssistantMessageEvent]s out.  Tool calls come as snapshots
    of their arguments: the last one of each is sent when the response ends.  The second
    half, [GoogleSpec], shows that the adapter keeps the contract of Adapter.v. *)
From S2P Require Export Adapter ConvertGoogle.
From stdpp Require Import sorting pretty.
Open Scope string_scope.
Open Scope list_scope.
Open Scope agent_scope.

Module GoogleStream.
Import Assembly Sse Google.

Section Google.
Context `{E : Ext}.

(** ** Chunks *)

(** @src adapters/src/google.rs:163-174 [GeminiResponsePart] *)
Record GeminiResponsePart := MkResponsePart {
  rp_text : option string;
  rp_thought : option bool;
  rp_thought_signature : option string;
  rp_function_call : option GeminiFunctionCall;
}.

(** [content]: the parts of the response, when it is there.
    @src adapters/src/google.rs:148-161 [GeminiCandidate, GeminiResponseContent (brace)] *)
Record GeminiCandidate := MkCandidate { gk_content : option (list GeminiResponsePart); gk_finish_reason : option string }.

(** @src adapters/src/google.rs:176-186 [GeminiUsageMetadata] *)
Record GeminiUsageMetadata := MkUsageMetadata {
  prompt_token_count : N;
  candidates_token_count : N;
  total_token_count : N;
}.

(** @src adapters/src/google.rs:139-146 [GeminiChunk] *)
Record GeminiChunk := MkChunk { gch_candidates : list GeminiCandidate; gch_usage_metadata : option GeminiUsageMetadata }.

(** ** State *)

(** @src adapters/src/google.rs:188-198 [GeminiToolCallState] *)
Record GeminiToolCallState := MkToolCallState { gt_content_index : nat; gt_name : string; gt_arguments : string }.

(** @src adapters/src/google.rs:200-216 [GeminiStreamState] *)
Record GeminiStreamState := MkState {
  blocks : BlockAccumulator;
  tool_calls : gmap string GeminiToolCallState;
  generated_tool_call_keys_by_part_index : gmap nat string;
  next_generated_tool_call : nat;
  saw_tool_call : bool;
  usage : Usage;
  stop_reason : option StopReason;
  terminated : bool;
}.

Definition state_default : GeminiStreamState := MkState new ∅ ∅ 0 false usage_default None false.

Definition put_blocks (b : BlockAccumulator) (s : GeminiStreamState) : GeminiStreamState :=
  MkState b (tool_calls s) (generated_tool_call_keys_by_part_index s) (next_generated_tool_call s) (saw_tool_call s)
    (usage s) (stop_reason s) (terminated s).
Definition put_tool_calls (m : gmap string GeminiToolCallState) (s : GeminiStreamState) : GeminiStreamState :=
  MkState (blocks s) m (generated_tool_call_keys_by_part_index s) (next_generated_tool_call s) (saw_tool_call s)
    (usage s) (stop_reason s) (terminated s).
Definition put_usage (u : Usage) (s : GeminiStreamState) : GeminiStreamState :=
  MkState (blocks s) (tool_calls s) (generated_tool_call_keys_by_part_index s) (next_generated_tool_call s) (saw_tool_call s)
    u (stop_reason s) (terminated s).
Definition put_stop (r : StopReason) (s : GeminiStreamState) : GeminiStreamState :=
  MkState (blocks s) (tool_calls s) (generated_tool_call_keys_by_part_index s) (next_generated_tool_call s) (saw_tool_call s)
    (usage s) (Some r) (terminated s).
Definition put_saw (s : GeminiStreamState) : GeminiStreamState :=
  MkState (blocks s) (tool_calls s) (generated_tool_call_keys_by_part_index s) (next_generated_tool_call s) true
    (usage s) (stop_reason s) (terminated s).
Definition put_terminated (s : GeminiStreamState) : GeminiStreamState :=
  MkState (blocks s) (tool_calls s) (generated_tool_call_keys_by_part_index s) (next_generated_tool_call s) (saw_tool_call s)
    (usage s) (stop_reason s) true.

#[local] Abbreviation M := (Emit GeminiStreamState).
#[local] Abbreviation on_blocks := (block_op blocks put_blocks).

(** ** The end of a response *)

Definition by_index (a b : GeminiToolCallState) : Prop := gt_content_index a <= gt_content_index b.
#[local] Instance by_index_dec : RelDecision by_index := fun a b => decide (gt_content_index a <= gt_content_index b).

(** The content indices are distinct, so that the order of the map does not matter.
    @src adapters/src/google.rs:967-982 [emit_final_tool_deltas] *)
Definition emit_final_tool_deltas : M unit :=
  s <~ eget ;;
  let ordered_tool_calls :=
    merge_sort by_index
      (List.filter (fun tc => negb (str_is_empty (gt_arguments tc))) (map snd (map_to_list (tool_calls s)))) in
  push (map (fun tc => ToolCallDelta (gt_content_index tc) (gt_arguments tc)) ordered_tool_calls).

(** The state is drained of its tool calls and its open blocks.
    @src adapters/src/google.rs:985-991 [GeminiStreamState::drain_open_blocks (brace)] *)
Definition finalize : M unit := emodify (put_tool_calls ∅) ;;~ close_blocks blocks put_blocks.

(** Called with [emit_final_tool_deltas: true] throughout.
    @src adapters/src/google.rs:937-950 [emit_terminal_error] *)
Definition emit_terminal_error (event : AssistantMessageEvent) : M unit :=
  emit_final_tool_deltas ;;~ finalize ;;~ push [event].

(** @src adapters/src/google.rs:952-961 [emit_terminal_network_error] *)
Definition emit_terminal_network_error (message : string) : M unit := emit_terminal_error (event_error_network message).

(** @src adapters/src/google.rs:902-908 [map_finish_reason] *)
Definition map_finish_reason (finish_reason : string) (saw_tool_call : bool) : StopReason :=
  if String.eqb finish_reason "MAX_TOKENS" then Length else if saw_tool_call then ToolUse else Stop.

(** @src adapters/src/google.rs:910-934 [terminal_error_for_finish_reason] *)
Definition terminal_error_for_finish_reason (finish_reason : string) : option AssistantMessageEvent :=
  let message := ("Google Gemini: terminal finish reason " ++ finish_reason)%string in
  let reason_is r := String.eqb finish_reason r in
  if reason_is "SAFETY" then Some (event_error_content_filtered "Google Gemini: response blocked by safety filter")
  else if existsb reason_is ["RECITATION"; "BLOCKLIST"; "PROHIBITED_CONTENT"; "SPII"; "IMAGE_SAFETY"; "IMAGE_PROHIBITED_CONTENT"; "IMAGE_RECITATION"]
  then Some (event_error_content_filtered message)
  else if existsb reason_is ["MALFORMED_FUNCTION_CALL"; "LANGUAGE"; "OTHER"; "IMAGE_OTHER"; "NO_IMAGE"]
  then Some (ErrorEvent Error message None None None)
  else None.

(** ** Tool calls *)

(** A key made here is [generated:] and a number.
    @src adapters/src/google.rs:869-900 [tool_call_identity] *)
Definition tool_call_identity (part_index : nat) (function_call : GeminiFunctionCall) (s : GeminiStreamState) :
    (string * string) * GeminiStreamState :=
  match gc_id function_call with
  | Some id => (("provider:" ++ id, id)%string, s)
  | None =>
    match (generated_tool_call_keys_by_part_index s !! part_index) ≫= (fun existing_key =>
             tool_calls s !! existing_key ≫= fun tool_call =>
             if String.eqb (gt_name tool_call) (gc_name function_call) then Some existing_key else None) with
    | Some existing_key =>
      let id := match str_strip_prefix "generated:" existing_key with
                | Some sequence => ("gemini-tool-" ++ sequence)%string
                | None => existing_key
                end in ((existing_key, id), s)
    | None =>
      let sequence := pretty (next_generated_tool_call s) in
      let key := ("generated:" ++ sequence)%string in
      ((key, ("gemini-tool-" ++ sequence)%string),
       MkState (blocks s) (tool_calls s) (<[part_index := key]> (generated_tool_call_keys_by_part_index s))
         (S (next_generated_tool_call s)) (saw_tool_call s) (usage s) (stop_reason s) (terminated s))
    end
  end.

(** The call opened, if it is not yet. *)
Definition open_call (key id name : string) : M unit :=
  s <~ eget ;;
  match tool_calls s !! key with
  | Some _ => eret tt
  | None =>
    let '((content_index, start_ev), b) := open_tool_call (blocks s) id name in
    eput (put_tool_calls (<[key := MkToolCallState content_index name ""]> (tool_calls s)) (put_blocks b (put_saw s))) ;;~
    push [start_ev]
  end.

Definition set_arguments (key arguments : string) (s : GeminiStreamState) : GeminiStreamState :=
  put_tool_calls (alter (fun e => MkToolCallState (gt_content_index e) (gt_name e) arguments) key (tool_calls s)) s.

(** @src adapters/src/google.rs:818-867 [process_function_call] *)
Definition process_function_call (part_index : nat) (function_call : GeminiFunctionCall) : M unit :=
  if trim_is_empty (gc_name function_call) then
    emit_terminal_error (event_error "Google Gemini function_call payload is missing a non-empty name") ;;~
    emodify put_terminated
  else
    s <~ eget ;;
    let '((key, id), s) := tool_call_identity part_index function_call s in
    eput s ;;~
    open_call key id (gc_name function_call) ;;~
    let serialized_args := if decide (gc_args function_call = json_null) then "" else json_to_string (gc_args function_call) in
    emodify (set_arguments key serialized_args).

(** ** A chunk *)

(** @src adapters/src/google.rs:769-803 [process_chunk, a part (brace)] *)
Definition process_part (part_index : nat) (part : GeminiResponsePart) : M unit :=
  if default false (rp_thought part) then
    on_blocks close_text ;;~ on_blocks ensure_thinking_open ;;~
    match rp_text part with
    | Some text => if str_is_empty text then eret tt else on_blocks (fun b => (thinking_delta b text, b))
    | None => eret tt
    end ;;~
    match rp_thought_signature part with
    | Some signature => on_blocks (fun b => (None, set_thinking_signature b signature))
    | None => eret tt
    end
  else
    match rp_function_call part with
    | Some function_call =>
      on_blocks close_text ;;~ on_blocks (fun b => close_thinking b None) ;;~ process_function_call part_index function_call
    | None =>
      match rp_text part with
      | Some text =>
        if str_is_empty text then eret tt
        else on_blocks (fun b => close_thinking b None) ;;~
             (on_blocks ensure_text_open ;;~ on_blocks (fun b => (text_delta b text, b)))
      | None => eret tt
      end
    end.

Fixpoint process_parts (part_index : nat) (parts : list GeminiResponsePart) : M unit :=
  match parts with
  | [] => eret tt
  | part :: parts' => process_part part_index part ;;~ process_parts (S part_index) parts'
  end.

Definition process_finish (finish_reason : option string) : M unit :=
  match finish_reason with
  | None => eret tt
  | Some finish_reason =>
    match terminal_error_for_finish_reason finish_reason with
    | Some error => emit_terminal_error error ;;~ emodify put_terminated
    | None => s <~ eget ;; emodify (put_stop (map_finish_reason finish_reason (saw_tool_call s)))
    end
  end.

Definition to_usage (u : GeminiUsageMetadata) : Usage :=
  MkUsage (prompt_token_count u) (candidates_token_count u) 0 0 (total_token_count u) ∅.

Definition process_usage (usage_metadata : option GeminiUsageMetadata) : M unit :=
  match usage_metadata with Some u => emodify (put_usage (to_usage u)) | None => eret tt end.

(** @src adapters/src/google.rs:751-816 [process_chunk] *)
Definition process_chunk (chunk : GeminiChunk) : M unit :=
  process_usage (gch_usage_metadata chunk) ;;~
  match gch_candidates chunk with
  | [] => eret tt
  | candidate :: _ =>
    process_parts 0 (default [] (gk_content candidate)) ;;~ process_finish (gk_finish_reason candidate)
  end.

(** ** The handler *)

Context (parse_chunk : string -> result GeminiChunk string).

Definition finish (m : M unit) (s : GeminiStreamState) : SseAction * GeminiStreamState :=
  let '((_, es), s') := m s in (Finish es, s').

Definition emit_done (stop : GeminiStreamState -> StopReason) : M unit :=
  emit_final_tool_deltas ;;~ finalize ;;~ s <~ eget ;; push [Done (stop s) (usage s) cost_default].

(** @src adapters/src/google.rs:658-735 [parse_sse_stream, on_item (brace)] *)
Definition on_item (item : option SseLine) (s : GeminiStreamState) : SseAction * GeminiStreamState :=
  match item with
  | None =>
    if terminated s then (Finish [], s)
    else match stop_reason s with
         | None => finish (emit_terminal_network_error "Google stream ended unexpectedly") s
         | Some _ => finish (emit_done (fun s => default Stop (stop_reason s))) s
         end
  | Some DoneLine =>
    if terminated s then (Finish [], s)
    else finish (emit_done (fun s => default (if saw_tool_call s then ToolUse else Stop) (stop_reason s))) s
  | Some (Data line) =>
    if terminated s then (Finish [], s)
    else match parse_chunk line with
         | Ok chunk =>
           let '((_, es), s') := process_chunk chunk s in
           if terminated s' then (Finish es, s') else (Continue es, s')
         | Err parse_error => finish (emit_terminal_error (event_error ("Google JSON parse error: " ++ parse_error))) s
         end
  | Some (TransportError message) => finish (emit_terminal_network_error ("Google " ++ message)) s
  | Some (ProtocolError message) => finish (emit_terminal_error (event_error ("Google " ++ message))) s
  | Some _ => (Skip, s)
  end.

Definition google_adapter : Adapter GeminiStreamState SseLine :=
  MkAdapter GeminiStreamState SseLine on_item
    (fun s => events_of_run (emit_terminal_error (cancelled_error "Google request cancelled")) s).

(** @src adapters/src/google.rs:644-749 [parse_sse_stream] *)
Definition parse_sse_stream (cancel : option nat) (bytes : list (result string string)) : option (list AssistantMessageEvent) :=
  adapter_stream google_adapter cancel (sse_data_lines bytes) state_default.

End Google.
End GoogleStream.

(** ** The Google adapter keeps the contract

    For a provider that names its function calls. *)
Open Scope string_scope.
Open Scope list_scope.
Open Scope agent_scope.

Module GoogleSpec.
Import Assembly Sse Google GoogleStream.

Section Spec.
Context `{E : Ext}.
#[local] Abbreviation M := (Emit GeminiStreamState).
#[local] Abbreviation tracks := (Adapter.tracks blocks).
#[local] Abbreviation is_error := is_error_event.

(** ** The state between chunks *)

(** The buffered calls are open. *)
Definition going (u : Usage) (s : GeminiStreamState) : Prop :=
  (forall key e, tool_calls s !! key = Some e -> gt_content_index e ∈ open_tool_calls (blocks s))
  /\ terminated s = false /\ usage s = u.

Lemma blocks_put b s : blocks (put_blocks b s) = b.
Proof. done. Qed.

Lemma going_put u b s :
  going u s -> open_tool_calls b = open_tool_calls (blocks s) -> going u (put_blocks b s).
Proof. intros (Hc & Ht & Hu) Hb. split; [|done]. intros key e He. cbn. rewrite Hb. by eapply Hc. Qed.

#[local] Abbreviation tells u := (Adapter.tells (going u)).
#[local] Hint Resolve blocks_put going_put : core.

(** ** The end of a response *)

Lemma deltas_emit b l :
  Forall (fun tc => gt_content_index tc ∈ open_tool_calls b) l ->
  emits b (map (fun tc => ToolCallDelta (gt_content_index tc) (gt_arguments tc)) l) b.
Proof.
  induction 1 as [|tc l Htc _ IH]; [apply emits_nil|]. cbn [map].
  apply (emits_app b [ToolCallDelta (gt_content_index tc) (gt_arguments tc)] b _ b); [|exact IH].
  exists [OpToolDelta (gt_content_index tc) (gt_arguments tc)]. split; [|done]. cbn. rewrite andb_true_r. by apply bool_decide_eq_true.
Qed.

Lemma deltas_no_text l : text_chunks (map (fun tc => ToolCallDelta (gt_content_index tc) (gt_arguments tc)) l) = [].
Proof. induction l; [done|]. cbn. done. Qed.

Lemma final_deltas_tell u : tracks (going u) emit_final_tool_deltas (tells u []).
Proof.
  apply tracks_read. intros s Hs. intros ? <-. split; [|split; [apply deltas_no_text|done]].
  apply deltas_emit. rewrite Forall_forall. intros tc Htc.
  rewrite (merge_sort_Permutation _ _) in Htc. apply list_elem_of_In, filter_In in Htc as [Htc _]. apply list_elem_of_In in Htc.
  apply list_elem_of_fmap in Htc as ([key e] & -> & He). apply elem_of_map_to_list in He. by eapply (proj1 Hs).
Qed.

(** Deltas, the open blocks closed, and what [k] pushes. *)
Lemma google_last_event_closes u (k : M unit) t s :
  going u s ->
  (forall s', usage s' = usage s -> stop_reason s' = stop_reason s -> saw_tool_call s' = saw_tool_call s ->
     events_of_run k s' = [t] /\ is_terminal t = true) ->
  let '((_, es), _) := (emit_final_tool_deltas ;;~ finalize ;;~ k) s in closes (blocks s) es t /\ text_chunks es = [].
Proof.
  intros Hs Hk. unfold ebind. pose proof (final_deltas_tell u s Hs) as H.
  assert (snd (emit_final_tool_deltas s) = s) as Hsame by done.
  destruct (emit_final_tool_deltas s) as [[x es] s1]. cbn in Hsame. subst s1. destruct H as [He [Ht _]].
  unfold finalize, close_blocks, ebind, emodify. cbn [blocks put_tool_calls].
  destruct (closes_after (blocks s) es (blocks s) t He) as [Hc Htx].
  { by eapply (Hk s). }
  destruct (finalize_blocks (blocks s)) as [fin b] eqn:Hf. cbn [fst snd] in *.
  specialize (Hk (put_blocks b (put_tool_calls ∅ s)) eq_refl eq_refl eq_refl). destruct Hk as [Hk _]. unfold events_of_run in Hk.
  destruct (k _) as [[y es'] s']. cbn in Hk. subst es'. cbn [app]. split; [exact Hc|]. by rewrite Htx.
Qed.

Lemma google_error_closes u e s : is_error e = true -> going u s ->
  let '((_, es), _) := emit_terminal_error e s in closes (blocks s) es e /\ text_chunks es = [].
Proof. intros He Hs. apply (google_last_event_closes u (push [e])); [done|]. intros s' _ _ _. split; [done|by destruct e]. Qed.

Lemma done_closes u stop s : going u s ->
  (forall s', stop_reason s' = stop_reason s -> saw_tool_call s' = saw_tool_call s -> stop s' = stop s) ->
  let '((_, es), _) := emit_done stop s in closes (blocks s) es (Done (stop s) u cost_default) /\ text_chunks es = [].
Proof.
  intros Hs Hstop. apply (google_last_event_closes u (s <~ eget ;; push [Done (stop s) (usage s) cost_default])); [done|].
  intros s' Hu Hr Hw. split; [|done]. unfold events_of_run. cbn. rewrite Hstop by done. rewrite Hu. by destruct Hs as (_ & _ & ->).
Qed.

(** ** Tool calls *)

Lemma identity_same i f s :
  exists g n, snd (tool_call_identity i f s) =
    MkState (blocks s) (tool_calls s) g n (saw_tool_call s) (usage s) (stop_reason s) (terminated s).
Proof.
  unfold tool_call_identity. destruct s as [b calls gen next saw us sr te]. cbn. destruct (gc_id f); [by do 2 eexists|].
  destruct (_ ≫= _); by do 2 eexists.
Qed.

Lemma identity_going u i f s : going u s -> going u (snd (tool_call_identity i f s)).
Proof. destruct (identity_same i f s) as (g & n & ->). done. Qed.

Lemma identity_blocks i f s : blocks (snd (tool_call_identity i f s)) = blocks s.
Proof. by destruct (identity_same i f s) as (g & n & ->). Qed.

Lemma open_call_tells u key id name : tracks (going u) (open_call key id name) (tells u []).
Proof.
  apply tracks_read. intros s Hs. destruct (tool_calls s !! key) as [e|]; [apply tracks_ret; by intros ? <-|].
  intros ? <-. destruct Hs as (Hc & Ht & Hu). destruct s as [[n tx th tc] calls gen next saw us sr te]. cbn in *. split.
  - by exists [OpOpenTool id name].
  - split; [done|]. split; [|done]. intros key' e He. cbn in *. apply elem_of_app.
    apply lookup_insert_Some in He as [[_ <-]|[_ He]]; [right; by apply list_elem_of_singleton|left; by eapply Hc].
Qed.

Definition named (f : GeminiFunctionCall) : Prop := trim_is_empty (gc_name f) = false.

Lemma function_call_tells u i f : named f -> tracks (going u) (process_function_call i f) (tells u []).
Proof.
  intros Hn. unfold process_function_call. rewrite Hn. apply tracks_read. intros s Hs.
  pose proof (identity_going u i f s Hs) as Hg. pose proof (identity_blocks i f s) as Hb.
  destruct (tool_call_identity i f s) as [[key id] s']. cbn [snd] in *.
  apply tracks_put; [by intros ? <-|].
  eapply (tracks_seq _ _ [] (fun _ => going u)); [|intros ?].
  { eapply tracks_conseq; [apply open_call_tells|by intros ? <-|done]. }
  apply tracks_modify. intros s2 (Hc & Ht & Hu). split; [done|]. split; [done|]. split; [|done].
  intros key' e He. unfold set_arguments in *. cbn [tool_calls put_tool_calls blocks] in *.
  apply lookup_alter_Some in He as [(_ & e0 & He & ->)|[_ He]]; [cbn|]; by eapply Hc.
Qed.

(** ** A chunk *)

Definition part_named (part : GeminiResponsePart) : Prop :=
  default false (rp_thought part) = true \/ match rp_function_call part with Some f => named f | None => True end.

Definition part_texts (part : GeminiResponsePart) : list string :=
  if default false (rp_thought part) then []
  else match rp_function_call part, rp_text part with
       | None, Some text => if str_is_empty text then [] else [text]
       | _, _ => []
       end.

Lemma process_part_tells u i part : part_named part -> tracks (going u) (process_part i part) (tells u (part_texts part)).
Proof.
  intros Hn. unfold process_part, part_texts. destruct (default false (rp_thought part)) eqn:Hth.
  - eapply (tracks_seq _ _ [] (fun _ => going u)); [apply close_text_tells; eauto|intros _].
    eapply (tracks_seq _ _ [] (fun _ => going u)); [apply ensure_thinking_tells; eauto|intros _].
    eapply (tracks_seq _ _ [] (fun _ => going u)).
    + destruct (rp_text part) as [text|]; [destruct (str_is_empty text)|]; try (by apply tracks_ret). apply thinking_delta_tells; eauto.
    + intros _. destruct (rp_thought_signature part); [apply set_signature_tells; eauto|by apply tracks_ret].
  - destruct Hn as [Hn|Hn]; [congruence|]. destruct (rp_function_call part) as [f|].
    + eapply (tracks_seq _ _ [] (fun _ => going u)); [apply close_text_tells; eauto|intros _].
      eapply (tracks_seq _ _ [] (fun _ => going u)); [apply close_thinking_tells; eauto|intros _]. by apply function_call_tells.
    + destruct (rp_text part) as [text|]; [|by apply tracks_ret]. destruct (str_is_empty text); [by apply tracks_ret|].
      eapply (tracks_seq _ _ [] (fun _ => going u)); [apply close_thinking_tells; eauto|intros _]. apply text_tells; eauto.
Qed.

Lemma process_parts_tells u i parts :
  Forall part_named parts -> tracks (going u) (process_parts i parts) (tells u (concat (map part_texts parts))).
Proof.
  intros Hp. revert i. induction Hp as [|part parts Hpart _ IH]; intros i; [by apply tracks_ret|]. cbn [process_parts map concat].
  eapply (tracks_seq _ _ (part_texts part) (fun _ => going u)); [by apply process_part_tells|intros _].
  eapply tracks_conseq; [apply IH|done|]. by intros x t s [-> Hs].
Qed.

Definition first_parts (chunk : GeminiChunk) : list GeminiResponsePart :=
  match gch_candidates chunk with [] => [] | candidate :: _ => default [] (gk_content candidate) end.

Definition chunk_named (chunk : GeminiChunk) : Prop := Forall part_named (first_parts chunk).
Definition chunk_texts (chunk : GeminiChunk) : list string := concat (map part_texts (first_parts chunk)).
Definition usage_after (u : Usage) (chunk : GeminiChunk) : Usage :=
  match gch_usage_metadata chunk with Some x => to_usage x | None => u end.

(** A chunk goes on or ends the stream with an error. *)
Lemma process_chunk_spec u chunk s :
  chunk_named chunk -> going u s ->
  let '((_, es), s') := process_chunk chunk s in
  (terminated s' = false /\ emits (blocks s) es (blocks s') /\ text_chunks es = chunk_texts chunk /\ going (usage_after u chunk) s')
  \/ (terminated s' = true /\ exists t, closes (blocks s) es t /\ is_error t = true).
Proof.
  intros Hn Hs. set (body := process_parts 0 (first_parts chunk)).
  set (fin := match gch_candidates chunk with [] => None | candidate :: _ => gk_finish_reason candidate end).
  assert (process_chunk chunk s =
    (process_usage (gch_usage_metadata chunk) ;;~ body ;;~ process_finish fin) s) as ->.
  { unfold process_chunk, body, fin, first_parts. destruct (gch_candidates chunk); [|done]. unfold ebind. by destruct (process_usage _ s) as [[? ?] ?]. }
  set (u' := usage_after u chunk).
  assert (tracks (going u) (process_usage (gch_usage_metadata chunk) ;;~ body)
    (fun _ t s => t = chunk_texts chunk /\ going u' s)) as Hbody.
  { eapply (tracks_seq _ _ [] (fun _ => going u')).
    - unfold u', usage_after, process_usage. destruct (gch_usage_metadata chunk) as [x|]; [|by apply tracks_ret].
      apply tracks_modify. intros s' (Hc & Ht & Hu). done.
    - intros _. by apply process_parts_tells. }
  specialize (Hbody s Hs). revert Hbody. unfold ebind.
  destruct (process_usage _ s) as [[x0 es0] s0].
  destruct (body s0) as [[x1 es1] s1]. intros [He [Htx Hs1]].
  unfold process_finish. destruct fin as [r|].
  - destruct (terminal_error_for_finish_reason r) as [e|] eqn:Hr.
    + assert (is_error e = true) as Herr.
      { unfold terminal_error_for_finish_reason in Hr.
        repeat (match type of Hr with (if ?x then _ else _) = _ => destruct x end; [by injection Hr as <-|]). done. }
      pose proof (google_error_closes u' e s1 Herr Hs1) as H. unfold ebind. destruct (emit_terminal_error e s1) as [[x2 es2] s2].
      destruct H as [Hc _]. right. cbn. split; [done|]. exists e. split; [|done]. rewrite app_nil_r, app_assoc.
      eapply closes_app; [exact He|]. done.
    + cbn. left. rewrite !app_nil_r. destruct Hs1 as (Hc & Ht & Hu). done.
  - cbn. left. rewrite !app_nil_r. split; [apply Hs1|]. done.
Qed.

(** ** The handler *)

Context (parse_chunk : string -> result GeminiChunk string).

(** Asked of the provider: function calls have names. *)
Definition line_named (l : SseLine) : Prop :=
  match l with Data data => match parse_chunk data with Ok chunk => chunk_named chunk | Err _ => True end | _ => True end.

Lemma finish_error u e s : is_error e = true -> going u s ->
  exists es s', finish (emit_terminal_error e) s = (Finish es, s') /\ closes (blocks s) es e /\ text_chunks es = [].
Proof.
  intros He Hs. pose proof (google_error_closes u e s He Hs) as H. unfold finish.
  destruct (emit_terminal_error e s) as [[x es] s']. eauto.
Qed.

Lemma google_line_spec u l s : going u s -> line_named l ->
  match on_item parse_chunk (Some l) s with
  | (Continue es, s') =>
    exists data chunk, l = Data data /\ parse_chunk data = Ok chunk
      /\ emits (blocks s) es (blocks s') /\ text_chunks es = chunk_texts chunk /\ going (usage_after u chunk) s'
  | (Finish es, _) =>
    exists t, closes (blocks s) es t
      /\ (is_error t = true \/ l = DoneLine /\ text_chunks es = [] /\ exists sr, t = Done sr u cost_default)
  | (Skip, s') => s' = s /\ forall data, l <> Data data /\ l <> DoneLine /\ (forall m, l <> TransportError m /\ l <> ProtocolError m)
  end.
Proof.
  intros Hs Hl. pose proof Hs as (_ & Ht & _).
  assert (forall e, is_error e = true -> match finish (emit_terminal_error e) s with
    | (Finish es, _) => exists t, closes (blocks s) es t
      /\ (is_error t = true \/ l = DoneLine /\ text_chunks es = [] /\ exists sr, t = Done sr u cost_default)
    | _ => False end) as Herr.
  { intros e He. destruct (finish_error u e s He Hs) as (es & s' & -> & Hc & _). eauto. }
  destruct l as [ev|data| | |msg|msg]; cbn [on_item]; rewrite ?Ht; try done.
  - destruct (parse_chunk data) as [chunk|e] eqn:Hp.
    + assert (chunk_named chunk) as Hn by (unfold line_named in Hl; by rewrite Hp in Hl).
      pose proof (process_chunk_spec u chunk s Hn Hs) as H. destruct (process_chunk chunk s) as [[x es] s'].
      destruct H as [(-> & He & Htx & Hg)|(-> & t & Hc & He)]; [by exists data, chunk|]. eauto.
    + specialize (Herr (event_error ("Google JSON parse error: " ++ e)) eq_refl). by destruct (finish _ s) as [[]].
  - pose proof (done_closes u (fun s => default (if saw_tool_call s then ToolUse else Stop) (stop_reason s)) s Hs) as H.
    unfold finish. destruct (emit_done _ s) as [[x es] s']. destruct H as [Hc Htx]; [by intros s2 -> ->|].
    eexists. split; [exact Hc|]. right. eauto.
  - specialize (Herr (event_error_network ("Google " ++ msg)) eq_refl). unfold emit_terminal_network_error. by destruct (finish _ s) as [[]].
  - specialize (Herr (event_error ("Google " ++ msg)) eq_refl). by destruct (finish _ s) as [[]].
Qed.

(** The stream is over: with a finish reason it is complete. *)
Lemma google_end_spec u s : going u s ->
  exists es s' t, on_item parse_chunk None s = (Finish es, s') /\ closes (blocks s) es t
    /\ (is_error t = true \/ text_chunks es = [] /\ exists sr, t = Done sr u cost_default).
Proof.
  intros Hs. pose proof Hs as (_ & Ht & _). cbn [on_item]. rewrite Ht. destruct (stop_reason s) as [r|] eqn:Hr.
  - pose proof (done_closes u (fun s => default Stop (stop_reason s)) s Hs) as H. unfold finish.
    destruct (emit_done _ s) as [[x es] s']. destruct H as [Hc Htx]; [by intros s2 -> _|]. do 3 eexists. split; [done|]. split; [exact Hc|]. eauto.
  - destruct (finish_error u (event_error_network "Google stream ended unexpectedly") s eq_refl Hs) as (es & s' & He & Hc & _).
    exists es, s', (event_error_network "Google stream ended unexpectedly"). split; [exact He|]. split; [done|by left].
Qed.

#[export] Instance google_sound : SoundAdapter (google_adapter parse_chunk).
Proof.
  refine (Build_SoundAdapter _ _ (google_adapter parse_chunk) blocks (fun s => exists u, going u s) (fun _ => line_named) _ _ _).
  - intros s l [u Hs] Hl. pose proof (google_line_spec u l s Hs Hl) as H.
    change (Adapter.on_item (google_adapter parse_chunk)) with (on_item parse_chunk).
    destruct (on_item parse_chunk (Some l) s) as [[es|es|] s'].
    + destruct H as (data & chunk & _ & _ & He & _ & Hs'). split; [done|by eexists].
    + destruct H as (t & ? & _). by exists t.
    + destruct H as [-> _]. split; [apply emits_nil|by exists u].
  - intros s [u Hs]. destruct (google_end_spec u s Hs) as (es & s' & t & ? & ? & _). by exists es, s', t.
  - intros s [u Hs]. pose proof (google_error_closes u (cancelled_error "Google request cancelled") s eq_refl Hs) as H.
    exists (cancelled_error "Google request cancelled"). cbn [on_cancel google_adapter]. unfold events_of_run. destruct (emit_terminal_error _ s) as [[x es] s']. apply H.
Defined.

(** The chunks up to the end of the stream, if every line before it is one. *)
Fixpoint chunks_of (lines : list SseLine) : option (list GeminiChunk) :=
  match lines with
  | [] | DoneLine :: _ => Some []
  | Data data :: lines' =>
    match parse_chunk data with Ok chunk => cons chunk <$> chunks_of lines' | Err _ => None end
  | (TransportError _ | ProtocolError _) :: _ => None
  | _ :: lines' => chunks_of lines'
  end.

Lemma named_lines_ok lines s : Forall line_named lines -> lines_ok (google_adapter parse_chunk) lines s.
Proof.
  intros Hl. revert s. induction Hl as [|l lines Hl _ IH]; intros s; [done|]. split; [done|].
  by destruct (Adapter.on_item _ (Some l) s) as [[]].
Qed.

Lemma google_done cancel lines u s es mid sr us c :
  going u s -> Forall line_named lines -> adapter_events (google_adapter parse_chunk) cancel lines s = Some es ->
  es = mid ++ [Done sr us c] ->
  exists chunks, chunks_of lines = Some chunks /\ text_chunks es = concat (map chunk_texts chunks) /\ us = foldl usage_after u chunks.
Proof.
  intros Hs Hl. revert cancel u s es mid Hs. induction Hl as [|l lines Hl Hls IH]; intros cancel u s es mid Hs;
    (destruct (decide (cancel = Some 0)) as [->|Hcancel];
     [intros [= <-] H; pose proof (google_error_closes u (cancelled_error "Google request cancelled") s eq_refl Hs) as Hc;
      cbn [on_cancel google_adapter] in H; unfold events_of_run in H;
      destruct (emit_terminal_error _ s) as [[x es'] s']; destruct Hc as [Hc _]; by pose proof (closes_last _ _ _ _ _ Hc H)|]).
  - destruct (google_end_spec u s Hs) as (es' & s' & t & He & Hc & Hcase). intros Hev Hes.
    assert (Some es' = Some es) as [= ->].
    { rewrite <- Hev. destruct cancel as [[|n]|]; [done|..]; cbn [adapter_events];
        change (Adapter.on_item (google_adapter parse_chunk)) with (on_item parse_chunk); by rewrite He. }
    pose proof (closes_last _ _ _ _ _ Hc Hes) as <-. destruct Hcase as [?|(Ht & sr' & [= -> -> ->])]; [done|]. by exists [].
  - rewrite adapter_events_line by done. cbn zeta. pose proof (google_line_spec u l s Hs Hl) as H.
    change (Adapter.on_item (google_adapter parse_chunk)) with (on_item parse_chunk).
    destruct (on_item parse_chunk (Some l) s) as [[es1|es1|] s1].
    + destruct H as (data & chunk & -> & Hp & _ & Ht & Hs1).
      destruct (adapter_events _ (pred <$> cancel) lines s1) as [es2|] eqn:Hr; cbn; [|done].
      intros [= <-] Hes. destruct es2 as [|e es2 _] using rev_ind.
      { destruct (adapter_events_close (google_adapter parse_chunk) (pred <$> cancel) lines s1) as (es' & t & He' & Hc').
        - by exists (usage_after u chunk).
        - by apply named_lines_ok.
        - rewrite Hr in He'. injection He' as <-. destruct (closes_nonempty _ _ _ Hc') as [m Hm]. by destruct m. }
      rewrite app_assoc in Hes. apply app_inj_tail in Hes as [_ ->].
      destruct (IH (pred <$> cancel) _ s1 _ es2 Hs1 Hr eq_refl) as (chunks & Hc & Htx & Hu).
      exists (chunk :: chunks). cbn. rewrite Hp, Hc. split; [done|]. split; [|done]. by rewrite text_chunks_app, Ht, Htx.
    + intros [= ->] Hes. destruct H as (t & Hc & Hcase). pose proof (closes_last _ _ _ _ _ Hc Hes) as <-.
      destruct Hcase as [?|(-> & Ht & sr' & [= -> -> ->])]; [done|]. by exists [].
    + destruct H as [-> Hno]. intros Hr Hes. destruct (IH _ _ _ _ _ Hs Hr Hes) as (chunks & Hc & ?).
      exists chunks. split; [|done]. destruct (Hno "") as (H1 & H2 & H3).
      destruct l as [ev|data| | |m|m]; try done; [by destruct (Hno data)|by destruct (H3 m)|by destruct (H3 m)].
Qed.

(** C21: for a provider that names its function calls the Google adapter implements
    the streaming contract from the bytes of the response on: whatever else
    arrives, however it is cut or broken off or cancelled, the stream ends, and
    [accumulate_message] takes it, the only refusal being tool arguments that are
    not JSON; and a message without an error comes from a stream whose lines are
    all chunks, holds exactly their texts, thoughts apart, in order and the usage
    last reported. *)
Theorem google_stream_contract cancel bytes now provider model :
  Forall line_named (sse_data_lines bytes) ->
  exists es, parse_sse_stream parse_chunk cancel bytes = Some es
    /\ match accumulate_message now es provider model with
       | Err e => exists e', e = parse_error e'
       | Ok m =>
         am_error_message m = None ->
         exists chunks, chunks_of (sse_data_lines bytes) = Some chunks
           /\ extract_text (am_content m) = concat_text (concat (map chunk_texts chunks))
           /\ am_usage m = foldl usage_after usage_default chunks
       end.
Proof.
  intros Hl. assert (going usage_default state_default) as Hs.
  { split; [|done]. intros key e He. cbn in He. by rewrite lookup_empty in He. }
  destruct (adapter_session (google_adapter parse_chunk) cancel (sse_data_lines bytes) state_default) as (ops & t & Hok & Ht & Hes);
    [by eexists|done|by apply named_lines_ok|].
  exists (session_with ops t). split; [exact Hes|].
  pose proof (session_with_accumulates now ops t provider model Hok Ht) as H.
  destruct (accumulate_message _ _ _ _) as [m|e]; [|apply H]. destruct H as (_ & Htx & Hf).
  intros Hm. unfold adapter_stream in Hes. destruct (adapter_events _ _ _ _) as [es|] eqn:Hev; [|done]. cbn in Hes. injection Hes as Hes.
  unfold session_with in Hes. destruct (run_ops Assembly.new ops) as [ops_es a] eqn:Hr. cbn [fst snd] in *.
  destruct t as [| | | | | | | | | |sr us c|sr em us ek ra]; try done; cbn in Hf; [|congruence].
  injection Hes as ->.
  destruct (google_done cancel _ _ _ _ _ sr us c Hs Hl Hev eq_refl) as (chunks & Hc & Htexts & Hu).
  exists chunks. split; [done|]. injection Hf as _ Hus _ _ _. rewrite Htx, <- Hus, <- Hu. split; [|done].
  assert (Hn : text_chunks (map end_event (map snd (merge_sort key_le (drain_entries a)))) = []) by exact (finalize_no_text a).
  rewrite <- Htexts, !text_chunks_app, Hn. cbn. by rewrite !app_nil_r.
Qed.

End Spec.

(** ** A chunk read *)

Section Toy.
#[local] Existing Instance Externals.Toy.ext.

Definition say (text : string) (reason : option string) : GeminiChunk :=
  MkChunk [MkCandidate (Some [MkResponsePart (Some text) None None None]) reason] None.

Definition call_named (name : string) : GeminiResponsePart :=
  MkResponsePart None None None (Some (MkGeminiFunctionCall None name json_null)).

(** Stands for serde_json on three lines. *)
Definition toy_parse (line : string) : result GeminiChunk string :=
  if String.eqb line "hello" then Ok (say "hel" None)
  else if String.eqb line "lo" then Ok (say "lo" (Some "STOP"))
  else if String.eqb line "nameless" then
    Ok (MkChunk [MkCandidate (Some [call_named " "; MkResponsePart (Some "more") None None None]) None] None)
  else Err "unexpected".

Definition toy_bytes (lines : list string) : list (result string string) :=
  map (fun line => Ok ("data: " ++ line ++ String LF (String LF ""))%string) lines.

Definition reading (lines : list string) : option (result (string * nat) string) :=
  es ← parse_sse_stream toy_parse None (toy_bytes lines);
  Some (match accumulate_message 0 es "google" "gemini" with
        | Ok m => Ok (extract_text (am_content m), length (am_content m))
        | Err e => Err e
        end).

Example reading_hello : reading ["hello"; "lo"] = Some (Ok ("hello", 1)).
Proof. vm_compute. done. Qed.

(** A call without a name: the error is pushed and the parts after it are read on,
    so that events follow the terminal event. *)
Lemma nameless_call_runs_on :
  exists e rest, parse_sse_stream toy_parse None (toy_bytes ["nameless"]) = Some (Start :: e :: rest)
    /\ is_terminal e = true /\ text_chunks rest = ["more"].
Proof. vm_compute. eauto. Qed.

Lemma google_stream_contract_witness :
  Forall (line_named toy_parse) (sse_data_lines (toy_bytes ["hello"; "lo"]))
  /\ exists es, parse_sse_stream toy_parse None (toy_bytes ["hello"; "lo"]) = Some es.
Proof.
  assert (Forall (line_named toy_parse) (sse_data_lines (toy_bytes ["hello"; "lo"]))) as Hl.
  { assert (sse_data_lines (toy_bytes ["hello"; "lo"]) = [Data "hello"; Data "lo"]) as -> by (vm_compute; reflexivity).
    repeat constructor; by right. }
  split; [exact Hl|].
  destruct (google_stream_contract toy_parse None (toy_bytes ["hello"; "lo"]) 0 "google" "gemini" Hl) as (es & Hes & _).
  by exists es.
Defined.

End Toy.
End GoogleSpec.
