(* ===== verification/Ollama.v ===== *)
(** * The Ollama adapter: [adapters/src/ollama.rs]

    The options of a request, the lines of a response in NDJSON, and its stream. *)
From S2P Require Export Adapter Convert.
From stdpp Require Import sorting.
From Stdlib Require Import Ascii.
Open Scope string_scope.
Open Scope list_scope.
Open Scope agent_scope.

(** ** Serving options *)
Section Serving.
Context `{E : Ext}.

(** @src src/stream.rs:327-332 [ResponseFormat] *)
Inductive ResponseFormat := FormatJson | FormatSchema (schema : Value).

(** @src src/stream.rs:357-381 [ReasoningEffort] *)
Inductive ReasoningEffort := EffortOff | EffortMinimal | EffortLow | EffortMedium | EffortHigh | EffortXHigh | EffortMax.

(** [extra] is a [BTreeMap]: its entries in the order of their keys.
    @src src/stream.rs:282-305 [ServingOptions] *)
Record ServingOptions := MkServingOptions {
  so_context_length : option N;
  so_top_p : option f64;
  so_keep_alive : option string;
  so_format : option ResponseFormat;
  so_reasoning_effort : option ReasoningEffort;
  so_extra : list (string * Value);
}.

(** The options that reach the request's body.
    @src src/stream.rs:582-602 [StreamOptions (brace)] *)
Record StreamOptions := MkStreamOptions { opt_temperature : option f64; opt_max_tokens : option N; opt_serving : ServingOptions }.

End Serving.

Module Ollama.
Import Assembly.

Section Ollama.
Context `{E : Ext}.

(** ** The request *)

(** [Value::from] at [f64]. *)
Context (json_f64 : f64 -> Value).

(** @src adapters/src/ollama.rs:88-100 [response_format] *)
Definition response_format (options : StreamOptions) : option Value :=
  match so_format (opt_serving options) with
  | Some FormatJson => Some (json_string "json")
  | Some (FormatSchema schema) => Some schema
  | None => None
  end.

Definition typed_options (options : StreamOptions) : list (string * option Value) :=
  [("temperature", json_f64 <$> opt_temperature options);
   ("num_predict", json_u64 <$> opt_max_tokens options);
   ("top_p", json_f64 <$> so_top_p (opt_serving options));
   ("num_ctx", json_u64 <$> so_context_length (opt_serving options))].

(** @src adapters/src/ollama.rs:109-131 [generation_options] *)
Definition generation_options (options : StreamOptions) : option (gmap string Value) :=
  let typed := typed_options options in
  let set_keys := map fst (List.filter (fun '(_, value) => bool_decide (is_Some value)) typed) in
  let map := merge_extra ∅ (so_extra (opt_serving options)) set_keys in
  let map := foldl (fun map '(key, value) => match value with Some value => <[key := value]> map | None => map end) map typed in
  if decide (map = ∅) then None else Some map.

(** ** NDJSON *)

(** [Display] of [FromUtf8Error]. *)
Context (utf8_error : string -> string).

Definition is_ascii_whitespace (a : ascii) : bool := existsb (Ascii.eqb a) [" "; "009"; LF; "012"; CR]%char.

Fixpoint drop_whitespace (l : list ascii) : list ascii :=
  match l with a :: l' => if is_ascii_whitespace a then drop_whitespace l' else l | [] => [] end.

Definition trim_ascii (s : string) : string :=
  String.string_of_list_ascii (rev (drop_whitespace (rev (drop_whitespace (String.list_ascii_of_string s))))).

(** The complete lines, up to one that is no UTF-8; whether there was one. *)
Fixpoint take_lines (lines : list string) : list (result string string) * bool :=
  match lines with
  | [] => ([], false)
  | line :: lines' =>
    let line := strip_cr line in
    if str_is_empty line then take_lines lines'
    else if is_utf8 line then let '(out, errored) := take_lines lines' in (Ok line :: out, errored)
    else ([Err ("invalid UTF-8 in NDJSON line: " ++ utf8_error line)%string], true)
  end.

(** What is left when the response ends. *)
Definition trailing_line (buf : string) : list (result string string) :=
  let trimmed := trim_ascii buf in
  if str_is_empty trimmed then []
  else if is_utf8 trimmed then
    match json_from_str trimmed with
    | Ok _ => [Ok trimmed]
    | Err err => [Err ("incomplete trailing NDJSON frame: " ++ err)%string]
    end
  else [Err ("invalid UTF-8 in trailing NDJSON line: " ++ utf8_error trimmed)%string].

(** @src adapters/src/ollama.rs:567-667 [ndjson_lines] *)
Fixpoint ndjson_lines (items : list (result string string)) (buf : string) : list (result string string) :=
  let '(lines, buf) := split_newlines buf in
  let '(out, errored) := take_lines lines in
  if errored then out
  else out ++ match items with
              | [] => trailing_line buf
              | Ok bytes :: items' => ndjson_lines items' (buf ++ bytes)%string
              | Err err :: _ => [Err ("transport error: " ++ err)%string]
              end.

(** ** Chunks *)

(** @src adapters/src/ollama.rs:166-170 [OllamaResponseFunction] *)
Record OllamaResponseFunction := MkResponseFunction { rf_name : string; rf_arguments : Value }.

(** @src adapters/src/ollama.rs:160-163 [OllamaResponseToolCall] *)
Record OllamaResponseToolCall := MkResponseToolCall { rt_function : OllamaResponseFunction }.

(** @src adapters/src/ollama.rs:149-157 [OllamaResponseMessage] *)
Record OllamaResponseMessage := MkResponseMessage {
  rm_content : string;
  rm_thinking : option string;
  rm_tool_calls : option (list OllamaResponseToolCall);
}.

(** @src adapters/src/ollama.rs:136-146 [OllamaChatChunk] *)
Record OllamaChatChunk := MkChatChunk {
  oc_message : OllamaResponseMessage;
  oc_done : bool;
  oc_done_reason : option string;
  oc_prompt_eval_count : option N;
  oc_eval_count : option N;
}.

(** ** The stream *)

(** [ids]: the UUIDs used so far.
    @src adapters/src/ollama.rs:559-561 [StreamState] *)
Record StreamState := MkState { blocks : BlockAccumulator; ids : nat }.
Definition put_blocks (b : BlockAccumulator) (s : StreamState) : StreamState := MkState b (ids s).

#[local] Abbreviation M := (Emit StreamState).
#[local] Abbreviation on_blocks := (block_op blocks put_blocks).

Context (new_uuid : nat -> string) (parse_chunk : string -> result OllamaChatChunk string).

Definition emit_tool_call (tc : OllamaResponseToolCall) : M unit :=
  s <~ eget ;;
  let tool_id := ("tc_" ++ new_uuid (ids s))%string in
  let '((ci, start_ev), b) := open_tool_call (blocks s) tool_id (rf_name (rt_function tc)) in
  eput (MkState b (S (ids s))) ;;~
  push [start_ev; tool_call_delta ci (json_to_string (rf_arguments (rt_function tc)))] ;;~
  on_blocks (fun b => close_tool_call b ci).

Fixpoint emit_each (tool_calls : list OllamaResponseToolCall) : M unit :=
  match tool_calls with [] => eret tt | tc :: tool_calls' => emit_tool_call tc ;;~ emit_each tool_calls' end.

(** @src adapters/src/ollama.rs:406-432 [emit_tool_calls] *)
Definition emit_tool_calls (tool_calls : list OllamaResponseToolCall) : M unit :=
  on_blocks close_text ;;~ emit_each tool_calls.

(** @src adapters/src/ollama.rs:484-513 [parse_ndjson_stream, a chunk (brace)] *)
Definition process_chunk (chunk : OllamaChatChunk) : M unit :=
  match rm_thinking (oc_message chunk) with
  | Some thinking =>
    if str_is_empty thinking then eret tt
    else on_blocks ensure_thinking_open ;;~ on_blocks (fun b => (thinking_delta b thinking, b))
  | None => eret tt
  end ;;~
  (if str_is_empty (rm_content (oc_message chunk)) then eret tt
   else on_blocks (fun b => close_thinking b None) ;;~
        (on_blocks ensure_text_open ;;~ on_blocks (fun b => (text_delta b (rm_content (oc_message chunk)), b)))) ;;~
  match rm_tool_calls (oc_message chunk) with Some tool_calls => emit_tool_calls tool_calls | None => eret tt end.

Definition done_stop_reason (done_reason : option string) : StopReason :=
  match done_reason with
  | Some "tool_calls" => ToolUse
  | Some "length" => Length
  | _ => Stop
  end.

Definition chunk_usage (chunk : OllamaChatChunk) : Usage :=
  let input_tokens := default 0%N (oc_prompt_eval_count chunk) in
  let output_tokens := default 0%N (oc_eval_count chunk) in
  MkUsage input_tokens output_tokens 0 0 (u64_add input_tokens output_tokens) ∅.

Definition fail (event : AssistantMessageEvent) (s : StreamState) : SseAction * StreamState :=
  let '((_, es), s) := (close_blocks blocks put_blocks ;;~ push [event]) s in (Finish es, s).

(** @src adapters/src/ollama.rs:450-548 [parse_ndjson_stream, on_item (brace)] *)
Definition on_item (item : option (result string string)) (s : StreamState) : SseAction * StreamState :=
  match item with
  | None => fail (event_error_network "Ollama stream ended unexpectedly") s
  | Some (Err err) => fail (event_error_network ("Ollama " ++ err)) s
  | Some (Ok line) =>
    match parse_chunk line with
    | Err e => fail (event_error ("Ollama JSON parse error: " ++ e)) s
    | Ok chunk =>
      if oc_done chunk then
        let '((_, es), s) :=
          (process_chunk chunk ;;~ close_blocks blocks put_blocks ;;~
           push [Done (done_stop_reason (oc_done_reason chunk)) (chunk_usage chunk) cost_default]) s in
        (Finish es, s)
      else
        let '((_, events), s) := process_chunk chunk s in
        (if is_nil events then Skip else Continue events, s)
    end
  end.

Definition ollama_adapter : Adapter StreamState (result string string) :=
  sse_adapter (fun s => fst (finalize_blocks (blocks s))) "Ollama request cancelled" on_item.

(** @src adapters/src/ollama.rs:435-550 [parse_ndjson_stream] *)
Definition parse_ndjson_stream (cancel : option nat) (bytes : list (result string string)) : option (list AssistantMessageEvent) :=
  adapter_stream ollama_adapter cancel (ndjson_lines bytes "") (MkState Assembly.new 0).

(** ** The lines do not depend on the cut *)

(** The bytes up to the first error, and this error. *)
Fixpoint body (items : list (result string string)) : string * option string :=
  match items with
  | [] => ("", None)
  | Ok bytes :: items' => let '(b, err) := body items' in ((bytes ++ b)%string, err)
  | Err err :: _ => ("", Some err)
  end.

(** The lines of a body read at once. *)
Definition body_lines (b : string) (err : option string) : list (result string string) :=
  let '(lines, rest) := split_newlines b in
  let '(out, errored) := take_lines lines in
  if errored then out
  else out ++ match err with Some err => [Err ("transport error: " ++ err)%string] | None => trailing_line rest end.

Lemma take_lines_app l1 l2 :
  take_lines (l1 ++ l2)
  = let '(out, errored) := take_lines l1 in
    if errored then (out, true) else let '(out', errored) := take_lines l2 in (out ++ out', errored).
Proof.
  induction l1 as [|line l1 IH]; cbn [app take_lines]; [by destruct (take_lines l2)|].
  destruct (str_is_empty (strip_cr line)); [exact IH|]. destruct (is_utf8 (strip_cr line)); [|done].
  rewrite IH. destruct (take_lines l1) as [out []]; [done|]. by destruct (take_lines l2).
Qed.

Lemma ndjson_lines_body items buf :
  ndjson_lines items buf = let '(b, err) := body items in body_lines (buf ++ b) err.
Proof.
  revert buf. induction items as [|[bytes|err] items IH]; intros buf; cbn [ndjson_lines body].
  - rewrite string_app_nil_r. unfold body_lines. by destruct (split_newlines buf) as [lines rest].
  - destruct (body items) as [b err] eqn:Hb. unfold body_lines at 1. rewrite split_newlines_app.
    destruct (split_newlines buf) as [lines rest]. rewrite IH. unfold body_lines.
    rewrite string_app_assoc. destruct (split_newlines (rest ++ _)) as [lines' rest'].
    rewrite take_lines_app. destruct (take_lines lines) as [out []]; [done|].
    destruct (take_lines lines') as [out' []]; [done|]. by rewrite app_assoc.
  - rewrite string_app_nil_r. unfold body_lines. by destruct (split_newlines buf) as [lines rest].
Qed.

(** ** What the handler keeps *)

#[local] Abbreviation tracks := (Adapter.tracks blocks).
#[local] Abbreviation anything := (fun _ : StreamState => True).
#[local] Abbreviation tells := (Adapter.tells anything).

Lemma ollama_blocks_put b s : blocks (put_blocks b s) = b.
Proof. done. Qed.
#[local] Hint Resolve ollama_blocks_put : core.

(** A call is opened, said and closed. *)
Lemma emit_tool_call_tells tc : tracks anything (emit_tool_call tc) (tells []).
Proof.
  intros [[n tx th tc0] k] _. unfold emit_tool_call, ebind, eget, eput, push, block_op. cbn [blocks ids].
  set (id := ("tc_" ++ new_uuid k)%string). set (name := rf_name (rt_function tc)).
  set (args := json_to_string (rf_arguments (rt_function tc))).
  unfold open_tool_call, alloc_index. cbn.
  set (a1 := MkBlockAccumulator (S n) tx th (tc0 ++ [n])).
  assert (emits (MkBlockAccumulator n tx th tc0) [ToolCallStart n id name] a1) as H1 by (by exists [OpOpenTool id name]).
  assert (op_ok a1 (OpToolDelta n args) = true) as Hok.
  { cbn. apply bool_decide_eq_true. apply elem_of_app. right. by apply list_elem_of_singleton. }
  pose proof (emits_op a1 _ Hok) as H2. pose proof (emits_op a1 (OpCloseTool n) eq_refl) as H3. cbn [run_op] in H2, H3.
  destruct (close_tool_call a1 n) as [e a2] eqn:Hclose. cbn [fst snd app] in *. split.
  - exact (emits_app _ [_] _ _ _ H1 (emits_app _ [_] _ _ _ H2 H3)).
  - split; [|done]. unfold close_tool_call in Hclose. by destruct (position _ _) as [pos|]; injection Hclose as <- <-.
Qed.

Lemma emit_each_tells tool_calls : tracks anything (emit_each tool_calls) (tells []).
Proof.
  induction tool_calls as [|tc tool_calls IH]; [by apply tracks_ret|]. cbn [emit_each].
  eapply (tracks_seq _ _ [] (fun _ => anything)); [apply emit_tool_call_tells|intros _; exact IH].
Qed.

Definition chunk_texts (chunk : OllamaChatChunk) : list string :=
  if str_is_empty (rm_content (oc_message chunk)) then [] else [rm_content (oc_message chunk)].

Lemma process_chunk_tells chunk : tracks anything (process_chunk chunk) (tells (chunk_texts chunk)).
Proof.
  unfold process_chunk.
  eapply (tracks_seq _ _ [] (fun _ => anything)); [|intros _].
  { destruct (rm_thinking (oc_message chunk)) as [thinking|]; [|by apply tracks_ret].
    destruct (str_is_empty thinking); [by apply tracks_ret|].
    eapply (tracks_seq _ _ [] (fun _ => anything)); [apply ensure_thinking_tells; auto|intros _; apply thinking_delta_tells; auto]. }
  eapply (tracks_seq _ _ (chunk_texts chunk) (fun _ => anything)).
  { unfold chunk_texts. destruct (str_is_empty (rm_content (oc_message chunk))); [by apply tracks_ret|].
    eapply (tracks_seq _ _ [] (fun _ => anything)); [apply close_thinking_tells; auto|intros _; apply text_tells; auto]. }
  intros _. apply (tracks_conseq anything anything _ (tells [])); [|done|intros x t s [-> _]; split; [by rewrite app_nil_r|done]].
  destruct (rm_tool_calls (oc_message chunk)) as [tool_calls|]; [|by apply tracks_ret]. unfold emit_tool_calls.
  eapply (tracks_seq _ _ [] (fun _ => anything)); [apply close_text_tells; auto|intros _; apply emit_each_tells].
Qed.

(** ** The calls of the events *)

(** The names of the calls started and the pieces of arguments, in order. *)
Definition said_calls (es : list AssistantMessageEvent) : list (string + string) :=
  filtermap (fun e => match e with
                      | ToolCallStart _ _ name => Some (inl name)
                      | ToolCallDelta _ delta => Some (inr delta)
                      | _ => None
                      end) es.

Definition chunk_calls (chunk : OllamaChatChunk) : list (string + string) :=
  concat (map (fun tc => [inl (rf_name (rt_function tc)); inr (json_to_string (rf_arguments (rt_function tc)))])
            (default [] (rm_tool_calls (oc_message chunk)))).

Lemma said_calls_app es es' : said_calls (es ++ es') = said_calls es ++ said_calls es'.
Proof. apply filtermap_app. Qed.

Lemma finalize_said_nothing b : said_calls (fst (finalize_blocks b)) = [].
Proof. unfold finalize_blocks. destruct (drain_open_blocks b) as [l b']. cbn. by induction l as [|[] l IH]. Qed.

Definition calls {A} (m : M A) (l : list (string + string)) : Prop := forall s, said_calls (events_of_run m s) = l.

Lemma calls_bind {A B} (m : M A) (k : A -> M B) l l' :
  calls m l -> (forall x, calls (k x) l') -> calls (ebind m k) (l ++ l').
Proof.
  intros Hm Hk s. specialize (Hm s). unfold events_of_run, ebind in *. destruct (m s) as [[x es] s1].
  specialize (Hk x s1). unfold events_of_run in Hk. destruct (k x s1) as [[y es'] s2]. cbn [fst snd] in *.
  by rewrite said_calls_app, Hm, Hk.
Qed.

Lemma calls_seq {A B} (m : M A) (k : M B) l : calls m [] -> calls k l -> calls (m ;;~ k) l.
Proof. intros Hm Hk. exact (calls_bind m (fun _ => k) [] l Hm (fun _ => Hk)). Qed.

Lemma calls_block f : (forall b, said_calls (option_list (fst (f b))) = []) -> calls (on_blocks f) [].
Proof. intros Hf s. unfold events_of_run, block_op. specialize (Hf (blocks s)). by destruct (f (blocks s)) as [e b]. Qed.

Lemma calls_ret {A} (x : A) : calls (eret x) [].
Proof. by intros s. Qed.

Lemma close_tool_calls ci : calls (on_blocks (fun b => close_tool_call b ci)) [].
Proof. apply calls_block. intros b. unfold close_tool_call. by destruct (position _ _). Qed.

Lemma emit_tool_call_calls tc :
  calls (emit_tool_call tc) [inl (rf_name (rt_function tc)); inr (json_to_string (rf_arguments (rt_function tc)))].
Proof.
  intros [[n tx th tc0] k]. unfold emit_tool_call, events_of_run, ebind, eget, eput, push.
  unfold open_tool_call, alloc_index. cbn [blocks ids next_index text_index thinking_index open_tool_calls fst snd app].
  set (s' := MkState _ _). destruct (on_blocks _ s') as [[x es] s2] eqn:Hr.
  assert (said_calls es = []) as Hn.
  { pose proof (close_tool_calls n s') as H. unfold events_of_run in H. by rewrite Hr in H. }
  cbn [fst snd app said_calls filtermap]. fold (said_calls es). by rewrite Hn.
Qed.

Lemma emit_each_calls tool_calls :
  calls (emit_each tool_calls)
    (concat (map (fun tc => [inl (rf_name (rt_function tc)); inr (json_to_string (rf_arguments (rt_function tc)))]) tool_calls)).
Proof.
  induction tool_calls as [|tc tool_calls IH]; [apply calls_ret|]. cbn [emit_each map concat].
  apply calls_bind; [apply emit_tool_call_calls|intros _; exact IH].
Qed.

Ltac silent := apply calls_block; let n := fresh in let tx := fresh in let th := fresh in
  intros [n [tx|] [[th ?]|] ?]; reflexivity.

Lemma process_chunk_calls chunk : calls (process_chunk chunk) (chunk_calls chunk).
Proof.
  unfold process_chunk, chunk_calls. apply calls_seq; [|apply calls_seq].
  - destruct (rm_thinking _) as [thinking|]; [destruct (str_is_empty thinking)|]; try apply calls_ret. apply calls_seq; silent.
  - destruct (str_is_empty _); [apply calls_ret|]. apply calls_seq; [silent|apply calls_seq; silent].
  - destruct (rm_tool_calls _) as [tool_calls|]; [|apply calls_ret]. apply calls_seq; [silent|apply emit_each_calls].
Qed.

(** ** The handler *)

Lemma fail_closes e s : is_error_event e = true -> exists s', fail e s = (Finish (fst (finalize_blocks (blocks s)) ++ [e]), s')
  /\ closes (blocks s) (fst (finalize_blocks (blocks s)) ++ [e]) e.
Proof.
  intros He. unfold fail, close_blocks, ebind, push. destruct (finalize_blocks (blocks s)) as [es b] eqn:Hf. cbn.
  eexists. split; [done|]. pose proof (closes_now (blocks s) e) as H. rewrite Hf in H. apply H. by destruct e.
Qed.

Lemma fail_not_well e s es s' : is_error_event e = true -> fail e s = (Finish es, s') -> ~ ends_well es.
Proof.
  intros He. destruct (fail_closes e s He) as (s'' & -> & _). intros [= <- _] (mid & t & H & Ht).
  apply app_inj_tail in H as [_ <-]. congruence.
Qed.

Lemma process_chunk_emits chunk s :
  let '((_, es), s') := process_chunk chunk s in
  emits (blocks s) es (blocks s') /\ text_chunks es = chunk_texts chunk /\ said_calls es = chunk_calls chunk.
Proof.
  pose proof (process_chunk_tells chunk s I) as H. pose proof (process_chunk_calls chunk s) as Hc. unfold events_of_run in Hc.
  destruct (process_chunk chunk s) as [[x es] s']. destruct H as [He [Ht _]]. done.
Qed.

Definition done_event (chunk : OllamaChatChunk) : AssistantMessageEvent :=
  Done (done_stop_reason (oc_done_reason chunk)) (chunk_usage chunk) cost_default.

(** A line: an error, a chunk that goes on, or the last one. *)
Lemma ollama_line_spec item s :
  match on_item (Some item) s with
  | (Finish es, _) =>
    (exists e, closes (blocks s) es e /\ is_error_event e = true)
    \/ exists line chunk, item = Ok line /\ parse_chunk line = Ok chunk /\ oc_done chunk = true
         /\ closes (blocks s) es (done_event chunk)
         /\ text_chunks es = chunk_texts chunk /\ said_calls es = chunk_calls chunk
  | (act, s') =>
    exists line chunk es, item = Ok line /\ parse_chunk line = Ok chunk /\ oc_done chunk = false
      /\ (act = Continue es \/ act = Skip /\ es = [])
      /\ emits (blocks s) es (blocks s') /\ text_chunks es = chunk_texts chunk /\ said_calls es = chunk_calls chunk
  end.
Proof.
  destruct item as [line|err]; cbn [on_item].
  - destruct (parse_chunk line) as [chunk|e] eqn:Hp.
    + pose proof (process_chunk_emits chunk s) as H. destruct (oc_done chunk) eqn:Hd.
      * unfold ebind. destruct (process_chunk chunk s) as [[x es] s1]. destruct H as (He & Ht & Hc).
        unfold close_blocks, push. destruct (closes_after (blocks s) es (blocks s1) (done_event chunk) He eq_refl) as [Hcl Htx].
        pose proof (finalize_said_nothing (blocks s1)) as Hfin.
        destruct (finalize_blocks (blocks s1)) as [es' b]. cbn [fst snd] in *. right. exists line, chunk.
        fold (done_event chunk). do 4 (split; [done|]). split; [by rewrite Htx|].
        rewrite !said_calls_app, Hfin. cbn [said_calls filtermap done_event app]. by rewrite app_nil_r.
      * destruct (process_chunk chunk s) as [[x es] s1]. destruct H as (He & Ht & Hc).
        destruct es as [|e es]; cbn [is_nil]; exists line, chunk; eexists; (do 3 (split; [done|])); (split; [by eauto|]); done.
    + destruct (fail_closes (event_error ("Ollama JSON parse error: " ++ e)) s eq_refl) as (s' & -> & Hc). left. by eexists.
  - destruct (fail_closes (event_error_network ("Ollama " ++ err)) s eq_refl) as (s' & -> & Hc). left. by eexists.
Qed.

#[export] Instance ollama_sound : SoundAdapter ollama_adapter.
Proof.
  refine (Build_SoundAdapter _ _ ollama_adapter blocks anything (fun _ _ => True) _ _ _).
  - intros s item _ _. pose proof (ollama_line_spec item s) as H. change (Adapter.on_item ollama_adapter) with on_item.
    destruct (on_item (Some item) s) as [[es|es|] s'].
    + destruct H as (_ & _ & es' & _ & _ & _ & [[= ->]|[? _]] & He & _); done.
    + destruct H as [(e & ? & _)|(_ & chunk & _ & _ & _ & ? & _)]; eauto.
    + destruct H as (_ & _ & es' & _ & _ & _ & [?|[_ ->]] & He & _); done.
  - intros s _. destruct (fail_closes (event_error_network "Ollama stream ended unexpectedly") s eq_refl) as (s' & He & Hc).
    do 3 eexists. split; [exact He|exact Hc].
  - intros s _. eexists. exact (closes_now (blocks s) (cancelled_error "Ollama request cancelled") eq_refl).
Defined.

Definition reads (item : result string string) (chunk : OllamaChatChunk) : Prop :=
  exists line, item = Ok line /\ parse_chunk line = Ok chunk.

(** The response so far: chunks that are not the last. *)
Definition so_far (items : list (result string string)) (es : list AssistantMessageEvent) (_ : StreamState) : Prop :=
  exists chunks, Forall2 reads items chunks /\ Forall (fun c => oc_done c = false) chunks
    /\ text_chunks es = concat (map chunk_texts chunks) /\ said_calls es = concat (map chunk_calls chunks).

(** A whole response. *)
Definition whole (items : list (result string string)) (es : list AssistantMessageEvent) : Prop :=
  exists chunks chunk, Forall2 reads items (chunks ++ [chunk])
    /\ Forall (fun c => oc_done c = false) chunks /\ oc_done chunk = true
    /\ text_chunks es = concat (map chunk_texts (chunks ++ [chunk]))
    /\ said_calls es = concat (map chunk_calls (chunks ++ [chunk]))
    /\ exists mid, es = mid ++ [done_event chunk].

Lemma ollama_follow ls es s item :
  so_far ls es s ->
  match on_item (Some item) s with
  | (Continue es', s') => so_far (ls ++ [item]) (es ++ es') s'
  | (Finish es', _) => ends_well es' -> whole (ls ++ [item]) (es ++ es')
  | (Skip, s') => so_far (ls ++ [item]) es s'
  end.
Proof.
  intros (chunks & Hr & Hd & Ht & Hc). pose proof (ollama_line_spec item s) as H.
  assert (forall es' (chunk : OllamaChatChunk), text_chunks es' = chunk_texts chunk -> said_calls es' = chunk_calls chunk ->
    text_chunks (es ++ es') = concat (map chunk_texts (chunks ++ [chunk]))
    /\ said_calls (es ++ es') = concat (map chunk_calls (chunks ++ [chunk]))) as Happ.
  { intros es' chunk Ht' Hc'. rewrite !map_app, !concat_app. cbn [map concat]. rewrite !app_nil_r.
    rewrite text_chunks_app, said_calls_app. by rewrite Ht, Hc, Ht', Hc'. }
  assert (forall chunk, reads item chunk -> Forall2 reads (ls ++ [item]) (chunks ++ [chunk])) as Hreads.
  { intros chunk Hi. apply Forall2_app; [done|]. by constructor. }
  assert (forall chunk es' s', reads item chunk -> oc_done chunk = false -> text_chunks es' = chunk_texts chunk ->
    said_calls es' = chunk_calls chunk -> so_far (ls ++ [item]) (es ++ es') s') as Hgo.
  { intros chunk es' s' Hi Hdone Ht' Hc'. exists (chunks ++ [chunk]). split; [by apply Hreads|]. split; [|by apply Happ].
    apply Forall_app. split; [done|]. by constructor. }
  destruct (on_item (Some item) s) as [[es'|es'|] s'].
  - destruct H as (line & chunk & es2 & -> & Hp & Hdone & [[= <-]|[? _]] & _ & Ht' & Hc'); [|done].
    apply (Hgo chunk); [by exists line|done..].
  - intros Hwell. destruct H as [(e & Hcl & He)|(line & chunk & -> & Hp & Hdone & Hcl & Ht' & Hc')].
    { destruct Hwell as (mid & t & Hes & Hnot). pose proof (closes_last _ _ _ _ _ Hcl Hes) as <-. congruence. }
    destruct (closes_nonempty _ _ _ Hcl) as [mid Hmid]. exists chunks, chunk.
    destruct (Happ es' chunk Ht' Hc') as [? ?].
    split; [apply Hreads; by exists line|]. do 4 (split; [done|]). exists (es ++ mid). by rewrite Hmid, app_assoc.
  - destruct H as (line & chunk & es2 & -> & Hp & Hdone & [?|[_ ->]] & _ & Ht' & Hc'); [done|].
    rewrite <- (app_nil_r es). apply (Hgo chunk); [by exists line|done..].
Qed.

(** C23: the Ollama adapter implements the streaming contract from the bytes of the
    response on: whatever arrives, however it is cut or broken off or cancelled, the
    stream ends, and [accumulate_message] takes it, the only refusal being tool
    arguments that are not JSON.  A message without an error comes from chunks up
    to one that is done, read from the lines of the whole body wherever it was
    cut; it holds exactly their contents in order and the token counts of the last
    one, and the stream said their calls, each with its name and its arguments. *)
Theorem ollama_stream_contract cancel bytes now provider model :
  exists es, parse_ndjson_stream cancel bytes = Some es
    /\ match accumulate_message now es provider model with
       | Err e => exists e', e = parse_error e'
       | Ok m =>
         am_error_message m = None ->
         exists before after chunks chunk,
           body_lines (fst (body bytes)) (snd (body bytes)) = before ++ after
           /\ Forall2 reads before (chunks ++ [chunk])
           /\ Forall (fun c => oc_done c = false) chunks /\ oc_done chunk = true
           /\ extract_text (am_content m) = concat_text (concat (map chunk_texts (chunks ++ [chunk])))
           /\ said_calls es = concat (map chunk_calls (chunks ++ [chunk]))
           /\ am_usage m = chunk_usage chunk /\ am_stop_reason m = done_stop_reason (oc_done_reason chunk)
       end.
Proof.
  pose proof (ndjson_lines_body bytes "") as Hb. destruct (body bytes) as [b err]. rewrite string_app_nil_l in Hb.
  unfold parse_ndjson_stream. rewrite Hb. cbn [fst snd].
  destruct (adapter_reads ollama_adapter so_far whole) with (cancel := cancel) (lines := body_lines b err)
    (s := MkState new 0) (now := now) (provider := provider) (model := model) as (es & Hes & Hm).
  - intros ls es s item Hs _ _. by apply ollama_follow.
  - intros ls es s es' s' _ _ He Hwell. by destruct (fail_not_well (event_error_network "Ollama stream ended unexpectedly") s es' s' eq_refl He).
  - intros s _ (mid & t & He & Ht). cbn in He. by apply app_inj_tail in He as [_ <-].
  - by exists [].
  - done.
  - done.
  - clear. generalize (MkState new 0). induction (body_lines b err) as [|l lines IH]; intros s; [done|]. split; [done|].
    by destruct (Adapter.on_item ollama_adapter (Some l) s) as [[]].
  - exists es. split; [exact Hes|]. destruct (accumulate_message _ _ _ _) as [m|e]; [|exact Hm].
    intros Hne. destruct (Hm Hne) as (before & after & events & sr & c & Hl & Hev & HF & Hsr & Htx).
    destruct HF as (chunks & chunk & Hr & Hd & Hdone & Ht & Hc & mid & Hlast).
    apply app_inj_tail in Hlast as [_ Hdn]. injection Hdn as Hsr' Hu Hcost.
    exists before, after, chunks, chunk. do 4 (split; [done|]). rewrite text_chunks_app in Ht. cbn [text_chunks filtermap app] in Ht.
    rewrite app_nil_r in Ht. split; [by rewrite Htx, Ht|]. split; [|by rewrite Hu, Hsr, Hsr'].
    rewrite Hev. cbn [said_calls filtermap]. exact Hc.
Qed.

End Ollama.
End Ollama.
