(* ===== verification/Responses.v ===== *)
(** * The adapter for the OpenAI Responses API: [adapters/src/responses.rs]

    The request, the paired events of a response and its stream, and the
    classification of errors it shares with [adapters/src/oai_transport.rs]. *)
From S2P Require Export Ollama.
From stdpp Require Import sorting.
Open Scope string_scope.
Open Scope list_scope.
Open Scope agent_scope.

Module Responses.
Import Assembly Sse.

Section Responses.
Context `{E : Ext}.

(** ** Errors of the OpenAI protocols *)

(** @src adapters/src/oai_transport.rs:247-294 [classify_oai_error_fields] *)
Definition classify_oai_error_fields (code message : option string) (provider source detail : string) : option AssistantMessageEvent :=
  let code := string_map ascii_lower (default "" code) in
  let message := default detail message in
  let code_in l := existsb (String.eqb code) l in
  let says what := (provider ++ what ++ source ++ ": " ++ detail)%string in
  if (String.eqb code "context_length_exceeded" || is_context_overflow_message message)%bool
  then Some (event_error_context_overflow (says " context window exceeded"))
  else if String.eqb code "content_filter" then Some (event_error_content_filtered (says " content filter"))
  else if code_in ["rate_limit_exceeded"; "rate_limit_error"] then Some (event_error_throttled (says " rate limit"))
  else if code_in ["authentication_error"; "invalid_api_key"; "permission_error"; "permission_denied"]
  then Some (event_error_auth (says " auth error"))
  else if code_in ["server_error"; "api_error"; "internal_error"] then Some (event_error_network (says " server error"))
  else if code_in ["model_not_found"; "model_decommissioned"]
  then Some (event_error_model_retired (says " model retired or unavailable"))
  else None.

(** The [error] of a body is a text or an object.
    @src adapters/src/oai_transport.rs:216-243 [classify_oai_error_body] *)
Definition classify_oai_error_body (status : N) (body provider : string) : option AssistantMessageEvent :=
  if negb ((400 <=? status)%N && (status <? 500)%N)%bool then None
  else match json_from_str body with
       | Err _ => None
       | Ok value =>
         let field v k := json_get v k ≫= json_as_str in
         let '(code, message) :=
           match json_get value "error" with
           | Some error =>
             match json_as_str error with
             | Some message => (None, Some message)
             | None => (field error "code", field error "message")
             end
           | None => (field value "code", field value "message")
           end in
         let message := default body message in
         classify_oai_error_fields code (Some message) provider (" (HTTP " ++ pretty status ++ ")")%string message
       end.

(** ** The request *)

(** @src src/stream.rs:383-397 [From<ThinkingLevel> for ReasoningEffort (brace)] *)
Definition effort_of_level (level : ThinkingLevel) : ReasoningEffort :=
  match level with
  | Minimal => EffortMinimal
  | Low => EffortLow
  | Medium => EffortMedium
  | High => EffortHigh
  | ExtraHigh => EffortXHigh
  | Off => EffortOff
  end.

(** @src adapters/src/responses.rs:211-222 [effort_wire] *)
Definition effort_wire (effort : ReasoningEffort) : option string :=
  match effort with
  | EffortMinimal => Some "minimal"
  | EffortLow => Some "low"
  | EffortMedium => Some "medium"
  | EffortHigh => Some "high"
  | EffortXHigh => Some "xhigh"
  | EffortMax => Some "max"
  | EffortOff => None
  end.

(** @src adapters/src/responses.rs:227-234 [resolve_effort] *)
Definition resolve_effort (model : ModelSpec) (options : StreamOptions) : option string :=
  effort_wire (default (effort_of_level (ms_thinking_level model)) (so_reasoning_effort (opt_serving options))).

(** @src adapters/src/responses.rs:237-250 [text_format] *)
Definition text_format (options : StreamOptions) : option Value :=
  match so_format (opt_serving options) with
  | Some FormatJson => Some (json_of_map {["format" := json_of_map {["type" := json_string "json_object"]}]})
  | Some (FormatSchema schema) =>
    Some (json_of_map {["format" := json_of_map
      (<["type" := json_string "json_schema"]> (<["name" := json_string "response"]>
        (<["strict" := json_bool true]> {["schema" := schema]})))]})
  | None => None
  end.

(** @src adapters/src/responses.rs:83-89 [ResponsesTool] *)
Record ResponsesTool := MkResponsesTool { rt_type : string; rt_name : string; rt_description : string; rt_parameters : Value; rt_strict : bool }.

(** @src adapters/src/responses.rs:194-207 [build_tools] *)
Definition build_tools (schemas : list ToolSchema) : list ResponsesTool * option string :=
  let tools := map (fun s => MkResponsesTool "function" (ts_name s) (ts_description s) (ts_parameters s) false) schemas in
  (tools, if is_nil tools then None else Some "auto").

(** @src adapters/src/responses.rs:98-123 [ResponsesRequest] *)
Record ResponsesRequest := MkResponsesRequest {
  rr_model : string;
  rr_instructions : string;
  rr_input : list InputItem;
  rr_stream : bool;
  rr_store : bool;
  rr_temperature : option f64;
  rr_max_output_tokens : option N;
  rr_top_p : option f64;
  rr_reasoning : option string;
  rr_text : option Value;
  rr_tools : list ResponsesTool;
  rr_tool_choice : option string;
  rr_extra : gmap string Value;
}.

Definition DEFAULT_INSTRUCTIONS : string := "You are a helpful assistant.".

Definition TYPED_KEYS : list string :=
  ["model"; "instructions"; "input"; "stream"; "store"; "temperature"; "max_output_tokens"; "top_p"; "reasoning";
   "text"; "tools"; "tool_choice"].

(** @src adapters/src/responses.rs:252-301 [build_request] *)
Definition build_request (model : ModelSpec) (system_prompt : string) (messages : list AgentMessage) (schemas : list ToolSchema)
    (options : StreamOptions) : ResponsesRequest :=
  let '(tools, tool_choice) := build_tools schemas in
  {| rr_model := ms_model_id model;
     rr_instructions := if trim_is_empty system_prompt then DEFAULT_INSTRUCTIONS else system_prompt;
     rr_input := concat (convert_messages (C := ResponsesConverter) messages system_prompt);
     rr_stream := true;
     rr_store := false;
     rr_temperature := opt_temperature options;
     rr_max_output_tokens := opt_max_tokens options;
     rr_top_p := so_top_p (opt_serving options);
     rr_reasoning := resolve_effort model options;
     rr_text := text_format options;
     rr_tools := tools;
     rr_tool_choice := tool_choice;
     rr_extra := merge_extra ∅ (so_extra (opt_serving options)) TYPED_KEYS |}.

(** ** Payloads *)

(** @src adapters/src/responses.rs:330-341 [OutputItem] *)
Record OutputItem := MkOutputItem {
  oi_type : string;
  oi_id : option string;
  oi_call_id : option string;
  oi_name : option string;
  oi_arguments : option string;
}.

(** @src adapters/src/responses.rs:359-365 [ErrorObject] *)
Record ErrorObject := MkErrorObject { eo_code : option string; eo_message : option string }.

(** @src adapters/src/responses.rs:367-379 [ResponsesUsage] *)
Record ResponsesUsage := MkResponsesUsage {
  input_tokens : N;
  output_tokens : N;
  total_tokens : option N;
  input_tokens_details : gmap string Value;
  output_tokens_details : gmap string Value;
}.

(** [incomplete_details]: its reason.
    @src adapters/src/responses.rs:343-357 [ResponseObject, IncompleteDetails (brace)] *)
Record ResponseObject := MkResponseObject {
  ro_usage : option ResponsesUsage;
  ro_incomplete_reason : option string;
  ro_error : option ErrorObject;
}.

(** @src adapters/src/responses.rs:308-328 [StreamPayload] *)
Record StreamPayload := MkStreamPayload {
  sp_output_index : option nat;
  sp_delta : option string;
  sp_arguments : option string;
  sp_item : option OutputItem;
  sp_response : option ResponseObject;
  sp_code : option string;
  sp_message : option string;
  sp_error : option ErrorObject;
}.

Definition detail_entries (prefix : string) (details : gmap string Value) : list (string * N) :=
  filtermap (fun '(key, value) => (fun n => ((prefix ++ "." ++ key)%string, n)) <$> json_as_u64 value) (map_to_list details).

(** @src adapters/src/responses.rs:387-415 [ResponsesUsage::to_usage] *)
Definition to_usage (u : ResponsesUsage) : Usage :=
  let cached := N.min (default 0%N (input_tokens_details u !! "cached_tokens" ≫= json_as_u64)) (input_tokens u) in
  let extra := foldl (fun extra '(key, n) => <[key := n]> extra) ∅
    (detail_entries "input_tokens_details" (input_tokens_details u) ++ detail_entries "output_tokens_details" (output_tokens_details u)) in
  MkUsage (input_tokens u - cached) (output_tokens u) cached 0
    (default (u64_add (input_tokens u) (output_tokens u)) (total_tokens u)) extra.

(** ** State *)

(** @src adapters/src/responses.rs:420-425 [ToolEntry] *)
Record ToolEntry := MkToolEntry { te_content_index : nat; te_streamed : nat }.

(** @src adapters/src/responses.rs:427-437 [ResponsesState] *)
Record ResponsesState := MkState {
  blocks : BlockAccumulator;
  tools : gmap nat ToolEntry;
  saw_tool_call : bool;
  usage : option Usage;
  finished : bool;
}.

Definition state_default : ResponsesState := MkState new ∅ false None false.
Definition put_blocks (b : BlockAccumulator) (s : ResponsesState) : ResponsesState :=
  MkState b (tools s) (saw_tool_call s) (usage s) (finished s).
Definition put_tools (m : gmap nat ToolEntry) (s : ResponsesState) : ResponsesState :=
  MkState (blocks s) m (saw_tool_call s) (usage s) (finished s).
Definition put_usage (u : option Usage) (s : ResponsesState) : ResponsesState :=
  MkState (blocks s) (tools s) (saw_tool_call s) u (finished s).
Definition put_finished (s : ResponsesState) : ResponsesState :=
  MkState (blocks s) (tools s) (saw_tool_call s) (usage s) true.

#[local] Abbreviation M := (Emit ResponsesState).
#[local] Abbreviation on_blocks := (block_op blocks put_blocks).

(** @src adapters/src/responses.rs:440-443 [ResponsesState::drain_open_blocks] *)
Definition finalize : M unit := emodify (put_tools ∅) ;;~ close_blocks blocks put_blocks.

(** @src adapters/src/responses.rs:447-452 [ResponsesState::terminal] *)
Definition terminal (event : AssistantMessageEvent) : M unit := emodify put_finished ;;~ finalize ;;~ push [event].

(** @src adapters/src/responses.rs:454-461 [ResponsesState::done] *)
Definition done_ (stop_reason : StopReason) : M unit :=
  s <~ eget ;;
  emodify (put_usage None) ;;~ terminal (Done stop_reason (default usage_default (usage s)) cost_default).

(** The call opened; the error when it has no name.
    @src adapters/src/responses.rs:463-500 [ResponsesState::open_tool_call] *)
Definition open_call (output_index : nat) (item : OutputItem) (provider : string) : M (result unit string) :=
  s <~ eget ;;
  match tools s !! output_index with
  | Some _ => eret (Ok tt)
  | None =>
    match oi_name item with
    | Some name =>
      if trim_is_empty name then
        eret (Err (provider ++ " function_call output item at index " ++ pretty output_index ++ " is missing a non-empty name")%string)
      else
        on_blocks (fun b => close_thinking b None) ;;~
        on_blocks close_text ;;~
        s <~ eget ;;
        let id := match oi_call_id item with
                  | Some id => id
                  | None => default ("call_" ++ pretty output_index)%string (oi_id item)
                  end in
        let '((content_index, start), b) := open_tool_call (blocks s) id name in
        eput (MkState b (<[output_index := MkToolEntry content_index 0]> (tools s)) true (usage s) (finished s)) ;;~
        push [start] ;;~ eret (Ok tt)
    | None =>
      eret (Err (provider ++ " function_call output item at index " ++ pretty output_index ++ " is missing a non-empty name")%string)
    end
  end.

(** ** Events *)

(** The arguments sent, and how many bytes of them. *)
Definition send_arguments (index : nat) (entry : ToolEntry) (streamed : nat) (arguments : string) : M unit :=
  emodify (fun s => put_tools (<[index := MkToolEntry (te_content_index entry) streamed]> (tools s)) s) ;;~
  push [tool_call_delta (te_content_index entry) arguments].

Definition nonempty (s : option string) : option string :=
  s ≫= fun s => if str_is_empty s then None else Some s.

(** An event that does not end the stream; the error if it does after all. *)
Definition on_item_added (payload : StreamPayload) (provider : string) : M (result unit string) :=
  match sp_item payload with
  | Some item =>
    if String.eqb (oi_type item) "function_call" then open_call (default 0 (sp_output_index payload)) item provider
    else eret (Ok tt)
  | None => eret (Ok tt)
  end.

Definition on_text_delta_event (payload : StreamPayload) : M unit :=
  match nonempty (sp_delta payload) with
  | Some delta =>
    on_blocks (fun b => close_thinking b None) ;;~
    (on_blocks ensure_text_open ;;~ on_blocks (fun b => (text_delta b delta, b)))
  | None => eret tt
  end.

Definition on_reasoning_delta (payload : StreamPayload) : M unit :=
  match nonempty (sp_delta payload) with
  | Some delta => on_blocks ensure_thinking_open ;;~ on_blocks (fun b => (thinking_delta b delta, b))
  | None => eret tt
  end.

Definition on_arguments_delta (payload : StreamPayload) : M unit :=
  s <~ eget ;;
  match sp_output_index payload, nonempty (sp_delta payload) with
  | Some index, Some delta =>
    match tools s !! index with
    | Some entry => send_arguments index entry (te_streamed entry + String.length delta) delta
    | None => eret tt
    end
  | _, _ => eret tt
  end.

Definition on_arguments_done (payload : StreamPayload) : M unit :=
  s <~ eget ;;
  match sp_output_index payload, nonempty (sp_arguments payload) with
  | Some index, Some arguments =>
    match tools s !! index with
    | Some entry => if (te_streamed entry =? 0)%nat then send_arguments index entry (String.length arguments) arguments else eret tt
    | None => eret tt
    end
  | _, _ => eret tt
  end.

Definition close_call (index : nat) : M unit :=
  s <~ eget ;;
  match tools s !! index with
  | Some entry =>
    emodify (fun s => put_tools (delete index (tools s)) s) ;;~ on_blocks (fun b => close_tool_call b (te_content_index entry))
  | None => eret tt
  end.

Definition send_late (index : nat) (item : OutputItem) : M (result unit string) :=
  s <~ eget ;;
  match tools s !! index, nonempty (oi_arguments item) with
  | Some entry, Some arguments => send_arguments index entry (String.length arguments) arguments ;;~ eret (Ok tt)
  | _, _ => eret (Ok tt)
  end.

(** A call that arrives only now. *)
Definition late_call (index : nat) (item : OutputItem) (provider : string) : M (result unit string) :=
  s <~ eget ;;
  match tools s !! index with
  | Some _ => eret (Ok tt)
  | None =>
    r <~ open_call index item provider ;;
    match r with Err message => eret (Err message) | Ok _ => send_late index item end
  end.

Definition on_item_done (payload : StreamPayload) (provider : string) : M (result unit string) :=
  match sp_item payload with
  | Some item =>
    if String.eqb (oi_type item) "function_call" then
      let index := default 0 (sp_output_index payload) in
      r <~ late_call index item provider ;;
      match r with Err message => eret (Err message) | Ok _ => close_call index ;;~ eret (Ok tt) end
    else if String.eqb (oi_type item) "message" then on_blocks close_text ;;~ eret (Ok tt)
    else if String.eqb (oi_type item) "reasoning" then on_blocks (fun b => close_thinking b None) ;;~ eret (Ok tt)
    else eret (Ok tt)
  | None => eret (Ok tt)
  end.

(** @src adapters/src/responses.rs:689-696 [error_detail] *)
Definition error_detail (code message : option string) : string :=
  match code, message with
  | Some code, Some message => ("error " ++ code ++ ": " ++ message)%string
  | Some code, None => ("error " ++ code)%string
  | None, Some message => ("error: " ++ message)%string
  | None, None => "error"
  end.

Definition error_event (code message : option string) (provider detail : string) : AssistantMessageEvent :=
  default (event_error (provider ++ " " ++ detail)%string) (classify_oai_error_fields code message provider "" detail).

Definition response_usage (payload : StreamPayload) : option Usage :=
  sp_response payload ≫= fun r => to_usage <$> ro_usage r.

Definition payload_error (payload : StreamPayload) : option string * option string :=
  match sp_error payload with Some e => (eo_code e, eo_message e) | None => (sp_code payload, sp_message payload) end.

(** What an event does: go on, perhaps with an error after all, or end the stream. *)
Inductive Handling :=
| Goes (m : M (result unit string))
| Ends (m : M unit).

Definition handle_event (event_type : string) (payload : StreamPayload) (provider : string) : Handling :=
  let ev_is ty := String.eqb event_type ty in
  if ev_is "response.output_item.added" then Goes (on_item_added payload provider)
  else if ev_is "response.output_text.delta" then Goes (on_text_delta_event payload ;;~ eret (Ok tt))
  else if (ev_is "response.reasoning_summary_text.delta" || ev_is "response.reasoning_text.delta")%bool
  then Goes (on_reasoning_delta payload ;;~ eret (Ok tt))
  else if ev_is "response.function_call_arguments.delta" then Goes (on_arguments_delta payload ;;~ eret (Ok tt))
  else if ev_is "response.function_call_arguments.done" then Goes (on_arguments_done payload ;;~ eret (Ok tt))
  else if ev_is "response.output_item.done" then Goes (on_item_done payload provider)
  else if ev_is "response.completed" then
    Ends (emodify (put_usage (response_usage payload)) ;;~ s <~ eget ;; done_ (if saw_tool_call s then ToolUse else Stop))
  else if ev_is "response.incomplete" then
    let reason := default "unknown" (sp_response payload ≫= ro_incomplete_reason) in
    Ends (emodify (put_usage (response_usage payload)) ;;~
          if String.eqb reason "max_output_tokens" then done_ Length
          else if String.eqb reason "content_filter"
          then terminal (event_error_content_filtered (provider ++ " response stopped by content filter")%string)
          else terminal (event_error (provider ++ " response incomplete with unrecognized reason `" ++ reason ++ "`")%string))
  else if ev_is "response.failed" then
    let error := sp_response payload ≫= ro_error in
    let code := error ≫= eo_code in
    let message := error ≫= eo_message in
    let detail := match code, message with None, None => "response failed" | _, _ => error_detail code message end in
    Ends (terminal (error_event code message provider detail))
  else if ev_is "error" then
    let '(code, message) := payload_error payload in
    Ends (terminal (error_event code message provider (error_detail code message)))
  else Goes (eret (Ok tt)).

Definition finish (m : M unit) (s : ResponsesState) : SseAction * ResponsesState :=
  let '((_, es), s) := m s in (Finish es, s).

(** The events pushed before an error are given up: there are none.
    @src adapters/src/responses.rs:503-686 [ResponsesState::on_event] *)
Definition on_event (event_type : string) (payload : StreamPayload) (provider : string) (s : ResponsesState) : SseAction * ResponsesState :=
  match handle_event event_type payload provider with
  | Ends m => finish m s
  | Goes m =>
    let '((r, events), s) := m s in
    match r with
    | Err message => finish (terminal (event_error message)) s
    | Ok _ => (if is_nil events then Skip else Continue events, s)
    end
  end.

Context (parse_payload : string -> result StreamPayload string) (provider : string).

(** @src adapters/src/responses.rs:712-745 [parse_responses_sse_stream, on_item (brace)] *)
Definition on_item (item : option SseEvent) (s : ResponsesState) : SseAction * ResponsesState :=
  match item with
  | None =>
    if finished s then (Finish [], s)
    else finish (terminal (event_error_network (provider ++ " stream ended unexpectedly")%string)) s
  | Some event =>
    if String.eqb (event_type event) SSE_TRANSPORT_ERROR_EVENT
    then finish (terminal (event_error_network (provider ++ " " ++ ev_data event)%string)) s
    else if String.eqb (event_type event) SSE_PROTOCOL_ERROR_EVENT
    then finish (terminal (event_error (provider ++ " " ++ ev_data event)%string)) s
    else match parse_payload (ev_data event) with
         | Err e => finish (terminal (event_error (provider ++ " JSON parse error: " ++ e)%string)) s
         | Ok payload => on_event (event_type event) payload provider s
         end
  end.

Definition responses_adapter : Adapter ResponsesState SseEvent :=
  sse_adapter (fun s => fst (finalize_blocks (blocks s))) "operation cancelled" on_item.

(** @src adapters/src/responses.rs:699-747 [parse_responses_sse_stream] *)
Definition parse_responses_sse_stream (cancel : option nat) (bytes : list (result string string)) : option (list AssistantMessageEvent) :=
  adapter_stream responses_adapter cancel (sse_paired_events bytes) state_default.

(** ** What the handler keeps *)

#[local] Abbreviation tracks := (Adapter.tracks blocks).
#[local] Abbreviation is_error := is_error_event.

(** The calls noted are open, each under its own index. *)
Record going (s : ResponsesState) : Prop := {
  going_open i e : tools s !! i = Some e -> te_content_index e ∈ open_tool_calls (blocks s);
  going_own i j e e' : tools s !! i = Some e -> tools s !! j = Some e' -> te_content_index e = te_content_index e' -> i = j;
  going_known : Forall (fun i => i < next_index (blocks s)) (open_tool_calls (blocks s));
  going_once : NoDup (open_tool_calls (blocks s));
  going_on : finished s = false;
}.

#[local] Abbreviation tells := (Adapter.tells going).

Lemma resp_blocks_put b s : blocks (put_blocks b s) = b.
Proof. done. Qed.

Lemma resp_going_put b s :
  going s -> open_tool_calls b = open_tool_calls (blocks s) -> next_index (blocks s) <= next_index b -> going (put_blocks b s).
Proof.
  intros [Ho Hw Hk Hd Hf] Hb Hn. split; cbn; rewrite ?Hb; [done..| |done|done].
  eapply Forall_impl; [exact Hk|]. cbn. lia.
Qed.
#[local] Hint Resolve resp_blocks_put resp_going_put : core.

(** The entry of an open call updated. *)
Lemma send_arguments_tells index e streamed arguments :
  tracks (fun s => going s /\ tools s !! index = Some e) (send_arguments index e streamed arguments) (tells []).
Proof.
  intros s [[Ho Hw Hk Hd Hf] He]. unfold send_arguments, ebind, emodify, push. cbn. split.
  - exists [OpToolDelta (te_content_index e) arguments]. split; [|done]. cbn. rewrite andb_true_r. apply bool_decide_eq_true. by eapply Ho.
  - split; [done|]. split; cbn; [| |done..].
    + intros i e'. rewrite lookup_insert_Some. intros [[<- <-]|[_ Hi]]; cbn; by eapply Ho.
    + intros i j e1 e2. rewrite !lookup_insert_Some. intros [[<- <-]|[Hi Hi']] [[<- <-]|[Hj Hj']]; cbn; try done; intros Heq; by eapply Hw.
Qed.

(** A call opened gets an entry of its own. *)
Lemma open_new_tells index id name s :
  going s -> tools s !! index = None ->
  let '((content_index, start), b) := open_tool_call (blocks s) id name in
  emits (blocks s) [start] b /\ going (MkState b (<[index := MkToolEntry content_index 0]> (tools s)) true (usage s) (finished s)).
Proof.
  intros [Ho Hw Hk Hd Hf] Hi. destruct s as [[n tx th tc] m saw us fin]. cbn in *. split; [by exists [OpOpenTool id name]|].
  rewrite Forall_forall in Hk. split; cbn.
  - intros i e. rewrite lookup_insert_Some, elem_of_app. intros [[<- <-]|[_ H]]; cbn; [right; by apply list_elem_of_singleton|left; by eapply Ho].
  - intros i j e e'. rewrite !lookup_insert_Some. intros [[<- <-]|[Hni H1]] [[<- <-]|[Hnj H2]]; cbn; try done; intros Heq.
    + specialize (Hk _ (Ho _ _ H2)). lia.
    + specialize (Hk _ (Ho _ _ H1)). lia.
    + by eapply Hw.
  - apply Forall_app. split; [|by repeat constructor; lia]. apply Forall_forall. intros i H. specialize (Hk i H). lia.
  - apply NoDup_app. split; [done|]. split; [|by apply NoDup_singleton]. intros i H. rewrite list_elem_of_singleton. intros ->. specialize (Hk n H). lia.
  - done.
Qed.

Lemma resp_open_call_tells index item :
  tracks going (open_call index item provider) (fun r t s => t = [] /\ going s).
Proof.
  unfold open_call. apply tracks_read. intros s Hs. destruct (tools s !! index) as [e|] eqn:Hi; [apply tracks_ret; by intros ? <-|].
  destruct (oi_name item) as [name|]; [|apply tracks_ret; by intros ? <-].
  destruct (trim_is_empty name); [apply tracks_ret; by intros ? <-|].
  apply (tracks_conseq (fun s => going s /\ tools s !! index = None) _ _ (fun r t s => t = [] /\ going s)); [|by intros ? <-|done].
  assert (forall f, (forall s, going s -> tools s !! index = None -> True) -> tracks going (on_blocks f) (tells []) ->
    tracks (fun s => going s /\ tools s !! index = None) (on_blocks f) (fun _ t s => t = [] /\ going s /\ tools s !! index = None)) as Hkeep.
  { intros f _ Hf s' [Hs' Hn]. specialize (Hf s' Hs'). revert Hf. unfold block_op. destruct (f (blocks s')) as [e b]. intros (? & ? & ?). done. }
  eapply (tracks_seq _ _ [] (fun _ s => going s /\ tools s !! index = None)).
  { apply Hkeep; [done|]. apply close_thinking_tells; auto. }
  intros _. eapply (tracks_seq _ _ [] (fun _ s => going s /\ tools s !! index = None)).
  { apply Hkeep; [done|]. apply close_text_tells; auto. }
  intros _. intros s1 [Hs1 Hn1]. unfold ebind at 1, eget.
  pose proof (open_new_tells index (match oi_call_id item with Some id => id | None => default ("call_" ++ pretty index)%string (oi_id item) end) name s1 Hs1 Hn1) as H.
  destruct (open_tool_call _ _ _) as [[ci start] b] eqn:Hop. unfold ebind, eput, push, eret. cbn. destruct H as [He Hg].
  split; [exact He|]. split; [|exact Hg]. unfold open_tool_call in Hop. destruct (alloc_index _). by injection Hop as <- <- <-.
Qed.

Lemma close_call_tells index : tracks going (close_call index) (tells []).
Proof.
  unfold close_call. apply tracks_read. intros s Hs. destruct (tools s !! index) as [e|] eqn:Hi; [|apply tracks_ret; by intros ? <-].
  intros ? <-. unfold ebind, emodify, block_op. cbn [blocks put_tools].
  pose proof (emits_op (blocks s) (OpCloseTool (te_content_index e)) eq_refl) as He. cbn [run_op] in He.
  destruct Hs as [Ho Hw Hk Hd Hf]. unfold close_tool_call in *.
  destruct (position (Nat.eqb (te_content_index e)) (open_tool_calls (blocks s))) as [pos|] eqn:Hp; cbn in He |- *.
  - split; [exact He|]. split; [done|]. apply position_Some in Hp as (x & Hx & <-%Nat.eqb_eq).
    pose proof (fun i => elem_of_vec_remove _ _ i _ Hd Hx) as Hrem. split; cbn.
    + intros i e'. rewrite lookup_delete_Some, Hrem. intros [Hne H]. split; [by eapply Ho|]. intros Heq. apply Hne. by eapply Hw.
    + intros i j e1 e2. rewrite !lookup_delete_Some. intros [_ ?] [_ ?]. by eapply Hw.
    + rewrite Forall_forall in Hk. apply Forall_forall. intros i. rewrite Hrem. intros [H _]. by apply Hk.
    + by eapply NoDup_vec_remove.
    + done.
  - exfalso. apply position_None in Hp. rewrite Forall_forall in Hp. specialize (Hp _ (Ho _ _ Hi)). by rewrite Nat.eqb_refl in Hp.
Qed.

(** ** Events that go on *)

(** What an event says. *)
Definition event_texts (ty : string) (payload : StreamPayload) : list string :=
  if String.eqb ty "response.output_text.delta" then option_list (nonempty (sp_delta payload)) else [].

#[local] Abbreviation said := (fun texts (_ : result unit string) t s => t = texts /\ going s).

Lemma said_ok {A} (m : M A) texts : tracks going m (tells texts) -> tracks going (m ;;~ eret (Ok tt)) (said texts).
Proof.
  intros Hm. eapply (tracks_seq _ _ texts (fun _ => going)); [exact Hm|]. intros _. apply tracks_ret.
  intros s Hs. by rewrite app_nil_r.
Qed.

Lemma late_call_tells index item : tracks going (late_call index item provider) (said []).
Proof.
  unfold late_call. apply tracks_read. intros s Hs. destruct (tools s !! index) as [e|]; [apply tracks_ret; by intros ? <-|].
  apply (tracks_conseq going (eq s) _ (said [])); [|by intros ? <-|done].
  eapply (tracks_seq _ _ [] (fun _ => going)); [apply resp_open_call_tells|].
  intros [[]|message]; [|by apply tracks_ret]. unfold send_late. apply tracks_read. intros s1 Hs1.
  destruct (tools s1 !! index) as [e|] eqn:Hi; [|apply tracks_ret; by intros ? <-].
  destruct (nonempty (oi_arguments item)) as [arguments|]; [|apply tracks_ret; by intros ? <-].
  eapply (tracks_seq _ _ [] (fun _ => going)); [|intros _; by apply tracks_ret].
  eapply tracks_conseq; [apply (send_arguments_tells index e)|by intros ? <-|done].
Qed.

Lemma on_item_done_tells payload : tracks going (on_item_done payload provider) (said []).
Proof.
  unfold on_item_done. destruct (sp_item payload) as [item|]; [|by apply tracks_ret].
  destruct (String.eqb (oi_type item) "function_call").
  { eapply (tracks_seq _ _ [] (fun _ => going)); [apply late_call_tells|].
    intros [[]|message]; [|by apply tracks_ret]. apply said_ok, close_call_tells. }
  destruct (String.eqb (oi_type item) "message"); [apply said_ok, close_text_tells; auto|].
  destruct (String.eqb (oi_type item) "reasoning"); [apply said_ok, close_thinking_tells; auto|by apply tracks_ret].
Qed.

Lemma on_arguments_tells (payload : StreamPayload) (piece : option string) streamed (ok : ToolEntry -> bool) :
  tracks going
    (s <~ eget ;;
     match sp_output_index payload, piece with
     | Some index, Some arguments =>
       match tools s !! index with
       | Some entry => if ok entry then send_arguments index entry (streamed entry arguments) arguments else eret tt
       | None => eret tt
       end
     | _, _ => eret tt
     end) (tells []).
Proof.
  apply tracks_read. intros s Hs. destruct (sp_output_index payload) as [index|]; [|apply tracks_ret; by intros ? <-].
  destruct piece as [arguments|]; [|apply tracks_ret; by intros ? <-].
  destruct (tools s !! index) as [e|] eqn:Hi; [|apply tracks_ret; by intros ? <-].
  destruct (ok e); [|apply tracks_ret; by intros ? <-].
  eapply tracks_conseq; [apply (send_arguments_tells index e)|by intros ? <-|done].
Qed.

Lemma on_text_delta_tells payload : tracks going (on_text_delta_event payload) (tells (option_list (nonempty (sp_delta payload)))).
Proof.
  unfold on_text_delta_event. destruct (nonempty (sp_delta payload)) as [delta|]; [|by apply tracks_ret].
  eapply (tracks_seq _ _ [] (fun _ => going)); [apply close_thinking_tells; auto|intros _; apply text_tells; auto].
Qed.

Lemma on_reasoning_tells payload : tracks going (on_reasoning_delta payload) (tells []).
Proof.
  unfold on_reasoning_delta. destruct (nonempty (sp_delta payload)) as [delta|]; [|by apply tracks_ret].
  eapply (tracks_seq _ _ [] (fun _ => going)); [apply ensure_thinking_tells; auto|intros _; apply thinking_delta_tells; auto].
Qed.

(** ** Events that end the stream *)

Lemma finalize_goes s : let '((_, es), s') := finalize s in
  es = fst (finalize_blocks (blocks s)) /\ usage s' = usage s.
Proof. unfold finalize, close_blocks, ebind, emodify. cbn. by destruct (finalize_blocks (blocks s)). Qed.

Lemma terminal_events e s : is_terminal e = true -> finish (terminal e) s = (Finish (fst (finalize_blocks (blocks s)) ++ [e]), snd (finish (terminal e) s))
  /\ closes (blocks s) (fst (finalize_blocks (blocks s)) ++ [e]) e.
Proof.
  intros He. split; [|by apply closes_now]. unfold finish, terminal. unfold ebind, emodify, push.
  pose proof (finalize_goes (put_finished s)) as H. destruct (finalize (put_finished s)) as [[x es] s']. destruct H as [-> _]. done.
Qed.

(** The message completes. *)
Definition completes (ty : string) (payload : StreamPayload) : option (bool -> StopReason) :=
  if String.eqb ty "response.completed" then Some (fun saw : bool => if saw then ToolUse else Stop)
  else if (String.eqb ty "response.incomplete" && bool_decide (sp_response payload ≫= ro_incomplete_reason = Some "max_output_tokens"))%bool
  then Some (fun _ : bool => Length)
  else None.

Definition final_usage (payload : StreamPayload) : Usage := default usage_default (response_usage payload).

Lemma done_events stop u s :
  finish (emodify (put_usage u) ;;~ done_ stop) s
  = (Finish (fst (finalize_blocks (blocks s)) ++ [Done stop (default usage_default u) cost_default]),
     snd (finish (emodify (put_usage u) ;;~ done_ stop) s)).
Proof.
  unfold finish, done_, terminal, ebind, emodify, push, eget. cbn [usage put_usage].
  pose proof (finalize_goes (put_finished (put_usage None (put_usage u s)))) as H. destruct (finalize _) as [[x es] s']. by destruct H as [-> _].
Qed.

Lemma error_event_is_error code message detail : is_error (error_event code message provider detail) = true.
Proof.
  unfold error_event, classify_oai_error_fields. cbn zeta.
  repeat (match goal with |- context [if ?c then _ else _] => destruct c end; [done|]). done.
Qed.

Definition goes_on (ty : string) (payload : StreamPayload) (m : M (result unit string)) : Prop :=
  completes ty payload = None /\ tracks going m (said (event_texts ty payload)).

(** Ending, with an error or with the message complete. *)
Definition ends_with (ty : string) (payload : StreamPayload) (m : M unit) : Prop :=
  forall s, exists s' t, finish m s = (Finish (fst (finalize_blocks (blocks s)) ++ [t]), s') /\ is_terminal t = true
    /\ (is_error t = true \/ exists stop, completes ty payload = Some stop /\ t = Done (stop (saw_tool_call s)) (final_usage payload) cost_default).

Lemma terminal_ends ty payload e : is_error e = true -> ends_with ty payload (terminal e).
Proof.
  intros He s. assert (is_terminal e = true) as Ht by (by destruct e). destruct (terminal_events e s Ht) as [-> _]. eauto 6.
Qed.

Lemma usage_terminal_ends ty payload u e : is_error e = true -> ends_with ty payload (emodify (put_usage u) ;;~ terminal e).
Proof.
  intros He s. assert (is_terminal e = true) as Ht by (by destruct e).
  destruct (terminal_events e (put_usage u s) Ht) as [Hf _]. exists (snd (finish (terminal e) (put_usage u s))), e.
  split; [|by auto]. etrans; [|exact Hf]. unfold finish, ebind at 1, emodify at 1. by destruct (terminal e (put_usage u s)) as [[? ?] ?].
Qed.

Lemma handle_event_spec ty payload :
  match handle_event ty payload provider with
  | Goes m => goes_on ty payload m
  | Ends m => ends_with ty payload m
  end.
Proof.
  unfold handle_event. destruct (String.eqb_spec ty "response.output_item.added") as [->|_].
  { split; [done|]. unfold on_item_added. destruct (sp_item payload) as [item|]; [|by apply tracks_ret].
    destruct (String.eqb (oi_type item) "function_call"); [apply resp_open_call_tells|by apply tracks_ret]. }
  destruct (String.eqb_spec ty "response.output_text.delta") as [->|Htext]; [split; [done|apply said_ok, on_text_delta_tells]|].
  assert (event_texts ty payload = []) as Hno by (unfold event_texts; by destruct (String.eqb_spec ty "response.output_text.delta")).
  destruct (_ || _)%bool eqn:Hreason.
  { split; [apply orb_true_iff in Hreason as [->%String.eqb_eq| ->%String.eqb_eq]; done|].
    rewrite Hno. apply said_ok, on_reasoning_tells. }
  destruct (String.eqb_spec ty "response.function_call_arguments.delta") as [->|_].
  { split; [done|]. apply said_ok. exact (on_arguments_tells payload _ (fun e d => te_streamed e + String.length d) (fun _ => true)). }
  destruct (String.eqb_spec ty "response.function_call_arguments.done") as [->|_].
  { split; [done|]. apply said_ok. exact (on_arguments_tells payload _ (fun _ d => String.length d) (fun e => te_streamed e =? 0)%nat). }
  destruct (String.eqb_spec ty "response.output_item.done") as [->|_]; [split; [done|apply on_item_done_tells]|].
  destruct (String.eqb_spec ty "response.completed") as [->|Hc].
  { intros s. pose proof (done_events (if saw_tool_call s then ToolUse else Stop) (response_usage payload) s) as H.
    set (m := emodify (put_usage (response_usage payload)) ;;~ done_ (if saw_tool_call s then ToolUse else Stop)) in H.
    exists (snd (finish m s)), (Done (if saw_tool_call s then ToolUse else Stop) (final_usage payload) cost_default).
    split; [transitivity (finish m s); [done|exact H]|]. split; [done|]. right. by eexists. }
  destruct (String.eqb_spec ty "response.incomplete") as [->|Hi].
  { set (reason := sp_response payload ≫= ro_incomplete_reason).
    destruct (String.eqb_spec (default "unknown" reason) "max_output_tokens") as [Hr|_].
    - assert (reason = Some "max_output_tokens") as Hr' by (destruct reason; cbn in Hr; congruence).
      intros s. do 2 eexists. split; [apply done_events|]. split; [done|]. right. exists (fun _ => Length). split; [|reflexivity].
      unfold completes. cbn. fold reason. by rewrite bool_decide_true.
    - destruct (String.eqb (default "unknown" reason) "content_filter"); by apply usage_terminal_ends. }
  destruct (String.eqb ty "response.failed"); [apply terminal_ends, error_event_is_error|].
  destruct (String.eqb ty "error").
  { destruct (payload_error payload) as [code message]. apply terminal_ends, error_event_is_error. }
  split; [|rewrite Hno; by apply tracks_ret]. unfold completes.
  destruct (String.eqb_spec ty "response.completed"); [done|]. by destruct (String.eqb_spec ty "response.incomplete").
Qed.

(** ** Calls seen *)

Definition is_call (e : AssistantMessageEvent) : bool := match e with ToolCallStart _ _ _ => true | _ => false end.

(** The flag says whether a call was started. *)
Definition saws {A} (m : M A) : Prop :=
  forall s, saw_tool_call (snd (m s)) = (saw_tool_call s || existsb is_call (events_of_run m s))%bool.

Lemma saws_ret {A} (x : A) : saws (eret x).
Proof. intros s. cbn. by rewrite orb_false_r. Qed.

Lemma saws_bind {A B} (m : M A) (k : A -> M B) : saws m -> (forall x, saws (k x)) -> saws (ebind m k).
Proof.
  intros Hm Hk s. specialize (Hm s). unfold events_of_run, ebind in *. destruct (m s) as [[x es] s1].
  specialize (Hk x s1). unfold events_of_run in Hk. destruct (k x s1) as [[y es'] s2]. cbn [fst snd] in *.
  by rewrite Hk, Hm, existsb_app, orb_assoc.
Qed.

Lemma saws_read {B} (k : ResponsesState -> M B) : (forall x, saws (k x)) -> saws (ebind eget k).
Proof. intros Hk. apply saws_bind; [|done]. intros s. cbn. by rewrite orb_false_r. Qed.

Lemma saws_block f : (forall b, existsb is_call (option_list (fst (f b))) = false) -> saws (on_blocks f).
Proof.
  intros Hf s. unfold events_of_run, block_op. specialize (Hf (blocks s)). destruct (f (blocks s)) as [e b]. cbn [fst snd] in *.
  by rewrite Hf, orb_false_r.
Qed.

Ltac quiet := apply saws_block; let n := fresh in let tx := fresh in let th := fresh in
  intros [n [tx|] [[th ?]|] ?]; reflexivity.

Lemma saws_close_call ci : saws (on_blocks (fun b => close_tool_call b ci)).
Proof. apply saws_block. intros b. unfold close_tool_call. by destruct (position _ _). Qed.

Lemma saws_arguments index e streamed arguments : saws (send_arguments index e streamed arguments).
Proof. intros s. cbn. by rewrite orb_false_r. Qed.

Lemma saws_open index item : saws (open_call index item provider).
Proof.
  unfold open_call. apply saws_read. intros s. destruct (tools s !! index); [apply saws_ret|].
  destruct (oi_name item) as [name|]; [|apply saws_ret]. destruct (trim_is_empty name); [apply saws_ret|].
  apply saws_bind; [quiet|intros _]. apply saws_bind; [quiet|intros _]. intros s1. unfold ebind at 1, eget.
  destruct (open_tool_call (blocks s1) _ name) as [[ci start] b] eqn:Hop.
  unfold open_tool_call in Hop. destruct (alloc_index _). injection Hop as <- <- <-. cbn. by rewrite orb_true_r.
Qed.

Create HintDb calls.
#[local] Hint Resolve saws_ret saws_close_call saws_arguments saws_open : calls.

Ltac saw_calls :=
  repeat (first
    [ solve [eauto with calls] | quiet
    | apply saws_read; intros ?
    | apply saws_bind; [|intros ?]
    | match goal with |- saws (match ?x with _ => _ end) => destruct x end ]).

Lemma handle_event_saws ty payload :
  match handle_event ty payload provider with Goes m => saws m | Ends _ => True end.
Proof.
  unfold handle_event.
  repeat match goal with |- match (if ?c then _ else _) with _ => _ end => destruct c; [try done|] end; try apply saws_ret;
    try (destruct (payload_error payload); done);
    unfold on_item_added, on_text_delta_event, on_reasoning_delta, on_arguments_delta, on_arguments_done, on_item_done, late_call, send_late, close_call;
    saw_calls; intros s; cbn; by rewrite orb_false_r.
Qed.

(** ** Errors after all

    They come before anything was pushed. *)
Definition fails_clean (m : M (result unit string)) : Prop :=
  forall s, match m s with ((Err _, es), s') => es = [] /\ blocks s' = blocks s | _ => True end.

Lemma clean_ok {A} (m : M A) : fails_clean (m ;;~ eret (Ok tt)).
Proof. intros s. unfold ebind. by destruct (m s) as [[x es] s']. Qed.

Lemma clean_open index item : fails_clean (open_call index item provider).
Proof.
  intros s. unfold open_call. unfold ebind at 1, eget at 1. destruct (tools s !! index); [done|].
  destruct (oi_name item) as [name|]; [|done]. destruct (trim_is_empty name); [done|].
  unfold ebind. destruct (on_blocks _ s) as [[x es] s1]. destruct (on_blocks _ s1) as [[x1 es1] s2]. unfold eget.
  by destruct (open_tool_call (blocks s2) _ name) as [[ci start] b].
Qed.

Lemma clean_bind (m : M (result unit string)) (k : M (result unit string)) :
  fails_clean m -> (forall s, fst (fst (k s)) = Ok tt) ->
  fails_clean (r <~ m ;; match r with Err message => eret (Err message) | Ok _ => k end).
Proof.
  intros Hm Hk s. specialize (Hm s). unfold ebind. destruct (m s) as [[[[]|message] es] s1].
  - specialize (Hk s1). destruct (k s1) as [[r es'] s2]. cbn in Hk. by subst r.
  - destruct Hm as [-> Hb]. done.
Qed.

Lemma clean_read (k : ResponsesState -> M (result unit string)) : (forall x, fails_clean (k x)) -> fails_clean (ebind eget k).
Proof. intros Hk s. specialize (Hk s s). unfold ebind, eget. by destruct (k s s) as [[[|] es] s']. Qed.

Lemma clean_late index item : fails_clean (late_call index item provider).
Proof.
  unfold late_call. apply clean_read. intros s. destruct (tools s !! index); [by intros s1|].
  apply (clean_bind (open_call index item provider) (send_late index item)); [apply clean_open|].
  intros s1. unfold send_late, ebind at 1, eget. destruct (tools s1 !! index) as [e|]; [|done]. by destruct (nonempty (oi_arguments item)).
Qed.

Lemma clean_done payload : fails_clean (on_item_done payload provider).
Proof.
  unfold on_item_done. destruct (sp_item payload) as [item|]; [|by intros s].
  destruct (String.eqb _ _).
  { assert (fails_clean (r <~ late_call (default 0 (sp_output_index payload)) item provider ;;
      match r with Err message => eret (Err message) | Ok _ => close_call (default 0 (sp_output_index payload)) ;;~ eret (Ok tt) end)) as H; [|exact H].
    apply clean_bind; [apply clean_late|]. intros s. unfold ebind. by destruct (close_call _ s) as [[x es] s']. }
  destruct (String.eqb _ _); [apply clean_ok|]. destruct (String.eqb _ _); [apply clean_ok|by intros s].
Qed.

Lemma handle_event_clean ty payload :
  match handle_event ty payload provider with Goes m => fails_clean m | Ends _ => True end.
Proof.
  unfold handle_event.
  repeat match goal with |- match (if ?c then _ else _) with _ => _ end => destruct c; [try done|] end;
    try apply clean_ok; try apply clean_done; try (destruct (payload_error payload); done); try (by intros s).
  unfold on_item_added. destruct (sp_item payload); [|by intros s]. destruct (String.eqb _ _); [apply clean_open|by intros s].
Qed.

Lemma finalize_no_call b : existsb is_call (fst (finalize_blocks b)) = false.
Proof. unfold finalize_blocks. destruct (drain_open_blocks b) as [l b']. cbn. by induction l as [|[] l IH]. Qed.

(** ** The handler *)

Definition reads (ev : SseEvent) (payload : StreamPayload) : Prop :=
  event_type ev <> SSE_TRANSPORT_ERROR_EVENT /\ event_type ev <> SSE_PROTOCOL_ERROR_EVENT /\ parse_payload (ev_data ev) = Ok payload.

Lemma resp_finish_error e s : is_error e = true ->
  exists es s', finish (terminal e) s = (Finish es, s') /\ closes (blocks s) es e.
Proof.
  intros He. destruct (terminal_events e s) as [-> Hc]; [by destruct e|]. by do 2 eexists.
Qed.

Lemma responses_line_spec ev s : going s ->
  match on_item (Some ev) s with
  | (Finish es, _) =>
    exists t, closes (blocks s) es t /\ text_chunks es = []
      /\ (is_error t = true \/ exists payload stop, reads ev payload /\ completes (event_type ev) payload = Some stop
             /\ t = Done (stop (saw_tool_call s)) (final_usage payload) cost_default /\ existsb is_call es = false)
  | (act, s') =>
    exists payload es, reads ev payload /\ completes (event_type ev) payload = None
      /\ (act = Continue es \/ act = Skip /\ es = [])
      /\ emits (blocks s) es (blocks s') /\ going s' /\ text_chunks es = event_texts (event_type ev) payload
      /\ saw_tool_call s' = (saw_tool_call s || existsb is_call es)%bool
  end.
Proof.
  intros Hs.
  assert (forall e, is_error e = true -> match finish (terminal e) s with
    | (Finish es, _) => exists t, closes (blocks s) es t /\ text_chunks es = []
      /\ (is_error t = true \/ exists payload stop, reads ev payload /\ completes (event_type ev) payload = Some stop
             /\ t = Done (stop (saw_tool_call s)) (final_usage payload) cost_default /\ existsb is_call es = false)
    | _ => False end) as Herr.
  { intros e He. assert (is_terminal e = true) as Ht by (by destruct e). destruct (terminal_events e s Ht) as [-> Hc].
    exists e. split; [done|]. split; [|by left]. by rewrite text_chunks_app, finalize_no_text, text_chunks_terminal. }
  cbn [on_item]. destruct (String.eqb_spec (event_type ev) SSE_TRANSPORT_ERROR_EVENT) as [_|Hn1].
  { specialize (Herr (event_error_network (provider ++ " " ++ ev_data ev)%string) eq_refl). by destruct (finish _ s) as [[]]. }
  destruct (String.eqb_spec (event_type ev) SSE_PROTOCOL_ERROR_EVENT) as [_|Hn2].
  { specialize (Herr (event_error (provider ++ " " ++ ev_data ev)%string) eq_refl). by destruct (finish _ s) as [[]]. }
  destruct (parse_payload (ev_data ev)) as [payload|e] eqn:Hp.
  2:{ specialize (Herr (event_error (provider ++ " JSON parse error: " ++ e)%string) eq_refl). by destruct (finish _ s) as [[]]. }
  assert (reads ev payload) as Hr by done. unfold on_event.
  pose proof (handle_event_spec (event_type ev) payload) as H. pose proof (handle_event_saws (event_type ev) payload) as Hw.
  destruct (handle_event (event_type ev) payload provider) as [m|m] eqn:Hev.
  - destruct H as [Hc Hm]. specialize (Hm s Hs). specialize (Hw s). unfold events_of_run in Hw.
    destruct (m s) as [[r es] s1] eqn:Hms. cbn [fst snd] in Hw. destruct Hm as (He & Htx & Hg). destruct r as [[]|message].
    + destruct es as [|e es]; cbn [is_nil]; exists payload; eexists; (do 2 (split; [done|])); (split; [by eauto|]); done.
    + pose proof (handle_event_clean (event_type ev) payload) as Hcl. rewrite Hev in Hcl. specialize (Hcl s). rewrite Hms in Hcl.
      destruct Hcl as [-> Hb]. destruct (terminal_events (event_error message) s1 eq_refl) as [-> Hcl].
      rewrite Hb in Hcl |- *. exists (event_error message). split; [done|]. split; [|by left].
      by rewrite text_chunks_app, finalize_no_text.
  - destruct (H s) as (s' & t & -> & Ht & Hcase). exists t. split; [by apply closes_now|].
    rewrite text_chunks_app, finalize_no_text, text_chunks_terminal by done. split; [done|].
    destruct Hcase as [?|(stop & Hc & ->)]; [by left|]. right. exists payload, stop. do 3 (split; [done|]).
    by rewrite existsb_app, finalize_no_call.
Qed.

#[export] Instance responses_sound : SoundAdapter responses_adapter.
Proof.
  refine (Build_SoundAdapter _ _ responses_adapter blocks going (fun _ _ => True) _ _ _).
  - intros s ev Hs _. pose proof (responses_line_spec ev s Hs) as H. change (Adapter.on_item responses_adapter) with on_item.
    destruct (on_item (Some ev) s) as [[es|es|] s'].
    + destruct H as (_ & es' & _ & _ & [[= ->]|[? _]] & He & Hg & _); done.
    + destruct H as (t & ? & _). by exists t.
    + destruct H as (_ & es' & _ & _ & [?|[_ ->]] & He & Hg & _); done.
  - intros s Hs. change (Adapter.on_item responses_adapter) with on_item. cbn [on_item]. rewrite (going_on s Hs).
    destruct (resp_finish_error (event_error_network (provider ++ " stream ended unexpectedly")%string) s eq_refl) as (es & s' & He & Hc).
    do 3 eexists. split; [exact He|exact Hc].
  - intros s _. eexists. exact (closes_now (blocks s) (cancelled_error "operation cancelled") eq_refl).
Defined.

Lemma going_default : going state_default.
Proof. split; cbn; try (intros *; by rewrite lookup_empty); [constructor..|done]. Qed.

Definition payload_texts (line : SseEvent * StreamPayload) : list string := event_texts (event_type (fst line)) (snd line).

(** The response so far: events read that do not complete it. *)
Definition so_far (lines : list SseEvent) (es : list AssistantMessageEvent) (s : ResponsesState) : Prop :=
  exists payloads, Forall2 reads lines payloads
    /\ text_chunks es = concat (map payload_texts (zip lines payloads)) /\ saw_tool_call s = existsb is_call es.

(** A whole response. *)
Definition whole (lines : list SseEvent) (es : list AssistantMessageEvent) : Prop :=
  exists before last payloads payload stop, lines = before ++ [last] /\ Forall2 reads before payloads
    /\ reads last payload /\ completes (event_type last) payload = Some stop
    /\ text_chunks es = concat (map payload_texts (zip before payloads))
    /\ exists mid, es = mid ++ [Done (stop (existsb is_call mid)) (final_usage payload) cost_default].

Lemma responses_follow lines es s ev : so_far lines es s -> going s ->
  match on_item (Some ev) s with
  | (Continue es', s') => so_far (lines ++ [ev]) (es ++ es') s'
  | (Finish es', _) => ends_well es' -> whole (lines ++ [ev]) (es ++ es')
  | (Skip, s') => so_far (lines ++ [ev]) es s'
  end.
Proof.
  intros (payloads & Hr & Ht & Hw) Hs. pose proof (responses_line_spec ev s Hs) as H.
  assert (forall payload es' s', reads ev payload -> text_chunks es' = event_texts (event_type ev) payload ->
    saw_tool_call s' = (saw_tool_call s || existsb is_call es')%bool -> so_far (lines ++ [ev]) (es ++ es') s') as Hgo.
  { intros payload es' s' Hev Htx Hw'. exists (payloads ++ [payload]). split; [apply Forall2_app; [done|by constructor]|].
    rewrite zip_with_app by (by eapply Forall2_length). rewrite map_app, concat_app, text_chunks_app, Ht, Htx.
    split; [cbn; by rewrite app_nil_r|]. by rewrite Hw', Hw, existsb_app. }
  destruct (on_item (Some ev) s) as [[es'|es'|] s'].
  - destruct H as (payload & es2 & Hev & _ & [[= <-]|[? _]] & _ & _ & Htx & Hw'); [|done]. by apply (Hgo payload).
  - intros Hwell. destruct H as (t & Hcl & Htx & Hcase).
    destruct Hwell as (mid & t' & Hes & Hnot). pose proof (closes_last _ _ _ _ _ Hcl Hes) as ->.
    destruct Hcase as [?|(payload & stop & Hev & Hc & -> & Hno)]; [congruence|].
    exists lines, ev, payloads, payload, stop. do 4 (split; [done|]).
    split; [by rewrite text_chunks_app, Htx, app_nil_r|]. exists (es ++ mid). rewrite Hes, app_assoc. do 3 f_equal.
    rewrite Hw, existsb_app. subst es'. rewrite existsb_app in Hno. apply orb_false_iff in Hno as [-> _]. by rewrite orb_false_r.
  - destruct H as (payload & es2 & Hev & _ & [?|[_ ->]] & _ & _ & Htx & Hw'); [done|].
    rewrite <- (app_nil_r es). by apply (Hgo payload).
Qed.

(** C22: the adapter of the Responses API implements the streaming contract from
    the bytes of the response on: whatever arrives - unknown events, calls without
    names, arguments for no call, errors, a broken connection, a cancellation - the
    stream ends and [accumulate_message] takes it, the only refusal being tool
    arguments that are not JSON.  A message without an error comes from events up
    to one that completes the response; it holds exactly their text deltas in
    order and the usage of the last one, and its stop reason says whether the
    response was cut or called tools. *)
Theorem responses_stream_contract cancel bytes now provider_name model :
  exists es, parse_responses_sse_stream cancel bytes = Some es
    /\ match accumulate_message now es provider_name model with
       | Err e => exists e', e = parse_error e'
       | Ok m =>
         am_error_message m = None ->
         exists before last after payloads payload stop,
           sse_paired_events bytes = before ++ last :: after
           /\ Forall2 reads before payloads /\ reads last payload
           /\ completes (event_type last) payload = Some stop
           /\ extract_text (am_content m) = concat_text (concat (map payload_texts (zip before payloads)))
           /\ am_usage m = final_usage payload /\ am_stop_reason m = stop (existsb is_call es)
       end.
Proof.
  unfold parse_responses_sse_stream. pose proof going_default as Hs.
  destruct (adapter_reads responses_adapter so_far whole) with (cancel := cancel) (lines := sse_paired_events bytes)
    (s := state_default) (now := now) (provider := provider_name) (model := model) as (es & Hes & Hm); [..|exists es; split; [exact Hes|]].
  - intros ls es s ev Hfar Hg _. by apply responses_follow.
  - intros ls es s es' s' _ Hg He (mid & t & Hes & Ht). change (Adapter.on_item responses_adapter) with on_item in He.
    cbn [on_item] in He. rewrite (going_on s Hg) in He.
    destruct (terminal_events (event_error_network (provider ++ " stream ended unexpectedly")%string) s eq_refl) as [Hf Hc].
    rewrite Hf in He. injection He as He _. subst es'. apply app_inj_tail in Hes as [_ <-]. done.
  - intros s _ (mid & t & He & Ht). cbn in He. by apply app_inj_tail in He as [_ <-].
  - by exists [].
  - done.
  - done.
  - clear. generalize state_default. induction (sse_paired_events bytes) as [|l lines IH]; intros s; [done|]. split; [done|].
    by destruct (Adapter.on_item responses_adapter (Some l) s) as [[]].
  - destruct (accumulate_message _ _ _ _) as [m|e]; [|exact Hm].
    intros Hne. destruct (Hm Hne) as (before & after & events & sr & c & Hl & Hev & HF & Hsr & Htx).
    destruct HF as (before' & last & payloads & payload & stop & -> & Hr & Hlast & Hc & Ht & mid & Hmid).
    apply app_inj_tail in Hmid as [<- Hdn]. injection Hdn as Hsr' Hu Hcost.
    exists before', last, after, payloads, payload, stop. split; [by rewrite Hl, <- app_assoc|]. do 3 (split; [done|]).
    rewrite text_chunks_app in Ht. cbn [text_chunks filtermap app] in Ht. rewrite app_nil_r in Ht.
    split; [by rewrite Htx, Ht|]. split; [done|]. rewrite Hsr, Hsr', Hev. cbn [existsb is_call orb]. rewrite existsb_app. cbn. by rewrite !orb_false_r.
Qed.

End Responses.

(** ** A response read *)
Section Toy.
#[local] Existing Instance Externals.Toy.ext.

Definition blank : StreamPayload := MkStreamPayload None None None None None None None None.

Definition call_item (arguments : option string) : StreamPayload :=
  MkStreamPayload (Some 0) None None (Some (MkOutputItem "function_call" None (Some "call_1") (Some "read") arguments)) None None None None.

(** Stands for serde_json on a few payloads. *)
Definition toy_parse (data : string) : result StreamPayload string :=
  if String.eqb data "hello" then Ok (MkStreamPayload None (Some "hello") None None None None None None)
  else if String.eqb data "call" then Ok (call_item None)
  else if String.eqb data "called" then Ok (call_item (Some "{path}"))
  else if String.eqb data "end" then Ok blank
  else Err "unexpected".

Definition toy_bytes (events : list (string * string)) : list (result string string) :=
  map (fun '(ty, data) => Ok ("event: " ++ ty ++ String LF ("data: " ++ data ++ String LF (String LF "")))%string) events.

Definition reading (events : list (string * string)) : option (list AssistantMessageEvent) :=
  parse_responses_sse_stream toy_parse "Responses" None (toy_bytes events).

Example resp_reading_hello :
  reading [("response.output_text.delta", "hello"); ("response.completed", "end")]
  = Some [Start; TextStart 0; TextDelta 0 "hello"; TextEnd 0; Done Stop usage_default cost_default].
Proof. vm_compute. done. Qed.

(** The arguments of a call are taken from its [output_item.done] only if it was
    not added before. *)
Lemma arguments_of_the_done_item_are_lost :
  reading [("response.output_item.done", "called"); ("response.completed", "end")]
  = Some [Start; ToolCallStart 0 "call_1" "read"; ToolCallDelta 0 "{path}"; ToolCallEnd 0; Done ToolUse usage_default cost_default]
  /\ reading [("response.output_item.added", "call"); ("response.output_item.done", "called"); ("response.completed", "end")]
  = Some [Start; ToolCallStart 0 "call_1" "read"; ToolCallEnd 0; Done ToolUse usage_default cost_default].
Proof. vm_compute. done. Qed.

End Toy.
End Responses.
