(* ===== verification/Transport.v ===== *)
(** * Requests to providers: [adapters/src/oai_transport.rs] and its likes

    What every adapter does around its parser: the request is sent, a refusal is
    classified from its status, headers and body, and an answer is parsed.
    [Exchange] is what can happen to a request; [Api] says which adapter makes it.
    The main theorem composes all of it with [accumulate_message] and the error
    classes of the loop. *)
From S2P Require Export Adapter Ollama Responses OaiCompatSpec Anthropic GoogleStream LoopWorld.
From Stdlib Require Import SpecFloat Ascii.
Open Scope string_scope.
Open Scope list_scope.

(** ** Durations *)

(** A duration has its seconds in a [u64]. *)
Definition duration_limit : N := (2 ^ 64 * 10 ^ 9)%N.

(** [m / d] rounded to the nearest number, a tie to the even one. *)
Definition round_div (m d : N) : N :=
  let '(q, r) := (m / d, m mod d)%N in
  if ((2 * r <? d) || ((2 * r =? d) && N.even q))%N then q else (q + 1)%N.

(** The nanoseconds of a number of seconds that is not negative. *)
Definition nanos_of (x : f64) : option N :=
  match x with
  | S754_zero _ => Some 0%N
  | S754_finite false m (Zneg e) => Some (round_div (Npos m * 10 ^ 9) (2 ^ Npos e))%N
  | S754_finite false m e => Some (Npos m * 2 ^ Z.to_N e * 10 ^ 9)%N
  | _ => None
  end.

(** [None] is a panic.  [Duration::from_secs_f64] *)
Definition from_secs_f64 (x : f64) : option Duration :=
  n ← nanos_of x; if (n <? duration_limit)%N then Some n else None.

(** [Duration::add], which panics on overflow *)
Definition duration_add (a b : Duration) : option Duration :=
  if (a + b <? duration_limit)%N then Some (a + b)%N else None.

Definition from_secs (secs : N) : Duration := (secs * 10 ^ 9)%N.

Definition f64_mul (a b : f64) : f64 := SFmul 53 1024 a b.
Definition f64_is_finite (x : f64) : bool :=
  match x with S754_zero _ | S754_finite _ _ _ => true | _ => false end.
Definition f64_of_N (n : N) : f64 := binary_normalize 53 1024 (Z.of_N n) 0 false.
(** [0.001] *)
Definition f64_milli : f64 := S754_finite false 4611686018427388 (-62).

Definition u64_max : N := (2 ^ 64 - 1)%N.
Definition parse_u64 (s : string) : option N := parse_unsigned u64_max s.

(** A header's name and its value, if that is text. *)
Definition Headers : Type := list (string * option string).

Definition is_digit (a : ascii) : bool := let n := N_of_ascii a in ((48 <=? n) && (n <=? 57))%N.

Definition lower (s : string) : string := string_map ascii_lower s.

(** [Result::ok] *)
Definition result_ok {A B} (r : result A B) : option A := match r with Ok x => Some x | Err _ => None end.

Section Transport.
Context `{E : Ext}.

(** [str::parse] at [f64] and [f32]. *)
Context (parse_f64 parse_f32 : string -> option f64).
(** [chrono]: the time until a date, zero for one that has passed. *)
Context (until_http_date : string -> option Duration).

(** ** Rate limits *)

(** @src src/stream.rs:155-160 [is_rate_limit_header] *)
Definition is_rate_limit_header (name : string) : bool :=
  contains name "ratelimit" || contains name "rate-limit" || starts_with "x-codex-" name || String.eqb name "retry-after".

(** The number before the next unit, and what the unit makes of it. *)
Fixpoint reset_units (total : Duration) (number : string) (saw_unit : bool) (chars : string) : option (option Duration) :=
  let unit seconds rest :=
    match parse_f64 number with
    | None => Some None
    | Some amount =>
      d ← from_secs_f64 (f64_mul amount seconds);
      total ← duration_add total d;
      rest total
    end in
  match chars with
  | "" => Some (if (saw_unit && str_is_empty number)%bool then Some total else None)
  | String c chars' =>
    if (is_digit c || Ascii.eqb c ".")%bool then reset_units total (number ++ String c "") saw_unit chars'
    else if Ascii.eqb c "m" then
      match chars' with
      | String "s" chars'' => unit f64_milli (fun total => reset_units total "" true chars'')
      | _ => unit (f64_of_N 60) (fun total => reset_units total "" true chars')
      end
    else if Ascii.eqb c "h" then unit (f64_of_N 3600) (fun total => reset_units total "" true chars')
    else if Ascii.eqb c "s" then unit (f64_of_N 1) (fun total => reset_units total "" true chars')
    else Some None
  end.

(** [None] is a panic.
    @src src/stream.rs:164-193 [parse_reset_duration] *)
Definition parse_reset_duration (value : string) : option (option Duration) :=
  match parse_f64 value with
  | Some secs =>
    if (f64_is_finite secs && f64_leb f64_zero secs)%bool then Some <$> from_secs_f64 secs else Some None
  | None => reset_units 0%N "" false value
  end.

(** @src src/stream.rs:92-109 [RateLimitSnapshot] *)
Record RateLimitSnapshot := MkRateLimitSnapshot {
  used_percent : option f64;
  remaining_requests : option N;
  remaining_tokens : option N;
  resets_in : option Duration;
  window : option Duration;
  plan : option string;
  raw : gmap string string;
}.

Definition snapshot_default : RateLimitSnapshot := MkRateLimitSnapshot None None None None None None ∅.

(** @src src/stream.rs:118-150 [RateLimitSnapshot::from_headers, a header (brace)] *)
Definition snapshot_header (snapshot : RateLimitSnapshot) (name value : string) : option RateLimitSnapshot :=
  let '(MkRateLimitSnapshot used requests tokens resets window plan raw) := snapshot in
  let name := lower name in
  let value := trim value in
  let name_in l := existsb (String.eqb name) l in
  if negb (is_rate_limit_header name) then Some snapshot
  else
    let raw := <[name := value]> raw in
    let keep resets := MkRateLimitSnapshot used requests tokens resets window plan raw in
    if String.eqb name "x-codex-primary-used-percent"
    then Some (MkRateLimitSnapshot (parse_f32 value) requests tokens resets window plan raw)
    else if name_in ["x-ratelimit-remaining-requests"; "anthropic-ratelimit-requests-remaining"]
    then Some (MkRateLimitSnapshot used (parse_u64 value) tokens resets window plan raw)
    else if name_in ["x-ratelimit-remaining-tokens"; "anthropic-ratelimit-tokens-remaining"]
    then Some (MkRateLimitSnapshot used requests (parse_u64 value) resets window plan raw)
    else if name_in ["x-codex-primary-reset-after-seconds"; "x-ratelimit-reset-requests"]
    then keep <$> parse_reset_duration value
    else if (String.eqb name "retry-after" && negb (bool_decide (is_Some resets)))%bool
    then keep <$> parse_reset_duration value
    else if String.eqb name "x-codex-primary-window-minutes"
    then Some (MkRateLimitSnapshot used requests tokens resets ((fun m => from_secs (m * 60 mod 2 ^ 64)) <$> parse_u64 value) plan raw)
    else if String.eqb name "x-codex-plan-type"
    then Some (MkRateLimitSnapshot used requests tokens resets window (Some value) raw)
    else Some (keep resets).

(** @src src/stream.rs:117-152 [RateLimitSnapshot::from_headers] *)
Definition from_headers (headers : list (string * string)) : option RateLimitSnapshot :=
  foldl (fun snapshot '(name, value) => snapshot ≫= fun snapshot => snapshot_header snapshot name value)
    (Some snapshot_default) headers.

(** What the callback gets, if there is one; [None] is a panic.
    @src adapters/src/base.rs:156-169 [report_rate_limit] *)
Definition report_rate_limit (headers : Headers) (on_rate_limit : bool) : option (option RateLimitSnapshot) :=
  if negb on_rate_limit then Some None
  else Some <$> from_headers (filtermap (fun '(name, value) => pair name <$> value) headers).

(** @src adapters/src/classify.rs:156-161 [is_rate_limit_limit_header] *)
Definition is_rate_limit_limit_header (name : string) : bool :=
  (contains name "ratelimit" || contains name "rate-limit") && contains name "limit"
  && negb (contains name "remaining") && negb (contains name "reset").

(** @src adapters/src/classify.rs:163-168 [rate_limit_header_value_is_zero] *)
Definition rate_limit_header_value_is_zero (value : string) : bool :=
  match parse_f64 (trim value) with Some n => f64_is_finite n && f64_eqb n f64_zero | None => false end.

(** @src adapters/src/classify.rs:144-154 [has_zero_rate_limit_allowance] *)
Definition has_zero_rate_limit_allowance (headers : Headers) : bool :=
  existsb (fun '(name, value) =>
    is_rate_limit_limit_header (lower name)
    && match value with Some value => rate_limit_header_value_is_zero value | None => false end) headers.

(** @src adapters/src/classify.rs:291-299 [parse_retry_after_value] *)
Definition parse_retry_after_value (value : string) : option Duration :=
  let value := trim value in
  match parse_u64 value with
  | Some seconds => Some (from_secs seconds)
  | None => until_http_date value
  end.

(** The first header of that name.
    @src adapters/src/classify.rs:281-284 [parse_retry_after] *)
Definition parse_retry_after (headers : Headers) : option Duration :=
  '(_, value) ← List.find (fun '(name, _) => String.eqb (lower name) "retry-after") headers;
  value ← value;
  parse_retry_after_value value.

(** ** A request *)

(** What becomes of a request: the token is cancelled while it is sent, it cannot
    be sent, or it is answered.  [bytes] is the body up to its end or an error of
    the transport, [cancel] after how many of its chunks the token is found
    cancelled. *)
Inductive Exchange :=
| TokenCancelled
| SendFailed (error : string)
| Answered (status : N) (headers : Headers) (cancel : option nat) (bytes : list (result string string)).

(** [StatusCode::is_success] *)
Definition is_success (status : N) : bool := ((200 <=? status) && (status <? 300))%N.

(** The chunks of a body before an error of the transport. *)
Fixpoint body_chunks (bytes : list (result string string)) : list string :=
  match bytes with Ok chunk :: bytes' => chunk :: body_chunks bytes' | _ => [] end.

(** What the callback for rate limits gets, and the events; [None] is a panic. *)
Definition Response : Type := option (option RateLimitSnapshot * list AssistantMessageEvent).

(** The shape of the adapters' stream functions. *)
Definition http_stream (cancelled_message : string) (connection_error : string -> AssistantMessageEvent)
    (refusal : N -> Headers -> string -> AssistantMessageEvent)
    (parse : option nat -> list (result string string) -> option (list AssistantMessageEvent))
    (on_rate_limit : bool) (x : Exchange) : Response :=
  match x with
  | TokenCancelled => Some (None, pre_stream_error (cancelled_error cancelled_message))
  | SendFailed error => Some (None, pre_stream_error (connection_error error))
  | Answered status headers cancel bytes =>
    reported ← report_rate_limit headers on_rate_limit;
    if is_success status then pair reported <$> parse cancel bytes
    else
      Some (reported, pre_stream_error
        match read_error_body_or_cancelled cancel cancelled_message (body_chunks bytes) with
        | Ok body => refusal status headers body
        | Err event => event
        end)
  end.

Definition connection_error (provider error : string) : AssistantMessageEvent :=
  event_error_network (provider ++ " connection error: " ++ error)%string.

(** ** The adapters *)

(** @src adapters/src/ollama.rs:236-278 [ollama_stream] *)
Definition ollama_stream (utf8_error : string -> string) (new_uuid : nat -> string) (parse_chunk : string -> result Ollama.OllamaChatChunk string) :
    bool -> Exchange -> Response :=
  http_stream "Ollama request cancelled" (connection_error "Ollama")
    (fun status _ body => error_event_from_status status body "Ollama")
    (Ollama.parse_ndjson_stream utf8_error new_uuid parse_chunk).

(** @src adapters/src/oai_transport.rs:424-500 [oai_send_and_parse_with_options] *)
Definition oai_send_and_parse_with_options (parse_chunk : string -> result Oai.OaiChunk string) (provider : string)
    (classify_error : N -> string -> option AssistantMessageEvent) (model_id : option string) (options : Oai.OaiParserOptions) :
    bool -> Exchange -> Response :=
  http_stream "operation cancelled" (connection_error provider)
    (fun code headers body =>
       match classify_error code body with
       | Some event => event
       | None =>
         if ((code =? 429)%N && has_zero_rate_limit_allowance headers)%bool
         then event_error_model_retired
                (provider ++ " model unavailable for current plan (HTTP " ++ pretty code ++ ", zero rate-limit allowance for "
                 ++ default "requested model" model_id ++ "): " ++ body)%string
         else error_event_from_status code body provider
       end)
    (Oai.parse_oai_sse_stream_with_options parse_chunk provider options).

Definition classify_oai (provider : string) (status : N) (body : string) : option AssistantMessageEvent :=
  Responses.classify_oai_error_body status body provider.

(** OpenAI and xAI.
    @src adapters/src/oai_transport.rs:164-197 [OaiAdapterShell::stream] *)
Definition shell_stream (parse_chunk : string -> result Oai.OaiChunk string) (provider model_id : string) : bool -> Exchange -> Response :=
  oai_send_and_parse_with_options parse_chunk provider (classify_oai provider) (Some model_id) (Oai.MkOptions false false).

(** @src adapters/src/responses.rs:855-932 [ResponsesShell::stream_with_headers] *)
Definition stream_with_headers (parse_payload : string -> result Responses.StreamPayload string) (provider : string)
    (classify : N -> string -> option AssistantMessageEvent) : bool -> Exchange -> Response :=
  http_stream "operation cancelled" (connection_error provider)
    (fun code _ body => default (error_event_from_status code body provider) (classify code body))
    (Responses.parse_responses_sse_stream parse_payload provider).

(** @src adapters/src/anthropic.rs:275-285 [classify_anthropic_error_body] *)
Definition classify_anthropic_error_body (body : string) : option AssistantMessageEvent :=
  value ← result_ok (json_from_str body);
  error ← json_get value "error";
  error_type ← json_get error "type" ≫= json_as_str;
  message ← json_get error "message" ≫= json_as_str;
  if (String.eqb error_type "invalid_request_error" && is_context_overflow_message message)%bool
  then Some (event_error_context_overflow ("Anthropic context window exceeded: " ++ message)%string) else None.

(** @src adapters/src/anthropic.rs:193-262 [anthropic_stream] *)
Definition anthropic_stream : bool -> Exchange -> Response :=
  http_stream "operation cancelled" (connection_error "Anthropic")
    (fun code headers body =>
       match classify_anthropic_error_body body with
       | Some event => event
       | None =>
         with_retry_after
           (error_event_from_status_with_overrides code body "Anthropic" [(529%N, HttpNetwork); (504%N, HttpNetwork)])
           (parse_retry_after headers)
       end)
    Anthropic.parse_sse_stream.

(** @src adapters/src/google.rs:345-358 [classify_google_error_body] *)
Definition classify_google_error_body (status : N) (body : string) : option AssistantMessageEvent :=
  if negb (status =? 400)%N then None
  else
    value ← result_ok (json_from_str body);
    message ← (json_get value "error" ≫= fun error => json_get error "message" ≫= json_as_str);
    if is_context_overflow_message message
    then Some (event_error_context_overflow ("Google context window exceeded: " ++ message)%string) else None.

(** @src adapters/src/google.rs:284-334 [gemini_stream] *)
Definition gemini_stream (parse_chunk : string -> result GoogleStream.GeminiChunk string) : bool -> Exchange -> Response :=
  http_stream "Google request cancelled" (connection_error "Google")
    (fun code _ body => default (error_event_from_status code body "Google") (classify_google_error_body code body))
    (GoogleStream.parse_sse_stream parse_chunk).

(** ** Azure *)

(** @src adapters/src/azure.rs:92-98 [TokenAcquireError] *)
Inductive TokenAcquireError :=
| TokenAuth (message : string)
| TokenThrottled (message : string)
| TokenNetwork (message : string)
| TokenOther (message : string).

(** @src adapters/src/azure.rs:269-274 [classify_token_endpoint_status] *)
Definition classify_token_endpoint_status (status : N) : option HttpErrorKind :=
  if ((400 <=? status) && (status <=? 499) && negb (status =? 408) && negb (status =? 429))%N then Some HttpAuth
  else classify_with_overrides status [].

(** What becomes of a request for a token: the token and its seconds to live in
    the end. *)
Inductive TokenExchange :=
| TokenSendFailed (error : string)
| TokenAnswered (status : N) (body : string) (token : result (string * N) string).

(** [now]: the instant, in nanoseconds.
    @src adapters/src/azure.rs:148-198 [AzureStreamFn::acquire_token] *)
Definition acquire_token (now : N) (x : TokenExchange) : result (string * N) TokenAcquireError :=
  match x with
  | TokenSendFailed e => Err (TokenNetwork ("token request failed: " ++ e))
  | TokenAnswered status body token =>
    let http := (" (HTTP " ++ pretty status ++ "): " ++ body)%string in
    if negb (is_success status) then
      Err match classify_token_endpoint_status status with
          | Some HttpAuth => TokenAuth ("token endpoint auth error" ++ http)
          | Some HttpThrottled => TokenThrottled ("token endpoint rate limit" ++ http)
          | Some HttpNetwork => TokenNetwork ("token endpoint server error" ++ http)
          | None => TokenOther ("token endpoint returned error" ++ http)
          end
    else match token with
         | Ok (access_token, expires_in) => Ok (access_token, now + from_secs expires_in)%N
         | Err e => Err (TokenOther ("failed to parse token response: " ++ e))
         end
  end.

(** @src adapters/src/azure.rs:245-262 [AzureStreamFn::apply_auth, the errors] *)
Definition token_error_event (e : TokenAcquireError) : AssistantMessageEvent :=
  let says message := ("Azure token error: " ++ message)%string in
  match e with
  | TokenAuth message => event_error_auth (says message)
  | TokenThrottled message => event_error_throttled (says message)
  | TokenNetwork message => event_error_network (says message)
  | TokenOther message => event_error (says message)
  end.

Definition error_code (body : string) : option string :=
  value ← result_ok (json_from_str body);
  error ← json_get value "error";
  json_get error "code" ≫= json_as_str.

(** @src adapters/src/azure.rs:373-378 [is_content_filter_error] *)
Definition is_content_filter_error (body : string) : bool :=
  match error_code body with
  | Some code => String.eqb code "ContentFilterBlocked" || String.eqb code "content_filter"
  | None => false
  end.

(** @src adapters/src/azure.rs:344-352 [azure_stream, classify_error] *)
Definition classify_azure (status : N) (body : string) : option AssistantMessageEvent :=
  if is_content_filter_error body
  then Some (event_error_content_filtered ("Azure content filter blocked request (HTTP " ++ pretty status ++ ")")%string)
  else classify_oai "Azure" status body.

(** What comes before a request: the credential. *)
Inductive Credential (A B : Type) :=
| CredentialCancelled
| CredentialGot (r : result A B).
#[global] Arguments CredentialCancelled {A B}.
#[global] Arguments CredentialGot {A B} _.

(** With an API key the credential is there at once.
    @src adapters/src/azure.rs:312-366 [azure_stream] *)
Definition azure_stream (parse_chunk : string -> result Oai.OaiChunk string) (model_id : string)
    (auth : Credential string TokenAcquireError) (on_rate_limit : bool) (x : Exchange) : Response :=
  match auth with
  | CredentialCancelled => Some (None, pre_stream_error (cancelled_error "Azure request cancelled"))
  | CredentialGot (Err e) => Some (None, pre_stream_error (token_error_event e))
  | CredentialGot (Ok _) =>
    oai_send_and_parse_with_options parse_chunk "Azure" classify_azure (Some model_id) (Oai.MkOptions true false) on_rate_limit x
  end.

(** ** Codex *)

(** [HeaderValue::from_str] and the decoding of URL-safe base 64. *)
Context (header_value_ok : string -> bool) (base64_decode : string -> option string).

Definition OPENAI_CLIENT_ORIGINATORS : list string :=
  ["codex_cli_rs"; "codex_cli"; "codex-cli"; "codex_vscode"; "codex_exec"].

Definition is_printable (a : ascii) : bool := let n := N_of_ascii a in ((32 <=? n) && (n <=? 126))%N.

(** @src adapters/src/codex.rs:121-133 [validate_originator] *)
Definition validate_originator (originator : string) : result unit string :=
  let trimmed := trim originator in
  let printable := (negb (str_is_empty trimmed) && string_all is_printable trimmed)%bool in
  let impersonates := existsb (fun c => String.eqb (lower c) (lower trimmed)) OPENAI_CLIENT_ORIGINATORS in
  if (printable && negb impersonates)%bool then Ok tt else Err originator.

(** The adapter, by its [originator]; [None] is a panic.
    @src adapters/src/codex.rs:182-195 [CodexStreamFn::new] *)
Definition codex_new (originator : string) : option (result string string) :=
  match validate_originator originator with
  | Err e => Some (Err e)
  | Ok _ => if header_value_ok originator then Some (Ok originator) else None
  end.

(** The part of a text between the first and the second dot. *)
Fixpoint until_dot (s : string) : string :=
  match s with String a s' => if Ascii.eqb a "." then "" else String a (until_dot s') | "" => "" end.
Fixpoint after_dot (s : string) : option string :=
  match s with String a s' => if Ascii.eqb a "." then Some (until_dot s') else after_dot s' | "" => None end.

Fixpoint drop_all (a : ascii) (l : list ascii) : list ascii :=
  match l with b :: l' => if Ascii.eqb a b then drop_all a l' else l | [] => [] end.

(** [str::trim_end_matches] *)
Definition trim_end_matches (a : ascii) (s : string) : string :=
  String.string_of_list_ascii (rev (drop_all a (rev (String.list_ascii_of_string s)))).

(** @src adapters/src/codex.rs:138-150 [account_id_from_token] *)
Definition account_id_from_token (token : string) : option string :=
  payload ← after_dot token;
  bytes ← base64_decode (trim_end_matches "=" payload);
  claims ← (if is_utf8 bytes then result_ok (json_from_str bytes) else None);
  auth ← json_get claims "https://api.openai.com/auth";
  id ← json_get auth "chatgpt_account_id" ≫= json_as_str;
  if str_is_empty id then None else Some id.

Definition ENTITLEMENT_MARKER : string := "not supported when using Codex with a ChatGPT account".

(** @src adapters/src/codex.rs:154-161 [classify_codex_error] *)
Definition classify_codex_error (provider : string) (status : N) (body : string) : option AssistantMessageEvent :=
  if ((status =? 400)%N && contains body ENTITLEMENT_MARKER)%bool
  then Some (event_error_model_retired
         (provider ++ ": this model is not available on your ChatGPT plan; choose another model (HTTP 400)")%string)
  else classify_oai provider status body.

(** What the resolver gives: a token, a credential of another kind, or an error. *)
Definition Resolved : Type := Credential (option string) string.

(** @src adapters/src/codex.rs:298-365 [CodexStreamFn::stream] *)
Definition codex_stream (parse_payload : string -> result Responses.StreamPayload string)
    (credential : Resolved) (on_rate_limit : bool) (x : Exchange) : Response :=
  let fail event := Some (None, pre_stream_error event) in
  match credential with
  | CredentialCancelled => fail (cancelled_error "Codex credential resolution cancelled")
  | CredentialGot (Err error) =>
    fail (event_error_auth ("Codex: could not resolve the ChatGPT credential (" ++ error ++ "); sign in again")%string)
  | CredentialGot (Ok None) =>
    fail (event_error_auth "Codex: credential resolved to an unsupported type; expected an OAuth2 access token")
  | CredentialGot (Ok (Some token)) =>
    match account_id_from_token token with
    | None => fail (event_error_auth "Codex: the access token carries no chatgpt_account_id claim; sign in again")
    | Some account_id =>
      if header_value_ok account_id
      then stream_with_headers parse_payload "Codex" (classify_codex_error "Codex") on_rate_limit x
      else fail (event_error_auth "Codex: the chatgpt_account_id claim is not a valid header value")
    end
  end.

#[local] Existing Instance Anthropic.anthropic_sound.
#[local] Existing Instance GoogleSpec.google_sound.
#[local] Existing Instance OaiSpec.oai_sound.
#[local] Existing Instance Ollama.ollama_sound.
#[local] Existing Instance Responses.responses_sound.

(** ** What becomes of a request *)

Context (utf8_error : string -> string) (new_uuid : nat -> string)
  (parse_ollama : string -> result Ollama.OllamaChatChunk string)
  (parse_oai : string -> result Oai.OaiChunk string)
  (parse_payload : string -> result Responses.StreamPayload string)
  (parse_gemini : string -> result GoogleStream.GeminiChunk string).

(** The adapters, with what their credentials came to. *)
Inductive Api :=
| OllamaApi
| ShellApi (provider model_id : string)
| AzureApi (model_id : string) (auth : Credential string TokenAcquireError)
| ResponsesApi (provider : string)
| CodexApi (credential : Resolved)
| AnthropicApi
| GoogleApi.

Definition api_stream (api : Api) : bool -> Exchange -> Response :=
  match api with
  | OllamaApi => ollama_stream utf8_error new_uuid parse_ollama
  | ShellApi provider model_id => shell_stream parse_oai provider model_id
  | AzureApi model_id auth => azure_stream parse_oai model_id auth
  | ResponsesApi provider => stream_with_headers parse_payload provider (classify_oai provider)
  | CodexApi credential => codex_stream parse_payload credential
  | AnthropicApi => anthropic_stream
  | GoogleApi => gemini_stream parse_gemini
  end.

(** What is asked of the body of an answer. *)
Definition body_ok (api : Api) (bytes : list (result string string)) : Prop :=
  match api with
  | AnthropicApi => lines_ok Anthropic.anthropic_adapter (Sse.sse_paired_events bytes) Anthropic.state_new
  | GoogleApi => Forall (GoogleSpec.line_named parse_gemini) (Sse.sse_data_lines bytes)
  | _ => True
  end.

(** What the body of a refusal says by itself. *)
Definition recognized (api : Api) (status : N) (body : string) : option AssistantMessageEvent :=
  match api with
  | OllamaApi => None
  | ShellApi provider _ | ResponsesApi provider => classify_oai provider status body
  | AzureApi _ _ => classify_azure status body
  | CodexApi _ => classify_codex_error "Codex" status body
  | AnthropicApi => classify_anthropic_error_body body
  | GoogleApi => classify_google_error_body status body
  end.

(** A quota of no requests at all is looked for. *)
Definition watches_allowance (api : Api) : bool :=
  match api with ShellApi _ _ | AzureApi _ _ => true | _ => false end.

Definition is_refusal (event : AssistantMessageEvent) : Prop :=
  exists message kind after, event = ErrorEvent Error message None kind after.

(** The events of a parser are taken by [accumulate_message], but for tool
    arguments that are not JSON. *)
Definition taken (es : list AssistantMessageEvent) : Prop :=
  forall now provider model,
    match accumulate_message now es provider model with Ok _ => True | Err e => exists e', e = Assembly.parse_error e' end.

Lemma adapter_taken {S L} (A : Adapter S L) {sound : SoundAdapter A} cancel lines s :
  adapter_inv s -> blocks_of s = Assembly.new -> lines_ok A lines s ->
  exists es, adapter_stream A cancel lines s = Some es /\ taken es.
Proof.
  intros Hs Hb Hl. destruct (adapter_session A cancel lines s Hs Hb Hl) as (ops & t & Hok & Ht & Hes).
  exists (Assembly.session_with ops t). split; [exact Hes|]. intros now provider model.
  pose proof (Assembly.session_with_accumulates now ops t provider model Hok Ht) as H.
  destruct (accumulate_message _ _ _ _); [done|apply H].
Qed.

Lemma free_lines_ok {S L} (A : Adapter S L) {sound : SoundAdapter A} lines s :
  (forall s l, line_ok s l) -> lines_ok A lines s.
Proof.
  intros H. revert s. induction lines as [|l lines IH]; intros s; [done|]. split; [done|].
  by destruct (Adapter.on_item A (Some l) s) as [[]].
Qed.

(** ** The parts of an adapter *)

Record Endpoint := MkEndpoint {
  ep_cancelled : string;
  ep_provider : string;
  ep_refusal : N -> Headers -> string -> AssistantMessageEvent;
  ep_parse : option nat -> list (result string string) -> option (list AssistantMessageEvent);
}.

Definition endpoint_stream (p : Endpoint) : bool -> Exchange -> Response :=
  http_stream (ep_cancelled p) (connection_error (ep_provider p)) (ep_refusal p) (ep_parse p).

(** The class of a refusal that is known by its status alone. *)
Definition status_kind (status : N) (body : string) : option StreamErrorKind :=
  if ((status =? 401) || (status =? 403))%N then Some Auth
  else if (status =? 429)%N then Some Throttled
  else if ((status =? 408) || ((500 <=? status) && (status <=? 599)))%N then Some Network
  else if is_model_retired_response status body then Some ModelRetired
  else None.

Definition event_kind (event : AssistantMessageEvent) : option StreamErrorKind :=
  match event with ErrorEvent _ _ _ kind _ => kind | _ => None end.

(** The class of a refusal: what its body says, a quota of nothing, its status. *)
Definition refusal_kind (api : Api) (status : N) (headers : Headers) (body : string) : option StreamErrorKind :=
  match recognized api status body with
  | Some event => event_kind event
  | None =>
    if (watches_allowance api && (status =? 429)%N && has_zero_rate_limit_allowance headers)%bool then Some ModelRetired
    else status_kind status body
  end.

(** What an adapter's parser and classifier promise to the stream around them. *)
Record good_endpoint (api : Api) (p : Endpoint) : Prop := {
  endpoint_parses cancel bytes : body_ok api bytes -> exists es, ep_parse p cancel bytes = Some es /\ taken es;
  endpoint_refuses status headers body :
    is_refusal (ep_refusal p status headers body)
    /\ event_kind (ep_refusal p status headers body) = refusal_kind api status headers body;
}.

(** ** Classification *)

Lemma refusal_event message kind after : is_refusal (ErrorEvent Error message None kind after).
Proof. by do 3 eexists. Qed.

Lemma status_refusal overrides status body provider :
  (forall code kind, (code, kind) ∈ overrides -> classify_http_status code = Some kind) ->
  is_refusal (error_event_from_status_with_overrides status body provider overrides)
  /\ event_kind (error_event_from_status_with_overrides status body provider overrides) = status_kind status body.
Proof.
  intros Ho. unfold error_event_from_status_with_overrides.
  assert (classify_with_overrides status overrides = classify_http_status status) as ->.
  { clear -Ho. induction overrides as [|[code kind] l IH]; [done|]. cbn. destruct (N.eqb_spec status code) as [->|_].
    - symmetry. apply Ho. by left.
    - apply IH. intros c k Hin. apply Ho. by right. }
  unfold classify_http_status, status_kind.
  repeat (destruct (_ || _)%N || destruct (_ =? _)%N); cbn zeta iota; try (split; [apply refusal_event|done]).
  destruct (is_model_retired_response status body); [split; [apply refusal_event|done]|].
  destruct (_ && _)%N; (split; [apply refusal_event|done]).
Qed.

Lemma status_refusal_plain status body provider :
  is_refusal (error_event_from_status status body provider)
  /\ event_kind (error_event_from_status status body provider) = status_kind status body.
Proof. apply status_refusal. intros code kind Hin. by apply not_elem_of_nil in Hin. Qed.

Lemma retry_after_refusal event after k :
  is_refusal event /\ event_kind event = k ->
  is_refusal (with_retry_after event after) /\ event_kind (with_retry_after event after) = k.
Proof. intros [(message & kind & after' & ->) <-]. split; [apply refusal_event|done]. Qed.

Lemma oai_fields_refuse code message provider source detail event :
  Responses.classify_oai_error_fields code message provider source detail = Some event -> is_refusal event.
Proof.
  unfold Responses.classify_oai_error_fields. repeat case_match; intros [= <-]; apply refusal_event.
Qed.

Lemma classify_oai_refuses provider status body event : classify_oai provider status body = Some event -> is_refusal event.
Proof.
  unfold classify_oai, Responses.classify_oai_error_body. repeat case_match; try done; intros Hf; by eapply oai_fields_refuse.
Qed.

Lemma recognized_refuses api status body event : recognized api status body = Some event -> is_refusal event.
Proof.
  destruct api; cbn [recognized]; try done; try apply classify_oai_refuses.
  - unfold classify_azure. case_match; [intros [= <-]; apply refusal_event|apply classify_oai_refuses].
  - unfold classify_codex_error. case_match; [intros [= <-]; apply refusal_event|apply classify_oai_refuses].
  - unfold classify_anthropic_error_body. intros (value & _ & (error & _ & (ty & _ & (message & _ & H)%bind_Some)%bind_Some)%bind_Some)%bind_Some.
    destruct (_ && _)%bool; [|done]. injection H as <-. apply refusal_event.
  - unfold classify_google_error_body. destruct (negb _); [done|].
    intros (value & _ & (message & _ & H)%bind_Some)%bind_Some. destruct (is_context_overflow_message _); [|done]. injection H as <-. apply refusal_event.
Qed.

(** A recognised body decides; what is left is for the rest of the classifier. *)
Lemma refusal_cases api status headers body event :
  match recognized api status body with
  | Some e => event = e
  | None => is_refusal event /\ event_kind event
      = (if (watches_allowance api && (status =? 429)%N && has_zero_rate_limit_allowance headers)%bool then Some ModelRetired
         else status_kind status body)
  end ->
  is_refusal event /\ event_kind event = refusal_kind api status headers body.
Proof.
  unfold refusal_kind. destruct (recognized api status body) as [e|] eqn:Hr; [|done]. intros ->.
  split; [by eapply recognized_refuses|done].
Qed.

(** ** The adapters keep the promise *)

(** An adapter without its credential says so and does nothing else; with it, it is
    a stream around a parser and a classifier. *)
Definition waits (api : Api) (event : AssistantMessageEvent) : Prop :=
  exists reason message kind, event = ErrorEvent reason message None kind None
  /\ forall on_rate_limit x, api_stream api on_rate_limit x = Some (None, pre_stream_error event).

Lemma oai_endpoint_good api provider classify model_id options :
  watches_allowance api = true -> (forall bytes, body_ok api bytes) ->
  (forall status body, recognized api status body = classify status body) ->
  exists p, good_endpoint api p
    /\ oai_send_and_parse_with_options parse_oai provider classify model_id options = endpoint_stream p.
Proof.
  intros Hw Hb Hr. eexists (MkEndpoint "operation cancelled" provider _ (Oai.parse_oai_sse_stream_with_options parse_oai provider options)).
  split; [|reflexivity]. split; cbn [ep_parse ep_refusal].
  - intros cancel bytes _. apply (adapter_taken (Oai.oai_adapter parse_oai provider options));
      [|done|by apply free_lines_ok].
    exists None. split; [|done]. intros i e ci Hi. cbn in Hi. by rewrite lookup_empty in Hi.
  - intros status headers body. apply refusal_cases. rewrite Hr, Hw. destruct (classify status body); [done|]. cbn [andb].
    destruct (_ && _)%bool; [split; [apply refusal_event|done]|]. apply status_refusal_plain.
Qed.

Lemma responses_endpoint_good api provider classify :
  watches_allowance api = false -> (forall bytes, body_ok api bytes) ->
  (forall status body, recognized api status body = classify status body) ->
  exists p, good_endpoint api p /\ stream_with_headers parse_payload provider classify = endpoint_stream p.
Proof.
  intros Hw Hb Hr. eexists (MkEndpoint "operation cancelled" provider _ (Responses.parse_responses_sse_stream parse_payload provider)).
  split; [|reflexivity]. split; cbn [ep_parse ep_refusal].
  - intros cancel bytes _. apply (adapter_taken (Responses.responses_adapter parse_payload provider));
      [apply Responses.going_default|done|by apply free_lines_ok].
  - intros status headers body. apply refusal_cases. rewrite Hr, Hw. cbn [andb].
    destruct (classify status body); [done|]. apply status_refusal_plain.
Qed.

Lemma api_shape api :
  (exists event, waits api event) \/ exists p, good_endpoint api p /\ api_stream api = endpoint_stream p.
Proof.
  destruct api as [|provider model_id|model_id auth|provider|credential| |].
  - right. eexists (MkEndpoint _ "Ollama" _ _). split; [|reflexivity]. split; cbn [ep_parse ep_refusal].
    + intros cancel bytes _. apply (adapter_taken (Ollama.ollama_adapter new_uuid parse_ollama)); [done|done|by apply free_lines_ok].
    + intros status headers body. apply refusal_cases. cbn [recognized watches_allowance andb]. apply status_refusal_plain.
  - right. apply (oai_endpoint_good (ShellApi provider model_id)); done.
  - destruct auth as [|[token|e]].
    + left. eexists. do 3 eexists. by split.
    + right. apply (oai_endpoint_good (AzureApi model_id _)); done.
    + left. eexists (token_error_event e). destruct e; do 3 eexists; by split.
  - right. apply (responses_endpoint_good (ResponsesApi provider)); done.
  - unfold waits. cbn [api_stream]. unfold codex_stream.
    destruct credential as [|[[token|]|error]]; [left; eexists; do 3 eexists; by split| |left; eexists; do 3 eexists; by split..].
    destruct (account_id_from_token token) as [id|]; [|left; eexists; do 3 eexists; by split].
    destruct (header_value_ok id); [|left; eexists; do 3 eexists; by split].
    right. apply (responses_endpoint_good (CodexApi _)); done.
  - right. eexists (MkEndpoint _ "Anthropic" _ _). split; [|reflexivity]. split; cbn [ep_parse ep_refusal].
    + intros cancel bytes Hb. apply (adapter_taken Anthropic.anthropic_adapter); [by left|done|exact Hb].
    + intros status headers body. apply refusal_cases. cbn [recognized watches_allowance andb].
      destruct (classify_anthropic_error_body body); [done|]. apply retry_after_refusal, status_refusal.
      intros code kind [[= -> ->]|[[= -> ->]|[]%not_elem_of_nil]%elem_of_cons]%elem_of_cons; done.
  - right. eexists (MkEndpoint _ "Google" _ _). split; [|reflexivity]. split; cbn [ep_parse ep_refusal].
    + intros cancel bytes Hb. apply (adapter_taken (GoogleStream.google_adapter parse_gemini));
        [exists usage_default|done|by apply GoogleSpec.named_lines_ok].
      split; [|done]. intros key e He. cbn in He. by rewrite lookup_empty in He.
    + intros status headers body. apply refusal_cases. cbn [recognized watches_allowance andb].
      destruct (classify_google_error_body status body); [done|]. apply status_refusal_plain.
Qed.

(** ** The message of an exchange *)

Lemma pre_stream_error_message now provider model reason message usage kind after :
  accumulate_message now (pre_stream_error (ErrorEvent reason message usage kind after)) provider model
  = Ok (MkAssistantMessage [] provider model (default usage_default usage) cost_default reason (Some message) kind now None).
Proof. by destruct usage. Qed.

(** The request was answered with success. *)
Definition accepted (x : Exchange) : Prop :=
  exists status headers cancel bytes, x = Answered status headers cancel bytes /\ is_success status = true.

(** [m] tells of a request that was refused with that status, headers and body. *)
Definition tells_refusal (api : Api) (status : N) (headers : Headers) (body : string) (m : AssistantMessage) : Prop :=
  am_stop_reason m = Error
  /\ am_error_kind m = refusal_kind api status headers body
  /\ forall k model message, am_error_kind m = Some k -> am_error_message m = Some message ->
       is_retryable (classify_stream_error_for_model model message Error (Some k)) = bool_decide (k = Throttled \/ k = Network).

Lemma retried_kinds k model message :
  is_retryable (classify_stream_error_for_model model message Error (Some k)) = bool_decide (k = Throttled \/ k = Network).
Proof. destruct k; cbn; symmetry; first [apply bool_decide_eq_true; by auto|apply bool_decide_eq_false; by intros [|]]. Qed.

Lemma read_whole_body message chunks : exists body, read_error_body_or_cancelled None message chunks = Ok body.
Proof. unfold read_error_body_or_cancelled. destruct (read_error_chunks_total chunks "") as [[bytes cut] ->]. eauto. Qed.

(** What a refused request leaves. *)
Definition refused_well (api : Api) (x : Exchange) (m : AssistantMessage) : Prop :=
  am_content m = [] /\ is_Some (am_error_message m)
  /\ forall status headers bytes, x = Answered status headers None bytes ->
     (exists event, waits api event)
     \/ exists body cancelled, read_error_body_or_cancelled None cancelled (body_chunks bytes) = Ok body
        /\ tells_refusal api status headers body m.

Lemma error_message_refused api x reason message kind after now provider model :
  (forall status headers bytes, x = Answered status headers None bytes -> exists event, waits api event) ->
  exists m, accumulate_message now (pre_stream_error (ErrorEvent reason message None kind after)) provider model = Ok m
    /\ refused_well api x m.
Proof.
  intros Hx. rewrite pre_stream_error_message. eexists. split; [done|]. split; [done|]. split; [done|].
  intros status headers bytes ->. left. by eapply Hx.
Qed.

Lemma endpoint_exchange api p on_rate_limit x now provider model :
  good_endpoint api p ->
  (forall status headers cancel bytes, x = Answered status headers cancel bytes -> is_success status = true -> body_ok api bytes) ->
  match endpoint_stream p on_rate_limit x with
  | None => exists status headers cancel bytes, x = Answered status headers cancel bytes
      /\ report_rate_limit headers on_rate_limit = None
  | Some (_, es) =>
    match accumulate_message now es provider model with
    | Err e => accepted x /\ exists e', e = Assembly.parse_error e'
    | Ok m => accepted x \/ refused_well api x m
    end
  end.
Proof.
  intros Hp Hb. unfold endpoint_stream, connection_error, event_error_network.
  destruct x as [|error|status headers cancel bytes]; cbn [http_stream]; unfold cancelled_error.
  - destruct (error_message_refused api TokenCancelled Aborted (ep_cancelled p) None None now provider model) as (m & -> & Hm); [done|by right].
  - destruct (error_message_refused api (SendFailed error) Error (ep_provider p ++ " connection error: " ++ error) (Some Network) None now provider model)
      as (m & -> & Hm); [done|by right].
  - destruct (report_rate_limit headers on_rate_limit) as [reported|] eqn:Hr; cbn [mbind option_bind]; [|by do 4 eexists].
    destruct (is_success status) eqn:Hs.
    { assert (accepted (Answered status headers cancel bytes)) as Ha by (by do 4 eexists).
      destruct (endpoint_parses _ _ Hp cancel bytes) as (es & -> & Hes); [by eapply Hb|]. cbn.
      specialize (Hes now provider model). destruct (accumulate_message _ _ _ _); [by left|done]. }
    destruct (read_error_body_or_cancelled cancel (ep_cancelled p) (body_chunks bytes)) as [body|event] eqn:Hread.
    + destruct (endpoint_refuses _ _ Hp status headers body) as [(message & kind & after & He) Hk]. rewrite He in Hk |- *.
      rewrite pre_stream_error_message. right. split; [done|]. split; [done|].
      intros st hs bs [= <- <- -> <-]. right. exists body, (ep_cancelled p). split; [done|].
      split; [done|]. split; [exact Hk|]. intros k m' text _ _. apply retried_kinds.
    + assert (event = cancelled_error (ep_cancelled p) /\ cancel <> None) as [-> Hc].
      { unfold cancelled_error. split; [|intros ->; by destruct (read_whole_body (ep_cancelled p) (body_chunks bytes)) as [body Hbody]; rewrite Hbody in Hread].
        unfold read_error_body_or_cancelled in Hread. destruct (read_error_chunks cancel _ _) as [[]|]; [done|by injection Hread as <-]. }
      unfold cancelled_error. destruct (error_message_refused api (Answered status headers cancel bytes) Aborted (ep_cancelled p) None None now provider model)
        as (m & -> & Hm); [by intros * [= -> -> -> ->]|by right].
Qed.


End Transport.

(** ** Concrete exchanges *)
Section Toy.
#[local] Existing Instance Externals.Toy.ext.

(** Stands for the parser of numbers. *)
Definition toy_f64 (s : string) : option f64 :=
  if String.eqb s "1e30" then Some (binary_normalize 53 1024 (10 ^ 30) 0 false)
  else f64_of_N <$> parse_u64 s.

Definition toy_stream (api : Api) (on_rate_limit : bool) (x : Exchange) : Response :=
  api_stream toy_f64 toy_f64 (fun _ => None) (fun _ => true) (fun _ => None) (fun _ => "bad") (fun _ => "id")
    (fun _ => Err "none") (fun _ => Err "none") (fun _ => Err "none") (fun _ => Err "none") api on_rate_limit x.

(** "A malformed header never fails the turn": a number of seconds that does not
    fit a duration is a panic. *)
Lemma huge_reset_panics :
  toy_stream OllamaApi true (Answered 429 [("retry-after", Some "1e30")] None [Ok "slow down"]) = None
  /\ is_Some (toy_stream OllamaApi true (Answered 429 [("retry-after", Some "30")] None [Ok "slow down"]))
  /\ is_Some (toy_stream OllamaApi false (Answered 429 [("retry-after", Some "1e30")] None [Ok "slow down"])).
Proof. vm_compute. eauto. Qed.

Example reset_forms :
  map (parse_reset_duration toy_f64) ["30"; "1h2m3s"; "250ms"; "6m0s"; "1h2"; "soon"]
  = [Some (Some 30000000000%N); Some (Some 3723000000000%N); Some (Some 250000000%N); Some (Some 360000000000%N);
     Some None; Some None].
Proof. vm_compute. done. Qed.

(** A quota of nothing is no throttling. *)
Example zero_allowance :
  match toy_stream (ShellApi "xAI" "grok") false
          (Answered 429 [("x-ratelimit-limit-requests", Some "0")] None [Ok "no requests left"]) with
  | Some (_, [Start; ErrorEvent _ _ _ kind _]) => kind = Some ModelRetired
  | _ => False
  end.
Proof. vm_compute. done. Qed.

(** The name of the client is checked without the white space around it and sent
    with it; a header takes no line feed. *)
Definition no_control (s : string) : bool := string_all (fun a => (32 <=? N_of_ascii a)%N) s.

Lemma originator_with_line_feed_panics :
  validate_originator (String.append "my client" (String LF "")) = Ok tt
  /\ codex_new no_control (String.append "my client" (String LF "")) = None
  /\ codex_new no_control "my client" = Some (Ok "my client")
  /\ codex_new no_control " Codex_CLI " = Some (Err " Codex_CLI ").
Proof. vm_compute. done. Qed.


End Toy.
