(* ===== verification/Proxy.v ===== *)
(** * The proxy adapter: [adapters/src/proxy.rs]

    The events of another process, passed on as they come.  What the server has
    said when its stream breaks off, however it does, is still made a message of:
    the adapter closes the blocks it saw opened. *)
From stdpp Require Import sorting.
From S2P Require Export Transport.
Open Scope string_scope.
Open Scope list_scope.

Module Proxy.
Import Assembly Sse.

Section Proxy.
Context `{E : Ext}.

(** What the server sends; serde's decoding of a line is a parameter.
    @src adapters/src/proxy.rs:50-98 [SseEventData] *)
Inductive SseEventData :=
| DStart
| DTextStart (content_index : nat)
| DTextDelta (content_index : nat) (delta : string)
| DTextEnd (content_index : nat)
| DThinkingStart (content_index : nat)
| DThinkingDelta (content_index : nat) (delta : string)
| DThinkingEnd (content_index : nat) (signature : option string)
| DToolCallStart (content_index : nat) (id name : string)
| DToolCallDelta (content_index : nat) (delta : string)
| DToolCallEnd (content_index : nat)
| DDone (stop_reason : StopReason) (usage : Usage) (cost : Cost)
| DError (stop_reason : StopReason) (error_message : string) (usage : option Usage) (error_kind : option StreamErrorKind).

Context (parse_event : string -> result SseEventData string).

(** @src adapters/src/proxy.rs:477-549 [convert_sse_event] *)
Definition convert_sse_event (event : SseEventData) : AssistantMessageEvent :=
  match event with
  | DStart => Start
  | DTextStart i => TextStart i
  | DTextDelta i delta => TextDelta i delta
  | DTextEnd i => TextEnd i
  | DThinkingStart i => ThinkingStart i
  | DThinkingDelta i delta => ThinkingDelta i delta
  | DThinkingEnd i signature => ThinkingEnd i signature
  | DToolCallStart i id name => ToolCallStart i id name
  | DToolCallDelta i delta => ToolCallDelta i delta
  | DToolCallEnd i => ToolCallEnd i
  | DDone stop_reason usage cost => Done stop_reason usage cost
  | DError stop_reason error_message usage error_kind => ErrorEvent stop_reason error_message usage error_kind None
  end.

(** @src adapters/src/proxy.rs:469-474 [parse_sse_event_data] *)
Definition parse_sse_event_data (data : string) : AssistantMessageEvent :=
  match parse_event data with
  | Ok event => convert_sse_event event
  | Err e => event_error ("malformed SSE event JSON: " ++ e)%string
  end.

(** ** The blocks that are open *)

(** @src adapters/src/proxy.rs:408-413 [ProxyStreamState] *)
Record ProxyStreamState := MkProxyState { ps_text : gset nat; ps_thinking : gset nat; ps_tool_calls : gset nat }.

Definition state_default : ProxyStreamState := MkProxyState ∅ ∅ ∅.

(** @src adapters/src/proxy.rs:416-438 [ProxyStreamState::observe] *)
Definition observe (event : AssistantMessageEvent) (s : ProxyStreamState) : ProxyStreamState :=
  let '(MkProxyState text thinking tool_calls) := s in
  match event with
  | TextStart i => MkProxyState ({[i]} ∪ text) thinking tool_calls
  | TextEnd i => MkProxyState (text ∖ {[i]}) thinking tool_calls
  | ThinkingStart i => MkProxyState text ({[i]} ∪ thinking) tool_calls
  | ThinkingEnd i _ => MkProxyState text (thinking ∖ {[i]}) tool_calls
  | ToolCallStart i _ _ => MkProxyState text thinking ({[i]} ∪ tool_calls)
  | ToolCallEnd i => MkProxyState text thinking (tool_calls ∖ {[i]})
  | _ => s
  end.

Definition index_le (x y : nat * AssistantMessageEvent) : Prop := fst x <= fst y.
#[local] Instance index_le_dec : RelDecision index_le := fun x y => decide (fst x <= fst y).

Definition open_entries (s : ProxyStreamState) : list (nat * AssistantMessageEvent) :=
  map (fun i => (i, TextEnd i)) (elements (ps_text s))
  ++ map (fun i => (i, ThinkingEnd i None)) (elements (ps_thinking s))
  ++ map (fun i => (i, ToolCallEnd i)) (elements (ps_tool_calls s)).

(** The events; the sets are left empty.
    @src adapters/src/proxy.rs:440-465 [ProxyStreamState::drain_open_blocks] *)
Definition drain_open_blocks (s : ProxyStreamState) : list AssistantMessageEvent * ProxyStreamState :=
  (map snd (merge_sort index_le (open_entries s)), state_default).

(** ** The stream *)

(** @src adapters/src/base.rs:194-205 [prefix_start_if_unstarted] *)
Definition prefix_start_if_unstarted (event : AssistantMessageEvent) (started : bool) : list AssistantMessageEvent * bool :=
  if started then ([event], true) else (pre_stream_error event, true).

Definition is_start (event : AssistantMessageEvent) : bool := match event with Start => true | _ => false end.

(** The events, whether the stream has started, and whether it is done.
    @src adapters/src/proxy.rs:381-406 [prepare_stream_event] *)
Definition prepare_stream_event (event : AssistantMessageEvent) (started : bool) (s : ProxyStreamState) :
    (list AssistantMessageEvent * bool * bool) * ProxyStreamState :=
  if (is_terminal event && negb started)%bool then
    let '(events, started) := prefix_start_if_unstarted event started in ((events, started, true), s)
  else
    let started := (started || is_start event)%bool in
    if is_terminal event then
      let '(events, s) := drain_open_blocks s in ((events ++ [event], started, true), s)
    else (([event], started, false), observe event s).

(** @src adapters/src/proxy.rs:345-368 [parse_sse_stream, an item] *)
Definition raw_event (item : option SseLine) : AssistantMessageEvent :=
  match item with
  | None => event_error_network "network error: SSE stream ended unexpectedly"
  | Some DoneLine => event_error "proxy SSE transport ended before protocol terminal event"
  | Some (Data data) => parse_sse_event_data data
  | Some (TransportError message) => event_error_network ("network error: " ++ message)%string
  | Some (ProtocolError message) => event_error ("proxy SSE protocol error: " ++ message)%string
  | Some _ => event_error "unexpected non-data SSE line"
  end.

(** [cancel]: after how many lines the token is found cancelled.
    @src adapters/src/proxy.rs:309-379 [parse_sse_stream] *)
Fixpoint proxy_events (cancel : option nat) (lines : list SseLine) (started : bool) (s : ProxyStreamState) :
    list AssistantMessageEvent :=
  match cancel, lines with
  | Some 0, _ => fst (fst (fst (prepare_stream_event (cancelled_error "operation cancelled") started s)))
  | _, [] => fst (fst (fst (prepare_stream_event (raw_event None) started s)))
  | _, line :: lines' =>
    let '((events, started, done), s) := prepare_stream_event (raw_event (Some line)) started s in
    events ++ if done then [] else proxy_events (pred <$> cancel) lines' started s
  end.

Definition parse_sse_stream (cancel : option nat) (bytes : list (result string string)) : list AssistantMessageEvent :=
  proxy_events cancel (sse_data_lines bytes) false state_default.

(** @src adapters/src/proxy.rs:197-241 [proxy_stream] *)
Definition proxy_stream (parse_f64 parse_f32 : string -> option f64) : bool -> Exchange -> Response :=
  http_stream parse_f64 parse_f32 "operation cancelled" (fun e => event_error_network ("network error: " ++ e)%string)
    (fun code _ body => error_event_from_status code body "Proxy")
    (fun cancel bytes => Some (parse_sse_stream cancel bytes)).

(** ** What the server said *)

(** The events passed on before the stream ends, and the event that ends it. *)
Fixpoint said (cancel : option nat) (lines : list SseLine) : list AssistantMessageEvent * AssistantMessageEvent :=
  match cancel, lines with
  | Some 0, _ => ([], cancelled_error "operation cancelled")
  | _, [] => ([], raw_event None)
  | _, line :: lines' =>
    let event := raw_event (Some line) in
    if is_terminal event then ([], event) else let '(events, last) := said (pred <$> cancel) lines' in (event :: events, last)
  end.

Definition closing (s : ProxyStreamState) : list AssistantMessageEvent := fst (drain_open_blocks s).

(** What the stream adds: the start of a stream that has none, the ends of open blocks. *)
Definition added (started : bool) (s : ProxyStreamState) (last : AssistantMessageEvent) : list AssistantMessageEvent :=
  (if started then closing s else [Start]) ++ [last].

Lemma last_added event started s :
  is_terminal event = true -> fst (fst (fst (prepare_stream_event event started s))) = added started s event.
Proof. intros Ht. unfold prepare_stream_event. rewrite Ht. by destruct started. Qed.

Lemma said_line cancel line lines :
  cancel <> Some 0 ->
  said cancel (line :: lines)
  = let event := raw_event (Some line) in
    if is_terminal event then ([], event) else let '(events, last) := said (pred <$> cancel) lines in (event :: events, last).
Proof. by destruct cancel as [[]|]. Qed.

Lemma proxy_events_line cancel line lines started s :
  cancel <> Some 0 ->
  proxy_events cancel (line :: lines) started s
  = let '((events, started, done), s) := prepare_stream_event (raw_event (Some line)) started s in
    events ++ if done then [] else proxy_events (pred <$> cancel) lines started s.
Proof. by destruct cancel as [[]|]. Qed.

Lemma said_terminal cancel lines : is_terminal (snd (said cancel lines)) = true.
Proof.
  revert cancel. induction lines as [|line lines IH]; intros cancel;
    (destruct (decide (cancel = Some 0)) as [->|Hc]; [done|]); [by destruct cancel as [[]|]|].
  rewrite said_line by done. cbv zeta. destruct (is_terminal (raw_event (Some line))) eqn:Ht; [done|].
  specialize (IH (pred <$> cancel)). by destruct (said _ lines).
Qed.

Lemma said_goes_on cancel lines : Forall (fun e => is_terminal e = false) (fst (said cancel lines)).
Proof.
  revert cancel. induction lines as [|line lines IH]; intros cancel;
    (destruct (decide (cancel = Some 0)) as [->|Hc]; [constructor|]); [destruct cancel as [[]|]; constructor|].
  rewrite said_line by done. cbv zeta. destruct (is_terminal (raw_event (Some line))) eqn:Ht; [constructor|].
  specialize (IH (pred <$> cancel)). destruct (said _ lines). by constructor.
Qed.

Lemma proxy_events_said cancel lines started s :
  let '(events, last) := said cancel lines in
  proxy_events cancel lines started s
  = events ++ added (started || existsb is_start events) (foldl (fun s e => observe e s) s events) last.
Proof.
  revert cancel started s. induction lines as [|line lines IH]; intros cancel started s;
    (destruct (decide (cancel = Some 0)) as [->|Hc]; [cbn; rewrite orb_false_r; by apply last_added|]).
  - assert (said cancel [] = ([], raw_event None)) as -> by (by destruct cancel as [[]|]).
    cbn [foldl existsb app]. rewrite orb_false_r.
    transitivity (fst (fst (fst (prepare_stream_event (raw_event None) started s)))); [by destruct cancel as [[]|]|].
    by apply last_added.
  - rewrite said_line, proxy_events_line by done. cbv zeta. destruct (is_terminal (raw_event (Some line))) eqn:Ht.
    + cbn [foldl existsb]. rewrite orb_false_r, <- last_added by done. unfold prepare_stream_event. rewrite Ht.
      destruct started; cbn; by rewrite ?app_nil_r.
    + unfold prepare_stream_event. rewrite Ht. cbn [andb].
      specialize (IH (pred <$> cancel) (started || is_start (raw_event (Some line)))%bool (observe (raw_event (Some line)) s)).
      destruct (said (pred <$> cancel) lines) as [events last]. rewrite IH. cbn [foldl existsb app]. by rewrite orb_assoc.
Qed.

(** ** The blocks of what was said are closed *)

(** The sets know the open blocks and their kinds. *)
Record knows (s : ProxyStreamState) (bs : list ContentBlock) (op : list bool) : Prop := {
  knows_text i : i ∈ ps_text s <-> open_kind (block_at bs op i) = Some KText;
  knows_thinking i : i ∈ ps_thinking s <-> open_kind (block_at bs op i) = Some KThinking;
  knows_tools i : i ∈ ps_tool_calls s <-> open_kind (block_at bs op i) = Some KTool;
  knows_others i : open_kind (block_at bs op i) <> Some KOther;
}.

Lemma knows_nothing : knows state_default [] [].
Proof. split; intros i; cbn; set_solver. Qed.

(** What an event does to the kind of its block. *)
Definition kind_after (event : AssistantMessageEvent) (k : option Kind) : option Kind :=
  match event with
  | TextStart _ => Some KText | ThinkingStart _ => Some KThinking | ToolCallStart _ _ _ => Some KTool
  | TextEnd _ | ThinkingEnd _ _ | ToolCallEnd _ => None
  | _ => k
  end.

(** The kind of a block an event is for. *)
Definition kind_for (event : AssistantMessageEvent) : option Kind :=
  match event with
  | TextEnd _ => Some KText | ThinkingEnd _ _ => Some KThinking | ToolCallEnd _ => Some KTool | _ => None
  end.

Lemma bstep_kind tol s e s' :
  bstep tol s e = Some s' ->
  open_kind (Some s') = kind_after e (open_kind s)
  /\ (kind_for e <> None -> open_kind s = kind_for e) /\ (is_start_of e <> None -> open_kind s = None).
Proof.
  destruct s as [[[t|t g|id name ar [pj|]| |] [|]]|], e; cbn; try done; intros H; simplify_eq; try done.
  destruct (finish_tool_args _ _ _ _ _); [|done]. injection H as <-. done.
Qed.

Lemma knows_observe s bs op bs' op' e j s' tol :
  knows s bs op -> event_index e = Some j -> bstep tol (block_at bs op j) e = Some s' ->
  (forall k, block_at bs' op' k = if decide (k = j) then Some s' else block_at bs op k) ->
  knows (observe e s) bs' op'.
Proof.
  intros [Ht Hth Htc Ho] Hj (Hk & Hfor & Hstart)%bstep_kind Hat.
  assert (forall k, open_kind (block_at bs' op' k) = if decide (k = j) then kind_after e (open_kind (block_at bs op j)) else open_kind (block_at bs op k)) as Hkind.
  { intros k. rewrite Hat. by case_decide. }
  pose proof (Ht j) as Htj. pose proof (Hth j) as Hthj. pose proof (Htc j) as Htcj. pose proof (Ho j) as Hoj.
  destruct s as [text thinking tools]. cbn [ps_text ps_thinking ps_tool_calls] in *. clear Hat Hk.
  revert Hfor Hstart Hkind Htj Hthj Htcj Hoj. generalize (open_kind (block_at bs op j)) as k0. intros k0 Hfor Hstart Hkind Htj Hthj Htcj Hoj.
  destruct e; cbn [event_index] in Hj; try done; injection Hj as ->; cbn [observe kind_after kind_for is_start_of] in *;
    (split; intros i; rewrite Hkind; cbn [ps_text ps_thinking ps_tool_calls]; clear Hkind;
      rewrite ?elem_of_union, ?elem_of_difference, ?elem_of_singleton;
      [specialize (Ht i); clear Hth Htc Ho|specialize (Hth i); clear Ht Htc Ho|specialize (Htc i); clear Ht Hth Ho|specialize (Ho i); clear Ht Hth Htc];
      destruct (decide (i = j)) as [->|]; try done; try (intuition congruence)).
Qed.

Lemma knows_run tol mid bs op s a :
  length op = length bs -> knows s bs op -> Forall (fun e => is_terminal e = false) mid ->
  acc_events tol (running bs op) mid = Ok a ->
  exists bs' op', a = running bs' op' /\ length op' = length bs'
    /\ knows (foldl (fun s e => observe e s) s mid) bs' op' /\ Forall (fun e => is_Some (event_index e)) mid.
Proof.
  intros Hl Hs Hmid. revert bs op s Hl Hs. induction Hmid as [|e mid He Hmid IH]; intros bs op s Hl Hs.
  { intros [= <-]. by exists bs, op. }
  rewrite acc_events_cons. intros (a1 & H1 & H2). destruct (event_index e) as [j|] eqn:Hj; [|by destruct e].
  apply (acc_event_running _ _ _ _ j) in H1 as (s' & bs1 & op1 & Hst & _ & -> & Hl1 & _ & Hat); [|done..].
  destruct (IH bs1 op1 (observe e s) Hl1) as (bs' & op' & -> & Hl' & Hs' & Hi); [by eapply knows_observe|done|].
  exists bs', op'. do 3 (split; [done|]). constructor; [by rewrite Hj|done].
Qed.

(** One open block closed. *)
Definition closed_at (bs : list ContentBlock) (op : list bool) (l : list nat) (bs' : list ContentBlock) (op' : list bool) : Prop :=
  length op' = length bs' /\ length bs' = length bs /\ extract_text bs' = extract_text bs
  /\ forall k, open_kind (block_at bs' op' k) = if decide (k ∈ l) then None else open_kind (block_at bs op k).

Lemma closed_insert bs op i b b' o :
  length op = length bs -> block_at bs op i = Some (b, o) -> text_of b' = text_of b ->
  closed_at bs op [i] (<[i := b']> bs) (<[i := false]> op).
Proof.
  intros Hl Hat Ht. pose proof (block_at_inv _ _ _ _ _ Hat) as [Hb _]. split; [by rewrite !length_insert|].
  split; [by rewrite length_insert|]. split.
  - rewrite (extract_text_insert bs i b b' ""); rewrite ?string_app_nil_r; auto.
  - intros k. rewrite block_at_insert by (try done; by eapply lookup_lt_Some).
    destruct (decide (k = i)) as [->|Hk]; [by rewrite decide_True by by left|].
    by rewrite decide_False by (by intros ?%list_elem_of_singleton).
Qed.

Lemma close_one tol bs op i e :
  length op = length bs -> event_index e = Some i -> kind_for e <> None -> open_kind (block_at bs op i) = kind_for e ->
  outcome tol bs op [e] (closed_at bs op [i]).
Proof.
  intros Hl Hi He Hk. destruct (block_at bs op i) as [[b [|]]|] eqn:Hat; [|by rewrite <- Hk in He..].
  destruct e; try done; injection Hi as ->; destruct b as [t|t g|id name ar [pj|]| |]; try done.
  - eapply outcome_existing; [done..|]. by eapply closed_insert.
  - eapply outcome_existing; [done..|]. by eapply closed_insert.
  - eapply outcome_tool_end; [done|]. intros ar' pj'. by eapply closed_insert.
Qed.

Lemma close_entries tol l bs op :
  length op = length bs -> NoDup l.*1 ->
  Forall (fun '(i, e) => event_index e = Some i /\ kind_for e <> None /\ open_kind (block_at bs op i) = kind_for e) l ->
  outcome tol bs op (map snd l) (closed_at bs op l.*1).
Proof.
  revert bs op. induction l as [|[i e] l IH]; intros bs op Hl Hnd Hall.
  { apply outcome_nil. split; [done|]. do 2 (split; [done|]). intros k. by rewrite decide_False by (apply not_elem_of_nil). }
  apply Forall_cons in Hall as [(Hi & He & Hk) Hall]. apply NoDup_cons in Hnd as [Hni Hnd]. cbn [fst] in Hni.
  change (map snd ((i, e) :: l)) with ([e] ++ map snd l). apply outcome_app.
  eapply outcome_mono; [by apply (close_one tol bs op i)|]. intros bs1 op1 (Hl1 & Hn1 & Ht1 & Hk1).
  eapply outcome_mono; [apply IH; [done|done|]|].
  - apply Forall_forall. intros [j e'] Hin. rewrite Forall_forall in Hall. destruct (Hall (j, e') Hin) as (Hj & He' & Hkj).
    split_and!; [done..|]. rewrite Hk1, decide_False; [done|]. intros ->%list_elem_of_singleton. apply Hni. apply list_elem_of_fmap. by exists (i, e').
  - intros bs2 op2 (Hl2 & Hn2 & Ht2 & Hk2). split; [done|]. split; [congruence|]. split; [congruence|].
    intros k. rewrite Hk2, Hk1. cbn [fmap list_fmap fst].
    destruct (decide (k ∈ l.*1)) as [Hin|Hin]; [by rewrite decide_True by by right|].
    destruct (decide (k = i)) as [->|Hki]; [rewrite !decide_True by (by left); done|].
    rewrite !decide_False; [done| |]; [by intros [?|?]%elem_of_cons|by intros ?%list_elem_of_singleton].
Qed.

Lemma entries_good s bs op :
  knows s bs op ->
  NoDup (open_entries s).*1
  /\ Forall (fun '(i, e) => event_index e = Some i /\ kind_for e <> None /\ open_kind (block_at bs op i) = kind_for e) (open_entries s).
Proof.
  intros [Ht Hth Htc _]. unfold open_entries. split.
  - rewrite !fmap_app. change (fmap fst) with (map (B := nat) (@fst nat AssistantMessageEvent)). rewrite !map_map. cbn [fst]. rewrite !map_id.
    apply NoDup_app. split; [apply NoDup_elements|]. split.
    + intros i Hi%elem_of_elements Hin%elem_of_app. rewrite !elem_of_elements, Hth, Htc in Hin. apply Ht in Hi. rewrite Hi in Hin. naive_solver.
    + apply NoDup_app. split; [apply NoDup_elements|]. split; [|apply NoDup_elements].
      intros i Hi%elem_of_elements Hin%elem_of_elements. apply Hth in Hi. apply Htc in Hin. congruence.
  - rewrite !Forall_app. split_and!; apply Forall_forall; intros [i e] (j & [= -> ->] & Hj%elem_of_elements)%list_elem_of_fmap; split_and!; try done.
    + by apply Ht.
    + by apply Hth.
    + by apply Htc.
Qed.

Lemma closing_closes tol s bs op :
  length op = length bs -> knows s bs op ->
  outcome tol bs op (closing s) (fun bs' op' =>
    length op' = length bs' /\ length bs' = length bs /\ extract_text bs' = extract_text bs /\ all_settled tol bs' op').
Proof.
  intros Hl Hs. destruct (entries_good s bs op Hs) as [Hnd Hall]. unfold closing, drain_open_blocks. cbn [fst].
  pose proof (merge_sort_Permutation index_le (open_entries s)) as Hp.
  eapply outcome_mono; [apply close_entries; [done| |]|].
  - by rewrite Hp.
  - by rewrite Hp.
  - intros bs' op' (Hl' & Hn & Htx & Hk). split_and!; [done..|]. intros i b o Hat ->. exfalso.
    specialize (Hk i). rewrite Hat in Hk. cbn in Hk. destruct (decide _) as [|Hni] in Hk; [done|]. rewrite Hp in Hni.
    destruct Hs as [Ht Hth Htc Ho]. apply Hni. unfold open_entries. rewrite !fmap_app, !elem_of_app.
    assert (forall (f : nat -> AssistantMessageEvent) (X : gset nat), i ∈ X -> i ∈ (map (fun i => (i, f i)) (elements X)).*1) as Hin.
    { intros f X Hi. apply list_elem_of_fmap. exists (i, f i). split; [done|]. apply list_elem_of_fmap. exists i. split; [done|]. by apply elem_of_elements. }
    specialize (Ho i). specialize (Ht i). specialize (Hth i). specialize (Htc i).
    destruct b as [t|t g|id name ar [pj|]| |]; rewrite <- Hk in *; cbn in *; try done.
    + left. apply Hin, Ht. done.
    + right. left. apply Hin, Hth. done.
    + right. right. apply Hin, Htc. done.
Qed.

(** What was said so far is [Start] and content events, or nothing. *)
Lemma said_so_far tol events a :
  Forall (fun e => is_terminal e = false) events -> acc_events tol acc_init events = Ok a ->
  events = [] /\ a = acc_init
  \/ exists mid, events = Start :: mid /\ acc_events tol (running [] []) mid = Ok a /\ Forall (fun e => is_terminal e = false) mid.
Proof.
  intros Hev. destruct events as [|e mid]; [intros [= <-]; by left|]. inversion_clear Hev as [|? ? He Hmid].
  rewrite acc_events_cons. intros (a1 & H1 & H2). right. exists mid.
  destruct e; try done. rewrite acc_event_start in H1. by injection H1 as <-.
Qed.

(** The stream of a server that went away, and the message made of it. *)
Lemma repaired tol mid s bs op t now provider model :
  is_terminal t = true -> tol = terminal_tolerance t ->
  Forall (fun e => is_Some (event_index e)) mid -> acc_events tol (running [] []) mid = Ok (running bs op) ->
  length op = length bs -> knows s bs op ->
  match accumulate_message now (Start :: mid ++ closing s ++ [t]) provider model with
  | Err e => exists e', e = parse_error e'
  | Ok m => length (am_content m) = length bs /\ extract_text (am_content m) = extract_text bs
      /\ exists sr u c em ek, terminal_fields t = Some (tol, sr, u, c, em, ek) /\ am_stop_reason m = sr /\ am_usage m = u
           /\ am_error_message m = em /\ am_error_kind m = ek
  end.
Proof.
  intros Ht Htol Hmid Hrun Hl Hs.
  assert (Forall (fun e => is_Some (event_index e)) (closing s)) as Hcl.
  { destruct (entries_good s bs op Hs) as [_ Hall]. unfold closing, drain_open_blocks. cbn [fst].
    change (map snd ?l) with (snd <$> l). rewrite Forall_fmap, merge_sort_Permutation.
    eapply Forall_impl; [exact Hall|]. intros [i e] (He & _). cbn. by rewrite He. }
  assert (Forall (fun e => is_Some (event_index e)) (mid ++ closing s)) as Hall by (by apply Forall_app).
  rewrite app_assoc. unfold accumulate_message. rewrite tolerate_of_shape, <- Htol by done.
  cbn [acc_events]. rewrite acc_event_start. cbn [result_bind]. rewrite !acc_events_app_bind, Hrun. cbn [result_bind].
  pose proof (closing_closes tol s bs op Hl Hs) as H. unfold outcome in H.
  destruct (acc_events tol (running bs op) (closing s)) as [acc|e]; cbn [result_bind]; [|by apply H].
  destruct H as (bs' & op' & -> & Hl' & Hn & Htx & Hset).
  rewrite (proj2 (acc_events_cons _ _ t [] (finished bs' op' t))).
  - destruct t as [| | | | | | | | | |sr u c|sr em [u|] ek ra]; try done; cbn; subst tol; (split; [done|]); (split; [done|]); do 5 eexists; split_and!; reflexivity.
  - eexists. split; [|done]. apply acc_event_terminal; [done|done|by intros ? ? ? _|]. split; [|done]. by rewrite <- Htol.
Qed.


End Proxy.

(** ** A server that goes away *)
Section Toy.
#[local] Existing Instance Externals.Toy.ext.

(** Stands for serde_json on a few lines. *)
Definition toy_parse (line : string) : result SseEventData string :=
  if String.eqb line "start" then Ok DStart
  else if String.eqb line "open" then Ok (DTextStart 0)
  else if String.eqb line "hel" then Ok (DTextDelta 0 "hel")
  else if String.eqb line "think" then Ok (DThinkingStart 1)
  else Err "unexpected".

Definition toy_bytes (lines : list string) : list (result string string) :=
  map (fun line => Ok ("data: " ++ line ++ String LF (String LF ""))%string) lines.

Example broken_off :
  parse_sse_stream toy_parse None (toy_bytes ["start"; "open"; "hel"; "think"])
  = [Start; TextStart 0; TextDelta 0 "hel"; ThinkingStart 1; TextEnd 0; ThinkingEnd 1 None;
     event_error_network "network error: SSE stream ended unexpectedly"].
Proof. vm_compute. done. Qed.

End Toy.
End Proxy.
