(* ===== verification/Confine.v ===== *)
(** * Paths of the file tools: [src/tools/path.rs], [src/tools/write_file.rs], [src/tools/read_file.rs]

    A file system with symbolic links, the resolution of a path in it, and the
    tools that are confined to an execution root.  Whatever the links, a tool
    changes nothing and reads nothing outside the root.  Each tool runs without
    another process moving files under it; every system call is one step. *)
From S2P Require Export ArtifactFs.
From Stdlib Require Import Ascii.
Open Scope string_scope.
Open Scope list_scope.

Module Confine.

(** ** The file system *)

Inductive Node := FileNode (bytes : string) | DirNode | LinkNode (target : string).

#[export] Instance Node_eq_dec : EqDecision Node.
Proof. solve_decision. Defined.

(** By the names from the root of the file system down, all of them real. *)
Abbreviation RealPath := (list string).
Abbreviation Fs := (gmap (list string) Node).

Definition node_at (fs : Fs) (p : RealPath) : option Node := match p with [] => Some DirNode | _ => fs !! p end.

(** [Path::is_absolute] and [Path::components] without the root and ["."] *)
Definition is_absolute (path : string) : bool := starts_with "/" path.
Definition components (path : string) : list string := path_components path.

Definition parent (p : RealPath) : RealPath := take (pred (length p)) p.

(** What the kernel makes of a path: an entry, the directory in which the last name
    is missing, or an error.  [links]: how many links may still be followed. *)
Inductive Walked :=
| Found (at_ : RealPath) (links : nat)
| Absent (dir : RealPath) (name : string)
| Failed (e : IoError).

Definition too_many_links : IoError := MkIoError OtherKind "Too many levels of symbolic links (os error 40)".

(** From [cur] along [todo]; [follow]: whether a link at the end is followed. *)
Fixpoint walk (links : nat) (fs : Fs) (follow : bool) (cur : RealPath) (todo : list string) {struct links} : Walked :=
  (fix go (cur : RealPath) (todo : list string) {struct todo} : Walked :=
     match todo with
     | [] => Found cur links
     | c :: rest =>
       if String.eqb c ".." then go (parent cur) rest
       else match fs !! (cur ++ [c]) with
            | None => match rest with [] => Absent cur c | _ => Failed no_such_file end
            | Some DirNode => go (cur ++ [c]) rest
            | Some (FileNode _) => match rest with [] => Found (cur ++ [c]) links | _ => Failed not_a_directory end
            | Some (LinkNode target) =>
              if (is_nil rest && negb follow)%bool then Found (cur ++ [c]) links
              else match links with
                   | 0 => Failed too_many_links
                   | S links => walk links fs follow (if is_absolute target then [] else cur) (components target ++ rest)
                   end
            end
     end) cur todo.

(** The kernel's limit. *)
Definition MAXSYMLINKS : nat := 40.

Definition stat (fs : Fs) (p : list string) : Walked := walk MAXSYMLINKS fs true [] p.
Definition lstat (fs : Fs) (p : list string) : Walked := walk MAXSYMLINKS fs false [] p.

(** [fs::canonicalize] *)
Definition canonicalize (fs : Fs) (p : list string) : result RealPath IoError :=
  match stat fs p with Found q _ => Ok q | Absent _ _ => Err no_such_file | Failed e => Err e end.

(** [fs::symlink_metadata] *)
Definition symlink_metadata (fs : Fs) (p : list string) : result unit IoError :=
  match lstat fs p with Found _ _ => Ok tt | Absent _ _ => Err no_such_file | Failed e => Err e end.

(** [fs::try_exists] *)
Definition try_exists (fs : Fs) (p : list string) : result bool IoError :=
  match canonicalize fs p with
  | Ok _ => Ok true
  | Err e => if decide (io_kind e = NotFound) then Ok false else Err e
  end.

(** [Path::is_dir] *)
Definition is_dir (fs : Fs) (p : list string) : bool :=
  match stat fs p with Found q _ => match node_at fs q with Some DirNode => true | _ => false end | _ => false end.

(** [fs::read_link] *)
Definition read_link (fs : Fs) (p : list string) : result string IoError :=
  match lstat fs p with
  | Found q _ => match node_at fs q with Some (LinkNode target) => Ok target | _ => Err (MkIoError InvalidInput "Invalid argument (os error 22)") end
  | Absent _ _ => Err no_such_file
  | Failed e => Err e
  end.

(** [fs::read] *)
Definition read (fs : Fs) (p : list string) : result string IoError :=
  match stat fs p with
  | Found q _ => match node_at fs q with Some (FileNode bytes) => Ok bytes | _ => Err is_a_directory end
  | Absent _ _ => Err no_such_file
  | Failed e => Err e
  end.

(** [fs::read_to_string] *)
Definition read_to_string (fs : Fs) (p : list string) : result string IoError :=
  match read fs p with
  | Ok bytes => if is_utf8 bytes then Ok bytes else Err (MkIoError InvalidData "stream did not contain valid UTF-8")
  | Err e => Err e
  end.

(** [fs::write]: the file is made if its name is missing, in the directory a link
    leads to if there is one *)
Definition write (fs : Fs) (p : list string) (bytes : string) : Fs * result unit IoError :=
  match stat fs p with
  | Found q _ => match node_at fs q with Some (FileNode _) => (<[q := FileNode bytes]> fs, Ok tt) | _ => (fs, Err is_a_directory) end
  | Absent dir name => (<[dir ++ [name] := FileNode bytes]> fs, Ok tt)
  | Failed e => (fs, Err e)
  end.

Definition mkdir (fs : Fs) (p : list string) : result Fs IoError :=
  match lstat fs p with
  | Found _ _ => Err file_exists
  | Absent dir name => Ok (<[dir ++ [name] := DirNode]> fs)
  | Failed e => Err e
  end.

(** [fs::create_dir_all]; [depth] is the number of names of [p] *)
Fixpoint create_dirs (depth : nat) (fs : Fs) (p : list string) : Fs * result unit IoError :=
  match mkdir fs p with
  | Ok fs => (fs, Ok tt)
  | Err e =>
    if decide (io_kind e = NotFound) then
      match depth with
      | 0 => (fs, Err e)
      | S depth =>
        let '(fs, made) := create_dirs depth fs (parent p) in
        match made with
        | Err e => (fs, Err e)
        | Ok _ =>
          match mkdir fs p with
          | Ok fs => (fs, Ok tt)
          | Err e => (fs, if is_dir fs p then Ok tt else Err e)
          end
        end
      end
    else (fs, if is_dir fs p then Ok tt else Err e)
  end.

Definition create_dir_all (fs : Fs) (p : list string) : Fs * result unit IoError := create_dirs (length p) fs p.

(** ** Resolving the path of a tool call *)

Section Tools.
Context `{E : Ext}.
(** The working directory of the process, for relative paths without a root. *)
Context (cwd : RealPath).

Definition byte_len (s : string) : N := N.of_nat (String.length s).

Definition display (p : list string) : string := ("/" ++ join "/" p)%string.

(** A path handed to the file system as it is. *)
Definition as_given (path : string) : list string := if is_absolute path then components path else cwd ++ components path.

(** [Path::starts_with] *)
Definition inside (root p : list string) : bool := bool_decide (root `prefix_of` p).

(** An absolute path without [".."], the names taken for directories.
    @src src/tools/path.rs:196-208 [normalize] *)
Definition normalize (names : list string) : list string :=
  foldl (fun normalized c => if String.eqb c ".." then parent normalized else normalized ++ [c]) [] names.

Definition escapes (path : string) (root : list string) : string :=
  ("path " ++ path ++ " escapes execution root " ++ display root)%string.

Definition cannot_resolve (p : list string) (e : IoError) : string :=
  ("failed to resolve path " ++ display p ++ ": " ++ io_text e)%string.

Definition cannot_check (p : list string) (e : IoError) : string :=
  ("failed to check whether path exists " ++ display p ++ ": " ++ io_text e)%string.

(** @src src/tools/path.rs:169-176 [canonical_root] *)
Definition canonical_root (fs : Fs) (root : list string) : result RealPath string :=
  match canonicalize fs root with
  | Ok p => Ok p
  | Err e => Err ("failed to resolve execution root " ++ display root ++ ": " ++ io_text e)%string
  end.

(** @src src/tools/path.rs:178-194 [candidate_path] *)
Definition candidate_path (path : string) (root : RealPath) : result (list string) string :=
  if is_absolute path then Ok (normalize (components path))
  else
    let candidate := normalize (root ++ components path) in
    if inside root candidate then Ok candidate else Err (escapes path root).

(** Where a path that exists really is, if that is inside.
    @src src/tools/path.rs:14-25 [resolve_existing_path] *)
Definition confined (fs : Fs) (root : RealPath) (candidate : list string) : result (list string) string :=
  match canonicalize fs candidate with
  | Err e => Err (cannot_resolve candidate e)
  | Ok canonical => if inside root canonical then Ok canonical else Err (escapes (display candidate) root)
  end.

(** @src src/tools/path.rs:3-26 [resolve_existing_path] *)
Definition resolve_existing_path (fs : Fs) (path : string) (execution_root : option (list string)) : result (list string) string :=
  match execution_root with
  | None => Ok (as_given path)
  | Some root =>
    root <-? canonical_root fs root ;;
    candidate <-? candidate_path path root ;;
    confined fs root candidate
  end.

(** [depth] is the number of names of [current].
    @src src/tools/path.rs:212-230 [nearest_existing_ancestor, loop] *)
Fixpoint existing_ancestor (depth : nat) (fs : Fs) (path current : list string) : result (list string) string :=
  match try_exists fs current with
  | Ok true => Ok current
  | Ok false =>
    match depth with
    | 0 => Err ("failed to find existing ancestor for " ++ display path)%string
    | S depth => existing_ancestor depth fs path (parent current)
    end
  | Err e => Err (cannot_check current e)
  end.

(** @src src/tools/path.rs:210-231 [nearest_existing_ancestor] *)
Definition nearest_existing_ancestor (fs : Fs) (path : list string) : result (list string) string :=
  existing_ancestor (length (parent path)) fs path (parent path).

(** The path is to be made: the directory it will be made in is inside.
    @src src/tools/path.rs:77-90 [resolve_writable_path] *)
Definition confined_new (fs : Fs) (root : RealPath) (candidate : list string) (shown : list string) : result (list string) string :=
  ancestor <-? nearest_existing_ancestor fs candidate ;;
  match canonicalize fs ancestor with
  | Err e => Err (cannot_resolve ancestor e)
  | Ok canonical_ancestor => if inside root canonical_ancestor then Ok candidate else Err (escapes (display shown) root)
  end.

(** @src src/tools/path.rs:127-167 [resolve_dangling_symlink] *)
Definition resolve_dangling_symlink (fs : Fs) (candidate root : list string) : result (list string) string :=
  match read_link fs candidate with
  | Err e => Err (cannot_resolve candidate e)
  | Ok link_target =>
    let resolved :=
      if is_absolute link_target then normalize (components link_target)
      else normalize (parent candidate ++ components link_target) in
    match symlink_metadata fs resolved with
    | Ok _ => Err (escapes (display candidate) root)
    | Err _ =>
      if negb (inside root resolved) then Err (escapes (display candidate) root)
      else confined_new fs root resolved candidate
    end
  end.

(** @src src/tools/path.rs:28-91 [resolve_writable_path] *)
Definition resolve_writable_path (fs : Fs) (path : string) (execution_root : option (list string)) : result (list string) string :=
  match execution_root with
  | None => Ok (as_given path)
  | Some root =>
    root <-? canonical_root fs root ;;
    candidate <-? candidate_path path root ;;
    match try_exists fs candidate with
    | Err e => Err (cannot_check candidate e)
    | Ok true => confined fs root candidate
    | Ok false =>
      match symlink_metadata fs candidate with
      | Ok _ => resolve_dangling_symlink fs candidate root
      | Err e => if decide (io_kind e = NotFound) then confined_new fs root candidate candidate else Err (cannot_check candidate e)
      end
    end
  end.

(** @src src/tools/path.rs:103-121 [resolve_readable_path_blocking] *)
Definition resolve_readable_path_blocking (fs : Fs) (path : string) (execution_root : option (list string)) : option (list string) :=
  match execution_root with
  | None => Some (as_given path)
  | Some root =>
    match canonicalize fs root with
    | Err _ => None
    | Ok root =>
      match candidate_path path root with
      | Err _ => None
      | Ok candidate =>
        match canonicalize fs candidate with
        | Ok canonical => if inside root canonical then Some canonical else None
        | Err _ => if inside root candidate then Some candidate else None
        end
      end
    end
  end.

(** ** The tools *)

(** @src src/tools/mod.rs:25-25 [MAX_OUTPUT_BYTES] *)
Definition MAX_OUTPUT_BYTES : N := 102400.

(** The longest prefix of at most [max_bytes] bytes that is cut between characters. *)
Fixpoint char_boundary (max_bytes : nat) (text : string) : nat :=
  if is_utf8 (str_take max_bytes text) then max_bytes
  else match max_bytes with 0 => 0 | S n => char_boundary n text end.

(** @src src/tools/mod.rs:30-39 [truncate_utf8_to_boundary] *)
Definition truncate_utf8_to_boundary (text : string) (max_bytes : N) : string :=
  (str_take (char_boundary (N.to_nat (N.min max_bytes (byte_len text))) text) text ++ String LF "[truncated]")%string.

(** [Display] of [Utf8Error]. *)
Context (utf8_error : string -> string).

(** The text of a file, and whether it was cut.
    @src src/tools/read_file.rs:112-135 [read_limited_utf8_file] *)
Definition read_limited_utf8_file (fs : Fs) (p : list string) : result (string * bool) string :=
  match read fs p with
  | Err e => Err (io_text e)
  | Ok file =>
    let bytes := str_take (S (N.to_nat MAX_OUTPUT_BYTES)) file in
    let truncated := (MAX_OUTPUT_BYTES <? byte_len bytes)%N in
    match from_utf8 bytes with
    | (_, Complete) => Ok (bytes, truncated)
    | (valid, Incomplete _) => if truncated then Ok (valid, truncated) else Err (utf8_error bytes)
    | (_, Invalid _) => Err (utf8_error bytes)
    end
  end.

(** @src src/tools/read_file.rs:72-109 [ReadFileTool::execute] *)
Definition read_file (fs : Fs) (execution_root : option (list string)) (cancelled : bool) (path : string) : result string string :=
  if cancelled then Err "cancelled"
  else
    path <-? resolve_existing_path fs path execution_root ;;
    match read_limited_utf8_file fs path with
    | Ok (content, truncated) => Ok (if truncated then truncate_utf8_to_boundary content MAX_OUTPUT_BYTES else content)
    | Err e => Err ("failed to read file " ++ display path ++ ": " ++ e)%string
    end.

(** The details of a write and of its preview. *)
Record WriteDetails := MkWriteDetails {
  wd_path : list string;
  wd_is_new_file : bool;
  wd_old_content : string;
  wd_new_content : string;
}.

Definition old_content (fs : Fs) (path : list string) : string := match read_to_string fs path with Ok text => text | Err _ => "" end.

(** @src src/tools/write_file.rs:91-101 [WriteFileTool::approval_context] *)
Definition approval_context (fs : Fs) (execution_root : option (list string)) (path content : string) : option WriteDetails :=
  path ← resolve_readable_path_blocking fs path execution_root;
  let old := old_content fs path in
  Some (MkWriteDetails path (str_is_empty old) old content).

(** [path.parent()] is [None] for the root *)
Definition create_parents (fs : Fs) (target : list string) : Fs * result unit IoError :=
  match target with [] => (fs, Ok tt) | _ => create_dir_all fs (parent target) end.

(** @src src/tools/write_file.rs:103-164 [WriteFileTool::execute] *)
Definition write_file (fs : Fs) (execution_root : option (list string)) (cancelled : bool) (path content : string) :
    Fs * result WriteDetails string :=
  if cancelled then (fs, Err "cancelled")
  else
    match resolve_writable_path fs path execution_root with
    | Err error => (fs, Err error)
    | Ok target =>
      let old := old_content fs target in
      let '(fs, made) := create_parents fs target in
      match made with
      | Err e => (fs, Err ("failed to create parent directories for " ++ path ++ ": " ++ io_text e)%string)
      | Ok _ =>
        match write fs target content with
        | (fs, Ok _) => (fs, Ok (MkWriteDetails target (str_is_empty old) old content))
        | (fs, Err e) => (fs, Err ("failed to write file " ++ display target ++ ": " ++ io_text e)%string)
        end
      end
    end.

(** ** Walking *)

Lemma walk_nil links fs follow cur : walk links fs follow cur [] = Found cur links.
Proof. by destruct links. Qed.

(** One name. *)
Definition step_to (links : nat) (fs : Fs) (follow : bool) (cur : RealPath) (c : string) (rest : list string) : Walked :=
  if String.eqb c ".." then walk links fs follow (parent cur) rest
  else match fs !! (cur ++ [c]) with
       | None => match rest with [] => Absent cur c | _ => Failed no_such_file end
       | Some DirNode => walk links fs follow (cur ++ [c]) rest
       | Some (FileNode _) => match rest with [] => Found (cur ++ [c]) links | _ => Failed not_a_directory end
       | Some (LinkNode target) =>
         if (is_nil rest && negb follow)%bool then Found (cur ++ [c]) links
         else match links with
              | 0 => Failed too_many_links
              | S links => walk links fs follow (if is_absolute target then [] else cur) (components target ++ rest)
              end
       end.

Lemma walk_cons links fs follow cur c rest : walk links fs follow cur (c :: rest) = step_to links fs follow cur c rest.
Proof. by destruct links. Qed.

(** The names of a path, then more: the first part must lead to a directory. *)
Definition and_then (fs : Fs) (w : Walked) (follow : bool) (rest : list string) : Walked :=
  match w with
  | Found q links => match node_at fs q with Some (FileNode _) => Failed not_a_directory | _ => walk links fs follow q rest end
  | Absent _ _ => Failed no_such_file
  | Failed e => Failed e
  end.

(** Directories all the way. *)
Definition chain (fs : Fs) (p : RealPath) : Prop :=
  Forall (fun c => c <> "..") p /\ forall k, 0 < k <= length p -> fs !! take k p = Some DirNode.

Lemma chain_nil fs : chain fs [].
Proof. split; [constructor|]. cbn. lia. Qed.

Lemma chain_parent fs p : chain fs p -> chain fs (parent p).
Proof.
  intros [Hn Hc]. unfold parent. split; [by apply Forall_take|]. intros k Hk. rewrite length_take in Hk.
  rewrite take_take, Nat.min_l by lia. apply Hc. lia.
Qed.

Lemma chain_snoc fs p c : chain fs p -> c <> ".." -> fs !! (p ++ [c]) = Some DirNode -> chain fs (p ++ [c]).
Proof.
  intros [Hn Hc] Hne Hd. split; [by apply Forall_app; split; [|constructor]|]. intros k Hk. rewrite length_app in Hk. cbn in Hk.
  destruct (decide (k = length p + 1)) as [->|].
  - rewrite take_ge; [done|]. rewrite length_app. cbn. lia.
  - rewrite take_app_le by lia. apply Hc. lia.
Qed.

Lemma chain_node fs p : chain fs p -> node_at fs p = Some DirNode.
Proof.
  intros [_ Hc]. destruct p as [|c p]; [done|]. cbn [node_at].
  rewrite <- (Hc (length (c :: p))) by (cbn; lia). by rewrite take_ge.
Qed.

Lemma walk_split links fs follow cur a rest :
  chain fs cur -> rest <> [] ->
  walk links fs follow cur (a ++ rest) = and_then fs (walk links fs true cur a) follow rest.
Proof.
  intros Hc Hr. revert cur a Hc. induction links as [links IH] using lt_wf_ind. intros cur a.
  revert cur. induction a as [|c a IHa]; intros cur Hc.
  { rewrite walk_nil. cbn [and_then app]. by rewrite (chain_node fs cur). }
  rewrite <- app_comm_cons, !walk_cons. unfold step_to.
  destruct (String.eqb_spec c "..") as [->|Hne]; [by apply IHa, chain_parent|].
  destruct (fs !! (cur ++ [c])) as [[bytes| |target]|] eqn:Hn.
  - destruct a as [|d a]; cbn [app]; [|done]. destruct rest; [done|]. cbn [and_then]. destruct (cur ++ [c]) eqn:He; [by destruct cur|].
    cbn [node_at]. by rewrite Hn.
  - apply IHa. by apply chain_snoc.
  - assert (is_nil (a ++ rest) = false) as -> by (destruct a, rest; done). cbn [andb negb]. rewrite andb_false_r.
    destruct links as [|links]; [done|]. rewrite app_assoc. apply IH; [lia|]. case_match; [apply chain_nil|done].
  - assert (exists d l, a ++ rest = d :: l) as (d & l & ->) by (destruct a, rest; eauto; done). by destruct a.
Qed.

(** What a walk ends at. *)
Definition ends_at (fs : Fs) (follow : bool) (w : Walked) : Prop :=
  match w with
  | Found q _ =>
    chain fs q \/ exists d c, q = d ++ [c] /\ chain fs d /\ c <> ".."
      /\ ((exists bytes, fs !! q = Some (FileNode bytes)) \/ (follow = false /\ exists target, fs !! q = Some (LinkNode target)))
  | Absent d c => chain fs d /\ c <> ".." /\ fs !! (d ++ [c]) = None
  | Failed _ => True
  end.

Lemma walk_ends links fs follow cur todo : chain fs cur -> ends_at fs follow (walk links fs follow cur todo).
Proof.
  revert cur todo. induction links as [links IH] using lt_wf_ind. intros cur todo. revert cur.
  induction todo as [|c rest IHr]; intros cur Hc; [rewrite walk_nil; by left|]. rewrite walk_cons. unfold step_to.
  destruct (String.eqb_spec c "..") as [->|Hne]; [by apply IHr, chain_parent|].
  destruct (fs !! (cur ++ [c])) as [[bytes| |target]|] eqn:Hn.
  - destruct rest; [|done]. right. exists cur, c. eauto 10.
  - apply IHr. by apply chain_snoc.
  - destruct (is_nil rest && negb follow)%bool eqn:Hl.
    { apply andb_true_iff in Hl as [_ ->%negb_true_iff]. right. exists cur, c. eauto 10. }
    destruct links; [done|]. apply IH; [lia|]. case_match; [apply chain_nil|done].
  - by destruct rest.
Qed.

Lemma stat_ends fs p : ends_at fs true (stat fs p).
Proof. apply walk_ends, chain_nil. Qed.

(** A real path leads to itself. *)
Lemma walk_real links fs follow cur l : chain fs (cur ++ l) -> walk links fs follow cur l = Found (cur ++ l) links.
Proof.
  revert cur. induction l as [|c l IH]; intros cur [Hn Hc]; [by rewrite walk_nil, app_nil_r|].
  rewrite walk_cons. unfold step_to. assert (c <> "..") as Hne by (apply Forall_app in Hn as [_ Hn]; by inversion Hn).
  destruct (String.eqb_spec c ".."); [done|].
  assert (fs !! (cur ++ [c]) = Some DirNode) as ->.
  { rewrite <- (Hc (length cur + 1)); [|rewrite length_app; cbn; lia].
    rewrite take_app_ge by lia. replace (length cur + 1 - length cur) with 1 by lia. done. }
  rewrite IH; rewrite <- app_assoc; done.
Qed.

Lemma chain_mono fs fs' p : (forall q, fs !! q = Some DirNode -> fs' !! q = Some DirNode) -> chain fs p -> chain fs' p.
Proof. intros H [Hn Hc]. split; [done|]. intros k Hk. by apply H, Hc. Qed.

(** Entries made meanwhile do not lead a path elsewhere. *)
Lemma walk_mono links fs fs' follow cur todo q n :
  fs ⊆ fs' -> walk links fs follow cur todo = Found q n -> walk links fs' follow cur todo = Found q n.
Proof.
  intros Hsub. revert cur todo. induction links as [links IH] using lt_wf_ind. intros cur todo. revert cur.
  induction todo as [|c rest IHr]; intros cur; [by rewrite !walk_nil|]. rewrite !walk_cons. unfold step_to.
  destruct (String.eqb c ".."); [apply IHr|].
  destruct (fs !! (cur ++ [c])) as [node|] eqn:Hn; [|by destruct rest].
  rewrite (lookup_weaken _ _ _ _ Hn Hsub). destruct node; [done|apply IHr|].
  destruct (_ && _)%bool; [done|]. destruct links; [done|]. apply IH. lia.
Qed.

(** ** Making entries *)

(** Every entry is in a directory. *)
Definition well_formed (fs : Fs) : Prop := forall q node, fs !! q = Some node -> q <> [] /\ chain fs (parent q).

Definition only_under (r : RealPath) (fs fs' : Fs) : Prop := forall q, fs' !! q <> fs !! q -> r `prefix_of` q.

Lemma only_under_refl r fs : only_under r fs fs.
Proof. by intros q []. Qed.

Lemma only_under_trans r fs1 fs2 fs3 : only_under r fs1 fs2 -> only_under r fs2 fs3 -> only_under r fs1 fs3.
Proof.
  intros H12 H23 q Hq. destruct (decide (fs2 !! q = fs1 !! q)) as [He|He]; [apply H23; congruence|by apply H12].
Qed.

Lemma only_under_insert r fs q node : r `prefix_of` q -> only_under r fs (<[q := node]> fs).
Proof. intros Hr q' Hq. destruct (decide (q' = q)) as [->|Hne]; [done|]. by rewrite lookup_insert_ne in Hq. Qed.

Lemma parent_snoc {A} (l : list A) (x : A) : take (pred (length (l ++ [x]))) (l ++ [x]) = l.
Proof. rewrite length_app, Nat.add_1_r. cbn [pred]. by rewrite take_app_length. Qed.

(** A missing directory has no entries. *)
Lemma missing_empty fs q c : well_formed fs -> q <> [] -> fs !! q = None -> fs !! (q ++ [c]) = None.
Proof.
  intros Hw Hq Hn. destruct (fs !! (q ++ [c])) as [node|] eqn:He; [|done].
  apply Hw in He as [_ [_ Hc]]. unfold parent in Hc. rewrite parent_snoc in Hc.
  specialize (Hc (length q)). rewrite take_ge in Hc by done. rewrite Hn in Hc.
  assert (0 < length q) by (destruct q; [done|cbn; lia]). by specialize (Hc ltac:(lia)).
Qed.

Lemma well_formed_insert fs d c node :
  well_formed fs -> chain fs d -> fs !! (d ++ [c]) = None -> well_formed (<[d ++ [c] := node]> fs).
Proof.
  intros Hw Hd Hn q node' Hq.
  assert (forall p, chain fs p -> chain (<[d ++ [c] := node]> fs) p) as Hmono.
  { intros p. apply chain_mono. intros q' Hq'. rewrite lookup_insert_ne; [done|]. congruence. }
  destruct (decide (q = d ++ [c])) as [->|Hne].
  - split; [by destruct d|]. apply Hmono. unfold parent. by rewrite parent_snoc.
  - rewrite lookup_insert_ne in Hq by done. destruct (Hw _ _ Hq). auto.
Qed.

Section Made.
(** The names [mid] are to be made below [a]; what is there is inside [r]. *)
Context (a mid : list string) (r : RealPath).
Hypothesis plain : Forall (fun c => c <> "..") mid.

Definition safe (fs : Fs) : Prop :=
  forall s d n, s `prefix_of` mid -> stat fs (a ++ s) = Found d n -> r `prefix_of` d.

(** [a ++ s] is a directory without entries. *)
Definition fresh (fs : Fs) (s : list string) : Prop :=
  exists d n, stat fs (a ++ s) = Found d n /\ chain fs d /\ forall c, fs !! (d ++ [c]) = None.

Lemma look_below fs follow p c :
  walk MAXSYMLINKS fs follow [] (p ++ [c]) = and_then fs (stat fs p) follow [c].
Proof. by apply walk_split; [apply chain_nil|]. Qed.

Lemma found_directory fs p d n follow c w :
  stat fs p = Found d n -> and_then fs (Found d n) follow [c] = w -> (forall e, w <> Failed e) ->
  chain fs d /\ w = step_to n fs follow d c [].
Proof.
  intros Hs Hw Hf. cbn [and_then] in Hw. pose proof (stat_ends fs p) as He. rewrite Hs in He. cbn in He.
  destruct He as [Hd|(d' & c' & -> & _ & _ & [[bytes Hb]|[? _]])]; [|exfalso|done].
  - split; [done|]. rewrite (chain_node _ _ Hd), walk_cons in Hw. done.
  - destruct (d' ++ [c']) eqn:Hd; [by destruct d'|]. cbn [node_at] in Hw. rewrite Hb in Hw. by destruct (Hf not_a_directory).
Qed.

Lemma mkdir_safe fs s c fs' :
  well_formed fs -> safe fs -> (s ++ [c]) `prefix_of` mid -> mkdir fs (a ++ s ++ [c]) = Ok fs' ->
  fs ⊆ fs' /\ only_under r fs fs' /\ well_formed fs' /\ safe fs' /\ fresh fs' (s ++ [c]).
Proof using plain.
  intros Hw Hs Hp. unfold mkdir, lstat. rewrite app_assoc, look_below.
  assert (c <> "..") as Hc.
  { destruct Hp as [l ->]. apply Forall_app in plain as [[_ Hc]%Forall_app _]. by inversion Hc. }
  destruct (stat fs (a ++ s)) as [d n|d' c'|e] eqn:Hst; [|done..].
  destruct (and_then fs (Found d n) false [c]) as [| dir name |] eqn:Hw'; [done| |done]. intros [= <-].
  destruct (found_directory fs (a ++ s) d n false c _ Hst Hw') as [Hd Hstep]; [done|].
  unfold step_to in Hstep. destruct (String.eqb_spec c ".."); [done|].
  destruct (fs !! (d ++ [c])) as [[]|] eqn:Hn; cbn [is_nil andb negb] in Hstep; [done|by rewrite walk_nil in Hstep|done|].
  injection Hstep as -> ->.
  assert (r `prefix_of` d) as Hr by (eapply Hs; [|exact Hst]; by eapply prefix_app_l).
  assert (fs ⊆ <[d ++ [c] := DirNode]> fs) as Hsub by (by apply insert_subseteq).
  assert (stat (<[d ++ [c] := DirNode]> fs) (a ++ s ++ [c]) = Found (d ++ [c]) n) as Hmade.
  { unfold stat. rewrite app_assoc, look_below. unfold stat. rewrite (walk_mono _ _ _ _ _ _ _ _ Hsub Hst). cbn [and_then].
    rewrite (chain_node _ d). 2: { eapply chain_mono; [|exact Hd]. intros q Hq. by eapply lookup_weaken. }
    rewrite walk_cons. unfold step_to. destruct (String.eqb_spec c ".."); [done|]. by rewrite lookup_insert_eq, walk_nil. }
  assert (forall e, (<[d ++ [c] := DirNode]> fs) !! ((d ++ [c]) ++ [e]) = None) as Hempty.
  { intros e. rewrite lookup_insert_ne.
    - by apply missing_empty; [|destruct d|].
    - intros He. apply (f_equal length) in He. rewrite !length_app in He. cbn in He. lia. }
  split; [done|]. split; [apply only_under_insert; by apply prefix_app_r|].
  split; [by apply well_formed_insert|]. split.
  - intros s' d' n' Hs' Hd'. assert (s' `prefix_of` s \/ exists t, s' = (s ++ [c]) ++ t) as [[t ->]|[t ->]].
    { destruct (prefix_weak_total _ _ _ Hs' Hp) as [[t Ht]|[t ->]]; [|by right; exists t].
      destruct t as [|x t _] using rev_ind; [right; exists []; by rewrite app_nil_r in Ht |- *|].
      left. exists t. rewrite app_assoc in Ht. by apply app_inj_tail in Ht as [-> _]. }
    + destruct (stat fs (a ++ s')) as [d1 n1|? ?|?] eqn:Hd1.
      * assert (stat (<[d ++ [c] := DirNode]> fs) (a ++ s') = Found d1 n1) as He by (by eapply walk_mono).
        rewrite Hd' in He. injection He as -> _. by eapply Hs.
      * exfalso. destruct t as [|x t]; [rewrite app_nil_r in Hst; congruence|]. unfold stat in Hst, Hd1.
        rewrite app_assoc, walk_split, Hd1 in Hst by (done || apply chain_nil). done.
      * exfalso. destruct t as [|x t]; [rewrite app_nil_r in Hst; congruence|]. unfold stat in Hst, Hd1.
        rewrite app_assoc, walk_split, Hd1 in Hst by (done || apply chain_nil). done.
    + destruct t as [|x t]; [rewrite app_nil_r in Hd'; rewrite Hmade in Hd'; injection Hd' as <- _; by apply prefix_app_r|].
      exfalso. unfold stat in Hd', Hmade. rewrite app_assoc, walk_split, Hmade in Hd' by (done || apply chain_nil).
      assert (node_at (<[d ++ [c] := DirNode]> fs) (d ++ [c]) = Some DirNode) as Hnode.
      { destruct (d ++ [c]) eqn:Hdc; [by destruct d|]. cbn [node_at]. by rewrite lookup_insert_eq. }
      cbn [and_then] in Hd'. rewrite Hnode, walk_cons in Hd'. unfold step_to in Hd'.
      assert (x <> "..") as Hx.
      { destruct Hs' as [l He]. rewrite He in plain. apply Forall_app in plain as [[_ Hx]%Forall_app _]. by inversion Hx. }
      destruct (String.eqb_spec x ".."); [done|]. rewrite Hempty in Hd'. by destruct t.
  - exists (d ++ [c]), n. split; [done|]. split; [|done]. apply chain_snoc; [|done|by rewrite lookup_insert_eq].
    eapply chain_mono; [|exact Hd]. intros q Hq. by eapply lookup_weaken.
Qed.

Lemma lstat_found fs p q n : stat fs p = Found q n -> exists q' n', lstat fs p = Found q' n'.
Proof using.
  intros Hs. destruct p as [|c p _] using rev_ind; [do 2 eexists; apply walk_nil|]. unfold stat, lstat in *.
  rewrite look_below in Hs |- *. destruct (stat fs p) as [d m|? ?|?]; cbn [and_then] in *; try done.
  assert (forall w, walk m fs true d [c] = w -> w = Found q n -> exists q' n', walk m fs false d [c] = Found q' n') as Hgo.
  { intros w <-. rewrite !walk_cons. unfold step_to. destruct (String.eqb c ".."); [rewrite !walk_nil; eauto|].
    destruct (fs !! (d ++ [c])) as [[]|]; cbn [is_nil andb negb]; rewrite ?walk_nil; eauto; done. }
  destruct (node_at fs d) as [[]|]; try done; by eapply Hgo.
Qed.

(** What [create_dir_all] leaves below [a]. *)
Lemma create_dirs_safe depth fs s q n fs' made :
  well_formed fs -> safe fs -> stat fs a = Found q n -> s `prefix_of` mid -> create_dirs depth fs (a ++ s) = (fs', made) ->
  fs ⊆ fs' /\ only_under r fs fs' /\ well_formed fs' /\ safe fs'
  /\ (made = Ok tt -> (fs' = fs /\ exists d m, stat fs (a ++ s) = Found d m) \/ fresh fs' s).
Proof using plain.
  intros Hw Hs Ha. assert (forall s, is_dir fs (a ++ s) = true -> exists d m, stat fs (a ++ s) = Found d m) as Hdir.
  { intros s0. unfold is_dir. destruct (stat fs (a ++ s0)); [eauto|done..]. }
  assert (forall s (e : IoError), is_dir fs (a ++ s) = true \/ (if is_dir fs (a ++ s) then Ok tt else Err e) <> Ok tt) as Hif.
  { intros s0 e. destruct (is_dir fs (a ++ s0)); [by left|by right]. }
  assert (forall s (e : IoError), fs ⊆ fs /\ only_under r fs fs /\ well_formed fs /\ safe fs
    /\ ((if is_dir fs (a ++ s) then Ok tt else Err e) = Ok tt ->
        (fs = fs /\ exists d m, stat fs (a ++ s) = Found d m) \/ fresh fs s)) as Hsame.
  { intros s0 e. split; [done|]. split; [apply only_under_refl|]. split; [done|]. split; [done|].
    intros Hok. destruct (Hif s0 e) as [H|H]; [left; split; [done|by apply Hdir]|done]. }
  revert s fs' made. induction depth as [|depth IH]; intros s fs' made Hp; cbn [create_dirs].
  all: destruct s as [|c s _] using rev_ind.
  1, 3: rewrite app_nil_r; destruct (lstat_found _ _ _ _ Ha) as (q' & n' & Hl); unfold mkdir; rewrite Hl;
    destruct (decide _) as [?|_]; [done|]; intros [= <- <-]; specialize (Hsame [] file_exists); by rewrite app_nil_r in Hsame.
  all: destruct (mkdir fs (a ++ s ++ [c])) as [fs1|e] eqn:Hm;
    [intros [= <- <-]; destruct (mkdir_safe fs s c fs1 Hw Hs Hp Hm) as (? & ? & ? & ? & ?); by auto 10|].
  - destruct (decide _); intros [= <- <-]; [|apply Hsame].
    split; [done|]. split; [apply only_under_refl|]. done.
  - destruct (decide _); [|intros [= <- <-]; apply Hsame].
    assert (parent (a ++ s ++ [c]) = a ++ s) as -> by (unfold parent; by rewrite app_assoc, parent_snoc).
    destruct (create_dirs depth fs (a ++ s)) as [fs1 made1] eqn:Hcreate.
    apply IH in Hcreate as (Hsub & Hu & Hw1 & Hs1 & Hmade); [|by eapply prefix_app_l].
    destruct made1 as [[]|e1]; [|by intros [= <- <-]]. specialize (Hmade eq_refl).
    destruct (mkdir fs1 (a ++ s ++ [c])) as [fs2|e2] eqn:Hm2.
    { intros [= <- <-]. destruct (mkdir_safe fs1 s c fs2 Hw1 Hs1 Hp Hm2) as (? & ? & ? & ? & ?).
      split; [by etransitivity|]. split; [by eapply only_under_trans|]. auto. }
    intros [= <- <-]. split; [done|]. split; [done|]. split; [done|]. split; [done|]. intros Hok.
    destruct Hmade as [[-> _]|(d & m & Hd & Hchain & Hempty)].
    + left. split; [done|]. apply Hdir. by destruct (Hif (s ++ [c]) e2).
    + exfalso. assert (is_dir fs1 (a ++ s ++ [c]) = false) as Hno; [|by rewrite Hno in Hok].
      unfold is_dir, stat. rewrite app_assoc, look_below, Hd. cbn [and_then]. rewrite (chain_node _ _ Hchain), walk_cons. unfold step_to.
      assert (c <> "..") as Hc.
      { destruct Hp as [l He]. rewrite He in plain. apply Forall_app in plain as [[_ Hc]%Forall_app _]. by inversion Hc. }
      destruct (String.eqb_spec c ".."); [done|]. by rewrite Hempty.
Qed.

(** The file is made in a directory inside. *)
Lemma write_safe fs fs1 q n depth c bytes :
  well_formed fs -> safe fs -> stat fs a = Found q n -> c <> ".." ->
  (forall s, s <> [] -> s `prefix_of` mid -> forall d m, stat fs (a ++ s) <> Found d m) ->
  (forall q m, lstat fs (a ++ mid ++ [c]) <> Found q m) ->
  create_dirs depth fs (a ++ mid) = (fs1, Ok tt) ->
  only_under r fs1 (fst (write fs1 (a ++ mid ++ [c]) bytes)).
Proof using plain.
  intros Hw Hs Ha Hc Hnew Hlast Hcreate.
  destruct (create_dirs_safe _ _ _ _ _ _ _ Hw Hs Ha (reflexivity mid) Hcreate) as (Hsub & _ & _ & Hs1 & Hmade).
  assert (forall fs2 d m, stat fs2 (a ++ mid) = Found d m -> safe fs2 -> fs2 !! (d ++ [c]) = None \/ (exists bytes, node_at fs2 d = Some (FileNode bytes)) ->
    only_under r fs2 (fst (write fs2 (a ++ mid ++ [c]) bytes))) as Hgo.
  { intros fs2 d m Hd Hs2 Hno. assert (r `prefix_of` d) as Hr by (by eapply Hs2).
    unfold write, stat. rewrite app_assoc, look_below, Hd. cbn [and_then].
    destruct Hno as [Hno|[bytes' Hno]].
    - destruct (node_at fs2 d) as [[]|]; try apply only_under_refl; rewrite walk_cons; unfold step_to;
        (destruct (String.eqb_spec c ".."); [done|]); rewrite Hno; cbn [fst]; apply only_under_insert; by apply prefix_app_r.
    - rewrite Hno. apply only_under_refl. }
  destruct (Hmade eq_refl) as [[-> (d & m & Hd)]|(d & m & Hd & Hchain & Hempty)].
  - apply (Hgo fs d m Hd Hs). destruct mid as [|x l] eqn:Hmid; [|by destruct (Hnew (x :: l) ltac:(done) (reflexivity _) d m)].
    rewrite app_nil_r in Hd. cbn [app] in Hlast.
    destruct (fs !! (d ++ [c])) as [node|] eqn:Hn; [right|by left].
    pose proof (stat_ends fs a) as He. rewrite Hd in He. destruct He as [Hchain|(d' & c' & -> & _ & _ & [[bytes' Hb]|[? _]])]; [|exists bytes'; destruct (d' ++ [c']) eqn:He; [by destruct d'|done]|done].
    exfalso. unfold lstat in Hlast. rewrite look_below, Hd in Hlast. cbn [and_then] in Hlast.
    rewrite (chain_node _ _ Hchain), walk_cons in Hlast. unfold step_to in Hlast. destruct (String.eqb_spec c ".."); [done|].
    rewrite Hn in Hlast. destruct node; cbn [is_nil andb negb] in Hlast; rewrite ?walk_nil in Hlast; by eapply Hlast.
  - apply (Hgo fs1 d m Hd Hs1). left. apply Hempty.
Qed.

End Made.

(** ** The paths that are let through *)

Lemma normalize_plain names : Forall (fun c => c <> "..") (normalize names).
Proof using.
  unfold normalize. assert (forall done, Forall (fun c => c <> "..") done ->
    Forall (fun c => c <> "..") (foldl (fun normalized c => if String.eqb c ".." then parent normalized else normalized ++ [c]) done names)) as H;
    [|apply H; constructor].
  induction names as [|c names IH]; intros done Hd; cbn [foldl]; [exact Hd|]. apply IH.
  destruct (String.eqb_spec c ".."); [by apply Forall_take|]. apply Forall_app. split; [exact Hd|]. by constructor.
Qed.

Lemma try_exists_true fs p : try_exists fs p = Ok true -> exists q n, stat fs p = Found q n.
Proof using. unfold try_exists, canonicalize. destruct (stat fs p); [eauto|..]; by repeat case_decide. Qed.

Lemma try_exists_false fs p : try_exists fs p = Ok false -> forall q n, stat fs p <> Found q n.
Proof using. unfold try_exists, canonicalize. by destruct (stat fs p). Qed.

Lemma parent_length p : length (parent p) = pred (length p).
Proof using. unfold parent. rewrite length_take. lia. Qed.

Lemma existing_ancestor_spec depth fs path current a :
  length current = depth -> existing_ancestor depth fs path current = Ok a ->
  exists mid, current = a ++ mid /\ try_exists fs a = Ok true
    /\ forall s, s <> [] -> s `prefix_of` mid -> try_exists fs (a ++ s) = Ok false.
Proof using.
  revert current. induction depth as [|depth IH]; intros current Hl; cbn [existing_ancestor].
  - destruct (try_exists fs current) as [[]|e] eqn:He; [|done..]. intros [= <-]. exists []. rewrite app_nil_r. split; [done|]. split; [done|].
    by intros s Hs ->%prefix_nil_inv.
  - destruct (try_exists fs current) as [[]|e] eqn:He; [| |done].
    { intros [= <-]. exists []. rewrite app_nil_r. split; [done|]. split; [done|]. by intros s Hs ->%prefix_nil_inv. }
    destruct current as [|c l _] using rev_ind; [done|]. unfold parent. rewrite parent_snoc. intros Ha.
    rewrite length_app in Hl. cbn in Hl. apply IH in Ha as (mid & -> & Hex & Hno); [|lia].
    exists (mid ++ [c]). split; [by rewrite app_assoc|]. split; [done|]. intros s Hs [t Ht].
    destruct t as [|x t _] using rev_ind.
    + rewrite app_nil_r in Ht. subst s. by rewrite app_assoc.
    + rewrite app_assoc in Ht. apply app_inj_tail in Ht as [-> _]. apply Hno; [done|]. by exists t.
Qed.

Lemma confined_new_spec fs root p shown t :
  confined_new fs root p shown = Ok t ->
  t = p /\ exists a mid q n, parent p = a ++ mid /\ stat fs a = Found q n /\ root `prefix_of` q
    /\ forall s, s <> [] -> s `prefix_of` mid -> forall d m, stat fs (a ++ s) <> Found d m.
Proof using.
  unfold confined_new, nearest_existing_ancestor.
  destruct (existing_ancestor _ fs p (parent p)) as [a|e] eqn:Ha; cbn [result_bind]; [|done].
  apply existing_ancestor_spec in Ha as (mid & Hp & Hex & Hno); [|done].
  destruct (try_exists_true _ _ Hex) as (q & n & Hq). unfold canonicalize. rewrite Hq.
  unfold inside. destruct (bool_decide_reflect (root `prefix_of` q)); [|done]. intros [= <-]. split; [done|].
  exists a, mid, q, n. split; [done|]. split; [done|]. split; [done|]. intros s Hs Hmid. by apply try_exists_false, Hno.
Qed.

Lemma create_parents_snoc fs l c : create_parents fs (l ++ [c]) = create_dirs (length l) fs l.
Proof using.
  assert (parent (l ++ [c]) = l) as Hp by (unfold parent; apply parent_snoc).
  unfold create_parents. destruct (l ++ [c]) as [|x l'] eqn:He; [by destruct l|]. unfold create_dir_all. by rewrite Hp.
Qed.

(** A file made below [a], where only the names of [mid] are missing, is made inside,
    and so are the directories above it. *)
Lemma made_below fs root a mid c q n bytes fs1 made :
  well_formed fs -> Forall (fun c => c <> "..") (mid ++ [c]) -> stat fs a = Found q n -> root `prefix_of` q ->
  (forall s, s <> [] -> s `prefix_of` mid -> forall d m, stat fs (a ++ s) <> Found d m) ->
  (forall q m, lstat fs (a ++ mid ++ [c]) <> Found q m) -> create_parents fs (a ++ mid ++ [c]) = (fs1, made) ->
  only_under root fs fs1 /\ (made = Ok tt -> only_under root fs1 (fst (write fs1 (a ++ mid ++ [c]) bytes))).
Proof using.
  intros Hw [Hmid Hpc]%Forall_app Ha Hr Hno Hl. rewrite app_assoc, create_parents_snoc. rewrite <- app_assoc. intros Hc.
  assert (safe a mid root fs) as Hs.
  { intros s d m Hs Hd. destruct s as [|x s]; [|by destruct (Hno (x :: s) ltac:(done) Hs d m)].
    rewrite app_nil_r in Hd. rewrite Ha in Hd. by injection Hd as <- _. }
  destruct (create_dirs_safe a mid root Hmid _ _ _ _ _ _ _ Hw Hs Ha (reflexivity mid) Hc) as (_ & Hu & _). split; [done|].
  intros ->. apply (write_safe a mid root Hmid fs fs1 q n (length (a ++ mid)) c bytes Hw Hs Ha); try done. by inversion Hpc.
Qed.

(** The same at a path that was let through. *)
Lemma new_file_inside fs root p shown bytes fs1 made :
  well_formed fs -> Forall (fun c => c <> "..") p -> (forall q m, lstat fs p <> Found q m) ->
  confined_new fs root p shown = Ok p -> create_parents fs p = (fs1, made) ->
  only_under root fs fs1 /\ (made = Ok tt -> only_under root fs1 (fst (write fs1 p bytes))).
Proof using.
  intros Hw Hplain Hl (_ & a & mid & q & n & Hp & Ha & Hr & Hno)%confined_new_spec.
  destruct p as [|c p _] using rev_ind; [by destruct (Hl [] MAXSYMLINKS)|].
  unfold parent in Hp. rewrite parent_snoc in Hp. subst p. rewrite <- app_assoc in *.
  apply (made_below fs root a mid c q n); try done. by apply Forall_app in Hplain as [_ ?].
Qed.

(** The real path of something that exists. *)
Lemma real_stat fs p q n : stat fs p = Found q n ->
  (chain fs q \/ exists bytes, node_at fs q = Some (FileNode bytes)) /\ stat fs q = Found q MAXSYMLINKS /\ chain fs (parent q).
Proof using.
  intros Hq. pose proof (stat_ends fs p) as He. rewrite Hq in He.
  destruct He as [Hc|(d & c & -> & Hc & Hne & [[bytes Hb]|[? _]])]; [| |done].
  - split; [by left|]. split; [|by apply chain_parent]. by apply (walk_real _ _ _ [] q).
  - split; [right; exists bytes; destruct (d ++ [c]) eqn:He; [by destruct d|done]|]. unfold parent. rewrite parent_snoc. split; [|done].
    unfold stat. rewrite look_below. unfold stat. rewrite (walk_real _ _ _ [] d Hc). cbn [app and_then]. rewrite (chain_node _ _ Hc), walk_cons.
    unfold step_to. destruct (String.eqb_spec c ".."); [done|]. by rewrite Hb.
Qed.

Lemma create_parents_real fs p q n : stat fs p = Found q n -> create_parents fs q = (fs, Ok tt).
Proof using.
  intros (_ & _ & Hc)%real_stat. unfold create_parents. destruct q as [|x q]; [done|]. unfold create_dir_all.
  assert (mkdir fs (parent (x :: q)) = Err file_exists) as Hm.
  { unfold mkdir, lstat. by rewrite (walk_real _ _ _ [] _ Hc). }
  assert (is_dir fs (parent (x :: q)) = true) as Hd.
  { unfold is_dir, stat. rewrite (walk_real _ _ _ [] _ Hc). cbn [app]. by rewrite (chain_node _ _ Hc). }
  destruct (length (parent (x :: q))); cbn [create_dirs]; rewrite Hm, Hd; by destruct (decide _).
Qed.

Lemma confined_spec fs root p t : confined fs root p = Ok t -> root `prefix_of` t /\ exists n, stat fs p = Found t n.
Proof using.
  unfold confined, canonicalize, inside. destruct (stat fs p) as [q n|? ?|?]; [|done..].
  destruct (bool_decide_reflect (root `prefix_of` q)); [|done]. intros [= <-]. eauto.
Qed.

Lemma write_real fs p q n root bytes : stat fs p = Found q n -> root `prefix_of` q -> only_under root fs (fst (write fs q bytes)).
Proof using.
  intros (_ & Hq & _)%real_stat Hr. unfold write. rewrite Hq. destruct (node_at fs q) as [[]|]; try apply only_under_refl. by apply only_under_insert.
Qed.

(** A path that may be written: it exists inside, or is made inside. *)
Lemma writable_inside fs root path t bytes fs1 made :
  well_formed fs -> resolve_writable_path fs path (Some root) = Ok t -> create_parents fs t = (fs1, made) ->
  exists r, canonicalize fs root = Ok r /\ only_under r fs fs1 /\ (made = Ok tt -> only_under r fs1 (fst (write fs1 t bytes))).
Proof using.
  intros Hw. cbn [resolve_writable_path]. unfold canonical_root. destruct (canonicalize fs root) as [r|e]; cbn [result_bind]; [|done].
  destruct (candidate_path path r) as [candidate|e] eqn:Hcand; cbn [result_bind]; [|done].
  assert (Forall (fun c => c <> "..") candidate) as Hplain.
  { unfold candidate_path in Hcand. destruct (is_absolute path); [injection Hcand as <-; apply normalize_plain|].
    destruct (inside r _); [|done]. injection Hcand as <-. apply normalize_plain. }
  intros Ht Hcreate. exists r. split; [done|].
  assert (forall p shown, Forall (fun c => c <> "..") p -> (forall q m, lstat fs p <> Found q m) -> confined_new fs r p shown = Ok t ->
    only_under r fs fs1 /\ (made = Ok tt -> only_under r fs1 (fst (write fs1 t bytes)))) as Hnew.
  { intros p shown Hp Hl Hc. pose proof (confined_new_spec _ _ _ _ _ Hc) as [-> _]. by eapply new_file_inside. }
  destruct (try_exists fs candidate) as [[]|e] eqn:Hex; [| |done].
  - apply confined_spec in Ht as [Hr [n Hn]]. rewrite (create_parents_real _ _ _ _ Hn) in Hcreate. injection Hcreate as <- <-.
    split; [apply only_under_refl|]. intros _. by eapply write_real.
  - unfold symlink_metadata in Ht. destruct (lstat fs candidate) as [q n|d c|e] eqn:Hl.
    + unfold resolve_dangling_symlink in Ht. destruct (read_link fs candidate) as [target|e]; [|done].
      cbv zeta in Ht. set (resolved := if is_absolute target then _ else _) in Ht.
      assert (Forall (fun c => c <> "..") resolved) as Hres by (subst resolved; destruct (is_absolute target); apply normalize_plain).
      unfold symlink_metadata in Ht. destruct (lstat fs resolved) as [q' n'|? ?|?] eqn:Hl'; [done|..];
        (destruct (negb (inside r resolved)); [done|]; eapply Hnew; [exact Hres|by rewrite Hl'|exact Ht]).
    + case_decide; [|done]. eapply Hnew; [exact Hplain|by rewrite Hl|exact Ht].
    + case_decide; [|done]. eapply Hnew; [exact Hplain|by rewrite Hl|exact Ht].
Qed.

(** A path that exists inside. *)
Lemma existing_inside fs root path t :
  resolve_existing_path fs path (Some root) = Ok t ->
  exists r n p, canonicalize fs root = Ok r /\ r `prefix_of` t /\ stat fs p = Found t n /\ stat fs t = Found t MAXSYMLINKS.
Proof using.
  cbn [resolve_existing_path]. unfold canonical_root. destruct (canonicalize fs root) as [r|e]; cbn [result_bind]; [|done].
  destruct (candidate_path path r) as [candidate|e]; cbn [result_bind]; [|done].
  intros (Hr & n & Hn)%confined_spec. exists r, n, candidate. split_and!; [done..|]. by apply (real_stat _ _ _ _ Hn).
Qed.

Lemma write_ok fs p bytes fs' : write fs p bytes = (fs', Ok tt) -> exists q, fs' !! q = Some (FileNode bytes).
Proof using.
  unfold write. destruct (stat fs p) as [q n|d c|e]; [|intros [= <-]; eexists; by rewrite lookup_insert_eq|done].
  destruct (node_at fs q) as [[]|]; try done. intros [= <-]. eexists. by rewrite lookup_insert_eq.
Qed.

(** The preview of a write looks where the write looks. *)
Lemma preview_looks fs root path t p :
  resolve_writable_path fs path (Some root) = Ok t -> resolve_readable_path_blocking fs path (Some root) = Some p ->
  old_content fs p = old_content fs t.
Proof using.
  cbn [resolve_writable_path resolve_readable_path_blocking]. unfold canonical_root.
  destruct (canonicalize fs root) as [r|e]; cbn [result_bind]; [|done].
  destruct (candidate_path path r) as [candidate|e]; cbn [result_bind]; [|done].
  assert (forall x, (forall q n, stat fs x <> Found q n) -> old_content fs x = "") as Hnone.
  { intros x Hx. unfold old_content, read_to_string, read. destruct (stat fs x) as [q n|? ?|?]; [by destruct (Hx q n)|done..]. }
  assert (forall x, (forall q n, lstat fs x <> Found q n) -> forall q n, stat fs x <> Found q n) as Hl.
  { intros x Hx q n Hq. destruct (lstat_found fs x q n Hq) as (q' & n' & Hq'). by destruct (Hx q' n').  }
  unfold try_exists, confined. destruct (canonicalize fs candidate) as [c|e] eqn:Hc.
  { destruct (inside r c); [|done]. by intros [= <-] [= <-]. }
  assert (forall q n, stat fs candidate <> Found q n) as Hmiss.
  { intros q n Hq. unfold canonicalize in Hc. by rewrite Hq in Hc. }
  destruct (inside r candidate); [|done]. intros Ht [= <-]. rewrite (Hnone candidate Hmiss).
  destruct (decide (io_kind e = NotFound)); [|done]. unfold symlink_metadata in Ht.
  assert (confined_new fs r candidate candidate = Ok t -> "" = old_content fs t) as Hnew.
  { intros [-> _]%confined_new_spec. symmetry. by apply Hnone. }
  destruct (lstat fs candidate) as [q n|? ?|?]; [|by case_decide; [apply Hnew|]..].
  unfold resolve_dangling_symlink in Ht. destruct (read_link fs candidate) as [target|?]; [|done].
  cbv zeta in Ht. set (resolved := if is_absolute target then _ else _) in Ht. unfold symlink_metadata in Ht.
  destruct (lstat fs resolved) as [q' n'|? ?|?] eqn:Hr; [done|..]; (destruct (negb _); [done|]);
    apply confined_new_spec in Ht as [-> _]; symmetry; apply Hnone, Hl; by rewrite Hr.
Qed.

Lemma write_file_inside fs root cancelled path content fs' written :
  well_formed fs -> write_file fs (Some root) cancelled path content = (fs', written) ->
  fs' = fs \/ exists r, canonicalize fs root = Ok r /\ only_under r fs fs'.
Proof using.
  intros Hw. unfold write_file. destruct cancelled; [intros [= <- _]; by left|].
  destruct (resolve_writable_path fs path (Some root)) as [t|e] eqn:Ht; [|intros [= <- _]; by left].
  destruct (create_parents fs t) as [fs1 made] eqn:Hc. cbv zeta.
  destruct (writable_inside fs root path t content fs1 made Hw Ht Hc) as (r & Hr & Hu & Hwr). intros H. right. exists r. split; [done|].
  destruct made as [[]|e]; [|by injection H as <- _]. specialize (Hwr eq_refl).
  destruct (write fs1 t content) as [fs2 [[]|e]]; injection H as <- _; by eapply only_under_trans.
Qed.

Lemma write_file_ok fs root cancelled path content fs' d :
  write_file fs (Some root) cancelled path content = (fs', Ok d) ->
  (exists q, fs' !! q = Some (FileNode content))
  /\ forall p, approval_context fs (Some root) path content = Some p -> wd_old_content p = wd_old_content d.
Proof using.
  unfold write_file. destruct cancelled; [done|].
  destruct (resolve_writable_path fs path (Some root)) as [t|e] eqn:Ht; [|done].
  destruct (create_parents fs t) as [fs1 [[]|e]]; [|done]. cbv zeta. destruct (write fs1 t content) as [fs2 [[]|e]] eqn:Hwr; [|done].
  intros [= <- <-]. split; [by eapply write_ok|]. intros p. unfold approval_context.
  destruct (resolve_readable_path_blocking fs path (Some root)) as [x|] eqn:Hx; [|done]. cbn. intros [= <-]. cbn.
  by eapply preview_looks.
Qed.

Lemma starts_with_take n s : starts_with (str_take n s) s = true.
Proof using. rewrite <- (str_take_drop n s) at 2. apply starts_with_app. Qed.

Lemma starts_with_trans a b c : starts_with a b = true -> starts_with b c = true -> starts_with a c = true.
Proof using.
  revert b c. induction a as [|x a IH]; intros [|y b] [|z c]; cbn; try done.
  intros [->%Ascii.eqb_eq Ha]%andb_true_iff [Hb Hbc]%andb_true_iff. rewrite Hb. cbn. by eapply IH.
Qed.

(** The decoded text and the sequence that is cut make up the bytes. *)
Lemma utf8_scan_cut pending expect bs v c :
  utf8_scan pending expect bs = (v, Incomplete c) -> (v ++ c)%string = match expect with [] => bs | _ => (pending ++ bs)%string end.
Proof using.
  revert pending expect v. induction bs as [|a bs IH]; intros pending expect v; cbn [utf8_scan].
  { destruct expect; [done|]. intros [= <- <-]. by rewrite string_app_nil_r. }
  destruct expect as [|r ex].
  - destruct (utf8_lead a) as [[|r ex]|] eqn:Hl; [|by intros ->%IH|done].
    destruct (utf8_scan "" [] bs) as [v' st] eqn:Hs. intros [= <- ->]. rewrite string_app_cons. by rewrite (IH _ _ _ Hs).
  - destruct (in_range r a); [|done]. destruct ex as [|r' ex].
    + destruct (utf8_scan "" [] bs) as [v' st] eqn:Hs. intros [= <- ->]. rewrite string_app_assoc, string_app_cons. by rewrite (IH _ _ _ Hs).
    + intros ->%IH. by rewrite string_app_assoc.
Qed.

Lemma from_utf8_whole bytes v c : from_utf8 bytes = (v, Incomplete c) -> (v ++ c)%string = bytes.
Proof using. exact (utf8_scan_cut "" [] bytes v c). Qed.

(** What a read gives of the file its path leads to. *)
Lemma read_file_gives fs root cancelled path text :
  read_file fs root cancelled path = Ok text ->
  exists p q n bytes, resolve_existing_path fs path root = Ok p /\ stat fs p = Found q n /\ node_at fs q = Some (FileNode bytes)
    /\ (text = bytes \/ exists kept, starts_with kept bytes = true /\ text = (kept ++ String LF "[truncated]")%string).
Proof using.
  unfold read_file. destruct cancelled; [done|].
  destruct (resolve_existing_path fs path root) as [p|e]; cbn [result_bind]; [|done].
  unfold read_limited_utf8_file, read. destruct (stat fs p) as [q n|? ?|?] eqn:Hq; [|done..].
  destruct (node_at fs q) as [[bytes| |]|] eqn:Hn; try done. set (kept := str_take _ bytes).
  intros H. exists p, q, n, bytes. do 3 (split; [done|]). clear Hn Hq.
  assert (starts_with kept bytes = true) as Hk by apply starts_with_take.
  assert (forall x, starts_with x kept = true -> exists y, starts_with y bytes = true
    /\ truncate_utf8_to_boundary x MAX_OUTPUT_BYTES = (y ++ String LF "[truncated]")%string) as Hcut.
  { intros x Hx. unfold truncate_utf8_to_boundary. eexists. split; [|reflexivity].
    eapply starts_with_trans; [apply starts_with_take|]. by eapply starts_with_trans. }
  destruct (from_utf8 kept) as [valid [|carry|rest]] eqn:Hu; [| |done].
  - destruct (N.ltb_spec MAX_OUTPUT_BYTES (byte_len kept)) as [_|Hle]; injection H as <-.
    + destruct (Hcut kept) as (y & Hy & He); [|right; by exists y]. rewrite <- (str_take_ge (String.length kept) kept) at 1 by lia. apply starts_with_take.
    + left. subst kept. apply str_take_ge. unfold byte_len in Hle. rewrite str_take_length in Hle. lia.
  - destruct (MAX_OUTPUT_BYTES <? byte_len kept)%N; [|done]. injection H as <-.
    destruct (Hcut valid) as (y & Hy & He); [|right; by exists y].
    rewrite <- (from_utf8_whole kept valid carry Hu). apply starts_with_app.
Qed.

Lemma read_file_inside fs root cancelled path text :
  read_file fs (Some root) cancelled path = Ok text ->
  exists r q bytes, canonicalize fs root = Ok r /\ r `prefix_of` q /\ fs !! q = Some (FileNode bytes)
    /\ (text = bytes \/ exists kept, starts_with kept bytes = true /\ text = (kept ++ String LF "[truncated]")%string).
Proof using.
  intros (p & q & n & bytes & (r & n' & p' & Hroot & Hr & Hp & Hq)%existing_inside & Hs & Hn & Ht)%read_file_gives.
  rewrite Hq in Hs. injection Hs as <- _. exists r, p, bytes. do 2 (split; [done|]). split; [by destruct p|done].
Qed.

(** C10: the file tools stay in their execution root, whatever path the model asks
    for and whatever symbolic links there are.  A write changes no entry outside
    the real root, be it of a file that exists, one behind a dangling link or one
    whose directories have to be made, and also when it fails half way; a write
    that succeeds leaves the content in a file; the preview shown for approval has
    the content that is overwritten.  A read gives the content of a file inside, up
    to a limit. *)
Theorem file_tools_stay_inside fs root cancelled path content :
  well_formed fs ->
  let '(fs', written) := write_file fs (Some root) cancelled path content in
  (forall q, fs' !! q <> fs !! q -> exists r, canonicalize fs root = Ok r /\ r `prefix_of` q)
  /\ (forall d, written = Ok d -> (exists q, fs' !! q = Some (FileNode content))
       /\ forall p, approval_context fs (Some root) path content = Some p -> wd_old_content p = wd_old_content d)
  /\ (forall text, read_file fs (Some root) cancelled path = Ok text ->
       exists r q bytes, canonicalize fs root = Ok r /\ r `prefix_of` q /\ fs !! q = Some (FileNode bytes)
         /\ (text = bytes \/ exists kept, starts_with kept bytes = true /\ text = (kept ++ String LF "[truncated]")%string)).
Proof using.
  intros Hw. destruct (write_file fs (Some root) cancelled path content) as [fs' written] eqn:Hwrite. split; [|split].
  - destruct (write_file_inside _ _ _ _ _ _ _ Hw Hwrite) as [->|(r & Hr & Hu)]; [by intros q []|]. intros q Hq. exists r. auto.
  - intros d ->. by eapply write_file_ok.
  - intros text. apply read_file_inside.
Qed.

End Tools.

(** ** A root with links in it *)
Section Demo.

Definition demo : Fs :=
  foldl (fun fs '(q, node) => <[q := node]> fs) ∅
    [(["work"], DirNode); (["etc"], DirNode); (["etc"; "passwd"], FileNode "secret"); (["work"; "a"], FileNode "text");
     (["work"; "out"], LinkNode "/etc"); (["work"; "up"], LinkNode "../etc/passwd"); (["work"; "hole"], LinkNode "/etc/new");
     (["work"; "in"], LinkNode "./b")].

Definition asks (path : string) : Fs * result WriteDetails string := write_file [] demo (Some ["work"]) false path "new".

Example inside_and_out :
  map (fun path => match asks path with (fs, Ok d) => (true, wd_path d) | (fs, Err _) => (bool_decide (fs <> demo), []) end)
    ["a"; "b/c/d"; "in"; "out/passwd"; "up"; "hole"; "out/new/file"; "../etc/passwd"; "/etc/passwd"; "hole/x"]
  = [(true, ["work"; "a"]); (true, ["work"; "b"; "c"; "d"]); (true, ["work"; "b"]);
     (false, []); (false, []); (false, []); (false, []); (false, []); (false, []); (false, [])].
Proof. vm_compute. done. Qed.

Lemma chain_one fs c : c <> ".." -> fs !! [c] = Some DirNode -> chain fs [c].
Proof. intros Hc Hf. apply (chain_snoc fs [] c); [apply chain_nil|done|done]. Qed.

Lemma demo_well_formed : well_formed demo.
Proof.
  unfold demo. cbn [foldl].
  repeat match goal with
    | |- well_formed (<[[?c] := _]> ?fs) => apply (well_formed_insert fs [] c); [|apply chain_nil|reflexivity]
    | |- well_formed (<[[?d; ?c] := _]> ?fs) => apply (well_formed_insert fs [d] c); [|apply chain_one; [discriminate|reflexivity]|reflexivity]
    end.
  intros q node Hq. by rewrite lookup_empty in Hq.
Qed.

Lemma file_tools_stay_inside_witness :
  well_formed demo /\ exists fs d, asks "b/c" = (fs, Ok d) /\ exists q, fs !! q = Some (FileNode "new").
Proof.
  split; [exact demo_well_formed|]. pose proof (file_tools_stay_inside [] (fun _ => "bad") demo ["work"] false "b/c" "new" demo_well_formed) as H.
  change (write_file [] demo (Some ["work"]) false "b/c" "new") with (asks "b/c") in H.
  destruct (asks "b/c") as [fs [d|e]] eqn:Ha.
  - exists fs, d. split; [done|]. by destruct H as (_ & H & _); destruct (H d eq_refl) as [? _].
  - exfalso. apply (f_equal (fun x => match snd x with Ok _ => true | Err _ => false end)) in Ha. vm_compute in Ha. discriminate Ha.
Defined.

End Demo.
End Confine.
