(* ===== verification/EditFile.v ===== *)
(** * The tool that edits files: [src/tools/edit_file.rs]

    Finding the text to replace, exactly or line by line, choosing among the
    places it was found, and replacing it in the file as a whole.  Positions are
    bytes ([usize] as [nat]); what Rust panics on (a slice out of range or within a
    character) is [None]. *)
From S2P Require Export Confine.
From Stdlib Require Import Ascii.
Open Scope string_scope.
Open Scope list_scope.

(** ** Byte strings: searching, slicing, lines *)

(** [str::find]: where [pattern] begins for the first time. *)
Fixpoint str_find (pattern s : string) : option nat :=
  if starts_with pattern s then Some 0
  else match s with "" => None | String _ s => S <$> str_find pattern s end.

(** [str::is_char_boundary] *)
Definition is_char_boundary (s : string) (i : nat) : bool :=
  match str_drop i s with
  | "" => Nat.eqb i (String.length s)
  | String a _ => Nat.eqb i 0 || negb (in_range continuation a)
  end.

(** [&s[lo..hi]] *)
Definition str_slice (s : string) (lo hi : nat) : option string :=
  if Nat.leb lo hi && is_char_boundary s lo && is_char_boundary s hi then Some (str_take (hi - lo) (str_drop lo s)) else None.

(** [str::split('\n')] *)
Definition split_lf (s : string) : list string := let '(lines, rest) := split_newlines s in lines ++ [rest].

(** The bytes without line feeds in front. *)
Fixpoint strip_lf (s : string) : string :=
  match s with "" => "" | String a s' => if Ascii.eqb a LF then strip_lf s' else s end.

Definition rev_string (s : string) : string := String.string_of_list_ascii (rev_bytes s).

(** [str::trim_matches('\n')] *)
Definition trim_lf (s : string) : string := rev_string (strip_lf (rev_string (strip_lf s))).

(** [str::to_ascii_lowercase], and the digits of [{b:02x}]. *)
Definition to_ascii_lowercase (s : string) : string := string_map ascii_lower s.

Definition hex_digit (n : N) : ascii := ascii_of_N (if (n <? 10)%N then 48 + n else 87 + n)%N.

(** ** Slices of valid text *)

Abbreviation valid s := (is_utf8 s = true).

Definition narrow (expect : list (N * N)) : Prop := Forall (fun r => 128 <= fst r /\ snd r <= 191)%N expect.

Lemma utf8_lead_narrow a ex : utf8_lead a = Some ex -> narrow ex /\ in_range continuation a = false.
Proof.
  unfold utf8_lead, in_range, continuation. cbn [fst snd]. intros H.
  repeat match type of H with (if ?b then _ else _) = _ => destruct b eqn:? end; try done; injection H as <-;
    (split; [repeat constructor; cbn; lia|apply not_true_iff_false; intros Hc]);
    repeat match goal with
      | H : (_ && _)%bool = true |- _ => apply andb_true_iff in H as [? ?]
      | H : (_ <=? _)%N = true |- _ => apply N.leb_le in H
      | H : (_ <? _)%N = true |- _ => apply N.ltb_lt in H
      | H : (_ =? _)%N = true |- _ => apply N.eqb_eq in H
      end; lia.
Qed.

(** A sequence that is begun does not go on with the first byte of a character. *)
Lemma utf8_scan_stuck pending expect a b v :
  narrow expect -> expect <> [] -> utf8_lead b <> None -> utf8_scan pending expect (String b a) = (v, Complete) -> False.
Proof.
  intros Hn Hne Hb. destruct expect as [|r ex]; [done|]. cbn [utf8_scan].
  destruct (in_range r b) eqn:Hr; [|done]. intros _. apply Forall_cons in Hn as [[H1 H2] _].
  destruct (utf8_lead b) as [l|] eqn:Hl; [|done]. apply utf8_lead_narrow in Hl as [_ Hl].
  unfold in_range, continuation in *. cbn [fst snd] in *. apply andb_true_iff in Hr as [Hr1%N.leb_le Hr2%N.leb_le].
  apply andb_false_iff in Hl as [Hl%N.leb_gt|Hl%N.leb_gt]; lia.
Qed.

Lemma utf8_scan_prefix pending expect a b t v :
  narrow expect -> utf8_lead b <> None -> utf8_scan pending expect (a ++ String b t) = (v, Complete) ->
  exists v', utf8_scan pending expect a = (v', Complete).
Proof.
  intros Hn Hb. revert pending expect v Hn. induction a as [|x a IH]; intros pending expect v Hn.
  { destruct expect as [|r ex]; [by eexists|]. intros H. exfalso. by eapply utf8_scan_stuck. }
  rewrite string_app_cons. cbn [utf8_scan]. destruct expect as [|r ex].
  - destruct (utf8_lead x) as [[|r ex]|] eqn:Hx; [| |done].
    + destruct (utf8_scan "" [] (a ++ _)) as [v0 st] eqn:Hs. intros [= <- ->]. apply IH in Hs as [v' ->]; [|done]. by eexists.
    + intros H. apply IH in H; [done|]. by apply utf8_lead_narrow in Hx as [? _].
  - destruct (in_range r x); [|done]. apply Forall_cons in Hn as [_ Hn]. destruct ex as [|r' ex].
    + destruct (utf8_scan "" [] (a ++ _)) as [v0 st] eqn:Hs. intros [= <- ->]. apply IH in Hs as [v' ->]; [|done]. by eexists.
    + intros H. by apply IH in H.
Qed.

Lemma valid_complete s : valid s <-> exists v, from_utf8 s = (v, Complete).
Proof.
  unfold is_utf8. destruct (from_utf8 s) as [v []]; split; try done; try (by intros [? ?]). by exists v.
Qed.

Lemma valid_app a b : valid a -> valid (a ++ b) <-> valid b.
Proof.
  intros [v Ha]%valid_complete. rewrite !valid_complete, from_utf8_app, Ha. cbn [utf8_continue]. destruct (from_utf8 b) as [v' st].
  split; intros [w H]; injection H as H1 ->; by eexists.
Qed.

Lemma valid_head a s : valid (String a s) -> utf8_lead a <> None.
Proof. intros [v H]%valid_complete Ha. unfold from_utf8 in H. cbn [utf8_scan] in H. by rewrite Ha in H. Qed.

Lemma valid_before a b t : utf8_lead b <> None -> valid (a ++ String b t) -> valid a.
Proof.
  intros Hb [v H]%valid_complete. apply valid_complete. unfold from_utf8 in *. exact (utf8_scan_prefix "" [] a b t v (Forall_nil_2 _) Hb H).
Qed.

(** What follows a valid text in a valid text. *)
Lemma valid_cut a b t : b <> "" -> valid b -> valid (a ++ b ++ t) -> valid a /\ valid t.
Proof.
  destruct b as [|x b]; [done|]. intros _ Hb Hs. assert (valid a) as Ha.
  { rewrite string_app_cons in Hs. eapply valid_before; [|exact Hs]. by eapply valid_head. }
  split; [done|]. exact (proj1 (valid_app _ _ Hb) (proj1 (valid_app _ _ Ha) Hs)).
Qed.

Lemma str_drop_app_length a b : str_drop (String.length a) (a ++ b) = b.
Proof. rewrite str_drop_app, str_drop_ge by done. by rewrite Nat.sub_diag, str_drop_0. Qed.

Lemma str_take_app_length a b : str_take (String.length a) (a ++ b) = a.
Proof. rewrite str_take_app, str_take_ge by done. by rewrite Nat.sub_diag, str_take_0, string_app_nil_r. Qed.

Lemma boundary_between a b : valid b -> is_char_boundary (a ++ b) (String.length a) = true.
Proof.
  intros Hb. unfold is_char_boundary. rewrite str_drop_app_length, string_app_length. destruct b as [|x b].
  - apply Nat.eqb_eq. cbn. lia.
  - apply valid_head in Hb. destruct (utf8_lead x) as [ex|] eqn:Hx; [|done]. apply utf8_lead_narrow in Hx as [_ ->]. by rewrite orb_true_r.
Qed.

Lemma slice_mid a b c : valid b -> valid c -> str_slice (a ++ b ++ c) (String.length a) (String.length a + String.length b) = Some b.
Proof.
  intros Hb Hc. unfold str_slice. rewrite boundary_between by (by apply valid_app).
  assert (is_char_boundary (a ++ b ++ c) (String.length a + String.length b) = true) as ->.
  { rewrite <- string_app_assoc, <- string_app_length. by apply boundary_between. }
  rewrite (proj2 (Nat.leb_le _ _)) by lia. cbn [andb]. rewrite str_drop_app_length.
  replace (String.length a + String.length b - String.length a) with (String.length b) by lia. by rewrite str_take_app_length.
Qed.

Lemma slice_rest a b : valid b -> str_slice (a ++ b) (String.length a) (String.length (a ++ b)) = Some b.
Proof.
  intros Hb. pose proof (slice_mid a b "" Hb eq_refl) as H. rewrite string_app_nil_r in H. by rewrite string_app_length.
Qed.

Lemma slice_front a b : valid a -> valid b -> str_slice (a ++ b) 0 (String.length a) = Some a.
Proof. intros Ha Hb. exact (slice_mid "" a b Ha Hb). Qed.

(** ** Searching *)

Lemma starts_with_prefix p s : starts_with p s = true <-> exists t, s = (p ++ t)%string.
Proof.
  split; [|intros [t ->]; apply starts_with_app]. revert s. induction p as [|a p IH]; intros s H; [by exists s|].
  destruct s as [|b s]; [done|]. cbn in H. apply andb_true_iff in H as [->%Ascii.eqb_eq H]. apply IH in H as [t ->]. by exists t.
Qed.

Lemma find_splits p s n : str_find p s = Some n -> exists g t, s = (g ++ p ++ t)%string /\ n = String.length g /\ str_find p (g ++ p) = Some n.
Proof.
  revert n. induction s as [|a s IH]; intros n; cbn [str_find].
  - destruct (starts_with p "") eqn:Hp; [|done]. apply starts_with_prefix in Hp as [t Ht]. intros [= <-]. exists "", t. split; [done|].
    split; [done|]. destruct p; done.
  - destruct (starts_with p (String a s)) eqn:Hp.
    + apply starts_with_prefix in Hp as [t Ht]. intros [= <-]. exists "", t. split; [done|]. split; [done|]. rewrite string_app_nil_l.
      destruct p; [done|]. cbn [str_find]. by rewrite <- (string_app_nil_r (String _ p)) at 2; rewrite starts_with_app.
    + destruct (str_find p s) as [m|]; [|done]. intros [= <-]. destruct (IH m eq_refl) as (g & t & -> & -> & Hf).
      exists (String a g), t. split; [done|]. split; [done|]. rewrite string_app_cons. cbn [str_find].
      destruct (starts_with p (String a (g ++ p))) eqn:Hq; [|by rewrite Hf].
      apply (starts_with_app_l _ _ t) in Hq. rewrite string_app_cons, string_app_assoc in Hq. congruence.
Qed.

Lemma find_absent p s : str_find p s = None <-> forall g t, s <> (g ++ p ++ t)%string.
Proof.
  split.
  - induction s as [|a s IH]; cbn [str_find]; (destruct (starts_with p _) eqn:Hp; [done|]); intros H g t Hs.
    + destruct g; [|done]. rewrite string_app_nil_l in Hs. rewrite Hs, starts_with_app in Hp. done.
    + destruct (str_find p s) eqn:Hf; [done|]. destruct g as [|b g]; [rewrite string_app_nil_l in Hs; by rewrite Hs, starts_with_app in Hp|].
      rewrite string_app_cons in Hs. injection Hs as _ Hs. by apply (IH eq_refl g t).
  - intros H. destruct (str_find p s) as [n|] eqn:Hf; [|done]. apply find_splits in Hf as (g & t & Hs & _). by destruct (H g t).
Qed.

Module EditFile.
Import Confine.

(** One find-and-replace operation.
    @src src/tools/edit_file.rs:53-66 [EditOp] *)
Record EditOp := MkEditOp {
  eo_old_string : string;
  eo_new_string : string;
  eo_replace_all : bool;
  eo_line_hint : option N;
}.

(** @src src/tools/edit_file.rs:68-78 [Params] *)
Record Params := MkParams {
  pa_path : string;
  pa_edits : list EditOp;
  pa_expected_hash : option string;
}.

(** [Range<usize>] *)
Abbreviation Range := (nat * nat)%type.

(** ** Matching *)

(** @src src/tools/edit_file.rs:103-106 [line_spans, for] *)
Fixpoint spans_from (pos : nat) (lines : list string) : list (nat * string) :=
  match lines with [] => [] | line :: lines => (pos, line) :: spans_from (pos + String.length line + 1) lines end.

(** Where the lines of a text begin.
    @src src/tools/edit_file.rs:100-108 [line_spans] *)
Definition line_spans (s : string) : list (nat * string) := spans_from 0 (split_lf s).

(** From [start] on; a match takes a byte at least, so as many steps as bytes are enough.
    @src src/tools/edit_file.rs:117-121 [find_exact, while let] *)
Fixpoint find_exact_from (fuel : nat) (content pattern : string) (start : nat) : option (list Range) :=
  match fuel with
  | 0 => None
  | S fuel =>
    rest ← str_slice content start (String.length content);
    match str_find pattern rest with
    | None => Some []
    | Some pos =>
      let abs := start + pos in
      ranges ← find_exact_from fuel content pattern (abs + String.length pattern);
      Some ((abs, abs + String.length pattern) :: ranges)
    end
  end.

(** @src src/tools/edit_file.rs:111-123 [find_exact] *)
Definition find_exact (content pattern : string) : option (list Range) :=
  if str_is_empty pattern then Some [] else find_exact_from (S (String.length content)) content pattern 0.

(** @src src/tools/edit_file.rs:147-150 [find_normalized, all] *)
Definition lines_match (pattern_lines : list string) (spans : list (nat * string)) : bool :=
  forallb (fun '(pl, span) => String.eqb (trim_end (snd span)) (trim_end pl)) (zip pattern_lines spans).

(** From line [i] on, a line or more per step.
    @src src/tools/edit_file.rs:146-162 [find_normalized, while] *)
Fixpoint find_lines_from (fuel : nat) (pattern_lines : list string) (spans : list (nat * string)) (i : nat) : list Range :=
  let n := length pattern_lines in
  match fuel with
  | 0 => []
  | S fuel =>
    if Nat.leb (i + n) (length spans) then
      let here := take n (drop i spans) in
      if lines_match pattern_lines here then
        match head here, last here with
        | Some first, Some last => (fst first, fst last + String.length (snd last)) :: find_lines_from fuel pattern_lines spans (i + n)
        | _, _ => []
        end
      else find_lines_from fuel pattern_lines spans (i + 1)
    else []
  end.

(** @src src/tools/edit_file.rs:131-163 [find_normalized] *)
Definition find_normalized (content pattern : string) : list Range :=
  let pattern := trim_lf pattern in
  if str_is_empty pattern then []
  else
    let pattern_lines := split_lf pattern in
    let spans := line_spans content in
    if Nat.ltb (length spans) (length pattern_lines) then [] else find_lines_from (S (length spans)) pattern_lines spans 0.

(** The line feeds of a text. *)
Fixpoint count_lf (s : string) : nat :=
  match s with "" => 0 | String a s => (if Ascii.eqb a LF then 1 else 0) + count_lf s end.

(** @src src/tools/edit_file.rs:166-168 [line_number_at] *)
Definition line_number_at (content : string) (byte_pos : nat) : option nat :=
  before ← str_slice content 0 byte_pos; Some (count_lf before + 1).

(** ** Replacing *)

(** @src src/tools/edit_file.rs:176-181 [replace_ranges, for] *)
Fixpoint replace_from (content : string) (cursor : nat) (ranges : list Range) (replacement : string) : option string :=
  match ranges with
  | [] => str_slice content cursor (String.length content)
  | (start, end_) :: ranges =>
    gap ← str_slice content cursor start;
    rest ← replace_from content end_ ranges replacement;
    Some (gap ++ replacement ++ rest)%string
  end.

(** @src src/tools/edit_file.rs:173-183 [replace_ranges] *)
Definition replace_ranges (content : string) (ranges : list Range) (replacement : string) : option string :=
  replace_from content 0 ranges replacement.

Definition I64_MAX : Z := 9223372036854775807.

(** How far a place is from the hinted line.
    @src src/tools/edit_file.rs:226-230 [apply_op, min_by_key closure] *)
Definition hint_distance (content : string) (hint : N) (r : Range) : option Z :=
  line ← line_number_at content (fst r); Some (Z.abs (Z.min (Z.of_nat line) I64_MAX - Z.of_N hint)).

(** [Iterator::min_by_key]: the first of the places with the least key
    @src src/tools/edit_file.rs:224-231 [apply_op, best] *)
Fixpoint nearest (content : string) (hint : N) (best : Range) (key : Z) (candidates : list Range) : option Range :=
  match candidates with
  | [] => Some best
  | r :: candidates =>
    key' ← hint_distance content hint r;
    if (key' <? key)%Z then nearest content hint r key' candidates else nearest content hint best key candidates
  end.

Definition not_found (op : EditOp) : string :=
  ("old_string not found (tried exact and whitespace-normalised match):" ++ newline ++ eo_old_string op)%string.

Definition ambiguous (n : nat) : string :=
  ("old_string matched " ++ pretty (N.of_nat n) ++ " times; set replace_all to replace every occurrence, or provide line_hint to select one")%string.

(** @src src/tools/edit_file.rs:193-207 [apply_op, candidates] *)
Definition candidates_of (content : string) (op : EditOp) : option (list Range) :=
  exact ← find_exact content (eo_old_string op);
  match exact with
  | [] => Some (find_normalized content (eo_old_string op))
  | _ => Some exact
  end.

(** @src src/tools/edit_file.rs:187-240 [apply_op] *)
Definition apply_op (content : string) (op : EditOp) : option (result string string) :=
  if str_is_empty (eo_old_string op) then Some (Err "old_string must not be empty")
  else
    candidates ← candidates_of content op;
    match candidates with
    | [] => Some (Err (not_found op))
    | first :: others =>
      if (eo_replace_all op || is_nil others)%bool then Ok <$> replace_ranges content candidates (eo_new_string op)
      else
        match eo_line_hint op with
        | None => Some (Err (ambiguous (length candidates)))
        | Some hint =>
          key ← hint_distance content hint first;
          best ← nearest content hint first key others;
          Ok <$> replace_ranges content [best] (eo_new_string op)
        end
    end.

(** ** The file *)

(** Every edit on what the ones before it made.
    @src src/tools/edit_file.rs:280-282 [edit_file_unlocked, for] *)
Fixpoint apply_edits (i : N) (content : string) (edits : list EditOp) : option (result string string) :=
  match edits with
  | [] => Some (Ok content)
  | op :: edits =>
    applied ← apply_op content op;
    match applied with
    | Err msg => Some (Err ("edit " ++ pretty (i + 1)%N ++ ": " ++ msg)%string)
    | Ok content => apply_edits (i + 1) content edits
    end
  end.

(** The new file is made beside the target and renamed over it; a rename does not
    follow a link.  The disk does not fail.
    @src src/atomic_fs.rs:68-106 [atomic_write_inner] *)
Definition atomic_write_unlocked (fs : Fs) (p : list string) (bytes : string) : Fs * result unit IoError :=
  match p with
  | [] => (fs, Err (MkIoError InvalidInput "target path has no parent directory"))
  | _ =>
    if negb (is_dir fs (parent p)) then (fs, Err no_such_file)
    else match lstat fs p with
         | Found q _ => match node_at fs q with Some DirNode => (fs, Err is_a_directory) | _ => (<[q := FileNode bytes]> fs, Ok tt) end
         | Absent dir name => (<[dir ++ [name] := FileNode bytes]> fs, Ok tt)
         | Failed e => (fs, Err e)
         end
  end.

Section Tool.
Context `{E : Ext} (cwd : RealPath).
(** The digest of the crate [sha2]: bytes. *)
Context (digest : string -> string).
(** What [tokio] says of a task that panicked. *)
Context (join_error : string).

(** @src src/tools/edit_file.rs:85-93 [sha256_hex] *)
Definition sha256_hex (data : string) : string :=
  foldl (fun s b => (s ++ String (hex_digit (N_of_ascii b / 16)) (String (hex_digit (N_of_ascii b mod 16)) ""))%string) ""
    (String.list_ascii_of_string (digest data)).

(** The content before and after.
    @src src/tools/edit_file.rs:256-288 [edit_file_unlocked] *)
Definition edit_file_unlocked (fs : Fs) (path : list string) (expected_hash : option string) (edits : list EditOp)
  : option (Fs * result (string * string) string) :=
  match read fs path with
  | Err e => Some (fs, Err ("failed to read " ++ display path ++ ": " ++ io_text e)%string)
  | Ok raw_bytes =>
    if negb (is_utf8 raw_bytes) then Some (fs, Err (display path ++ " is not valid UTF-8")%string)
    else if match expected_hash with Some expected => negb (String.eqb (sha256_hex raw_bytes) (to_ascii_lowercase expected)) | None => false end
    then Some (fs, Err (display path ++ " has changed since it was last read (hash mismatch); re-read the file before editing")%string)
    else
      applied ← apply_edits 0 raw_bytes edits;
      match applied with
      | Err e => Some (fs, Err e)
      | Ok content =>
        match atomic_write_unlocked fs path content with
        | (fs, Ok _) => Some (fs, Ok (raw_bytes, content))
        | (fs, Err e) => Some (fs, Err ("failed to write " ++ display path ++ ": " ++ io_text e)%string)
        end
      end
  end.

Inductive Edited :=
| NoEdits
| Applied (path : list string) (edits_applied : nat) (old_content new_content : string).

(** The token is looked at before and after the path is resolved; a panic of the
    blocking task is an error result.
    @src src/tools/edit_file.rs:323-405 [EditFileTool::execute] *)
Definition edit_file (fs : Fs) (execution_root : option (list string)) (cancelled_before cancelled : bool)
    (params : result Params string) : Fs * result Edited string :=
  match params with
  | Err e => (fs, Err ("invalid parameters: " ++ e)%string)
  | Ok parsed =>
    if cancelled_before then (fs, Err "cancelled")
    else
      match resolve_existing_path cwd fs (pa_path parsed) execution_root with
      | Err e => (fs, Err e)
      | Ok path =>
        if cancelled then (fs, Err "cancelled")
        else
          match (match execution_root with
                 | None => match canonicalize fs path with Ok path => Ok path | Err e => Err (cannot_resolve path e) end
                 | Some _ => Ok path
                 end) with
          | Err e => (fs, Err e)
          | Ok path =>
            if is_nil (pa_edits parsed) then (fs, Ok NoEdits)
            else
              match edit_file_unlocked fs path (pa_expected_hash parsed) (pa_edits parsed) with
              | None => (fs, Err ("edit task failed: " ++ join_error)%string)
              | Some (fs, Ok (original, content)) => (fs, Ok (Applied path (length (pa_edits parsed)) original content))
              | Some (fs, Err e) => (fs, Err e)
              end
          end
      end
  end.
End Tool.

(** ** Examples *)

Definition edit old new := MkEditOp old new false None.

Example edits_ex :
  map (fun '(content, op) => apply_op content op)
    [("a b a", MkEditOp "a" "xx" true None); ("a b a", edit "a" "x"); ("a b a", edit "b" ""); ("a", edit "q" "x");
     ("a" ++ newline ++ "a" ++ newline ++ "a", MkEditOp "a" "x" false (Some 2%N))]%string
  = [Some (Ok "xx b xx"); Some (Err (ambiguous 2)); Some (Ok "a  a"); Some (Err (not_found (edit "q" "x")));
     Some (Ok ("a" ++ newline ++ "x" ++ newline ++ "a"))]%string.
Proof. vm_compute. reflexivity. Qed.

(** ** Pieces: what a text is between and at the places *)

(** A text before a place and the text at it. *)
Abbreviation Piece := (string * string)%type.

Fixpoint weave (pieces : list Piece) (rest : string) : string :=
  match pieces with [] => rest | (gap, m) :: pieces => (gap ++ m ++ weave pieces rest)%string end.

Fixpoint ranges_of (pos : nat) (pieces : list Piece) : list Range :=
  match pieces with
  | [] => []
  | (gap, m) :: pieces =>
    let start := pos + String.length gap in
    (start, start + String.length m) :: ranges_of (start + String.length m) pieces
  end.

Definition replaced (new : string) (pieces : list Piece) : list Piece := map (fun '(gap, _) => (gap, new)) pieces.

Definition valid_pieces (pieces : list Piece) : Prop := Forall (fun '(gap, m) => valid gap /\ valid m) pieces.

Lemma weave_app ps qs rest : weave (ps ++ qs) rest = weave ps (weave qs rest).
Proof. induction ps as [|[g m] ps IH]; [done|]. cbn. by rewrite IH. Qed.

Lemma weave_split ps rest : weave ps rest = (weave ps "" ++ rest)%string.
Proof. induction ps as [|[g m] ps IH]; [done|]. cbn. by rewrite IH, !string_app_assoc. Qed.

Lemma weave_valid ps rest : valid_pieces ps -> valid rest -> valid (weave ps rest).
Proof. induction 1 as [|[g m] ps [Hg Hm] _ IH]; [done|]. intros Hr. cbn. apply valid_app; [done|]. apply valid_app; auto. Qed.

Lemma replaced_valid new ps : valid new -> valid_pieces ps -> valid_pieces (replaced new ps).
Proof. intros Hn Hp. apply Forall_map. eapply Forall_impl; [exact Hp|]. by intros [g m] [? ?]. Qed.

Lemma ranges_of_length pos ps : length (ranges_of pos ps) = length ps.
Proof. revert pos. induction ps as [|[g m] ps IH]; intros pos; cbn; [done|]. by rewrite IH. Qed.

(** The place a range stands for. *)
Lemma ranges_of_split ps pos before r after :
  ranges_of pos ps = before ++ r :: after ->
  exists pre g m post, ps = pre ++ (g, m) :: post /\ length before = length pre
    /\ r = (pos + String.length (weave pre g), pos + String.length (weave pre g) + String.length m).
Proof.
  revert pos before. induction ps as [|[g m] ps IH]; intros pos before; cbn; [by destruct before|].
  destruct before as [|r0 before]; cbn; intros H; injection H as H1 H2.
  - exists [], g, m, ps. split; [done|]. split; [done|]. by subst r.
  - destruct (IH _ _ H2) as (pre & g' & m' & post & -> & Hl & ->). exists ((g, m) :: pre), g', m', post.
    split; [done|]. split; [cbn; lia|]. cbn. rewrite !string_app_length. f_equal; lia.
Qed.

Lemma ranges_of_at ps pos pre g m post :
  ps = pre ++ (g, m) :: post ->
  exists before after, length before = length pre /\
    ranges_of pos ps = before ++ (pos + String.length (weave pre g), pos + String.length (weave pre g) + String.length m) :: after.
Proof.
  revert ps pos. induction pre as [|[g' m'] pre IH]; intros ps pos ->; cbn.
  - by exists [], (ranges_of (pos + String.length g + String.length m) post).
  - destruct (IH _ (pos + String.length g' + String.length m') eq_refl) as (before & after & Hl & ->).
    eexists (_ :: before), after. split; [cbn; lia|]. rewrite <- app_comm_cons, !string_app_length, !Nat.add_assoc. reflexivity.
Qed.

(** Replacing at the places replaces the texts there. *)
Lemma replace_pieces before ps rest new :
  valid_pieces ps -> valid rest ->
  replace_from (before ++ weave ps rest) (String.length before) (ranges_of (String.length before) ps) new = Some (weave (replaced new ps) rest).
Proof.
  revert before. induction ps as [|[g m] ps IH]; intros before Hp Hr; cbn [ranges_of replace_from weave].
  { by apply slice_rest. }
  apply Forall_cons in Hp as [[Hg Hm] Hp]. assert (valid (m ++ weave ps rest)) as Hv by (apply valid_app; [done|by apply weave_valid]).
  rewrite slice_mid by done. cbn [mbind option_bind].
  replace (before ++ g ++ m ++ weave ps rest)%string with ((before ++ g ++ m) ++ weave ps rest)%string by (by rewrite !string_app_assoc).
  replace (String.length before + String.length g + String.length m) with (String.length (before ++ g ++ m)) by (rewrite !string_app_length; lia).
  by rewrite IH.
Qed.

Lemma replace_all_pieces ps rest new :
  valid_pieces ps -> valid rest -> replace_ranges (weave ps rest) (ranges_of 0 ps) new = Some (weave (replaced new ps) rest).
Proof. intros Hp Hr. exact (replace_pieces "" ps rest new Hp Hr). Qed.

Lemma replace_one_piece pre g m post rest new :
  valid_pieces (pre ++ (g, m) :: post) -> valid rest ->
  replace_ranges (weave (pre ++ (g, m) :: post) rest)
    [(String.length (weave pre g), String.length (weave pre g) + String.length m)] new
  = Some (weave (pre ++ (g, new) :: post) rest).
Proof.
  intros [Hpre [[Hg Hm] Hpost]%Forall_cons]%Forall_app Hr. pose proof (replace_all_pieces [(weave pre g, m)] (weave post rest) new) as H.
  cbn in H. rewrite !weave_app. cbn [weave]. rewrite (weave_split pre (g ++ m ++ _)), (weave_split pre (g ++ new ++ _)).
  rewrite (weave_split pre g) in *. rewrite !string_app_assoc in H. apply H; [|by apply weave_valid].
  repeat constructor; [|done]. apply valid_app; [|done]. by apply weave_valid.
Qed.

(** ** The places *)

(** Every place is the next one of [old], and there is none after the last. *)
Definition exact_pieces (old : string) (pieces : list Piece) (rest : string) : Prop :=
  Forall (fun '(gap, m) => m = old /\ str_find old (gap ++ old) = Some (String.length gap)) pieces /\ str_find old rest = None.

Lemma find_exact_pieces fuel before s old :
  old <> "" -> valid old -> valid s -> String.length s < fuel ->
  exists ps rest, s = weave ps rest /\ valid_pieces ps /\ valid rest /\ exact_pieces old ps rest
    /\ find_exact_from fuel (before ++ s) old (String.length before) = Some (ranges_of (String.length before) ps).
Proof.
  intros Hne Ho. revert before s. induction fuel as [|fuel IH]; intros before s Hs Hf; [lia|]. cbn [find_exact_from].
  rewrite slice_rest by done. cbn [mbind option_bind]. destruct (str_find old s) as [pos|] eqn:Hfind.
  - destruct (find_splits _ _ _ Hfind) as (g & t & -> & -> & Hg).
    destruct (valid_cut g old t Hne Ho Hs) as [Hvg Hvt].
    assert (0 < String.length old) as Hpos by (destruct old; cbn; [done|lia]).
    destruct (IH (before ++ g ++ old)%string t Hvt) as (ps & rest & -> & Hp & Hr & [He1 He2] & Hrec); [rewrite !string_app_length in Hf; lia|].
    exists ((g, old) :: ps), rest. split; [done|]. split; [by constructor|]. split; [done|]. split; [split; [by constructor|done]|].
    cbn [ranges_of]. cbv zeta. rewrite !string_app_assoc, !string_app_length, !Nat.add_assoc in Hrec. by rewrite Hrec.
  - exists [], s. split_and!; try done; by constructor.
Qed.

Lemma find_exact_spec content old :
  old <> "" -> valid old -> valid content ->
  exists ps rest, content = weave ps rest /\ valid_pieces ps /\ valid rest /\ exact_pieces old ps rest /\ find_exact content old = Some (ranges_of 0 ps).
Proof.
  intros Hne Ho Hc. unfold find_exact. destruct old as [|a old]; [done|]. cbn [str_is_empty].
  exact (find_exact_pieces (S (String.length content)) "" content (String a old) Hne Ho Hc (Nat.lt_succ_diag_r _)).
Qed.

(** ** Lines *)

Definition same_line (line pattern : string) : Prop := trim_end line = trim_end pattern.

Definition line_start (before : string) : Prop := before = "" \/ exists s, before = (s ++ newline)%string.
Definition line_end (after : string) : Prop := after = "" \/ exists s, after = (newline ++ s)%string.

(** Every place is whole lines, those of the pattern but for white space at their ends. *)
Fixpoint line_pieces (pattern_lines : list string) (before : string) (pieces : list Piece) (rest : string) : Prop :=
  match pieces with
  | [] => True
  | (gap, m) :: pieces =>
    line_start (before ++ gap) /\ line_end (weave pieces rest) /\ Forall2 same_line (split_lf m) pattern_lines
    /\ line_pieces pattern_lines (before ++ gap ++ m) pieces rest
  end.

Definition good_line (l : string) : Prop := valid l /\ no_lf l = true.

Lemma split_lf_cons_lf s : split_lf (String LF s) = "" :: split_lf s.
Proof. unfold split_lf. cbn. by destruct (split_newlines s). Qed.

Lemma split_lf_line l s : no_lf l = true -> split_lf (l ++ newline ++ s) = l :: split_lf s.
Proof.
  intros Hl. unfold split_lf. replace (l ++ newline ++ s)%string with ((l ++ newline) ++ s)%string by (by rewrite string_app_assoc).
  rewrite split_terminated_app by (by apply terminated_line). rewrite split_line by done. cbn. by destruct (split_newlines s).
Qed.

Lemma split_lf_one l : no_lf l = true -> split_lf l = [l].
Proof. intros Hl. unfold split_lf. by rewrite split_no_lf. Qed.

Lemma split_lf_not_nil s : split_lf s <> [].
Proof. unfold split_lf. destruct (split_newlines s) as [[] ?]; done. Qed.

Lemma split_lf_join lines : lines <> [] -> Forall (fun l => no_lf l = true) lines -> split_lf (join newline lines) = lines.
Proof.
  intros Hne H. induction H as [|l lines Hl Hls IH]; [done|]. destruct lines as [|l' lines]; [by apply split_lf_one|].
  change (join newline (l :: l' :: lines)) with (l ++ newline ++ join newline (l' :: lines))%string. rewrite split_lf_line by done. by rewrite IH.
Qed.

Lemma join_split_lf s : join newline (split_lf s) = s.
Proof.
  induction s as [|a s IH]; [done|]. unfold split_lf in *. cbn [split_newlines]. destruct (split_newlines s) as [lines rest].
  destruct (Ascii.eqb a LF) eqn:Ha.
  - apply Ascii.eqb_eq in Ha as ->. cbn [app]. destruct (lines ++ [rest]) as [|l ls] eqn:Hl; [by destruct lines|].
    change (join newline ("" :: l :: ls)) with (newline ++ join newline (l :: ls))%string. by rewrite IH.
  - destruct lines as [|l lines]; cbn [app] in *; [cbn in *; by rewrite IH|].
    destruct (lines ++ [rest]) as [|l' ls]; cbn [join] in *; rewrite <- IH; done.
Qed.

Lemma join_cons l lines : lines <> [] -> join newline (l :: lines) = (l ++ newline ++ join newline lines)%string.
Proof. by destruct lines. Qed.

Lemma join_app a b : a <> [] -> b <> [] -> join newline (a ++ b) = (join newline a ++ newline ++ join newline b)%string.
Proof.
  intros Ha Hb. induction a as [|l a IH]; [done|]. destruct a as [|l' a]; [by apply join_cons|].
  rewrite <- app_comm_cons, join_cons by done. rewrite IH by done. rewrite (join_cons l (l' :: a)) by done. by rewrite !string_app_assoc.
Qed.

Lemma join_valid lines : Forall good_line lines -> valid (join newline lines).
Proof.
  induction 1 as [|l lines [Hl _] _ IH]; [done|]. destruct lines as [|l' lines]; [done|]. rewrite join_cons by done.
  apply valid_app; [done|]. apply valid_app; [done|]. done.
Qed.

Lemma split_lf_good s : valid s -> Forall good_line (split_lf s).
Proof.
  intros Hs. assert (Forall (fun l => no_lf l = true) (split_lf s)) as Hn.
  { unfold split_lf. pose proof (split_lines_no_lf s) as [H1 H2]. destruct (split_newlines s). apply Forall_app. split; [done|by constructor]. }
  rewrite <- (join_split_lf s) in Hs. induction Hn as [|l lines Hl _ IH]; [constructor|].
  destruct lines as [|l' lines]; [by repeat constructor|]. rewrite join_cons in Hs by done.
  destruct (valid_cut l newline _ ltac:(done) eq_refl Hs) as [Hv Hr]. constructor; [done|by apply IH].
Qed.

Lemma spans_length pos lines : length (spans_from pos lines) = length lines.
Proof. revert pos. induction lines as [|l lines IH]; intros pos; cbn; [done|]. by rewrite IH. Qed.

Lemma spans_app pos a b : a <> [] ->
  spans_from pos (a ++ b) = spans_from pos a ++ spans_from (pos + String.length (join newline a) + 1) b.
Proof.
  revert pos. induction a as [|l a IH]; intros pos Ha; [done|]. destruct a as [|l' a]; [done|].
  rewrite (join_cons l), !string_app_length by done. rewrite <- app_comm_cons.
  change (spans_from pos (l :: (l' :: a) ++ b)) with ((pos, l) :: spans_from (pos + String.length l + 1) ((l' :: a) ++ b)).
  rewrite IH by done. cbn [spans_from app]. do 4 f_equal. cbn. lia.
Qed.

Lemma spans_last pos lines : lines <> [] ->
  exists p l, last (spans_from pos lines) = Some (p, l) /\ p + String.length l = pos + String.length (join newline lines).
Proof.
  revert pos. induction lines as [|l lines IH]; intros pos Hne; [done|]. destruct lines as [|l' lines]; [by exists pos, l|].
  destruct (IH (pos + String.length l + 1) ltac:(done)) as (p & k & Hl & He). exists p, k. split; [exact Hl|].
  rewrite He, (join_cons l) by done. rewrite !string_app_length. cbn. lia.
Qed.

Lemma lines_match_spec pls pos lines : length lines = length pls ->
  lines_match pls (spans_from pos lines) = true <-> Forall2 same_line lines pls.
Proof.
  revert pls pos. induction lines as [|l lines IH]; intros [|pl pls] pos Hl; try discriminate Hl; [by split; constructor|].
  unfold lines_match. cbn. rewrite andb_true_iff, String.eqb_eq. injection Hl as Hl. specialize (IH pls (pos + String.length l + 1) Hl).
  unfold lines_match in IH. rewrite IH. split; [intros [? ?]; by constructor|]. intros H. by inversion H.
Qed.

(** The search, on the lines that are left. *)
Fixpoint lines_go (fuel : nat) (pls : list string) (spans : list (nat * string)) : list Range :=
  match fuel with
  | 0 => []
  | S fuel =>
    if Nat.leb (length pls) (length spans) then
      let here := take (length pls) spans in
      if lines_match pls here then
        match head here, last here with
        | Some first, Some last => (fst first, fst last + String.length (snd last)) :: lines_go fuel pls (drop (length pls) spans)
        | _, _ => []
        end
      else lines_go fuel pls (drop 1 spans)
    else []
  end.

Lemma find_lines_go fuel pls spans i : i <= length spans -> find_lines_from fuel pls spans i = lines_go fuel pls (drop i spans).
Proof.
  revert i. induction fuel as [|fuel IH]; intros i Hi; [done|]. cbn [find_lines_from lines_go]. rewrite length_drop.
  destruct (Nat.leb_spec (i + length pls) (length spans)) as [Hle|Hgt];
    destruct (Nat.leb_spec (length pls) (length spans - i)) as [Hle'|Hgt']; try lia; [|done].
  rewrite !drop_drop. destruct (lines_match pls (take (length pls) (drop i spans))) eqn:Hm.
  - case_match; [|done]. case_match; [|done]. by rewrite IH by lia.
  - destruct (decide (i + 1 <= length spans)); [by apply IH|].
    assert (i = length spans) as -> by lia. assert (length pls = 0) as H0 by lia. destruct pls; [|done].
    by rewrite take_0 in Hm.
Qed.

(** Text in front of the first place. *)
Definition push (g : string) (ps : list Piece) (rest : string) : list Piece * string :=
  match ps with [] => ([], g ++ rest)%string | (gap, m) :: ps => (((g ++ gap)%string, m) :: ps, rest) end.

Lemma push_spec pls before g ps rest :
  let '(ps', rest') := push g ps rest in
  weave ps' rest' = (g ++ weave ps rest)%string
  /\ (valid g -> valid_pieces ps -> valid rest -> valid_pieces ps' /\ valid rest')
  /\ (line_pieces pls (before ++ g) ps rest -> line_pieces pls before ps' rest')
  /\ ranges_of (String.length before) ps' = ranges_of (String.length (before ++ g)) ps
  /\ (ps' = [] <-> ps = []).
Proof.
  destruct ps as [|[gap m] ps]; cbn.
  - split_and!; try done. intros Hg _ Hr. split; [constructor|]. by apply valid_app.
  - split_and!; try done.
    + by rewrite !string_app_assoc.
    + intros Hg [[Hgap Hm] Hp]%Forall_cons Hr. split; [|done]. constructor; [|done]. split; [by apply valid_app|done].
    + by rewrite !string_app_assoc.
    + rewrite !string_app_length, !Nat.add_assoc. done.
Qed.

Lemma drop_spans n pos lines : n <= length lines -> 0 < n ->
  take n (spans_from pos lines) = spans_from pos (take n lines)
  /\ drop n (spans_from pos lines) = spans_from (pos + String.length (join newline (take n lines)) + 1) (drop n lines).
Proof.
  intros Hn H0. rewrite <- (take_drop n lines) at 1 3. rewrite spans_app by (destruct n, lines; cbn in *; done || lia).
  rewrite take_app_le, drop_app_ge by (rewrite spans_length, length_take; lia).
  rewrite take_ge by (rewrite spans_length, length_take; lia). split; [done|].
  rewrite spans_length, length_take, Nat.min_l, Nat.sub_diag by lia. done.
Qed.

(** No run of lines matches. *)
Definition no_lines (pls lines : list string) : Prop := forall a here b, lines = a ++ here ++ b -> ~ Forall2 same_line here pls.

(** The search finds pieces of the text of the lines, and nothing only if there is nothing. *)
Definition finds (fuel : nat) (pls : list string) (before : string) (lines : list string) : Prop :=
  exists ps rest, join newline lines = weave ps rest /\ valid_pieces ps /\ valid rest /\ line_pieces pls before ps rest
    /\ lines_go fuel pls (spans_from (String.length before) lines) = ranges_of (String.length before) ps
    /\ (ps = [] -> no_lines pls lines).

Lemma spans_head pos lines : head (spans_from pos lines) = (fun l => (pos, l)) <$> head lines.
Proof. by destruct lines. Qed.

Lemma finds_none fuel pls before lines : Forall good_line lines -> length lines < length pls -> finds fuel pls before lines.
Proof.
  intros Hg Hl. exists [], (join newline lines). split_and!; try done; [constructor|by apply join_valid| |].
  - destruct fuel; [done|]. cbn [lines_go]. rewrite spans_length. by destruct (Nat.leb_spec (length pls) (length lines)); [lia|].
  - intros _ a here b -> H%Forall2_length. rewrite !length_app in Hl. lia.
Qed.

Lemma finds_match fuel pls before here more :
  here <> [] -> Forall good_line here -> line_start before -> Forall2 same_line here pls ->
  finds fuel pls (before ++ join newline here ++ newline) more -> finds (S fuel) pls before (here ++ more).
Proof.
  intros Hne Hg Hs Hm Hmore. pose proof (Forall2_length _ _ _ Hm) as Hlen. unfold finds. cbn [lines_go].
  rewrite spans_length, length_app, (proj2 (Nat.leb_le _ _)) by lia. rewrite spans_app, take_app_le, drop_app_ge by (done || rewrite spans_length; lia).
  rewrite take_ge, spans_length, <- Hlen, Nat.sub_diag by (rewrite spans_length; lia). rewrite drop_0.
  rewrite (proj2 (lines_match_spec pls (String.length before) here Hlen) Hm), spans_head.
  destruct (spans_last (String.length before) here Hne) as (p & l & -> & Hp). cbn [fst snd]. rewrite Hp. clear p l Hp.
  assert (exists l0, head here = Some l0) as [l0 ->] by (destruct here; eauto; done). cbn [fmap option_fmap option_map fst].
  pose proof (join_valid _ Hg) as Hvm. set (m := join newline here) in *.
  assert (Forall2 same_line (split_lf m) pls) as Hsame.
  { subst m. rewrite split_lf_join; [done..|]. eapply Forall_impl; [exact Hg|]. by intros ? []. }
  destruct Hmore as (ps & rest & Hj & Hv & Hr & Hl & Hgo & _).
  assert (String.length before + String.length m + 1 = String.length (before ++ m ++ newline)) as Hpos by (rewrite !string_app_length; cbn; lia).
  destruct more as [|l more].
  - exists [("", m)], "". rewrite app_nil_r. cbn. rewrite !string_app_nil_r, string_app_nil_l, Nat.add_0_r.
    split_and!; try done; [by repeat constructor|by left|]. f_equal. destruct fuel; [done|]. cbn [lines_go length]. destruct pls; [|done]. by destruct here.
  - pose proof (push_spec pls (before ++ m) newline ps rest) as Hpush. destruct (push newline ps rest) as [ps' rest'].
    destruct Hpush as (Hw & Hvp & Hlp & Hrg & _). destruct (Hvp eq_refl Hv Hr) as [Hv' Hr']. rewrite !string_app_assoc in Hlp.
    exists (("", m) :: ps'), rest'. cbn [weave ranges_of line_pieces]. rewrite Hw, string_app_nil_r, !string_app_nil_l.
    rewrite join_app, Hj by done. split_and!; try done; [by constructor|by right; eexists|by apply Hlp|].
    cbv zeta. cbn [String.length]. rewrite Nat.add_0_r, Hpos, Hgo. f_equal. rewrite !string_app_length in *. by rewrite Hrg, Nat.add_assoc.
Qed.

Lemma finds_skip fuel pls before l lines :
  length pls <= length (l :: lines) -> good_line l -> ~ Forall2 same_line (take (length pls) (l :: lines)) pls -> pls <> [] ->
  finds fuel pls (before ++ l ++ newline) lines -> finds (S fuel) pls before (l :: lines).
Proof.
  intros Hle [Hvl Hnl] Hno Hpls (ps & rest & Hj & Hv & Hr & Hlp & Hgo & Hnone).
  assert (0 < length pls) as Hn by (destruct pls; cbn; [done|lia]).
  assert (lines_go (S fuel) pls (spans_from (String.length before) (l :: lines))
    = lines_go fuel pls (spans_from (String.length before + String.length l + 1) lines)) as Hstep.
  { cbn [lines_go]. rewrite spans_length, (proj2 (Nat.leb_le _ _) Hle). destruct (drop_spans (length pls) (String.length before) _ Hle Hn) as [-> _].
    destruct (lines_match _ _) eqn:Hm; [|done]. apply lines_match_spec in Hm; [done|]. rewrite length_take. lia. }
  assert (ps = [] -> no_lines pls (l :: lines)) as Hnil.
  { intros H [|x a] h b Hs Hf; [|injection Hs as -> Hs; by apply (Hnone H a h b)].
    apply Hno. cbn [app] in Hs. rewrite Hs, <- (Forall2_length _ _ _ Hf), take_app_length. done. }
  unfold finds. rewrite Hstep.
  replace (String.length before + String.length l + 1) with (String.length (before ++ l ++ newline)) by (rewrite !string_app_length; cbn; lia).
  destruct (decide (lines = [])) as [->|Hls].
  - assert (ps = []) as ->.
    { destruct ps as [|[gap m] ps]; [done|]. apply (f_equal length) in Hgo. rewrite ranges_of_length in Hgo. destruct fuel; [done|].
      cbn [spans_from lines_go length] in Hgo. by destruct (length pls); [lia|]. }
    exists [], l. by split_and!.
  - pose proof (push_spec pls before (l ++ newline) ps rest) as Hpush. destruct (push _ ps rest) as [ps' rest'].
    destruct Hpush as (Hw & Hvp & Hlp' & Hrg & Hnil'). destruct Hvp as [Hv' Hr']; [by apply valid_app|done..|].
    exists ps', rest'. rewrite join_cons, Hw, Hj, string_app_assoc by done. split_and!; try done; [by apply Hlp'|by rewrite Hrg|].
    intros H%Hnil'. by apply Hnil.
Qed.

Lemma lines_found fuel pls before lines :
  pls <> [] -> Forall good_line lines -> length lines < fuel -> line_start before -> finds fuel pls before lines.
Proof.
  intros Hpls. revert before lines. induction fuel as [|fuel IH]; intros before lines Hg Hl Hs; [lia|].
  destruct (decide (length pls <= length lines)) as [Hle|Hgt]; [|by apply finds_none; [|lia]].
  assert (0 < length pls) as Hn by (destruct pls; cbn; [done|lia]).
  destruct (lines_match pls (spans_from 0 (take (length pls) lines))) eqn:Hm.
  - apply lines_match_spec in Hm; [|rewrite length_take; lia]. rewrite <- (take_drop (length pls) lines).
    rewrite <- (take_drop (length pls) lines) in Hg. apply Forall_app in Hg as [Hg1 Hg2].
    apply finds_match; [destruct lines, (length pls); cbn in *; done || lia|done..|]. apply IH; [done|rewrite length_drop; lia|].
    right. eexists. by rewrite <- string_app_assoc.
  - destruct lines as [|l lines]; [cbn in Hle; lia|]. apply Forall_cons in Hg as [Hgl Hg]. apply finds_skip; [done..| |done|].
    + intros H. apply (lines_match_spec pls 0) in H; [congruence|]. rewrite length_take. lia.
    + apply IH; [done|cbn in Hl; lia|]. right. eexists. by rewrite <- string_app_assoc.
Qed.

Lemma find_normalized_spec content pattern : valid content ->
  exists ps rest, content = weave ps rest /\ valid_pieces ps /\ valid rest
    /\ line_pieces (split_lf (trim_lf pattern)) "" ps rest
    /\ find_normalized content pattern = ranges_of 0 ps
    /\ (ps = [] -> trim_lf pattern = "" \/ no_lines (split_lf (trim_lf pattern)) (split_lf content)).
Proof.
  intros Hv. unfold find_normalized. set (p := trim_lf pattern). destruct (str_is_empty p) eqn:Hp.
  { exists [], content. split_and!; try done; [constructor|]. left. by destruct p. }
  assert (line_start "") as Hs by (by left). pose proof (split_lf_good _ Hv) as Hg. pose proof (split_lf_not_nil p) as Hpn.
  destruct (lines_found (S (length (split_lf content))) (split_lf p) "" (split_lf content) Hpn Hg (Nat.lt_succ_diag_r _) Hs)
    as (ps & rest & Hj & Hvp & Hr & Hl & Hgo & Hnone).
  exists ps, rest. rewrite join_split_lf in Hj. split_and!; try done; [|by right; apply Hnone].
  unfold line_spans. rewrite spans_length, find_lines_go, drop_0 by lia. cbn [String.length] in Hgo. rewrite Hgo.
  destruct (Nat.ltb_spec (length (split_lf content)) (length (split_lf p))) as [Hlt|_]; [|done].
  destruct ps as [|[g m] ps]; [done|]. exfalso. cbn [lines_go] in Hgo. rewrite spans_length in Hgo.
  by destruct (Nat.leb_spec (length (split_lf p)) (length (split_lf content))); [lia|].
Qed.

(** ** One edit *)

(** The text as the places of the old string and what is around them: as it is, or,
    where it does not occur, by lines. *)
Definition places (op : EditOp) (a : string) (pieces : list Piece) (rest : string) : Prop :=
  a = weave pieces rest
  /\ (exact_pieces (eo_old_string op) pieces rest
      \/ str_find (eo_old_string op) a = None /\ line_pieces (split_lf (trim_lf (eo_old_string op))) "" pieces rest).

Definition distance (hint : N) (before : string) : Z :=
  Z.abs (Z.min (Z.of_nat (count_lf before + 1)) I64_MAX - Z.of_N hint).

(** What an edit that succeeds does: all places, or the one that is nearest to the hint. *)
Definition edited (op : EditOp) (a b : string) : Prop :=
  exists pieces rest, pieces <> [] /\ places op a pieces rest
    /\ ((eo_replace_all op = true \/ length pieces = 1) /\ b = weave (replaced (eo_new_string op) pieces) rest
        \/ eo_replace_all op = false /\ exists hint pre g m post,
             eo_line_hint op = Some hint /\ pieces = pre ++ (g, m) :: post /\ b = weave (pre ++ (g, eo_new_string op) :: post) rest
             /\ forall pre' g' m' post', pieces = pre' ++ (g', m') :: post' ->
                  (distance hint (weave pre g) <= distance hint (weave pre' g'))%Z
                  /\ (length pre' < length pre -> (distance hint (weave pre g) < distance hint (weave pre' g'))%Z)).

(** Why an edit is refused. *)
Definition refused (op : EditOp) (a : string) : Prop :=
  eo_old_string op = ""
  \/ str_find (eo_old_string op) a = None
      /\ (trim_lf (eo_old_string op) = "" \/ no_lines (split_lf (trim_lf (eo_old_string op))) (split_lf a))
  \/ eo_replace_all op = false /\ eo_line_hint op = None /\ exists pieces rest, places op a pieces rest /\ 1 < length pieces.

Lemma candidates_spec op a :
  eo_old_string op <> "" -> valid (eo_old_string op) -> valid a ->
  exists ps rest, places op a ps rest /\ valid_pieces ps /\ valid rest /\ candidates_of a op = Some (ranges_of 0 ps)
    /\ (ps = [] -> refused op a).
Proof.
  intros Hne Ho Ha. destruct (find_exact_spec a _ Hne Ho Ha) as (ps & rest & Hw & Hv & Hr & He & Hf). unfold candidates_of. rewrite Hf.
  cbn [mbind option_bind]. destruct ps as [|[g m] ps].
  - cbn in Hw. subst rest. destruct He as [_ He]. destruct (find_normalized_spec a (eo_old_string op) Ha) as (ps & rest & Hw & Hv' & Hr' & Hl & Hn & Hnone).
    exists ps, rest. rewrite Hn. split_and!; try done; [by split; [|right]|]. intros H. right. left. split; [done|]. by apply Hnone.
  - exists ((g, m) :: ps), rest. split_and!; try done. by split; [|left].
Qed.

(** The first of the nearest. *)
Lemma nearest_spec (k : Range -> Z) content hint cands best seen1 seen2 :
  Forall (fun r => hint_distance content hint r = Some (k r)) cands ->
  Forall (fun r => (k best < k r)%Z) seen1 -> Forall (fun r => (k best <= k r)%Z) seen2 ->
  exists r pre post, nearest content hint best (k best) cands = Some r /\ seen1 ++ best :: seen2 ++ cands = pre ++ r :: post
    /\ Forall (fun r' => (k r < k r')%Z) pre /\ Forall (fun r' => (k r <= k r')%Z) post.
Proof.
  intros Hk. revert best seen1 seen2. induction Hk as [|c cands Hc _ IH]; intros best seen1 seen2 H1 H2; cbn [nearest].
  { exists best, seen1, seen2. by rewrite app_nil_r. }
  rewrite Hc. cbn [mbind option_bind]. destruct (Z.ltb_spec (k c) (k best)) as [Hlt|Hge].
  - destruct (IH c (seen1 ++ best :: seen2) []) as (r & pre & post & Hn & Hs & Hp); [|constructor|].
    + apply Forall_app. split; [|constructor; [done|]]; (eapply Forall_impl; [eassumption|]; cbn; lia).
    + exists r, pre, post. split; [done|]. split; [|done]. rewrite <- Hs. by rewrite <- app_assoc.
  - destruct (IH best seen1 (seen2 ++ [c])) as (r & pre & post & Hn & Hs & Hp); [done|by apply Forall_app; split; [|constructor]|].
    exists r, pre, post. split; [done|]. split; [|done]. rewrite <- Hs. by rewrite <- app_assoc.
Qed.

Lemma first_least {A} (k : A -> Z) l before r after i x :
  l = before ++ r :: after -> Forall (fun r' => (k r < k r')%Z) before -> Forall (fun r' => (k r <= k r')%Z) after ->
  l !! i = Some x -> (k r <= k x)%Z /\ (i < length before -> (k r < k x)%Z).
Proof.
  intros -> Hb Ha. destruct (decide (i < length before)) as [Hi|Hi].
  - rewrite lookup_app_l by done. intros Hx. pose proof (Forall_lookup_1 _ _ _ _ Hb Hx) as H. cbn in H. split; [lia|done].
  - rewrite lookup_app_r by lia. destruct (i - length before) as [|j]; cbn; [intros [= <-]; split; [lia|done]|].
    intros Hx. split; [exact (Forall_lookup_1 _ _ _ _ Ha Hx)|lia].
Qed.

Definition key_of (content : string) (hint : N) (r : Range) : Z := distance hint (str_take (fst r) content).

Lemma piece_key pre g m post rest hint :
  valid_pieces (pre ++ (g, m) :: post) -> valid rest ->
  let a := weave (pre ++ (g, m) :: post) rest in
  key_of a hint (String.length (weave pre g), String.length (weave pre g) + String.length m) = distance hint (weave pre g)
  /\ hint_distance a hint (String.length (weave pre g), String.length (weave pre g) + String.length m) = Some (distance hint (weave pre g)).
Proof.
  intros [Hpre [[Hg Hm] Hpost]%Forall_cons]%Forall_app Hr a.
  assert (a = weave pre g ++ (m ++ weave post rest))%string as -> by (subst a; by rewrite weave_app, (weave_split pre), (weave_split pre g), string_app_assoc).
  unfold key_of, hint_distance, line_number_at. cbn [fst]. rewrite str_take_app_length. split; [done|].
  rewrite slice_front; [done|by apply weave_valid|]. apply valid_app; [done|by apply weave_valid].
Qed.

Lemma ranges_keys ps rest hint : valid_pieces ps -> valid rest ->
  Forall (fun r => hint_distance (weave ps rest) hint r = Some (key_of (weave ps rest) hint r)) (ranges_of 0 ps).
Proof.
  intros Hp Hr. apply Forall_forall. intros r (before & after & Hb)%list_elem_of_split.
  apply ranges_of_split in Hb as (pre & g & m & post & -> & _ & ->). cbn [Nat.add].
  destruct (piece_key pre g m post rest hint Hp Hr) as [-> ->]. done.
Qed.

(** Choosing the nearest place. *)
Lemma nearest_piece ps rest hint first others :
  valid_pieces ps -> valid rest -> ranges_of 0 ps = first :: others ->
  exists pre g m post, ps = pre ++ (g, m) :: post
    /\ (key ← hint_distance (weave ps rest) hint first; nearest (weave ps rest) hint first key others)
       = Some (String.length (weave pre g), String.length (weave pre g) + String.length m)
    /\ forall pre' g' m' post', ps = pre' ++ (g', m') :: post' ->
         (distance hint (weave pre g) <= distance hint (weave pre' g'))%Z
         /\ (length pre' < length pre -> (distance hint (weave pre g) < distance hint (weave pre' g'))%Z).
Proof.
  intros Hp Hr Hrg. set (a := weave ps rest). pose proof (ranges_keys ps rest hint Hp Hr) as Hk. fold a in Hk. rewrite Hrg in Hk.
  apply Forall_cons in Hk as [Hk1 Hk]. rewrite Hk1. cbn [mbind option_bind].
  destruct (nearest_spec (key_of a hint) a hint others first [] [] Hk ltac:(constructor) ltac:(constructor)) as (r & before & after & -> & Hs & Hb & Haf).
  cbn [app] in Hs. rewrite <- Hrg in Hs. destruct (ranges_of_split _ _ _ _ _ Hs) as (pre & g & m & post & Hps & Hl & ->). cbn [Nat.add] in *.
  exists pre, g, m, post. split; [done|]. split; [done|]. intros pre' g' m' post' Hps'.
  assert (key_of a hint (String.length (weave pre g), String.length (weave pre g) + String.length m) = distance hint (weave pre g)) as Hkey.
  { subst a. rewrite Hps in Hp |- *. by apply piece_key. }
  destruct (ranges_of_at ps 0 pre' g' m' post' Hps') as (before' & after' & Hl' & Hs'). cbn [Nat.add] in Hs'.
  assert (key_of a hint (String.length (weave pre' g'), String.length (weave pre' g') + String.length m') = distance hint (weave pre' g')) as Hkey'.
  { subst a. rewrite Hps' in Hp |- *. by apply piece_key. }
  rewrite <- Hkey, <- Hkey', <- Hl, <- Hl'. eapply (first_least _ _ _ _ _ _ _ Hs Hb Haf). rewrite Hs'. by rewrite list_lookup_middle.
Qed.

Definition valid_op (op : EditOp) : Prop := valid (eo_old_string op) /\ valid (eo_new_string op).

Lemma apply_op_spec op a : valid_op op -> valid a ->
  match apply_op a op with Some (Ok b) => edited op a b /\ valid b | Some (Err _) => refused op a | None => False end.
Proof.
  intros [Ho Hn] Ha. unfold apply_op. destruct (str_is_empty (eo_old_string op)) eqn:He; [left; by destruct (eo_old_string op)|].
  assert (eo_old_string op <> "") as Hne by (by intros H; rewrite H in He).
  destruct (candidates_spec op a Hne Ho Ha) as (ps & rest & Hpl & Hv & Hr & -> & Hnone). cbn [mbind option_bind].
  pose proof (proj1 Hpl) as Hw. pose proof (ranges_of_length 0 ps) as Hlen. destruct (ranges_of 0 ps) as [|first others] eqn:Hrg.
  { apply Hnone. by destruct ps. }
  assert (ps <> []) as Hps by (by intros ->).
  destruct (eo_replace_all op || is_nil others)%bool eqn:Hall.
  - rewrite <- Hrg, Hw, replace_all_pieces by done. cbn. split; [|by apply weave_valid; [apply replaced_valid|]].
    rewrite <- Hw. exists ps, rest. split; [done|]. split; [done|]. left. split; [|done].
    apply orb_true_iff in Hall as [?|Hone]; [by left|right]. rewrite <- Hlen. by destruct others.
  - apply orb_false_iff in Hall as [Hra Hothers]. destruct (eo_line_hint op) as [hint|] eqn:Hh.
    + destruct (nearest_piece ps rest hint first others Hv Hr Hrg) as (pre & g & m & post & Hsplit & Hnear & Hbest). rewrite <- Hw in Hnear.
      destruct (hint_distance a hint first) as [key|]; [|done]. cbn [mbind option_bind] in *. rewrite Hnear, Hw, Hsplit. rewrite Hsplit in Hv.
      cbn [mbind option_bind]. rewrite replace_one_piece by done. cbn. split.
      * rewrite <- Hsplit, <- Hw. exists ps, rest. split; [done|]. split; [done|]. right. split; [done|]. exists hint, pre, g, m, post. done.
      * apply Forall_app in Hv as [Hv1 [[Hg _] Hv2]%Forall_cons]. apply weave_valid; [|done]. apply Forall_app. split; [done|by constructor].
    + right. right. split_and!; [done..|]. exists ps, rest. split; [done|]. rewrite <- Hlen. destruct others; [done|]. cbn. lia.
Qed.

(** ** All edits of a call *)

Fixpoint edits_chain (edits : list EditOp) (a b : string) : Prop :=
  match edits with [] => a = b | op :: edits => exists c, edited op a c /\ edits_chain edits c b end.

(** The first edit that cannot be made. *)
Definition edits_refused (edits : list EditOp) (a : string) : Prop :=
  exists made op others c, edits = made ++ op :: others /\ edits_chain made a c /\ refused op c.

Lemma apply_edits_spec i edits a : Forall valid_op edits -> valid a ->
  match apply_edits i a edits with
  | Some (Ok b) => edits_chain edits a b /\ valid b
  | Some (Err _) => edits_refused edits a
  | None => False
  end.
Proof.
  intros He. revert i a. induction He as [|op edits Hop _ IH]; intros i a Ha; [done|]. cbn [apply_edits].
  pose proof (apply_op_spec op a Hop Ha) as H. destruct (apply_op a op) as [[c|msg]|]; [|by exists [], op, edits, a|done].
  destruct H as [Hed Hc]. cbn [mbind option_bind]. specialize (IH (i + 1)%N c Hc).
  destruct (apply_edits (i + 1) c edits) as [[b|msg]|]; [|destruct IH as (made & op' & others & d & -> & Hch & Hr)|done].
  - split; [exists c; split; [done|exact (proj1 IH)]|]. exact (proj2 IH).
  - exists (op :: made), op', others, d. split; [done|]. split; [by exists c|done].
Qed.

(** The new file takes the place of a file that is at its real path. *)
Lemma replace_real fs p t n old bytes : stat fs p = Found t n -> node_at fs t = Some (FileNode old) ->
  fs !! t = Some (FileNode old) /\ atomic_write_unlocked fs t bytes = (<[t := FileNode bytes]> fs, Ok tt).
Proof.
  intros Hs Hf. pose proof (stat_ends fs p) as He. rewrite Hs in He.
  destruct He as [Hc|(d & c & -> & Hc & Hne & _)]; [by rewrite (chain_node _ _ Hc) in Hf|].
  assert (exists x l, d ++ [c] = x :: l) as (x & l & Hx) by (destruct d; eauto). unfold atomic_write_unlocked. rewrite Hx. rewrite <- Hx.
  rewrite Hx in Hf. cbn [node_at] in Hf. rewrite <- Hx in Hf. split; [done|]. unfold parent. rewrite parent_snoc.
  assert (stat fs d = Found d MAXSYMLINKS) as Hd by (exact (walk_real _ _ _ [] d Hc)).
  unfold is_dir. rewrite Hd, (chain_node _ _ Hc). cbn [negb]. unfold lstat. rewrite look_below, Hd. cbn [and_then].
  rewrite (chain_node _ _ Hc), walk_cons. unfold step_to. destruct (String.eqb_spec c ".."); [done|]. rewrite Hf. by rewrite Hx; cbn [node_at]; rewrite <- Hx, Hf.
Qed.

Section Contract.
Context `{E : Ext} (cwd : RealPath) (digest : string -> string) (join_error : string).

Definition hash_fits (expected : option string) (content : string) : Prop :=
  forall h, expected = Some h -> sha256_hex digest content = to_ascii_lowercase h.

Lemma edit_unlocked_spec fs p t n hash edits :
  Forall valid_op edits -> stat fs p = Found t n -> stat fs t = Found t MAXSYMLINKS ->
  match edit_file_unlocked digest fs t hash edits with
  | None => False
  | Some (fs', Err _) => fs' = fs
  | Some (fs', Ok (old, new)) =>
    fs !! t = Some (FileNode old) /\ fs' = <[t := FileNode new]> fs /\ edits_chain edits old new /\ valid new /\ hash_fits hash old
  end
  /\ (forall old, read fs t = Ok old -> valid old -> hash_fits hash old ->
       (exists fs' new, edit_file_unlocked digest fs t hash edits = Some (fs', Ok (old, new))) \/ edits_refused edits old).
Proof using.
  intros Hops Hp Ht. unfold edit_file_unlocked. destruct (read fs t) as [raw|e] eqn:Hr; [|by split].
  assert (node_at fs t = Some (FileNode raw)) as Hn.
  { unfold read in Hr. rewrite Ht in Hr. destruct (node_at fs t) as [[]|]; try discriminate Hr. by injection Hr as ->. }
  destruct (is_utf8 raw) eqn:Hv; cbn [negb]; [|split; [done|intros old [= ->]; congruence]].
  set (stale := match hash with Some _ => _ | None => _ end). destruct stale eqn:Hst.
  { split; [done|]. intros old [= <-] _ Hfit. exfalso. subst stale. destruct hash as [h|]; [|done].
    rewrite (Hfit h eq_refl), String.eqb_refl in Hst. done. }
  assert (hash_fits hash raw) as Hfit.
  { intros h ->. subst stale. apply negb_false_iff, String.eqb_eq in Hst. done. }
  pose proof (apply_edits_spec 0 edits raw Hops Hv) as Ha. destruct (apply_edits 0 raw edits) as [[new|msg]|]; [| |done]; cbn [mbind option_bind].
  - destruct Ha as [Hch Hvn]. destruct (replace_real fs p t n raw new Hp Hn) as [Hf ->]. split; [done|].
    intros old [= <-] _ _. left. by do 2 eexists.
  - split; [done|]. intros old [= <-] _ _. by right.
Qed.

(** C11: [edit_file] replaces what it says and nothing else.  The edits of a call are
    made one after the other on the content of one file inside the execution root
    and written as a whole, or the call fails and no file is changed.  Each edit
    replaces the places of its old string: the successive occurrences from the left
    or, when there is none, runs of whole lines that agree with it but for white
    space at their ends; it replaces all of them, the only one, or the first of
    those nearest to the hinted line, and leaves everything else byte for byte.  The content
    that was read has the expected digest, the new one is valid text, and no slice
    panics.  The edits of a readable file fail only for an edit that cannot be made:
    its string is empty or nowhere, or at several places without a hint. *)
Theorem edit_file_contract fs root before cancelled parsed :
  Forall valid_op (pa_edits parsed) ->
  let outcome := edit_file cwd digest join_error fs (Some root) before cancelled (Ok parsed) in
  match outcome with
  | (fs', Err _) | (fs', Ok NoEdits) => fs' = fs
  | (fs', Ok (Applied path n old new)) =>
    (exists r, canonicalize fs root = Ok r /\ r `prefix_of` path)
    /\ fs !! path = Some (FileNode old) /\ fs' = <[path := FileNode new]> fs /\ n = length (pa_edits parsed)
    /\ edits_chain (pa_edits parsed) old new /\ valid new /\ hash_fits (pa_expected_hash parsed) old
  end
  /\ (forall path old, before = false -> cancelled = false -> pa_edits parsed <> [] ->
       resolve_existing_path cwd fs (pa_path parsed) (Some root) = Ok path -> read fs path = Ok old -> valid old ->
       hash_fits (pa_expected_hash parsed) old ->
       (exists fs' new, outcome = (fs', Ok (Applied path (length (pa_edits parsed)) old new))) \/ edits_refused (pa_edits parsed) old).
Proof using.
  intros Hops. cbv zeta. unfold edit_file. destruct before; [by split|].
  destruct (resolve_existing_path cwd fs (pa_path parsed) (Some root)) as [path|e] eqn:Hres; [|by split].
  destruct cancelled; [by split|]. destruct (existing_inside cwd fs root _ path Hres) as (r & n & p & Hroot & Hr & Hp & Ht).
  destruct (pa_edits parsed) as [|op edits] eqn:Hed; [by split|]. cbn [is_nil]. rewrite <- Hed in *. clear Hed op edits.
  pose proof (edit_unlocked_spec fs p path n (pa_expected_hash parsed) _ Hops Hp Ht) as [H Hok].
  destruct (edit_file_unlocked _ _ _ _ _) as [[fs' [[old new]|e]]|]; [| |done]; cycle 1.
  - split; [done|]. intros path' old _ _ _ [= <-] Hread Hv Hfit. destruct (Hok old Hread Hv Hfit) as [(? & ? & ?)|?]; [done|by right].
  - destruct H as (Hf & -> & Hch & Hvn & Hfit). split; [split_and!; eauto|].
    intros path' old' _ _ _ [= <-] Hread Hv Hfit'. destruct (Hok old' Hread Hv Hfit') as [(fs2 & new2 & [= <- <- <-])|?]; [left; eauto|by right].
Qed.

End Contract.

(** ** What the line match leaves behind *)

(** A line feed at the end of the old string is dropped before the lines are
    compared, the one in the new string is not: the edit adds a blank line. *)
Lemma line_match_adds_blank_line :
  apply_op ("a " ++ newline ++ "b" ++ newline) (edit ("a" ++ newline) ("c" ++ newline))
  = Some (Ok ("c" ++ newline ++ newline ++ "b" ++ newline)%string).
Proof. vm_compute. reflexivity. Qed.

(** In a file with CRLF the line match takes the carriage return for white space and removes it. *)
Lemma line_match_drops_carriage_return :
  let crlf := String CR newline in
  apply_op ("a" ++ crlf ++ "b" ++ crlf) (edit ("a" ++ newline ++ "b") ("c" ++ newline ++ "d"))
  = Some (Ok ("c" ++ newline ++ "d" ++ newline)%string).
Proof. vm_compute. reflexivity. Qed.

(** ** An edit in the root of the example *)

Definition two_edits : Params := MkParams "in/../a" [edit "ex" "o"; MkEditOp "t" "T" true None] None.

Lemma edit_file_contract_witness :
  Forall valid_op (pa_edits two_edits)
  /\ exists fs, edit_file [] (fun _ => "") "" demo (Some ["work"]) false false (Ok two_edits) = (fs, Ok (Applied ["work"; "a"] 2 "text" "ToT"))
       /\ edits_chain (pa_edits two_edits) "text" "ToT".
Proof.
  assert (Forall valid_op (pa_edits two_edits)) as Hv by (repeat constructor; vm_compute; reflexivity).
  split; [exact Hv|]. pose proof (edit_file_contract [] (fun _ => "") "" demo ["work"] false false two_edits Hv) as [H _].
  destruct (edit_file [] (fun _ => "") "" demo (Some ["work"]) false false (Ok two_edits)) as [fs out] eqn:Ho.
  assert (out = Ok (Applied ["work"; "a"] 2 "text" "ToT")) as ->.
  { apply (f_equal snd) in Ho. cbn [snd] in Ho. rewrite <- Ho. vm_compute. reflexivity. }
  exists fs. split; [done|]. by destruct H as (_ & _ & _ & _ & H & _).
Defined.

End EditFile.
