(* ===== verification/TokenSource.v ===== *)
(** * Token refreshes that callers share: [auth/src/token_source.rs]

    Callers of [get_or_refresh] as processes that interleave at every lock and
    await: they look at the cache, join the refresh that is in flight or start one,
    take its outcome, store it and take the refresh off.  A caller may be dropped
    at any await.  A refresh goes on only while somebody awaits it, as a [Shared]
    future does. *)
From S2P Require Export Prelude.
From Stdlib Require Import ZArith Lia.
From stdpp Require Import gmap.
Open Scope list_scope.

Module TokenSource.

Section Source.
(** The token and the error. *)
Context {T Er : Type}.

(** Instants and durations in nanoseconds.
    @src auth/src/token_source.rs:11-14 [ExpiringValue] *)
Record ExpiringValue := MkExpiring {
  ev_value : T;
  ev_expires_at : Z;
}.

(** A refresh stands for its [Shared] future, by its generation.
    @src auth/src/token_source.rs:49-52 [InFlightState] *)
Record InFlightState := MkInFlight {
  if_current : option N;
  if_next_generation : N;
}.

Definition U64_MAX : N := 18446744073709551615.

(** The generation joined and whether it was started just now; [None]: the counter is
    at its end, a panic.
    @src auth/src/token_source.rs:62-82 [InFlightState::get_or_start_with] *)
Definition get_or_start_with (s : InFlightState) : option (N * bool * InFlightState) :=
  match if_current s with
  | Some generation => Some (generation, false, s)
  | None =>
    if (if_next_generation s <? U64_MAX)%N
    then Some (if_next_generation s, true, MkInFlight (Some (if_next_generation s)) (if_next_generation s + 1))
    else None
  end.

(** @src auth/src/token_source.rs:84-92 [InFlightState::clear_generation] *)
Definition clear_generation (generation : N) (s : InFlightState) : InFlightState :=
  if decide (if_current s = Some generation) then MkInFlight None (if_next_generation s) else s.

(** Where a refresh is.  One that panicked panics again for everybody who awaits it. *)
Inductive Flight := Running | Finished (r : result ExpiringValue Er) | Poisoned.

(** The source, the refreshes there have been, and the clock.
    @src auth/src/token_source.rs:95-99 [SingleFlightTokenSource] *)
Record Source := MkSource {
  so_cached : option ExpiringValue;
  so_in_flight : InFlightState;
  so_flights : gmap N Flight;
  so_now : Z;
}.

(** @src auth/src/token_source.rs:106-113 [SingleFlightTokenSource::new] *)
Definition new_source (now : Z) : Source := MkSource None (MkInFlight None 0) ∅ now.

(** Where an answer is from. *)
Inductive Answer :=
| FromCache (v : ExpiringValue) (at_ : Z)
| FromFlight (generation : N) (r : result ExpiringValue Er).

Definition answer (a : Answer) : result T Er :=
  match a with
  | FromCache v _ => Ok (ev_value v)
  | FromFlight _ (Ok v) => Ok (ev_value v)
  | FromFlight _ (Err e) => Err e
  end.

(** Where a caller is. *)
Inductive Caller :=
| Entered
| Missed
| Awaiting (generation : N)
| Got (generation : N) (r : result ExpiringValue Er)
| Stored (generation : N) (r : result ExpiringValue Er)
| Returned (a : Answer)
| Dropped (was : option N)
| Panicked.

Context (refresh_margin : Z).

(** @src auth/src/token_source.rs:120-127 [get_or_refresh, cached] *)
Definition look_up (s : Source) : option ExpiringValue :=
  match so_cached s with
  | Some v => if (so_now s + refresh_margin <? ev_expires_at v)%Z then Some v else None
  | None => None
  end.

(** @src auth/src/token_source.rs:135-137 [get_or_refresh, store] *)
Definition store_outcome (r : result ExpiringValue Er) (s : Source) : Source :=
  match r with Ok v => MkSource (Some v) (so_in_flight s) (so_flights s) (so_now s) | Err _ => s end.

(** What a caller does next; [None] when it has to wait, or is done.
    @src auth/src/token_source.rs:115-141 [SingleFlightTokenSource::get_or_refresh] *)
Definition caller_step (s : Source) (c : Caller) : option (Source * Caller) :=
  match c with
  | Entered => Some (s, match look_up s with Some v => Returned (FromCache v (so_now s)) | None => Missed end)
  | Missed =>
    match get_or_start_with (so_in_flight s) with
    | None => Some (s, Panicked)
    | Some (g, started, in_flight) =>
      Some (MkSource (so_cached s) in_flight (if started then <[g := Running]> (so_flights s) else so_flights s) (so_now s), Awaiting g)
    end
  | Awaiting g =>
    match so_flights s !! g with
    | Some (Finished r) => Some (s, Got g r)
    | Some Poisoned => Some (s, Panicked)
    | _ => None
    end
  | Got g r => Some (store_outcome r s, Stored g r)
  | Stored g r => Some (MkSource (so_cached s) (clear_generation g (so_in_flight s)) (so_flights s) (so_now s), Returned (FromFlight g r))
  | Returned _ | Dropped _ | Panicked => None
  end.

(** @src auth/src/token_source.rs:146-148 [SingleFlightTokenSource::clear_cached] *)
Definition clear_cached (s : Source) : Source := MkSource None (so_in_flight s) (so_flights s) (so_now s).

(** The refresh a caller has joined and not left. *)
Definition joined (c : Caller) : option N :=
  match c with Awaiting g | Got g _ | Stored g _ => Some g | _ => None end.

Definition done_ (c : Caller) : bool := match c with Returned _ | Dropped _ | Panicked => true | _ => false end.

(** ** Interleavings *)

Record World := MkWorld {
  wo_source : Source;
  wo_callers : gmap nat Caller;
}.

Definition with_flight (g : N) (f : Flight) (s : Source) : Source :=
  MkSource (so_cached s) (so_in_flight s) (<[g := f]> (so_flights s)) (so_now s).

Definition is_outcome (f : Flight) : Prop := f <> Running.

Inductive step : World -> World -> Prop :=
| StepEnter s cs i : cs !! i = None -> step (MkWorld s cs) (MkWorld s (<[i := Entered]> cs))
| StepCaller s cs i c s' c' :
    cs !! i = Some c -> caller_step s c = Some (s', c') -> step (MkWorld s cs) (MkWorld s' (<[i := c']> cs))
| StepFinish s cs i g f :
    cs !! i = Some (Awaiting g) -> so_flights s !! g = Some Running -> is_outcome f ->
    step (MkWorld s cs) (MkWorld (with_flight g f s) cs)
| StepDrop s cs i c :
    cs !! i = Some c -> done_ c = false -> step (MkWorld s cs) (MkWorld s (<[i := Dropped (joined c)]> cs))
| StepClear s cs : step (MkWorld s cs) (MkWorld (clear_cached s) cs)
| StepTick s cs d :
    (0 <= d)%Z -> step (MkWorld s cs) (MkWorld (MkSource (so_cached s) (so_in_flight s) (so_flights s) (so_now s + d)) cs).

Inductive reachable : World -> Prop :=
| reach_new now : reachable (MkWorld (new_source now) ∅)
| reach_step w w' : reachable w -> step w w' -> reachable w'.

(** ** The invariant *)

Definition running (s : Source) (g : N) : Prop := so_flights s !! g = Some Running.

Definition caller_ok (s : Source) (c : Caller) : Prop :=
  match c with
  | Awaiting g => exists f, so_flights s !! g = Some f
  | Got g r | Stored g r | Returned (FromFlight g r) => so_flights s !! g = Some (Finished r)
  | Returned (FromCache v t) =>
    (t + refresh_margin < ev_expires_at v)%Z /\ (t <= so_now s)%Z /\ exists g, so_flights s !! g = Some (Finished (Ok v))
  | _ => True
  end.

(** A refresh is taken off by a caller that joined it, unless that one is gone. *)
Definition left_behind (g : N) (c : Caller) : Prop := joined c = Some g \/ c = Dropped (Some g) \/ c = Panicked.

Record inv (w : World) : Prop := {
  inv_flights : forall g, is_Some (so_flights (wo_source w) !! g) <-> (g < if_next_generation (so_in_flight (wo_source w)))%N;
  inv_running : forall g, running (wo_source w) g -> if_current (so_in_flight (wo_source w)) = Some g;
  inv_current : forall g, if_current (so_in_flight (wo_source w)) = Some g ->
    (g < if_next_generation (so_in_flight (wo_source w)))%N
    /\ exists i c, wo_callers w !! i = Some c /\ left_behind g c;
  inv_cached : forall v, so_cached (wo_source w) = Some v -> exists g, so_flights (wo_source w) !! g = Some (Finished (Ok v));
  inv_callers : forall i c, wo_callers w !! i = Some c -> caller_ok (wo_source w) c;
}.
(** Refreshes go on and end; an outcome stays. *)
Definition grows (s s' : Source) : Prop :=
  (so_now s <= so_now s')%Z
  /\ (forall g, is_Some (so_flights s !! g) -> is_Some (so_flights s' !! g))
  /\ (forall g r, so_flights s !! g = Some (Finished r) -> so_flights s' !! g = Some (Finished r)).

Lemma caller_ok_grows s s' c : grows s s' -> caller_ok s c -> caller_ok s' c.
Proof using.
  intros (Hn & Hs & Hf). destruct c as [| |g|g r|g r|[v t|g r]|w|]; cbn; try done; try apply Hf.
  - intros [f Hg]. destruct (Hs g) as [f' Hf']; [by exists f|by exists f'].
  - intros (Ht & Hle & g & Hg). split; [done|]. split; [lia|]. exists g. by apply Hf.
Qed.

Lemma grows_same s s' : (so_now s <= so_now s')%Z -> so_flights s' = so_flights s -> grows s s'.
Proof using. intros Hn Hf. split; [done|]. by rewrite Hf. Qed.

(** A step that leaves the refreshes alone. *)
Lemma inv_same s s' cs cs' :
  inv (MkWorld s cs) -> so_flights s' = so_flights s -> so_in_flight s' = so_in_flight s -> (so_now s <= so_now s')%Z ->
  (so_cached s' = so_cached s \/ so_cached s' = None \/ exists g v, so_flights s !! g = Some (Finished (Ok v)) /\ so_cached s' = Some v) ->
  (forall i c, cs' !! i = Some c -> cs !! i = Some c \/ caller_ok s' c) ->
  (forall i c g, cs !! i = Some c -> left_behind g c -> exists j c', cs' !! j = Some c' /\ left_behind g c') ->
  inv (MkWorld s' cs').
Proof using.
  intros [H1 H2 H3 H4 H5] Hf Hi Hn Hc Hcs Hleft. cbn in *.
  split; cbn; unfold running; rewrite ?Hf, ?Hi; try done.
  - intros g Hg. destruct (H3 g Hg) as (Hlt & i & c & Hic & Hl). split; [done|]. by eapply Hleft.
  - intros v Hv. destruct Hc as [Hc|[Hc|(g & v' & Hg & Hc)]]; rewrite Hc in Hv; [by apply H4|done|]. injection Hv as <-. by exists g.
  - intros i c Hic. destruct (Hcs i c Hic) as [Ho|Ho]; [|done]. eapply caller_ok_grows; [|by eapply H5]. by apply grows_same.
Qed.

(** A caller goes from one place to another with the same refresh. *)
Lemma moved_callers (s : Source) (cs : gmap nat Caller) i c c' :
  cs !! i = Some c -> caller_ok s c' -> (forall g, left_behind g c -> left_behind g c') ->
  (forall j d, <[i := c']> cs !! j = Some d -> cs !! j = Some d \/ caller_ok s d)
  /\ (forall j d g, cs !! j = Some d -> left_behind g d -> exists k d', <[i := c']> cs !! k = Some d' /\ left_behind g d').
Proof using.
  intros Hi Hok Hl. split.
  - intros j d Hj. apply lookup_insert_Some in Hj as [[-> <-]|[_ ?]]; [by right|by left].
  - intros j d g Hj Hd. destruct (decide (j = i)) as [->|Hne].
    + exists i, c'. rewrite lookup_insert_eq. split; [done|]. apply Hl. congruence.
    + exists j, d. by rewrite lookup_insert_ne.
Qed.

Lemma inv_join s cs i g started in_flight :
  inv (MkWorld s cs) -> cs !! i = Some Missed -> get_or_start_with (so_in_flight s) = Some (g, started, in_flight) ->
  inv (MkWorld (MkSource (so_cached s) in_flight (if started then <[g := Running]> (so_flights s) else so_flights s) (so_now s))
         (<[i := Awaiting g]> cs)).
Proof using.
  intros Hinv Hi Hget. unfold get_or_start_with in Hget. destruct (if_current (so_in_flight s)) as [g0|] eqn:Hcur.
  - injection Hget as <- <- <-. destruct (moved_callers s cs i Missed (Awaiting g0) Hi) as [Hm1 Hm2]; [|by intros ? [|[|]]|].
    { destruct Hinv as [H1 _ H3 _ _]. cbn in *. destruct (H3 g0 Hcur) as [Hlt _]. by apply H1. }
    eapply inv_same; [exact Hinv|done..|by left|exact Hm1|exact Hm2].
  - destruct (N.ltb_spec (if_next_generation (so_in_flight s)) U64_MAX) as [_|]; [|done]. injection Hget as <- <- <-.
    destruct Hinv as [H1 H2 H3 H4 H5]. cbn in *. set (n := if_next_generation (so_in_flight s)) in *.
    assert (so_flights s !! n = None) as Hnew by (apply eq_None_not_Some; rewrite H1; lia).
    assert (grows s (MkSource (so_cached s) (MkInFlight (Some n) (n + 1)) (<[n := Running]> (so_flights s)) (so_now s))) as Hgr.
    { split; [cbn; lia|]. split; cbn; [intros g Hx|intros g r Hx]; (rewrite lookup_insert_ne; [done|]); intros Heq; rewrite <- Heq, Hnew in Hx; by inversion Hx. }
    split; cbn.
    + intros g. rewrite lookup_insert_is_Some, H1. split; [intros [->|[? ?]]; lia|]. intros Hg. destruct (decide (n = g)); [by left|right; split; [done|lia]].
    + intros g Hg. unfold running in Hg. cbn in Hg. apply lookup_insert_Some in Hg as [[-> _]|[Hne Hg]]; [done|]. specialize (H2 g Hg). congruence.
    + intros g [= <-]. split; [lia|]. exists i, (Awaiting n). rewrite lookup_insert_eq. split; [done|by left].
    + intros v Hv. destruct (H4 v Hv) as [g Hg]. exists g. by apply Hgr.
    + intros j c Hj. apply lookup_insert_Some in Hj as [[-> <-]|[_ Hj]]; [cbn; exists Running; by rewrite lookup_insert_eq|].
      eapply caller_ok_grows; [exact Hgr|by eapply H5].
Qed.

Lemma inv_clear_generation s cs i g r :
  inv (MkWorld s cs) -> cs !! i = Some (Stored g r) ->
  inv (MkWorld (MkSource (so_cached s) (clear_generation g (so_in_flight s)) (so_flights s) (so_now s)) (<[i := Returned (FromFlight g r)]> cs)).
Proof using.
  intros [H1 H2 H3 H4 H5] Hi. cbn in *. pose proof (H5 _ _ Hi) as Hr. cbn in Hr. unfold clear_generation.
  assert (forall j c, <[i := Returned (FromFlight g r)]> cs !! j = Some c -> caller_ok s c) as Hok.
  { intros j c Hj. apply lookup_insert_Some in Hj as [[-> <-]|[_ Hj]]; [done|by eapply H5]. }
  assert (forall j c, <[i := Returned (FromFlight g r)]> cs !! j = Some c ->
    forall f, caller_ok (MkSource (so_cached s) f (so_flights s) (so_now s)) c) as Hok'.
  { intros j c Hj f. eapply caller_ok_grows; [|by eapply Hok]. by apply grows_same. }
  destruct (decide (if_current (so_in_flight s) = Some g)) as [Hc|Hc]; (split; cbn; [done| | |done|intros j c Hj; by eapply Hok']).
  - intros g' Hg'. specialize (H2 g' Hg'). unfold running in Hg'. cbn in Hg'. congruence.
  - done.
  - done.
  - intros g' Hg'. destruct (H3 g' Hg') as (Hlt & j & c & Hj & Hl). split; [done|]. exists j, c.
    rewrite lookup_insert_ne; [done|]. intros ->. rewrite Hi in Hj. injection Hj as <-. destruct Hl as [[= <-]|[[=]|[=]]]. done.
Qed.

Lemma inv_caller s cs i c s' c' :
  inv (MkWorld s cs) -> cs !! i = Some c -> caller_step s c = Some (s', c') -> inv (MkWorld s' (<[i := c']> cs)).
Proof using.
  intros Hinv Hi Hstep. destruct c as [| |g|g r|g r|a|w|]; cbn in Hstep; try done.
  - injection Hstep as <- <-. destruct (moved_callers s cs i Entered
      (match look_up s with Some v => Returned (FromCache v (so_now s)) | None => Missed end) Hi) as [Hm1 Hm2];
      [| |by eapply inv_same; [exact Hinv|done..|by left|exact Hm1|exact Hm2]].
    + unfold look_up. destruct (so_cached s) as [v|] eqn:Hc; [|done]. destruct (Z.ltb_spec (so_now s + refresh_margin) (ev_expires_at v)); [|done].
      cbn. split; [done|]. split; [lia|]. exact (inv_cached _ Hinv v Hc).
    + by intros g [[=]|[[=]|[=]]].
  - destruct (get_or_start_with (so_in_flight s)) as [[[g started] in_flight]|] eqn:Hget; injection Hstep as <- <-; [by apply inv_join|].
    destruct (moved_callers s cs i Missed Panicked Hi) as [Hm1 Hm2]; [done|by intros ? [|[|]]|]. eapply inv_same; [exact Hinv|done..|by left|exact Hm1|exact Hm2].
  - destruct (so_flights s !! g) as [[|r|]|] eqn:Hg; try done; injection Hstep as <- <-.
    + destruct (moved_callers s cs i (Awaiting g) (Got g r) Hi) as [Hm1 Hm2]; [done|by intros ? [|[|]]; [left|..]|].
      eapply inv_same; [exact Hinv|done..|by left|exact Hm1|exact Hm2].
    + destruct (moved_callers s cs i (Awaiting g) Panicked Hi) as [Hm1 Hm2]; [done|by intros ? ?; right; right|].
      eapply inv_same; [exact Hinv|done..|by left|exact Hm1|exact Hm2].
  - injection Hstep as <- <-. pose proof (inv_callers _ Hinv i _ Hi) as Hok. cbn in Hok.
    destruct (moved_callers (store_outcome r s) cs i (Got g r) (Stored g r) Hi) as [Hm1 Hm2]; [by destruct r|by intros ? [|[|]]; [left|..]|].
    eapply inv_same; [exact Hinv|by destruct r..| |exact Hm1|exact Hm2]. destruct r as [v|e]; [|by left]. right. right. by exists g, v.
  - injection Hstep as <- <-. by apply inv_clear_generation.
Qed.

Lemma inv_finish s cs i g f :
  inv (MkWorld s cs) -> cs !! i = Some (Awaiting g) -> so_flights s !! g = Some Running -> is_outcome f -> inv (MkWorld (with_flight g f s) cs).
Proof using.
  intros [H1 H2 H3 H4 H5] Hi Hg Hf. cbn in *.
  assert (grows s (with_flight g f s)) as Hgr.
  { split; [cbn; lia|]. split; cbn; intros g'; destruct (decide (g' = g)) as [->|Hne]; rewrite ?lookup_insert_eq, ?lookup_insert_ne by done; try done. congruence. }
  split; cbn.
  - intros g'. rewrite lookup_insert_is_Some, <- H1. split; [intros [<-|[? ?]]; [by rewrite Hg|done]|]. intros ?. destruct (decide (g = g')); [by left|by right].
  - intros g' Hg'. unfold running in Hg'. cbn in Hg'. apply lookup_insert_Some in Hg' as [[-> ->]|[_ Hg']]; [by destruct Hf|by apply H2].
  - exact H3.
  - intros v Hv. destruct (H4 v Hv) as [g' Hg']. exists g'. by apply Hgr.
  - intros j c Hj. eapply caller_ok_grows; [exact Hgr|by eapply H5].
Qed.

Lemma reachable_inv w : reachable w -> inv w.
Proof using.
  induction 1 as [now|w w' _ Hinv Hstep].
  - split; cbn; try done; intros g; unfold running; cbn; rewrite ?lookup_empty; try done. split; [by intros []|lia].
  - destruct Hstep as [s cs i Hi|s cs i c s' c' Hi Hs|s cs i g f Hi Hg Hf|s cs i c Hi Hd|s cs|s cs d Hd].
    + eapply inv_same; [exact Hinv|done..|by left| |].
      * intros j c Hj. apply lookup_insert_Some in Hj as [[-> <-]|[_ ?]]; [by right|by left].
      * intros j c g Hj Hl. exists j, c. rewrite lookup_insert_ne; [done|congruence].
    + by eapply inv_caller.
    + by eapply inv_finish.
    + destruct (moved_callers s cs i c (Dropped (joined c)) Hi) as [Hm1 Hm2]; [done| |].
      { intros g [->|[->| ->]]; [by right; left|done..]. }
      eapply inv_same; [exact Hinv|done..|by left|exact Hm1|exact Hm2].
    + eapply inv_same; [exact Hinv|done..|cbn; lia|by right; left|by left|]. intros i c g Hi Hl. by exists i, c.
    + eapply inv_same; [exact Hinv|done..|cbn; lia|by left|by left|]. intros i c g Hi Hl. by exists i, c.
Qed.

(** How far a caller is from its answer. *)
Definition rank (c : Caller) : nat :=
  match c with Entered => 5 | Missed => 4 | Awaiting _ => 3 | Got _ _ => 2 | Stored _ _ => 1 | _ => 0 end.

(** C17: callers of a token source share one refresh.  However they interleave, are
    dropped, and however refreshes end, at most one refresh is running, it is the one
    every caller that finds no fresh token joins, and no generation is refreshed
    twice.  A caller gets a token of the cache that was fresh by the margin when it
    looked, or exactly what the refresh it joined gave; an error is never cached.
    A caller that is not done can go on and gets nearer to its answer, or awaits the
    refresh that is running; and once all callers have returned nothing is left in
    flight. *)
Theorem single_flight_contract w :
  reachable w ->
  let s := wo_source w in
  (forall g, running s g -> if_current (so_in_flight s) = Some g /\ get_or_start_with (so_in_flight s) = Some (g, false, so_in_flight s))
  /\ (forall g g', running s g -> running s g' -> g = g')
  /\ (forall g, is_Some (so_flights s !! g) <-> (g < if_next_generation (so_in_flight s))%N)
  /\ (forall v, so_cached s = Some v -> exists g, so_flights s !! g = Some (Finished (Ok v)))
  /\ (forall i a, wo_callers w !! i = Some (Returned a) ->
       match a with
       | FromCache v t => (t + refresh_margin < ev_expires_at v)%Z /\ (t <= so_now s)%Z /\ exists g, so_flights s !! g = Some (Finished (Ok v))
       | FromFlight g r => so_flights s !! g = Some (Finished r)
       end)
  /\ (forall i c, wo_callers w !! i = Some c -> done_ c = false ->
       (exists s' c', caller_step s c = Some (s', c') /\ rank c' < rank c) \/ exists g, c = Awaiting g /\ running s g)
  /\ ((forall i c, wo_callers w !! i = Some c -> exists a, c = Returned a) -> if_current (so_in_flight s) = None).
Proof using.
  intros H%reachable_inv s. destruct w as [s0 cs]. subst s. cbn [wo_source wo_callers] in *. destruct H as [H1 H2 H3 H4 H5]. cbn in *. split_and!; try done.
  - intros g Hg. specialize (H2 g Hg). split; [done|]. unfold get_or_start_with. by rewrite H2.
  - intros g g' Hg%H2 Hg'%H2. congruence.
  - intros i a Hi. specialize (H5 _ _ Hi). by destruct a.
  - intros i c Hi Hd. destruct c as [| |g|g r|g r|a|q|]; cbn in *; try done; try (left; do 2 eexists; split; [done|cbn; lia]).
    + left. do 2 eexists. split; [done|]. destruct (look_up s0); cbn; lia.
    + left. destruct (get_or_start_with _) as [[[g started] f]|]; do 2 eexists; (split; [done|cbn; lia]).
    + destruct (H5 _ _ Hi) as [f Hf]. rewrite Hf. destruct f as [|r|]; [right; by exists g|left; do 2 eexists; split; [done|cbn; lia]..].
  - intros Hall. destruct (if_current (so_in_flight s0)) as [g|]; [|done]. destruct (H3 g eq_refl) as (_ & i & c & Hi & Hl).
    destruct (Hall i c Hi) as [a ->]. by destruct Hl as [?|[?|?]].
Qed.

(** ** One caller on its own *)

(** What a call comes to when nobody else is there and its refresh, if it needs one, gives [refreshed]. *)
Definition get_or_refresh (refreshed : result ExpiringValue Er) (s : Source) : Source * result T Er :=
  match look_up s with
  | Some v => (s, Ok (ev_value v))
  | None =>
    let g := if_next_generation (so_in_flight s) in
    (store_outcome refreshed (MkSource (so_cached s) (MkInFlight None (g + 1)) (<[g := Finished refreshed]> (so_flights s)) (so_now s)),
     match refreshed with Ok v => Ok (ev_value v) | Err e => Err e end)
  end.

(** It is an execution of the steps. *)
Lemma alone_returns s cs i refreshed :
  cs !! i = None -> if_current (so_in_flight s) = None -> (if_next_generation (so_in_flight s) < U64_MAX)%N ->
  exists a, rtc step (MkWorld s cs) (MkWorld (fst (get_or_refresh refreshed s)) (<[i := Returned a]> cs))
    /\ answer a = snd (get_or_refresh refreshed s).
Proof using.
  intros Hi Hcur Hlt. unfold get_or_refresh. set (n := if_next_generation (so_in_flight s)) in *.
  assert (forall s1 c s' c', caller_step s1 c = Some (s', c') -> step (MkWorld s1 (<[i := c]> cs)) (MkWorld s' (<[i := c']> cs))) as Hgo.
  { intros s1 c s' c' Hs. rewrite <- (insert_insert_eq cs i c' c). eapply StepCaller; [apply lookup_insert_eq|done]. }
  assert (caller_step s Entered = Some (s, match look_up s with Some v => Returned (FromCache v (so_now s)) | None => Missed end)) as Hlook by done.
  destruct (look_up s) as [v|].
  { exists (FromCache v (so_now s)). split; [|done]. eapply rtc_l; [by apply StepEnter|]. eapply rtc_l; [by apply Hgo|]. apply rtc_refl. }
  set (s1 := MkSource (so_cached s) (MkInFlight (Some n) (n + 1)) (<[n := Running]> (so_flights s)) (so_now s)).
  assert (caller_step s Missed = Some (s1, Awaiting n)) as Hmiss.
  { cbn [caller_step]. unfold get_or_start_with. rewrite Hcur. fold n. by rewrite (proj2 (N.ltb_lt _ _) Hlt). }
  set (s2 := with_flight n (Finished refreshed) s1).
  assert (caller_step s2 (Awaiting n) = Some (s2, Got n refreshed)) as Hawait by (cbn; by rewrite lookup_insert_eq).
  exists (FromFlight n refreshed). split; [|by destruct refreshed].
  eapply rtc_l; [by apply StepEnter|]. eapply rtc_l; [by apply Hgo|]. eapply rtc_l; [by apply Hgo|].
  eapply rtc_l; [eapply (StepFinish s1 _ i n (Finished refreshed)); [apply lookup_insert_eq|apply lookup_insert_eq|done]|].
  eapply rtc_l; [apply (Hgo s2 (Awaiting n) s2 (Got n refreshed) Hawait)|]. eapply rtc_l; [by apply Hgo|]. eapply rtc_l; [by apply Hgo|].
  cbn [fst]. replace (MkSource _ _ _ _) with (store_outcome refreshed (MkSource (so_cached s) (MkInFlight None (n + 1)) (<[n := Finished refreshed]> (so_flights s)) (so_now s))); [apply rtc_refl|].
  unfold clear_generation. destruct refreshed as [v|e]; cbn [store_outcome so_cached so_in_flight so_flights so_now s2 s1 with_flight if_current if_next_generation];
    rewrite decide_True by done; by rewrite insert_insert_eq.
Qed.

(** ** A refresh that panics *)

Definition poisoned (g : N) (w : World) : Prop :=
  if_current (so_in_flight (wo_source w)) = Some g /\ so_flights (wo_source w) !! g = Some Poisoned.

(** It is never taken off: from then on every caller that has to refresh panics. *)
Lemma poisoned_for_ever g w w' : reachable w -> poisoned g w -> step w w' ->
  poisoned g w'
  /\ forall i c s' c', wo_callers w !! i = Some c -> caller_step (wo_source w) c = Some (s', c') ->
       match c with Missed => c' = Awaiting g | Awaiting g' => g' = g -> c' = Panicked | _ => True end.
Proof using.
  intros H%reachable_inv [Hc Hp] Hstep. split.
  - destruct Hstep as [s cs i Hi|s cs i c s' c' Hi Hs|s cs i g' f Hi Hg Hf|s cs i c Hi Hd|s cs|s cs d Hd]; unfold poisoned in *; cbn in *; try done.
    + destruct c as [| |g'|g' r|g' r|a|q|]; cbn in Hs; try done.
      * by injection Hs as <- <-.
      * unfold get_or_start_with in Hs. rewrite Hc in Hs. injection Hs as <- <-. done.
      * destruct (so_flights s !! g') as [[]|]; try done; by injection Hs as <- <-.
      * injection Hs as <- <-. by destruct r.
      * injection Hs as <- <-. cbn. unfold clear_generation. rewrite decide_False; [done|]. rewrite Hc. intros [= ->].
        pose proof (inv_callers _ H i _ Hi) as Hr. cbn in Hr. congruence.
    + split; [done|]. rewrite lookup_insert_ne; [done|]. congruence.
  - intros i c s' c' Hi Hs. destruct c as [| |g'|g' r|g' r|a|q|]; try done; cbn in Hs.
    + unfold get_or_start_with in Hs. rewrite Hc in Hs. by injection Hs as <- <-.
    + intros ->. rewrite Hp in Hs. by injection Hs as <- <-.
Qed.

(** ** Schedules *)

Inductive Act := Enter (i : nat) | Go (i : nat) | Finish (i : nat) (f : Flight) | Drop (i : nat) | Tick (d : N).

Definition act (a : Act) (w : World) : option World :=
  let '(MkWorld s cs) := w in
  match a with
  | Enter i => match cs !! i with None => Some (MkWorld s (<[i := Entered]> cs)) | Some _ => None end
  | Go i => c ← cs !! i; '(s', c') ← caller_step s c; Some (MkWorld s' (<[i := c']> cs))
  | Finish i f =>
    match cs !! i, f with
    | Some (Awaiting g), (Finished _ | Poisoned) =>
      match so_flights s !! g with Some Running => Some (MkWorld (with_flight g f s) cs) | _ => None end
    | _, _ => None
    end
  | Drop i => c ← cs !! i; if done_ c then None else Some (MkWorld s (<[i := Dropped (joined c)]> cs))
  | Tick d => Some (MkWorld (MkSource (so_cached s) (so_in_flight s) (so_flights s) (so_now s + Z.of_N d)) cs)
  end.

Lemma act_step a w w' : act a w = Some w' -> step w w'.
Proof using.
  destruct w as [s cs]. destruct a as [i|i|i f|i|d]; cbn.
  - destruct (cs !! i) eqn:Hi; [done|]. intros [= <-]. by apply StepEnter.
  - destruct (cs !! i) as [c|] eqn:Hi; [|done]. cbn. destruct (caller_step s c) as [[s' c']|] eqn:Hs; [|done]. intros [= <-]. by eapply StepCaller.
  - destruct (cs !! i) as [[]|] eqn:Hi; try done. destruct f; try done; (destruct (so_flights s !! generation) as [[]|] eqn:Hg; try done);
      intros [= <-]; by eapply StepFinish.
  - destruct (cs !! i) as [c|] eqn:Hi; [|done]. cbn. destruct (done_ c) eqn:Hd; [done|]. intros [= <-]. by eapply StepDrop.
  - intros [= <-]. apply StepTick. lia.
Qed.

Definition schedule (acts : list Act) : option World :=
  foldl (fun w a => w ← w; act a w) (Some (MkWorld (new_source 0) ∅)) acts.

Lemma schedule_reachable acts w : schedule acts = Some w -> reachable w.
Proof using.
  revert w. induction acts as [|a acts IH] using rev_ind; intros w; unfold schedule in *; [intros [= <-]; apply reach_new|].
  rewrite foldl_app. cbn. destruct (foldl _ _ acts) as [w0|]; [|done]. cbn. intros Ha. eapply reach_step; [by apply IH|by eapply act_step].
Qed.

End Source.

(** ** Examples: tokens are numbers *)

Definition caller_of (acts : list (Act (T := nat) (Er := string))) (i : nat) : option Caller :=
  w ← schedule 0 acts; wo_callers w !! i.

Definition token : result (ExpiringValue (T := nat)) string := Ok (MkExpiring 7 10).

(** Two callers, one refresh. *)
Example shared_refresh :
  let acts := [Enter 1; Go 1; Go 1; Enter 2; Go 2; Go 2; Finish 1 (Finished token); Go 1; Go 2; Go 2; Go 1; Go 2; Go 1] in
  (caller_of acts 1, caller_of acts 2) = (Some (Returned (FromFlight 0 token)), Some (Returned (FromFlight 0 token))).
Proof. vm_compute. reflexivity. Qed.

(** A caller that is dropped between the end of its refresh and taking it off leaves
    it in flight: a caller that comes much later is given its token, long expired. *)
Lemma stale_flight :
  exists w, reachable (T := nat) (Er := string) 0 w
    /\ wo_callers w !! 2 = Some (Returned (FromFlight 0 token)) /\ so_now (wo_source w) = 1000%Z.
Proof.
  set (acts := [Enter 1; Go 1; Go 1; Finish 1 (Finished token); Go 1; Go 1; Drop 1; Tick 1000; Enter 2; Go 2; Go 2; Go 2; Go 2; Go 2]).
  destruct (schedule 0 acts) as [w|] eqn:Hw.
  - exists w. split; [by eapply schedule_reachable|].
    pose proof (f_equal (fun w => w ← w; wo_callers w !! 2) Hw) as H2. pose proof (f_equal (fun w => so_now ∘ wo_source <$> w) Hw) as Hn.
    cbn [fmap option_fmap option_map mbind option_bind] in H2, Hn. rewrite <- H2. split; [vm_compute; reflexivity|].
    apply (inj Some). unfold compose in Hn. rewrite <- Hn. vm_compute. reflexivity.
  - exfalso. apply (f_equal (fun w => match w with Some _ => true | None => false end)) in Hw. vm_compute in Hw. discriminate Hw.
Qed.
Lemma single_flight_contract_witness :
  exists w, reachable (T := nat) (Er := string) 0 w
    /\ wo_callers w !! 2 = Some (Awaiting 0) /\ get_or_start_with (so_in_flight (wo_source w)) = Some (0%N, false, so_in_flight (wo_source w)).
Proof.
  set (acts := [Enter 1; Go 1; Go 1; Enter 2; Go 2; Go 2] : list (Act (T := nat) (Er := string))).
  destruct (schedule 0 acts) as [w|] eqn:Hw.
  - assert (reachable 0 w) as Hr by (by eapply schedule_reachable). exists w. split; [exact Hr|].
    pose proof (single_flight_contract 0 w Hr) as (Hrun & _).
    pose proof (f_equal (fun w => w ← w; wo_callers w !! 2) Hw) as H2. pose proof (f_equal (fun w => w ← w; so_flights (wo_source w) !! 0%N) Hw) as Hf.
    cbn [mbind option_bind] in H2, Hf. split; [rewrite <- H2; vm_compute; reflexivity|]. apply Hrun. unfold running. rewrite <- Hf. vm_compute. reflexivity.
  - exfalso. apply (f_equal (fun w => match w with Some _ => true | None => false end)) in Hw. vm_compute in Hw. discriminate Hw.
Defined.

End TokenSource.
