(* ===== verification/Credentials.v ===== *)
(** * Credentials: [auth/src/resolver.rs], [auth/src/oauth2.rs]

    Resolving a key: the stored credential as long as it is valid, a refresh at the
    token endpoint when it is not, an interactive flow when there is none.  Requests
    to the provider, the user and the clock are oracles; a call has a deadline at
    every await.  [None] is a panic, or fuel that ran out. *)
From Stdlib Require Import ZArith Lia.
From stdpp Require Import gmap strings.
From S2P Require Export TokenSource Transfer ByteFile.
Open Scope string_scope.
Open Scope list_scope.

(** ** Times, in nanoseconds: one clock for [Utc] and [Instant] *)

Definition SECOND : Z := 1000000000.

(** [DateTime::<Utc>::MAX_UTC] and [MIN_UTC] of [chrono]. *)
Definition UTC_MAX : Z := 8210266876799 * SECOND + 999999999.
Definition UTC_MIN : Z := -8334601228800 * SECOND.

(** The longest [chrono::Duration], [i64::MAX] milliseconds. *)
Definition DELTA_MAX : Z := 9223372036854775807 * 1000000.

(** [Utc::now() + duration] *)
Definition utc_add (t d : Z) : option Z := if ((UTC_MIN <=? t + d) && (t + d <=? UTC_MAX))%Z then Some (t + d)%Z else None.

(** [chrono::Duration::seconds] *)
Definition delta_seconds (secs : Z) : option Z := if (Z.abs secs * SECOND <=? DELTA_MAX)%Z then Some (secs * SECOND)%Z else None.

Module Credentials.
Import TokenSource.

(** ** Credentials *)

(** @src src/credential.rs:16-51 [Credential] *)
Inductive Credential :=
| CApiKey (key : string)
| CBearer (token : string) (expires_at : option Z)
| COAuth2 (access_token : string) (refresh_token : option string) (expires_at : option Z)
    (token_url client_id : string) (client_secret : option string) (scopes : list string).

(** @src auth/src/oauth2.rs:16-28 [TokenResponse] *)
Record TokenResponse := MkTokenResponse {
  tr_access_token : string;
  tr_refresh_token : option string;
  tr_expires_in : option Z;
}.

(** @src auth/src/oauth2.rs:225-249 [AuthorizationConfig] *)
Record AuthorizationConfig := MkAuthorizationConfig {
  ac_authorization_endpoint : string;
  ac_token_url : string;
  ac_client_id : string;
  ac_client_secret : option string;
  ac_redirect_uri : string;
  ac_scopes : list string;
  ac_use_pkce : bool;
}.

(** @src auth/src/oauth2.rs:511-524 [DeviceAuthorizationConfig] *)
Record DeviceAuthorizationConfig := MkDeviceAuthorizationConfig {
  dc_device_authorization_endpoint : string;
  dc_token_url : string;
  dc_client_id : string;
  dc_client_secret : option string;
  dc_scopes : list string;
}.

(** @src auth/src/oauth2.rs:567-587 [DeviceAuthorizationResponse] *)
Record DeviceAuthorizationResponse := MkDevice {
  dv_device_code : string;
  dv_user_code : string;
  dv_verification_uri : string;
  dv_verification_uri_complete : option string;
  dv_expires_in : option Z;
  dv_interval : option Z;
}.

(** @src src/credential.rs:474-486 [DeviceCodePrompt] *)
Record DeviceCodePrompt := MkPrompt {
  pr_user_code : string;
  pr_verification_uri : string;
  pr_verification_uri_complete : option string;
  pr_expires_in : option Z;
}.

(** ** Requests *)

Abbreviation Form := (list (string * string)).

(** What [reqwest] says of an error. *)
Record ReqError := MkReqError {
  rq_is_timeout : bool;
  rq_is_connect : bool;
  rq_is_request : bool;
  rq_is_body : bool;
  rq_is_decode : bool;
}.

Inductive Reply :=
| NotSent (e : ReqError)
| Replied (status : N) (body : result string ReqError).

Definition decode_error : ReqError := MkReqError false false false false true.

Definition is_success (status : N) : bool := ((200 <=? status) && (status <? 300))%N.

(** ** The store *)

Class CredentialStore (St : Type) := {
  store_get : St -> string -> result (option Credential) CredentialError;
  store_set : St -> string -> Credential -> result St CredentialError;
}.

(** What a store promises: it has what was set, and nothing else changed; a key it
    does not have is no error. *)
Class CredentialStoreLaws (St : Type) `{CredentialStore St} := {
  store_get_set st key c st' : store_set st key c = Ok st' -> store_get st' key = Ok (Some c);
  store_get_other st key c st' key' : store_set st key c = Ok st' -> key' <> key -> store_get st' key' = store_get st key';
  store_get_absent st key k : store_get st key <> Err (CredNotFound k);
  store_set_absent st key c k : store_set st key c <> Err (CredNotFound k);
}.

(** @src auth/src/in_memory.rs:55-81 [impl CredentialStore for InMemoryCredentialStore] *)
Definition InMemoryCredentialStore : CredentialStore (gmap string Credential) := {|
  store_get st key := Ok (st !! key);
  store_set st key c := Ok (<[key := c]> st);
|}.

#[export] Existing Instance InMemoryCredentialStore.

#[export] Instance in_memory_laws : CredentialStoreLaws (gmap string Credential).
Proof.
  split.
  - intros st key c st' [= <-]. cbn. by rewrite lookup_insert_eq.
  - intros st key c st' key' [= <-] Hne. cbn. by rewrite lookup_insert_ne.
  - done.
  - done.
Qed.

Section Resolver.
Context {St : Type} `{CredentialStore St}.

(** The provider: its reply to a request after those before it, and how long it takes. *)
Context (server : list (string * Form) -> string -> Form -> Z * Reply).
(** [serde_json] on the bodies. *)
Context (parse_token_response : string -> option TokenResponse).
Context (parse_error_code : string -> option string).
Context (parse_device_response : string -> option DeviceAuthorizationResponse).
(** The crates [url] and [sha2] with [base64]. *)
Context (url_with_query : string -> list (string * string) -> option string).
Context (challenge : string -> string).
(** What a refresh that somebody else started for a key gives, and when. *)
Context (flight_outcome : string -> N -> Z * result (ExpiringValue (T := ResolvedCredential)) CredentialError).

Abbreviation Src := (Source (T := ResolvedCredential) (Er := CredentialError)).
Abbreviation Fresh := (ExpiringValue (T := ResolvedCredential)).

(** The handlers: what the user does and how long it takes.
    @src auth/src/resolver.rs:36-60 [DefaultCredentialResolver] *)
Record Resolver := MkResolver {
  re_expiry_buffer : Z;
  re_authorization_handler : option (string -> string -> Z * result string CredentialError);
  re_authorization_configs : gmap string AuthorizationConfig;
  re_device_code_handler : option (DeviceCodePrompt -> Z * result unit CredentialError);
  re_device_authorization_configs : gmap string DeviceAuthorizationConfig;
  re_timeout : Z;
  re_authorization_timeout : Z;
}.

Record Env := MkEnv {
  en_store : St;
  en_sources : gmap string Src;
  en_log : list (string * Form);
  en_now : Z;
  en_deadline : option Z;
}.

(** ** Effects: a value, an error, or the deadline *)

Inductive Res (A : Type) := Done (a : A) | Fail (e : CredentialError) | Elapsed.
Arguments Done {A} a.
Arguments Fail {A} e.
Arguments Elapsed {A}.

Definition M (A : Type) : Type := Env -> option (Env * Res A).

Definition ret {A} (a : A) : M A := fun s => Some (s, Done a).
Definition fail {A} (e : CredentialError) : M A := fun s => Some (s, Fail e).
Definition bind {A B} (m : M A) (f : A -> M B) : M B := fun s =>
  match m s with
  | Some (s, Done a) => f a s
  | Some (s, Fail e) => Some (s, Fail e)
  | Some (s, Elapsed) => Some (s, Elapsed)
  | None => None
  end.

#[local] Notation "x <~ m ;; k" := (bind m (fun x => k)) (at level 100, m at next level, right associativity).

Definition of_result {A} (r : result A CredentialError) : M A := match r with Ok a => ret a | Err e => fail e end.
Definition of_option {A} (o : option A) : M A := fun s => match o with Some a => Some (s, Done a) | None => None end.

Definition now : M Z := fun s => Some (s, Done (en_now s)).

(** An await that takes [d]: it ends at the deadline if that is earlier. *)
Definition pass (d : Z) : M unit := fun s =>
  let t := (en_now s + d)%Z in
  match en_deadline s with
  | Some deadline =>
    if (deadline <? t)%Z then Some (MkEnv (en_store s) (en_sources s) (en_log s) deadline (en_deadline s), Elapsed)
    else Some (MkEnv (en_store s) (en_sources s) (en_log s) t (en_deadline s), Done tt)
  | None => Some (MkEnv (en_store s) (en_sources s) (en_log s) t None, Done tt)
  end.

(** [client.post(url).form(&form).send()] *)
Definition post (url : string) (form : Form) : M Reply := fun s =>
  let '(d, reply) := server (en_log s) url form in
  (_ <~ pass d ;; ret reply) (MkEnv (en_store s) (en_sources s) (en_log s ++ [(url, form)]) (en_now s) (en_deadline s)).

(** [tokio::time::timeout] *)
Definition timeout {A} (d : Z) (e : CredentialError) (m : M A) : M A := fun s =>
  match m (MkEnv (en_store s) (en_sources s) (en_log s) (en_now s) (Some (en_now s + d)%Z)) with
  | Some (s', r) =>
    let s' := MkEnv (en_store s') (en_sources s') (en_log s') (en_now s') (en_deadline s) in
    Some (s', match r with Elapsed => Fail e | r => r end)
  | None => None
  end.

Definition get (key : string) : M (option Credential) := fun s => of_result (store_get (en_store s) key) s.
Definition set (key : string) (c : Credential) : M unit := fun s =>
  match store_set (en_store s) key c with
  | Ok st => Some (MkEnv st (en_sources s) (en_log s) (en_now s) (en_deadline s), Done tt)
  | Err e => Some (s, Fail e)
  end.

(** ** Reasons that hold no secret *)

(** @src auth/src/oauth2.rs:68-81 [sanitize_oauth2_error_reason] *)
Definition sanitize_oauth2_error_reason (action : string) (status : N) (body : string) : string :=
  match parse_error_code body with
  | Some error => action ++ " failed: HTTP " ++ pretty status ++ " (" ++ error ++ ")"
  | None => action ++ " failed: HTTP " ++ pretty status
  end%string.

(** @src auth/src/oauth2.rs:125-140 [sanitize_transport_reason] *)
Definition sanitize_transport_reason (action : string) (error : ReqError) : string :=
  let kind :=
    if rq_is_timeout error then "timeout"
    else if rq_is_connect error then "connect failure"
    else if rq_is_request error then "request failure"
    else if rq_is_body error then "body failure"
    else if rq_is_decode error then "decode failure"
    else "failure" in
  (action ++ " failed: transport " ++ kind)%string.

Definition body_text (body : result string ReqError) : string := match body with Ok text => text | Err _ => "" end.

(** What is made of a reply: the parsed body, or the reason it was not. *)
Definition read_reply {A} (parse : string -> option A) (action : string) (reply : Reply) : A + string :=
  match reply with
  | NotSent e => inr (sanitize_transport_reason action e)
  | Replied status body =>
    if is_success status then
      match body with
      | Err e => inr (sanitize_transport_reason action e)
      | Ok text => match parse text with Some a => inl a | None => inr (sanitize_transport_reason action decode_error) end
      end
    else inr (sanitize_oauth2_error_reason action status (body_text body))
  end.

Definition with_secret (client_secret : option string) (form : Form) : Form :=
  match client_secret with Some secret => form ++ [("client_secret", secret)] | None => form end.

Definition refresh_form (refresh_token client_id : string) (client_secret : option string) : Form :=
  with_secret client_secret [("grant_type", "refresh_token"); ("refresh_token", refresh_token); ("client_id", client_id)].

(** @src auth/src/oauth2.rs:152-212 [refresh_token] *)
Definition refresh_token (token_url refresh_token client_id : string) (client_secret : option string) : M TokenResponse :=
  reply <~ post token_url (refresh_form refresh_token client_id client_secret) ;;
  match read_reply parse_token_response "token refresh" reply with
  | inl response => ret response
  | inr reason => fail (CredRefreshFailed "" reason)
  end.

(** ** Expiry *)

(** @src auth/src/resolver.rs:181-190 [DefaultCredentialResolver::is_expired] *)
Definition is_expired (buffer : Z) (expires_at : option Z) : M bool :=
  match expires_at with
  | Some exp =>
    t <~ now ;;
    soon <~ of_option (utc_add t (if (buffer <=? DELTA_MAX)%Z then buffer else 60 * SECOND)%Z) ;;
    ret (exp <=? soon)%Z
  | None => ret false
  end.

(** @src auth/src/resolver.rs:575-583 [InnerResolver::cache_deadline] *)
Definition cache_deadline (expires_at : option Z) : M Z :=
  t <~ now ;;
  ret (match expires_at with Some exp => t + Z.max 0 (exp - t) | None => t + 60 * 60 * 24 * 365 * SECOND end)%Z.

(** [secs.map(|secs| Utc::now() + chrono::Duration::seconds(secs))] *)
Definition expiry (expires_in : option Z) : M (option Z) :=
  match expires_in with
  | Some secs =>
    t <~ now ;;
    d <~ of_option (delta_seconds secs) ;;
    exp <~ of_option (utc_add t d) ;;
    ret (Some exp)
  | None => ret None
  end.
(** ** Refresh *)

Definition refresh_error (key : string) (e : CredentialError) : CredentialError :=
  match e with CredRefreshFailed _ reason => CredRefreshFailed key reason | e => e end.

Definition attempt {A} (m : M A) : M (result A CredentialError) := fun s =>
  match m s with
  | Some (s, Done a) => Some (s, Done (Ok a))
  | Some (s, Fail e) => Some (s, Done (Err e))
  | Some (s, Elapsed) => Some (s, Elapsed)
  | None => None
  end.

Definition map_err {A} (f : CredentialError -> CredentialError) (m : M A) : M A :=
  r <~ attempt m ;; match r with Ok a => ret a | Err e => fail (f e) end.

(** @src auth/src/resolver.rs:585-685 [InnerResolver::resolve_refreshable] *)
Definition resolve_refreshable (buffer : Z) (key : string) : M Fresh :=
  credential <~ get key ;;
  match credential with
  | Some (CApiKey api_key) => until <~ cache_deadline None ;; ret (MkExpiring (ApiKey api_key) until)
  | Some (CBearer token expires_at) =>
    expired <~ is_expired buffer expires_at ;;
    if (expired : bool) then fail (CredExpired key)
    else until <~ cache_deadline expires_at ;; ret (MkExpiring (Bearer token) until)
  | Some (COAuth2 access_token refresh expires_at token_url client_id client_secret scopes) =>
    expired <~ is_expired buffer expires_at ;;
    if negb expired then until <~ cache_deadline expires_at ;; ret (MkExpiring (OAuth2AccessToken access_token) until)
    else
      match refresh with
      | Some rt =>
        response <~ map_err (refresh_error key) (refresh_token token_url rt client_id client_secret) ;;
        new_expires_at <~ expiry (tr_expires_in response) ;;
        let new_refresh_token := match tr_refresh_token response with Some rotated => Some rotated | None => Some rt end in
        _ <~ set key (COAuth2 (tr_access_token response) new_refresh_token new_expires_at token_url client_id client_secret scopes) ;;
        until <~ cache_deadline new_expires_at ;;
        ret (MkExpiring (OAuth2AccessToken (tr_access_token response)) until)
      | None => fail (CredExpired key)
      end
  | None => fail (CredNotFound key)
  end.

(** ** Sharing *)

Definition with_source (key : string) (src : Src) (s : Env) : Env :=
  MkEnv (en_store s) (<[key := src]> (en_sources s)) (en_log s) (en_now s) (en_deadline s).

(** The source of a key, made when there is none, with its cache dropped.
    @src auth/src/resolver.rs:192-214 [DefaultCredentialResolver::refresh_source] *)
Definition refresh_source (key : string) (s : Env) : Src :=
  let src := default (new_source (en_now s)) (en_sources s !! key) in
  clear_cached (MkSource (so_cached src) (so_in_flight src) (so_flights src) (en_now s)).

(** [source.get_or_refresh(refresh)]: the steps of one caller of the token source, whose
    refresh, if it is the one that starts it, goes on while it is awaited.
    @src auth/src/token_source.rs:115-141 [SingleFlightTokenSource::get_or_refresh] *)
Definition share (buffer : Z) (key : string) (refresh : M Fresh) : M ResolvedCredential := fun s =>
  let src := refresh_source key s in
  match look_up buffer src with
  | Some v => Some (with_source key src s, Done (ev_value v))
  | None =>
    match get_or_start_with (so_in_flight src) with
    | None => None
    | Some (g, started, in_flight) =>
      let joined := MkSource (so_cached src) in_flight (if (started : bool) then <[g := Running]> (so_flights src) else so_flights src) (so_now src) in
      let awaited :=
        if started then refresh
        else match so_flights src !! g with
             | Some (Finished r) => of_result r
             | Some Poisoned => fun _ => None
             | _ => let '(d, r) := flight_outcome key g in _ <~ pass d ;; of_result r
             end in
      match attempt awaited (with_source key joined s) with
      | None => None
      | Some (s, Elapsed) => Some (s, Elapsed)
      | Some (s, Fail e) => Some (s, Fail e)
      | Some (s, Done r) =>
        let ended := with_flight g (Finished r) (MkSource (so_cached joined) (so_in_flight joined) (so_flights joined) (en_now s)) in
        let stored := store_outcome r ended in
        let left := MkSource (so_cached stored) (clear_generation g (so_in_flight stored)) (so_flights stored) (so_now stored) in
        Some (with_source key left s, match r with Ok v => Done (ev_value v) | Err e => Fail e end)
      end
    end
  end.

(** ** From the store *)

(** @src auth/src/resolver.rs:243-304 [DefaultCredentialResolver::resolve_stored] *)
Definition resolve_stored (cfg : Resolver) (key : string) : M ResolvedCredential :=
  credential <~ get key ;;
  let refreshed := share (re_expiry_buffer cfg) key (resolve_refreshable (re_expiry_buffer cfg) key) in
  match credential with
  | Some (CApiKey api_key) => ret (ApiKey api_key)
  | Some (CBearer token expires_at) =>
    expired <~ is_expired (re_expiry_buffer cfg) expires_at ;;
    if (expired : bool) then fail (CredExpired key) else ret (Bearer token)
  | Some (COAuth2 access_token refresh expires_at _ _ _ _) =>
    expired <~ is_expired (re_expiry_buffer cfg) expires_at ;;
    if negb expired then ret (OAuth2AccessToken access_token)
    else match refresh with None => fail (CredExpired key) | Some _ => refreshed end
  | None => fail (CredNotFound key)
  end.

(** ** Interactive flows *)

(** @src auth/src/resolver.rs:417-427 [attach_authorization_key] *)
Definition attach_authorization_key (key : string) (e : CredentialError) : CredentialError :=
  match e with CredAuthorizationFailed _ reason => CredAuthorizationFailed key reason | e => e end.

(** @src auth/src/resolver.rs:431-449 [issued_credential] *)
Definition issued_credential (response : TokenResponse) (token_url client_id : string) (client_secret : option string) (scopes : list string)
    : M Credential :=
  expires_at <~ expiry (tr_expires_in response) ;;
  ret (COAuth2 (tr_access_token response) (tr_refresh_token response) expires_at token_url client_id client_secret scopes).

(** @src auth/src/oauth2.rs:353-379 [authorization_url] *)
Definition authorization_url (config : AuthorizationConfig) (state : string) (pkce : option string) : result string CredentialError :=
  let pairs :=
    [("response_type", "code"); ("client_id", ac_client_id config); ("redirect_uri", ac_redirect_uri config)]
    ++ match ac_scopes config with [] => [] | scopes => [("scope", join " " scopes)] end
    ++ [("state", state)]
    ++ match pkce with Some verifier => [("code_challenge", challenge verifier); ("code_challenge_method", "S256")] | None => [] end in
  match url_with_query (ac_authorization_endpoint config) pairs with
  | Some url => Ok url
  | None => Err (CredAuthorizationFailed "" "invalid authorization endpoint URL")
  end.

Definition exchange_form (code client_id : string) (client_secret : option string) (redirect_uri : string) (pkce : option string) : Form :=
  with_secret client_secret
    [("grant_type", "authorization_code"); ("code", code); ("client_id", client_id); ("redirect_uri", redirect_uri)]
  ++ match pkce with Some verifier => [("code_verifier", verifier)] | None => [] end.

(** @src auth/src/oauth2.rs:413-475 [exchange_code_with_pkce] *)
Definition exchange_code_with_pkce (token_url code client_id : string) (client_secret : option string) (redirect_uri : string)
    (pkce : option string) : M TokenResponse :=
  reply <~ post token_url (exchange_form code client_id client_secret redirect_uri pkce) ;;
  match read_reply parse_token_response "authorization code exchange" reply with
  | inl response => ret response
  | inr reason => fail (CredAuthorizationFailed "" reason)
  end.

(** [state]: the UUID of the attempt, [verifier]: the random verifier it would use.
    @src auth/src/resolver.rs:458-500 [perform_authorization] *)
Definition perform_authorization (handler : string -> string -> Z * result string CredentialError) (key : string)
    (config : AuthorizationConfig) (state verifier : string) : M ResolvedCredential :=
  let pkce := if ac_use_pkce config then Some verifier else None in
  auth_url <~ map_err (attach_authorization_key key) (of_result (authorization_url config state pkce)) ;;
  let '(d, answered) := handler auth_url state in
  _ <~ pass d ;;
  code <~ of_result answered ;;
  response <~ map_err (attach_authorization_key key)
    (exchange_code_with_pkce (ac_token_url config) code (ac_client_id config) (ac_client_secret config) (ac_redirect_uri config) pkce) ;;
  new_credential <~ issued_credential response (ac_token_url config) (ac_client_id config) (ac_client_secret config) (ac_scopes config) ;;
  _ <~ set key new_credential ;;
  ret (OAuth2AccessToken (tr_access_token response)).

(** *** The device grant *)

Definition U64_SECONDS_MAX : Z := 18446744073709551615 * SECOND + 999999999.

(** @src auth/src/oauth2.rs:607-614 [DeviceAuthorizationResponse::poll_interval] *)
Definition poll_interval (device : DeviceAuthorizationResponse) : Z :=
  match dv_interval device with Some secs => if (0 <? secs)%Z then secs * SECOND else 5 * SECOND | None => 5 * SECOND end%Z.

(** @src auth/src/oauth2.rs:619-627 [DeviceAuthorizationResponse::lifetime] *)
Definition lifetime (device : DeviceAuthorizationResponse) : Z :=
  match dv_expires_in device with Some secs => if (0 <? secs)%Z then secs * SECOND else 0 | None => 600 * SECOND end%Z.

(** @src auth/src/oauth2.rs:633-641 [DevicePollOutcome] *)
Inductive DevicePollOutcome := Pending | SlowDown | PollFailed (reason : string).

(** @src auth/src/oauth2.rs:653-662 [classify_device_poll_response] *)
Definition classify_device_poll_response (status : N) (body : string) : DevicePollOutcome :=
  match parse_error_code body with
  | Some error =>
    if String.eqb error "authorization_pending" then Pending
    else if String.eqb error "slow_down" then SlowDown
    else PollFailed (sanitize_oauth2_error_reason "device token request" status body)
  | None => PollFailed (sanitize_oauth2_error_reason "device token request" status body)
  end.

Definition device_form (config : DeviceAuthorizationConfig) : Form :=
  with_secret (dc_client_secret config)
    ([("client_id", dc_client_id config)]
     ++ (if str_is_empty (join " " (dc_scopes config)) then [] else [("scope", join " " (dc_scopes config))])).

(** @src auth/src/oauth2.rs:675-727 [request_device_code] *)
Definition request_device_code (config : DeviceAuthorizationConfig) : M DeviceAuthorizationResponse :=
  reply <~ post (dc_device_authorization_endpoint config) (device_form config) ;;
  match read_reply parse_device_response "device authorization request" reply with
  | inl device => ret device
  | inr reason => fail (CredAuthorizationFailed "" reason)
  end.

Definition poll_form (config : DeviceAuthorizationConfig) (device : DeviceAuthorizationResponse) : Form :=
  with_secret (dc_client_secret config)
    [("grant_type", "urn:ietf:params:oauth:grant-type:device_code"); ("device_code", dv_device_code device); ("client_id", dc_client_id config)].

(** @src auth/src/oauth2.rs:783-840 [poll_device_token_with_sleep, loop] *)
Fixpoint poll_loop (fuel : nat) (config : DeviceAuthorizationConfig) (device : DeviceAuthorizationResponse) (started interval : Z)
    : M TokenResponse :=
  match fuel with
  | 0 => fun _ => None
  | S fuel =>
    _ <~ pass interval ;;
    t <~ now ;;
    if (lifetime device <=? t - started)%Z then fail (CredAuthorizationFailed "" "device token request failed: device code expired")
    else
      reply <~ post (dc_token_url config) (poll_form config device) ;;
      match reply with
      | NotSent e => fail (CredAuthorizationFailed "" (sanitize_transport_reason "device token request" e))
      | Replied status body =>
        if is_success status then
          match read_reply parse_token_response "device token request" reply with
          | inl response => ret response
          | inr reason => fail (CredAuthorizationFailed "" reason)
          end
        else
          match classify_device_poll_response status (body_text body) with
          | Pending => poll_loop fuel config device started interval
          | SlowDown => poll_loop fuel config device started (Z.min (interval + 5 * SECOND) U64_SECONDS_MAX)
          | PollFailed reason => fail (CredAuthorizationFailed "" reason)
          end
      end
  end.

(** A poll takes a second at least, so as many polls as seconds are enough.
    @src auth/src/oauth2.rs:754-841 [poll_device_token_with_sleep] *)
Definition poll_device_token (config : DeviceAuthorizationConfig) (device : DeviceAuthorizationResponse) : M TokenResponse :=
  started <~ now ;;
  poll_loop (S (Z.to_nat (lifetime device / SECOND))) config device started (poll_interval device).

(** @src auth/src/resolver.rs:514-554 [perform_device_authorization] *)
Definition perform_device_authorization (handler : DeviceCodePrompt -> Z * result unit CredentialError) (key : string)
    (config : DeviceAuthorizationConfig) : M ResolvedCredential :=
  device <~ map_err (attach_authorization_key key) (request_device_code config) ;;
  let '(d, presented) := handler (MkPrompt (dv_user_code device) (dv_verification_uri device) (dv_verification_uri_complete device) (dv_expires_in device)) in
  _ <~ pass d ;;
  _ <~ of_result presented ;;
  response <~ map_err (attach_authorization_key key) (poll_device_token config device) ;;
  new_credential <~ issued_credential response (dc_token_url config) (dc_client_id config) (dc_client_secret config) (dc_scopes config) ;;
  _ <~ set key new_credential ;;
  ret (OAuth2AccessToken (tr_access_token response)).

(** @src auth/src/resolver.rs:389-394 [AuthorizationFlow] *)
Inductive AuthorizationFlow :=
| AuthorizationCode (handler : string -> string -> Z * result string CredentialError) (config : AuthorizationConfig)
| DeviceCode (handler : DeviceCodePrompt -> Z * result unit CredentialError) (config : DeviceAuthorizationConfig).

(** @src auth/src/resolver.rs:335-341 [DefaultCredentialResolver::authorization_flow] *)
Definition authorization_flow (cfg : Resolver) (key : string) : option AuthorizationFlow :=
  match re_authorization_handler cfg, re_authorization_configs cfg !! key with
  | Some handler, Some config => Some (AuthorizationCode handler config)
  | _, _ =>
    match re_device_code_handler cfg, re_device_authorization_configs cfg !! key with
    | Some handler, Some config => Some (DeviceCode handler config)
    | _, _ => None
    end
  end.

(** @src auth/src/resolver.rs:397-411 [AuthorizationFlow::perform] *)
Definition perform (flow : AuthorizationFlow) (key state verifier : string) : M ResolvedCredential :=
  match flow with
  | AuthorizationCode handler config => perform_authorization handler key config state verifier
  | DeviceCode handler config => perform_device_authorization handler key config
  end.

(** @src auth/src/resolver.rs:348-384 [DefaultCredentialResolver::resolve_via_authorization] *)
Definition resolve_via_authorization (cfg : Resolver) (key state verifier : string) : M ResolvedCredential :=
  match authorization_flow cfg key with
  | None => fail (CredNotFound key)
  | Some flow =>
    share (re_expiry_buffer cfg) key
      (resolved <~ timeout (re_authorization_timeout cfg) (CredAuthorizationTimeout key) (perform flow key state verifier) ;;
       until <~ cache_deadline None ;;
       ret (MkExpiring resolved until))
  end.

(** @src auth/src/resolver.rs:217-235 [impl CredentialResolver for DefaultCredentialResolver, resolve] *)
Definition resolve (cfg : Resolver) (key state verifier : string) : M ResolvedCredential :=
  stored_result <~ attempt (timeout (re_timeout cfg) (CredTimeout key) (resolve_stored cfg key)) ;;
  match stored_result with
  | Err (CredNotFound not_found_key) => resolve_via_authorization cfg not_found_key state verifier
  | Ok c => ret c
  | Err e => fail e
  end.

(** ** What leaves the store alone *)

(** Requests and time only. *)
Definition quiet {A} (m : M A) : Prop := forall s s' r, m s = Some (s', r) ->
  en_store s' = en_store s /\ en_sources s' = en_sources s /\ en_deadline s' = en_deadline s /\ en_log s `prefix_of` en_log s'.

Lemma quiet_refl s : en_store s = en_store s /\ en_sources s = en_sources s /\ en_deadline s = en_deadline s /\ en_log s `prefix_of` en_log s.
Proof using. done. Qed.

Lemma m_quiet_ret {A} (a : A) : quiet (ret a).
Proof using. by intros s s' r [= <- <-]. Qed.
Lemma quiet_fail {A} e : quiet (fail (A := A) e).
Proof using. by intros s s' r [= <- <-]. Qed.
Lemma quiet_of_result {A} (x : result A CredentialError) : quiet (of_result x).
Proof using. destruct x; [apply m_quiet_ret|apply quiet_fail]. Qed.
Lemma quiet_of_option {A} (x : option A) : quiet (of_option x).
Proof using. destruct x; intros s s' r; cbn; [by intros [= <- <-]|done]. Qed.
Lemma m_quiet_now : quiet now.
Proof using. by intros s s' r [= <- <-]. Qed.
Lemma quiet_panic {A} : quiet (A := A) (fun _ => None).
Proof using. by intros s s' r. Qed.

Lemma quiet_pass d : quiet (pass d).
Proof using.
  intros s s' r. unfold pass. destruct (en_deadline s) as [deadline|] eqn:Hd; [destruct (_ <? _)%Z|]; intros [= <- _]; cbn; rewrite ?Hd; done.
Qed.

Lemma m_quiet_bind {A B} (m : M A) (f : A -> M B) : quiet m -> (forall a, quiet (f a)) -> quiet (bind m f).
Proof using.
  intros Hm Hf s s' r. unfold bind. destruct (m s) as [[s1 [a|e|]]|] eqn:Hs; [|intros [= <- _]; by eapply Hm..|done].
  intros Hb. destruct (Hm _ _ _ Hs) as (H1 & H2 & H3 & H4). destruct (Hf a _ _ _ Hb) as (H5 & H6 & H7 & H8).
  split_and!; [congruence..|by etrans].
Qed.

Lemma quiet_post url form : quiet (post url form).
Proof using.
  intros s s' r. unfold post. destruct (server (en_log s) url form) as [d reply]. intros Hb.
  assert (quiet (_ <~ pass d ;; ret reply)) as Hq by (apply m_quiet_bind; [apply quiet_pass|intros; apply m_quiet_ret]).
  apply Hq in Hb as (H1 & H2 & H3 & H4). cbn in *. split_and!; [done..|]. etrans; [|exact H4]. by apply prefix_app_r.
Qed.

Lemma quiet_attempt {A} (m : M A) : quiet m -> quiet (attempt m).
Proof using. intros Hm s s' r. unfold attempt. destruct (m s) as [[s1 [a|e|]]|] eqn:Hs; [intros [= <- _]; by eapply Hm..|done]. Qed.

Lemma quiet_timeout {A} d e (m : M A) : quiet m -> quiet (timeout d e m).
Proof using.
  intros Hm s s' r. unfold timeout. destruct (m _) as [[s1 x]|] eqn:Hs; [|done]. intros [= <- _]. cbn.
  destruct (Hm _ _ _ Hs) as (H1 & H2 & H3 & H4). done.
Qed.

Lemma quiet_map_err {A} f (m : M A) : quiet m -> quiet (map_err f m).
Proof using. intros Hm. apply m_quiet_bind; [by apply quiet_attempt|]. intros []; [apply m_quiet_ret|apply quiet_fail]. Qed.

Lemma quiet_get key : quiet (get key).
Proof using. intros s s' r. unfold get. apply quiet_of_result. Qed.

Create HintDb creds.
#[local] Hint Resolve m_quiet_ret quiet_fail quiet_of_result quiet_of_option m_quiet_now quiet_panic quiet_pass quiet_post quiet_get quiet_attempt quiet_timeout quiet_map_err : creds.

(** Through the cases of a program. *)
#[local] Ltac quiet :=
  repeat first
    [ solve [eauto with creds]
    | apply m_quiet_bind
    | apply quiet_map_err | apply quiet_timeout | apply quiet_attempt
    | match goal with |- quiet (match ?x with _ => _ end) => destruct x end
    | match goal with |- forall _, _ => intro end ].

Lemma quiet_is_expired buffer exp : quiet (is_expired buffer exp).
Proof using. unfold is_expired. quiet. Qed.
Lemma quiet_cache_deadline exp : quiet (cache_deadline exp).
Proof using. unfold cache_deadline. quiet. Qed.
Lemma quiet_expiry secs : quiet (expiry secs).
Proof using. unfold expiry. quiet. Qed.
Lemma quiet_refresh_token url rt id secret : quiet (refresh_token url rt id secret).
Proof using. unfold refresh_token. quiet. Qed.
Lemma quiet_exchange url code id secret uri pkce : quiet (exchange_code_with_pkce url code id secret uri pkce).
Proof using. unfold exchange_code_with_pkce. quiet. Qed.
Lemma quiet_issued response url id secret scopes : quiet (issued_credential response url id secret scopes).
Proof using. unfold issued_credential. apply m_quiet_bind; [apply quiet_expiry|quiet]. Qed.
Lemma quiet_request_device_code config : quiet (request_device_code config).
Proof using. unfold request_device_code. quiet. Qed.
Lemma quiet_poll_loop fuel config device started interval : quiet (poll_loop fuel config device started interval).
Proof using. revert interval. induction fuel as [|fuel IH]; intros interval; cbn [poll_loop]; quiet. Qed.
#[local] Hint Resolve quiet_is_expired quiet_cache_deadline quiet_expiry quiet_refresh_token quiet_exchange quiet_issued quiet_request_device_code quiet_poll_loop : creds.

(** ** What writes the store *)

Definition resolved (c : Credential) : ResolvedCredential :=
  match c with
  | CApiKey key => ApiKey key
  | CBearer token _ => Bearer token
  | COAuth2 access_token _ _ _ _ _ _ => OAuth2AccessToken access_token
  end.

(** The store is as it was, or what is handed out has been stored for the key. *)
Definition settles {A} (view : A -> ResolvedCredential) (key : string) (m : M A) : Prop := forall s s' r, m s = Some (s', r) ->
  en_deadline s' = en_deadline s /\ en_log s `prefix_of` en_log s'
  /\ (en_store s' = en_store s \/ exists a c, r = Done a /\ store_set (en_store s) key c = Ok (en_store s') /\ resolved c = view a).

Lemma quiet_settles {A} (view : A -> ResolvedCredential) key (m : M A) : quiet m -> settles view key m.
Proof using. intros Hm s s' r Hs. destruct (Hm _ _ _ Hs) as (H1 & _ & H3 & H4). auto. Qed.

Lemma m_settles_bind {A B} (view : B -> ResolvedCredential) key (m : M A) (f : A -> M B) :
  quiet m -> (forall a, settles view key (f a)) -> settles view key (bind m f).
Proof using.
  intros Hm Hf s s' r. unfold bind. destruct (m s) as [[s1 [a|e|]]|] eqn:Hs; [|intros [= <- _]..|done].
  - intros Hb. destruct (Hm _ _ _ Hs) as (H1 & H2 & H3 & H4). destruct (Hf a _ _ _ Hb) as (H5 & H6 & H7). rewrite H1 in H7.
    split; [congruence|]. split; [by etrans|done].
  - destruct (Hm _ _ _ Hs) as (H1 & _ & H3 & H4). auto.
  - destruct (Hm _ _ _ Hs) as (H1 & _ & H3 & H4). auto.
Qed.

(** Storing comes last. *)
Lemma settles_set {A} (view : A -> ResolvedCredential) key c (f : unit -> M A) :
  (forall s s' r, f tt s = Some (s', r) -> en_store s' = en_store s /\ en_deadline s' = en_deadline s /\ en_log s' = en_log s /\ exists a, r = Done a /\ view a = resolved c) ->
  settles view key (bind (set key c) f).
Proof using.
  intros Hf s s' r. unfold bind, set. destruct (store_set (en_store s) key c) as [st|e] eqn:Hst; [|intros [= <- _]; auto].
  intros (H1 & H2 & H3 & a & -> & Ha)%Hf. cbn in *. rewrite H1, H2, H3. split; [done|]. split; [done|]. right. exists a, c. by rewrite Hst.
Qed.

Lemma settles_timeout {A} (view : A -> ResolvedCredential) key d e (m : M A) : settles view key m -> settles view key (timeout d e m).
Proof using.
  intros Hm s s' r. unfold timeout. destruct (m _) as [[s1 x]|] eqn:Hs; [|done]. intros [= <- <-]. cbn.
  destruct (Hm _ _ _ Hs) as (H1 & H2 & H3). cbn in *. split; [done|]. split; [done|]. destruct H3 as [H3|(a & c & -> & H3 & H4)]; [by left|right].
  by exists a, c.
Qed.

(** A value that is wrapped after it was stored. *)
Lemma settles_wrap {A B} (view : A -> ResolvedCredential) (view' : B -> ResolvedCredential) key (m : M A) (f : A -> M B) :
  settles view key m -> (forall a s s' r, f a s = Some (s', r) -> s' = s /\ exists b, r = Done b /\ view' b = view a) -> settles view' key (bind m f).
Proof using.
  intros Hm Hf s s' r. unfold bind. destruct (m s) as [[s1 [a|e|]]|] eqn:Hs; [|intros [= <- _]..|done].
  - intros (-> & b & -> & Hb)%Hf. destruct (Hm _ _ _ Hs) as (H1 & H2 & H3). split; [done|]. split; [done|].
    destruct H3 as [H3|(a' & c & [= <-] & H3 & H4)]; [by left|right; exists b, c; by rewrite Hb].
  - destruct (Hm _ _ _ Hs) as (H1 & H2 & [H3|(? & ? & [=] & _)]). auto.
  - destruct (Hm _ _ _ Hs) as (H1 & H2 & [H3|(? & ? & [=] & _)]). auto.
Qed.

Lemma settles_refreshable buffer key : settles (ev_value (T := ResolvedCredential)) key (resolve_refreshable buffer key).
Proof using.
  unfold resolve_refreshable. apply m_settles_bind; [apply quiet_get|]. intros [[k|t exp|a rt exp url id secret scopes]|];
    try (apply quiet_settles; quiet; fail).
  apply m_settles_bind; [apply quiet_is_expired|]. intros [|]; cbn [negb]; [|apply quiet_settles; quiet].
  destruct rt as [rt|]; [|apply quiet_settles; quiet]. apply m_settles_bind; [quiet|]. intros response.
  apply m_settles_bind; [quiet|]. intros new. cbv zeta. apply settles_set. intros s s' r [= <- <-]. split_and!; [done..|]. by eexists.
Qed.

Lemma settles_issue {A} (view : A -> ResolvedCredential) key response url id secret scopes (f : unit -> M A) :
  (forall s s' r, f tt s = Some (s', r) -> en_store s' = en_store s /\ en_deadline s' = en_deadline s /\ en_log s' = en_log s
     /\ exists a, r = Done a /\ view a = OAuth2AccessToken (tr_access_token response)) ->
  settles view key (c <~ issued_credential response url id secret scopes ;; bind (set key c) f).
Proof using.
  intros Hf s s' r. unfold issued_credential, bind. destruct (expiry (tr_expires_in response) s) as [[s1 [exp|e|]]|] eqn:Hs; [|intros [= <- _]..|done].
  - cbn [ret]. intros Hset. pose proof (settles_set view key (COAuth2 (tr_access_token response) (tr_refresh_token response) exp url id secret scopes) f Hf s1 s' r Hset)
      as (H1 & H2 & H3). destruct (quiet_expiry _ _ _ _ Hs) as (H4 & _ & H5 & H6). rewrite H4 in H3. split; [congruence|]. split; [by etrans|done].
  - destruct (quiet_expiry _ _ _ _ Hs) as (H4 & _ & H5 & H6). auto.
  - destruct (quiet_expiry _ _ _ _ Hs) as (H4 & _ & H5 & H6). auto.
Qed.

Lemma settles_perform flow key state verifier : settles id key (perform flow key state verifier).
Proof using.
  destruct flow as [handler config|handler config]; cbn [perform].
  - unfold perform_authorization. cbv zeta. apply m_settles_bind; [quiet|]. intros url. destruct (handler url state) as [d answered].
    do 3 (apply m_settles_bind; [quiet|intros ?]). apply settles_issue. intros s s' r [= <- <-]. split_and!; [done..|]. by eexists.
  - unfold perform_device_authorization. apply m_settles_bind; [quiet|]. intros device. destruct (handler _) as [d presented].
    do 2 (apply m_settles_bind; [quiet|intros ?]). apply m_settles_bind; [unfold poll_device_token; quiet|]. intros response. apply settles_issue.
    intros s s' r [= <- <-]. split_and!; [done..|]. by eexists.
Qed.

(** Sharing hands on what the refresh settles. *)
Lemma settles_share buffer key refresh : settles (ev_value (T := ResolvedCredential)) key refresh -> settles id key (share buffer key refresh).
Proof using.
  intros Hr s s' r. unfold share. cbv zeta. destruct (look_up buffer (refresh_source key s)) as [v|]; [intros [= <- _]; split; [done|]; split; [done|by left]|].
  destruct (get_or_start_with _) as [[[g started] in_flight]|]; [|done].
  set (awaited := if started then refresh else _). assert (settles (ev_value (T := ResolvedCredential)) key awaited) as Ha.
  { subst awaited. destruct started; [done|]. apply quiet_settles. destruct (so_flights _ !! g) as [[|x|]|]; quiet; (destruct (flight_outcome key g); quiet). }
  clearbody awaited. unfold attempt. destruct (awaited _) as [[s1 [v|e|]]|] eqn:Hs; [intros [= <- <-]..|done];
    destruct (Ha _ _ _ Hs) as (H1 & H2 & H3); cbn in *; (split; [done|]; split; [done|]).
  - destruct H3 as [H3|(a & c & [= <-] & H3 & H4)]; [by left|right]. by exists (ev_value v), c.
  - left. by destruct H3 as [H3|(? & ? & [=] & _)].
  - left. by destruct H3 as [H3|(? & ? & [=] & _)].
Qed.

Lemma settles_stored cfg key : settles id key (resolve_stored cfg key).
Proof using.
  unfold resolve_stored. apply m_settles_bind; [quiet|]. intros [[k|t exp|a rt exp url id secret scopes]|]; try (apply quiet_settles; quiet; fail).
  apply m_settles_bind; [quiet|]. intros [|]; cbn [negb]; [|apply quiet_settles; quiet].
  destruct rt; [|apply quiet_settles; quiet]. apply settles_share, settles_refreshable.
Qed.

Lemma settles_authorization cfg key state verifier : settles id key (resolve_via_authorization cfg key state verifier).
Proof using.
  unfold resolve_via_authorization. destruct (authorization_flow cfg key) as [flow|]; [|apply quiet_settles; quiet]. apply settles_share.
  apply (settles_wrap id); [apply settles_timeout, settles_perform|]. intros a s s' r [= <- <-]. split; [done|]. by eexists.
Qed.

(** ** One call *)

(** Nobody has a refresh of the key in flight. *)
Definition alone (key : string) (s : Env) : Prop :=
  if_current (so_in_flight (refresh_source key s)) = None /\ (if_next_generation (so_in_flight (refresh_source key s)) < U64_MAX)%N.

Definition margin (buffer : Z) : Z := if (buffer <=? DELTA_MAX)%Z then buffer else (60 * SECOND)%Z.

Definition stale (buffer t : Z) (expires_at : option Z) : bool :=
  match expires_at with Some exp => (exp <=? t + margin buffer)%Z | None => false end.

Definition clock_ok (buffer : Z) (s : Env) : Prop := utc_add (en_now s) (margin buffer) = Some (en_now s + margin buffer)%Z.

Lemma is_expired_stale buffer exp s : clock_ok buffer s -> is_expired buffer exp s = Some (s, Done (stale buffer (en_now s) exp)).
Proof using.
  intros Hc. destruct exp as [e|]; [|done]. unfold is_expired, bind, now. unfold margin in Hc. unfold clock_ok, margin in Hc.
  rewrite Hc. done.
Qed.

Lemma share_alone buffer key refresh s : alone key s ->
  share buffer key refresh s
  = match refresh (with_source key (MkSource None (MkInFlight (Some (if_next_generation (so_in_flight (refresh_source key s))))
                     (if_next_generation (so_in_flight (refresh_source key s)) + 1))
                     (<[if_next_generation (so_in_flight (refresh_source key s)) := Running]> (so_flights (refresh_source key s))) (en_now s)) s) with
    | None => None
    | Some (s', Elapsed) => Some (s', Elapsed)
    | Some (s', r) =>
      let r := match r with Done v => Ok v | Fail e => Err e | Elapsed => Err (CredNotFound "") end in
      let g := if_next_generation (so_in_flight (refresh_source key s)) in
      Some (with_source key (MkSource (match r with Ok v => Some v | Err _ => None end) (MkInFlight None (g + 1))
              (<[g := Finished r]> (so_flights (refresh_source key s))) (en_now s')) s',
            match r with Ok v => Done (ev_value v) | Err e => Fail e end)
    end.
Proof using.
  intros [Hcur Hnext]. unfold share. cbv zeta. assert (look_up buffer (refresh_source key s) = None) as -> by done.
  unfold get_or_start_with. rewrite Hcur, (proj2 (N.ltb_lt _ _) Hnext). cbn [so_cached refresh_source clear_cached]. unfold attempt.
  destruct (refresh _) as [[s1 [v|e|]]|]; cbn; unfold clear_generation; rewrite ?decide_True by done; cbn; rewrite ?insert_insert_eq; done.
Qed.

(** What sharing leaves of the source, and its answer, are those of the token source
    for a caller on its own, so an execution of its steps ([alone_returns]). *)
Lemma share_get_or_refresh buffer key refresh s s' (r : Res ResolvedCredential) : alone key s ->
  share buffer key refresh s = Some (s', r) -> r <> Elapsed ->
  exists refreshed s1, s' = with_source key (fst (get_or_refresh buffer refreshed
      (MkSource None (so_in_flight (refresh_source key s)) (so_flights (refresh_source key s)) (en_now s')))) s1
    /\ en_now s1 = en_now s'
    /\ r = match snd (get_or_refresh buffer refreshed (MkSource None (so_in_flight (refresh_source key s)) (so_flights (refresh_source key s)) (en_now s'))) with
           | Ok c => Done c | Err e => Fail e end.
Proof using.
  intros Ha. rewrite share_alone by done. destruct (refresh _) as [[s1 [v|e|]]|]; [..|done]; intros [= <- <-] Hr; [| |done];
    [exists (Ok v), s1|exists (Err e), s1]; (split; [reflexivity|]); by split.
Qed.

Lemma env_eta s : MkEnv (en_store s) (en_sources s) (en_log s) (en_now s) (en_deadline s) = s.
Proof using. by destruct s. Qed.

Lemma resolve_from_store cfg key state verifier s c :
  (forall d, resolve_stored cfg key (MkEnv (en_store s) (en_sources s) (en_log s) (en_now s) d) = Some (MkEnv (en_store s) (en_sources s) (en_log s) (en_now s) d, Done c)) ->
  resolve cfg key state verifier s = Some (s, Done c).
Proof using. intros Hr. unfold resolve, bind, attempt, timeout. rewrite Hr. cbn. by rewrite env_eta. Qed.

Lemma resolve_refused cfg key state verifier s e :
  (forall k, e <> CredNotFound k) ->
  (forall d, resolve_stored cfg key (MkEnv (en_store s) (en_sources s) (en_log s) (en_now s) d) = Some (MkEnv (en_store s) (en_sources s) (en_log s) (en_now s) d, Fail e)) ->
  resolve cfg key state verifier s = Some (s, Fail e).
Proof using. intros He Hr. unfold resolve, bind, attempt, timeout. rewrite Hr. cbn. rewrite env_eta. destruct e; try done. by destruct (He key0). Qed.

(** The credential that is stored answers, or says why it cannot. *)
Lemma resolve_stored_answer cfg key state verifier s credential :
  clock_ok (re_expiry_buffer cfg) s -> store_get (en_store s) key = Ok credential ->
  match credential with
  | Some (CApiKey k) => resolve cfg key state verifier s = Some (s, Done (ApiKey k))
  | Some (CBearer token exp) =>
    resolve cfg key state verifier s = Some (s, if stale (re_expiry_buffer cfg) (en_now s) exp then Fail (CredExpired key) else Done (Bearer token))
  | Some (COAuth2 token rt exp _ _ _ _) =>
    if stale (re_expiry_buffer cfg) (en_now s) exp
    then rt = None -> resolve cfg key state verifier s = Some (s, Fail (CredExpired key))
    else resolve cfg key state verifier s = Some (s, Done (OAuth2AccessToken token))
  | None => authorization_flow cfg key = None -> resolve cfg key state verifier s = Some (s, Fail (CredNotFound key))
  end.
Proof using.
  intros Hc Hget.
  assert (forall d, get key (MkEnv (en_store s) (en_sources s) (en_log s) (en_now s) d) = Some (MkEnv (en_store s) (en_sources s) (en_log s) (en_now s) d, Done credential)) as Hg.
  { intros d. unfold get. cbn. by rewrite Hget. }
  assert (forall exp d, is_expired (re_expiry_buffer cfg) exp (MkEnv (en_store s) (en_sources s) (en_log s) (en_now s) d)
    = Some (MkEnv (en_store s) (en_sources s) (en_log s) (en_now s) d, Done (stale (re_expiry_buffer cfg) (en_now s) exp))) as He.
  { intros exp d. by rewrite is_expired_stale. }
  destruct credential as [[k|token exp|token rt exp url id secret scopes]|].
  - apply resolve_from_store. intros d. unfold resolve_stored, bind. by rewrite Hg.
  - destruct (stale _ _ exp) eqn:Hs; [apply resolve_refused; [done|]|apply resolve_from_store];
      intros d; unfold resolve_stored, bind; rewrite Hg; cbv beta iota; by rewrite He, Hs.
  - destruct (stale _ _ exp) eqn:Hs; [intros ->; apply resolve_refused; [done|]|apply resolve_from_store];
      intros d; unfold resolve_stored, bind; rewrite Hg; cbv beta iota; by rewrite He, Hs.
  - intros Hf. unfold resolve, bind, attempt, timeout, resolve_stored, bind. rewrite Hg. cbn. unfold resolve_via_authorization. rewrite Hf, env_eta. done.
Qed.

(** [Utc::now() + chrono::Duration::seconds(secs)], or the panic. *)
Definition expires_at (t : Z) (expires_in : option Z) : option (option Z) :=
  match expires_in with Some secs => d ← delta_seconds secs; exp ← utc_add t d; Some (Some exp) | None => Some None end.

Lemma expiry_run secs s : expiry secs s = match expires_at (en_now s) secs with Some exp => Some (s, Done exp) | None => None end.
Proof using.
  destruct secs as [n|]; [|done]. unfold expiry, expires_at, bind, now. destruct (delta_seconds n) as [d|]; [|done]. cbn.
  by destruct (utc_add (en_now s) d).
Qed.

Definition sent (url : string) (form : Form) (s : Env) : Env := MkEnv (en_store s) (en_sources s) (en_log s ++ [(url, form)]) (en_now s) (en_deadline s).

Lemma refreshable_run buffer key s token rt exp url id secret scopes :
  clock_ok buffer s -> store_get (en_store s) key = Ok (Some (COAuth2 token (Some rt) exp url id secret scopes)) ->
  stale buffer (en_now s) exp = true ->
  resolve_refreshable buffer key s
  = let '(d, reply) := server (en_log s) url (refresh_form rt id secret) in
    match pass d (sent url (refresh_form rt id secret) s) with
    | Some (s1, Done _) =>
      match read_reply parse_token_response "token refresh" reply with
      | inr reason => Some (s1, Fail (CredRefreshFailed key reason))
      | inl response =>
        match expires_at (en_now s1) (tr_expires_in response) with
        | None => None
        | Some exp' =>
          let c := COAuth2 (tr_access_token response) (Some (default rt (tr_refresh_token response))) exp' url id secret scopes in
          match store_set (en_store s1) key c with
          | Ok st' => Some (MkEnv st' (en_sources s1) (en_log s1) (en_now s1) (en_deadline s1),
                            Done (MkExpiring (OAuth2AccessToken (tr_access_token response))
                                    (match exp' with Some e => en_now s1 + Z.max 0 (e - en_now s1) | None => en_now s1 + 60 * 60 * 24 * 365 * SECOND end)%Z))
          | Err e => Some (s1, Fail e)
          end
        end
      end
    | Some (s1, _) => Some (s1, Elapsed)
    | None => None
    end.
Proof using.
  intros Hc Hget Hst. assert (get key s = Some (s, Done (Some (COAuth2 token (Some rt) exp url id secret scopes)))) as Hg by (unfold get; by rewrite Hget).
  unfold resolve_refreshable. unfold bind at 1. rewrite Hg. cbv beta iota. unfold bind at 1. rewrite is_expired_stale, Hst by done. cbn [negb].
  unfold map_err, refresh_token, post. destruct (server (en_log s) url (refresh_form rt id secret)) as [d reply] eqn:Hsv.
  unfold bind, attempt. rewrite Hsv. fold (sent url (refresh_form rt id secret) s). destruct (pass d _) as [[s1 [u|e|]]|] eqn:Hp; [| | |done].
  - cbn [ret]. destruct (read_reply parse_token_response "token refresh" reply) as [response|reason]; [|done]. cbn [ret fail]. rewrite expiry_run.
    destruct (expires_at (en_now s1) (tr_expires_in response)) as [exp'|]; [|done]. cbv zeta.
    assert (match tr_refresh_token response with Some rotated => Some rotated | None => Some rt end = Some (default rt (tr_refresh_token response))) as ->
      by (by destruct (tr_refresh_token response)).
    unfold set. destruct (store_set (en_store s1) key _) as [st'|e]; [|done]. unfold cache_deadline, bind, now. cbn. done.
  - unfold pass in Hp. destruct (en_deadline _); [destruct (_ <? _)%Z|]; discriminate Hp.
  - done.
Qed.

(** An expired credential with a refresh token: one request, and what becomes of it. *)
Lemma resolve_refreshes cfg key state verifier s token rt exp url id secret scopes :
  clock_ok (re_expiry_buffer cfg) s -> alone key s ->
  store_get (en_store s) key = Ok (Some (COAuth2 token (Some rt) exp url id secret scopes)) ->
  stale (re_expiry_buffer cfg) (en_now s) exp = true ->
  let '(d, reply) := server (en_log s) url (refresh_form rt id secret) in
  let log := en_log s ++ [(url, refresh_form rt id secret)] in
  if (re_timeout cfg <? d)%Z then
    exists s', resolve cfg key state verifier s = Some (s', Fail (CredTimeout key))
      /\ en_store s' = en_store s /\ en_log s' = log /\ en_now s' = (en_now s + re_timeout cfg)%Z
  else
    match read_reply parse_token_response "token refresh" reply with
    | inr reason =>
      exists s', resolve cfg key state verifier s = Some (s', Fail (CredRefreshFailed key reason))
        /\ en_store s' = en_store s /\ en_log s' = log /\ en_now s' = (en_now s + d)%Z /\ if_current (so_in_flight (refresh_source key s')) = None
    | inl response =>
      match expires_at (en_now s + d) (tr_expires_in response) with
      | None => resolve cfg key state verifier s = None
      | Some exp' =>
        forall st', store_set (en_store s) key
          (COAuth2 (tr_access_token response) (Some (default rt (tr_refresh_token response))) exp' url id secret scopes) = Ok st' ->
        exists s', resolve cfg key state verifier s = Some (s', Done (OAuth2AccessToken (tr_access_token response)))
          /\ en_store s' = st' /\ en_log s' = log /\ en_now s' = (en_now s + d)%Z /\ if_current (so_in_flight (refresh_source key s')) = None
      end
    end.
Proof using.
  intros Hc Ha Hget Hst. destruct (server (en_log s) url (refresh_form rt id secret)) as [d reply] eqn:Hsv. cbv zeta.
  set (s0 := MkEnv (en_store s) (en_sources s) (en_log s) (en_now s) (Some (en_now s + re_timeout cfg)%Z)).
  assert (clock_ok (re_expiry_buffer cfg) s0) as Hc0 by done. assert (alone key s0) as Ha0 by done.
  assert (resolve_stored cfg key s0 = share (re_expiry_buffer cfg) key (resolve_refreshable (re_expiry_buffer cfg) key) s0) as Hstored.
  { unfold resolve_stored. unfold bind at 1. assert (get key s0 = Some (s0, Done (Some (COAuth2 token (Some rt) exp url id secret scopes)))) as -> by (unfold get; change (en_store s0) with (en_store s); by rewrite Hget).
    cbv beta iota zeta. unfold bind at 1. rewrite is_expired_stale by done. change (en_now s0) with (en_now s). by rewrite Hst. }
  rewrite (share_alone _ _ _ _ Ha0) in Hstored. set (s1 := with_source key _ s0) in Hstored.
  rewrite (refreshable_run _ key s1 token rt exp url id secret scopes) in Hstored by done.
  change (en_log s1) with (en_log s) in Hstored. rewrite Hsv in Hstored. unfold pass in Hstored. cbn [sent en_now en_deadline s1 s0 with_source en_log en_store en_sources] in Hstored.
  unfold resolve, attempt, timeout, bind. fold s0. rewrite Hstored. clear Hstored.
  destruct (Z.ltb_spec (re_timeout cfg) d) as [Hlt|Hle]; [rewrite (proj2 (Z.ltb_lt _ _)) by lia|rewrite (proj2 (Z.ltb_ge _ _)) by lia]; cbn.
  { eexists. split; [reflexivity|]. done. }
  destruct (read_reply parse_token_response "token refresh" reply) as [response|reason]; cbn.
  - destruct (expires_at (en_now s + d) (tr_expires_in response)) as [exp'|]; cbn; [|done]. intros st' ->. cbn. eexists. split; [reflexivity|]. cbn.
    split_and!; try done. unfold refresh_source. cbn. by rewrite lookup_insert_eq.
  - eexists. split; [reflexivity|]. cbn. split_and!; try done. unfold refresh_source. cbn. by rewrite lookup_insert_eq.
Qed.

(** ** Which key is not found *)

Definition names {A} (key : string) (m : M A) : Prop := forall s s' k, m s = Some (s', Fail (CredNotFound k)) -> k = key.

Lemma names_bind {A B} key (m : M A) (f : A -> M B) : names key m -> (forall a, names key (f a)) -> names key (bind m f).
Proof using.
  intros Hm Hf s s' k. unfold bind. destruct (m s) as [[s1 [a|e|]]|] eqn:Hs; [apply Hf|intros [= _ ->]; by eapply Hm|done..].
Qed.

Lemma names_ret {A} key (a : A) : names key (ret a).
Proof using. done. Qed.
Lemma names_fail {A} key e : (forall k, e = CredNotFound k -> k = key) -> names key (fail (A := A) e).
Proof using. intros He s s' k [= _ ->]. by apply He. Qed.
Lemma names_of_option {A} key (x : option A) : names key (of_option x).
Proof using. by destruct x. Qed.
Lemma names_post key url form : names key (post url form).
Proof using.
  intros s s' k. unfold post. destruct (server _ _ _) as [d reply]. unfold bind, pass. cbn. destruct (en_deadline s); [destruct (_ <? _)%Z|]; done.
Qed.

Lemma names_stale key buffer exp : names key (is_expired buffer exp).
Proof using. unfold is_expired. destruct exp; [|done]. apply names_bind; [done|]. intros t. apply names_bind; [apply names_of_option|]. by intros. Qed.

Lemma names_expiry key secs : names key (expiry secs).
Proof using.
  unfold expiry. destruct secs; [|done]. apply names_bind; [done|]. intros t. apply names_bind; [apply names_of_option|]. intros d.
  apply names_bind; [apply names_of_option|]. by intros.
Qed.

Context `{!CredentialStoreLaws St}.

Lemma names_get key key' : names key (get key').
Proof using Type*. intros s s' k. unfold get. destruct (store_get (en_store s) key') as [c|e] eqn:Hg; [done|]. intros [= _ ->]. by apply store_get_absent in Hg. Qed.

Lemma names_set {A} key key' c (f : unit -> M A) : names key (f tt) -> names key (bind (set key' c) f).
Proof using Type*.
  intros Hf s s' k. unfold bind, set. destruct (store_set (en_store s) key' c) as [st|e] eqn:Hg; [apply Hf|]. intros [= _ ->]. by apply store_set_absent in Hg.
Qed.

Lemma names_refreshable buffer key : names key (resolve_refreshable buffer key).
Proof using Type*.
  unfold resolve_refreshable. apply names_bind; [apply names_get|]. intros [[k|t exp|a rt exp url id secret scopes]|]; [done| | |by apply names_fail; intros k [= ->]].
  - apply names_bind; [apply names_stale|]. intros [|]; [by apply names_fail|done].
  - apply names_bind; [apply names_stale|]. intros [|]; cbn [negb]; [|done]. destruct rt as [rt|]; [|by apply names_fail].
    apply names_bind.
    + intros s s' k. unfold map_err, refresh_token, bind, attempt. destruct (post url _ s) as [[s1 [reply|e|]]|] eqn:Hp; [|intros [= _ He]|done..].
      * destruct (read_reply _ _ reply); done.
      * destruct e; try done. injection He as ->. by eapply names_post.
    + intros response. apply names_bind; [apply names_expiry|]. intros new. cbv zeta. by apply names_set.
Qed.

Lemma stored_not_found cfg key s s' k : alone key s -> resolve_stored cfg key s = Some (s', Fail (CredNotFound k)) -> k = key.
Proof using Type*.
  intros Ha. unfold resolve_stored, bind. destruct (get key s) as [[s1 [c|e|]]|] eqn:Hg; [|intros [= _ ->]; by eapply names_get|done..].
  assert (s1 = s) as -> by (unfold get in Hg; destruct (store_get _ _); by injection Hg as ->).
  destruct c as [[k'|t exp|a rt exp url id secret scopes]|]; [done| | |by intros [= _ ->]].
  - destruct (is_expired _ exp s) as [[s2 [[]|e|]]|] eqn:He; try done. intros [= _ ->]. by eapply names_stale.
  - destruct (is_expired _ exp s) as [[s2 [[]|e|]]|] eqn:He; cbn [negb]; try done; [|intros [= _ ->]; by eapply names_stale].
    destruct rt; [|done]. assert (alone key s2) as Ha2.
    { unfold is_expired in He. destruct exp; [|by injection He as ->]. unfold bind, now in He. destruct (of_option _ s) as [[s3 [x|x|]]|] eqn:Ho; try done.
      unfold of_option in Ho. destruct (utc_add _ _); [|done]. injection Ho as <- _. by injection He as ->. }
    rewrite share_alone by done. destruct (resolve_refreshable _ _ _) as [[s3 [v|e|]]|] eqn:Hr; try done. intros [= _ ->]. by eapply names_refreshable.
Qed.


(** ** Polling for a device *)

(** Replies take time, and the deadline is ahead. *)
Definition ahead (s : Env) : Prop := match en_deadline s with Some deadline => (en_now s <= deadline)%Z | None => True end.

Lemma pass_cases d s : (0 <= d)%Z -> ahead s ->
  exists s' r, pass d s = Some (s', r) /\ en_log s' = en_log s /\ ahead s' /\ (en_now s <= en_now s')%Z
    /\ (r = Done tt /\ en_now s' = (en_now s + d)%Z \/ r = Elapsed).
Proof using.
  intros Hd Ha. unfold pass, ahead in *. destruct (en_deadline s) as [deadline|].
  - destruct (Z.ltb_spec deadline (en_now s + d)); eexists _, _; (split; [done|]); cbn; split_and!; try done; try lia; [by right|by left].
  - eexists _, _. split; [done|]. cbn. split_and!; try done; [lia|by left].
Qed.

Context (server_takes_time : forall log url form, (0 <= fst (server log url form))%Z).

Lemma post_cases url form s : ahead s ->
  exists s' r, post url form s = Some (s', r) /\ en_log s' = en_log s ++ [(url, form)] /\ ahead s' /\ (en_now s <= en_now s')%Z
    /\ ((exists reply, r = Done reply) \/ r = Elapsed).
Proof using server_takes_time.
  intros Ha. unfold post. pose proof (server_takes_time (en_log s) url form) as Ht. destruct (server (en_log s) url form) as [d reply]. cbn in Ht.
  destruct (pass_cases d (MkEnv (en_store s) (en_sources s) (en_log s ++ [(url, form)]) (en_now s) (en_deadline s)) Ht Ha)
    as (s' & r & Hp & Hl & Ha' & Hn & Hr). unfold bind. rewrite Hp. destruct Hr as [[-> _]| ->]; eexists _, _; (split; [reflexivity|]); split_and!; eauto.
Qed.

Definition polls (n : nat) (config : DeviceAuthorizationConfig) (device : DeviceAuthorizationResponse) : list (string * Form) :=
  replicate n (dc_token_url config, poll_form config device).

(** The loop ends; its polls keep their distance and lie within the lifetime. *)
Lemma poll_loop_spec fuel config device started interval s :
  ahead s -> (SECOND <= interval <= U64_SECONDS_MAX)%Z -> (started <= en_now s)%Z ->
  ((lifetime device - (en_now s - started)) / SECOND < Z.of_nat fuel)%Z -> 0 < fuel ->
  exists s' r n, poll_loop fuel config device started interval s = Some (s', r)
    /\ en_log s' = en_log s ++ polls n config device
    /\ (0 < n -> (en_now s - started + Z.of_nat n * interval < lifetime device)%Z)
    /\ (en_now s + Z.of_nat n * interval <= en_now s')%Z
    /\ ((exists token, r = Done token) -> 0 < n).
Proof using server_takes_time.
  revert interval s. induction fuel as [|fuel IH]; intros interval s Ha Hi Hst Hf H0; [lia|]. cbn [poll_loop]. unfold bind at 1.
  destruct (pass_cases interval s ltac:(unfold SECOND in Hi; lia) Ha) as (s1 & r1 & -> & Hl1 & Ha1 & Hn1 & [[-> He1]| ->]);
    [|exists s1, Elapsed, 0; rewrite app_nil_r; split_and!; try done; [lia..|by intros []]].
  unfold bind at 1, now. cbv beta iota. destruct (Z.leb_spec (lifetime device) (en_now s1 - started)) as [Hover|Hin].
  { eexists s1, _, 0. split; [reflexivity|]. rewrite app_nil_r. split_and!; try done; [lia..|by intros []]. }
  unfold bind. destruct (post_cases (dc_token_url config) (poll_form config device) s1 Ha1) as (s2 & r2 & -> & Hl2 & Ha2 & Hn2 & Hr2).
  assert (forall (r : Res TokenResponse), exists n, en_log s2 = en_log s ++ polls n config device
    /\ (0 < n -> (en_now s - started + Z.of_nat n * interval < lifetime device)%Z) /\ (en_now s + Z.of_nat n * interval <= en_now s2)%Z
    /\ ((exists token, r = Done token) -> 0 < n)) as Hend.
  { intros r. exists 1. rewrite Hl2, Hl1. split_and!; [done|lia..]. }
  destruct Hr2 as [[reply ->]| ->]; [|destruct (Hend Elapsed) as [n ?]; by exists s2, Elapsed, n].
  assert (forall e, exists s' r n, fail (A := TokenResponse) e s2 = Some (s', r) /\ en_log s' = en_log s ++ polls n config device
    /\ (0 < n -> (en_now s - started + Z.of_nat n * interval < lifetime device)%Z) /\ (en_now s + Z.of_nat n * interval <= en_now s')%Z
    /\ ((exists token, r = Done token) -> 0 < n)) as Hfail.
  { intros e. destruct (Hend (Fail e)) as [n ?]. by exists s2, (Fail e), n. }
  assert (forall interval', (interval <= interval' <= U64_SECONDS_MAX)%Z -> exists s' r n, poll_loop fuel config device started interval' s2 = Some (s', r)
    /\ en_log s' = en_log s ++ polls n config device
    /\ (0 < n -> (en_now s - started + Z.of_nat n * interval < lifetime device)%Z) /\ (en_now s + Z.of_nat n * interval <= en_now s')%Z
    /\ ((exists token, r = Done token) -> 0 < n)) as Hagain.
  { intros interval' Hi'. assert ((lifetime device - (en_now s2 - started)) / SECOND < Z.of_nat fuel)%Z as Hf'.
    { assert ((lifetime device - (en_now s2 - started)) / SECOND <= (lifetime device - (en_now s - started) + -1 * SECOND) / SECOND)%Z as Hle.
      { apply Z.div_le_mono; unfold SECOND in *; lia. }
      rewrite Z.div_add in Hle by done. lia. }
    destruct (IH interval' s2 Ha2 ltac:(lia) ltac:(lia) Hf') as (s' & r & n & Hp & Hl & Hb & Hn & _).
    { destruct fuel; [|lia]. exfalso. assert (0 <= (lifetime device - (en_now s - started)) / SECOND - 1)%Z; [|lia].
      assert (1 <= (lifetime device - (en_now s - started)) / SECOND)%Z; [|lia]. apply Z.div_le_lower_bound; unfold SECOND in *; lia. }
    exists s', r, (S n). split; [done|]. split; [rewrite Hl, Hl2, Hl1; unfold polls; cbn; by rewrite <- app_assoc|].
    assert (Z.of_nat n * interval <= Z.of_nat n * interval')%Z by nia. split; [|split; [lia|lia]]. intros _.
    destruct n as [|n]; [lia|]. specialize (Hb ltac:(lia)). lia. }
  destruct reply as [e|status body]; [apply Hfail|]. destruct (is_success status) eqn:Hs.
  - destruct (read_reply _ _ _) as [response|reason]; [|apply Hfail]. destruct (Hend (Done response)) as [n ?]. by exists s2, (Done response), n.
  - destruct (classify_device_poll_response status (body_text body)); [apply Hagain; lia|apply Hagain; unfold SECOND in *; lia|apply Hfail].
Qed.

(** Polling for a device ends.  Whatever the provider replies (pending for ever,
    slow down, errors) and whatever the deadline, the loop returns within the lifetime
    of the device code: its requests are all the same poll, one per interval at
    most, never after the lifetime, and tokens come only from a poll. *)
Lemma device_poll_contract config device s :
  ahead s -> (forall secs, dv_interval device = Some secs -> (secs <= 18446744073709551615)%Z) ->
  exists s' r n, poll_device_token config device s = Some (s', r)
    /\ en_log s' = en_log s ++ polls n config device
    /\ (0 < n -> (Z.of_nat n * poll_interval device < lifetime device)%Z)
    /\ (en_now s + Z.of_nat n * poll_interval device <= en_now s')%Z
    /\ ((exists token, r = Done token) -> 0 < n).
Proof using server_takes_time.
  intros Ha Hsecs. assert (0 <= lifetime device)%Z as Hl.
  { unfold lifetime. destruct (dv_expires_in device) as [e|]; [destruct (Z.ltb_spec 0 e)|]; unfold SECOND; lia. }
  assert (SECOND <= poll_interval device <= U64_SECONDS_MAX)%Z as Hi.
  { unfold poll_interval, U64_SECONDS_MAX. destruct (dv_interval device) as [e|]; [specialize (Hsecs e eq_refl); destruct (Z.ltb_spec 0 e)|]; unfold SECOND; lia. }
  unfold poll_device_token, bind, now.
  destruct (poll_loop_spec (S (Z.to_nat (lifetime device / SECOND))) config device (en_now s) (poll_interval device) s Ha Hi) as (s' & r & n & Hp & Hlog & Hb & Hn & Hd);
    [lia| |lia|].
  { rewrite Z.sub_diag, Z.sub_0_r. assert (0 <= lifetime device / SECOND)%Z by (apply Z.div_pos; done). lia. }
  exists s', r, n. split_and!; try done. intros Hpos. specialize (Hb Hpos). lia.
Qed.

End Resolver.

Arguments Done {A} a.
Arguments Fail {A} e.
Arguments Elapsed {A}.
(** ** Lifetimes that providers send *)

(** A lifetime beyond the calendar panics the refresh: the token it got is lost, and
    the panic stays in the token source ([TokenSource.poisoned_for_ever]). *)
Lemma huge_expires_in_panics : expires_at 0 (Some 9000000000000%Z) = None /\ expires_at 0 (Some 9223372036854775807%Z) = None.
Proof. split; vm_compute; reflexivity. Qed.

(** A lifetime that is not positive is no lifetime at all, not the default one. *)
Lemma zero_lifetime_expires : lifetime (MkDevice "d" "u" "v" None (Some 0%Z) None) = 0%Z.
Proof. reflexivity. Qed.

(** ** Examples *)
Section Demo.

Definition expired_token : Credential := COAuth2 "old" (Some "refresh") (Some 10%Z) "https://id/token" "client" None [].

Definition demo_server (log : list (string * Form)) (url : string) (form : Form) : Z * Reply :=
  (SECOND, match log with [] => Replied 200 (Ok "token") | _ => Replied 400 (Ok "denied") end).

Definition demo_parse (body : string) : option TokenResponse :=
  if String.eqb body "token" then Some (MkTokenResponse "new" None (Some 3600%Z)) else None.

Definition demo_error (body : string) : option string := if String.eqb body "denied" then Some "invalid_grant" else None.

Definition demo_resolver : Resolver := MkResolver (60 * SECOND) None ∅ None ∅ (30 * SECOND) (300 * SECOND).

Definition demo_env : Env (St := gmap string Credential) := MkEnv {["k" := expired_token]} ∅ [] (100 * SECOND)%Z None.

Abbreviation demo_resolve key := (resolve demo_server demo_parse demo_error (fun _ => None) (fun _ _ => None) id (fun _ _ => (0%Z, Err (CredTimeout "")))
  demo_resolver key "state" "verifier").


(** A provider that never stops saying "pending". *)
Lemma device_poll_contract_witness :
  let server := fun (_ : list (string * Form)) (_ : string) (_ : Form) => (SECOND, Replied 400 (Ok "p")) in
  exists s' r n,
    poll_device_token server (fun _ => None) (fun _ => Some "authorization_pending") (MkDeviceAuthorizationConfig "d" "t" "c" None [])
      (MkDevice "code" "user" "uri" None (Some 60%Z) None) demo_env = Some (s', r)
    /\ length (en_log s') = n /\ n <= 12.
Proof.
  intros server. assert (forall log url form, (0 <= fst (server log url form))%Z) as Ht by (intros; unfold SECOND; cbn; discriminate).
  destruct (device_poll_contract server (fun _ => None) (fun _ => Some "authorization_pending") Ht (MkDeviceAuthorizationConfig "d" "t" "c" None [])
    (MkDevice "code" "user" "uri" None (Some 60%Z) None) demo_env I ltac:(intros ? [=])) as (s' & r & n & H1 & H2 & H3 & _).
  exists s', r, n. split; [exact H1|]. split; [rewrite H2; cbn; unfold polls; by rewrite length_replicate|].
  destruct n as [|n]; [lia|]. specialize (H3 ltac:(lia)). unfold poll_interval, lifetime, SECOND in H3. cbn in H3. lia.
Defined.

End Demo.
End Credentials.
