(* ===== verification/Sandbox.v ===== *)
(** * The sandbox policy: [policies/src/sandbox.rs]

    A policy that lets a tool call through when the paths in its arguments lie under
    an allowed root.  It resolves a path by itself, before the tool does; the
    theorem is that both come to the same place, so that a call that was let
    through touches nothing outside the allowed root, however large the execution
    root of the tool is.  That holds of paths without [".."]; with them the policy
    and the tools part ways ([dotdot_through_link]). *)
From S2P Require Export EditFile Policy.
Open Scope string_scope.
Open Scope list_scope.

Module Sandbox.
Import Confine EditFile.

Section Policy.
Context `{E : Ext}.
(** The working directory of the process, for relative roots. *)
Context (cwd : RealPath).

(** @src policies/src/sandbox.rs:22-26 [SandboxPolicy] *)
Record SandboxPolicy := MkSandboxPolicy {
  sb_allowed_root : string;
  sb_path_fields : list string;
}.

(** @src policies/src/sandbox.rs:32-41 [SandboxPolicy::new] *)
Definition sandbox_new (allowed_root : string) : SandboxPolicy :=
  MkSandboxPolicy allowed_root ["path"; "file_path"; "file"].

(** @src policies/src/sandbox.rs:44-48 [SandboxPolicy::with_path_fields] *)
Definition with_path_fields (p : SandboxPolicy) (fields : list string) : SandboxPolicy :=
  MkSandboxPolicy (sb_allowed_root p) fields.

(** [Path::file_name]: none of the root and of [".."] *)
Definition file_name (p : list string) : option string :=
  c ← last p; if String.eqb c ".." then None else Some c.

Definition no_ancestor (path : list string) : string :=
  ("failed to resolve path '" ++ display path ++ "': no existing ancestor")%string.

(** A name that did not exist yet, put behind what was resolved; a name of a path is
    never empty or ["."].
    @src policies/src/sandbox.rs:103-117 [resolve_existing_prefix, for] *)
Definition push_component (path resolved : list string) (component : string) : result (list string) string :=
  if String.eqb component "." then Ok resolved
  else if String.eqb component ".." then Ok (parent resolved)
  else if str_is_empty component then Err ("path '" ++ display path ++ "' contains an unsupported component")%string
  else Ok (resolved ++ [component]).

Fixpoint push_components (path resolved components : list string) : result (list string) string :=
  match components with
  | [] => Ok resolved
  | c :: components => resolved <-? push_component path resolved c ;; push_components path resolved components
  end.

(** [depth] is the number of names of [probe].
    @src policies/src/sandbox.rs:97-142 [resolve_existing_prefix, loop] *)
Fixpoint probe_prefix (depth : nat) (fs : Fs) (path unresolved probe : list string) : result (list string) string :=
  match symlink_metadata fs probe with
  | Ok _ =>
    match canonicalize fs probe with
    | Err e => Err ("failed to canonicalize '" ++ display probe ++ "': " ++ io_text e)%string
    | Ok resolved => push_components path resolved (rev unresolved)
    end
  | Err e =>
    if decide (io_kind e = NotFound) then
      match file_name probe, depth with
      | Some component, S depth => probe_prefix depth fs path (unresolved ++ [component]) (parent probe)
      | _, _ => Err (no_ancestor path)
      end
    else Err ("failed to inspect path '" ++ display probe ++ "': " ++ io_text e)%string
  end.

(** @src policies/src/sandbox.rs:93-143 [SandboxPolicy::resolve_existing_prefix] *)
Definition resolve_existing_prefix (fs : Fs) (path : list string) : result (list string) string :=
  probe_prefix (length path) fs path [] path.

(** @src policies/src/sandbox.rs:70-91 [SandboxPolicy::resolve_path] *)
Definition resolve_path (fs : Fs) (path : string) (execution_root : option string) : result (list string) string :=
  if is_absolute path then resolve_existing_prefix fs (components path)
  else
    match execution_root with
    | None => Err ("relative path '" ++ path ++ "' cannot be validated without an execution root")%string
    | Some root =>
      match canonicalize fs (as_given cwd root) with
      | Err e => Err ("execution root '" ++ root ++ "' is unavailable: " ++ io_text e)%string
      | Ok root => resolve_existing_prefix fs (root ++ components path)
      end
    end.

(** @src policies/src/sandbox.rs:50-68 [SandboxPolicy::validate_path] *)
Definition validate_path (p : SandboxPolicy) (fs : Fs) (path : string) (execution_root : option string) : result unit string :=
  match canonicalize fs (as_given cwd (sb_allowed_root p)) with
  | Err e => Err ("sandbox allowed root '" ++ sb_allowed_root p ++ "' is unavailable: " ++ io_text e)%string
  | Ok allowed_root =>
    resolved_path <-? resolve_path fs path execution_root ;;
    if inside allowed_root resolved_path then Ok tt
    else Err ("path '" ++ display resolved_path ++ "' resolves outside allowed root '" ++ display allowed_root ++ "'")%string
  end.

(** The first of the fields that is refused.
    @src policies/src/sandbox.rs:156-168 [SandboxPolicy::evaluate, for] *)
Fixpoint check_fields (p : SandboxPolicy) (fs : Fs) (obj : Value) (execution_root : option string) (fields : list string)
  : PreDispatchVerdict :=
  match fields with
  | [] => DContinue
  | field_name :: fields =>
    match json_get obj field_name ≫= json_as_str with
    | None => check_fields p fs obj execution_root fields
    | Some path_str =>
      match validate_path p fs path_str execution_root with
      | Ok _ => check_fields p fs obj execution_root fields
      | Err reason => DSkip ("path '" ++ path_str ++ "' in field '" ++ field_name ++ "' is outside allowed root '"
                             ++ sb_allowed_root p ++ "': " ++ reason)%string
      end
    end
  end.

(** The state of the host is the file system, which a verdict only looks at.
    @src policies/src/sandbox.rs:151-171 [SandboxPolicy::evaluate] *)
Definition sandbox (p : SandboxPolicy) : PreDispatchPolicy (H := Fs) := fun ctx fs =>
  (Some (if json_is_object (dc_arguments ctx)
         then check_fields p fs (dc_arguments ctx) (dc_execution_root ctx) (sb_path_fields p)
         else DContinue), dc_arguments ctx, fs).

(** ** What the probe finds *)

Lemma push_components_plain path resolved names :
  Forall (fun c => c <> ".." /\ c <> "." /\ c <> "") names -> push_components path resolved names = Ok (resolved ++ names).
Proof using.
  revert resolved. induction names as [|c names IH]; intros resolved Hn; cbn [push_components]; [by rewrite app_nil_r|].
  inversion_clear Hn as [|? ? (H1 & H2 & H3) Hrest]. unfold push_component.
  destruct (String.eqb_spec c "."); [done|]. destruct (String.eqb_spec c ".."); [done|].
  destruct c as [|a c]; [done|]. cbn [str_is_empty result_bind]. rewrite IH by done. by rewrite <- app_assoc.
Qed.

(** It stops at the longest part that is there; the names behind it are missing. *)
Lemma probe_prefix_spec depth fs path unresolved probe resolved :
  length probe = depth -> probe_prefix depth fs path unresolved probe = Ok resolved ->
  exists a mid q n, probe = a ++ mid /\ stat fs a = Found q n /\ Forall (fun c => c <> "..") mid
    /\ push_components path q (mid ++ rev unresolved) = Ok resolved
    /\ forall s, s <> [] -> s `prefix_of` mid -> exists e, symlink_metadata fs (a ++ s) = Err e /\ io_kind e = NotFound.
Proof using.
  revert unresolved probe. induction depth as [|depth IH]; intros unresolved probe Hl; cbn [probe_prefix];
    (destruct (symlink_metadata fs probe) as [[]|e] eqn:Hm;
     [unfold canonicalize; destruct (stat fs probe) as [q n|? ?|?] eqn:Hs; [|done..]; intros Hp; exists probe, [], q, n;
      rewrite app_nil_r; split_and!; [done..|]; by intros s Hne ->%prefix_nil_inv|]);
    (destruct (decide (io_kind e = NotFound)) as [Hk|]; [|done]); [by destruct (file_name probe)|].
  destruct probe as [|c l _] using rev_ind; [done|]. unfold file_name. rewrite last_snoc. cbn [mbind option_bind].
  destruct (String.eqb_spec c "..") as [|Hcc]; [done|]. unfold parent. rewrite parent_snoc. rewrite length_app in Hl. cbn in Hl.
  intros (a & mid & q & n & -> & Ha & Hmid & Hp & Hno)%IH; [|lia]. exists a, (mid ++ [c]), q, n.
  split; [by rewrite app_assoc|]. split; [done|]. split; [by apply Forall_app; split; [|constructor]|].
  split; [rewrite rev_app_distr in Hp; by rewrite <- app_assoc|]. intros s Hne [t Ht]. destruct t as [|x t _] using rev_ind.
  - rewrite app_nil_r in Ht. subst s. exists e. split; [by rewrite app_assoc|done].
  - rewrite app_assoc in Ht. apply app_inj_tail in Ht as [-> _]. apply Hno; [done|]. by exists t.
Qed.

Lemma components_plain path : Forall (fun c => c <> "." /\ c <> "") (components path).
Proof using.
  apply Forall_forall. intros c [Hc _]%list_elem_of_filter. apply Is_true_true, negb_true_iff, orb_false_iff in Hc as [H1 H2].
  split; [|by intros ->]. intros ->. done.
Qed.

Lemma missing_lstat fs p e : symlink_metadata fs p = Err e -> forall q n, lstat fs p <> Found q n.
Proof using. unfold symlink_metadata. by destruct (lstat fs p). Qed.

Lemma missing_stat fs p e : symlink_metadata fs p = Err e -> forall q n, stat fs p <> Found q n.
Proof using. intros Hm q n (q' & n' & Hl)%lstat_found. by eapply missing_lstat. Qed.

(** A real path through [q]: what comes next on it is an entry of [q]. *)
Lemma real_next fs x q c l n : stat fs x = Found (q ++ c :: l) n -> chain fs q /\ exists node, fs !! (q ++ [c]) = Some node.
Proof using.
  intros Hx. destruct (real_stat _ _ _ _ Hx) as (Hn & _ & Hp).
  destruct l as [|d l _] using rev_ind.
  - unfold parent in Hp. rewrite parent_snoc in Hp. split; [done|]. destruct Hn as [Hc|[bytes Hb]].
    + exists DirNode. apply chain_node in Hc. by destruct q.
    + exists (FileNode bytes). by destruct q.
  - unfold parent in Hp. rewrite app_comm_cons, app_assoc, parent_snoc in Hp. destruct Hp as [Hne Hd]. split.
    + split; [by apply Forall_app in Hne as [? _]|]. intros k Hk. rewrite <- (take_app_le q (c :: l)) by lia.
      apply Hd. rewrite length_app. cbn. lia.
    + exists DirNode. rewrite <- (Hd (length q + 1)); [|rewrite length_app; cbn; lia]. f_equal.
      rewrite take_app_ge by lia. replace (length q + 1 - length q) with 1 by lia. done.
Qed.

(** An allowed root that holds what a path leads to, and missing names behind it, holds
    what the path leads to. *)
Lemma root_reaches fs x root n a q m c l e :
  stat fs x = Found root n -> stat fs a = Found q m -> c <> ".." -> symlink_metadata fs (a ++ [c]) = Err e ->
  root `prefix_of` q ++ c :: l -> root `prefix_of` q.
Proof using.
  intros Hx Ha Hc Hm Hr.
  destruct (prefix_weak_total root q (q ++ c :: l) Hr ltac:(by apply prefix_app_r)) as [?|[[|d t] ->]]; [done|by rewrite app_nil_r|].
  apply prefix_app_inv in Hr as [t' [= -> _]]. destruct (real_next _ _ _ _ _ _ Hx) as [Hq [node Hn]]. exfalso.
  assert (forall q n, lstat fs (a ++ [d]) <> Found q n) as Hl by (by eapply missing_lstat).
  unfold lstat in Hl. rewrite look_below, Ha in Hl. cbn [and_then] in Hl. rewrite (chain_node _ _ Hq), walk_cons in Hl.
  unfold step_to in Hl. destruct (String.eqb_spec d ".."); [done|]. rewrite Hn in Hl.
  destruct node; cbn [is_nil andb negb] in Hl; rewrite ?walk_nil in Hl; by eapply Hl.
Qed.

(** ** Where a path leads *)

(** To something under [root], or to what may be made under it. *)
Definition leads_inside (fs : Fs) (root : RealPath) (p : list string) : Prop :=
  exists a mid q n, p = a ++ mid /\ stat fs a = Found q n /\ root `prefix_of` q /\ Forall (fun c => c <> "..") mid
    /\ forall s, s <> [] -> s `prefix_of` mid -> exists e, symlink_metadata fs (a ++ s) = Err e.

Lemma real_leads_inside fs root p q n : stat fs p = Found q n -> root `prefix_of` q -> leads_inside fs root p.
Proof using. intros Hq Hr. exists p, [], q, n. rewrite app_nil_r. split_and!; try done. by intros s Hs ->%prefix_nil_inv. Qed.

Lemma leads_found fs root p q n : leads_inside fs root p -> stat fs p = Found q n -> root `prefix_of` q.
Proof using.
  intros (a & mid & q' & n' & -> & Ha & Hr & _ & Hno) Hq. destruct mid as [|c mid].
  - rewrite app_nil_r, Ha in Hq. by injection Hq as <- _.
  - destruct (Hno (c :: mid) ltac:(done) (reflexivity _)) as [e He]. by destruct (missing_stat _ _ _ He q n).
Qed.

(** A link that leads nowhere does not lead inside. *)
Lemma leads_dangling fs root p q n :
  leads_inside fs root p -> lstat fs p = Found q n -> exists q' n', stat fs p = Found q' n'.
Proof using.
  intros (a & mid & q' & n' & -> & Ha & Hr & _ & Hno) Hq. destruct mid as [|c mid]; [rewrite app_nil_r; by exists q', n'|].
  destruct (Hno (c :: mid) ltac:(done) (reflexivity _)) as [e He]. by destruct (missing_lstat _ _ _ He q n).
Qed.

(** Making the directories above something that is there makes none. *)
Lemma create_parents_found fs p q n : stat fs p = Found q n -> fst (create_parents fs p) = fs.
Proof using.
  intros Hq. destruct p as [|c p _] using rev_ind; [done|]. rewrite create_parents_snoc.
  assert (exists d m, stat fs p = Found d m) as (d & m & Hd).
  { unfold stat in Hq |- *. rewrite look_below in Hq. unfold stat in Hq. destruct (walk _ fs true [] p) as [d m|? ?|?]; [by exists d, m|done..]. }
  destruct (lstat_found _ _ _ _ Hd) as (q' & m' & Hl).
  assert (mkdir fs p = Err file_exists) as Hm by (unfold mkdir; by rewrite Hl).
  destruct (length p); cbn [create_dirs]; rewrite Hm; by destruct (decide _).
Qed.

Lemma leads_write fs root p bytes fs1 made :
  well_formed fs -> leads_inside fs root p -> create_parents fs p = (fs1, made) ->
  only_under root fs fs1 /\ (made = Ok tt -> only_under root fs1 (fst (write fs1 p bytes))).
Proof using.
  intros Hw (a & mid & q & n & -> & Ha & Hr & Hplain & Hno) Hc. destruct mid as [|c mid _] using rev_ind.
  - rewrite app_nil_r in *. pose proof (create_parents_found _ _ _ _ Ha) as Hf. rewrite Hc in Hf. cbn [fst] in Hf. subst fs1.
    split; [apply only_under_refl|]. intros _. unfold write. rewrite Ha.
    destruct (node_at fs q) as [[]|]; try apply only_under_refl. by apply only_under_insert.
  - apply (made_below fs root a mid c q n); try done.
    + intros s Hs Hp. destruct (Hno s Hs) as [e He]; [by apply prefix_app_r|]. by eapply missing_stat.
    + destruct (Hno (mid ++ [c])) as [e He]; [by destruct mid|done|]. by eapply missing_lstat.
Qed.

Lemma canonicalize_found fs p q : canonicalize fs p = Ok q -> exists n, stat fs p = Found q n.
Proof using. unfold canonicalize. destruct (stat fs p) as [q' n|? ?|?]; [|done..]. intros [= ->]. by exists n. Qed.

(** What a path that was let through leads to. *)
Lemma validate_path_spec p fs path execution_root :
  validate_path p fs path execution_root = Ok tt ->
  exists allowed base, canonicalize fs (as_given cwd (sb_allowed_root p)) = Ok allowed /\ leads_inside fs allowed base
    /\ if is_absolute path then base = components path
       else exists root r, execution_root = Some root /\ canonicalize fs (as_given cwd root) = Ok r /\ base = r ++ components path.
Proof using.
  unfold validate_path. destruct (canonicalize fs (as_given cwd (sb_allowed_root p))) as [allowed|e] eqn:Hcan; [|done].
  apply canonicalize_found in Hcan as [m Hallowed].
  intros (resolved & Hres & Hin)%result_bind_Ok. unfold inside in Hin.
  destruct (bool_decide_reflect (allowed `prefix_of` resolved)) as [Hpre|]; [|done]. clear Hin.
  assert (forall base, resolve_existing_prefix fs base = Ok resolved -> (forall a mid, base = a ++ mid -> (forall s, s <> [] -> s `prefix_of` mid -> exists e, symlink_metadata fs (a ++ s) = Err e) ->
    mid `suffix_of` components path) -> leads_inside fs allowed base) as Hbase.
  { intros base (a & mid & q & n & -> & Ha & Hmid & Hpush & Hno)%probe_prefix_spec Hsuf; [|done].
    assert (forall s, s <> [] -> s `prefix_of` mid -> exists e, symlink_metadata fs (a ++ s) = Err e) as Hmiss.
    { intros s Hs Hp. destruct (Hno s Hs Hp) as (e & He & _). eauto. }
    rewrite app_nil_r, push_components_plain in Hpush.
    - injection Hpush as <-. exists a, mid, q, n. split_and!; try done. destruct mid as [|c l]; [by rewrite app_nil_r in Hpre|].
      destruct (Hmiss [c] ltac:(done) ltac:(by exists l)) as [e He]. eapply root_reaches; [exact Hallowed|exact Ha| |exact He|exact Hpre]. by inversion Hmid.
    - pose proof (components_plain path) as Hplain. destruct (Hsuf a mid eq_refl Hmiss) as [l Hl]. rewrite Hl in Hplain.
      apply Forall_app in Hplain as [_ Hplain]. apply Forall_and. split; [exact Hmid|exact Hplain]. }
  unfold resolve_path in Hres. exists allowed. destruct (is_absolute path).
  - exists (components path). split; [done|]. split; [|done]. apply Hbase; [done|]. intros a mid -> _. by exists a.
  - destruct execution_root as [root|]; [|done]. destruct (canonicalize fs (as_given cwd root)) as [r|e] eqn:Hr; [|done].
    exists (r ++ components path). split; [done|]. split; [|eauto]. apply Hbase; [done|]. intros a mid Heq Hmiss.
    destruct (prefix_weak_total r a (r ++ components path)) as [[t ->]|[t ->]]; [by apply prefix_app_r|rewrite Heq; by apply prefix_app_r| |].
    + rewrite <- app_assoc in Heq. apply app_inv_head in Heq as ->. by exists t.
    + rewrite <- app_assoc in Heq. apply app_inv_head in Heq. destruct t as [|x t]; [cbn [app] in Heq; by exists []|].
      exfalso. destruct (Hmiss (x :: t)) as [e He]; [done|exists (components path); done|].
      apply canonicalize_found in Hr as [n Hq].
      destruct (real_stat _ _ _ _ Hq) as (_ & Hreal & _). by destruct (missing_stat _ _ _ He _ _ Hreal).
Qed.

(** ** The tools go where the policy looked *)

Lemma normalize_id names : Forall (fun c => c <> "..") names -> normalize names = names.
Proof using.
  unfold normalize. assert (forall done, Forall (fun c => c <> "..") names ->
    foldl (fun normalized c => if String.eqb c ".." then parent normalized else normalized ++ [c]) done names = done ++ names) as H; [|apply H].
  induction names as [|c names IH]; intros done Hn; cbn [foldl]; [by rewrite app_nil_r|].
  inversion_clear Hn as [|? ? Hc Hrest]. destruct (String.eqb_spec c ".."); [by destruct Hc|]. rewrite IH by exact Hrest. by rewrite <- app_assoc.
Qed.

Lemma canonical_plain fs p r : canonicalize fs p = Ok r -> Forall (fun c => c <> "..") r.
Proof using.
  intros [n Hs]%canonicalize_found. pose proof (stat_ends fs p) as He. rewrite Hs in He.
  destruct He as [[Hn _]|(d & c & -> & [Hn _] & Hc & _)]; [exact Hn|]. apply Forall_app. split; [exact Hn|by constructor].
Qed.

(** The path a tool starts from is the one the policy looked at. *)
Lemma same_candidate p fs path er r candidate :
  validate_path p fs path (Some er) = Ok tt -> Forall (fun c => c <> "..") (components path) ->
  canonicalize fs (as_given cwd er) = Ok r -> candidate_path path r = Ok candidate ->
  exists allowed, canonicalize fs (as_given cwd (sb_allowed_root p)) = Ok allowed /\ leads_inside fs allowed candidate.
Proof using.
  intros (allowed & base & Ha & Hl & Hb)%validate_path_spec Hplain Hr Hc. exists allowed. split; [done|]. unfold candidate_path in Hc.
  destruct (is_absolute path).
  - subst base. rewrite normalize_id in Hc by done. by injection Hc as <-.
  - destruct Hb as (root & r' & [= <-] & Hr' & ->). rewrite Hr in Hr'. injection Hr' as <-.
    rewrite normalize_id in Hc by (apply Forall_app; split; [by eapply canonical_plain|done]). destruct (inside r _); [|done]. by injection Hc as <-.
Qed.

Lemma confined_leads fs r p allowed t : leads_inside fs allowed p -> confined fs r p = Ok t -> leads_inside fs allowed t.
Proof using.
  intros Hl (_ & n & Hn)%confined_spec. pose proof (leads_found _ _ _ _ _ Hl Hn). destruct (real_stat _ _ _ _ Hn) as (_ & Ht & _).
  by eapply real_leads_inside.
Qed.

(** Paths without [".."], or any path of a tool without an execution root. *)
Definition checkable (path : string) (execution_root : option string) : Prop :=
  execution_root = None \/ Forall (fun c => c <> "..") (components path).

Lemma existing_agrees p fs path er t :
  validate_path p fs path er = Ok tt -> checkable path er ->
  resolve_existing_path cwd fs path (as_given cwd <$> er) = Ok t ->
  exists allowed, canonicalize fs (as_given cwd (sb_allowed_root p)) = Ok allowed /\ leads_inside fs allowed t.
Proof using.
  intros Hv Hk. destruct er as [er|]; cbn [fmap option_fmap option_map resolve_existing_path].
  - destruct Hk as [|Hplain]; [done|]. unfold canonical_root.
    destruct (canonicalize fs (as_given cwd er)) as [r|e] eqn:Hr; cbn [result_bind]; [|done].
    destruct (candidate_path path r) as [candidate|e] eqn:Hc; cbn [result_bind]; [|done].
    intros Ht. destruct (same_candidate p fs path er r candidate Hv Hplain Hr Hc) as (allowed & Ha & Hl). exists allowed.
    split; [done|]. by eapply confined_leads.
  - intros [= <-]. apply validate_path_spec in Hv as (allowed & base & Ha & Hl & Hb). exists allowed. split; [done|].
    unfold as_given. destruct (is_absolute path); [by subst base|]. by destruct Hb as (? & ? & ? & _).
Qed.

Lemma writable_agrees p fs path er t :
  validate_path p fs path er = Ok tt -> checkable path er ->
  resolve_writable_path cwd fs path (as_given cwd <$> er) = Ok t ->
  exists allowed, canonicalize fs (as_given cwd (sb_allowed_root p)) = Ok allowed /\ leads_inside fs allowed t.
Proof using.
  intros Hv Hk. destruct er as [er|]; [|by apply (existing_agrees p fs path None)].
  cbn [fmap option_fmap option_map resolve_writable_path]. destruct Hk as [|Hplain]; [done|]. unfold canonical_root.
  destruct (canonicalize fs (as_given cwd er)) as [r|e] eqn:Hr; cbn [result_bind]; [|done].
  destruct (candidate_path path r) as [candidate|e] eqn:Hc; cbn [result_bind]; [|done].
  destruct (same_candidate p fs path er r candidate Hv Hplain Hr Hc) as (allowed & Ha & Hl). intros Ht. exists allowed. split; [done|].
  destruct (try_exists fs candidate) as [[]|e] eqn:Hex; [by eapply confined_leads| |done].
  pose proof (try_exists_false _ _ Hex) as Hmiss. unfold symlink_metadata in Ht.
  destruct (lstat fs candidate) as [q n|d c|e] eqn:Hs.
  - destruct (leads_dangling _ _ _ _ _ Hl Hs) as (q' & n' & Hq'). by destruct (Hmiss q' n').
  - case_decide; [|done]. by apply confined_new_spec in Ht as [-> _].
  - case_decide; [|done]. by apply confined_new_spec in Ht as [-> _].
Qed.

Lemma check_fields_continue p fs obj er fields field path :
  check_fields p fs obj er fields = DContinue -> field ∈ fields -> json_get obj field ≫= json_as_str = Some path ->
  validate_path p fs path er = Ok tt.
Proof using.
  intros Hc Hin Hpath. induction fields as [|f fields IH]; [by apply elem_of_nil in Hin|]. cbn [check_fields] in Hc.
  apply elem_of_cons in Hin as [<-|Hin].
  - rewrite Hpath in Hc. by destruct (validate_path p fs path er) as [[]|e].
  - apply IH; [|exact Hin]. destruct (json_get obj f ≫= json_as_str); [|done]. by destruct (validate_path p fs s er).
Qed.

(** [Display] of [Utf8Error], the digest and the error of a task, as in the tools. *)
Context (utf8_error digest : string -> string) (join_error : string).

Lemma write_follows fs root cancelled path content allowed :
  well_formed fs -> (forall t, resolve_writable_path cwd fs path root = Ok t -> leads_inside fs allowed t) ->
  only_under allowed fs (fst (write_file cwd fs root cancelled path content)).
Proof using.
  intros Hw Hl. unfold write_file. destruct cancelled; [apply only_under_refl|].
  destruct (resolve_writable_path cwd fs path root) as [t|e]; [|apply only_under_refl]. cbv zeta.
  destruct (create_parents fs t) as [fs1 made] eqn:Hc.
  destruct (leads_write fs allowed t content fs1 made Hw (Hl t eq_refl) Hc) as [Hu Hwr].
  destruct made as [[]|e]; [|exact Hu]. specialize (Hwr eq_refl).
  destruct (write fs1 t content) as [fs2 [[]|e]]; by eapply only_under_trans.
Qed.

Lemma edit_unlocked_follows fs p t n hash edits allowed fs' r :
  stat fs p = Found t n -> allowed `prefix_of` t -> edit_file_unlocked digest fs t hash edits = Some (fs', r) -> only_under allowed fs fs'.
Proof using.
  intros Hs Hr. unfold edit_file_unlocked. destruct (read fs t) as [raw|e] eqn:Hread; [|intros [= <- _]; apply only_under_refl].
  assert (node_at fs t = Some (FileNode raw)) as Hn.
  { unfold read in Hread. destruct (real_stat _ _ _ _ Hs) as (_ & Ht & _). rewrite Ht in Hread.
    destruct (node_at fs t) as [[]|]; try discriminate Hread. by injection Hread as ->. }
  destruct (negb (is_utf8 raw)); [intros [= <- _]; apply only_under_refl|]. case_match; [intros [= <- _]; apply only_under_refl|].
  destruct (apply_edits 0 raw edits) as [[content|e]|]; cbn [mbind option_bind]; [|intros [= <- _]; apply only_under_refl|done].
  destruct (replace_real fs p t n raw content Hs Hn) as [_ ->]. intros [= <- _]. by apply only_under_insert.
Qed.

Lemma edit_follows fs root before cancelled params allowed :
  (forall t, resolve_existing_path cwd fs (pa_path params) root = Ok t -> leads_inside fs allowed t) ->
  only_under allowed fs (fst (edit_file cwd digest join_error fs root before cancelled (Ok params))).
Proof using.
  intros Hl. unfold edit_file. destruct before; [apply only_under_refl|].
  destruct (resolve_existing_path cwd fs (pa_path params) root) as [t|e] eqn:Ht; [|apply only_under_refl].
  destruct cancelled; [apply only_under_refl|]. specialize (Hl t eq_refl).
  assert (forall x, match root with None => match canonicalize fs t with Ok path => Ok path | Err e => Err (cannot_resolve t e) end | Some _ => Ok t end
    = Ok x -> exists p n, stat fs p = Found x n /\ allowed `prefix_of` x) as Hx.
  { intros x Hx. destruct root as [root|].
    - injection Hx as <-. apply existing_inside in Ht as (_ & n & p & _ & _ & Hp & Hq). exists p, n. split; [done|]. by eapply leads_found.
    - destruct (canonicalize fs t) as [q|e] eqn:Hq; [|done]. injection Hx as <-. apply canonicalize_found in Hq as [n Hq].
      exists t, n. split; [done|]. by eapply leads_found. }
  destruct (match root with None => _ | Some _ => _ end) as [x|e]; [|apply only_under_refl].
  destruct (is_nil (pa_edits params)); [apply only_under_refl|]. destruct (Hx x eq_refl) as (p & n & Hp & Hr).
  destruct (edit_file_unlocked _ _ _ _ _) as [[fs' [[old new]|e]]|] eqn:He; [| |apply only_under_refl];
    by apply (edit_unlocked_follows fs p x n _ _ _ _ _ Hp Hr) in He.
Qed.


End Policy.
(** ** A sandbox with a link *)
Section Demo.
#[local] Existing Instance Externals.Toy.ext.

(** The agent works in [/work] and may write in [/work/safe]. *)
Definition linked : Fs :=
  foldl (fun fs '(q, node) => <[q := node]> fs) ∅
    [(["work"], DirNode); (["work"; "safe"], DirNode); (["work"; "safe"; "sub"], DirNode);
     (["work"; "link"], LinkNode "safe/sub"); (["work"; "safe"; "out"], LinkNode "../other")].

Definition call (path : string) : ToolDispatchContext :=
  MkToolDispatchContext "write_file" "id" (json_of_map {["path" := json_string path]}) (Some "/work") session_new.

Definition verdict (path : string) : bool :=
  match fst (fst (sandbox [] (sandbox_new "/work/safe") (call path) linked)) with Some DContinue => true | _ => false end.

Example let_through : map verdict ["safe/a"; "link/a"; "/work/safe/new/dir/a"; "a"; "safe/out"; "safe/out/a"; "safe/../a"; "/etc/passwd"]
  = [true; true; true; false; false; false; false; false].
Proof. vm_compute. reflexivity. Qed.

(** With [".."] behind a link the policy follows the link and the tool does not: what
    passes as [/work/safe/a] is written to [/work/a]. *)
Lemma dotdot_through_link :
  verdict "link/../a" = true
  /\ fst (write_file [] linked (Some (as_given [] "/work")) false "link/../a" "new") !! ["work"; "a"] = Some (FileNode "new").
Proof. split; vm_compute; reflexivity. Qed.

Lemma linked_well_formed : well_formed linked.
Proof.
  unfold linked. cbn [foldl].
  assert (forall fs, fs !! ["work"] = Some DirNode -> chain fs ["work"]) as H1 by (intros fs Hf; by apply chain_one).
  assert (forall fs, fs !! ["work"] = Some DirNode -> fs !! ["work"; "safe"] = Some DirNode -> chain fs ["work"; "safe"]) as H2.
  { intros fs Hf Hs. apply (chain_snoc fs ["work"] "safe"); auto. }
  repeat match goal with
    | |- well_formed (<[[?c] := _]> ?fs) => apply (well_formed_insert fs [] c); [|apply chain_nil|reflexivity]
    | |- well_formed (<[[?d; ?c] := _]> ?fs) => apply (well_formed_insert fs [d] c); [|by apply H1|reflexivity]
    | |- well_formed (<[[?d; ?e; ?c] := _]> ?fs) => apply (well_formed_insert fs [d; e] c); [|by apply H2|reflexivity]
    end.
  intros q node Hq. by rewrite lookup_empty in Hq.
Qed.


End Demo.
End Sandbox.
