(* ===== verification/Guards.v ===== *)
(** * Policies that look at text: [policies/src/content_filter.rs], [prompt_guard.rs],
    [pii_redactor.rs], [memory_nudge.rs], [audit_logger.rs], [patterns.rs]

    The policies over what the model and the tools say, and what becomes of their
    verdicts in the loop: a redaction replaces the message of a turn without tool
    calls and is dropped from a turn with some; a nudge makes the loop ask the
    model again.  The engine of regular expressions and the width of characters on
    a terminal are parameters. *)
From S2P Require Export LoopTermination Convert.
From Stdlib Require Import SpecFloat.
Open Scope string_scope.
Open Scope list_scope.

Module Guards.

(** The regex crate. *)
Class RegexEngine := {
  Regex : Type;
  RegexError : Type;
  regex_new : string -> result Regex RegexError;
  regex_escape : string -> string;
  is_match : Regex -> string -> bool;
  replace_all : Regex -> string -> string -> string;
}.

Section Policies.
Context `{E : Ext} `{R : RegexEngine} {H : Type}.

(** ** [patterns.rs] *)

(** @src policies/src/patterns.rs:3-6 [compile_regex] *)
Definition compile_regex (pattern : string) : result Regex RegexError := regex_new pattern.

(** @src policies/src/patterns.rs:8-11 [compile_case_insensitive_regex] *)
Definition compile_case_insensitive_regex (pattern : string) : result Regex RegexError := regex_new ("(?i)" ++ pattern).

(** @src policies/src/patterns.rs:13-26 [compile_named_regexes] *)
Fixpoint compile_named_regexes {T} (defs : list (string * string)) (build : string -> Regex -> T) : result (list T) RegexError :=
  match defs with
  | [] => Ok []
  | (name, pattern) :: defs =>
    regex <-? compile_regex pattern ;;
    rest <-? compile_named_regexes defs build ;;
    Ok (build name regex :: rest)
  end.

(** ** [ContentFilter] *)

(** @src policies/src/content_filter.rs:14-23 [FilterRule] *)
Record FilterRule := MkFilterRule { fr_pattern : Regex; fr_display_name : string; fr_category : option string }.

(** @src policies/src/content_filter.rs:51-57 [KeywordRule] *)
Record KeywordRule := MkKeywordRule {
  kr_needle : string; kr_display_name : string; kr_category : option string; kr_case_insensitive : bool }.

(** @src policies/src/content_filter.rs:96-103 [ContentFilter] *)
Record ContentFilter := MkContentFilter {
  cf_regex_rules : list FilterRule;
  cf_keyword_rules : list KeywordRule;
  cf_enabled_categories : option (gset string);
  cf_case_insensitive : bool;
  cf_whole_word : bool;
}.

(** @src policies/src/content_filter.rs:37-48 [FilterRule::new] *)
Definition filter_rule_new (pattern : string) : result FilterRule (string * RegexError) :=
  match compile_regex pattern with
  | Ok compiled => Ok (MkFilterRule compiled pattern None)
  | Err source => Err (pattern, source)
  end.

(** @src policies/src/content_filter.rs:108-117 [ContentFilter::new] *)
Definition content_filter_new : ContentFilter := MkContentFilter [] [] None true false.

(** @src policies/src/content_filter.rs:205-218 [ContentFilter::build_pattern] *)
Definition build_pattern (f : ContentFilter) (escaped : string) : string :=
  ((if cf_case_insensitive f then "(?i)" else "") ++ (if cf_whole_word f then "\b" else "") ++ escaped
   ++ (if cf_whole_word f then "\b" else ""))%string.

(** @src policies/src/content_filter.rs:222-227 [ContentFilter::should_evaluate_category] *)
Definition should_evaluate_category (f : ContentFilter) (category : option string) : bool :=
  match category, cf_enabled_categories f with
  | Some cat, Some enabled => bool_decide (cat ∈ enabled)
  | _, _ => true
  end.

Definition push_regex_rule (f : ContentFilter) (rule : FilterRule) : ContentFilter :=
  MkContentFilter (cf_regex_rules f ++ [rule]) (cf_keyword_rules f) (cf_enabled_categories f) (cf_case_insensitive f) (cf_whole_word f).

(** [None]: the escaped keyword is not a regular expression.
    @src policies/src/content_filter.rs:229-254 [ContentFilter::push_keyword_rule] *)
Definition push_keyword_rule (f : ContentFilter) (category : option string) (word : string) : option ContentFilter :=
  if cf_whole_word f then
    match compile_regex (build_pattern f (regex_escape word)) with
    | Ok pattern => Some (push_regex_rule f (MkFilterRule pattern word category))
    | Err _ => None
    end
  else
    let needle := if cf_case_insensitive f then to_lowercase word else word in
    Some (MkContentFilter (cf_regex_rules f) (cf_keyword_rules f ++ [MkKeywordRule needle word category (cf_case_insensitive f)])
            (cf_enabled_categories f) (cf_case_insensitive f) (cf_whole_word f)).

(** @src policies/src/content_filter.rs:126-131 [ContentFilter::with_keyword] *)
Definition with_keyword (f : ContentFilter) (word : string) : option ContentFilter := push_keyword_rule f None word.

(** @src policies/src/content_filter.rs:139-142 [ContentFilter::with_regex] *)
Definition with_regex (f : ContentFilter) (pattern : string) : result ContentFilter (string * RegexError) :=
  rule <-? filter_rule_new pattern ;; Ok (push_regex_rule f rule).

(** @src policies/src/content_filter.rs:150-158 [ContentFilter::with_category_keyword] *)
Definition with_category_keyword (f : ContentFilter) (category word : string) : option ContentFilter :=
  push_keyword_rule f (Some category) word.

(** @src policies/src/content_filter.rs:166-175 [ContentFilter::with_category_regex] *)
Definition with_category_regex (f : ContentFilter) (category pattern : string) : result ContentFilter (string * RegexError) :=
  rule <-? filter_rule_new pattern ;;
  Ok (push_regex_rule f (MkFilterRule (fr_pattern rule) (fr_display_name rule) (Some category))).

(** @src policies/src/content_filter.rs:178-182 [ContentFilter::with_case_insensitive] *)
Definition with_case_insensitive (f : ContentFilter) (enabled : bool) : ContentFilter :=
  MkContentFilter (cf_regex_rules f) (cf_keyword_rules f) (cf_enabled_categories f) enabled (cf_whole_word f).

(** @src policies/src/content_filter.rs:185-189 [ContentFilter::with_whole_word] *)
Definition with_whole_word (f : ContentFilter) (enabled : bool) : ContentFilter :=
  MkContentFilter (cf_regex_rules f) (cf_keyword_rules f) (cf_enabled_categories f) (cf_case_insensitive f) enabled.

(** @src policies/src/content_filter.rs:194-201 [ContentFilter::with_enabled_categories] *)
Definition with_enabled_categories (f : ContentFilter) (categories : list string) : ContentFilter :=
  MkContentFilter (cf_regex_rules f) (cf_keyword_rules f) (Some (list_to_set categories)) (cf_case_insensitive f) (cf_whole_word f).

Definition filter_reason (display_name : string) : string := ("Content filter triggered: " ++ display_name)%string.

(** @src policies/src/content_filter.rs:272-287 [ContentFilter::evaluate, keywords] *)
Fixpoint check_keywords (f : ContentFilter) (text : string) (rules : list KeywordRule) : option string :=
  match rules with
  | [] => None
  | rule :: rules =>
    if should_evaluate_category f (kr_category rule)
       && contains (if kr_case_insensitive rule then to_lowercase text else text) (kr_needle rule)
    then Some (filter_reason (kr_display_name rule)) else check_keywords f text rules
  end.

(** @src policies/src/content_filter.rs:289-299 [ContentFilter::evaluate, patterns] *)
Fixpoint check_regexes (f : ContentFilter) (text : string) (rules : list FilterRule) : option string :=
  match rules with
  | [] => None
  | rule :: rules =>
    if should_evaluate_category f (fr_category rule) && is_match (fr_pattern rule) text
    then Some (filter_reason (fr_display_name rule)) else check_regexes f text rules
  end.

(** @src policies/src/content_filter.rs:268-302 [ContentFilter::evaluate] *)
Definition content_filter (f : ContentFilter) : PostTurnPolicy (H := H) := fun _ turn h =>
  let text := extract_text (am_content (tc_assistant_message turn)) in
  (Some match check_keywords f text (cf_keyword_rules f) with
        | Some reason => VStop reason
        | None => match check_regexes f text (cf_regex_rules f) with Some reason => VStop reason | None => VContinue end
        end, h).

(** ** [PromptInjectionGuard] *)

(** @src policies/src/prompt_guard.rs:17-20 [NamedPattern] *)
Record NamedPattern := MkNamedPattern { gp_name : string; gp_regex : Regex }.

(** @src policies/src/prompt_guard.rs:23-28 [NamedPattern::new] *)
Definition named_pattern_new (name pattern : string) : result NamedPattern RegexError :=
  regex <-? compile_case_insensitive_regex pattern ;; Ok (MkNamedPattern name regex).

(** @src policies/src/prompt_guard.rs:146-171 [default_patterns] *)
Definition injection_patterns : list (string * string) :=
  [("ignore_all_previous_instructions", "ignore\s+all\s+previous\s+instructions");
   ("disregard_system_prompt", "disregard\s+your\s+system\s+prompt");
   ("you_are_now_a", "you\s+are\s+now\s+a\b");
   ("forget_your_instructions", "forget\s+your\s+instructions");
   ("override_your_programming", "override\s+your\s+programming");
   ("new_persona", "new\s+persona");
   ("jailbreak", "\bjailbreak\b");
   ("pretend_you_are", "pretend\s+you\s+are\b");
   ("act_as_no_restrictions", "act\s+as\s+if\s+you\s+have\s+no\s+restrictions");
   ("ignore_the_above", "ignore\s+the\s+above\b")].

(** [None]: a default pattern does not compile.
    @src policies/src/prompt_guard.rs:51-60 [PromptInjectionGuard::new] *)
Fixpoint guard_patterns (defaults : list (string * string)) : option (list NamedPattern) :=
  match defaults with
  | [] => Some []
  | (name, pat) :: defaults =>
    match named_pattern_new name pat with
    | Ok p => ps ← guard_patterns defaults; Some (p :: ps)
    | Err _ => None
    end
  end.

(** @src policies/src/prompt_guard.rs:76-83 [PromptInjectionGuard::with_pattern] *)
Definition guard_with_pattern (patterns : list NamedPattern) (name pattern : string) : result (list NamedPattern) RegexError :=
  p <-? named_pattern_new name pattern ;; Ok (patterns ++ [p]).

(** @src policies/src/prompt_guard.rs:86-93 [PromptInjectionGuard::check] *)
Fixpoint check_patterns (patterns : list NamedPattern) (text : string) : option string :=
  match patterns with
  | [] => None
  | pattern :: patterns => if is_match (gp_regex pattern) text then Some (gp_name pattern) else check_patterns patterns text
  end.

(** @src policies/src/prompt_guard.rs:108-120 [PromptInjectionGuard::evaluate (PreTurn)] *)
Definition prompt_guard_pre_turn (patterns : list NamedPattern) : PreTurnPolicy (H := H) := fun ctx h =>
  (Some ((fix scan (messages : list AgentMessage) : PolicyVerdict :=
     match messages with
     | [] => VContinue
     | Llm (User user_msg) :: messages =>
       match check_patterns patterns (extract_text (um_content user_msg)) with
       | Some pattern_name => VStop ("Prompt injection detected: " ++ pattern_name)%string
       | None => scan messages
       end
     | _ :: messages => scan messages
     end) (pc_new_messages ctx)), h).

(** @src policies/src/prompt_guard.rs:129-139 [PromptInjectionGuard::evaluate (PostTurn)] *)
Definition prompt_guard_post_turn (patterns : list NamedPattern) : PostTurnPolicy (H := H) := fun _ turn h =>
  (Some ((fix scan (results : list ToolResultMessage) : PolicyVerdict :=
     match results with
     | [] => VContinue
     | result :: results =>
       match check_patterns patterns (extract_text (tr_content result)) with
       | Some pattern_name => VStop ("Indirect prompt injection detected in tool result: " ++ pattern_name)%string
       | None => scan results
       end
     end) (tc_tool_results turn)), h).

(** ** [PiiRedactor] *)

(** @src policies/src/pii_redactor.rs:13-21 [PiiMode] *)
Inductive PiiMode := PiiRedact | PiiStop.

(** @src policies/src/pii_redactor.rs:24-29 [PiiPattern] *)
Record PiiPattern := MkPiiPattern { pp_name : string; pp_regex : Regex }.

(** @src policies/src/pii_redactor.rs:61-66 [PiiRedactor] *)
Record PiiRedactor := MkPiiRedactor { pr_patterns : list PiiPattern; pr_mode : PiiMode; pr_placeholder : string }.

(** @src policies/src/pii_redactor.rs:123-134 [default_patterns] *)
Definition pii_patterns : list (string * string) :=
  [("email", "[a-zA-Z0-9._%+-]+@[a-zA-Z0-9.-]+\.[a-zA-Z]{2,}");
   ("us_phone", "(\+1[-.\s]?)?\(?\d{3}\)?[-.\s]?\d{3}[-.\s]?\d{4}");
   ("ssn", "\d{3}-\d{2}-\d{4}");
   ("credit_card", "\d{4}[-\s]?\d{4}[-\s]?\d{4}[-\s]?\d{4}");
   ("ipv4", "\d{1,3}\.\d{1,3}\.\d{1,3}\.\d{1,3}")].

(** [None]: a default pattern does not compile.
    @src policies/src/pii_redactor.rs:75-86 [PiiRedactor::new] *)
Definition pii_redactor_new : option PiiRedactor :=
  match compile_named_regexes pii_patterns MkPiiPattern with
  | Ok patterns => Some (MkPiiRedactor patterns PiiRedact "[REDACTED]")
  | Err _ => None
  end.

(** @src policies/src/pii_redactor.rs:89-93 [PiiRedactor::with_mode] *)
Definition with_mode (p : PiiRedactor) (mode : PiiMode) : PiiRedactor := MkPiiRedactor (pr_patterns p) mode (pr_placeholder p).

(** @src policies/src/pii_redactor.rs:96-100 [PiiRedactor::with_placeholder] *)
Definition with_placeholder (p : PiiRedactor) (placeholder : string) : PiiRedactor :=
  MkPiiRedactor (pr_patterns p) (pr_mode p) placeholder.

(** @src policies/src/pii_redactor.rs:107-114 [PiiRedactor::with_pattern] *)
Definition pii_with_pattern (p : PiiRedactor) (name pattern : string) : result PiiRedactor RegexError :=
  regex <-? compile_regex pattern ;;
  Ok (MkPiiRedactor (pr_patterns p ++ [MkPiiPattern name regex]) (pr_mode p) (pr_placeholder p)).

(** @src policies/src/pii_redactor.rs:156-162 [PiiRedactor::evaluate, redacted] *)
Definition redact_text (p : PiiRedactor) (text : string) : string :=
  foldl (fun redacted pattern => replace_all (pp_regex pattern) redacted (pr_placeholder p)) text (pr_patterns p).

(** The original without its cache hint, and with one block of text.
    @src policies/src/pii_redactor.rs:164-179 [PiiRedactor::evaluate, msg] *)
Definition redacted_message (orig : AssistantMessage) (redacted : string) : AssistantMessage :=
  MkAssistantMessage [Text redacted] (am_provider orig) (am_model_id orig) (am_usage orig) (am_cost orig) (am_stop_reason orig)
    (am_error_message orig) (am_error_kind orig) (am_timestamp orig) None.

(** @src policies/src/pii_redactor.rs:142-184 [PiiRedactor::evaluate] *)
Definition pii_redactor (p : PiiRedactor) : PostTurnPolicy (H := H) := fun _ turn h =>
  let text := extract_text (am_content (tc_assistant_message turn)) in
  (Some match List.find (fun pattern => is_match (pp_regex pattern) text) (pr_patterns p) with
        | None => VContinue
        | Some first_match =>
          match pr_mode p with
          | PiiStop => VStop ("PII detected: " ++ pp_name first_match)%string
          | PiiRedact => VInject [Llm (Assistant (redacted_message (tc_assistant_message turn) (redact_text p text)))]
          end
        end, h).

(** ** [AuditLogger] *)

(** @src policies/src/audit_logger.rs:60-66 [AuditUsage] *)
Record AuditUsage := MkAuditUsage { au_input : N; au_output : N; au_total : N }.

(** [cost] is its total.
    @src policies/src/audit_logger.rs:16-31 [AuditRecord] *)
Record AuditRecord := MkAuditRecord {
  ar_timestamp : string;
  ar_turn_index : nat;
  ar_content_summary : string;
  ar_tool_calls : list string;
  ar_usage : AuditUsage;
  ar_cost : f64;
}.

(** The crate [unicode-truncate]: the longest prefix of at most so many columns. *)
Context (unicode_truncate : nat -> string -> string).

(** @src policies/src/audit_logger.rs:182-185 [truncate_to_chars] *)
Definition truncate_to_chars (s : string) (max : nat) : string := unicode_truncate max s.

(** @src policies/src/audit_logger.rs:152-163 [AuditLogger::evaluate, tool_calls] *)
Definition called_tools (content : list ContentBlock) : list string :=
  omap (fun block => match block with ToolCall _ name _ _ => Some name | _ => None end) content.

(** @src policies/src/audit_logger.rs:165-172 [AuditLogger::evaluate, record] *)
Definition audit_record (now : string) (ctx : PolicyContext) (turn : TurnPolicyContext) : AuditRecord :=
  let m := tc_assistant_message turn in
  MkAuditRecord now (pc_turn_index ctx) (truncate_to_chars (extract_text (am_content m)) 200) (called_tools (am_content m))
    (MkAuditUsage (u_input (am_usage m)) (u_output (am_usage m)) (u_total (am_usage m))) (c_total (am_cost m)).

(** The sink may panic, which is the policy's panic.
    @src policies/src/audit_logger.rs:148-177 [AuditLogger::evaluate] *)
Definition audit_logger (now : H -> string) (write : AuditRecord -> H -> option H) : PostTurnPolicy (H := H) := fun ctx turn h =>
  match write (audit_record (now h) ctx turn) h with
  | Some h => (Some VContinue, h)
  | None => (None, h)
  end.

(** ** [MemoryNudgePolicy] *)

(** @src policies/src/memory_nudge.rs:42-66 [MemoryNudgeCategory] *)
Inductive MemoryNudgeCategory := Correction | ExplicitSave | Decision | Preference.

(** @src policies/src/memory_nudge.rs:70-77 [MemoryNudgeCategory::as_str] *)
Definition category_as_str (c : MemoryNudgeCategory) : string :=
  match c with Correction => "correction" | ExplicitSave => "explicit_save" | Decision => "decision" | Preference => "preference" end.

(** A literal of two decimals at the precision of [f32]. *)
Definition f32 : Type := spec_float.
Definition f32_hundredths (n : Z) : f32 :=
  SFdiv 24 128 (binary_normalize 24 128 n 0 false) (binary_normalize 24 128 100 0 false).

(** @src policies/src/memory_nudge.rs:87-98 [MemoryNudge] *)
Record MemoryNudge := MkMemoryNudge {
  mn_category : MemoryNudgeCategory;
  mn_summary : string;
  mn_confidence : f32;
  mn_turn_number : nat;
}.

(** The number [serde_json] makes of an [f32]. *)
Context (f32_to_json : f32 -> Value).

(** The serializer that serde derives, with its names in snake case.
    @src policies/src/memory_nudge.rs:131-134 [MemoryNudge::to_json] *)
Definition nudge_to_json (n : MemoryNudge) : Value :=
  json_of_map (list_to_map [("category", json_string (category_as_str (mn_category n))); ("summary", json_string (mn_summary n));
    ("confidence", f32_to_json (mn_confidence n)); ("turn_number", json_u64 (N.of_nat (mn_turn_number n)))]).

(** @src policies/src/memory_nudge.rs:149-159 [NudgeSensitivity] *)
Inductive NudgeSensitivity := NudgeLow | NudgeMedium | NudgeHigh.

(** @src policies/src/memory_nudge.rs:163-169 [NudgeSensitivity::threshold] *)
Definition threshold (s : NudgeSensitivity) : f32 :=
  f32_hundredths (match s with NudgeLow => 75 | NudgeMedium => 55 | NudgeHigh => 35 end).

(** Phrases and their confidence in hundredths.
    @src policies/src/memory_nudge.rs:222-238 [CORRECTION_PATTERNS] *)
Definition CORRECTION_PATTERNS : list (string * Z) :=
  [("no, actually", 90); ("don't do that", 85); ("don't do this", 85); ("use x instead", 80); ("use y instead", 80);
   ("instead of that", 75); ("that's wrong", 80); ("that is wrong", 80); ("incorrect, ", 78); ("not quite right", 75);
   ("actually, ", 60); ("rather than that", 65); ("instead, use", 70); ("you should use", 65); ("please use", 60)]%Z.

(** @src policies/src/memory_nudge.rs:240-253 [EXPLICIT_SAVE_PATTERNS] *)
Definition EXPLICIT_SAVE_PATTERNS : list (string * Z) :=
  [("remember this", 95); ("remember that", 90); ("note that", 85); ("keep in mind", 85); ("make a note", 90); ("save this", 90);
   ("don't forget", 80); ("important to remember", 85); ("worth noting", 80); ("for future reference", 85);
   ("bear in mind", 80); ("take note", 85)]%Z.

(** @src policies/src/memory_nudge.rs:255-271 [DECISION_PATTERNS] *)
Definition DECISION_PATTERNS : list (string * Z) :=
  [("we decided to", 90); ("we've decided to", 90); ("we have decided to", 90); ("the plan is", 85); ("the decision is", 88);
   ("going forward, ", 80); ("going forward we", 80); ("from now on", 80); ("we will use", 70); ("we are going to", 72);
   ("we agreed to", 85); ("we've agreed to", 85); ("the approach is", 75); ("our decision:", 88); ("decided on", 75)]%Z.

(** @src policies/src/memory_nudge.rs:273-289 [PREFERENCE_PATTERNS] *)
Definition PREFERENCE_PATTERNS : list (string * Z) :=
  [("i prefer ", 90); ("my preference is", 92); ("always use", 80); ("i like to use", 82); ("i want to use", 78);
   ("please always", 75); ("i always use", 82); ("i'd like to use", 80); ("i would like to use", 80); ("my style is", 85);
   ("my convention is", 85); ("i use ", 55); ("our convention is", 82); ("our style is", 82); ("prefer to use", 80)]%Z.

(** @src policies/src/memory_nudge.rs:312-320 [detect_any] *)
Definition detect_any (text : string) (patterns : list (string * Z)) : option f32 :=
  let lower := to_lowercase text in
  (fun '(_, confidence) => f32_hundredths confidence) <$> List.find (fun '(phrase, _) => contains lower phrase) patterns.

(** The byte at which the character after [n] others begins. *)
Fixpoint nth_char (n idx : nat) (s : string) : option nat :=
  match s with
  | EmptyString => None
  | String a s =>
    if in_range (128, 191)%N a then nth_char n (S idx) s
    else match n with 0 => Some idx | S n => nth_char n (S idx) s end
  end.

(** @src policies/src/memory_nudge.rs:323-330 [truncate_summary] *)
Definition truncate_summary (text : string) (max_chars : nat) : string :=
  match nth_char max_chars 0 text with
  | Some idx => (str_take idx text ++ "…")%string
  | None => text
  end.

(** @src policies/src/memory_nudge.rs:333-356 [nudge_message] *)
Definition nudge_message (category : MemoryNudgeCategory) (summary : string) (confidence : f32) (turn_number : nat) : AgentMessage :=
  let nudge := MkMemoryNudge category (truncate_summary summary 200) confidence turn_number in
  Llm (User (MkUserMessage [Extension "memory_nudge" (nudge_to_json nudge)] 0 None)).

(** @src policies/src/memory_nudge.rs:376-381 [MemoryNudgePolicy::evaluate, detectors] *)
Definition detectors : list (list (string * Z) * MemoryNudgeCategory) :=
  [(CORRECTION_PATTERNS, Correction); (EXPLICIT_SAVE_PATTERNS, ExplicitSave); (DECISION_PATTERNS, Decision);
   (PREFERENCE_PATTERNS, Preference)].

(** @src policies/src/memory_nudge.rs:365-401 [MemoryNudgePolicy::evaluate] *)
Definition memory_nudge (sensitivity : NudgeSensitivity) : PostTurnPolicy (H := H) := fun ctx turn h =>
  let text := extract_text (am_content (tc_assistant_message turn)) in
  (Some (if str_is_empty text then VContinue
         else injections_verdict
           (omap (fun '(patterns, category) =>
              confidence ← detect_any text patterns;
              if SFleb (threshold sensitivity) confidence
              then Some (nudge_message category text confidence (pc_turn_index ctx)) else None) detectors)), h).

(** ** When they stop *)

Lemma check_keywords_spec f text rules :
  is_Some (check_keywords f text rules) <->
  exists rule, rule ∈ rules /\ should_evaluate_category f (kr_category rule) = true
    /\ contains (if kr_case_insensitive rule then to_lowercase text else text) (kr_needle rule) = true.
Proof using.
  induction rules as [|r rules IH]; cbn [check_keywords].
  - split; [by intros [? ?]|]. by intros (? & []%elem_of_nil & _).
  - destruct (_ && _)%bool eqn:Hm.
    + apply andb_true_iff in Hm as [H1 H2]. split; [|eauto]. intros _. exists r. split; [apply elem_of_cons; by left|done].
    + rewrite IH. split; intros (r' & Hin & H1 & H2); [exists r'; split; [apply elem_of_cons; by right|done]|].
      apply elem_of_cons in Hin as [->|Hin]; [by rewrite H1, H2 in Hm|eauto].
Qed.

Lemma check_regexes_spec f text rules :
  is_Some (check_regexes f text rules) <->
  exists rule, rule ∈ rules /\ should_evaluate_category f (fr_category rule) = true /\ is_match (fr_pattern rule) text = true.
Proof using.
  induction rules as [|r rules IH]; cbn [check_regexes].
  - split; [by intros [? ?]|]. by intros (? & []%elem_of_nil & _).
  - destruct (_ && _)%bool eqn:Hm.
    + apply andb_true_iff in Hm as [H1 H2]. split; [|eauto]. intros _. exists r. split; [apply elem_of_cons; by left|done].
    + rewrite IH. split; intros (r' & Hin & H1 & H2); [exists r'; split; [apply elem_of_cons; by right|done]|].
      apply elem_of_cons in Hin as [->|Hin]; [by rewrite H1, H2 in Hm|eauto].
Qed.

(** A filter stops the loop exactly when a rule without a category, or of an enabled
    one, fits the text of the answer; it never injects. *)
Lemma content_filter_stops f ctx turn h :
  let text := extract_text (am_content (tc_assistant_message turn)) in
  let stops := (exists rule, rule ∈ cf_keyword_rules f /\ should_evaluate_category f (kr_category rule) = true
                 /\ contains (if kr_case_insensitive rule then to_lowercase text else text) (kr_needle rule) = true)
    \/ (exists rule, rule ∈ cf_regex_rules f /\ should_evaluate_category f (fr_category rule) = true
         /\ is_match (fr_pattern rule) text = true) in
  (stops /\ exists reason, content_filter f ctx turn h = (Some (VStop reason), h))
  \/ (~ stops /\ content_filter f ctx turn h = (Some VContinue, h)).
Proof using.
  cbv zeta. rewrite <- check_keywords_spec, <- check_regexes_spec. unfold content_filter.
  destruct (check_keywords _ _ _) as [reason|]; [left; split; [eauto|by exists reason]|].
  destruct (check_regexes _ _ _) as [reason|]; [left; split; [eauto|by exists reason]|].
  right. split; [|done]. by intros [[? ?]|[? ?]].
Qed.

(** A keyword that was added is found in every answer that holds it, in any case of
    its letters if the filter was made so. *)
Lemma keyword_is_found f f' word ctx turn h :
  cf_whole_word f = false -> with_keyword f word = Some f' ->
  (contains (extract_text (am_content (tc_assistant_message turn))) word = true /\ cf_case_insensitive f = false)
  \/ (contains (to_lowercase (extract_text (am_content (tc_assistant_message turn)))) (to_lowercase word) = true /\ cf_case_insensitive f = true) ->
  exists reason, content_filter f' ctx turn h = (Some (VStop reason), h).
Proof using.
  intros Hw Hf Hin. unfold with_keyword, push_keyword_rule in Hf. rewrite Hw in Hf. injection Hf as <-.
  match goal with |- exists reason, content_filter ?f ctx turn h = _ =>
    destruct (content_filter_stops f ctx turn h) as [[_ H0]|[Hno _]]; [exact H0|exfalso; apply Hno] end.
  left. eexists. split; [apply elem_of_app; right; by apply list_elem_of_singleton|]. split; [done|]. cbn.
  destruct Hin as [[Hc ->]|[Hc ->]]; exact Hc.
Qed.

Lemma check_patterns_spec patterns text :
  is_Some (check_patterns patterns text) <-> exists p, p ∈ patterns /\ is_match (gp_regex p) text = true.
Proof using.
  induction patterns as [|p ps IH]; cbn [check_patterns].
  - split; [by intros [? ?]|]. by intros (? & []%elem_of_nil & _).
  - destruct (is_match (gp_regex p) text) eqn:Hm.
    + split; [|eauto]. intros _. exists p. split; [apply elem_of_cons; by left|done].
    + rewrite IH. split; intros (q & Hin & H1); [exists q; split; [apply elem_of_cons; by right|done]|].
      apply elem_of_cons in Hin as [->|Hin]; [congruence|eauto].
Qed.

(** The guard lets a turn begin exactly when no new message of the user fits a pattern,
    and go on when no tool result does. *)
Lemma prompt_guard_stops patterns ctx turn h :
  ((fst (prompt_guard_pre_turn patterns ctx h) = Some VContinue <->
    forall u p, Llm (User u) ∈ pc_new_messages ctx -> p ∈ patterns -> is_match (gp_regex p) (extract_text (um_content u)) = false)
   /\ (fst (prompt_guard_post_turn patterns ctx turn h) = Some VContinue <->
    forall r p, r ∈ tc_tool_results turn -> p ∈ patterns -> is_match (gp_regex p) (extract_text (tr_content r)) = false)).
Proof using.
  assert (forall text, check_patterns patterns text = None <-> forall p, p ∈ patterns -> is_match (gp_regex p) text = false) as Hnone.
  { intros text. pose proof (check_patterns_spec patterns text) as Hs. rewrite eq_None_not_Some, Hs. split.
    - intros Hno p Hp. destruct (is_match (gp_regex p) text) eqn:Hm; [|done]. exfalso. eauto.
    - intros Hall (p & Hp & Hm). rewrite Hall in Hm by done. done. }
  unfold prompt_guard_pre_turn, prompt_guard_post_turn. cbn [fst]. split.
  - induction (pc_new_messages ctx) as [|m ms IH]; [split; [by intros _ ? ? []%elem_of_nil|done]|].
    destruct m as [[u| |]|]; [|rewrite IH; setoid_rewrite elem_of_cons; split; [intros Hall ? ? [?|?]; [done|eauto]|eauto]..].
    destruct (check_patterns patterns (extract_text (um_content u))) eqn:Hc.
    + split; [done|]. intros Hall. exfalso. assert (check_patterns patterns (extract_text (um_content u)) = None); [|congruence].
      apply Hnone. intros p Hp. apply (Hall u); [apply elem_of_cons; by left|done].
    + rewrite IH. setoid_rewrite elem_of_cons. split; [|eauto]. intros Hall u' p [[= ->]|Hu] Hp; [|eauto]. by apply (proj1 (Hnone _) Hc).
  - induction (tc_tool_results turn) as [|r rs IH]; [split; [by intros _ ? ? []%elem_of_nil|done]|].
    destruct (check_patterns patterns (extract_text (tr_content r))) eqn:Hc.
    + split; [done|]. intros Hall. exfalso. assert (check_patterns patterns (extract_text (tr_content r)) = None); [|congruence].
      apply Hnone. intros p Hp. apply (Hall r); [apply elem_of_cons; by left|done].
    + rewrite IH. setoid_rewrite elem_of_cons. split; [|eauto]. intros Hall r' p [->|Hr] Hp; [|eauto]. by apply (proj1 (Hnone _) Hc).
Qed.

(** ** What becomes of a redaction *)

Definition has_pii (p : PiiRedactor) (m : AssistantMessage) : bool :=
  existsb (fun pattern => is_match (pp_regex pattern) (extract_text (am_content m))) (pr_patterns p).

Lemma find_existsb {A} (f : A -> bool) l : List.find f l = None <-> existsb f l = false.
Proof using. induction l as [|x l IH]; cbn; [done|]. by destruct (f x). Qed.

(** With the redactor alone after the turns, a message with personal data is replaced
    in the loop if it has no tool calls, and kept as it is if it has some: the
    redacted message has none, and the loop does not let a policy take calls away. *)
Lemma redaction_in_the_loop p config m results system_prompt (w : World H) :
  pr_mode p = PiiRedact -> cfg_post_turn_policies config = [pii_redactor p] ->
  exists w', run_post_turn_policy_check config m results system_prompt w =
      Some ((if (has_pii p m && is_nil (List.filter TurnParts.is_tool_call (am_content m)))%bool
             then redacted_message m (redact_text p (extract_text (am_content m))) else m, None), w')
    /\ w_events w' = w_events w.
Proof using.
  intros Hmode Hcfg. unfold run_post_turn_policy_check. rewrite Hcfg.
  unfold policy_context, messages_now, st, gets, host, mbind, mret. cbn.
  unfold run_post_turn_policies. cbn [run_post_turn_inner]. unfold pii_redactor. cbn [tc_assistant_message].
  unfold has_pii. destruct (List.find _ _) as [first|] eqn:Hf.
  - assert (existsb (fun pattern => is_match (pp_regex pattern) (extract_text (am_content m))) (pr_patterns p) = true) as ->.
    { apply not_false_is_true. rewrite <- find_existsb. by rewrite Hf. }
    rewrite Hmode. cbn. unfold assistant_replacement_preserves_tool_calls. cbn [am_content redacted_message List.filter TurnParts.is_tool_call].
    destruct (List.filter TurnParts.is_tool_call (am_content m)) as [|c cs]; cbn [is_nil]; eexists; (split; [reflexivity|done]).
  - apply find_existsb in Hf. rewrite Hf. cbn. eexists. split; [reflexivity|done].
Qed.

(** ** The summary of a nudge *)

Fixpoint char_count (s : string) : nat :=
  match s with EmptyString => 0 | String a s => if in_range (128, 191)%N a then char_count s else S (char_count s) end.

Lemma char_count_app a b : char_count (a ++ b)%string = char_count a + char_count b.
Proof using.
  induction a as [|c a IH]; [done|]. rewrite string_app_cons. cbn [char_count]. rewrite IH. by destruct (in_range _ c).
Qed.

Lemma nth_char_spec n idx s :
  match nth_char n idx s with
  | Some i => exists k, i = idx + k /\ char_count (str_take k s) = n /\ k < String.length s
  | None => char_count s <= n
  end.
Proof using.
  revert n idx. induction s as [|a s IH]; intros n idx; cbn [nth_char char_count]; [lia|].
  destruct (in_range (128, 191)%N a) eqn:Ha.
  - specialize (IH n (S idx)). destruct (nth_char n (S idx) s) as [i|]; [|exact IH]. destruct IH as (k & -> & Hk & Hl).
    exists (S k). split; [lia|]. cbn [str_take char_count String.length]. rewrite Ha. split; [done|lia].
  - destruct n as [|n]; [exists 0; cbn; split_and!; [lia|done|lia]|].
    specialize (IH n (S idx)). destruct (nth_char n (S idx) s) as [i|]; [|lia]. destruct IH as (k & -> & Hk & Hl).
    exists (S k). split; [lia|]. cbn [str_take char_count String.length]. rewrite Ha. split; [lia|lia].
Qed.

(** The summary is the text if it has at most [n] characters, and else its first [n]
    with an ellipsis behind them: [n + 1] characters. *)
Lemma truncate_summary_spec text n :
  (char_count text <= n /\ truncate_summary text n = text)
  \/ exists kept, truncate_summary text n = (kept ++ "…")%string /\ starts_with kept text = true
       /\ char_count kept = n /\ char_count (truncate_summary text n) = S n.
Proof using.
  unfold truncate_summary. pose proof (nth_char_spec n 0 text) as H'. destruct (nth_char n 0 text) as [i|]; [right|by left].
  destruct H' as (k & -> & Hk & Hl). cbn [Nat.add]. exists (str_take k text). split; [done|].
  split; [rewrite <- (str_take_drop k text) at 2; apply starts_with_app|]. split; [done|].
  rewrite char_count_app, Hk. change (char_count "…") with 1. lia.
Qed.

(** ** What a nudge does to a run *)

(** A nudge has no text for the model. *)
Lemma nudge_says_nothing category summary confidence turn_number :
  exists u, nudge_message category summary confidence turn_number = Llm (User u) /\ extract_text (um_content u) = "".
Proof using. eexists. split; [reflexivity|done]. Qed.

(** And for an OpenAI-compatible provider it is a user message without any. *)
Lemma nudge_goes_out_empty category summary confidence turn_number :
  convert_message (C := OaiConverter) (nudge_message category summary confidence turn_number)
  = Some (MkOaiMessage "user" (Some "") None None).
Proof using. done. Qed.

End Policies.
(** ** Small runs *)
Section Demo.
#[local] Existing Instance Externals.Toy.ext.

(** Literal text for patterns. *)
Fixpoint replace_literal (fuel : nat) (literal placeholder s : string) : string :=
  match fuel, s with
  | S fuel, String a rest =>
    if (starts_with literal s && negb (str_is_empty literal))%bool
    then (placeholder ++ replace_literal fuel literal placeholder (str_drop (String.length literal) s))%string
    else String a (replace_literal fuel literal placeholder rest)
  | _, _ => s
  end.

#[local] Instance Literals : RegexEngine := {|
  Regex := string;
  RegexError := unit;
  regex_new pattern := Ok pattern;
  regex_escape := fun s => s;
  is_match := fun r s => contains s r;
  replace_all := fun r s placeholder => replace_literal (String.length s) r placeholder s;
|}.

Definition nudge_json (x : f32) : Value := json_null.

(** The world of [Script], with a policy after the turns. *)
Definition guarded (policies : list (PostTurnPolicy (H := Script.host_state))) : AgentLoopConfig Script.host_state :=
  MkConfig None None (Script.model "m") (MkRetryStrategy (default_should_retry 3) (fun _ h => (5%N, h)))
    Script.play [Script.lookup] as_llm None None None None None ApprovalSmart [] [] policies [] None None
    Concurrent None None None None []
    false (fun h => (0%N, h)).

(** How often the model is asked, and what the user of the history says. *)
Definition run_of (policies : list (PostTurnPolicy (H := Script.host_state))) (answers : list string) : option (nat * list string) :=
  match run_loop_inner 8 3 (guarded policies) [Demo.user "hello"] 1 "" (Script.world (map text_response answers)) with
  | Some (_, w) =>
    Some (llm_calls w, omap (fun m => match m with Llm (User u) => Some (extract_text (um_content u)) | _ => None end)
                         (cm_messages (context_messages (w_state w))))
  | None => None
  end.

(** An answer that says "note that" is final for the loop.  With the nudge it is not:
    the model is asked again, with a message that has no text, as long as its answers
    have such a phrase. *)
Lemma nudge_asks_again :
  let answers := ["Note that it works."; "Worth noting: it works."; "It works."] in
  run_of [] answers = Some (1, ["hello"]) /\ run_of [memory_nudge nudge_json NudgeMedium] answers = Some (3, ["hello"; ""; ""]).
Proof. split; vm_compute; reflexivity. Qed.

Definition says (content : list ContentBlock) : TurnPolicyContext :=
  MkTurnPolicyContext (MkAssistantMessage content "p" "m" usage_default cost_default Stop None None 0 None) [] Stop "" (Script.model "m") [].

Definition quiet_context : PolicyContext := MkPolicyContext 0 usage_default cost_default 0 false [] session_new.

Definition nudges (s : NudgeSensitivity) (text : string) : bool :=
  match fst (memory_nudge nudge_json s quiet_context (says [Text text]) tt) with Some (VInject _) => true | _ => false end.

(** The first phrase of the table decides, not the one that weighs most: a strong phrase
    is not seen behind a weak one. *)
Lemma weak_phrase_hides_strong :
  nudges NudgeLow "we agreed to use tabs" = true /\ nudges NudgeLow "we agreed to use tabs, so we will use them" = false.
Proof. split; vm_compute; reflexivity. Qed.

(** The summary, "at most 200 characters", has 201. *)
Lemma summary_has_201_characters : char_count (truncate_summary (String.concat "" (replicate 300 "a")) 200) = 201.
Proof. vm_compute. reflexivity. Qed.

Definition mail_redactor : PiiRedactor := MkPiiRedactor [MkPiiPattern "email" "me@x.org"] PiiRedact "[REDACTED]".

Definition redacted_turn (content : list ContentBlock) : option AssistantMessage :=
  let m := tc_assistant_message (says content) in
  match run_post_turn_policy_check (guarded [pii_redactor mail_redactor]) m [] "" (Script.world []) with
  | Some ((m, _), _) => Some m
  | None => None
  end.

(** The redaction is lost when the same message calls a tool. *)
Lemma tool_turn_keeps_pii :
  let call := ToolCall "c1" "lookup" (json_of_map ∅) None in
  (am_content <$> redacted_turn [Text "write to me@x.org"]) = Some [Text "write to [REDACTED]"]
  /\ (am_content <$> redacted_turn [Text "write to me@x.org"; call]) = Some [Text "write to me@x.org"; call].
Proof. split; vm_compute; reflexivity. Qed.

End Demo.
End Guards.
