(* ===== verification/Guardrails.v ===== *)
(** * Checkpoints after turns, and the recommended set of policies

    [policies/src/checkpoint.rs] and [policies/src/recommended.rs].  The saves of
    [RollingCheckpointPolicy] run as tasks beside the loop; under every
    interleaving they reach the store in the order of the turns.  The recommended
    guardrails hold whatever other policies share their slots. *)
From S2P Require Export Sandbox MessageCodec Pricing.
From Stdlib Require Import SpecFloat.
Open Scope string_scope.
Open Scope list_scope.

(** ** Checkpoints after turns *)
Module Rolling.

Section Checkpoints.
Context `{E : Ext}.

(** @src src/checkpoint.rs:114-117 [Checkpoint::with_usage] *)
Definition checkpoint_with_usage (c : Checkpoint) (usage : Usage) : Checkpoint :=
  MkCheckpoint (ck_id c) (ck_system_prompt c) (ck_provider c) (ck_model_id c) (ck_messages c)
    (ck_turn_count c) usage (ck_cost c) (ck_created_at c) (ck_metadata c) (ck_state c).

(** @src src/checkpoint.rs:121-124 [Checkpoint::with_cost] *)
Definition checkpoint_with_cost (c : Checkpoint) (cost : Cost) : Checkpoint :=
  MkCheckpoint (ck_id c) (ck_system_prompt c) (ck_provider c) (ck_model_id c) (ck_messages c)
    (ck_turn_count c) (ck_usage c) cost (ck_created_at c) (ck_metadata c) (ck_state c).

(** [now] is the timestamp of [Checkpoint::new].
    @src policies/src/checkpoint.rs:231-252 [build_checkpoint] *)
Definition build_checkpoint (now : N) (id : string) (ctx : PolicyContext) (turn : TurnPolicyContext) : Checkpoint :=
  let checkpoint := checkpoint_new id (tc_system_prompt turn) (ms_provider (tc_model_spec turn)) (ms_model_id (tc_model_spec turn))
                      (tc_context_messages turn) now in
  let checkpoint := checkpoint_with_cost
    (checkpoint_with_usage (checkpoint_with_turn_count checkpoint (pc_turn_index ctx)) (pc_accumulated_usage ctx))
    (pc_accumulated_cost ctx) in
  if bool_decide (ss_data (pc_state ctx) = ∅) then checkpoint else checkpoint_with_state checkpoint (snapshot (pc_state ctx)).

(** The id of [CheckpointPolicy] for a turn.
    @src policies/src/checkpoint.rs:84-89 [CheckpointPolicy::checkpoint_id] *)
Definition checkpoint_id (session_id : option string) (turn_index : nat) : string :=
  match session_id with
  | Some session => (session ++ "-turn-" ++ pretty turn_index)%string
  | None => ("turn-" ++ pretty turn_index)%string
  end.

(** @src policies/src/checkpoint.rs:160-160 [RollingCheckpointPolicy::DEFAULT_ID] *)
Definition DEFAULT_ID : string := "rolling".

(** @src policies/src/checkpoint.rs:188-192 [RollingCheckpointPolicy::with_session_id] *)
Definition rolling_id (session_id : option string) : string :=
  match session_id with Some id => (id ++ "-" ++ DEFAULT_ID)%string | None => DEFAULT_ID end.

(** ** Saves as tasks *)

(** A spawned save: it waits for the one before it, it is in the store, it has ended. *)
Inductive SaveTask :=
| Waiting (previous : option nat) (checkpoint : Checkpoint)
| Saving (checkpoint : Checkpoint)
| Ended.

(** The tasks so far, by their number, the handle in [last_save], and the saves that
    went through, oldest first. *)
Record SaveTasks := MkSaves { sv_tasks : list SaveTask; sv_last : option nat; sv_log : list Checkpoint }.

Definition store_of (log : list Checkpoint) : gmap string Checkpoint :=
  foldl (fun store c => <[ck_id c := c]> store) ∅ log.

Definition spawn (s : SaveTasks) (task : SaveTask) : nat * list SaveTask := (length (sv_tasks s), sv_tasks s ++ [task]).

(** @src policies/src/checkpoint.rs:106-110 [CheckpointPolicy::evaluate] *)
Definition checkpoint_policy (now : SaveTasks -> N) (session_id : option string) : PostTurnPolicy (H := SaveTasks) := fun ctx turn s =>
  let checkpoint := build_checkpoint (now s) (checkpoint_id session_id (pc_turn_index ctx)) ctx turn in
  let '(_, tasks) := spawn s (Waiting None checkpoint) in
  (Some VContinue, MkSaves tasks (sv_last s) (sv_log s)).

(** @src policies/src/checkpoint.rs:209-227 [RollingCheckpointPolicy::evaluate] *)
Definition rolling_policy (now : SaveTasks -> N) (session_id : option string) : PostTurnPolicy (H := SaveTasks) := fun ctx turn s =>
  let checkpoint := build_checkpoint (now s) (rolling_id session_id) ctx turn in
  let previous := sv_last s in
  let '(handle, tasks) := spawn s (Waiting previous checkpoint) in
  (Some VContinue, MkSaves tasks (Some handle) (sv_log s)).

Definition has_ended (s : SaveTasks) (previous : option nat) : bool :=
  match previous with
  | None => true
  | Some i => match sv_tasks s !! i with Some Ended => true | _ => false end
  end.

(** The runtime polls a task; a save ends with or without effect, which also stands for
    one that fails or panics before or after the checkpoint is in the store.
    @src policies/src/checkpoint.rs:217-225 [RollingCheckpointPolicy::evaluate, spawn (brace)] *)
Definition poll_save (i : nat) (took_effect : bool) (s : SaveTasks) : SaveTasks :=
  match sv_tasks s !! i with
  | Some (Waiting previous c) => if has_ended s previous then MkSaves (<[i := Saving c]> (sv_tasks s)) (sv_last s) (sv_log s) else s
  | Some (Saving c) =>
    MkSaves (<[i := Ended]> (sv_tasks s)) (sv_last s) (sv_log s ++ if took_effect then [c] else [])
  | _ => s
  end.

(** Turns end, and the runtime polls tasks, in any order. *)
Inductive Happening :=
| TurnEnds (ctx : PolicyContext) (turn : TurnPolicyContext)
| Polled (i : nat) (took_effect : bool).

Definition happens (policy : PostTurnPolicy (H := SaveTasks)) (s : SaveTasks) (h : Happening) : SaveTasks :=
  match h with
  | TurnEnds ctx turn => snd (policy ctx turn s)
  | Polled i took_effect => poll_save i took_effect s
  end.

Definition no_saves : SaveTasks := MkSaves [] None [].
Definition after_all (policy : PostTurnPolicy (H := SaveTasks)) (hs : list Happening) : SaveTasks := foldl (happens policy) no_saves hs.

(** ** The order of the saves *)

(** The checkpoints of the turns so far, in their order. *)
Definition built_step (now : SaveTasks -> N) (session_id : option string) : SaveTasks * list Checkpoint -> Happening -> SaveTasks * list Checkpoint :=
  fun '(s, built) h =>
    (happens (rolling_policy now session_id) s h,
     built ++ match h with TurnEnds ctx turn => [build_checkpoint (now s) (rolling_id session_id) ctx turn] | Polled _ _ => [] end).

Definition built (now : SaveTasks -> N) (session_id : option string) (hs : list Happening) : list Checkpoint :=
  snd (foldl (built_step now session_id) (no_saves, []) hs).

Definition previous_of (i : nat) : option nat := match i with 0 => None | S i => Some i end.

(** The saves before the [k]-th have ended, the [k]-th is going on or about to, those
    behind it wait each for the one before. *)
Definition task_ok (k i : nat) (c : Checkpoint) (t : SaveTask) : Prop :=
  (i < k /\ t = Ended) \/ (k <= i /\ t = Waiting (previous_of i) c) \/ (i = k /\ t = Saving c).

Record chained (id : string) (s : SaveTasks) (cs : list Checkpoint) (k : nat) : Prop := {
  ch_length : length (sv_tasks s) = length cs;
  ch_k : k <= length cs;
  ch_tasks : forall i c, cs !! i = Some c -> exists t, sv_tasks s !! i = Some t /\ task_ok k i c t;
  ch_log : sv_log s `sublist_of` take k cs;
  ch_last : sv_last s = previous_of (length cs);
  ch_ids : Forall (fun c => ck_id c = id) cs;
}.

Lemma chained_start id : chained id no_saves [] 0.
Proof using. by split. Qed.

Lemma build_checkpoint_id now id ctx turn : ck_id (build_checkpoint now id ctx turn) = id.
Proof using. unfold build_checkpoint. by case_bool_decide. Qed.

Lemma chained_turn now session_id s cs k ctx turn :
  chained (rolling_id session_id) s cs k ->
  chained (rolling_id session_id) (happens (rolling_policy now session_id) s (TurnEnds ctx turn))
    (cs ++ [build_checkpoint (now s) (rolling_id session_id) ctx turn]) k.
Proof using.
  intros [Hl Hk Ht Hlog Hlast Hids]. cbn [happens rolling_policy spawn fst snd]. set (c := build_checkpoint _ _ _ _).
  assert (ck_id c = rolling_id session_id) as Hid by apply build_checkpoint_id. clearbody c.
  split; cbn [sv_tasks sv_last sv_log]; rewrite ?length_app; cbn [length]; try lia.
  - intros i c' [Hc'|[Hi [H0 <-]%list_lookup_singleton_Some]]%lookup_app_Some.
    + destruct (Ht _ _ Hc') as (t & Hi & Hok). exists t. split; [by apply lookup_app_l_Some|done].
    + exists (Waiting (sv_last s) c). split; [rewrite lookup_app_r by lia; by replace (i - length (sv_tasks s)) with 0 by lia|].
      right. left. split; [lia|]. rewrite Hlast. f_equal. f_equal. lia.
  - rewrite take_app_le by lia. done.
  - rewrite Hl. by rewrite Nat.add_1_r.
  - apply Forall_app. split; [done|by constructor].
Qed.

Lemma chained_poll id i took s cs k :
  chained id s cs k ->
  chained id (poll_save i took s) cs (match sv_tasks s !! i with Some (Saving _) => S k | _ => k end)
  /\ sv_log (poll_save i took s) = sv_log s ++ match sv_tasks s !! i with Some (Saving c) => if took then [c] else [] | _ => [] end.
Proof using.
  intros Hc. pose proof Hc as [Hl Hk Ht Hlog Hlast Hids]. unfold poll_save.
  assert (chained id s cs k /\ sv_log s = sv_log s ++ []) as Hsame by (by rewrite app_nil_r).
  destruct (sv_tasks s !! i) as [t|] eqn:Hi; [|exact Hsame].
  destruct (lookup_lt_is_Some_2 cs i) as [c Hci]; [rewrite <- Hl; by eapply lookup_lt_Some|].
  destruct (Ht i c Hci) as (t' & Hi' & Hok). rewrite Hi in Hi'. injection Hi' as <-.
  destruct Hok as [[Hlt ->]|[[Hle ->]|[-> ->]]]; [exact Hsame| |].
  - destruct (has_ended s (previous_of i)) eqn:He; [|exact Hsame]. rewrite app_nil_r. split; [|done].
    assert (i = k) as ->.
    { destruct (decide (i = k)) as [|Hne]; [done|exfalso]. destruct i as [|i]; [lia|]. cbn [previous_of has_ended] in He.
      destruct (lookup_lt_is_Some_2 cs i) as [c' Hc']; [apply lookup_lt_Some in Hci; lia|].
      destruct (Ht i c' Hc') as (t & Hti & [[? ->]|[[? ->]|[? ->]]]); [lia|rewrite Hti in He; done..]. }
    split; cbn [sv_tasks sv_last sv_log]; [by rewrite length_insert|done| |done..].
    intros j c' Hj. destruct (decide (j = k)) as [->|Hne].
    + rewrite Hci in Hj. injection Hj as <-. exists (Saving c). split; [|by right; right].
      apply list_lookup_insert_eq. by eapply lookup_lt_Some.
    + rewrite list_lookup_insert_ne by done. by apply Ht.
  - split; [|done]. pose proof (lookup_lt_Some _ _ _ Hci) as Hkl.
    split; cbn [sv_tasks sv_last sv_log]; [by rewrite length_insert|lia| | |done..].
    + intros j c' Hj. destruct (decide (j = k)) as [->|Hne].
      * exists Ended. split; [apply list_lookup_insert_eq; by eapply lookup_lt_Some|]. left. split; [lia|done].
      * rewrite list_lookup_insert_ne by done. destruct (Ht j c' Hj) as (t & Hti & Hok). exists t. split; [done|].
        destruct Hok as [[? ->]|[[? ->]|[? ->]]]; [left; split; [lia|done]|right; left; split; [lia|done]|lia].
    + rewrite (take_S_r _ _ _ Hci). apply sublist_app; [done|]. destruct took; [done|apply sublist_nil_l].
Qed.

Lemma chained_all now session_id hs :
  exists k, chained (rolling_id session_id) (after_all (rolling_policy now session_id) hs) (built now session_id hs) k.
Proof using.
  assert (forall hs s cs k, chained (rolling_id session_id) s cs k -> exists k',
    chained (rolling_id session_id) (foldl (happens (rolling_policy now session_id)) s hs) (snd (foldl (built_step now session_id) (s, cs) hs)) k') as Hgo.
  { clear hs. induction hs as [|h hs IH]; intros s cs k Hc; [by exists k|]. cbn [foldl built_step]. destruct h as [ctx turn|i took].
    - by eapply IH, chained_turn.
    - destruct (chained_poll _ i took _ _ _ Hc) as [Hc' _]. rewrite app_nil_r. by eapply IH. }
  eapply Hgo, chained_start.
Qed.

Lemma store_of_last id log : Forall (fun c => ck_id c = id) log ->
  store_of log !! id = last log /\ forall id', id' <> id -> store_of log !! id' = None.
Proof using.
  unfold store_of. induction log as [|c log IH] using rev_ind; intros Hall; [by split; [|intros; apply lookup_empty]|].
  apply Forall_app in Hall as [Hall [Hc _]%Forall_cons]. destruct (IH Hall) as [_ Hne].
  rewrite foldl_app. cbn [foldl]. rewrite last_snoc, Hc. split; [by rewrite lookup_insert_eq|].
  intros id' Hid. rewrite lookup_insert_ne by done. by apply Hne.
Qed.

(** Every task is polled twice, the oldest first. *)
Definition drain (took : nat -> bool) (n : nat) (s : SaveTasks) : SaveTasks :=
  foldl (fun s i => poll_save i (took i) (poll_save i (took i) s)) s (seq 0 n).

Lemma drain_S took n s : drain took (S n) s = poll_save n (took n) (poll_save n (took n) (drain took n s)).
Proof using. unfold drain. by rewrite seq_S, foldl_app. Qed.

Lemma poll_ended id s cs k i took : chained id s cs k -> i < k -> poll_save i took s = s.
Proof using.
  intros [Hl Hk Ht _ _ _] Hi. destruct (lookup_lt_is_Some_2 cs i) as [c Hc]; [lia|].
  unfold poll_save. by destruct (Ht i c Hc) as (t & -> & [[_ ->]|[[? _]|[-> _]]]); [|lia..].
Qed.

(** The save whose turn it is ends in two polls. *)
Lemma poll_twice id s cs k c took : chained id s cs k -> cs !! k = Some c ->
  let s' := poll_save k took (poll_save k took s) in
  chained id s' cs (S k) /\ sv_log s' = sv_log s ++ if took then [c] else [].
Proof using.
  intros Hch Hc. cbv zeta.
  assert (forall s0, chained id s0 cs k -> sv_tasks s0 !! k = Some (Saving c) ->
    chained id (poll_save k took s0) cs (S k) /\ sv_log (poll_save k took s0) = sv_log s0 ++ if took then [c] else []) as Hend.
  { intros s0 Hs0 Hsav. pose proof (chained_poll id k took s0 cs k Hs0) as Hp. by rewrite Hsav in Hp. }
  destruct (ch_tasks _ _ _ _ Hch k c Hc) as (t & Hk & [[? _]|[[_ ->]|[_ ->]]]); [lia| |].
  - assert (has_ended s (previous_of k) = true) as He.
    { destruct k as [|k]; [done|]. cbn [previous_of has_ended]. pose proof (lookup_lt_Some _ _ _ Hc).
      destruct (lookup_lt_is_Some_2 cs k) as [d Hd]; [lia|].
      by destruct (ch_tasks _ _ _ _ Hch k d Hd) as (t & -> & [[_ ->]|[[? _]|[? _]]]); [|lia..]. }
    pose proof (chained_poll id k took s cs k Hch) as [Hch' Hlog]. rewrite Hk in Hch', Hlog. rewrite app_nil_r in Hlog.
    rewrite <- Hlog. apply Hend; [exact Hch'|]. unfold poll_save. rewrite Hk, He. cbn [sv_tasks].
    apply list_lookup_insert_eq. by eapply lookup_lt_Some.
  - destruct (Hend s Hch Hk) as [H1 H2]. rewrite (poll_ended _ _ _ _ k took H1) by lia. by split.
Qed.

Lemma drain_spec took n id s cs k :
  chained id s cs k -> n <= length cs -> chained id (drain took n s) cs (k `max` n).
Proof using.
  intros Hc. induction n as [|n IH]; intros Hn; [by rewrite Nat.max_0_r|]. rewrite drain_S. specialize (IH ltac:(lia)).
  destruct (decide (n < k)) as [Hlt|Hge].
  - rewrite Nat.max_l in IH by lia. rewrite Nat.max_l by lia. by rewrite !(poll_ended _ _ _ _ n _ IH).
  - rewrite Nat.max_r in IH by lia. rewrite Nat.max_r by lia. destruct (lookup_lt_is_Some_2 cs n) as [c Hcn]; [lia|].
    by apply (poll_twice _ _ _ _ c).
Qed.

(** C16: the rolling checkpoint never goes back.  Turns end and the runtime polls the saves
    in any order; a save may fail or panic.  At every moment: the saves that went
    through are those of some of the turns, in the order of the turns; the store
    holds the last of them, under the one id of the policy and nothing under another; no two saves
    are going on at once; and the policy never interferes with the loop.  No save
    holds up the ones behind it: when all tasks have been polled, oldest first, and the
    last save has effect, the store holds the checkpoint of the last turn. *)
Theorem rolling_saves_in_order now session_id hs :
  let policy := rolling_policy now session_id in
  let s := after_all policy hs in
  let turns := built now session_id hs in
  sv_log s `sublist_of` turns
  /\ store_of (sv_log s) !! rolling_id session_id = last (sv_log s)
  /\ (forall id, id <> rolling_id session_id -> store_of (sv_log s) !! id = None)
  /\ (forall i j c d, sv_tasks s !! i = Some (Saving c) -> sv_tasks s !! j = Some (Saving d) -> i = j)
  /\ (forall ctx turn, fst (policy ctx turn s) = Some VContinue)
  /\ (forall h, sv_log s `prefix_of` sv_log (happens policy s h))
  /\ (forall took c, last turns = Some c -> last (sv_tasks s) <> Some Ended -> took (pred (length turns)) = true ->
       store_of (sv_log (drain took (length turns) s)) !! rolling_id session_id = Some c).
Proof using.
  cbv zeta. destruct (chained_all now session_id hs) as [k Hc]. set (s := after_all _ hs) in *. set (cs := built now session_id hs) in *.
  pose proof Hc as [Hl Hk Ht Hlog Hlast Hids].
  assert (forall log, log `sublist_of` cs -> Forall (fun c => ck_id c = rolling_id session_id) log) as Hall.
  { intros log Hsub. rewrite Forall_forall in Hids |- *. intros c Hin. apply Hids. by eapply elem_of_sublist. }
  assert (sv_log s `sublist_of` cs) as Hsub by (etransitivity; [exact Hlog|apply sublist_take]).
  destruct (store_of_last _ _ (Hall _ Hsub)) as [Hst Hother].
  split; [done|]. split; [done|]. split; [done|]. split; [|split; [done|split]].
  - assert (forall i c, sv_tasks s !! i = Some (Saving c) -> i = k) as Hone; [|intros i j c d Hi%Hone Hj%Hone; congruence].
    intros i c Hi. destruct (lookup_lt_is_Some_2 cs i) as [c' Hc']; [rewrite <- Hl; by eapply lookup_lt_Some|].
    destruct (Ht i c' Hc') as (t & Hti & Hok). rewrite Hi in Hti. injection Hti as <-. by destruct Hok as [[_ ?]|[[_ ?]|[? _]]].
  - intros [ctx turn|i took]; [done|]. cbn [happens]. destruct (chained_poll _ i took _ _ _ Hc) as [_ ->]. by apply prefix_app_r.
  - intros took c Hlc Hne Htook. destruct cs as [|c0 cs' _] eqn:Hcs using rev_ind; [done|]. rewrite last_snoc in Hlc. injection Hlc as ->.
    rewrite length_app, Nat.add_1_r in *. cbn [pred] in Htook. rewrite drain_S.
    assert ((cs' ++ [c]) !! length cs' = Some c) as Hlk by (rewrite lookup_app_r by lia; by rewrite Nat.sub_diag).
    assert (k <= length cs') as Hkm.
    { destruct (decide (k = S (length cs'))) as [->|]; [|lia]. exfalso. apply Hne. rewrite last_lookup, Hl. cbn [pred].
      destruct (Ht _ _ Hlk) as (t & -> & [[_ ->]|[[? _]|[? _]]]); [done|lia..]. }
    pose proof (drain_spec took (length cs') _ _ _ _ Hc) as Hd. rewrite length_app, Nat.max_r in Hd by lia. specialize (Hd ltac:(cbn; lia)).
    destruct (poll_twice _ _ _ _ c (took (length cs')) Hd Hlk) as [Hd' Hlg]. rewrite Htook in *.
    assert (sv_log (poll_save (length cs') true (poll_save (length cs') true (drain took (length cs') s))) `sublist_of` cs' ++ [c]) as Hsub'.
    { etransitivity; [apply (ch_log _ _ _ _ Hd')|apply sublist_take]. }
    destruct (store_of_last _ _ (Hall _ Hsub')) as [-> _]. rewrite Hlg. apply last_snoc.
Qed.

End Checkpoints.

(** Two turns whose saves are polled newest first. *)
Section Demo.
#[local] Existing Instance Externals.Toy.ext.

Definition ended (turn_index : nat) : Happening :=
  TurnEnds (MkPolicyContext turn_index usage_default cost_default 0 false [] session_new)
    (MkTurnPolicyContext (MkAssistantMessage [] "p" "m" usage_default cost_default Stop None None 0 None) [] Stop ""
       (MkModelSpec "p" "m" Off None None None) []).

Definition newest_first : list Happening :=
  [ended 0; ended 1; Polled 1 true; Polled 1 true; Polled 0 true; Polled 0 true; Polled 1 true; Polled 1 true].

Definition stored (policy : PostTurnPolicy (H := SaveTasks)) : list nat := map ck_turn_count (sv_log (after_all policy newest_first)).

(** The rolling policy holds the second save back; the other one does not have to, its ids
    differ from turn to turn. *)
Example rolling_waits : stored (rolling_policy (fun _ => 0%N) (Some "s")) = [0; 1] /\ stored (checkpoint_policy (fun _ => 0%N) (Some "s")) = [1; 0].
Proof. split; vm_compute; reflexivity. Qed.

End Demo.
End Rolling.

(** ** The recommended guardrails *)
Module Recommended.
Import Confine Sandbox.

(** A policy with its [name()]. *)
Record Named (P : Type) := MkNamed { np_name : string; np_policy : P }.
Arguments MkNamed {P}.
Arguments np_name {P}.
Arguments np_policy {P}.

(** [f64::MAX] *)
Definition f64_max : f64 := S754_finite false 9007199254740991 971.

Section Recommended.
Context `{E : Ext}.
Context (cwd : RealPath).
(** [usize::MAX] and [u64::MAX]. *)
Context (usize_max : nat).
Definition u64_max : N := 18446744073709551615.

(** The two slots of [AgentOptions] the guardrails use.
    @src src/agent_options.rs:104-106 [AgentOptions, pre_turn_policies and pre_dispatch_policies] *)
Record Slots := MkSlots {
  sl_pre_turn : list (Named (PreTurnPolicy (H := Fs)));
  sl_pre_dispatch : list (Named (PreDispatchPolicy (H := Fs)));
}.

(** @src src/agent_options.rs:446-453 [AgentOptions::with_pre_turn_policy] *)
Definition with_pre_turn_policy (o : Slots) (p : Named (PreTurnPolicy (H := Fs))) : Slots :=
  MkSlots (sl_pre_turn o ++ [p]) (sl_pre_dispatch o).

(** @src src/agent_options.rs:456-463 [AgentOptions::with_pre_dispatch_policy] *)
Definition with_pre_dispatch_policy (o : Slots) (p : Named (PreDispatchPolicy (H := Fs))) : Slots :=
  MkSlots (sl_pre_turn o) (sl_pre_dispatch o ++ [p]).

(** @src policies/src/recommended.rs:37-37 [BUDGET_NAME] *)
Definition BUDGET_NAME : string := "budget".
(** @src policies/src/recommended.rs:39-39 [MAX_TURNS_NAME] *)
Definition MAX_TURNS_NAME : string := "max_turns".
(** @src policies/src/recommended.rs:41-41 [SANDBOX_NAME] *)
Definition SANDBOX_NAME : string := "sandbox".
(** @src policies/src/recommended.rs:43-43 [DENY_LIST_NAME] *)
Definition DENY_LIST_NAME : string := "tool_deny_list".

(** @src policies/src/recommended.rs:53-60 [RecommendedPolicies] *)
Record RecommendedPolicies := MkRecommended {
  rp_max_cost : f64;
  rp_max_input_tokens : option N;
  rp_max_output_tokens : option N;
  rp_max_turns : nat;
  rp_sandbox_root : string;
  rp_denied_tools : list string;
}.

(** @src policies/src/recommended.rs:75-88 [RecommendedPolicies::builder] *)
Definition builder : RecommendedPolicies := MkRecommended (f64_of_N 10) None None 50 "." ["bash"].

(** @src policies/src/recommended.rs:91-95 [RecommendedPolicies::with_max_cost] *)
Definition with_max_cost (r : RecommendedPolicies) (limit : f64) : RecommendedPolicies :=
  MkRecommended limit (rp_max_input_tokens r) (rp_max_output_tokens r) (rp_max_turns r) (rp_sandbox_root r) (rp_denied_tools r).

(** @src policies/src/recommended.rs:98-102 [RecommendedPolicies::with_max_input_tokens] *)
Definition with_max_input_tokens (r : RecommendedPolicies) (limit : N) : RecommendedPolicies :=
  MkRecommended (rp_max_cost r) (Some limit) (rp_max_output_tokens r) (rp_max_turns r) (rp_sandbox_root r) (rp_denied_tools r).

(** @src policies/src/recommended.rs:105-109 [RecommendedPolicies::with_max_output_tokens] *)
Definition with_max_output_tokens (r : RecommendedPolicies) (limit : N) : RecommendedPolicies :=
  MkRecommended (rp_max_cost r) (rp_max_input_tokens r) (Some limit) (rp_max_turns r) (rp_sandbox_root r) (rp_denied_tools r).

(** @src policies/src/recommended.rs:112-116 [RecommendedPolicies::with_max_turns] *)
Definition with_max_turns (r : RecommendedPolicies) (limit : nat) : RecommendedPolicies :=
  MkRecommended (rp_max_cost r) (rp_max_input_tokens r) (rp_max_output_tokens r) limit (rp_sandbox_root r) (rp_denied_tools r).

(** @src policies/src/recommended.rs:120-124 [RecommendedPolicies::with_sandbox_root] *)
Definition with_sandbox_root (r : RecommendedPolicies) (root : string) : RecommendedPolicies :=
  MkRecommended (rp_max_cost r) (rp_max_input_tokens r) (rp_max_output_tokens r) (rp_max_turns r) root (rp_denied_tools r).

(** @src policies/src/recommended.rs:127-131 [RecommendedPolicies::with_deny_tools] *)
Definition with_deny_tools (r : RecommendedPolicies) (tools : list string) : RecommendedPolicies :=
  MkRecommended (rp_max_cost r) (rp_max_input_tokens r) (rp_max_output_tokens r) (rp_max_turns r) (rp_sandbox_root r) tools.

(** @src policies/src/recommended.rs:140-146 [RecommendedPolicies::apply, budget] *)
Definition budget_of (r : RecommendedPolicies) : BudgetPolicy :=
  MkBudgetPolicy (Some (rp_max_cost r)) (rp_max_input_tokens r) (rp_max_output_tokens r).

(** @src policies/src/recommended.rs:138-153 [RecommendedPolicies::apply] *)
Definition apply (r : RecommendedPolicies) (options : Slots) : Slots :=
  let options := with_pre_turn_policy options (MkNamed BUDGET_NAME (budget_pre_turn (budget_of r))) in
  let options := with_pre_turn_policy options (MkNamed MAX_TURNS_NAME (max_turns_pre_turn (rp_max_turns r))) in
  let options := with_pre_dispatch_policy options (MkNamed SANDBOX_NAME (sandbox cwd (sandbox_new (rp_sandbox_root r)))) in
  with_pre_dispatch_policy options (MkNamed DENY_LIST_NAME (deny_list (list_to_set (rp_denied_tools r)))).

(** ** The check of a configuration *)

Definition find_named {P} (name : string) (slot : list (Named P)) : option P :=
  np_policy <$> List.find (fun p => String.eqb (np_name p) name) slot.

(** @src policies/src/recommended.rs:337-344 [probe_policy_context] *)
Definition probe_policy_context (turn_index : nat) (usage : Usage) (cost : Cost) (state : SessionState) : PolicyContext :=
  MkPolicyContext turn_index usage cost 0 false [] state.

(** A violation, or none; outer [None]: the policy panics.
    @src policies/src/recommended.rs:216-240 [check_budget] *)
Definition check_budget (options : Slots) (state : SessionState) (h : Fs) : option (option string * Fs) :=
  match find_named BUDGET_NAME (sl_pre_turn options) with
  | None => Some (Some ("no pre-turn policy named '" ++ BUDGET_NAME ++ "' (BudgetPolicy) is wired")%string, h)
  | Some policy =>
    let usage := MkUsage u64_max u64_max 0 0 u64_max ∅ in
    let cost := MkCost f64_zero f64_zero f64_zero f64_zero f64_max ∅ in
    match policy (probe_policy_context 0 usage cost state) h with
    | (None, _) => None
    | (Some (VStop _), h) => Some (None, h)
    | (Some _, h) => Some (Some ("pre-turn policy '" ++ BUDGET_NAME ++ "' does not stop at extreme cost/token usage — no effective limit is configured")%string, h)
    end
  end.

(** @src policies/src/recommended.rs:243-264 [check_max_turns] *)
Definition check_max_turns (options : Slots) (state : SessionState) (h : Fs) : option (option string * Fs) :=
  match find_named MAX_TURNS_NAME (sl_pre_turn options) with
  | None => Some (Some ("no pre-turn policy named '" ++ MAX_TURNS_NAME ++ "' (MaxTurnsPolicy) is wired")%string, h)
  | Some policy =>
    match policy (probe_policy_context usize_max usage_default cost_default state) h with
    | (None, _) => None
    | (Some (VStop _), h) => Some (None, h)
    | (Some _, h) => Some (Some ("pre-turn policy '" ++ MAX_TURNS_NAME ++ "' does not stop at an extreme turn index — no effective turn limit is configured")%string, h)
    end
  end.

Definition probe : string := "/swink-agent-guardrail-probe/escape.txt".

(** The call that asks for a path outside.
    @src policies/src/recommended.rs:279-291 [check_sandbox, ctx] *)
Definition probe_call (state : SessionState) : ToolDispatchContext :=
  MkToolDispatchContext "guardrail_probe" "guardrail-probe"
    (json_of_map (list_to_map (map (fun key => (key, json_string probe)) ["path"; "file_path"; "file"]))) None state.

(** @src policies/src/recommended.rs:269-301 [check_sandbox] *)
Definition check_sandbox (options : Slots) (state : SessionState) (h : Fs) : option (option string * Fs) :=
  match find_named SANDBOX_NAME (sl_pre_dispatch options) with
  | None => Some (Some ("no pre-dispatch policy named '" ++ SANDBOX_NAME ++ "' (SandboxPolicy) is wired")%string, h)
  | Some policy =>
    match policy (probe_call state) h with
    | (None, _, _) => None
    | (Some (DSkip _), _, h) => Some (None, h)
    | (Some _, _, h) => Some (Some ("pre-dispatch policy '" ++ SANDBOX_NAME ++ "' does not reject a path outside its allowed root — the sandbox is trivial or checks no default path field")%string, h)
    end
  end.

(** @src policies/src/recommended.rs:304-334 [check_deny_list] *)
Definition check_deny_list (options : Slots) (state : SessionState) (expected_denied_tool : string) (h : Fs) : option (option string * Fs) :=
  match find_named DENY_LIST_NAME (sl_pre_dispatch options) with
  | None => Some (Some ("no pre-dispatch policy named '" ++ DENY_LIST_NAME ++ "' (ToolDenyListPolicy) is wired")%string, h)
  | Some policy =>
    match policy (MkToolDispatchContext expected_denied_tool "guardrail-probe" (json_of_map ∅) None state) h with
    | (None, _, _) => None
    | (Some (DSkip _), _, h) => Some (None, h)
    | (Some _, _, h) => Some (Some ("pre-dispatch policy '" ++ DENY_LIST_NAME ++ "' does not deny tool '" ++ expected_denied_tool ++ "'")%string, h)
    end
  end.

(** @src policies/src/recommended.rs:193-213 [verify_production_guardrails] *)
Definition verify_production_guardrails (options : Slots) (expected_denied_tool : string) (h : Fs) : option (result unit (list string) * Fs) :=
  let state := session_new in
  '(v1, h) ← check_budget options state h;
  '(v2, h) ← check_max_turns options state h;
  '(v3, h) ← check_sandbox options state h;
  '(v4, h) ← check_deny_list options state expected_denied_tool h;
  let violations := omap id [v1; v2; v3; v4] in
  Some (if is_nil violations then Ok tt else Err violations, h).

(** [None]: a panic, of a policy or with the violations.
    @src policies/src/recommended.rs:353-360 [assert_production_guardrails] *)
Definition assert_production_guardrails (options : Slots) (expected_denied_tool : string) (h : Fs) : option Fs :=
  match verify_production_guardrails options expected_denied_tool h with
  | Some (Ok _, h) => Some h
  | _ => None
  end.

(** ** They hold in any company *)

Lemma run_stops (ps : list (PreTurnPolicy (H := Fs))) ctx injections h p :
  p ∈ ps -> (forall h, exists reason h', p ctx h = (Some (VStop reason), h')) ->
  exists reason h', run_policies_inner ps ctx injections h = (VStop reason, h').
Proof using.
  intros Hin Hp. revert injections h. induction ps as [|q ps IH]; intros injections h; [by apply elem_of_nil in Hin|].
  cbn [run_policies_inner]. apply elem_of_cons in Hin as [<-|Hin].
  - destruct (Hp h) as (reason & h' & ->). eauto.
  - destruct (q ctx h) as [[[]|] h']; eauto.
Qed.

Lemma run_dispatch_app (ps qs : list (PreDispatchPolicy (H := Fs))) ctx injections h :
  let r := run_pre_dispatch_inner (ps ++ qs) ctx injections h in
  ends_dispatch (Some (fst (fst r))) = true
  \/ exists args injections' h', r = run_pre_dispatch_inner qs (dc_with_arguments args ctx) injections' h'.
Proof using.
  cbv zeta. revert ctx injections h. induction ps as [|p ps IH]; intros ctx injections h.
  { right. exists (dc_arguments ctx), injections, h. by rewrite dc_with_arguments_id. }
  cbn [app run_pre_dispatch_inner].
  assert (forall args injections h, ends_dispatch (Some (fst (fst (run_pre_dispatch_inner (ps ++ qs) (dc_with_arguments args ctx) injections h)))) = true
    \/ exists args' injections' h', run_pre_dispatch_inner (ps ++ qs) (dc_with_arguments args ctx) injections h
         = run_pre_dispatch_inner qs (dc_with_arguments args' ctx) injections' h') as Hgo.
  { intros args inj h0. exact (IH (dc_with_arguments args ctx) inj h0). }
  destruct (p ctx h) as [[[[| | |]|] args] h']; try apply Hgo; by left.
Qed.

Definition over_limit (r : RecommendedPolicies) (ctx : PolicyContext) : Prop :=
  f64_leb (rp_max_cost r) (c_total (pc_accumulated_cost ctx)) = true
  \/ (exists limit, rp_max_input_tokens r = Some limit /\ (limit <= u_input (pc_accumulated_usage ctx))%N)
  \/ (exists limit, rp_max_output_tokens r = Some limit /\ (limit <= u_output (pc_accumulated_usage ctx))%N)
  \/ rp_max_turns r <= pc_turn_index ctx.

Lemma budget_of_stops r ctx :
  stops (budget_evaluate (budget_of r) ctx) = true <->
  f64_leb (rp_max_cost r) (c_total (pc_accumulated_cost ctx)) = true
  \/ (exists limit, rp_max_input_tokens r = Some limit /\ (limit <= u_input (pc_accumulated_usage ctx))%N)
  \/ (exists limit, rp_max_output_tokens r = Some limit /\ (limit <= u_output (pc_accumulated_usage ctx))%N).
Proof using. rewrite budget_stops_iff. cbn. naive_solver. Qed.

Lemma over_limit_stops r options ctx h :
  over_limit r ctx -> exists reason h', run_policies (map np_policy (sl_pre_turn (apply r options))) ctx h = (VStop reason, h').
Proof using.
  intros Hover. unfold run_policies, apply. cbn [sl_pre_turn with_pre_turn_policy with_pre_dispatch_policy].
  rewrite !map_app. cbn [map np_policy].
  assert (stops (budget_evaluate (budget_of r) ctx) = true \/ rp_max_turns r <= pc_turn_index ctx) as [Hb|Ht].
  { rewrite budget_of_stops. unfold over_limit in Hover. tauto. }
  - apply (run_stops _ _ _ _ (budget_pre_turn (budget_of r))).
    + apply elem_of_app. left. apply elem_of_app. right. by apply list_elem_of_singleton.
    + intros h0. unfold budget_pre_turn. destruct (budget_evaluate (budget_of r) ctx); [done|eauto|done].
  - apply (run_stops _ _ _ _ (max_turns_pre_turn (rp_max_turns r))).
    + apply elem_of_app. right. by apply list_elem_of_singleton.
    + intros h0. unfold max_turns_pre_turn. destruct (Nat.leb_spec (rp_max_turns r) (pc_turn_index ctx)); [eauto|lia].
Qed.

Lemma guarded_dispatch r options ctx h :
  let '(v, args, h') := run_pre_dispatch_policies (map np_policy (sl_pre_dispatch (apply r options))) ctx h in
  ends_dispatch (Some v) = true
  \/ (dc_tool_name ctx ∉ rp_denied_tools r)
     /\ sandbox cwd (sandbox_new (rp_sandbox_root r)) (dc_with_arguments args ctx) h' = (Some DContinue, args, h').
Proof using.
  unfold run_pre_dispatch_policies, apply. cbn [sl_pre_dispatch with_pre_turn_policy with_pre_dispatch_policy].
  rewrite !map_app, <- app_assoc. cbn [map np_policy app].
  match goal with |- context [run_pre_dispatch_inner (?ps ++ ?qs) ctx [] h] =>
    destruct (run_dispatch_app ps qs ctx [] h) as [Hend|(args & inj & h' & ->)] end.
  { destruct (run_pre_dispatch_inner _ _ _ _) as [[v args] h']. by left. }
  cbn [run_pre_dispatch_inner]. unfold sandbox. cbn [dc_arguments dc_execution_root dc_with_arguments].
  assert (forall obj fields, check_fields cwd (sandbox_new (rp_sandbox_root r)) h' obj (dc_execution_root ctx) fields = DContinue
    \/ exists text, check_fields cwd (sandbox_new (rp_sandbox_root r)) h' obj (dc_execution_root ctx) fields = DSkip text) as Hfields.
  { intros obj fields. induction fields as [|f fields IH]; cbn [check_fields]; [by left|].
    destruct (json_get obj f ≫= json_as_str) as [path|]; [|exact IH].
    destruct (validate_path _ _ _ _ _); [exact IH|right; eauto]. }
  set (v := if json_is_object args then _ else _).
  assert (v = DContinue \/ exists text, v = DSkip text) as [Hv|[text Hv]].
  { subst v. destruct (json_is_object args); [apply Hfields|by left]. }
  2: { rewrite Hv. by left. }
  rewrite Hv. unfold deny_list. cbn [dc_tool_name dc_with_arguments dc_arguments].
  case_bool_decide as Hden; [by left|]. destruct inj as [|m inj]; right;
    (split; [intros Hin; apply Hden; by apply elem_of_list_to_set|]; fold v; by rewrite Hv).
Qed.

Definition unnamed {P} (name : string) (slot : list (Named P)) : Prop := Forall (fun p => np_name p <> name) slot.

Lemma find_named_app {P} name (slot more : list (Named P)) : unnamed name slot -> find_named name (slot ++ more) = find_named name more.
Proof using.
  unfold unnamed, find_named. induction slot as [|p slot IH]; [done|]. intros Hn. inversion_clear Hn as [|? ? Hp Hrest].
  cbn [app List.find]. destruct (String.eqb_spec (np_name p) name); [done|]. by apply IH.
Qed.

Definition fresh_slots (options : Slots) : Prop :=
  unnamed BUDGET_NAME (sl_pre_turn options) /\ unnamed MAX_TURNS_NAME (sl_pre_turn options)
  /\ unnamed SANDBOX_NAME (sl_pre_dispatch options) /\ unnamed DENY_LIST_NAME (sl_pre_dispatch options).

(** Some limit that a run can reach. *)
Definition effective_budget (r : RecommendedPolicies) : Prop :=
  f64_leb (rp_max_cost r) f64_max = true \/ is_Some (rp_max_input_tokens r) \/ is_Some (rp_max_output_tokens r).

Lemma check_budget_apply r options state h :
  unnamed BUDGET_NAME (sl_pre_turn options) ->
  (forall limit, rp_max_input_tokens r = Some limit \/ rp_max_output_tokens r = Some limit -> (limit <= u64_max)%N) ->
  exists v, check_budget (apply r options) state h = Some (v, h) /\ (v = None <-> effective_budget r).
Proof using.
  intros Hb Hlim. unfold check_budget, apply. cbn [sl_pre_turn with_pre_turn_policy with_pre_dispatch_policy].
  rewrite <- app_assoc, find_named_app by done. unfold find_named. cbn [app List.find np_name].
  change (String.eqb BUDGET_NAME BUDGET_NAME) with true. cbn [fmap option_fmap option_map np_policy]. unfold budget_pre_turn.
  set (ctx := probe_policy_context _ _ _ _).
  assert (stops (budget_evaluate (budget_of r) ctx) = true <-> effective_budget r) as Heff.
  { rewrite budget_of_stops. subst ctx. cbn [pc_accumulated_cost pc_accumulated_usage probe_policy_context c_total u_input u_output].
    unfold effective_budget. split.
    - intros [?|[(l & -> & _)|(l & -> & _)]]; eauto.
    - intros [?|[[l Hl]|[l Hl]]]; [by left|right; left; exists l; eauto|right; right; exists l; eauto]. }
  destruct (budget_evaluate (budget_of r) ctx); eexists; (split; [reflexivity|]); rewrite <- Heff; cbn; by split.
Qed.

Lemma check_max_turns_apply r options state h :
  unnamed MAX_TURNS_NAME (sl_pre_turn options) -> rp_max_turns r <= usize_max ->
  check_max_turns (apply r options) state h = Some (None, h).
Proof using.
  intros Hm Hturns. unfold check_max_turns, apply. cbn [sl_pre_turn with_pre_turn_policy with_pre_dispatch_policy].
  rewrite <- app_assoc, find_named_app by done. unfold find_named. cbn [app List.find np_name].
  change (String.eqb BUDGET_NAME MAX_TURNS_NAME) with false. change (String.eqb MAX_TURNS_NAME MAX_TURNS_NAME) with true.
  cbn [fmap option_fmap option_map np_policy]. unfold max_turns_pre_turn. cbn [pc_turn_index probe_policy_context].
  by destruct (Nat.leb_spec (rp_max_turns r) usize_max); [|lia].
Qed.

Lemma probe_field key : key ∈ ["path"; "file_path"; "file"] ->
  json_get (dc_arguments (probe_call session_new)) key ≫= json_as_str = Some probe.
Proof using.
  intros Hk. unfold probe_call. cbn [dc_arguments]. rewrite json_get_of_map.
  rewrite !elem_of_cons in Hk. destruct Hk as [->|[->|[->|[]%elem_of_nil]]]; exact (json_as_str_string probe).
Qed.

Lemma check_sandbox_apply r options h :
  unnamed SANDBOX_NAME (sl_pre_dispatch options) ->
  exists v, check_sandbox (apply r options) session_new h = Some (v, h)
    /\ (v = None <-> exists e, validate_path cwd (sandbox_new (rp_sandbox_root r)) h probe None = Err e).
Proof using.
  intros Hs. unfold check_sandbox, apply. cbn [sl_pre_dispatch with_pre_turn_policy with_pre_dispatch_policy].
  rewrite <- app_assoc, find_named_app by done. unfold find_named. cbn [app List.find np_name].
  change (String.eqb SANDBOX_NAME SANDBOX_NAME) with true. cbn [fmap option_fmap option_map np_policy].
  unfold sandbox. change (json_is_object (dc_arguments (probe_call session_new))) with
    (json_is_object (json_of_map (list_to_map (map (fun key => (key, json_string probe)) ["path"; "file_path"; "file"])))).
  rewrite json_of_map_is_object. cbn [sb_path_fields sandbox_new check_fields].
  rewrite !probe_field by (rewrite !elem_of_cons; tauto). change (dc_execution_root (probe_call session_new)) with (@None string).
  change (MkSandboxPolicy (rp_sandbox_root r) ["path"; "file_path"; "file"]) with (sandbox_new (rp_sandbox_root r)).
  destruct (validate_path cwd (sandbox_new (rp_sandbox_root r)) h probe None) as [[]|e]; eexists; (split; [reflexivity|]).
  - by split; [|intros [? ?]].
  - by split; [exists e|].
Qed.

Lemma check_deny_list_apply r options state tool h :
  unnamed DENY_LIST_NAME (sl_pre_dispatch options) ->
  exists v, check_deny_list (apply r options) state tool h = Some (v, h) /\ (v = None <-> tool ∈ rp_denied_tools r).
Proof using.
  intros Hd. unfold check_deny_list, apply. cbn [sl_pre_dispatch with_pre_turn_policy with_pre_dispatch_policy].
  rewrite <- app_assoc, find_named_app by done. unfold find_named. cbn [app List.find np_name].
  change (String.eqb SANDBOX_NAME DENY_LIST_NAME) with false. change (String.eqb DENY_LIST_NAME DENY_LIST_NAME) with true.
  cbn [fmap option_fmap option_map np_policy]. unfold deny_list. cbn [dc_tool_name].
  case_bool_decide as Hden; rewrite elem_of_list_to_set in Hden; eexists; (split; [reflexivity|]); by split.
Qed.

(** C15: the recommended guardrails hold in any company.  Whatever policies were in the
    slots before, and whatever these do to the host or to the arguments: past a limit
    of cost, tokens or turns no turn begins; a denied tool is never run; and a
    call that goes on passed the sandbox with the very arguments it goes on with.  Of
    slots without policies of these names, [verify_production_guardrails] accepts
    exactly those set up with a limit that can be reached, a list that denies the
    given tool and a sandbox that refuses the probe; it does not panic. *)
Theorem guardrails_hold r options :
  (forall ctx h, over_limit r ctx ->
     exists reason h', run_policies (map np_policy (sl_pre_turn (apply r options))) ctx h = (VStop reason, h'))
  /\ (forall ctx h v args h',
     run_pre_dispatch_policies (map np_policy (sl_pre_dispatch (apply r options))) ctx h = (v, args, h') ->
     ends_dispatch (Some v) = true
     \/ (dc_tool_name ctx ∉ rp_denied_tools r)
        /\ sandbox cwd (sandbox_new (rp_sandbox_root r)) (dc_with_arguments args ctx) h' = (Some DContinue, args, h'))
  /\ (forall tool h, fresh_slots options -> rp_max_turns r <= usize_max ->
     (forall limit, rp_max_input_tokens r = Some limit \/ rp_max_output_tokens r = Some limit -> (limit <= u64_max)%N) ->
     exists accepted, verify_production_guardrails (apply r options) tool h = Some (accepted, h)
       /\ (accepted = Ok tt <-> effective_budget r /\ tool ∈ rp_denied_tools r
            /\ exists e, validate_path cwd (sandbox_new (rp_sandbox_root r)) h probe None = Err e)).
Proof using.
  split; [intros ctx h; apply over_limit_stops|]. split.
  - intros ctx h v args h' Hr. pose proof (guarded_dispatch r options ctx h) as Hg. by rewrite Hr in Hg.
  - intros tool h Hfresh Hturns Hlim.
    destruct Hfresh as (Hb & Hm & Hs & Hd).
    destruct (check_budget_apply r options session_new h Hb Hlim) as (v1 & H1 & E1).
    pose proof (check_max_turns_apply r options session_new h Hm Hturns) as H2.
    destruct (check_sandbox_apply r options h Hs) as (v3 & H3 & E3).
    destruct (check_deny_list_apply r options session_new tool h Hd) as (v4 & H4 & E4).
    unfold verify_production_guardrails. rewrite H1. cbn [mbind option_bind]. rewrite H2. cbn [mbind option_bind].
    rewrite H3. cbn [mbind option_bind]. rewrite H4. cbn [mbind option_bind].
    eexists. split; [reflexivity|]. rewrite <- E1, <- E3, <- E4. destruct v1, v3, v4; cbn; naive_solver.
Qed.

End Recommended.

(** ** The default set, beside a policy that rewrites arguments *)
Section Demo.
#[local] Existing Instance Externals.Toy.ext.

(** Sends every call to another file. *)
Definition redirect : PreDispatchPolicy (H := Fs) := fun ctx h => (Some DContinue, json_of_map {["path" := json_string "/etc/passwd"]}, h).

Definition redirected : Slots := MkSlots [] [MkNamed "redirect" redirect].
Definition guarded : RecommendedPolicies := with_sandbox_root builder "/work/safe".

Lemma guardrails_hold_witness :
  exists accepted, verify_production_guardrails 100 (apply [] guarded redirected) "bash" linked = Some (accepted, linked) /\ accepted = Ok tt.
Proof.
  destruct (guardrails_hold [] 100 guarded redirected) as (_ & _ & H).
  destruct (H "bash" linked) as (accepted & Hv & Ha).
  - split_and!; repeat constructor; discriminate.
  - cbn. lia.
  - intros limit [Hl|Hl]; discriminate Hl.
  - exists accepted. split; [exact Hv|]. apply Ha. split; [left; vm_compute; reflexivity|].
    split; [by apply list_elem_of_singleton|]. eexists. vm_compute. reflexivity.
Defined.

End Demo.
End Recommended.
