(* ===== verification/Web.v ===== *)
(** * The web plugin: [plugins/web/src/domain.rs], [tools/fetch.rs], [content.rs], [policy/]

    The filter of hosts with its protection against requests to internal addresses,
    the tool that fetches a page through redirects, and the plugin's policies.  URLs,
    HTML and HTTP are those of third-party crates; names resolve and servers answer
    as they like, at every request anew. *)
From S2P Require Export Guards.
From Stdlib Require Import Ascii Sorted.
Open Scope string_scope.
Open Scope list_scope.

Module Web.
Import Guards.

(** ** Addresses *)

(** [std::net::IpAddr]: the address as a number of 32 or 128 bits. *)
Inductive IpAddr := V4 (ip : N) | V6 (ip : N).

Definition octet (i : nat) (ip : N) : N := (ip / 256 ^ N.of_nat (3 - i)) mod 256.
Definition segment (i : nat) (ip : N) : N := (ip / 65536 ^ N.of_nat (7 - i)) mod 65536.

(** @src plugins/web/src/domain.rs:220-266 [is_private_ipv4] *)
Definition is_private_ipv4 (ip : N) : bool :=
  let a := octet 0 ip in let b := octet 1 ip in let c := octet 2 ip in
  ((a =? 0) || (a =? 127) || (a =? 10)
   || ((a =? 172) && (16 <=? b) && (b <=? 31))
   || ((a =? 192) && (b =? 168))
   || ((a =? 169) && (b =? 254))
   || ((a =? 100) && (64 <=? b) && (b <=? 127))
   || ((a =? 198) && (18 <=? b) && (b <=? 19))
   || ((a =? 192) && (b =? 0) && (c =? 2)) || ((a =? 198) && (b =? 51) && (c =? 100)) || ((a =? 203) && (b =? 0) && (c =? 113))
   || (224 <=? a))%N.

(** [Ipv6Addr::to_ipv4_mapped] *)
Definition to_ipv4_mapped (ip : N) : option N := if (ip / 2 ^ 32 =? 65535)%N then Some (ip mod 2 ^ 32)%N else None.

(** @src plugins/web/src/domain.rs:268-298 [is_private_ipv6] *)
Definition is_private_ipv6 (ip : N) : bool :=
  match to_ipv4_mapped ip with
  | Some mapped => is_private_ipv4 mapped
  | None =>
    ((ip =? 0) || (ip =? 1)
     || (N.land (segment 0 ip) 65024 =? 64512)
     || (N.land (segment 0 ip) 65472 =? 65152)
     || (N.land (segment 0 ip) 65280 =? 65280)
     || ((segment 0 ip =? 8193) && (segment 1 ip =? 3512)))%N
  end.

(** @src plugins/web/src/domain.rs:213-218 [is_private_ip] *)
Definition is_private_ip (ip : IpAddr) : bool := match ip with V4 ip => is_private_ipv4 ip | V6 ip => is_private_ipv6 ip end.

(** ** The data *)

(** [std::net::SocketAddr] *)
Abbreviation SocketAddr := (IpAddr * N)%type.

(** [url::Host] *)
Inductive Host := HostDomain (domain : string) | HostIpv4 (ip : N) | HostIpv6 (ip : N).

(** The crate [url]. *)
Class UrlCrate := {
  Url : Type;
  url_parse : string -> result Url string;
  url_scheme : Url -> string;
  url_host : Url -> option Host;
  url_host_str : Url -> option string;
  url_port_or_known_default : Url -> option N;
  url_join : Url -> string -> result Url string;
  url_text : Url -> string;
}.

(** @src plugins/web/src/domain.rs:7-22 [DomainFilterError] *)
Inductive DomainFilterError :=
| InvalidScheme (scheme : string)
| DeniedDomain (host : string)
| NotAllowlisted (host : string)
| PrivateIp (ip : string)
| InvalidUrl (text : string)
| DnsError (domain text : string).

(** @src plugins/web/src/domain.rs:7-22 [DomainFilterError] *)
Definition filter_error_text (e : DomainFilterError) : string :=
  match e with
  | InvalidScheme s => "URL scheme '" ++ s ++ "' is not allowed; only http and https are permitted"
  | DeniedDomain d => "Domain '" ++ d ++ "' is on the deny list"
  | NotAllowlisted d => "Domain '" ++ d ++ "' is not on the allow list"
  | PrivateIp a => "Address " ++ a ++ " is a private/internal IP and is blocked"
  | InvalidUrl t => "Failed to parse URL: " ++ t
  | DnsError d t => "DNS resolution failed for '" ++ d ++ "': " ++ t
  end%string.

(** @src plugins/web/src/domain.rs:25-31 [DomainFilter] *)
Record DomainFilter := MkDomainFilter { df_allowlist : list string; df_denylist : list string; df_block_private_ips : bool }.

(** @src plugins/web/src/domain.rs:42-48 [DomainFilter::blocking_private_ips] *)
Definition blocking_private_ips : DomainFilter := MkDomainFilter [] [] true.

(** @src plugins/web/src/domain.rs:33-37 [ResolvedHost] *)
Record ResolvedHost := MkResolvedHost { rh_host : string; rh_addr : SocketAddr }.

(** The crate [scraper]. *)
Class Scraper := {
  Html : Type;
  ElementRef : Type;
  parse_document : string -> Html;
  select : Html -> string -> list ElementRef;
  select_in : ElementRef -> string -> list ElementRef;
  element_texts : ElementRef -> list string;
}.
(** @src plugins/web/src/content.rs:16-24 [FetchedContent] *)
Record FetchedContent := MkFetchedContent { fc_url : string; fc_title : option string; fc_text : string; fc_text_length : nat }.

(** @src plugins/web/src/tools/fetch.rs:15-15 [MAX_RESPONSE_BODY_BYTES] *)
Definition MAX_RESPONSE_BODY_BYTES : N := 10485760.

(** What comes of the body: pieces, a failure, or the cancellation of the call. *)
Inductive BodyEvent := Chunk (bytes : string) | BodyFailed (text : string) | BodyCancelled.

(** [reqwest::Response]: its location, if it is text, its content type, and its body. *)
Record Response := MkResponse { rs_status : N; rs_location : option string; rs_content_type : string; rs_body : list BodyEvent }.

Inductive Sending := Answers (response : Response) | SendFails (text : string) | SendCancelled.

Record Request `{U : UrlCrate} := MkRequest { rq_url : Url; rq_pin : option ResolvedHost }.
Arguments MkRequest {U}.


(** @src plugins/web/src/tools/fetch.rs:22-31 [FetchTool] *)
Record FetchTool {R : Type} := MkFetchTool {
  ft_max_content_length : nat;
  ft_domain_filter : option DomainFilter;
  ft_max_redirects : nat;
  ft_sanitizer : option (list R);
}.

Arguments FetchTool : clear implicits.
Arguments MkFetchTool {R}.

(** ** Names of hosts *)

Section Filter.
(** [str::trim], which drops Unicode white space. *)
Context (trim : string -> string).

Fixpoint trim_end_dots (s : string) : string :=
  match s with
  | EmptyString => EmptyString
  | String a rest =>
    let rest := trim_end_dots rest in
    if (str_is_empty rest && Ascii.eqb a ".")%bool then EmptyString else String a rest
  end.

(** @src plugins/web/src/domain.rs:201-203 [normalize_domain] *)
Definition normalize_domain (value : string) : string := string_map ascii_lower (trim_end_dots (trim value)).

(** [str::ends_with] *)
Definition has_suffix (s suffix : string) : bool :=
  (String.length suffix <=? String.length s)%nat && String.eqb (str_drop (String.length s - String.length suffix) s) suffix.

(** @src plugins/web/src/domain.rs:205-209 [is_subdomain_of] *)
Definition is_subdomain_of (host suffix : string) : bool :=
  (String.length suffix <? String.length host)%nat && has_suffix host suffix
  && match String.get (String.length host - String.length suffix - 1) host with Some a => Ascii.eqb a "." | None => false end.

Definition strip_wildcard (entry : string) : option string :=
  if starts_with "*." entry then Some (str_drop 2 entry) else None.

(** @src plugins/web/src/domain.rs:187-199 [host_matches_entry] *)
Definition host_matches_entry (host entry : string) : bool :=
  let host := normalize_domain host in
  let entry := normalize_domain entry in
  if (str_is_empty host || str_is_empty entry)%bool then false
  else match strip_wildcard entry with
       | Some suffix => negb (str_is_empty suffix) && is_subdomain_of host suffix
       | None => String.eqb host entry || is_subdomain_of host entry
       end.

(** @src plugins/web/src/domain.rs:181-185 [host_matches_any] *)
Definition host_matches_any (entries : list string) (host : string) : bool := existsb (host_matches_entry host) entries.

(** ** The filter *)

Context `{U : UrlCrate}.
(** [Display] of addresses, and of what [getaddrinfo] and the thread pool report. *)
Context (ip_text : IpAddr -> string).

(** @src plugins/web/src/domain.rs:77-125 [DomainFilter::check_without_dns] *)
Definition check_without_dns (f : DomainFilter) (url : Url) : result (option (string * N)) DomainFilterError :=
  let scheme := url_scheme url in
  if negb (String.eqb scheme "http" || String.eqb scheme "https") then Err (InvalidScheme scheme)
  else
    match url_host_str url with
    | None => Err (InvalidUrl "URL has no host")
    | Some host =>
      if (negb (is_nil (df_allowlist f)) && negb (host_matches_any (df_allowlist f) host))%bool then Err (NotAllowlisted host)
      else if host_matches_any (df_denylist f) host then Err (DeniedDomain host)
      else if negb (df_block_private_ips f) then Ok None
      else
        match url_host url with
        | Some (HostIpv4 ip) => if is_private_ip (V4 ip) then Err (PrivateIp (ip_text (V4 ip))) else Ok None
        | Some (HostIpv6 ip) => if is_private_ip (V6 ip) then Err (PrivateIp (ip_text (V6 ip))) else Ok None
        | Some (HostDomain domain) => Ok (Some (domain, default 80%N (url_port_or_known_default url)))
        | None => Err (InvalidUrl "URL has no host")
        end
    end.

(** @src plugins/web/src/domain.rs:164-179 [first_public_addr] *)
Definition first_public_addr (domain : string) (addrs : result (list SocketAddr) string) : result ResolvedHost DomainFilterError :=
  match addrs with
  | Err e => Err (DnsError domain e)
  | Ok addrs =>
    match List.find (fun addr => is_private_ip (fst addr)) addrs with
    | Some private => Err (PrivateIp (ip_text (fst private)))
    | None => match addrs with [] => Err (DnsError domain "no addresses found") | addr :: _ => Ok (MkResolvedHost domain addr) end
    end
  end.

(** ** The network *)

Context {W : Type}.
(** A lookup of a name; the outer error is one of the thread pool. *)
Context (resolve : string -> N -> W -> result (result (list SocketAddr) string) string * W).

(** The blocking check; [getaddrinfo] does not panic.
    @src plugins/web/src/domain.rs:63-69 [DomainFilter::is_allowed] *)
Definition is_allowed (f : DomainFilter) (url : Url) (w : W) : result unit DomainFilterError * W :=
  match check_without_dns f url with
  | Err e => (Err e, w)
  | Ok None => (Ok tt, w)
  | Ok (Some (domain, port)) =>
    let '(addrs, w) := resolve domain port w in
    (match addrs with
     | Err e => Err (DnsError domain e)
     | Ok addrs => _ <-? first_public_addr domain addrs ;; Ok tt
     end, w)
  end.

(** @src plugins/web/src/domain.rs:139-155 [DomainFilter::validate_and_resolve_with] *)
Definition validate_and_resolve (f : DomainFilter) (url : Url) (w : W) : result (option ResolvedHost) DomainFilterError * W :=
  match check_without_dns f url with
  | Err e => (Err e, w)
  | Ok None => (Ok None, w)
  | Ok (Some (domain, port)) =>
    let '(addrs, w) := resolve domain port w in
    (match addrs with
     | Err e => Err (DnsError domain e)
     | Ok addrs => host <-? first_public_addr domain addrs ;; Ok (Some host)
     end, w)
  end.

End Filter.
(** ** The text of a page *)

Section Content.
Context `{Sc : Scraper} (split_whitespace : string -> list string).

(** The characters of a string; and its part from, or up to, the [n]-th of them.
    @src src/util.rs:5-14 [prefix_chars] *)
Definition prefix_chars (s : string) (max_chars : nat) : string :=
  match max_chars with
  | 0 => ""
  | _ => match nth_char max_chars 0 s with Some idx => str_take idx s | None => s end
  end.

(** @src src/util.rs:18-34 [suffix_chars] *)
Definition suffix_chars (s : string) (max_chars : nat) : string :=
  match max_chars with
  | 0 => ""
  | _ =>
    let total_chars := char_count s in
    if (total_chars <=? max_chars)%nat then s
    else str_drop (default 0 (nth_char (total_chars - max_chars) 0 s)) s
  end.

(** @src plugins/web/src/content.rs:113-115 [normalize_text] *)
Definition normalize_text (text : string) : string := join " " (split_whitespace text).

(** @src plugins/web/src/content.rs:109-111 [element_text] *)
Definition element_text (element : ElementRef) : string := normalize_text (join " " (element_texts element)).

(** @src plugins/web/src/content.rs:60-67 [extract_title] *)
Definition extract_title (document : Html) : option string :=
  match select document "title" with
  | [] => None
  | element :: _ => let title := element_text element in if str_is_empty title then None else Some title
  end.

(** @src plugins/web/src/content.rs:92-107 [collect_block_text] *)
Definition collect_block_text (root : ElementRef) (block_selector : string) : string :=
  match List.filter (fun text => negb (str_is_empty text)) (map element_text (select_in root block_selector)) with
  | [] => element_text root
  | blocks => join (String LF (String LF "")) blocks
  end.

(** The first of the longest.
    @src plugins/web/src/content.rs:78-89 [extract_main_text, for] *)
Definition longest_text (texts : list string) : option string :=
  match fst (foldl (fun '(best, best_score) text =>
               let score := char_count text in
               if (best_score <? score)%nat then (Some text, score) else (best, best_score)) (None, 0) texts) with
  | Some text => if str_is_empty text then None else Some text
  | None => None
  end.

(** @src plugins/web/src/content.rs:69-90 [extract_main_text] *)
Definition extract_main_text (document : Html) : option string :=
  longest_text
    (map (fun candidate => collect_block_text candidate "h1, h2, h3, h4, h5, h6, p, li, blockquote, pre")
       (select document "article, main, [role='main'], .article, .post, .entry-content, .content, section, body")).

(** @src plugins/web/src/content.rs:45-58 [extract_readable_content] *)
Definition extract_readable_content (html url : string) : result FetchedContent string :=
  let document := parse_document (from_utf8_lossy html) in
  let title := extract_title document in
  match extract_main_text document with
  | None => Err "content extraction failed: no readable text blocks found"
  | Some text => Ok (MkFetchedContent url title text (char_count text))
  end.

(** @src plugins/web/src/content.rs:122-145 [truncate_content] *)
Definition truncate_content (text : string) (max_len : nat) : string * bool :=
  let original_len := char_count text in
  if (original_len <=? max_len)%nat then (text, false)
  else
    let head_len := (max_len * 80 / 100)%nat in
    let tail_len := (max_len * 20 / 100)%nat in
    let lf2 := String LF (String LF "") in
    let notice := (lf2 ++ "[... content truncated (" ++ pretty original_len ++ " chars total, showing first "
                   ++ pretty head_len ++ " and last " ++ pretty tail_len ++ ") ...]" ++ lf2)%string in
    ((prefix_chars text head_len ++ notice ++ suffix_chars text tail_len)%string, true).

(** @src plugins/web/src/content.rs:148-150 [is_html_content_type] *)
Definition is_html_content_type (content_type : string) : bool :=
  contains content_type "text/html" || contains content_type "application/xhtml".

End Content.

(** ** The sanitizer *)

Section Sanitizer.
Context `{E : Ext} `{R : RegexEngine}.

(** Patterns that do not compile are left out.
    @src plugins/web/src/policy/sanitizer.rs:23-39 [ContentSanitizerPolicy::new] *)
Definition sanitizer_new : list Regex :=
  omap (fun p => match regex_new p with Ok r => Some r | Err _ => None end)
    ["(?i)ignore\s+(all\s+)?previous\s+instructions"; "(?i)you\s+are\s+now\s+"; "(?im)^system:\s*"; "(?i)IMPORTANT:\s*ignore";
     "(?i)disregard\s+(all\s+)?(previous|above)"; "(?i)forget\s+(all\s+)?(previous|prior|above)\s+(instructions|context)";
     "(?i)new\s+instructions?:\s*"; "(?i)override\s+(all\s+)?previous"].

(** @src plugins/web/src/policy/sanitizer.rs:45-55 [ContentSanitizerPolicy::sanitize_text] *)
Definition sanitize_text (patterns : list Regex) (text : string) : option string :=
  let '(result, modified) :=
    foldl (fun '(result, modified) pattern =>
             if is_match pattern result then (replace_all pattern result "[FILTERED]", true) else (result, modified)) (text, false) patterns in
  if modified then Some result else None.

(** @src plugins/web/src/tools/mod.rs:44-63 [sanitize_web_tool_text] *)
Definition sanitize_web_tool_text (text : string) (sanitizer : option (list Regex)) : string :=
  match sanitizer with
  | None => text
  | Some patterns => default text (sanitize_text patterns text)
  end.

(** It only warns.
    @src plugins/web/src/policy/sanitizer.rs:69-107 [ContentSanitizerPolicy::evaluate] *)
Definition sanitizer_policy {H} (patterns : list Regex) : PostTurnPolicy (H := H) := fun _ _ h => (Some VContinue, h).

End Sanitizer.

(** ** Fetching *)

Section Fetch.
Context `{E : Ext} `{R : RegexEngine} `{U : UrlCrate} `{Sc : Scraper}.
Context (trim : string -> string) (split_whitespace : string -> list string) (ip_text : IpAddr -> string).
Context {W : Type} (resolve : string -> N -> W -> result (result (list SocketAddr) string) string * W).

(** The client is built for one host whose address is pinned, or for any; it sends a
    request and follows no redirect.  [build_client]: what goes wrong in building it. *)
Context (build_client : ResolvedHost -> option string) (send : Url -> option ResolvedHost -> W -> Sending * W)
  (canonical_reason : N -> option string).

(** @src plugins/web/src/tools/fetch.rs:42-63 [FetchTool::new] *)
Definition fetch_new (max_content_length : nat) : FetchTool Regex :=
  MkFetchTool max_content_length (Some blocking_private_ips) 10 (Some sanitizer_new).

(** @src plugins/web/src/tools/fetch.rs:95-99 [FetchTool::with_domain_filter] *)
Definition with_domain_filter (t : FetchTool Regex) (filter : DomainFilter) (max_redirects : nat) : FetchTool Regex :=
  MkFetchTool (ft_max_content_length t) (Some filter) max_redirects (ft_sanitizer t).

(** @src plugins/web/src/tools/fetch.rs:103-106 [FetchTool::with_sanitizer_enabled] *)
Definition with_sanitizer_enabled (t : FetchTool Regex) (enabled : bool) : FetchTool Regex :=
  MkFetchTool (ft_max_content_length t) (ft_domain_filter t) (ft_max_redirects t) (if enabled then Some sanitizer_new else None).

(** @src plugins/web/src/tools/fetch.rs:197-210 [FetchTool::validate_url_for_fetch] *)
Definition validate_url_for_fetch (t : FetchTool Regex) (url : Url) (phase : string) (w : W) : result (option ResolvedHost) string * W :=
  match ft_domain_filter t with
  | None => (Ok None, w)
  | Some filter =>
    let '(r, w) := validate_and_resolve trim ip_text resolve filter url w in
    (match r with
     | Ok host => Ok host
     | Err error => Err (phase ++ " URL blocked by domain filter: " ++ filter_error_text error)%string
     end, w)
  end.

(** @src plugins/web/src/tools/fetch.rs:212-231 [FetchTool::client_for_request] *)
Definition client_for_request (resolved_host : option ResolvedHost) : result (option ResolvedHost) string :=
  match resolved_host with
  | None => Ok None
  | Some host => match build_client host with None => Ok (Some host) | Some error => Err ("Failed to build pinned HTTP client: " ++ error)%string end
  end.

Definition is_redirection (status : N) : bool := ((300 <=? status) && (status <? 400))%N.

(** The requests in order, and the answer to the last.
    @src plugins/web/src/tools/fetch.rs:147-194 [FetchTool::send_get_following_checked_redirects, for (brace)] *)
Fixpoint follow (rounds : nat) (t : FetchTool Regex) (phase : string) (current_url : Url) (w : W) : list Request * result (Response * Url) string * W :=
  match rounds with
  | 0 => ([], Err ("Too many redirects while fetching URL; limit is " ++ pretty (ft_max_redirects t))%string, w)
  | S more =>
    match validate_url_for_fetch t current_url phase w with
    | (Err error, w) => ([], Err error, w)
    | (Ok resolved_host, w) =>
      match client_for_request resolved_host with
      | Err error => ([], Err error, w)
      | Ok pin =>
        let request := MkRequest current_url pin in
        match send current_url pin w with
        | (SendFails e, w) => ([request], Err ("HTTP request failed: " ++ e)%string, w)
        | (SendCancelled, w) => ([request], Err "Request cancelled", w)
        | (Answers response, w) =>
          if negb (is_redirection (rs_status response)) then ([request], Ok (response, current_url), w)
          else
            match rs_location response with
            | None => ([request], Err ("Redirect response from " ++ url_text current_url ++ " did not include a valid Location header")%string, w)
            | Some location =>
              match url_join current_url location with
              | Err error => ([request], Err ("Invalid redirect Location '" ++ location ++ "': " ++ error)%string, w)
              | Ok next_url =>
                let '(requests, r, w) := follow more t "Redirect" next_url w in
                (request :: requests, r, w)
              end
            end
        end
      end
    end
  end.

(** @src plugins/web/src/tools/fetch.rs:140-195 [FetchTool::send_get_following_checked_redirects] *)
Definition send_get_following_checked_redirects (t : FetchTool Regex) (initial_url : Url) (w : W) : list Request * result (Response * Url) string * W :=
  follow (S (ft_max_redirects t)) t "Initial" initial_url w.

(** @src plugins/web/src/tools/fetch.rs:108-138 [FetchTool::read_body_with_cap] *)
Fixpoint read_body_with_cap (body : string) (events : list BodyEvent) (max_bytes : N) : result string string :=
  match events with
  | [] => Ok body
  | BodyFailed error :: _ => Err ("Failed to read response body: " ++ error)%string
  | BodyCancelled :: _ => Err "Request cancelled"
  | Chunk chunk :: events =>
    if (max_bytes <? N.of_nat (String.length body) + N.of_nat (String.length chunk))%N
    then Err ("Response body exceeded internal safety limit of " ++ pretty max_bytes ++ " bytes before readability extraction.")%string
    else read_body_with_cap (body ++ chunk) events max_bytes
  end.

(** What becomes of an answer.
    @src plugins/web/src/tools/fetch.rs:307-411 [FetchTool::execute] *)
Definition page_result (t : FetchTool Regex) (response : Response) (final_url : Url) : AgentToolResult :=
  let status := rs_status response in
  if negb ((200 <=? status) && (status <? 300))%N
  then tool_error ("HTTP " ++ pretty status ++ ": " ++ default "Unknown error" (canonical_reason status))%string
  else if negb (is_html_content_type (rs_content_type response))
  then tool_text ("This URL points to a " ++ rs_content_type response ++ " resource. Only HTML pages can be fetched and extracted.")%string
  else
    match read_body_with_cap "" (rs_body response) MAX_RESPONSE_BODY_BYTES with
    | Err error => tool_error error
    | Ok bytes =>
      match extract_readable_content split_whitespace bytes (url_text final_url) with
      | Err e => tool_error ("Content extraction failed: " ++ e)%string
      | Ok fetched =>
        let '(text, _) := truncate_content (fc_text fetched) (ft_max_content_length t) in
        let output := match fc_title fetched with
                      | Some title => ("# " ++ title ++ String LF (String LF "") ++ text)%string
                      | None => text
                      end in
        tool_text (sanitize_web_tool_text output (ft_sanitizer t))
      end
    end.

(** @src plugins/web/src/tools/fetch.rs:255-413 [FetchTool::execute] *)
Definition fetch (t : FetchTool Regex) (params : Value) (w : W) : list Request * AgentToolResult * W :=
  match json_get params "url" ≫= json_as_str with
  | None => ([], tool_error "Missing required parameter: url", w)
  | Some url_str =>
    match url_parse url_str with
    | Err e => ([], tool_error ("Invalid URL: " ++ e)%string, w)
    | Ok parsed_url =>
      let scheme := url_scheme parsed_url in
      if negb (String.eqb scheme "http" || String.eqb scheme "https")
      then ([], tool_error ("Unsupported URL scheme '" ++ scheme ++ "'. Only http:// and https:// are supported.")%string, w)
      else
        let '(requests, r, w) := send_get_following_checked_redirects t parsed_url w in
        (requests, match r with Err error => tool_error error | Ok (response, final_url) => page_result t response final_url end, w)
    end
  end.

End Fetch.

(** ** The plugin's policies *)

Section Policies.
Context `{E : Ext} `{U : UrlCrate} (trim : string -> string) (ip_text : IpAddr -> string).

(** @src plugins/web/src/policy/domain_filter.rs:24-52 [DomainFilterPolicy::evaluate] *)
Definition domain_filter_policy {H} (filter : DomainFilter) : PreDispatchPolicy (H := H) := fun ctx h =>
  (Some (if negb (starts_with "web_" (dc_tool_name ctx)) then DContinue
         else match json_get (dc_arguments ctx) "url" ≫= json_as_str with
              | None => DContinue
              | Some url_str =>
                match url_parse url_str with
                | Err e => DSkip ("Invalid URL '" ++ url_str ++ "': " ++ e)%string
                | Ok parsed =>
                  match check_without_dns trim ip_text filter parsed with
                  | Ok _ => DContinue
                  | Err e => DSkip (filter_error_text e)
                  end
                end
              end), dc_arguments ctx, h).

(** In nanoseconds.
    @src plugins/web/src/policy/rate_limiter.rs:18-18 [RateLimitPolicy::WINDOW] *)
Definition WINDOW : N := 60000000000.

(** The instants that have left the window are dropped from the front.
    @src plugins/web/src/policy/rate_limiter.rs:32-37 [RateLimitPolicy::prune_expired, while] *)
Fixpoint drop_before (cutoff : N) (timestamps : list N) : list N :=
  match timestamps with
  | t :: rest => if (t <? cutoff)%N then drop_before cutoff rest else timestamps
  | [] => []
  end.

(** @src plugins/web/src/policy/rate_limiter.rs:27-38 [RateLimitPolicy::prune_expired] *)
Definition prune_expired (timestamps : list N) (now window : N) : list N :=
  if (now <? window)%N then timestamps else drop_before (now - window) timestamps.

(** The state is the clock and the instants of the calls that were let through.
    @src plugins/web/src/policy/rate_limiter.rs:46-68 [RateLimitPolicy::evaluate] *)
Definition rate_limit_policy (rate_limit_rpm : nat) : PreDispatchPolicy (H := N * list N) := fun ctx '(now, timestamps) =>
  if negb (starts_with "web_" (dc_tool_name ctx)) then (Some DContinue, dc_arguments ctx, (now, timestamps))
  else
    let timestamps := prune_expired timestamps now WINDOW in
    if (rate_limit_rpm <=? length timestamps)%nat
    then (Some (DSkip ("Rate limit exceeded: " ++ pretty rate_limit_rpm ++ " requests per minute")%string), dc_arguments ctx, (now, timestamps))
    else (Some DContinue, dc_arguments ctx, (now, timestamps ++ [now])).

End Policies.

(** ** What the filter promises *)

(** A block of addresses: the bits its members share, and how many are left. *)
Definition in_block (ip : N) (block : N * N) : bool := (ip / 2 ^ block.2 =? block.1)%N.

(** 0/8, 10/8, 127/8, 172.16/12, 192.168/16, 169.254/16, 100.64/10, 198.18/15, the
    three networks for documentation, 224/4 and 240/4. *)
Definition INTERNAL_V4 : list (N * N) :=
  [(0, 24); (10, 24); (127, 24); (172 * 16 + 1, 20); (192 * 256 + 168, 16); (169 * 256 + 254, 16); (100 * 4 + 1, 22); (198 * 128 + 9, 17);
   (192 * 65536 + 2, 8); ((198 * 256 + 51) * 256 + 100, 8); (203 * 65536 + 113, 8); (14, 28); (15, 28)]%N.

(** ::/128, ::1/128, fc00::/7, fe80::/10, ff00::/8, 2001:db8::/32. *)
Definition INTERNAL_V6 : list (N * N) := [(0, 0); (1, 0); (126, 121); (1018, 118); (255, 120); (536939960, 96)]%N.

Definition internal (ip : IpAddr) : bool :=
  match ip with
  | V4 ip => existsb (in_block ip) INTERNAL_V4
  | V6 ip => if in_block ip (65535, 32)%N then existsb (in_block (ip mod 2 ^ 32)) INTERNAL_V4 else existsb (in_block ip) INTERNAL_V6
  end.

Definition well_formed (ip : IpAddr) : Prop := match ip with V4 ip => (ip < 2 ^ 32)%N | V6 ip => (ip < 2 ^ 128)%N end.

Lemma v4_octets ip : (ip < 2 ^ 32)%N ->
  exists a b c d, (ip = ((a * 256 + b) * 256 + c) * 256 + d /\ a < 256 /\ b < 256 /\ c < 256 /\ d < 256)%N
  /\ octet 0 ip = a /\ octet 1 ip = b /\ octet 2 ip = c.
Proof.
  intros Hip. exists (ip / 2 ^ 24)%N, (ip / 2 ^ 16 mod 256)%N, (ip / 2 ^ 8 mod 256)%N, (ip mod 256)%N.
  unfold octet. change (256 ^ N.of_nat (3 - 0))%N with (2 ^ 24)%N. change (256 ^ N.of_nat (3 - 1))%N with (2 ^ 16)%N.
  change (256 ^ N.of_nat (3 - 2))%N with (2 ^ 8)%N.
  assert (E8 : (ip / 2 ^ 16 = ip / 2 ^ 8 / 256 /\ ip / 2 ^ 24 = ip / 2 ^ 16 / 256)%N) by (rewrite !N.Div0.div_div; done).
  pose proof (N.div_mod (ip / 2 ^ 16) 256). pose proof (N.div_mod (ip / 2 ^ 8) 256). pose proof (N.div_mod ip 256).
  pose proof (N.mod_lt (ip / 2 ^ 16) 256). pose proof (N.mod_lt (ip / 2 ^ 8) 256). pose proof (N.mod_lt ip 256).
  assert (ip / 2 ^ 24 < 256)%N by (apply N.Div0.div_lt_upper_bound; lia).
  change (2 ^ 8)%N with 256%N in *. rewrite (N.mod_small (ip / 2 ^ 24)) by lia. repeat split; lia.
Qed.

Ltac in_one_block :=
  unfold in_block; cbn [fst snd];
  repeat match goal with |- context [N.pow ?x ?y] => let v := eval vm_compute in (N.pow x y) in change (N.pow x y) with v end;
  apply Bool.eq_true_iff_eq; rewrite ?Bool.andb_true_iff, ?Bool.orb_true_iff, ?N.eqb_eq, ?N.leb_le;
  zify; Z.to_euclidean_division_equations; lia.

Lemma private_ipv4_blocks ip : (ip < 2 ^ 32)%N -> is_private_ipv4 ip = existsb (in_block ip) INTERNAL_V4.
Proof.
  intros Hip. destruct (v4_octets ip Hip) as (a & b & c & d & (-> & Ha & Hb & Hc & Hd) & E0 & E1 & E2).
  unfold is_private_ipv4. rewrite E0, E1, E2. clear E0 E1 E2 Hip. set (ip := (((a * 256 + b) * 256 + c) * 256 + d)%N).
  assert (B1 : (a =? 0)%N = in_block ip (0, 24)%N) by (subst ip; in_one_block).
  assert (B2 : (a =? 127)%N = in_block ip (127, 24)%N) by (subst ip; in_one_block).
  assert (B3 : (a =? 10)%N = in_block ip (10, 24)%N) by (subst ip; in_one_block).
  assert (B4 : ((a =? 172) && (16 <=? b) && (b <=? 31))%N = in_block ip (172 * 16 + 1, 20)%N) by (subst ip; in_one_block).
  assert (B5 : ((a =? 192) && (b =? 168))%N = in_block ip (192 * 256 + 168, 16)%N) by (subst ip; in_one_block).
  assert (B6 : ((a =? 169) && (b =? 254))%N = in_block ip (169 * 256 + 254, 16)%N) by (subst ip; in_one_block).
  assert (B7 : ((a =? 100) && (64 <=? b) && (b <=? 127))%N = in_block ip (100 * 4 + 1, 22)%N) by (subst ip; in_one_block).
  assert (B8 : ((a =? 198) && (18 <=? b) && (b <=? 19))%N = in_block ip (198 * 128 + 9, 17)%N) by (subst ip; in_one_block).
  assert (B9 : ((a =? 192) && (b =? 0) && (c =? 2))%N = in_block ip (192 * 65536 + 2, 8)%N) by (subst ip; in_one_block).
  assert (B10 : ((a =? 198) && (b =? 51) && (c =? 100))%N = in_block ip ((198 * 256 + 51) * 256 + 100, 8)%N) by (subst ip; in_one_block).
  assert (B11 : ((a =? 203) && (b =? 0) && (c =? 113))%N = in_block ip (203 * 65536 + 113, 8)%N) by (subst ip; in_one_block).
  assert (B12 : (224 <=? a)%N = in_block ip (14, 28)%N || in_block ip (15, 28)%N) by (subst ip; in_one_block).
  rewrite B1, B2, B3, B4, B5, B6, B7, B8, B9, B10, B11, B12. unfold INTERNAL_V4. cbn [existsb].
  repeat match goal with |- context [in_block ip ?x] => destruct (in_block ip x) end; reflexivity.
Qed.

(** A mask that keeps the high bits of a segment. *)
Lemma mask_prefix k s c : (s < 2 ^ 16)%N -> (N.land s (N.lnot (N.ones k) 16) =? c * 2 ^ k)%N = (s / 2 ^ k =? c)%N.
Proof.
  intros Hs. rewrite <- N.ldiff_land_low.
  2:{ destruct (N.eq_dec s 0%N) as [-> | Hn]; [reflexivity | apply N.log2_lt_pow2; lia]. }
  rewrite N.ldiff_ones_r, N.shiftl_mul_pow2, N.shiftr_div_pow2. apply Bool.eq_true_iff_eq. rewrite !N.eqb_eq.
  pose proof (N.pow_nonzero 2 k ltac:(lia)). nia.
Qed.

Lemma first_segment ip : (ip < 2 ^ 128)%N -> segment 0 ip = (ip / 2 ^ 112)%N /\ (ip / 2 ^ 112 < 2 ^ 16)%N.
Proof.
  intros Hip. unfold segment. change (65536 ^ N.of_nat (7 - 0))%N with (2 ^ 112)%N.
  assert (ip / 2 ^ 112 < 2 ^ 16)%N by (apply N.Div0.div_lt_upper_bound; exact Hip).
  split; [apply N.mod_small |]; assumption.
Qed.

Lemma two_segments ip : (ip < 2 ^ 128)%N ->
  ((segment 0 ip =? 8193) && (segment 1 ip =? 3512))%N = in_block ip (536939960, 96)%N.
Proof.
  intros Hip. destruct (first_segment ip Hip) as [E _]. rewrite E. unfold segment, in_block. cbn [fst snd].
  change (65536 ^ N.of_nat (7 - 1))%N with (2 ^ 96)%N. change (2 ^ 112)%N with (2 ^ 96 * 2 ^ 16)%N.
  rewrite <- N.Div0.div_div. generalize (ip / 2 ^ 96)%N as q. intros q. change (2 ^ 16)%N with 65536%N.
  apply Bool.eq_true_iff_eq. rewrite Bool.andb_true_iff, !N.eqb_eq. zify; Z.to_euclidean_division_equations; lia.
Qed.

Lemma private_ip_blocks ip : well_formed ip -> is_private_ip ip = internal ip.
Proof.
  destruct ip as [ip | ip]; cbn [well_formed is_private_ip internal]; intros Hip; [exact (private_ipv4_blocks ip Hip) |].
  unfold is_private_ipv6, to_ipv4_mapped, in_block at 1. cbn [fst snd].
  destruct (ip / 2 ^ 32 =? 65535)%N; [apply private_ipv4_blocks, N.mod_lt; discriminate |].
  rewrite (two_segments ip Hip). destruct (first_segment ip Hip) as [E Hs]. rewrite E.
  pose proof (mask_prefix 9 (ip / 2 ^ 112) 126 Hs) as M1. pose proof (mask_prefix 6 (ip / 2 ^ 112) 1018 Hs) as M2.
  pose proof (mask_prefix 8 (ip / 2 ^ 112) 255 Hs) as M3. rewrite N.Div0.div_div in M1, M2, M3.
  rewrite <- N.pow_add_r in M1, M2, M3. 
  change (N.lnot (N.ones 9) 16) with 65024%N in M1. change (126 * 2 ^ 9)%N with 64512%N in M1.
  change (N.lnot (N.ones 6) 16) with 65472%N in M2. change (1018 * 2 ^ 6)%N with 65152%N in M2.
  change (N.lnot (N.ones 8) 16) with 65280%N in M3. change (255 * 2 ^ 8)%N with 65280%N in M3.
  rewrite M1, M2, M3. unfold INTERNAL_V6. cbn [existsb]. unfold in_block at 1 2 3 4 5. cbn [fst snd].
  change (112 + 9)%N with 121%N. change (112 + 6)%N with 118%N. change (112 + 8)%N with 120%N. change (2 ^ 0)%N with 1%N.
  rewrite N.div_1_r. rewrite !Bool.orb_assoc, Bool.orb_false_r. reflexivity.
Qed.

(** ** Which hosts an entry names *)

Lemma starts_with_split p s : starts_with p s = true -> s = (p ++ str_drop (String.length p) s)%string.
Proof.
  revert s. induction p as [| a p IH]; intros [| b s] H; try discriminate; [reflexivity | reflexivity |].
  cbn [starts_with] in H. destruct (Ascii.eqb_spec a b) as [-> | Hn]; [| discriminate].
  cbn [String.length str_drop]. rewrite string_app_cons. f_equal. exact (IH s H).
Qed.

Lemma get_drop n s a : String.get n s = Some a -> str_drop n s = String a (str_drop (S n) s).
Proof.
  revert s. induction n as [| n IH]; intros [| b s] H; try discriminate.
  - injection H as ->. cbn [str_drop]. destruct s; reflexivity.
  - cbn [String.get] in H. cbn [str_drop]. rewrite (IH s H). reflexivity.
Qed.

Lemma get_app_here p a s : String.get (String.length p) (p ++ String a s) = Some a.
Proof. induction p as [| b p IH]; [reflexivity | exact IH]. Qed.

Lemma has_suffix_spec s suffix : has_suffix s suffix = true <-> exists p, s = (p ++ suffix)%string.
Proof.
  unfold has_suffix. rewrite Bool.andb_true_iff, Nat.leb_le, String.eqb_eq. split.
  - intros [Hl E]. exists (str_take (String.length s - String.length suffix) s). rewrite <- E at 2. symmetry. apply str_take_drop.
  - intros [p ->]. rewrite string_app_length. split; [lia |].
    replace (String.length p + String.length suffix - String.length suffix) with (String.length p) by lia.
    rewrite str_drop_app, str_drop_ge, Nat.sub_diag, str_drop_0 by lia. reflexivity.
Qed.

Lemma is_subdomain_spec host suffix : is_subdomain_of host suffix = true <-> exists p, host = (p ++ "." ++ suffix)%string.
Proof.
  unfold is_subdomain_of. rewrite !Bool.andb_true_iff, Nat.ltb_lt. split.
  - intros [[Hl Hs] G]. unfold has_suffix in Hs. rewrite Bool.andb_true_iff, String.eqb_eq in Hs. destruct Hs as [_ Hs].
    destruct (String.get _ _) as [a |] eqn:Hg; [| discriminate]. apply Ascii.eqb_eq in G. subst a. apply get_drop in Hg.
    replace (S (String.length host - String.length suffix - 1)) with (String.length host - String.length suffix) in Hg by lia.
    rewrite Hs in Hg. eexists. rewrite <- (str_take_drop (String.length host - String.length suffix - 1) host) at 1. rewrite Hg. reflexivity.
  - intros [p ->]. rewrite !string_app_length. cbn [String.length]. rewrite has_suffix_spec. repeat split; [lia | exists (p ++ ".")%string; rewrite string_app_assoc; reflexivity |].
    change ("." ++ suffix)%string with (String "." suffix).
    replace (_ - _ - 1) with (String.length p) by (cbn [String.length]; lia). rewrite get_app_here. reflexivity.
Qed.

(** An entry names a host, or with [*.] only what is below it: [HostNamed]. *)
Definition host_named (trim : string -> string) (host entry : string) : Prop :=
  let host := normalize_domain trim host in
  let entry := normalize_domain trim entry in
  host <> "" /\ entry <> ""
  /\ ((exists suffix below, entry = ("*." ++ suffix)%string /\ suffix <> "" /\ host = (below ++ "." ++ suffix)%string)
      \/ starts_with "*." entry = false /\ (host = entry \/ exists below, host = (below ++ "." ++ entry)%string)).

Lemma str_is_empty_spec s : str_is_empty s = true <-> s = "".
Proof. destruct s; split; done. Qed.

Lemma host_matches_entry_spec trim host entry : host_matches_entry trim host entry = true <-> host_named trim host entry.
Proof.
  unfold host_matches_entry, host_named, strip_wildcard. cbn zeta.
  set (h := normalize_domain trim host). set (e := normalize_domain trim entry). clearbody h e.
  destruct (str_is_empty h) eqn:Hh; [apply str_is_empty_spec in Hh; subst; split; [discriminate | intros [? _]; done] |].
  destruct (str_is_empty e) eqn:He; [apply str_is_empty_spec in He; subst; split; [discriminate | intros (_ & ? & _); done] |].
  cbn [orb]. assert (Hh' : h <> "") by (intros ->; discriminate). assert (He' : e <> "") by (intros ->; discriminate).
  destruct (starts_with "*." e) eqn:Hw.
  - pose proof (starts_with_split _ _ Hw) as Ee. change (String.length "*.") with 2 in Ee.
    rewrite Bool.andb_true_iff, Bool.negb_true_iff, is_subdomain_spec. split.
    + intros [Hs [p Hp]]. repeat split; try assumption. left. exists (str_drop 2 e), p. repeat split; try assumption.
      intros E. rewrite E in Hs. discriminate.
    + intros (_ & _ & [(s & b & E & Hs & Hb) | [? _]]); [| discriminate]. subst e. change (str_drop 2 ("*." ++ s)) with s.
      split; [destruct s; done | exists b; exact Hb].
  - rewrite Bool.orb_true_iff, String.eqb_eq, is_subdomain_spec. split.
    + intros H. repeat split; try assumption. right. split; [reflexivity | exact H].
    + intros (_ & _ & [(s & b & E & _) | [_ H]]); [| exact H]. subst e. rewrite starts_with_app in Hw. discriminate.
Qed.

(** ** What the fetch tool promises *)

Section Fetching.
Context `{E : Ext} `{R : RegexEngine} `{U : UrlCrate} `{Sc : Scraper}.
Context (trim : string -> string) (split_whitespace : string -> list string) (ip_text : IpAddr -> string).
Context {W : Type} (resolve : string -> N -> W -> result (result (list SocketAddr) string) string * W).
Context (build_client : ResolvedHost -> option string) (send : Url -> option ResolvedHost -> W -> Sending * W)
  (canonical_reason : N -> option string).

(** The lists of the filter let the host through. *)
Definition listed_as_allowed (f : DomainFilter) (host : string) : Prop :=
  (df_allowlist f = [] \/ exists entry, In entry (df_allowlist f) /\ host_named trim host entry)
  /\ forall entry, In entry (df_denylist f) -> ~ host_named trim host entry.

(** An address is written in the URL and is public, or a lookup gave addresses that are
    all public, and the request is sent right after, pinned to the first of them. *)
Definition reaches_public (rq : Request) : Prop :=
  match url_host (rq_url rq) with
  | Some (HostIpv4 ip) => internal (V4 ip) = false
  | Some (HostIpv6 ip) => internal (V6 ip) = false
  | Some (HostDomain domain) =>
    exists w w' addr others answer,
      resolve domain (default 80%N (url_port_or_known_default (rq_url rq))) w = (Ok (Ok (addr :: others)), w')
      /\ (forall a, In a (addr :: others) -> internal a.1 = false)
      /\ rq_pin rq = Some (MkResolvedHost domain addr) /\ send (rq_url rq) (rq_pin rq) w' = answer
  | None => False
  end.

Definition web_scheme (url : Url) : Prop := url_scheme url = "http" \/ url_scheme url = "https".

Definition cleared (f : DomainFilter) (rq : Request) : Prop :=
  web_scheme (rq_url rq)
  /\ (exists host, url_host_str (rq_url rq) = Some host /\ listed_as_allowed f host)
  /\ (df_block_private_ips f = true -> reaches_public rq).

(** The server of the first request pointed to the second. *)
Definition pointed_to (rq next : Request) : Prop :=
  exists w response w' location, send (rq_url rq) (rq_pin rq) w = (Answers response, w')
    /\ is_redirection (rs_status response) = true /\ rs_location response = Some location
    /\ url_join (rq_url rq) location = Ok (rq_url next).

Definition answered (rq : Request) (response : Response) : Prop :=
  exists w w', send (rq_url rq) (rq_pin rq) w = (Answers response, w') /\ is_redirection (rs_status response) = false.

(** Addresses have 32 or 128 bits. *)
Context (url_addresses : forall url, match url_host url with
                                     | Some (HostIpv4 ip) => (ip < 2 ^ 32)%N
                                     | Some (HostIpv6 ip) => (ip < 2 ^ 128)%N
                                     | _ => True
                                     end).
Context (resolved_addresses : forall domain port w addrs w', resolve domain port w = (Ok (Ok addrs), w') ->
                                                             forall a, In a addrs -> well_formed a.1).

Lemma host_matches_any_spec entries host :
  host_matches_any trim entries host = true <-> exists entry, In entry entries /\ host_named trim host entry.
Proof using.
  unfold host_matches_any. rewrite existsb_exists.
  split; intros (entry & Hi & Hm); exists entry; split; try assumption; apply host_matches_entry_spec; exact Hm.
Qed.

Lemma check_without_dns_spec f url o : check_without_dns trim ip_text f url = Ok o ->
  web_scheme url
  /\ (exists host, url_host_str url = Some host /\ listed_as_allowed f host)
  /\ (df_block_private_ips f = true ->
      match url_host url with
      | Some (HostDomain d) => o = Some (d, default 80%N (url_port_or_known_default url))
      | Some (HostIpv4 ip) => o = None /\ internal (V4 ip) = false
      | Some (HostIpv6 ip) => o = None /\ internal (V6 ip) = false
      | None => False
      end).
Proof using url_addresses.
  pose proof (url_addresses url) as Hwf. unfold check_without_dns, web_scheme.
  destruct (String.eqb_spec (url_scheme url) "http") as [Hs | _]; [| destruct (String.eqb_spec (url_scheme url) "https") as [Hs | _]; [| discriminate]];
    cbn [orb negb]; (destruct (url_host_str url) as [host |]; [| discriminate]);
    destruct (negb (is_nil (df_allowlist f)) && negb (host_matches_any trim (df_allowlist f) host))%bool eqn:Ha; try discriminate;
    destruct (host_matches_any trim (df_denylist f) host) eqn:Hd; try discriminate; intros Ho;
    (split; [auto |]); (split; [exists host; split; [reflexivity |]; split |]).
  all: try (intros entry Hi Hn; assert (X : host_matches_any trim (df_denylist f) host = true)
              by (apply host_matches_any_spec; exists entry; auto); congruence).
  all: try (destruct (df_allowlist f) as [| e l] eqn:Ea; [left; reflexivity | right; rewrite <- Ea in *];
            rewrite Ea in Ha at 1; cbn [is_nil negb andb] in Ha; apply Bool.negb_false_iff in Ha; apply host_matches_any_spec in Ha; exact Ha).
  all: intros Hb; rewrite Hb in Ho; cbn [negb] in Ho; destruct (url_host url) as [[d | ip | ip] |]; try discriminate;
    [injection Ho as <-; reflexivity | |].
  all: rewrite private_ip_blocks in Ho by exact Hwf; destruct (internal _); [discriminate | injection Ho as <-; auto].
Qed.

Lemma first_public_addr_spec domain addrs h : (forall a, In a addrs -> well_formed a.1) ->
  first_public_addr ip_text domain (Ok addrs) = Ok h ->
  exists addr others, addrs = addr :: others /\ (forall a, In a addrs -> internal a.1 = false) /\ h = MkResolvedHost domain addr.
Proof using.
  intros Hwf. unfold first_public_addr. destruct (List.find _ addrs) eqn:Hf; [discriminate |].
  destruct addrs as [| addr others]; [discriminate |]. intros Heq. injection Heq as <-. exists addr, others. repeat split; try reflexivity.
  intros a Hi. rewrite <- private_ip_blocks by exact (Hwf a Hi). exact (find_none _ _ Hf a Hi).
Qed.

Lemma validated_is_cleared t f url phase w pin w' answer :
  ft_domain_filter t = Some f ->
  validate_url_for_fetch trim ip_text resolve t url phase w = (Ok pin, w') -> send url pin w' = answer -> cleared f (MkRequest url pin).
Proof using url_addresses resolved_addresses.
  intros Hf. unfold validate_url_for_fetch. rewrite Hf. unfold validate_and_resolve, cleared, reaches_public. cbn [rq_url rq_pin].
  destruct (check_without_dns trim ip_text f url) as [o | e] eqn:Hc; [| discriminate].
  apply check_without_dns_spec in Hc as (Hs & Hh & Hp). intros Hv Hsend. split; [exact Hs |]. split; [exact Hh |]. intros Hb.
  specialize (Hp Hb). destruct (url_host url) as [[d | ip | ip] |]; [| apply Hp | apply Hp | exact Hp].
  subst o. destruct (resolve d _ w) as [[[addrs | e] | e] w1] eqn:Hr; try discriminate.
  destruct (first_public_addr ip_text d (Ok addrs)) as [h | e] eqn:Hfp; [| discriminate]. injection Hv as <- <-.
  destruct (first_public_addr_spec d addrs h (resolved_addresses _ _ _ _ _ Hr) Hfp) as (addr & others & -> & Hpub & ->).
  exists w, w1, addr, others, answer. auto.
Qed.

(** What a chain of requests from [url] is, and the answer it ends with. *)
Inductive Chain (t : FetchTool Regex) : Url -> list Request -> option (Response * Url) -> Prop :=
| chain_refused url : Chain t url [] None
| chain_failed rq : (forall f, ft_domain_filter t = Some f -> cleared f rq) -> Chain t (rq_url rq) [rq] None
| chain_answered rq response : (forall f, ft_domain_filter t = Some f -> cleared f rq) -> answered rq response ->
  Chain t (rq_url rq) [rq] (Some (response, rq_url rq))
| chain_redirected rq next more r : (forall f, ft_domain_filter t = Some f -> cleared f rq) -> pointed_to rq next ->
  Chain t (rq_url next) more r -> Chain t (rq_url rq) (rq :: more) r.

Lemma follow_chain rounds t phase url w :
  let '(requests, r, _) := follow trim ip_text resolve build_client send rounds t phase url w in
  Chain t url requests (match r with Ok answer => Some answer | Err _ => None end) /\ length requests <= rounds.
Proof using url_addresses resolved_addresses.
  revert phase url w. induction rounds as [| more IH]; intros phase url w; cbn [follow]; [split; [constructor | cbn; lia] |].
  destruct (validate_url_for_fetch _ _ _ _ _ _ _) as [[host | e] w1] eqn:Hv; [| split; [constructor | cbn; lia]].
  destruct (client_for_request build_client host) as [pin | e] eqn:Hc; [| split; [constructor | cbn; lia]].
  assert (pin = host) as -> by (unfold client_for_request in Hc; destruct host as [h |]; [destruct (build_client h) |]; congruence).
  destruct (send url host w1) as [sent w2] eqn:Hs.
  assert (Hcl : forall f, ft_domain_filter t = Some f -> cleared f (MkRequest url host))
    by (intros f Hf; exact (validated_is_cleared t f url phase w host w1 (sent, w2) Hf Hv Hs)).
  assert (Hone : Chain t url [MkRequest url host] None /\ 1 <= S more)
    by (split; [exact (chain_failed t (MkRequest url host) Hcl) | lia]).
  destruct sent as [response | e |]; [| exact Hone | exact Hone].
  destruct (is_redirection (rs_status response)) eqn:Hr; cbn [negb].
  2:{ split; [| cbn; lia]. apply (chain_answered t (MkRequest url host)); [exact Hcl |]. exists w1, w2. split; assumption. }
  destruct (rs_location response) as [location |] eqn:Hl; [| exact Hone].
  destruct (url_join url location) as [next | e] eqn:Hj; [| exact Hone].
  specialize (IH "Redirect" next w2). destruct (follow _ _ _ _ _ _ _ _ _ _) as [[requests r] w3]. destruct IH as [IH Hlen].
  split; [| cbn [length]; lia]. apply (chain_redirected t (MkRequest url host) (MkRequest next None)); [exact Hcl | | exact IH].
  exists w1, response, w2, location. repeat split; assumption.
Qed.

Lemma chain_cleared t f url requests r : ft_domain_filter t = Some f -> Chain t url requests r -> Forall (cleared f) requests.
Proof using. intros Hf. induction 1; constructor; auto. Qed.

(** The body is what the pieces are, and not more than the cap. *)
Lemma read_body_spec events : forall body max_bytes bytes, read_body_with_cap body events max_bytes = Ok bytes ->
  (N.of_nat (String.length body) <= max_bytes -> N.of_nat (String.length bytes) <= max_bytes)%N
  /\ exists pieces, events = map Chunk pieces /\ bytes = (body ++ foldr String.append "" pieces)%string.
Proof using.
  induction events as [| [chunk | e |] events IH]; intros body max_bytes bytes Hr; cbn [read_body_with_cap] in Hr; try discriminate.
  - injection Hr as <-. split; [auto |]. exists []. split; [reflexivity |]. cbn [foldr]. symmetry. apply string_app_nil_r.
  - destruct (max_bytes <? _)%N eqn:Hm; [discriminate |]. apply N.ltb_ge in Hm. apply IH in Hr as [Hb (pieces & -> & ->)].
    rewrite string_app_length in Hb. split; [intros _; apply Hb; lia |]. exists (chunk :: pieces). split; [reflexivity |].
    cbn [foldr]. rewrite string_app_assoc. reflexivity.
Qed.

(** What an answer has when a page is shown of it. *)
Definition readable (response : Response) : Prop :=
  (200 <= rs_status response < 300)%N
  /\ (is_html_content_type (rs_content_type response) = true ->
      exists pieces, rs_body response = map Chunk pieces
                     /\ (N.of_nat (String.length (foldr String.append "" pieces)) <= MAX_RESPONSE_BODY_BYTES)%N).

Lemma page_is_readable t response final_url :
  at_is_error (page_result split_whitespace canonical_reason t response final_url) = false -> readable response.
Proof using.
  unfold page_result, readable. destruct ((200 <=? rs_status response) && (rs_status response <? 300))%N eqn:Hst; [| discriminate].
  apply Bool.andb_true_iff in Hst as [H1 H2]. apply N.leb_le in H1. apply N.ltb_lt in H2. intros Hok. split; [auto |]. intros Hh.
  rewrite Hh in Hok. cbn [negb] in Hok. destruct (read_body_with_cap _ _ _) as [bytes | e] eqn:Hb; [| discriminate].
  apply read_body_spec in Hb as [Hl (pieces & Hp & ->)]. exists pieces. split; [exact Hp |]. apply Hl. discriminate.
Qed.

(** C13: Whatever names resolve to and servers answer, each request the fetch tool makes, the first and those after redirects, goes to a URL of scheme http or https that the filter's lists allow; where internal addresses are blocked, the address is public, and a name is pinned to an address of the lookup made just before. The requests are at most one more than the redirects allowed, each points to the next, and a page is shown only of the last one's answer, with a status 2xx and a body within the cap. *)
Theorem fetch_stays_public t params w :
  let '(requests, result, _) := fetch trim split_whitespace ip_text resolve build_client send canonical_reason t params w in
  (forall f, ft_domain_filter t = Some f -> Forall (cleared f) requests)
  /\ length requests <= S (ft_max_redirects t)
  /\ ((requests = [] /\ at_is_error result = true)
      \/ exists text url last,
           json_get params "url" ≫= json_as_str = Some text /\ url_parse text = Ok url /\ web_scheme url
           /\ Chain t url requests last
           /\ match last with
              | None => at_is_error result = true
              | Some (response, final_url) =>
                result = page_result split_whitespace canonical_reason t response final_url
                /\ (at_is_error result = false -> readable response)
              end).
Proof using url_addresses resolved_addresses.
  unfold fetch. destruct (json_get params "url" ≫= json_as_str) as [text |]; [| cbn; auto with lia].
  destruct (url_parse text) as [url | e] eqn:Hp; [| cbn; auto with lia].
  destruct (negb _) eqn:Hs; [cbn; auto with lia |].
  unfold send_get_following_checked_redirects. pose proof (follow_chain (S (ft_max_redirects t)) t "Initial" url w) as Hch.
  destruct (follow _ _ _ _ _ _ _ _ _ _) as [[requests r] w']. destruct Hch as [Hch Hlen].
  split; [intros f Hf; exact (chain_cleared t f url requests _ Hf Hch) |]. split; [exact Hlen |].
  right. exists text, url, (match r with Ok answer => Some answer | Err _ => None end).
  split; [reflexivity |]. split; [exact Hp |]. split.
  - unfold web_scheme. apply Bool.negb_false_iff, Bool.orb_true_iff in Hs. rewrite !String.eqb_eq in Hs. exact Hs.
  - split; [exact Hch |]. destruct r as [[response final_url] | e]; [| reflexivity]. split; [reflexivity | apply page_is_readable].
Qed.
End Fetching.

(** ** What the limiter promises *)

Section Limiting.
Context `{E : Ext} (rate_limit_rpm : nat).

(** A call, the instant it is checked at, and whether it is let through. *)
Definition verdicts : Type := list (N * ToolDispatchContext * bool).

(** The limiter through a sequence of calls; the clock is read under its lock. *)
Fixpoint limited (timestamps : list N) (calls : list (N * ToolDispatchContext)) : verdicts :=
  match calls with
  | [] => []
  | (now, ctx) :: calls =>
    let '(v, _, (_, timestamps)) := rate_limit_policy rate_limit_rpm ctx (now, timestamps) in
    (now, ctx, match v with Some DContinue => true | _ => false end) :: limited timestamps calls
  end.

Definition is_web (ctx : ToolDispatchContext) : bool := starts_with "web_" (dc_tool_name ctx).

(** The instants at which the plugin's tools were let through. *)
Definition passes (vs : verdicts) : list N := omap (fun '(now, ctx, ok) => if (is_web ctx && ok)%bool then Some now else None) vs.

Definition within (from to : N) (ts : list N) : list N := List.filter (fun t => (from <=? t) && (t <=? to))%N ts.

Definition monotone (calls : list (N * ToolDispatchContext)) : Prop := StronglySorted N.le (map fst calls).

Definition since (cutoff : N) (ts : list N) : list N := List.filter (fun t => cutoff <=? t)%N ts.

Lemma drop_before_since cutoff ts : StronglySorted N.le ts -> drop_before cutoff ts = since cutoff ts.
Proof using.
  induction 1 as [| t ts Hs IH Ht]; [reflexivity |]. unfold since in *. cbn [drop_before List.filter].
  destruct (t <? cutoff)%N eqn:Hc; [apply N.ltb_lt in Hc | apply N.ltb_ge in Hc].
  - replace (cutoff <=? t)%N with false by (symmetry; apply N.leb_gt; exact Hc). exact IH.
  - replace (cutoff <=? t)%N with true by (symmetry; apply N.leb_le; exact Hc). f_equal. rewrite Forall_forall in Ht.
    rewrite <- IH. destruct ts as [| u us]; [reflexivity |]. cbn [drop_before].
    replace (u <? cutoff)%N with false; [reflexivity |]. symmetry. apply N.ltb_ge.
    assert (t <= u)%N by (apply Ht, list_elem_of_here). lia.
Qed.

Lemma prune_since ts now : StronglySorted N.le ts -> prune_expired ts now WINDOW = since (now - WINDOW) ts.
Proof using.
  intros Hs. unfold prune_expired. destruct (now <? WINDOW)%N eqn:Hc; [| exact (drop_before_since _ _ Hs)].
  apply N.ltb_lt in Hc. replace (now - WINDOW)%N with 0%N by lia. unfold since. clear Hs.
  induction ts as [| t ts IH]; [reflexivity |]. cbn [List.filter]. rewrite (proj2 (N.leb_le 0 t) (N.le_0_l t)). f_equal. exact IH.
Qed.

Lemma since_since a b ts : (a <= b)%N -> since b (since a ts) = since b ts.
Proof using.
  intros Hab. unfold since. induction ts as [| t ts IH]; [reflexivity |]. cbn [List.filter].
  destruct (a <=? t)%N eqn:Ha; cbn [List.filter]; rewrite IH; [reflexivity |].
  apply N.leb_gt in Ha. replace (b <=? t)%N with false by (symmetry; apply N.leb_gt; lia). reflexivity.
Qed.

Lemma since_app c a b : since c (a ++ b) = since c a ++ since c b.
Proof using. apply List.filter_app. Qed.

Lemma since_sorted c ts : StronglySorted N.le ts -> StronglySorted N.le (since c ts).
Proof using.
  induction 1 as [| t ts Hs IH Ht]; [constructor |]. unfold since in *. cbn [List.filter]. destruct (c <=? t)%N; [| exact IH].
  constructor; [exact IH |]. apply Forall_forall. intros x [Hx _]%list_elem_of_In%filter_In. rewrite Forall_forall in Ht. apply Ht, list_elem_of_In, Hx.
Qed.

Lemma sorted_snoc ts now : StronglySorted N.le ts -> Forall (fun t => t <= now)%N ts -> StronglySorted N.le (ts ++ [now]).
Proof using.
  induction 1 as [| t ts Hs IH Ht]; intros Hle; [repeat constructor |]. inversion Hle; subst. cbn. constructor; [auto |].
  apply Forall_app. split; [exact Ht | repeat constructor; assumption].
Qed.

(** A window that holds the present holds nothing from before the limiter's. *)
Lemma window_is_recent s now ts : (now <= s + WINDOW)%N -> length (within s (s + WINDOW) ts) <= length (since (now - WINDOW) ts).
Proof using.
  intros Hs. unfold within, since. induction ts as [| t ts IH]; [cbn; lia |]. cbn [List.filter].
  destruct ((s <=? t) && (t <=? s + WINDOW))%N eqn:Hw.
  - apply Bool.andb_true_iff in Hw as [Hw _]. apply N.leb_le in Hw. replace (now - WINDOW <=? t)%N with true by (symmetry; apply N.leb_le; lia).
    cbn [length]. lia.
  - destruct (now - WINDOW <=? t)%N; cbn [length]; lia.
Qed.

Lemma within_app a b us vs : within a b (us ++ vs) = within a b us ++ within a b vs.
Proof using. apply List.filter_app. Qed.

Lemma within_present now ts : Forall (fun t => t <= now)%N ts -> within (now - WINDOW) now ts = since (now - WINDOW) ts.
Proof using.
  unfold within, since. induction 1 as [| t ts Ht _ IH]; [reflexivity |]. cbn [List.filter].
  rewrite (proj2 (N.leb_le t now) Ht), Bool.andb_true_r, IH. reflexivity.
Qed.

(** One call: it passes if it is none of the plugin's, or if the window has room. *)
Lemma limiter_step past cutoff now ctx :
  StronglySorted N.le past -> Forall (fun t => t <= now)%N past -> (cutoff <= now - WINDOW)%N ->
  let ok := (negb (is_web ctx) || (length (within (now - WINDOW) now past) <? rate_limit_rpm)%nat)%bool in
  exists v ts, rate_limit_policy rate_limit_rpm ctx (now, since cutoff past) = (Some v, dc_arguments ctx, (now, ts))
    /\ (match v with DContinue => true | _ => false end) = ok
    /\ exists cutoff', (cutoff' <= now - WINDOW)%N /\ ts = since cutoff' (past ++ passes [(now, ctx, ok)]).
Proof using.
  intros Hs Hle Hc. cbn zeta. unfold rate_limit_policy, passes, is_web. cbn [omap list_omap].
  destruct (starts_with "web_" (dc_tool_name ctx)) eqn:Hw; cbn [negb orb andb].
  2:{ eexists _, _. split; [reflexivity |]. split; [reflexivity |]. exists cutoff. rewrite app_nil_r. auto. }
  rewrite prune_since by (apply since_sorted; exact Hs). rewrite since_since by exact Hc. rewrite within_present by exact Hle.
  destruct (rate_limit_rpm <=? length (since (now - WINDOW) past))%nat eqn:Hr.
  - apply Nat.leb_le in Hr. rewrite (proj2 (Nat.ltb_ge _ _) Hr). cbn [andb]. eexists _, _. split; [reflexivity |]. split; [reflexivity |].
    exists (now - WINDOW)%N. rewrite app_nil_r. split; [lia | auto].
  - apply Nat.leb_gt in Hr. rewrite (proj2 (Nat.ltb_lt _ _) Hr). cbn [andb]. eexists _, _. split; [reflexivity |]. split; [reflexivity |].
    exists (now - WINDOW)%N. split; [lia |]. rewrite since_app. unfold since at 3. cbn [List.filter].
    replace (now - WINDOW <=? now)%N with true by (symmetry; apply N.leb_le; lia). auto.
Qed.

(** What the limiter is bound to, after [past], of the verdicts that follow. *)
Definition verdicts_fit (past : list N) (vs : verdicts) : Prop :=
  forall before now ctx ok after, vs = before ++ (now, ctx, ok) :: after ->
    ok = (negb (is_web ctx) || (length (within (now - WINDOW) now (past ++ passes before)) <? rate_limit_rpm)%nat)%bool.

Definition windows_fit (ts : list N) : Prop := forall s, (length (within s (s + WINDOW) ts) <= rate_limit_rpm)%nat.

(** A call that passes leaves every window within the limit. *)
Lemma windows_fit_pass past now ctx :
  StronglySorted N.le past -> Forall (fun t => t <= now)%N past -> windows_fit past ->
  windows_fit (past ++ passes [(now, ctx, (negb (is_web ctx) || (length (within (now - WINDOW) now past) <? rate_limit_rpm)%nat)%bool)]).
Proof using.
  intros Hs Hle Hfit s. unfold passes. cbn [omap list_omap]. destruct (is_web ctx); cbn [negb orb andb]; [| rewrite app_nil_r; apply Hfit].
  destruct (length _ <? rate_limit_rpm)%nat eqn:Hl; [| rewrite app_nil_r; apply Hfit]. apply Nat.ltb_lt in Hl. rewrite within_app, length_app.
  unfold within at 2. cbn [List.filter]. destruct ((s <=? now) && (now <=? s + WINDOW))%N eqn:Hn; cbn [length].
  - apply Bool.andb_true_iff in Hn as [_ Hn]. apply N.leb_le in Hn. rewrite within_present in Hl by exact Hle.
    pose proof (window_is_recent s now past Hn). lia.
  - pose proof (Hfit s). lia.
Qed.

Lemma limited_fits calls : forall past cutoff, monotone calls -> StronglySorted N.le past ->
  (forall now, In now (map fst calls) -> Forall (fun t => t <= now)%N past /\ (cutoff <= now - WINDOW)%N) ->
  windows_fit past ->
  verdicts_fit past (limited (since cutoff past) calls) /\ windows_fit (past ++ passes (limited (since cutoff past) calls)).
Proof using.
  induction calls as [| [now ctx] calls IH]; intros past cutoff Hm Hs Hb Hfit.
  - split; [intros [| ? ?] ? ? ? ? Heq; discriminate | cbn; rewrite app_nil_r; exact Hfit].
  - destruct (Hb now (or_introl eq_refl)) as [Hle Hc]. unfold monotone in Hm. cbn [map fst] in Hm. apply StronglySorted_inv in Hm as [Hm Hnow].
    destruct (limiter_step past cutoff now ctx Hs Hle Hc) as (v & ts & Hv & Hok & cutoff' & Hc' & ->).
    cbn [limited]. rewrite Hv, Hok. set (ok := (_ || _)%bool) in *. set (past' := past ++ passes [(now, ctx, ok)]) in *.
    destruct (IH past' cutoff' Hm) as [IHv IHw].
    + unfold past', passes. cbn [omap list_omap]. destruct (_ && _)%bool; [apply sorted_snoc; assumption | rewrite app_nil_r; exact Hs].
    + intros later Hi. rewrite Forall_forall in Hnow. assert (now <= later)%N by (apply Hnow, list_elem_of_In, Hi). split; [| lia].
      unfold past'. apply Forall_app. split; [apply (Forall_impl _ _ _ Hle); lia |].
      unfold passes. cbn [omap list_omap]. destruct (_ && _)%bool; repeat constructor; assumption.
    + exact (windows_fit_pass past now ctx Hs Hle Hfit).
    + assert (Hp : forall vs, past ++ passes ((now, ctx, ok) :: vs) = past' ++ passes vs).
      { intros vs. unfold past'. rewrite <- app_assoc. f_equal. unfold passes. cbn [omap list_omap]. destruct (_ && _)%bool; reflexivity. }
      split; [| rewrite Hp; exact IHw].
      intros [| first before] n c o after Heq.
      * injection Heq as <- <- <- _. change (passes []) with (@nil N). rewrite app_nil_r. reflexivity.
      * injection Heq as <- Heq. rewrite Hp. exact (IHv before n c o after Heq).
Qed.

(** C14: However the calls come, in no stretch of sixty seconds does the rate limiter let more calls of the plugin's tools through than its limit, and it turns such a call away only when the sixty seconds before it already hold that many; it never stops another tool. *)
Theorem rate_limit_window calls : monotone calls ->
  (forall s, length (within s (s + WINDOW) (passes (limited [] calls))) <= rate_limit_rpm)
  /\ forall before now ctx ok after, limited [] calls = before ++ (now, ctx, ok) :: after ->
       ok = (negb (is_web ctx) || (length (within (now - WINDOW) now (passes before)) <? rate_limit_rpm)%nat)%bool.
Proof using.
  intros Hm. destruct (limited_fits calls [] 0%N Hm) as [Hv Hw].
  - constructor.
  - intros now _. split; [constructor | lia].
  - intros s. cbn. lia.
  - split; [exact Hw | exact Hv].
Qed.
End Limiting.

Section Demo.
#[local] Existing Instance Externals.Toy.ext.

(** Patterns that never compile, pages of plain text, and URLs that are text. *)
#[local] Instance NoPatterns : RegexEngine := {|
  Regex := unit;
  RegexError := unit;
  regex_new _ := Err tt;
  regex_escape := fun s => s;
  is_match := fun _ _ => false;
  replace_all := fun _ s _ => s;
|}.

#[local] Instance PlainPages : Scraper := {|
  Html := string;
  ElementRef := string;
  parse_document := fun s => s;
  select := fun doc selector => if String.eqb selector "title" then [] else [doc];
  select_in := fun doc _ => [doc];
  element_texts := fun doc => [doc];
|}.

(** 169.254.169.254, where clouds keep the credentials of a machine. *)
Definition metadata : N := ((169 * 256 + 254) * 256 + 169) * 256 + 254.

#[local] Instance TextUrls : UrlCrate := {|
  Url := string;
  url_parse s := if starts_with "http://" s then Ok s else Err "relative URL without a base";
  url_scheme _ := "http";
  url_host s := Some (if String.eqb s "http://169.254.169.254" then HostIpv4 metadata else HostDomain (str_drop 7 s));
  url_host_str s := Some (str_drop 7 s);
  url_port_or_known_default _ := Some 80%N;
  url_join _ s := if starts_with "http://" s then Ok s else Err "relative URL without a base";
  url_text s := s;
|}.

(** The name [inner] stands for 10.0.0.1, every other for 8.8.8.8. *)
Definition names (domain : string) (port : N) (w : unit) : result (result (list SocketAddr) string) string * unit :=
  (Ok (Ok [(V4 (if String.eqb domain "inner" then 10 * 2 ^ 24 + 1 else 134744072)%N, port)]), w).

(** [old] moved to [page]; [evil] points to the machine's credentials. *)
Definition servers (url : string) (pin : option ResolvedHost) (w : unit) : Sending * unit :=
  (Answers
     (if String.eqb url "http://old" then MkResponse 301 (Some "http://page") "" []
      else if String.eqb url "http://evil" then MkResponse 302 (Some "http://169.254.169.254") "" []
      else if String.eqb url "http://sly" then MkResponse 302 (Some "http://inner") "" []
      else MkResponse 200 None "text/html" [Chunk "Hello"; Chunk " world"]), w).

Definition ask (url : string) : list Request * AgentToolResult * unit :=
  fetch (fun s => s) (fun s => [s]) (fun _ => "an address") names (fun _ => None) servers (fun _ => None) (fetch_new 100)
    (json_of_map {["url" := json_string url]}) tt.

Definition seen (url : string) : list string * bool := (map rq_url (fst (fst (ask url))), at_is_error (snd (fst (ask url)))).

Example fetches : map seen ["http://old"; "http://evil"; "http://sly"; "http://inner"; "ftp://a"]
  = [(["http://old"; "http://page"], false); (["http://evil"], true); (["http://sly"], true); ([], true); ([], true)].
Proof. vm_compute. reflexivity. Qed.

Lemma fetch_stays_public_witness :
  seen "http://old" = (["http://old"; "http://page"], false)
  /\ (let '(requests, _, _) := ask "http://old" in Forall (cleared (fun s => s) names servers blocking_private_ips) requests).
Proof.
  split; [vm_compute; reflexivity |]. unfold ask.
  assert (Hu : forall url : string, match url_host url with
               | Some (HostIpv4 ip) => (ip < 2 ^ 32)%N | Some (HostIpv6 ip) => (ip < 2 ^ 128)%N | _ => True end).
  { intros url. cbn [url_host TextUrls]. destruct (String.eqb url _); [reflexivity | exact I]. }
  assert (Hr : forall domain port w addrs w', names domain port w = (Ok (Ok addrs), w') -> forall a, In a addrs -> well_formed a.1).
  { intros domain port w addrs w' Hn a Hi. injection Hn as <- _. destruct Hi as [<- | []]. cbn. destruct (String.eqb domain _); reflexivity. }
  pose proof (fetch_stays_public (fun s => s) (fun s => [s]) (fun _ => "an address") names (fun _ => None) servers (fun _ => None) Hu Hr
    (fetch_new 100) (json_of_map {["url" := json_string "http://old"]}) tt) as H.
  destruct (fetch _ _ _ _ _ _ _ _ _ _) as [[requests result] w]. exact (proj1 H _ eq_refl).
Defined.

Definition search (name : string) : ToolDispatchContext :=
  MkToolDispatchContext name "id" json_null None session_new.

(** At most one call a minute: at 0, 30, 60 and 61 seconds. *)
Lemma rate_limit_window_witness :
  map snd (limited 1 [] [(0, search "web_fetch"); (30000000000, search "web_search"); (40000000000, search "bash");
                         (60000000000, search "web_fetch"); (61000000000, search "web_fetch")]%N) = [true; false; true; false; true]
  /\ monotone [(0, search "web_fetch"); (61000000000, search "web_fetch")]%N
  /\ forall s, length (within s (s + WINDOW) (passes (limited 1 [] [(0, search "web_fetch"); (61000000000, search "web_fetch")]%N))) <= 1.
Proof.
  assert (Hm : monotone [(0, search "web_fetch"); (61000000000, search "web_fetch")]%N) by (repeat constructor; discriminate).
  split; [vm_compute; reflexivity |]. split; [exact Hm |]. exact (proj1 (rate_limit_window 1 _ Hm)).
Defined.

(** Addresses that are not routable but pass: 192.0.0.8, 100::1 (discard), fec0::1 (site-local), and 10.0.0.1 as ::10.0.0.1. *)
Lemma unroutable_addresses_pass :
  map is_private_ip [V4 (192 * 2 ^ 24 + 8); V6 (256 * 2 ^ 112 + 1); V6 (65216 * 2 ^ 112 + 1); V6 (10 * 2 ^ 24 + 1)]%N = [false; false; false; false].
Proof. vm_compute. reflexivity. Qed.
End Demo.

End Web.
